(* ===== verification/_CoqProject ===== *)
-Q . S2P
Prelude.v
Utf8.v
Cutils.v
Alloc.v
DynBuf.v
Rqsort.v
CharRange.v
UnicodeTables.v
TableSearch.v
CaseConv.v
RunTable.v
UnicodeProps.v
Canonicalize.v
Reliable.v
NormTables.v
Normalize.v
NormDecomp.v
NormOrder.v
NormCompose.v
NormLoop.v
NormSpec.v
NormForms.v
ReOpcodes.v
ReExec.v
ReLex.v
ReLexSpec.v
ReClass.v
ReCompile.v
ReCode.v
ReRange.v
ReSyntax.v
ReSem.v
ReSubject.v
ReOps.v
ReSim.v
ReRefine.v
ReGreedy.v
ReCorrect.v
ReMatch.v
ReTotal.v
ReBounds.v
ReFaults.v
Limb.v
LimbOps.v
LimbDiv.v
BigFloat.v
LimbBits.v
BigFloatRound.v
BigFloatValue.v
BigFloatSpec.v
BigFloatOps.v
BigFloatUnique.v
BigFloatCorrect.v
BigFloatAdd.v
BigFloatAlign.v
BigFloatSticky.v
BigFloatAddSpec.v
BigFloatCancel.v
BigFloatSum.v
BigFloatAddCorrect.v
BigFloatExact.v
BigFloatAddTheorems.v
DList.v
GcHeap.v
Gc.v
GcMark.v
GcAgree.v
GcRelease.v
GcFree.v
GcCycles.v
GcCount.v
GcCheck.v
GcLast.v
GcProperties.v
MapTable.v
MapSpec.v
MapRep.v
MapRefine.v
MapMethods.v
MapProperties.v
