(* ===== verification/Prelude.v ===== *)
(** * libacorn: the C libraries under src/js

    A verification development for the hand-written C code that the JavaScript
    engine of the repository is built on: js/cutils.c (strings, UTF-8, dynamic
    buffers, sorting), js/libunicode.c (character ranges, case conversion,
    properties) and js/libregexp.c (the regular expression compiler and the
    backtracking executor), the core of js/libbf.c (arbitrary-precision
    floating point), and of js/quickjs.c the garbage collector and the tables
    of Map and Set.

    ** How the code is modelled

    A C array is a list of [Z], an index or a pointer into it is a [Z]; a read
    or write outside of the array, a failed [assert], [abort()] and any other
    undefined behaviour is [None].  Unsigned arithmetic wraps through [u8],
    [u16], [u32], [u64], conversions to [int32_t] through [i32].  Allocation
    goes through the class [Allocator] of Alloc.v, the host's [realloc]
    callback: whether the n-th call succeeds and what fresh memory holds are
    parameters, and [M] threads the number of calls made so far.  Loops are
    fixpoints on a fuel which the definitions compute from the data - the
    length of the array or of the pattern - and the theorems show that it
    suffices; [lre_exec_backtrack] alone takes its fuel as an argument, because
    a regular expression may run forever.  [NFD_DEPTH] bounds the
    depth of the recursive decomposition; the tables are checked to need less.

    ** The files

    - Prelude.v: machine integers, arrays, tactics.  Alloc.v: the allocator
      and its monad.  Reliable.v: total correctness, [wp], when memory does
      not run out.
    - Utf8.v, Cutils.v: js/cutils.c, js/cutils.h: UTF-8, bounded strings,
      little-endian access, surrogates.  DynBuf.v: growing buffers.
      Rqsort.v: the quicksort with its fallbacks.
    - CharRange.v: js/libunicode.c, sets of code points as sorted bounds.
      UnicodeTables.v: the tables of js/libunicode-table.h.  TableSearch.v,
      CaseConv.v: case conversion and folding.  RunTable.v: the indexed
      run-length tables and the predicates on them.  UnicodeProps.v: names,
      general categories, scripts, derived properties.  Canonicalize.v: the
      image of a range under canonicalization.
    - NormTables.v: the tables of decompositions and combining classes.
      Normalize.v: js/libunicode.c from [unicode_decomp_entry] to
      [unicode_normalize].  NormDecomp.v: the decompositions as a map, and the
      full decomposition.  NormOrder.v: canonical ordering.  NormCompose.v,
      NormLoop.v: composition of pairs and of strings.  NormSpec.v: the
      buffer that [to_nfd_rec] fills.  NormForms.v: the four normal forms.
    - ReOpcodes.v: js/libregexp-opcode.h and the layout of the header.
      ReExec.v: the executor.  ReLex.v: digits, escapes and group names;
      ReLexSpec.v: their theorems.  ReClass.v: atoms and classes.
      ReCompile.v: terms, quantifiers, groups, [lre_compile].
      ReCode.v, ReRange.v: byte code in memory, and the tables of ranges from
      [re_emit_range] to the executor.
    - ReSyntax.v: the constructs that the compiler emits code for, and their
      code.  ReSem.v: their backtracking semantics, without byte code.
      ReSubject.v: characters and surrogate pairs of the subject.  ReOps.v,
      ReSim.v, ReRefine.v, ReGreedy.v: the executor implements the semantics,
      instruction by instruction and construct by construct.  ReCorrect.v puts
      them together, ReMatch.v states it of [lre_exec].  ReTotal.v: searches
      that end.  ReBounds.v: where a match is.  ReFaults.v: two patterns that
      the engine mistreats.

    - Limb.v: js/libbf.h and js/libbf.c, machine words of 64 or 32 bits (the
      class [LimbSize]) and loops over arrays of them.  LimbOps.v: addition,
      subtraction, shifts, multiplication and comparison of arrays.
      LimbDiv.v: division by a limb with a precomputed inverse, and the
      schoolbook division.  BigFloat.v: [bf_t], conversions, comparison,
      rounding, normalization and multiplication.  LimbBits.v: the bits of an
      array.  BigFloatRound.v: the steps of [__bf_round].  BigFloatValue.v:
      the rational that a number stands for, and its order.  BigFloatSpec.v:
      the reference rounding, and that [__bf_round] implements it.
      BigFloatOps.v, BigFloatUnique.v, BigFloatCorrect.v: rounded operations.
    - BigFloatAdd.v: addition and subtraction.  BigFloatAlign.v: the bits of
      a shifted operand.  BigFloatSticky.v: rounding from a sticky bit.
      BigFloatAddSpec.v: the loops over the limbs of a sum, the jumps over
      gaps included.  BigFloatCancel.v: cancelled bits.  BigFloatSum.v,
      BigFloatAddCorrect.v: the rounded sum, zeros, infinities and NaN.
      BigFloatExact.v: sums at infinite precision.  BigFloatAddTheorems.v:
      what [bf_add] and [bf_sub] guarantee.

    - DList.v: js/list.h, intrusive lists as rings of pointers, and the
      sequences that they hold.  GcHeap.v: js/quickjs.c, values and objects,
      and what [mark_children] visits.  Gc.v: reference counts, the collector
      and the free functions, on a heap of objects with the three lists of
      [JSRuntime].  GcMark.v: [gc_decref] and [gc_scan].  GcAgree.v: an object
      gives up what it marks.  GcRelease.v: the free functions against an
      interface ([FreeProtocol]), which GcFree.v and GcCycles.v implement for
      [gc_free_cycles] and GcCount.v for [free_zero_refcount].
      GcCycles.v, GcCount.v: the two as a whole.  GcCheck.v: the
      invariants as boolean functions, and two heaps.  GcLast.v: the last
      reference to an object, a third implementation of the interface.
      GcProperties.v: what they guarantee.
    - MapTable.v: js/quickjs.c, the tables of Map and Set on a memory in which
      a freed record is gone, with the methods and the iterators.  MapSpec.v:
      SameValueZero and hashes; the table as ECMAScript has it, a sequence of
      entries and holes, an iterator being an index into it.  MapRep.v: how
      the records, the lists and the counts represent that, the changes that
      keep it, the loops and the resizing.  MapRefine.v: iterators that die,
      lookup and deletion.  MapMethods.v: insertion, iteration and clearing.
      MapProperties.v: what the methods promise.

    ** The theorems

    [lre_exec] refines the backtracking semantics: it returns the first
    outcome of the pattern, in the order of ECMAScript, at the first position
    that has one; it returns at all when the loops of the pattern advance; and
    the match is a substring of the subject.  The semantics is a relation
    [ev] without fuel, so that the refinement gives a bound on the fuel of
    [lre_exec_backtrack] for each search that ends.  Round trips of the codecs (UTF-8, surrogates); functional behaviour of the
    range algebra as set operations; the property tables and programs
    against the formulas of Unicode Standard Annex #44, by name; canonical
    forms against ECMAScript and the full case folding; the sorts return sorted permutations and
    terminate; buffers refine the list of bytes appended; the lexer of the
    regular expression compiler stays inside the pattern; the range tables
    that the compiler emits accept exactly their characters.  Normalization is
    specified by the full decompositions of the characters, the normal form of
    a string under exchanges of adjacent marks, and the composition algorithm
    of Unicode on lists, a relation over the primary composites: these come
    from the decompositions into two characters and the characters that
    Unicode excludes, not from the table of pairs that the code searches
    ([compose_string] is what the loop computes with that table, and
    [composition_canonical] ties the two).  The forms are equivalent to the source and idempotent,
    for every string of code points but those that hold U+11A7.
    A big float stands for a rational; [ref_round] rounds a mantissa in any
    mode and precision with underflow, overflow and subnormal numbers, its
    result depends on the value only ([rounds_to_unique]), and [bf_round],
    [bf_mul], [bf_add] and [bf_sub] return it, in canonical form.  The bounds
    on sizes and exponents in these theorems ([small_operand], [addable]) are
    a fraction of the address space: they keep the sums of exponents and of
    lengths inside of a word.
    For the collector an object is kept by the references from outside,
    [ext]: the stack, C variables, roots.  When the counts are right,
    [heap_ok], a collection terminates without a failed assertion or an access
    to freed memory, leaves exactly the objects that [ext] reaches, and leaves
    the counts right; giving a reference up ([JS_FreeValueRT]) keeps them
    right too, and needs the collector for cycles only.  The conditions on the
    objects that can be freed, [body_ok] and [release_typed], are those that
    the engine keeps: a deleted property holds no reference, a generator that
    is done has no state, a field refers to an object of its type.
    Each method of a Map or a Set refines the operation on the sequence of
    entries ([refines]): the search in a bucket finds the entry with the key,
    an iterator goes over the entries whatever is inserted and deleted
    meanwhile, and a record is freed when neither the entry nor an iterator
    holds it.  The memory that an insertion gets and what the collector frees
    with a value are arguments ([room], [dies]): [clear] needs that no iterator
    dies in it that stands on a deleted entry, and reads freed memory if one
    does ([js_map_clear_use_after_free]).  The fuel of the loops is the number
    of the records.
    Two counters of the source are of type int where the model has integers:
    those of [mp_sub] and [mp_neg], so that the theorems on division speak of
    the program below 2^31 limbs, and the new size in [cr_realloc], below
    7 * 10^8 points.

    ** Not modelled

    js/libbf.c beyond the above: the division and square root of floats,
    elementary functions, text, and what CONFIG_BIGNUM adds (FFT
    multiplication, decimal floats).  js/quickjs.c but for the collector and the tables: of an
    object the model keeps what the collector looks at, so strings, symbols,
    atoms and big integers, which it does not count, are values without a
    heap, the records of a map are those that are not deleted, and no object
    has weak references (WeakMap, WeakSet, WeakRef).  Of Map and Set, forEach and
    groupBy, which call functions of the program, the iterable of the
    constructor and the finalizer of the table.  The host tools; the C++
    application framework under base, ux and lib.  [lre_check_stack_overflow]
    is a parameter: it asks the host for its stack. *)
From stdpp Require Export base list numbers option sets sorting strings.
From Stdlib Require Export ZArith Lia.
#[export] Set Default Goal Selector "!".
#[global] Open Scope Z_scope.

(** ** Machine integers

    A C unsigned integer of width [w] is a [Z] in [0, 2^w); the wrap-around of
    its arithmetic is written out with the functions below. *)
Definition u8 (x : Z) : Z := x mod 2 ^ 8.
Definition u16 (x : Z) : Z := x mod 2 ^ 16.
Definition u32 (x : Z) : Z := x mod 2 ^ 32.
Definition u64 (x : Z) : Z := x mod 2 ^ 64.
(** conversion to [int32_t] (two's complement, as every supported compiler does) *)
Definition i32 (x : Z) : Z := (x + 2 ^ 31) mod 2 ^ 32 - 2 ^ 31.
Definition INT32_MAX : Z := 2 ^ 31 - 1.
Definition UINT32_MAX : Z := 2 ^ 32 - 1.
(** a C boolean: the [int] 0 or 1 *)
Definition b2z (b : bool) : Z := if b then 1 else 0.

(** ** Arrays

    A C array is a list; an index is a [Z].  Reading outside the array is
    undefined behaviour, which the model makes visible as [None]. *)
Definition aget {A} (l : list A) (i : Z) : option A :=
  if i <? 0 then None else l !! Z.to_nat i.
Definition aset {A} (l : list A) (i : Z) (x : A) : option (list A) :=
  if (i <? 0) || (Z.of_nat (length l) <=? i) then None else Some (<[Z.to_nat i := x]> l).
Definition zlen {A} (l : list A) : Z := Z.of_nat (length l).
Definition zdrop {A} (n : Z) (l : list A) : list A := drop (Z.to_nat n) l.
Definition ztake {A} (n : Z) (l : list A) : list A := take (Z.to_nat n) l.

Declare Scope c_scope.
Delimit Scope c_scope with c.
Notation "l .[ i ]" := (aget l i) (at level 1, left associativity, format "l .[ i ]") : c_scope.
Notation "x << n" := (Z.shiftl x n) (at level 53, left associativity) : c_scope.
Notation "x >> n" := (Z.shiftr x n) (at level 53, left associativity) : c_scope.
Notation "x .& y" := (Z.land x y) (at level 54, left associativity) : c_scope.
Notation "x .| y" := (Z.lor x y) (at level 58, left associativity) : c_scope.
Notation "x .^ y" := (Z.lxor x y) (at level 57, left associativity) : c_scope.
#[global] Open Scope c_scope.

(** bytes of an array are in range *)
Definition is_byte (b : Z) : Prop := 0 <= b < 256.
Definition bytes (l : list Z) : Prop := Forall is_byte l.

(** ** Tactics *)

(** Turn boolean comparisons in the context into propositions. *)
Ltac bool_props :=
  repeat match goal with
  | H : (_ && _) = true |- _ => apply andb_true_iff in H; destruct H
  | H : (_ || _) = false |- _ => apply orb_false_iff in H; destruct H
  | H : (_ && _) = false |- _ => apply andb_false_iff in H
  | H : (_ || _) = true |- _ => apply orb_true_iff in H
  | H : negb _ = true |- _ => apply negb_true_iff in H
  | H : negb _ = false |- _ => apply negb_false_iff in H
  | H : (_ <? _) = true |- _ => apply Z.ltb_lt in H
  | H : (_ <? _) = false |- _ => apply Z.ltb_ge in H
  | H : (_ <=? _) = true |- _ => apply Z.leb_le in H
  | H : (_ <=? _) = false |- _ => apply Z.leb_gt in H
  | H : (_ =? _) = true |- _ => apply Z.eqb_eq in H
  | H : (_ =? _) = false |- _ => apply Z.eqb_neq in H
  | H : (_ >=? _) = _ |- _ => rewrite Z.geb_leb in H
  | H : (_ >? _) = _ |- _ => rewrite Z.gtb_ltb in H
  end.
(** Case analysis on the tests of the goal, with the comparison as a fact. *)
Ltac zcase :=
  match goal with
  | |- context [if (?a <? ?b) then _ else _] => destruct (Z.ltb_spec a b)
  | |- context [if (?a <=? ?b) then _ else _] => destruct (Z.leb_spec a b)
  | |- context [if (?a =? ?b) then _ else _] => destruct (Z.eqb_spec a b)
  | |- context [if ?b then _ else _] =>
      let E := fresh "E" in destruct b eqn:E; bool_props
  end.
(** [lia] on facts that still hold boolean connectives. *)
Ltac blia := repeat (progress (bool_props; destruct_or?)); bool_props; lia.
(** Read off the binds of an [option] computation known to succeed. *)
Ltac inv_some :=
  repeat match goal with
  | H : Some _ = Some _ |- _ => injection H; clear H; intros; subst
  | H : None = Some _ |- _ => discriminate H
  | H : Some _ = None |- _ => discriminate H
  | H : (_ ≫= _) = Some _ |- _ => apply bind_Some in H; destruct H as (? & ? & H)
  | H : (_, _) = (_, _) |- _ => injection H; clear H; intros; subst
  end.

(** ** Lemmas on arrays *)
Lemma zlen_nonneg {A} (l : list A) : 0 <= zlen l.
Proof. unfold zlen. lia. Qed.
Lemma zlen_app {A} (l k : list A) : zlen (l ++ k) = zlen l + zlen k.
Proof. unfold zlen. rewrite length_app. lia. Qed.
Lemma zlen_cons {A} x (l : list A) : zlen (x :: l) = 1 + zlen l.
Proof. unfold zlen. cbn [length]. lia. Qed.
Lemma zlen_nil {A} : zlen (@nil A) = 0.
Proof. reflexivity. Qed.

Lemma aget_nat {A} (l : list A) (i : nat) : aget l (Z.of_nat i) = l !! i.
Proof. unfold aget. zcase; [lia|]. by rewrite Nat2Z.id. Qed.
Lemma aget_Some_range {A} (l : list A) i x : aget l i = Some x → 0 <= i < zlen l.
Proof.
  unfold aget, zlen. zcase; [done|]. intros Hl%lookup_lt_Some. lia.
Qed.
Lemma aget_is_Some {A} (l : list A) i : 0 <= i < zlen l → is_Some (aget l i).
Proof.
  unfold aget, zlen. intros. zcase; [lia|]. apply lookup_lt_is_Some. lia.
Qed.
Lemma aget_is_Some_iff {A} (l : list A) i : is_Some (aget l i) ↔ 0 <= i < zlen l.
Proof. split; [intros [x Hx]; by eapply aget_Some_range | apply aget_is_Some]. Qed.
Lemma aget_app_l {A} (l k : list A) i : i < zlen l → aget (l ++ k) i = aget l i.
Proof.
  unfold aget, zlen. intros. zcase; [done|]. apply lookup_app_l. lia.
Qed.
Lemma aget_app_r {A} (l k : list A) i :
  zlen l <= i → aget (l ++ k) i = aget k (i - zlen l).
Proof.
  unfold aget, zlen. intros. zcase; [lia|]. zcase; [lia|].
  rewrite lookup_app_r by lia. f_equal. lia.
Qed.
Lemma aget_cons_0 {A} x (l : list A) : aget (x :: l) 0 = Some x.
Proof. reflexivity. Qed.
Lemma aget_cons_pos {A} x (l : list A) i : 0 < i → aget (x :: l) i = aget l (i - 1).
Proof.
  intros. change (x :: l) with ([x] ++ l). rewrite aget_app_r; [done|].
  unfold zlen; cbn; lia.
Qed.
Lemma aget_app_at {A} (l k : list A) x : aget (l ++ x :: k) (zlen l) = Some x.
Proof. by rewrite aget_app_r, Z.sub_diag by lia. Qed.
Lemma aget_app_off {A} (l k : list A) i : 0 <= i → aget (l ++ k) (zlen l + i) = aget k i.
Proof. intros. rewrite aget_app_r by lia. f_equal. lia. Qed.
Create Rewrite HintDb zlen.
#[export] Hint Rewrite @zlen_app @zlen_cons @zlen_nil : zlen.


(** ** Bit operations as arithmetic *)
Lemma land_shiftl_small x y k : 0 <= k → 0 <= y < 2 ^ k → (x << k) .& y = 0.
Proof.
  intros Hk Hy. apply Z.bits_inj'. intros n Hn.
  rewrite Z.land_spec, Z.bits_0, Z.shiftl_spec by done.
  destruct (Z.ltb_spec n k).
  - rewrite (Z.testbit_neg_r x (n - k)) by lia. done.
  - destruct (decide (y = 0)) as [->|]; [by rewrite Z.bits_0, andb_false_r|].
    rewrite (Z.bits_above_log2 y), andb_false_r; [done|lia|].
    apply Z.log2_lt_pow2; [lia|].
    apply Z.lt_le_trans with (2 ^ k); [lia|]. apply Z.pow_le_mono_r; lia.
Qed.
(** [(x << k) | y] is [x * 2^k + y] when [y] fits in the [k] low bits. *)
Lemma lor_shiftl_add x y k : 0 <= k → 0 <= y < 2 ^ k → (x << k) .| y = x * 2 ^ k + y.
Proof.
  intros. rewrite <- Z.add_nocarry_lor by (by apply land_shiftl_small).
  by rewrite Z.shiftl_mul_pow2.
Qed.
(** The same with the high part already a multiple of [2^k]. *)
Lemma lor_mul_add x y k :
  0 <= k → 0 <= y < 2 ^ k → (x * 2 ^ k) .| y = x * 2 ^ k + y.
Proof. intros. by rewrite <- Z.shiftl_mul_pow2, lor_shiftl_add, Z.shiftl_mul_pow2. Qed.
Lemma shiftr_div x k : 0 <= k → x >> k = x / 2 ^ k.
Proof. apply Z.shiftr_div_pow2. Qed.
Lemma land_mask x k : 0 <= k → x .& (2 ^ k - 1) = x mod 2 ^ k.
Proof. intros. rewrite <- Z.land_ones by done. by rewrite Z.ones_equiv, Z.sub_1_r. Qed.
Lemma land_1_mod x : x .& 1 = x mod 2.
Proof. apply (land_mask x 1). lia. Qed.

(** Exhaustive checks over an interval of integers. *)
Fixpoint forall_range (P : Z → bool) (lo : Z) (n : nat) : bool :=
  match n with
  | O => true
  | S n => P lo && forall_range P (lo + 1) n
  end.
Lemma forall_range_spec P lo n :
  forall_range P lo n = true → ∀ i, lo <= i < lo + Z.of_nat n → P i = true.
Proof.
  revert lo. induction n as [|n IH]; intros lo H i Hi; [lia|].
  cbn [forall_range] in H. bool_props.
  destruct (decide (i = lo)) as [->|]; [done|]. apply (IH (lo + 1)); [done|lia].
Qed.
(** ** Array updates *)
Lemma aset_app_off {A} (l k : list A) i x :
  0 <= i → aset (l ++ k) (zlen l + i) x = (k' ← aset k i x; Some (l ++ k')).
Proof.
  intros Hi. unfold aset, zlen. rewrite length_app.
  destruct (Z.ltb_spec i 0), (Z.ltb_spec (Z.of_nat (length l) + i) 0); try lia.
  destruct (Z.leb_spec (Z.of_nat (length l + length k)) (Z.of_nat (length l) + i)),
    (Z.leb_spec (Z.of_nat (length k)) i); try lia; cbn; [done|].
  rewrite insert_app_r_alt by lia. do 3 f_equal. lia.
Qed.
Lemma aset_0 {A} (y : A) k x : aset (y :: k) 0 x = Some (x :: k).
Proof. unfold aset. cbn [length]. destruct (Z.leb_spec (Z.of_nat (S (length k))) 0); [lia|done]. Qed.
Lemma aset_1 {A} (y z : A) k x : aset (y :: z :: k) 1 x = Some (y :: x :: k).
Proof. unfold aset. cbn [length]. destruct (Z.leb_spec (Z.of_nat (S (S (length k)))) 1); [lia|done]. Qed.
Lemma aset_app_at {A} (l k : list A) y x : aset (l ++ y :: k) (zlen l) x = Some (l ++ x :: k).
Proof. rewrite <- (Z.add_0_r (zlen l)), aset_app_off by lia. by rewrite aset_0. Qed.
Lemma ztake_app {A} (l k : list A) : ztake (zlen l) (l ++ k) = l.
Proof. unfold ztake, zlen. by rewrite Nat2Z.id, take_app_length. Qed.
Lemma zdrop_app {A} (l k : list A) : zdrop (zlen l) (l ++ k) = k.
Proof. unfold zdrop, zlen. by rewrite Nat2Z.id, drop_app_length. Qed.
Lemma ztake_zdrop {A} i (l : list A) : ztake i l ++ zdrop i l = l.
Proof. apply take_drop. Qed.
Lemma zlen_ztake {A} i (l : list A) : 0 <= i <= zlen l → zlen (ztake i l) = i.
Proof. unfold zlen, ztake. rewrite length_take. lia. Qed.
Lemma zlen_zdrop {A} i (l : list A) : 0 <= i <= zlen l → zlen (zdrop i l) = zlen l - i.
Proof. unfold zlen, zdrop. rewrite length_drop. lia. Qed.
Lemma aget_zdrop {A} p (l : list A) i : 0 <= p → 0 <= i → (zdrop p l).[i] = l.[p + i].
Proof.
  intros. unfold aget, zdrop. zcase; [lia|]. zcase; [lia|]. rewrite lookup_drop. f_equal. lia.
Qed.
Lemma zdrop_zdrop {A} p q (l : list A) : 0 <= p → 0 <= q → zdrop q (zdrop p l) = zdrop (p + q) l.
Proof. intros. unfold zdrop. rewrite drop_drop. f_equal. lia. Qed.
