(* ===== verification/Utf8.v ===== *)
(** * The UTF-8 codec of js/cutils.c

    [unicode_to_utf8] and [unicode_from_utf8], for the 31-bit code points of
    the original UTF-8 definition.  A buffer is the list of its bytes; a
    successful decoding returns the code point with the number of bytes by
    which [*pp] advances. *)
From S2P Require Import Prelude.

Definition UTF8_CHAR_LEN_MAX : Z := 6.

(** The bytes stored in [buf]; the C function returns their number. *)
Definition unicode_to_utf8 (c : Z) : list Z :=
  if c <? 0x80 then [u8 c]
  else
    let last := [u8 ((c .& 0x3f) .| 0x80)] in
    if c <? 0x800 then u8 ((c >> 6) .| 0xc0) :: last
    else
      let tail2 := u8 (((c >> 6) .& 0x3f) .| 0x80) :: last in
      if c <? 0x10000 then u8 ((c >> 12) .| 0xe0) :: tail2
      else
        let tail3 := u8 (((c >> 12) .& 0x3f) .| 0x80) :: tail2 in
        if c <? 0x00200000 then u8 ((c >> 18) .| 0xf0) :: tail3
        else
          let tail4 := u8 (((c >> 18) .& 0x3f) .| 0x80) :: tail3 in
          if c <? 0x04000000 then u8 ((c >> 24) .| 0xf8) :: tail4
          else if c <? 0x80000000 then
            u8 ((c >> 30) .| 0xfc) :: u8 (((c >> 24) .& 0x3f) .| 0x80) :: tail4
          else [].

Definition utf8_min_code : list Z := [0x80; 0x800; 0x10000; 0x00200000; 0x04000000].
Definition utf8_first_code_mask : list Z := [0x1f; 0xf; 0x7; 0x3; 0x1].

(** The [switch] on the first byte: the number of continuation bytes. *)
Definition utf8_trail_len (c : Z) : option Z :=
  if (0xc0 <=? c) && (c <=? 0xdf) then Some 1
  else if (0xe0 <=? c) && (c <=? 0xef) then Some 2
  else if (0xf0 <=? c) && (c <=? 0xf7) then Some 3
  else if (0xf8 <=? c) && (c <=? 0xfb) then Some 4
  else if (0xfc <=? c) && (c <=? 0xfd) then Some 5
  else None.

(** The loop over the [l] continuation bytes at [p]; -1 on a bad byte. *)
Fixpoint utf8_trail_loop (l : nat) (p : list Z) (i c : Z) : option Z :=
  match l with
  | O => Some c
  | S l =>
    b ← p.[i];
    if (b <? 0x80) || (b >=? 0xc0) then Some (-1)
    else utf8_trail_loop l p (i + 1) ((c << 6) .| (b .& 0x3f))
  end.

(** [Some (c, n)]: [c] is returned and [*pp = p + n]; on error [c] is -1 and
    [*pp] is unchanged ([n = 0]).  [None]: a read outside of [p]. *)
Definition unicode_from_utf8 (p : list Z) (max_len : Z) : option (Z * Z) :=
  c ← p.[0];
  if c <? 0x80 then Some (c, 1)
  else
    match utf8_trail_len c with
    | None => Some (-1, 0)
    | Some l =>
      if l >? max_len - 1 then Some (-1, 0)
      else
        m ← utf8_first_code_mask.[l - 1];
        c ← utf8_trail_loop (Z.to_nat l) p 1 (c .& m);
        lo ← utf8_min_code.[l - 1];
        if c <? lo then Some (-1, 0) else Some (c, 1 + l)
    end.

(** ** Auxiliary facts *)

(** the value of a continuation byte *)
Definition is_cont (b : Z) : Prop := 0x80 <= b < 0xc0.

Lemma cont_byte x : u8 ((x .& 0x3f) .| 0x80) = 0x80 + x mod 64.
Proof.
  change 0x3f with (2 ^ 6 - 1). rewrite land_mask by lia.
  pose proof (Z.mod_pos_bound x (2 ^ 6) ltac:(lia)).
  rewrite Z.lor_comm. change 0x80 with (2 * 2 ^ 6) at 1.
  rewrite lor_mul_add by lia. unfold u8. change (2 ^ 6) with 64 in *. change (2 ^ 8) with 256.
  rewrite (Z.mod_small (_ + _)); lia.
Qed.
Lemma cont_land b : is_cont b → b .& 0x3f = b - 0x80.
Proof.
  unfold is_cont. intros. change 0x3f with (2 ^ 6 - 1). rewrite land_mask by lia.
  Z.div_mod_to_equations. lia.
Qed.
Lemma trail_step c b : is_cont b → (c << 6) .| (b .& 0x3f) = c * 64 + (b - 0x80).
Proof.
  intros H. rewrite cont_land by done. apply lor_shiftl_add; unfold is_cont in H; lia.
Qed.
(** the first byte: [mark] is a multiple of [2^k] above the payload *)
Lemma first_byte x m k :
  0 <= k → 0 <= x < 2 ^ k → 0 <= m → (m + 1) * 2 ^ k <= 256 →
  u8 (x .| (m * 2 ^ k)) = m * 2 ^ k + x.
Proof.
  intros. rewrite Z.lor_comm, lor_mul_add by lia. unfold u8. rewrite Z.mod_small; nia.
Qed.

(** Reading the continuation bytes of an encoding: [conts n c] are the [n]
    low 6-bit groups of [c], most significant first. *)
Fixpoint conts (n : nat) (c : Z) : list Z :=
  match n with
  | O => []
  | S n => (0x80 + (c / 64 ^ Z.of_nat n) mod 64) :: conts n c
  end.

Lemma zlen_conts n c : zlen (conts n c) = Z.of_nat n.
Proof. induction n; cbn [conts]; autorewrite with zlen; lia. Qed.

Lemma utf8_trail_loop_conts n c pre rest acc :
  utf8_trail_loop n (pre ++ conts n c ++ rest) (zlen pre) acc =
  Some (acc * 64 ^ Z.of_nat n + c mod 64 ^ Z.of_nat n).
Proof.
  revert pre acc. induction n as [|n IH]; intros pre acc; cbn [utf8_trail_loop conts].
  - rewrite Z.mod_1_r. f_equal. lia.
  - rewrite aget_app_r, Z.sub_diag by lia. cbn [app]. rewrite aget_cons_0. cbn [mbind option_bind].
    pose proof (Z.mod_pos_bound (c / 64 ^ Z.of_nat n) 64 ltac:(lia)) as Hb.
    rewrite Z.geb_leb. zcase; [lia|]. bool_props.
    rewrite trail_step by (unfold is_cont; lia).
    specialize (IH (pre ++ [0x80 + (c / 64 ^ Z.of_nat n) mod 64])).
    rewrite <- app_assoc in IH. cbn [app] in IH. autorewrite with zlen in IH.
    replace (zlen pre + (1 + 0)) with (zlen pre + 1) in IH by lia.
    rewrite IH. f_equal. rewrite Nat2Z.inj_succ, Z.pow_succ_r by lia.
    pose proof (Z.pow_pos_nonneg 64 (Z.of_nat n) ltac:(lia) ltac:(lia)) as Hp.
    rewrite (Z.mul_comm 64), Z.rem_mul_r by lia. lia.
Qed.

(** The five multi-byte classes: [n] continuation bytes, first-byte [mark],
    payload of [k] bits, code points in [lo, 2^(k + 6n)). *)
Definition utf8_class (n : nat) (mark k lo : Z) : Prop :=
  (n, mark, k, lo) ∈ [ (1%nat, 0xc0, 5, 0x80); (2%nat, 0xe0, 4, 0x800);
    (3%nat, 0xf0, 3, 0x10000); (4%nat, 0xf8, 2, 0x200000); (5%nat, 0xfc, 1, 0x4000000) ].

Ltac class_cases H :=
  unfold utf8_class in H; repeat (apply elem_of_cons in H; destruct H as [[= -> -> -> ->]|H]);
  [ .. | by apply elem_of_nil in H ].

Ltac in_class := unfold utf8_class; rewrite !elem_of_cons; tauto.

Lemma cont_shift c (k : nat) :
  u8 ((c >> (6 * Z.of_nat k) .& 0x3f) .| 0x80) = 0x80 + (c / 64 ^ Z.of_nat k) mod 64.
Proof.
  rewrite cont_byte, shiftr_div by lia. rewrite Z.pow_mul_r by lia. done.
Qed.

Lemma first_shift c s k m :
  0 <= s → 0 <= k → 0 <= m → (m + 1) * 2 ^ k <= 256 → 0 <= c < 2 ^ (k + s) →
  u8 ((c >> s) .| (m * 2 ^ k)) = m * 2 ^ k + c / 2 ^ s.
Proof.
  intros ???? Hc. rewrite shiftr_div by done. apply first_byte; try done.
  rewrite Z.pow_add_r in Hc by done.
  split; [apply Z.div_pos; lia|apply Z.div_lt_upper_bound; lia].
Qed.

Lemma unicode_to_utf8_class n mark k lo c :
  utf8_class n mark k lo → lo <= c < 2 ^ (k + 6 * Z.of_nat n) →
  unicode_to_utf8 c = mark + c / 64 ^ Z.of_nat n :: conts n c.
Proof.
  intros Hc. unfold unicode_to_utf8.
  pose proof (cont_shift c 0) as C0. cbn in C0. rewrite Z.shiftr_0_r in C0.
  pose proof (cont_shift c 1 : u8 (c >> 6 .& 63 .| 128) = _) as C1.
  pose proof (cont_shift c 2 : u8 (c >> 12 .& 63 .| 128) = _) as C2.
  pose proof (cont_shift c 3 : u8 (c >> 18 .& 63 .| 128) = _) as C3.
  pose proof (cont_shift c 4 : u8 (c >> 24 .& 63 .| 128) = _) as C4.
  class_cases Hc; cbn -[Z.land Z.lor Z.shiftr Z.div Z.modulo Z.pow];
    intros Hr; repeat (zcase; [lia|]); try (zcase; [|lia]);
    rewrite ?C0, ?C1, ?C2, ?C3, ?C4; f_equal.
  - apply (first_shift c 6 5 6); lia.
  - apply (first_shift c 12 4 14); lia.
  - apply (first_shift c 18 3 30); lia.
  - apply (first_shift c 24 2 62); lia.
  - apply (first_shift c 30 1 126); lia.
Qed.

(** The decoder on a first byte of class [n]. *)
Lemma utf8_class_first n mark k lo x :
  utf8_class n mark k lo → 0 <= x < 2 ^ k →
  0x80 <= mark + x ∧ utf8_trail_len (mark + x) = Some (Z.of_nat n) ∧
  (∃ m, utf8_first_code_mask.[Z.of_nat n - 1] = Some m ∧ (mark + x) .& m = x) ∧
  utf8_min_code.[Z.of_nat n - 1] = Some lo.
Proof.
  intros Hc. unfold utf8_trail_len.
  class_cases Hc; intros Hx;
    (split; [lia|]); (split; [repeat (zcase; try lia); done|]); (split; [|done]);
    eexists; (split; [reflexivity|]).
  - change 0x1f with (2 ^ 5 - 1). rewrite land_mask by lia. Z.div_mod_to_equations; lia.
  - change 0xf with (2 ^ 4 - 1). rewrite land_mask by lia. Z.div_mod_to_equations; lia.
  - change 0x7 with (2 ^ 3 - 1). rewrite land_mask by lia. Z.div_mod_to_equations; lia.
  - change 0x3 with (2 ^ 2 - 1). rewrite land_mask by lia. Z.div_mod_to_equations; lia.
  - change 0x1 with (2 ^ 1 - 1). rewrite land_mask by lia. Z.div_mod_to_equations; lia.
Qed.

Lemma utf8_class_first_inv c l :
  is_byte c → utf8_trail_len c = Some l →
  ∃ n mark k lo x, l = Z.of_nat n ∧ utf8_class n mark k lo ∧ c = mark + x ∧ 0 <= x < 2 ^ k.
Proof.
  intros Hb. unfold utf8_trail_len.
  repeat (zcase; [intros [= <-]|]); [..|done];
    [ exists 1%nat, 0xc0, 5, 0x80, (c - 0xc0) | exists 2%nat, 0xe0, 4, 0x800, (c - 0xe0)
    | exists 3%nat, 0xf0, 3, 0x10000, (c - 0xf0) | exists 4%nat, 0xf8, 2, 0x200000, (c - 0xf8)
    | exists 5%nat, 0xfc, 1, 0x4000000, (c - 0xfc) ];
    (split; [done|]); (split; [in_class|]); lia.
Qed.

Lemma utf8_class_of c :
  0x80 <= c < 2 ^ 31 → ∃ n mark k lo, utf8_class n mark k lo ∧ lo <= c < 2 ^ (k + 6 * Z.of_nat n).
Proof.
  intros.
  destruct (decide (c < 0x800)); [exists 1%nat, 0xc0, 5, 0x80|
  destruct (decide (c < 0x10000)); [exists 2%nat, 0xe0, 4, 0x800|
  destruct (decide (c < 0x200000)); [exists 3%nat, 0xf0, 3, 0x10000|
  destruct (decide (c < 0x4000000)); [exists 4%nat, 0xf8, 2, 0x200000|
  exists 5%nat, 0xfc, 1, 0x4000000]]]];
  (split; [in_class|lia]).
Qed.

(** A successful run of the continuation loop has read exactly [conts]. *)
Lemma utf8_trail_loop_inv n p i acc r :
  0 <= i → 0 <= acc → utf8_trail_loop n p i acc = Some r → r ≠ -1 →
  ∃ v, 0 <= v < 64 ^ Z.of_nat n ∧ r = acc * 64 ^ Z.of_nat n + v ∧
    take n (zdrop i p) = conts n r.
Proof.
  revert i acc. induction n as [|n IH]; intros i acc Hi Hacc; cbn [utf8_trail_loop conts].
  - intros [= <-] _. exists 0. rewrite Z.pow_0_r. split; [lia|]. split; [lia|done].
  - intros Hrun Hr. inv_some. rename x into b. rewrite Z.geb_leb in Hrun. revert Hrun.
    zcase; [intros [= <-]; done|]. intros Hrun. bool_props.
    rewrite trail_step in Hrun by (unfold is_cont; lia).
    edestruct IH as (v & Hv & Hrv & Ht); [..|exact Hrun|done|]; [lia|lia|].
    pose proof (Z.pow_pos_nonneg 64 (Z.of_nat n) ltac:(lia) ltac:(lia)) as Hp.
    rewrite Nat2Z.inj_succ, Z.pow_succ_r by lia.
    exists ((b - 128) * 64 ^ Z.of_nat n + v). split; [nia|]. split; [nia|].
    unfold zdrop in *. rewrite Z2Nat.inj_add in Ht by lia.
    unfold aget in *. destruct (Z.ltb_spec i 0); [lia|].
    erewrite drop_S by done. cbn [take]. f_equal.
    + rewrite Hrv.
      replace ((acc * 64 + (b - 128)) * 64 ^ Z.of_nat n + v) with
        (v + (acc * 64 + (b - 128)) * 64 ^ Z.of_nat n) by lia.
      rewrite Z.div_add, (Z.div_small v) by lia. Z.div_mod_to_equations; lia.
    + by rewrite Nat.add_comm in Ht.
Qed.

(** ** Zero-terminated input *)
Lemma utf8_trail_loop_total l p m i acc :
  p.[m] = Some 0 → 0 <= i <= m → 0 <= acc →
  ∃ r, utf8_trail_loop l p i acc = Some r ∧
    (r = -1 ∨ (0 <= r < (acc + 1) * 64 ^ Z.of_nat l ∧ i + Z.of_nat l <= m)).
Proof.
  revert i acc. induction l as [|l IH]; intros i acc Hm Hi Hacc; cbn [utf8_trail_loop].
  - exists acc. split; [done|]. right. change (64 ^ Z.of_nat 0) with 1. lia.
  - destruct (aget_is_Some p i) as [b Hb]; [pose proof (aget_Some_range _ _ _ Hm); lia|].
    rewrite Hb. cbn [mbind option_bind]. rewrite Z.geb_leb. zcase; [exists (-1); split; [done|by left]|].
    bool_props. rewrite trail_step by (unfold is_cont; lia).
    assert (i < m) by (destruct (decide (i = m)) as [->|]; [rewrite Hm in Hb; injection Hb as <-; lia|lia]).
    destruct (IH (i + 1) (acc * 64 + (b - 0x80))) as (r & -> & Hr); [done|lia|lia|].
    exists r. split; [done|]. destruct Hr as [->|[Hr Hi']]; [by left|right].
    rewrite Nat2Z.inj_succ, Z.pow_succ_r by lia.
    pose proof (Z.pow_pos_nonneg 64 (Z.of_nat l) ltac:(lia) ltac:(lia)). nia.
Qed.
(** on a zero-terminated string the decoder never reads beyond the zero, and
    without first bytes of the five and six byte forms the result is below 2^21 *)
Lemma unicode_from_utf8_total p m b :
  p.[m] = Some 0 → 0 < m → p.[0] = Some b → 0 <= b < 0xf8 →
  ∃ c n, unicode_from_utf8 p UTF8_CHAR_LEN_MAX = Some (c, n) ∧
    ((c = -1 ∧ n = 0) ∨ (0 <= c < 2 ^ 21 ∧ 1 <= n <= m)).
Proof.
  intros Hm Hm0 Hb Hb8. unfold unicode_from_utf8. rewrite Hb. cbn [mbind option_bind].
  destruct (Z.ltb_spec b 0x80); [exists b, 1; split; [done|right; lia]|].
  destruct (utf8_trail_len b) as [l|] eqn:El; [|exists (-1), 0; split; [done|by left]].
  assert (∃ mask, l <= 3 ∧ 1 <= l ∧ utf8_first_code_mask.[l - 1] = Some mask ∧
    (∃ lo, utf8_min_code.[l - 1] = Some lo ∧ 0 <= lo) ∧ 0 <= b .& mask ∧ ((b .& mask) + 1) * 64 ^ l <= 2 ^ 21)
    as (mask & Hl3 & Hl1 & -> & (lo & -> & Hlo) & Ha & Hacc).
  { unfold utf8_trail_len in El. revert El.
    repeat (zcase; [intros [= <-]; bool_props|]); try done; intros; try (exfalso; lia).
    - exists (2 ^ 5 - 1). rewrite land_mask by lia. repeat (split; [reflexivity || lia || (eexists; split; [reflexivity|lia])|]).
      split; [|]; Z.div_mod_to_equations; lia.
    - exists (2 ^ 4 - 1). rewrite land_mask by lia. repeat (split; [reflexivity || lia || (eexists; split; [reflexivity|lia])|]).
      split; [|]; Z.div_mod_to_equations; lia.
    - exists (2 ^ 3 - 1). rewrite land_mask by lia. repeat (split; [reflexivity || lia || (eexists; split; [reflexivity|lia])|]).
      split; [|]; Z.div_mod_to_equations; lia. }
  destruct (Z.gtb_spec l (UTF8_CHAR_LEN_MAX - 1)); [exists (-1), 0; split; [done|by left]|].
  cbn [mbind option_bind].
  destruct (utf8_trail_loop_total (Z.to_nat l) p m 1 (b .& mask)) as (c & -> & Hc); [done|lia|done|].
  cbn [mbind option_bind]. destruct (Z.ltb_spec c lo); [exists (-1), 0; split; [done|by left]|].
  destruct Hc as [->|[Hc Hn]].
  - exists (-1), (1 + l). split; [done|]. exfalso. lia.
  - exists c, (1 + l). split; [done|]. right. rewrite Z2Nat.id in Hc, Hn by lia. lia.
Qed.

(** ** Properties *)

(** C24: decoding the encoding of any 31-bit code point, followed by anything,
    gives that code point back and consumes exactly its bytes. *)
Theorem utf8_roundtrip c rest max_len :
  0 <= c < 2 ^ 31 → zlen (unicode_to_utf8 c) <= max_len →
  unicode_from_utf8 (unicode_to_utf8 c ++ rest) max_len
    = Some (c, zlen (unicode_to_utf8 c)).
Proof.
  intros Hc. destruct (decide (c < 0x80)) as [Hlt|Hge].
  - unfold unicode_to_utf8. zcase; [|lia]. intros _. unfold unicode_from_utf8.
    unfold u8. rewrite Z.mod_small by lia. cbn [app]. rewrite aget_cons_0. cbn [mbind option_bind]. zcase; [done|lia].
  - destruct (utf8_class_of c) as (n & mark & k & lo & Hcl & Hr); [lia|].
    rewrite (unicode_to_utf8_class _ _ _ _ _ Hcl Hr). autorewrite with zlen.
    rewrite zlen_conts. intros Hm. unfold unicode_from_utf8. cbn [app].
    rewrite aget_cons_0. cbn [mbind option_bind].
    assert (0 <= k) by (revert Hcl; intros Hcl; class_cases Hcl; lia).
    assert (0 < lo) by (revert Hcl; intros Hcl; class_cases Hcl; lia).
    pose proof (Z.pow_pos_nonneg 64 (Z.of_nat n) ltac:(lia) ltac:(lia)) as Hp.
    assert (0 <= c / 64 ^ Z.of_nat n < 2 ^ k) as Hx.
    { rewrite Z.pow_add_r, Z.pow_mul_r in Hr by lia.
      split; [apply Z.div_pos; lia|]. apply Z.div_lt_upper_bound; [done|].
      change (2 ^ 6) with 64 in Hr. lia. }
    destruct (utf8_class_first _ _ _ _ _ Hcl Hx) as (H80 & -> & (m & -> & Hland) & ->).
    zcase; [lia|]. rewrite Z.gtb_ltb. zcase; [lia|]. cbn [mbind option_bind].
    rewrite Hland, Nat2Z.id.
    pose proof (utf8_trail_loop_conts n c [mark + c / 64 ^ Z.of_nat n] rest
      (c / 64 ^ Z.of_nat n)) as Hl.
    cbn [app] in Hl. change (zlen [_]) with 1 in Hl. rewrite Hl. cbn [mbind option_bind].
    rewrite (Z.mul_comm (c / _)), <- Z.div_mod by lia. zcase; [lia|done].
Qed.

Lemma utf8_roundtrip_witness :
  unicode_from_utf8 (unicode_to_utf8 0x20ac ++ [0x41]) 6 = Some (0x20ac, 3).
Proof. apply (utf8_roundtrip 0x20ac [0x41] 6); [lia | vm_compute; discriminate]. Defined.

(** The decoder accepts canonical encodings only.  When it returns a code
    point, that code point is below 2^31, the bytes consumed are within
    [max_len] and are exactly its encoding: no overlong form is accepted. *)
Theorem utf8_decode_canonical p max_len c n :
  bytes p → 1 <= max_len → unicode_from_utf8 p max_len = Some (c, n) → c ≠ -1 →
  0 <= c < 2 ^ 31 ∧ n <= max_len ∧ ztake n p = unicode_to_utf8 c.
Proof.
  intros Hp Hm. unfold unicode_from_utf8. intros H Hc. inv_some. rename x into b, H0 into Hb.
  assert (is_byte b) as Hbb.
  { unfold aget in Hb. cbn in Hb. by eapply Forall_lookup_1. }
  destruct p as [|b' p]; [done|]. cbn in Hb. injection Hb as ->.
  unfold is_byte in Hbb. destruct (Z.ltb_spec b 0x80).
  - inv_some. split; [lia|]. split; [done|]. unfold unicode_to_utf8, u8.
    zcase; [|lia]. rewrite Z.mod_small by lia. done.
  - destruct (utf8_trail_len b) as [l|] eqn:El; [|inv_some; done].
    destruct (utf8_class_first_inv b l) as (k & mark & w & lo & x & -> & Hcl & -> & Hx);
      [done..|].
    destruct (utf8_class_first _ _ _ _ _ Hcl Hx) as (_ & _ & (m & Hmk & Hland) & Hlo).
    rewrite Z.gtb_ltb in H. destruct (Z.ltb_spec (max_len - 1) (Z.of_nat k));
      [inv_some; done|]. inv_some.
    rewrite Hmk in H2; rewrite Hlo in H4; inv_some.
    rewrite Hland, Nat2Z.id in H3. revert H. zcase; [intros [= <- <-]; done|].
    intros [= <- <-].
    apply utf8_trail_loop_inv in H3 as (v & Hv & Hr & Ht); [|lia..].
    assert (0 <= w) by (class_cases Hcl; lia).
    assert (0 < x2) by (class_cases Hcl; lia).
    pose proof (Z.pow_pos_nonneg 64 (Z.of_nat k) ltac:(lia) ltac:(lia)) as Hpw.
    assert (x1 < 2 ^ (w + 6 * Z.of_nat k)) as Hup.
    { rewrite Z.pow_add_r, Z.pow_mul_r by lia. change (2 ^ 6) with 64. nia. }
    assert (2 ^ (w + 6 * Z.of_nat k) <= 2 ^ 31) by (class_cases Hcl; cbn; lia).
    split; [lia|]. split; [lia|].
    rewrite (unicode_to_utf8_class _ _ _ _ _ Hcl) by lia.
    unfold ztake, zdrop in *. rewrite Z2Nat.inj_add, Nat2Z.id by lia. cbn [Z.to_nat Pos.to_nat].
    change (Z.to_nat 1) with 1%nat in *. cbn [Nat.add take drop] in *. f_equal; [|done].
    rewrite Hr, Z.div_add_l, (Z.div_small v) by lia. lia.
Qed.

Lemma utf8_decode_canonical_witness :
  unicode_from_utf8 [0xc2; 0xa9; 0] 3 = Some (0xa9, 2) ∧
  0 <= 0xa9 < 2 ^ 31 ∧ 2 <= 3 ∧ ztake 2 [0xc2; 0xa9; 0] = unicode_to_utf8 0xa9.
Proof.
  split; [reflexivity|].
  apply (utf8_decode_canonical [0xc2; 0xa9; 0] 3); try lia; try reflexivity.
  repeat constructor; lia.
Defined.
