(* ===== verification/Cutils.v ===== *)
(** * Strings, words and characters: the small helpers of js/cutils.c and js/cutils.h

    Bounded string copy, prefix and suffix tests, unaligned little-endian
    loads and stores, UTF-16 surrogates and hexadecimal digits.  A C string is
    an array of bytes that holds a zero; [None] is a read or a write outside
    of the array. *)
From S2P Require Import Prelude.

(** ** C strings *)

(** [strlen]: [None] when the array holds no terminator. *)
Fixpoint strlen (s : list Z) : option Z :=
  match s with
  | [] => None
  | c :: s => if c =? 0 then Some 0 else n ← strlen s; Some (n + 1)
  end.

(** The [for(;;)] loop of [pstrcpy]: [str] is what remains to be copied, [q]
    the offset of the write pointer in [buf]. *)
Fixpoint pstrcpy_loop (buf : list Z) (buf_size q : Z) (str : list Z) : option (list Z) :=
  match str with
  | [] => None
  | c :: str =>
    if (c =? 0) || (q >=? buf_size - 1) then aset buf q 0
    else buf ← aset buf q c; pstrcpy_loop buf buf_size (q + 1) str
  end.
Definition pstrcpy (buf : list Z) (buf_size : Z) (str : list Z) : option (list Z) :=
  if buf_size <=? 0 then Some buf else pstrcpy_loop buf buf_size 0 str.

Definition pstrcat (buf : list Z) (buf_size : Z) (s : list Z) : option (list Z) :=
  len ← strlen buf;
  if len <? buf_size then
    tl ← pstrcpy (zdrop len buf) (buf_size - len) s; Some (ztake len buf ++ tl)
  else Some buf.

(** [strstart]: [Some (1, n)] when [val] is a prefix, with [*ptr = str + n];
    [Some (0, 0)] when it is not ([*ptr] untouched). *)
Fixpoint strstart_loop (str val : list Z) (n : Z) : option (Z * Z) :=
  match val with
  | [] => None
  | q :: val =>
    if q =? 0 then Some (1, n)
    else
      match str with
      | [] => None
      | p :: str => if p =? q then strstart_loop str val (n + 1) else Some (0, 0)
      end
  end.
Definition strstart (str val : list Z) : option (Z * Z) := strstart_loop str val 0.

Definition has_suffix (str suffix : list Z) : option bool :=
  len ← strlen str; slen ← strlen suffix;
  Some ((slen <=? len) &&
        bool_decide (ztake slen (zdrop (len - slen) str) = ztake slen suffix)).

(** ** Unaligned loads and stores (the packed structures; little-endian hosts) *)
Definition get_u8 (tab : list Z) (i : Z) : option Z := tab.[i].
Definition get_u16 (tab : list Z) (i : Z) : option Z :=
  b0 ← tab.[i]; b1 ← tab.[i + 1]; Some (b0 + 2 ^ 8 * b1).
Definition get_u32 (tab : list Z) (i : Z) : option Z :=
  lo ← get_u16 tab i; hi ← get_u16 tab (i + 2); Some (lo + 2 ^ 16 * hi).
Definition get_u64 (tab : list Z) (i : Z) : option Z :=
  lo ← get_u32 tab i; hi ← get_u32 tab (i + 4); Some (lo + 2 ^ 32 * hi).
Definition get_i32 (tab : list Z) (i : Z) : option Z := v ← get_u32 tab i; Some (i32 v).

(** the bytes of a value as they are stored *)
Definition le16 (v : Z) : list Z := [u8 v; u8 (v >> 8)].
Definition le32 (v : Z) : list Z := le16 v ++ le16 (v >> 16).
Definition le64 (v : Z) : list Z := le32 v ++ le32 (v >> 32).
(** [memcpy] of [d] to [tab + i] *)
Definition blit (tab : list Z) (i : Z) (d : list Z) : option (list Z) :=
  if (i <? 0) || (zlen tab <? i + zlen d) then None
  else Some (ztake i tab ++ d ++ zdrop (i + zlen d) tab).
Definition put_u8 (tab : list Z) (i v : Z) : option (list Z) := aset tab i (u8 v).
Definition put_u16 (tab : list Z) (i v : Z) : option (list Z) := blit tab i (le16 v).
Definition put_u32 (tab : list Z) (i v : Z) : option (list Z) := blit tab i (le32 v).
Definition put_u64 (tab : list Z) (i v : Z) : option (list Z) := blit tab i (le64 v).

Definition bswap16 (x : Z) : Z := u16 ((x >> 8) .| (x << 8)).
Definition bswap32 (v : Z) : Z :=
  u32 (((v .& 0xff000000) >> 24) .| ((v .& 0x00ff0000) >> 8) .|
       ((v .& 0x0000ff00) << 8) .| ((v .& 0x000000ff) << 24)).

Definition max_int (a b : Z) : Z := if a >? b then a else b.
Definition min_int (a b : Z) : Z := if a <? b then a else b.

(** ** UTF-16 surrogates; the arguments are [uint32_t] *)
Definition is_surrogate (c : Z) : bool := (c >> 11) =? (0xD800 >> 11).
Definition is_hi_surrogate (c : Z) : bool := (c >> 10) =? (0xD800 >> 10).
Definition is_lo_surrogate (c : Z) : bool := (c >> 10) =? (0xDC00 >> 10).
Definition get_hi_surrogate (c : Z) : Z := u32 ((c >> 10) - (0x10000 >> 10) + 0xD800).
Definition get_lo_surrogate (c : Z) : Z := (c .& 0x3FF) .| 0xDC00.
Definition from_surrogate (hi lo : Z) : Z := u32 (0x10000 + 0x400 * (hi - 0xD800) + (lo - 0xDC00)).

Definition from_hex (c : Z) : Z :=
  if (0x30 <=? c) && (c <=? 0x39) then c - 0x30
  else if (0x41 <=? c) && (c <=? 0x46) then c - 0x41 + 10
  else if (0x61 <=? c) && (c <=? 0x66) then c - 0x61 + 10
  else -1.

(** ** Lemmas: strings *)

(** [cstr s r]: the array [r] holds the string [s] (and what follows it). *)
Definition cstr (s r : list Z) : Prop := 0 ∉ s ∧ ∃ rest, r = s ++ 0 :: rest.

Lemma strlen_cstr s r : cstr s r → strlen r = Some (zlen s).
Proof.
  intros (Hs & rest & ->). induction s as [|c s IH]; [done|].
  apply not_elem_of_cons in Hs as [H0 Hs]. cbn [app strlen].
  zcase; [done|]. rewrite IH by done. cbn. autorewrite with zlen. f_equal. lia.
Qed.

Lemma aset_app_0 {A} (l k : list A) x y :
  aset (l ++ x :: k) (zlen l) y = Some (l ++ y :: k).
Proof.
  unfold aset, zlen. rewrite length_app. cbn [length]. zcase; [blia|].
  rewrite Nat2Z.id. by rewrite insert_app_r_alt, Nat.sub_diag by lia.
Qed.

Lemma pstrcpy_loop_spec s rest buf buf_size pre tl :
  0 ∉ s → buf = pre ++ tl → zlen pre < buf_size <= zlen buf →
  let n := Z.to_nat (buf_size - 1 - zlen pre) in
  pstrcpy_loop buf buf_size (zlen pre) (s ++ 0 :: rest) =
  Some (pre ++ take n s ++ 0 :: drop (S (length (take n s))) tl).
Proof.
  revert buf pre tl. induction s as [|c s IH]; intros buf pre tl Hs -> Hb n;
    (assert (1 <= zlen tl) as Htl by (autorewrite with zlen in Hb; lia));
    destruct tl as [|t tl]; try (unfold zlen in Htl; cbn in Htl; lia); cbn [app pstrcpy_loop].
  - cbn [Z.eqb orb]. rewrite aset_app_0. by rewrite take_nil.
  - apply not_elem_of_cons in Hs as [H0 Hs]. rewrite Z.geb_leb. zcase.
    + destruct E as [E|E]; bool_props; [done|]. subst n.
      replace (Z.to_nat _) with 0%nat by lia. by rewrite aset_app_0.
    + bool_props. rewrite aset_app_0. cbn [mbind option_bind].
      specialize (IH ((pre ++ [c]) ++ tl) (pre ++ [c]) tl Hs eq_refl).
      rewrite <- app_assoc in IH. cbn [app] in IH. autorewrite with zlen in *.
      replace (zlen pre + (1 + 0)) with (zlen pre + 1) in IH by lia.
      rewrite IH by lia. subst n. rewrite <- app_assoc. cbn [app].
      replace (Z.to_nat (buf_size - 1 - zlen pre))
        with (S (Z.to_nat (buf_size - 1 - (zlen pre + 1)))) by lia.
      cbn [take app drop length]. done.
Qed.

(** ** Lemmas: words *)
Lemma get_u16_app pre v rest :
  0 <= v < 2 ^ 16 → get_u16 (pre ++ le16 v ++ rest) (zlen pre) = Some v.
Proof.
  intros. unfold get_u16, le16. cbn [app].
  rewrite aget_app_at, aget_app_off by lia. cbn [mbind option_bind].
  rewrite aget_cons_pos by lia. rewrite aget_cons_0. cbn [mbind option_bind]. f_equal. unfold u8. rewrite shiftr_div by lia.
  Z.div_mod_to_equations; lia.
Qed.
Lemma le16_mod v : le16 (v mod 2 ^ 16) = le16 v.
Proof.
  unfold le16, u8. rewrite !shiftr_div by lia.
  assert (v = v mod 2 ^ 16 + v / 2 ^ 16 * 2 ^ 8 * 2 ^ 8) as Hv by (Z.div_mod_to_equations; lia).
  set (r := v mod 2 ^ 16) in *. rewrite Hv. by rewrite Z.div_add, !Z.mod_add by lia.
Qed.
Lemma get_u32_app pre v rest :
  0 <= v < 2 ^ 32 → get_u32 (pre ++ le32 v ++ rest) (zlen pre) = Some v.
Proof.
  intros. unfold get_u32, le32. rewrite <- (le16_mod v), <- app_assoc.
  pose proof (Z.mod_pos_bound v (2 ^ 16) ltac:(lia)).
  rewrite get_u16_app by lia. cbn [mbind option_bind].
  pose proof (get_u16_app (pre ++ le16 (v mod 2 ^ 16)) (v >> 16) rest) as Hr.
  rewrite <- app_assoc in Hr. rewrite zlen_app in Hr. change (zlen (le16 _)) with 2 in Hr.
  rewrite Hr by (rewrite shiftr_div by lia; Z.div_mod_to_equations; lia).
  cbn [mbind option_bind]. f_equal. rewrite shiftr_div by lia. Z.div_mod_to_equations; lia.
Qed.
Lemma zlen_le32 v : zlen (le32 v) = 4.
Proof. reflexivity. Qed.

(** ** Lemmas: surrogates *)
Lemma is_hi_surrogate_iff c : is_hi_surrogate c = true ↔ 0xD800 <= c <= 0xDBFF.
Proof.
  unfold is_hi_surrogate. rewrite Z.eqb_eq, !shiftr_div by lia.
  change (0xD800 / 2 ^ 10) with 54. Z.div_mod_to_equations; lia.
Qed.
Lemma is_lo_surrogate_iff c : is_lo_surrogate c = true ↔ 0xDC00 <= c <= 0xDFFF.
Proof.
  unfold is_lo_surrogate. rewrite Z.eqb_eq, !shiftr_div by lia.
  change (0xDC00 / 2 ^ 10) with 55. Z.div_mod_to_equations; lia.
Qed.
Lemma get_lo_surrogate_eq c : get_lo_surrogate c = 0xDC00 + c mod 2 ^ 10.
Proof.
  unfold get_lo_surrogate. change 0x3FF with (2 ^ 10 - 1). rewrite land_mask by lia.
  rewrite Z.lor_comm. change 0xDC00 with (55 * 2 ^ 10) at 1.
  rewrite lor_mul_add; [done|lia|]. by apply Z.mod_pos_bound.
Qed.
Lemma get_hi_surrogate_eq c :
  0x10000 <= c < 0x110000 → get_hi_surrogate c = 0xD800 + c / 2 ^ 10 - 64.
Proof.
  intros. unfold get_hi_surrogate, u32. rewrite !shiftr_div by lia.
  change (0x10000 / 2 ^ 10) with 64. rewrite Z.mod_small; Z.div_mod_to_equations; lia.
Qed.

(** ** Properties *)

(** [pstrcpy] on a buffer of at least [buf_size > 0] bytes stores the
    longest prefix of the string that fits in [buf_size - 1] bytes, always
    terminates it with a zero, and leaves the rest of the buffer alone. *)
Theorem pstrcpy_spec s str buf buf_size :
  cstr s str → 0 < buf_size <= zlen buf →
  let n := Z.to_nat (Z.min (zlen s) (buf_size - 1)) in
  pstrcpy buf buf_size str = Some (take n s ++ 0 :: drop (S n) buf).
Proof.
  intros (Hs & rest & ->) Hb n. unfold pstrcpy. zcase; [lia|].
  pose proof (pstrcpy_loop_spec s rest buf buf_size [] buf Hs eq_refl) as H1.
  change (zlen []) with 0 in H1. cbn [app] in H1. rewrite H1 by lia. do 2 f_equal.
  - subst n. unfold zlen. rewrite <- (take_ge s (length s)) at 1 by lia.
    rewrite take_take. f_equal. lia.
  - do 3 f_equal. subst n. rewrite length_take. unfold zlen. cbn [length]. lia.
Qed.

Lemma pstrcpy_spec_witness :
  pstrcpy [7; 7; 7; 7] 3 [65; 66; 67; 0] = Some [65; 66; 0; 7].
Proof.
  apply (pstrcpy_spec [65; 66; 67] [65; 66; 67; 0] [7; 7; 7; 7] 3); [|vm_compute; done].
  split; [rewrite !elem_of_cons, elem_of_nil; lia|]. by exists [].
Defined.

(** [pstrcat] on a buffer that holds a string shorter than [buf_size]
    yields a terminated string: the old string followed by what fits of the
    new one; the size of the buffer never changes. *)
Theorem pstrcat_spec s0 s buf str buf_size :
  cstr s0 buf → cstr s str → zlen s0 < buf_size <= zlen buf →
  let n := Z.to_nat (Z.min (zlen s) (buf_size - zlen s0 - 1)) in
  ∃ buf', pstrcat buf buf_size str = Some buf' ∧ zlen buf' = zlen buf ∧
    cstr (s0 ++ take n s) buf'.
Proof.
  intros Hb Hs Hsz n. unfold pstrcat. rewrite (strlen_cstr _ _ Hb). cbn [mbind option_bind].
  zcase; [|lia]. destruct Hb as (Hn0 & rest & ->).
  assert (ztake (zlen s0) (s0 ++ 0 :: rest) = s0) as ->
    by (unfold ztake, zlen; by rewrite Nat2Z.id, take_app_length).
  assert (zdrop (zlen s0) (s0 ++ 0 :: rest) = 0 :: rest) as ->
    by (unfold zdrop, zlen; by rewrite Nat2Z.id, drop_app_length).
  autorewrite with zlen in *.
  rewrite (pstrcpy_spec s str) by (first [done | autorewrite with zlen; lia]).
  cbn [mbind option_bind]. eexists; split; [reflexivity|].
  replace (Z.to_nat (Z.min _ _)) with n by (subst n; f_equal; lia). split.
  - autorewrite with zlen. f_equal. unfold zlen. cbn [drop length].
    rewrite length_take, length_drop. unfold zlen in *. cbn in *. lia.
  - split; [|exists (drop (S n) (0 :: rest)); by rewrite <- app_assoc].
    rewrite not_elem_of_app. split; [done|]. destruct Hs as [Hs _].
    intros Hin. apply Hs. apply elem_of_take in Hin as (i & Hi & _). by apply list_elem_of_lookup_2 in Hi.
Qed.

Lemma pstrcat_spec_witness :
  pstrcat [65; 0; 7; 7] 3 [66; 67; 0] = Some [65; 66; 0; 7] ∧
  ∃ buf', pstrcat [65; 0; 7; 7] 3 [66; 67; 0] = Some buf' ∧ zlen buf' = 4 ∧
    cstr ([65] ++ [66]) buf'.
Proof.
  split; [reflexivity|].
  apply (pstrcat_spec [65] [66; 67] [65; 0; 7; 7] [66; 67; 0] 3).
  - split; [rewrite !elem_of_cons, elem_of_nil; lia|]. by exists [7; 7].
  - split; [rewrite !elem_of_cons, elem_of_nil; lia|]. by exists [].
  - vm_compute. split; [reflexivity|discriminate].
Defined.

Lemma surrogate_halves c :
  0x10000 <= c < 0x110000 →
  is_hi_surrogate (get_hi_surrogate c) = true ∧ is_lo_surrogate (get_lo_surrogate c) = true ∧
  from_surrogate (get_hi_surrogate c) (get_lo_surrogate c) = c.
Proof.
  intros. rewrite is_hi_surrogate_iff, is_lo_surrogate_iff.
  rewrite get_hi_surrogate_eq, get_lo_surrogate_eq by done. unfold from_surrogate, u32.
  pose proof (Z.mod_pos_bound c (2 ^ 10) ltac:(lia)).
  pose proof (Z.div_mod c (2 ^ 10) ltac:(lia)).
  assert (64 <= c / 2 ^ 10 < 1088) by (Z.div_mod_to_equations; lia).
  split; [lia|]. split; [lia|]. rewrite Z.mod_small; lia.
Qed.
(** The surrogate helpers split and join the supplementary code points:
    the two halves are a high and a low surrogate, and joining them gives the
    code point back. *)
Theorem surrogate_roundtrip c :
  0x10000 <= c < 0x110000 →
  is_hi_surrogate (get_hi_surrogate c) = true ∧ is_lo_surrogate (get_lo_surrogate c) = true ∧
  from_surrogate (get_hi_surrogate c) (get_lo_surrogate c) = c.
Proof. apply surrogate_halves. Qed.

Lemma surrogate_roundtrip_witness :
  is_hi_surrogate (get_hi_surrogate 0x1f600) = true ∧
  is_lo_surrogate (get_lo_surrogate 0x1f600) = true ∧
  from_surrogate (get_hi_surrogate 0x1f600) (get_lo_surrogate 0x1f600) = 0x1f600.
Proof. apply (surrogate_roundtrip 0x1f600). lia. Defined.
