(* ===== verification/Alloc.v ===== *)
(** * The allocator interface and the state it threads

    Every growing buffer of the C code receives a [realloc_func] (js/cutils.h,
    [DynBufReallocFunc]) that belongs to the host: QuickJS or the C library.
    It is a parameter of the model: whether the [n]-th call of the run, for a
    given size, succeeds, and what the memory it returns beyond the preserved
    contents holds.  Nothing is assumed about either answer, so a theorem
    covers an allocator that fails at any call.  The number of calls made so
    far is the state threaded through the operations, with [None] for
    undefined behaviour, [abort()] and failed assertions. *)
From S2P Require Import Prelude.

Class Allocator := {
  realloc_ok : nat → Z → bool;
  junk : nat → Z → Z
}.

(** the calls of [realloc_func] made so far *)
Definition heap : Type := nat.

(** Computations that may allocate. *)
Definition M (A : Type) : Type := heap → option (A * heap).
#[export] Instance M_ret : MRet M := λ A x h, Some (x, h).
#[export] Instance M_bind : MBind M := λ A B f m h, '(x, h) ← m h; f x h.
(** undefined behaviour *)
Definition ub {A} : M A := λ h, None.
Definition lift {A} (o : option A) : M A := λ h, x ← o; Some (x, h).
(** an [assert] of the source *)
Definition massert (b : bool) : M unit := λ h, if b then Some (tt, h) else None.

Section Realloc.
Context `{!Allocator}.
(** One call of [realloc_func]: whether it returned a buffer. *)
Definition realloc (size : Z) : M bool := λ h, Some (realloc_ok h size, S h).
(** [n] bytes of fresh memory, starting at offset [off] of the buffer *)
Definition fresh_bytes (off : Z) (n : nat) : M (list Z) :=
  λ h, Some ((λ i : nat, u8 (junk h (off + Z.of_nat i))) <$> seq 0 n, h).
End Realloc.

Lemma bind_M_Some {A B} (m : M A) (f : A → M B) h r :
  (m ≫= f) h = Some r ↔ ∃ x h', m h = Some (x, h') ∧ f x h' = Some r.
Proof.
  unfold mbind at 1, M_bind. rewrite bind_Some. split.
  - intros ([x h'] & ? & ?). by exists x, h'.
  - intros (x & h' & ? & ?). by exists (x, h').
Qed.
Lemma ret_M {A} (x : A) h : (mret x : M A) h = Some (x, h).
Proof. done. Qed.
Lemma bind_M_eq {A B} (m : M A) (f : A → M B) h x h' :
  m h = Some (x, h') → (m ≫= f) h = f x h'.
Proof. intros Hm. unfold mbind, M_bind. by rewrite Hm. Qed.

Lemma bind_lift {A B} (x : A) (f : A → M B) h : (lift (Some x) ≫= f) h = f x h.
Proof. done. Qed.
Lemma bind_realloc `{!Allocator} {B} size (f : bool → M B) h :
  (realloc size ≫= f) h = f (realloc_ok h size) (S h).
Proof. done. Qed.

(** Read off the binds of an allocating computation known to succeed. *)
Ltac inv_M :=
  repeat match goal with
  | H : Some _ = Some _ |- _ => injection H; clear H; intros; subst
  | H : None = Some _ |- _ => discriminate H
  | H : (_, _) = (_, _) |- _ => injection H; clear H; intros; subst
  | H : mret _ _ = Some _ |- _ => rewrite ret_M in H
  | H : (_ ≫= _) ?h = Some _ |- _ =>
      apply bind_M_Some in H; destruct H as (? & ? & ? & H)
  end.

(** An allocator that never fails, to evaluate the definitions on. *)
#[export] Instance total_allocator : Allocator | 100 :=
  {| realloc_ok _ _ := true; junk _ _ := 0 |}.
(** An allocator that always fails. *)
Definition no_memory : Allocator := {| realloc_ok _ _ := false; junk _ _ := 0 |}.
