(* ===== verification/DynBuf.v ===== *)
(** * Dynamic buffers: [DynBuf] of js/cutils.c

    The record keeps the initialised bytes of [buf] ([size] is their number),
    [allocated_size] and the sticky [error] flag.  Each operation returns the
    C return code (0, or -1 on allocation failure) with the new buffer; a
    write beyond [allocated_size] is undefined behaviour. *)
From S2P Require Import Prelude Alloc Cutils.

Record DynBuf := mkDynBuf {
  d_buf : list Z;
  allocated_size : Z;
  d_error : bool
}.
Definition d_size (s : DynBuf) : Z := zlen (d_buf s).
Definition dbuf_init : DynBuf := mkDynBuf [] 0 false.
Definition dbuf_error (s : DynBuf) : bool := d_error s.
Definition dbuf_set_error (s : DynBuf) : DynBuf := mkDynBuf (d_buf s) (allocated_size s) true.
Definition dbuf_free (s : DynBuf) : DynBuf := dbuf_init.

Section Ops.
Context `{!Allocator}.

Definition dbuf_realloc (s : DynBuf) (new_size : Z) : M (Z * DynBuf) :=
  if new_size >? allocated_size s then
    if d_error s then mret (-1, s)
    else
      let size := u64 (allocated_size s * 3) / 2 in
      let new_size := if size >? new_size then size else new_size in
      ok ← realloc new_size;
      if (ok : bool) then mret (0, mkDynBuf (d_buf s) new_size (d_error s))
      else mret (-1, dbuf_set_error s)
  else mret (0, s).

(** the bytes [d] stored at [offset], the buffer being initialised up to
    [d_size s]; bytes skipped between the two are indeterminate *)
Definition dbuf_store (s : DynBuf) (offset : Z) (d : list Z) : M DynBuf :=
  if (offset <? 0) || (allocated_size s <? offset + zlen d) then ub
  else
    gap ← fresh_bytes (d_size s) (Z.to_nat (offset - d_size s));
    mret (mkDynBuf (ztake offset (d_buf s ++ gap) ++ d ++ zdrop (offset + zlen d) (d_buf s))
                   (allocated_size s) (d_error s)).

Definition dbuf_write (s : DynBuf) (offset : Z) (data : list Z) : M (Z * DynBuf) :=
  let end_ := u64 (offset + zlen data) in
  '(ret, s) ← dbuf_realloc s end_;
  if negb (ret =? 0) then mret (-1, s)
  else s ← dbuf_store s offset data; mret (0, s).

(** the guarded [dbuf_realloc] that [dbuf_put] and [dbuf_put_self] share *)
Definition dbuf_claim (s : DynBuf) (len : Z) : M (Z * DynBuf) :=
  if u64 (d_size s + len) >? allocated_size s
  then dbuf_realloc s (u64 (d_size s + len)) else mret (0, s).

Definition dbuf_put (s : DynBuf) (data : list Z) : M (Z * DynBuf) :=
  '(ret, s) ← dbuf_claim s (zlen data);
  if negb (ret =? 0) then mret (-1, s)
  else s ← dbuf_store s (d_size s) data; mret (0, s).

(** [memcpy] from the buffer itself: the source must be initialised and may
    not overlap the destination *)
Definition dbuf_put_self (s : DynBuf) (offset len : Z) : M (Z * DynBuf) :=
  '(ret, s) ← dbuf_claim s len;
  if negb (ret =? 0) then mret (-1, s)
  else
    _ ← massert ((0 <=? offset) && (0 <=? len) && (offset + len <=? d_size s));
    s ← dbuf_store s (d_size s) (ztake len (zdrop offset (d_buf s)));
    mret (0, s).

Definition dbuf_putc (s : DynBuf) (c : Z) : M (Z * DynBuf) := dbuf_put s [u8 c].
Definition dbuf_putstr (s : DynBuf) (str : list Z) : M (Z * DynBuf) :=
  len ← lift (strlen str); dbuf_put s (ztake len str).
Definition dbuf_put_u16 (s : DynBuf) (v : Z) : M (Z * DynBuf) := dbuf_put s (le16 v).
Definition dbuf_put_u32 (s : DynBuf) (v : Z) : M (Z * DynBuf) := dbuf_put s (le32 v).
Definition dbuf_put_u64 (s : DynBuf) (v : Z) : M (Z * DynBuf) := dbuf_put s (le64 v).

(** [dbuf_printf]: [text] is what [vsnprintf] formats.  The short case goes
    through the 128-byte local buffer; the long case formats in place, with
    the terminating zero that [size] does not count. *)
Definition dbuf_printf (s : DynBuf) (text : list Z) : M (Z * DynBuf) :=
  let len := zlen text in
  if len <? 128 then dbuf_put s text
  else
    '(ret, s) ← dbuf_realloc s (u64 (d_size s + len + 1));
    if negb (ret =? 0) then mret (-1, s)
    else
      let room := allocated_size s - d_size s in
      _ ← massert (len + 1 <=? room);
      s ← dbuf_store s (d_size s) text; mret (0, s).

(** [dbuf_insert] of js/libregexp.c: open a hole of [len] bytes at [pos].  The
    hole keeps what the memory held there. *)
Definition dbuf_insert (s : DynBuf) (pos len : Z) : M (Z * DynBuf) :=
  '(ret, s) ← dbuf_realloc s (u64 (d_size s + len));
  if negb (ret =? 0) then mret (-1, s)
  else
    _ ← massert ((0 <=? pos) && (pos <=? d_size s) && (0 <=? len) &&
                 (d_size s + len <=? allocated_size s));
    tl ← fresh_bytes (d_size s) (Z.to_nat len);
    mret (0, mkDynBuf (ztake (pos + len) (d_buf s ++ tl) ++ zdrop pos (d_buf s))
                      (allocated_size s) (d_error s)).
End Ops.

(** ** Invariant *)

(** What [dbuf_init] establishes and every operation keeps: the initialised
    part lies in the allocated part, whose size is a [size_t]; every cell is a
    byte. *)
Definition dbuf_wf (s : DynBuf) : Prop :=
  d_size s <= allocated_size s < 2 ^ 64 ∧ bytes (d_buf s).

Lemma dbuf_init_wf : dbuf_wf dbuf_init.
Proof. split; [|constructor]. unfold d_size. cbn [d_buf dbuf_init allocated_size]. rewrite zlen_nil. lia. Qed.

Section Lemmas.
Context `{!Allocator}.

(** [dbuf_realloc] fails only by setting [error]; it never touches the bytes. *)
Lemma dbuf_realloc_spec s new_size h :
  dbuf_wf s → new_size < 2 ^ 64 →
  ∃ ret s' h', dbuf_realloc s new_size h = Some ((ret, s'), h') ∧
    d_buf s' = d_buf s ∧ dbuf_wf s' ∧
    ((ret = 0 ∧ new_size <= allocated_size s' ∧ d_error s' = d_error s ∧
      (allocated_size s' = allocated_size s ∨ allocated_size s * 3 / 2 <= allocated_size s'
        ∨ 2 ^ 64 <= allocated_size s * 3)) ∨
     (ret = -1 ∧ d_error s' = true ∧ allocated_size s' = allocated_size s)).
Proof.
  intros [Ha Hb] Hn. unfold dbuf_realloc. rewrite Z.gtb_ltb. zcase.
  - destruct (d_error s) eqn:Ee.
    + exists (-1), s, h. repeat split; try done; try lia. by right.
    + set (sz := u64 (allocated_size s * 3) / 2).
      assert (0 <= u64 (allocated_size s * 3) < 2 ^ 64) by (unfold u64; apply Z.mod_pos_bound; lia).
      assert (0 <= sz < 2 ^ 64) by (unfold sz; Z.div_mod_to_equations; lia).
      rewrite bind_realloc. set (sz' := if sz >? new_size then sz else new_size).
      assert (new_size <= sz' < 2 ^ 64 ∧ sz <= sz') by (subst sz'; rewrite Z.gtb_ltb; zcase; lia).
      destruct (realloc_ok h sz').
      * eexists 0, _, _. split; [reflexivity|]. cbn. split; [done|].
        pose proof (zlen_nonneg (d_buf s)). unfold d_size in *.
        split; [split; [|done]|left]; unfold d_size; cbn; [lia|].
        split; [done|]. split; [lia|]. split; [done|].
        destruct (decide (allocated_size s * 3 < 2 ^ 64)); [|lia].
        right; left. unfold sz, u64 in *. rewrite Z.mod_small in * by lia. lia.
      * eexists (-1), _, _. split; [reflexivity|]. split; [done|].
        split; [by split|]. by right.
  - exists 0, s, h. repeat split; try done; try lia. left. repeat split; try done. by left.
Qed.

(** Storing at the end of the initialised part appends. *)
Lemma dbuf_store_end s data h :
  d_size s + zlen data <= allocated_size s →
  dbuf_store s (d_size s) data h =
    Some (mkDynBuf (d_buf s ++ data) (allocated_size s) (d_error s), h).
Proof.
  intros. unfold dbuf_store. pose proof (zlen_nonneg (d_buf s)).
  zcase; [unfold d_size in *; blia|]. unfold fresh_bytes, mbind, M_bind. cbn.
  rewrite Z.sub_diag. cbn. unfold mret, M_ret. do 3 f_equal. rewrite app_nil_r.
  unfold ztake, zdrop, d_size, zlen. rewrite Nat2Z.id, take_ge, drop_ge by lia.
  by rewrite app_nil_r.
Qed.

Lemma dbuf_claim_spec s len h :
  dbuf_wf s → 0 <= len → d_size s + len < 2 ^ 64 →
  ∃ ret s' h', dbuf_claim s len h = Some ((ret, s'), h') ∧
    d_buf s' = d_buf s ∧ dbuf_wf s' ∧
    ((ret = 0 ∧ d_size s + len <= allocated_size s' ∧ d_error s' = d_error s) ∨
     (ret = -1 ∧ d_error s' = true)).
Proof.
  intros Hwf Hl Hlen. unfold dbuf_claim.
  assert (u64 (d_size s + len) = d_size s + len) as ->.
  { unfold u64. apply Z.mod_small. unfold d_size. pose proof (zlen_nonneg (d_buf s)).
    unfold d_size in *. lia. }
  rewrite Z.gtb_ltb. zcase.
  - destruct (dbuf_realloc_spec s (d_size s + len) h Hwf Hlen)
      as (ret & s' & h' & E & Hb & Hw & Hc). exists ret, s', h'. naive_solver.
  - exists 0, s, h. split; [done|]. split; [done|]. split; [done|]. left. repeat split; lia || done.
Qed.

Lemma dbuf_put_cases s data h :
  dbuf_wf s → bytes data → d_size s + zlen data < 2 ^ 64 →
  ∃ ret s' h', dbuf_put s data h = Some ((ret, s'), h') ∧ dbuf_wf s' ∧
    ((ret = 0 ∧ d_buf s' = d_buf s ++ data ∧ d_error s' = d_error s) ∨
     (ret = -1 ∧ d_buf s' = d_buf s ∧ d_error s' = true)).
Proof.
  intros Hwf Hd Hlen. unfold dbuf_put.
  destruct (dbuf_claim_spec s (zlen data) h Hwf (zlen_nonneg _) Hlen)
    as (ret & s' & h' & E & Hb & Hw & Hc).
  rewrite (bind_M_eq _ _ _ _ _ E). destruct Hc as [(-> & Ha & He)|[-> He]].
  - cbn [Z.eqb negb]. assert (d_size s' = d_size s) as Hs by (unfold d_size; by rewrite Hb).
    erewrite bind_M_eq by (apply dbuf_store_end; lia).
    exists 0. eexists _, _. split; [reflexivity|].
    split; [split|left; by rewrite Hb]; cbn.
    + unfold d_size in *. cbn. autorewrite with zlen. destruct Hw. unfold d_size in *. lia.
    + apply Forall_app. split; [|done]. by destruct Hw.
  - exists (-1), s', h'. split; [done|]. split; [done|]. by right.
Qed.
End Lemmas.

(** ** Sequences of appends, return codes ignored

    This is how js/libregexp.c uses a [DynBuf]: it emits, never looks at the
    return codes, and tests [dbuf_error] at the end. *)
Inductive emission :=
| EPut (data : list Z)
| EPutc (c : Z)
| EPutU16 (v : Z)
| EPutU32 (v : Z)
| EPutU64 (v : Z)
| EPrintf (text : list Z).

(** what an emission should append *)
Definition emitted (e : emission) : list Z :=
  match e with
  | EPut d => d
  | EPutc c => [u8 c]
  | EPutU16 v => le16 v
  | EPutU32 v => le32 v
  | EPutU64 v => le64 v
  | EPrintf t => t
  end.

Section Emissions.
Context `{!Allocator}.

Definition emit (s : DynBuf) (e : emission) : M (Z * DynBuf) :=
  match e with
  | EPut d => dbuf_put s d
  | EPutc c => dbuf_putc s c
  | EPutU16 v => dbuf_put_u16 s v
  | EPutU32 v => dbuf_put_u32 s v
  | EPutU64 v => dbuf_put_u64 s v
  | EPrintf t => dbuf_printf s t
  end.

Fixpoint emit_all (s : DynBuf) (es : list emission) : M DynBuf :=
  match es with
  | [] => mret s
  | e :: es => '(_, s) ← emit s e; emit_all s es
  end.

Lemma u8_byte x : is_byte (u8 x).
Proof. unfold u8, is_byte. apply Z.mod_pos_bound. lia. Qed.
Lemma bytes_le16 v : bytes (le16 v).
Proof. repeat constructor; apply u8_byte. Qed.
Lemma bytes_le32 v : bytes (le32 v).
Proof. apply Forall_app. split; apply bytes_le16. Qed.
Lemma bytes_le64 v : bytes (le64 v).
Proof. apply Forall_app. split; apply bytes_le32. Qed.

Lemma dbuf_printf_cases s text h :
  dbuf_wf s → bytes text → d_size s + zlen text + 1 < 2 ^ 64 →
  ∃ ret s' h', dbuf_printf s text h = Some ((ret, s'), h') ∧ dbuf_wf s' ∧
    ((ret = 0 ∧ d_buf s' = d_buf s ++ text ∧ d_error s' = d_error s) ∨
     (ret = -1 ∧ d_buf s' = d_buf s ∧ d_error s' = true)).
Proof.
  intros Hwf Ht Hlen. unfold dbuf_printf. zcase; [apply dbuf_put_cases; by lia || done|].
  pose proof (zlen_nonneg (d_buf s)) as Hp. fold (d_size s) in Hp.
  assert (u64 (d_size s + zlen text + 1) = d_size s + zlen text + 1) as ->
    by (unfold u64; apply Z.mod_small; lia).
  destruct (dbuf_realloc_spec s _ h Hwf Hlen) as (ret & s' & h' & E & Hb & Hw & Hc).
  rewrite (bind_M_eq _ _ _ _ _ E).
  assert (d_size s' = d_size s) as Hs by (unfold d_size; by rewrite Hb).
  destruct Hc as [(-> & Ha & He & _)|(-> & He & _)].
  - cbn [Z.eqb negb].
    erewrite bind_M_eq by (unfold massert; zcase; [reflexivity|lia]).
    erewrite bind_M_eq by (apply dbuf_store_end; lia).
    exists 0. eexists _, _. split; [reflexivity|]. split; [split|left; by rewrite Hb]; cbn.
    + unfold d_size in *. cbn. autorewrite with zlen. destruct Hw. unfold d_size in *. lia.
    + apply Forall_app. split; [|done]. by destruct Hw.
  - exists (-1), s', h'. split; [done|]. split; [done|]. by right.
Qed.

Lemma emit_cases s e h :
  dbuf_wf s → bytes (emitted e) → d_size s + zlen (emitted e) + 1 < 2 ^ 64 →
  ∃ ret s' h', emit s e h = Some ((ret, s'), h') ∧ dbuf_wf s' ∧
    ((ret = 0 ∧ d_buf s' = d_buf s ++ emitted e ∧ d_error s' = d_error s) ∨
     (ret = -1 ∧ d_buf s' = d_buf s ∧ d_error s' = true)).
Proof.
  intros Hwf Hb Hl.
  destruct e; cbn [emitted] in *; try (apply dbuf_put_cases; [done|done|lia]).
  by apply dbuf_printf_cases.
Qed.

Definition emitted_all (es : list emission) : list Z := concat (emitted <$> es).

(** The sticky error flag is a sound summary of a run of emissions whose
    return codes are ignored.  The run has no undefined behaviour; if
    [dbuf_error] is false at the end, no emission failed and the buffer holds
    exactly what it held followed by everything emitted; if it is true, the
    buffer still holds its old contents followed by some of the emissions,
    each of them whole and in order. *)
Theorem emit_all_refines s es h :
  dbuf_wf s → Forall (λ e, bytes (emitted e)) es →
  d_size s + zlen (emitted_all es) + 1 < 2 ^ 64 →
  ∃ s' h', emit_all s es h = Some (s', h') ∧ dbuf_wf s' ∧
    (dbuf_error s' = false →
       dbuf_error s = false ∧ d_buf s' = d_buf s ++ emitted_all es) ∧
    ∃ done, done `sublist_of` es ∧ d_buf s' = d_buf s ++ emitted_all done.
Proof.
  revert s h. induction es as [|e es IH]; intros s h Hwf Hes Hl; cbn [emit_all].
  - exists s, h. split; [done|]. split; [done|].
    split; [intros; split; [done|by rewrite app_nil_r]|].
    exists []. split; [constructor|by rewrite app_nil_r].
  - apply Forall_cons in Hes as [He Hes].
    unfold emitted_all in Hl. cbn in Hl. autorewrite with zlen in Hl.
    fold (emitted_all es) in Hl. pose proof (zlen_nonneg (emitted_all es)).
    destruct (emit_cases s e h Hwf He ltac:(lia)) as (ret & s1 & h1 & E & Hw1 & Hc).
    rewrite (bind_M_eq _ _ _ _ _ E).
    pose proof (zlen_nonneg (emitted e)).
    assert (d_size s1 + zlen (emitted_all es) + 1 < 2 ^ 64).
    { unfold d_size in *. destruct Hc as [(_ & -> & _)|(_ & -> & _)]; autorewrite with zlen; lia. }
    destruct (IH s1 h1 Hw1 Hes ltac:(done)) as (s' & h' & E' & Hw' & Hok & dn & Hsub & Hdn).
    exists s', h'. split; [done|]. split; [done|].
    destruct Hc as [(_ & Hb & Her)|(_ & Hb & Her)].
    + split.
      * intros Hf. destruct (Hok Hf) as [Hf1 Hd]. unfold dbuf_error in *.
        split; [congruence|]. rewrite Hd, Hb, <- app_assoc. done.
      * exists (e :: dn). split; [by constructor|]. by rewrite Hdn, Hb, <- app_assoc.
    + split.
      * intros Hf. destruct (Hok Hf) as [Hf1 _]. unfold dbuf_error in *. congruence.
      * exists dn. split; [by constructor|]. by rewrite Hdn, Hb.
Qed.

(** [dbuf_insert] opens a hole of [len] bytes at [pos]: on success the
    bytes before and after the hole are those the buffer held; on failure the
    buffer keeps its bytes and the error flag is set. *)
Theorem dbuf_insert_spec s pos len h :
  dbuf_wf s → 0 <= pos <= d_size s → 0 <= len → d_size s + len < 2 ^ 64 →
  ∃ ret s' h', dbuf_insert s pos len h = Some ((ret, s'), h') ∧ dbuf_wf s' ∧
    ((ret = 0 ∧ d_error s' = d_error s ∧
      ∃ hole, zlen hole = len ∧ d_buf s' = ztake pos (d_buf s) ++ hole ++ zdrop pos (d_buf s)) ∨
     (ret = -1 ∧ d_buf s' = d_buf s ∧ d_error s' = true)).
Proof.
  intros Hwf Hpos Hlen Hl. unfold dbuf_insert.
  assert (u64 (d_size s + len) = d_size s + len) as ->
    by (unfold u64; apply Z.mod_small; lia).
  destruct (dbuf_realloc_spec s _ h Hwf Hl) as (ret & s' & h' & E & Hb & Hw & Hc).
  rewrite (bind_M_eq _ _ _ _ _ E).
  assert (d_size s' = d_size s) as Hs by (unfold d_size; by rewrite Hb).
  destruct Hc as [(-> & Ha & He & _)|(-> & He & _)].
  - cbn [Z.eqb negb].
    erewrite bind_M_eq by (unfold massert; zcase; [reflexivity|blia]).
    erewrite bind_M_eq by reflexivity.
    set (tl := fmap _ (seq 0 (Z.to_nat len))).
    assert (bytes tl ∧ zlen tl = len) as [Htb Htl].
    { subst tl. split; [apply Forall_fmap, Forall_true; intros; apply u8_byte|].
      unfold zlen. rewrite length_fmap, length_seq. lia. }
    assert (ztake (pos + len) (d_buf s' ++ tl) =
            ztake pos (d_buf s) ++ ztake len (zdrop pos (d_buf s ++ tl))) as Hsplit.
    { rewrite Hb. unfold ztake, zdrop, d_size, zlen in *.
      rewrite Z2Nat.inj_add, <- take_take_drop, take_app_le by lia. done. }
    destruct Hw as [Hw1 Hw2].
    assert (zlen (ztake len (zdrop pos (d_buf s ++ tl))) = len) as Hhl.
    { unfold zlen, ztake, zdrop, d_size, zlen in *. rewrite length_take, length_drop, length_app. lia. }
    exists 0. eexists _, _. split; [reflexivity|]. rewrite Hsplit, <- app_assoc, Hb in *.
    split; [split|left; split; [done|]; split; [done|]; eexists; done]; cbn.
    + unfold d_size in *. cbn. autorewrite with zlen. rewrite Hhl.
      unfold zlen, ztake, zdrop in *. rewrite length_take, length_drop. lia.
    + apply Forall_app; split; [by apply Forall_take|]. apply Forall_app; split.
      * by apply Forall_take, Forall_drop, Forall_app.
      * by apply Forall_drop.
  - exists (-1), s', h'. split; [done|]. split; [done|]. by right.
Qed.
End Emissions.

Lemma emit_all_refines_witness :
  ∃ s' h', emit_all dbuf_init [EPutc 10; EPutU32 0x1020304] 0%nat = Some (s', h') ∧ dbuf_wf s' ∧
    (dbuf_error s' = false →
       dbuf_error dbuf_init = false ∧ d_buf s' = [] ++ [10; 4; 3; 2; 1]) ∧
    ∃ done, done `sublist_of` [EPutc 10; EPutU32 0x1020304] ∧ d_buf s' = [] ++ emitted_all done.
Proof.
  apply (emit_all_refines dbuf_init [EPutc 10; EPutU32 0x1020304] 0%nat).
  - apply dbuf_init_wf.
  - repeat constructor; vm_compute; congruence.
  - vm_compute. reflexivity.
Defined.

Lemma dbuf_insert_spec_witness :
  ∃ ret s' h', dbuf_insert (mkDynBuf [1; 2; 3] 4 false) 1 2 0%nat = Some ((ret, s'), h') ∧
    dbuf_wf s' ∧
    ((ret = 0 ∧ d_error s' = false ∧
      ∃ hole, zlen hole = 2 ∧ d_buf s' = [1] ++ hole ++ [2; 3]) ∨
     (ret = -1 ∧ d_buf s' = [1; 2; 3] ∧ d_error s' = true)).
Proof.
  apply (dbuf_insert_spec (mkDynBuf [1; 2; 3] 4 false) 1 2 0%nat).
  - split; [vm_compute; split; [discriminate|reflexivity]|].
    repeat constructor; vm_compute; congruence.
  - vm_compute; split; discriminate.
  - lia.
  - vm_compute. reflexivity.
Defined.
