(* ===== verification/Rqsort.v ===== *)
(** * The sorting routine of js/cutils.c: [rqsort]

    An introsort: three-way quicksort around the median of three, an explicit
    stack of 50 segments, heapsort below depth 50 and insertion sort for at
    most 6 elements.  An array of [nmemb] elements of [size] bytes is the list
    of its elements; byte offsets, all multiples of [size], become element
    indices, and the pointers [pi], [plt], [pgt] coincide with the counters
    [i], [lt], [gt] that the code keeps beside them.  A segment handed over by
    its pointer and count is the sub-list it denotes.  [None] is an access
    outside of the segment or an overflow of the stack. *)
From S2P Require Import Prelude.
Local Open Scope nat_scope.

(** ** Exchange functions: byte level *)
Section Exchange.
(** [exchange_bytes]: the loop swaps [size] bytes one at a time; [exchange_words w]
    is [exchange_int16s] (w = 2), [exchange_int32s] (w = 4), [exchange_int64s]
    (w = 8) and [exchange_int128s] (w = 16): it swaps [size / w] words of [w]
    bytes.  The memory blocks at [a] and [b] are the two lists. *)
Fixpoint exchange_loop (w n : nat) (a b : list Z) : option (list Z * list Z) :=
  match n with
  | O => Some (a, b)
  | S n =>
    if (length a <? w) || (length b <? w) then None
    else
      let t := take w a in
      let u := take w b in
      '(a', b') ← exchange_loop w n (drop w a) (drop w b);
      Some (u ++ a', t ++ b')
  end.
Definition exchange_bytes (size : nat) (a b : list Z) := exchange_loop 1 size a b.
Definition exchange_words (w size : nat) (a b : list Z) := exchange_loop w (size / w) a b.
(** [exchange_one_byte], [exchange_one_int16], ...: one word, whatever [size] *)
Definition exchange_one (w : nat) (a b : list Z) := exchange_loop w 1 a b.

(** [exchange_func]: chosen by the alignment of base and size *)
Definition exchange_func (base size : Z) : list Z → list Z → nat → option (list Z * list Z) :=
  let al := Z.land (Z.lor base size) 15 in
  λ a b n,
  if (al =? 0)%Z then (if (size =? 16)%Z then exchange_one 16 a b else exchange_words 16 n a b)
  else if (al =? 8)%Z then (if (size =? 8)%Z then exchange_one 8 a b else exchange_words 8 n a b)
  else if ((al =? 4) || (al =? 12))%Z then
    (if (size =? 4)%Z then exchange_one 4 a b else exchange_words 4 n a b)
  else if ((al =? 2) || (al =? 6) || (al =? 10) || (al =? 14))%Z then
    (if (size =? 2)%Z then exchange_one 2 a b else exchange_words 2 n a b)
  else (if (size =? 1)%Z then exchange_one 1 a b else exchange_bytes n a b).
End Exchange.

(** ** The sorting routines: element level *)

(** A segment waiting on the stack: base, count, depth. *)
Notation segment := (nat * nat * nat)%type.

Section Sort.
Context {A : Type} (cmp : A → A → Z).

Definition swap (a : list A) (i j : nat) : option (list A) :=
  x ← a !! i; y ← a !! j; Some (<[j := x]> (<[i := y]> a)).
Definition cmp_at (a : list A) (i j : nat) : option Z :=
  x ← a !! i; y ← a !! j; Some (cmp x y).
(** [swap_block] of [n] elements: the exchange of two blocks *)
Fixpoint swap_block (a : list A) (p q n : nat) : option (list A) :=
  match n with
  | O => Some a
  | S n => a ← swap a p q; swap_block a (S p) (S q) n
  end.

(** The sift-down loop that [heapsortx] contains twice. *)
Fixpoint sift (fuel : nat) (a : list A) (r n : nat) : option (list A) :=
  match fuel with
  | O => None
  | S fuel =>
    let c := 2 * r + 1 in
    if c <? n then
      c ← (if c <? n - 1 then
             k ← cmp_at a c (c + 1); Some (if (k <=? 0)%Z then c + 1 else c)
           else Some c);
      k ← cmp_at a r c;
      if (k >? 0)%Z then Some a
      else a ← swap a r c; sift fuel a c n
    else Some a
  end.
(** [while (i > 0) { i -= size; ... }] *)
Fixpoint heapify (a : list A) (i n : nat) : option (list A) :=
  match i with
  | O => Some a
  | S i => a ← sift (S n) a i n; heapify a i n
  end.
(** [for (i = n - size; i > 0; i -= size)] *)
Fixpoint heap_extract (a : list A) (i : nat) : option (list A) :=
  match i with
  | O => Some a
  | S i' => a ← swap a 0 i; a ← sift (S i) a 0 i; heap_extract a i'
  end.
Definition heapsortx (a : list A) : option (list A) :=
  let nmemb := length a in
  if 1 <? nmemb then
    a ← heapify a (nmemb / 2) nmemb; heap_extract a (nmemb - 1)
  else Some a.

Definition med3 (a : list A) (x y z : nat) : option nat :=
  cxy ← cmp_at a x y; cyz ← cmp_at a y z; cxz ← cmp_at a x z;
  Some (if (cxy <? 0)%Z then (if (cyz <? 0)%Z then y else if (cxz <? 0)%Z then z else x)
        else (if (cyz >? 0)%Z then y else if (cxz <? 0)%Z then x else z)).

(** The two scans of the partition and the loop around them.  The pivot is
    element 0. *)
Fixpoint scan_up (fuel : nat) (a : list A) (i lt pj : nat) : option (list A * nat * nat) :=
  match fuel with
  | O => None
  | S fuel =>
    if i <? pj then
      c ← cmp_at a 0 i;
      if (c >=? 0)%Z then
        if (c =? 0)%Z then a ← swap a lt i; scan_up fuel a (S i) (S lt) pj
        else scan_up fuel a (S i) lt pj
      else Some (a, i, lt)
    else Some (a, i, lt)
  end.
Fixpoint scan_down (fuel : nat) (a : list A) (i pj gt : nat) : option (list A * nat * nat) :=
  match fuel with
  | O => None
  | S fuel =>
    let pj := pj - 1 in
    if i <? pj then
      c ← cmp_at a 0 pj;
      if (c <=? 0)%Z then
        if (c =? 0)%Z then a ← swap a (gt - 1) pj; scan_down fuel a i pj (gt - 1)
        else scan_down fuel a i pj gt
      else Some (a, pj, gt)
    else Some (a, pj, gt)
  end.
Fixpoint part_loop (fuel : nat) (a : list A) (i lt pj gt : nat) :
    option (list A * nat * nat * nat) :=
  match fuel with
  | O => None
  | S fuel =>
    '(a, i, lt) ← scan_up (S (length a)) a i lt pj;
    '(a, pj, gt) ← scan_down (S (length a)) a i pj gt;
    if pj <=? i then Some (a, i, lt, gt)
    else a ← swap a i pj; part_loop fuel a (S i) lt pj gt
  end.
(** One pass of the [while (nmemb > 6)] body on a segment: the partitioned
    segment with the final [lt] and [gt]. *)
Definition partition3 (a : list A) : option (list A * nat * nat) :=
  let nmemb := length a in
  let m4 := nmemb / 4 in
  m ← med3 a m4 (2 * m4) (3 * m4);
  a ← swap a 0 m;
  '(a, i, lt, gt) ← part_loop (S nmemb) a 1 1 nmemb nmemb;
  let span := lt in
  let span2 := i - lt in
  let lt' := i - lt in
  let span := if span2 <? span then span2 else span in
  a ← swap_block a 0 (i - span) span;
  let span := nmemb - gt in
  let span2 := gt - i in
  let gt' := nmemb - (gt - i) in
  let span := if span2 <? span then span2 else span in
  a ← swap_block a i (nmemb - span) span;
  Some (a, lt', gt').

(** Insertion sort: the inner loop moves element [pj] down. *)
Fixpoint insert_down (a : list A) (pj : nat) : option (list A) :=
  match pj with
  | O => Some a
  | S pj' =>
    c ← cmp_at a pj' pj;
    if (c >? 0)%Z then a ← swap a pj pj'; insert_down a pj' else Some a
  end.
Fixpoint insertion_loop (n : nat) (a : list A) (pi : nat) : option (list A) :=
  match n with
  | O => Some a
  | S n => a ← insert_down a pi; insertion_loop n a (S pi)
  end.
Definition insertion_sort (a : list A) : option (list A) :=
  insertion_loop (length a - 1) a 1.

Definition slice (a : list A) (base count : nat) : option (list A) :=
  if base + count <=? length a then Some (take count (drop base a)) else None.
Definition splice (a : list A) (base : nat) (s : list A) : list A :=
  take base a ++ s ++ drop (base + length s) a.

(** [while (nmemb > 6)]: returns the array, the stack and the small segment left. *)
Fixpoint rqsort_inner (fuel : nat) (a : list A) (stack : list segment) (ptr nmemb depth : nat) :
    option (list A * list segment * nat * nat) :=
  match fuel with
  | O => None
  | S fuel =>
    if 6 <? nmemb then
      let depth := S depth in
      s ← slice a ptr nmemb;
      if 50 <? depth then
        s ← heapsortx s; Some (splice a ptr s, stack, ptr, 0)
      else
        '(s, lt, gt) ← partition3 s;
        let a := splice a ptr s in
        if 50 <=? length stack then None
        else if nmemb - gt <? lt then
          rqsort_inner fuel a ((ptr, lt, depth) :: stack) (ptr + gt) (nmemb - gt) depth
        else
          rqsort_inner fuel a ((ptr + gt, nmemb - gt, depth) :: stack) ptr lt depth
    else Some (a, stack, ptr, nmemb)
  end.
(** [while (sp > stack)] *)
Fixpoint rqsort_outer (fuel : nat) (a : list A) (stack : list segment) : option (list A) :=
  match stack with
  | [] => Some a
  | (ptr, nmemb, depth) :: stack =>
    match fuel with
    | O => None
    | S fuel =>
      '(a, stack, ptr, nmemb) ← rqsort_inner (S nmemb) a stack ptr nmemb depth;
      s ← slice a ptr nmemb;
      s ← insertion_sort s;
      rqsort_outer fuel (splice a ptr s) stack
    end
  end.
Definition rqsort (a : list A) : option (list A) :=
  if length a <? 2 then Some a else rqsort_outer (S (length a)) a [(0, length a, 0)].
End Sort.

(** ** Reasoning about swaps *)

(** The comparison function is a total preorder, as [rqsort] requires. *)
Class CmpOrder {A} (cmp : A → A → Z) := {
  cmp_anti x y : Z.sgn (cmp y x) = (- Z.sgn (cmp x y))%Z;
  cmp_trans x y z : (cmp x y <= 0)%Z → (cmp y z <= 0)%Z → (cmp x z <= 0)%Z
}.

Section SwapLemmas.
Context {A : Type} `{!Inhabited A}.
Implicit Types a : list A.

(** the result of a swap, as a total function *)
Definition swp a i j : list A := <[j := a !!! i]> (<[i := a !!! j]> a).

Lemma swap_eq a i j : i < length a → j < length a → swap a i j = Some (swp a i j).
Proof.
  intros Hi Hj. unfold swap.
  by rewrite (list_lookup_lookup_total_lt a i Hi), (list_lookup_lookup_total_lt a j Hj).
Qed.
Lemma length_swp a i j : length (swp a i j) = length a.
Proof. unfold swp. by rewrite !length_insert. Qed.
Lemma lookup_swp a i j k :
  i < length a → j < length a →
  swp a i j !!! k = if decide (k = i) then a !!! j else if decide (k = j) then a !!! i else a !!! k.
Proof.
  intros Hi Hj. unfold swp. repeat case_decide; subst.
  - destruct (decide (i = j)) as [->|].
    + by rewrite list_lookup_total_insert_eq by (by rewrite length_insert).
    + by rewrite list_lookup_total_insert_ne, list_lookup_total_insert_eq by done.
  - by rewrite list_lookup_total_insert_eq by (by rewrite length_insert).
  - by rewrite !list_lookup_total_insert_ne by done.
Qed.
Lemma cmp_at_eq (cmp : A → A → Z) a i j :
  i < length a → j < length a → cmp_at cmp a i j = Some (cmp (a !!! i) (a !!! j)).
Proof.
  intros Hi Hj. unfold cmp_at.
  by rewrite (list_lookup_lookup_total_lt a i Hi), (list_lookup_lookup_total_lt a j Hj).
Qed.

Lemma swp_perm a i j : i < length a → j < length a → swp a i j ≡ₚ a.
Proof.
  assert (∀ b i j, i < j → j < length b → swp b i j ≡ₚ b) as Hlt.
  { intros b i' j' Hij Hj.
    destruct (list_elem_of_split_length b i' (b !!! i')) as (l1 & l2 & Hb & Hl1);
      [apply list_lookup_lookup_total_lt; lia|].
    remember (b !!! i') as x eqn:Hx. subst b.
    assert (∃ y, l2 !! (j' - S (length l1)) = Some y) as [y Hy].
    { apply lookup_lt_is_Some. rewrite length_app in Hj. cbn in Hj. lia. }
    apply list_elem_of_split_length in Hy as (l3 & l4 & -> & Hl3).
    assert ((l1 ++ x :: l3 ++ y :: l4) !!! j' = y) as Hjy.
    { rewrite lookup_total_app_r by lia. rewrite lookup_total_cons_ne_0 by lia.
      rewrite lookup_total_app_r by lia. by replace (_ - _) with 0 by lia. }
    unfold swp. rewrite <- Hx, Hjy.
    assert (∀ (l k : list A) n u v, n = length l → <[n := v]> (l ++ u :: k) = l ++ v :: k) as Hins.
    { intros l k n u v ->. by rewrite insert_app_r_alt, Nat.sub_diag by lia. }
    rewrite Hins by done. replace (l1 ++ y :: l3 ++ y :: l4) with ((l1 ++ y :: l3) ++ y :: l4)
      by (by rewrite <- app_assoc).
    rewrite Hins by (rewrite length_app; cbn; lia). rewrite <- app_assoc. cbn [app].
    apply Permutation_app_head. rewrite <- !Permutation_middle. apply Permutation_swap. }
  intros Hi Hj. destruct (decide (i = j)) as [->|Hne].
  - unfold swp. rewrite list_insert_insert_eq, list_insert_id; [done|].
    by apply list_lookup_lookup_total_lt.
  - destruct (decide (i < j)) as [|Hge]; [by apply Hlt|].
    unfold swp. rewrite list_insert_insert_ne by done. apply Hlt; lia.
Qed.

(** ** Frames: permuting the cells of an interval *)

(** [a'] is [a] with the cells of [lo, hi) permuted. *)
Definition perm_in (lo hi : nat) a a' : Prop :=
  a' ≡ₚ a ∧ ∀ k, k < lo ∨ hi ≤ k → a' !!! k = a !!! k.

Lemma perm_in_refl lo hi a : perm_in lo hi a a.
Proof. by split. Qed.
Lemma perm_in_trans lo hi a b c : perm_in lo hi a b → perm_in lo hi b c → perm_in lo hi a c.
Proof. intros [P1 F1] [P2 F2]. split; [by etrans|]. intros. by rewrite F2, F1. Qed.
Lemma perm_in_weaken lo hi lo' hi' a b :
  lo' ≤ lo → hi ≤ hi' → perm_in lo hi a b → perm_in lo' hi' a b.
Proof. intros ?? [P F]. split; [done|]. intros k Hk. apply F. lia. Qed.
Lemma perm_in_length lo hi a b : perm_in lo hi a b → length b = length a.
Proof. intros [P _]. by rewrite P. Qed.
Lemma perm_in_swp lo hi a i j :
  lo ≤ i < hi → lo ≤ j < hi → hi ≤ length a → perm_in lo hi a (swp a i j).
Proof.
  intros. split; [apply swp_perm; lia|]. intros k Hk. rewrite lookup_swp by lia.
  repeat case_decide; lia || done.
Qed.

(** every cell of [lo, hi) satisfies [P] *)
Definition all_in (P : A → Prop) a (lo hi : nat) : Prop := ∀ k, lo ≤ k < hi → P (a !!! k).

Lemma all_in_perm P lo hi a b :
  perm_in lo hi a b → hi ≤ length a → all_in P a lo hi → all_in P b lo hi.
Proof.
  intros [HP HF] Hhi Ha.
  assert (length b = length a) as Hl by (by rewrite HP).
  destruct (decide (lo ≤ hi)) as [Hle|]; [|intros k Hk; lia].
  assert (∀ c : list A, length c = length a → c = take lo c ++ take (hi - lo) (drop lo c) ++ drop hi c) as Hs.
  { intros c Hc. rewrite <- (take_drop lo c) at 1. f_equal.
    rewrite <- (take_drop (hi - lo) (drop lo c)) at 1. f_equal.
    rewrite drop_drop. f_equal. lia. }
  assert (take lo b = take lo a) as Hpre.
  { apply list_eq_same_length with lo; [rewrite length_take; lia..|].
    intros i x y Hi Hx Hy. rewrite lookup_take_lt in Hx, Hy by done.
    apply list_lookup_total_correct in Hx, Hy. rewrite HF in Hx by lia. congruence. }
  assert (drop hi b = drop hi a) as Hpost.
  { apply list_eq_same_length with (length a - hi); [rewrite length_drop; lia..|].
    intros i x y Hi Hx Hy. rewrite lookup_drop in Hx, Hy.
    apply list_lookup_total_correct in Hx, Hy. rewrite HF in Hx by lia. congruence. }
  assert (take (hi - lo) (drop lo b) ≡ₚ take (hi - lo) (drop lo a)) as Hm.
  { rewrite (Hs a eq_refl), (Hs b Hl), Hpre, Hpost in HP.
    apply Permutation_app_inv_l in HP. by apply Permutation_app_inv_r in HP. }
  assert (∀ (c : list A) (k : nat), length c = length a → lo ≤ k < hi → c !!! k ∈ take (hi - lo) (drop lo c)) as Hin.
  { intros c k Hc Hk. apply list_elem_of_lookup. exists (k - lo).
    rewrite lookup_take_lt, lookup_drop by lia. replace (lo + (k - lo)) with k by lia.
    apply list_lookup_lookup_total_lt. lia. }
  intros k Hk. specialize (Hin b k Hl Hk). rewrite Hm in Hin.
  apply list_elem_of_lookup in Hin as [i Hi].
  assert (i < hi - lo) by (apply lookup_lt_Some in Hi; rewrite length_take in Hi; lia).
  rewrite lookup_take_lt, lookup_drop in Hi by done. apply list_lookup_total_correct in Hi.
  rewrite <- Hi. apply Ha. lia.
Qed.
Lemma all_in_frame P lo hi lo' hi' a b :
  perm_in lo hi a b → hi' ≤ lo ∨ hi ≤ lo' → all_in P a lo' hi' → all_in P b lo' hi'.
Proof. intros [_ HF] Hd Ha k Hk. rewrite HF by lia. by apply Ha. Qed.
End SwapLemmas.

(** ** Heapsort *)
Section Heap.
Context {A : Type} `{!Inhabited A} (cmp : A → A → Z) `{!CmpOrder cmp}.
Implicit Types a : list A.
Local Notation le x y := (Z.le (cmp x y) 0%Z).

Lemma cmp_le_ge x y : (0 <= cmp x y)%Z ↔ le y x.
Proof. pose proof (cmp_anti x y). destruct (cmp x y), (cmp y x); cbn in *; lia. Qed.
Lemma cmp_total x y : le x y ∨ le y x.
Proof. pose proof (cmp_anti x y). destruct (cmp x y), (cmp y x); cbn in *; lia. Qed.
Lemma cmp_refl x : le x x.
Proof. destruct (cmp_total x x); done. Qed.

(** [c] is a child of [i] in the implicit tree *)
Definition child (i c : nat) : Prop := c = 2 * i + 1 ∨ c = 2 * i + 2.
(** the heap property of the nodes from [k] on, except at [r] *)
Definition heap_except a (k r n : nat) : Prop :=
  ∀ i c, k ≤ i → i ≠ r → child i c → c < n → le (a !!! c) (a !!! i).
(** the parent of [r] dominates the children of [r] *)
Definition heap_link a (k r n : nat) : Prop :=
  ∀ i c, k ≤ i → child i r → child r c → c < n → le (a !!! c) (a !!! i).
Definition heap_from a (k n : nat) : Prop :=
  ∀ i c, k ≤ i → child i c → c < n → le (a !!! c) (a !!! i).

(** the child that [sift] descends to *)
Lemma sift_child a r n :
  2 * r + 1 < n → n ≤ length a →
  ∃ c, (if 2 * r + 1 <? n - 1 then
          k ← cmp_at cmp a (2 * r + 1) (2 * r + 1 + 1);
          Some (if (k <=? 0)%Z then 2 * r + 1 + 1 else 2 * r + 1)
        else Some (2 * r + 1)) = Some c ∧
    child r c ∧ c < n ∧ ∀ c', child r c' → c' < n → le (a !!! c') (a !!! c).
Proof.
  intros Hr Hn. unfold child. destruct (Nat.ltb_spec (2 * r + 1) (n - 1)).
  - rewrite cmp_at_eq by lia. cbn [mbind option_bind]. destruct (Z.leb_spec (cmp (a !!! (2 * r + 1)) (a !!! (2 * r + 1 + 1))) 0).
    + eexists; split; [reflexivity|]. split; [lia|]. split; [lia|].
      intros c' [->| ->] _; [done|]. replace (2 * r + 2) with (2 * r + 1 + 1) by lia. apply cmp_refl.
    + eexists; split; [reflexivity|]. split; [lia|]. split; [lia|].
      intros c' [->| ->] _; [apply cmp_refl|]. apply cmp_le_ge.
      replace (2 * r + 2) with (2 * r + 1 + 1) by lia. lia.
  - eexists; split; [reflexivity|]. split; [lia|]. split; [lia|].
    intros c' [->| ->] ?; [apply cmp_refl|lia].
Qed.

Lemma sift_spec fuel a k r n :
  n - r < fuel → n ≤ length a → k ≤ r →
  heap_except a k r n → heap_link a k r n →
  ∃ a', sift cmp fuel a r n = Some a' ∧ perm_in 0 n a a' ∧ heap_from a' k n.
Proof.
  revert a r. induction fuel as [|fuel IH]; intros a r Hf Hn Hk He Hl; [lia|].
  cbn [sift]. destruct (Nat.ltb_spec (2 * r + 1) n) as [Hr|Hr].
  2: { exists a. split; [done|]. split; [apply perm_in_refl|].
       intros i c Hi Hc Hcn. destruct (decide (i = r)) as [->|]; [unfold child in Hc; lia|]. by apply He. }
  destruct (sift_child a r n Hr Hn) as (c & -> & Hc & Hcn & Hmax).
  cbn [mbind option_bind]. assert (r < c) by (unfold child in Hc; lia).
  rewrite cmp_at_eq by lia. cbn [mbind option_bind].
  rewrite Z.gtb_ltb. destruct (Z.ltb_spec 0 (cmp (a !!! r) (a !!! c))) as [Hgt|Hle].
  - exists a. split; [done|]. split; [apply perm_in_refl|].
    intros i c' Hi Hc' Hcn'. destruct (decide (i = r)) as [->|]; [|by apply He].
    apply (cmp_trans _ (a !!! c)); [by apply Hmax|]. apply cmp_le_ge. lia.
  - rewrite swap_eq by lia. cbn [mbind option_bind].
    assert (∀ i, child i c → i = r) as Hparent by (intros i; unfold child in *; lia).
    destruct (IH (swp a r c) c) as (a' & Ha' & HP & HF); [lia|by rewrite length_swp|lia|..].
    + intros i c' Hi Hne Hc' Hcn'. rewrite !lookup_swp by lia.
      destruct (decide (c' = c)) as [->|Hcc].
      { rewrite (Hparent i Hc'). rewrite decide_False by lia. by rewrite decide_True by done. }
      destruct (decide (i = r)) as [->|Hir].
      { rewrite decide_False by (unfold child in *; lia). by apply Hmax. }
      rewrite (decide_False (P := i = c)) by done.
      destruct (decide (c' = r)) as [->|]; [by apply Hl|]. by apply He.
    + intros i c' Hi Hic Hc' Hcn'. rewrite (Hparent i Hic), !lookup_swp by lia.
      rewrite (decide_True (P := r = r)) by lia.
      rewrite !decide_False by (unfold child in *; lia).
      apply He; [lia|lia|done|done].
    + exists a'. split; [done|]. split; [|done].
      eapply perm_in_trans; [|exact HP]. apply perm_in_swp; lia.
Qed.

Lemma heapify_spec a i n :
  n = length a → i ≤ n → heap_from a i n →
  ∃ a', heapify cmp a i n = Some a' ∧ perm_in 0 n a a' ∧ heap_from a' 0 n.
Proof.
  revert a. induction i as [|i IH]; intros a Hn Hi Hh; cbn [heapify].
  - exists a. split; [done|]. split; [apply perm_in_refl|done].
  - destruct (sift_spec (S n) a i i n) as (a1 & -> & HP1 & HF1); try lia.
    + intros j c Hj Hne Hc. apply Hh; [lia|done].
    + intros j c Hj Hc. unfold child in Hc. lia.
    + cbn [mbind option_bind]. destruct (IH a1) as (a' & -> & HP & HF); try done; try lia.
      { rewrite (perm_in_length _ _ _ _ HP1). done. }
      exists a'. split; [done|]. split; [by eapply perm_in_trans|done].
Qed.

Lemma heap_root_max a n j : heap_from a 0 n → j < n → le (a !!! j) (a !!! 0).
Proof.
  intros Hh. induction j as [j IH] using lt_wf_ind. intros Hj.
  destruct (decide (j = 0)) as [->|Hne]; [apply cmp_refl|].
  apply (cmp_trans _ (a !!! ((j - 1) / 2))).
  - apply Hh; [lia| |done]. unfold child. pose proof (Nat.div_mod_eq (j - 1) 2).
    pose proof (Nat.mod_upper_bound (j - 1) 2). lia.
  - assert ((j - 1) / 2 < j) by (apply Nat.Div0.div_lt_upper_bound; lia). apply IH; lia.
Qed.

(** the cells of [lo, hi) are in order *)
Definition sorted_in a (lo hi : nat) : Prop :=
  ∀ i j, lo ≤ i → i < j → j < hi → le (a !!! i) (a !!! j).

Lemma heap_extract_spec a i n :
  n = length a → i < n → heap_from a 0 (S i) → sorted_in a (S i) n →
  (∀ j k, j ≤ i → i < k < n → le (a !!! j) (a !!! k)) →
  ∃ a', heap_extract cmp a i = Some a' ∧ perm_in 0 n a a' ∧ sorted_in a' 0 n.
Proof.
  revert a. induction i as [|i IH]; intros a Hn Hi Hh Hs Hle; cbn [heap_extract].
  - exists a. split; [done|]. split; [apply perm_in_refl|].
    intros j k Hj Hjk Hk. destruct (decide (j = 0)) as [->|]; [apply Hle; lia|apply Hs; lia].
  - rewrite swap_eq by lia. cbn [mbind option_bind].
    destruct (sift_spec (S (S i)) (swp a 0 (S i)) 0 0 (S i)) as (a1 & -> & HP1 & HF1);
      [lia|rewrite length_swp; lia|lia|..].
    { intros j c Hj Hne Hc Hcn. rewrite !lookup_swp by lia. unfold child in *.
      rewrite !decide_False by lia. apply Hh; unfold child; lia. }
    { intros j c Hj Hc. unfold child in Hc. lia. }
    cbn [mbind option_bind].
    assert (length a1 = n) as Hl1 by (rewrite (perm_in_length _ _ _ _ HP1), length_swp; done).
    assert (∀ k, S i < k → a1 !!! k = a !!! k) as Hk1.
    { intros k Hk. rewrite (proj2 HP1) by lia. rewrite lookup_swp by lia.
      by rewrite !decide_False by lia. }
    assert (a1 !!! S i = a !!! 0) as Hk0.
    { rewrite (proj2 HP1) by lia. rewrite lookup_swp by lia.
      by rewrite decide_False, decide_True by lia. }
    assert (all_in (λ x, le x (a !!! 0) ∧ ∀ k, S i < k < n → le x (a !!! k)) a1 0 (S i)) as Hall.
    { eapply all_in_perm; [exact HP1|rewrite length_swp; lia|].
      intros j Hj. rewrite lookup_swp by lia.
      case_decide; [|rewrite decide_False by lia]; (split; [apply (heap_root_max a (S (S i))); [done|lia]|intros; apply Hle; lia]). }
    destruct (IH a1) as (a' & -> & HP & HS); [done|lia|done|..].
    + intros j k Hj Hjk Hk. rewrite (Hk1 k) by lia.
      destruct (decide (j = S i)) as [->|]; [rewrite Hk0; apply Hle; lia|].
      rewrite (Hk1 j) by lia. apply Hs; lia.
    + intros j k Hj Hk. destruct (Hall j ltac:(lia)) as [H0 Hgt].
      destruct (decide (k = S i)) as [->|]; [by rewrite Hk0|]. rewrite (Hk1 k) by lia. apply Hgt; lia.
    + exists a'. split; [done|]. split; [|done].
      eapply perm_in_trans; [apply (perm_in_swp 0 n _ 0 (S i)); lia|].
      eapply perm_in_trans; [|exact HP]. eapply perm_in_weaken; [..|exact HP1]; lia.
Qed.

Lemma heapsortx_spec a :
  ∃ a', heapsortx cmp a = Some a' ∧ a' ≡ₚ a ∧ sorted_in a' 0 (length a).
Proof.
  unfold heapsortx. destruct (Nat.ltb_spec 1 (length a)).
  - destruct (heapify_spec a (length a / 2) (length a)) as (a1 & -> & HP1 & HF1); [done|..].
    + apply Nat.Div0.div_le_upper_bound. lia.
    + intros i c Hi Hc Hcn. unfold child in Hc.
      pose proof (Nat.div_mod_eq (length a) 2). pose proof (Nat.mod_upper_bound (length a) 2). lia.
    + cbn [mbind option_bind]. pose proof (perm_in_length _ _ _ _ HP1) as Hl.
      destruct (heap_extract_spec a1 (length a - 1) (length a)) as (a' & -> & HP & HS); [lia|lia|..].
      * by replace (S (length a - 1)) with (length a) by lia.
      * intros i j Hi Hij Hj. lia.
      * intros; lia.
      * exists a'. split; [done|]. split; [|done]. etrans; [apply HP|apply HP1].
  - exists a. split; [done|]. split; [done|]. intros i j Hi Hij Hj. lia.
Qed.
End Heap.

(** ** The partition *)
Section Partition.
Context {A : Type} `{!Inhabited A} (cmp : A → A → Z) `{!CmpOrder cmp}.
Implicit Types a : list A.

(** comparison with the pivot [p] *)
Definition eqp (p x : A) : Prop := cmp p x = 0%Z.
Definition ltp (p x : A) : Prop := (0 < cmp p x)%Z.
Definition gtp (p x : A) : Prop := (cmp p x < 0)%Z.

Lemma cmp_self x : cmp x x = 0%Z.
Proof. pose proof (cmp_anti x x). destruct (cmp x x); cbn in *; lia. Qed.

(** The state of the partition: equal, smaller, unknown, greater, equal. *)
Record part_inv (p : A) a (i lt pj gt : nat) : Prop := {
  pi_bounds : 1 ≤ lt ∧ lt ≤ i ∧ i ≤ pj ∧ pj ≤ gt ∧ gt ≤ length a;
  pi_eq1 : all_in (eqp p) a 0 lt;
  pi_lt : all_in (ltp p) a lt i;
  pi_gt : all_in (gtp p) a pj gt;
  pi_eq2 : all_in (eqp p) a gt (length a);
  pi_pivot : a !!! 0 = p
}.

(** prove [all_in P] of a swapped list from the facts on the list before *)
Ltac cells :=
  let k := fresh "k" in let Hk := fresh "Hk" in
  intros k Hk; rewrite ?lookup_swp by lia; repeat case_decide; subst;
  first [ done
        | match goal with H : all_in ?P ?a _ _ |- ?P (?a !!! _) => apply H; lia end
        | match goal with H : all_in (?P ?p) ?a _ _ |- ?P ?p (?a !!! _) => apply H; lia end
        | unfold eqp, ltp, gtp in *; lia ].

Lemma scan_up_spec fuel p a i lt pj gt :
  pj - i < fuel → part_inv p a i lt pj gt →
  ∃ a' i' lt', scan_up cmp fuel a i lt pj = Some (a', i', lt') ∧
    perm_in 0 (length a) a a' ∧ i ≤ i' ∧ part_inv p a' i' lt' pj gt ∧
    (i' = pj ∨ gtp p (a' !!! i')).
Proof.
  revert a i lt. induction fuel as [|fuel IH]; intros a i lt Hf [Hb E1 L G E2 P]; [lia|].
  cbn [scan_up]. destruct (Nat.ltb_spec i pj).
  2: { exists a, i, lt. split; [done|]. split; [apply perm_in_refl|]. split; [lia|].
       split; [by split|]. left. lia. }
  rewrite cmp_at_eq by lia. cbn [mbind option_bind]. rewrite P, Z.geb_leb.
  destruct (Z.leb_spec 0 (cmp p (a !!! i))).
  2: { exists a, i, lt. split; [done|]. split; [apply perm_in_refl|]. split; [lia|].
       split; [by split|]. by right. }
  destruct (Z.eqb_spec (cmp p (a !!! i)) 0).
  - rewrite swap_eq by lia. cbn [mbind option_bind].
    destruct (IH (swp a lt i) (S i) (S lt)) as (a' & i' & lt' & -> & HP & Hi & Hinv & Hend); [lia|..].
    { split; rewrite ?length_swp; try lia; try (clear IH; cells).
      rewrite lookup_swp by lia. by rewrite !decide_False by lia. }
    exists a', i', lt'. split; [done|]. rewrite length_swp in HP.
    split; [|split; [lia|by split]].
    eapply perm_in_trans; [|exact HP]. apply perm_in_swp; lia.
  - destruct (IH a (S i) lt) as (a' & i' & lt' & -> & HP & Hi & Hinv & Hend); [lia|..].
    { split; try done; try lia. intros k Hk. destruct (decide (k = i)) as [->|]; [unfold ltp; lia|].
      apply L. lia. }
    exists a', i', lt'. split; [done|]. split; [done|]. split; [lia|]. done.
Qed.

Lemma scan_down_spec fuel p a i lt pj gt :
  pj - i < fuel → part_inv p a i lt pj gt → i = pj ∨ gtp p (a !!! i) →
  ∃ a' pj' gt', scan_down cmp fuel a i pj gt = Some (a', pj', gt') ∧
    perm_in 0 (length a) a a' ∧ pj' < pj ∧
    ((i < pj' ∧ ltp p (a' !!! pj') ∧ gtp p (a' !!! i) ∧ part_inv p a' i lt (S pj') gt') ∨
     (pj' ≤ i ∧ part_inv p a' i lt i gt')).
Proof.
  revert a pj gt. induction fuel as [|fuel IH]; intros a pj gt Hf [Hb E1 L G E2 P] Hi; [lia|].
  cbn [scan_down]. destruct (Nat.ltb_spec i (pj - 1)).
  2: { exists a, (pj - 1), gt. split; [done|]. split; [apply perm_in_refl|]. split; [lia|].
       right. split; [lia|]. split; try done; try lia.
       intros k Hk. destruct (decide (k = i)) as [->|]; [|apply G; lia].
       destruct Hi as [->|Hi]; [apply G; lia|done]. }
  destruct Hi as [->|Hi]; [lia|].
  rewrite cmp_at_eq by lia. cbn [mbind option_bind]. rewrite P.
  destruct (Z.leb_spec (cmp p (a !!! (pj - 1))) 0).
  2: { exists a, (pj - 1), gt. split; [done|]. split; [apply perm_in_refl|]. split; [lia|].
       left. split; [lia|]. split; [done|]. split; [done|].
       replace (S (pj - 1)) with pj by lia. by split. }
  destruct (Z.eqb_spec (cmp p (a !!! (pj - 1))) 0).
  - rewrite swap_eq by lia. cbn [mbind option_bind].
    destruct (IH (swp a (gt - 1) (pj - 1)) (pj - 1) (gt - 1))
      as (a' & pj' & gt' & -> & HP & Hpj & Hc); [lia|..].
    { split; rewrite ?length_swp; try lia; try (clear IH; cells).
      rewrite lookup_swp by lia. by rewrite !decide_False by lia. }
    { right. rewrite lookup_swp by lia. by rewrite !decide_False by lia. }
    exists a', pj', gt'. split; [done|]. rewrite length_swp in HP.
    split; [|split; [lia|done]].
    eapply perm_in_trans; [|exact HP]. apply perm_in_swp; lia.
  - destruct (IH a (pj - 1) gt) as (a' & pj' & gt' & -> & HP & Hpj & Hc); [lia|..|by right|].
    { split; try done; try lia. intros k Hk.
      destruct (decide (k = pj - 1)) as [->|]; [unfold gtp; lia|]. apply G. lia. }
    exists a', pj', gt'. split; [done|]. split; [done|]. split; [lia|done].
Qed.

Lemma part_loop_spec fuel p a i lt pj gt :
  pj - i < fuel → part_inv p a i lt pj gt →
  ∃ a' i' lt' gt', part_loop cmp fuel a i lt pj gt = Some (a', i', lt', gt') ∧
    perm_in 0 (length a) a a' ∧ part_inv p a' i' lt' i' gt'.
Proof.
  revert a i lt pj gt. induction fuel as [|fuel IH]; intros a i lt pj gt Hf Hinv; [lia|].
  cbn [part_loop].
  destruct (scan_up_spec (S (length a)) p a i lt pj gt) as (a1 & i1 & lt1 & -> & HP1 & Hi1 & Hinv1 & He1);
    [destruct Hinv; lia|done|]. cbn [mbind option_bind].
  pose proof (perm_in_length _ _ _ _ HP1) as Hl1.
  destruct (scan_down_spec (S (length a1)) p a1 i1 lt1 pj gt)
    as (a2 & pj2 & gt2 & -> & HP2 & Hpj2 & Hc); [destruct Hinv1; lia|done|done|].
  cbn [mbind option_bind]. pose proof (perm_in_length _ _ _ _ HP2) as Hl2.
  rewrite Hl1 in HP2. pose proof (perm_in_trans _ _ _ _ _ HP1 HP2) as HP12.
  destruct Hc as [(Hlt & Hsm & Hgr & [Hb E1 L G E2 P])|(Hge & Hfin)].
  - destruct (Nat.leb_spec pj2 i1); [lia|]. rewrite swap_eq by lia. cbn [mbind option_bind].
    destruct (IH (swp a2 i1 pj2) (S i1) lt1 pj2 gt2) as (a' & i' & lt' & gt' & -> & HP & Hinv'); [lia|..].
    { split; rewrite ?length_swp; try lia; try (clear IH; cells).
      rewrite lookup_swp by lia. by rewrite !decide_False by lia. }
    rewrite length_swp in HP. exists a', i', lt', gt'. split; [done|]. split; [|done].
    eapply perm_in_trans; [exact HP12|]. eapply perm_in_trans; [apply (perm_in_swp 0 (length a) _ i1 pj2); lia|].
    rewrite Hl2, Hl1 in HP. exact HP.
  - destruct (Nat.leb_spec pj2 i1); [|lia]. by exists a2, i1, lt1, gt2.
Qed.

Lemma swap_block_spec n a p q :
  p + n ≤ q → q + n ≤ length a →
  ∃ a', swap_block a p q n = Some a' ∧ perm_in 0 (length a) a a' ∧
    ∀ k, a' !!! k = if decide (p ≤ k < p + n) then a !!! (q + (k - p))
                    else if decide (q ≤ k < q + n) then a !!! (p + (k - q)) else a !!! k.
Proof.
  revert a p q. induction n as [|n IH]; intros a p q Hpq Hq; cbn [swap_block].
  - exists a. split; [done|]. split; [apply perm_in_refl|]. intros k. by rewrite !decide_False by lia.
  - rewrite swap_eq by lia. cbn [mbind option_bind].
    destruct (IH (swp a p q) (S p) (S q)) as (a' & -> & HP & Hk); [lia|rewrite length_swp; lia|].
    exists a'. split; [done|]. rewrite length_swp in HP.
    split; [eapply perm_in_trans; [apply (perm_in_swp 0 (length a) a p q); lia|done]|].
    intros k. rewrite Hk, !lookup_swp by lia.
    repeat case_decide; subst; try lia; f_equal; lia.
Qed.

Lemma med3_spec a x y z :
  x < length a → y < length a → z < length a →
  ∃ m, med3 cmp a x y z = Some m ∧ m < length a.
Proof.
  intros. unfold med3. rewrite !cmp_at_eq by done. cbn [mbind option_bind].
  eexists; split; [reflexivity|]. by repeat case_match.
Qed.

Lemma partition3_spec a :
  4 ≤ length a →
  ∃ a' lt gt p, partition3 cmp a = Some (a', lt, gt) ∧ perm_in 0 (length a) a a' ∧
    lt < gt ∧ gt ≤ length a ∧
    all_in (ltp p) a' 0 lt ∧ all_in (eqp p) a' lt gt ∧ all_in (gtp p) a' gt (length a).
Proof.
  intros Hn. unfold partition3. set (m4 := length a / 4).
  assert (4 * m4 ≤ length a ∧ 1 ≤ m4).
  { subst m4. pose proof (Nat.div_mod_eq (length a) 4). pose proof (Nat.mod_upper_bound (length a) 4). lia. }
  destruct (med3_spec a m4 (2 * m4) (3 * m4)) as (m & -> & Hm); try lia.
  cbn [mbind option_bind]. rewrite swap_eq by lia. cbn [mbind option_bind].
  set (p := swp a 0 m !!! 0).
  destruct (part_loop_spec (S (length a)) p (swp a 0 m) 1 1 (length a) (length a))
    as (a1 & i & lt & gt & -> & HP1 & [Hb E1 L G E2 _]); [lia|..].
  { split; rewrite ?length_swp; try lia; try (intros k Hk; lia); try done.
    intros k Hk. replace k with 0 by lia. apply cmp_self. }
  cbn [mbind option_bind]. rewrite length_swp in HP1.
  assert (length a1 = length a) as Hl1 by (by rewrite (perm_in_length _ _ _ _ HP1), length_swp).
  set (sp1 := if i - lt <? lt then i - lt else lt).
  assert (sp1 = Nat.min (i - lt) lt) as Hsp1 by (subst sp1; destruct (Nat.ltb_spec (i - lt) lt); lia).
  destruct (swap_block_spec sp1 a1 0 (i - sp1)) as (a2 & -> & HP2 & Hk2); [lia|lia|].
  cbn [mbind option_bind]. pose proof (perm_in_length _ _ _ _ HP2) as Hl2.
  set (sp2 := if gt - i <? length a - gt then gt - i else length a - gt).
  assert (sp2 = Nat.min (gt - i) (length a - gt)) as Hsp2
    by (subst sp2; destruct (Nat.ltb_spec (gt - i) (length a - gt)); lia).
  destruct (swap_block_spec sp2 a2 i (length a - sp2)) as (a3 & -> & HP3 & Hk3); [lia|lia|].
  cbn [mbind option_bind]. exists a3, (i - lt), (length a - (gt - i)), p.
  split; [done|]. split.
  { eapply perm_in_trans; [apply (perm_in_swp 0 (length a) a 0 m); lia|].
    eapply perm_in_trans; [exact HP1|]. rewrite Hl2, Hl1 in HP3. rewrite Hl1 in HP2.
    eapply perm_in_trans; [exact HP2|exact HP3]. }
  split; [lia|]. split; [lia|]. rewrite Hl1 in E2.
  assert (∀ k, k < i → a3 !!! k = a2 !!! k) as Hlo by (intros k Hk; rewrite Hk3, !decide_False by lia; done).
  assert (∀ k, i ≤ k → a2 !!! k = a1 !!! k) as Hhi by (intros k Hk; rewrite Hk2, !decide_False by lia; done).
  split; [|split]; intros k Hk.
  - rewrite Hlo, Hk2 by lia. repeat case_decide; [apply L; lia|lia|apply L; lia].
  - destruct (decide (k < i)).
    + rewrite Hlo, Hk2 by lia. repeat case_decide; [lia|apply E1; lia|apply E1; lia].
    + rewrite Hk3, !Hhi by lia. repeat case_decide; [apply E2; lia|lia|apply E2; lia].
  - rewrite Hk3, !Hhi by lia. repeat case_decide; [lia|apply G; lia|apply G; lia].
Qed.
End Partition.

(** ** Insertion sort *)
Section Insertion.
Context {A : Type} `{!Inhabited A} (cmp : A → A → Z) `{!CmpOrder cmp}.
Implicit Types a : list A.
Local Notation le x y := (Z.le (cmp x y) 0%Z).

(** in order up to [pi], except that [pj] may be too small *)
Definition insert_inv a (pj pi : nat) : Prop :=
  ∀ i j, i < j → j ≤ pi → j ≠ pj → le (a !!! i) (a !!! j).

Lemma insert_down_spec a pj pi :
  pj ≤ pi → pi < length a → insert_inv a pj pi →
  ∃ a', insert_down cmp a pj = Some a' ∧ perm_in 0 (S pi) a a' ∧ sorted_in cmp a' 0 (S pi).
Proof.
  revert a. induction pj as [|pj IH]; intros a Hj Hi Hinv; cbn [insert_down].
  - exists a. split; [done|]. split; [apply perm_in_refl|].
    intros i j Hi0 Hij Hjp. apply Hinv; lia.
  - rewrite cmp_at_eq by lia. cbn [mbind option_bind]. rewrite Z.gtb_ltb.
    destruct (Z.ltb_spec 0 (cmp (a !!! pj) (a !!! S pj))).
    + rewrite swap_eq by lia. cbn [mbind option_bind].
      assert (le (a !!! S pj) (a !!! pj)) by (apply (cmp_le_ge cmp); lia).
      destruct (IH (swp a (S pj) pj)) as (a' & -> & HP & HS); [lia|by rewrite length_swp|..].
      { intros i j Hij Hjp Hne. rewrite !lookup_swp by lia.
        repeat case_decide; subst; try lia; try done; apply Hinv; lia. }
      exists a'. split; [done|]. split; [|done].
      eapply perm_in_trans; [|exact HP]. apply perm_in_swp; lia.
    + exists a. split; [done|]. split; [apply perm_in_refl|].
      intros i j Hi0 Hij Hjp. destruct (decide (j = S pj)) as [->|]; [|apply Hinv; lia].
      destruct (decide (i = pj)) as [->|]; [lia|].
      apply (cmp_trans _ (a !!! pj)); [apply Hinv; lia|lia].
Qed.

Lemma insertion_sort_spec a :
  ∃ a', insertion_sort cmp a = Some a' ∧ a' ≡ₚ a ∧ sorted_in cmp a' 0 (length a).
Proof.
  assert (∀ n b pi, pi + n = length b → sorted_in cmp b 0 pi → 1 ≤ pi →
    ∃ a', insertion_loop cmp n b pi = Some a' ∧ a' ≡ₚ b ∧ sorted_in cmp a' 0 (length b)) as Hloop.
  { induction n as [|n IH]; intros b pi Hn Hs Hp; cbn [insertion_loop].
    - exists b. split; [done|]. split; [done|]. by replace (length b) with pi by lia.
    - destruct (insert_down_spec b pi pi) as (b1 & -> & HP1 & HS1); [lia|lia|..].
      { intros i j Hij Hj Hne. apply Hs; lia. }
      cbn [mbind option_bind]. pose proof (perm_in_length _ _ _ _ HP1) as Hl.
      destruct (IH b1 (S pi)) as (a' & -> & HP & HS); [lia|done|lia|].
      exists a'. split; [done|]. split; [etrans; [exact HP|apply HP1]|by rewrite <- Hl]. }
  unfold insertion_sort. destruct (decide (length a = 0)) as [H0|H0].
  - rewrite H0. cbn. exists a. split; [done|]. split; [done|]. intros i j ??; lia.
  - apply Hloop; [lia| |lia]. intros i j Hi Hij Hj. lia.
Qed.
End Insertion.

(** ** The segment stack *)
Section Segments.
Context {A : Type} `{!Inhabited A} (cmp : A → A → Z) `{!CmpOrder cmp}.
Implicit Types a s : list A.
Local Notation le x y := (Z.le (cmp x y) 0%Z).

Lemma slice_eq a base count :
  base + count ≤ length a → slice a base count = Some (take count (drop base a)).
Proof. intros. unfold slice. destruct (Nat.leb_spec (base + count) (length a)); [done|lia]. Qed.

Lemma splice_spec a base count s' :
  base + count ≤ length a → s' ≡ₚ take count (drop base a) →
  perm_in base (base + count) a (splice a base s') ∧
  ∀ k, k < count → splice a base s' !!! (base + k) = s' !!! k.
Proof.
  intros Hb HP.
  assert (length s' = count) as Hl by (rewrite HP, length_take, length_drop; lia).
  unfold splice. rewrite Hl. split; [split|].
  - rewrite HP, <- drop_drop, take_drop. by rewrite take_drop.
  - intros k Hk. destruct (decide (k < base)).
    + rewrite lookup_total_app_l by (rewrite length_take; lia). by rewrite lookup_total_take_lt by lia.
    + rewrite lookup_total_app_r by (rewrite length_take; lia).
      rewrite lookup_total_app_r by (rewrite length_take; lia).
      rewrite lookup_total_drop. f_equal. rewrite length_take. lia.
  - intros k Hk. rewrite lookup_total_app_r by (rewrite length_take; lia).
    rewrite length_take. replace (base + k - base `min` length a) with k by lia.
    by rewrite lookup_total_app_l by lia.
Qed.

Definition seg_mem (s : segment) (i : nat) : Prop :=
  let '(b, c, _) := s in b ≤ i < b + c.
Definition disj (s t : segment) : Prop := ∀ i, seg_mem s i → seg_mem t i → False.
Definition pend (S : list segment) (i j : nat) : Prop :=
  Exists (λ t, seg_mem t i ∧ seg_mem t j) S.
(** What remains to be sorted: every pair out of order lies in one pending segment. *)
Record pending a (S : list segment) : Prop := {
  pd_disj : ForallOrdPairs disj S;
  pd_bound : Forall (λ t, ∀ i, seg_mem t i → i < length a) S;
  pd_order : ∀ i j, i < j → j < length a → le (a !!! i) (a !!! j) ∨ pend S i j
}.

Lemma pending_nil a : pending a [] → sorted_in cmp a 0 (length a).
Proof. intros [_ _ Ho] i j _ Hij Hj. destruct (Ho i j Hij Hj) as [|H]; [done|by apply Exists_nil in H]. Qed.

Lemma pending_depth a b c d d' S : pending a ((b, c, d) :: S) → pending a ((b, c, d') :: S).
Proof.
  intros [Hd Hb Ho]. inversion Hd; subst. apply Forall_cons in Hb as [Hb Hbs].
  split; [by constructor|by constructor|]. intros i j Hij Hj.
  destruct (Ho i j Hij Hj) as [|Hp]; [by left|right]. apply Exists_cons in Hp as [|]; by constructor.
Qed.

(** Working on the top segment: its cells are permuted into [s'], which leaves
    the segments [Snew] inside it to be sorted. *)
Lemma pending_replace a base count d S s' Snew :
  pending a ((base, count, d) :: S) → base + count ≤ length a →
  s' ≡ₚ take count (drop base a) →
  ForallOrdPairs disj Snew →
  Forall (λ t, ∀ i, seg_mem t i → base ≤ i < base + count) Snew →
  (∀ i j, i < j → j < count → le (s' !!! i) (s' !!! j) ∨ pend Snew (base + i) (base + j)) →
  pending (splice a base s') (Snew ++ S).
Proof.
  intros [Hd Hb Ho] Hbc HP Hdn Hin Hs'.
  destruct (splice_spec a base count s' Hbc HP) as [Hpi Hk].
  pose proof (perm_in_length _ _ _ _ Hpi) as Hl.
  inversion Hd as [|? ? HdS HdS']; subst. apply Forall_cons in Hb as [_ Hb].
  assert (∀ j, base ≤ j < base + count → ¬ Exists (λ t, seg_mem t j) S) as Hout.
  { intros j Hj (t & Ht & Hm)%Exists_exists. rewrite Forall_forall in HdS.
    by apply (HdS t Ht j). }
  split.
  - clear -Hdn Hin HdS HdS'. induction Snew as [|t Snew IH]; cbn; [done|].
    inversion Hdn; subst. apply Forall_cons in Hin as [Ht Hin]. constructor; [|by apply IH].
    apply Forall_app. split; [done|]. eapply Forall_impl; [exact HdS|].
    intros u Hu i Hti Hui. by apply (Hu i (Ht i Hti)).
  - apply Forall_app. rewrite Hl. split; [|done]. eapply Forall_impl; [exact Hin|].
    intros t Ht i Hi. specialize (Ht i Hi). lia.
  - intros i j Hij Hj. rewrite Hl in Hj. unfold pend. rewrite Exists_app.
    destruct (decide (base ≤ i < base + count)) as [Hi|Hi], (decide (base ≤ j < base + count)) as [Hjs|Hjs].
    + destruct (Hs' (i - base) (j - base)) as [Hle|Hp]; [lia|lia|..].
      * left. rewrite <- !Hk in Hle by lia.
        by replace (base + (i - base)) with i in Hle by lia;
           replace (base + (j - base)) with j in Hle by lia.
      * right; left. by replace (base + (i - base)) with i in Hp by lia;
           replace (base + (j - base)) with j in Hp by lia.
    + left. rewrite (proj2 Hpi j) by lia.
      apply (all_in_perm (λ x, le x (a !!! j)) base (base + count) a); [done|lia| |lia].
      intros k Hkk. destruct (Ho k j ltac:(lia) Hj) as [|Hp]; [done|].
      apply Exists_cons in Hp as [[? Hp]|Hp]; [cbn in Hp; lia|].
      exfalso. apply (Hout k Hkk). eapply Exists_impl; [exact Hp|]. by intros ? [].
    + left. rewrite (proj2 Hpi i) by lia.
      apply (all_in_perm (λ x, le (a !!! i) x) base (base + count) a); [done|lia| |lia].
      intros k Hkk. destruct (Ho i k ltac:(lia) ltac:(lia)) as [|Hp]; [done|].
      apply Exists_cons in Hp as [[Hp ?]|Hp]; [cbn in Hp; lia|].
      exfalso. apply (Hout k Hkk). eapply Exists_impl; [exact Hp|]. by intros ? [].
    + rewrite !(proj2 Hpi) by lia. destruct (Ho i j Hij Hj) as [|Hp]; [by left|].
      apply Exists_cons in Hp as [[Hp ?]|Hp]; [cbn in Hp; lia|]. by right; right.
Qed.
End Segments.

(** ** The two loops of [rqsort] *)
Section Main.
Context {A : Type} `{!Inhabited A} (cmp : A → A → Z) `{!CmpOrder cmp}.
Implicit Types a s : list A.
Local Notation le x y := (Z.le (cmp x y) 0%Z).

(** The stack holds halved segments: entry [k] from the bottom has at most
    [N / 2^k] elements. *)
Fixpoint stack_bounded (N : Z) (st : list segment) : Prop :=
  match st with
  | [] => True
  | (_, c, _) :: st => (Z.of_nat c * 2 ^ Z.of_nat (length st) <= N)%Z ∧ stack_bounded N st
  end.
Fixpoint load (st : list segment) : nat :=
  match st with [] => 0 | (_, c, _) :: st => 1 + c + load st end.
Definition seg_in a (t : segment) : Prop := let '(b, c, _) := t in b + c ≤ length a.

Lemma partition_order a p lt gt n :
  lt ≤ gt → gt ≤ n → all_in (ltp cmp p) a 0 lt → all_in (eqp cmp p) a lt gt →
  all_in (gtp cmp p) a gt n →
  ∀ i j, i < j → j < n → le (a !!! i) (a !!! j) ∨ j < lt ∨ gt ≤ i.
Proof.
  intros Hlg Hgn L E G i j Hij Hj.
  destruct (decide (j < lt)) as [|Hjl]; [by right; left|].
  destruct (decide (gt ≤ i)) as [|Hig]; [by right; right|]. left.
  apply (cmp_trans _ p).
  - apply (cmp_le_ge cmp). destruct (decide (i < lt)).
    + specialize (L i ltac:(lia)). unfold ltp in L. lia.
    + specialize (E i ltac:(lia)). unfold eqp in E. lia.
  - destruct (decide (j < gt)).
    + specialize (E j ltac:(lia)). unfold eqp in E. lia.
    + specialize (G j ltac:(lia)). unfold gtp in G. lia.
Qed.

Lemma pow2_half n m k N :
  2 * m ≤ n → (Z.of_nat n * 2 ^ Z.of_nat k <= N)%Z → (Z.of_nat m * 2 ^ Z.of_nat (S k) <= N)%Z.
Proof.
  intros Hm Hn. rewrite Nat2Z.inj_succ, Z.pow_succ_r by lia.
  pose proof (Z.pow_pos_nonneg 2 (Z.of_nat k) ltac:(lia) ltac:(lia)). nia.
Qed.
Lemma pow2_le n m k N :
  m ≤ n → (Z.of_nat n * 2 ^ Z.of_nat k <= N)%Z → (Z.of_nat m * 2 ^ Z.of_nat k <= N)%Z.
Proof.
  intros Hm Hn. pose proof (Z.pow_pos_nonneg 2 (Z.of_nat k) ltac:(lia) ltac:(lia)). nia.
Qed.

(** A segment of more than 6 elements finds room on the stack. *)
Lemma stack_room n (S : list segment) N :
  6 < n → (N < 7 * 2 ^ 50)%Z → (Z.of_nat n * 2 ^ Z.of_nat (length S) <= N)%Z → length S < 50.
Proof.
  intros Hn HN Hb. destruct (decide (length S < 50)) as [|Hge]; [done|].
  assert (2 ^ 50 <= 2 ^ Z.of_nat (length S))%Z by (apply Z.pow_le_mono_r; lia). nia.
Qed.

Definition inner_post N a S nmemb (r : list A * list segment * nat * nat) : Prop :=
  let '(a', S', ptr', n') := r in
  a' ≡ₚ a ∧ pending cmp a' ((ptr', n', 0) :: S') ∧ ptr' + n' ≤ length a' ∧
  Forall (seg_in a') S' ∧ stack_bounded N S' ∧ load S' + n' ≤ load S + nmemb.

Lemma rqsort_inner_spec N fuel a S ptr nmemb depth d :
  (N < 7 * 2 ^ 50)%Z → nmemb < fuel → pending cmp a ((ptr, nmemb, d) :: S) →
  ptr + nmemb ≤ length a → Forall (seg_in a) S → stack_bounded N S →
  (Z.of_nat nmemb * 2 ^ Z.of_nat (length S) <= N)%Z →
  ∃ r, rqsort_inner cmp fuel a S ptr nmemb depth = Some r ∧ inner_post N a S nmemb r.
Proof.
  intros HN. revert a S ptr nmemb depth d.
  induction fuel as [|fuel IH]; intros a S ptr nmemb depth d Hf Hp Hb Hseg Hst Hcur; [lia|].
  cbn [rqsort_inner]. destruct (Nat.ltb_spec 6 nmemb) as [H6|H6].
  2: { eexists; split; [reflexivity|]. split; [done|].
       split; [by eapply pending_depth|done]. }
  rewrite slice_eq by done. cbn [mbind option_bind].
  set (s := take nmemb (drop ptr a)).
  assert (length s = nmemb) as Hls by (subst s; rewrite length_take, length_drop; lia).
  destruct (50 <? Datatypes.S depth).
  - destruct (heapsortx_spec cmp s) as (s' & -> & HPs & HSs). cbn [mbind option_bind].
    destruct (splice_spec a ptr nmemb s' Hb HPs) as [Hpi _].
    pose proof (perm_in_length _ _ _ _ Hpi) as Hl.
    eexists; split; [reflexivity|]. split; [apply Hpi|]. split; [|split; [lia|split; [|split; [done|lia]]]].
    + apply (pending_replace cmp a ptr nmemb d S s' [(ptr, 0, 0)]); try done.
      * repeat constructor.
      * repeat constructor; cbn in *; lia.
      * intros i j Hij Hj. left. apply HSs; lia.
    + eapply Forall_impl; [exact Hseg|]. intros [[b c] ?]. unfold seg_in. by rewrite Hl.
  - destruct (partition3_spec cmp s) as (s' & lt & gt & p & -> & HPs & Hlg & Hgn & L & E & G); [lia|].
    cbn [mbind option_bind]. rewrite Hls in *.
    destruct (splice_spec a ptr nmemb s' Hb (proj1 HPs)) as [Hpi _].
    pose proof (perm_in_length _ _ _ _ Hpi) as Hl.
    pose proof (stack_room nmemb S N H6 HN Hcur) as Hroom.
    destruct (Nat.leb_spec 50 (length S)); [lia|].
    assert (Forall (seg_in (splice a ptr s')) S) as Hseg'.
    { eapply Forall_impl; [exact Hseg|]. intros [[b c] ?]. unfold seg_in. by rewrite Hl. }
    assert (∀ i j, i < j → j < nmemb → le (s' !!! i) (s' !!! j) ∨ j < lt ∨ gt ≤ i) as Hord
      by (apply (partition_order s' p lt gt nmemb); done || lia).
    set (D := Datatypes.S depth).
    destruct (Nat.ltb_spec (nmemb - gt) lt).
    + assert (pending cmp (splice a ptr s') ((ptr + gt, nmemb - gt, D) :: (ptr, lt, D) :: S)) as Hp'.
      { apply (pending_replace cmp a ptr nmemb d S s' [(ptr + gt, nmemb - gt, D); (ptr, lt, D)]);
          try done; [apply HPs|..].
        - repeat constructor; intros i; cbn; lia.
        - repeat constructor; intros; cbn in *; lia.
        - intros i j Hij Hj. destruct (Hord i j Hij Hj) as [|[|]]; [by left|right..]; unfold pend;
            rewrite !Exists_cons; cbn; lia. }
      destruct (IH (splice a ptr s') ((ptr, lt, D) :: S) (ptr + gt) (nmemb - gt) D D ltac:(lia) Hp')
        as (r & Hr & Hpost); try done.
      * rewrite Hl. lia.
      * constructor; [unfold seg_in; lia|done].
      * split; [|done]. apply (pow2_le nmemb); [lia|done].
      * apply (pow2_half nmemb); [lia|done].
      * exists r. split; [done|]. destruct r as [[[a' S'] ptr'] n'].
        destruct Hpost as (? & ? & ? & ? & ? & ?). split; [etrans; [done|apply Hpi]|].
        cbn [load] in *. do 4 (split; [done|]). lia.
    + assert (pending cmp (splice a ptr s') ((ptr, lt, D) :: (ptr + gt, nmemb - gt, D) :: S)) as Hp'.
      { apply (pending_replace cmp a ptr nmemb d S s' [(ptr, lt, D); (ptr + gt, nmemb - gt, D)]);
          try done; [apply HPs|..].
        - repeat constructor; intros i; cbn; lia.
        - repeat constructor; intros; cbn in *; lia.
        - intros i j Hij Hj. destruct (Hord i j Hij Hj) as [|[|]]; [by left|right..]; unfold pend;
            rewrite !Exists_cons; cbn; lia. }
      destruct (IH (splice a ptr s') ((ptr + gt, nmemb - gt, D) :: S) ptr lt D D ltac:(lia) Hp')
        as (r & Hr & Hpost); try done.
      * rewrite Hl. lia.
      * constructor; [unfold seg_in; lia|done].
      * split; [|done]. apply (pow2_le nmemb); [lia|done].
      * apply (pow2_half nmemb); [lia|done].
      * exists r. split; [done|]. destruct r as [[[a' S'] ptr'] n'].
        destruct Hpost as (? & ? & ? & ? & ? & ?). split; [etrans; [done|apply Hpi]|].
        cbn [load] in *. do 4 (split; [done|]). lia.
Qed.

Lemma rqsort_outer_spec N fuel a S :
  (N < 7 * 2 ^ 50)%Z → load S ≤ fuel → pending cmp a S → Forall (seg_in a) S → stack_bounded N S →
  ∃ a', rqsort_outer cmp fuel a S = Some a' ∧ a' ≡ₚ a ∧ sorted_in cmp a' 0 (length a).
Proof.
  intros HN. revert a S. induction fuel as [|fuel IH]; intros a S Hf Hp Hseg Hst.
  - destruct S as [|[[b c] d] S]; [|cbn in Hf; lia]. cbn. exists a. split; [done|]. split; [done|].
    by apply pending_nil.
  - destruct S as [|[[ptr nmemb] depth] S]; cbn [rqsort_outer].
    { exists a. split; [done|]. split; [done|]. by apply pending_nil. }
    apply Forall_cons in Hseg as [Hb Hseg]. destruct Hst as [Hc Hst].
    destruct (rqsort_inner_spec N (Datatypes.S nmemb) a S ptr nmemb depth depth HN ltac:(lia) Hp Hb Hseg Hst Hc)
      as ([[[a1 S1] ptr1] n1] & -> & HP1 & Hp1 & Hb1 & Hseg1 & Hst1 & Hload).
    cbn [mbind option_bind]. rewrite slice_eq by done. cbn [mbind option_bind].
    destruct (insertion_sort_spec cmp (take n1 (drop ptr1 a1))) as (s' & -> & HPs & HSs).
    cbn [mbind option_bind].
    destruct (splice_spec a1 ptr1 n1 s' Hb1 HPs) as [Hpi _].
    pose proof (perm_in_length _ _ _ _ Hpi) as Hl.
    destruct (IH (splice a1 ptr1 s') S1) as (a' & -> & HPa & HSa).
    + cbn [load] in Hf. lia.
    + apply (pending_replace cmp a1 ptr1 n1 0 S1 s' []); try done; [constructor|].
      intros i j Hij Hj. left. apply HSs; [lia|done|]. rewrite length_take, length_drop. lia.
    + eapply Forall_impl; [exact Hseg1|]. intros [[b c] ?]. unfold seg_in. by rewrite Hl.
    + done.
    + exists a'. split; [done|]. assert (a' ≡ₚ a) as HPaa by (rewrite HPa, (proj1 Hpi); done).
      split; [done|]. by rewrite <- HP1, <- Hl.
Qed.

Lemma sorted_in_Sorted a : sorted_in cmp a 0 (length a) → Sorted (λ x y, le x y) a.
Proof.
  intros Hs. apply StronglySorted_Sorted. induction a as [|x a IH]; constructor.
  - apply IH. intros i j Hi Hij Hj. apply (Hs (Datatypes.S i) (Datatypes.S j)); cbn; lia.
  - apply Forall_forall. intros y (i & Hy)%list_elem_of_lookup.
    pose proof (lookup_lt_Some _ _ _ Hy). apply list_lookup_total_correct in Hy.
    specialize (Hs 0 (Datatypes.S i) ltac:(lia) ltac:(lia) ltac:(cbn; lia)).
    change ((x :: a) !!! Datatypes.S i) with (a !!! i) in Hs. by rewrite Hy in Hs.
Qed.

Lemma rqsort_correct a :
  (Z.of_nat (length a) < 7 * 2 ^ 50)%Z →
  ∃ a', rqsort cmp a = Some a' ∧ a' ≡ₚ a ∧ Sorted (λ x y, (cmp x y <= 0)%Z) a'.
Proof.
  intros Hn. unfold rqsort. destruct (Nat.ltb_spec (length a) 2).
  - exists a. split; [done|]. split; [done|]. apply sorted_in_Sorted. intros i j; lia.
  - destruct (rqsort_outer_spec (Z.of_nat (length a)) (S (length a)) a [(0, length a, 0)])
      as (a' & -> & HP & HS); [done|cbn; lia|..].
    + split.
      * repeat constructor.
      * repeat constructor. cbn. lia.
      * intros i j Hij Hj. right. constructor. cbn. lia.
    + by repeat constructor.
    + split; [cbn [length]; lia|done].
    + exists a'. split; [done|]. split; [done|]. apply sorted_in_Sorted. by rewrite (Permutation_length HP).
Qed.

(** C36: [rqsort] terminates without any access outside of the array and
    without overflowing its 50-entry stack, on every array of fewer than
    7 * 2^50 elements; the result is sorted for the comparison function and a
    permutation of the input.  This covers the quicksort, heapsort and
    insertion sort paths. *)
Theorem rqsort_sorts a :
  (Z.of_nat (length a) < 7 * 2 ^ 50)%Z →
  ∃ a', rqsort cmp a = Some a' ∧ a' ≡ₚ a ∧ Sorted (λ x y, (cmp x y <= 0)%Z) a'.
Proof. apply rqsort_correct. Qed.

(** The heapsort that [rqsort] falls back to below depth 50 is correct on
    its own: it terminates in bounds, sorts and permutes. *)
Theorem heapsortx_sorts a :
  ∃ a', heapsortx cmp a = Some a' ∧ a' ≡ₚ a ∧ Sorted (λ x y, (cmp x y <= 0)%Z) a'.
Proof.
  destruct (heapsortx_spec cmp a) as (a' & E & HP & HS). exists a'. split; [done|]. split; [done|].
  apply sorted_in_Sorted. by rewrite (Permutation_length HP).
Qed.
End Main.

(** subtraction orders the integers *)
#[export] Instance Zsub_order : CmpOrder Z.sub.
Proof. split; intros; lia. Qed.

Lemma rqsort_sorts_witness :
  ∃ a', rqsort Z.sub [5; 3; 9; 1; 1; 7; 8; 2]%Z = Some a' ∧ a' ≡ₚ [5; 3; 9; 1; 1; 7; 8; 2]%Z ∧
    Sorted (λ x y, (x - y <= 0)%Z) a'.
Proof. apply (rqsort_sorts Z.sub). vm_compute. reflexivity. Defined.

Lemma heapsortx_sorts_witness :
  ∃ a', heapsortx Z.sub [5; 3; 9; 1; 1; 7]%Z = Some a' ∧ a' ≡ₚ [5; 3; 9; 1; 1; 7]%Z ∧
    Sorted (λ x y, (x - y <= 0)%Z) a'.
Proof. apply (heapsortx_sorts Z.sub). Defined.

(** ** The exchange functions *)
Lemma exchange_loop_spec w n a b :
  length a = w * n → length b = w * n → exchange_loop w n a b = Some (b, a).
Proof.
  revert a b. induction n as [|n IH]; intros a b Ha Hb; cbn [exchange_loop].
  - rewrite Nat.mul_0_r in *. by rewrite (nil_length_inv a), (nil_length_inv b) by done.
  - destruct (Nat.ltb_spec (length a) w); [lia|]. destruct (Nat.ltb_spec (length b) w); [lia|].
    cbn [orb]. rewrite IH by (rewrite length_drop; lia). cbn [mbind option_bind].
    by rewrite !take_drop.
Qed.

(** what the low four bits of [base | size] say of [size] *)
Lemma align_size base size :
  (0 <= size)%Z → let al := Z.land (Z.lor base size) 15 in
  (al = 0 → size mod 16 = 0)%Z ∧ (al = 8 → size mod 8 = 0)%Z ∧
  (al = 4 ∨ al = 12 → size mod 4 = 0)%Z ∧
  (al = 2 ∨ al = 6 ∨ al = 10 ∨ al = 14 → size mod 2 = 0)%Z.
Proof.
  intros Hs al. assert (al = Z.lor (base mod 16) (size mod 16)) as Hal.
  { subst al. rewrite Z.land_lor_distr_l. change 15%Z with (2 ^ 4 - 1)%Z. by rewrite !land_mask. }
  pose proof (Z.mod_pos_bound base 16 ltac:(lia)) as Hx.
  pose proof (Z.mod_pos_bound size 16 ltac:(lia)) as Hy.
  assert (size mod 8 = (size mod 16) mod 8 ∧ size mod 4 = (size mod 16) mod 4 ∧
          size mod 2 = (size mod 16) mod 2)%Z as (-> & -> & ->)
    by (Z.div_mod_to_equations; lia).
  rewrite Hal. clear al Hal. revert Hx Hy.
  generalize (base mod 16)%Z (size mod 16)%Z. intros x y Hx Hy.
  pose proof (forall_range_spec (λ x, forall_range (λ y, let al := Z.lor x y in
    implb (al =? 0) (y =? 0) && implb (al =? 8) (y mod 8 =? 0) &&
    implb ((al =? 4) || (al =? 12)) (y mod 4 =? 0) &&
    implb ((al =? 2) || (al =? 6) || (al =? 10) || (al =? 14)) (y mod 2 =? 0))%Z 0 16) 0 16
    ltac:(vm_compute; reflexivity) x ltac:(lia)) as H1.
  apply forall_range_spec with (i := y) in H1; [|lia]. cbv zeta in H1. bool_props.
  repeat match goal with H : implb _ _ = true |- _ => apply implb_true_iff in H || rewrite implb_true_iff in H end.
  rewrite ?orb_true_iff, ?Z.eqb_eq in *. tauto.
Qed.

(** Whichever exchange function [rqsort] selects from the alignment of
    the array, for one element ([size] bytes) and, with [size | 128], for a
    block of whole elements, it swaps the two byte blocks completely. *)
Theorem exchange_func_swaps base size a b n :
  (0 < size)%Z → length a = n → length b = n →
  (Z.of_nat n = size → exchange_func base size a b n = Some (b, a)) ∧
  ((size | Z.of_nat n)%Z → exchange_func base (Z.lor size 128) a b n = Some (b, a)).
Proof.
  intros Hs Ha Hb.
  assert (∀ w, 0 < w → (Z.of_nat w | Z.of_nat n)%Z → exchange_words w n a b = Some (b, a)) as Hw.
  { intros w Hw0 [k Hk]. unfold exchange_words. assert (n = w * (n / w)) as Hn.
    { assert (n = Z.to_nat k * w) as -> by lia. rewrite Nat.div_mul by lia. lia. }
    apply exchange_loop_spec; congruence. }
  assert (exchange_bytes n a b = Some (b, a)) as Hby by (apply exchange_loop_spec; lia).
  assert (∀ w, n = w → exchange_one w a b = Some (b, a)) as Hone
    by (intros w ->; apply exchange_loop_spec; lia).
  assert (∀ sz, (0 <= sz)%Z → (size mod 16 = sz mod 16)%Z → (size | Z.of_nat n)%Z →
    (Z.of_nat n = sz ∨ 128 <= sz)%Z → exchange_func base sz a b n = Some (b, a)) as Hmain.
  { intros sz Hsz Hmod Hdiv Hcase. unfold exchange_func.
    destruct (align_size base sz Hsz) as (A0 & A8 & A4 & A2).
    assert (∀ w, (w | 16)%Z → (0 < w)%Z → (sz mod w = 0)%Z → (w | Z.of_nat n)%Z) as Hd.
    { intros w [q Hq] Hw0 Hm. apply Z.divide_trans with size; [|done].
      apply Z.mod_divide; [lia|]. rewrite <- Hm.
      assert (∀ x, (x mod w = (x mod 16) mod w)%Z) as Hx.
      { intros x. rewrite (Z.div_mod x 16) at 1 by lia. rewrite Hq at 1.
        replace (q * w * (x / 16) + x mod 16)%Z with (x mod 16 + q * (x / 16) * w)%Z by lia.
        by rewrite Z.mod_add by lia. }
      by rewrite (Hx size), Hmod, <- Hx. }
    repeat zcase; try done;
      first [ apply Hone; lia | apply (Hw 16); [lia|] | apply (Hw 8); [lia|]
            | apply (Hw 4); [lia|] | apply (Hw 2); [lia|] ];
      apply Hd; try lia; try (by eexists (_ : Z)); [..].
    all: first [ by exists 1%Z | by exists 2%Z | by exists 4%Z | by exists 8%Z
               | apply A0; lia | apply A8; lia | apply A4; blia | apply A2; blia ]. }
  split; intros Hn.
  - apply Hmain; [lia|done|by exists 1%Z; lia|by left].
  - assert (128 <= Z.lor size 128)%Z.
    { pose proof (Z.log2_lor size 128 ltac:(lia) ltac:(lia)) as Hlog. change (Z.log2 128) with 7%Z in Hlog.
      assert (0 <= Z.lor size 128)%Z by (apply Z.lor_nonneg; lia).
      destruct (decide (Z.lor size 128 = 0)%Z) as [H0|]; [rewrite H0 in Hlog; cbn in Hlog; lia|].
      pose proof (Z.log2_spec (Z.lor size 128) ltac:(lia)).
      assert (2 ^ 7 <= 2 ^ Z.log2 (Z.lor size 128))%Z by (apply Z.pow_le_mono_r; lia). lia. }
    apply Hmain; [lia| |done|by right].
    change 16%Z with (2 ^ 4)%Z. rewrite <- !land_mask, Z.land_lor_distr_l by lia.
    change (Z.land 128 (2 ^ 4 - 1)) with 0%Z. by rewrite Z.lor_0_r.
Qed.

Lemma exchange_func_swaps_witness :
  (Z.of_nat 4 = 4 → exchange_func 1000 4 [1; 2; 3; 4] [5; 6; 7; 8] 4 = Some ([5; 6; 7; 8], [1; 2; 3; 4]))%Z ∧
  ((4 | Z.of_nat 4) → exchange_func 1000 (Z.lor 4 128) [1; 2; 3; 4] [5; 6; 7; 8] 4
     = Some ([5; 6; 7; 8], [1; 2; 3; 4]))%Z.
Proof. apply (exchange_func_swaps 1000 4 [1; 2; 3; 4]%Z [5; 6; 7; 8]%Z 4); reflexivity. Defined.
