(* ===== verification/CharRange.v ===== *)
(** * Character ranges: the [CharRange] sets of js/libunicode.c

    A [CharRange] is a growing array of points; points [2i] and [2i+1] delimit
    the half-open interval number [i].  The record keeps the [len] points in
    use and the capacity [size].  Every operation that may reallocate runs in
    the allocation monad and returns the C status (0 or -1). *)
From S2P Require Import Prelude Alloc Cutils Rqsort.

Record CharRange := mkCR { cr_points : list Z; cr_size : Z }.
Definition cr_len (cr : CharRange) : Z := zlen (cr_points cr).
Definition cr_init : CharRange := mkCR [] 0.

(** [CharRangeOpEnum] *)
Inductive cr_op_kind := CR_OP_UNION | CR_OP_INTER | CR_OP_XOR.

(** the [switch(op)] of [cr_op] on the two parities *)
Definition cr_op_bit (op : cr_op_kind) (x y : Z) : Z :=
  match op with
  | CR_OP_UNION => x .| y
  | CR_OP_INTER => x .& y
  | CR_OP_XOR => x .^ y
  end.

(** ** In-place passes *)

(** inner [while] of [cr_compress]: the last interval that continues [j] *)
Fixpoint cr_compress_merge (fuel : nat) (pt : list Z) (len j : Z) : option Z :=
  match fuel with
  | O => None
  | S fuel =>
    if j + 3 <? len then
      x ← pt.[j + 1]; y ← pt.[j + 2];
      if x =? y then cr_compress_merge fuel pt len (j + 2) else Some j
    else Some j
  end.
Fixpoint cr_compress_loop (fuel : nat) (pt : list Z) (len i k : Z) : option (list Z * Z) :=
  match fuel with
  | O => None
  | S fuel =>
    if i + 1 <? len then
      x ← pt.[i]; y ← pt.[i + 1];
      if x =? y then cr_compress_loop fuel pt len (i + 2) k
      else
        j ← cr_compress_merge (length pt) pt len i;
        pt ← aset pt k x;
        z ← pt.[j + 1];
        pt ← aset pt (k + 1) z;
        cr_compress_loop fuel pt len (j + 2) (k + 2)
    else Some (pt, k)
  end.
Definition cr_compress (cr : CharRange) : option CharRange :=
  '(pt, k) ← cr_compress_loop (S (length (cr_points cr))) (cr_points cr) (cr_len cr) 0 0;
  Some (mkCR (ztake k pt) (cr_size cr)).

(** [point_cmp], on the 8-byte elements that [rqsort] moves *)
Definition point_cmp (p1 p2 : Z * Z) : Z :=
  b2z (p1.1 >? p2.1) - b2z (p1.1 <? p2.1).
Fixpoint to_pairs (l : list Z) : list (Z * Z) :=
  match l with
  | x :: y :: l => (x, y) :: to_pairs l
  | _ => []
  end.
Fixpoint of_pairs (l : list (Z * Z)) : list Z :=
  match l with
  | [] => []
  | (x, y) :: l => x :: y :: of_pairs l
  end.

(** inner [while]: absorb the intervals that start at or before [end] *)
Fixpoint cr_absorb (fuel : nat) (pt : list Z) (len i end_ : Z) : option (Z * Z) :=
  match fuel with
  | O => None
  | S fuel =>
    if i <? len then
      start1 ← pt.[i]; end1 ← pt.[i + 1];
      if start1 >? end_ then Some (i, end_)
      else if end1 <=? end_ then cr_absorb fuel pt len (i + 2) end_
      else cr_absorb fuel pt len (i + 2) end1
    else Some (i, end_)
  end.
Fixpoint cr_overlap_loop (fuel : nat) (pt : list Z) (len i j : Z) : option (list Z * Z) :=
  match fuel with
  | O => None
  | S fuel =>
    if i <? len then
      start ← pt.[i]; end_ ← pt.[i + 1];
      '(i, end_) ← cr_absorb (S (length pt)) pt len (i + 2) end_;
      pt ← aset pt j start; pt ← aset pt (j + 1) end_;
      cr_overlap_loop fuel pt len i (j + 2)
    else Some (pt, j)
  end.
Definition cr_sort_and_remove_overlap (cr : CharRange) : option CharRange :=
  sorted ← rqsort point_cmp (to_pairs (cr_points cr));
  let pt := of_pairs sorted in
  '(pt, j) ← cr_overlap_loop (S (length pt)) pt (zlen pt) 0 0;
  Some (mkCR (ztake j pt) (cr_size cr)).

Section Ops.
Context `{!Allocator}.

(** [cr->size * 3 / 2] is an [int]: ranges are below 7 * 10^8 points *)
Definition cr_realloc (cr : CharRange) (size : Z) : M (Z * CharRange) :=
  if size >? cr_size cr then
    let new_size := max_int size (cr_size cr * 3 / 2) in
    ok ← realloc (new_size * 4);
    if (ok : bool) then mret (0, mkCR (cr_points cr) new_size) else mret (-1, cr)
  else mret (0, cr).

(** the points appended at [len]: they must fit in the capacity *)
Definition cr_append (cr : CharRange) (vs : list Z) : M CharRange :=
  _ ← massert (cr_len cr + zlen vs <=? cr_size cr);
  mret (mkCR (cr_points cr ++ vs) (cr_size cr)).

Definition cr_add_point (cr : CharRange) (v : Z) : M (Z * CharRange) :=
  '(ret, cr) ← (if cr_len cr >=? cr_size cr then cr_realloc cr (cr_len cr + 1) else mret (0, cr));
  if negb (ret =? 0) then mret (-1, cr)
  else cr ← cr_append cr [v]; mret (0, cr).

Definition cr_add_interval (cr : CharRange) (c1 c2 : Z) : M (Z * CharRange) :=
  '(ret, cr) ← (if cr_len cr + 2 >? cr_size cr then cr_realloc cr (cr_len cr + 2) else mret (0, cr));
  if negb (ret =? 0) then mret (-1, cr)
  else cr ← cr_append cr [c1; c2]; mret (0, cr).

Definition cr_copy (cr cr1 : CharRange) : M (Z * CharRange) :=
  '(ret, cr) ← cr_realloc cr (cr_len cr1);
  if negb (ret =? 0) then mret (-1, cr)
  else
    _ ← massert (cr_len cr1 <=? cr_size cr);
    mret (0, mkCR (cr_points cr1) (cr_size cr)).

(** the next point of [a] or [b] in increasing order, with the new indices *)
Definition cr_next_point (a_pt b_pt : list Z) (a_idx b_idx : Z) : option (option (Z * Z * Z)) :=
  if (a_idx <? zlen a_pt) && (b_idx <? zlen b_pt) then
    a ← a_pt.[a_idx]; b ← b_pt.[b_idx];
    Some (Some (if a <? b then (a, a_idx + 1, b_idx)
                else if a =? b then (a, a_idx + 1, b_idx + 1)
                else (b, a_idx, b_idx + 1)))
  else if a_idx <? zlen a_pt then a ← a_pt.[a_idx]; Some (Some (a, a_idx + 1, b_idx))
  else if b_idx <? zlen b_pt then b ← b_pt.[b_idx]; Some (Some (b, a_idx, b_idx + 1))
  else Some None.

Fixpoint cr_op_loop (fuel : nat) (cr : CharRange) (a_pt b_pt : list Z) (a_idx b_idx : Z)
    (op : cr_op_kind) : M (Z * CharRange) :=
  match fuel with
  | O => ub
  | S fuel =>
    next ← lift (cr_next_point a_pt b_pt a_idx b_idx);
    match next with
    | None => cr ← lift (cr_compress cr); mret (0, cr)
    | Some (v, a_idx, b_idx) =>
      let is_in := cr_op_bit op (a_idx .& 1) (b_idx .& 1) in
      if negb (is_in =? (cr_len cr .& 1)) then
        '(ret, cr) ← cr_add_point cr v;
        if negb (ret =? 0) then mret (-1, cr)
        else cr_op_loop fuel cr a_pt b_pt a_idx b_idx op
      else cr_op_loop fuel cr a_pt b_pt a_idx b_idx op
    end
  end.
Definition cr_op (cr : CharRange) (a_pt b_pt : list Z) (op : cr_op_kind) : M (Z * CharRange) :=
  cr_op_loop (S (length a_pt + length b_pt)) cr a_pt b_pt 0 0 op.

Definition cr_union1 (cr : CharRange) (b_pt : list Z) : M (Z * CharRange) :=
  let a := cr in
  '(ret, cr) ← cr_op cr_init (cr_points a) b_pt CR_OP_UNION;
  mret (ret, cr).

Definition cr_union_interval (cr : CharRange) (c1 c2 : Z) : M (Z * CharRange) :=
  cr_union1 cr [c1; u32 (c2 + 1)].

Definition cr_invert (cr : CharRange) : M (Z * CharRange) :=
  let len := cr_len cr in
  '(ret, cr) ← cr_realloc cr (len + 2);
  if negb (ret =? 0) then mret (-1, cr)
  else
    _ ← massert (len + 2 <=? cr_size cr);
    cr ← lift (cr_compress (mkCR (0 :: cr_points cr ++ [UINT32_MAX]) (cr_size cr)));
    mret (0, cr).
End Ops.

(** ** The set a range denotes *)

(** the code point [c] lies in one of the intervals *)
Definition cr_in (l : list Z) (c : Z) : Prop := Exists (λ p : Z * Z, p.1 <= c < p.2) (to_pairs l).
(** the same by parity: an odd number of points are at or before [c] *)
Fixpoint cr_mem (l : list Z) (c : Z) : bool :=
  match l with
  | [] => false
  | p :: l => xorb (p <=? c) (cr_mem l c)
  end.
Definition even_len {A} (l : list A) : Prop := Nat.even (length l) = true.
(** sorted points, in pairs: what [cr_op] expects of its arguments *)
Definition cr_wf (l : list Z) : Prop := even_len l ∧ StronglySorted Z.le l.
(** strictly sorted: disjoint, non-adjacent, non-empty intervals *)
Definition cr_canonical (l : list Z) : Prop := even_len l ∧ StronglySorted Z.lt l.

Lemma StronglySorted_lt_le l : StronglySorted Z.lt l → StronglySorted Z.le l.
Proof.
  induction 1 as [|x l Hs IH Hf]; constructor; [done|].
  eapply Forall_impl; [exact Hf|]. intros; lia.
Qed.
Lemma cr_canonical_wf l : cr_canonical l → cr_wf l.
Proof. intros [? ?]. split; [done|by apply StronglySorted_lt_le]. Qed.

(** induction two points at a time *)
Lemma pairs_ind {A} (P : list A → Prop) :
  P [] → (∀ x y l, even_len l → P l → P (x :: y :: l)) → ∀ l, even_len l → P l.
Proof.
  intros H0 H2 l. induction l as [l IH] using (induction_ltof1 _ (@length A)).
  unfold ltof in IH. destruct l as [|x [|y l]]; intros He; [done|done|].
  apply H2; [done|]. apply IH; [cbn; lia|done].
Qed.

Lemma cr_mem_lt l c : Forall (λ p, c < p) l → cr_mem l c = false.
Proof.
  induction 1 as [|p l Hp Hl IH]; [done|]. cbn [cr_mem]. rewrite IH.
  destruct (Z.leb_spec p c); [lia|done].
Qed.
Lemma cr_mem_app l k c : cr_mem (l ++ k) c = xorb (cr_mem l c) (cr_mem k c).
Proof. induction l as [|p l IH]; cbn; [by destruct (cr_mem k c)|]. by rewrite IH, xorb_assoc. Qed.

Lemma cr_mem_in l c : cr_wf l → cr_mem l c = true ↔ cr_in l c.
Proof.
  intros [He Hs]. revert l He Hs. refine (pairs_ind _ _ _).
  - intros _. cbn. split; [done|]. by intros ?%Exists_nil.
  - intros x y l He IH Hs. inversion Hs as [|? ? Hs' Hx]; subst. inversion Hs' as [|? ? Hl Hy]; subst.
    apply Forall_cons in Hx as [Hxy _]. unfold cr_in in *. cbn [to_pairs cr_mem]. rewrite Exists_cons. cbn.
    rewrite <- (IH Hl). destruct (Z.leb_spec x c), (Z.leb_spec y c); try lia; cbn.
    + destruct (cr_mem l c); split; intros; try lia; tauto || (destruct H1; [lia|done]).
    + rewrite cr_mem_lt; [split; [lia|done]|]. eapply Forall_impl; [exact Hy|]. intros; lia.
    + rewrite cr_mem_lt; [split; [lia|intros [|]; [lia|done]]|].
      eapply Forall_impl; [exact Hy|]. intros; lia.
Qed.

Lemma of_to_pairs l : even_len l → of_pairs (to_pairs l) = l.
Proof. revert l. refine (pairs_ind _ _ _); [done|]. intros x y l _ IH. cbn. by rewrite IH. Qed.
Lemma to_of_pairs l : to_pairs (of_pairs l) = l.
Proof. induction l as [|[x y] l IH]; [done|]. cbn. by rewrite IH. Qed.
Lemma of_pairs_app l k : of_pairs (l ++ k) = of_pairs l ++ of_pairs k.
Proof. induction l as [|[x y] l IH]; [done|]. cbn. by rewrite IH. Qed.
Lemma zlen_of_pairs l : zlen (of_pairs l) = 2 * zlen l.
Proof. induction l as [|[x y] l IH]; [done|]. cbn [of_pairs]. autorewrite with zlen. lia. Qed.
Lemma even_of_pairs l : even_len (of_pairs l).
Proof. induction l as [|[x y] l IH]; done. Qed.

(** ** [cr_compress] as a function on intervals *)
Fixpoint squeeze (cur : option (Z * Z)) (l : list (Z * Z)) : list (Z * Z) :=
  match l with
  | [] => match cur with Some p => [p] | None => [] end
  | (a, b) :: l =>
    match cur with
    | Some (x, y) =>
      if y =? a then squeeze (Some (x, b)) l
      else (x, y) :: (if a =? b then squeeze None l else squeeze (Some (a, b)) l)
    | None => if a =? b then squeeze None l else squeeze (Some (a, b)) l
    end
  end.
Definition cur_points (cur : option (Z * Z)) : list Z :=
  match cur with Some (x, y) => [x; y] | None => [] end.

Lemma squeeze_mem cur l c :
  cr_mem (of_pairs (squeeze cur l)) c = cr_mem (cur_points cur ++ of_pairs l) c.
Proof.
  revert cur. induction l as [|[a b] l IH]; intros cur; [by destruct cur as [[]|]|].
  cbn [squeeze of_pairs]. destruct cur as [[x y]|]; cbn [cur_points app cr_mem].
  - destruct (Z.eqb_spec y a) as [->|].
    + rewrite IH. cbn. by destruct (x <=? c), (a <=? c), (b <=? c), (cr_mem (of_pairs l) c).
    + cbn [of_pairs cr_mem]. do 2 f_equal. destruct (Z.eqb_spec a b) as [->|]; rewrite IH; cbn; [|done].
      by destruct (b <=? c), (cr_mem (of_pairs l) c).
  - destruct (Z.eqb_spec a b) as [->|]; rewrite IH; cbn; [|done].
    by destruct (b <=? c), (cr_mem (of_pairs l) c).
Qed.

Lemma squeeze_sorted cur l :
  StronglySorted Z.le (cur_points cur ++ of_pairs l) →
  match cur with Some (x, y) => x < y | None => True end →
  StronglySorted Z.lt (of_pairs (squeeze cur l)) ∧
  ∀ z, Forall (Z.le z) (cur_points cur ++ of_pairs l) → Forall (Z.le z) (of_pairs (squeeze cur l)).
Proof.
  revert cur. induction l as [|[a b] l IH]; intros cur Hs Hc.
  { destruct cur as [[x y]|]; cbn in *; [|split; [constructor|done]].
    split; [repeat constructor; lia|]. intros z Hz. done. }
  cbn [squeeze of_pairs] in *. destruct cur as [[x y]|]; cbn [cur_points app] in *.
  - inversion Hs as [|? ? Hs1 Hx]; subst. inversion Hs1 as [|? ? Hs2 Hy]; subst.
    inversion Hs2 as [|? ? Hs3 Ha]; subst. inversion Hs3 as [|? ? Hs4 Hb]; subst.
    apply Forall_cons in Hx as [Hxy Hx]. apply Forall_cons in Hx as [Hxa Hx].
    apply Forall_cons in Hy as [Hya Hy]. apply Forall_cons in Hy as [Hyb Hy].
    apply Forall_cons in Ha as [Hab Ha].
    destruct (Z.eqb_spec y a) as [->|].
    + destruct (IH (Some (x, b))) as [I1 I2]; [|lia|].
      * cbn. constructor; [by constructor|]. by constructor; [lia|]; apply Forall_cons in Hx as [? ?].
      * split; [done|]. intros z Hz. apply I2. rewrite !Forall_cons in Hz. destruct Hz as (? & ? & ? & ? & ?). by do 2 (constructor; [done|]).
    + assert (∀ cur', cur' = None ∧ a = b ∨ cur' = Some (a, b) ∧ a < b →
        StronglySorted Z.lt (of_pairs ((x, y) :: squeeze cur' l)) ∧
        ∀ z, Forall (Z.le z) (x :: y :: a :: b :: of_pairs l) →
             Forall (Z.le z) (of_pairs ((x, y) :: squeeze cur' l))) as Hgen.
      { intros cur' Hcur'. destruct (IH cur') as [I1 I2].
        - destruct Hcur' as [[-> _]|[-> _]]; cbn; [done|by constructor; [|constructor]].
        - destruct Hcur' as [[-> ?]|[-> ?]]; done.
        - assert (Forall (Z.le a) (of_pairs (squeeze cur' l))) as Hlow.
          { apply I2. destruct Hcur' as [[-> ->]|[-> ?]]; cbn; [done|]. repeat constructor; try lia; done. }
          cbn [of_pairs]. split.
          + constructor; [constructor; [done|]|constructor; [lia|]]; eapply Forall_impl; try exact Hlow;
              cbn; intros; lia.
          + intros z Hz. rewrite !Forall_cons in Hz. destruct Hz as (? & ? & ? & ? & ?).
            do 2 (constructor; [done|]). eapply Forall_impl; [exact Hlow|]. cbn; intros; lia. }
      destruct (Z.eqb_spec a b); apply Hgen; [by left|right; split; [done|lia]].
  - inversion Hs as [|? ? Hs1 Ha]; subst. inversion Hs1 as [|? ? Hs2 Hb]; subst.
    apply Forall_cons in Ha as [Hab Ha].
    destruct (Z.eqb_spec a b) as [->|].
    + destruct (IH None) as [I1 I2]; [done|done|]. split; [done|]. intros z Hz. apply I2.
      rewrite !Forall_cons in Hz. destruct Hz as (? & ? & ?). done.
    + destruct (IH (Some (a, b))) as [I1 I2]; [done|lia|]. split; [done|]. intros z Hz. by apply I2.
Qed.

Lemma cr_compress_merge_spec fuel pt pre x y rest j x0 :
  pt = pre ++ x :: y :: of_pairs rest → zlen pre = j → (length rest < fuel)%nat →
  ∃ j' z rest' t, cr_compress_merge fuel pt (zlen pt) j = Some j' ∧
    pt = (pre ++ t) ++ of_pairs rest' ∧ zlen (pre ++ t) = j' + 2 ∧ pt.[j' + 1] = Some z ∧ j <= j' ∧
    (length rest' <= length rest)%nat ∧
    squeeze (Some (x0, y)) rest = (x0, z) :: squeeze None rest'.
Proof.
  revert fuel pre x y j. induction rest as [|[a b] rest IH]; intros fuel pre x y j -> Hj Hf;
    (destruct fuel as [|fuel]; [cbn in Hf; lia|]); cbn [cr_compress_merge of_pairs].
  - autorewrite with zlen. zcase; [lia|]. subst j.
    exists (zlen pre), y, [], [x; y]. split; [done|].
    split; [by rewrite <- !app_assoc|]. autorewrite with zlen.
    split; [lia|]. split; [by rewrite aget_app_off by lia|]. split; [lia|]. split; [cbn; lia|done].
  - subst j. autorewrite with zlen. pose proof (zlen_nonneg (of_pairs rest)).
    zcase; [|lia]. rewrite !aget_app_off by lia. cbn [mbind option_bind].
    rewrite (aget_cons_pos x _ 1), aget_cons_0, (aget_cons_pos x _ 2), (aget_cons_pos y _ (2 - 1)), aget_cons_0 by lia.
    cbn [mbind option_bind squeeze]. destruct (Z.eqb_spec y a) as [->|].
    + destruct (IH fuel (pre ++ [x; a]) a b (zlen pre + 2))
        as (j' & z & rest' & t & H1 & H2 & H3 & H4 & H5 & H6 & H7).
      * by rewrite <- app_assoc.
      * autorewrite with zlen. lia.
      * cbn in Hf. lia.
      * cbn [of_pairs] in H1, H2, H4. autorewrite with zlen in H1.
        rewrite <- (app_assoc pre [x; a] t) in H2, H3.
        exists j', z, rest', ([x; a] ++ t).
        split; [exact H1|]. split; [exact H2|]. split; [exact H3|]. split; [exact H4|].
        split; [lia|]. split; [cbn; lia|done].
    + exists (zlen pre), y, ((a, b) :: rest), [x; y].
      split; [done|]. split; [by rewrite <- app_assoc|]. autorewrite with zlen.
      split; [lia|]. split; [by rewrite aget_app_off by lia|]. split; [lia|]. split; [lia|done].
Qed.

Lemma cr_compress_loop_spec fuel out mid rest k i :
  zlen (of_pairs out) = k → zlen (of_pairs out ++ mid) = i → (length rest < fuel)%nat →
  ∃ pt' k', cr_compress_loop fuel (of_pairs out ++ mid ++ of_pairs rest)
      (zlen (of_pairs out ++ mid ++ of_pairs rest)) i k = Some (pt', k') ∧
    ztake k' pt' = of_pairs (out ++ squeeze None rest).
Proof.
  revert out mid rest k i. induction fuel as [|fuel IH]; intros out mid rest k i Hk Hi Hf; [lia|].
  cbn [cr_compress_loop]. rewrite app_assoc. set (pre := of_pairs out ++ mid) in *.
  destruct rest as [|[x y] rest].
  - autorewrite with zlen. zcase; [cbn in *; lia|]. eexists _, _. split; [reflexivity|].
    subst pre k. cbn [of_pairs squeeze]. by rewrite !app_nil_r, ztake_app.
  - cbn [of_pairs]. autorewrite with zlen. pose proof (zlen_nonneg (of_pairs rest)).
    zcase; [|lia]. subst i.
    rewrite aget_app_at, aget_app_off, aget_cons_pos, aget_cons_0 by lia.
    cbn [mbind option_bind squeeze]. destruct (Z.eqb_spec x y) as [->|Hxy].
    + destruct (IH out (mid ++ [y; y]) rest k (zlen pre + 2)) as (pt' & k' & H1 & H2).
      * done.
      * subst pre. autorewrite with zlen. lia.
      * cbn in Hf. lia.
      * exists pt', k'. split; [|done]. rewrite <- H1. subst pre. rewrite <- !app_assoc. cbn [app].
        f_equal. autorewrite with zlen. lia.
    + destruct (cr_compress_merge_spec (length (pre ++ x :: y :: of_pairs rest))
        (pre ++ x :: y :: of_pairs rest) pre x y rest (zlen pre) x)
        as (j' & z & rest' & t & H1 & H2 & H3 & H4 & H5 & H6 & H7); try done.
      { rewrite length_app. cbn. pose proof (zlen_of_pairs rest). unfold zlen in *. lia. }
      autorewrite with zlen in H1. rewrite H1. cbn [mbind option_bind]. rewrite H7.
      assert (∃ w0 w1 W, mid ++ t = w0 :: w1 :: W) as (w0 & w1 & W & HW).
      { subst pre. autorewrite with zlen in H3, H5. pose proof (zlen_nonneg mid).
        destruct (mid ++ t) as [|w0 [|w1 W]] eqn:E; [..|by eauto];
          apply (f_equal zlen) in E; autorewrite with zlen in E; lia. }
      assert (pre ++ x :: y :: of_pairs rest = of_pairs out ++ w0 :: w1 :: W ++ of_pairs rest') as Hpt.
      { rewrite H2. subst pre. rewrite <- !app_assoc. f_equal. rewrite (app_assoc mid), HW. done. }
      rewrite Hpt in *. pose proof (zlen_of_pairs out). pose proof (zlen_nonneg out).
      rewrite <- Hk, aset_app_at.
      cbn [mbind option_bind].
      assert ((of_pairs out ++ x :: w1 :: W ++ of_pairs rest').[j' + 1] = Some z) as ->.
      { subst pre. autorewrite with zlen in H5. pose proof (zlen_nonneg mid).
        rewrite <- H4. replace (j' + 1) with (zlen (of_pairs out) + (j' + 1 - zlen (of_pairs out))) by lia.
        rewrite !aget_app_off by lia. by rewrite !(aget_cons_pos _ _ (j' + 1 - _)) by lia. }
      cbn [mbind option_bind]. rewrite aset_app_off, aset_1 by lia. cbn [mbind option_bind].
      destruct (IH (out ++ [(x, z)]) W rest' (k + 2) (j' + 2)) as (pt' & k' & R1 & R2).
      * rewrite of_pairs_app. autorewrite with zlen. cbn [of_pairs]. autorewrite with zlen. lia.
      * rewrite of_pairs_app. cbn [of_pairs]. apply (f_equal zlen) in HW.
        subst pre. autorewrite with zlen in *. lia.
      * cbn in Hf. lia.
      * exists pt', k'. rewrite of_pairs_app, <- !app_assoc in R1. cbn [of_pairs app] in R1.
        rewrite <- app_assoc in R2. cbn [app] in R2. split; [|done]. rewrite <- R1, Hk.
        apply (f_equal zlen) in Hpt. autorewrite with zlen in *. f_equal. lia.
Qed.

(** [cr_compress] never leaves the array, and merges as [squeeze] does. *)
Lemma cr_compress_eq cr :
  even_len (cr_points cr) →
  cr_compress cr = Some (mkCR (of_pairs (squeeze None (to_pairs (cr_points cr)))) (cr_size cr)).
Proof.
  intros He. unfold cr_compress, cr_len.
  destruct (cr_compress_loop_spec (S (length (cr_points cr))) [] [] (to_pairs (cr_points cr)) 0 0)
    as (pt & k & H1 & H2); [done|done|..].
  { pose proof (zlen_of_pairs (to_pairs (cr_points cr))) as Hz. rewrite of_to_pairs in Hz by done.
    unfold zlen in Hz. lia. }
  cbn [of_pairs app] in H1, H2. rewrite of_to_pairs in H1 by done. rewrite H1.
  cbn [mbind option_bind]. by rewrite H2.
Qed.

(** The squeezed range: canonical, with the same members. *)
Lemma squeeze_canonical l : cr_wf l → cr_canonical (of_pairs (squeeze None (to_pairs l))).
Proof. intros [He Hs]. split; [apply even_of_pairs|]. apply squeeze_sorted; [|done]. cbn. by rewrite of_to_pairs. Qed.
Lemma squeeze_range_mem l c :
  even_len l → cr_mem (of_pairs (squeeze None (to_pairs l))) c = cr_mem l c.
Proof. intros He. rewrite squeeze_mem. cbn. by rewrite of_to_pairs. Qed.

(** Compression keeps the set and normalises its representation: on
    sorted points the result is strictly sorted and denotes the same code
    points. *)
Theorem cr_compress_spec cr :
  cr_wf (cr_points cr) →
  ∃ cr', cr_compress cr = Some cr' ∧ cr_canonical (cr_points cr') ∧
    ∀ c, cr_in (cr_points cr') c ↔ cr_in (cr_points cr) c.
Proof.
  intros Hwf. pose proof Hwf as [He Hs]. rewrite cr_compress_eq by done.
  eexists; split; [reflexivity|]. cbn [cr_points].
  pose proof (squeeze_canonical _ Hwf) as Hcan. split; [done|]. intros c.
  rewrite <- !cr_mem_in by (done || by apply cr_canonical_wf). by rewrite squeeze_range_mem.
Qed.

(** ** Growth of a range *)

(** the points in use fit in the capacity *)
Definition cr_fits (cr : CharRange) : Prop := cr_len cr <= cr_size cr.

Section Growth.
Context `{!Allocator}.

Lemma cr_realloc_cases cr size h :
  ∃ ret cr' h', cr_realloc cr size h = Some ((ret, cr'), h') ∧ cr_points cr' = cr_points cr ∧
    (cr_fits cr → cr_fits cr') ∧
    ((ret = 0 ∧ size <= cr_size cr') ∨ (ret = -1 ∧ ∃ n sz, realloc_ok n sz = false)).
Proof.
  unfold cr_realloc. rewrite Z.gtb_ltb. zcase.
  - rewrite bind_realloc. set (ns := max_int size (cr_size cr * 3 / 2)).
    assert (size <= ns) by (subst ns; unfold max_int; rewrite Z.gtb_ltb; zcase; lia).
    destruct (realloc_ok h (ns * 4)) eqn:E.
    + eexists 0, _, _. split; [reflexivity|]. unfold cr_fits, cr_len. cbn. split; [done|]. split; [lia|by left].
    + eexists (-1), _, _. split; [reflexivity|]. split; [done|]. split; [done|]. right. eauto.
  - eexists 0, _, _. split; [reflexivity|]. split; [done|]. split; [done|]. by left.
Qed.

(** Appending points, with the capacity test and growth that precede it. *)
Lemma cr_grow_append cr vs h :
  cr_fits cr →
  ∃ ret cr' h', (('(ret, cr) ← (if cr_len cr + zlen vs >? cr_size cr
                              then cr_realloc cr (cr_len cr + zlen vs) else mret (0, cr));
                if negb (ret =? 0) then mret (-1, cr)
                else cr ← cr_append cr vs; mret (0, cr)) : M (Z * CharRange)) h = Some ((ret, cr'), h') ∧
    cr_fits cr' ∧
    ((ret = 0 ∧ cr_points cr' = cr_points cr ++ vs) ∨ (ret = -1 ∧ ∃ n sz, realloc_ok n sz = false)).
Proof.
  intros Hf.
  assert (∃ ret cr1 h1, (if cr_len cr + zlen vs >? cr_size cr
      then cr_realloc cr (cr_len cr + zlen vs) else mret (0, cr)) h = Some ((ret, cr1), h1) ∧
      cr_points cr1 = cr_points cr ∧ cr_fits cr1 ∧
      ((ret = 0 ∧ cr_len cr + zlen vs <= cr_size cr1) ∨ (ret = -1 ∧ ∃ n sz, realloc_ok n sz = false)))
    as (ret & cr1 & h1 & E & Hp & Hf1 & Hc).
  { rewrite Z.gtb_ltb. zcase.
    - destruct (cr_realloc_cases cr (cr_len cr + zlen vs) h) as (ret & cr' & h' & E & Hp & Hf' & Hc).
      exists ret, cr', h'. split; [done|]. split; [done|]. split; [by apply Hf'|done].
    - exists 0, cr, h. split; [done|]. split; [done|]. split; [done|]. by left. }
  rewrite (bind_M_eq _ _ _ _ _ E). destruct Hc as [[-> Hs]|[-> Hc]]; cbn [Z.eqb negb].
  - unfold cr_append, massert. assert (cr_len cr1 = cr_len cr) as Hl by (unfold cr_len; by rewrite Hp).
    erewrite bind_M_eq by (erewrite bind_M_eq by (zcase; [reflexivity|lia]); reflexivity).
    eexists 0, _, _. split; [reflexivity|]. split; [|left; cbn; by rewrite Hp].
    unfold cr_fits, cr_len. cbn. rewrite Hp. autorewrite with zlen. unfold cr_len in *. lia.
  - exists (-1), cr1, h1. split; [done|]. split; [done|]. by right.
Qed.

Lemma cr_add_point_cases cr v h :
  cr_fits cr →
  ∃ ret cr' h', cr_add_point cr v h = Some ((ret, cr'), h') ∧ cr_fits cr' ∧
    ((ret = 0 ∧ cr_points cr' = cr_points cr ++ [v]) ∨ (ret = -1 ∧ ∃ n sz, realloc_ok n sz = false)).
Proof.
  intros Hf. unfold cr_add_point.
  assert ((cr_len cr >=? cr_size cr) = (cr_len cr + zlen [v] >? cr_size cr)) as ->.
  { rewrite Z.geb_leb, Z.gtb_ltb. unfold zlen. cbn [length].
    destruct (Z.leb_spec (cr_size cr) (cr_len cr)), (Z.ltb_spec (cr_size cr) (cr_len cr + Z.of_nat 1)); lia. }
  change (cr_len cr + 1) with (cr_len cr + zlen [v]). by apply cr_grow_append.
Qed.
Lemma cr_add_interval_cases cr c1 c2 h :
  cr_fits cr →
  ∃ ret cr' h', cr_add_interval cr c1 c2 h = Some ((ret, cr'), h') ∧ cr_fits cr' ∧
    ((ret = 0 ∧ cr_points cr' = cr_points cr ++ [c1; c2]) ∨ (ret = -1 ∧ ∃ n sz, realloc_ok n sz = false)).
Proof. intros Hf. unfold cr_add_interval. change 2 with (zlen [c1; c2]). by apply cr_grow_append. Qed.

(** a failed append leaves the points as they were *)
Lemma cr_add_interval_failed cr c1 c2 h cr' h' :
  cr_add_interval cr c1 c2 h = Some ((-1, cr'), h') → cr_points cr' = cr_points cr.
Proof.
  unfold cr_add_interval. intros ([ret cr1] & h1 & E & E2)%bind_M_Some.
  assert (cr_points cr1 = cr_points cr) as <-.
  { destruct (_ >? _); [|by inv_M].
    destruct (cr_realloc_cases cr (cr_len cr + 2) h) as (? & ? & ? & E' & Hp & _). rewrite E' in E. by inv_M. }
  destruct (negb _); inv_M; done.
Qed.

(** ** The set operations *)

(** the Boolean operation of [op] *)
Definition opb (op : cr_op_kind) (x y : bool) : bool :=
  match op with CR_OP_UNION => x || y | CR_OP_INTER => x && y | CR_OP_XOR => xorb x y end.
Lemma cr_op_bit_b2z op x y : cr_op_bit op (b2z x) (b2z y) = b2z (opb op x y).
Proof. by destruct op, x, y. Qed.
(** parity of an index *)
Lemma land_1_odd x : x .& 1 = b2z (Z.odd x).
Proof. rewrite land_1_mod, Zmod_odd. by destruct (Z.odd x). Qed.
Definition odd_len {A} (l : list A) : bool := Z.odd (zlen l).
Lemma odd_len_app {A} (l k : list A) : odd_len (l ++ k) = xorb (odd_len l) (odd_len k).
Proof. unfold odd_len. by rewrite zlen_app, Z.odd_add. Qed.
Lemma odd_len_cons {A} x (l : list A) : odd_len (x :: l) = negb (odd_len l).
Proof. unfold odd_len. rewrite zlen_cons, Z.odd_add. by destruct (Z.odd (zlen l)). Qed.
Lemma even_len_odd {A} (l : list A) : even_len l ↔ odd_len l = false.
Proof.
  unfold even_len. induction l as [|x l IH]; [done|].
  rewrite odd_len_cons. cbn [length]. rewrite Nat.even_succ, <- Nat.negb_even.
  destruct (Nat.even (length l)), (odd_len l); cbn; intuition discriminate.
Qed.

(** The selected points of a run of [cr_op]: [pa], [pb] are the parities of
    the indices, [ra] and [rb] the points still to be read. *)
Record op_suffix (op : cr_op_kind) (pa pb : bool) (ra rb sfx : list Z) : Prop := {
  os_mem c : cr_mem sfx c = xorb (opb op pa pb) (opb op (xorb pa (cr_mem ra c)) (xorb pb (cr_mem rb c)));
  os_odd : odd_len sfx = xorb (opb op pa pb) (opb op (xorb pa (odd_len ra)) (xorb pb (odd_len rb)));
  os_sorted : StronglySorted Z.le sfx;
  os_sub z : Forall (Z.le z) ra → Forall (Z.le z) rb → Forall (Z.le z) sfx
}.

Lemma op_suffix_nil op pa pb : op_suffix op pa pb [] [] [].
Proof.
  split.
  - intros c. by destruct op, pa, pb.
  - by destruct op, pa, pb.
  - constructor.
  - by constructor.
Qed.

(** One step: the point [v] is consumed from [ra] ([da]) and/or [rb] ([db]). *)
Lemma op_suffix_step op pa pb v (da db : bool) ra rb sfx :
  (da || db) = true →
  Forall (Z.le v) ra → Forall (Z.le v) rb →
  op_suffix op (xorb pa da) (xorb pb db) ra rb sfx →
  op_suffix op pa pb ((if da then [v] else []) ++ ra) ((if db then [v] else []) ++ rb)
    ((if eqb (opb op (xorb pa da) (xorb pb db)) (opb op pa pb) then [] else [v]) ++ sfx).
Proof.
  intros Hd Ha Hb [Hm Ho Hs Hsub].
  assert (Forall (Z.le v) sfx) as Hv by (by apply Hsub).
  assert (∀ l : list Z, ∀ c, Forall (Z.le v) l → c < v → cr_mem l c = false) as Hlow.
  { intros l c Hl Hc. apply cr_mem_lt. eapply Forall_impl; [exact Hl|]. cbn; intros; lia. }
  split.
  - intros c. rewrite !cr_mem_app. destruct (Z.leb_spec v c) as [Hle|Hlt].
    + rewrite Hm. assert ((v <=? c) = true) as Hvc by (by apply Z.leb_le).
      destruct (eqb _ _) eqn:Eq; [apply eqb_prop in Eq|apply eqb_false_iff in Eq];
        destruct da, db; try done; cbn [cr_mem] in *; rewrite ?Hvc; cbn;
        revert Eq; destruct op, pa, pb, (cr_mem ra c), (cr_mem rb c); cbn; congruence.
    + rewrite (Hlow sfx), (Hlow ra), (Hlow rb) by done.
      assert ((v <=? c) = false) as Hvc by (by apply Z.leb_gt).
      destruct (eqb _ _), da, db; try done; cbn [cr_mem]; rewrite ?Hvc; cbn;
        by rewrite ?xorb_false_r, ?xorb_nilpotent.
  - rewrite !odd_len_app, Ho.
    destruct (eqb _ _) eqn:Eq; [apply eqb_prop in Eq|apply eqb_false_iff in Eq];
      destruct da, db; try done;
      repeat (change (odd_len [v]) with true || change (odd_len (@nil Z)) with false);
      revert Eq; clear; destruct op, pa, pb, (odd_len ra), (odd_len rb); cbn; congruence.
  - destruct (eqb _ _); cbn; [done|]. by constructor.
  - intros z Hza Hzb. apply Forall_app in Hza as [Hza1 Hza2]. apply Forall_app in Hzb as [Hzb1 Hzb2].
    apply Forall_app. split; [|by apply Hsub]. destruct (eqb _ _); [constructor|].
    destruct da, db; try done.
Qed.

(** The next point of two sorted suffixes. *)
Lemma cr_next_point_spec a b ta tb ra rb :
  a = ta ++ ra → b = tb ++ rb → StronglySorted Z.le ra → StronglySorted Z.le rb →
  (ra = [] ∧ rb = [] ∧ cr_next_point a b (zlen ta) (zlen tb) = Some None) ∨
  ∃ v (da db : bool) ra' rb', (da || db) = true ∧
    ra = (if da then [v] else []) ++ ra' ∧ rb = (if db then [v] else []) ++ rb' ∧
    Forall (Z.le v) ra' ∧ Forall (Z.le v) rb' ∧
    cr_next_point a b (zlen ta) (zlen tb) =
      Some (Some (v, zlen ta + b2z da, zlen tb + b2z db)).
Proof.
  intros -> -> Hra Hrb. unfold cr_next_point. autorewrite with zlen.
  destruct Hra as [|x ra Hra Hx], Hrb as [|y rb Hrb Hy]; autorewrite with zlen in *;
    try pose proof (zlen_nonneg ra); try pose proof (zlen_nonneg rb).
  - left. destruct (Z.ltb_spec (zlen ta) (zlen ta + 0)), (Z.ltb_spec (zlen tb) (zlen tb + 0)); done || lia.
  - right. exists y, false, true, [], rb.
    destruct (Z.ltb_spec (zlen ta) (zlen ta + 0)), (Z.ltb_spec (zlen tb) (zlen tb + (1 + zlen rb))); try lia.
    rewrite aget_app_at. cbn. rewrite Z.add_0_r. by repeat split.
  - right. exists x, true, false, ra, [].
    destruct (Z.ltb_spec (zlen ta) (zlen ta + (1 + zlen ra))), (Z.ltb_spec (zlen tb) (zlen tb + 0)); try lia.
    rewrite aget_app_at. cbn. rewrite Z.add_0_r. by repeat split.
  - right.
    destruct (Z.ltb_spec (zlen ta) (zlen ta + (1 + zlen ra))),
      (Z.ltb_spec (zlen tb) (zlen tb + (1 + zlen rb))); try lia.
    rewrite !aget_app_at. cbn [mbind option_bind andb].
    destruct (Z.ltb_spec x y); [|destruct (Z.eqb_spec x y) as [->|]].
    + exists x, true, false, ra, (y :: rb). cbn. rewrite Z.add_0_r. repeat split; try done.
      constructor; [lia|]. eapply Forall_impl; [exact Hy|]. cbn; intros; lia.
    + exists y, true, true, ra, rb. by repeat split.
    + exists y, false, true, (x :: ra), rb. cbn. rewrite Z.add_0_r. repeat split; try done.
      constructor; [lia|]. eapply Forall_impl; [exact Hx|]. cbn; intros; lia.
Qed.

(** The loop from any point of the run: it appends a suffix of selected
    points, then compresses, unless an allocation fails. *)
Lemma cr_op_loop_spec fuel cr a b ta tb ra rb op h :
  (length ra + length rb < fuel)%nat → a = ta ++ ra → b = tb ++ rb → even_len a → even_len b →
  StronglySorted Z.le ra → StronglySorted Z.le rb → cr_fits cr →
  odd_len (cr_points cr) = opb op (odd_len ta) (odd_len tb) →
  ∃ ret cr' h', cr_op_loop fuel cr a b (zlen ta) (zlen tb) op h = Some ((ret, cr'), h') ∧
    ((ret = -1 ∧ ∃ n sz, realloc_ok n sz = false) ∨
     (ret = 0 ∧ ∃ sfx, op_suffix op (odd_len ta) (odd_len tb) ra rb sfx ∧
        even_len (cr_points cr ++ sfx) ∧
        cr_points cr' = of_pairs (squeeze None (to_pairs (cr_points cr ++ sfx))))).
Proof.
  revert cr ta tb ra rb h. induction fuel as [|fuel IH];
    intros cr ta tb ra rb h Hf Ha Hb Hea Heb Hra Hrb Hfit Hodd; [lia|].
  cbn [cr_op_loop].
  destruct (cr_next_point_spec a b ta tb ra rb Ha Hb Hra Hrb)
    as [(-> & -> & E)|(v & da & db & ra' & rb' & Hd & -> & -> & Hva & Hvb & E)]; rewrite E.
  - rewrite app_nil_r in Ha, Hb. subst ta tb. apply even_len_odd in Hea as Hoa, Heb as Hob.
    assert (even_len (cr_points cr)) as He.
    { apply even_len_odd. rewrite Hodd, Hoa, Hob. by destruct op. }
    erewrite bind_M_eq by reflexivity. cbn beta match.
    erewrite bind_M_eq by (rewrite (cr_compress_eq _ He); reflexivity).
    eexists 0, _, _. split; [reflexivity|]. right. split; [done|]. exists [].
    rewrite app_nil_r. split; [apply op_suffix_nil|]. split; [done|]. done.
  - erewrite bind_M_eq by reflexivity. cbn beta match.
    set (la := if da then [v] else []) in *. set (lb := if db then [v] else []) in *.
    assert (zlen ta + b2z da = zlen (ta ++ la) ∧ odd_len (ta ++ la) = xorb (odd_len ta) da) as [Hla Hoa].
    { rewrite zlen_app, odd_len_app. subst la. by destruct da. }
    assert (zlen tb + b2z db = zlen (tb ++ lb) ∧ odd_len (tb ++ lb) = xorb (odd_len tb) db) as [Hlb Hob].
    { rewrite zlen_app, odd_len_app. subst lb. by destruct db. }
    rewrite Hla, Hlb, !land_1_odd, cr_op_bit_b2z. change (cr_len cr) with (zlen (cr_points cr)).
    change (Z.odd (zlen (cr_points cr))) with (odd_len (cr_points cr)).
    change (Z.odd (zlen (ta ++ la))) with (odd_len (ta ++ la)).
    change (Z.odd (zlen (tb ++ lb))) with (odd_len (tb ++ lb)).
    rewrite Hodd, Hoa, Hob.
    assert (∀ x y : bool, (b2z x =? b2z y) = eqb x y) as -> by (by intros [] []).
    assert (StronglySorted Z.le ra' ∧ StronglySorted Z.le rb') as [Hra' Hrb'].
    { subst la lb. split; [destruct da|destruct db]; cbn in Hra, Hrb; try done; by eapply StronglySorted_inv. }
    assert (∀ cr1 h1, cr_fits cr1 →
      let keep := eqb (opb op (xorb (odd_len ta) da) (xorb (odd_len tb) db)) (opb op (odd_len ta) (odd_len tb)) in
      cr_points cr1 = cr_points cr ++ (if keep then [] else [v]) →
      ∃ ret cr' h', cr_op_loop fuel cr1 a b (zlen (ta ++ la)) (zlen (tb ++ lb)) op h1 = Some ((ret, cr'), h') ∧
        ((ret = -1 ∧ ∃ n sz, realloc_ok n sz = false) ∨
         (ret = 0 ∧ ∃ sfx, op_suffix op (odd_len ta) (odd_len tb) (la ++ ra') (lb ++ rb') sfx ∧
            even_len (cr_points cr ++ sfx) ∧
            cr_points cr' = of_pairs (squeeze None (to_pairs (cr_points cr ++ sfx)))))) as Hnext.
    { intros cr1 h1 Hf1 keep Hp.
      destruct (IH cr1 (ta ++ la) (tb ++ lb) ra' rb' h1) as (ret & cr' & h' & R & HR);
        [| by rewrite <- app_assoc | by rewrite <- app_assoc | done..| |].
      - subst la lb. rewrite !length_app in Hf. destruct da, db; cbn in Hf, Hd; lia || done.
      - rewrite Hp, Hoa, Hob, odd_len_app, Hodd. subst keep. destruct (eqb _ _) eqn:Eq.
        + apply eqb_prop in Eq. rewrite Eq. by rewrite xorb_false_r.
        + apply eqb_false_iff in Eq. change (odd_len [v]) with true. revert Eq.
          destruct (opb op (odd_len ta) (odd_len tb)), (opb op (xorb _ _) _); done.
      - exists ret, cr', h'. split; [done|]. destruct HR as [HR|(-> & sfx & HR & HR2 & HR3)]; [by left|right].
        split; [done|]. exists ((if keep then [] else [v]) ++ sfx). rewrite Hoa, Hob in HR.
        rewrite app_assoc, <- Hp. split; [|done]. by apply op_suffix_step. }
    cbv zeta in Hnext. destruct (eqb _ _); cbn [negb].
    + apply Hnext; [done|]. by rewrite app_nil_r.
    + destruct (cr_add_point_cases cr v h Hfit) as (ret & cr1 & h1 & E1 & Hf1 & [[-> Hp]|[-> Hp]]);
        rewrite (bind_M_eq _ _ _ _ _ E1); cbn [Z.eqb negb].
      * by apply Hnext.
      * exists (-1), cr1, h1. split; [done|]. by left.
Qed.

Lemma cr_op_from cr0 op a b h :
  cr_points cr0 = [] → cr_fits cr0 → cr_wf a → cr_wf b →
  ∃ ret cr' h', cr_op cr0 a b op h = Some ((ret, cr'), h') ∧
    ((ret = -1 ∧ ∃ n sz, realloc_ok n sz = false) ∨
     (ret = 0 ∧ cr_canonical (cr_points cr') ∧
      ∀ c, cr_in (cr_points cr') c ↔
        match op with
        | CR_OP_UNION => cr_in a c ∨ cr_in b c
        | CR_OP_INTER => cr_in a c ∧ cr_in b c
        | CR_OP_XOR => (cr_in a c ∧ ¬ cr_in b c) ∨ (cr_in b c ∧ ¬ cr_in a c)
        end)).
Proof.
  intros H0 Hf0 Ha Hb. pose proof Ha as [Hae Has]. pose proof Hb as [Hbe Hbs].
  destruct (cr_op_loop_spec (S (length a + length b)) cr0 a b [] [] a b op h)
    as (ret & cr' & h' & E & HE); [lia|done..| |].
  { rewrite H0. by destruct op. }
  exists ret, cr', h'. split; [done|]. destruct HE as [HE|(-> & sfx & [Hm Ho Hs _] & He & Hp)]; [by left|right].
  split; [done|]. rewrite H0 in *. cbn [app] in *.
  assert (cr_canonical (cr_points cr')) as Hcan.
  { rewrite Hp. by apply squeeze_canonical. }
  split; [done|]. intros c.
  assert (cr_mem (cr_points cr') c = opb op (cr_mem a c) (cr_mem b c)) as Hmem.
  { rewrite Hp, squeeze_range_mem, Hm by done.
    by destruct op, (cr_mem a c), (cr_mem b c). }
  apply cr_canonical_wf in Hcan. pose proof (cr_mem_in a c Ha). pose proof (cr_mem_in b c Hb).
  pose proof (cr_mem_in _ c Hcan) as Hr. rewrite Hmem in Hr. rewrite <- Hr.
  destruct op; cbn; destruct (cr_mem a c), (cr_mem b c); cbn; intuition congruence.
Qed.

Lemma cr_op_cases op a b h :
  cr_wf a → cr_wf b →
  ∃ ret cr' h', cr_op cr_init a b op h = Some ((ret, cr'), h') ∧
    ((ret = -1 ∧ ∃ n sz, realloc_ok n sz = false) ∨
     (ret = 0 ∧ cr_canonical (cr_points cr') ∧
      ∀ c, cr_in (cr_points cr') c ↔
        match op with
        | CR_OP_UNION => cr_in a c ∨ cr_in b c
        | CR_OP_INTER => cr_in a c ∧ cr_in b c
        | CR_OP_XOR => (cr_in a c ∧ ¬ cr_in b c) ∨ (cr_in b c ∧ ¬ cr_in a c)
        end)).
Proof. by apply cr_op_from. Qed.

(** C32: [cr_op] computes union, intersection and symmetric difference: on
    sorted ranges it never leaves an array, it fails only when the allocator
    fails, and its result is canonical and denotes the operation of the two
    sets. *)
Theorem cr_op_spec cr0 op a b h :
  cr_points cr0 = [] → cr_fits cr0 → cr_wf a → cr_wf b →
  ∃ ret cr' h', cr_op cr0 a b op h = Some ((ret, cr'), h') ∧
    ((ret = -1 ∧ ∃ n sz, realloc_ok n sz = false) ∨
     (ret = 0 ∧ cr_canonical (cr_points cr') ∧
      ∀ c, cr_in (cr_points cr') c ↔
        match op with
        | CR_OP_UNION => cr_in a c ∨ cr_in b c
        | CR_OP_INTER => cr_in a c ∧ cr_in b c
        | CR_OP_XOR => (cr_in a c ∧ ¬ cr_in b c) ∨ (cr_in b c ∧ ¬ cr_in a c)
        end)).
Proof. apply cr_op_from. Qed.

Lemma cr_union1_cases cr b h :
  cr_wf (cr_points cr) → cr_wf b →
  ∃ ret cr' h', cr_union1 cr b h = Some ((ret, cr'), h') ∧
    ((ret = -1 ∧ ∃ n sz, realloc_ok n sz = false) ∨
     (ret = 0 ∧ cr_canonical (cr_points cr') ∧
      ∀ c, cr_in (cr_points cr') c ↔ cr_in (cr_points cr) c ∨ cr_in b c)).
Proof.
  intros Ha Hb. destruct (cr_op_cases CR_OP_UNION (cr_points cr) b h Ha Hb) as (ret & cr' & h' & E & Hr).
  exists ret, cr', h'. split; [|done]. unfold cr_union1. by rewrite (bind_M_eq _ _ _ _ _ E).
Qed.

Lemma cr_union_interval_cases cr c1 c2 h :
  cr_wf (cr_points cr) → 0 <= c1 → c1 <= c2 → c2 < UINT32_MAX →
  ∃ ret cr' h', cr_union_interval cr c1 c2 h = Some ((ret, cr'), h') ∧
    ((ret = -1 ∧ ∃ n sz, realloc_ok n sz = false) ∨
     (ret = 0 ∧ cr_canonical (cr_points cr') ∧
      ∀ c, cr_in (cr_points cr') c ↔ cr_in (cr_points cr) c ∨ c1 <= c <= c2)).
Proof.
  intros Hwf H0 H1 H2. unfold cr_union_interval.
  assert (u32 (c2 + 1) = c2 + 1) as -> by (apply Z.mod_small; unfold UINT32_MAX in H2; lia).
  destruct (cr_union1_cases cr [c1; c2 + 1] h Hwf) as (ret & cr' & h' & E & Hr).
  { split; [done|]. repeat constructor; lia. }
  exists ret, cr', h'. split; [done|]. destruct Hr as [Hr|(Hr1 & Hr2 & Hr3)]; [by left|right].
  split; [done|]. split; [done|]. intros c. rewrite Hr3. unfold cr_in at 2. cbn [to_pairs].
  rewrite Exists_cons, Exists_nil. cbn. intuition lia.
Qed.
(** Adding one interval is set union with the closed interval, for
    bounds below 2^32-1. *)
Theorem cr_union_interval_spec cr c1 c2 h :
  cr_wf (cr_points cr) → 0 <= c1 → c1 <= c2 → c2 < UINT32_MAX →
  ∃ ret cr' h', cr_union_interval cr c1 c2 h = Some ((ret, cr'), h') ∧
    ((ret = -1 ∧ ∃ n sz, realloc_ok n sz = false) ∨
     (ret = 0 ∧ cr_canonical (cr_points cr') ∧
      ∀ c, cr_in (cr_points cr') c ↔ cr_in (cr_points cr) c ∨ c1 <= c <= c2)).
Proof. apply cr_union_interval_cases. Qed.

Lemma cr_invert_cases cr h :
  cr_wf (cr_points cr) → Forall (λ p, 0 <= p <= UINT32_MAX) (cr_points cr) →
  ∃ ret cr' h', cr_invert cr h = Some ((ret, cr'), h') ∧
    ((ret = -1 ∧ ∃ n sz, realloc_ok n sz = false) ∨
     (ret = 0 ∧ cr_canonical (cr_points cr') ∧
      ∀ c, cr_in (cr_points cr') c ↔ 0 <= c < UINT32_MAX ∧ ¬ cr_in (cr_points cr) c)).
Proof.
  intros Hwf Hb. pose proof Hwf as [He Hs]. unfold cr_invert.
  destruct (cr_realloc_cases cr (cr_len cr + 2) h) as (ret & cr1 & h1 & E & Hp & _ & [[-> Hsz]|[-> Hf]]);
    rewrite (bind_M_eq _ _ _ _ _ E); cbn [Z.eqb negb]; [|by exists (-1), cr1, h1; split; [|left]].
  set (l := 0 :: cr_points cr ++ [UINT32_MAX]).
  assert (StronglySorted Z.le l) as Hsl.
  { constructor.
    - clear - Hs Hb. induction Hs as [|x k Hk IH Hx]; [by repeat constructor|].
      apply Forall_cons in Hb as [Hbx Hb]. constructor; [by apply IH|].
      apply Forall_app. split; [done|]. constructor; [lia|constructor].
    - apply Forall_app. split; [|by repeat constructor]. eapply Forall_impl; [exact Hb|]. cbn; intros; lia. }
  assert (even_len l) as Hel.
  { apply even_len_odd. subst l. rewrite odd_len_cons, odd_len_app.
    apply even_len_odd in He. by rewrite He. }
  erewrite bind_M_eq by (unfold massert; zcase; [reflexivity|lia]).
  rewrite Hp. fold l.
  erewrite bind_M_eq by (rewrite cr_compress_eq by done; reflexivity).
  eexists 0, _, _. split; [reflexivity|]. right. split; [done|]. cbn [cr_points].
  assert (cr_canonical (of_pairs (squeeze None (to_pairs l)))) as Hcan by (by apply squeeze_canonical).
  split; [done|]. intros c. rewrite <- !cr_mem_in by (done || by apply cr_canonical_wf).
  rewrite squeeze_range_mem by done. subst l. cbn [cr_mem]. rewrite cr_mem_app. cbn [cr_mem].
  destruct (Z.leb_spec 0 c).
  - destruct (Z.leb_spec UINT32_MAX c).
    + assert (cr_mem (cr_points cr) c = false) as ->; [|cbn; split; [done|lia]].
      assert (∀ l, Forall (λ p, p <= c) l → cr_mem l c = odd_len l) as Hall.
      { induction 1 as [|x l Hx _ IH]; [done|]. cbn [cr_mem]. rewrite IH, odd_len_cons.
        by destruct (Z.leb_spec x c); [|lia]. }
      rewrite Hall; [by apply even_len_odd|]. eapply Forall_impl; [exact Hb|]. cbn; intros; lia.
    + destruct (cr_mem (cr_points cr) c); cbn; intuition (lia || congruence).
  - rewrite cr_mem_lt by (eapply Forall_impl; [exact Hb|]; cbn; intros; lia).
    destruct (Z.leb_spec UINT32_MAX c); [unfold UINT32_MAX in *; lia|]. cbn. split; [done|lia].
Qed.
(** [cr_invert] complements: the result of a sorted range of code points
    is canonical and holds exactly the values in [0, 2^32-1) that the range
    does not. *)
Theorem cr_invert_spec cr h :
  cr_wf (cr_points cr) → Forall (λ p, 0 <= p <= UINT32_MAX) (cr_points cr) →
  ∃ ret cr' h', cr_invert cr h = Some ((ret, cr'), h') ∧
    ((ret = -1 ∧ ∃ n sz, realloc_ok n sz = false) ∨
     (ret = 0 ∧ cr_canonical (cr_points cr') ∧
      ∀ c, cr_in (cr_points cr') c ↔ 0 <= c < UINT32_MAX ∧ ¬ cr_in (cr_points cr) c)).
Proof. apply cr_invert_cases. Qed.
End Growth.

(** ** Sorting and merging overlapping intervals *)

(** [cr_sort_and_remove_overlap]'s merge of a sorted list, as a function on
    the interval being built *)
Fixpoint overlap_merge (s e : Z) (l : list (Z * Z)) : list (Z * Z) :=
  match l with
  | [] => [(s, e)]
  | (a, b) :: l =>
    if a >? e then (s, e) :: overlap_merge a b l
    else overlap_merge s (if b <=? e then e else b) l
  end.
Definition overlap_merge_all (l : list (Z * Z)) : list (Z * Z) :=
  match l with [] => [] | (s, e) :: l => overlap_merge s e l end.

Lemma cr_absorb_spec fuel pre rest i s e :
  zlen pre = i → (length rest < fuel)%nat →
  ∃ i' e' rest' t, cr_absorb fuel (pre ++ of_pairs rest) (zlen (pre ++ of_pairs rest)) i e = Some (i', e') ∧
    pre ++ of_pairs rest = (pre ++ t) ++ of_pairs rest' ∧ zlen (pre ++ t) = i' ∧
    (length rest' <= length rest)%nat ∧
    overlap_merge s e rest = (s, e') :: overlap_merge_all rest'.
Proof.
  intros <-. revert pre e rest. induction fuel as [|fuel IH]; intros pre e rest Hf; [lia|].
  cbn [cr_absorb]. destruct rest as [|[a b] rest]; cbn [of_pairs]; autorewrite with zlen.
  - zcase; [lia|]. exists (zlen pre), e, [], []. rewrite !app_nil_r. cbn [of_pairs length overlap_merge overlap_merge_all].
    split; [done|]. split; [done|]. split; [done|]. split; [lia|done].
  - pose proof (zlen_nonneg (of_pairs rest)). zcase; [|lia].
    rewrite aget_app_at, aget_app_off, aget_cons_pos, aget_cons_0 by lia.
    cbn [mbind option_bind overlap_merge]. destruct (a >? e).
    + exists (zlen pre), e, ((a, b) :: rest), []. rewrite app_nil_r.
      split; [done|]. split; [done|]. split; [done|]. split; [lia|done].
    + destruct (IH (pre ++ [a; b]) (if b <=? e then e else b) rest) as (i' & e' & rest' & t & H1 & H2 & H3 & H4 & H5).
      { cbn in Hf. lia. }
      rewrite <- !app_assoc in H1, H2, H3. cbn [app] in H1. autorewrite with zlen in H1.
      exists i', e', rest', ([a; b] ++ t). rewrite <- ?app_assoc. rewrite <- ?app_assoc in H2.
      split; [|split; [done|split; [done|split; [cbn; lia|done]]]].
      rewrite <- H1. destruct (b <=? e); f_equal; lia.
Qed.

Lemma cr_overlap_loop_spec fuel out mid rest :
  (length rest < fuel)%nat →
  ∃ pt' j', cr_overlap_loop fuel (of_pairs out ++ mid ++ of_pairs rest)
      (zlen (of_pairs out ++ mid ++ of_pairs rest)) (zlen (of_pairs out ++ mid)) (zlen (of_pairs out))
      = Some (pt', j') ∧
    ztake j' pt' = of_pairs (out ++ overlap_merge_all rest).
Proof.
  revert out mid rest. induction fuel as [|fuel IH]; intros out mid rest Hf; [lia|].
  cbn [cr_overlap_loop]. rewrite app_assoc. set (pre := of_pairs out ++ mid) in *.
  destruct rest as [|[x y] rest].
  - autorewrite with zlen. zcase; [cbn in *; lia|]. eexists _, _. split; [reflexivity|].
    subst pre. cbn [of_pairs overlap_merge_all]. by rewrite <- app_assoc, !app_nil_r, ztake_app.
  - cbn [of_pairs]. zcase; [|autorewrite with zlen in *; pose proof (zlen_nonneg (of_pairs rest)); lia].
    rewrite aget_app_at, aget_app_off, aget_cons_pos, aget_cons_0 by lia.
    cbn [mbind option_bind overlap_merge_all].
    change (pre ++ x :: y :: of_pairs rest) with (pre ++ [x; y] ++ of_pairs rest). rewrite (app_assoc pre).
    destruct (cr_absorb_spec (S (length ((pre ++ [x; y]) ++ of_pairs rest))) (pre ++ [x; y]) rest (zlen pre + 2) x y)
      as (i' & e' & rest' & t & H1 & H2 & H3 & H4 & H5).
    { by autorewrite with zlen. }
    { pose proof (zlen_of_pairs rest) as Hz. rewrite length_app. unfold zlen in Hz. lia. }
    rewrite H1. cbn [mbind option_bind]. rewrite H5.
    assert (∃ w0 w1 W, mid ++ [x; y] ++ t = w0 :: w1 :: W) as (w0 & w1 & W & HW).
    { destruct (mid ++ [x; y] ++ t) as [|w0 [|w1 W]] eqn:E; [..|by eauto];
        apply (f_equal length) in E; rewrite !length_app in E; cbn in E; lia. }
    assert ((pre ++ [x; y]) ++ t = of_pairs out ++ w0 :: w1 :: W) as Hpre.
    { subst pre. rewrite <- !app_assoc, HW. done. }
    rewrite H2, Hpre, <- app_assoc. cbn [app].
    rewrite aset_app_at. cbn [mbind option_bind]. rewrite aset_app_off, aset_1 by lia. cbn [mbind option_bind].
    destruct (IH (out ++ [(x, e')]) W rest') as (pt' & j' & R1 & R2); [cbn in Hf; lia|].
    exists pt', j'. rewrite of_pairs_app, <- !app_assoc in R1. cbn [of_pairs app] in R1.
    rewrite <- app_assoc in R2. split; [|done]. rewrite <- R1, <- H3, Hpre.
    f_equal; autorewrite with zlen; lia.
Qed.

(** The merge of sorted intervals: same members, and disjoint results. *)
Lemma overlap_merge_spec s e l :
  Sorted (λ p q : Z * Z, p.1 <= q.1) ((s, e) :: l) → Forall (λ p, p.1 < p.2) ((s, e) :: l) →
  (∀ c, cr_in (of_pairs (overlap_merge s e l)) c ↔ s <= c < e ∨ Exists (λ p, p.1 <= c < p.2) l) ∧
  StronglySorted Z.lt (of_pairs (overlap_merge s e l)) ∧
  Forall (Z.le s) (of_pairs (overlap_merge s e l)).
Proof.
  unfold cr_in. setoid_rewrite to_of_pairs.
  revert s e. induction l as [|[a b] l IH]; intros s e Hs Hp; cbn [overlap_merge].
  - rewrite Forall_singleton in Hp. cbn in *. split; [|by repeat constructor; lia || constructor; lia].
    intros c. rewrite Exists_cons, Exists_nil. cbn. tauto.
  - apply Sorted_inv in Hs as [Hs Hsa]. apply HdRel_inv in Hsa. cbn in Hsa.
    apply Forall_cons in Hp as [Hse Hp]. cbn in Hse. pose proof Hp as [Hab Hp']%Forall_cons. cbn in Hab.
    rewrite Z.gtb_ltb. zcase.
    + destruct (IH a b Hs Hp) as (I1 & I2 & I3). cbn [of_pairs].
      split; [intros c; rewrite !Exists_cons, I1; cbn; tauto|].
      split; [|do 2 (constructor; [lia|]); eapply Forall_impl; [exact I3|]; cbn; intros; lia].
      constructor; [constructor; [done|]|constructor; [lia|]];
        (eapply Forall_impl; [exact I3|]); cbn; intros; lia.
    + destruct (IH s (if b <=? e then e else b)) as (I1 & I2 & I3).
      * apply Sorted_inv in Hs as [Hs' Hd]. constructor; [done|]. inversion Hd as [|q l' Hq]; constructor. cbn in *. lia.
      * constructor; [cbn; zcase; lia|done].
      * split; [|done]. intros c. rewrite I1, Exists_cons. cbn. zcase; intuition lia.
Qed.

Lemma Sorted_weaken {A} (R R' : A → A → Prop) l : (∀ x y, R x y → R' x y) → Sorted R l → Sorted R' l.
Proof.
  intros HR. induction 1 as [|x l Hs IH Hd]; constructor; [done|].
  destruct Hd; constructor. by apply HR.
Qed.
#[export] Instance point_cmp_order : CmpOrder point_cmp.
Proof.
  split.
  - intros [a b] [c d]. unfold point_cmp. cbn [fst snd]. rewrite !Z.gtb_ltb.
    destruct (Z.ltb_spec a c), (Z.ltb_spec c a); cbn; lia.
  - intros [a b] [c d] [e f]. unfold point_cmp. cbn [fst snd]. rewrite !Z.gtb_ltb.
    destruct (Z.ltb_spec a c), (Z.ltb_spec c a), (Z.ltb_spec e c), (Z.ltb_spec c e), (Z.ltb_spec a e), (Z.ltb_spec e a);
      cbn; lia.
Qed.

Lemma zlen_to_pairs l : even_len l → zlen l = 2 * zlen (to_pairs l).
Proof. intros He. rewrite <- (of_to_pairs l He) at 1. apply zlen_of_pairs. Qed.

Lemma cr_sort_and_remove_overlap_eq cr :
  even_len (cr_points cr) → Forall (λ p, p.1 < p.2) (to_pairs (cr_points cr)) → cr_len cr < 2 ^ 32 →
  ∃ cr', cr_sort_and_remove_overlap cr = Some cr' ∧ cr_canonical (cr_points cr') ∧
    ∀ c, cr_in (cr_points cr') c ↔ cr_in (cr_points cr) c.
Proof.
  intros He Hne Hlen. unfold cr_sort_and_remove_overlap.
  destruct (rqsort_correct point_cmp (to_pairs (cr_points cr))) as (l & -> & HP & HS).
  { apply zlen_to_pairs in He. unfold cr_len, zlen in *. lia. }
  cbn [mbind option_bind].
  destruct (cr_overlap_loop_spec (S (length (of_pairs l))) [] [] l) as (pt' & j' & H1 & H2).
  { pose proof (zlen_of_pairs l) as Hz. unfold zlen in Hz. lia. }
  cbn [of_pairs app] in H1, H2. change (zlen (@nil Z)) with 0 in H1. rewrite H1.
  cbn [mbind option_bind]. eexists. split; [reflexivity|].
  cbn [cr_points]. rewrite H2. rewrite <- HP in Hne. unfold cr_in at 2. setoid_rewrite <- HP.
  destruct l as [|[s e] l]; cbn [overlap_merge_all].
  - split; [by split; [|constructor]|]. intros c. done.
  - destruct (overlap_merge_spec s e l) as (I1 & I2 & I3); [|done|].
    + eapply Sorted_weaken; [|exact HS]. intros [a b] [c d]. unfold point_cmp. cbn. rewrite Z.gtb_ltb.
      destruct (Z.ltb_spec c a), (Z.ltb_spec a c); cbn; lia.
    + split; [split; [apply even_of_pairs|done]|]. intros c. by rewrite I1, Exists_cons.
Qed.
(** [cr_sort_and_remove_overlap] turns any list of non-empty intervals,
    in any order and overlapping, into a canonical range with the same
    members; it always terminates and stays in bounds. *)
Theorem cr_sort_and_remove_overlap_spec cr :
  even_len (cr_points cr) → Forall (λ p, p.1 < p.2) (to_pairs (cr_points cr)) → cr_len cr < 2 ^ 32 →
  ∃ cr', cr_sort_and_remove_overlap cr = Some cr' ∧ cr_canonical (cr_points cr') ∧
    ∀ c, cr_in (cr_points cr') c ↔ cr_in (cr_points cr) c.
Proof. apply cr_sort_and_remove_overlap_eq. Qed.

(** ** The theorems at concrete inputs *)
Lemma cr_compress_spec_witness : ∃ cr',
  cr_compress (mkCR [1; 3; 3; 5; 7; 7; 8; 9] 8) = Some cr' ∧ cr_canonical (cr_points cr') ∧
    ∀ c, cr_in (cr_points cr') c ↔ cr_in [1; 3; 3; 5; 7; 7; 8; 9] c.
Proof.
  apply (cr_compress_spec (mkCR [1; 3; 3; 5; 7; 7; 8; 9] 8)).
  split; [done|]. repeat constructor; done.
Defined.
Lemma cr_op_spec_witness : ∃ ret cr' h',
  cr_op cr_init [1; 5; 8; 9] [3; 8] CR_OP_XOR O = Some ((ret, cr'), h') ∧
    ((ret = -1 ∧ ∃ n sz, realloc_ok n sz = false) ∨
     (ret = 0 ∧ cr_canonical (cr_points cr') ∧
      ∀ c, cr_in (cr_points cr') c ↔
        (cr_in [1; 5; 8; 9] c ∧ ¬ cr_in [3; 8] c) ∨ (cr_in [3; 8] c ∧ ¬ cr_in [1; 5; 8; 9] c))).
Proof.
  apply (cr_op_spec cr_init CR_OP_XOR [1; 5; 8; 9] [3; 8]); [done|done|..]; (split; [done|]); repeat constructor; done.
Defined.
Lemma cr_union_interval_spec_witness : ∃ ret cr' h',
  cr_union_interval (mkCR [1; 5; 8; 9] 4) 4 7 O = Some ((ret, cr'), h') ∧
    ((ret = -1 ∧ ∃ n sz, realloc_ok n sz = false) ∨
     (ret = 0 ∧ cr_canonical (cr_points cr') ∧
      ∀ c, cr_in (cr_points cr') c ↔ cr_in [1; 5; 8; 9] c ∨ 4 <= c <= 7)).
Proof.
  apply (cr_union_interval_spec (mkCR [1; 5; 8; 9] 4) 4 7); try done.
  split; [done|]. repeat constructor; done.
Defined.
Lemma cr_invert_spec_witness : ∃ ret cr' h',
  cr_invert (mkCR [0; 5; 8; 9] 4) O = Some ((ret, cr'), h') ∧
    ((ret = -1 ∧ ∃ n sz, realloc_ok n sz = false) ∨
     (ret = 0 ∧ cr_canonical (cr_points cr') ∧
      ∀ c, cr_in (cr_points cr') c ↔ 0 <= c < UINT32_MAX ∧ ¬ cr_in [0; 5; 8; 9] c)).
Proof.
  apply (cr_invert_spec (mkCR [0; 5; 8; 9] 4)).
  - split; [done|]. repeat constructor; done.
  - repeat constructor; done.
Defined.
Lemma cr_sort_and_remove_overlap_spec_witness : ∃ cr',
  cr_sort_and_remove_overlap (mkCR [8; 9; 1; 5; 3; 7] 6) = Some cr' ∧ cr_canonical (cr_points cr') ∧
    ∀ c, cr_in (cr_points cr') c ↔ cr_in [8; 9; 1; 5; 3; 7] c.
Proof.
  apply (cr_sort_and_remove_overlap_spec (mkCR [8; 9; 1; 5; 3; 7] 6)); [done| |done].
  repeat constructor; done.
Defined.
