(* ===== verification/UnicodeTables.v ===== *)
(** * The generated tables of js/libunicode-table.h

    Literal copies of the arrays that the functions of js/libunicode.c read:
    case conversion, indexed run-length tables, general categories, scripts and
    properties.  An array is the list of its elements; a table of names is the
    list of its bytes. *)
From S2P Require Import Prelude.

(** the bytes of a string literal *)
Definition c_bytes (s : string) : list Z :=
  map (fun c => Z.of_N (Ascii.N_of_ascii c)) (String.list_ascii_of_string s).
(** a table of names: each entry ends with a NUL, and so does the table *)
Definition name_table (names : list string) : list Z :=
  concat (map (fun s => c_bytes s ++ [0]) names) ++ [0].

(** ** Case conversion *)
Definition case_conv_table1 : list Z :=
  [2136624; 3185152; 5931379; 6297392; 7079728; 7307699; 7345920; 8128256; 8356096; 8400960;
   9961923; 9994640; 10028608; 10260544; 10781108; 10825280; 12321072; 12355136; 12550512;
   12583168; 12615984; 12649536; 12779824; 12812864; 12878384; 12943936; 13041968; 13074736;
   13107504; 13140544; 13205808; 13238576; 13271296; 13304112; 13336880; 13369920; 13435136;
   13500720; 13533488; 13566208; 13599024; 13633088; 13828400; 13861440; 13926704; 14025280;
   14090544; 14123584; 14189104; 14255168; 14385456; 14418496; 14549568; 14647552; 14811984;
   14910288; 15008592; 15110208; 15630592; 15667776; 16253364; 16286544; 16384576; 16449840;
   16482608; 16525376; 17826096; 17896000; 18678065; 18711104; 18776368; 18809137; 18842113;
   18907712; 18972976; 19005744; 19038512; 19073600; 19398913; 19431681; 19464449; 19497216;
   19529984; 19595776; 19693824; 19759360; 19792129; 19923200; 19955969; 20021504; 20087041;
   20119809; 20185344; 20218112; 20250881; 20283649; 20316417; 20414720; 20480257; 20513024;
   20611328; 20873473; 20971776; 21037313; 21070080; 21201153; 21233920; 21266688; 21299712;
   21364992; 21561600; 21922049; 21954817; 27427187; 28836928; 29033024; 29197056; 29327664;
   29557040; 29623088; 29753648; 29819440; 29884880; 29921584; 30509360; 30802176; 30835456;
   30933459; 30970112; 31523187; 31557888; 31850752; 31883776; 31949104; 31981939; 32014707;
   32145779; 32178547; 32211200; 32249920; 33030515; 33063283; 33095936; 33128704; 33161632;
   33194355; 33260096; 33325360; 33358400; 33456944; 33558576; 34086960; 35135488; 36179968;
   36708928; 38090304; 39846192; 39882304; 40337664; 40394816; 43558448; 45131264; 46367157;
   139470385; 140738865; 140935473; 141044480; 142508800; 164646929; 167249424; 167511584;
   239075700; 239108468; 239141236; 239174004; 239206772; 239239540; 239272308; 239305088;
   239337856; 239610672; 241074992; 247234817; 247365889; 247922945; 251690560; 255793216;
   256573877; 256606646; 256639414; 256672182; 256704951; 256737664; 256835888; 256925760;
   260048896; 260311088; 260572672; 260834864; 261097472; 261359664; 261621760; 261883952;
   262145536; 262407728; 262668720; 262701312; 262734291; 262766848; 262799827; 262832384;
   262865363; 262897920; 262963504; 263029040; 263094576; 263160112; 263194624; 263456816;
   263717376; 263783424; 263913984; 263979521; 264045057; 264110593; 264243383; 264505447;
   264767672; 265029736; 265291960; 265554024; 265814528; 265879993; 265912753; 265945529;
   266011057; 266043863; 266076720; 266142256; 266207585; 266273139; 266404281; 266437042;
   266469818; 266535346; 266568152; 266601520; 266731874; 266863104; 266928592; 266961360;
   267059632; 267092432; 267125296; 267190832; 267387393; 267452883; 267485651; 267518394;
   267550977; 267583920; 267616723; 267649584; 267715120; 267780401; 267977146; 268009906;
   268042683; 268108210; 268141017; 268173872; 268239408; 268304738; 278069664; 278200736;
   278233504; 278462769; 279380225; 279973937; 280498177; 281117248; 307960369; 308812289;
   369111089; 370683905; 372245056; 372310320; 372343088; 372375856; 372408576; 372441344;
   372475456; 372670768; 372703536; 372736304; 372769072; 372834880; 372933184; 373228080;
   373318720; 376800320; 377029184; 377497088; 378765568; 378962176; 1394617920; 1396710464;
   1402015296; 1402551872; 1404863552; 1404993840; 1405028928; 1405452864; 1405518128; 1405617216;
   1405747457; 1405817920; 1406468400; 1406501168; 1406533936; 1406566704; 1406599472; 1406665008;
   1406697776; 1406730544; 1406763313; 1406799936; 1407320369; 1407353136; 1407385904; 1407419456;
   1407713856; 1407910976; 1408926272; 1437171969; 1438142496; 2105541042; 2105573810; 2105606578;
   2105639386; 2105672154; 2105704883; 2105737651; 2106163643; 2106196411; 2106229179; 2106261948;
   2106294715; 2140183089; 2141231617; 2181048369; 2182359041; 2186814513; 2188125185; 2193099569;
   2193493809; 2194016049; 2194276913; 2194377473; 2194771713; 2195293953; 2195554817; 2252354353;
   2254451457; 2354061361; 2355109889; 3072335921; 3073384449; 4102038065; 4103152129].
Definition case_conv_table2 : list Z :=
  [1; 0; 156; 6; 7; 77; 3; 4; 16; 0; 143; 11; 0; 0; 17; 0; 8; 0; 83; 74; 81; 0; 82; 0; 83; 0; 58;
   84; 85; 0; 87; 89; 63; 93; 92; 0; 70; 97; 99; 66; 100; 0; 102; 0; 104; 0; 106; 0; 108; 0; 110;
   0; 0; 64; 0; 0; 0; 0; 26; 0; 147; 0; 0; 32; 53; 0; 39; 0; 33; 0; 36; 34; 42; 0; 19; 107; 109; 0;
   38; 36; 39; 20; 22; 24; 27; 28; 62; 30; 63; 31; 57; 61; 34; 33; 65; 30; 64; 37; 37; 38; 40; 32;
   42; 72; 44; 67; 46; 75; 48; 76; 50; 68; 66; 153; 0; 0; 149; 143; 125; 126; 131; 132; 18; 128;
   130; 118; 119; 18; 123; 163; 124; 120; 121; 138; 146; 152; 166; 160; 133; 0; 154; 161; 147; 117;
   51; 149; 0; 142; 0; 116; 153; 152; 151; 150; 0; 0; 158; 0; 156; 0; 161; 160; 21; 46; 47; 48;
   180; 181; 79; 170; 169; 18; 20; 30; 33; 34; 34; 42; 52; 53; 166; 167; 54; 31; 73; 0; 0; 151; 1;
   90; 218; 29; 54; 5; 0; 196; 195; 198; 197; 200; 199; 202; 201; 204; 203; 196; 213; 69; 214; 66;
   215; 70; 216; 206; 208; 210; 212; 218; 217; 238; 246; 254; 14; 7; 15; 128; 159; 0; 33; 128; 163;
   237; 0; 192; 64; 198; 96; 231; 219; 230; 153; 192; 0; 0; 6; 96; 220; 41; 253; 21; 18; 6; 22;
   248; 221; 6; 21; 18; 132; 8; 198; 22; 255; 223; 3; 192; 64; 0; 70; 96; 222; 224; 109; 55; 56;
   57; 21; 20; 23; 22; 0; 26; 25; 28; 27; 0; 95; 183; 101; 68; 71; 0; 79; 98; 78; 80; 0; 0; 72; 0;
   0; 0; 163; 164; 165; 0; 0; 0; 0; 0; 182; 0; 0; 90; 0; 71; 0; 91; 86; 88; 96; 94; 112; 105; 111;
   78; 0; 59; 103; 184; 0; 0; 0; 0; 69; 168; 138; 139; 140; 171; 172; 88; 88; 175; 148; 176; 111;
   178; 93; 92; 95; 94; 97; 96; 102; 103; 104; 105; 98; 99; 100; 101; 107; 106; 109; 108; 111; 110;
   113; 112].
Definition case_conv_ext : list Z :=
  [921; 776; 769; 933; 787; 768; 834; 913; 919; 937; 70; 73; 76; 83; 105; 775; 700; 78; 74; 780;
   1333; 1362; 72; 817; 84; 87; 778; 89; 65; 702; 7944; 8064; 7976; 8080; 8040; 8096; 8122; 902;
   8115; 8138; 905; 8131; 929; 8186; 911; 8179; 1348; 1350; 1339; 1358; 1341; 952; 1122; 42570;
   7776; 969; 107; 229].

(** ** Tables with an index *)
Definition unicode_prop_Cased1_table : list Z :=
  [64; 169; 128; 142; 128; 252; 128; 211; 128; 140; 128; 141; 129; 141; 2; 128; 225; 128; 145; 133;
   154; 1; 0; 1; 17; 0; 1; 4; 8; 1; 8; 48; 8; 1; 21; 32; 0; 57; 153; 49; 157; 132; 64; 148; 128;
   214; 130; 166; 128; 65; 98; 128; 166; 128; 75; 114; 128; 76; 2; 248; 2; 128; 143; 128; 176; 64;
   219; 8; 128; 65; 208; 128; 140; 128; 143; 140; 228; 3; 1; 137; 0; 20; 40; 16; 17; 2; 1; 24; 11;
   36; 75; 38; 1; 1; 134; 229; 128; 96; 121; 182; 129; 64; 145; 129; 189; 136; 148; 5; 128; 152;
   128; 162; 0; 128; 155; 18; 130; 67; 52; 162; 6; 128; 141; 96; 92; 21; 1; 16; 169; 128; 136; 96;
   204; 68; 212; 128; 198; 1; 8; 9; 11; 128; 139; 0; 6; 128; 192; 3; 15; 6; 128; 155; 3; 4; 0; 22;
   128; 65; 83; 129; 152; 128; 152; 128; 158; 128; 152; 128; 158; 128; 152; 128; 158; 128; 152;
   128; 158; 128; 152; 7; 71; 51; 137; 128; 147; 45; 65; 4; 189; 80; 193; 153; 133; 153; 133; 153].
Definition unicode_prop_Cased1_index : list Z :=
  [185; 2; 224; 192; 29; 32; 229; 44; 32; 177; 7; 33; 193; 214; 33; 74; 241; 1; 138; 241; 1].
Definition unicode_prop_Case_Ignorable_table : list Z :=
  [166; 5; 128; 138; 128; 162; 0; 128; 198; 3; 0; 3; 1; 129; 65; 246; 64; 191; 25; 24; 136; 8; 128;
   64; 250; 134; 64; 206; 4; 128; 176; 172; 0; 1; 1; 0; 171; 128; 138; 133; 137; 138; 0; 162; 128;
   137; 148; 143; 128; 228; 56; 137; 3; 160; 0; 128; 157; 154; 218; 138; 185; 138; 24; 8; 151; 151;
   170; 130; 171; 6; 13; 135; 168; 185; 182; 0; 3; 59; 2; 134; 137; 129; 140; 128; 142; 128; 185;
   3; 31; 128; 147; 129; 153; 1; 129; 184; 3; 11; 9; 18; 128; 157; 10; 128; 138; 129; 184; 3; 32;
   11; 128; 147; 129; 149; 40; 128; 185; 1; 0; 31; 6; 129; 138; 129; 157; 128; 188; 128; 139; 128;
   177; 2; 128; 182; 0; 20; 16; 30; 129; 138; 129; 156; 128; 185; 1; 5; 4; 129; 147; 129; 155; 129;
   184; 11; 31; 128; 147; 129; 156; 128; 199; 6; 16; 128; 217; 1; 134; 138; 136; 225; 1; 136; 136;
   0; 134; 200; 129; 154; 0; 0; 128; 182; 141; 4; 1; 132; 138; 128; 163; 136; 128; 229; 24; 40; 9;
   129; 152; 11; 130; 143; 131; 140; 1; 13; 128; 142; 128; 221; 128; 66; 95; 130; 67; 177; 130;
   156; 129; 157; 129; 157; 129; 191; 8; 55; 1; 138; 16; 32; 172; 132; 178; 128; 192; 129; 161;
   128; 245; 19; 129; 136; 5; 130; 64; 218; 9; 128; 185; 0; 48; 0; 1; 61; 137; 8; 166; 7; 158; 176;
   131; 175; 0; 32; 4; 128; 167; 136; 139; 129; 159; 25; 8; 130; 183; 0; 10; 0; 130; 185; 57; 129;
   191; 133; 209; 16; 140; 6; 24; 40; 17; 177; 190; 140; 128; 161; 228; 65; 188; 0; 130; 138; 130;
   140; 130; 140; 130; 140; 129; 139; 39; 129; 137; 1; 1; 132; 176; 32; 137; 0; 140; 128; 143; 140;
   178; 160; 75; 138; 129; 240; 130; 252; 128; 142; 128; 223; 159; 174; 128; 65; 212; 128; 163; 26;
   36; 128; 220; 133; 220; 130; 96; 111; 21; 128; 68; 225; 133; 65; 13; 128; 225; 24; 137; 0; 155;
   131; 207; 129; 141; 161; 205; 128; 150; 130; 230; 18; 15; 2; 3; 128; 152; 12; 128; 64; 150; 129;
   153; 145; 140; 128; 165; 135; 152; 138; 173; 130; 175; 1; 25; 129; 144; 128; 148; 129; 193; 41;
   9; 129; 139; 7; 128; 162; 128; 138; 128; 178; 0; 17; 12; 8; 128; 154; 128; 141; 12; 8; 128; 227;
   132; 136; 130; 248; 1; 3; 128; 96; 79; 47; 128; 64; 146; 144; 66; 60; 143; 16; 139; 143; 161; 1;
   128; 64; 168; 6; 5; 128; 138; 128; 162; 0; 128; 174; 128; 172; 129; 194; 128; 148; 130; 66; 0;
   128; 64; 225; 128; 64; 148; 132; 68; 4; 40; 169; 128; 136; 66; 69; 16; 12; 131; 167; 19; 128;
   64; 164; 129; 66; 60; 131; 65; 130; 129; 207; 130; 197; 138; 176; 131; 250; 128; 181; 142; 168;
   1; 129; 137; 130; 176; 25; 9; 3; 128; 137; 128; 177; 130; 163; 32; 135; 189; 128; 139; 129; 179;
   136; 137; 25; 128; 222; 17; 0; 13; 1; 128; 64; 156; 2; 135; 148; 129; 184; 10; 128; 164; 50;
   132; 64; 194; 57; 16; 128; 150; 128; 211; 40; 3; 8; 129; 64; 237; 29; 8; 129; 154; 129; 212; 57;
   0; 129; 233; 0; 1; 40; 128; 228; 17; 24; 132; 65; 2; 136; 1; 64; 255; 8; 3; 128; 64; 143; 25;
   11; 128; 159; 137; 167; 41; 31; 128; 136; 41; 130; 173; 140; 1; 65; 149; 48; 40; 128; 209; 149;
   14; 1; 1; 249; 42; 0; 8; 48; 128; 199; 10; 0; 128; 65; 90; 129; 138; 129; 179; 36; 0; 128; 84;
   236; 144; 133; 142; 96; 54; 153; 132; 186; 134; 136; 131; 68; 10; 128; 190; 144; 191; 8; 129;
   96; 64; 10; 24; 48; 129; 76; 157; 8; 131; 82; 91; 173; 129; 150; 66; 31; 130; 136; 143; 14; 157;
   131; 64; 147; 130; 71; 186; 182; 131; 177; 56; 141; 128; 149; 32; 142; 69; 79; 48; 144; 14; 1;
   4; 132; 189; 160; 128; 64; 159; 141; 65; 111; 128; 188; 131; 65; 250; 132; 67; 223; 134; 236;
   135; 74; 174; 132; 108; 12; 0; 128; 157; 223; 255; 64; 239].
Definition unicode_prop_Case_Ignorable_index : list Z :=
  [190; 5; 0; 254; 7; 0; 82; 10; 160; 193; 11; 0; 130; 13; 0; 63; 16; 128; 212; 23; 64; 207; 26;
   32; 245; 28; 0; 128; 32; 0; 22; 160; 0; 198; 168; 0; 194; 170; 96; 86; 254; 32; 177; 7; 1; 117;
   16; 1; 235; 18; 33; 65; 22; 1; 92; 26; 1; 67; 31; 1; 46; 207; 65; 37; 224; 1; 240; 1; 14].
Definition unicode_prop_ID_Start_table : list Z :=
  [192; 153; 133; 153; 174; 128; 137; 3; 4; 150; 128; 158; 128; 65; 201; 131; 139; 141; 38; 0; 128;
   64; 128; 32; 9; 24; 5; 0; 16; 0; 147; 128; 210; 128; 64; 138; 135; 64; 165; 128; 165; 8; 133;
   168; 198; 154; 27; 172; 170; 162; 8; 226; 0; 142; 14; 129; 137; 17; 128; 143; 0; 157; 156; 216;
   138; 128; 151; 160; 136; 11; 4; 149; 24; 136; 2; 128; 150; 152; 134; 138; 132; 151; 5; 144; 169;
   185; 181; 16; 145; 6; 137; 142; 143; 31; 9; 129; 149; 6; 0; 19; 16; 143; 128; 140; 8; 130; 141;
   129; 137; 7; 43; 9; 149; 6; 1; 1; 1; 158; 24; 128; 146; 130; 143; 136; 2; 128; 149; 6; 1; 4; 16;
   145; 128; 142; 129; 150; 128; 138; 57; 9; 149; 6; 1; 4; 16; 157; 8; 130; 142; 128; 144; 0; 42;
   16; 26; 8; 0; 10; 10; 18; 139; 149; 128; 179; 56; 16; 150; 128; 143; 16; 153; 17; 1; 129; 157;
   3; 56; 16; 150; 128; 137; 4; 16; 158; 8; 129; 142; 129; 144; 136; 2; 128; 168; 8; 143; 4; 23;
   130; 151; 44; 145; 130; 151; 128; 136; 0; 14; 185; 175; 1; 139; 134; 185; 8; 0; 32; 151; 0; 128;
   137; 1; 136; 1; 32; 128; 148; 131; 159; 128; 190; 56; 163; 154; 132; 242; 170; 147; 128; 143;
   43; 26; 2; 14; 19; 140; 139; 128; 144; 165; 0; 32; 129; 170; 128; 65; 76; 3; 14; 0; 3; 129; 168;
   3; 129; 160; 3; 14; 0; 3; 129; 142; 128; 184; 3; 129; 194; 164; 143; 143; 213; 13; 130; 66; 107;
   129; 144; 128; 153; 132; 202; 130; 138; 134; 145; 140; 146; 141; 145; 141; 140; 2; 142; 179;
   162; 3; 128; 194; 216; 134; 168; 0; 132; 197; 137; 158; 176; 157; 12; 138; 171; 131; 153; 181;
   150; 136; 180; 209; 128; 220; 174; 144; 135; 181; 157; 140; 129; 137; 171; 153; 163; 168; 130;
   137; 163; 129; 136; 134; 170; 10; 168; 24; 40; 10; 4; 64; 191; 191; 65; 21; 13; 129; 165; 13;
   15; 0; 0; 0; 128; 158; 129; 180; 6; 0; 18; 6; 19; 13; 131; 140; 34; 6; 243; 128; 140; 128; 143;
   140; 228; 3; 1; 137; 0; 13; 40; 0; 0; 128; 143; 11; 36; 24; 144; 168; 74; 118; 64; 228; 43; 17;
   139; 165; 0; 32; 129; 183; 48; 143; 150; 136; 48; 48; 48; 48; 48; 48; 48; 134; 66; 37; 130; 152;
   136; 52; 12; 131; 213; 28; 128; 217; 3; 132; 170; 128; 221; 144; 159; 175; 143; 65; 255; 89;
   191; 191; 96; 86; 140; 194; 173; 129; 65; 12; 130; 143; 137; 129; 147; 174; 143; 158; 129; 207;
   166; 136; 129; 230; 129; 191; 33; 0; 4; 151; 143; 2; 3; 128; 150; 156; 179; 141; 177; 189; 42;
   0; 129; 138; 155; 137; 150; 152; 156; 134; 174; 155; 128; 143; 32; 137; 137; 32; 168; 150; 16;
   135; 147; 150; 16; 130; 177; 0; 17; 12; 8; 0; 151; 17; 138; 50; 139; 41; 41; 133; 136; 48; 48;
   170; 128; 141; 133; 242; 156; 96; 43; 163; 139; 150; 131; 176; 96; 33; 3; 65; 109; 129; 233;
   165; 134; 139; 36; 0; 137; 128; 140; 4; 0; 1; 1; 128; 235; 160; 65; 106; 145; 191; 129; 181;
   167; 139; 243; 32; 64; 134; 163; 153; 133; 153; 138; 216; 21; 13; 13; 10; 162; 139; 128; 153;
   128; 146; 1; 128; 142; 129; 141; 161; 250; 196; 180; 65; 10; 156; 130; 176; 174; 159; 140; 157;
   132; 165; 137; 157; 129; 163; 31; 4; 169; 64; 157; 145; 163; 131; 163; 131; 167; 135; 179; 139;
   138; 128; 142; 6; 1; 128; 138; 128; 142; 6; 1; 194; 65; 54; 136; 149; 137; 135; 151; 40; 169;
   128; 136; 196; 41; 0; 171; 1; 16; 129; 150; 137; 150; 136; 158; 192; 146; 1; 137; 149; 137; 153;
   197; 183; 41; 191; 128; 142; 24; 16; 156; 169; 156; 130; 156; 162; 56; 155; 154; 181; 137; 149;
   137; 146; 140; 145; 237; 200; 182; 178; 140; 178; 140; 163; 65; 91; 169; 41; 205; 156; 137; 7;
   149; 169; 145; 173; 148; 154; 150; 139; 180; 184; 9; 128; 140; 172; 159; 152; 153; 163; 156; 1;
   7; 162; 16; 139; 175; 141; 131; 148; 0; 128; 162; 145; 128; 152; 146; 129; 190; 48; 0; 24; 142;
   128; 137; 134; 174; 165; 57; 9; 149; 6; 1; 4; 16; 145; 128; 139; 132; 64; 157; 180; 145; 131;
   147; 130; 157; 175; 147; 8; 128; 64; 183; 174; 168; 131; 163; 175; 147; 128; 186; 170; 140; 128;
   198; 154; 164; 134; 64; 184; 171; 243; 191; 158; 57; 1; 56; 8; 151; 142; 0; 128; 221; 57; 166;
   143; 0; 128; 155; 128; 137; 167; 48; 148; 128; 138; 173; 146; 128; 145; 200; 65; 6; 136; 128;
   164; 144; 128; 176; 157; 239; 48; 8; 165; 148; 128; 152; 40; 8; 159; 141; 128; 65; 70; 146; 142;
   0; 140; 128; 161; 251; 128; 206; 67; 153; 229; 238; 144; 64; 195; 74; 75; 224; 142; 68; 47; 144;
   133; 79; 184; 66; 70; 96; 33; 184; 66; 56; 134; 158; 144; 206; 144; 157; 145; 175; 143; 131;
   158; 148; 132; 146; 66; 175; 191; 255; 202; 32; 193; 140; 191; 8; 128; 155; 87; 247; 135; 68;
   213; 169; 136; 96; 34; 230; 24; 48; 8; 65; 34; 142; 128; 156; 17; 128; 141; 31; 65; 139; 73; 3;
   234; 132; 140; 130; 136; 134; 137; 87; 101; 212; 128; 198; 1; 8; 9; 11; 128; 139; 0; 6; 128;
   192; 3; 15; 6; 128; 155; 3; 4; 0; 22; 128; 65; 83; 129; 152; 128; 152; 128; 158; 128; 152; 128;
   158; 128; 152; 128; 158; 128; 152; 128; 158; 128; 152; 7; 71; 51; 158; 45; 65; 4; 189; 64; 145;
   172; 137; 134; 143; 128; 65; 64; 157; 145; 171; 65; 227; 155; 66; 243; 48; 24; 8; 142; 128; 64;
   196; 186; 195; 48; 68; 179; 24; 154; 1; 0; 8; 128; 137; 3; 0; 0; 40; 24; 0; 0; 2; 1; 0; 8; 0; 0;
   0; 0; 1; 0; 11; 6; 3; 3; 0; 128; 137; 128; 144; 34; 4; 128; 144; 81; 67; 96; 166; 223; 159; 80;
   57; 133; 64; 221; 129; 86; 129; 141; 93; 48; 76; 30; 66; 29; 69; 225; 83; 74; 132; 80; 95].
Definition unicode_prop_ID_Start_index : list Z :=
  [246; 3; 32; 166; 7; 0; 169; 9; 32; 177; 10; 0; 186; 11; 32; 59; 13; 32; 199; 14; 32; 73; 18; 0;
   155; 22; 0; 172; 25; 0; 192; 29; 128; 128; 32; 32; 112; 45; 0; 0; 50; 0; 218; 167; 0; 76; 170;
   32; 199; 215; 32; 252; 253; 32; 157; 2; 33; 150; 5; 1; 243; 8; 1; 179; 12; 33; 115; 17; 97; 52;
   19; 1; 27; 23; 33; 138; 26; 1; 52; 31; 33; 191; 106; 1; 35; 177; 161; 173; 212; 1; 111; 215; 1;
   255; 231; 97; 94; 238; 1; 225; 235; 34; 176; 35; 3].
Definition unicode_prop_ID_Continue1_table : list Z :=
  [175; 137; 164; 128; 214; 128; 66; 71; 239; 150; 128; 64; 250; 132; 65; 8; 172; 0; 1; 1; 0; 199;
   138; 175; 158; 40; 228; 49; 41; 8; 25; 137; 150; 128; 157; 154; 218; 138; 142; 137; 160; 136;
   136; 128; 151; 24; 136; 2; 4; 170; 130; 187; 135; 169; 151; 128; 160; 181; 16; 145; 6; 137; 9;
   137; 144; 130; 183; 0; 49; 9; 130; 136; 128; 137; 9; 137; 141; 1; 130; 183; 0; 35; 9; 18; 128;
   147; 139; 16; 138; 130; 183; 0; 56; 16; 130; 147; 9; 137; 137; 40; 130; 183; 0; 49; 9; 22; 130;
   137; 9; 137; 145; 128; 186; 34; 16; 131; 136; 128; 141; 137; 143; 132; 182; 0; 48; 16; 30; 129;
   138; 9; 137; 144; 130; 183; 0; 48; 16; 30; 129; 138; 9; 137; 16; 139; 131; 182; 8; 48; 16; 131;
   136; 128; 137; 9; 137; 144; 130; 197; 3; 40; 0; 61; 137; 9; 188; 1; 134; 139; 56; 137; 214; 1;
   136; 138; 48; 137; 189; 13; 137; 138; 0; 0; 3; 129; 176; 147; 1; 132; 138; 128; 163; 136; 128;
   227; 147; 128; 137; 139; 27; 16; 17; 50; 131; 140; 139; 128; 142; 66; 190; 130; 136; 136; 67;
   159; 131; 155; 130; 156; 129; 157; 129; 191; 159; 136; 1; 137; 160; 16; 138; 64; 142; 128; 245;
   139; 131; 139; 137; 137; 255; 138; 187; 132; 184; 137; 128; 156; 129; 138; 133; 137; 149; 141;
   128; 143; 176; 132; 174; 144; 138; 137; 144; 136; 139; 130; 157; 140; 129; 137; 171; 141; 175;
   147; 135; 137; 133; 137; 245; 16; 148; 24; 40; 10; 64; 197; 191; 66; 62; 129; 146; 128; 250;
   140; 24; 130; 139; 75; 253; 130; 64; 140; 128; 223; 159; 66; 41; 133; 232; 129; 96; 117; 132;
   137; 196; 3; 137; 159; 129; 207; 129; 65; 15; 2; 3; 128; 150; 35; 128; 210; 129; 177; 145; 137;
   137; 133; 145; 140; 138; 155; 135; 152; 140; 171; 131; 174; 141; 142; 137; 138; 128; 137; 137;
   174; 141; 139; 7; 9; 137; 160; 130; 177; 0; 17; 12; 8; 128; 168; 36; 129; 64; 235; 56; 9; 137;
   96; 79; 35; 128; 66; 224; 143; 143; 143; 17; 151; 130; 64; 191; 137; 164; 128; 66; 188; 128; 64;
   225; 128; 64; 148; 132; 65; 36; 137; 69; 86; 16; 12; 131; 167; 19; 128; 64; 164; 129; 66; 60;
   31; 137; 65; 112; 129; 207; 130; 197; 138; 176; 131; 249; 130; 180; 142; 158; 138; 9; 137; 131;
   172; 138; 48; 172; 137; 42; 163; 141; 128; 137; 33; 171; 128; 139; 130; 175; 141; 59; 128; 139;
   209; 139; 40; 8; 64; 156; 139; 132; 137; 43; 182; 8; 49; 9; 130; 136; 128; 137; 9; 50; 132; 64;
   191; 145; 136; 137; 24; 208; 147; 139; 137; 64; 212; 49; 136; 154; 129; 209; 144; 142; 137; 208;
   140; 135; 137; 210; 142; 131; 137; 64; 241; 142; 64; 164; 137; 197; 40; 9; 24; 0; 129; 139; 137;
   246; 49; 50; 128; 155; 137; 167; 48; 31; 128; 136; 138; 173; 143; 65; 148; 56; 135; 143; 137;
   183; 149; 128; 141; 249; 42; 0; 8; 48; 7; 137; 175; 32; 8; 39; 137; 65; 72; 131; 136; 8; 128;
   175; 50; 132; 140; 137; 84; 229; 5; 142; 96; 54; 9; 137; 213; 137; 165; 132; 186; 134; 152; 137;
   67; 244; 0; 182; 51; 208; 128; 138; 129; 96; 76; 170; 129; 82; 96; 173; 129; 150; 66; 29; 34;
   47; 57; 134; 157; 131; 64; 147; 130; 69; 136; 177; 65; 255; 182; 131; 177; 56; 141; 128; 149;
   32; 142; 69; 79; 48; 144; 14; 1; 4; 227; 128; 64; 159; 134; 136; 137; 65; 99; 128; 188; 141; 65;
   241; 141; 67; 213; 134; 236; 52; 137; 82; 149; 137; 108; 5; 5; 64; 239].
Definition unicode_prop_ID_Continue1_index : list Z :=
  [250; 6; 0; 112; 9; 0; 240; 10; 64; 87; 12; 0; 240; 13; 96; 199; 15; 32; 234; 23; 64; 5; 27; 0;
   65; 32; 0; 12; 168; 128; 55; 170; 32; 80; 254; 32; 58; 13; 33; 116; 17; 1; 90; 20; 33; 68; 25;
   129; 90; 29; 161; 245; 106; 33; 69; 210; 65; 175; 226; 33; 240; 1; 14].

(** ** General categories *)
Definition UNICODE_GC_Cn : Z := 0.
Definition UNICODE_GC_Lu : Z := 1.
Definition UNICODE_GC_Ll : Z := 2.
Definition UNICODE_GC_Lt : Z := 3.
Definition UNICODE_GC_Lm : Z := 4.
Definition UNICODE_GC_Lo : Z := 5.
Definition UNICODE_GC_Mn : Z := 6.
Definition UNICODE_GC_Mc : Z := 7.
Definition UNICODE_GC_Me : Z := 8.
Definition UNICODE_GC_Nd : Z := 9.
Definition UNICODE_GC_Nl : Z := 10.
Definition UNICODE_GC_No : Z := 11.
Definition UNICODE_GC_Sm : Z := 12.
Definition UNICODE_GC_Sc : Z := 13.
Definition UNICODE_GC_Sk : Z := 14.
Definition UNICODE_GC_So : Z := 15.
Definition UNICODE_GC_Pc : Z := 16.
Definition UNICODE_GC_Pd : Z := 17.
Definition UNICODE_GC_Ps : Z := 18.
Definition UNICODE_GC_Pe : Z := 19.
Definition UNICODE_GC_Pi : Z := 20.
Definition UNICODE_GC_Pf : Z := 21.
Definition UNICODE_GC_Po : Z := 22.
Definition UNICODE_GC_Zs : Z := 23.
Definition UNICODE_GC_Zl : Z := 24.
Definition UNICODE_GC_Zp : Z := 25.
Definition UNICODE_GC_Cc : Z := 26.
Definition UNICODE_GC_Cf : Z := 27.
Definition UNICODE_GC_Cs : Z := 28.
Definition UNICODE_GC_Co : Z := 29.
Definition UNICODE_GC_LC : Z := 30.
Definition UNICODE_GC_L : Z := 31.
Definition UNICODE_GC_M : Z := 32.
Definition UNICODE_GC_N : Z := 33.
Definition UNICODE_GC_S : Z := 34.
Definition UNICODE_GC_P : Z := 35.
Definition UNICODE_GC_Z : Z := 36.
Definition UNICODE_GC_C : Z := 37.
Definition UNICODE_GC_COUNT : Z := 38.
Definition unicode_gc_names : list string :=
  ["Cn,Unassigned"; "Lu,Uppercase_Letter"; "Ll,Lowercase_Letter"; "Lt,Titlecase_Letter";
   "Lm,Modifier_Letter"; "Lo,Other_Letter"; "Mn,Nonspacing_Mark"; "Mc,Spacing_Mark";
   "Me,Enclosing_Mark"; "Nd,Decimal_Number,digit"; "Nl,Letter_Number"; "No,Other_Number";
   "Sm,Math_Symbol"; "Sc,Currency_Symbol"; "Sk,Modifier_Symbol"; "So,Other_Symbol";
   "Pc,Connector_Punctuation"; "Pd,Dash_Punctuation"; "Ps,Open_Punctuation";
   "Pe,Close_Punctuation"; "Pi,Initial_Punctuation"; "Pf,Final_Punctuation";
   "Po,Other_Punctuation"; "Zs,Space_Separator"; "Zl,Line_Separator"; "Zp,Paragraph_Separator";
   "Cc,Control,cntrl"; "Cf,Format"; "Cs,Surrogate"; "Co,Private_Use"; "LC,Cased_Letter";
   "L,Letter"; "M,Mark,Combining_Mark"; "N,Number"; "S,Symbol"; "P,Punctuation,punct";
   "Z,Separator"; "C,Other"]%string.
Definition unicode_gc_name_table : list Z := name_table unicode_gc_names.
Definition unicode_gc_table : list Z :=
  [250; 24; 23; 86; 13; 86; 18; 19; 22; 12; 22; 17; 54; 233; 2; 54; 76; 54; 225; 18; 18; 22; 19;
   14; 16; 14; 226; 18; 18; 12; 19; 12; 250; 25; 23; 22; 109; 15; 22; 14; 15; 5; 20; 12; 27; 15;
   14; 15; 12; 43; 14; 2; 54; 14; 11; 5; 21; 75; 22; 225; 15; 12; 193; 226; 16; 12; 226; 0; 255;
   48; 2; 255; 8; 2; 255; 39; 191; 34; 33; 2; 95; 95; 33; 34; 97; 2; 33; 2; 65; 66; 33; 2; 33; 2;
   159; 127; 2; 95; 95; 33; 2; 95; 63; 2; 5; 63; 34; 101; 1; 3; 2; 1; 3; 2; 1; 3; 2; 255; 8; 2;
   255; 10; 2; 1; 3; 2; 95; 33; 2; 255; 50; 162; 33; 2; 33; 34; 95; 65; 2; 255; 0; 226; 60; 5; 226;
   19; 228; 10; 110; 228; 4; 238; 6; 132; 206; 4; 14; 4; 238; 9; 230; 104; 127; 4; 14; 63; 32; 4;
   66; 22; 1; 96; 46; 1; 22; 65; 0; 1; 0; 33; 2; 225; 9; 0; 225; 1; 226; 27; 63; 2; 65; 66; 255;
   16; 98; 63; 12; 95; 63; 2; 225; 43; 226; 40; 255; 26; 15; 134; 40; 255; 47; 255; 6; 2; 255; 88;
   0; 225; 30; 32; 4; 182; 226; 33; 22; 17; 32; 47; 13; 0; 230; 37; 17; 6; 22; 38; 22; 38; 22; 6;
   224; 0; 229; 19; 96; 101; 54; 224; 3; 187; 76; 54; 13; 54; 47; 230; 3; 22; 27; 86; 229; 24; 4;
   229; 2; 230; 13; 233; 2; 118; 37; 6; 229; 91; 22; 5; 198; 27; 15; 166; 36; 38; 15; 102; 37; 233;
   2; 69; 47; 5; 246; 6; 0; 27; 5; 6; 229; 22; 230; 19; 32; 229; 81; 230; 3; 5; 224; 6; 233; 2;
   229; 25; 230; 1; 36; 15; 86; 4; 32; 6; 45; 229; 14; 102; 4; 230; 1; 4; 70; 4; 134; 32; 246; 7;
   0; 229; 17; 70; 32; 22; 0; 229; 3; 128; 229; 16; 14; 165; 0; 59; 160; 230; 0; 229; 33; 4; 230;
   16; 27; 230; 24; 7; 229; 46; 6; 7; 6; 5; 71; 230; 0; 103; 6; 39; 5; 198; 229; 2; 38; 54; 233; 2;
   22; 4; 229; 7; 6; 39; 0; 229; 0; 32; 37; 32; 229; 14; 0; 197; 0; 5; 64; 101; 32; 6; 5; 71; 102;
   32; 39; 32; 39; 6; 5; 224; 0; 7; 96; 37; 0; 69; 38; 32; 233; 2; 37; 45; 171; 15; 13; 5; 22; 6;
   32; 38; 7; 0; 165; 96; 37; 32; 229; 14; 0; 197; 0; 37; 0; 37; 0; 37; 32; 6; 0; 71; 38; 96; 38;
   32; 70; 64; 6; 192; 101; 0; 5; 192; 233; 2; 38; 69; 6; 22; 224; 2; 38; 7; 0; 229; 1; 0; 69; 0;
   229; 14; 0; 197; 0; 37; 0; 133; 32; 6; 5; 71; 134; 0; 38; 7; 0; 39; 6; 32; 5; 224; 7; 37; 38;
   32; 233; 2; 22; 13; 192; 5; 166; 0; 6; 39; 0; 229; 0; 32; 37; 32; 229; 14; 0; 197; 0; 37; 0;
   133; 32; 6; 5; 7; 6; 7; 102; 32; 39; 32; 39; 6; 192; 38; 7; 96; 37; 0; 69; 38; 32; 233; 2; 15;
   5; 171; 224; 2; 6; 5; 0; 165; 64; 69; 0; 101; 64; 37; 0; 5; 0; 37; 64; 37; 64; 69; 64; 229; 4;
   96; 39; 6; 39; 64; 71; 0; 71; 6; 32; 5; 160; 7; 224; 6; 233; 2; 75; 175; 13; 15; 128; 6; 71; 6;
   229; 0; 0; 69; 0; 229; 15; 0; 229; 8; 32; 6; 5; 70; 103; 0; 70; 0; 102; 192; 38; 0; 69; 32; 5;
   32; 37; 38; 32; 233; 2; 192; 22; 203; 15; 5; 6; 39; 22; 229; 0; 0; 69; 0; 229; 15; 0; 229; 2; 0;
   133; 32; 6; 5; 7; 6; 135; 0; 6; 39; 0; 39; 38; 192; 39; 160; 37; 0; 37; 38; 32; 233; 2; 0; 37;
   7; 224; 4; 38; 39; 229; 1; 0; 69; 0; 229; 33; 38; 5; 71; 102; 0; 71; 0; 71; 6; 5; 15; 96; 69; 7;
   203; 69; 38; 32; 233; 2; 235; 1; 15; 165; 0; 6; 39; 0; 229; 10; 64; 229; 16; 0; 229; 1; 0; 5;
   32; 197; 64; 6; 96; 71; 70; 0; 6; 0; 231; 0; 160; 233; 2; 32; 39; 22; 224; 4; 229; 40; 6; 37;
   198; 96; 13; 165; 4; 230; 0; 22; 233; 2; 54; 224; 29; 37; 0; 5; 0; 133; 0; 229; 16; 0; 5; 0;
   229; 2; 6; 37; 230; 1; 5; 32; 133; 0; 4; 0; 198; 0; 233; 2; 32; 101; 224; 24; 5; 79; 246; 7; 15;
   22; 79; 38; 175; 233; 2; 235; 2; 15; 6; 15; 6; 15; 6; 18; 19; 18; 19; 39; 229; 0; 0; 229; 28;
   96; 230; 6; 7; 134; 22; 38; 133; 230; 3; 0; 230; 28; 0; 239; 0; 6; 175; 0; 47; 150; 111; 54;
   224; 29; 229; 35; 39; 102; 7; 166; 7; 38; 39; 38; 5; 233; 2; 182; 165; 39; 38; 101; 70; 5; 71;
   37; 199; 69; 102; 229; 5; 6; 39; 38; 167; 6; 5; 7; 233; 2; 71; 6; 47; 225; 30; 0; 1; 128; 1; 32;
   226; 35; 22; 4; 66; 229; 128; 193; 0; 101; 32; 197; 0; 5; 0; 101; 32; 229; 33; 0; 101; 32; 229;
   25; 0; 101; 32; 197; 0; 5; 0; 101; 32; 229; 7; 0; 229; 49; 0; 101; 32; 229; 59; 32; 70; 246; 1;
   235; 12; 64; 229; 8; 239; 2; 160; 225; 78; 32; 162; 32; 17; 229; 129; 228; 15; 22; 229; 9; 23;
   229; 18; 18; 19; 64; 229; 67; 86; 74; 229; 0; 192; 229; 10; 70; 7; 224; 1; 229; 11; 38; 7; 54;
   224; 1; 229; 10; 38; 224; 4; 229; 5; 0; 69; 0; 38; 224; 4; 229; 44; 38; 7; 198; 231; 0; 6; 39;
   230; 3; 86; 4; 86; 13; 5; 6; 32; 233; 2; 160; 235; 2; 160; 182; 17; 118; 70; 27; 6; 233; 2; 160;
   229; 27; 4; 229; 45; 192; 133; 38; 229; 26; 6; 5; 128; 229; 62; 224; 2; 229; 23; 0; 70; 103; 38;
   71; 96; 39; 6; 167; 70; 96; 15; 64; 54; 233; 2; 229; 22; 32; 133; 224; 3; 229; 36; 96; 229; 18;
   160; 233; 2; 11; 64; 239; 26; 229; 15; 38; 39; 6; 32; 54; 229; 45; 7; 6; 7; 198; 0; 6; 7; 6; 39;
   230; 0; 167; 230; 2; 32; 6; 233; 2; 160; 233; 2; 160; 214; 4; 182; 32; 230; 6; 8; 230; 8; 224;
   41; 102; 7; 229; 39; 6; 7; 134; 7; 6; 135; 6; 39; 229; 0; 64; 233; 2; 214; 239; 2; 230; 1; 239;
   1; 54; 0; 38; 7; 229; 22; 7; 102; 39; 38; 7; 70; 37; 233; 2; 229; 36; 6; 7; 38; 71; 6; 7; 70;
   39; 224; 0; 118; 229; 28; 231; 0; 230; 0; 39; 38; 64; 150; 233; 2; 64; 69; 233; 2; 229; 22; 164;
   54; 226; 1; 192; 225; 35; 32; 65; 246; 0; 224; 0; 70; 22; 230; 5; 7; 198; 101; 6; 165; 6; 37; 7;
   38; 5; 128; 226; 36; 228; 55; 226; 5; 4; 226; 26; 228; 29; 230; 56; 255; 128; 14; 226; 0; 255;
   90; 226; 0; 225; 0; 162; 32; 161; 32; 226; 0; 225; 0; 226; 0; 225; 0; 162; 32; 161; 32; 226; 0;
   0; 1; 0; 1; 0; 1; 0; 63; 194; 225; 0; 226; 6; 32; 226; 0; 227; 0; 226; 0; 227; 0; 226; 0; 227;
   0; 130; 0; 34; 97; 3; 14; 2; 78; 66; 0; 34; 97; 3; 78; 98; 32; 34; 97; 0; 78; 226; 0; 129; 78;
   32; 66; 0; 34; 97; 3; 46; 0; 247; 3; 155; 177; 54; 20; 21; 18; 52; 21; 18; 20; 246; 0; 24; 25;
   155; 23; 246; 1; 20; 21; 118; 48; 86; 12; 18; 19; 246; 3; 12; 22; 16; 246; 2; 23; 155; 0; 251;
   2; 11; 4; 32; 171; 76; 18; 19; 4; 235; 2; 76; 18; 19; 0; 228; 5; 64; 237; 25; 224; 7; 230; 5;
   104; 6; 72; 230; 4; 224; 7; 47; 1; 111; 1; 47; 2; 65; 34; 65; 2; 15; 1; 47; 12; 129; 175; 1; 15;
   1; 15; 1; 15; 97; 15; 2; 97; 2; 101; 2; 47; 34; 33; 140; 63; 66; 15; 12; 47; 2; 15; 235; 8; 234;
   27; 63; 106; 11; 47; 96; 140; 143; 44; 111; 12; 47; 12; 47; 12; 207; 12; 239; 23; 44; 47; 12;
   15; 12; 239; 23; 236; 128; 132; 239; 0; 18; 19; 18; 19; 239; 12; 44; 207; 18; 19; 239; 73; 12;
   239; 22; 236; 17; 239; 32; 172; 239; 61; 224; 17; 239; 3; 224; 13; 235; 52; 239; 70; 235; 14;
   239; 128; 47; 12; 239; 1; 12; 239; 46; 236; 0; 239; 103; 12; 239; 128; 112; 18; 19; 18; 19; 18;
   19; 18; 19; 18; 19; 18; 19; 18; 19; 235; 22; 239; 36; 140; 18; 19; 236; 23; 18; 19; 18; 19; 18;
   19; 18; 19; 18; 19; 236; 8; 239; 128; 120; 236; 123; 18; 19; 18; 19; 18; 19; 18; 19; 18; 19; 18;
   19; 18; 19; 18; 19; 18; 19; 18; 19; 18; 19; 236; 55; 18; 19; 18; 19; 236; 24; 18; 19; 236; 128;
   122; 239; 40; 236; 13; 47; 172; 239; 31; 32; 239; 24; 0; 239; 97; 225; 40; 226; 40; 95; 33; 34;
   223; 65; 2; 63; 2; 63; 130; 36; 65; 2; 255; 90; 2; 175; 127; 70; 63; 128; 118; 11; 54; 226; 30;
   0; 2; 128; 2; 32; 229; 48; 192; 4; 22; 224; 6; 6; 229; 15; 224; 1; 197; 0; 197; 0; 197; 0; 197;
   0; 197; 0; 197; 0; 197; 0; 197; 0; 230; 24; 54; 20; 21; 20; 21; 86; 20; 21; 22; 20; 21; 246; 1;
   17; 54; 17; 22; 20; 21; 54; 20; 21; 18; 19; 18; 19; 18; 19; 18; 19; 150; 4; 246; 2; 49; 118; 17;
   22; 18; 246; 5; 47; 86; 18; 19; 18; 19; 18; 19; 18; 19; 17; 224; 26; 239; 18; 0; 239; 81; 224;
   4; 239; 128; 78; 224; 18; 239; 4; 96; 23; 86; 15; 4; 5; 10; 18; 19; 18; 19; 18; 19; 18; 19; 18;
   19; 47; 18; 19; 18; 19; 18; 19; 18; 19; 17; 18; 51; 15; 234; 1; 102; 39; 17; 132; 47; 74; 4; 5;
   22; 47; 0; 229; 78; 32; 38; 46; 36; 5; 17; 229; 82; 22; 68; 5; 128; 229; 35; 0; 229; 86; 0; 47;
   107; 239; 2; 229; 24; 239; 28; 224; 4; 229; 8; 239; 23; 0; 235; 2; 239; 22; 235; 0; 15; 235; 7;
   239; 24; 235; 2; 239; 31; 235; 7; 239; 128; 184; 229; 153; 56; 239; 56; 229; 192; 17; 141; 4;
   229; 131; 239; 64; 239; 47; 224; 1; 229; 32; 164; 54; 229; 128; 132; 4; 86; 229; 8; 233; 2; 37;
   224; 12; 255; 38; 5; 6; 72; 22; 230; 2; 22; 4; 255; 20; 36; 38; 229; 62; 234; 2; 38; 182; 224;
   0; 238; 15; 228; 1; 46; 255; 6; 34; 255; 54; 4; 226; 0; 159; 255; 2; 4; 46; 127; 5; 127; 34;
   255; 13; 97; 2; 129; 2; 255; 7; 65; 2; 63; 128; 63; 0; 2; 0; 2; 127; 224; 16; 68; 63; 5; 36; 2;
   197; 6; 69; 6; 101; 6; 229; 15; 39; 38; 7; 111; 6; 64; 171; 47; 13; 15; 160; 229; 44; 118; 224;
   0; 39; 229; 42; 231; 8; 38; 224; 0; 54; 233; 2; 160; 230; 10; 165; 86; 5; 22; 37; 6; 233; 2;
   229; 20; 230; 0; 54; 229; 15; 230; 3; 39; 224; 3; 22; 229; 21; 64; 70; 7; 229; 39; 6; 39; 102;
   39; 38; 71; 246; 5; 0; 4; 233; 2; 96; 54; 133; 6; 4; 229; 1; 233; 2; 133; 0; 229; 33; 166; 39;
   38; 39; 38; 224; 1; 69; 6; 229; 0; 6; 7; 32; 233; 2; 32; 118; 229; 8; 4; 165; 79; 5; 7; 6; 7;
   229; 42; 6; 5; 70; 37; 38; 133; 38; 5; 6; 5; 224; 16; 37; 4; 54; 229; 3; 7; 38; 39; 54; 5; 36;
   7; 6; 224; 2; 165; 32; 165; 32; 165; 224; 1; 197; 0; 197; 0; 226; 35; 14; 100; 226; 1; 4; 46;
   96; 226; 72; 229; 27; 39; 6; 39; 6; 39; 22; 7; 6; 32; 233; 2; 160; 229; 171; 28; 224; 4; 229;
   15; 96; 229; 41; 96; 252; 135; 120; 253; 152; 120; 229; 128; 230; 32; 229; 98; 224; 30; 194;
   224; 4; 130; 128; 5; 6; 229; 2; 12; 229; 5; 0; 133; 0; 5; 0; 37; 0; 37; 0; 229; 100; 238; 9;
   224; 8; 229; 128; 227; 19; 18; 239; 8; 229; 56; 32; 229; 46; 192; 15; 224; 24; 229; 4; 13; 79;
   230; 8; 214; 18; 19; 22; 160; 230; 8; 22; 49; 48; 18; 19; 18; 19; 18; 19; 18; 19; 18; 19; 18;
   19; 18; 19; 18; 19; 54; 18; 19; 118; 80; 86; 0; 118; 17; 18; 19; 18; 19; 18; 19; 86; 12; 17; 76;
   0; 22; 13; 54; 96; 133; 0; 229; 127; 32; 27; 0; 86; 13; 86; 18; 19; 22; 12; 22; 17; 54; 233; 2;
   54; 76; 54; 225; 18; 18; 22; 19; 14; 16; 14; 226; 18; 18; 12; 19; 12; 18; 19; 22; 18; 19; 54;
   229; 2; 4; 229; 37; 36; 229; 23; 64; 165; 32; 165; 32; 165; 32; 69; 64; 45; 12; 14; 15; 45; 0;
   15; 108; 47; 224; 2; 91; 47; 32; 229; 4; 0; 229; 18; 0; 229; 11; 0; 37; 0; 229; 7; 32; 229; 6;
   224; 26; 229; 115; 128; 86; 96; 235; 37; 64; 239; 1; 234; 45; 107; 239; 9; 43; 79; 0; 239; 5;
   64; 15; 224; 39; 239; 37; 6; 224; 122; 229; 21; 64; 229; 41; 224; 7; 6; 235; 19; 96; 229; 24;
   107; 224; 1; 229; 12; 10; 229; 0; 10; 128; 229; 30; 134; 128; 229; 22; 0; 22; 229; 28; 96; 229;
   0; 22; 138; 224; 34; 225; 32; 226; 32; 229; 70; 32; 233; 2; 160; 225; 28; 96; 226; 28; 96; 229;
   32; 224; 0; 229; 44; 224; 3; 22; 225; 3; 0; 225; 7; 0; 193; 0; 33; 0; 226; 3; 0; 226; 7; 0; 194;
   0; 34; 224; 59; 229; 128; 175; 224; 1; 229; 14; 224; 2; 229; 0; 224; 16; 164; 0; 228; 34; 0;
   228; 1; 224; 61; 165; 32; 5; 0; 229; 36; 0; 37; 64; 5; 32; 229; 15; 0; 22; 235; 0; 229; 15; 47;
   203; 229; 23; 224; 0; 235; 1; 224; 40; 229; 11; 0; 37; 128; 139; 229; 14; 171; 64; 22; 229; 18;
   128; 22; 224; 56; 229; 48; 96; 43; 37; 235; 8; 32; 235; 38; 5; 70; 0; 38; 128; 102; 101; 0; 69;
   0; 229; 21; 32; 70; 96; 6; 235; 1; 192; 246; 1; 192; 229; 21; 43; 22; 229; 21; 75; 224; 24; 229;
   0; 15; 229; 20; 38; 96; 139; 214; 224; 1; 229; 46; 64; 214; 229; 14; 32; 235; 0; 229; 11; 128;
   235; 0; 229; 10; 192; 118; 224; 4; 203; 224; 72; 229; 65; 224; 47; 225; 43; 224; 5; 226; 43;
   192; 171; 229; 28; 102; 224; 0; 233; 2; 224; 128; 158; 235; 23; 0; 229; 34; 0; 38; 17; 32; 37;
   224; 67; 70; 229; 21; 235; 2; 5; 224; 0; 229; 14; 230; 3; 107; 150; 224; 14; 229; 10; 102; 118;
   224; 30; 229; 13; 203; 224; 12; 229; 15; 224; 1; 7; 6; 7; 229; 45; 230; 7; 214; 96; 235; 12;
   233; 2; 6; 37; 38; 5; 224; 1; 70; 7; 229; 37; 71; 102; 39; 38; 54; 27; 118; 6; 224; 2; 27; 32;
   229; 17; 192; 233; 2; 160; 70; 229; 28; 134; 7; 230; 0; 0; 233; 2; 118; 5; 39; 5; 224; 0; 229;
   27; 6; 54; 5; 224; 1; 38; 7; 229; 40; 71; 230; 1; 39; 101; 118; 102; 22; 7; 6; 233; 2; 5; 22; 5;
   86; 0; 235; 12; 224; 3; 229; 10; 0; 229; 17; 71; 70; 39; 6; 7; 38; 182; 6; 37; 6; 224; 54; 197;
   0; 5; 0; 101; 0; 229; 7; 0; 229; 2; 22; 160; 229; 39; 6; 71; 230; 0; 128; 233; 2; 160; 38; 39;
   0; 229; 0; 32; 37; 32; 229; 14; 0; 197; 0; 37; 0; 133; 0; 38; 5; 39; 6; 103; 32; 39; 32; 71; 32;
   5; 160; 7; 128; 133; 39; 32; 198; 64; 134; 224; 128; 3; 229; 45; 71; 230; 0; 39; 70; 7; 6; 101;
   150; 233; 2; 54; 0; 22; 6; 69; 224; 22; 229; 40; 71; 166; 7; 6; 103; 38; 7; 38; 37; 22; 5; 224;
   0; 233; 2; 224; 128; 30; 229; 39; 71; 102; 32; 103; 38; 7; 38; 246; 15; 101; 38; 224; 26; 229;
   40; 71; 230; 0; 39; 6; 7; 38; 86; 5; 224; 3; 233; 2; 160; 246; 5; 224; 11; 229; 35; 6; 7; 6; 39;
   166; 7; 6; 5; 22; 160; 233; 2; 224; 46; 229; 19; 32; 70; 39; 102; 7; 134; 96; 233; 2; 43; 86;
   15; 197; 224; 128; 49; 229; 36; 71; 230; 1; 7; 38; 22; 224; 92; 225; 24; 226; 24; 233; 2; 235;
   1; 224; 4; 229; 0; 32; 5; 32; 229; 0; 0; 37; 0; 229; 16; 167; 0; 39; 32; 38; 7; 6; 5; 7; 5; 7;
   6; 86; 224; 1; 233; 2; 224; 62; 229; 0; 32; 229; 31; 71; 102; 32; 38; 103; 6; 5; 22; 5; 7; 224;
   19; 5; 230; 2; 229; 32; 166; 7; 5; 102; 246; 0; 6; 224; 0; 5; 166; 39; 70; 229; 38; 230; 5; 7;
   38; 86; 5; 150; 224; 5; 229; 65; 192; 246; 2; 224; 128; 110; 229; 1; 0; 229; 29; 7; 198; 0; 166;
   7; 6; 5; 150; 224; 2; 233; 2; 235; 11; 64; 54; 229; 22; 32; 230; 14; 0; 7; 198; 7; 38; 7; 38;
   224; 65; 197; 0; 37; 0; 229; 30; 166; 64; 6; 0; 38; 0; 198; 5; 6; 224; 0; 233; 2; 160; 165; 0;
   37; 0; 229; 24; 135; 0; 38; 0; 39; 6; 7; 6; 5; 192; 233; 2; 224; 128; 174; 229; 11; 38; 39; 54;
   192; 38; 5; 7; 229; 5; 0; 229; 26; 39; 134; 64; 39; 6; 7; 6; 246; 5; 233; 2; 224; 78; 5; 224; 7;
   235; 13; 239; 0; 109; 239; 9; 224; 5; 22; 229; 131; 18; 224; 94; 234; 103; 0; 150; 224; 3; 229;
   128; 60; 224; 137; 196; 229; 89; 54; 224; 5; 229; 131; 168; 251; 8; 6; 165; 230; 7; 224; 143;
   34; 229; 129; 191; 224; 161; 49; 229; 129; 177; 192; 229; 23; 0; 233; 2; 96; 54; 229; 71; 0;
   233; 2; 160; 229; 22; 32; 134; 22; 224; 2; 229; 40; 198; 150; 111; 100; 22; 15; 224; 2; 233; 2;
   0; 203; 0; 229; 13; 128; 229; 11; 224; 130; 40; 225; 24; 226; 24; 235; 15; 118; 224; 93; 229;
   67; 96; 6; 5; 231; 47; 192; 102; 228; 5; 224; 56; 36; 22; 4; 6; 224; 3; 39; 224; 6; 229; 151;
   112; 224; 0; 229; 132; 78; 224; 34; 229; 1; 224; 162; 95; 100; 0; 196; 0; 36; 0; 229; 128; 155;
   224; 7; 5; 224; 21; 69; 32; 5; 224; 6; 101; 224; 0; 229; 129; 4; 224; 136; 124; 229; 99; 128;
   229; 5; 64; 229; 1; 192; 229; 2; 32; 15; 38; 22; 123; 224; 145; 212; 230; 38; 32; 230; 15; 224;
   1; 239; 108; 224; 52; 239; 128; 110; 224; 2; 239; 31; 32; 239; 52; 39; 70; 79; 167; 251; 0; 230;
   0; 47; 198; 239; 22; 102; 239; 53; 224; 13; 239; 58; 70; 15; 224; 114; 235; 12; 224; 4; 235; 12;
   224; 4; 239; 79; 224; 1; 235; 17; 224; 127; 225; 18; 226; 18; 225; 18; 194; 0; 226; 10; 225; 18;
   226; 18; 1; 0; 33; 32; 1; 32; 33; 32; 97; 0; 225; 0; 98; 0; 2; 0; 194; 0; 226; 3; 225; 18; 226;
   18; 33; 0; 97; 32; 225; 0; 0; 193; 0; 226; 18; 33; 0; 97; 0; 129; 0; 1; 64; 193; 0; 226; 18;
   225; 18; 226; 18; 225; 18; 226; 18; 225; 18; 226; 18; 225; 18; 226; 18; 225; 18; 226; 18; 225;
   18; 226; 20; 32; 225; 17; 12; 226; 17; 12; 162; 225; 17; 12; 226; 17; 12; 162; 225; 17; 12; 226;
   17; 12; 162; 225; 17; 12; 226; 17; 12; 162; 225; 17; 12; 226; 17; 12; 162; 63; 32; 233; 42; 239;
   129; 120; 230; 47; 111; 230; 42; 239; 0; 6; 239; 6; 6; 47; 150; 224; 7; 134; 0; 230; 7; 224;
   131; 200; 226; 2; 5; 226; 12; 160; 162; 224; 128; 77; 198; 0; 230; 9; 32; 198; 0; 38; 0; 134;
   128; 228; 54; 224; 25; 6; 224; 104; 229; 37; 64; 198; 196; 32; 233; 2; 96; 5; 15; 224; 128; 184;
   229; 22; 6; 224; 9; 229; 36; 102; 233; 2; 128; 13; 224; 129; 72; 229; 19; 4; 102; 233; 2; 224;
   130; 94; 197; 0; 101; 0; 37; 0; 229; 7; 0; 229; 128; 61; 32; 235; 1; 198; 224; 33; 225; 26; 226;
   26; 198; 4; 96; 233; 2; 96; 54; 224; 130; 137; 235; 51; 15; 75; 13; 107; 224; 68; 235; 37; 15;
   235; 7; 224; 128; 58; 101; 0; 229; 19; 0; 37; 0; 5; 32; 5; 0; 229; 2; 0; 101; 0; 5; 0; 5; 160;
   5; 96; 5; 0; 5; 0; 5; 0; 69; 0; 37; 0; 5; 32; 5; 0; 5; 0; 5; 0; 5; 0; 5; 0; 37; 0; 5; 32; 101;
   0; 197; 0; 101; 0; 101; 0; 5; 0; 229; 2; 0; 229; 9; 128; 69; 0; 133; 0; 229; 9; 224; 44; 44;
   224; 128; 134; 239; 36; 96; 239; 92; 224; 4; 239; 7; 32; 239; 7; 0; 239; 7; 0; 239; 29; 224; 2;
   235; 5; 239; 128; 25; 224; 48; 239; 21; 224; 5; 239; 36; 96; 239; 1; 192; 47; 224; 6; 175; 224;
   128; 18; 239; 128; 115; 142; 239; 130; 80; 96; 239; 9; 64; 239; 5; 64; 239; 111; 96; 239; 87;
   160; 239; 4; 96; 15; 224; 7; 239; 4; 96; 239; 48; 224; 0; 239; 2; 160; 239; 32; 224; 0; 239; 22;
   32; 47; 224; 70; 239; 128; 204; 224; 4; 239; 6; 32; 239; 5; 64; 239; 1; 192; 239; 38; 0; 207;
   224; 0; 239; 6; 96; 239; 1; 192; 239; 1; 192; 239; 128; 11; 0; 239; 47; 224; 29; 233; 2; 224;
   131; 126; 229; 192; 102; 88; 224; 24; 229; 143; 178; 160; 229; 128; 86; 32; 229; 149; 250; 224;
   6; 229; 156; 169; 224; 139; 151; 229; 129; 150; 224; 133; 90; 229; 146; 195; 128; 229; 143; 216;
   224; 202; 155; 201; 27; 224; 22; 251; 88; 224; 120; 230; 128; 104; 224; 192; 189; 136; 253; 192;
   191; 118; 32; 253; 192; 191; 118; 32].

(** ** Scripts *)
Definition UNICODE_SCRIPT_Unknown : Z := 0.
Definition UNICODE_SCRIPT_Common : Z := 25.
Definition UNICODE_SCRIPT_Inherited : Z := 56.
Definition unicode_script_names : list string :=
  ["Adlam,Adlm"; "Ahom,Ahom"; "Anatolian_Hieroglyphs,Hluw"; "Arabic,Arab"; "Armenian,Armn";
   "Avestan,Avst"; "Balinese,Bali"; "Bamum,Bamu"; "Bassa_Vah,Bass"; "Batak,Batk"; "Bengali,Beng";
   "Bhaiksuki,Bhks"; "Bopomofo,Bopo"; "Brahmi,Brah"; "Braille,Brai"; "Buginese,Bugi";
   "Buhid,Buhd"; "Canadian_Aboriginal,Cans"; "Carian,Cari"; "Caucasian_Albanian,Aghb";
   "Chakma,Cakm"; "Cham,Cham"; "Cherokee,Cher"; "Chorasmian,Chrs"; "Common,Zyyy";
   "Coptic,Copt,Qaac"; "Cuneiform,Xsux"; "Cypriot,Cprt"; "Cyrillic,Cyrl"; "Cypro_Minoan,Cpmn";
   "Deseret,Dsrt"; "Devanagari,Deva"; "Dives_Akuru,Diak"; "Dogra,Dogr"; "Duployan,Dupl";
   "Egyptian_Hieroglyphs,Egyp"; "Elbasan,Elba"; "Elymaic,Elym"; "Ethiopic,Ethi"; "Georgian,Geor";
   "Glagolitic,Glag"; "Gothic,Goth"; "Grantha,Gran"; "Greek,Grek"; "Gujarati,Gujr";
   "Gunjala_Gondi,Gong"; "Gurmukhi,Guru"; "Han,Hani"; "Hangul,Hang"; "Hanifi_Rohingya,Rohg";
   "Hanunoo,Hano"; "Hatran,Hatr"; "Hebrew,Hebr"; "Hiragana,Hira"; "Imperial_Aramaic,Armi";
   "Inherited,Zinh,Qaai"; "Inscriptional_Pahlavi,Phli"; "Inscriptional_Parthian,Prti";
   "Javanese,Java"; "Kaithi,Kthi"; "Kannada,Knda"; "Katakana,Kana"; "Kawi,Kawi"; "Kayah_Li,Kali";
   "Kharoshthi,Khar"; "Khmer,Khmr"; "Khojki,Khoj"; "Khitan_Small_Script,Kits"; "Khudawadi,Sind";
   "Lao,Laoo"; "Latin,Latn"; "Lepcha,Lepc"; "Limbu,Limb"; "Linear_A,Lina"; "Linear_B,Linb";
   "Lisu,Lisu"; "Lycian,Lyci"; "Lydian,Lydi"; "Makasar,Maka"; "Mahajani,Mahj"; "Malayalam,Mlym";
   "Mandaic,Mand"; "Manichaean,Mani"; "Marchen,Marc"; "Masaram_Gondi,Gonm"; "Medefaidrin,Medf";
   "Meetei_Mayek,Mtei"; "Mende_Kikakui,Mend"; "Meroitic_Cursive,Merc";
   "Meroitic_Hieroglyphs,Mero"; "Miao,Plrd"; "Modi,Modi"; "Mongolian,Mong"; "Mro,Mroo";
   "Multani,Mult"; "Myanmar,Mymr"; "Nabataean,Nbat"; "Nag_Mundari,Nagm"; "Nandinagari,Nand";
   "New_Tai_Lue,Talu"; "Newa,Newa"; "Nko,Nkoo"; "Nushu,Nshu"; "Nyiakeng_Puachue_Hmong,Hmnp";
   "Ogham,Ogam"; "Ol_Chiki,Olck"; "Old_Hungarian,Hung"; "Old_Italic,Ital";
   "Old_North_Arabian,Narb"; "Old_Permic,Perm"; "Old_Persian,Xpeo"; "Old_Sogdian,Sogo";
   "Old_South_Arabian,Sarb"; "Old_Turkic,Orkh"; "Old_Uyghur,Ougr"; "Oriya,Orya"; "Osage,Osge";
   "Osmanya,Osma"; "Pahawh_Hmong,Hmng"; "Palmyrene,Palm"; "Pau_Cin_Hau,Pauc"; "Phags_Pa,Phag";
   "Phoenician,Phnx"; "Psalter_Pahlavi,Phlp"; "Rejang,Rjng"; "Runic,Runr"; "Samaritan,Samr";
   "Saurashtra,Saur"; "Sharada,Shrd"; "Shavian,Shaw"; "Siddham,Sidd"; "SignWriting,Sgnw";
   "Sinhala,Sinh"; "Sogdian,Sogd"; "Sora_Sompeng,Sora"; "Soyombo,Soyo"; "Sundanese,Sund";
   "Syloti_Nagri,Sylo"; "Syriac,Syrc"; "Tagalog,Tglg"; "Tagbanwa,Tagb"; "Tai_Le,Tale";
   "Tai_Tham,Lana"; "Tai_Viet,Tavt"; "Takri,Takr"; "Tamil,Taml"; "Tangut,Tang"; "Telugu,Telu";
   "Thaana,Thaa"; "Thai,Thai"; "Tibetan,Tibt"; "Tifinagh,Tfng"; "Tirhuta,Tirh"; "Tangsa,Tnsa";
   "Toto,Toto"; "Ugaritic,Ugar"; "Vai,Vaii"; "Vithkuqi,Vith"; "Wancho,Wcho"; "Warang_Citi,Wara";
   "Yezidi,Yezi"; "Yi,Yiii"; "Zanabazar_Square,Zanb"]%string.
Definition unicode_script_name_table : list Z := name_table unicode_script_names.
Definition unicode_script_table : list Z :=
  [192; 25; 153; 71; 133; 25; 153; 71; 174; 25; 128; 71; 142; 25; 128; 71; 132; 25; 150; 71; 128;
   25; 158; 71; 128; 25; 225; 96; 71; 166; 25; 132; 71; 132; 25; 129; 13; 147; 25; 224; 15; 56;
   131; 44; 128; 25; 130; 44; 1; 131; 44; 128; 25; 128; 44; 3; 128; 44; 128; 25; 128; 44; 128; 25;
   130; 44; 0; 128; 44; 0; 147; 44; 0; 190; 44; 141; 26; 143; 44; 224; 36; 29; 129; 56; 224; 72;
   29; 0; 165; 5; 1; 177; 5; 1; 130; 5; 0; 182; 53; 7; 154; 53; 3; 133; 53; 10; 132; 4; 128; 25;
   133; 4; 128; 25; 141; 4; 128; 25; 130; 4; 128; 25; 159; 4; 128; 25; 137; 4; 138; 56; 153; 4;
   128; 56; 224; 11; 4; 128; 25; 161; 4; 141; 139; 0; 187; 139; 1; 130; 139; 175; 4; 177; 149; 13;
   186; 102; 1; 130; 102; 173; 127; 1; 142; 127; 0; 155; 82; 1; 128; 82; 0; 138; 139; 4; 158; 4; 0;
   129; 4; 5; 201; 4; 128; 25; 156; 4; 208; 32; 131; 56; 142; 32; 129; 25; 153; 32; 131; 11; 0;
   135; 11; 1; 129; 11; 1; 149; 11; 0; 134; 11; 0; 128; 11; 2; 131; 11; 1; 136; 11; 1; 129; 11; 1;
   131; 11; 7; 128; 11; 3; 129; 11; 0; 132; 11; 1; 152; 11; 1; 130; 47; 0; 133; 47; 3; 129; 47; 1;
   149; 47; 0; 134; 47; 0; 129; 47; 0; 129; 47; 0; 129; 47; 1; 128; 47; 0; 132; 47; 3; 129; 47; 1;
   130; 47; 2; 128; 47; 6; 131; 47; 0; 128; 47; 6; 144; 47; 9; 130; 45; 0; 136; 45; 0; 130; 45; 0;
   149; 45; 0; 134; 45; 0; 129; 45; 0; 132; 45; 1; 137; 45; 0; 130; 45; 0; 130; 45; 1; 128; 45; 14;
   131; 45; 1; 139; 45; 6; 134; 45; 0; 130; 116; 0; 135; 116; 1; 129; 116; 1; 149; 116; 0; 134;
   116; 0; 129; 116; 0; 132; 116; 1; 136; 116; 1; 129; 116; 1; 130; 116; 6; 130; 116; 3; 129; 116;
   0; 132; 116; 1; 145; 116; 9; 129; 146; 0; 133; 146; 2; 130; 146; 0; 131; 146; 2; 129; 146; 0;
   128; 146; 0; 129; 146; 2; 129; 146; 2; 130; 146; 2; 139; 146; 3; 132; 146; 2; 130; 146; 0; 131;
   146; 1; 128; 146; 5; 128; 146; 13; 148; 146; 4; 140; 148; 0; 130; 148; 0; 150; 148; 0; 143; 148;
   1; 136; 148; 0; 130; 148; 0; 131; 148; 6; 129; 148; 0; 130; 148; 1; 128; 148; 1; 131; 148; 1;
   137; 148; 6; 136; 148; 140; 61; 0; 130; 61; 0; 150; 61; 0; 137; 61; 0; 132; 61; 1; 136; 61; 0;
   130; 61; 0; 131; 61; 6; 129; 61; 5; 129; 61; 0; 131; 61; 1; 137; 61; 0; 130; 61; 11; 140; 81; 0;
   130; 81; 0; 178; 81; 0; 130; 81; 0; 133; 81; 3; 143; 81; 1; 153; 81; 0; 130; 133; 0; 145; 133;
   2; 151; 133; 0; 136; 133; 0; 128; 133; 1; 134; 133; 2; 128; 133; 3; 133; 133; 0; 128; 133; 0;
   135; 133; 5; 137; 133; 1; 130; 133; 11; 185; 150; 3; 128; 25; 155; 150; 36; 129; 70; 0; 128; 70;
   0; 132; 70; 0; 151; 70; 0; 128; 70; 0; 150; 70; 1; 132; 70; 0; 128; 70; 0; 134; 70; 0; 137; 70;
   1; 131; 70; 31; 199; 151; 0; 163; 151; 3; 166; 151; 0; 163; 151; 0; 142; 151; 0; 134; 151; 131;
   25; 129; 151; 36; 224; 63; 96; 165; 40; 0; 128; 40; 4; 128; 40; 1; 170; 40; 128; 25; 131; 40;
   224; 159; 49; 200; 39; 0; 131; 39; 1; 134; 39; 0; 128; 39; 0; 131; 39; 1; 168; 39; 0; 131; 39;
   1; 160; 39; 0; 131; 39; 1; 134; 39; 0; 128; 39; 0; 131; 39; 1; 142; 39; 0; 184; 39; 0; 131; 39;
   1; 194; 39; 1; 159; 39; 2; 153; 39; 5; 213; 23; 1; 133; 23; 1; 226; 31; 18; 156; 105; 2; 202;
   126; 130; 25; 138; 126; 6; 149; 140; 8; 128; 140; 148; 51; 129; 25; 8; 147; 17; 11; 140; 141; 0;
   130; 141; 0; 129; 141; 11; 221; 66; 1; 137; 66; 5; 137; 66; 5; 129; 93; 129; 25; 128; 93; 128;
   25; 147; 93; 5; 216; 93; 6; 170; 93; 4; 197; 18; 9; 158; 73; 0; 139; 73; 3; 139; 73; 3; 128; 73;
   2; 139; 73; 157; 142; 1; 132; 142; 10; 171; 100; 3; 153; 100; 5; 138; 100; 2; 129; 100; 159; 66;
   155; 16; 1; 129; 16; 190; 143; 0; 156; 143; 1; 138; 143; 5; 137; 143; 5; 141; 143; 1; 158; 56;
   48; 204; 7; 2; 174; 7; 0; 191; 137; 179; 10; 7; 131; 10; 183; 72; 2; 142; 72; 2; 130; 72; 175;
   106; 136; 29; 6; 170; 40; 1; 130; 40; 135; 137; 7; 130; 56; 128; 25; 140; 56; 128; 25; 134; 56;
   131; 25; 128; 56; 133; 25; 128; 56; 130; 25; 129; 56; 128; 25; 4; 165; 71; 132; 44; 128; 29;
   176; 71; 132; 44; 131; 71; 132; 44; 140; 71; 128; 29; 197; 71; 128; 44; 191; 56; 224; 159; 71;
   149; 44; 1; 133; 44; 1; 165; 44; 1; 133; 44; 1; 135; 44; 0; 128; 44; 0; 128; 44; 0; 128; 44; 0;
   158; 44; 1; 180; 44; 0; 142; 44; 0; 141; 44; 1; 133; 44; 0; 146; 44; 1; 130; 44; 0; 136; 44; 0;
   139; 25; 129; 56; 214; 25; 0; 138; 25; 128; 71; 1; 138; 25; 128; 71; 142; 25; 0; 140; 71; 2;
   160; 25; 14; 160; 56; 14; 165; 25; 128; 44; 130; 25; 129; 71; 133; 25; 128; 71; 154; 25; 128;
   71; 144; 25; 168; 71; 130; 25; 3; 226; 54; 25; 24; 138; 25; 20; 227; 63; 25; 224; 159; 15; 226;
   19; 25; 1; 159; 25; 0; 224; 8; 25; 223; 41; 159; 71; 224; 19; 26; 4; 134; 26; 165; 40; 0; 128;
   40; 4; 128; 40; 1; 183; 152; 6; 129; 152; 13; 128; 152; 150; 39; 8; 134; 39; 0; 134; 39; 0; 134;
   39; 0; 134; 39; 0; 134; 39; 0; 134; 39; 0; 134; 39; 0; 134; 39; 0; 159; 29; 221; 25; 33; 153;
   48; 0; 216; 48; 11; 224; 117; 48; 25; 139; 25; 3; 132; 25; 128; 48; 128; 25; 128; 48; 152; 25;
   136; 48; 131; 56; 129; 49; 135; 25; 131; 48; 131; 25; 0; 213; 54; 1; 129; 56; 129; 25; 130; 54;
   128; 25; 217; 62; 129; 25; 130; 62; 4; 170; 13; 0; 221; 49; 0; 143; 25; 159; 13; 163; 25; 11;
   143; 62; 158; 49; 0; 191; 25; 158; 49; 208; 25; 174; 62; 128; 25; 215; 62; 224; 71; 25; 240; 9;
   95; 48; 191; 25; 240; 65; 159; 48; 228; 44; 162; 2; 182; 162; 8; 175; 76; 224; 203; 157; 19;
   223; 29; 215; 8; 7; 161; 25; 224; 5; 71; 130; 25; 191; 71; 4; 129; 71; 0; 128; 71; 0; 132; 71;
   23; 141; 71; 172; 138; 2; 137; 25; 5; 183; 122; 7; 197; 128; 7; 139; 128; 5; 159; 32; 173; 64;
   128; 25; 128; 64; 163; 125; 10; 128; 125; 156; 49; 2; 205; 59; 0; 128; 25; 137; 59; 3; 129; 59;
   158; 96; 0; 182; 22; 8; 141; 22; 1; 137; 22; 1; 131; 22; 159; 96; 194; 144; 23; 132; 144; 150;
   87; 9; 133; 39; 1; 133; 39; 1; 133; 39; 8; 134; 39; 0; 134; 39; 0; 170; 71; 128; 25; 136; 71;
   128; 44; 131; 71; 129; 25; 3; 207; 23; 173; 87; 1; 137; 87; 5; 240; 27; 67; 49; 11; 150; 49; 3;
   176; 49; 112; 16; 163; 225; 13; 48; 1; 224; 9; 48; 37; 134; 71; 11; 132; 5; 4; 153; 53; 0; 132;
   53; 0; 128; 53; 0; 129; 53; 0; 129; 53; 0; 137; 53; 224; 18; 4; 15; 225; 10; 4; 129; 25; 207; 4;
   1; 181; 4; 6; 128; 4; 31; 143; 4; 143; 56; 137; 25; 5; 141; 56; 129; 29; 162; 25; 0; 146; 25; 0;
   131; 25; 3; 132; 4; 0; 224; 38; 4; 1; 128; 25; 0; 159; 25; 153; 71; 133; 25; 153; 71; 138; 25;
   137; 62; 128; 25; 172; 62; 129; 25; 158; 49; 2; 133; 49; 1; 133; 49; 1; 133; 49; 1; 130; 49; 2;
   134; 25; 0; 134; 25; 9; 132; 25; 1; 139; 75; 0; 153; 75; 0; 146; 75; 0; 129; 75; 0; 142; 75; 1;
   141; 75; 33; 224; 26; 75; 4; 130; 25; 3; 172; 25; 2; 136; 25; 206; 44; 0; 140; 25; 2; 128; 44;
   46; 172; 25; 128; 56; 96; 33; 156; 77; 2; 176; 19; 14; 128; 56; 154; 25; 3; 163; 108; 8; 130;
   108; 154; 42; 4; 170; 110; 4; 157; 156; 0; 128; 156; 163; 111; 3; 141; 111; 41; 207; 31; 175;
   130; 157; 118; 1; 137; 118; 5; 163; 117; 3; 163; 117; 3; 167; 37; 7; 179; 20; 10; 128; 20; 138;
   158; 0; 142; 158; 0; 134; 158; 0; 129; 158; 0; 138; 158; 0; 142; 158; 0; 134; 158; 0; 129; 158;
   66; 224; 214; 74; 8; 149; 74; 9; 135; 74; 23; 133; 71; 0; 169; 71; 0; 136; 71; 68; 133; 28; 1;
   128; 28; 0; 171; 28; 0; 129; 28; 2; 128; 28; 1; 128; 28; 149; 55; 0; 136; 55; 159; 120; 158; 97;
   7; 136; 97; 47; 146; 52; 0; 129; 52; 4; 132; 52; 155; 123; 2; 128; 123; 153; 78; 4; 128; 78; 63;
   159; 90; 151; 89; 3; 147; 89; 1; 173; 89; 131; 65; 0; 129; 65; 4; 135; 65; 0; 130; 65; 0; 156;
   65; 1; 130; 65; 3; 137; 65; 6; 136; 65; 6; 159; 113; 159; 109; 31; 166; 83; 3; 139; 83; 8; 181;
   6; 2; 134; 6; 149; 58; 1; 135; 58; 146; 57; 4; 135; 57; 145; 124; 6; 131; 124; 11; 134; 124; 79;
   200; 114; 54; 178; 107; 12; 178; 107; 6; 133; 107; 167; 50; 7; 137; 50; 96; 197; 158; 4; 0; 169;
   161; 0; 130; 161; 1; 129; 161; 74; 130; 4; 167; 112; 7; 169; 134; 21; 153; 115; 37; 155; 24; 19;
   150; 38; 8; 205; 14; 3; 163; 14; 8; 128; 14; 194; 60; 9; 128; 60; 1; 152; 135; 6; 137; 135; 5;
   180; 21; 0; 145; 21; 7; 166; 80; 8; 223; 129; 0; 147; 133; 10; 145; 67; 0; 174; 67; 61; 134; 95;
   0; 128; 95; 0; 131; 95; 0; 142; 95; 0; 138; 95; 5; 186; 69; 4; 137; 69; 5; 131; 43; 0; 135; 43;
   1; 129; 43; 1; 149; 43; 0; 134; 43; 0; 129; 43; 0; 132; 43; 0; 128; 56; 136; 43; 1; 129; 43; 1;
   130; 43; 1; 128; 43; 5; 128; 43; 4; 134; 43; 1; 134; 43; 2; 132; 43; 96; 42; 219; 101; 0; 132;
   101; 29; 199; 153; 7; 137; 153; 96; 69; 181; 131; 1; 165; 131; 33; 196; 92; 10; 137; 92; 5; 140;
   93; 18; 185; 145; 5; 137; 145; 53; 154; 2; 1; 142; 2; 3; 150; 2; 96; 88; 187; 34; 96; 3; 210;
   160; 11; 128; 160; 134; 33; 1; 128; 33; 1; 135; 33; 0; 129; 33; 0; 157; 33; 0; 129; 33; 1; 139;
   33; 8; 137; 33; 69; 135; 99; 1; 173; 99; 1; 138; 99; 26; 199; 163; 7; 210; 136; 12; 143; 18;
   184; 121; 6; 137; 32; 96; 149; 136; 12; 0; 172; 12; 0; 141; 12; 9; 156; 12; 2; 159; 84; 1; 149;
   84; 0; 141; 84; 72; 134; 85; 0; 129; 85; 0; 171; 85; 2; 128; 85; 0; 129; 85; 0; 136; 85; 7; 137;
   85; 5; 133; 46; 0; 129; 46; 0; 164; 46; 0; 129; 46; 0; 133; 46; 6; 137; 46; 96; 213; 152; 79; 6;
   144; 63; 0; 168; 63; 2; 155; 63; 85; 128; 76; 14; 177; 146; 12; 128; 146; 227; 57; 27; 96; 5;
   224; 14; 27; 0; 132; 27; 10; 224; 99; 27; 105; 235; 224; 2; 30; 12; 227; 245; 36; 111; 73; 225;
   230; 3; 112; 17; 88; 225; 216; 8; 6; 158; 94; 0; 137; 94; 3; 129; 94; 206; 154; 0; 137; 154; 5;
   157; 9; 1; 133; 9; 9; 197; 119; 9; 137; 119; 0; 134; 119; 0; 148; 119; 4; 146; 119; 98; 79; 218;
   86; 96; 4; 202; 91; 3; 184; 91; 6; 144; 91; 63; 128; 147; 128; 103; 129; 48; 128; 68; 10; 129;
   48; 13; 240; 7; 151; 147; 7; 226; 159; 147; 225; 117; 68; 41; 136; 147; 112; 18; 134; 131; 62;
   0; 134; 62; 0; 129; 62; 0; 128; 62; 224; 190; 54; 130; 62; 14; 128; 54; 28; 130; 54; 1; 128; 62;
   13; 131; 62; 7; 225; 43; 103; 104; 163; 224; 10; 35; 4; 140; 35; 2; 136; 35; 6; 137; 35; 1; 131;
   35; 131; 25; 112; 1; 251; 173; 56; 1; 150; 56; 8; 224; 19; 25; 59; 224; 149; 25; 9; 166; 25; 1;
   189; 25; 130; 56; 144; 25; 135; 56; 129; 25; 134; 56; 157; 25; 131; 56; 188; 25; 20; 197; 44;
   96; 25; 147; 25; 11; 147; 25; 11; 214; 25; 8; 152; 25; 96; 38; 212; 25; 0; 198; 25; 0; 129; 25;
   1; 128; 25; 1; 129; 25; 1; 131; 25; 0; 139; 25; 0; 128; 25; 0; 134; 25; 0; 192; 25; 0; 131; 25;
   1; 135; 25; 0; 134; 25; 0; 155; 25; 0; 131; 25; 0; 132; 25; 0; 128; 25; 2; 134; 25; 0; 224; 243;
   25; 1; 224; 195; 25; 1; 177; 25; 226; 43; 132; 14; 132; 132; 0; 142; 132; 99; 239; 158; 71; 5;
   133; 71; 96; 116; 134; 41; 0; 144; 41; 1; 134; 41; 0; 129; 41; 0; 132; 41; 4; 189; 29; 32; 128;
   29; 96; 15; 172; 104; 2; 141; 104; 1; 137; 104; 3; 129; 104; 96; 223; 158; 155; 16; 185; 159; 4;
   128; 159; 97; 111; 169; 98; 98; 133; 134; 39; 0; 131; 39; 0; 129; 39; 0; 142; 39; 0; 224; 100;
   88; 1; 143; 88; 40; 203; 1; 3; 137; 1; 3; 129; 1; 98; 176; 195; 25; 75; 188; 25; 96; 97; 131; 4;
   0; 154; 4; 0; 129; 4; 0; 128; 4; 1; 128; 4; 0; 137; 4; 0; 131; 4; 0; 128; 4; 0; 128; 4; 5; 128;
   4; 3; 128; 4; 0; 128; 4; 0; 128; 4; 0; 130; 4; 0; 129; 4; 0; 128; 4; 1; 128; 4; 0; 128; 4; 0;
   128; 4; 0; 128; 4; 0; 128; 4; 0; 129; 4; 0; 128; 4; 1; 131; 4; 0; 134; 4; 0; 131; 4; 0; 131; 4;
   0; 128; 4; 0; 137; 4; 0; 144; 4; 4; 130; 4; 0; 132; 4; 0; 144; 4; 51; 129; 4; 96; 173; 171; 25;
   3; 224; 3; 25; 11; 142; 25; 1; 142; 25; 0; 142; 25; 0; 164; 25; 9; 224; 77; 25; 55; 153; 25;
   128; 54; 129; 25; 12; 171; 25; 3; 136; 25; 6; 129; 25; 13; 133; 25; 96; 57; 227; 119; 25; 3;
   144; 25; 2; 140; 25; 2; 224; 22; 25; 3; 222; 25; 5; 139; 25; 3; 128; 25; 14; 139; 25; 3; 183;
   25; 7; 137; 25; 5; 167; 25; 7; 157; 25; 1; 129; 25; 77; 224; 243; 25; 11; 141; 25; 1; 140; 25;
   2; 136; 25; 6; 173; 25; 0; 134; 25; 7; 141; 25; 3; 136; 25; 6; 136; 25; 6; 224; 50; 25; 0; 182;
   25; 36; 137; 25; 99; 165; 240; 150; 127; 48; 31; 239; 217; 48; 5; 224; 125; 48; 1; 240; 6; 33;
   48; 13; 240; 12; 208; 48; 107; 190; 225; 189; 48; 101; 129; 240; 2; 234; 48; 4; 239; 255; 48;
   122; 203; 240; 128; 25; 29; 223; 25; 96; 31; 224; 143; 56].
Definition unicode_script_ext_table : list Z :=
  [130; 193; 0; 0; 1; 44; 1; 0; 0; 1; 44; 28; 0; 12; 1; 71; 128; 146; 0; 0; 2; 29; 110; 0; 2; 29;
   41; 1; 2; 29; 71; 0; 2; 29; 41; 129; 3; 0; 0; 6; 4; 102; 50; 139; 149; 161; 13; 0; 0; 6; 4; 102;
   50; 139; 149; 161; 0; 3; 4; 139; 149; 1; 0; 0; 7; 1; 4; 102; 50; 139; 149; 161; 31; 0; 0; 9; 1;
   4; 82; 83; 115; 124; 50; 134; 139; 9; 0; 10; 2; 4; 139; 9; 0; 9; 3; 4; 149; 161; 5; 0; 0; 2; 4;
   139; 98; 0; 0; 2; 4; 50; 129; 251; 0; 0; 13; 11; 32; 43; 45; 47; 61; 71; 81; 116; 129; 146; 148;
   153; 0; 12; 11; 32; 43; 45; 47; 61; 71; 81; 116; 146; 148; 153; 16; 0; 0; 20; 11; 32; 34; 46;
   85; 43; 45; 47; 61; 80; 81; 99; 116; 69; 133; 138; 145; 146; 148; 153; 0; 21; 11; 32; 34; 46;
   85; 43; 45; 47; 61; 73; 80; 81; 99; 116; 69; 133; 138; 145; 146; 148; 153; 9; 4; 32; 34; 60; 80;
   117; 0; 9; 3; 11; 21; 138; 117; 0; 9; 2; 47; 95; 117; 0; 9; 2; 45; 67; 128; 117; 0; 13; 2; 43;
   146; 128; 113; 0; 9; 2; 61; 99; 130; 207; 0; 9; 3; 21; 96; 142; 128; 48; 0; 0; 2; 40; 71; 133;
   184; 0; 1; 4; 17; 51; 141; 140; 128; 74; 0; 1; 2; 93; 122; 0; 0; 0; 2; 93; 122; 132; 73; 0; 0;
   4; 11; 32; 43; 61; 0; 1; 32; 0; 4; 11; 32; 43; 61; 0; 2; 32; 43; 0; 1; 32; 1; 2; 11; 32; 0; 2;
   32; 129; 0; 2; 11; 32; 0; 2; 32; 129; 0; 6; 32; 61; 81; 116; 146; 148; 0; 1; 32; 1; 2; 32; 129;
   1; 1; 32; 0; 2; 32; 129; 0; 2; 11; 32; 6; 1; 32; 0; 2; 32; 99; 0; 2; 11; 32; 1; 1; 32; 0; 2; 11;
   32; 3; 1; 32; 0; 8; 11; 32; 43; 61; 99; 116; 148; 153; 0; 2; 32; 43; 0; 3; 32; 43; 61; 1; 2; 11;
   32; 0; 1; 11; 1; 2; 32; 43; 0; 1; 99; 128; 68; 0; 1; 1; 44; 53; 0; 0; 2; 29; 139; 0; 0; 0; 1;
   139; 129; 179; 0; 0; 2; 71; 93; 128; 63; 0; 0; 3; 32; 43; 71; 140; 209; 0; 0; 2; 29; 41; 129;
   60; 0; 1; 6; 13; 49; 48; 54; 62; 162; 0; 5; 13; 49; 48; 54; 62; 1; 0; 0; 1; 48; 0; 0; 9; 6; 13;
   49; 48; 54; 62; 162; 0; 0; 0; 5; 13; 49; 48; 54; 62; 7; 6; 13; 49; 48; 54; 62; 162; 3; 5; 13;
   49; 48; 54; 62; 9; 0; 3; 2; 13; 48; 1; 0; 0; 5; 13; 49; 48; 54; 62; 4; 2; 54; 62; 0; 0; 0; 5;
   13; 49; 48; 54; 62; 3; 0; 1; 3; 48; 54; 62; 1; 1; 48; 88; 0; 3; 2; 54; 62; 2; 0; 0; 2; 54; 62;
   89; 0; 0; 6; 13; 49; 48; 54; 62; 162; 0; 2; 54; 62; 128; 18; 0; 15; 1; 48; 31; 0; 35; 1; 48; 59;
   0; 39; 1; 48; 55; 0; 48; 1; 48; 14; 0; 11; 1; 48; 50; 0; 0; 1; 48; 87; 0; 24; 1; 48; 9; 0; 4; 1;
   48; 95; 0; 30; 1; 48; 192; 49; 239; 0; 0; 2; 29; 41; 128; 15; 0; 7; 2; 48; 71; 128; 167; 0; 2;
   14; 32; 34; 45; 47; 67; 61; 60; 80; 81; 92; 99; 69; 145; 153; 2; 13; 32; 34; 45; 47; 67; 61; 60;
   80; 92; 99; 69; 145; 153; 3; 11; 32; 34; 45; 47; 67; 60; 80; 92; 69; 145; 153; 128; 54; 0; 0; 2;
   11; 32; 0; 0; 0; 2; 32; 146; 57; 0; 0; 3; 64; 71; 96; 128; 31; 0; 0; 2; 16; 59; 192; 18; 237; 0;
   1; 2; 4; 102; 128; 49; 0; 0; 2; 4; 149; 9; 0; 0; 2; 4; 149; 70; 0; 1; 5; 13; 49; 48; 54; 62;
   128; 153; 0; 4; 6; 13; 49; 48; 54; 62; 162; 9; 0; 0; 2; 54; 62; 44; 0; 1; 2; 54; 62; 128; 223;
   0; 1; 3; 30; 28; 75; 0; 2; 28; 75; 3; 0; 44; 3; 28; 74; 75; 2; 0; 8; 2; 28; 75; 129; 31; 0; 27;
   2; 4; 26; 135; 117; 0; 0; 2; 83; 115; 135; 141; 0; 0; 2; 43; 146; 0; 0; 0; 2; 43; 146; 54; 0; 1;
   2; 43; 146; 140; 18; 0; 1; 2; 43; 146; 0; 0; 0; 2; 43; 146; 192; 92; 75; 0; 3; 1; 35; 150; 59;
   0; 17; 1; 48; 158; 93; 0; 1; 1; 48; 206; 205; 45; 0].

(** ** Properties *)
Definition unicode_prop_Hyphen_table : list Z :=
  [172; 128; 254; 128; 68; 219; 128; 82; 122; 128; 72; 8; 129; 78; 4; 128; 66; 226; 128; 96; 205;
   102; 128; 64; 168; 128; 214; 128].
Definition unicode_prop_Other_Math_table : list Z :=
  [221; 128; 67; 112; 17; 128; 153; 9; 129; 92; 31; 128; 154; 130; 138; 128; 159; 131; 151; 129;
   141; 129; 192; 140; 24; 17; 28; 145; 3; 1; 137; 0; 20; 40; 17; 9; 2; 5; 19; 36; 202; 33; 24; 8;
   8; 0; 33; 11; 11; 145; 9; 0; 6; 0; 41; 65; 33; 131; 64; 167; 8; 128; 151; 128; 144; 128; 65;
   188; 129; 139; 136; 36; 33; 9; 20; 141; 0; 1; 133; 151; 129; 184; 0; 128; 156; 131; 136; 129;
   65; 85; 129; 158; 137; 65; 146; 149; 190; 131; 159; 129; 96; 212; 98; 0; 3; 128; 64; 210; 0;
   128; 96; 212; 192; 212; 128; 198; 1; 8; 9; 11; 128; 139; 0; 6; 128; 192; 3; 15; 6; 128; 155; 3;
   4; 0; 22; 128; 65; 83; 129; 152; 128; 152; 128; 158; 128; 152; 128; 158; 128; 152; 128; 158;
   128; 152; 128; 158; 128; 152; 7; 129; 177; 85; 255; 24; 154; 1; 0; 8; 128; 137; 3; 0; 0; 40; 24;
   0; 0; 2; 1; 0; 8; 0; 0; 0; 0; 1; 0; 11; 6; 3; 3; 0; 128; 137; 128; 144; 34; 4; 128; 144].
Definition unicode_prop_Other_Alphabetic_table : list Z :=
  [67; 68; 128; 66; 105; 141; 0; 1; 1; 0; 199; 138; 175; 140; 6; 143; 128; 228; 51; 25; 11; 128;
   162; 128; 157; 143; 229; 138; 228; 10; 136; 2; 3; 64; 166; 139; 22; 133; 147; 181; 9; 142; 1;
   34; 137; 129; 156; 130; 185; 49; 9; 129; 137; 128; 137; 129; 156; 130; 185; 35; 9; 11; 128; 157;
   10; 128; 138; 130; 185; 56; 16; 129; 148; 129; 149; 19; 130; 185; 49; 9; 129; 136; 129; 137;
   129; 157; 128; 186; 34; 16; 130; 137; 128; 167; 132; 184; 48; 16; 23; 129; 138; 129; 156; 130;
   185; 48; 16; 23; 129; 138; 129; 142; 128; 139; 131; 185; 48; 16; 130; 137; 128; 137; 129; 156;
   130; 202; 40; 0; 135; 145; 129; 188; 1; 134; 145; 128; 226; 1; 40; 129; 143; 128; 64; 162; 146;
   136; 138; 128; 163; 237; 139; 0; 11; 150; 27; 16; 17; 50; 131; 140; 139; 0; 137; 131; 70; 115;
   129; 157; 129; 157; 129; 157; 129; 193; 146; 64; 187; 129; 161; 128; 245; 139; 131; 136; 64;
   221; 132; 184; 137; 129; 147; 201; 129; 138; 130; 176; 132; 175; 142; 187; 130; 157; 136; 9;
   184; 138; 177; 146; 65; 175; 141; 70; 192; 179; 72; 245; 159; 96; 120; 115; 135; 161; 129; 65;
   97; 7; 128; 150; 132; 215; 129; 177; 143; 0; 184; 128; 165; 132; 155; 139; 172; 131; 175; 139;
   164; 128; 194; 141; 139; 7; 129; 172; 130; 177; 0; 17; 12; 128; 171; 36; 128; 64; 236; 135; 96;
   79; 50; 128; 72; 86; 132; 70; 133; 16; 12; 131; 67; 19; 131; 65; 130; 129; 65; 82; 130; 180;
   141; 172; 129; 138; 130; 172; 136; 136; 128; 188; 130; 163; 139; 145; 129; 184; 130; 175; 140;
   141; 129; 219; 136; 8; 40; 8; 64; 156; 137; 150; 131; 185; 49; 9; 129; 137; 128; 137; 129; 64;
   208; 140; 2; 233; 145; 64; 236; 49; 134; 156; 129; 209; 142; 0; 233; 138; 230; 141; 65; 0; 140;
   64; 246; 40; 9; 10; 0; 128; 64; 141; 49; 43; 128; 155; 137; 169; 32; 131; 145; 138; 173; 141;
   65; 150; 56; 134; 210; 149; 128; 141; 249; 42; 0; 8; 16; 2; 128; 193; 32; 8; 131; 65; 91; 131;
   136; 8; 128; 175; 50; 130; 96; 80; 13; 0; 182; 51; 220; 129; 96; 76; 171; 128; 96; 35; 96; 48;
   144; 14; 1; 4; 227; 128; 72; 182; 128; 71; 231; 153; 133; 153; 133; 153].
Definition unicode_prop_Other_Lowercase_table : list Z :=
  [64; 169; 128; 142; 128; 65; 244; 136; 49; 157; 132; 223; 128; 179; 128; 77; 128; 128; 76; 46;
   190; 140; 128; 161; 164; 66; 176; 128; 140; 128; 143; 140; 64; 210; 143; 67; 79; 153; 71; 145;
   129; 96; 122; 29; 129; 64; 209; 128; 64; 128; 18; 129; 67; 97; 131; 136; 128; 96; 92; 21; 1; 16;
   169; 128; 136; 96; 216; 116; 189].
Definition unicode_prop_Other_Uppercase_table : list Z :=
  [96; 33; 95; 143; 67; 69; 153; 97; 204; 95; 153; 133; 153; 133; 153].
Definition unicode_prop_Other_Grapheme_Extend_table : list Z :=
  [73; 189; 128; 151; 128; 65; 101; 128; 151; 128; 229; 128; 151; 128; 64; 233; 128; 145; 129; 230;
   128; 151; 128; 246; 128; 142; 128; 77; 84; 128; 68; 213; 128; 80; 32; 129; 96; 207; 109; 129;
   83; 157; 128; 151; 128; 65; 87; 128; 139; 128; 64; 240; 128; 67; 127; 128; 96; 184; 51; 7; 132;
   108; 46; 172; 223].
Definition unicode_prop_Other_Default_Ignorable_Code_Point_table : list Z :=
  [67; 78; 128; 78; 14; 129; 70; 82; 129; 72; 174; 128; 80; 253; 128; 96; 206; 58; 128; 206; 136;
   109; 0; 6; 0; 157; 223; 255; 64; 239; 78; 15].
Definition unicode_prop_Other_ID_Start_table : list Z :=
  [88; 132; 129; 72; 144; 128; 148; 128; 79; 107; 129].
Definition unicode_prop_Other_ID_Continue_table : list Z :=
  [64; 182; 128; 66; 206; 128; 79; 224; 136; 70; 103; 128].
Definition unicode_prop_Prepended_Concatenation_Mark_table : list Z :=
  [69; 255; 133; 64; 214; 128; 176; 128; 65; 127; 129; 207; 128; 97; 7; 217; 128; 142; 128].
Definition unicode_prop_XID_Start1_table : list Z :=
  [67; 121; 128; 74; 183; 128; 254; 128; 96; 33; 230; 129; 96; 203; 192; 133; 65; 149; 129; 243; 0;
   0; 0; 0; 0; 0; 0; 128; 65; 30; 129].
Definition unicode_prop_XID_Continue1_table : list Z :=
  [67; 121; 128; 96; 45; 31; 129; 96; 203; 192; 133; 65; 149; 129; 243; 0; 0; 0; 0; 0; 0; 0; 128].
Definition unicode_prop_Changes_When_Titlecased1_table : list Z :=
  [65; 195; 8; 8; 129; 164; 129; 78; 220; 170; 10; 78; 135; 63; 63; 135; 139; 128; 142; 128; 174;
   128].
Definition unicode_prop_Changes_When_Casefolded1_table : list Z :=
  [65; 239; 128; 65; 158; 128; 158; 128; 90; 228; 131; 64; 181; 0; 0; 0; 128; 222; 6; 6; 128; 138;
   9; 129; 137; 16; 129; 141; 128].
Definition unicode_prop_Changes_When_NFKC_Casefolded1_table : list Z :=
  [64; 159; 6; 0; 1; 0; 1; 18; 16; 130; 243; 128; 139; 128; 64; 132; 1; 1; 128; 162; 1; 128; 64;
   187; 136; 158; 41; 132; 218; 8; 129; 137; 128; 163; 4; 2; 4; 8; 7; 128; 158; 128; 160; 130; 156;
   128; 66; 40; 128; 215; 131; 66; 222; 135; 251; 8; 128; 210; 1; 128; 161; 17; 128; 64; 252; 129;
   66; 212; 128; 254; 128; 167; 129; 173; 128; 181; 128; 136; 3; 3; 3; 128; 139; 128; 136; 0; 38;
   128; 144; 128; 136; 3; 3; 3; 128; 139; 128; 65; 65; 128; 225; 129; 70; 82; 129; 212; 132; 69;
   27; 16; 138; 128; 145; 128; 155; 140; 128; 161; 164; 64; 213; 131; 64; 181; 0; 0; 0; 128; 153;
   0; 0; 0; 0; 0; 0; 128; 183; 5; 0; 19; 5; 17; 2; 12; 17; 0; 0; 12; 21; 5; 8; 143; 0; 32; 139; 18;
   42; 8; 11; 0; 7; 130; 140; 6; 146; 129; 154; 128; 140; 138; 128; 214; 24; 16; 138; 1; 12; 10; 0;
   16; 17; 2; 6; 5; 28; 133; 143; 143; 143; 136; 128; 64; 161; 8; 129; 64; 247; 129; 65; 52; 213;
   153; 154; 69; 32; 128; 230; 130; 228; 128; 65; 158; 129; 64; 240; 128; 65; 46; 128; 210; 128;
   139; 64; 213; 169; 128; 180; 0; 130; 223; 9; 128; 222; 128; 176; 221; 130; 141; 223; 158; 128;
   167; 135; 174; 128; 65; 127; 96; 114; 155; 129; 64; 209; 128; 64; 128; 18; 129; 67; 97; 131;
   136; 128; 96; 77; 149; 65; 13; 8; 0; 129; 137; 0; 0; 9; 130; 195; 129; 233; 194; 0; 151; 4; 0;
   1; 1; 128; 235; 160; 65; 106; 145; 191; 129; 181; 167; 140; 130; 153; 149; 148; 129; 139; 128;
   146; 3; 26; 0; 128; 64; 134; 8; 128; 159; 153; 64; 131; 21; 13; 13; 10; 22; 6; 128; 136; 71;
   135; 32; 169; 128; 136; 96; 180; 228; 131; 84; 185; 134; 141; 135; 191; 133; 66; 62; 212; 128;
   198; 1; 8; 9; 11; 128; 139; 0; 6; 128; 192; 3; 15; 6; 128; 155; 3; 4; 0; 22; 128; 65; 83; 129;
   65; 35; 129; 177; 72; 47; 189; 77; 145; 24; 154; 1; 0; 8; 128; 137; 3; 0; 0; 40; 24; 0; 0; 2; 1;
   0; 8; 0; 0; 0; 0; 1; 0; 11; 6; 3; 3; 0; 128; 137; 128; 144; 34; 4; 128; 144; 66; 67; 138; 132;
   158; 128; 159; 153; 130; 162; 128; 238; 130; 140; 171; 131; 136; 49; 73; 157; 137; 96; 252; 5;
   66; 29; 107; 5; 225; 79; 255].
Definition unicode_prop_ASCII_Hex_Digit_table : list Z :=
  [175; 137; 53; 153; 133].
Definition unicode_prop_Bidi_Control_table : list Z :=
  [70; 27; 128; 89; 240; 129; 153; 132; 182; 131].
Definition unicode_prop_Dash_table : list Z :=
  [172; 128; 69; 91; 128; 178; 128; 78; 64; 128; 68; 4; 128; 72; 8; 133; 188; 128; 166; 128; 142;
   128; 65; 133; 128; 76; 3; 1; 128; 158; 11; 128; 155; 128; 65; 189; 128; 146; 128; 238; 128; 96;
   205; 143; 129; 164; 128; 137; 128; 64; 168; 128; 79; 158; 128].
Definition unicode_prop_Deprecated_table : list Z :=
  [65; 72; 128; 69; 40; 128; 73; 2; 0; 128; 72; 40; 129; 72; 196; 133; 66; 184; 129; 109; 220; 213;
   128].
Definition unicode_prop_Diacritic_table : list Z :=
  [221; 0; 128; 198; 5; 3; 1; 129; 65; 246; 64; 158; 7; 37; 144; 11; 128; 136; 129; 64; 252; 132;
   64; 208; 128; 182; 144; 128; 154; 0; 1; 0; 64; 133; 59; 129; 64; 133; 11; 10; 130; 194; 154;
   218; 138; 185; 138; 161; 129; 253; 135; 168; 137; 143; 155; 188; 128; 143; 2; 131; 155; 128;
   201; 128; 143; 128; 237; 128; 143; 128; 237; 128; 143; 128; 174; 130; 187; 128; 143; 6; 128;
   246; 128; 237; 128; 143; 128; 237; 128; 143; 128; 236; 129; 143; 128; 251; 128; 251; 40; 128;
   234; 128; 140; 132; 202; 129; 154; 0; 0; 3; 129; 193; 16; 129; 189; 128; 239; 0; 129; 167; 11;
   132; 152; 48; 128; 137; 129; 66; 192; 130; 67; 179; 129; 64; 178; 138; 136; 128; 65; 90; 130;
   65; 56; 57; 128; 175; 142; 129; 138; 231; 128; 142; 128; 165; 136; 181; 129; 64; 137; 129; 191;
   133; 209; 152; 24; 40; 10; 177; 190; 216; 139; 164; 138; 65; 188; 0; 130; 138; 130; 140; 130;
   140; 130; 140; 129; 76; 239; 130; 65; 60; 128; 65; 249; 133; 232; 131; 222; 128; 96; 117; 113;
   128; 139; 8; 128; 155; 129; 209; 129; 141; 161; 229; 130; 236; 129; 64; 201; 128; 154; 145; 184;
   131; 163; 128; 222; 128; 139; 128; 163; 128; 64; 148; 130; 192; 131; 178; 128; 227; 132; 136;
   130; 255; 129; 96; 79; 47; 128; 67; 0; 143; 65; 13; 0; 128; 174; 128; 172; 129; 194; 128; 66;
   251; 128; 68; 158; 40; 169; 128; 136; 67; 41; 129; 66; 58; 133; 65; 212; 130; 197; 138; 176;
   131; 64; 191; 128; 168; 128; 199; 129; 247; 129; 189; 128; 203; 128; 136; 130; 231; 129; 64;
   177; 129; 208; 128; 143; 128; 151; 50; 132; 64; 204; 2; 128; 250; 129; 64; 250; 129; 253; 128;
   245; 129; 242; 128; 65; 12; 129; 65; 1; 11; 128; 64; 155; 128; 210; 128; 145; 128; 208; 128; 65;
   164; 128; 65; 1; 0; 129; 208; 128; 86; 174; 142; 96; 54; 153; 132; 186; 134; 68; 87; 144; 207;
   129; 96; 63; 253; 24; 48; 129; 95; 0; 173; 129; 150; 66; 31; 18; 47; 57; 134; 157; 131; 78; 129;
   189; 64; 193; 134; 65; 118; 128; 188; 131; 69; 223; 134; 236; 16; 130].
Definition unicode_prop_Extender_table : list Z :=
  [64; 182; 128; 66; 23; 129; 67; 109; 128; 65; 184; 128; 67; 89; 128; 66; 239; 128; 254; 128; 73;
   66; 128; 183; 128; 66; 98; 128; 65; 141; 128; 195; 128; 83; 136; 128; 170; 132; 230; 129; 220;
   130; 96; 111; 21; 128; 69; 245; 128; 67; 193; 128; 149; 128; 64; 136; 128; 235; 128; 148; 129;
   96; 84; 122; 128; 72; 15; 129; 75; 217; 128; 66; 103; 130; 68; 206; 128; 96; 80; 168; 129; 68;
   155; 8; 128; 96; 113; 87; 129; 72; 5; 130].
Definition unicode_prop_Hex_Digit_table : list Z :=
  [175; 137; 53; 153; 133; 96; 254; 168; 137; 53; 153; 133].
Definition unicode_prop_IDS_Binary_Operator_table : list Z :=
  [96; 47; 239; 9; 135].
Definition unicode_prop_IDS_Trinary_Operator_table : list Z :=
  [96; 47; 241; 129].
Definition unicode_prop_Ideographic_table : list Z :=
  [96; 48; 5; 129; 152; 136; 141; 130; 67; 196; 89; 191; 191; 96; 81; 255; 96; 88; 255; 65; 109;
   129; 233; 96; 117; 9; 128; 154; 87; 247; 135; 68; 213; 169; 136; 96; 36; 102; 65; 139; 96; 77;
   3; 96; 166; 223; 159; 80; 57; 133; 64; 221; 129; 86; 129; 141; 93; 48; 76; 30; 66; 29; 69; 225;
   83; 74; 132; 80; 95].
Definition unicode_prop_Join_Control_table : list Z :=
  [96; 32; 11; 129].
Definition unicode_prop_Logical_Order_Exception_table : list Z :=
  [78; 63; 132; 250; 132; 74; 239; 17; 128; 96; 144; 249; 9; 0; 129].
Definition unicode_prop_Noncharacter_Code_Point_table : list Z :=
  [96; 253; 207; 159; 66; 13; 129; 96; 255; 253; 129; 96; 255; 253; 129; 96; 255; 253; 129; 96;
   255; 253; 129; 96; 255; 253; 129; 96; 255; 253; 129; 96; 255; 253; 129; 96; 255; 253; 129; 96;
   255; 253; 129; 96; 255; 253; 129; 96; 255; 253; 129; 96; 255; 253; 129; 96; 255; 253; 129; 96;
   255; 253; 129; 96; 255; 253; 129; 96; 255; 253; 129].
Definition unicode_prop_Pattern_Syntax_table : list Z :=
  [160; 142; 137; 134; 153; 24; 128; 153; 131; 161; 48; 0; 8; 0; 11; 3; 2; 128; 150; 128; 158; 128;
   95; 23; 151; 135; 142; 129; 146; 128; 137; 65; 48; 66; 207; 64; 159; 66; 117; 157; 68; 107; 65;
   255; 255; 65; 128; 19; 152; 142; 128; 96; 205; 12; 129; 65; 4; 129].
Definition unicode_prop_Pattern_White_Space_table : list Z :=
  [136; 132; 145; 128; 227; 128; 95; 135; 129; 151; 129].
Definition unicode_prop_Quotation_Mark_table : list Z :=
  [161; 3; 128; 64; 130; 128; 142; 128; 95; 91; 135; 152; 129; 78; 6; 128; 65; 200; 131; 140; 130;
   96; 206; 32; 131; 64; 188; 3; 128; 217; 129].
Definition unicode_prop_Radical_table : list Z :=
  [96; 46; 127; 153; 128; 216; 139; 64; 213].
Definition unicode_prop_Regional_Indicator_table : list Z :=
  [97; 241; 229; 153].
Definition unicode_prop_Sentence_Terminal_table : list Z :=
  [160; 128; 139; 128; 143; 128; 69; 72; 128; 64; 146; 130; 64; 179; 128; 170; 130; 64; 245; 128;
   188; 0; 2; 129; 65; 36; 129; 70; 227; 129; 67; 21; 3; 129; 67; 4; 128; 64; 197; 129; 64; 203; 4;
   128; 65; 57; 129; 65; 97; 131; 64; 173; 9; 129; 156; 129; 64; 187; 129; 192; 129; 67; 187; 129;
   136; 130; 77; 227; 128; 140; 128; 149; 129; 65; 172; 128; 96; 116; 251; 128; 65; 13; 129; 64;
   226; 2; 128; 65; 125; 129; 213; 129; 222; 128; 64; 151; 129; 64; 146; 130; 64; 143; 129; 64;
   248; 128; 96; 82; 101; 2; 129; 64; 168; 128; 139; 128; 143; 128; 192; 128; 74; 243; 129; 68;
   252; 132; 171; 131; 64; 188; 129; 244; 131; 254; 130; 64; 128; 13; 128; 143; 129; 215; 8; 129;
   235; 128; 65; 160; 129; 65; 116; 12; 142; 232; 129; 64; 248; 130; 66; 4; 0; 128; 64; 250; 129;
   214; 129; 65; 163; 129; 66; 179; 129; 201; 129; 96; 75; 40; 129; 64; 132; 128; 192; 129; 138;
   128; 67; 82; 128; 96; 78; 5; 128; 93; 231; 128].
Definition unicode_prop_Soft_Dotted_table : list Z :=
  [232; 129; 64; 195; 128; 65; 24; 128; 157; 128; 179; 128; 147; 128; 65; 63; 128; 225; 0; 128; 89;
   8; 128; 178; 128; 140; 2; 128; 64; 131; 128; 64; 156; 128; 65; 164; 128; 64; 213; 129; 75; 49;
   128; 97; 167; 164; 129; 177; 129; 177; 129; 177; 129; 177; 129; 177; 129; 177; 129; 177; 129;
   177; 129; 177; 129; 177; 129; 177; 129; 177; 129; 72; 133; 128; 65; 48; 129; 153; 128].
Definition unicode_prop_Terminal_Punctuation_table : list Z :=
  [160; 128; 137; 0; 128; 138; 10; 128; 67; 61; 7; 128; 66; 0; 128; 184; 128; 199; 128; 141; 0;
   130; 64; 179; 128; 170; 138; 0; 64; 234; 129; 181; 142; 158; 128; 65; 4; 129; 68; 243; 129; 64;
   171; 3; 133; 65; 54; 129; 67; 20; 135; 67; 4; 128; 251; 130; 198; 129; 64; 156; 18; 128; 166;
   25; 129; 65; 57; 129; 65; 97; 131; 64; 173; 8; 130; 156; 129; 64; 187; 132; 189; 129; 67; 187;
   129; 136; 130; 77; 227; 128; 140; 3; 128; 137; 0; 10; 129; 65; 171; 129; 96; 116; 250; 129; 65;
   12; 130; 64; 226; 132; 65; 125; 129; 213; 129; 222; 128; 64; 150; 130; 64; 146; 130; 254; 128;
   143; 129; 64; 248; 128; 96; 82; 99; 16; 131; 64; 168; 128; 137; 0; 128; 138; 10; 128; 192; 1;
   128; 68; 57; 128; 175; 128; 68; 133; 128; 64; 198; 128; 65; 53; 129; 64; 151; 133; 195; 133;
   216; 131; 67; 183; 132; 171; 131; 64; 188; 134; 239; 131; 254; 130; 64; 128; 13; 128; 143; 129;
   215; 132; 235; 128; 65; 160; 130; 139; 129; 65; 101; 26; 142; 232; 129; 64; 248; 130; 66; 4; 0;
   128; 64; 250; 129; 214; 11; 129; 65; 157; 130; 172; 128; 66; 132; 129; 201; 129; 69; 42; 132;
   96; 69; 248; 129; 64; 132; 128; 192; 130; 137; 128; 67; 81; 129; 96; 78; 5; 128; 93; 230; 131].
Definition unicode_prop_Unified_Ideograph_table : list Z :=
  [96; 51; 255; 89; 191; 191; 96; 81; 255; 96; 90; 13; 8; 0; 129; 137; 0; 0; 9; 130; 97; 5; 213;
   96; 166; 223; 159; 80; 57; 133; 64; 221; 129; 86; 129; 141; 93; 48; 84; 30; 83; 74; 132; 80; 95].
Definition unicode_prop_Variation_Selector_table : list Z :=
  [88; 10; 16; 128; 96; 229; 239; 143; 109; 2; 239; 64; 239].
Definition unicode_prop_White_Space_table : list Z :=
  [136; 132; 145; 128; 227; 128; 153; 128; 85; 222; 128; 73; 126; 138; 156; 12; 128; 174; 128; 79;
   159; 128].
Definition unicode_prop_Bidi_Mirrored_table : list Z :=
  [167; 129; 145; 0; 128; 155; 0; 128; 156; 0; 128; 172; 128; 142; 128; 78; 125; 131; 71; 92; 129;
   73; 155; 129; 137; 129; 181; 129; 141; 129; 64; 176; 128; 64; 191; 26; 42; 2; 10; 24; 24; 0; 3;
   136; 32; 128; 145; 35; 136; 8; 0; 57; 158; 11; 32; 136; 9; 146; 33; 136; 33; 11; 151; 129; 143;
   59; 147; 14; 129; 68; 60; 141; 201; 1; 24; 8; 20; 28; 18; 141; 65; 146; 149; 13; 128; 141; 56;
   53; 16; 28; 1; 12; 24; 2; 9; 137; 41; 129; 139; 146; 3; 8; 0; 8; 3; 33; 42; 151; 129; 138; 11;
   24; 9; 11; 170; 15; 128; 167; 32; 0; 20; 34; 24; 20; 0; 64; 255; 128; 66; 2; 26; 8; 129; 141; 9;
   137; 170; 135; 65; 170; 137; 15; 96; 206; 60; 44; 129; 64; 161; 129; 145; 0; 128; 155; 0; 128;
   156; 0; 0; 8; 129; 96; 215; 118; 128; 184; 128; 184; 128; 184; 128; 184; 128].
Definition unicode_prop_Emoji_table : list Z :=
  [162; 5; 4; 137; 238; 3; 128; 95; 140; 128; 139; 128; 64; 215; 128; 149; 128; 217; 133; 142; 129;
   65; 110; 129; 139; 128; 64; 165; 128; 152; 138; 26; 64; 198; 128; 64; 230; 129; 137; 128; 136;
   128; 185; 24; 132; 136; 1; 1; 9; 3; 1; 0; 9; 2; 2; 15; 20; 0; 4; 139; 138; 9; 0; 8; 128; 145; 1;
   129; 145; 40; 0; 10; 12; 1; 11; 129; 138; 12; 9; 4; 8; 0; 129; 147; 12; 40; 25; 3; 1; 1; 40; 1;
   0; 0; 5; 2; 5; 128; 137; 129; 142; 1; 3; 0; 3; 16; 128; 138; 129; 175; 130; 136; 128; 141; 128;
   141; 128; 65; 115; 129; 65; 206; 130; 146; 129; 178; 3; 128; 68; 217; 128; 139; 128; 66; 88; 0;
   128; 97; 189; 105; 128; 64; 201; 128; 64; 159; 129; 139; 129; 141; 1; 137; 202; 153; 1; 150;
   128; 147; 1; 136; 148; 129; 64; 173; 161; 129; 239; 9; 2; 129; 210; 10; 128; 65; 6; 128; 190;
   138; 40; 151; 49; 15; 139; 1; 25; 3; 129; 140; 9; 7; 129; 136; 4; 130; 139; 23; 17; 0; 3; 5; 2;
   5; 213; 175; 197; 39; 10; 131; 137; 16; 1; 16; 129; 137; 64; 226; 139; 24; 65; 26; 174; 128;
   137; 128; 64; 184; 239; 140; 130; 136; 134; 173; 6; 135; 141; 131; 136; 134; 136].
Definition unicode_prop_Emoji_Component_table : list Z :=
  [162; 5; 4; 137; 95; 210; 128; 64; 212; 128; 96; 221; 42; 128; 96; 243; 213; 153; 65; 250; 132;
   69; 175; 131; 108; 6; 107; 223].
Definition unicode_prop_Emoji_Modifier_table : list Z :=
  [97; 243; 250; 132].
Definition unicode_prop_Emoji_Modifier_Base_table : list Z :=
  [96; 38; 28; 128; 64; 218; 128; 143; 131; 97; 204; 118; 128; 187; 17; 1; 130; 244; 9; 138; 148;
   146; 16; 26; 2; 48; 0; 151; 128; 64; 200; 11; 128; 148; 3; 129; 64; 173; 18; 132; 210; 128; 143;
   130; 136; 128; 138; 128; 66; 62; 1; 7; 61; 128; 136; 137; 10; 183; 128; 188; 8; 8; 128; 144; 16;
   140; 64; 228; 130; 169; 136].
Definition unicode_prop_Emoji_Presentation_table : list Z :=
  [96; 35; 25; 129; 64; 204; 26; 1; 128; 66; 8; 129; 148; 129; 177; 139; 170; 128; 146; 128; 140;
   7; 129; 144; 12; 15; 4; 128; 148; 6; 8; 3; 1; 6; 3; 129; 155; 128; 162; 0; 3; 16; 128; 188; 130;
   151; 128; 141; 128; 67; 90; 129; 178; 3; 128; 97; 196; 173; 128; 64; 201; 128; 64; 189; 1; 137;
   202; 153; 0; 151; 128; 147; 1; 32; 130; 148; 129; 64; 173; 160; 139; 136; 128; 197; 128; 149;
   139; 170; 28; 139; 144; 16; 130; 198; 0; 128; 64; 186; 129; 190; 140; 24; 151; 145; 128; 153;
   129; 140; 128; 213; 212; 175; 197; 40; 18; 10; 27; 138; 14; 136; 64; 226; 139; 24; 65; 26; 174;
   128; 137; 128; 64; 184; 239; 140; 130; 136; 134; 173; 6; 135; 141; 131; 136; 134; 136].
Definition unicode_prop_Extended_Pictographic_table : list Z :=
  [64; 168; 3; 128; 95; 140; 128; 139; 128; 64; 215; 128; 149; 128; 217; 133; 142; 129; 65; 110;
   129; 139; 128; 222; 128; 197; 128; 152; 138; 26; 64; 198; 128; 64; 230; 129; 137; 128; 136; 128;
   185; 24; 40; 139; 128; 241; 137; 245; 129; 138; 0; 0; 40; 16; 40; 137; 129; 142; 1; 3; 0; 3; 16;
   128; 138; 132; 172; 130; 136; 128; 141; 128; 141; 128; 65; 115; 129; 65; 206; 130; 146; 129;
   178; 3; 128; 68; 217; 128; 139; 128; 66; 88; 0; 128; 97; 189; 101; 64; 255; 140; 130; 158; 128;
   187; 133; 139; 129; 141; 1; 137; 145; 184; 154; 142; 137; 128; 147; 1; 136; 3; 136; 65; 177;
   132; 65; 61; 135; 65; 9; 175; 255; 243; 139; 212; 170; 139; 131; 183; 135; 137; 133; 167; 135;
   157; 209; 139; 174; 128; 137; 128; 65; 184; 64; 255; 67; 253].
Definition unicode_prop_Default_Ignorable_Code_Point_table : list Z :=
  [64; 172; 128; 66; 160; 128; 66; 203; 128; 75; 65; 129; 70; 82; 129; 212; 132; 71; 250; 132; 153;
   132; 176; 143; 80; 243; 128; 96; 204; 154; 143; 64; 238; 128; 64; 159; 128; 206; 136; 96; 188;
   166; 131; 84; 206; 135; 108; 46; 132; 79; 255].
Definition UNICODE_PROP_Hyphen : Z := 0.
Definition UNICODE_PROP_Other_Math : Z := 1.
Definition UNICODE_PROP_Other_Alphabetic : Z := 2.
Definition UNICODE_PROP_Other_Lowercase : Z := 3.
Definition UNICODE_PROP_Other_Uppercase : Z := 4.
Definition UNICODE_PROP_Other_Grapheme_Extend : Z := 5.
Definition UNICODE_PROP_Other_Default_Ignorable_Code_Point : Z := 6.
Definition UNICODE_PROP_Other_ID_Start : Z := 7.
Definition UNICODE_PROP_Other_ID_Continue : Z := 8.
Definition UNICODE_PROP_Prepended_Concatenation_Mark : Z := 9.
Definition UNICODE_PROP_ID_Continue1 : Z := 10.
Definition UNICODE_PROP_XID_Start1 : Z := 11.
Definition UNICODE_PROP_XID_Continue1 : Z := 12.
Definition UNICODE_PROP_Changes_When_Titlecased1 : Z := 13.
Definition UNICODE_PROP_Changes_When_Casefolded1 : Z := 14.
Definition UNICODE_PROP_Changes_When_NFKC_Casefolded1 : Z := 15.
Definition UNICODE_PROP_ASCII_Hex_Digit : Z := 16.
Definition UNICODE_PROP_Bidi_Control : Z := 17.
Definition UNICODE_PROP_Dash : Z := 18.
Definition UNICODE_PROP_Deprecated : Z := 19.
Definition UNICODE_PROP_Diacritic : Z := 20.
Definition UNICODE_PROP_Extender : Z := 21.
Definition UNICODE_PROP_Hex_Digit : Z := 22.
Definition UNICODE_PROP_IDS_Binary_Operator : Z := 23.
Definition UNICODE_PROP_IDS_Trinary_Operator : Z := 24.
Definition UNICODE_PROP_Ideographic : Z := 25.
Definition UNICODE_PROP_Join_Control : Z := 26.
Definition UNICODE_PROP_Logical_Order_Exception : Z := 27.
Definition UNICODE_PROP_Noncharacter_Code_Point : Z := 28.
Definition UNICODE_PROP_Pattern_Syntax : Z := 29.
Definition UNICODE_PROP_Pattern_White_Space : Z := 30.
Definition UNICODE_PROP_Quotation_Mark : Z := 31.
Definition UNICODE_PROP_Radical : Z := 32.
Definition UNICODE_PROP_Regional_Indicator : Z := 33.
Definition UNICODE_PROP_Sentence_Terminal : Z := 34.
Definition UNICODE_PROP_Soft_Dotted : Z := 35.
Definition UNICODE_PROP_Terminal_Punctuation : Z := 36.
Definition UNICODE_PROP_Unified_Ideograph : Z := 37.
Definition UNICODE_PROP_Variation_Selector : Z := 38.
Definition UNICODE_PROP_White_Space : Z := 39.
Definition UNICODE_PROP_Bidi_Mirrored : Z := 40.
Definition UNICODE_PROP_Emoji : Z := 41.
Definition UNICODE_PROP_Emoji_Component : Z := 42.
Definition UNICODE_PROP_Emoji_Modifier : Z := 43.
Definition UNICODE_PROP_Emoji_Modifier_Base : Z := 44.
Definition UNICODE_PROP_Emoji_Presentation : Z := 45.
Definition UNICODE_PROP_Extended_Pictographic : Z := 46.
Definition UNICODE_PROP_Default_Ignorable_Code_Point : Z := 47.
Definition UNICODE_PROP_ID_Start : Z := 48.
Definition UNICODE_PROP_Case_Ignorable : Z := 49.
Definition UNICODE_PROP_ASCII : Z := 50.
Definition UNICODE_PROP_Alphabetic : Z := 51.
Definition UNICODE_PROP_Any : Z := 52.
Definition UNICODE_PROP_Assigned : Z := 53.
Definition UNICODE_PROP_Cased : Z := 54.
Definition UNICODE_PROP_Changes_When_Casefolded : Z := 55.
Definition UNICODE_PROP_Changes_When_Casemapped : Z := 56.
Definition UNICODE_PROP_Changes_When_Lowercased : Z := 57.
Definition UNICODE_PROP_Changes_When_NFKC_Casefolded : Z := 58.
Definition UNICODE_PROP_Changes_When_Titlecased : Z := 59.
Definition UNICODE_PROP_Changes_When_Uppercased : Z := 60.
Definition UNICODE_PROP_Grapheme_Base : Z := 61.
Definition UNICODE_PROP_Grapheme_Extend : Z := 62.
Definition UNICODE_PROP_ID_Continue : Z := 63.
Definition UNICODE_PROP_Lowercase : Z := 64.
Definition UNICODE_PROP_Math : Z := 65.
Definition UNICODE_PROP_Uppercase : Z := 66.
Definition UNICODE_PROP_XID_Continue : Z := 67.
Definition UNICODE_PROP_XID_Start : Z := 68.
Definition UNICODE_PROP_Cased1 : Z := 69.
Definition UNICODE_PROP_COUNT : Z := 70.
Definition unicode_prop_names : list string :=
  ["ASCII_Hex_Digit,AHex"; "Bidi_Control,Bidi_C"; "Dash"; "Deprecated,Dep"; "Diacritic,Dia";
   "Extender,Ext"; "Hex_Digit,Hex"; "IDS_Binary_Operator,IDSB"; "IDS_Trinary_Operator,IDST";
   "Ideographic,Ideo"; "Join_Control,Join_C"; "Logical_Order_Exception,LOE";
   "Noncharacter_Code_Point,NChar"; "Pattern_Syntax,Pat_Syn"; "Pattern_White_Space,Pat_WS";
   "Quotation_Mark,QMark"; "Radical"; "Regional_Indicator,RI"; "Sentence_Terminal,STerm";
   "Soft_Dotted,SD"; "Terminal_Punctuation,Term"; "Unified_Ideograph,UIdeo";
   "Variation_Selector,VS"; "White_Space,space"; "Bidi_Mirrored,Bidi_M"; "Emoji";
   "Emoji_Component,EComp"; "Emoji_Modifier,EMod"; "Emoji_Modifier_Base,EBase";
   "Emoji_Presentation,EPres"; "Extended_Pictographic,ExtPict";
   "Default_Ignorable_Code_Point,DI"; "ID_Start,IDS"; "Case_Ignorable,CI"; "ASCII";
   "Alphabetic,Alpha"; "Any"; "Assigned"; "Cased"; "Changes_When_Casefolded,CWCF";
   "Changes_When_Casemapped,CWCM"; "Changes_When_Lowercased,CWL";
   "Changes_When_NFKC_Casefolded,CWKCF"; "Changes_When_Titlecased,CWT";
   "Changes_When_Uppercased,CWU"; "Grapheme_Base,Gr_Base"; "Grapheme_Extend,Gr_Ext";
   "ID_Continue,IDC"; "Lowercase,Lower"; "Math"; "Uppercase,Upper"; "XID_Continue,XIDC";
   "XID_Start,XIDS"]%string.
Definition unicode_prop_name_table : list Z := name_table unicode_prop_names.
Definition unicode_prop_table : list (list Z) :=
  [unicode_prop_Hyphen_table;
   unicode_prop_Other_Math_table;
   unicode_prop_Other_Alphabetic_table;
   unicode_prop_Other_Lowercase_table;
   unicode_prop_Other_Uppercase_table;
   unicode_prop_Other_Grapheme_Extend_table;
   unicode_prop_Other_Default_Ignorable_Code_Point_table;
   unicode_prop_Other_ID_Start_table;
   unicode_prop_Other_ID_Continue_table;
   unicode_prop_Prepended_Concatenation_Mark_table;
   unicode_prop_ID_Continue1_table;
   unicode_prop_XID_Start1_table;
   unicode_prop_XID_Continue1_table;
   unicode_prop_Changes_When_Titlecased1_table;
   unicode_prop_Changes_When_Casefolded1_table;
   unicode_prop_Changes_When_NFKC_Casefolded1_table;
   unicode_prop_ASCII_Hex_Digit_table;
   unicode_prop_Bidi_Control_table;
   unicode_prop_Dash_table;
   unicode_prop_Deprecated_table;
   unicode_prop_Diacritic_table;
   unicode_prop_Extender_table;
   unicode_prop_Hex_Digit_table;
   unicode_prop_IDS_Binary_Operator_table;
   unicode_prop_IDS_Trinary_Operator_table;
   unicode_prop_Ideographic_table;
   unicode_prop_Join_Control_table;
   unicode_prop_Logical_Order_Exception_table;
   unicode_prop_Noncharacter_Code_Point_table;
   unicode_prop_Pattern_Syntax_table;
   unicode_prop_Pattern_White_Space_table;
   unicode_prop_Quotation_Mark_table;
   unicode_prop_Radical_table;
   unicode_prop_Regional_Indicator_table;
   unicode_prop_Sentence_Terminal_table;
   unicode_prop_Soft_Dotted_table;
   unicode_prop_Terminal_Punctuation_table;
   unicode_prop_Unified_Ideograph_table;
   unicode_prop_Variation_Selector_table;
   unicode_prop_White_Space_table;
   unicode_prop_Bidi_Mirrored_table;
   unicode_prop_Emoji_table;
   unicode_prop_Emoji_Component_table;
   unicode_prop_Emoji_Modifier_table;
   unicode_prop_Emoji_Modifier_Base_table;
   unicode_prop_Emoji_Presentation_table;
   unicode_prop_Extended_Pictographic_table;
   unicode_prop_Default_Ignorable_Code_Point_table;
   unicode_prop_ID_Start_table;
   unicode_prop_Case_Ignorable_table].
