(* ===== verification/TableSearch.v ===== *)
(** * The binary search over sorted runs

    js/libunicode.c looks a code point up in tables of runs, sorted and
    disjoint, with one loop written out in [lre_case_conv], [lre_canonicalize],
    [lre_is_cased] and [unicode_decomp_char].  It is modelled once, over the
    functions that read a run's first code point and length from its entry. *)
From S2P Require Import Prelude.

Section Search.
Context (table : list Z) (code_of len_of : Z → Z).

(** the [while (idx_min <= idx_max)] loop: the entry that holds [c], if any *)
Fixpoint table_search_loop (fuel : nat) (c idx_min idx_max : Z) : option (option (Z * Z)) :=
  match fuel with
  | O => None
  | S fuel =>
    if idx_min <=? idx_max then
      let idx := (idx_max + idx_min) / 2 in
      v ← table.[idx];
      if c <? code_of v then table_search_loop fuel c idx_min (idx - 1)
      else if c >=? code_of v + len_of v then table_search_loop fuel c (idx + 1) idx_max
      else Some (Some (idx, v))
    else Some None
  end.
Definition table_search (c : Z) : option (option (Z * Z)) :=
  table_search_loop (S (length table)) c 0 (zlen table - 1).

(** [v] is the run of entry [i] and holds [c] *)
Definition run_at (i v c : Z) : Prop := table.[i] = Some v ∧ code_of v <= c < code_of v + len_of v.

(** Runs in increasing order that do not overlap. *)
Fixpoint runs_sorted (l : list Z) : bool :=
  match l with
  | v :: ((w :: _) as l') => (0 <=? len_of v) && (code_of v + len_of v <=? code_of w) && runs_sorted l'
  | [v] => 0 <=? len_of v
  | [] => true
  end.

Lemma runs_sorted_cons v l :
  runs_sorted (v :: l) = true → 0 <= len_of v ∧ runs_sorted l = true ∧
  ∀ w, w ∈ l → 0 <= len_of w ∧ code_of v + len_of v <= code_of w.
Proof.
  revert v. induction l as [|w l IH]; intros v H.
  - cbn in H. bool_props. split; [done|]. split; [done|]. intros w Hw. by apply elem_of_nil in Hw.
  - change (runs_sorted (v :: w :: l)) with
      ((0 <=? len_of v) && (code_of v + len_of v <=? code_of w) && runs_sorted (w :: l)) in H.
    bool_props. destruct (IH w) as (I1 & I2 & I3); [done|]. split; [done|]. split; [done|].
    intros x Hx. apply elem_of_cons in Hx as [->|Hx]; [done|]. destruct (I3 x Hx). lia.
Qed.

Lemma runs_sorted_lookup i j v w :
  runs_sorted table = true → table.[i] = Some v → table.[j] = Some w → i < j →
  0 <= len_of v ∧ code_of v + len_of v <= code_of w ∧ 0 <= len_of w.
Proof.
  intros Hs. revert i j v w Hs. clear. induction table as [|x l IH]; intros i j v w Hs Hi Hj Hij.
  - apply aget_Some_range in Hi. unfold zlen in Hi; cbn in Hi; lia.
  - pose proof (aget_Some_range _ _ _ Hi). apply runs_sorted_cons in Hs as (H1 & H2 & H3).
    rewrite aget_cons_pos in Hj by lia. destruct (decide (i = 0)) as [->|].
    + rewrite aget_cons_0 in Hi. injection Hi as ->. split; [done|].
      destruct (H3 w); [|lia]. unfold aget in Hj. destruct (j - 1 <? 0); [done|].
      by eapply list_elem_of_lookup_2.
    + rewrite aget_cons_pos in Hi by lia. by apply (IH (i - 1) (j - 1)); [|done..|lia].
Qed.

Lemma table_search_loop_spec fuel c lo hi :
  runs_sorted table = true → hi - lo + 1 < Z.of_nat fuel → 0 <= lo → hi < zlen table → lo <= hi + 1 →
  (∀ i v, table.[i] = Some v → i < lo → code_of v + len_of v <= c) →
  (∀ i v, table.[i] = Some v → hi < i → c < code_of v) →
  ∃ r, table_search_loop fuel c lo hi = Some r ∧
    match r with
    | Some (i, v) => run_at i v c
    | None => ∀ i v, ¬ run_at i v c
    end.
Proof.
  intros Hs. revert lo hi. induction fuel as [|fuel IH]; intros lo hi Hf Hlo Hhi Hle Hbelow Habove; [lia|].
  cbn [table_search_loop]. destruct (Z.leb_spec lo hi).
  - assert (lo <= (hi + lo) / 2 <= hi) as Hm.
    { split; [apply Z.div_le_lower_bound; lia|apply Z.div_le_upper_bound; lia]. }
    set (m := (hi + lo) / 2) in *. destruct (aget_is_Some table m) as [v Hv]; [lia|].
    rewrite Hv. cbn [mbind option_bind]. rewrite Z.geb_leb.
    destruct (Z.ltb_spec c (code_of v)).
    + apply IH; try lia; [done|]. intros i w Hw Hi. destruct (decide (i = m)) as [->|]; [congruence|].
      destruct (runs_sorted_lookup m i v w) as (? & ? & ?); [done..|lia|lia].
    + destruct (Z.leb_spec (code_of v + len_of v) c).
      * apply IH; try lia; [|done]. intros i w Hw Hi. destruct (decide (i = m)) as [->|]; [congruence|].
        destruct (runs_sorted_lookup i m w v) as (? & ? & ?); [done..|lia|lia].
      * eexists; split; [reflexivity|]. split; [done|lia].
  - exists None. split; [done|]. intros i v [Hv Hc]. destruct (decide (i < lo)).
    + pose proof (Hbelow i v Hv). lia.
    + pose proof (Habove i v Hv). lia.
Qed.

(** The search always answers: the run that holds [c], or that there is none. *)
Lemma table_search_spec c :
  runs_sorted table = true →
  ∃ r, table_search c = Some r ∧
    match r with
    | Some (i, v) => run_at i v c
    | None => ∀ i v, ¬ run_at i v c
    end.
Proof.
  intros Hs. unfold table_search. apply table_search_loop_spec; [done|..]; unfold zlen; try lia.
  - intros i v Hv. apply aget_Some_range in Hv. lia.
  - intros i v Hv. apply aget_Some_range in Hv. unfold zlen in Hv. lia.
Qed.
(** A code point is in at most one run. *)
Lemma run_at_unique i j v w c :
  runs_sorted table = true → run_at i v c → run_at j w c → i = j ∧ v = w.
Proof.
  intros Hs [Hi Hv] [Hj Hw]. destruct (Ztrichotomy i j) as [Hlt|[->|Hgt]].
  - destruct (runs_sorted_lookup i j v w) as (? & ? & ?); [done..|lia|lia].
  - split; [done|congruence].
  - destruct (runs_sorted_lookup j i w v) as (? & ? & ?); [done..|lia|lia].
Qed.
Lemma table_search_found c i v :
  runs_sorted table = true → run_at i v c → table_search c = Some (Some (i, v)).
Proof.
  intros Hs Hr. destruct (table_search_spec c Hs) as ([[j w]|] & E & H).
  - rewrite E. by destruct (run_at_unique i j v w c Hs Hr H) as [-> ->].
  - by destruct (H i v).
Qed.

(** ** Checks over every code point of every run *)
Fixpoint forall_runs (P : Z → Z → Z → bool) (i : Z) (l : list Z) : bool :=
  match l with
  | [] => true
  | v :: l => forall_range (λ c, P c i v) (code_of v) (Z.to_nat (len_of v)) && forall_runs P (i + 1) l
  end.
Lemma forall_runs_spec P c i v :
  forall_runs P 0 table = true → run_at i v c → P c i v = true.
Proof.
  intros H [Hi Hc]. assert (∀ k l j, forall_runs P k l = true → l.[j] = Some v → P c (k + j) v = true) as Hgen.
  { clear - Hc. intros k l. revert k. induction l as [|w l IH]; intros k j H Hj.
    - apply aget_Some_range in Hj. unfold zlen in Hj. cbn in Hj. lia.
    - cbn [forall_runs] in H. bool_props. pose proof (aget_Some_range _ _ _ Hj).
      destruct (decide (j = 0)) as [->|].
      + rewrite aget_cons_0 in Hj. injection Hj as ->. rewrite Z.add_0_r.
        apply (forall_range_spec (λ c, P c k v) _ _ H). lia.
      + rewrite aget_cons_pos in Hj by lia. replace (k + j) with (k + 1 + (j - 1)) by lia. by apply IH. }
  by apply (Hgen 0 table i).
Qed.
End Search.
