(* ===== verification/CaseConv.v ===== *)
(** * Case conversion and canonicalization (js/libunicode.c)

    [lre_case_conv], the entry decoder behind it, and the case folding of
    regular expressions [lre_canonicalize].  The only recursion of the C code,
    [lre_case_conv1] inside an entry, asks for a lower case conversion, whose
    entries do not recurse: fuel 2 is enough for every input. *)
From S2P Require Import Prelude UnicodeTables TableSearch.

Definition RUN_TYPE_U : Z := 0.
Definition RUN_TYPE_L : Z := 1.
Definition RUN_TYPE_UF : Z := 2.
Definition RUN_TYPE_LF : Z := 3.
Definition RUN_TYPE_UL : Z := 4.
Definition RUN_TYPE_LSU : Z := 5.
Definition RUN_TYPE_U2L_399_EXT2 : Z := 6.
Definition RUN_TYPE_UF_D20 : Z := 7.
Definition RUN_TYPE_UF_D1_EXT : Z := 8.
Definition RUN_TYPE_U_EXT : Z := 9.
Definition RUN_TYPE_LF_EXT : Z := 10.
Definition RUN_TYPE_UF_EXT2 : Z := 11.
Definition RUN_TYPE_LF_EXT2 : Z := 12.
Definition RUN_TYPE_UF_EXT3 : Z := 13.

(** the fields of an element of [case_conv_table1] *)
Definition cc_code (v : Z) : Z := v >> (32 - 17).
Definition cc_len (v : Z) : Z := (v >> (32 - 17 - 7)) .& 0x7f.
Definition cc_type (v : Z) : Z := (v >> (32 - 17 - 7 - 4)) .& 0xf.

(** [lre_case_conv_entry]: the [res] array, whose length is the returned
    count; [conv1] stands for the recursive [lre_case_conv1(.., 1)] *)
Definition lre_case_conv_entry (conv1 : Z → option Z) (c conv_type idx v : Z) : option (list Z) :=
  let is_lower := b2z (negb (conv_type =? 0)) in
  let type := cc_type v in
  data2 ← case_conv_table2.[idx];
  let data := ((v .& 0xf) << 8) .| data2 in
  let code := cc_code v in
  let a := u32 (c - code) in
  if type <=? RUN_TYPE_LF then
    if (conv_type =? type .& 1) || ((type >=? RUN_TYPE_UF) && (conv_type =? 2)) then
      w ← case_conv_table1.[data]; Some [u32 (c - code + (w >> (32 - 17)))]
    else Some [c]
  else if type =? RUN_TYPE_UL then
    if negb (a .& 1 =? 1 - is_lower) then Some [c]
    else Some [u32 ((a .^ 1) + code)]
  else if type =? RUN_TYPE_LSU then
    if a =? 1 then Some [u32 (c + 2 * is_lower - 1)]
    else if a =? (1 - is_lower) * 2 then Some [u32 (c + (2 * is_lower - 1) * 2)]
    else Some [c]
  else if type =? RUN_TYPE_U2L_399_EXT2 then
    if is_lower =? 0 then
      x ← case_conv_ext.[data >> 6]; Some [u32 (c - code + x); 0x399]
    else
      x ← case_conv_ext.[data .& 0x3f]; Some [u32 (c - code + x)]
  else if type =? RUN_TYPE_UF_D20 then
    if conv_type =? 1 then Some [c]
    else Some [data + b2z (conv_type =? 2) * 0x20]
  else if type =? RUN_TYPE_UF_D1_EXT then
    if conv_type =? 1 then Some [c]
    else x ← case_conv_ext.[data]; Some [x + b2z (conv_type =? 2)]
  else if (type =? RUN_TYPE_U_EXT) || (type =? RUN_TYPE_LF_EXT) then
    if negb (is_lower =? type - RUN_TYPE_U_EXT) then Some [c]
    else x ← case_conv_ext.[data]; Some [x]
  else if type =? RUN_TYPE_LF_EXT2 then
    if is_lower =? 0 then Some [c]
    else
      x ← case_conv_ext.[data >> 6]; y ← case_conv_ext.[data .& 0x3f];
      Some [u32 (c - code + x); y]
  else if type =? RUN_TYPE_UF_EXT2 then
    if conv_type =? 1 then Some [c]
    else
      x ← case_conv_ext.[data >> 6]; y ← case_conv_ext.[data .& 0x3f];
      let x := u32 (c - code + x) in
      if conv_type =? 2 then x ← conv1 x; y ← conv1 y; Some [x; y]
      else Some [x; y]
  else
    if conv_type =? 1 then Some [c]
    else
      x ← case_conv_ext.[data >> 8]; y ← case_conv_ext.[(data >> 4) .& 0xf];
      z ← case_conv_ext.[data .& 0xf];
      if conv_type =? 2 then x ← conv1 x; y ← conv1 y; z ← conv1 z; Some [x; y; z]
      else Some [x; y; z].

(** the search loop over [case_conv_table1] *)
Definition case_search (c : Z) : option (option (Z * Z)) := table_search case_conv_table1 cc_code cc_len c.

Fixpoint lre_case_conv_fuel (fuel : nat) (c conv_type : Z) : option (list Z) :=
  match fuel with
  | O => None
  | S fuel =>
    let lre_case_conv1 := λ c, res ← lre_case_conv_fuel fuel c 1; res.[0] in
    if c <? 128 then
      if negb (conv_type =? 0) then
        if (c >=? 0x41) && (c <=? 0x5a) then Some [c - 0x41 + 0x61] else Some [c]
      else
        if (c >=? 0x61) && (c <=? 0x7a) then Some [c - 0x61 + 0x41] else Some [c]
    else
      hit ← case_search c;
      match hit with
      | Some (idx, v) => lre_case_conv_entry lre_case_conv1 c conv_type idx v
      | None => Some [c]
      end
  end.
Definition lre_case_conv (c conv_type : Z) : option (list Z) := lre_case_conv_fuel 2 c conv_type.
Definition lre_case_conv1 (c conv_type : Z) : option Z := res ← lre_case_conv c conv_type; res.[0].

Definition lre_case_folding_entry (c idx v : Z) (is_unicode : bool) : option Z :=
  if is_unicode then
    res ← lre_case_conv_entry (λ c, lre_case_conv1 c 1) c 2 idx v;
    match res with
    | [r] => Some r
    | _ => Some (if c =? 0xfb06 then 0xfb05
                 else if c =? 0x01fd3 then 0x390
                 else if c =? 0x01fe3 then 0x3b0 else c)
    end
  else if c <? 128 then
    Some (if (c >=? 0x61) && (c <=? 0x7a) then c - 0x61 + 0x41 else c)
  else
    res ← lre_case_conv_entry (λ c, lre_case_conv1 c 1) c 0 idx v;
    match res with
    | [r] => Some (if r >=? 128 then r else c)
    | _ => Some c
    end.

Definition lre_canonicalize (c : Z) (is_unicode : bool) : option Z :=
  if c <? 128 then
    Some (if is_unicode then if (c >=? 0x41) && (c <=? 0x5a) then c - 0x41 + 0x61 else c
          else if (c >=? 0x61) && (c <=? 0x7a) then c - 0x61 + 0x41 else c)
  else
    hit ← case_search c;
    match hit with
    | Some (idx, v) => lre_case_folding_entry c idx v is_unicode
    | None => Some c
    end.

(** ** The search *)
Lemma case_conv_table_sorted : runs_sorted cc_code cc_len case_conv_table1 = true.
Proof. vm_compute. reflexivity. Qed.

(** entry [i] of the table holds the code point [c] *)
Notation in_run i v c := (run_at case_conv_table1 cc_code cc_len i v c).

Lemma case_search_spec c :
  (∃ i v, case_search c = Some (Some (i, v)) ∧ in_run i v c) ∨
  (case_search c = Some None ∧ ∀ i v, ¬ in_run i v c).
Proof.
  destruct (table_search_spec case_conv_table1 cc_code cc_len c case_conv_table_sorted)
    as ([[i v]|] & E & H); [left; eauto|by right].
Qed.
Lemma case_runs_spec (P : Z → Z → Z → bool) c i v :
  forall_runs cc_code cc_len P 0 case_conv_table1 = true → in_run i v c → P c i v = true.
Proof. apply forall_runs_spec. Qed.

(** The recursion depends on [conv1] only by its values. *)
Lemma lre_case_conv_entry_ext f g c t i v :
  (∀ x, f x = g x) → lre_case_conv_entry f c t i v = lre_case_conv_entry g c t i v.
Proof.
  intros Hfg. unfold lre_case_conv_entry. cbv zeta.
  repeat first [ reflexivity | zcase | destruct (aget _ _); cbn [mbind option_bind] ].
  - by rewrite !Hfg.
  - by rewrite !Hfg.
Qed.

(** Lower case conversions do not recurse. *)
Lemma lre_case_conv_entry_lower f g c i v :
  lre_case_conv_entry f c 1 i v = lre_case_conv_entry g c 1 i v.
Proof.
  unfold lre_case_conv_entry. change (1 =? 1) with true. change (1 =? 2) with false.
  rewrite andb_false_r. cbv zeta iota. destruct (case_conv_table2.[i]); [|done]. cbn [mbind option_bind].
  repeat first [ reflexivity | zcase ].
Qed.
Lemma lre_case_conv_lower n c : lre_case_conv_fuel (S n) c 1 = lre_case_conv_fuel 1 c 1.
Proof.
  cbn [lre_case_conv_fuel]. zcase; [done|]. destruct (case_search c) as [[[i v]|]|]; [|done..].
  cbn [mbind option_bind]. apply lre_case_conv_entry_lower.
Qed.
Lemma lre_case_conv_unfold c t :
  128 <= c → lre_case_conv c t =
    (hit ← case_search c;
     match hit with
     | Some (idx, v) => lre_case_conv_entry (λ c, lre_case_conv1 c 1) c t idx v
     | None => Some [c]
     end).
Proof.
  intros Hc. unfold lre_case_conv at 1. cbn [lre_case_conv_fuel]. zcase; [lia|].
  destruct (case_search c) as [[[i v]|]|]; [|done..]. cbn [mbind option_bind].
  apply lre_case_conv_entry_ext. intros x. unfold lre_case_conv1, lre_case_conv.
  by rewrite (lre_case_conv_lower 1).
Qed.

Lemma lre_case_conv_ascii c t :
  c < 128 → lre_case_conv c t =
    Some [if negb (t =? 0) then if (c >=? 0x41) && (c <=? 0x5a) then c - 0x41 + 0x61 else c
          else if (c >=? 0x61) && (c <=? 0x7a) then c - 0x61 + 0x41 else c].
Proof.
  intros Hc. unfold lre_case_conv. cbn [lre_case_conv_fuel]. destruct (Z.ltb_spec c 128); [|lia].
  destruct (negb _); by zcase.
Qed.

Lemma lre_canonicalize_ascii c u :
  c < 128 → lre_canonicalize c u =
    Some (if u : bool then if (c >=? 0x41) && (c <=? 0x5a) then c - 0x41 + 0x61 else c
          else if (c >=? 0x61) && (c <=? 0x7a) then c - 0x61 + 0x41 else c).
Proof. intros Hc. unfold lre_canonicalize. by destruct (Z.ltb_spec c 128); [|lia]. Qed.

Definition unicode_max : Z := 0x10ffff.
(** one to three code points *)
Definition case_res_ok (res : list Z) : bool :=
  match res with
  | [] => false
  | _ => (Nat.leb (length res) 3) && forallb (λ r, (0 <=? r) && (r <=? unicode_max)) res
  end.
Definition opt_test {A} (P : A → bool) (o : option A) : bool :=
  match o with Some x => P x | None => false end.
Lemma opt_test_Some {A} (P : A → bool) o : opt_test P o = true → ∃ x, o = Some x ∧ P x = true.
Proof. destruct o; [eauto|done]. Qed.

Lemma case_conv_entries_ok :
  forall_runs cc_code cc_len (λ c i v,
    forallb (λ t, opt_test case_res_ok (lre_case_conv_entry (λ c, lre_case_conv1 c 1) c t i v)) [0; 1; 2])
    0 case_conv_table1 = true.
Proof. vm_compute. reflexivity. Qed.
(** folding twice is folding once, and legacy folding never enters ASCII *)
Lemma case_folding_entries_ok :
  forall_runs cc_code cc_len (λ c i v,
    forallb (λ u : bool, opt_test (λ d,
      opt_test (Z.eqb d) (lre_canonicalize d u) && (0 <=? d) && (d <=? unicode_max) &&
      (u || (c <? 128) || (128 <=? d))) (lre_case_folding_entry c i v u)) [false; true])
    0 case_conv_table1 = true.
Proof. vm_compute. reflexivity. Qed.

(** Case conversion is total on code points: for each conversion type it
    stays inside its tables and returns between one and three code points
    ([LRE_CC_RES_LEN_MAX]). *)
Theorem lre_case_conv_total c conv_type :
  0 <= c <= unicode_max → 0 <= conv_type <= 2 →
  ∃ res, lre_case_conv c conv_type = Some res ∧ (1 <= length res <= 3)%nat ∧
    Forall (λ r, 0 <= r <= unicode_max) res.
Proof.
  intros Hc Ht.
  assert (∀ res, case_res_ok res = true → (1 <= length res <= 3)%nat ∧ Forall (λ r, 0 <= r <= unicode_max) res) as Hok.
  { intros res H. unfold case_res_ok in H. destruct res as [|r res]; [done|].
    apply andb_true_iff in H as [H1%Nat.leb_le H2]. cbn [length] in *. split; [lia|].
    rewrite forallb_forall in H2. apply Forall_forall. intros x Hx%list_elem_of_In. specialize (H2 x Hx). blia. }
  destruct (Z.ltb_spec c 128).
  - rewrite lre_case_conv_ascii by done. eexists. split; [reflexivity|]. cbn [length].
    split; [lia|]. constructor; [|constructor]. unfold unicode_max in *. repeat zcase; blia.
  - rewrite lre_case_conv_unfold by done.
    destruct (case_search_spec c) as [(i & v & -> & Hr)|[-> _]]; cbn [mbind option_bind].
    + pose proof (case_runs_spec _ c i v case_conv_entries_ok Hr) as H1. cbv beta in H1.
      rewrite forallb_forall in H1.
      assert (List.In conv_type [0; 1; 2]) as Hin by (cbn; lia).
      specialize (H1 _ Hin). apply opt_test_Some in H1 as (res & -> & Hres). exists res. split; [done|]. by apply Hok.
    + exists [c]. split; [done|]. cbn. split; [lia|]. by constructor.
Qed.

Lemma lre_canonicalize_facts c is_unicode :
  0 <= c <= unicode_max →
  ∃ d, lre_canonicalize c is_unicode = Some d ∧ lre_canonicalize d is_unicode = Some d ∧
    0 <= d <= unicode_max ∧ (is_unicode = false → 128 <= c → 128 <= d).
Proof.
  intros Hc. destruct (Z.ltb_spec c 128) as [Hlt|Hge].
  - rewrite lre_canonicalize_ascii by done. eexists. split; [reflexivity|].
    rewrite !Z.geb_leb. unfold unicode_max.
    destruct is_unicode;
      [destruct (Z.leb_spec 0x41 c), (Z.leb_spec c 0x5a)|destruct (Z.leb_spec 0x61 c), (Z.leb_spec c 0x7a)];
      cbn [andb]; rewrite lre_canonicalize_ascii, Z.geb_leb by lia;
      (split; [f_equal; zcase; blia|split; [lia|intros; lia]]).
  - unfold lre_canonicalize at 1. destruct (Z.ltb_spec c 128); [lia|].
    destruct (case_search_spec c) as [(i & v & E & Hr)|[E _]]; rewrite E; cbn [mbind option_bind].
    + pose proof (case_runs_spec _ c i v case_folding_entries_ok Hr) as H1. cbv beta in H1.
      rewrite forallb_forall in H1.
      assert (List.In is_unicode [false; true]) as Hin by (destruct is_unicode; cbn; tauto).
      specialize (H1 _ Hin). apply opt_test_Some in H1 as (d & Ed & Hd).
      apply andb_true_iff in Hd as [[[Hi%opt_test_Some H0]%andb_true_iff H2]%andb_true_iff H3].
      destruct Hi as (d' & Ed' & Hd%Z.eqb_eq). subst d'.
      apply Z.leb_le in H0, H2. exists d. split; [done|]. split; [done|]. split; [done|].
      intros ->. cbn [orb] in H3. destruct (Z.ltb_spec c 128); [lia|]. intros _. by apply Z.leb_le in H3.
    + exists c. split; [done|]. split; [|split; [lia|intros; lia]].
      unfold lre_canonicalize. destruct (Z.ltb_spec c 128); [lia|]. by rewrite E.
Qed.
Lemma lre_canonicalize_total c is_unicode :
  0 <= c <= unicode_max → ∃ d, lre_canonicalize c is_unicode = Some d ∧ 0 <= d <= unicode_max.
Proof. intros Hc. destruct (lre_canonicalize_facts c is_unicode Hc) as (d & ? & _ & ? & _). eauto. Qed.
(** Canonicalization is idempotent, stays within the code points, and in
    legacy mode never maps a non-ASCII character to an ASCII one. *)
Theorem lre_canonicalize_idempotent c is_unicode :
  0 <= c <= unicode_max →
  ∃ d, lre_canonicalize c is_unicode = Some d ∧ lre_canonicalize d is_unicode = Some d ∧
    0 <= d <= unicode_max ∧ (is_unicode = false → 128 <= c → 128 <= d).
Proof. apply lre_canonicalize_facts. Qed.

(** the same by the conversions of whole code points *)
Definition canonicalize_conv (c : Z) (is_unicode : bool) : option Z :=
  if is_unicode then
    res ← lre_case_conv c 2;
    match res with
    | [r] => Some r
    | _ => Some (if c =? 0xfb06 then 0xfb05 else if c =? 0x1fd3 then 0x390
                 else if c =? 0x1fe3 then 0x3b0 else c)
    end
  else
    res ← lre_case_conv c 0;
    match res with
    | [r] => Some (if (128 <=? c) && (r <? 128) then c else r)
    | _ => Some c
    end.

Lemma lre_canonicalize_eq c is_unicode :
  0 <= c → lre_canonicalize c is_unicode = canonicalize_conv c is_unicode.
Proof.
  intros Hc. unfold lre_canonicalize, canonicalize_conv. destruct (Z.ltb_spec c 128) as [Hlt|Hge].
  - rewrite !lre_case_conv_ascii by done. cbn [mbind option_bind].
    destruct (Z.leb_spec 128 c); [lia|]. by destruct is_unicode.
  - rewrite !lre_case_conv_unfold by done.
    destruct (case_search_spec c) as [(i & v & -> & Hr)|[-> _]]; cbn [mbind option_bind].
    + unfold lre_case_folding_entry. destruct is_unicode; [done|].
      destruct (Z.ltb_spec c 128); [lia|]. destruct (lre_case_conv_entry _ _ _ _ _) as [[|r [|]]|]; try done.
      cbn [mbind option_bind]. destruct (Z.leb_spec 128 c); [|lia]. rewrite Z.geb_leb.
      destruct (Z.leb_spec 128 r), (Z.ltb_spec r 128); try lia; done.
    + destruct is_unicode; [done|]. destruct (Z.ltb_spec c 128); [lia|]. by rewrite andb_false_r.
Qed.

(** ** Canonicalize of ECMAScript *)
(** without the u flag: the upper case of the character, unless it is more than
    one character or would enter ASCII *)
Definition es_canonicalize (ch : Z) : option Z :=
  u ← lre_case_conv ch 0;
  match u with
  | [cu] => Some (if (ch >=? 128) && (cu <? 128) then ch else cu)
  | _ => Some ch
  end.
(** the full case folding: what [lre_case_conv] gives, folded again if it is
    one character, as the table has the simple folding for some *)
Definition full_folding (c : Z) : option (list Z) :=
  l ← lre_case_conv c 2; match l with [r] => lre_case_conv r 2 | _ => Some l end.
(** the characters that change, and those that fold to more than one, with their canonical form *)
Definition case_chars : list Z := flat_map (λ v, seqZ (cc_code v) (cc_len v)) case_conv_table1.
Definition long_foldings : list (list Z * Z) :=
  flat_map (λ c, match full_folding c, lre_canonicalize c true with
    | Some [_], _ | None, _ | _, None => []
    | Some l, Some d => [(l, d)]
    end) case_chars.
Definition folding_find (t : list (list Z * Z)) (l : list Z) : option Z := snd <$> List.find (λ e, bool_decide (e.1 = l)) t.
(** the canonical form is a function of the full folding *)
Definition of_folding (t : list (list Z * Z)) (l : list Z) : option Z := match l with [r] => Some r | _ => folding_find t l end.
Definition folding_ok (t : list (list Z * Z)) (c : Z) : bool :=
  opt_test (λ l, opt_test (λ d, bool_decide (of_folding t l = Some d) && bool_decide (full_folding d = Some l)) (lre_canonicalize c true)) (full_folding c).
Lemma foldings_checked : (let t := long_foldings in forallb (folding_ok t) (seqZ 0 128 ++ case_chars)) = true.
Proof. vm_compute. reflexivity. Qed.
Lemma case_char_in i v c : in_run i v c → c ∈ case_chars.
Proof.
  intros [Ev Hc]. unfold case_chars. apply list_elem_of_In, in_flat_map. exists v. split; [|apply list_elem_of_In, elem_of_seqZ; lia].
  unfold aget in Ev. destruct (i <? 0); [done|]. apply list_elem_of_In. by eapply list_elem_of_lookup_2.
Qed.
Lemma folding_canonical c : 0 <= c → ∃ l d, full_folding c = Some l ∧ lre_canonicalize c true = Some d ∧ of_folding long_foldings l = Some d ∧ full_folding d = Some l.
Proof.
  intros Hc. assert (c ∈ seqZ 0 128 ++ case_chars → ∃ l d, full_folding c = Some l ∧ lre_canonicalize c true = Some d ∧ of_folding long_foldings l = Some d ∧ full_folding d = Some l) as Hin.
  { intros Hin. pose proof foldings_checked as H. cbv zeta in H. rewrite forallb_forall in H. apply list_elem_of_In in Hin. specialize (H _ Hin). unfold folding_ok in H.
    apply opt_test_Some in H as (l & El & H). apply opt_test_Some in H as (d & Ed & H). apply andb_true_iff in H as [H1%bool_decide_eq_true H2%bool_decide_eq_true]. by exists l, d. }
  destruct (Z.ltb_spec c 128) as [Hlt|Hge]; [apply Hin, elem_of_app; left; apply elem_of_seqZ; lia|]. destruct (case_search_spec c) as [(i & v & E & Hr)|[E _]]; [apply Hin, elem_of_app; right; by eapply case_char_in|].
  assert (lre_case_conv c 2 = Some [c]) as Ef by (rewrite lre_case_conv_unfold, E by done; done). assert (full_folding c = Some [c]) as Eff by (unfold full_folding; rewrite Ef; exact Ef).
  exists [c], c. split; [done|]. split; [|done]. unfold lre_canonicalize. destruct (Z.ltb_spec c 128); [lia|]. by rewrite E.
Qed.
(** C35: without the u flag [lre_canonicalize] is the Canonicalize operation of the ECMAScript specification over the conversion to upper case; with the u flag two characters have the same canonical form if and only if they have the same full case folding, and the canonical form has it too *)
Theorem lre_canonicalize_spec c : 0 <= c →
  lre_canonicalize c false = es_canonicalize c ∧
  (∀ d, lre_canonicalize c true = Some d → full_folding d = full_folding c) ∧
  ∀ c', 0 <= c' → lre_canonicalize c true = lre_canonicalize c' true ↔ full_folding c = full_folding c'.
Proof.
  intros Hc. split; [|destruct (folding_canonical c Hc) as (l & d & El & Ed & Eo & Ef); split].
  - rewrite lre_canonicalize_eq by done. unfold canonicalize_conv, es_canonicalize. by rewrite Z.geb_leb.
  - intros d' Ed'. congruence.
  - intros c' Hc'. destruct (folding_canonical c' Hc') as (l' & d' & El' & Ed' & Eo' & Ef'). rewrite Ed, Ed', El, El'. split; congruence.
Qed.

(** ** The theorems at concrete inputs *)
Lemma lre_case_conv_total_witness :
  ∃ res, lre_case_conv 0x149 0 = Some res ∧ (1 <= length res <= 3)%nat ∧
    Forall (λ r, 0 <= r <= unicode_max) res.
Proof. apply (lre_case_conv_total 0x149 0); unfold unicode_max; lia. Defined.
Lemma lre_canonicalize_idempotent_witness :
  ∃ d, lre_canonicalize 0x212a true = Some d ∧ lre_canonicalize d true = Some d ∧
    0 <= d <= unicode_max ∧ (true = false → 128 <= 0x212a → 128 <= d).
Proof. apply (lre_canonicalize_idempotent 0x212a true). unfold unicode_max; lia. Defined.
(** U+1FD3 and U+0390 are the same, the sharp s is not two letters s *)
Lemma lre_canonicalize_spec_witness : lre_canonicalize 0x17f false = es_canonicalize 0x17f ∧ lre_canonicalize 0x1fd3 true = lre_canonicalize 0x390 true ∧ lre_canonicalize 0xdf true ≠ lre_canonicalize 0x73 true.
Proof.
  split; [apply (lre_canonicalize_spec 0x17f); lia|]. split; [apply (lre_canonicalize_spec 0x1fd3); [lia|lia|vm_compute; reflexivity]|].
  intros E. destruct (lre_canonicalize_spec 0xdf) as (_ & _ & H); [lia|]. specialize (proj1 (H 0x73 ltac:(lia)) E). vm_compute. congruence.
Defined.
