(* ===== verification/RunTable.v ===== *)
(** * Run-length tables of code points (js/libunicode.c)

    A table is a sequence of one to three byte codes, each one or two run
    lengths; the runs alternate between "not in the set" and "in the set".
    [lre_is_in_table] looks one code point up through an index of block
    starts; the loop of [unicode_prop1] expands a whole table to a
    [CharRange].  They decode the same format with separate code: the theorem
    of this file is that they agree on every indexed table. *)
From S2P Require Import Prelude Alloc CharRange UnicodeTables TableSearch CaseConv.

Definition UNICODE_INDEX_BLOCK_LEN : Z := 32.

Definition get_le24 (ptr : list Z) (i : Z) : option Z :=
  b0 ← ptr.[i]; b1 ← ptr.[i + 1]; b2 ← ptr.[i + 2];
  Some (b0 .| (b1 << 8) .| (b2 << 16)).

(** the [while ((idx_max - idx_min) > 1)] loop: the final [idx_min] *)
Fixpoint index_search (fuel : nat) (c : Z) (index_table : list Z) (idx_min idx_max : Z) : option Z :=
  match fuel with
  | O => None
  | S fuel =>
    if idx_max - idx_min >? 1 then
      let idx := (idx_max + idx_min) / 2 in
      v ← get_le24 index_table (idx * 3);
      let code := v .& ((1 << 21) - 1) in
      if c <? code then index_search fuel c index_table idx_min idx
      else index_search fuel c index_table idx idx_max
    else Some idx_min
  end.
(** the returned position and [*pcode], which [-1] leaves unset (here 0) *)
Definition get_index_pos (c : Z) (index_table : list Z) (index_table_len : Z) : option (Z * Z) :=
  v ← get_le24 index_table 0;
  let code := v .& ((1 << 21) - 1) in
  if c <? code then Some (0, 0)
  else
    let idx_max := index_table_len - 1 in
    code ← get_le24 index_table (idx_max * 3);
    if c >=? code then Some (-1, 0)
    else
      idx_min ← index_search (S (length index_table)) c index_table 0 idx_max;
      v ← get_le24 index_table (idx_min * 3);
      Some ((idx_min + 1) * UNICODE_INDEX_BLOCK_LEN + (v >> 21), v .& ((1 << 21) - 1)).

(** the [for(;;)] loop of [lre_is_in_table]; [p] is an index in [table] *)
Fixpoint in_table_loop (fuel : nat) (c : Z) (table : list Z) (p code bit : Z) : option Z :=
  match fuel with
  | O => None
  | S fuel =>
    b ← table.[p];
    let last p code bit :=
      if c <? code then Some bit else in_table_loop fuel c table p code (bit .^ 1) in
    if b <? 64 then
      let code := u32 (code + (b >> 3) + 1) in
      if c <? code then Some bit
      else last (p + 1) (u32 (code + (b .& 7) + 1)) (bit .^ 1)
    else if b >=? 0x80 then last (p + 1) (u32 (code + (b - 0x80) + 1)) bit
    else if b <? 0x60 then
      b1 ← table.[p + 1];
      last (p + 2) (u32 (code + (((b - 0x40) << 8) .| b1) + 1)) bit
    else
      b1 ← table.[p + 1]; b2 ← table.[p + 2];
      last (p + 3) (u32 (code + (((b - 0x60) << 16) .| (b1 << 8) .| b2) + 1)) bit
  end.
Definition lre_is_in_table (c : Z) (table index_table : list Z) (index_table_len : Z) : option bool :=
  '(pos, code) ← get_index_pos c index_table index_table_len;
  if pos <? 0 then Some false
  else bit ← in_table_loop (S (length table)) c table pos code 0; Some (negb (bit =? 0)).

Definition lre_is_cased (c : Z) : option bool :=
  hit ← case_search c;
  match hit with
  | Some _ => Some true
  | None => lre_is_in_table c unicode_prop_Cased1_table unicode_prop_Cased1_index
              (zlen unicode_prop_Cased1_index / 3)
  end.
Definition lre_is_case_ignorable (c : Z) : option bool :=
  lre_is_in_table c unicode_prop_Case_Ignorable_table unicode_prop_Case_Ignorable_index
    (zlen unicode_prop_Case_Ignorable_index / 3).
Definition lre_is_id_start (c : Z) : option bool :=
  lre_is_in_table c unicode_prop_ID_Start_table unicode_prop_ID_Start_index
    (zlen unicode_prop_ID_Start_index / 3).
Definition lre_is_id_continue (c : Z) : option bool :=
  b ← lre_is_id_start c;
  if (b : bool) then Some true
  else lre_is_in_table c unicode_prop_ID_Continue1_table unicode_prop_ID_Continue1_index
         (zlen unicode_prop_ID_Continue1_index / 3).

Section Expand.
Context `{!Allocator}.

(** the end of an iteration of [unicode_prop1]: [if (bit) add; bit ^= 1] *)
Definition prop1_add (cr : CharRange) (bit c0 c : Z) : M (Z * CharRange) :=
  if negb (bit =? 0) then cr_add_interval cr c0 c else mret (0, cr).

(** the loop of [unicode_prop1] over one table; [p] is an index in it *)
Fixpoint prop1_loop (fuel : nat) (cr : CharRange) (table : list Z) (p c bit : Z) : M (Z * CharRange) :=
  match fuel with
  | O => ub
  | S fuel =>
    if p <? zlen table then
      b ← lift table.[p];
      let last cr p c0 c bit :=
        '(ret, cr) ← prop1_add cr bit c0 c;
        if negb (ret =? 0) then mret (-1, cr) else prop1_loop fuel cr table p c (bit .^ 1) in
      if b <? 64 then
        let c1 := u32 (c + (b >> 3) + 1) in
        '(ret, cr) ← prop1_add cr bit c c1;
        if negb (ret =? 0) then mret (-1, cr)
        else last cr (p + 1) c1 (u32 (c1 + (b .& 7) + 1)) (bit .^ 1)
      else if b >=? 0x80 then last cr (p + 1) c (u32 (c + (b - 0x80) + 1)) bit
      else if b <? 0x60 then
        b1 ← lift table.[p + 1];
        last cr (p + 2) c (u32 (c + (((b - 0x40) << 8) .| b1) + 1)) bit
      else
        b1 ← lift table.[p + 1]; b2 ← lift table.[p + 2];
        last cr (p + 3) c (u32 (c + (((b - 0x60) << 16) .| (b1 << 8) .| b2) + 1)) bit
    else mret (0, cr)
  end.
Definition prop1_table (cr : CharRange) (table : list Z) : M (Z * CharRange) :=
  prop1_loop (S (length table)) cr table 0 0 0.
Definition unicode_prop1 (cr : CharRange) (prop_idx : Z) : M (Z * CharRange) :=
  table ← lift unicode_prop_table.[prop_idx];
  prop1_table cr table.
End Expand.

(** ** The format *)

(** the code points where the runs of a table end, starting at [c] *)
Fixpoint boundaries (t : list Z) (c : Z) : option (list Z) :=
  match t with
  | [] => Some []
  | b :: t =>
    if b <? 64 then
      let c1 := u32 (c + (b >> 3) + 1) in
      let c2 := u32 (c1 + (b .& 7) + 1) in
      l ← boundaries t c2; Some (c1 :: c2 :: l)
    else if b >=? 0x80 then
      let c1 := u32 (c + (b - 0x80) + 1) in
      l ← boundaries t c1; Some (c1 :: l)
    else if b <? 0x60 then
      match t with
      | b1 :: t =>
        let c1 := u32 (c + (((b - 0x40) << 8) .| b1) + 1) in
        l ← boundaries t c1; Some (c1 :: l)
      | _ => None
      end
    else
      match t with
      | b1 :: b2 :: t =>
        let c1 := u32 (c + (((b - 0x60) << 16) .| (b1 << 8) .| b2) + 1) in
        l ← boundaries t c1; Some (c1 :: l)
      | _ => None
      end
  end.

(** a one-run code at code point [c], and where its run ends *)
Inductive long_code (c : Z) : list Z → Z → Prop :=
| long_code1 b : 0x80 <= b → long_code c [b] (u32 (c + (b - 0x80) + 1))
| long_code2 b b1 : 64 <= b < 0x60 →
    long_code c [b; b1] (u32 (c + (((b - 0x40) << 8) .| b1) + 1))
| long_code3 b b1 b2 : 0x60 <= b < 0x80 →
    long_code c [b; b1; b2] (u32 (c + (((b - 0x60) << 16) .| (b1 << 8) .| b2) + 1)).

(** Induction over a well-formed table. *)
Lemma boundaries_ind (P : list Z → Z → list Z → Prop) :
  (∀ c, P [] c []) →
  (∀ b t c l, b < 64 →
     let c1 := u32 (c + (b >> 3) + 1) in let c2 := u32 (c1 + (b .& 7) + 1) in
     P t c2 l → P (b :: t) c (c1 :: c2 :: l)) →
  (∀ code t c c1 l, long_code c code c1 → P t c1 l → P (code ++ t) c (c1 :: l)) →
  ∀ t c l, boundaries t c = Some l → P t c l.
Proof.
  intros H0 H2 H1 t. induction t as [t IH] using (induction_ltof1 _ (@length Z)). unfold ltof in IH.
  intros c l Hb. destruct t as [|b t]; cbn [boundaries] in Hb; [by inv_some|].
  destruct (Z.ltb_spec b 64); [|rewrite Z.geb_leb in Hb; destruct (Z.leb_spec 0x80 b);
    [|destruct (Z.ltb_spec b 0x60); [destruct t as [|b1 t]; [done|]|destruct t as [|b1 [|b2 t]]; [done..|]]]];
    cbv zeta in Hb; inv_some.
  - apply H2; [lia|]. apply IH; [cbn; lia|done].
  - apply (H1 [b]); [by constructor|]. apply IH; [cbn; lia|done].
  - apply (H1 [b; b1]); [by constructor|]. apply IH; [cbn; lia|done].
  - apply (H1 [b; b1; b2]); [by constructor; lia|]. apply IH; [cbn; lia|done].
Qed.

Lemma b2z_flip b : b2z b .^ 1 = b2z (negb b).
Proof. by destruct b. Qed.
Lemma b2z_eqb_0 b : (b2z b =? 0) = negb b.
Proof. by destruct b. Qed.

(** Read the bytes of a code at its position in the table. *)
Ltac read_code := rewrite ?aget_app_at, ?aget_app_off, ?(aget_cons_pos _ _ 1), ?(aget_cons_pos _ _ 2),
  ?(aget_cons_pos _ _ (2 - 1)), ?aget_cons_0 by lia; cbn [mbind option_bind].
(** the tests that select the format of a code *)
Ltac code_tests b := destruct (Z.ltb_spec b 64); try lia; rewrite ?Z.geb_leb;
  try (destruct (Z.leb_spec 0x80 b); try lia; try (destruct (Z.ltb_spec b 0x60); try lia)).

Lemma in_table_long fuel c pre code t cd c1 bit :
  long_code cd code c1 →
  in_table_loop (S fuel) c (pre ++ code ++ t) (zlen pre) cd bit =
    if c <? c1 then Some bit
    else in_table_loop fuel c (pre ++ code ++ t) (zlen (pre ++ code)) c1 (bit .^ 1).
Proof.
  intros H. cbn [in_table_loop]. rewrite zlen_app. inversion H; subst; cbn [app]; read_code; code_tests b; read_code; done.
Qed.

Lemma in_table_loop_spec c t cd l :
  boundaries t cd = Some l → StronglySorted Z.lt l → Exists (λ x, c < x) l →
  ∀ fuel pre (bit : bool), (length t < fuel)%nat →
  in_table_loop fuel c (pre ++ t) (zlen pre) cd (b2z bit) = Some (b2z (xorb bit (cr_mem l c))).
Proof.
  intros Hb. revert t cd l Hb. apply (boundaries_ind (λ t cd l, StronglySorted Z.lt l → Exists (λ x, c < x) l →
    ∀ fuel pre (bit : bool), (length t < fuel)%nat →
    in_table_loop fuel c (pre ++ t) (zlen pre) cd (b2z bit) = Some (b2z (xorb bit (cr_mem l c))))).
  - intros cd _ He. by apply Exists_nil in He.
  - intros b t cd l Hb c1 c2 IH Hs He fuel pre bit Hf. destruct fuel as [|fuel]; [lia|].
    apply StronglySorted_inv in Hs as [Hs H1]. pose proof Hs as [Hs' H2]%StronglySorted_inv.
    cbn [in_table_loop]. read_code. destruct (Z.ltb_spec b 64); [|lia]. fold c1. cbn [cr_mem].
    destruct (Z.ltb_spec c c1), (Z.leb_spec c1 c); try lia.
    + change (xorb (c2 <=? c) (cr_mem l c)) with (cr_mem (c2 :: l) c).
      rewrite cr_mem_lt; [by rewrite !xorb_false_r|]. eapply Forall_impl; [exact H1|]. cbn; intros; lia.
    + fold c2. rewrite b2z_flip. destruct (Z.ltb_spec c c2), (Z.leb_spec c2 c); try lia.
      * rewrite cr_mem_lt; [by destruct bit|]. eapply Forall_impl; [exact H2|]. cbn; intros; lia.
      * apply Exists_cons in He as [?|He]; [lia|]. apply Exists_cons in He as [?|He]; [lia|].
        replace (zlen pre + 1) with (zlen (pre ++ [b])) by (by rewrite zlen_app).
        change (pre ++ b :: t) with (pre ++ [b] ++ t). rewrite app_assoc, b2z_flip, IH;
          [by destruct bit, (cr_mem l c)|done..|cbn in Hf; lia].
  - intros code t cd c1 l Hc IH Hs He fuel pre bit Hf. destruct fuel as [|fuel]; [lia|].
    apply StronglySorted_inv in Hs as [Hs H1]. rewrite (in_table_long _ _ _ _ _ _ _ _ Hc). cbn [cr_mem].
    destruct (Z.ltb_spec c c1), (Z.leb_spec c1 c); try lia.
    + rewrite cr_mem_lt; [by destruct bit|]. eapply Forall_impl; [exact H1|]. cbn; intros; lia.
    + apply Exists_cons in He as [?|He]; [lia|]. rewrite app_assoc, b2z_flip, IH;
        [by destruct bit, (cr_mem l c)|done..|]. inversion Hc; subst; cbn in Hf; lia.
Qed.

(** ** Expansion *)

(** the intervals that [unicode_prop1] adds for runs that start at [c0] *)
Fixpoint run_intervals (c0 : Z) (bit : bool) (l : list Z) : list Z :=
  match l with
  | [] => []
  | c :: l => (if bit then [c0; c] else []) ++ run_intervals c (negb bit) l
  end.
Lemma run_intervals_in l c0 bit c :
  StronglySorted Z.lt (c0 :: l) →
  cr_in (run_intervals c0 bit l) c ↔ c0 <= c ∧ Exists (λ x, c < x) l ∧ xorb bit (cr_mem l c) = true.
Proof.
  revert c0 bit. induction l as [|x l IH]; intros c0 bit Hs.
  - cbn. unfold cr_in. cbn. rewrite !Exists_nil. tauto.
  - apply StronglySorted_inv in Hs as [Hs H0]. apply Forall_cons in H0 as [H0 _].
    pose proof Hs as [_ Hx]%StronglySorted_inv. specialize (IH x (negb bit) Hs).
    rewrite Exists_cons. cbn [run_intervals cr_mem]. unfold cr_in in *.
    destruct (Z.leb_spec x c).
    + destruct bit; cbn [app to_pairs negb xorb] in *; rewrite ?Exists_cons, IH; cbn;
        destruct (cr_mem l c); cbn; intuition lia.
    + rewrite cr_mem_lt in * by (eapply Forall_impl; [exact Hx|]; cbn; intros; lia).
      destruct bit; cbn [app to_pairs negb xorb] in *; rewrite ?Exists_cons, IH; cbn; intuition (lia || done).
Qed.

Section ExpandLemmas.
Context `{!Allocator}.

Lemma prop1_add_cases cr (bit : bool) c0 c h :
  cr_fits cr →
  ∃ ret cr' h', prop1_add cr (b2z bit) c0 c h = Some ((ret, cr'), h') ∧ cr_fits cr' ∧
    ((ret = 0 ∧ cr_points cr' = cr_points cr ++ if bit then [c0; c] else []) ∨
     (ret = -1 ∧ ∃ n sz, realloc_ok n sz = false)).
Proof.
  intros Hf. unfold prop1_add. rewrite b2z_eqb_0. destruct bit; cbn [negb].
  - by apply cr_add_interval_cases.
  - exists 0, cr, h. rewrite app_nil_r. eauto.
Qed.

(** the outcome of an expansion that appends [pts] *)
Definition cr_appended (cr : CharRange) (pts : list Z) (r : option ((Z * CharRange) * heap)) : Prop :=
  ∃ ret cr' h', r = Some ((ret, cr'), h') ∧ cr_fits cr' ∧
    ((ret = 0 ∧ cr_points cr' = cr_points cr ++ pts) ∨ (ret = -1 ∧ ∃ n sz, realloc_ok n sz = false)).

(** Sequencing: append, stop on failure, continue. *)
Lemma cr_appended_bind (m : M (Z * CharRange)) (k : CharRange → M (Z * CharRange)) cr pts1 pts2 h :
  cr_appended cr pts1 (m h) →
  (∀ cr1 h1, cr_fits cr1 → cr_points cr1 = cr_points cr ++ pts1 → cr_appended cr1 pts2 (k cr1 h1)) →
  cr_appended cr (pts1 ++ pts2)
    (('(ret, cr) ← m; if negb (ret =? 0) then mret (-1, cr) else k cr) h).
Proof.
  intros (ret & cr1 & h1 & E & Hf & Hc) Hk. rewrite (bind_M_eq _ _ _ _ _ E).
  destruct Hc as [[-> Hp]|[-> Hfail]]; cbn [Z.eqb negb].
  - destruct (Hk cr1 h1 Hf Hp) as (ret2 & cr2 & h2 & E2 & Hf2 & Hc). exists ret2, cr2, h2.
    split; [done|]. split; [done|]. destruct Hc as [[-> Hp2]|Hc]; [left|by right].
    by rewrite Hp2, Hp, app_assoc.
  - exists (-1), cr1, h1. split; [done|]. split; [done|]. by right.
Qed.
Lemma cr_appended_id cr h : cr_fits cr → cr_appended cr [] (Some ((0, cr), h)).
Proof. intros Hf. exists 0, cr, h. rewrite app_nil_r. eauto. Qed.

Lemma prop1_loop_spec t c l :
  boundaries t c = Some l →
  ∀ fuel cr pre (bit : bool) h, (length t < fuel)%nat → cr_fits cr →
  cr_appended cr (run_intervals c bit l) (prop1_loop fuel cr (pre ++ t) (zlen pre) c (b2z bit) h).
Proof.
  revert t c l. apply (boundaries_ind (λ t c l, ∀ fuel cr pre (bit : bool) h, (length t < fuel)%nat → cr_fits cr →
    cr_appended cr (run_intervals c bit l) (prop1_loop fuel cr (pre ++ t) (zlen pre) c (b2z bit) h))).
  - intros c fuel cr pre bit h Hf Hfit. destruct fuel as [|fuel]; [lia|]. cbn [prop1_loop].
    autorewrite with zlen. zcase; [lia|]. by apply cr_appended_id.
  - intros b t c l Hb c1 c2 IH fuel cr pre bit h Hf Hfit. destruct fuel as [|fuel]; [lia|].
    cbn [prop1_loop]. zcase; [|autorewrite with zlen in *; pose proof (zlen_nonneg t); lia].
    rewrite aget_app_at, bind_lift. destruct (Z.ltb_spec b 64); [|lia].
    fold c1. fold c2. cbn [run_intervals]. apply cr_appended_bind; [by apply prop1_add_cases|].
    intros cr1 h1 Hf1 Hp1. rewrite b2z_flip. apply cr_appended_bind; [by apply prop1_add_cases|].
    intros cr2 h2 Hf2 Hp2. rewrite b2z_flip.
    replace (zlen pre + 1) with (zlen (pre ++ [b])) by (by rewrite zlen_app).
    change (pre ++ b :: t) with (pre ++ [b] ++ t). rewrite app_assoc. apply IH; [cbn in Hf; lia|done].
  - intros code t c c1 l Hc IH fuel cr pre bit h Hf Hfit. destruct fuel as [|fuel]; [lia|].
    assert (prop1_loop (S fuel) cr (pre ++ code ++ t) (zlen pre) c (b2z bit) h =
      ('(ret, cr) ← prop1_add cr (b2z bit) c c1;
       if negb (ret =? 0) then mret (-1, cr)
       else prop1_loop fuel cr (pre ++ code ++ t) (zlen (pre ++ code)) c1 (b2z bit .^ 1)) h) as ->.
    { cbn [prop1_loop]. rewrite (zlen_app pre code). pose proof (zlen_nonneg t).
      inversion Hc; subst; cbn [app]; (zcase; [|autorewrite with zlen in *; lia]); read_code;
        rewrite bind_lift; code_tests b; read_code; rewrite ?bind_lift; done. }
    cbn [run_intervals]. apply cr_appended_bind; [by apply prop1_add_cases|].
    intros cr1 h1 Hf1 Hp1. rewrite b2z_flip, app_assoc. apply IH; [|done].
    inversion Hc; subst; cbn in Hf; lia.
Qed.
End ExpandLemmas.

(** ** The index *)

Definition index_code (v : Z) : Z := v .& ((1 << 21) - 1).
Definition index_pos (i v : Z) : Z := (i + 1) * UNICODE_INDEX_BLOCK_LEN + (v >> 21).

(** the block at [pos] starts at code point [code], outside the set, and its
    runs are the end of the runs [l] of the table *)
Definition block_ok (table l : list Z) (pos code : Z) : bool :=
  match boundaries (zdrop pos table) code with
  | Some li =>
    let k := (length l - length li)%nat in
    (0 <=? pos) && bool_decide (drop k l = li) && Nat.even k && forallb (λ x, x <=? code) (take k l)
  | None => false
  end.
(** the block of each index entry but the last, the end marker *)
Fixpoint blocks_ok (table l index : list Z) (i : Z) (n : nat) : bool :=
  match n with
  | O => true
  | S n =>
    opt_test (λ v, block_ok table l (index_pos i v) (index_code v)) (get_le24 index (i * 3)) &&
    blocks_ok table l index (i + 1) n
  end.
Fixpoint increasing (c : Z) (l : list Z) : bool :=
  match l with [] => true | x :: l => (c <? x) && increasing x l end.
(** an index that fits its table: at least two entries, a first block that
    starts inside the table, and the end of the last run as end marker *)
Definition index_ok (table index : list Z) (n : Z) : bool :=
  (2 <=? n) && (3 * n <=? zlen index) &&
  opt_test (λ l, increasing 0 l &&
    blocks_ok table l index 0 (Z.to_nat (n - 1)) &&
    opt_test (λ v, bool_decide (last l = Some v)) (get_le24 index ((n - 1) * 3)) &&
    opt_test (λ v, existsb (λ x, index_code v <=? x) l) (get_le24 index 0)) (boundaries table 0).

Lemma get_le24_range index i : 0 <= i → i + 2 < zlen index → is_Some (get_le24 index i).
Proof.
  intros Hi Hn. unfold get_le24.
  destruct (aget_is_Some index i) as [x ->]; [lia|]. destruct (aget_is_Some index (i + 1)) as [y ->]; [lia|].
  destruct (aget_is_Some index (i + 2)) as [z ->]; [lia|]. cbn. eauto.
Qed.
(** The search ends inside the index, at an entry at or before [c]. *)
Lemma index_search_spec fuel c index lo hi v n :
  3 * n <= zlen index → 0 <= lo < hi → hi < n → hi - lo < Z.of_nat fuel →
  get_le24 index (lo * 3) = Some v → index_code v <= c →
  ∃ i w, index_search fuel c index lo hi = Some i ∧ lo <= i < hi ∧
    get_le24 index (i * 3) = Some w ∧ index_code w <= c.
Proof.
  intros Hn. revert lo hi v. induction fuel as [|fuel IH]; intros lo hi v Hlo Hhi Hf Hv Hc; [lia|].
  cbn [index_search]. rewrite Z.gtb_ltb. destruct (Z.ltb_spec 1 (hi - lo)).
  - assert (lo < (hi + lo) / 2 < hi) as Hm.
    { split; [apply Z.lt_le_trans with (lo + 1); [lia|apply Z.div_le_lower_bound; lia]|apply Z.div_lt_upper_bound; lia]. }
    set (m := (hi + lo) / 2) in *. destruct (get_le24_range index (m * 3)) as [w Hw]; [lia..|].
    rewrite Hw. cbn [mbind option_bind]. change (w .& _) with (index_code w).
    destruct (Z.ltb_spec c (index_code w)).
    + destruct (IH lo m v) as (i & x & H1 & H2 & H3); [lia..|done|done|]. exists i, x.
      split; [done|]. split; [lia|done].
    + destruct (IH m hi w) as (i & x & H1 & H2 & H3); [lia..|done|done|]. exists i, x.
      split; [done|]. split; [lia|done].
  - exists lo, v. split; [done|]. split; [lia|done].
Qed.

Lemma increasing_sorted c l : increasing c l = true → StronglySorted Z.lt (c :: l).
Proof.
  revert c. induction l as [|x l IH]; intros c H; [by repeat constructor|].
  cbn [increasing] in H. bool_props. specialize (IH x H0). constructor; [done|].
  constructor; [done|]. apply StronglySorted_inv in IH as [_ IH]. eapply Forall_impl; [exact IH|]. cbn; intros; lia.
Qed.
Lemma blocks_ok_spec table l index i n v k :
  blocks_ok table l index i n = true → i <= k < i + Z.of_nat n → get_le24 index (k * 3) = Some v →
  block_ok table l (index_pos k v) (index_code v) = true.
Proof.
  revert i. induction n as [|n IH]; intros i H Hk Hv; [lia|].
  cbn [blocks_ok] in H. apply andb_true_iff in H as [H1 H2].
  destruct (decide (k = i)) as [->|]; [by rewrite Hv in H1|]. apply (IH (i + 1)); [done|lia|done].
Qed.
Lemma cr_mem_even l c : Forall (λ x, x <= c) l → cr_mem l c = odd_len l.
Proof.
  induction 1 as [|x l Hx _ IH]; [done|]. cbn [cr_mem]. rewrite IH, odd_len_cons.
  by destruct (Z.leb_spec x c); [|lia].
Qed.

(** A lookup from the start of a block. *)
Lemma block_lookup table l pos code c :
  block_ok table l pos code = true → StronglySorted Z.lt l → code <= c →
  Exists (λ x, c < x) l →
  in_table_loop (S (length table)) c table pos code 0 = Some (b2z (cr_mem l c)).
Proof.
  intros H Hs Hc He. unfold block_ok in H.
  destruct (boundaries (zdrop pos table) code) as [li|] eqn:Hb; [|done].
  set (k := (length l - length li)%nat) in *.
  apply andb_true_iff in H as [[[Hpos%Z.leb_le Hd%bool_decide_eq_true]%andb_true_iff Hk]%andb_true_iff Hpre].
  assert (l = take k l ++ li) as Hl by (by rewrite <- Hd, take_drop).
  assert (Forall (λ x, x <= c) (take k l)) as Hfa.
  { apply Forall_forall. intros x Hx%list_elem_of_In. rewrite forallb_forall in Hpre.
    apply Hpre in Hx. lia. }
  assert (Exists (λ x, c < x) li) as Hli.
  { rewrite Hl in He. apply Exists_app in He as [He|He]; [|done].
    apply Exists_exists in He as (x & Hx & Hcx). rewrite Forall_forall in Hfa. apply Hfa in Hx. lia. }
  assert (StronglySorted Z.lt li) as Hsl.
  { rewrite Hl in Hs. clear - Hs. induction (take k l) as [|x q IH]; [done|].
    apply IH. cbn in Hs. by apply StronglySorted_inv in Hs as [? _]. }
  assert (pos <= zlen table) as Hlen.
  { destruct (decide (pos <= zlen table)); [done|]. unfold zdrop in Hb.
    rewrite drop_ge in Hb by (unfold zlen in *; lia). cbn in Hb. assert (li = []) as -> by congruence. by apply Exists_nil in Hli. }
  assert (cr_mem l c = cr_mem li c) as ->.
  { rewrite Hl at 1. rewrite cr_mem_app, (cr_mem_even (take k l)) by done.
    assert (odd_len (take k l) = false) as ->; [|done]. apply even_len_odd. unfold even_len.
    rewrite length_take, Nat.min_l; [done|lia]. }
  pose proof (in_table_loop_spec c _ _ _ Hb Hsl Hli (S (length table)) (ztake pos table) false) as H.
  rewrite ztake_zdrop, zlen_ztake in H by lia. cbn [b2z xorb] in H. rewrite H; [by destruct (cr_mem li c)|].
  unfold zdrop. rewrite length_drop. lia.
Qed.

Lemma cr_mem_beyond l c v : StronglySorted Z.lt l → last l = Some v → v <= c → ¬ Exists (λ x, c < x) l.
Proof.
  intros Hs. induction Hs as [|x l Hs IH Hx]; intros Hl Hc; [done|]. rewrite Exists_cons.
  destruct l as [|y l]; [injection Hl as ->; rewrite Exists_nil; lia|].
  specialize (IH Hl Hc). intros [|]; [|done]. apply IH. apply Forall_cons in Hx as [Hx _].
  apply Exists_cons. left. lia.
Qed.

(** Lookup through an index against the runs of the table. *)
Lemma lre_is_in_table_runs table index n c :
  index_ok table index n = true → 0 <= c →
  ∃ l b, boundaries table 0 = Some l ∧ StronglySorted Z.lt (0 :: l) ∧
    lre_is_in_table c table index n = Some b ∧
    (b = true ↔ cr_in (run_intervals 0 false l) c).
Proof.
  intros H Hc. unfold index_ok in H.
  apply andb_true_iff in H as [[Hn2%Z.leb_le Hn%Z.leb_le]%andb_true_iff H].
  apply opt_test_Some in H as (l & Hb & H).
  apply andb_true_iff in H as [[[Hs%increasing_sorted Hblocks]%andb_true_iff Hlast]%andb_true_iff Hfirst].
  apply opt_test_Some in Hlast as (vl & Hvl & Hlast%bool_decide_eq_true).
  apply opt_test_Some in Hfirst as (v0 & Hv0 & Hfirst).
  pose proof Hs as [Hsl _]%StronglySorted_inv.
  exists l. unfold lre_is_in_table, get_index_pos. rewrite Hv0. cbn [mbind option_bind].
  change (v0 .& _) with (index_code v0). setoid_rewrite run_intervals_in; [|done..].
  assert (∀ pos code, Exists (λ x, c < x) l → (pos <? 0) = false →
    in_table_loop (S (length table)) c table pos code 0 = Some (b2z (cr_mem l c)) →
    ∃ b, boundaries table 0 = Some l ∧ StronglySorted Z.lt (0 :: l) ∧
      (if pos <? 0 then Some false
       else bit ← in_table_loop (S (length table)) c table pos code 0; Some (negb (bit =? 0))) = Some b ∧
      (b = true ↔ 0 <= c ∧ Exists (λ x, c < x) l ∧ xorb false (cr_mem l c) = true)) as Hfin.
  { intros pos code He -> ->. exists (cr_mem l c). cbn [mbind option_bind]. rewrite b2z_eqb_0, negb_involutive.
    split; [done|]. split; [done|]. split; [done|]. cbn. tauto. }
  destruct (Z.ltb_spec c (index_code v0)).
  - assert (Exists (λ x, c < x) l) as He.
    { apply existsb_exists in Hfirst as (x & Hx%list_elem_of_In & Hle). apply Exists_exists. exists x. split; [done|lia]. }
    apply Hfin; [done..|].
    apply (in_table_loop_spec c table 0 l Hb Hsl He (S (length table)) [] false). lia.
  - rewrite Hvl. cbn [mbind option_bind]. rewrite Z.geb_leb. destruct (Z.leb_spec vl c).
    + exists false. split; [done|]. split; [done|]. split; [done|].
      split; [done|]. intros (_ & He & _). exfalso. by eapply (cr_mem_beyond l c vl).
    + assert (Exists (λ x, c < x) l) as He.
      { apply Exists_exists. exists vl. split; [by apply last_Some_elem_of|done]. }
      destruct (index_search_spec (S (length index)) c index 0 (n - 1) v0 n) as (i & w & E & Hi & Hw & Hwc);
        [lia..|unfold zlen in *; lia|done|done|].
      rewrite E. cbn [mbind option_bind]. rewrite Hw. cbn [mbind option_bind].
      assert (block_ok table l (index_pos i w) (index_code w) = true) as Hok
        by (eapply blocks_ok_spec; [exact Hblocks|lia|done]).
      apply Hfin; [done| |by apply block_lookup].
      unfold block_ok in Hok. destruct (boundaries (zdrop _ _) _); [|done].
      apply andb_true_iff in Hok as [[[Hpos%Z.leb_le _]%andb_true_iff _]%andb_true_iff _].
      by apply Z.ltb_ge.
Qed.

(** ** The tables of the library *)
Definition indexed_tables : list (list Z * list Z) :=
  [(unicode_prop_Cased1_table, unicode_prop_Cased1_index);
   (unicode_prop_Case_Ignorable_table, unicode_prop_Case_Ignorable_index);
   (unicode_prop_ID_Start_table, unicode_prop_ID_Start_index);
   (unicode_prop_ID_Continue1_table, unicode_prop_ID_Continue1_index)].
Lemma indexed_tables_ok : forallb (λ p, index_ok p.1 p.2 (zlen p.2 / 3)) indexed_tables = true.
Proof. vm_compute. reflexivity. Qed.
Lemma indexed_table_lookup table index c :
  (table, index) ∈ indexed_tables → 0 <= c →
  ∃ l b, boundaries table 0 = Some l ∧ StronglySorted Z.lt (0 :: l) ∧
    lre_is_in_table c table index (zlen index / 3) = Some b ∧
    (b = true ↔ cr_in (run_intervals 0 false l) c).
Proof.
  intros Hin Hc. apply lre_is_in_table_runs; [|done].
  pose proof indexed_tables_ok as H. rewrite forallb_forall in H.
  by apply (H (table, index)), list_elem_of_In.
Qed.

Section Tables.
Context `{!Allocator}.

Lemma prop1_table_spec table l cr h :
  boundaries table 0 = Some l → cr_fits cr →
  cr_appended cr (run_intervals 0 false l) (prop1_table cr table h).
Proof. intros Hb Hf. apply (prop1_loop_spec table 0 l Hb (S (length table)) cr [] false); [lia|done]. Qed.

(** The indexed lookup agrees with the expansion of the whole table: for
    each indexed table and every code point, [lre_is_in_table] stays in
    bounds, terminates, and answers whether the code point is in the ranges
    that the loop of [unicode_prop1] builds from the same bytes. *)
Theorem lre_is_in_table_spec table index c h :
  (table, index) ∈ indexed_tables → 0 <= c →
  ∃ b, lre_is_in_table c table index (zlen index / 3) = Some b ∧
  ∃ ret cr h', prop1_table cr_init table h = Some ((ret, cr), h') ∧
    ((ret = -1 ∧ ∃ n sz, realloc_ok n sz = false) ∨ (ret = 0 ∧ (b = true ↔ cr_in (cr_points cr) c))).
Proof.
  intros Hin Hc. destruct (indexed_table_lookup table index c Hin Hc) as (l & b & Hb & Hs & E & Hiff).
  exists b. split; [done|].
  destruct (prop1_table_spec table l cr_init h Hb) as (ret & cr & h' & E' & _ & Hcase); [done|].
  exists ret, cr, h'. split; [done|]. destruct Hcase as [[-> ->]|Hfail]; [by right|by left].
Qed.
End Tables.

Lemma lre_is_in_table_spec_witness :
  ∃ b, lre_is_in_table 0x61 unicode_prop_ID_Start_table unicode_prop_ID_Start_index
         (zlen unicode_prop_ID_Start_index / 3) = Some b ∧
  ∃ ret cr h', prop1_table cr_init unicode_prop_ID_Start_table O = Some ((ret, cr), h') ∧
    ((ret = -1 ∧ ∃ n sz, realloc_ok n sz = false) ∨ (ret = 0 ∧ (b = true ↔ cr_in (cr_points cr) 0x61))).
Proof.
  apply (lre_is_in_table_spec unicode_prop_ID_Start_table unicode_prop_ID_Start_index 0x61 O); [|lia].
  apply elem_of_cons. right. apply elem_of_cons. right. apply elem_of_cons. by left.
Defined.

(** The predicates of the lexer and of case conversion are defined on
    every code point; every [ID_Start] character is an [ID_Continue]
    character, and every character that a case conversion changes is cased. *)
Theorem unicode_predicates_total c :
  0 <= c <= unicode_max →
  ∃ s k i g, lre_is_id_start c = Some s ∧ lre_is_id_continue c = Some k ∧
    lre_is_case_ignorable c = Some i ∧ lre_is_cased c = Some g ∧ (s = true → k = true) ∧
    (∀ conv_type res, lre_case_conv c conv_type = Some res → res ≠ [c] → g = true).
Proof.
  intros [Hc _].
  assert (∀ table index, (table, index) ∈ indexed_tables →
    ∃ b, lre_is_in_table c table index (zlen index / 3) = Some b) as Htab.
  { intros table index Hin. destruct (indexed_table_lookup table index c Hin Hc) as (_ & b & _ & _ & E & _). eauto. }
  unfold lre_is_id_continue, lre_is_id_start, lre_is_case_ignorable, lre_is_cased.
  destruct (Htab unicode_prop_ID_Start_table unicode_prop_ID_Start_index) as [s ->];
    [by unfold indexed_tables; rewrite !elem_of_cons; tauto|].
  destruct (Htab unicode_prop_ID_Continue1_table unicode_prop_ID_Continue1_index) as [k ->];
    [by unfold indexed_tables; rewrite !elem_of_cons; tauto|].
  destruct (Htab unicode_prop_Case_Ignorable_table unicode_prop_Case_Ignorable_index) as [i ->];
    [by unfold indexed_tables; rewrite !elem_of_cons; tauto|].
  destruct (Htab unicode_prop_Cased1_table unicode_prop_Cased1_index) as [g ->];
    [by unfold indexed_tables; rewrite !elem_of_cons; tauto|].
  exists s, (if s then true else k), i, (if case_search c is Some (Some _) then true else g).
  split; [done|]. split; [by destruct s|]. split; [done|].
  destruct (case_search_spec c) as [(j & v & E & Hr)|[E Hno]]; rewrite E; cbn [mbind option_bind];
    (split; [done|]); (split; [by intros ->|]); [done|].
  intros t res Hres Hne. destruct (Z.ltb_spec c 128).
  - rewrite lre_case_conv_ascii in Hres by done. rewrite !Z.geb_leb in Hres.
    assert (¬ (0x41 <= c < 0x41 + 26)) by (intros ?; by apply (Hno 0 2136624)).
    assert (¬ (0x61 <= c < 0x61 + 26)) by (intros ?; by apply (Hno 1 3185152)).
    destruct (Z.leb_spec 0x41 c), (Z.leb_spec c 0x5a), (Z.leb_spec 0x61 c), (Z.leb_spec c 0x7a); try lia;
      cbn [andb] in Hres; destruct (negb _); congruence.
  - rewrite lre_case_conv_unfold, E in Hres by done. cbn in Hres. congruence.
Qed.
Lemma unicode_predicates_total_witness :
  ∃ s k i g, lre_is_id_start 0x3b1 = Some s ∧ lre_is_id_continue 0x3b1 = Some k ∧
    lre_is_case_ignorable 0x3b1 = Some i ∧ lre_is_cased 0x3b1 = Some g ∧ (s = true → k = true) ∧
    (∀ conv_type res, lre_case_conv 0x3b1 conv_type = Some res → res ≠ [0x3b1] → g = true).
Proof. apply (unicode_predicates_total 0x3b1). split; unfold unicode_max; lia. Defined.
