(* ===== verification/UnicodeProps.v ===== *)
(** * Unicode properties as character ranges (js/libunicode.c)

    The functions that expand the tables of general categories, scripts,
    properties and case runs to a [CharRange], look names up, evaluate the
    small stack programs of [unicode_prop], and canonicalize a range for case
    insensitive regular expressions. *)
From Stdlib Require Import Btauto.
From S2P Require Import Prelude Alloc Cutils CharRange UnicodeTables TableSearch CaseConv RunTable.

(** [if (f(..)) return -1;] *)
Definition or_fail (m : M (Z * CharRange)) (k : CharRange → M (Z * CharRange)) : M (Z * CharRange) :=
  '(ret, cr) ← m; if negb (ret =? 0) then mret (-1, cr) else k cr.
Notation "x ←? m ; k" := (or_fail m (λ x, k))
  (at level 20, m at level 100, k at level 200, right associativity) : c_scope.

(** ** Names *)

(** [strchr]: the index of [ch] before the NUL, if any *)
Fixpoint strchr (p : list Z) (ch : Z) : option (option Z) :=
  match p with
  | [] => None
  | x :: p =>
    if x =? ch then Some (Some 0)
    else if x =? 0 then Some None
    else r ← strchr p ch; Some (option_map (Z.add 1) r)
  end.
(** the inner [for(;;)] over the aliases of one entry: [None] when one of
    them is the name, the rest of the table otherwise *)
Fixpoint find_alias (fuel : nat) (p name : list Z) (name_len : Z) : option (option (list Z)) :=
  match fuel with
  | O => None
  | S fuel =>
    r ← strchr p 0x2c;
    len ← match r with None => strlen p | Some i => Some i end;
    if (len =? name_len) && bool_decide (ztake name_len p = ztake name_len name) then Some None
    else
      let p := zdrop (len + 1) p in
      match r with
      | None => Some (Some p)
      | Some _ => find_alias fuel p name name_len
      end
  end.
Fixpoint find_name_loop (fuel : nat) (p name : list Z) (name_len pos : Z) : option Z :=
  match fuel with
  | O => None
  | S fuel =>
    x ← p.[0];
    if x =? 0 then Some (-1)
    else
      r ← find_alias (S (length p)) p name name_len;
      match r with
      | None => Some pos
      | Some p => find_name_loop fuel p name name_len (pos + 1)
      end
  end.
Definition unicode_find_name (name_table name : list Z) : option Z :=
  name_len ← strlen name;
  find_name_loop (S (length name_table)) name_table name name_len 0.

(** ** General categories *)

(** [M(id)] *)
Definition gc_bit (id : Z) : Z := 1 << id.
Definition gc_bits (ids : list Z) : Z := foldr (λ id m, gc_bit id .| m) 0 ids.

(** one code of [unicode_gc_table] at [p]: the run length minus 1, the
    category, and the next position *)
Definition gc_decode (table : list Z) (p : Z) : option (Z * Z * Z) :=
  b ← table.[p];
  let n := b >> 5 in
  let v := b .& 0x1f in
  if n =? 7 then
    n ← table.[p + 1];
    if n <? 128 then Some (n + 7, v, p + 2)
    else if n <? 128 + 64 then
      b1 ← table.[p + 2];
      Some ((((n - 128) << 8) .| b1) + 7 + 128, v, p + 3)
    else
      b1 ← table.[p + 2]; b2 ← table.[p + 3];
      Some ((((n - 128 - 64) << 16) .| (b1 << 8) .| b2) + 7 + 128 + (1 << 14), v, p + 4)
  else Some (n, v, p + 1).

(** one code of [unicode_script_table]: run length minus 1, script, next position *)
Definition script_decode (table : list Z) (p : Z) : option (Z * Z * Z) :=
  b ← table.[p];
  let type := b >> 7 in
  let n := b .& 0x7f in
  '(n, p) ← (if n <? 96 then Some (n, p + 1)
             else if n <? 112 then
               b1 ← table.[p + 1];
               Some ((((n - 96) << 8) .| b1) + 96, p + 2)
             else
               b1 ← table.[p + 1]; b2 ← table.[p + 2];
               Some ((((n - 112) << 16) .| (b1 << 8) .| b2) + 96 + (1 << 12), p + 3));
  if type =? 0 then Some (n, 0, p) else v ← table.[p]; Some (n, v, p + 1).

(** one code of [unicode_script_ext_table]: run length minus 1, position and
    number of the scripts *)
Definition script_ext_decode (table : list Z) (p : Z) : option (Z * Z * Z) :=
  b ← table.[p];
  '(n, p) ← (if b <? 128 then Some (b, p + 1)
             else if b <? 128 + 64 then
               b1 ← table.[p + 1]; Some ((((b - 128) << 8) .| b1) + 128, p + 2)
             else
               b1 ← table.[p + 1]; b2 ← table.[p + 2];
               Some ((((b - 128 - 64) << 16) .| (b1 << 8) .| b2) + 128 + (1 << 14), p + 3));
  v_len ← table.[p];
  Some (n, p + 1, v_len).

(** the [for(i = 0; i < v_len; i++)] search of a script in a list *)
Fixpoint script_listed (n : nat) (table : list Z) (p script_idx : Z) : option bool :=
  match n with
  | O => Some false
  | S n =>
    x ← table.[p];
    if x =? script_idx then Some true else script_listed n table (p + 1) script_idx
  end.

Section Expand.
Context `{!Allocator}.

(** [for(; c0 < c; c0 += 2) cr_add_interval(cr, c0, c0 + 1)] *)
Fixpoint add_alternate (fuel : nat) (cr : CharRange) (c0 c : Z) : M (Z * CharRange) :=
  match fuel with
  | O => ub
  | S fuel =>
    if c0 <? c then
      cr ←? cr_add_interval cr c0 (u32 (c0 + 1));
      add_alternate fuel cr (u32 (c0 + 2)) c
    else mret (0, cr)
  end.

(** the part of one iteration after a run [[c0, c)] of category [v] is decoded *)
Definition gc_add_run (cr : CharRange) (gc_mask c0 c v : Z) : M (Z * CharRange) :=
  if v =? 31 then
    let both := gc_bit UNICODE_GC_Lu .| gc_bit UNICODE_GC_Ll in
    let b := gc_mask .& both in
    if negb (b =? 0) then
      if b =? both then cr_add_interval cr c0 c
      else
        let c0 := u32 (c0 + b2z (negb (gc_mask .& gc_bit UNICODE_GC_Ll =? 0))) in
        add_alternate (S (Z.to_nat (c - c0))) cr c0 c
    else mret (0, cr)
  else if negb ((gc_mask >> v) .& 1 =? 0) then cr_add_interval cr c0 c
  else mret (0, cr).
Fixpoint gc_loop (fuel : nat) (cr : CharRange) (table : list Z) (p c gc_mask : Z) : M (Z * CharRange) :=
  match fuel with
  | O => ub
  | S fuel =>
    if p <? zlen table then
      '(n, v, p) ← lift (gc_decode table p);
      let c0 := c in
      let c := u32 (c + n + 1) in
      cr ←? gc_add_run cr gc_mask c0 c v;
      gc_loop fuel cr table p c gc_mask
    else mret (0, cr)
  end.
Definition unicode_general_category1 (cr : CharRange) (gc_mask : Z) : M (Z * CharRange) :=
  gc_loop (S (length unicode_gc_table)) cr unicode_gc_table 0 0 gc_mask.

(** ** Scripts *)
Fixpoint script_loop (fuel : nat) (cr1 : CharRange) (table : list Z) (p c script_idx : Z) : M (Z * CharRange) :=
  match fuel with
  | O => ub
  | S fuel =>
    if p <? zlen table then
      '(n, v, p) ← lift (script_decode table p);
      let c1 := u32 (c + n + 1) in
      cr1 ←? (if v =? script_idx then cr_add_interval cr1 c c1 else mret (0, cr1));
      script_loop fuel cr1 table p c1 script_idx
    else mret (0, cr1)
  end.
Fixpoint script_ext_loop (fuel : nat) (cr2 : CharRange) (table : list Z) (p c script_idx : Z)
    (is_common : bool) : M (Z * CharRange) :=
  match fuel with
  | O => ub
  | S fuel =>
    if p <? zlen table then
      '(n, p, v_len) ← lift (script_ext_decode table p);
      let c1 := u32 (c + n + 1) in
      add ← (if is_common then mret (negb (v_len =? 0))
             else lift (script_listed (Z.to_nat v_len) table p script_idx));
      cr2 ←? (if (add : bool) then cr_add_interval cr2 c c1 else mret (0, cr2));
      script_ext_loop fuel cr2 table (p + v_len) c1 script_idx is_common
    else mret (0, cr2)
  end.

(** the label [fail]: it ends with [goto fail], so that it never returns (and
    frees the work ranges again and again) *)
Definition script_fail : M (Z * CharRange) := ub.
(** [goto fail] when the call failed *)
Definition or_goto_fail (m : M (Z * CharRange)) (k : CharRange → M (Z * CharRange)) : M (Z * CharRange) :=
  '(ret, cr) ← m; if negb (ret =? 0) then script_fail else k cr.

Definition unicode_script (cr : CharRange) (script_name : list Z) (is_ext : bool) : M (Z * CharRange) :=
  script_idx ← lift (unicode_find_name unicode_script_name_table script_name);
  if script_idx <? 0 then mret (-2, cr)
  else
    let script_idx := script_idx + UNICODE_SCRIPT_Unknown + 1 in
    let is_common := (script_idx =? UNICODE_SCRIPT_Common) || (script_idx =? UNICODE_SCRIPT_Inherited) in
    let cr1 := if is_ext then cr_init else cr in
    or_goto_fail (script_loop (S (length unicode_script_table)) cr1 unicode_script_table 0 0 script_idx) (λ cr1,
    if is_ext then
      or_goto_fail (script_ext_loop (S (length unicode_script_ext_table)) cr_init unicode_script_ext_table
                      0 0 script_idx is_common) (λ cr2,
      if is_common then
        or_goto_fail (cr_invert cr2) (λ cr2,
        or_goto_fail (cr_op cr (cr_points cr1) (cr_points cr2) CR_OP_INTER) (λ cr, mret (0, cr)))
      else
        or_goto_fail (cr_op cr (cr_points cr1) (cr_points cr2) CR_OP_UNION) (λ cr, mret (0, cr)))
    else mret (0, cr1)).

(** ** Case *)
Definition CASE_U : Z := 1 << 0.
Definition CASE_L : Z := 1 << 1.
Definition CASE_F : Z := 1 << 2.
Definition tab_run_mask : list Z :=
  [gc_bits [RUN_TYPE_U; RUN_TYPE_UF; RUN_TYPE_UL; RUN_TYPE_LSU; RUN_TYPE_U2L_399_EXT2; RUN_TYPE_UF_D20;
            RUN_TYPE_UF_D1_EXT; RUN_TYPE_U_EXT; RUN_TYPE_UF_EXT2; RUN_TYPE_UF_EXT3];
   gc_bits [RUN_TYPE_L; RUN_TYPE_LF; RUN_TYPE_UL; RUN_TYPE_LSU; RUN_TYPE_U2L_399_EXT2; RUN_TYPE_LF_EXT;
            RUN_TYPE_LF_EXT2];
   gc_bits [RUN_TYPE_UF; RUN_TYPE_LF; RUN_TYPE_UL; RUN_TYPE_LSU; RUN_TYPE_U2L_399_EXT2; RUN_TYPE_LF_EXT;
            RUN_TYPE_LF_EXT2; RUN_TYPE_UF_D20; RUN_TYPE_UF_D1_EXT; RUN_TYPE_LF_EXT; RUN_TYPE_UF_EXT2;
            RUN_TYPE_UF_EXT3]].
(** the union of the masks selected by [case_mask] *)
Fixpoint case_type_mask (case_mask i : Z) (masks : list Z) : Z :=
  match masks with
  | [] => 0
  | m :: masks =>
    (if negb ((case_mask >> i) .& 1 =? 0) then m else 0) .| case_type_mask case_mask (i + 1) masks
  end.
(** [for(i = 0; i < len; i += 2) cr_add_interval(cr, code + i, code + i + 1)] *)
Fixpoint case_add_alternate (fuel : nat) (cr : CharRange) (code i len : Z) : M (Z * CharRange) :=
  match fuel with
  | O => ub
  | S fuel =>
    if i <? len then
      cr ←? cr_add_interval cr (u32 (code + i)) (u32 (code + i + 1));
      case_add_alternate fuel cr code (i + 2) len
    else mret (0, cr)
  end.
Definition case_add_run (cr : CharRange) (case_mask v : Z) : M (Z * CharRange) :=
  let type := cc_type v in
  let code := cc_code v in
  let len := cc_len v in
  let has_u := negb (case_mask .& CASE_U =? 0) in
  let both := has_u && negb (case_mask .& (CASE_L .| CASE_F) =? 0) in
  if (type =? RUN_TYPE_UL) && negb both then
    case_add_alternate (S (Z.to_nat len)) cr (u32 (code + b2z has_u)) 0 len
  else if (type =? RUN_TYPE_LSU) && negb both then
    cr ←? (if negb has_u then cr_add_interval cr code (u32 (code + 1)) else mret (0, cr));
    cr ←? cr_add_interval cr (u32 (code + 1)) (u32 (code + 2));
    if has_u then cr_add_interval cr (u32 (code + 2)) (u32 (code + 3)) else mret (0, cr)
  else cr_add_interval cr code (u32 (code + len)).
Fixpoint case1_loop (cr : CharRange) (case_mask mask : Z) (table : list Z) : M (Z * CharRange) :=
  match table with
  | [] => mret (0, cr)
  | v :: table =>
    cr ←? (if negb ((mask >> cc_type v) .& 1 =? 0) then case_add_run cr case_mask v else mret (0, cr));
    case1_loop cr case_mask mask table
  end.
Definition unicode_case1 (cr : CharRange) (case_mask : Z) : M (Z * CharRange) :=
  if case_mask =? 0 then mret (0, cr)
  else case1_loop cr case_mask (case_type_mask case_mask 0 tab_run_mask) case_conv_table1.

(** ** Canonicalization of a range *)

(** the inner [for(;;)]: advance to the entry that holds [c] *)
Fixpoint canon_find (fuel : nat) (c idx v : Z) : option (Z * Z) :=
  match fuel with
  | O => None
  | S fuel =>
    if (c >=? cc_code v) && (c <? cc_code v + cc_len v) then Some (idx, v)
    else v ← case_conv_table1.[idx + 1]; canon_find fuel c (idx + 1) v
  end.
Record canon_state := mkCanon {
  cs_result : CharRange; cs_idx : Z; cs_v : Z; cs_start : Z; cs_end : Z
}.
(** one iteration of [for(c = start; c < end; c++)]; the result of the
    [cr_add_interval] of this loop is not tested *)
Definition canon_char (st : canon_state) (c : Z) (is_unicode : bool) : M canon_state :=
  '(idx, v) ← lift (canon_find (S (length case_conv_table1)) c (cs_idx st) (cs_v st));
  d ← lift (lre_case_folding_entry c idx v is_unicode);
  if cs_start st =? UINT32_MAX then
    mret (mkCanon (cs_result st) idx v d (u32 (d + 1)))
  else if cs_end st =? d then
    mret (mkCanon (cs_result st) idx v (cs_start st) (u32 (cs_end st + 1)))
  else
    '(_, cr_result) ← cr_add_interval (cs_result st) (cs_start st) (cs_end st);
    mret (mkCanon cr_result idx v d (u32 (d + 1))).
Fixpoint canon_interval (n : nat) (st : canon_state) (c : Z) (is_unicode : bool) : M canon_state :=
  match n with
  | O => mret st
  | S n => st ← canon_char st c is_unicode; canon_interval n st (c + 1) is_unicode
  end.
Fixpoint canon_loop (st : canon_state) (points : list Z) (is_unicode : bool) : M canon_state :=
  match points with
  | start :: end_ :: points =>
    st ← canon_interval (Z.to_nat (end_ - start)) st start is_unicode;
    canon_loop st points is_unicode
  | _ => mret st
  end.
Definition cr_regexp_canonicalize (cr : CharRange) (is_unicode : bool) : M (Z * CharRange) :=
  cr_mask ←? unicode_case1 cr_init (if is_unicode then CASE_F else CASE_U);
  cr_inter ←? cr_op cr_init (cr_points cr_mask) (cr_points cr) CR_OP_INTER;
  cr_mask ←? cr_invert cr_mask;
  cr_sub ←? cr_op cr_init (cr_points cr_mask) (cr_points cr) CR_OP_INTER;
  v ← lift case_conv_table1.[0];
  st ← canon_loop (mkCanon cr_init 0 v UINT32_MAX UINT32_MAX) (cr_points cr_inter) is_unicode;
  cr_result ←? (if negb (cs_start st =? UINT32_MAX)
                then cr_add_interval (cs_result st) (cs_start st) (cs_end st)
                else mret (0, cs_result st));
  cr_result ← lift (cr_sort_and_remove_overlap cr_result);
  let cr := mkCR [] (cr_size cr) in
  cr ←? cr_op cr (cr_points cr_result) (cr_points cr_sub) CR_OP_UNION;
  mret (0, cr).

(** ** Stack programs *)
Inductive prop_op :=
  | POP_GC (a : Z) | POP_PROP (a : Z) | POP_CASE (a : Z)
  | POP_UNION | POP_INTER | POP_XOR | POP_INVERT.
Definition POP_STACK_LEN_MAX : Z := 4.

(** push a fresh range filled by one of the expansions *)
Definition pop_push (stack : list CharRange) (fill : CharRange → M (Z * CharRange))
    (k : list CharRange → M (Z * CharRange)) (cr : CharRange) : M (Z * CharRange) :=
  _ ← massert (zlen stack <? POP_STACK_LEN_MAX);
  '(ret, c) ← fill cr_init;
  if negb (ret =? 0) then mret (-1, cr) else k (c :: stack).
(** replace the two topmost ranges by their combination *)
Definition pop_binary (stack : list CharRange) (op : cr_op_kind)
    (k : list CharRange → M (Z * CharRange)) (cr : CharRange) : M (Z * CharRange) :=
  match stack with
  | cr2 :: cr1 :: stack' =>
    _ ← massert (zlen stack <? POP_STACK_LEN_MAX);
    '(ret, cr3) ← cr_op cr_init (cr_points cr1) (cr_points cr2) op;
    if negb (ret =? 0) then mret (-1, cr) else k (cr3 :: stack')
  | _ => ub
  end.
(** [unicode_prop_ops]: the arguments up to [POP_END] as a list; the top of
    the stack is its head *)
Fixpoint prop_ops_loop (cr : CharRange) (ops : list prop_op) (stack : list CharRange) : M (Z * CharRange) :=
  match ops with
  | [] =>
    match stack with
    | [c] => cr_copy cr c
    | _ => ub
    end
  | op :: ops =>
    match op with
    | POP_GC a => pop_push stack (λ c, unicode_general_category1 c a) (prop_ops_loop cr ops) cr
    | POP_PROP a => pop_push stack (λ c, unicode_prop1 c a) (prop_ops_loop cr ops) cr
    | POP_CASE a => pop_push stack (λ c, unicode_case1 c a) (prop_ops_loop cr ops) cr
    | POP_UNION => pop_binary stack CR_OP_UNION (prop_ops_loop cr ops) cr
    | POP_INTER => pop_binary stack CR_OP_INTER (prop_ops_loop cr ops) cr
    | POP_XOR => pop_binary stack CR_OP_XOR (prop_ops_loop cr ops) cr
    | POP_INVERT =>
      match stack with
      | c :: stack =>
        '(ret, c) ← cr_invert c;
        if negb (ret =? 0) then mret (-1, cr) else prop_ops_loop cr ops (c :: stack)
      | [] => ub
      end
    end
  end.
Definition unicode_prop_ops (cr : CharRange) (ops : list prop_op) : M (Z * CharRange) :=
  prop_ops_loop cr ops [].

(** ** Entry points *)
Definition unicode_gc_mask_table : list Z :=
  [gc_bits [UNICODE_GC_Lu; UNICODE_GC_Ll; UNICODE_GC_Lt];
   gc_bits [UNICODE_GC_Lu; UNICODE_GC_Ll; UNICODE_GC_Lt; UNICODE_GC_Lm; UNICODE_GC_Lo];
   gc_bits [UNICODE_GC_Mn; UNICODE_GC_Mc; UNICODE_GC_Me];
   gc_bits [UNICODE_GC_Nd; UNICODE_GC_Nl; UNICODE_GC_No];
   gc_bits [UNICODE_GC_Sm; UNICODE_GC_Sc; UNICODE_GC_Sk; UNICODE_GC_So];
   gc_bits [UNICODE_GC_Pc; UNICODE_GC_Pd; UNICODE_GC_Ps; UNICODE_GC_Pe; UNICODE_GC_Pi; UNICODE_GC_Pf;
            UNICODE_GC_Po];
   gc_bits [UNICODE_GC_Zs; UNICODE_GC_Zl; UNICODE_GC_Zp];
   gc_bits [UNICODE_GC_Cc; UNICODE_GC_Cf; UNICODE_GC_Cs; UNICODE_GC_Co; UNICODE_GC_Cn]].
Definition unicode_general_category (cr : CharRange) (gc_name : list Z) : M (Z * CharRange) :=
  gc_idx ← lift (unicode_find_name unicode_gc_name_table gc_name);
  if gc_idx <? 0 then mret (-2, cr)
  else
    gc_mask ← lift (if gc_idx <=? UNICODE_GC_Co then Some (u32 (1 << gc_idx))
                    else unicode_gc_mask_table.[gc_idx - UNICODE_GC_LC]);
    unicode_general_category1 cr gc_mask.

(** the cases of [unicode_prop]'s [switch] that run a stack program *)
Definition prop_program (prop_idx : Z) : option (list prop_op) :=
  if prop_idx =? UNICODE_PROP_Assigned then
    Some [POP_GC (gc_bits [UNICODE_GC_Cn]); POP_INVERT]
  else if prop_idx =? UNICODE_PROP_Math then
    Some [POP_GC (gc_bits [UNICODE_GC_Sm]); POP_PROP UNICODE_PROP_Other_Math; POP_UNION]
  else if prop_idx =? UNICODE_PROP_Lowercase then
    Some [POP_GC (gc_bits [UNICODE_GC_Ll]); POP_PROP UNICODE_PROP_Other_Lowercase; POP_UNION]
  else if prop_idx =? UNICODE_PROP_Uppercase then
    Some [POP_GC (gc_bits [UNICODE_GC_Lu]); POP_PROP UNICODE_PROP_Other_Uppercase; POP_UNION]
  else if prop_idx =? UNICODE_PROP_Cased then
    Some [POP_GC (gc_bits [UNICODE_GC_Lu; UNICODE_GC_Ll; UNICODE_GC_Lt]);
          POP_PROP UNICODE_PROP_Other_Uppercase; POP_UNION;
          POP_PROP UNICODE_PROP_Other_Lowercase; POP_UNION]
  else if prop_idx =? UNICODE_PROP_Alphabetic then
    Some [POP_GC (gc_bits [UNICODE_GC_Lu; UNICODE_GC_Ll; UNICODE_GC_Lt; UNICODE_GC_Lm; UNICODE_GC_Lo; UNICODE_GC_Nl]);
          POP_PROP UNICODE_PROP_Other_Uppercase; POP_UNION;
          POP_PROP UNICODE_PROP_Other_Lowercase; POP_UNION;
          POP_PROP UNICODE_PROP_Other_Alphabetic; POP_UNION]
  else if prop_idx =? UNICODE_PROP_Grapheme_Base then
    Some [POP_GC (gc_bits [UNICODE_GC_Cc; UNICODE_GC_Cf; UNICODE_GC_Cs; UNICODE_GC_Co; UNICODE_GC_Cn;
                           UNICODE_GC_Zl; UNICODE_GC_Zp; UNICODE_GC_Me; UNICODE_GC_Mn]);
          POP_PROP UNICODE_PROP_Other_Grapheme_Extend; POP_UNION; POP_INVERT]
  else if prop_idx =? UNICODE_PROP_Grapheme_Extend then
    Some [POP_GC (gc_bits [UNICODE_GC_Me; UNICODE_GC_Mn]);
          POP_PROP UNICODE_PROP_Other_Grapheme_Extend; POP_UNION]
  else if prop_idx =? UNICODE_PROP_XID_Start then
    Some [POP_GC (gc_bits [UNICODE_GC_Lu; UNICODE_GC_Ll; UNICODE_GC_Lt; UNICODE_GC_Lm; UNICODE_GC_Lo; UNICODE_GC_Nl]);
          POP_PROP UNICODE_PROP_Other_ID_Start; POP_UNION;
          POP_PROP UNICODE_PROP_Pattern_Syntax; POP_PROP UNICODE_PROP_Pattern_White_Space; POP_UNION;
          POP_PROP UNICODE_PROP_XID_Start1; POP_UNION; POP_INVERT; POP_INTER]
  else if prop_idx =? UNICODE_PROP_XID_Continue then
    Some [POP_GC (gc_bits [UNICODE_GC_Lu; UNICODE_GC_Ll; UNICODE_GC_Lt; UNICODE_GC_Lm; UNICODE_GC_Lo;
                           UNICODE_GC_Nl; UNICODE_GC_Mn; UNICODE_GC_Mc; UNICODE_GC_Nd; UNICODE_GC_Pc]);
          POP_PROP UNICODE_PROP_Other_ID_Start; POP_UNION;
          POP_PROP UNICODE_PROP_Other_ID_Continue; POP_UNION;
          POP_PROP UNICODE_PROP_Pattern_Syntax; POP_PROP UNICODE_PROP_Pattern_White_Space; POP_UNION;
          POP_PROP UNICODE_PROP_XID_Continue1; POP_UNION; POP_INVERT; POP_INTER]
  else if prop_idx =? UNICODE_PROP_Changes_When_Titlecased then
    Some [POP_CASE CASE_U; POP_PROP UNICODE_PROP_Changes_When_Titlecased1; POP_XOR]
  else if prop_idx =? UNICODE_PROP_Changes_When_Casefolded then
    Some [POP_CASE CASE_F; POP_PROP UNICODE_PROP_Changes_When_Casefolded1; POP_XOR]
  else if prop_idx =? UNICODE_PROP_Changes_When_NFKC_Casefolded then
    Some [POP_CASE CASE_F; POP_PROP UNICODE_PROP_Changes_When_NFKC_Casefolded1; POP_XOR]
  else if prop_idx =? UNICODE_PROP_ID_Continue then
    Some [POP_PROP UNICODE_PROP_ID_Start; POP_PROP UNICODE_PROP_ID_Continue1; POP_XOR]
  else None.
Definition unicode_prop (cr : CharRange) (prop_name : list Z) : M (Z * CharRange) :=
  prop_idx ← lift (unicode_find_name unicode_prop_name_table prop_name);
  if prop_idx <? 0 then mret (-2, cr)
  else
    let prop_idx := prop_idx + UNICODE_PROP_ASCII_Hex_Digit in
    if prop_idx =? UNICODE_PROP_ASCII then cr ←? cr_add_interval cr 0x00 (0x7f + 1); mret (0, cr)
    else if prop_idx =? UNICODE_PROP_Any then cr ←? cr_add_interval cr 0x00000 (0x10ffff + 1); mret (0, cr)
    else if prop_idx =? UNICODE_PROP_Changes_When_Uppercased then unicode_case1 cr CASE_U
    else if prop_idx =? UNICODE_PROP_Changes_When_Lowercased then unicode_case1 cr CASE_L
    else if prop_idx =? UNICODE_PROP_Changes_When_Casemapped then
      unicode_case1 cr (CASE_U .| CASE_L .| CASE_F)
    else
      match prop_program prop_idx with
      | Some ops => unicode_prop_ops cr ops
      | None =>
        if prop_idx >=? zlen unicode_prop_table then mret (-2, cr)
        else unicode_prop1 cr prop_idx
      end.
End Expand.

(** ** Name lookup *)

(** the names of an entry: its comma separated parts *)
Fixpoint aliases (e : list Z) : list (list Z) :=
  match e with
  | [] => [[]]
  | x :: e =>
    if x =? 0x2c then [] :: aliases e
    else match aliases e with a :: r => (x :: a) :: r | [] => [[x]] end
  end.
(** a table with the given entries *)
Definition names_of (es : list (list Z)) : list Z := concat (map (λ e, e ++ [0]) es) ++ [0].

Lemma strlen_at s rest : 0 ∉ s → strlen (s ++ 0 :: rest) = Some (zlen s).
Proof. intros H. apply strlen_cstr. split; [done|]. by exists rest. Qed.
Lemma strchr_none a rest ch : ch ∉ a → 0 ∉ a → ch ≠ 0 → strchr (a ++ 0 :: rest) ch = Some None.
Proof.
  intros H1 H2 Hch. induction a as [|x a IH]; cbn [app strchr].
  - destruct (Z.eqb_spec 0 ch); [lia|done].
  - rewrite not_elem_of_cons in H1, H2. destruct (Z.eqb_spec x ch), (Z.eqb_spec x 0); try (exfalso; intuition congruence).
    by rewrite IH by tauto.
Qed.
Lemma strchr_some a rest ch : ch ∉ a → 0 ∉ a → strchr (a ++ ch :: rest) ch = Some (Some (zlen a)).
Proof.
  intros H1 H2. induction a as [|x a IH]; cbn [app strchr].
  - by rewrite Z.eqb_refl.
  - rewrite not_elem_of_cons in H1, H2. destruct (Z.eqb_spec x ch), (Z.eqb_spec x 0); try (exfalso; intuition congruence).
    rewrite IH by tauto. cbn. by rewrite zlen_cons.
Qed.
Lemma aliases_comma a e : 0x2c ∉ a → aliases (a ++ 0x2c :: e) = a :: aliases e.
Proof.
  induction a as [|x a IH]; intros H; cbn [app aliases]; [done|]. rewrite not_elem_of_cons in H.
  destruct (Z.eqb_spec x 0x2c); [exfalso; intuition congruence|]. by rewrite IH by tauto.
Qed.
Lemma aliases_single a : 0x2c ∉ a → aliases a = [a].
Proof.
  induction a as [|x a IH]; intros H; cbn [aliases]; [done|]. rewrite not_elem_of_cons in H.
  destruct (Z.eqb_spec x 0x2c); [exfalso; intuition congruence|]. by rewrite IH by tauto.
Qed.
(** the first comma of an entry *)
Lemma split_comma (e : list Z) : 0x2c ∉ e ∨ ∃ a e', e = a ++ 0x2c :: e' ∧ 0x2c ∉ a.
Proof.
  induction e as [|x e [IH|(a & e' & -> & IH)]]; [left; apply not_elem_of_nil|..].
  - destruct (decide (x = 0x2c)) as [->|]; [right; exists [], e; split; [done|apply not_elem_of_nil]|].
    left. apply not_elem_of_cons. split; congruence || done.
  - right. destruct (decide (x = 0x2c)) as [->|].
    + exists [], (a ++ 0x2c :: e'). split; [done|apply not_elem_of_nil].
    + exists (x :: a), e'. split; [done|]. apply not_elem_of_cons. split; congruence || done.
Qed.

Lemma alias_test (a rest name nrest : list Z) :
  (zlen a =? zlen name) && bool_decide (ztake (zlen name) (a ++ rest) = ztake (zlen name) (name ++ nrest)) = true
  ↔ a = name.
Proof.
  rewrite ztake_app, andb_true_iff, Z.eqb_eq, bool_decide_eq_true. split.
  - intros [Hl Ht]. by rewrite <- Hl, ztake_app in Ht.
  - intros ->. by rewrite ztake_app.
Qed.
Lemma find_alias_spec fuel e name rest nrest :
  (length e < fuel)%nat → 0 ∉ e →
  find_alias fuel (e ++ 0 :: rest) (name ++ nrest) (zlen name) =
    Some (if decide (name ∈ aliases e) then None else Some rest).
Proof.
  revert e. induction fuel as [|fuel IH]; intros e Hf He; [lia|]. cbn [find_alias].
  destruct (split_comma e) as [Hc|(a & e' & -> & Hc)].
  - rewrite strchr_none by done. cbn [mbind option_bind]. rewrite strlen_at by done. cbn [mbind option_bind].
    rewrite aliases_single by done. pose proof (alias_test e (0 :: rest) name nrest) as Ht.
    destruct (_ && _); destruct (decide (name ∈ [e])) as [Hi|Hi]; rewrite list_elem_of_singleton in Hi;
      try done; [exfalso; apply Hi; symmetry; by apply Ht|exfalso; by assert (false = true) by by apply Ht|].
    change (e ++ 0 :: rest) with (e ++ [0] ++ rest). rewrite app_assoc.
    replace (zlen e + 1) with (zlen (e ++ [0])) by (by rewrite zlen_app). by rewrite zdrop_app.
  - rewrite <- app_assoc. cbn [app]. apply not_elem_of_app in He as [He1 [_ He2]%not_elem_of_cons].
    rewrite strchr_some by done. cbn [mbind option_bind].
    rewrite aliases_comma by done. pose proof (alias_test a (0x2c :: e' ++ 0 :: rest) name nrest) as Ht.
    destruct (_ && _) eqn:E.
    + rewrite decide_True; [done|]. apply elem_of_cons. left. symmetry. by apply Ht.
    + change (a ++ 0x2c :: e' ++ 0 :: rest) with (a ++ [0x2c] ++ (e' ++ 0 :: rest)). rewrite app_assoc.
      replace (zlen a + 1) with (zlen (a ++ [0x2c])) by (by rewrite zlen_app). rewrite zdrop_app.
      rewrite IH; [|rewrite length_app in Hf; cbn in Hf; lia|done].
      destruct (decide (name ∈ aliases e')), (decide (name ∈ a :: aliases e')) as [Hi|Hi];
        rewrite elem_of_cons in Hi; try done; [tauto|].
      destruct Hi as [->|]; [|done]. exfalso. by assert (false = true) by by apply Ht.
Qed.
Lemma find_name_loop_spec fuel es name nrest pos :
  (length es < fuel)%nat → Forall (λ e, e ≠ [] ∧ 0 ∉ e) es →
  find_name_loop fuel (names_of es) (name ++ nrest) (zlen name) pos =
    Some (match list_find (λ e, name ∈ aliases e) es with Some (i, _) => pos + Z.of_nat i | None => -1 end).
Proof.
  revert es pos. induction fuel as [|fuel IH]; intros es pos Hf Hes; [lia|]. cbn [find_name_loop].
  destruct es as [|e es]; [done|]. apply Forall_cons in Hes as [[Hne H0] Hes].
  assert (names_of (e :: es) = e ++ 0 :: names_of es) as ->.
  { unfold names_of. cbn. by rewrite <- !app_assoc. }
  assert (∃ x, (e ++ 0 :: names_of es).[0] = Some x ∧ x ≠ 0) as (x & -> & Hx).
  { destruct e as [|x e]; [done|]. exists x. split; [done|]. rewrite not_elem_of_cons in H0. intuition congruence. }
  cbn [mbind option_bind]. destruct (Z.eqb_spec x 0); [done|].
  rewrite find_alias_spec; [|rewrite length_app; lia|done]. cbn [mbind option_bind list_find].
  destruct (decide (name ∈ aliases e)); [by rewrite Z.add_0_r|].
  rewrite IH by (done || (cbn in Hf; lia)). destruct (list_find _ es) as [[i y]|]; [|done].
  cbn. f_equal. lia.
Qed.

Lemma unicode_find_name_eq es name rest :
  Forall (λ e, e ≠ [] ∧ 0 ∉ e) es → 0 ∉ name →
  unicode_find_name (names_of es) (name ++ 0 :: rest) =
    Some (match list_find (λ e, name ∈ aliases e) es with Some (i, _) => Z.of_nat i | None => -1 end).
Proof.
  intros Hes Hn. unfold unicode_find_name. rewrite strlen_at by done. cbn [mbind option_bind].
  apply find_name_loop_spec; [|done]. unfold names_of. rewrite length_app. cbn.
  assert (length es <= length (concat (map (λ e, e ++ [0%Z]) es)))%nat; [|lia].
  clear. induction es as [|e es IH]; cbn; [lia|]. rewrite !length_app. cbn. lia.
Qed.
(** A name lookup finds the first entry of the table that lists the name
    among its comma separated aliases, and -1 when no entry does. *)
Theorem unicode_find_name_spec es name rest :
  Forall (λ e, e ≠ [] ∧ 0 ∉ e) es → 0 ∉ name →
  unicode_find_name (names_of es) (name ++ 0 :: rest) =
    Some (match list_find (λ e, name ∈ aliases e) es with Some (i, _) => Z.of_nat i | None => -1 end).
Proof. apply unicode_find_name_eq. Qed.

(** ** Points added run by run *)
Fixpoint le_sorted (l : list Z) : bool :=
  match l with
  | x :: ((y :: _) as l') => (x <=? y) && le_sorted l'
  | _ => true
  end.
Lemma le_sorted_spec l : le_sorted l = true → StronglySorted Z.le l.
Proof.
  induction l as [|x l IH]; intros H; [constructor|].
  destruct l as [|y l]; [by repeat constructor|].
  change (le_sorted (x :: y :: l)) with ((x <=? y) && le_sorted (y :: l)) in H.
  apply andb_true_iff in H as [H1%Z.leb_le H2]. specialize (IH H2). constructor; [done|].
  constructor; [done|]. apply StronglySorted_inv in IH as [_ IH]. eapply Forall_impl; [exact IH|]. cbn; intros; lia.
Qed.
(** points in pairs that bound non-empty intervals *)
Definition proper (l : list Z) : Prop := even_len l ∧ Forall (λ p : Z * Z, p.1 < p.2) (to_pairs l).
Lemma proper_nil : proper [].
Proof. split; [done|constructor]. Qed.
Lemma proper_app l k : proper l → proper k → proper (l ++ k).
Proof.
  intros [He Hf] [Hek Hfk]. revert l He Hf. refine (pairs_ind _ _ _); [by split|].
  intros x y l He IH Hf. cbn [to_pairs] in Hf. apply Forall_cons in Hf as [Hxy Hf].
  destruct (IH Hf) as [I1 I2]. split; [done|]. cbn [app to_pairs]. by constructor.
Qed.
Lemma canonical_proper l : cr_canonical l → proper l.
Proof.
  intros [He Hs]. split; [done|]. revert l He Hs. refine (pairs_ind _ _ _); [constructor|].
  intros x y l He IH Hs. apply StronglySorted_inv in Hs as [Hs [Hxy _]%Forall_cons].
  apply StronglySorted_inv in Hs as [Hs _]. cbn [to_pairs]. constructor; [done|by apply IH].
Qed.
(** pairs of sorted points between [lo] and [hi] *)
Definition pts_within (lo hi : Z) (l : list Z) : Prop :=
  proper l ∧ StronglySorted Z.le l ∧ Forall (λ p, lo <= p <= hi) l.
Definition pts_within_b (lo hi : Z) (l : list Z) : bool :=
  Nat.even (length l) && forallb (λ p : Z * Z, p.1 <? p.2) (to_pairs l) && le_sorted l && forallb (λ p, (lo <=? p) && (p <=? hi)) l.
Lemma pts_within_b_spec lo hi l : pts_within_b lo hi l = true → pts_within lo hi l.
Proof.
  unfold pts_within_b. intros [[[He Hp]%andb_true_iff Hs]%andb_true_iff Hf]%andb_true_iff.
  split.
  { split; [done|]. apply Forall_forall. intros x Hx%list_elem_of_In.
    rewrite forallb_forall in Hp. by apply Hp, Z.ltb_lt in Hx. }
  split; [by apply le_sorted_spec|]. apply Forall_forall. intros x Hx%list_elem_of_In.
  rewrite forallb_forall in Hf. apply Hf in Hx. blia.
Qed.
Lemma pts_within_wf lo hi l : pts_within lo hi l → cr_wf l.
Proof. intros ([? _] & ? & _). by split. Qed.
Lemma pts_within_mem lo hi l c : pts_within lo hi l → ¬ lo <= c < hi → cr_mem l c = false.
Proof.
  intros ([He _] & _ & Hf) Hc. destruct (decide (c < lo)).
  - apply cr_mem_lt. eapply Forall_impl; [exact Hf|]. cbn; intros; lia.
  - rewrite cr_mem_even; [by apply even_len_odd|]. eapply Forall_impl; [exact Hf|]. cbn; intros; lia.
Qed.
Lemma even_len_app {A} (l k : list A) : even_len l → even_len k → even_len (l ++ k).
Proof. rewrite !even_len_odd, odd_len_app. by intros -> ->. Qed.
Lemma pts_within_app lo mid hi l k :
  pts_within lo mid l → pts_within mid hi k → lo <= mid <= hi → pts_within lo hi (l ++ k).
Proof.
  intros (E1 & S1 & F1) (E2 & S2 & F2) Hm. split; [by apply proper_app|]. split.
  - clear E1 E2. induction S1 as [|x l S1 IH Hx]; [done|]. apply Forall_cons in F1 as [Fx F1].
    cbn. constructor; [by apply IH|]. apply Forall_app. split; [done|].
    eapply Forall_impl; [exact F2|]. cbn; intros; lia.
  - apply Forall_app. split; [eapply Forall_impl; [exact F1|]|eapply Forall_impl; [exact F2|]]; cbn; intros; lia.
Qed.
Lemma pts_within_nil lo hi : pts_within lo hi [].
Proof. split; [apply proper_nil|]. split; constructor. Qed.
Lemma pts_within_mono lo hi lo' hi' l : pts_within lo hi l → lo' <= lo → hi <= hi' → pts_within lo' hi' l.
Proof.
  intros (E & S1 & F) Hl Hh. split; [done|]. split; [done|]. eapply Forall_impl; [exact F|]. cbn; intros; lia.
Qed.
Lemma pts_within_interval lo hi a b : lo <= a → a < b → b <= hi → pts_within lo hi [a; b].
Proof. intros. split; [split; [done|by repeat constructor]|]. split; repeat constructor; lia. Qed.

Section Runs.
Context (code_of len_of : Z → Z) (pts : Z → list Z).

Lemma runs_points_within table hi :
  runs_sorted code_of len_of table = true →
  Forall (λ v, pts_within (code_of v) (code_of v + len_of v) (pts v) ∧ code_of v + len_of v <= hi) table →
  ∀ lo, Forall (λ v, lo <= code_of v) table → lo <= hi → pts_within lo hi (concat (map pts table)).
Proof.
  induction table as [|v table IH]; intros Hs Hf lo Hlo Hhi; [apply pts_within_nil|].
  apply runs_sorted_cons in Hs as (H1 & H2 & H3). apply Forall_cons in Hf as [[Hv Hb] Hf].
  apply Forall_cons in Hlo as [Hlv Hlo].
  cbn [map concat]. apply (pts_within_app lo (code_of v + len_of v)); [|apply IH; [done|done| |done]|lia].
  - eapply pts_within_mono; [exact Hv|lia|lia].
  - apply Forall_forall. intros w Hw. by destruct (H3 w Hw).
Qed.
Lemma runs_points_outside table c :
  Forall (λ v, pts_within (code_of v) (code_of v + len_of v) (pts v)) table →
  (∀ v, v ∈ table → ¬ code_of v <= c < code_of v + len_of v) →
  cr_mem (concat (map pts table)) c = false.
Proof.
  induction table as [|v table IH]; intros Hf Hno; [done|]. apply Forall_cons in Hf as [Hv Hf].
  cbn [map concat]. rewrite cr_mem_app, IH; [|done|].
  - rewrite (pts_within_mem _ _ _ _ Hv); [done|]. apply Hno. apply elem_of_cons. by left.
  - intros w Hw. apply Hno. apply elem_of_cons. by right.
Qed.
Lemma runs_points_mem table c i v :
  runs_sorted code_of len_of table = true →
  Forall (λ v, pts_within (code_of v) (code_of v + len_of v) (pts v)) table →
  run_at table code_of len_of i v c → cr_mem (concat (map pts table)) c = cr_mem (pts v) c.
Proof.
  intros Hs Hf [Hi Hc]. revert i Hi. induction table as [|w table IH]; intros i Hi.
  - apply aget_Some_range in Hi. unfold zlen in Hi. cbn in Hi. lia.
  - apply runs_sorted_cons in Hs as (H1 & H2 & H3). apply Forall_cons in Hf as [Hw Hf].
    pose proof (aget_Some_range _ _ _ Hi). cbn [map concat]. rewrite cr_mem_app.
    destruct (decide (i = 0)) as [->|].
    + rewrite aget_cons_0 in Hi. injection Hi as ->. rewrite (runs_points_outside table); [by rewrite xorb_false_r|done|].
      intros x Hx. destruct (H3 x Hx). lia.
    + rewrite aget_cons_pos in Hi by lia.
      assert (v ∈ table) as Hvt. { unfold aget in Hi. destruct (i - 1 <? 0); [done|]. by eapply list_elem_of_lookup_2. }
      destruct (H3 v Hvt). rewrite (IH H2 Hf _ Hi), (pts_within_mem _ _ _ _ Hw) by lia. by destruct (cr_mem (pts v) c).
Qed.
End Runs.

(** ** Ranges of the case table *)
Fixpoint case_alternate_points (fuel : nat) (code i len : Z) : list Z :=
  match fuel with
  | O => []
  | S fuel =>
    if i <? len then u32 (code + i) :: u32 (code + i + 1) :: case_alternate_points fuel code (i + 2) len else []
  end.
Definition case_run_points (case_mask v : Z) : list Z :=
  let type := cc_type v in
  let code := cc_code v in
  let len := cc_len v in
  let has_u := negb (case_mask .& CASE_U =? 0) in
  let both := has_u && negb (case_mask .& (CASE_L .| CASE_F) =? 0) in
  if negb ((case_type_mask case_mask 0 tab_run_mask >> type) .& 1 =? 0) then
    if (type =? RUN_TYPE_UL) && negb both then
      case_alternate_points (S (Z.to_nat len)) (u32 (code + b2z has_u)) 0 len
    else if (type =? RUN_TYPE_LSU) && negb both then
      (if negb has_u then [code; u32 (code + 1)] else []) ++ [u32 (code + 1); u32 (code + 2)] ++
      (if has_u then [u32 (code + 2); u32 (code + 3)] else [])
    else [code; u32 (code + len)]
  else [].
Definition case_points (case_mask : Z) : list Z := concat (map (case_run_points case_mask) case_conv_table1).

(** the conversion [t] changes [c], which entry [i] of the table holds *)
Definition entry_changes (c i v t : Z) : bool :=
  match lre_case_conv_entry (λ c, lre_case_conv1 c 1) c t i v with Some [d] => negb (d =? c) | _ => true end.
Definition conv_changes (c t : Z) : bool :=
  match lre_case_conv c t with Some [d] => negb (d =? c) | _ => true end.
(** some conversion selected by [case_mask] changes it *)
Definition any_change (changes : Z → bool) (case_mask : Z) : bool :=
  existsb (λ t, Z.testbit case_mask t && changes t) [0; 1; 2].
Definition case_masks : list Z := [1; 2; 3; 4; 5; 6; 7].

Lemma case_points_ok :
  forallb (λ v, forallb (λ m, pts_within_b (cc_code v) (cc_code v + cc_len v) (case_run_points m v)) case_masks &&
                (0 <=? cc_code v) && (cc_code v + cc_len v <=? unicode_max + 1)) case_conv_table1 = true.
Proof. vm_compute. reflexivity. Qed.
Lemma case_mem_ok :
  forall_runs cc_code cc_len (λ c i v,
    let ch := map (entry_changes c i v) [0; 1; 2] in
    forallb (λ m, eqb (cr_mem (case_run_points m v) c)
      (any_change (λ t, opt_test id (ch.[t])) m)) case_masks) 0 case_conv_table1 = true.
Proof. vm_compute. reflexivity. Qed.
Lemma case_mem_ascii_ok :
  forallb (λ m, let pts := case_points m in
    forall_range (λ c, eqb (cr_mem pts c) (any_change (conv_changes c) m)) 0 128) case_masks = true.
Proof. vm_compute. reflexivity. Qed.

Lemma case_points_facts m :
  m ∈ case_masks →
  pts_within 0 (unicode_max + 1) (case_points m) ∧
  ∀ c, 0 <= c → cr_mem (case_points m) c = any_change (conv_changes c) m.
Proof.
  intros Hm%list_elem_of_In. pose proof case_points_ok as Hok. rewrite forallb_forall in Hok.
  assert (∀ v, v ∈ case_conv_table1 →
    pts_within (cc_code v) (cc_code v + cc_len v) (case_run_points m v) ∧
    cc_code v + cc_len v <= unicode_max + 1 ∧ 0 <= cc_code v) as Hv.
  { intros v Hv%list_elem_of_In. apply Hok in Hv.
    apply andb_true_iff in Hv as [[Hv H1%Z.leb_le]%andb_true_iff H2%Z.leb_le].
    rewrite forallb_forall in Hv. split; [by apply pts_within_b_spec, Hv|done]. }
  assert (Forall (λ v, pts_within (cc_code v) (cc_code v + cc_len v) (case_run_points m v)) case_conv_table1) as Hall.
  { apply Forall_forall. intros v Hin. by destruct (Hv v Hin). }
  split.
  - apply (runs_points_within cc_code cc_len); [apply case_conv_table_sorted| | |by unfold unicode_max; lia].
    + apply Forall_forall. intros v Hin. destruct (Hv v Hin) as (? & ? & ?). done.
    + apply Forall_forall. intros v Hin. by destruct (Hv v Hin) as (? & ? & ?).
  - intros c Hc. destruct (Z.ltb_spec c 128).
    + clear Hall. pose proof case_mem_ascii_ok as Ha. rewrite forallb_forall in Ha. specialize (Ha m Hm). cbv zeta in Ha.
      apply forall_range_spec with (i := c) in Ha; [|lia]. by apply eqb_prop in Ha.
    + destruct (case_search_spec c) as [(i & v & E & Hr)|[E Hno]].
      * unfold case_points. rewrite (runs_points_mem cc_code cc_len _ _ c i v);
          [|apply case_conv_table_sorted|done..].
        pose proof (case_runs_spec _ c i v case_mem_ok Hr) as Hmem. cbv beta zeta in Hmem.
        rewrite forallb_forall in Hmem. specialize (Hmem m Hm). apply eqb_prop in Hmem. rewrite Hmem.
        unfold any_change. cbn [map existsb]. unfold conv_changes. rewrite !lre_case_conv_unfold, E by done.
        done.
      * unfold case_points. rewrite (runs_points_outside cc_code cc_len); [|done|].
        -- unfold any_change. cbn [existsb]. unfold conv_changes.
           rewrite !lre_case_conv_unfold, E by done. cbn [mbind option_bind].
           rewrite Z.eqb_refl. cbn [negb]. by rewrite !andb_false_r.
        -- intros v [j Hj]%list_elem_of_lookup_1 Hc'. apply (Hno (Z.of_nat j) v). split; [by rewrite aget_nat|done].
Qed.

Section CaseRanges.
Context `{!Allocator}.

Lemma cr_appended_interval cr a b h : cr_fits cr → cr_appended cr [a; b] (cr_add_interval cr a b h).
Proof. apply cr_add_interval_cases. Qed.
Lemma cr_appended_opt cr (t : bool) a b h :
  cr_fits cr → cr_appended cr (if t then [a; b] else []) ((if t then cr_add_interval cr a b else mret (0, cr)) h).
Proof. intros Hf. destruct t; [by apply cr_appended_interval|by apply cr_appended_id]. Qed.
Lemma case_add_alternate_spec fuel cr code i len h :
  cr_fits cr → Z.max 0 (len - i) < Z.of_nat fuel →
  cr_appended cr (case_alternate_points fuel code i len) (case_add_alternate fuel cr code i len h).
Proof.
  revert cr i h. induction fuel as [|fuel IH]; intros cr i h Hf Hl; cbn [case_alternate_points case_add_alternate].
  { lia. }
  zcase; [|by apply cr_appended_id].
  apply (cr_appended_bind _ _ _ [_; _]); [by apply cr_appended_interval|].
  intros cr1 h1 Hf1 _. apply IH; [done|lia].
Qed.
Lemma case_add_run_spec cr m v h :
  cr_fits cr →
  cr_appended cr (case_run_points m v)
    ((if negb ((case_type_mask m 0 tab_run_mask >> cc_type v) .& 1 =? 0) then case_add_run cr m v else mret (0, cr)) h).
Proof.
  intros Hf. unfold case_run_points. destruct (negb _); [|by apply cr_appended_id].
  unfold case_add_run. destruct (_ && _); [apply case_add_alternate_spec; [done|]|].
  - lia.
  - destruct (_ && _); [|by apply cr_appended_interval].
    apply cr_appended_bind.
    { destruct (negb _); [by apply cr_appended_interval|by apply cr_appended_id]. }
    intros cr1 h1 Hf1 _. apply cr_appended_bind; [by apply cr_appended_interval|].
    intros cr2 h2 Hf2 _. by apply cr_appended_opt.
Qed.
Lemma case1_loop_spec m table cr h :
  cr_fits cr →
  cr_appended cr (concat (map (case_run_points m) table))
    (case1_loop cr m (case_type_mask m 0 tab_run_mask) table h).
Proof.
  revert cr h. induction table as [|v table IH]; intros cr h Hf; [by apply cr_appended_id|].
  cbn [map concat case1_loop]. apply cr_appended_bind; [by apply case_add_run_spec|].
  intros cr1 h1 Hf1 _. by apply IH.
Qed.
Lemma unicode_case1_points m cr h :
  m ∈ case_masks → cr_fits cr → cr_appended cr (case_points m) (unicode_case1 cr m h).
Proof.
  intros Hm Hf. unfold unicode_case1. destruct (Z.eqb_spec m 0) as [->|]; [|by apply case1_loop_spec].
  exfalso. unfold case_masks in Hm. rewrite !elem_of_cons, elem_of_nil in Hm. lia.
Qed.

(** [unicode_case1] builds the set its comment promises: for every choice
    of CASE_U, CASE_L and CASE_F the resulting range is sorted and holds
    exactly the characters that one of the chosen conversions changes. *)
Theorem unicode_case1_spec case_mask h :
  1 <= case_mask <= 7 →
  ∃ ret cr h', unicode_case1 cr_init case_mask h = Some ((ret, cr), h') ∧
    ((ret = -1 ∧ ∃ n sz, realloc_ok n sz = false) ∨
     (ret = 0 ∧ cr_wf (cr_points cr) ∧
      ∀ c, 0 <= c → cr_in (cr_points cr) c ↔
        ∃ t, 0 <= t <= 2 ∧ Z.testbit case_mask t = true ∧ lre_case_conv c t ≠ Some [c])).
Proof.
  intros Hm.
  assert (case_mask ∈ case_masks) as Hin by (unfold case_masks; rewrite !elem_of_cons, elem_of_nil; lia).
  destruct (case_points_facts case_mask Hin) as [Hw Hmem].
  destruct (unicode_case1_points case_mask cr_init h Hin) as (ret & cr & h' & E & _ & Hc); [done|].
  exists ret, cr, h'. split; [done|]. destruct Hc as [[-> Hp]|Hc]; [right|by left].
  split; [done|]. rewrite Hp. change (cr_points cr_init ++ case_points case_mask) with (case_points case_mask).
  pose proof (pts_within_wf _ _ _ Hw) as Hwf. split; [done|]. intros c Hc.
  rewrite <- cr_mem_in, Hmem by done. unfold any_change.
  assert (∀ t, conv_changes c t = true ↔ lre_case_conv c t ≠ Some [c]) as Hch.
  { intros t. unfold conv_changes. destruct (lre_case_conv c t) as [[|d [|]]|]; try (split; congruence).
    destruct (Z.eqb_spec d c) as [->|]; cbn; split; congruence. }
  rewrite existsb_exists. split.
  - intros (t & Ht & [Hb Hcc]%andb_true_iff). exists t. split; [cbn in Ht; lia|]. split; [done|]. by apply Hch.
  - intros (t & Ht & Hb & Hcc). exists t. split; [cbn; lia|]. rewrite Hb. by apply Hch.
Qed.
End CaseRanges.

(** ** Ranges of the general category table *)

(** the runs of a table: first code point, end, value *)
Fixpoint decode_runs (decode : list Z → Z → option (Z * Z * Z)) (fuel : nat) (table : list Z) (p c : Z) :
    option (list (Z * Z * Z)) :=
  match fuel with
  | O => None
  | S fuel =>
    if p <? zlen table then
      '(n, v, p) ← decode table p;
      let c1 := u32 (c + n + 1) in
      l ← decode_runs decode fuel table p c1;
      Some ((c, c1, v) :: l)
    else Some []
  end.
Definition unicode_gc_runs : option (list (Z * Z * Z)) :=
  decode_runs gc_decode (S (length unicode_gc_table)) unicode_gc_table 0 0.
(** the value of the run that holds [c]; in a run of value 31 the category
    alternates between Lu and Ll *)
Fixpoint gc_in_runs (runs : list (Z * Z * Z)) (c : Z) : option Z :=
  match runs with
  | [] => None
  | (c0, c1, v) :: runs =>
    if (c0 <=? c) && (c <? c1) then
      Some (if v =? 31 then (if Z.even (c - c0) then UNICODE_GC_Lu else UNICODE_GC_Ll) else v)
    else gc_in_runs runs c
  end.
(** the general category of a code point *)
Definition unicode_gc (c : Z) : option Z := runs ← unicode_gc_runs; gc_in_runs runs c.

(** contiguous non-empty runs from [c] to [hi] *)
Fixpoint runs_contiguous (c hi : Z) (runs : list (Z * Z * Z)) : bool :=
  match runs with
  | [] => c =? hi
  | (c0, c1, _) :: runs => (c0 =? c) && (c <? c1) && runs_contiguous c1 hi runs
  end.
Lemma unicode_gc_runs_ok : opt_test (runs_contiguous 0 (unicode_max + 1)) unicode_gc_runs = true.
Proof. vm_compute. reflexivity. Qed.

Fixpoint alternate_points (fuel : nat) (c0 c : Z) : list Z :=
  match fuel with
  | O => []
  | S fuel => if c0 <? c then c0 :: u32 (c0 + 1) :: alternate_points fuel (u32 (c0 + 2)) c else []
  end.
Definition gc_run_points (gc_mask : Z) (r : Z * Z * Z) : list Z :=
  let '(c0, c, v) := r in
  if v =? 31 then
    let both := gc_bit UNICODE_GC_Lu .| gc_bit UNICODE_GC_Ll in
    let b := gc_mask .& both in
    if negb (b =? 0) then
      if b =? both then [c0; c]
      else
        let c0 := u32 (c0 + b2z (negb (gc_mask .& gc_bit UNICODE_GC_Ll =? 0))) in
        alternate_points (S (Z.to_nat (c - c0))) c0 c
    else []
  else if negb ((gc_mask >> v) .& 1 =? 0) then [c0; c] else [].

Lemma testbit_shiftr m v : negb ((m >> v) .& 1 =? 0) = Z.testbit m v.
Proof. rewrite land_1_odd, b2z_eqb_0, negb_involutive. symmetry. apply Z.testbit_odd. Qed.
(** the two case bits of a mask *)
Lemma gc_case_bits m :
  m .& (gc_bit UNICODE_GC_Lu .| gc_bit UNICODE_GC_Ll) = 2 * b2z (Z.testbit m 1) + 4 * b2z (Z.testbit m 2) ∧
  m .& gc_bit UNICODE_GC_Ll = 4 * b2z (Z.testbit m 2).
Proof.
  change (gc_bit UNICODE_GC_Lu .| gc_bit UNICODE_GC_Ll) with (Z.land 7 6).
  change (gc_bit UNICODE_GC_Ll) with (Z.land 7 4). rewrite !Z.land_assoc.
  rewrite <- (Z.mod_pow2_bits_low m 3 1), <- (Z.mod_pow2_bits_low m 3 2) by lia.
  change 7 with (2 ^ 3 - 1). rewrite land_mask by lia.
  pose proof (Z.mod_pos_bound m (2 ^ 3) ltac:(lia)). set (k := m mod 2 ^ 3) in *. clearbody k.
  assert (k = 0 ∨ k = 1 ∨ k = 2 ∨ k = 3 ∨ k = 4 ∨ k = 5 ∨ k = 6 ∨ k = 7) by lia.
  by repeat (destruct_or?; subst).
Qed.

Lemma alternate_points_facts fuel c0 c :
  0 <= c0 → c < 2 ^ 31 → Z.max 0 (c - c0) < Z.of_nat fuel →
  pts_within c0 (Z.max c0 c) (alternate_points fuel c0 c) ∧
  ∀ x, cr_mem (alternate_points fuel c0 c) x = (c0 <=? x) && (x <? c) && Z.even (x - c0).
Proof.
  revert c0. induction fuel as [|fuel IH]; intros c0 H0 Hc Hf; [lia|]. cbn [alternate_points].
  destruct (Z.ltb_spec c0 c).
  - assert (u32 (c0 + 1) = c0 + 1) as -> by (apply Z.mod_small; lia).
    assert (u32 (c0 + 2) = c0 + 2) as -> by (apply Z.mod_small; lia).
    destruct (IH (c0 + 2)) as [I1 I2]; [lia..|]. split.
    + apply (pts_within_app c0 (c0 + 1) _ [_; _]); [apply pts_within_interval; lia| |lia].
      destruct (decide (c0 + 2 <= c)); [eapply pts_within_mono; [exact I1|lia..]|].
      destruct fuel as [|fuel]; [lia|]. cbn [alternate_points]. zcase; [lia|]. apply pts_within_nil.
    + intros x. cbn [cr_mem]. rewrite I2. replace (x - c0) with (x - (c0 + 2) + 2) by lia.
      rewrite Z.even_add. cbn [Z.even eqb]. destruct (Z.even (x - (c0 + 2))) eqn:E; cbn [eqb]; rewrite ?andb_true_r, ?andb_false_r.
      * destruct (Z.eq_dec x (c0 + 1)) as [->|].
        { exfalso. replace (c0 + 1 - (c0 + 2)) with (-1) in E by lia. done. }
        destruct (Z.leb_spec c0 x), (Z.leb_spec (c0 + 1) x), (Z.leb_spec (c0 + 2) x), (Z.ltb_spec x c); cbn; lia.
      * destruct (Z.eq_dec x c0) as [->|].
        { exfalso. replace (c0 - (c0 + 2)) with (-2) in E by lia. done. }
        destruct (Z.leb_spec c0 x), (Z.leb_spec (c0 + 1) x); cbn; lia || done.
  - split; [apply pts_within_nil|]. intros x. cbn. destruct (Z.leb_spec c0 x), (Z.ltb_spec x c); cbn; lia || done.
Qed.

(** decide the tests between constants *)
Ltac const_tests :=
  repeat match goal with
  | |- context [(?a =? ?b)] =>
    let r := eval vm_compute in (a =? b) in
    match r with
    | true => change (a =? b) with true
    | false => change (a =? b) with false
    end
  end; cbn [negb b2z].
Lemma gc_run_points_facts m c0 c v :
  0 <= c0 → c0 < c → c < 2 ^ 31 →
  pts_within c0 c (gc_run_points m (c0, c, v)) ∧
  ∀ x, cr_mem (gc_run_points m (c0, c, v)) x = opt_test (Z.testbit m) (gc_in_runs [(c0, c, v)] x).
Proof.
  intros H0 H1 H2. cbn [gc_in_runs]. unfold gc_run_points.
  assert (∀ x, cr_mem [c0; c] x = (c0 <=? x) && (x <? c)) as Hint.
  { intros x. cbn. destruct (Z.leb_spec c0 x), (Z.leb_spec c x), (Z.ltb_spec x c); cbn; lia || done. }
  destruct (Z.eqb_spec v 31).
  - destruct (gc_case_bits m) as [-> ->]. change (gc_bit UNICODE_GC_Lu .| gc_bit UNICODE_GC_Ll) with 6.
    cbv zeta. change UNICODE_GC_Lu with 1. change UNICODE_GC_Ll with 2.
    destruct (Z.testbit m 1) eqn:E1, (Z.testbit m 2) eqn:E2; const_tests.
    + split; [apply pts_within_interval; lia|]. intros x. rewrite Hint.
      destruct (_ && _); [|done]. cbn [opt_test]. destruct (Z.even _); congruence.
    + assert (u32 (c0 + 0) = c0) as -> by (rewrite Z.add_0_r; apply Z.mod_small; lia).
      destruct (alternate_points_facts (S (Z.to_nat (c - c0))) c0 c) as [A1 A2]; [lia..|].
      split; [by rewrite Z.max_r in A1 by lia|]. intros x. rewrite A2.
      destruct ((c0 <=? x) && (x <? c)); [|done]. cbn [opt_test andb]. destruct (Z.even _); congruence.
    + assert (u32 (c0 + 1) = c0 + 1) as -> by (apply Z.mod_small; lia).
      destruct (alternate_points_facts (S (Z.to_nat (c - (c0 + 1)))) (c0 + 1) c) as [A1 A2]; [lia..|].
      split; [eapply pts_within_mono; [exact A1|lia..]|]. intros x. rewrite A2.
      replace (x - (c0 + 1)) with (x - c0 - 1) by lia. rewrite Z.even_sub. cbn [Z.even].
      destruct (Z.eq_dec x c0) as [->|].
      { rewrite Z.sub_diag. destruct (Z.leb_spec (c0 + 1) c0); [lia|]. cbn [andb Z.even].
        destruct (_ && _); [|done]. cbn [opt_test]. congruence. }
      destruct (Z.leb_spec c0 x), (Z.leb_spec (c0 + 1) x); try lia; destruct (x <? c); cbn [andb opt_test]; try done.
      destruct (Z.even (x - c0)); cbn [eqb opt_test]; congruence.
    + split; [apply pts_within_nil|]. intros x. destruct (_ && _); [|done]. cbn [opt_test cr_mem].
      destruct (Z.even _); congruence.
  - rewrite testbit_shiftr. destruct (Z.testbit m v) eqn:E.
    + split; [apply pts_within_interval; lia|]. intros x. rewrite Hint. destruct (_ && _); done.
    + split; [apply pts_within_nil|]. intros x. destruct (_ && _); done.
Qed.
Lemma gc_runs_points_facts m runs c hi :
  runs_contiguous c hi runs = true → 0 <= c → hi < 2 ^ 31 →
  pts_within c hi (concat (map (gc_run_points m) runs)) ∧ c <= hi ∧
  (∀ x, cr_mem (concat (map (gc_run_points m) runs)) x = opt_test (Z.testbit m) (gc_in_runs runs x)) ∧
  (∀ x, x < c → gc_in_runs runs x = None).
Proof.
  revert c. induction runs as [|[[c0 c1] v] runs IH]; intros c H H0 Hhi; cbn [runs_contiguous] in H.
  - apply Z.eqb_eq in H as ->. split; [apply pts_within_nil|]. done.
  - apply andb_true_iff in H as [[->%Z.eqb_eq Hlt%Z.ltb_lt]%andb_true_iff H].
    destruct (IH c1 H) as (I1 & I2 & I3 & I4); [lia|done|].
    destruct (gc_run_points_facts m c c1 v) as [G1 G2]; [lia..|].
    cbn [map concat]. split; [by eapply pts_within_app; [exact G1|exact I1|lia]|]. split; [lia|]. split.
    + intros x. rewrite cr_mem_app, I3, G2. cbn [gc_in_runs].
      destruct (Z.leb_spec c x), (Z.ltb_spec x c1); cbn [andb]; rewrite ?I4 by lia; cbn [opt_test]; rewrite ?xorb_false_r; try done;
        by destruct (opt_test _ _).
    + intros x Hx. cbn [gc_in_runs]. destruct (Z.leb_spec c x); [lia|]. cbn. apply I4. lia.
Qed.

Section GcRanges.
Context `{!Allocator}.

Lemma add_alternate_spec fuel cr c0 c h :
  0 <= c0 → c < 2 ^ 31 → cr_fits cr → Z.max 0 (c - c0) < Z.of_nat fuel →
  cr_appended cr (alternate_points fuel c0 c) (add_alternate fuel cr c0 c h).
Proof.
  revert cr c0 h. induction fuel as [|fuel IH]; intros cr c0 h H0 Hc Hf Hl; [lia|].
  cbn [alternate_points add_alternate]. zcase; [|by apply cr_appended_id].
  apply (cr_appended_bind _ _ _ [_; _]); [by apply cr_appended_interval|].
  intros cr1 h1 Hf1 _. assert (u32 (c0 + 2) = c0 + 2) as -> by (apply Z.mod_small; lia). apply IH; lia || done.
Qed.
Lemma gc_add_run_spec cr m c0 c v h :
  0 <= c0 → c0 < c → c < 2 ^ 31 → cr_fits cr →
  cr_appended cr (gc_run_points m (c0, c, v)) (gc_add_run cr m c0 c v h).
Proof.
  intros H0 H1 H2 Hf. unfold gc_run_points, gc_add_run.
  destruct (v =? 31).
  - cbv zeta. destruct (negb (_ =? 0)); [|by apply cr_appended_id].
    destruct (_ =? _); [by apply cr_appended_interval|].
    assert (0 <= u32 (c0 + b2z (negb (m .& gc_bit UNICODE_GC_Ll =? 0)))) by (apply Z.mod_pos_bound; lia).
    apply add_alternate_spec; [done|done|done|lia].
  - destruct (negb _); [by apply cr_appended_interval|by apply cr_appended_id].
Qed.
Lemma gc_loop_spec m runs fuel table p c hi cr h :
  decode_runs gc_decode fuel table p c = Some runs → runs_contiguous c hi runs = true → hi < 2 ^ 31 →
  0 <= c → cr_fits cr →
  cr_appended cr (concat (map (gc_run_points m) runs)) (gc_loop fuel cr table p c m h).
Proof.
  intros Hd Hr Hhi. revert fuel p c cr h Hd Hr. induction runs as [|r runs IH]; intros fuel p c cr h Hd Hr Hc Hf;
    (destruct fuel as [|fuel]; [done|]); cbn [decode_runs gc_loop] in *; destruct (p <? zlen table).
  - destruct (gc_decode table p) as [[[n v] p']|]; [|done]. cbn [mbind option_bind] in Hd.
    destruct (decode_runs _ _ _ _ _); done.
  - by apply cr_appended_id.
  - destruct (gc_decode table p) as [[[n v] p']|]; [|done]. cbn [mbind option_bind] in Hd. rewrite bind_lift.
    destruct (decode_runs _ _ _ _ _) as [l|] eqn:E; [|done]. cbn [mbind option_bind] in Hd.
    injection Hd as <- <-. cbn [runs_contiguous] in Hr.
    apply andb_true_iff in Hr as [[_ Hlt%Z.ltb_lt]%andb_true_iff Hr].
    destruct (gc_runs_points_facts m _ _ _ Hr) as (_ & Hle & _); [lia|done|].
    cbn [map concat]. apply cr_appended_bind; [apply gc_add_run_spec; lia || done|].
    intros cr1 h1 Hf1 _. apply IH; [done|done|lia|done].
  - done.
Qed.
(** compare the wrappers of the loops, never run the loops *)
#[local] Strategy 100 [gc_loop decode_runs case1_loop prop1_loop].
Lemma unicode_general_category1_points m cr h :
  cr_fits cr → ∃ runs, unicode_gc_runs = Some runs ∧ runs_contiguous 0 (unicode_max + 1) runs = true ∧
    cr_appended cr (concat (map (gc_run_points m) runs)) (unicode_general_category1 cr m h).
Proof.
  intros Hf. pose proof unicode_gc_runs_ok as Hok. apply opt_test_Some in Hok as (runs & Hd & Hr).
  exists runs. split; [done|]. split; [done|].
  unfold unicode_gc_runs in Hd. by eapply gc_loop_spec; [exact Hd|exact Hr|unfold unicode_max; lia|..].
Qed.

(** The range of a set of general categories holds exactly the code
    points whose category, read from the same table, is in the set; and every
    code point has a category. *)
Theorem unicode_general_category1_spec gc_mask h :
  (∀ c, 0 <= c <= unicode_max → is_Some (unicode_gc c)) ∧
  ∃ ret cr h', unicode_general_category1 cr_init gc_mask h = Some ((ret, cr), h') ∧
    ((ret = -1 ∧ ∃ n sz, realloc_ok n sz = false) ∨
     (ret = 0 ∧ cr_wf (cr_points cr) ∧
      ∀ c, cr_in (cr_points cr) c ↔ ∃ g, unicode_gc c = Some g ∧ Z.testbit gc_mask g = true)).
Proof.
  destruct (unicode_general_category1_points gc_mask cr_init h) as (runs & Hr & Hok & ret & cr & h' & E & _ & Hc); [done|].
  unfold unicode_gc. rewrite Hr. cbn [mbind option_bind]. split.
  - clear - Hok. intros c Hc. assert (∀ lo, lo <= c → runs_contiguous lo (unicode_max + 1) runs = true → is_Some (gc_in_runs runs c)) as H;
      [|by eapply H; [|exact Hok]; lia].
    clear Hok. induction runs as [|[[c0 c1] v] runs IH]; intros lo Hlo H; cbn [runs_contiguous gc_in_runs] in *.
    + apply Z.eqb_eq in H. lia.
    + apply andb_true_iff in H as [[->%Z.eqb_eq Hlt%Z.ltb_lt]%andb_true_iff H].
      destruct (Z.leb_spec lo c), (Z.ltb_spec c c1); try lia; cbn; eauto.
  - exists ret, cr, h'. split; [done|]. destruct Hc as [[-> Hp]|Hc]; [right|by left]. split; [done|].
    destruct (gc_runs_points_facts gc_mask runs 0 _ Hok) as (Hw & _ & Hmem & _); [lia|by unfold unicode_max; lia|].
    rewrite Hp. change (cr_points cr_init ++ ?l) with l. apply pts_within_wf in Hw. split; [done|].
    intros c. rewrite <- cr_mem_in, Hmem by done. split.
    + by intros (g & Hg & Ht)%opt_test_Some; eauto.
    + intros (g & -> & Ht). done.
Qed.
End GcRanges.

(** ** Stack programs as operations on sets *)

(** the members of the run-length table [a] *)
Definition prop_points (a : Z) : option (list Z) :=
  table ← unicode_prop_table.[a]; l ← boundaries table 0; Some (run_intervals 0 false l).
Definition prop_set (a c : Z) : bool := opt_test (λ l, cr_mem l c) (prop_points a).
Definition gc_set (m c : Z) : bool := opt_test (Z.testbit m) (unicode_gc c).
Definition case_set (m c : Z) : bool := any_change (conv_changes c) m.

(** the meaning of a stack program on a stack of sets, where the program
    respects the depth of the stack and names existing tables *)
Fixpoint eval_ops (ops : list prop_op) (stack : list (Z → bool)) : option (Z → bool) :=
  match ops with
  | [] => match stack with [s] => Some s | _ => None end
  | op :: ops =>
    match op, stack with
    | POP_GC m, _ => if zlen stack <? POP_STACK_LEN_MAX then eval_ops ops (gc_set m :: stack) else None
    | POP_PROP a, _ =>
      if (zlen stack <? POP_STACK_LEN_MAX) && (0 <=? a) && (a <? zlen unicode_prop_table)
      then eval_ops ops (prop_set a :: stack) else None
    | POP_CASE m, _ =>
      if (zlen stack <? POP_STACK_LEN_MAX) && (1 <=? m) && (m <=? 7)
      then eval_ops ops (case_set m :: stack) else None
    | POP_UNION, s2 :: s1 :: stack' =>
      if zlen stack <? POP_STACK_LEN_MAX then eval_ops ops ((λ c, s1 c || s2 c) :: stack') else None
    | POP_INTER, s2 :: s1 :: stack' =>
      if zlen stack <? POP_STACK_LEN_MAX then eval_ops ops ((λ c, s1 c && s2 c) :: stack') else None
    | POP_XOR, s2 :: s1 :: stack' =>
      if zlen stack <? POP_STACK_LEN_MAX then eval_ops ops ((λ c, xorb (s1 c) (s2 c)) :: stack') else None
    | POP_INVERT, s :: stack' => eval_ops ops ((λ c, negb (s c)) :: stack')
    | _, _ => None
    end
  end.

(** ** The properties by their definitions *)
(** Unicode Standard Annex #44, and #31 for the identifiers: the derived
    properties are formulas over the general category, the case conversions and
    the sets that the tables list.  [ID_Continue] and three of the
    [Changes_When] properties are tables of differences from another set. *)
Definition in_table (table : list Z) (c : Z) : bool := opt_test (λ l, cr_mem (run_intervals 0 false l) c) (boundaries table 0).
Definition has_gc (g c : Z) : bool := match unicode_gc c with Some g' => g' =? g | None => false end.
(** conversion 0 is to upper case, 1 to lower case, 2 is folding *)
Definition changes (t c : Z) : bool := negb (bool_decide (lre_case_conv c t = Some [c])).
Definition ascii_point (c : Z) : bool := c <? 0x80.
Definition any_point (c : Z) : bool := c <? 0x110000.
Definition lowercase (c : Z) : bool := has_gc UNICODE_GC_Ll c || in_table unicode_prop_Other_Lowercase_table c.
Definition uppercase (c : Z) : bool := has_gc UNICODE_GC_Lu c || in_table unicode_prop_Other_Uppercase_table c.
Definition alphabetic (c : Z) : bool :=
  lowercase c || uppercase c || has_gc UNICODE_GC_Lt c || has_gc UNICODE_GC_Lm c || has_gc UNICODE_GC_Lo c || has_gc UNICODE_GC_Nl c ||
  in_table unicode_prop_Other_Alphabetic_table c.
Definition grapheme_extend (c : Z) : bool := has_gc UNICODE_GC_Me c || has_gc UNICODE_GC_Mn c || in_table unicode_prop_Other_Grapheme_Extend_table c.
Definition grapheme_base (c : Z) : bool :=
  negb (has_gc UNICODE_GC_Cc c || has_gc UNICODE_GC_Cf c || has_gc UNICODE_GC_Cs c || has_gc UNICODE_GC_Co c || has_gc UNICODE_GC_Cn c ||
        has_gc UNICODE_GC_Zl c || has_gc UNICODE_GC_Zp c || grapheme_extend c).
Definition pattern (c : Z) : bool := in_table unicode_prop_Pattern_Syntax_table c || in_table unicode_prop_Pattern_White_Space_table c.
Definition id_base (c : Z) : bool :=
  has_gc UNICODE_GC_Lu c || has_gc UNICODE_GC_Ll c || has_gc UNICODE_GC_Lt c || has_gc UNICODE_GC_Lm c || has_gc UNICODE_GC_Lo c || has_gc UNICODE_GC_Nl c ||
  in_table unicode_prop_Other_ID_Start_table c.
Definition id_start (c : Z) : bool := id_base c && negb (pattern c).
Definition id_continue (c : Z) : bool :=
  (id_base c || has_gc UNICODE_GC_Mn c || has_gc UNICODE_GC_Mc c || has_gc UNICODE_GC_Nd c || has_gc UNICODE_GC_Pc c ||
   in_table unicode_prop_Other_ID_Continue_table c) && negb (pattern c).
(** each with its names *)
Definition property_sets : list (string * (Z → bool)) := [
  ("ASCII_Hex_Digit,AHex", in_table unicode_prop_ASCII_Hex_Digit_table);
  ("Bidi_Control,Bidi_C", in_table unicode_prop_Bidi_Control_table);
  ("Dash", in_table unicode_prop_Dash_table);
  ("Deprecated,Dep", in_table unicode_prop_Deprecated_table);
  ("Diacritic,Dia", in_table unicode_prop_Diacritic_table);
  ("Extender,Ext", in_table unicode_prop_Extender_table);
  ("Hex_Digit,Hex", in_table unicode_prop_Hex_Digit_table);
  ("IDS_Binary_Operator,IDSB", in_table unicode_prop_IDS_Binary_Operator_table);
  ("IDS_Trinary_Operator,IDST", in_table unicode_prop_IDS_Trinary_Operator_table);
  ("Ideographic,Ideo", in_table unicode_prop_Ideographic_table);
  ("Join_Control,Join_C", in_table unicode_prop_Join_Control_table);
  ("Logical_Order_Exception,LOE", in_table unicode_prop_Logical_Order_Exception_table);
  ("Noncharacter_Code_Point,NChar", in_table unicode_prop_Noncharacter_Code_Point_table);
  ("Pattern_Syntax,Pat_Syn", in_table unicode_prop_Pattern_Syntax_table);
  ("Pattern_White_Space,Pat_WS", in_table unicode_prop_Pattern_White_Space_table);
  ("Quotation_Mark,QMark", in_table unicode_prop_Quotation_Mark_table);
  ("Radical", in_table unicode_prop_Radical_table);
  ("Regional_Indicator,RI", in_table unicode_prop_Regional_Indicator_table);
  ("Sentence_Terminal,STerm", in_table unicode_prop_Sentence_Terminal_table);
  ("Soft_Dotted,SD", in_table unicode_prop_Soft_Dotted_table);
  ("Terminal_Punctuation,Term", in_table unicode_prop_Terminal_Punctuation_table);
  ("Unified_Ideograph,UIdeo", in_table unicode_prop_Unified_Ideograph_table);
  ("Variation_Selector,VS", in_table unicode_prop_Variation_Selector_table);
  ("White_Space,space", in_table unicode_prop_White_Space_table);
  ("Bidi_Mirrored,Bidi_M", in_table unicode_prop_Bidi_Mirrored_table);
  ("Emoji", in_table unicode_prop_Emoji_table);
  ("Emoji_Component,EComp", in_table unicode_prop_Emoji_Component_table);
  ("Emoji_Modifier,EMod", in_table unicode_prop_Emoji_Modifier_table);
  ("Emoji_Modifier_Base,EBase", in_table unicode_prop_Emoji_Modifier_Base_table);
  ("Emoji_Presentation,EPres", in_table unicode_prop_Emoji_Presentation_table);
  ("Extended_Pictographic,ExtPict", in_table unicode_prop_Extended_Pictographic_table);
  ("Default_Ignorable_Code_Point,DI", in_table unicode_prop_Default_Ignorable_Code_Point_table);
  ("ID_Start,IDS", in_table unicode_prop_ID_Start_table);
  ("Case_Ignorable,CI", in_table unicode_prop_Case_Ignorable_table);
  ("ASCII", ascii_point);
  ("Alphabetic,Alpha", alphabetic);
  ("Any", any_point);
  ("Assigned", λ c, negb (has_gc UNICODE_GC_Cn c));
  ("Cased", λ c, lowercase c || uppercase c || has_gc UNICODE_GC_Lt c);
  ("Changes_When_Casefolded,CWCF", λ c, xorb (changes 2 c) (in_table unicode_prop_Changes_When_Casefolded1_table c));
  ("Changes_When_Casemapped,CWCM", λ c, changes 0 c || changes 1 c || changes 2 c);
  ("Changes_When_Lowercased,CWL", changes 1);
  ("Changes_When_NFKC_Casefolded,CWKCF", λ c, xorb (changes 2 c) (in_table unicode_prop_Changes_When_NFKC_Casefolded1_table c));
  ("Changes_When_Titlecased,CWT", λ c, xorb (changes 0 c) (in_table unicode_prop_Changes_When_Titlecased1_table c));
  ("Changes_When_Uppercased,CWU", changes 0);
  ("Grapheme_Base,Gr_Base", grapheme_base);
  ("Grapheme_Extend,Gr_Ext", grapheme_extend);
  ("ID_Continue,IDC", λ c, xorb (in_table unicode_prop_ID_Start_table c) (in_table unicode_prop_ID_Continue1_table c));
  ("Lowercase,Lower", lowercase);
  ("Math", λ c, has_gc UNICODE_GC_Sm c || in_table unicode_prop_Other_Math_table c);
  ("Uppercase,Upper", uppercase);
  ("XID_Continue,XIDC", λ c, id_continue c && negb (in_table unicode_prop_XID_Continue1_table c));
  ("XID_Start,XIDS", λ c, id_start c && negb (in_table unicode_prop_XID_Start1_table c))]%string.
(** the set of a property name *)
Definition prop_named (name : list Z) : option (Z → bool) :=
  '(_, (_, s)) ← list_find (λ e, name ∈ aliases (c_bytes e.1)) property_sets; Some s.

(** what is pushed on the stack, by the same sets *)
Lemma prop_set_table a t c : unicode_prop_table.[a] = Some t → prop_set a c = in_table t c.
Proof. intros E. unfold prop_set, prop_points, in_table. rewrite E. cbn [mbind option_bind]. by destruct (boundaries t 0). Qed.
Lemma gc_bits_testbit ids g : forallb (Z.leb 0) ids = true → Z.testbit (gc_bits ids) g = existsb (Z.eqb g) ids.
Proof.
  induction ids as [|id ids IH]; cbn [gc_bits foldr forallb existsb]; [intros _; apply Z.testbit_0_l|]. intros [Hid%Z.leb_le Hids]%andb_true_iff.
  unfold gc_bits in IH. rewrite Z.lor_spec, IH by done. f_equal. unfold gc_bit. destruct (Z.ltb_spec g 0); [rewrite Z.testbit_neg_r by done; symmetry; apply Z.eqb_neq; lia|].
  rewrite Z.shiftl_1_l, Z.pow2_bits_eqb by done. apply Z.eqb_sym.
Qed.
Lemma gc_set_bits ids c : forallb (Z.leb 0) ids = true → gc_set (gc_bits ids) c = existsb (λ g, has_gc g c) ids.
Proof.
  intros Hids. unfold gc_set, has_gc. destruct (unicode_gc c) as [g|]; cbn [opt_test].
  - rewrite gc_bits_testbit by done. clear Hids. induction ids as [|id ids IH]; cbn [existsb]; [done|]. by rewrite IH.
  - clear Hids. induction ids as [|id ids IH]; cbn [existsb]; [done|]. by rewrite <- IH.
Qed.
Lemma case_set_changes m c : case_set m c = existsb (λ t, Z.testbit m t && changes t c) [0; 1; 2].
Proof.
  unfold case_set, any_change. assert (∀ t, conv_changes c t = changes t c) as E; [|cbn [existsb]; by rewrite !E]. intros t. unfold conv_changes, changes.
  destruct (lre_case_conv c t) as [[|d [|]]|]; [..|by rewrite bool_decide_eq_false_2]; try (by rewrite bool_decide_eq_false_2).
  destruct (Z.eqb_spec d c) as [->|]; [by rewrite bool_decide_eq_true_2|]. rewrite bool_decide_eq_false_2; [done|congruence].
Qed.

Lemma cr_canonical_within l lo hi :
  cr_canonical l → (∀ c, cr_in l c → lo <= c < hi) → Forall (λ p, lo <= p <= hi) l.
Proof.
  intros [He Hs]. revert l He Hs. refine (pairs_ind _ _ _); [constructor|].
  intros x y l He IH Hs Hin. pose proof Hs as [Hs1 [Hxy _]%Forall_cons]%StronglySorted_inv.
  apply StronglySorted_inv in Hs1 as [Hs2 _]. unfold cr_in in Hin. cbn [to_pairs] in Hin.
  assert (lo <= x < hi) by (apply Hin, Exists_cons; left; cbn; lia).
  assert (lo <= y - 1 < hi) by (apply Hin, Exists_cons; left; cbn; lia).
  constructor; [lia|]. constructor; [lia|]. apply IH; [done|]. intros c Hc. apply Hin, Exists_cons. by right.
Qed.

(** [l] is a sorted range below 2^32-1 that denotes the set [s] there *)
Definition denotes (l : list Z) (s : Z → bool) : Prop :=
  cr_wf l ∧ Forall (λ p, 0 <= p <= UINT32_MAX) l ∧ ∀ c, 0 <= c < UINT32_MAX → cr_mem l c = s c.
Lemma pts_within_denotes hi l s :
  pts_within 0 hi l → hi <= UINT32_MAX → (∀ c, 0 <= c → cr_mem l c = s c) → denotes l s.
Proof.
  intros ([E _] & Hs & Hf) Hhi Hmem. split; [by split|]. split; [|intros c Hc; apply Hmem; lia].
  eapply Forall_impl; [exact Hf|]. cbn; intros; lia.
Qed.
Lemma denotes_in l s c : denotes l s → 0 <= c < UINT32_MAX → cr_in l c ↔ s c = true.
Proof. intros (Hw & _ & Hm) Hc. by rewrite <- cr_mem_in, Hm. Qed.
Lemma canonical_denotes l (s : Z → bool) :
  cr_canonical l → (∀ c, cr_in l c ↔ 0 <= c < UINT32_MAX ∧ s c = true) → denotes l s.
Proof.
  intros Hl Hin. pose proof (cr_canonical_wf _ Hl) as Hw. split; [done|]. split.
  - apply (cr_canonical_within l 0 UINT32_MAX Hl). intros c Hc. apply Hin in Hc. lia.
  - intros c Hc. apply eq_true_iff_eq. rewrite cr_mem_in, Hin by done. tauto.
Qed.
Lemma cr_in_bounds l lo hi c : Forall (λ p, lo <= p <= hi) l → cr_in l c → lo <= c < hi.
Proof.
  intros Hf Hc. unfold cr_in in Hc.
  assert (∀ l, Forall (λ p, lo <= p <= hi) l → Forall (λ p, lo <= p.1 ∧ p.2 <= hi) (to_pairs l)) as Hp.
  { clear. intros l. induction l as [l IH] using (induction_ltof1 _ (@length Z)). unfold ltof in IH.
    destruct l as [|x [|y l]]; intros Hf; [constructor..|]. cbn [to_pairs].
    apply Forall_cons in Hf as [Hx Hf]. apply Forall_cons in Hf as [Hy Hf].
    constructor; [cbn; lia|]. apply IH; [cbn; lia|done]. }
  apply Hp in Hf. rewrite Forall_forall in Hf. apply Exists_exists in Hc as (p & Hin & Hc). apply Hf in Hin. lia.
Qed.
Lemma denotes_range l s c : denotes l s → cr_in l c → 0 <= c < UINT32_MAX.
Proof. intros (_ & Hf & _). by apply cr_in_bounds. Qed.

Lemma prop_tables_ok :
  forallb (λ t, opt_test (λ l, increasing 0 l && opt_test (λ x, x <=? unicode_max + 1) (last l)) (boundaries t 0))
    unicode_prop_table = true.
Proof. vm_compute. reflexivity. Qed.
Lemma run_intervals_within l c0 bit hi :
  StronglySorted Z.lt (c0 :: l) → Forall (λ x, x <= hi) (c0 :: l) → pts_within c0 hi (run_intervals c0 bit l).
Proof.
  revert c0 bit. induction l as [|x l IH]; intros c0 bit Hs Hf; [apply pts_within_nil|]. cbn [run_intervals].
  apply StronglySorted_inv in Hs as [Hs [Hx _]%Forall_cons]. apply Forall_cons in Hf as [H0 Hf].
  pose proof Hf as [Hhi _]%Forall_cons.
  apply (pts_within_app c0 x); [destruct bit; [apply pts_within_interval; lia|apply pts_within_nil]|by apply IH|lia].
Qed.
Lemma sorted_last_bound l v : StronglySorted Z.lt l → last l = Some v → Forall (λ x, x <= v) l.
Proof.
  induction 1 as [|x l Hs IH Hx]; intros Hl; [done|].
  destruct l as [|y l]; [injection Hl as ->; by constructor|].
  specialize (IH Hl). constructor; [|done]. apply Forall_cons in IH as [? _]. apply Forall_cons in Hx as [? _]. lia.
Qed.
Lemma prop_points_facts a :
  0 <= a < zlen unicode_prop_table →
  ∃ table l pts, unicode_prop_table.[a] = Some table ∧ boundaries table 0 = Some l ∧
    pts = run_intervals 0 false l ∧ prop_points a = Some pts ∧ pts_within 0 (unicode_max + 1) pts.
Proof.
  intros Ha. destruct (aget_is_Some unicode_prop_table a) as [table Ht]; [done|].
  pose proof prop_tables_ok as Hok. rewrite forallb_forall in Hok.
  assert (List.In table unicode_prop_table) as Hin.
  { apply list_elem_of_In. unfold aget in Ht. destruct (a <? 0); [done|]. by eapply list_elem_of_lookup_2. }
  specialize (Hok _ Hin). clear Hin. apply opt_test_Some in Hok as (l & Hb & [Hs%increasing_sorted Hl]%andb_true_iff).
  apply opt_test_Some in Hl as (v & Hv & Hle%Z.leb_le).
  exists table, l, (run_intervals 0 false l). split; [done|]. split; [done|]. split; [done|].
  split; [unfold prop_points; rewrite Ht; cbn [mbind option_bind]; by rewrite Hb|].
  apply run_intervals_within; [done|]. apply StronglySorted_inv in Hs as [Hs _].
  constructor; [unfold unicode_max; lia|]. eapply Forall_impl; [by eapply sorted_last_bound|]. cbn; intros; lia.
Qed.

Section Programs.
Context `{!Allocator}.

Notation alloc_failed := (∃ n sz, realloc_ok n sz = false).
(** the outcome of a computation of a range that denotes [s] *)
Definition yields (s : Z → bool) (r : option ((Z * CharRange) * heap)) : Prop :=
  ∃ ret cr h, r = Some ((ret, cr), h) ∧
    ((ret = -1 ∧ alloc_failed) ∨ (ret = 0 ∧ denotes (cr_points cr) s ∧ proper (cr_points cr))).

Lemma appended_yields pts s r : cr_appended cr_init pts r → denotes pts s → proper pts → yields s r.
Proof.
  intros (ret & cr & h & E & _ & Hc) Hd Hpr. exists ret, cr, h. split; [done|].
  destruct Hc as [[-> Hp]|Hc]; [right|by left]. split; [done|]. by rewrite Hp.
Qed.
Lemma gc_yields m h : yields (gc_set m) (unicode_general_category1 cr_init m h).
Proof.
  destruct (unicode_general_category1_points m cr_init h) as (runs & Hr & Hok & Happ); [done|].
  destruct (gc_runs_points_facts m runs 0 _ Hok) as (Hw & _ & Hmem & _); [lia|by unfold unicode_max; lia|].
  eapply appended_yields; [exact Happ| |apply Hw].
  eapply pts_within_denotes; [exact Hw|by unfold unicode_max, UINT32_MAX; lia|].
  intros c _. rewrite Hmem. unfold gc_set, unicode_gc. by rewrite Hr.
Qed.
Lemma prop1_yields a h :
  0 <= a < zlen unicode_prop_table → yields (prop_set a) (unicode_prop1 cr_init a h).
Proof.
  intros Ha. destruct (prop_points_facts a Ha) as (table & l & pts & Ht & Hb & -> & Hp & Hw).
  unfold unicode_prop1. rewrite Ht, bind_lift.
  eapply appended_yields; [by apply prop1_table_spec| |apply Hw].
  eapply pts_within_denotes; [exact Hw|by unfold unicode_max, UINT32_MAX; lia|].
  intros c _. unfold prop_set. by rewrite Hp.
Qed.
Lemma case1_yields m h : 1 <= m <= 7 → yields (case_set m) (unicode_case1 cr_init m h).
Proof.
  intros Hm.
  assert (m ∈ case_masks) as Hin by (unfold case_masks; rewrite !elem_of_cons, elem_of_nil; lia).
  destruct (case_points_facts m Hin) as [Hw Hmem].
  eapply appended_yields; [by apply unicode_case1_points| |apply Hw].
  eapply pts_within_denotes; [exact Hw|by unfold unicode_max, UINT32_MAX; lia|done].
Qed.
(** the Boolean operation on memberships *)
Lemma cr_op_yields op a b sa sb h :
  denotes a sa → denotes b sb → yields (λ c, opb op (sa c) (sb c)) (cr_op cr_init a b op h).
Proof.
  intros Ha Hb. pose proof Ha as [Hwa _]. pose proof Hb as [Hwb _].
  destruct (cr_op_cases op a b h Hwa Hwb) as (ret & cr & h' & E & Hc). exists ret, cr, h'.
  split; [done|]. destruct Hc as [Hc|(-> & Hcan & Hin)]; [by left|right]. split; [done|].
  split; [|by apply canonical_proper]. apply canonical_denotes; [done|]. intros c. rewrite Hin.
  pose proof (denotes_range a sa c Ha). pose proof (denotes_range b sb c Hb).
  pose proof (denotes_in a sa c Ha). pose proof (denotes_in b sb c Hb).
  destruct op; cbn [opb]; destruct (sa c), (sb c); cbn; intuition (done || congruence).
Qed.
Lemma cr_invert_yields cr s h :
  denotes (cr_points cr) s → yields (λ c, negb (s c)) (cr_invert cr h).
Proof.
  intros Hd. pose proof Hd as (Hw & Hf & _).
  destruct (cr_invert_cases cr h Hw Hf) as (ret & cr' & h' & E & Hc). exists ret, cr', h'.
  split; [done|]. destruct Hc as [Hc|(-> & Hcan & Hin)]; [by left|right]. split; [done|].
  split; [|by apply canonical_proper].
  apply canonical_denotes; [done|]. intros c. rewrite Hin. split; intros [Hc Hn]; (split; [done|]);
    rewrite (denotes_in _ s c Hd Hc) in *; destruct (s c); cbn in *; congruence.
Qed.
Lemma cr_copy_yields cr cr1 s h :
  denotes (cr_points cr1) s → proper (cr_points cr1) → yields s (cr_copy cr cr1 h).
Proof.
  intros Hd Hpr. unfold cr_copy.
  destruct (cr_realloc_cases cr (cr_len cr1) h) as (ret & cr' & h' & E & _ & _ & [[-> Hsz]|[-> Hf]]);
    rewrite (bind_M_eq _ _ _ _ _ E); cbn [Z.eqb negb].
  - erewrite bind_M_eq by (unfold massert; zcase; [reflexivity|lia]).
    eexists 0, _, _. split; [reflexivity|]. by right.
  - exists (-1), cr', h'. split; [done|]. by left.
Qed.

(** continue with the range when the computation did not fail *)
Lemma yields_bind (m : M (Z * CharRange)) (k : CharRange → M (Z * CharRange)) cr s s' h :
  yields s (m h) →
  (∀ c h, denotes (cr_points c) s → proper (cr_points c) → yields s' (k c h)) →
  yields s' (('(ret, c) ← m; if negb (ret =? 0) then mret (-1, cr) else k c) h).
Proof.
  intros (ret & c & h1 & E & Hc) Hk. rewrite (bind_M_eq _ _ _ _ _ E).
  destruct Hc as [[-> Hf]|(-> & Hd & Hpr)]; cbn [Z.eqb negb]; [|by apply Hk].
  exists (-1), cr, h1. split; [done|]. by left.
Qed.

Definition stack_denotes (stack : list CharRange) (sets : list (Z → bool)) : Prop :=
  Forall2 (λ c s, denotes (cr_points c) s ∧ proper (cr_points c)) stack sets.
Lemma pop_push_spec stack sets fill k cr s s' h :
  stack_denotes stack sets → (zlen sets <? POP_STACK_LEN_MAX) = true → (∀ h, yields s (fill cr_init h)) →
  (∀ stack h, stack_denotes stack (s :: sets) → yields s' (k stack h)) →
  yields s' (pop_push stack fill k cr h).
Proof.
  intros Hst Hlen Hfill Hk. unfold pop_push.
  assert (zlen stack = zlen sets) as -> by (unfold zlen; by rewrite (Forall2_length _ _ _ Hst)).
  rewrite Hlen. erewrite bind_M_eq by reflexivity.
  eapply yields_bind; [apply Hfill|]. intros c h1 Hc Hpr. apply Hk. by constructor.
Qed.
Lemma pop_binary_spec stack sets s1 s2 op k cr s' h :
  stack_denotes stack (s2 :: s1 :: sets) → (zlen (s2 :: s1 :: sets) <? POP_STACK_LEN_MAX) = true →
  (∀ stack h, stack_denotes stack ((λ c, opb op (s1 c) (s2 c)) :: sets) → yields s' (k stack h)) →
  yields s' (pop_binary stack op k cr h).
Proof.
  intros Hst Hlen Hk. pose proof (Forall2_length _ _ _ Hst) as Hl.
  inversion Hst as [|c2 ? stack1 ? [Hc2 Hp2] Hst1]; subst. inversion Hst1 as [|c1 ? stack2 ? [Hc1 Hp1] Hst2]; subst.
  unfold pop_binary. assert (zlen (c2 :: c1 :: stack2) = zlen (s2 :: s1 :: sets)) as -> by (unfold zlen; by rewrite Hl).
  rewrite Hlen. erewrite bind_M_eq by reflexivity.
  eapply yields_bind; [by apply cr_op_yields|]. intros c h1 Hc Hpr. apply Hk. by constructor.
Qed.
Lemma prop_ops_loop_spec ops cr stack sets s h :
  stack_denotes stack sets → eval_ops ops sets = Some s → yields s (prop_ops_loop cr ops stack h).
Proof.
  revert stack sets h. induction ops as [|op ops IH]; intros stack sets h Hst Hev.
  - cbn [eval_ops prop_ops_loop] in *. destruct sets as [|s0 [|]]; try done. injection Hev as <-.
    inversion Hst as [|c ? ? ? [Hc Hpr] Hst1]; subst. inversion Hst1; subst. by apply cr_copy_yields.
  - destruct op; cbn [eval_ops prop_ops_loop] in *.
    + destruct (zlen sets <? POP_STACK_LEN_MAX) eqn:El; [|done].
      eapply pop_push_spec; [done..|apply gc_yields|]. intros st h1 Hs1. by eapply IH.
    + destruct (zlen sets <? POP_STACK_LEN_MAX) eqn:El; [|done].
      destruct (Z.leb_spec 0 a), (Z.ltb_spec a (zlen unicode_prop_table)); try done.
      eapply pop_push_spec; [done..|intros; by apply prop1_yields|]. intros st h1 Hs1. by eapply IH.
    + destruct (zlen sets <? POP_STACK_LEN_MAX) eqn:El; [|done].
      destruct (Z.leb_spec 1 a), (Z.leb_spec a 7); try done.
      eapply pop_push_spec; [done..|intros; by apply case1_yields|]. intros st h1 Hs1. by eapply IH.
    + destruct sets as [|s2 [|s1 sets]]; try done.
      destruct (zlen (s2 :: s1 :: sets) <? POP_STACK_LEN_MAX) eqn:El; [|done].
      eapply pop_binary_spec; [done..|]. intros st h1 Hs1. by eapply IH.
    + destruct sets as [|s2 [|s1 sets]]; try done.
      destruct (zlen (s2 :: s1 :: sets) <? POP_STACK_LEN_MAX) eqn:El; [|done].
      eapply pop_binary_spec; [done..|]. intros st h1 Hs1. by eapply IH.
    + destruct sets as [|s2 [|s1 sets]]; try done.
      destruct (zlen (s2 :: s1 :: sets) <? POP_STACK_LEN_MAX) eqn:El; [|done].
      eapply pop_binary_spec; [done..|]. intros st h1 Hs1. by eapply IH.
    + destruct sets as [|s0 sets]; [done|]. inversion Hst as [|c ? st ? [Hc Hpr] Hst1]; subst.
      eapply yields_bind; [by apply cr_invert_yields|]. intros c1 h1 Hc1 Hpr1. eapply IH; [|done]. by constructor.
Qed.

(** ** Property names *)

(** the set that the code computes for an index *)
Definition index_set (prop_idx : Z) : option (Z → bool) :=
  if prop_idx =? UNICODE_PROP_ASCII then Some ascii_point
  else if prop_idx =? UNICODE_PROP_Any then Some any_point
  else if prop_idx =? UNICODE_PROP_Changes_When_Uppercased then Some (case_set CASE_U)
  else if prop_idx =? UNICODE_PROP_Changes_When_Lowercased then Some (case_set CASE_L)
  else if prop_idx =? UNICODE_PROP_Changes_When_Casemapped then Some (case_set (CASE_U .| CASE_L .| CASE_F))
  else
    match prop_program prop_idx with
    | Some ops => eval_ops ops []
    | None => if prop_idx >=? zlen unicode_prop_table then None else Some (prop_set prop_idx)
    end.
(** is the set of the name at that place of the table of names *)
Definition set_agrees (i : Z) (e : string * (Z → bool)) : Prop := match index_set i with Some s => ∀ c, s c = e.2 c | None => False end.
Fixpoint sets_agree (i : Z) (l : list (string * (Z → bool))) : Prop :=
  match l with [] => True | e :: l => set_agrees i e ∧ sets_agree (i + 1) l end.
(** the program of an index, as a formula over the same sets *)
Ltac expand_atoms :=
  repeat match goal with
  | |- context [gc_set (gc_bits ?ids) ?c] => rewrite (gc_set_bits ids c) by reflexivity
  | |- context [prop_set ?a ?c] => erewrite (prop_set_table a _ c) by (unfold aget; cbn; reflexivity)
  | |- context [case_set ?m ?c] => rewrite (case_set_changes m c)
  | |- context [Z.testbit ?m ?i] => let b := eval vm_compute in (Z.testbit m i) in change (Z.testbit m i) with b
  end.
Ltac abstract_atoms :=
  repeat match goal with
  | |- context [has_gc ?g ?c] => generalize (has_gc g c); intro
  | |- context [in_table ?t ?c] => generalize (in_table t c); intro
  | |- context [changes ?t ?c] => generalize (changes t c); intro
  end.
Ltac set_formula :=
  unfold set_agrees; match goal with |- context [index_set ?i] => let s := eval hnf in (index_set i) in change (index_set i) with s end; cbv beta iota; intros c; cbn [fst snd];
  expand_atoms; cbv delta [id_continue id_start id_base pattern grapheme_base grapheme_extend alphabetic lowercase uppercase] beta; cbn [existsb]; expand_atoms;
  abstract_atoms; cbn; first [reflexivity | btauto].
Lemma property_sets_agree : sets_agree UNICODE_PROP_ASCII_Hex_Digit property_sets.
Proof. unfold property_sets. cbn [sets_agree]. repeat first [exact I | split; [set_formula|]]. Qed.
Lemma sets_agree_at k l i e : sets_agree k l → l !! i = Some e → set_agrees (k + Z.of_nat i) e.
Proof.
  revert k i. induction l as [|e' l IH]; intros k i; [done|]. intros [H1 H2]. destruct i as [|i]; cbn; [intros [= ->]; by rewrite Z.add_0_r|].
  intros E. specialize (IH _ _ H2 E). by replace (k + Z.of_nat (Datatypes.S i)) with (k + 1 + Z.of_nat i) by lia.
Qed.
Lemma property_names : unicode_prop_names = property_sets.*1.
Proof. reflexivity. Qed.
Lemma find_property name :
  list_find (λ e, name ∈ aliases e) (map c_bytes unicode_prop_names) =
    prod_map id (λ e, c_bytes e.1) <$> list_find (λ e, name ∈ aliases (c_bytes e.1)) property_sets.
Proof. rewrite property_names. change (map c_bytes property_sets.*1) with (c_bytes <$> (fst <$> property_sets)). rewrite <- list_fmap_compose. by rewrite list_find_fmap. Qed.

Lemma name_table_entries names : name_table names = names_of (map c_bytes names).
Proof. unfold name_table, names_of. by rewrite map_map. Qed.
Definition entry_ok (e : list Z) : bool := negb (bool_decide (e = [])) && negb (bool_decide (0 ∈ e)).
Lemma entries_ok names :
  forallb entry_ok (map c_bytes names) = true → Forall (λ e, e ≠ [] ∧ 0 ∉ e) (map c_bytes names).
Proof.
  intros Hok. apply Forall_forall. intros e He%list_elem_of_In. rewrite forallb_forall in Hok. apply Hok in He.
  unfold entry_ok in He. apply andb_true_iff in He as [H1%negb_true_iff H2%negb_true_iff].
  by apply bool_decide_eq_false in H1, H2.
Qed.
(** a lookup in one of the tables of the library *)
Lemma find_name_table names name rest :
  forallb entry_ok (map c_bytes names) = true → 0 ∉ name →
  unicode_find_name (name_table names) (name ++ 0 :: rest) =
    Some (match list_find (λ e, name ∈ aliases e) (map c_bytes names) with
          | Some (i, _) => Z.of_nat i | None => -1 end).
Proof.
  intros Hn H0. rewrite name_table_entries. apply unicode_find_name_eq; [by apply entries_ok|done].
Qed.
Lemma unicode_prop_names_ok : forallb entry_ok (map c_bytes unicode_prop_names) = true.
Proof. vm_compute. reflexivity. Qed.

Lemma yields_or_fail s m h : yields s (m h) → yields s ((cr ←? m; mret (0, cr)) h).
Proof.
  intros (ret & cr & h1 & E & Hc). unfold or_fail. rewrite (bind_M_eq _ _ _ _ _ E).
  destruct Hc as [[-> Hf]|[-> Hd]]; cbn [Z.eqb negb].
  - exists (-1), cr, h1. split; [done|]. by left.
  - exists 0, cr, h1. split; [done|]. by right.
Qed.
Lemma interval_yields b h :
  0 < b <= UINT32_MAX → yields (λ c, c <? b) (cr_add_interval cr_init 0 b h).
Proof.
  intros Hb. eapply appended_yields; [by apply cr_appended_interval| |].
  { apply (pts_within_denotes b); [apply pts_within_interval; lia|lia|].
    intros c Hc. cbn [cr_mem]. destruct (Z.leb_spec 0 c), (Z.leb_spec b c), (Z.ltb_spec c b); cbn; lia || done. }
  split; [done|]. constructor; [cbn; lia|constructor].
Qed.

(** [unicode_prop] after the lookup of the name *)
Lemma unicode_prop_index idx s h : 0 <= idx < UNICODE_PROP_COUNT → index_set idx = Some s →
  yields s ((if idx =? UNICODE_PROP_ASCII then cr ←? cr_add_interval cr_init 0x00 (0x7f + 1); mret (0, cr)
    else if idx =? UNICODE_PROP_Any then cr ←? cr_add_interval cr_init 0x00000 (0x10ffff + 1); mret (0, cr)
    else if idx =? UNICODE_PROP_Changes_When_Uppercased then unicode_case1 cr_init CASE_U
    else if idx =? UNICODE_PROP_Changes_When_Lowercased then unicode_case1 cr_init CASE_L
    else if idx =? UNICODE_PROP_Changes_When_Casemapped then unicode_case1 cr_init (CASE_U .| CASE_L .| CASE_F)
    else match prop_program idx with
      | Some ops => unicode_prop_ops cr_init ops
      | None => if idx >=? zlen unicode_prop_table then mret (-2, cr_init) else unicode_prop1 cr_init idx
      end) h).
Proof.
  intros Hidx. unfold index_set.
  destruct (idx =? UNICODE_PROP_ASCII); [intros [= <-]; apply (yields_or_fail ascii_point), (interval_yields 0x80); unfold UINT32_MAX; lia|].
  destruct (idx =? UNICODE_PROP_Any); [intros [= <-]; apply (yields_or_fail any_point), (interval_yields 0x110000); unfold UINT32_MAX; lia|].
  destruct (idx =? UNICODE_PROP_Changes_When_Uppercased); [intros [= <-]; by apply (case1_yields CASE_U)|].
  destruct (idx =? UNICODE_PROP_Changes_When_Lowercased); [intros [= <-]; by apply (case1_yields CASE_L)|].
  destruct (idx =? UNICODE_PROP_Changes_When_Casemapped); [intros [= <-]; by apply (case1_yields (CASE_U .| CASE_L .| CASE_F))|].
  destruct (prop_program idx) as [ops|] eqn:Ep.
  - intros Hs. by apply (prop_ops_loop_spec ops cr_init [] []); [constructor|].
  - rewrite Z.geb_leb. destruct (Z.leb_spec (zlen unicode_prop_table) idx); [done|]. intros [= <-]. apply prop1_yields. lia.
Qed.

(** C34: [unicode_prop] returns the set of the named property, as Unicode Standard Annex #44 defines it from the general category, the case conversions and the tables of the data: for every name, either it is found and the range holds exactly the code points of the property, or it is not the name of a property and the result is -2, or an allocation failed and the result is -1.  The assertions on the four-entry stack hold and no table is left *)
Theorem unicode_prop_spec name rest h :
  0 ∉ name →
  ∃ ret cr h', unicode_prop cr_init (name ++ 0 :: rest) h = Some ((ret, cr), h') ∧
    ((ret = -1 ∧ ∃ n sz, realloc_ok n sz = false) ∨
     (ret = -2 ∧ prop_named name = None) ∨
     (ret = 0 ∧ ∃ s, prop_named name = Some s ∧ cr_wf (cr_points cr) ∧
        ∀ c, 0 <= c < UINT32_MAX → cr_in (cr_points cr) c ↔ s c = true)).
Proof.
  intros Hn. unfold unicode_prop, unicode_prop_name_table, prop_named. rewrite (find_name_table _ _ _ unicode_prop_names_ok Hn), bind_lift, find_property.
  destruct (list_find _ property_sets) as [[i [n s]]|] eqn:El; cbn [fmap option_fmap option_map prod_map id fst snd]; [|by eexists (-2), _, _; split; [reflexivity|right; left]].
  apply list_find_Some in El as (Ei & _ & _). destruct (Z.ltb_spec (Z.of_nat i) 0); [lia|]. cbn [mbind option_bind].
  pose proof (sets_agree_at _ _ _ _ property_sets_agree Ei) as Hs. pose proof (lookup_lt_Some _ _ _ Ei) as Hi. change (length property_sets) with 53%nat in Hi. unfold set_agrees in Hs. rewrite (Z.add_comm _ (Z.of_nat i)) in Hs.
  assert (0 <= Z.of_nat i + UNICODE_PROP_ASCII_Hex_Digit < UNICODE_PROP_COUNT) as Hidx by (unfold UNICODE_PROP_ASCII_Hex_Digit, UNICODE_PROP_COUNT; lia).
  set (idx := Z.of_nat i + UNICODE_PROP_ASCII_Hex_Digit) in *. clearbody idx. destruct (index_set idx) as [s'|] eqn:Es; [|done].
  destruct (unicode_prop_index idx s' h Hidx Es) as (ret & cr & h' & E & Hc). exists ret, cr, h'. split; [exact E|]. destruct Hc as [Hc|(-> & Hd & _)]; [by left|right; right].
  split; [done|]. exists s. split; [done|]. split; [apply Hd|]. intros c Hc. rewrite (denotes_in _ _ _ Hd Hc). by rewrite Hs.
Qed.
End Programs.

(** ** Witnesses *)
Lemma unicode_find_name_spec_witness :
  unicode_find_name (names_of (map c_bytes ["Lu,Uppercase_Letter"; "Ll"])) (c_bytes "Uppercase_Letter" ++ 0 :: []) =
    Some 0.
Proof.
  apply (unicode_find_name_spec (map c_bytes ["Lu,Uppercase_Letter"; "Ll"]) (c_bytes "Uppercase_Letter") []).
  - repeat constructor; by apply (bool_decide_unpack _).
  - by apply (bool_decide_unpack _).
Defined.
Lemma unicode_case1_spec_witness :
  ∃ ret cr h', unicode_case1 cr_init 2 0%nat = Some ((ret, cr), h') ∧
    ((ret = -1 ∧ ∃ n sz, realloc_ok n sz = false) ∨
     (ret = 0 ∧ cr_wf (cr_points cr) ∧
      ∀ c, 0 <= c → cr_in (cr_points cr) c ↔
        ∃ t, 0 <= t <= 2 ∧ Z.testbit 2 t = true ∧ lre_case_conv c t ≠ Some [c])).
Proof. apply (unicode_case1_spec 2 0%nat). lia. Defined.
Lemma same_some {A} (o : option A) a b : o = Some a → o = Some b → a = b.
Proof. intros ->. by injection 1. Qed.
(** [Lowercase] is found, and it is not the set of another property *)
Lemma unicode_prop_spec_witness :
  prop_named (c_bytes "Lower") = Some lowercase ∧ lowercase 0x61 = true ∧ lowercase 0x41 = false ∧
  ∃ ret cr h', unicode_prop cr_init (c_bytes "Lower" ++ 0 :: []) 0%nat = Some ((ret, cr), h') ∧
    ((ret = -1 ∧ ∃ n sz, realloc_ok n sz = false) ∨ ret = 0 ∧ ∀ c, 0 <= c < UINT32_MAX → cr_in (cr_points cr) c ↔ lowercase c = true).
Proof.
  assert (prop_named (c_bytes "Lower") = Some lowercase) as En by reflexivity. split; [exact En|]. split; [vm_compute; reflexivity|]. split; [vm_compute; reflexivity|].
  destruct (unicode_prop_spec (c_bytes "Lower") [] 0%nat) as (ret & cr & h' & E & Hc); [by apply (bool_decide_unpack _)|]. exists ret, cr, h'. split; [exact E|].
  destruct Hc as [Hc|[[_ Hn]|(-> & s & Es & _ & Hin)]]; [left; exact Hc|rewrite En in Hn; discriminate|]. right. split; [reflexivity|]. pose proof (same_some _ _ _ En Es) as <-. exact Hin.
Defined.
