(* ===== verification/Canonicalize.v ===== *)
(** * Canonicalization of a range (js/libunicode.c, [cr_regexp_canonicalize])

    A case insensitive regular expression replaces a character class by the
    range of the canonical forms of its members.  The C code only visits the
    characters that the case tables change, walks the table of runs along
    with them, and merges neighbouring results on the fly.  The theorem of
    this file is that the outcome is the image of the set under
    [lre_canonicalize]. *)
From S2P Require Import Prelude Alloc Cutils CharRange UnicodeTables TableSearch CaseConv RunTable UnicodeProps.

(** the case set that canonicalization uses, and its conversion *)
Definition canon_mask (is_unicode : bool) : Z := if is_unicode then CASE_F else CASE_U.

Lemma canon_mask_in u : canon_mask u ∈ case_masks.
Proof. unfold case_masks. rewrite !elem_of_cons. destruct u; cbn; tauto. Qed.

(** ** One character *)

(** a character of the mask is in a run of the table *)
Lemma mask_in_run u c :
  cr_mem (case_points (canon_mask u)) c = true → ∃ i v, run_at case_conv_table1 cc_code cc_len i v c.
Proof.
  intros Hm. destruct (case_search_spec c) as [(i & v & _ & Hr)|[_ Hno]]; [eauto|].
  exfalso. unfold case_points in Hm. rewrite (runs_points_outside cc_code cc_len) in Hm; [done| |].
  - pose proof case_points_ok as Hok. rewrite forallb_forall in Hok.
    apply Forall_forall. intros v Hv%list_elem_of_In. apply Hok in Hv.
    apply andb_true_iff in Hv as [[Hv _]%andb_true_iff _]. rewrite forallb_forall in Hv.
    apply pts_within_b_spec, Hv. apply list_elem_of_In, canon_mask_in.
  - intros v [j Hj]%list_elem_of_lookup_1 Hc. apply (Hno (Z.of_nat j) v). split; [by rewrite aget_nat|done].
Qed.

Lemma folding_ascii_ok :
  forall_runs cc_code cc_len (λ c i v, (128 <=? c) ||
    forallb (λ u, bool_decide (lre_case_folding_entry c i v u = lre_canonicalize c u)) [false; true])
    0 case_conv_table1 = true.
Proof. vm_compute. reflexivity. Qed.
(** the entry of a character gives its canonical form *)
Lemma folding_entry_canonicalize c i v u :
  run_at case_conv_table1 cc_code cc_len i v c →
  ∃ d, lre_case_folding_entry c i v u = Some d ∧ lre_canonicalize c u = Some d ∧ 0 <= d <= unicode_max.
Proof.
  intros Hr. pose proof (case_runs_spec _ c i v case_folding_entries_ok Hr) as Hok. cbv beta in Hok.
  rewrite forallb_forall in Hok.
  assert (List.In u [false; true]) as Hin by (destruct u; cbn; tauto).
  specialize (Hok u Hin). apply opt_test_Some in Hok as (d & Ed & Hd).
  apply andb_true_iff in Hd as [[[_ H0%Z.leb_le]%andb_true_iff H1%Z.leb_le]%andb_true_iff _].
  exists d. split; [done|]. split; [|done]. destruct (Z.ltb_spec c 128).
  - pose proof (case_runs_spec _ c i v folding_ascii_ok Hr) as Ha. cbv beta in Ha.
    destruct (Z.leb_spec 128 c); [lia|]. cbn [orb] in Ha. rewrite forallb_forall in Ha.
    specialize (Ha u Hin). apply bool_decide_eq_true in Ha. congruence.
  - unfold lre_canonicalize. destruct (Z.ltb_spec c 128); [lia|].
    unfold case_search. rewrite (table_search_found _ _ _ _ _ _ case_conv_table_sorted Hr). done.
Qed.
(** a character outside the mask is its own canonical form *)
Lemma canonicalize_outside_mask c u :
  0 <= c → cr_mem (case_points (canon_mask u)) c = false → lre_canonicalize c u = Some c.
Proof.
  intros Hc Hm. destruct (case_points_facts (canon_mask u) (canon_mask_in u)) as [_ Hmem].
  rewrite Hmem in Hm by done. rewrite lre_canonicalize_eq by done. unfold canonicalize_conv.
  assert (∀ t, conv_changes c t = false → lre_case_conv c t = Some [c]) as Hch.
  { intros t H. unfold conv_changes in H. destruct (lre_case_conv c t) as [[|d [|]]|]; try done.
    by apply negb_false_iff, Z.eqb_eq in H as ->. }
  destruct u; unfold any_change in Hm; cbn [canon_mask existsb] in Hm;
    [change (Z.testbit CASE_F 0) with false in Hm; change (Z.testbit CASE_F 1) with false in Hm;
     change (Z.testbit CASE_F 2) with true in Hm
    |change (Z.testbit CASE_U 0) with true in Hm; change (Z.testbit CASE_U 1) with false in Hm;
     change (Z.testbit CASE_U 2) with false in Hm];
    cbn [andb orb] in Hm; rewrite ?orb_false_r in Hm; rewrite (Hch _ Hm); cbn [mbind option_bind]; [done|].
  destruct ((128 <=? c) && (c <? 128)); done.
Qed.

(** The walk along the table finds the entry of the next character. *)
Lemma canon_find_spec fuel c idx v j w :
  case_conv_table1.[idx] = Some v → run_at case_conv_table1 cc_code cc_len j w c → idx <= j →
  j - idx < Z.of_nat fuel → canon_find fuel c idx v = Some (j, w).
Proof.
  intros Hv [Hj Hc]. revert idx v Hv. induction fuel as [|fuel IH]; intros idx v Hv Hle Hf; [lia|].
  cbn [canon_find]. destruct (decide (idx = j)) as [->|].
  - rewrite Hv in Hj. injection Hj as ->. rewrite Z.geb_leb.
    destruct (Z.leb_spec (cc_code w) c), (Z.ltb_spec c (cc_code w + cc_len w)); done || lia.
  - destruct (runs_sorted_lookup case_conv_table1 cc_code cc_len idx j v w) as (H1 & H2 & H3);
      [apply case_conv_table_sorted|done..|lia|].
    rewrite Z.geb_leb.
    destruct (Z.ltb_spec c (cc_code v + cc_len v)); [lia|]. rewrite andb_false_r.
    destruct (aget_is_Some case_conv_table1 (idx + 1)) as [x Hx].
    { apply aget_Some_range in Hv, Hj. lia. }
    rewrite Hx. cbn [mbind option_bind]. apply IH; [done|lia|lia].
Qed.

(** ** The characters of a range, in order *)
Fixpoint zrange (c : Z) (n : nat) : list Z :=
  match n with O => [] | S n => c :: zrange (c + 1) n end.
Definition range_chars (l : list Z) : list Z :=
  concat (map (λ p : Z * Z, zrange p.1 (Z.to_nat (p.2 - p.1))) (to_pairs l)).

Lemma zrange_in n c x : x ∈ zrange c n ↔ c <= x < c + Z.of_nat n.
Proof.
  revert c. induction n as [|n IH]; intros c; cbn [zrange].
  - rewrite elem_of_nil. lia.
  - rewrite elem_of_cons, IH. lia.
Qed.
Lemma zrange_length n c : length (zrange c n) = n.
Proof. revert c. induction n as [|n IH]; intros c; cbn; [done|]. by rewrite IH. Qed.
Lemma range_chars_in l x : x ∈ range_chars l ↔ cr_in l x.
Proof.
  unfold range_chars, cr_in. induction (to_pairs l) as [|p ps IH]; cbn [map concat].
  - by rewrite elem_of_nil, Exists_nil.
  - rewrite elem_of_app, Exists_cons, IH, zrange_in. intuition lia.
Qed.
(** the characters come in increasing order, and there are at most [hi - lo] *)
Lemma zrange_sorted_app c n k lo hi :
  lo <= c → c + Z.of_nat n <= hi → StronglySorted Z.lt k → Forall (λ x, hi <= x) k →
  StronglySorted Z.lt (zrange c n ++ k) ∧ (Forall (λ x, lo <= x) (zrange c n ++ k)).
Proof.
  intros Hlo Hhi Hk Hf. revert c lo Hlo Hhi. induction n as [|n IH]; intros c lo Hlo Hhi; cbn [zrange app].
  - split; [done|]. eapply Forall_impl; [exact Hf|]. cbn; intros; lia.
  - destruct (IH (c + 1) (c + 1)) as [I1 I2]; [lia..|]. split.
    + constructor; [done|]. eapply Forall_impl; [exact I2|]. cbn; intros; lia.
    + constructor; [done|]. eapply Forall_impl; [exact I2|]. cbn; intros; lia.
Qed.
Lemma range_chars_sorted l lo hi :
  pts_within lo hi l → lo <= hi →
  StronglySorted Z.lt (range_chars l) ∧ Forall (λ x, lo <= x) (range_chars l) ∧
  Z.of_nat (length (range_chars l)) <= hi - lo.
Proof.
  intros ([He _] & Hs & Hf). revert l He lo Hs Hf. refine (pairs_ind _ _ _).
  - intros lo _ _ Hle. split; [constructor|]. split; [constructor|]. cbn. lia.
  - intros x y l He IH lo Hs Hf Hle. apply StronglySorted_inv in Hs as [Hs [Hxy Hx]%Forall_cons].
    apply StronglySorted_inv in Hs as [Hs Hy].
    apply Forall_cons in Hf as [Hbx Hf]. apply Forall_cons in Hf as [Hby Hf].
    destruct (IH y) as (I1 & I2 & I3); [done| |lia|].
    { apply Forall_forall. intros z Hz. rewrite Forall_forall in Hy, Hf. specialize (Hy z Hz). specialize (Hf z Hz). lia. }
    change (range_chars (x :: y :: l)) with (zrange x (Z.to_nat (y - x)) ++ range_chars l).
    destruct (zrange_sorted_app x (Z.to_nat (y - x)) (range_chars l) lo y) as [Z1 Z2]; [lia..|done|done|].
    split; [done|]. split; [done|]. rewrite length_app, zrange_length. lia.
Qed.

Section Walk.
Context `{!Allocator}.
Notation alloc_failed := (∃ n sz, realloc_ok n sz = false).

Fixpoint canon_chars (st : canon_state) (cs : list Z) (u : bool) : M canon_state :=
  match cs with
  | [] => mret st
  | c :: cs => st ← canon_char st c u; canon_chars st cs u
  end.
Lemma canon_chars_app st cs ds u h :
  canon_chars st (cs ++ ds) u h = (st ← canon_chars st cs u; canon_chars st ds u) h.
Proof.
  revert st h. induction cs as [|c cs IH]; intros st h; [done|]. cbn [app canon_chars].
  unfold mbind, M_bind in *. destruct (canon_char st c u h) as [[st1 h1]|]; [|done]. cbn [option_bind]. apply IH.
Qed.
Lemma canon_interval_chars n st c u h : canon_interval n st c u h = canon_chars st (zrange c n) u h.
Proof.
  revert st c h. induction n as [|n IH]; intros st c h; [done|]. cbn [canon_interval zrange canon_chars].
  unfold mbind, M_bind. destruct (canon_char st c u h) as [[st1 h1]|]; [|done]. apply IH.
Qed.
Lemma canon_loop_chars st l u h : even_len l → canon_loop st l u h = canon_chars st (range_chars l) u h.
Proof.
  intros He. revert l He st h. refine (pairs_ind _ _ _); [done|]. intros x y l He IH st h.
  cbn [canon_loop]. change (range_chars (x :: y :: l)) with (zrange x (Z.to_nat (y - x)) ++ range_chars l).
  rewrite canon_chars_app. unfold mbind, M_bind. rewrite canon_interval_chars.
  destruct (canon_chars st _ u h) as [[st1 h1]|]; [|done]. apply IH.
Qed.

(** After [n] characters with canonical forms [D]. *)
Record canon_inv (st : canon_state) (n : Z) (D : Z → Prop) : Prop := {
  ci_fits : cr_fits (cs_result st);
  ci_even : even_len (cr_points (cs_result st));
  ci_nonempty : Forall (λ p : Z * Z, p.1 < p.2) (to_pairs (cr_points (cs_result st)));
  ci_len : cr_len (cs_result st) <= 2 * n;
  ci_cur : cs_start st = UINT32_MAX ∨ 0 <= cs_start st < cs_end st ∧ cs_end st <= unicode_max + 1;
  ci_mem : alloc_failed ∨ ∀ d, D d ↔
    cr_in (cr_points (cs_result st)) d ∨ (cs_start st ≠ UINT32_MAX ∧ cs_start st <= d < cs_end st)
}.

Lemma to_pairs_snoc l a b : even_len l → to_pairs (l ++ [a; b]) = to_pairs l ++ [(a, b)].
Proof. revert l. refine (pairs_ind _ _ _); [done|]. intros x y l _ IH. cbn [app to_pairs]. by rewrite IH. Qed.
(** closing the current interval *)
Lemma canon_flush st n D h :
  canon_inv st n D → 0 <= n → cs_start st ≠ UINT32_MAX →
  ∃ ret cr h', cr_add_interval (cs_result st) (cs_start st) (cs_end st) h = Some ((ret, cr), h') ∧
    cr_fits cr ∧ even_len (cr_points cr) ∧ Forall (λ p : Z * Z, p.1 < p.2) (to_pairs (cr_points cr)) ∧
    cr_len cr <= 2 * (n + 1) ∧
    ((ret = -1 ∧ alloc_failed) ∨ (ret = 0 ∧ (alloc_failed ∨ ∀ d, D d ↔ cr_in (cr_points cr) d))).
Proof.
  intros [Hf He Hne Hl Hcur Hmem] Hn Hst. destruct Hcur as [?|[Hse _]]; [done|].
  assert (∃ ret cr h', cr_add_interval (cs_result st) (cs_start st) (cs_end st) h = Some ((ret, cr), h') ∧
    cr_fits cr ∧ ((ret = 0 ∧ cr_points cr = cr_points (cs_result st) ++ [cs_start st; cs_end st]) ∨
      (ret = -1 ∧ alloc_failed ∧ cr_points cr = cr_points (cs_result st)))) as (ret & cr & h' & E & Hf' & Hc).
  { destruct (cr_add_interval_cases (cs_result st) (cs_start st) (cs_end st) h Hf)
      as (ret & cr & h' & E & Hf' & Hc). exists ret, cr, h'. split; [done|]. split; [done|].
    destruct Hc as [Hc|[-> Hx]]; [by left|right]. split; [done|]. split; [done|]. by eapply cr_add_interval_failed. }
  exists ret, cr, h'. split; [done|]. split; [done|].
  destruct Hc as [[-> Hp]|(-> & Hx & Hp)].
  - assert (even_len (cr_points cr)) by (rewrite Hp; by apply even_len_app).
    split; [done|]. rewrite Hp, to_pairs_snoc by done. split.
    { apply Forall_app. split; [done|]. constructor; [cbn; lia|constructor]. }
    split. { unfold cr_len in *. rewrite Hp. autorewrite with zlen. lia. }
    right. split; [done|]. destruct Hmem as [?|Hmem]; [by left|right]. intros d. rewrite Hmem.
    unfold cr_in. rewrite to_pairs_snoc, Exists_app, Exists_cons, Exists_nil by done. cbn. tauto.
  - rewrite Hp. split; [done|]. split; [done|]. split; [unfold cr_len in *; rewrite Hp; lia|]. by left.
Qed.

Lemma canon_char_spec st n D c i v d u h :
  canon_inv st n D → 0 <= n → canon_find (S (length case_conv_table1)) c (cs_idx st) (cs_v st) = Some (i, v) →
  lre_case_folding_entry c i v u = Some d → 0 <= d <= unicode_max →
  ∃ st' h', canon_char st c u h = Some (st', h') ∧ cs_idx st' = i ∧ cs_v st' = v ∧
    canon_inv st' (n + 1) (λ x, D x ∨ x = d).
Proof.
  intros Hinv Hn Hfind Hd Hrange. unfold canon_char. rewrite Hfind, bind_lift, Hd, bind_lift.
  pose proof Hinv as [Hf He Hne Hl Hcur Hmem].
  assert (u32 (d + 1) = d + 1) as Hd1 by (apply Z.mod_small; unfold unicode_max in *; lia).
  assert (d ≠ UINT32_MAX) as Hmax by (unfold unicode_max, UINT32_MAX in *; lia).
  destruct (Z.eqb_spec (cs_start st) UINT32_MAX) as [Hst|Hst].
  - eexists _, _. split; [reflexivity|]. split; [done|]. split; [done|]. rewrite Hd1.
    split; cbn [cs_result cs_start cs_end]; [done..|lia|right; lia|].
    destruct Hmem as [?|Hmem]; [by left|right]. intros x. rewrite Hmem. intuition lia.
  - destruct Hcur as [?|[Hse Hend]]; [done|]. destruct (Z.eqb_spec (cs_end st) d) as [Heq|Hne'].
    + eexists _, _. split; [reflexivity|]. split; [done|]. split; [done|]. rewrite Heq, Hd1.
      split; cbn [cs_result cs_start cs_end]; [done..|lia|right; lia|].
      destruct Hmem as [?|Hmem]; [by left|right]. intros x. rewrite Hmem. intuition lia.
    + destruct (canon_flush st n D h Hinv Hn Hst) as (ret & cr & h' & E & Hf' & He' & Hne2 & Hl' & Hc).
      rewrite (bind_M_eq _ _ _ _ _ E). eexists _, _. split; [reflexivity|]. split; [done|]. split; [done|]. rewrite Hd1.
      split; cbn [cs_result cs_start cs_end]; [done..|right; lia|].
      destruct Hc as [[_ ?]|[_ [?|Hc]]]; [by left..|right]. intros x. rewrite Hc. intuition lia.
Qed.

(** The walk over increasing characters that are all in runs. *)
Lemma canon_chars_spec cs u st n D h :
  canon_inv st n D → 0 <= n → StronglySorted Z.lt cs →
  case_conv_table1.[cs_idx st] = Some (cs_v st) →
  Forall (λ c, ∃ j w, cs_idx st <= j ∧ run_at case_conv_table1 cc_code cc_len j w c) cs →
  ∃ st' h', canon_chars st cs u h = Some (st', h') ∧
    canon_inv st' (n + Z.of_nat (length cs)) (λ x, D x ∨ ∃ c, c ∈ cs ∧ lre_canonicalize c u = Some x).
Proof.
  revert st n D h. induction cs as [|c cs IH]; intros st n D h Hinv Hn Hs Hv Hf.
  - exists st, h. split; [done|]. destruct Hinv as [F1 F2 F3 F4 F5 F6]. split; [done..|cbn; lia|done|].
    destruct F6 as [?|F6]; [by left|right]. intros x. rewrite <- F6.
    assert (¬ ∃ c, c ∈ [] ∧ lre_canonicalize c u = Some x); [|tauto].
    intros (c & Hc & _). by apply elem_of_nil in Hc.
  - apply StronglySorted_inv in Hs as [Hs Hlt]. apply Forall_cons in Hf as [(j & w & Hj & Hr) Hf].
    destruct (folding_entry_canonicalize c j w u Hr) as (d & Hd & Hcan & Hrange).
    pose proof (aget_Some_range _ _ _ (proj1 Hr)) as Hjr. pose proof (aget_Some_range _ _ _ Hv) as Hir.
    destruct (canon_char_spec st n D c j w d u h Hinv Hn) as (st1 & h1 & E & Hi1 & Hv1 & Hinv1); [|done|done|].
    { apply canon_find_spec; [done..|unfold zlen in *; lia]. }
    cbn [canon_chars]. rewrite (bind_M_eq _ _ _ _ _ E).
    destruct (IH st1 (n + 1) _ h1 Hinv1) as (st2 & h2 & E2 & Hinv2); [lia|done|..].
    + rewrite Hi1, Hv1. apply Hr.
    + rewrite Hi1. apply Forall_forall. intros x Hx. rewrite Forall_forall in Hf, Hlt.
      destruct (Hf x Hx) as (k & y & Hk & Hry). exists k, y. split; [|done].
      specialize (Hlt x Hx). destruct (decide (j <= k)); [done|]. exfalso.
      destruct Hr as [Hr1 Hr2], Hry as [Hy1 Hy2].
      destruct (runs_sorted_lookup case_conv_table1 cc_code cc_len k j y w) as (? & ? & ?);
        [apply case_conv_table_sorted|done..|lia|lia].
    + exists st2, h2. split; [done|]. destruct Hinv2 as [F1 F2 F3 F4 F5 F6].
      split; [done..|cbn [length] in *; lia|done|].
      destruct F6 as [?|F6]; [by left|right]. intros x. rewrite <- F6. setoid_rewrite elem_of_cons. split.
      * intros [Hx|(c' & [->|Hc'] & Hx)]; [by left; left| |by right; eauto]. left. right. congruence.
      * intros [[Hx| ->]|(c' & Hc' & Hx)]; [by left|right..]; eauto.
Qed.

(** ** The whole function *)

(** an allocating step that fails only when the allocator does *)
Lemma or_fail_bind (m : M (Z * CharRange)) k (P : CharRange → Prop) (Q : option ((Z * CharRange) * heap) → Prop) h :
  (∃ ret cr h', m h = Some ((ret, cr), h') ∧ ((ret = -1 ∧ alloc_failed) ∨ (ret = 0 ∧ P cr))) →
  (alloc_failed → ∀ cr h', Q (Some ((-1, cr), h'))) →
  (∀ cr h', P cr → Q (k cr h')) → Q (or_fail m k h).
Proof.
  intros (ret & cr & h' & E & Hc) Hfail Hk. unfold or_fail. rewrite (bind_M_eq _ _ _ _ _ E).
  destruct Hc as [[-> Hf]|[-> HP]]; cbn [Z.eqb negb]; [by apply Hfail|by apply Hk].
Qed.

(** the image of a range *)
Definition canonical_image (l : list Z) (u : bool) (d : Z) : Prop :=
  ∃ c, cr_in l c ∧ lre_canonicalize c u = Some d.

(** the walk over the intersection, with the last interval closed *)
Definition canon_walk (l : list Z) (u : bool) : M (Z * CharRange) :=
  st ← canon_loop (mkCanon cr_init 0 2136624 UINT32_MAX UINT32_MAX) l u;
  if negb (cs_start st =? UINT32_MAX) then cr_add_interval (cs_result st) (cs_start st) (cs_end st)
  else mret (0, cs_result st).
Lemma canon_walk_spec l u h :
  cr_canonical l → (∀ x, cr_in l x → 0 <= x < unicode_max + 1 ∧ cr_mem (case_points (canon_mask u)) x = true) →
  ∃ ret cr h', canon_walk l u h = Some ((ret, cr), h') ∧
    ((ret = -1 ∧ alloc_failed) ∨
     (ret = 0 ∧ even_len (cr_points cr) ∧ Forall (λ p : Z * Z, p.1 < p.2) (to_pairs (cr_points cr)) ∧
      cr_len cr < 2 ^ 32 ∧ (alloc_failed ∨ ∀ d, canonical_image l u d ↔ cr_in (cr_points cr) d))).
Proof.
  intros Hcan Hmem.
  assert (pts_within 0 (unicode_max + 1) l) as Hciw.
  { split; [by apply canonical_proper|]. split; [apply StronglySorted_lt_le, Hcan|].
    apply cr_canonical_within; [done|]. intros x Hx. by apply Hmem. }
  destruct (range_chars_sorted _ 0 _ Hciw) as (Hrs & _ & Hrl); [unfold unicode_max; lia|].
  destruct (canon_chars_spec (range_chars l) u
    (mkCanon cr_init 0 2136624 UINT32_MAX UINT32_MAX) 0 (λ _, False) h) as (st & h5 & E5 & Hinv);
    [|lia|done|done|..].
  { split; cbn; [done|done|constructor|done|by left|]. right. intros d. unfold cr_in. cbn.
    rewrite Exists_nil. tauto. }
  { apply Forall_forall. intros x Hx%range_chars_in%Hmem. destruct (mask_in_run u x) as (j & w & Hr); [apply Hx|].
    exists j, w. split; [|done]. cbn. by apply (aget_Some_range _ _ _ (proj1 Hr)). }
  unfold canon_walk. erewrite bind_M_eq by (rewrite canon_loop_chars by apply Hcan; exact E5).
  set (n := 0 + Z.of_nat (length (range_chars l))) in *.
  set (D := λ x, False ∨ ∃ c, c ∈ range_chars l ∧ lre_canonicalize c u = Some x) in *.
  assert (∀ d, canonical_image l u d ↔ D d) as HD.
  { intros d. subst D. cbn beta. unfold canonical_image. setoid_rewrite range_chars_in. tauto. }
  setoid_rewrite HD. destruct (Z.eqb_spec (cs_start st) UINT32_MAX) as [Hst|Hst]; cbn [negb].
  - exists 0, (cs_result st), h5. split; [done|]. right. split; [done|].
    destruct Hinv as [F1 F2 F3 F4 F5 F6]. split; [done|]. split; [done|].
    split; [unfold unicode_max in *; lia|]. destruct F6 as [?|F6]; [by left|right]. intros d. rewrite F6. tauto.
  - destruct (canon_flush st n D h5 Hinv) as (ret & c & h' & E & _ & F2 & F3 & F4 & F5); [lia|done|].
    exists ret, c, h'. split; [done|]. destruct F5 as [F5|[-> F5]]; [by left|right].
    split; [done|]. split; [done|]. split; [done|]. split; [unfold unicode_max in *; lia|done].
Qed.

(** the image splits along the mask *)
Lemma canonical_image_split l li ls u d :
  Forall (λ p, 0 <= p <= UINT32_MAX) l →
  (∀ x, cr_in li x ↔ cr_mem (case_points (canon_mask u)) x = true ∧ cr_in l x) →
  (∀ x, cr_in ls x ↔ cr_mem (case_points (canon_mask u)) x = false ∧ cr_in l x) →
  canonical_image l u d ↔ canonical_image li u d ∨ cr_in ls d.
Proof.
  intros Hb Hli Hls. unfold canonical_image. setoid_rewrite Hli. rewrite Hls. split.
  - intros (c & Hc & Hd). pose proof (cr_in_bounds _ _ _ _ Hb Hc) as Hr.
    destruct (cr_mem (case_points (canon_mask u)) c) eqn:Ec; [left; by exists c|right].
    rewrite (canonicalize_outside_mask c u) in Hd; [|lia|done]. by injection Hd as <-.
  - intros [(c & [_ Hc] & Hd)|[Hno Hd]]; [by exists c|]. exists d. split; [done|].
    apply canonicalize_outside_mask; [|done]. pose proof (cr_in_bounds _ _ _ _ Hb Hd). lia.
Qed.

Lemma mask_bounds u x : cr_mem (case_points (canon_mask u)) x = true → 0 <= x < unicode_max + 1.
Proof.
  intros Hx. destruct (case_points_facts (canon_mask u) (canon_mask_in u)) as [Hmw _].
  destruct (decide (0 <= x < unicode_max + 1)); [done|]. by rewrite (pts_within_mem _ _ _ _ Hmw) in Hx.
Qed.
(** the mask, its intersection with the range, and what the mask leaves *)
Lemma case_mask_yields u h :
  yields (cr_mem (case_points (canon_mask u))) (unicode_case1 cr_init (if u then CASE_F else CASE_U) h).
Proof.
  destruct (case_points_facts (canon_mask u) (canon_mask_in u)) as [Hmw _].
  eapply appended_yields; [apply unicode_case1_points; [apply (canon_mask_in u)|done]| |apply Hmw].
  eapply pts_within_denotes; [exact Hmw|unfold unicode_max, UINT32_MAX; lia|done].
Qed.
Lemma inter_yields a b sa sb h :
  denotes a sa → denotes b sb →
  ∃ ret cr h', cr_op cr_init a b CR_OP_INTER h = Some ((ret, cr), h') ∧
    ((ret = -1 ∧ alloc_failed) ∨
     (ret = 0 ∧ cr_canonical (cr_points cr) ∧ ∀ x, cr_in (cr_points cr) x ↔ cr_in a x ∧ cr_in b x)).
Proof.
  intros [Ha _] [Hb _]. destruct (cr_op_cases CR_OP_INTER a b h Ha Hb) as (ret & c & h' & E & Hc).
  exists ret, c, h'. split; [done|]. destruct Hc as [Hc|(-> & Hc)]; [by left|by right].
Qed.
Lemma or_fail_assoc {A} (m : M A) (f : A → M (Z * CharRange)) k h :
  (x ← m; or_fail (f x) k) h = or_fail (x ← m; f x) k h.
Proof. unfold or_fail, mbind, M_bind. by destruct (m h) as [[x h']|]. Qed.

Lemma cr_regexp_canonicalize_cases cr u h :
  cr_fits cr → cr_wf (cr_points cr) → Forall (λ p, 0 <= p <= UINT32_MAX) (cr_points cr) →
  ∃ ret cr' h', cr_regexp_canonicalize cr u h = Some ((ret, cr'), h') ∧
    (alloc_failed ∨
     (ret = 0 ∧ cr_canonical (cr_points cr') ∧
      ∀ d, cr_in (cr_points cr') d ↔ canonical_image (cr_points cr) u d)).
Proof.
  intros Hfits Hwf Hb. unfold cr_regexp_canonicalize. set (pm := case_points (canon_mask u)).
  set (Q := λ r : option ((Z * CharRange) * heap), ∃ ret cr' h', r = Some ((ret, cr'), h') ∧
    (alloc_failed ∨ (ret = 0 ∧ cr_canonical (cr_points cr') ∧
      ∀ d, cr_in (cr_points cr') d ↔ canonical_image (cr_points cr) u d))).
  assert (alloc_failed → ∀ c h', Q (Some ((-1, c), h'))) as Hfail
    by (intros Hf c h'; eexists _, _, _; split; [reflexivity|by left]).
  assert (denotes (cr_points cr) (cr_mem (cr_points cr))) as Hcr by done.
  match goal with |- ∃ ret cr' h', ?r = _ ∧ _ => change (Q r) end.
  apply (or_fail_bind _ _ (λ c, denotes (cr_points c) (cr_mem pm) ∧ proper (cr_points c))); [apply case_mask_yields|done|].
  intros cm h1 [Hcm _].
  apply (or_fail_bind _ _ (λ c, cr_canonical (cr_points c) ∧
    ∀ x, cr_in (cr_points c) x ↔ cr_in (cr_points cm) x ∧ cr_in (cr_points cr) x));
    [by eapply inter_yields|done|]. intros ci h2 [Hcan Hci].
  apply (or_fail_bind _ _ (λ c, denotes (cr_points c) (λ x, negb (cr_mem pm x)) ∧ proper (cr_points c))); [by apply cr_invert_yields|done|].
  intros cn h3 [Hcn _].
  apply (or_fail_bind _ _ (λ c, cr_canonical (cr_points c) ∧
    ∀ x, cr_in (cr_points c) x ↔ cr_in (cr_points cn) x ∧ cr_in (cr_points cr) x));
    [by eapply inter_yields|done|]. intros cs h4 [Hscan Hcs].
  assert (∀ x, cr_in (cr_points ci) x ↔ cr_mem pm x = true ∧ cr_in (cr_points cr) x) as Hci'.
  { intros x. rewrite Hci. split; intros [Hx1 Hx2]; (split; [|done]);
      apply (denotes_in _ _ _ Hcm (denotes_range _ _ _ Hcr Hx2)); done. }
  assert (∀ x, cr_in (cr_points cs) x ↔ cr_mem pm x = false ∧ cr_in (cr_points cr) x) as Hcs'.
  { intros x. rewrite Hcs, <- negb_true_iff. split; intros [Hx1 Hx2]; (split; [|done]);
      apply (denotes_in _ _ _ Hcn (denotes_range _ _ _ Hcr Hx2)); done. }
  change (case_conv_table1.[0]) with (Some 2136624). rewrite bind_lift, or_fail_assoc.
  eapply or_fail_bind; [apply (canon_walk_spec (cr_points ci) u h4 Hcan)|done|].
  { intros x [Hx1 _]%Hci'. split; [|done]. by apply (mask_bounds u). }
  intros cres h6 (Hre & Hrne & Hrlen & Hrmem).
  destruct (cr_sort_and_remove_overlap_eq cres Hre Hrne Hrlen) as (cres' & -> & Hrcan & Hrin).
  rewrite bind_lift.
  destruct (cr_op_from (mkCR [] (cr_size cr)) CR_OP_UNION (cr_points cres') (cr_points cs) h6)
    as (ret & cf & h7 & E & Hc); [done| |by apply cr_canonical_wf..|].
  { unfold cr_fits, cr_len in *. pose proof (zlen_nonneg (cr_points cr)). cbn [cr_points cr_size].
    change (zlen (@nil Z)) with 0. lia. }
  unfold or_fail. rewrite (bind_M_eq _ _ _ _ _ E).
  destruct Hc as [[-> Hf]|(-> & Hfcan & Hfin)]; [by apply Hfail|].
  eexists 0, cf, h7. split; [reflexivity|]. destruct Hrmem as [?|Hrmem]; [by left|right].
  split; [done|]. split; [done|]. intros d. rewrite Hfin, Hrin, <- Hrmem. symmetry.
  by apply canonical_image_split.
Qed.

(** C33: [cr_regexp_canonicalize] computes the image of a range of code points
    under [lre_canonicalize]: it always returns and stays in bounds, and when
    no allocation fails the result is 0 and the range is canonical and holds
    exactly the canonical forms of the members. *)
Theorem cr_regexp_canonicalize_spec cr is_unicode h :
  cr_fits cr → cr_wf (cr_points cr) → Forall (λ p, 0 <= p <= UINT32_MAX) (cr_points cr) →
  ∃ ret cr' h', cr_regexp_canonicalize cr is_unicode h = Some ((ret, cr'), h') ∧
    (alloc_failed ∨
     (ret = 0 ∧ cr_canonical (cr_points cr') ∧
      ∀ d, cr_in (cr_points cr') d ↔ canonical_image (cr_points cr) is_unicode d)).
Proof. apply cr_regexp_canonicalize_cases. Qed.
End Walk.

Lemma cr_regexp_canonicalize_spec_witness :
  ∃ ret cr' h', cr_regexp_canonicalize (mkCR [0x41; 0x5b; 0x2126; 0x2127] 4) true O = Some ((ret, cr'), h') ∧
    ((∃ n sz, realloc_ok n sz = false) ∨
     (ret = 0 ∧ cr_canonical (cr_points cr') ∧
      ∀ d, cr_in (cr_points cr') d ↔ canonical_image [0x41; 0x5b; 0x2126; 0x2127] true d)).
Proof.
  apply (cr_regexp_canonicalize_spec (mkCR [0x41; 0x5b; 0x2126; 0x2127] 4) true O).
  - done.
  - split; [done|]. repeat constructor; done.
  - unfold UINT32_MAX. repeat constructor; cbn; lia.
Defined.

(** ** Unreported allocation failures *)

(** an allocator whose call number [k] fails *)
Definition fail_at (k : nat) : Allocator := {| realloc_ok n _ := negb (Nat.eqb n k); junk _ _ := 0 |}.
(** When the allocation of the first result interval of [[ace]] fails, the
    result is still 0, and the canonical form of [a] is missing. *)
Lemma cr_regexp_canonicalize_loses_interval :
  ∃ cr h, cr_regexp_canonicalize (H := fail_at 22) (mkCR [0x61; 0x62; 0x63; 0x64; 0x65; 0x66] 6) false O
    = Some ((0, cr), h) ∧ cr_points cr = [0x43; 0x44; 0x45; 0x46].
Proof. eexists _, _. split; [vm_compute; reflexivity|reflexivity]. Qed.
(** A failed allocation in [unicode_script] never returns. *)
Lemma unicode_script_no_memory :
  unicode_script (H := no_memory) cr_init (c_bytes "Latin" ++ [0]) false O = None.
Proof. vm_compute. reflexivity. Qed.
