(* ===== verification/Reliable.v ===== *)
(** * Total correctness when memory does not run out

    A small logic for the allocating computations: [wp m Q] says that [m]
    returns from every state of the allocator - no undefined behaviour, no
    failed assertion, enough fuel - with a result that satisfies [Q].  With an
    allocator that never refuses, every operation of the buffers and of the
    ranges has such a rule, without its error branch; the compiler of regular
    expressions is verified with them. *)
From S2P Require Import Prelude Alloc Cutils DynBuf CharRange UnicodeTables CaseConv RunTable UnicodeProps Canonicalize.

Definition wp {A} (m : M A) (Q : A → Prop) : Prop := ∀ h, ∃ x h', m h = Some (x, h') ∧ Q x.

Lemma wp_ret {A} (x : A) (Q : A → Prop) : Q x → wp (mret x) Q.
Proof. intros Hx h. by exists x, h. Qed.
Lemma wp_bind {A B} (m : M A) (f : A → M B) (P : A → Prop) (Q : B → Prop) :
  wp m P → (∀ x, P x → wp (f x) Q) → wp (m ≫= f) Q.
Proof.
  intros Hm Hf h. destruct (Hm h) as (x & h1 & E & Hx). destruct (Hf x Hx h1) as (y & h2 & E2 & Hy).
  exists y, h2. split; [|done]. by rewrite (bind_M_eq _ _ _ _ _ E).
Qed.
Lemma wp_mono {A} (m : M A) (P Q : A → Prop) : wp m P → (∀ x, P x → Q x) → wp m Q.
Proof. intros Hm H h. destruct (Hm h) as (x & h' & E & Hx). eauto. Qed.
Lemma wp_lift {A} (o : option A) (x : A) (Q : A → Prop) : o = Some x → Q x → wp (lift o) Q.
Proof. intros -> Hx h. by exists x, h. Qed.
Lemma wp_bind_lift {A B} (o : option A) (x : A) (f : A → M B) (Q : B → Prop) :
  o = Some x → wp (f x) Q → wp (lift o ≫= f) Q.
Proof. intros -> Hf h. apply Hf. Qed.
Lemma wp_bind_ret {A B} (x : A) (f : A → M B) (Q : B → Prop) : wp (f x) Q → wp (mret x ≫= f) Q.
Proof. intros Hf h. apply Hf. Qed.
Lemma wp_bind_massert {B} (b : bool) (f : unit → M B) (Q : B → Prop) :
  b = true → wp (f tt) Q → wp (massert b ≫= f) Q.
Proof. intros -> Hf h. apply Hf. Qed.
Lemma wp_returns {A} (m : M A) h (Q : A → Prop) : wp m Q → ∃ x h', m h = Some (x, h') ∧ Q x.
Proof. intros Hm. apply Hm. Qed.

(** a conjunction of tests *)
Ltac bool_lia :=
  rewrite ?andb_true_iff, ?orb_true_iff, ?negb_true_iff, ?Z.leb_le, ?Z.ltb_lt, ?Z.eqb_eq, ?Z.eqb_neq,
    ?Z.leb_gt, ?Z.ltb_ge; lia.

(** the allocator never refuses *)
Class Reliable `{!Allocator} : Prop := reliable n sz : realloc_ok n sz = true.
#[export] Instance total_allocator_reliable : Reliable (H := total_allocator).
Proof. done. Qed.
Lemma reliable_not_failed `{!Allocator, !Reliable} (P : Prop) : (∃ n sz, realloc_ok n sz = false) → P.
Proof. intros (n & sz & Hf). by rewrite reliable in Hf. Qed.

Section Rules.
Context `{!Allocator, !Reliable}.

(** ** Dynamic buffers *)

(** a buffer in order, without an error, that holds [l] *)
Definition holds (b : DynBuf) (l : list Z) : Prop := d_buf b = l ∧ dbuf_wf b ∧ d_error b = false.
Definition buf_max : Z := 2 ^ 62.

Lemma holds_size b l : holds b l → d_size b = zlen l.
Proof. intros (<- & _). done. Qed.
Lemma wp_dbuf_realloc b l size :
  holds b l → size < 2 ^ 64 →
  wp (dbuf_realloc b size) (λ r, ∃ b', r = (0, b') ∧ holds b' l ∧ size <= allocated_size b').
Proof.
  intros (Hl & Hwf & He) Hs h. destruct (dbuf_realloc_spec b size h Hwf Hs) as (ret & b' & h' & E & Hb & Hw & Hc).
  exists (ret, b'), h'. split; [done|]. destruct Hc as [(-> & Ha & He' & _)|(-> & He' & Ha)].
  - exists b'. split; [done|]. split; [|done]. split; [congruence|]. split; [done|congruence].
  - exfalso. revert E. unfold dbuf_realloc. rewrite He. destruct (_ >? _); [|by intros [= <- <-]].
    rewrite bind_realloc, reliable. intros [= <- <-].
Qed.
Lemma wp_dbuf_put b l data :
  holds b l → bytes data → zlen l + zlen data < buf_max →
  wp (dbuf_put b data) (λ r, ∃ b', r = (0, b') ∧ holds b' (l ++ data)).
Proof.
  intros Hb Hd Hs. pose proof (holds_size _ _ Hb) as Hsz. pose proof (zlen_nonneg l). pose proof (zlen_nonneg data).
  assert (u64 (d_size b + zlen data) = zlen l + zlen data) as Hu
    by (rewrite Hsz; apply Z.mod_small; unfold buf_max in *; lia).
  assert (wp (dbuf_claim b (zlen data)) (λ r, ∃ b', r = (0, b') ∧ holds b' l ∧ zlen l + zlen data <= allocated_size b')) as Hc.
  { unfold dbuf_claim. rewrite Hu. rewrite Z.gtb_ltb. zcase.
    - apply wp_dbuf_realloc; [done|unfold buf_max in *; lia].
    - apply wp_ret. eauto. }
  unfold dbuf_put. apply (wp_bind _ _ _ _ Hc). intros ? (b' & -> & Hb' & Ha). cbn [Z.eqb negb].
  pose proof (holds_size _ _ Hb') as Hsz'. intros h.
  erewrite bind_M_eq by (apply dbuf_store_end; lia).
  eexists _, _. split; [reflexivity|]. eexists. split; [reflexivity|].
  destruct Hb' as (Hl' & [Hw1 Hw2] & He'). split; [cbn; by rewrite Hl'|]. split; [|done]. split; cbn.
  - unfold d_size. cbn. rewrite Hl', zlen_app. lia.
  - rewrite Hl'. apply Forall_app. split; [by rewrite <- Hl'|done].
Qed.
Lemma wp_dbuf_putc b l c :
  holds b l → zlen l + 1 < buf_max → wp (dbuf_putc b c) (λ r, ∃ b', r = (0, b') ∧ holds b' (l ++ [u8 c])).
Proof. intros Hb Hs. apply wp_dbuf_put; [done|repeat constructor; apply u8_byte|done]. Qed.
Lemma wp_dbuf_put_u16 b l v :
  holds b l → zlen l + 2 < buf_max → wp (dbuf_put_u16 b v) (λ r, ∃ b', r = (0, b') ∧ holds b' (l ++ le16 v)).
Proof. intros Hb Hs. apply wp_dbuf_put; [done|apply bytes_le16|done]. Qed.
Lemma wp_dbuf_put_u32 b l v :
  holds b l → zlen l + 4 < buf_max → wp (dbuf_put_u32 b v) (λ r, ∃ b', r = (0, b') ∧ holds b' (l ++ le32 v)).
Proof. intros Hb Hs. apply wp_dbuf_put; [done|apply bytes_le32|done]. Qed.
Lemma wp_dbuf_put_self b l offset len :
  holds b l → 0 <= offset → 0 <= len → offset + len <= zlen l → zlen l + len < buf_max →
  wp (dbuf_put_self b offset len) (λ r, ∃ b', r = (0, b') ∧ holds b' (l ++ ztake len (zdrop offset l))).
Proof.
  intros Hb Ho Hlen Hol Hs. pose proof (holds_size _ _ Hb) as Hsz. pose proof (zlen_nonneg l).
  assert (zlen (ztake len (zdrop offset l)) = len) as Hd.
  { rewrite zlen_ztake; [done|]. rewrite zlen_zdrop by lia. lia. }
  assert (u64 (d_size b + len) = zlen l + len) as Hu
    by (rewrite Hsz; apply Z.mod_small; unfold buf_max in *; lia).
  assert (wp (dbuf_claim b len) (λ r, ∃ b', r = (0, b') ∧ holds b' l ∧ zlen l + len <= allocated_size b')) as Hc.
  { unfold dbuf_claim. rewrite Hu. rewrite Z.gtb_ltb. zcase.
    - apply wp_dbuf_realloc; [done|unfold buf_max in *; lia].
    - apply wp_ret. eauto. }
  unfold dbuf_put_self. apply (wp_bind _ _ _ _ Hc). intros ? (b' & -> & Hb' & Ha). cbn [Z.eqb negb].
  pose proof (holds_size _ _ Hb') as Hsz'. pose proof Hb' as (Hl' & [Hw1 Hw2] & He').
  apply wp_bind_massert; [rewrite Hsz'; bool_lia|]. intros h. rewrite Hl'.
  erewrite bind_M_eq by (apply dbuf_store_end; lia).
  eexists _, _. split; [reflexivity|]. eexists. split; [reflexivity|].
  split; [cbn; by rewrite Hl'|]. split; [|done]. split; cbn.
  - unfold d_size. cbn. rewrite Hl', zlen_app. lia.
  - rewrite Hl' in *. apply Forall_app. split; [done|]. by apply Forall_take, Forall_drop.
Qed.
Lemma wp_dbuf_insert b l pos len :
  holds b l → 0 <= pos <= zlen l → 0 <= len → zlen l + len < buf_max →
  wp (dbuf_insert b pos len) (λ r, ∃ b' hole, r = (0, b') ∧ zlen hole = len ∧ bytes hole ∧
    holds b' (ztake pos l ++ hole ++ zdrop pos l)).
Proof.
  intros Hb Hp Hlen Hs. pose proof (holds_size _ _ Hb) as Hsz.
  unfold dbuf_insert. assert (u64 (d_size b + len) = zlen l + len) as ->
    by (rewrite Hsz; apply Z.mod_small; unfold buf_max in *; lia).
  apply (wp_bind _ _ _ _ (wp_dbuf_realloc b l (zlen l + len) Hb ltac:(unfold buf_max in *; lia))).
  intros ? (b' & -> & Hb' & Ha). cbn [Z.eqb negb].
  pose proof (holds_size _ _ Hb') as Hsz'. pose proof Hb' as (Hl' & [Hw1 Hw2] & He').
  apply wp_bind_massert; [rewrite Hsz'; bool_lia|]. intros h. erewrite bind_M_eq by reflexivity.
  set (tl := fmap _ (seq 0 (Z.to_nat len))).
  assert (bytes tl ∧ zlen tl = len) as [Htb Htl].
  { subst tl. split; [apply Forall_fmap, Forall_true; intros; apply u8_byte|].
    unfold zlen. rewrite length_fmap, length_seq. lia. }
  eexists _, _. split; [reflexivity|]. eexists _, (ztake len (zdrop pos (l ++ tl))). split; [reflexivity|].
  assert (zlen (ztake len (zdrop pos (l ++ tl))) = len) as Hhl.
  { rewrite zlen_ztake; [done|]. rewrite zlen_zdrop; rewrite zlen_app; lia. }
  assert (ztake (pos + len) (l ++ tl) = ztake pos l ++ ztake len (zdrop pos (l ++ tl))) as Hsplit.
  { unfold ztake, zdrop, zlen in *. rewrite Z2Nat.inj_add, <- take_take_drop, take_app_le by lia. done. }
  assert (bytes (ztake len (zdrop pos (l ++ tl)))) as Hbh.
  { apply Forall_take, Forall_drop, Forall_app. split; [by rewrite <- Hl'|done]. }
  split; [done|]. split; [done|]. rewrite Hl', Hsplit, <- app_assoc in *.
  split; [done|]. split; [|done]. split; cbn.
  - unfold d_size. cbn. autorewrite with zlen. rewrite Hhl, zlen_ztake, zlen_zdrop by lia. lia.
  - apply Forall_app; split; [by apply Forall_take|]. apply Forall_app; split; [done|by apply Forall_drop].
Qed.

(** ** Ranges *)
Lemma wp_cases {A} (m : M (Z * A)) (P : A → Prop) :
  (∀ h, ∃ ret cr h', m h = Some ((ret, cr), h') ∧ ((ret = -1 ∧ ∃ n sz, realloc_ok n sz = false) ∨ (ret = 0 ∧ P cr))) →
  wp m (λ r, ∃ cr, r = (0, cr) ∧ P cr).
Proof.
  intros Hm h. destruct (Hm h) as (ret & cr & h' & E & Hc). exists (ret, cr), h'. split; [done|].
  destruct Hc as [[_ Hf]|[-> HP]]; [by apply reliable_not_failed|eauto].
Qed.
(** a canonical range of code points, whose capacity is in order *)
Definition range_ok (cr : CharRange) : Prop :=
  cr_canonical (cr_points cr) ∧ Forall (λ p, 0 <= p <= UINT32_MAX) (cr_points cr) ∧ cr_fits cr.
Lemma range_ok_init : range_ok cr_init.
Proof. split; [split; [done|constructor]|]. split; [constructor|done]. Qed.
End Rules.
