(* ===== verification/Normalize.v ===== *)
(** * Unicode normalization (js/libunicode.c)

    Canonical and compatibility decomposition, the combining classes, the
    canonical ordering and the composition, as [unicode_normalize] puts them
    together.  [res] and [pair] are the arrays of the C stack that
    [unicode_decomp_entry] fills; an element is [None] until it is written.
    [buf] is the dynamic buffer read as an array of [int]. *)
From S2P Require Import Prelude Alloc Cutils DynBuf UnicodeTables TableSearch CaseConv RunTable NormTables.

Definition UNICODE_DECOMP_LEN_MAX : Z := 18.
(** [DecompTypeEnum] *)
Definition DECOMP_TYPE_C1 : Z := 0.
Definition DECOMP_TYPE_L1 : Z := 1.
Definition DECOMP_TYPE_L7 : Z := 7.
Definition DECOMP_TYPE_LL1 : Z := 8.
Definition DECOMP_TYPE_LL2 : Z := 9.
Definition DECOMP_TYPE_S1 : Z := 10.
Definition DECOMP_TYPE_S5 : Z := 14.
Definition DECOMP_TYPE_I1 : Z := 15.
Definition DECOMP_TYPE_I2_0 : Z := 16.
Definition DECOMP_TYPE_I4_2 : Z := 21.
Definition DECOMP_TYPE_B1 : Z := 22.
Definition DECOMP_TYPE_B8 : Z := 29.
Definition DECOMP_TYPE_B18 : Z := 30.
Definition DECOMP_TYPE_LS2 : Z := 31.
Definition DECOMP_TYPE_PAT3 : Z := 32.
Definition DECOMP_TYPE_S2_UL : Z := 33.
Definition DECOMP_TYPE_LS2_UL : Z := 34.
(** [UnicodeNormalizationEnum] *)
Definition UNICODE_NFC : Z := 0.
Definition UNICODE_NFD : Z := 1.
Definition UNICODE_NFKC : Z := 2.
Definition UNICODE_NFKD : Z := 3.

(** ** Decomposition of a character *)
Definition unicode_short_table : list Z := [0x2044; 0x2215].
Definition unicode_get_short_code (c : Z) : option Z :=
  if c <? 0x80 then Some c
  else if c <? 0x80 + 0x50 then Some (c - 0x80 + 0x300)
  else unicode_short_table.[c - 0x80 - 0x50].
Definition unicode_get_lower_simple (c : Z) : Z :=
  if (c <? 0x100) || ((c >=? 0x410) && (c <=? 0x42f)) then u32 (c + 0x20) else u32 (c + 1).
(** [unicode_get16(d + i)]; a pointer into [unicode_decomp_data] is the part of
    the array from there on, with the offset that was added to it *)
Definition unicode_get16 (d : list Z) (i : Z) : option Z := b0 ← d.[i]; b1 ← d.[i + 1]; Some (b0 .| (b1 << 8)).

(** [for(i = 0; i < l; i++) res[i] = f(i);] and whether it ran to its end; with
    [stop] the loop returns at a zero, after it is written *)
Fixpoint fill (n : nat) (stop : bool) (f : Z → option Z) (i : Z) (res : list (option Z)) :
    option (bool * list (option Z)) :=
  match n with
  | O => Some (true, res)
  | S n =>
    v ← f i; res ← aset res i (Some v);
    if stop && (v =? 0) then Some (false, res) else fill n stop f (i + 1) res
  end.
(** the same, with the zero not written *)
Fixpoint fill_nonzero (n : nat) (f : Z → option Z) (i : Z) (res : list (option Z)) : option (bool * list (option Z)) :=
  match n with
  | O => Some (true, res)
  | S n =>
    v ← f i;
    if v =? 0 then Some (false, res) else res ← aset res i (Some v); fill_nonzero n f (i + 1) res
  end.
(** the value returned after such a loop *)
Definition filled (l : Z) (r : option (bool * list (option Z))) : option (Z * list (option Z)) :=
  '(ok, res) ← r; Some (if ok : bool then l else 0, res).

(** the 18 bit characters of [DECOMP_TYPE_LL1] and [DECOMP_TYPE_LL2] *)
Definition get_ll (d : list Z) (p k : Z) : option Z :=
  lo ← unicode_get16 d (2 * k); hi ← d.[p + k / 4];
  Some (lo .| (((hi >> ((k mod 4) * 2)) .& 3) << 16)).
(** the [switch(type)] of [unicode_decomp_entry]; [k] is [c - code] *)
Definition decomp_switch (d : list Z) (res : list (option Z)) (k len type : Z) : option (Z * list (option Z)) :=
  let one_of first last := (first <=? type) && (type <=? last) in
  if one_of DECOMP_TYPE_L1 DECOMP_TYPE_L7 then
    let l := type - DECOMP_TYPE_L1 + 1 in
    let o := u32 (k * l * 2) in
    filled l (fill (Z.to_nat l) true (λ i, unicode_get16 d (o + 2 * i)) 0 res)
  else if one_of DECOMP_TYPE_LL1 DECOMP_TYPE_LL2 then
    let l := type - DECOMP_TYPE_LL1 + 1 in
    let p := u32 (len * l * 2) in
    filled l (fill_nonzero (Z.to_nat l) (λ i, get_ll d p (u32 (k * l) + i)) 0 res)
  else if one_of DECOMP_TYPE_S1 DECOMP_TYPE_S5 then
    let l := type - DECOMP_TYPE_S1 + 1 in
    let o := u32 (k * l) in
    filled l (fill (Z.to_nat l) true (λ i, b ← d.[o + i]; unicode_get_short_code b) 0 res)
  else if one_of DECOMP_TYPE_I1 DECOMP_TYPE_I4_2 then
    let '(l, p) :=
      if type =? DECOMP_TYPE_I1 then (1, 0)
      else
        let l := 2 + ((type - DECOMP_TYPE_I2_0) >> 1) in
        (l, ((type - DECOMP_TYPE_I2_0) .& 1) + b2z (l >? 2)) in
    filled l (fill (Z.to_nat l) false
      (λ i, c1 ← unicode_get16 d (2 * i); Some (if i =? p then u32 (c1 + k) else c1)) 0 res)
  else if one_of DECOMP_TYPE_B1 DECOMP_TYPE_B18 then
    let l := if type =? DECOMP_TYPE_B18 then 18 else type - DECOMP_TYPE_B1 + 1 in
    c_min ← unicode_get16 d 0;
    let o := 2 + u32 (k * l) in
    filled l (fill (Z.to_nat l) false
      (λ i, c1 ← d.[o + i]; Some (if c1 =? 0xff then 0x20 else u32 (c1 + c_min))) 0 res)
  else if type =? DECOMP_TYPE_LS2 then
    let o := u32 (k * 3) in
    c0 ← unicode_get16 d o;
    res ← aset res 0 (Some c0);
    if c0 =? 0 then Some (0, res)
    else b ← d.[o + 2]; c1 ← unicode_get_short_code b;
         res ← aset res 1 (Some c1); Some (2, res)
  else if type =? DECOMP_TYPE_PAT3 then
    c0 ← unicode_get16 d 0; res ← aset res 0 (Some c0);
    c2 ← unicode_get16 d 2; res ← aset res 2 (Some c2);
    c1 ← unicode_get16 d (4 + u32 (k * 2)); res ← aset res 1 (Some c1);
    Some (3, res)
  else if one_of DECOMP_TYPE_S2_UL DECOMP_TYPE_LS2_UL then
    '(c0, o) ←
      (if type =? DECOMP_TYPE_S2_UL then
         let o := k .& Z.lnot 1 in
         b ← d.[o]; c0 ← unicode_get_short_code b; Some (c0, o + 1)
       else
         let o := u32 ((k >> 1) * 3) in
         c0 ← unicode_get16 d o; Some (c0, o + 2));
    let c0 := if k .& 1 =? 0 then c0 else unicode_get_lower_simple c0 in
    res ← aset res 0 (Some c0);
    b ← d.[o]; c1 ← unicode_get_short_code b;
    res ← aset res 1 (Some c1); Some (2, res)
  else Some (0, res).
Definition unicode_decomp_entry (res : list (option Z)) (c idx code len type : Z) : option (Z * list (option Z)) :=
  t ← unicode_decomp_table2.[idx];
  if type =? DECOMP_TYPE_C1 then res ← aset res 0 (Some t); Some (1, res)
  else decomp_switch (zdrop t unicode_decomp_data) res (u32 (c - code)) len type.

(** the fields of an entry of [unicode_decomp_table1] *)
Definition decomp_code (v : Z) : Z := v >> (32 - 18).
Definition decomp_len (v : Z) : Z := (v >> (32 - 18 - 7)) .& 0x7f.
Definition decomp_type (v : Z) : Z := (v >> (32 - 18 - 7 - 6)) .& 0x3f.
Definition unicode_decomp_char (res : list (option Z)) (c is_compat1 : Z) : option (Z * list (option Z)) :=
  hit ← table_search unicode_decomp_table1 decomp_code decomp_len c;
  match hit with
  | None => Some (0, res)
  | Some (idx, v) =>
    let is_compat := v .& 1 in
    if is_compat1 <? is_compat then Some (0, res)
    else unicode_decomp_entry res c idx (decomp_code v) (decomp_len v) (decomp_type v)
  end.

(** ** Composition of a pair *)
(** the composite and the pair of an element of [unicode_comp_table] *)
Definition comp_entry (idx1 : Z) : option (Z * Z * Z) :=
  let d_idx := idx1 >> 6 in
  let d_offset := idx1 .& 0x3f in
  v ← unicode_decomp_table1.[d_idx];
  let ch := u32 (decomp_code v + d_offset) in
  '(_, res) ← unicode_decomp_entry [None; None] ch d_idx (decomp_code v) (decomp_len v) (decomp_type v);
  p0 ← res.[0]; p0 ← p0; p1 ← res.[1]; p1 ← p1;
  Some (ch, p0, p1).
Fixpoint compose_search (fuel : nat) (c0 c1 idx_min idx_max : Z) : option Z :=
  match fuel with
  | O => None
  | S fuel =>
    if idx_min <=? idx_max then
      let idx := (idx_max + idx_min) / 2 in
      idx1 ← unicode_comp_table.[idx];
      '(ch, p0, p1) ← comp_entry idx1;
      let d := i32 (c0 - p0) in
      let d := if d =? 0 then i32 (c1 - p1) else d in
      if d <? 0 then compose_search fuel c0 c1 idx_min (idx - 1)
      else if d >? 0 then compose_search fuel c0 c1 (idx + 1) idx_max
      else Some ch
    else Some 0
  end.
Definition unicode_compose_pair (c0 c1 : Z) : option Z :=
  compose_search (S (length unicode_comp_table)) c0 c1 0 (zlen unicode_comp_table - 1).
(** Hangul syllables are composed by arithmetic *)
Definition compose_pair (c0 c1 : Z) : option Z :=
  if (c0 >=? 0x1100) && (c0 <? 0x1100 + 19) && (c1 >=? 0x1161) && (c1 <? 0x1161 + 21) then
    Some (0xac00 + (c0 - 0x1100) * 588 + (c1 - 0x1161) * 28)
  else if (c0 >=? 0xac00) && (c0 <? 0xac00 + 11172) && ((c0 - 0xac00) mod 28 =? 0) &&
          (c1 >=? 0x11a7) && (c1 <? 0x11a7 + 28) then
    Some (c0 + c1 - 0x11a7)
  else unicode_compose_pair c0 c1.

(** ** Combining classes *)
Fixpoint cc_loop (fuel : nat) (c p code : Z) : option Z :=
  match fuel with
  | O => None
  | S fuel =>
    b ← unicode_cc_table.[p];
    let p := p + 1 in
    let type := b >> 6 in
    let n := b .& 0x3f in
    '(n, p) ←
      (if n <? 48 then Some (n, p)
       else if n <? 56 then
         b1 ← unicode_cc_table.[p]; Some ((((n - 48) << 8) .| b1) + 48, p + 1)
       else
         b1 ← unicode_cc_table.[p]; b2 ← unicode_cc_table.[p + 1];
         Some ((((n - 56) << 8) .| (b1 << 8) .| b2) + (48 + (1 << 11)), p + 2));
    let p := if type <=? 1 then p + 1 else p in
    let c1 := u32 (code + n + 1) in
    if c <? c1 then
      if type =? 0 then unicode_cc_table.[p - 1]
      else if type =? 1 then v ← unicode_cc_table.[p - 1]; Some (u32 (v + c - code))
      else if type =? 2 then Some 0
      else Some 230
    else cc_loop fuel c p c1
  end.
Definition unicode_get_cc (c : Z) : option Z :=
  '(pos, code) ← get_index_pos c unicode_cc_index (zlen unicode_cc_index / 3);
  if pos <? 0 then Some 0 else cc_loop (S (length unicode_cc_table)) c pos code.

(** ** Canonical ordering *)
(** [while (k >= start)]: shift the characters of a higher class *)
Fixpoint sort_shift (fuel : nat) (buf : list Z) (k start cc1 : Z) : option (list Z * Z) :=
  match fuel with
  | O => None
  | S fuel =>
    if k >=? start then
      b ← buf.[k]; cc ← unicode_get_cc b;
      if cc <=? cc1 then Some (buf, k)
      else buf ← aset buf (k + 1) b; sort_shift fuel buf (k - 1) start cc1
    else Some (buf, k)
  end.
(** [while (j < len)]: insert the characters up to the next starter *)
Fixpoint sort_run (fuel : nat) (buf : list Z) (len start j : Z) : option (list Z * Z) :=
  match fuel with
  | O => None
  | S fuel =>
    if j <? len then
      ch1 ← buf.[j]; cc1 ← unicode_get_cc ch1;
      if cc1 =? 0 then Some (buf, j)
      else
        '(buf, k) ← sort_shift (S (length buf)) buf (j - 1) start cc1;
        buf ← aset buf (k + 1) ch1;
        sort_run fuel buf len start (j + 1)
    else Some (buf, j)
  end.
(** [for(i = 0; i < len; i++)] *)
Fixpoint sort_loop (fuel : nat) (buf : list Z) (len i : Z) : option (list Z) :=
  match fuel with
  | O => None
  | S fuel =>
    if i <? len then
      b ← buf.[i]; cc ← unicode_get_cc b;
      if negb (cc =? 0) then
        '(buf, j) ← sort_run (S (length buf)) buf len i (i + 1);
        sort_loop fuel buf len (j + 1)
      else sort_loop fuel buf len (i + 1)
    else Some buf
  end.
Definition sort_cc (buf : list Z) (len : Z) : option (list Z) := sort_loop (S (length buf)) buf len 0.

(** ** Composition of a string *)
(** [while (starter_pos >= 0)]: [None] is [goto next] *)
Fixpoint find_starter (fuel : nat) (buf : list Z) (starter_pos last_cc : Z) : option (option Z) :=
  match fuel with
  | O => None
  | S fuel =>
    if starter_pos >=? 0 then
      b ← buf.[starter_pos]; cc ← unicode_get_cc b;
      if cc =? 0 then Some (Some starter_pos)
      else if cc >=? last_cc then Some None
      else find_starter fuel buf (starter_pos - 1) 256
    else Some (Some starter_pos)
  end.
(** [while (i < buf_len)] *)
Fixpoint compose_loop (fuel : nat) (buf : list Z) (buf_len i out_len : Z) : option (list Z * Z) :=
  match fuel with
  | O => None
  | S fuel =>
    if i <? buf_len then
      x ← buf.[i]; last_cc ← unicode_get_cc x;
      starter ← find_starter (S (length buf)) buf (out_len - 1) last_cc;
      let next := buf ← aset buf out_len x; compose_loop fuel buf buf_len (i + 1) (out_len + 1) in
      match starter with
      | Some starter_pos =>
        if starter_pos >=? 0 then
          s ← buf.[starter_pos]; p ← compose_pair s x;
          if negb (p =? 0) then
            buf ← aset buf starter_pos p; compose_loop fuel buf buf_len (i + 1) out_len
          else next
        else next
      | None => next
      end
    else Some (buf, out_len)
  end.

(** ** Normalization *)
Section Normalize.
Context `{!Allocator}.

Fixpoint fold_M {A B} (f : A → B → M A) (a : A) (l : list B) : M A :=
  match l with [] => mret a | b :: l => a ← f a b; fold_M f a l end.
Definition put_int (dbuf : DynBuf) (v : Z) : M DynBuf := '(_, dbuf) ← dbuf_put_u32 dbuf v; mret dbuf.
(** the body of the loop of [to_nfd_rec]; [rec] is the call of itself *)
Definition to_nfd_char (rec : DynBuf → list Z → M DynBuf) (is_compat : Z) (dbuf : DynBuf) (c : Z) : M DynBuf :=
  if (c >=? 0xac00) && (c <? 0xd7a4) then
    let c := c - 0xac00 in
    dbuf ← put_int dbuf (0x1100 + c / 588);
    dbuf ← put_int dbuf (0x1161 + (c mod 588) / 28);
    let v := c mod 28 in
    if negb (v =? 0) then put_int dbuf (0x11a7 + v) else mret dbuf
  else
    '(l, res) ← lift (unicode_decomp_char (repeat None (Z.to_nat UNICODE_DECOMP_LEN_MAX)) c is_compat);
    if negb (l =? 0) then src ← lift (mapM id (ztake l res)); rec dbuf src
    else put_int dbuf c.
(** the fuel bounds the depth of the recursion *)
Fixpoint to_nfd_rec (fuel : nat) (is_compat : Z) (dbuf : DynBuf) (src : list Z) : M DynBuf :=
  match fuel with
  | O => ub
  | S fuel => fold_M (to_nfd_char (to_nfd_rec fuel is_compat) is_compat) dbuf src
  end.
(** the [int]s of a buffer *)
Fixpoint ints (l : list Z) : list Z :=
  match l with
  | b0 :: b1 :: b2 :: b3 :: l => ((b0 + 2 ^ 8 * b1) + 2 ^ 16 * (b2 + 2 ^ 8 * b3)) :: ints l
  | _ => []
  end.
(** deep enough for every character *)
Definition NFD_DEPTH : nat := 5.
(** the result, and [*pdst]: [None] for NULL *)
Definition unicode_normalize (src : list Z) (n_type : Z) : M (Z * option (list Z)) :=
  let is_compat := n_type >> 1 in
  let src_len := zlen src in
  '(ret, dbuf) ← dbuf_realloc dbuf_init (4 * src_len);
  if negb (ret =? 0) then mret (-1, None)
  else if (n_type =? UNICODE_NFC) && forallb (λ c, c <? 0x100) src then mret (src_len, Some src)
  else
    dbuf ← to_nfd_rec NFD_DEPTH is_compat dbuf src;
    if dbuf_error dbuf then mret (-1, None)
    else
      let buf := ints (d_buf dbuf) in
      let buf_len := i32 (d_size dbuf / 4) in
      buf ← lift (sort_cc buf buf_len);
      if (buf_len <=? 1) || negb (n_type .& 1 =? 0) then mret (buf_len, Some buf)
      else
        '(buf, out_len) ← lift (compose_loop (S (length buf)) buf buf_len 1 1);
        mret (out_len, Some (ztake out_len buf)).
End Normalize.
