(* ===== verification/NormDecomp.v ===== *)
(** * Decompositions

    Every entry of the decomposition tables, read once: [dmap k] maps the code
    points that [unicode_decomp_char] decomposes to their decompositions, with
    the compatibility ones for [k = 1].  Decomposing again and again ends
    after at most [NFD_DEPTH] rounds in characters that have none. *)
From stdpp Require Import gmap.
From S2P Require Import Prelude Alloc Cutils DynBuf UnicodeTables TableSearch CaseConv RunTable NormTables Normalize.

(** ** Reading the tables once *)
Definition blank : list (option Z) := repeat None (Z.to_nat UNICODE_DECOMP_LEN_MAX).
(** the characters that a call wrote, if the result is in order *)
Definition written (r : option (Z * list (option Z))) : option (list Z) :=
  '(l, res) ← r;
  if (0 <=? l) && (l <=? UNICODE_DECOMP_LEN_MAX) then
    cs ← mapM id (ztake l res); if zlen cs =? l then Some cs else None
  else None.
(** the entry of the run [v] for [c], with [t] and [d] from the other tables *)
Definition row_entry (d : list Z) (t v c : Z) : option (Z * list (option Z)) :=
  if decomp_type v =? DECOMP_TYPE_C1 then res ← aset blank 0 (Some t); Some (1, res)
  else decomp_switch d blank (u32 (c - decomp_code v)) (decomp_len v) (decomp_type v).
Fixpoint row_pairs (d : list Z) (t v c : Z) (n : nat) : option (list (Z * list Z)) :=
  match n with
  | O => Some []
  | S n =>
    l ← written (row_entry d t v c); ps ← row_pairs d t v (c + 1) n;
    Some (match l with [] => ps | _ :: _ => (c, l) :: ps end)
  end.
Fixpoint all_pairs (k : Z) (rows : list (Z * Z)) : option (list (Z * list Z)) :=
  match rows with
  | [] => Some []
  | (v, t) :: rows =>
    ps ← (if k <? v .& 1 then Some []
          else row_pairs (zdrop t unicode_decomp_data) t v (decomp_code v) (Z.to_nat (decomp_len v)));
    qs ← all_pairs k rows; Some (ps ++ qs)
  end.
Definition rows : list (Z * Z) := zip unicode_decomp_table1 unicode_decomp_table2.
Definition pairs (k : Z) : list (Z * list Z) := default [] (all_pairs k rows).
Definition dmap (k : Z) : gmap Z (list Z) := list_to_map (pairs k).

Fixpoint keys_sorted (c : Z) (ps : list (Z * list Z)) : bool :=
  match ps with [] => true | (x, _) :: ps => (c <? x) && keys_sorted x ps end.
Definition pairs_ok (k : Z) : bool :=
  match all_pairs k rows with Some ps => keys_sorted (-1) ps | None => false end.
Lemma pairs_ok_0 : pairs_ok 0 = true.
Proof. vm_compute. reflexivity. Qed.
Lemma pairs_ok_1 : pairs_ok 1 = true.
Proof. vm_compute. reflexivity. Qed.
Lemma rows_sorted : runs_sorted decomp_code decomp_len unicode_decomp_table1 = true.
Proof. vm_compute. reflexivity. Qed.
Lemma rows_length : length unicode_decomp_table1 = length unicode_decomp_table2.
Proof. vm_compute. reflexivity. Qed.

(** ** Hangul *)
Definition hangul (c : Z) : bool := (c >=? 0xac00) && (c <? 0xd7a4).
Definition hangul_decomp (c : Z) : list Z :=
  let c := c - 0xac00 in
  [0x1100 + c / 588; 0x1161 + (c mod 588) / 28] ++ (if c mod 28 =? 0 then [] else [0x11a7 + c mod 28]).

(** ** The full decomposition *)
Definition direct (k c : Z) : list Z := default [] (dmap k !! c).
Fixpoint full_map (fuel : nat) (m : gmap Z (list Z)) (c : Z) : option (list Z) :=
  match fuel with
  | O => None
  | S fuel =>
    if hangul c then Some (hangul_decomp c)
    else match default [] (m !! c) with [] => Some [c] | l => ls ← mapM (full_map fuel m) l; Some (concat ls) end
  end.
Definition full (k c : Z) : list Z := default [c] (full_map NFD_DEPTH (dmap k) c).
(** characters without a decomposition *)
Definition irreducible (m : gmap Z (list Z)) (c : Z) : bool :=
  (0 <=? c) && (c <=? 0x10ffff) && negb (hangul c) && match m !! c with None => true | Some _ => false end.
Definition full_ok (m : gmap Z (list Z)) (c : Z) : bool :=
  match full_map NFD_DEPTH m c with
  | Some l => forallb (irreducible m) l && (zlen l <=? UNICODE_DECOMP_LEN_MAX) && negb (zlen l =? 0) &&
              negb (existsb (Z.eqb 0x11a7) l)
  | None => false
  end.
Definition jamo : list Z := seqZ 0x1100 19 ++ seqZ 0x1161 21 ++ seqZ 0x11a8 27.
Definition dmap_ok (k : Z) : bool :=
  let m := dmap k in forallb (λ p, full_ok m p.1) (pairs k) && forallb (irreducible m) jamo.
Lemma dmap_ok_0 : dmap_ok 0 = true.
Proof. vm_compute. reflexivity. Qed.
Lemma dmap_ok_1 : dmap_ok 1 = true.
Proof. vm_compute. reflexivity. Qed.

(** ** Looking a character up *)
Lemma written_Some r l :
  written r = Some l → ∃ res, r = Some (zlen l, res) ∧ mapM id (ztake (zlen l) res) = Some l ∧ zlen l <= UNICODE_DECOMP_LEN_MAX.
Proof.
  unfold written. destruct r as [[n res]|]; [|done]. cbn [mbind option_bind].
  destruct (Z.leb_spec 0 n), (Z.leb_spec n UNICODE_DECOMP_LEN_MAX); try done. cbn [andb].
  intros (cs & E & Hl)%bind_Some. destruct (Z.eqb_spec (zlen cs) n) as [<-|]; [|done]. injection Hl as <-. eauto.
Qed.
Lemma row_pairs_spec d t v c n ps :
  row_pairs d t v c n = Some ps →
  (∀ x, c <= x < c + Z.of_nat n → is_Some (written (row_entry d t v x))) ∧
  (∀ x l, (x, l) ∈ ps ↔ l ≠ [] ∧ c <= x < c + Z.of_nat n ∧ written (row_entry d t v x) = Some l).
Proof.
  revert c ps. induction n as [|n IH]; intros c ps H; cbn [row_pairs] in H.
  - injection H as <-. split; [lia|]. intros x l. split; [by intros ?%elem_of_nil|lia].
  - apply bind_Some in H as (l0 & E0 & H). apply bind_Some in H as (qs & Eq & [= <-]).
    destruct (IH _ _ Eq) as [H1 H2]. split.
    + intros x Hx. destruct (decide (x = c)) as [->|]; [by rewrite E0|]. apply H1. lia.
    + assert (∀ x l, (x, l) ∈ qs ∨ (x = c ∧ l = l0 ∧ l ≠ []) ↔
        l ≠ [] ∧ c <= x < c + Z.of_nat (S n) ∧ written (row_entry d t v x) = Some l) as Hall.
      { intros x l. rewrite H2. split.
        - intros [(? & ? & ?)|(-> & -> & ?)]; (split; [done|]); (split; [lia|done]).
        - intros (Hne & Hx & E). destruct (decide (x = c)) as [->|]; [right|left].
          + rewrite E0 in E. injection E as <-. done.
          + split; [done|]. split; [lia|done]. }
      intros x l. rewrite <- Hall. destruct l0 as [|y l0]; rewrite ?elem_of_cons; naive_solver.
Qed.
Lemma all_pairs_spec k rows ps :
  all_pairs k rows = Some ps →
  (∀ v t x, (v, t) ∈ rows → ¬ k < v .& 1 → decomp_code v <= x < decomp_code v + decomp_len v →
     is_Some (written (row_entry (zdrop t unicode_decomp_data) t v x))) ∧
  (∀ x l, (x, l) ∈ ps ↔ l ≠ [] ∧ ∃ v t, (v, t) ∈ rows ∧ ¬ k < v .& 1 ∧
     decomp_code v <= x < decomp_code v + decomp_len v ∧
     written (row_entry (zdrop t unicode_decomp_data) t v x) = Some l).
Proof.
  revert ps. induction rows as [|[v t] rows IH]; intros ps H; cbn [all_pairs] in H.
  - injection H as <-. split; [by intros v t x ?%elem_of_nil|]. intros x l.
    split; [by intros ?%elem_of_nil|intros (_ & v & t & ?%elem_of_nil & _); done].
  - apply bind_Some in H as (ps1 & E1 & H). apply bind_Some in H as (ps2 & E2 & [= <-]).
    destruct (IH _ E2) as [I1 I2].
    assert ((¬ k < v .& 1 → ∀ x, decomp_code v <= x < decomp_code v + decomp_len v →
        is_Some (written (row_entry (zdrop t unicode_decomp_data) t v x))) ∧
      (∀ x l, (x, l) ∈ ps1 ↔ l ≠ [] ∧ ¬ k < v .& 1 ∧ decomp_code v <= x < decomp_code v + decomp_len v ∧
        written (row_entry (zdrop t unicode_decomp_data) t v x) = Some l)) as [J1 J2].
    { destruct (Z.ltb_spec k (v .& 1)).
      - injection E1 as <-. split; [lia|]. intros x l. split; [by intros ?%elem_of_nil|lia].
      - destruct (row_pairs_spec _ _ _ _ _ _ E1) as [K1 K2]. split.
        + intros _ x Hx. apply K1. lia.
        + intros x l. rewrite K2. split; intros (? & ? & ?); repeat (split; [done || lia|]); try done. tauto. }
    split.
    + intros v' t' x [[= -> ->]|Hin]%elem_of_cons Hk Hx; [auto|by eapply I1].
    + intros x l. rewrite elem_of_app, J2, I2. split.
      * intros [(? & ? & ? & ?)|(? & v' & t' & ? & ? & ? & ?)]; (split; [done|]); [exists v, t|exists v', t'];
          (split; [rewrite elem_of_cons; by auto|done]).
      * intros (Hne & v' & t' & [[= -> ->]|Hin]%elem_of_cons & Hk & Hx & E); [by left|right]. split; [done|]. by exists v', t'.
Qed.
Lemma keys_sorted_NoDup c ps : keys_sorted c ps = true → NoDup ps.*1 ∧ Forall (λ x, c < x) ps.*1.
Proof.
  revert c. induction ps as [|[x l] ps IH]; intros c H; cbn [keys_sorted] in H; [by split; constructor|].
  apply andb_true_iff in H as [Hc%Z.ltb_lt H]. destruct (IH _ H) as [H1 H2]. cbn [fmap list_fmap fst]. split.
  - constructor; [|done]. intros Hin. rewrite Forall_forall in H2. specialize (H2 _ Hin). lia.
  - constructor; [done|]. eapply Forall_impl; [exact H2|]. cbn. intros; lia.
Qed.
Lemma pairs_spec k : k = 0 ∨ k = 1 → all_pairs k rows = Some (pairs k) ∧ ∀ x l, dmap k !! x = Some l ↔ (x, l) ∈ pairs k.
Proof.
  intros Hk. assert (pairs_ok k = true) as H by (destruct Hk as [->| ->]; [apply pairs_ok_0|apply pairs_ok_1]).
  unfold pairs_ok in H. unfold dmap, pairs. destruct (all_pairs k rows) as [ps|]; [|done]. split; [done|].
  apply keys_sorted_NoDup in H as [H _]. intros x l. symmetry. by apply elem_of_list_to_map.
Qed.
(** the entries of the three tables belong together *)
Lemma rows_at i v : unicode_decomp_table1.[i] = Some v → ∃ t, unicode_decomp_table2.[i] = Some t ∧ (v, t) ∈ rows.
Proof.
  intros Hv. pose proof (aget_Some_range _ _ _ Hv) as Hi.
  destruct (aget_is_Some unicode_decomp_table2 i) as [t Ht]; [unfold zlen in *; by rewrite <- rows_length|].
  exists t. split; [done|]. unfold aget in Hv, Ht. destruct (i <? 0); [done|].
  apply list_elem_of_lookup. exists (Z.to_nat i). unfold rows. apply lookup_zip_Some. done.
Qed.
Lemma rows_in v t : (v, t) ∈ rows → ∃ i, unicode_decomp_table1.[i] = Some v ∧ unicode_decomp_table2.[i] = Some t.
Proof.
  intros [i [Hv Ht]%lookup_zip_Some]%list_elem_of_lookup. exists (Z.of_nat i). by rewrite !aget_nat.
Qed.

(** [unicode_decomp_char] stays in its tables and in [res], and writes the
    decomposition *)
Lemma decomp_char_spec k c :
  k = 0 ∨ k = 1 →
  ∃ res, unicode_decomp_char blank c k = Some (zlen (direct k c), res) ∧
    mapM id (ztake (zlen (direct k c)) res) = Some (direct k c) ∧ zlen (direct k c) <= UNICODE_DECOMP_LEN_MAX.
Proof.
  intros Hk. destruct (pairs_spec k Hk) as [Hp Hm]. destruct (all_pairs_spec k rows _ Hp) as [Htot Hin].
  unfold unicode_decomp_char, direct. destruct (table_search_spec _ _ _ c rows_sorted) as (r & -> & Hr).
  cbn [mbind option_bind].
  assert (∀ l, dmap k !! c = Some l → ∃ i v t, run_at unicode_decomp_table1 decomp_code decomp_len i v c ∧
    unicode_decomp_table2.[i] = Some t ∧ ¬ k < v .& 1 ∧ l ≠ [] ∧
    written (row_entry (zdrop t unicode_decomp_data) t v c) = Some l) as Hkey.
  { intros l (Hne & v & t & Hvt & Hc & Hx & E)%Hm%Hin. apply rows_in in Hvt as (i & Hv & Ht). by exists i, v, t. }
  destruct r as [[i v]|].
  - pose proof Hr as [Hv Hc]. destruct (rows_at i v Hv) as (t & Ht & Hvt).
    assert (∀ l, dmap k !! c = Some l → ¬ k < v .& 1 ∧ l ≠ [] ∧
      written (row_entry (zdrop t unicode_decomp_data) t v c) = Some l) as Hl.
    { intros l (j & v' & t' & Hr' & Ht' & H)%Hkey.
      destruct (run_at_unique _ _ _ i j v v' c rows_sorted Hr Hr') as [<- <-]. rewrite Ht in Ht'. by injection Ht' as <-. }
    destruct (Z.ltb_spec k (v .& 1)) as [Hlt|Hge].
    + destruct (dmap k !! c) as [l|]; [by destruct (Hl l eq_refl)|]. cbn [from_option id]. exists blank. done.
    + destruct (Htot v t c Hvt ltac:(lia) Hc) as [l El]. assert (default [] (dmap k !! c) = l) as ->.
      { destruct l as [|y l].
        - destruct (dmap k !! c) as [l|]; [|done]. destruct (Hl l eq_refl) as (_ & Hne & E). rewrite El in E. by injection E as <-.
        - enough (dmap k !! c = Some (y :: l)) as -> by done. apply Hm, Hin. split; [done|]. exists v, t. repeat (split; [done || lia|]). done. }
      apply written_Some in El as (res & E & Hw & Hle). exists res. split; [|done].
      unfold unicode_decomp_entry. rewrite Ht. cbn [mbind option_bind]. unfold row_entry in E. exact E.
  - assert (dmap k !! c = None) as ->; [|by exists blank].
    destruct (dmap k !! c) as [l|]; [|done]. destruct (Hkey l eq_refl) as (i & v & t & Hrun & _). by destruct (Hr i v).
Qed.

(** ** The full decomposition exists, and is final *)
Lemma dmap_ok_k k : k = 0 ∨ k = 1 → dmap_ok k = true.
Proof. intros [->| ->]; [apply dmap_ok_0|apply dmap_ok_1]. Qed.
Lemma hangul_irreducible k c :
  k = 0 ∨ k = 1 → hangul c = true → forallb (irreducible (dmap k)) (hangul_decomp c) = true.
Proof.
  intros Hk%dmap_ok_k Hc. unfold dmap_ok in Hk. cbv zeta in Hk. apply andb_true_iff in Hk as [_ Hj].
  rewrite forallb_forall in Hj. unfold hangul in Hc. apply andb_true_iff in Hc as [H1 H2].
  rewrite Z.geb_leb in H1. apply Z.leb_le in H1. apply Z.ltb_lt in H2.
  apply forallb_forall. intros x Hx%list_elem_of_In. apply Hj, list_elem_of_In.
  unfold jamo. rewrite !elem_of_app, !elem_of_seqZ. unfold hangul_decomp in Hx.
  set (y := c - 0xac00) in *. assert (0 <= y < 11172) as Hy by lia. clearbody y. clear H1 H2 Hj.
  assert (0 <= y / 588 < 19) by (split; [apply Z.div_pos|apply Z.div_lt_upper_bound]; lia).
  assert (0 <= (y mod 588) / 28 < 21).
  { pose proof (Z.mod_pos_bound y 588). split; [apply Z.div_pos|apply Z.div_lt_upper_bound]; lia. }
  pose proof (Z.mod_pos_bound y 28).
  destruct (Z.eqb_spec (y mod 28) 0); cbn [app] in Hx; rewrite !elem_of_cons, elem_of_nil in Hx;
    destruct_or!; subst; try done; lia.
Qed.
Lemma zlen_hangul_decomp c : 2 <= zlen (hangul_decomp c) <= 3.
Proof. unfold hangul_decomp. cbv zeta. destruct (_ =? 0); split; done. Qed.
Lemma full_ok_key k c l : k = 0 ∨ k = 1 → dmap k !! c = Some l → full_ok (dmap k) c = true.
Proof.
  intros Hk Hl. pose proof (dmap_ok_k k Hk) as H. unfold dmap_ok in H. cbv zeta in H. apply andb_true_iff in H as [H _].
  rewrite forallb_forall in H. apply (H (c, l)), list_elem_of_In. by apply (pairs_spec k Hk).
Qed.
Lemma full_spec k c :
  k = 0 ∨ k = 1 → 0 <= c <= 0x10ffff →
  full_map NFD_DEPTH (dmap k) c = Some (full k c) ∧ forallb (irreducible (dmap k)) (full k c) = true ∧
  1 <= zlen (full k c) <= UNICODE_DECOMP_LEN_MAX ∧ (0x11a7 ∈ full k c → c = 0x11a7).
Proof.
  intros Hk Hc. unfold full.
  destruct (hangul c) eqn:Eh; [|destruct (dmap k !! c) as [l|] eqn:El].
  - cbn [full_map NFD_DEPTH]. rewrite Eh. cbn [from_option id]. split; [done|]. split; [by apply hangul_irreducible|].
    pose proof (zlen_hangul_decomp c). unfold UNICODE_DECOMP_LEN_MAX. split; [lia|]. intros Hin. exfalso.
    unfold hangul, hangul_decomp in *. rewrite Z.geb_leb in Eh. bool_props.
    set (y := c - 0xac00) in *. assert (y / 588 < 19) by (apply Z.div_lt_upper_bound; lia).
    pose proof (Z.mod_pos_bound y 588 ltac:(lia)). assert (y mod 588 / 28 < 21) by (apply Z.div_lt_upper_bound; lia).
    pose proof (Z.mod_pos_bound y 28 ltac:(lia)).
    destruct (Z.eqb_spec (y mod 28) 0); cbn [app] in Hin; rewrite !elem_of_cons, elem_of_nil in Hin; destruct_or!; lia || done.
  - pose proof (full_ok_key k c l Hk El) as H. unfold full_ok in H.
    destruct (full_map NFD_DEPTH (dmap k) c) as [fl|]; [|done]. cbn [from_option id]. split; [done|].
    apply andb_true_iff in H as [[[H1 H2%Z.leb_le]%andb_true_iff H3%negb_true_iff%Z.eqb_neq]%andb_true_iff H4%negb_true_iff].
    split; [done|]. pose proof (zlen_nonneg fl). split; [lia|]. intros Hin. exfalso. revert H4. apply not_false_iff_true.
    apply existsb_exists. exists 0x11a7. split; [by apply list_elem_of_In|done].
  - cbn [full_map NFD_DEPTH]. rewrite Eh, El. cbn [from_option id]. split; [done|]. cbn [forallb]. unfold irreducible.
    rewrite El, Eh. destruct (Z.leb_spec 0 c), (Z.leb_spec c 0x10ffff); try lia. split; [done|]. split; [done|].
    by intros ->%list_elem_of_singleton.
Qed.
Lemma irreducible_spec m c : irreducible m c = true ↔ 0 <= c <= 0x10ffff ∧ hangul c = false ∧ m !! c = None.
Proof.
  unfold irreducible. rewrite !andb_true_iff, !Z.leb_le, negb_true_iff. destruct (m !! c); intuition done.
Qed.
(** a character of a full decomposition decomposes to itself *)
Lemma full_irreducible k c : irreducible (dmap k) c = true → full k c = [c].
Proof. intros (_ & Hh & Hm)%irreducible_spec. unfold full. cbn [full_map NFD_DEPTH]. by rewrite Hh, Hm. Qed.
Definition fulls (k : Z) (l : list Z) : list Z := flat_map (full k) l.
Lemma fulls_irreducible k l : forallb (irreducible (dmap k)) l = true → fulls k l = l.
Proof.
  induction l as [|c l IH]; [done|]. cbn [forallb]. intros [Hc Hl]%andb_true_iff.
  unfold fulls in *. cbn [flat_map]. by rewrite (full_irreducible _ _ Hc), IH.
Qed.
Lemma fulls_spec k l :
  k = 0 ∨ k = 1 → Forall (λ c, 0 <= c <= 0x10ffff) l → forallb (irreducible (dmap k)) (fulls k l) = true.
Proof.
  intros Hk. induction 1 as [|c l Hc _ IH]; [done|]. unfold fulls in *. cbn [flat_map].
  rewrite forallb_app, IH, andb_true_r. by apply full_spec.
Qed.
