(* ===== verification/NormOrder.v ===== *)
(** * Canonical ordering

    Unicode orders a string by exchanging adjacent characters [a b] with
    [ccc a > ccc b > 0] until there are none.  [order] is the normal form of
    this relation: it is reached by exchanges, nothing can be exchanged in it,
    and strings that differ by exchanges have the same.  [sort_cc] computes
    it in place, run by run. *)
From stdpp Require Import relations.
From S2P Require Import Prelude Alloc Cutils DynBuf UnicodeTables TableSearch CaseConv RunTable NormTables Normalize.

Section Order.
Context (cc : Z → Z).

(** [a] may stand before [b] *)
Definition in_order (a b : Z) : Prop := ¬ 0 < cc b < cc a.
(** one exchange *)
Inductive exchange : list Z → list Z → Prop :=
| exchange_at l a b k : 0 < cc b < cc a → exchange (l ++ a :: b :: k) (l ++ b :: a :: k).
(** insert [x] at the end of a string; [acc] is the string backwards *)
Fixpoint ins (x : Z) (acc : list Z) : list Z :=
  match acc with
  | [] => [x]
  | y :: acc' => if (0 <? cc x) && (cc x <? cc y) then y :: ins x acc' else x :: acc
  end.
Definition inserts (acc l : list Z) : list Z := fold_left (λ acc x, ins x acc) l acc.
Definition order (l : list Z) : list Z := rev (inserts [] l).

Lemma ins_perm x acc : Permutation (ins x acc) (x :: acc).
Proof.
  induction acc as [|y acc IH]; [done|]. cbn [ins]. destruct (_ && _); [|done].
  by rewrite IH, Permutation_swap.
Qed.
Lemma inserts_app acc l k : inserts acc (l ++ k) = inserts (inserts acc l) k.
Proof. apply fold_left_app. Qed.
Lemma ins_reach x acc k : rtc exchange (rev acc ++ x :: k) (rev (ins x acc) ++ k).
Proof.
  revert k. induction acc as [|y acc IH]; intros k; cbn [ins]; [done|].
  destruct (Z.ltb_spec 0 (cc x)), (Z.ltb_spec (cc x) (cc y)); cbn [andb rev]; rewrite <- ?app_assoc; try done; cbn [app].
  eapply rtc_l; [by apply exchange_at|]. apply IH.
Qed.
Lemma inserts_reach acc l : rtc exchange (rev acc ++ l) (rev (inserts acc l)).
Proof.
  revert acc. induction l as [|x l IH]; intros acc; cbn [inserts fold_left]; [by rewrite app_nil_r|].
  etrans; [apply ins_reach|apply IH].
Qed.
(** reached by exchanges *)
Lemma order_reach l : rtc exchange l (order l).
Proof. apply (inserts_reach [] l). Qed.

Lemma ins_sorted x acc : Sorted (flip in_order) acc → Sorted (flip in_order) (ins x acc).
Proof.
  induction 1 as [|y acc Hs IH Hy]; [by repeat constructor|]. cbn [ins].
  destruct (Z.ltb_spec 0 (cc x)), (Z.ltb_spec (cc x) (cc y)); cbn [andb].
  - constructor; [done|]. destruct acc as [|z acc]; cbn [ins].
    + constructor. unfold flip, in_order. lia.
    + inversion_clear Hy. destruct (_ && _); constructor; (done || (unfold flip, in_order; lia)).
  - constructor; [by constructor|]. constructor. unfold flip, in_order. lia.
  - constructor; [by constructor|]. constructor. unfold flip, in_order. lia.
  - constructor; [by constructor|]. constructor. unfold flip, in_order. lia.
Qed.
Lemma inserts_sorted acc l : Sorted (flip in_order) acc → Sorted (flip in_order) (inserts acc l).
Proof. revert acc. induction l as [|x l IH]; intros acc Hs; [done|]. by apply IH, ins_sorted. Qed.
(** the same on the string itself *)
Definition ordered (l : list Z) : Prop := ∀ p a b s, l = p ++ a :: b :: s → in_order a b.
Lemma sorted_rev_ordered acc : Sorted (flip in_order) acc → ordered (rev acc).
Proof.
  intros Hs p a b s E. assert (acc = rev s ++ b :: a :: rev p) as ->.
  { rewrite <- (rev_involutive acc), E, rev_app_distr. cbn [rev]. by rewrite <- !app_assoc. }
  clear E. induction (rev s) as [|y l IH]; cbn [app] in Hs.
  - inversion_clear Hs as [|?? _ H]. by inversion_clear H.
  - inversion_clear Hs. auto.
Qed.
Lemma order_ordered l : ordered (order l).
Proof. apply sorted_rev_ordered, inserts_sorted. constructor. Qed.
Lemma ordered_stuck l l' : ordered l → ¬ exchange l l'.
Proof. intros Ho Hx. destruct Hx as [p a b s H]. by apply (Ho p a b s eq_refl). Qed.
Lemma ins_in_order x acc : (∀ y, head acc = Some y → in_order y x) → ins x acc = x :: acc.
Proof.
  intros H. destruct acc as [|y acc]; [done|]. cbn [ins]. specialize (H y eq_refl). unfold in_order in H.
  destruct (Z.ltb_spec 0 (cc x)), (Z.ltb_spec (cc x) (cc y)); try done. lia.
Qed.
Lemma order_id_aux l acc : ordered (rev acc ++ l) → inserts acc l = rev l ++ acc.
Proof.
  revert acc. induction l as [|x l IH]; intros acc Ho; [done|]. cbn [inserts fold_left].
  rewrite ins_in_order; [|].
  - change (inserts (x :: acc) l = rev (x :: l) ++ acc). rewrite IH; [cbn [rev]; by rewrite <- app_assoc|].
    cbn [rev]. by rewrite <- app_assoc.
  - intros y Hy. destruct acc as [|z acc]; [done|]. injection Hy as ->.
    apply (Ho (rev acc) y x l). cbn [rev]. by rewrite <- app_assoc.
Qed.
(** nothing to do *)
Lemma order_id l : ordered l → order l = l.
Proof. intros Ho. unfold order. rewrite order_id_aux by done. by rewrite app_nil_r, rev_involutive. Qed.

Lemma ins_comm x y acc : 0 < cc x → 0 < cc y → cc x ≠ cc y → ins y (ins x acc) = ins x (ins y acc).
Proof.
  intros Hx Hy Hne. induction acc as [|z acc IH]; cbn [ins];
    repeat (match goal with |- context [if ?a <? ?b then _ else _] => destruct (Z.ltb_spec a b) | |- context [(?a <? ?b) && _] => destruct (Z.ltb_spec a b) end;
      cbn [andb ins]; try lia); try done; try congruence; try (f_equal; congruence).
Qed.
Lemma order_exchange l l' : exchange l l' → order l = order l'.
Proof.
  intros [p a b s H]. unfold order. rewrite !inserts_app. cbn [inserts fold_left]. rewrite ins_comm; [done|lia..].
Qed.
(** strings that differ by exchanges have the same order, in any context *)
Lemma order_rtc l l' : rtc exchange l l' → order l = order l'.
Proof. induction 1 as [|l1 l2 l3 H _ IH]; [done|]. rewrite <- IH. by apply order_exchange. Qed.
Lemma exchange_context p k k' s : exchange k k' → exchange (p ++ k ++ s) (p ++ k' ++ s).
Proof.
  intros [l a b r H]. rewrite <- !(app_assoc l). cbn [app]. rewrite !(app_assoc p l). by apply exchange_at.
Qed.
Lemma order_context p k k' s : order k = order k' → order (p ++ k ++ s) = order (p ++ k' ++ s).
Proof.
  assert (∀ k, order (p ++ k ++ s) = order (p ++ order k ++ s)) as H.
  { intros k0. apply order_rtc. induction (order_reach k0) as [|k1 k2 k3 Hx _ IH]; [done|].
    eapply rtc_l; [by apply exchange_context|done]. }
  intros E. by rewrite (H k), (H k'), E.
Qed.
(** a character moves to the front of characters of lower classes *)
Lemma order_move_front p b x s :
  Forall (λ y, 0 < cc y < cc x) b → order (p ++ b ++ x :: s) = order (p ++ x :: b ++ s).
Proof.
  intros Hb. symmetry. apply order_rtc. revert p. induction Hb as [|y b Hy Hb IH]; intros p; [done|].
  cbn [app]. eapply rtc_l; [by apply exchange_at|]. specialize (IH (p ++ [y])). by rewrite <- !app_assoc in IH.
Qed.
End Order.

(** ** The combining class of every character *)
(** walk the runs of a part of [unicode_cc_table] that starts at [code]: where
    its last run ends, if all classes are in range *)
Fixpoint cc_walk (fuel : nat) (t : list Z) (code : Z) : option Z :=
  match fuel with
  | O => None
  | S fuel =>
    match t with
    | [] => Some code
    | b :: t =>
      let type := b >> 6 in
      let n := b .& 0x3f in
      '(n, t) ←
        (if n <? 48 then Some (n, t)
         else if n <? 56 then match t with b1 :: t => Some ((((n - 48) << 8) .| b1) + 48, t) | _ => None end
         else match t with
              | b1 :: b2 :: t => Some ((((n - 56) << 8) .| (b1 << 8) .| b2) + (48 + (1 << 11)), t)
              | _ => None
              end);
      t ← (if type <=? 1 then
             match t with
             | v :: t => if (0 <=? v) && (v + (if type =? 0 then 0 else n) <=? 255) then Some t else None
             | _ => None
             end
           else Some t);
      if (0 <=? n) && (code + n + 1 <? 2 ^ 32) then cc_walk fuel t (code + n + 1) else None
    end
  end.
(** the length of a run takes up to two more bytes *)
Lemma cc_length pre b t n0 n t1 :
  (if n0 <? 48 then Some (n0, t)
   else if n0 <? 56 then match t with b1 :: t => Some ((((n0 - 48) << 8) .| b1) + 48, t) | _ => None end
   else match t with
        | b1 :: b2 :: t => Some ((((n0 - 56) << 8) .| (b1 << 8) .| b2) + (48 + (1 << 11)), t)
        | _ => None
        end) = Some (n, t1) →
  ∃ mid, b :: t = mid ++ t1 ∧ 0 < zlen mid ∧
    (if n0 <? 48 then Some (n0, zlen pre + 1)
     else if n0 <? 56 then
       b1 ← (pre ++ b :: t).[zlen pre + 1]; Some ((((n0 - 48) << 8) .| b1) + 48, zlen pre + 1 + 1)
     else
       b1 ← (pre ++ b :: t).[zlen pre + 1]; b2 ← (pre ++ b :: t).[zlen pre + 1 + 1];
       Some ((((n0 - 56) << 8) .| (b1 << 8) .| b2) + (48 + (1 << 11)), zlen pre + 1 + 2)) = Some (n, zlen (pre ++ mid)).
Proof.
  intros H. rewrite <- (Z.add_assoc (zlen pre) 1 1), !aget_app_off by lia.
  destruct (n0 <? 48); [injection H as <- <-; exists [b]; by rewrite zlen_app|].
  destruct (n0 <? 56).
  - destruct t as [|b1 t]; [done|]. injection H as <- <-. exists [b; b1]. split; [done|]. split; [done|].
    rewrite zlen_app. cbn [mbind option_bind]. rewrite aget_cons_pos, aget_cons_0 by lia. cbn. done.
  - destruct t as [|b1 [|b2 t]]; [done..|]. injection H as <- <-. exists [b; b1; b2]. split; [done|]. split; [done|].
    rewrite zlen_app. change (zlen [b; b1; b2]) with 3. by rewrite <- (Z.add_assoc (zlen pre) 1 2).
Qed.
Lemma cc_loop_total fuel t c code fin :
  cc_walk fuel t code = Some fin → 0 <= code <= c → c < fin →
  ∀ fuel' pre, (length t < fuel')%nat → unicode_cc_table = pre ++ t →
  ∃ v, cc_loop fuel' c (zlen pre) code = Some v ∧ 0 <= v <= 255.
Proof.
  revert t code. induction fuel as [|fuel IH]; intros t code Hw Hc Hfin fuel' pre Hf Ht; [done|].
  cbn [cc_walk] in Hw. destruct t as [|b t]; [injection Hw as <-; lia|].
  destruct fuel' as [|fuel']; [lia|]. cbn [cc_loop]. rewrite Ht, aget_app_at. cbn [mbind option_bind].
  set (type := b >> 6) in *. set (n0 := b .& 0x3f) in *.
  apply bind_Some in Hw as ([n t1] & En & Hw). apply bind_Some in Hw as (t2 & Et & Hw).
  destruct (cc_length pre b t n0 n t1 En) as (mid & Emid & Hmid & E). rewrite E. cbn [mbind option_bind]. clear E En.
  destruct (Z.leb_spec 0 n), (Z.ltb_spec (code + n + 1) (2 ^ 32)); try done. cbn [andb] in Hw.
  assert (u32 (code + n + 1) = code + n + 1) as -> by (apply Z.mod_small; lia).
  assert (∃ mid2, t1 = mid2 ++ t2 ∧
    (if type <=? 1 then zlen (pre ++ mid) + 1 else zlen (pre ++ mid)) = zlen ((pre ++ mid) ++ mid2) ∧
    (type <= 1 → ∃ v, unicode_cc_table.[zlen ((pre ++ mid) ++ mid2) - 1] = Some v ∧ 0 <= v ∧
      v + (if type =? 0 then 0 else n) <= 255)) as (mid2 & -> & -> & Hv).
  { destruct (Z.leb_spec type 1); [|injection Et as ->; exists []; rewrite app_nil_r; split; [done|]; split; [done|lia]].
    destruct t1 as [|v t1]; [done|]. exists [v]. destruct (Z.leb_spec 0 v); [|done].
    destruct (Z.leb_spec (v + (if type =? 0 then 0 else n)) 255); [|done]. injection Et as ->.
    rewrite !(zlen_app (pre ++ mid)). split; [done|]. split; [done|]. intros _. exists v. split; [|done].
    change (zlen [v]) with 1. rewrite Z.add_simpl_r, Ht, Emid, app_assoc. apply aget_app_at. }
  rewrite <- Ht. destruct (Z.ltb_spec c (code + n + 1)).
  - destruct (Z.eqb_spec type 0) as [E0|]; [destruct (Hv ltac:(lia)) as (v & -> & Hv1 & Hv2); exists v; split; [done|lia]|].
    destruct (Z.eqb_spec type 1) as [E1|]; [destruct (Hv ltac:(lia)) as (v & -> & Hv1 & Hv2)|].
    + exists (v + c - code). cbn [mbind option_bind]. unfold u32. rewrite Z.mod_small by lia. split; [done|lia].
    + destruct (type =? 2); [exists 0|exists 230]; split; (done || lia).
  - apply (IH t2); [done|lia|done| |].
    + assert (length (b :: t) = length (mid ++ mid2 ++ t2)) as El by (by rewrite Emid).
      rewrite !length_app in El. unfold zlen in Hmid. cbn [length] in *. lia.
    + by rewrite Ht, Emid, <- !app_assoc.
Qed.
(** from each block of the index, and from the start *)
Definition cc_block_ok (last i : Z) : bool :=
  opt_test (λ v, (0 <=? index_pos i v) && (index_pos i v <=? zlen unicode_cc_table) &&
    opt_test (λ fin, last <=? fin) (cc_walk (S (length unicode_cc_table)) (zdrop (index_pos i v) unicode_cc_table) (index_code v)))
    (get_le24 unicode_cc_index (i * 3)).
Definition cc_index_ok : bool :=
  let n := zlen unicode_cc_index / 3 in
  opt_test (λ last, forall_range (cc_block_ok last) 0 (Z.to_nat (n - 1)) &&
    opt_test (λ v, opt_test (λ fin, index_code v <=? fin) (cc_walk (S (length unicode_cc_table)) unicode_cc_table 0))
      (get_le24 unicode_cc_index 0)) (get_le24 unicode_cc_index ((n - 1) * 3)).
Lemma cc_index_checked : cc_index_ok = true.
Proof. vm_compute. reflexivity. Qed.
Lemma cc_index_length : 3 * (zlen unicode_cc_index / 3) <= zlen unicode_cc_index ∧ 2 <= zlen unicode_cc_index / 3.
Proof. vm_compute. by split. Qed.
Lemma unicode_get_cc_total c : 0 <= c → ∃ v, unicode_get_cc c = Some v ∧ 0 <= v <= 255.
Proof.
  intros Hc. pose proof cc_index_checked as H. unfold cc_index_ok in H. cbv zeta in H.
  set (n := zlen unicode_cc_index / 3) in *. pose proof cc_index_length as [Hn Hn2]. fold n in Hn, Hn2.
  apply opt_test_Some in H as (last & Elast & [Hblocks H0]%andb_true_iff).
  apply opt_test_Some in H0 as (v0 & E0 & H0). apply opt_test_Some in H0 as (fin0 & Ew0 & Hfin0%Z.leb_le).
  unfold unicode_get_cc, get_index_pos. fold n. rewrite E0. cbn [mbind option_bind].
  change (v0 .& _) with (index_code v0). destruct (Z.ltb_spec c (index_code v0)).
  { destruct (Z.ltb_spec 0 0); [lia|]. apply (cc_loop_total _ _ c 0 fin0 Ew0 ltac:(lia) ltac:(lia) _ []); [lia|done]. }
  rewrite Elast. cbn [mbind option_bind]. rewrite Z.geb_leb. destruct (Z.leb_spec last c); [exists 0; split; [reflexivity|lia]|].
  destruct (index_search_spec (S (length unicode_cc_index)) c unicode_cc_index 0 (n - 1) v0 n) as (i & w & E & Hi & Hw & Hwc);
    [lia|lia|lia|unfold zlen in *; lia|done|done|].
  rewrite E. cbn [mbind option_bind]. rewrite Hw. cbn [mbind option_bind].
  pose proof (forall_range_spec _ _ _ Hblocks i ltac:(lia)) as Hb. unfold cc_block_ok in Hb. rewrite Hw in Hb. cbn [opt_test] in Hb.
  apply andb_true_iff in Hb as [[Hp%Z.leb_le Hpl%Z.leb_le]%andb_true_iff Hb].
  apply opt_test_Some in Hb as (fin & Ew & Hfin%Z.leb_le).
  change (w .& _) with (index_code w) in *. change ((i + 1) * UNICODE_INDEX_BLOCK_LEN + (w >> 21)) with (index_pos i w) in *.
  destruct (Z.ltb_spec (index_pos i w) 0); [lia|].
  assert (0 <= index_code w) by (unfold index_code; apply Z.land_nonneg; right; done).
  destruct (cc_loop_total _ _ c (index_code w) fin Ew ltac:(lia) ltac:(lia) (S (length unicode_cc_table))
    (ztake (index_pos i w) unicode_cc_table)) as (v & Ev & Hv).
  - unfold zdrop. rewrite length_drop. lia.
  - symmetry. apply ztake_zdrop.
  - rewrite zlen_ztake in Ev by lia. eauto.
Qed.
(** the combining class, as a function *)
Definition ccc (c : Z) : Z := match unicode_get_cc c with Some v => v | None => 0 end.
Lemma get_cc_eq c : 0 <= c → unicode_get_cc c = Some (ccc c).
Proof. intros Hc. unfold ccc. by destruct (unicode_get_cc_total c Hc) as (v & -> & _). Qed.
Lemma ccc_range c : 0 <= c → 0 <= ccc c <= 255.
Proof. intros Hc. unfold ccc. by destruct (unicode_get_cc_total c Hc) as (v & -> & ?). Qed.

(** ** [sort_cc] computes the canonical order *)
Notation chars := (Forall (λ c, 0 <= c)).

(** the characters of a higher class move up by one; [h] is overwritten *)
Lemma sort_shift_spec cc1 fuel (run a b : list Z) h :
  chars run → (length run < fuel)%nat →
  ∃ r1 r2 h', run = r1 ++ r2 ∧ Forall (λ y, cc1 < ccc y) r2 ∧ (∀ y, last r1 = Some y → ccc y <= cc1) ∧
    sort_shift fuel (a ++ run ++ h :: b) (zlen (a ++ run) - 1) (zlen a) cc1 =
      Some (a ++ r1 ++ h' :: r2 ++ b, zlen (a ++ r1) - 1).
Proof.
  revert b h fuel. induction run as [|y run IH] using rev_ind; intros b h fuel Hr Hf.
  - destruct fuel as [|fuel]; [cbn in Hf; lia|]. exists [], [], h. split; [done|]. split; [done|]. split; [done|].
    cbn [sort_shift app]. rewrite app_nil_r, Z.geb_leb. destruct (Z.leb_spec (zlen a) (zlen a - 1)); [lia|done].
  - apply Forall_app in Hr as [Hr Hy]. apply Forall_cons in Hy as [Hy _]. rewrite length_app in Hf. cbn [length] in Hf.
    destruct fuel as [|fuel]; [lia|]. cbn [sort_shift]. rewrite Z.geb_leb. autorewrite with zlen.
    pose proof (zlen_nonneg run). destruct (Z.leb_spec (zlen a) (zlen a + (zlen run + (1 + 0)) - 1)); [|lia].
    replace (zlen a + (zlen run + (1 + 0)) - 1) with (zlen (a ++ run)) by (autorewrite with zlen; lia).
    assert (a ++ (run ++ [y]) ++ h :: b = (a ++ run) ++ y :: h :: b) as -> by (by rewrite <- !app_assoc).
    rewrite aget_app_at. cbn [mbind option_bind]. rewrite get_cc_eq by done. cbn [mbind option_bind].
    destruct (Z.leb_spec (ccc y) cc1).
    + exists (run ++ [y]), [], h. split; [by rewrite app_nil_r|]. split; [done|]. split; [by rewrite last_snoc; intros ? [= <-]|].
      cbn [app]. rewrite <- !app_assoc. do 2 f_equal. autorewrite with zlen. lia.
    + rewrite aset_app_off, aset_1 by lia. cbn [mbind option_bind].
      destruct (IH (y :: b) y fuel Hr ltac:(lia)) as (r1 & r2 & h' & -> & Hhi & Hlo & E).
      exists r1, (r2 ++ [y]), h'. split; [by rewrite app_assoc|]. split; [by apply Forall_app; split; [|constructor]|].
      split; [done|]. rewrite <- (app_assoc r2), <- (app_assoc a). exact E.
Qed.
(** inserting into a run that follows a starter *)
Lemma ins_run x a r1 r2 :
  0 < ccc x → Forall (λ y, ccc x < ccc y) r2 → (∀ y, last r1 = Some y → ccc y <= ccc x) →
  (∀ y, last a = Some y → ccc y = 0) →
  ins ccc x (rev (a ++ r1 ++ r2)) = rev (a ++ r1 ++ x :: r2).
Proof.
  intros Hx Hhi Hlo Ha. rewrite !app_assoc, !rev_app_distr. cbn [rev]. rewrite <- (app_assoc _ [x]). cbn [app].
  assert (ins ccc x (rev (a ++ r1)) = x :: rev (a ++ r1)) as Hstop.
  { apply ins_in_order. intros y Hy. unfold in_order. enough (ccc y <= ccc x) by lia. rewrite rev_app_distr in Hy.
    destruct r1 as [|z r1 _] using rev_ind.
    - cbn [rev app] in Hy. destruct a as [|w a _] using rev_ind; [done|]. rewrite rev_app_distr in Hy. injection Hy as ->.
      rewrite (Ha y) by (by rewrite last_snoc). lia.
    - rewrite rev_app_distr in Hy. injection Hy as ->. apply Hlo. by rewrite last_snoc. }
  apply Forall_rev in Hhi. rewrite <- rev_app_distr. induction Hhi as [|y l Hy _ IH]; [done|]. cbn [app ins].
  destruct (Z.ltb_spec 0 (ccc x)), (Z.ltb_spec (ccc x) (ccc y)); try lia. cbn [andb]. by rewrite IH.
Qed.
Lemma sort_run_spec fuel (a run rest : list Z) done_ :
  chars (a ++ run ++ rest) → (length rest < fuel)%nat → (∀ y, last a = Some y → ccc y = 0) →
  inserts ccc [] done_ = rev (a ++ run) →
  ∃ run' rest' more, rest = more ++ rest' ∧ (∀ y, head rest' = Some y → ccc y = 0) ∧
    inserts ccc [] (done_ ++ more) = rev (a ++ run') ∧ length run' = (length run + length more)%nat ∧ chars run' ∧
    sort_run fuel (a ++ run ++ rest) (zlen (a ++ run ++ rest)) (zlen a) (zlen (a ++ run)) =
      Some (a ++ run' ++ rest', zlen (a ++ run')).
Proof.
  revert run rest done_. induction fuel as [|fuel IH]; intros run rest done_ Hc Hf Ha Hd; [lia|].
  cbn [sort_run]. destruct rest as [|x rest].
  - rewrite app_nil_r, Z.ltb_irrefl. exists run, [], []. rewrite !app_nil_r. split; [done|]. split; [done|].
    rewrite !Forall_app in Hc. destruct Hc as (_ & Hc & _). split; [done|]. split; [cbn; lia|]. by split.
  - assert (chars a ∧ chars run ∧ 0 <= x ∧ chars rest) as (Hca & Hcr & Hcx & Hcs)
      by (rewrite !Forall_app, Forall_cons in Hc; tauto).
    rewrite (app_assoc a run), (zlen_app (a ++ run)), zlen_cons. pose proof (zlen_nonneg rest).
    destruct (Z.ltb_spec (zlen (a ++ run)) (zlen (a ++ run) + (1 + zlen rest))); [|lia].
    rewrite aget_app_at. cbn [mbind option_bind]. rewrite get_cc_eq by done. cbn [mbind option_bind].
    destruct (Z.eqb_spec (ccc x) 0) as [Ez|Hnz].
    { exists run, (x :: rest), []. rewrite app_nil_r, <- app_assoc. split; [done|]. split; [by intros y [= <-]|].
      split; [done|]. split; [cbn; lia|]. by split. }
    pose proof (ccc_range x Hcx). rewrite <- (app_assoc a).
    destruct (sort_shift_spec (ccc x) (Datatypes.S (length (a ++ run ++ x :: rest))) run a rest x Hcr)
      as (r1 & r2 & h' & -> & Hhi & Hlo & E); [rewrite !length_app; lia|].
    rewrite E. cbn [mbind option_bind]. replace (zlen (a ++ r1) - 1 + 1) with (zlen (a ++ r1)) by lia.
    rewrite (app_assoc a r1 (h' :: _)), aset_app_at. cbn [mbind option_bind].
    assert (Permutation (r1 ++ x :: r2) (x :: r1 ++ r2)) as Hp by (symmetry; apply Permutation_middle).
    destruct (IH (r1 ++ x :: r2) rest (done_ ++ [x])) as (run' & rest' & more & -> & Hh & Hi & Hl & Hcrun & E2).
    + apply Forall_app in Hcr as [Hcr1 Hcr2]. repeat (apply Forall_app; split); [done..| |done]. by constructor.
    + cbn in Hf. lia.
    + done.
    + rewrite inserts_app, Hd. cbn [inserts fold_left]. apply ins_run; [lia|done..].
    + exists run', rest', (x :: more). split; [done|]. split; [done|].
      split; [rewrite <- Hi; by rewrite <- app_assoc|]. split; [rewrite Hl, Hp; cbn [length]; lia|]. split; [done|].
      rewrite <- E2. f_equal; rewrite ?zlen_app, <- ?app_assoc; cbn [app]; rewrite <- ?app_assoc; try done;
        autorewrite with zlen; lia.
Qed.
Lemma inserts_in_order (a : list Z) x done_ :
  inserts ccc [] done_ = rev a → ccc x = 0 ∨ (∀ y, last a = Some y → ccc y = 0) →
  inserts ccc [] (done_ ++ [x]) = rev (a ++ [x]).
Proof.
  intros Hd Hx. rewrite inserts_app, Hd. cbn [inserts fold_left]. rewrite ins_in_order; [by rewrite rev_app_distr|].
  intros y Hy. unfold in_order. destruct Hx as [Hx|Hx]; [lia|]. rewrite (Hx y); [lia|].
  destruct a as [|z a _] using rev_ind; [done|]. rewrite rev_app_distr in Hy. by rewrite last_snoc.
Qed.
Lemma sort_loop_spec fuel (a rest : list Z) done_ :
  chars (a ++ rest) → (length rest < fuel)%nat → (∀ y, last a = Some y → ccc y = 0) →
  inserts ccc [] done_ = rev a →
  sort_loop fuel (a ++ rest) (zlen (a ++ rest)) (zlen a) = Some (rev (inserts ccc [] (done_ ++ rest))).
Proof.
  revert a rest done_. induction fuel as [|fuel IH]; intros a rest done_ Hc Hf Ha Hd; [lia|].
  cbn [sort_loop]. destruct rest as [|x rest].
  - rewrite !app_nil_r, Z.ltb_irrefl. by rewrite Hd, rev_involutive.
  - pose proof Hc as [Hca [Hcx Hcr]%Forall_cons]%Forall_app. cbn [length] in Hf.
    rewrite zlen_app, zlen_cons. pose proof (zlen_nonneg rest).
    destruct (Z.ltb_spec (zlen a) (zlen a + (1 + zlen rest))); [|lia].
    rewrite aget_app_at. cbn [mbind option_bind]. rewrite get_cc_eq by done. cbn [mbind option_bind].
    destruct (Z.eqb_spec (ccc x) 0) as [Ez|Hnz]; cbn [negb].
    + specialize (IH (a ++ [x]) rest (done_ ++ [x])). rewrite <- !app_assoc in IH. cbn [app] in IH.
      rewrite <- IH; [by rewrite !zlen_app, zlen_cons|done|lia|by rewrite last_snoc; intros y [= <-]|].
      apply inserts_in_order; auto.
    + destruct (sort_run_spec (Datatypes.S (length (a ++ x :: rest))) a [x] rest (done_ ++ [x]))
        as (run' & rest' & more & -> & Hh & Hi & Hl & Hcrun & E);
        [done|rewrite length_app; cbn; lia|done|by apply inserts_in_order; auto|].
      cbn [app] in E. rewrite (zlen_app a [x]), (zlen_app a (x :: _)), zlen_cons in E.
      change (zlen [x]) with 1 in E. rewrite E. cbn [mbind option_bind]. clear E.
      rewrite <- app_assoc in Hi. cbn [app] in Hi.
      assert (zlen a + (1 + zlen (more ++ rest')) = zlen (a ++ run' ++ rest')) as ->.
      { autorewrite with zlen. unfold zlen. rewrite Hl. cbn [length]. lia. }
      destruct rest' as [|s rest'].
      * destruct fuel as [|fuel]; [rewrite length_app in Hf; lia|]. cbn [sort_loop]. rewrite app_nil_r.
        destruct (Z.ltb_spec (zlen (a ++ run') + 1) (zlen (a ++ run'))); [lia|].
        by rewrite app_nil_r, Hi, rev_involutive.
      * specialize (IH ((a ++ run') ++ [s]) rest' ((done_ ++ x :: more) ++ [s])).
        rewrite <- !app_assoc in IH. cbn [app] in IH. rewrite length_app in Hf. cbn [length] in Hf.
        rewrite <- IH.
        -- by rewrite (app_assoc a run' [s]), (zlen_app (a ++ run') [s]).
        -- apply Forall_app in Hcr as [_ Hcs]. by repeat (apply Forall_app; split).
        -- lia.
        -- rewrite app_assoc, last_snoc. intros y [= <-]. by apply Hh.
        -- rewrite (app_assoc a), (app_comm_cons _ _ x), app_assoc. apply inserts_in_order; [done|]. left. by apply Hh.
Qed.
Lemma sort_cc_spec buf : chars buf → sort_cc buf (zlen buf) = Some (order ccc buf).
Proof. intros Hb. apply (sort_loop_spec _ [] buf []); [done|lia|done|done]. Qed.

(** C21: [sort_cc] is the Canonical Ordering Algorithm of Unicode: its result is
    reached by exchanging adjacent characters whose combining classes are
    positive and decrease, and in the result nothing can be exchanged. *)
Theorem sort_cc_canonical buf :
  Forall (λ c, 0 <= c) buf →
  ∃ buf', sort_cc buf (zlen buf) = Some buf' ∧ rtc (exchange ccc) buf buf' ∧ ∀ l, ¬ exchange ccc buf' l.
Proof.
  intros Hb. exists (order ccc buf). split; [by apply sort_cc_spec|]. split; [apply order_reach|].
  intros l. apply ordered_stuck, order_ordered.
Qed.
(** a dot above, a dot below *)
Lemma sort_cc_canonical_witness :
  ∃ buf', sort_cc [0x73; 0x307; 0x323] 3 = Some buf' ∧ rtc (exchange ccc) [0x73; 0x307; 0x323] buf' ∧
    ∀ l, ¬ exchange ccc buf' l.
Proof. apply (sort_cc_canonical [0x73; 0x307; 0x323]). repeat constructor; done. Defined.
