(* ===== verification/NormCompose.v ===== *)
(** * Composition of pairs

    [unicode_comp_table] lists the composites in the order of their pairs, as
    entries of the decomposition tables; [unicode_compose_pair] searches it.
    Composing inverts decomposing: a composite decomposes to its pair. *)
From stdpp Require Import gmap.
From S2P Require Import Prelude Alloc Cutils DynBuf UnicodeTables TableSearch CaseConv RunTable NormTables Normalize.
From S2P Require Import NormDecomp NormOrder.

(** unfolding the maps would evaluate the tables *)
Opaque dmap.

Definition comp_entries : option (list (Z * Z * Z)) := mapM comp_entry unicode_comp_table.
Definition comp_list : list (Z * Z * Z) := default [] comp_entries.
(** the order of the pairs *)
Definition pair_lt (a b : Z * Z) : Prop := a.1 < b.1 ∨ a.1 = b.1 ∧ a.2 < b.2.
Definition pair_ltb (a b : Z * Z) : bool := (a.1 <? b.1) || ((a.1 =? b.1) && (a.2 <? b.2)).
Definition code_point (c : Z) : bool := (0 <=? c) && (c <=? 0x10ffff).
(** a composite: its decomposition is its pair, and it is a starter like the
    first of its pair (U+0344 is not, which starts with U+0308); the second of
    a pair is not in Latin-1 *)
Definition comp_ok (m : gmap Z (list Z)) (e : Z * Z * Z) : bool :=
  let '(ch, p0, p1) := e in
  (0 <? ch) && code_point ch && code_point p0 && code_point p1 && (0x100 <=? p1) && negb (hangul ch) &&
  bool_decide (m !! ch = Some [p0; p1]) && ((ccc ch =? 0) || negb (ccc p0 =? 0)).
Fixpoint comp_sorted (k : Z * Z) (l : list (Z * Z * Z)) : bool :=
  match l with [] => true | (_, p0, p1) :: l => pair_ltb k (p0, p1) && comp_sorted (p0, p1) l end.
Definition comp_table_ok : bool :=
  match comp_entries with Some l => forallb (comp_ok (dmap 0)) l && comp_sorted (-1, -1) l | None => false end.
Lemma comp_table_checked : comp_table_ok = true.
Proof. vm_compute. reflexivity. Qed.

(** ** All Hangul syllables are starters: they are in one run of one block *)
Definition same_side (lo hi x : Z) : bool := (x <=? lo) || (hi <=? x).
Lemma same_side_ltb lo hi x c : same_side lo hi x = true → lo <= c < hi → (c <? x) = (lo <? x).
Proof.
  unfold same_side. rewrite orb_true_iff, !Z.leb_le. intros Hx Hc. destruct (Z.ltb_spec c x), (Z.ltb_spec lo x); lia || done.
Qed.
Lemma index_search_same lo hi c index n :
  forall_range (λ i, opt_test (λ v, same_side lo hi (index_code v)) (get_le24 index (i * 3))) 0 (Z.to_nat n) = true →
  lo <= c < hi → ∀ fuel a b, 0 <= a <= b → b < n → index_search fuel c index a b = index_search fuel lo index a b.
Proof.
  intros Hall Hc. induction fuel as [|fuel IH]; intros a b Hab Hb; [done|]. cbn [index_search]. rewrite Z.gtb_ltb.
  destruct (Z.ltb_spec 1 (b - a)); [|done].
  assert (a <= (b + a) / 2 <= b) as Hm by (split; [apply Z.div_le_lower_bound|apply Z.div_le_upper_bound]; lia).
  set (m := (b + a) / 2) in *.
  pose proof (forall_range_spec _ _ _ Hall m ltac:(lia)) as Hm'. cbn beta in Hm'.
  apply opt_test_Some in Hm' as (v & -> & Hv). cbn [mbind option_bind]. change (v .& _) with (index_code v).
  rewrite (same_side_ltb _ _ _ _ Hv Hc). destruct (lo <? index_code v); apply IH; lia.
Qed.
(** the run that holds [lo] reaches to [hi], with the same class everywhere *)
Fixpoint cc_flat (fuel : nat) (lo hi p code : Z) : bool :=
  match fuel with
  | O => false
  | S fuel =>
    opt_test (λ b,
      let p := p + 1 in
      let type := b >> 6 in
      let n := b .& 0x3f in
      opt_test (λ r : Z * Z,
        let '(n, p) := r in
        let p := if type <=? 1 then p + 1 else p in
        let c1 := u32 (code + n + 1) in
        if lo <? c1 then (hi <=? c1) && negb (type =? 1) else cc_flat fuel lo hi p c1)
      (if n <? 48 then Some (n, p)
       else if n <? 56 then
         b1 ← unicode_cc_table.[p]; Some ((((n - 48) << 8) .| b1) + 48, p + 1)
       else
         b1 ← unicode_cc_table.[p]; b2 ← unicode_cc_table.[p + 1];
         Some ((((n - 56) << 8) .| (b1 << 8) .| b2) + (48 + (1 << 11)), p + 2))) (unicode_cc_table.[p])
  end.
Lemma cc_loop_same lo hi c fuel p code :
  cc_flat fuel lo hi p code = true → lo <= c < hi → cc_loop fuel c p code = cc_loop fuel lo p code.
Proof.
  intros H Hc. revert p code H. induction fuel as [|fuel IH]; intros p code H; [done|]. cbn [cc_flat cc_loop] in *.
  apply opt_test_Some in H as (b & -> & H). cbn [mbind option_bind]. cbv zeta in H.
  apply opt_test_Some in H as ([n p'] & -> & H). cbn [mbind option_bind].
  destruct (Z.ltb_spec lo (u32 (code + n + 1))) as [Hlo|Hlo].
  - apply andb_true_iff in H as [Hhi%Z.leb_le Ht%negb_true_iff].
    destruct (Z.ltb_spec c (u32 (code + n + 1))); [|lia]. by rewrite Ht.
  - destruct (Z.ltb_spec c (u32 (code + n + 1))); [lia|]. by apply IH.
Qed.
Definition hangul_cc_ok : bool :=
  let n := zlen unicode_cc_index / 3 in
  let lo := 0xac00 in let hi := 0xac00 + 11172 in
  forall_range (λ i, opt_test (λ v, same_side lo hi (index_code v)) (get_le24 unicode_cc_index (i * 3))) 0 (Z.to_nat n) &&
  opt_test (same_side lo hi) (get_le24 unicode_cc_index ((n - 1) * 3)) &&
  opt_test (λ r : Z * Z, cc_flat (S (length unicode_cc_table)) lo hi r.1 r.2) (get_index_pos lo unicode_cc_index n) &&
  (ccc lo =? 0).
Lemma hangul_cc_checked : hangul_cc_ok = true.
Proof. vm_compute. reflexivity. Qed.
Lemma hangul_cc c : hangul c = true → ccc c = 0.
Proof.
  intros Hc. assert (0xac00 <= c < 0xac00 + 11172) as Hr.
  { unfold hangul in Hc. apply andb_true_iff in Hc as [H1 H2]. rewrite Z.geb_leb in H1. apply Z.leb_le in H1. apply Z.ltb_lt in H2. lia. }
  pose proof hangul_cc_checked as H. unfold hangul_cc_ok in H. cbv zeta in H.
  apply andb_true_iff in H as [[[Hs Hl]%andb_true_iff Hf]%andb_true_iff H0%Z.eqb_eq].
  enough (unicode_get_cc c = unicode_get_cc 0xac00) as E by (unfold ccc in *; by rewrite E).
  pose proof cc_index_length as [Hn Hn2]. unfold unicode_get_cc. set (n := zlen unicode_cc_index / 3) in *.
  assert (get_index_pos c unicode_cc_index n = get_index_pos 0xac00 unicode_cc_index n) as ->.
  { unfold get_index_pos. pose proof (forall_range_spec _ _ _ Hs 0 ltac:(lia)) as Hv0. cbn beta in Hv0.
    change (0 * 3) with 0 in Hv0. apply opt_test_Some in Hv0 as (v0 & -> & Hv0). cbn [mbind option_bind].
    change (v0 .& _) with (index_code v0). rewrite (same_side_ltb _ _ _ _ Hv0 Hr).
    apply opt_test_Some in Hl as (vl & -> & Hl). cbn [mbind option_bind].
    rewrite !Z.geb_leb, !Z.leb_antisym, (same_side_ltb _ _ _ _ Hl Hr).
    rewrite (index_search_same _ _ _ _ _ Hs Hr) by lia. done. }
  apply opt_test_Some in Hf as ([p code] & -> & Hf). cbn [mbind option_bind fst snd] in *.
  destruct (p <? 0); [done|]. by apply (cc_loop_same _ _ _ _ _ _ Hf).
Qed.

(** ** The search *)
Lemma pair_ltb_spec a b : pair_ltb a b = true ↔ pair_lt a b.
Proof. unfold pair_ltb, pair_lt. rewrite orb_true_iff, andb_true_iff, !Z.ltb_lt, Z.eqb_eq. done. Qed.
Lemma pair_lt_trans a b c : pair_lt a b → pair_lt b c → pair_lt a c.
Proof. unfold pair_lt. lia. Qed.
Definition key (e : Z * Z * Z) : Z * Z := (e.1.2, e.2).
Lemma comp_sorted_spec k l :
  comp_sorted k l = true → Forall (λ e, pair_lt k (key e)) l ∧ StronglySorted (λ e f, pair_lt (key e) (key f)) l.
Proof.
  revert k. induction l as [|[[ch p0] p1] l IH]; intros k H; [by split; constructor|].
  cbn [comp_sorted] in H. apply andb_true_iff in H as [Hk%pair_ltb_spec H]. destruct (IH _ H) as [H1 H2]. split.
  - constructor; [done|]. eapply Forall_impl; [exact H1|]. intros e He. by eapply pair_lt_trans.
  - by constructor.
Qed.
Lemma comp_entries_eq : comp_entries = mapM comp_entry unicode_comp_table.
Proof. unfold comp_entries. reflexivity. Qed.
Opaque comp_entries.
Lemma comp_entries_ok m o :
  match o with Some l => forallb (comp_ok m) l && comp_sorted (-1, -1) l | None => false end = true →
  o = Some (default [] o) ∧ Forall (λ e, comp_ok m e = true) (default [] o) ∧
  StronglySorted (λ e f, pair_lt (key e) (key f)) (default [] o).
Proof.
  destruct o as [l|]; [|done]. intros [H1 H2]%andb_true_iff. cbn [from_option id]. split; [done|]. split; [|by eapply comp_sorted_spec].
  apply Forall_forall. intros e He. rewrite forallb_forall in H1. by apply H1, list_elem_of_In.
Qed.
Lemma comp_list_ok :
  comp_entries = Some comp_list ∧ Forall (λ e, comp_ok (dmap 0) e = true) comp_list ∧
  StronglySorted (λ e f, pair_lt (key e) (key f)) comp_list.
Proof. apply (comp_entries_ok (dmap 0)), comp_table_checked. Qed.
Lemma comp_entry_at i e : comp_list.[i] = Some e → ∃ x, unicode_comp_table.[i] = Some x ∧ comp_entry x = Some e.
Proof.
  destruct comp_list_ok as [Hm _]. rewrite comp_entries_eq in Hm. apply mapM_Some_1 in Hm. unfold aget. destruct (i <? 0); [discriminate|].
  intros He. destruct (Forall2_lookup_r _ _ _ _ _ Hm He) as (x & Hx & E). clear Hm. exists x. split; [exact Hx|exact E].
Qed.
Lemma comp_list_len : zlen comp_list = zlen unicode_comp_table.
Proof.
  destruct comp_list_ok as [Hm _]. rewrite comp_entries_eq in Hm. apply mapM_Some_1, Forall2_length in Hm. unfold zlen. rewrite Hm. reflexivity.
Qed.
Lemma comp_ok_spec m ch p0 p1 :
  comp_ok m (ch, p0, p1) = true →
  0 < ch <= 0x10ffff ∧ 0 <= p0 <= 0x10ffff ∧ 0x100 <= p1 <= 0x10ffff ∧ hangul ch = false ∧
  m !! ch = Some [p0; p1] ∧ (ccc p0 = 0 → ccc ch = 0).
Proof.
  unfold comp_ok, code_point. intros H. repeat (apply andb_true_iff in H as [H ?]).
  repeat match goal with
  | H : _ && _ = true |- _ => apply andb_true_iff in H as [? ?]
  | H : (_ <=? _) = true |- _ => apply Z.leb_le in H
  | H : (_ <? _) = true |- _ => apply Z.ltb_lt in H
  | H : negb (hangul _) = true |- _ => apply negb_true_iff in H
  | H : bool_decide _ = true |- _ => apply bool_decide_eq_true in H
  end.
  split; [lia|]. split; [lia|]. split; [lia|]. split; [assumption|]. split; [assumption|].
  intros E. rewrite E in *. destruct (Z.eqb_spec (ccc ch) 0); [assumption|discriminate].
Qed.
Lemma sorted_lookup_lt {A} (R : A → A → Prop) l i j x y :
  StronglySorted R l → l.[i] = Some x → l.[j] = Some y → i < j → R x y.
Proof.
  intros Hs. revert i j. induction Hs as [|z l Hs IH Hz]; intros i j Hi Hj Hij.
  - by apply aget_Some_range in Hi; unfold zlen in Hi; cbn in Hi; lia.
  - pose proof (aget_Some_range _ _ _ Hi). rewrite aget_cons_pos in Hj by lia. destruct (decide (i = 0)) as [->|].
    + injection Hi as ->. rewrite Forall_forall in Hz. apply Hz. unfold aget in Hj. destruct (_ <? 0); [done|].
      by eapply list_elem_of_lookup_2.
    + rewrite aget_cons_pos in Hi by lia. by apply (IH (i - 1) (j - 1)); [..|lia].
Qed.
Lemma i32_small v : - 2 ^ 31 <= v < 2 ^ 31 → i32 v = v.
Proof. intros Hv. unfold i32. rewrite Z.mod_small by lia. lia. Qed.

Lemma elem_of_aget {A} (l : list A) x : x ∈ l → ∃ i, l.[i] = Some x.
Proof. intros [i Hi]%list_elem_of_lookup. exists (Z.of_nat i). by rewrite aget_nat. Qed.
Definition point (c : Z) : Prop := 0 <= c <= 0x10ffff.
Lemma compose_search_spec c0 c1 fuel lo hi :
  point c0 → point c1 → 0 <= lo <= hi + 1 → hi < zlen comp_list → hi - lo + 1 < Z.of_nat fuel →
  (∀ i e, comp_list.[i] = Some e → i < lo → pair_lt (key e) (c0, c1)) →
  (∀ i e, comp_list.[i] = Some e → hi < i → pair_lt (c0, c1) (key e)) →
  ∃ r, compose_search fuel c0 c1 lo hi = Some r ∧ (r = 0 ∨ (r, c0, c1) ∈ comp_list) ∧
    ∀ ch, (ch, c0, c1) ∈ comp_list → r = ch.
Proof.
  intros Hc0 Hc1. destruct comp_list_ok as (_ & Hok & Hs). rewrite Forall_forall in Hok. unfold point in *.
  revert lo hi. induction fuel as [|fuel IH]; intros lo hi Hlo Hhi Hf Hbelow Habove; [lia|].
  cbn [compose_search]. destruct (Z.leb_spec lo hi).
  - assert (lo <= (hi + lo) / 2 <= hi) as Hm by (split; [apply Z.div_le_lower_bound|apply Z.div_le_upper_bound]; lia).
    set (m := (hi + lo) / 2) in *. destruct (aget_is_Some comp_list m) as [[[ch p0] p1] He]; [lia|].
    destruct (comp_entry_at m _ He) as (x & -> & Ex). cbn [mbind option_bind]. rewrite Ex. cbn [mbind option_bind].
    assert ((ch, p0, p1) ∈ comp_list) as Hin.
    { unfold aget in He. destruct (m <? 0); [done|]. by eapply list_elem_of_lookup_2. }
    destruct (comp_ok_spec _ _ _ _ (Hok _ Hin)) as (_ & Hp0 & Hp1 & _).
    rewrite !i32_small by lia.
    set (d := if c0 - p0 =? 0 then c1 - p1 else c0 - p0).
    assert ((d < 0 → pair_lt (c0, c1) (p0, p1)) ∧ (0 < d → pair_lt (p0, p1) (c0, c1)) ∧ (d = 0 → c0 = p0 ∧ c1 = p1))
      as (Hd1 & Hd2 & Hd3).
    { subst d. unfold pair_lt. cbn [fst snd]. destruct (Z.eqb_spec (c0 - p0) 0); lia. }
    rewrite Z.gtb_ltb. destruct (Z.ltb_spec d 0); [|destruct (Z.ltb_spec 0 d)].
    + apply IH; [lia|lia|lia|done|]. intros i e Hi Hlt. destruct (decide (i = m)) as [->|].
      * rewrite He in Hi. injection Hi as <-. apply Hd1. lia.
      * eapply pair_lt_trans; [apply Hd1; lia|]. apply (sorted_lookup_lt _ _ m i _ _ Hs He Hi). lia.
    + apply IH; [lia|lia|lia| |done]. intros i e Hi Hlt. destruct (decide (i = m)) as [->|].
      * rewrite He in Hi. injection Hi as <-. apply Hd2. lia.
      * eapply pair_lt_trans; [apply (sorted_lookup_lt _ _ i m _ _ Hs Hi He); lia|]. apply Hd2. lia.
    + destruct Hd3 as [-> ->]; [lia|]. exists ch. split; [done|]. split; [by right|].
      intros ch' (j & Hj)%elem_of_aget. destruct (Ztrichotomy j m) as [Hlt|[->|Hgt]]; [|congruence|].
      * pose proof (sorted_lookup_lt _ _ j m _ _ Hs Hj He ltac:(lia)) as Hl. unfold pair_lt, key in Hl. cbn in Hl. lia.
      * pose proof (sorted_lookup_lt _ _ m j _ _ Hs He Hj ltac:(lia)) as Hl. unfold pair_lt, key in Hl. cbn in Hl. lia.
  - exists 0. split; [done|]. split; [by left|]. intros ch (j & Hj)%elem_of_aget. exfalso.
    destruct (Z.ltb_spec j lo) as [Hjl|Hjl]; [pose proof (Hbelow j _ Hj Hjl) as Hl|pose proof (Habove j _ Hj ltac:(lia)) as Hl];
      unfold pair_lt, key in Hl; cbn in Hl; lia.
Qed.
Lemma unicode_compose_pair_spec c0 c1 :
  point c0 → point c1 →
  ∃ r, unicode_compose_pair c0 c1 = Some r ∧ (r = 0 ∨ (r, c0, c1) ∈ comp_list) ∧ ∀ ch, (ch, c0, c1) ∈ comp_list → r = ch.
Proof.
  intros Hc0 Hc1. unfold unicode_compose_pair. rewrite <- comp_list_len. apply compose_search_spec; [done..|pose proof (zlen_nonneg comp_list); lia|lia| | |].
  - pose proof comp_list_len. unfold zlen in *. lia.
  - intros i e Hi ?. apply aget_Some_range in Hi. lia.
  - intros i e Hi ?. apply aget_Some_range in Hi. lia.
Qed.

(** ** Composing inverts decomposing *)
Lemma full_map_unfold n m c :
  full_map (S n) m c =
    if hangul c then Some (hangul_decomp c)
    else match default [] (m !! c) with [] => Some [c] | l => ls ← mapM (full_map n m) l; Some (concat ls) end.
Proof. reflexivity. Qed.
Lemma full_map_S n m c l : full_map n m c = Some l → full_map (S n) m c = Some l.
Proof.
  revert c l. induction n as [|n IH]; intros c l H; [done|].
  rewrite full_map_unfold in H |- *.
  destruct (hangul c); [done|]. destruct (default [] (m !! c)) as [|x xs]; [done|].
  apply bind_Some in H as (ls & Hls & H). enough (mapM (full_map (S n) m) (x :: xs) = Some ls) as -> by done.
  apply mapM_Some_1 in Hls. apply mapM_Some_2. eapply Forall2_impl; [exact Hls|]. apply IH.
Qed.
(** a composite decomposes like its pair *)
Lemma full_map_pair m n ch p0 p1 l l0 l1 :
  hangul ch = false → m !! ch = Some [p0; p1] →
  full_map (S n) m ch = Some l → full_map (S n) m p0 = Some l0 → full_map (S n) m p1 = Some l1 → l = l0 ++ l1.
Proof.
  intros Hh Hm Ech E0 E1. rewrite full_map_unfold, Hh, Hm in Ech. cbn [from_option id] in Ech.
  apply bind_Some in Ech as (ls & Hls & [= <-]). apply mapM_Some_1 in Hls.
  inversion Hls as [|? k0 ? ? H0 Hls' Ea Eb]; subst. inversion Hls' as [|? k1 ? ? H1 Hls'' Ea Eb]; subst.
  inversion Hls''; subst. apply full_map_S in H0. apply full_map_S in H1.
  rewrite E0 in H0. rewrite E1 in H1. injection H0 as ->. injection H1 as ->. cbn [concat]. by rewrite app_nil_r.
Qed.
Lemma full_pair ch p0 p1 :
  point ch → point p0 → point p1 → hangul ch = false → dmap 0 !! ch = Some [p0; p1] →
  full 0 ch = full 0 p0 ++ full 0 p1.
Proof.
  intros Hch Hp0 Hp1 Hh Hm.
  destruct (full_spec 0 ch (or_introl eq_refl) Hch) as [Ech _].
  destruct (full_spec 0 p0 (or_introl eq_refl) Hp0) as [E0 _]. destruct (full_spec 0 p1 (or_introl eq_refl) Hp1) as [E1 _].
  exact (full_map_pair (dmap 0) 4 ch p0 p1 _ _ _ Hh Hm Ech E0 E1).
Qed.
Lemma full_jamo c : c ∈ jamo → full 0 c = [c].
Proof.
  intros Hc. apply full_irreducible. pose proof (dmap_ok_k 0 (or_introl eq_refl)) as H. unfold dmap_ok in H. cbv zeta in H.
  apply andb_true_iff in H as [_ H]. rewrite forallb_forall in H. by apply H, list_elem_of_In.
Qed.
Lemma full_hangul k c : hangul c = true → full k c = hangul_decomp c.
Proof. intros Hc. unfold full, NFD_DEPTH. cbn [full_map]. by rewrite Hc. Qed.
Lemma hangul_iff c : hangul c = true ↔ 0xac00 <= c < 0xac00 + 11172.
Proof. unfold hangul. rewrite andb_true_iff, Z.geb_leb, Z.leb_le, Z.ltb_lt. lia. Qed.
Lemma compose_lv c0 c1 :
  0x1100 <= c0 < 0x1100 + 19 → 0x1161 <= c1 < 0x1161 + 21 →
  let p := 0xac00 + (c0 - 0x1100) * 588 + (c1 - 0x1161) * 28 in
  hangul p = true ∧ hangul_decomp p = [c0; c1].
Proof.
  intros H0 H1 p. assert (p - 0xac00 = (c0 - 0x1100) * 588 + (c1 - 0x1161) * 28) as E by (subst p; lia).
  split; [apply hangul_iff; lia|]. unfold hangul_decomp. rewrite E. clear E p.
  set (l := c0 - 0x1100). set (v := c1 - 0x1161). assert (0 <= l < 19 ∧ 0 <= v < 21) as [Hl Hv] by lia.
  assert ((l * 588 + v * 28) mod 28 = 0) as -> by (replace (l * 588 + v * 28) with ((l * 21 + v) * 28) by lia; apply Z.mod_mul; lia).
  cbn [Z.eqb app]. assert ((l * 588 + v * 28) / 588 = l) as -> by (symmetry; apply (Z.div_unique _ _ _ (v * 28)); lia).
  assert ((l * 588 + v * 28) mod 588 = v * 28) as -> by (symmetry; apply (Z.mod_unique _ _ l); lia).
  rewrite Z.div_mul by lia. f_equal; [lia|]. f_equal. lia.
Qed.
Lemma compose_lvt c0 c1 :
  hangul c0 = true → (c0 - 0xac00) mod 28 = 0 → 0x11a7 < c1 < 0x11a7 + 28 →
  let p := c0 + c1 - 0x11a7 in
  hangul p = true ∧ hangul_decomp p = hangul_decomp c0 ++ [c1].
Proof.
  intros Hh%hangul_iff H0 H1 p. assert (p - 0xac00 = (c0 - 0xac00) + (c1 - 0x11a7)) as E by (subst p; lia).
  set (y := c0 - 0xac00) in *. assert (0 <= y < 11172) as Hy by lia. set (t := c1 - 0x11a7) in *. assert (0 < t < 28) as Ht by lia.
  pose proof (Z.div_mod y 28 ltac:(lia)) as Hq. rewrite H0 in Hq. set (q := y / 28) in *.
  assert (0 <= q < 399) as Hqr by lia. pose proof (Z.div_mod q 21 ltac:(lia)) as Hl. pose proof (Z.mod_pos_bound q 21 ltac:(lia)).
  split; [apply hangul_iff; lia|]. unfold hangul_decomp. rewrite E. fold y. rewrite H0. cbn [Z.eqb].
  assert ((y + t) mod 28 = t) as -> by (symmetry; apply (Z.mod_unique _ _ q); lia).
  destruct (Z.eqb_spec t 0); [lia|]. rewrite app_nil_r. cbn [app].
  set (l := q / 21) in *. set (v := q mod 21) in *.
  assert (y / 588 = l) as -> by (symmetry; apply (Z.div_unique _ _ _ (v * 28)); lia).
  assert (y mod 588 = v * 28) as -> by (symmetry; apply (Z.mod_unique _ _ l); lia).
  assert ((y + t) / 588 = l) as -> by (symmetry; apply (Z.div_unique _ _ _ (v * 28 + t)); lia).
  assert ((y + t) mod 588 = v * 28 + t) as -> by (symmetry; apply (Z.mod_unique _ _ l); lia).
  rewrite Z.div_mul by lia. assert ((v * 28 + t) / 28 = v) as -> by (symmetry; apply (Z.div_unique _ _ _ t); lia).
  subst t. do 3 f_equal. lia.
Qed.
(** the composite of a pair is a character that decomposes like the pair *)
Definition composes (c0 c1 p : Z) : Prop :=
  point p ∧ (c1 ≠ 0x11a7 → full 0 p = full 0 c0 ++ full 0 c1) ∧ (ccc c0 = 0 → ccc p = 0).
Lemma compose_pair_cases c0 c1 :
  point c0 → point c1 → ∃ p, compose_pair c0 c1 = Some p ∧ (p = 0 ∨ composes c0 c1 p).
Proof.
  intros Hc0 Hc1. unfold compose_pair. destruct ((c0 >=? 0x1100) && _ && _ && _) eqn:Elv.
  { bool_props. destruct (compose_lv c0 c1) as [Hh Hd]; [lia..|]. eexists. split; [reflexivity|]. right.
    split; [apply hangul_iff in Hh; unfold point; lia|]. split; [|intros _; by apply hangul_cc].
    intros _. rewrite (full_hangul _ _ Hh), Hd, !full_jamo; [done|..]; unfold jamo; rewrite !elem_of_app, !elem_of_seqZ; lia. }
  destruct ((c0 >=? 0xac00) && _ && _ && _ && _) eqn:Elvt.
  { bool_props. assert (hangul c0 = true) as Hh0 by (apply hangul_iff; lia). eexists. split; [reflexivity|]. right.
    destruct (decide (c1 = 0x11a7)) as [->|Hne].
    - replace (c0 + 0x11a7 - 0x11a7) with c0 by lia. split; [done|]. split; [done|]. intros _. by apply hangul_cc.
    - destruct (compose_lvt c0 c1) as [Hh Hd]; [done..|lia|]. split; [apply hangul_iff in Hh; unfold point; lia|].
      split; [|intros _; by apply hangul_cc]. intros _. rewrite (full_hangul _ _ Hh), (full_hangul _ _ Hh0), Hd, full_jamo; [done|].
      unfold jamo. rewrite !elem_of_app, !elem_of_seqZ. lia. }
  destruct (unicode_compose_pair_spec c0 c1 Hc0 Hc1) as (p & E & Hp & _). exists p. split; [done|].
  destruct Hp as [->|Hin]; [by left|right]. destruct comp_list_ok as (_ & Hok & _). rewrite Forall_forall in Hok.
  destruct (comp_ok_spec _ _ _ _ (Hok _ Hin)) as (Hch & Hp0 & Hp1 & Hh & Hm & Hcc).
  split; [unfold point; lia|]. split; [|done]. intros _. apply full_pair; [unfold point; lia|done..].
Qed.

(** ** The composites of Unicode *)
(** the canonical decomposition of a character into two: a Hangul syllable with
    a final consonant into the syllable without it and the consonant *)
Definition pair_decomp (q : Z) : option (Z * Z) :=
  if hangul q then
    let t := (q - 0xac00) mod 28 in
    if t =? 0 then Some (0x1100 + (q - 0xac00) / 588, 0x1161 + ((q - 0xac00) mod 588) / 28) else Some (q - t, 0x11a7 + t)
  else match dmap 0 !! q with Some [c0; c1] => Some (c0, c1) | _ => None end.
(** CompositionExclusions.txt, without the characters that decompose into one *)
Definition composition_exclusions : list Z :=
  (* specific to a script *)
  [0x958; 0x959; 0x95a; 0x95b; 0x95c; 0x95d; 0x95e; 0x95f; 0x9dc; 0x9dd; 0x9df; 0xa33; 0xa36; 0xa59; 0xa5a; 0xa5b; 0xa5e; 0xb5c; 0xb5d;
   0xf43; 0xf4d; 0xf52; 0xf57; 0xf5c; 0xf69; 0xf76; 0xf78; 0xf93; 0xf9d; 0xfa2; 0xfa7; 0xfac; 0xfb9;
   0xfb1d; 0xfb1f; 0xfb2a; 0xfb2b; 0xfb2c; 0xfb2d; 0xfb2e; 0xfb2f; 0xfb30; 0xfb31; 0xfb32; 0xfb33; 0xfb34; 0xfb35; 0xfb36; 0xfb38; 0xfb39; 0xfb3a;
   0xfb3b; 0xfb3c; 0xfb3e; 0xfb40; 0xfb41; 0xfb43; 0xfb44; 0xfb46; 0xfb47; 0xfb48; 0xfb49; 0xfb4a; 0xfb4b; 0xfb4c; 0xfb4d; 0xfb4e;
   (* encoded after the composition version *)
   0x2adc; 0x1d15e; 0x1d15f; 0x1d160; 0x1d161; 0x1d162; 0x1d163; 0x1d164; 0x1d1bb; 0x1d1bc; 0x1d1bd; 0x1d1be; 0x1d1bf; 0x1d1c0].
(** a composite of a pair; a primary composite is a starter that starts with one *)
Definition composite (q c0 c1 : Z) : Prop := pair_decomp q = Some (c0, c1) ∧ q ∉ composition_exclusions.
Definition primary_composite (q c0 c1 : Z) : Prop := composite q c0 c1 ∧ ccc c0 = 0 ∧ ccc q = 0.

(** the decompositions into two are those of the table and the excluded ones *)
Definition exclusions_ok (comps : list (Z * Z * Z)) (ps : list (Z * list Z)) : bool :=
  forallb (λ e : Z * Z * Z, negb (existsb (Z.eqb e.1.1) composition_exclusions)) comps &&
  forallb (λ p : Z * list Z, match p.2 with
    | [c0; c1] => (existsb (Z.eqb p.1) composition_exclusions || existsb (λ e, (e.1.1 =? p.1) && (e.1.2 =? c0) && (e.2 =? c1)) comps) &&
                  negb (hangul c0) && negb ((0x1100 <=? c0) && (c0 <? 0x1100 + 19))
    | _ => true
    end) ps.
Lemma exclusions_checked : exclusions_ok comp_list (pairs 0) = true.
Proof. vm_compute. reflexivity. Qed.
Lemma exclusions_high : forallb (λ c, (c <? 0xac00) || (0xac00 + 11172 <=? c)) composition_exclusions = true.
Proof. vm_compute. reflexivity. Qed.
Opaque composition_exclusions pairs.
Lemma existsb_eqb c l : existsb (Z.eqb c) l = true ↔ c ∈ l.
Proof. rewrite existsb_exists. setoid_rewrite Z.eqb_eq. setoid_rewrite <- list_elem_of_In. naive_solver. Qed.
Lemma table_not_excluded ch c0 c1 : (ch, c0, c1) ∈ comp_list → ch ∉ composition_exclusions.
Proof.
  intros Hin Hx%existsb_eqb. pose proof exclusions_checked as H. unfold exclusions_ok in H. apply andb_true_iff in H as [H _]. rewrite forallb_forall in H.
  apply list_elem_of_In in Hin. specialize (H _ Hin). cbn [fst] in H. by rewrite Hx in H.
Qed.
Lemma two_of (o : option (list Z)) c0 c1 : match o with Some [a; b] => Some (a, b) | _ => None end = Some (c0, c1) → o = Some [c0; c1].
Proof. destruct o as [[|a [|b [|? ?]]]|]; try discriminate. by intros [= -> ->]. Qed.
Lemma composite_in_table q c0 c1 : hangul q = false → composite q c0 c1 → (q, c0, c1) ∈ comp_list ∧ hangul c0 = false ∧ ¬ (0x1100 <= c0 < 0x1100 + 19).
Proof.
  intros Hh [Hd Hx]. unfold pair_decomp in Hd. rewrite Hh in Hd. apply two_of, (proj2 (pairs_spec 0 (or_introl eq_refl))), list_elem_of_In in Hd as E. clear Hd. pose proof exclusions_checked as H. unfold exclusions_ok in H. apply andb_true_iff in H as [_ H]. rewrite forallb_forall in H. specialize (H _ E). clear E. cbn [fst snd] in H.
  apply andb_true_iff in H as [[H H2%negb_true_iff]%andb_true_iff H3%negb_true_iff]. split; [|split; [done|intros H4; rewrite andb_false_iff, Z.leb_gt, Z.ltb_ge in H3; lia]].
  apply orb_true_iff in H as [H%existsb_eqb|H]; [by destruct (Hx H)|]. apply existsb_exists in H as ([[a b] d] & Hin%list_elem_of_In & Heq). cbn [fst snd] in Heq. bool_props. by subst.
Qed.
(** the pairs that Hangul syllables compose *)
Lemma hangul_pair q c0 c1 : hangul q = true → pair_decomp q = Some (c0, c1) →
  (0x1100 <= c0 < 0x1100 + 19 ∧ 0x1161 <= c1 < 0x1161 + 21 ∧ q = 0xac00 + (c0 - 0x1100) * 588 + (c1 - 0x1161) * 28) ∨
  (hangul c0 = true ∧ (c0 - 0xac00) mod 28 = 0 ∧ 0x11a7 < c1 < 0x11a7 + 28 ∧ q = c0 + c1 - 0x11a7).
Proof.
  intros Hh Hd. unfold pair_decomp in Hd. rewrite Hh in Hd. apply hangul_iff in Hh. set (y := q - 0xac00) in *. assert (0 <= y < 11172) as Hy by lia.
  pose proof (Z.div_mod y 28 ltac:(lia)) as E28. pose proof (Z.mod_pos_bound y 28 ltac:(lia)) as B28. cbv zeta in Hd. destruct (Z.eqb_spec (y mod 28) 0) as [E0|E0]; injection Hd as <- <-.
  - left. pose proof (Z.div_mod y 588 ltac:(lia)) as E588. pose proof (Z.mod_pos_bound y 588 ltac:(lia)) as B588. assert (0 <= y / 588 < 19) by (split; [apply Z.div_pos; lia|apply Z.div_lt_upper_bound; lia]).
    assert (y mod 588 = 28 * (y mod 588 / 28)) as E by (apply Z.div_exact; [lia|]; rewrite Z.mod_mod_divide; [done|by exists 21]).
    assert (0 <= y mod 588 / 28 < 21) by (split; [apply Z.div_pos; lia|apply Z.div_lt_upper_bound; lia]). lia.
  - right. split; [apply hangul_iff; lia|]. split; [|lia]. replace (q - y mod 28 - 0xac00) with (y / 28 * 28) by lia. apply Z.mod_mul. lia.
Qed.
Lemma hangul_not_excluded q : hangul q = true → q ∉ composition_exclusions.
Proof.
  intros Hh%hangul_iff Hx%existsb_eqb. pose proof exclusions_high as H. rewrite forallb_forall in H. apply existsb_eqb, list_elem_of_In in Hx. specialize (H _ Hx). bool_props. lia.
Qed.
Lemma composite_hangul q c0 c1 : hangul q = true → composite q c0 c1 ↔ pair_decomp q = Some (c0, c1).
Proof. intros Hh. unfold composite. pose proof (hangul_not_excluded q Hh). naive_solver. Qed.
Lemma lv_composite q c0 c1 : 0x1100 <= c0 < 0x1100 + 19 → 0x1161 <= c1 < 0x1161 + 21 → composite q c0 c1 ↔ q = 0xac00 + (c0 - 0x1100) * 588 + (c1 - 0x1161) * 28.
Proof.
  intros H0 H1. destruct (compose_lv c0 c1 H0 H1) as [Hh Hd]. split.
  - intros Hq. destruct (hangul q) eqn:E; [|by destruct (composite_in_table q c0 c1 E Hq) as (_ & _ & ?)]. destruct Hq as [Hq _]. destruct (hangul_pair q c0 c1 E Hq) as [(_ & _ & ->)|(H2%hangul_iff & _)]; lia.
  - intros ->. apply composite_hangul; [done|]. unfold pair_decomp. rewrite Hh. unfold hangul_decomp in Hd. cbv zeta. destruct (_ =? 0); [|done]. cbn [app] in Hd. by injection Hd as -> ->.
Qed.
Lemma lvt_composite q c0 c1 : hangul c0 = true → (c0 - 0xac00) mod 28 = 0 → 0x11a7 < c1 < 0x11a7 + 28 → composite q c0 c1 ↔ q = c0 + c1 - 0x11a7.
Proof.
  intros Hh0 H0 H1. destruct (compose_lvt c0 c1 Hh0 H0 H1) as [Hh Hd]. split.
  - intros Hq. destruct (hangul q) eqn:E; [|destruct (composite_in_table q c0 c1 E Hq) as (_ & ? & _); congruence]. destruct Hq as [Hq _]. apply hangul_iff in Hh0. destruct (hangul_pair q c0 c1 E Hq) as [(? & _ & _)|(_ & _ & _ & ->)]; lia.
  - intros ->. apply composite_hangul; [done|]. unfold pair_decomp. rewrite Hh. cbv zeta. assert ((c0 + c1 - 0x11a7 - 0xac00) mod 28 = c1 - 0x11a7) as ->.
    { symmetry. apply (Z.mod_unique _ _ ((c0 - 0xac00) / 28)); [lia|]. pose proof (Z.div_mod (c0 - 0xac00) 28 ltac:(lia)). lia. }
    destruct (Z.eqb_spec (c1 - 0x11a7) 0); [lia|]. do 2 f_equal; lia.
Qed.
Lemma table_composite q c0 c1 : (q, c0, c1) ∈ comp_list → composite q c0 c1 ∧ 0 < q.
Proof.
  intros Hin. destruct comp_list_ok as (_ & Hok & _). rewrite Forall_forall in Hok. destruct (comp_ok_spec _ _ _ _ (Hok _ Hin)) as (Hq & _ & _ & Hh & Hm & _).
  split; [|lia]. split; [unfold pair_decomp; by rewrite Hh, Hm|by eapply table_not_excluded].
Qed.
Lemma compose_pair_primary c0 c1 : point c0 → point c1 → c1 ≠ 0x11a7 → ∃ p, compose_pair c0 c1 = Some p ∧ (∀ q, composite q c0 c1 ↔ q = p ∧ p ≠ 0) ∧ (p ≠ 0 → composes c0 c1 p).
Proof.
  intros Hc0 Hc1 Hne. destruct (compose_pair_cases c0 c1 Hc0 Hc1) as (p & E & Hp). exists p. split; [done|]. split; [|intros Hp0; by destruct Hp]. intros q. clear Hp. unfold compose_pair in E.
  destruct ((c0 >=? 0x1100) && _ && _ && _) eqn:Elv.
  { bool_props. injection E as <-. rewrite lv_composite by lia. lia. }
  destruct ((c0 >=? 0xac00) && _ && _ && _ && _) eqn:Elvt.
  { bool_props. injection E as <-. rewrite lvt_composite; [lia|apply hangul_iff; lia|done|lia]. }
  destruct (unicode_compose_pair_spec c0 c1 Hc0 Hc1) as (r & Er & Hr & Hu). rewrite E in Er. injection Er as <-. split.
  - intros Hq. destruct (hangul q) eqn:Eh.
    + exfalso. destruct Hq as [Hq _]. clear E Hr Hu. destruct (hangul_pair q c0 c1 Eh Hq) as [(? & ? & _)|(?%hangul_iff & ? & ? & _)]; rewrite !andb_false_iff, ?Z.geb_leb, ?Z.leb_gt, ?Z.ltb_ge, ?Z.eqb_neq in Elv, Elvt; lia.
    + destruct (composite_in_table q c0 c1 Eh Hq) as (Hin & _ & _). rewrite (Hu q Hin). split; [done|]. pose proof (table_composite _ _ _ Hin). lia.
  - intros [-> Hp0]. destruct Hr as [?|Hin]; [done|]. by apply table_composite.
Qed.

(** C22: [compose_pair] is total on code points, and what it finds is the composite of the pair, when there is one: the Hangul syllable, or the character that decomposes into the pair and is not excluded from composition; with a starter it is a primary composite, and it has the full decomposition of the pair.  The second character is not U+11A7, the position before the first trailing Hangul consonant *)
Theorem compose_pair_decomposes c0 c1 : 0 <= c0 <= 0x10ffff → 0 <= c1 <= 0x10ffff → c1 ≠ 0x11a7 →
  ∃ p, compose_pair c0 c1 = Some p ∧ (∀ q, composite q c0 c1 ↔ q = p ∧ p ≠ 0) ∧ (∀ q, ccc c0 = 0 → primary_composite q c0 c1 ↔ q = p ∧ p ≠ 0) ∧
    (p ≠ 0 → 0 <= p <= 0x10ffff ∧ fulls 0 [p] = fulls 0 [c0; c1]).
Proof.
  intros Hc0 Hc1 Hne. destruct (compose_pair_primary c0 c1 Hc0 Hc1 Hne) as (p & E & Hq & Hp). exists p. split; [done|]. split; [done|]. split.
  - intros q Hs. unfold primary_composite. rewrite Hq. split; [by intros [? _]|]. intros [-> Hp0]. destruct (Hp Hp0) as (_ & _ & Hcc). auto.
  - intros Hp0. destruct (Hp Hp0) as (Hpp & Hf & _). split; [done|]. unfold fulls. cbn [flat_map]. rewrite !app_nil_r. by apply Hf.
Qed.
Lemma compose_pair_decomposes_witness :
  compose_pair 0x41 0x30a = Some 0xc5 ∧ (∀ q, composite q 0x41 0x30a ↔ q = 0xc5) ∧ fulls 0 [0xc5] = fulls 0 [0x41; 0x30a].
Proof.
  destruct (compose_pair_decomposes 0x41 0x30a) as (p & E & Hq & _ & Hf); [lia..|]. assert (p = 0xc5) as -> by (vm_compute in E; congruence).
  split; [exact E|]. split; [intros q; rewrite Hq; lia|]. apply Hf. lia.
Defined.
