(* ===== verification/NormLoop.v ===== *)
(** * Composing a string

    The loop of [unicode_normalize] that composes each character with the last
    starter before it, unless it is blocked.  It keeps the canonical order of
    the full decompositions: each composition moves a character to the front
    of characters of lower combining classes. *)
From stdpp Require Import gmap.
From S2P Require Import Prelude Alloc Cutils DynBuf UnicodeTables TableSearch CaseConv RunTable NormTables Normalize.
From S2P Require Import NormDecomp NormOrder NormCompose.

Notation starter c := (ccc c = 0).
(** what [unicode_normalize] composes: points without a canonical
    decomposition, and not U+11A7 *)
Definition plain_char (c : Z) : Prop := irreducible (dmap 0) c = true ∧ c ≠ 0x11a7.
Lemma plain_point c : plain_char c → point c.
Proof. intros [(? & _)%irreducible_spec _]. done. Qed.
Lemma plain_full c : plain_char c → full 0 c = [c].
Proof. intros [? _]. by apply full_irreducible. Qed.
Lemma plain_fulls l : Forall plain_char l → fulls 0 l = l.
Proof.
  intros Hl. apply fulls_irreducible, forallb_forall. intros x Hx%list_elem_of_In.
  rewrite Forall_forall in Hl. by apply Hl.
Qed.
Lemma point_chars l : Forall point l → Forall (λ c, 0 <= c) l.
Proof. intros Hl. eapply Forall_impl; [exact Hl|]. unfold point. lia. Qed.

(** ** Finding the starter *)
(** [out] is [a ++ b]: [a] ends with a starter or is empty, [b] has none *)
Definition ends_starter (a : list Z) : Prop := ∀ y, last a = Some y → starter y.
Lemma find_starter_256 fuel (a b rest : list Z) :
  Forall (λ c, 0 <= c) (a ++ b) → ends_starter a → Forall (λ c, ¬ starter c) b → (length b < fuel)%nat →
  find_starter fuel ((a ++ b) ++ rest) (zlen (a ++ b) - 1) 256 = Some (Some (zlen a - 1)).
Proof.
  revert fuel rest. induction b as [|y b IH] using rev_ind; intros fuel rest Hp Ha Hb Hf;
    (destruct fuel as [|fuel]; [lia|]); cbn [find_starter]; rewrite Z.geb_leb.
  - rewrite app_nil_r in *. destruct (Z.leb_spec 0 (zlen a - 1)) as [Hpos|]; [|done].
    destruct a as [|y a _] using rev_ind; [unfold zlen in Hpos; cbn in Hpos; lia|].
    rewrite <- app_assoc. cbn [app]. rewrite zlen_app. change (zlen [y]) with 1. rewrite Z.add_simpl_r, aget_app_at.
    cbn [mbind option_bind]. apply Forall_app in Hp as [_ Hy]. apply Forall_cons in Hy as [Hy _].
    rewrite (get_cc_eq y Hy), (Ha y) by (by rewrite last_snoc). cbn [mbind option_bind Z.eqb]. done.
  - apply Forall_app in Hb as [Hb Hy]. apply Forall_cons in Hy as [Hy _].
    rewrite app_assoc in *. apply Forall_app in Hp as [Hp Hpy]. apply Forall_cons in Hpy as [Hpy _].
    rewrite length_app in Hf. cbn [length] in Hf. rewrite zlen_app. change (zlen [y]) with 1. rewrite Z.add_simpl_r.
    pose proof (zlen_nonneg (a ++ b)). destruct (Z.leb_spec 0 (zlen (a ++ b))); [|lia].
    rewrite <- app_assoc. cbn [app]. rewrite aget_app_at. cbn [mbind option_bind]. rewrite (get_cc_eq y Hpy).
    cbn [mbind option_bind]. pose proof (ccc_range y Hpy). destruct (Z.eqb_spec (ccc y) 0); [done|].
    rewrite Z.geb_leb. destruct (Z.leb_spec 256 (ccc y)); [lia|]. apply IH; [done..|lia].
Qed.
(** [None]: the character of class [cc] is blocked *)
Lemma find_starter_spec fuel (a b rest : list Z) cc :
  Forall (λ c, 0 <= c) (a ++ b) → ends_starter a → Forall (λ c, ¬ starter c) b → (length b < fuel)%nat →
  find_starter fuel ((a ++ b) ++ rest) (zlen (a ++ b) - 1) cc =
    Some (if match last b with Some y => cc <=? ccc y | None => false end then None else Some (zlen a - 1)).
Proof.
  intros Hp Ha Hb Hf. destruct b as [|y b _] using rev_ind.
  - cbn [last]. pose proof (find_starter_256 fuel a [] rest Hp Ha Hb Hf) as H. destruct fuel as [|fuel]; [lia|].
    cbn [find_starter] in *. rewrite app_nil_r in *. rewrite Z.geb_leb in *.
    destruct (Z.leb_spec 0 (zlen a - 1)) as [Hpos|]; [|done].
    destruct a as [|y a _] using rev_ind; [unfold zlen in Hpos; cbn in Hpos; lia|].
    rewrite <- app_assoc in *. cbn [app] in *. rewrite zlen_app in *. change (zlen [y]) with 1 in *. rewrite Z.add_simpl_r, aget_app_at in *.
    cbn [mbind option_bind] in *. apply Forall_app in Hp as [_ Hy]. apply Forall_cons in Hy as [Hy _].
    rewrite (get_cc_eq y Hy), (Ha y) in * by (by rewrite last_snoc). done.
  - rewrite last_snoc. apply Forall_app in Hb as [Hb Hy]. apply Forall_cons in Hy as [Hy _].
    destruct fuel as [|fuel]; [lia|]. cbn [find_starter]. rewrite !app_assoc in *.
    apply Forall_app in Hp as [Hp Hpy]. apply Forall_cons in Hpy as [Hpy _].
    rewrite length_app in Hf. cbn [length] in Hf. rewrite Z.geb_leb, zlen_app. change (zlen [y]) with 1. rewrite Z.add_simpl_r.
    pose proof (zlen_nonneg (a ++ b)). destruct (Z.leb_spec 0 (zlen (a ++ b))); [|lia].
    rewrite <- (app_assoc (a ++ b)). cbn [app]. rewrite aget_app_at. cbn [mbind option_bind]. rewrite (get_cc_eq y Hpy).
    cbn [mbind option_bind]. destruct (Z.eqb_spec (ccc y) 0); [done|]. rewrite Z.geb_leb.
    destruct (Z.leb_spec cc (ccc y)); [done|]. apply find_starter_256; [done..|lia].
Qed.

(** ** One step *)
(** the characters of an ordered run have the class of its last at most *)
Lemma ordered_le (b : list Z) y s :
  ordered ccc (b ++ y :: s) → 0 < ccc y → Forall (λ c, 0 < ccc c) b → Forall (λ z, ccc z <= ccc y) b.
Proof.
  revert y s. induction b as [|z b IH] using rev_ind; intros y s Ho Hy Hb; [constructor|].
  apply Forall_app in Hb as [Hb Hz]. apply Forall_cons in Hz as [Hz _].
  assert (in_order ccc z y) as Hzy by (apply (Ho b z y s); by rewrite <- app_assoc).
  unfold in_order in Hzy. rewrite <- app_assoc in Ho. cbn [app] in Ho. specialize (IH z (y :: s) Ho Hz Hb).
  apply Forall_app; split; [|constructor; [lia|constructor]]. eapply Forall_impl; [exact IH|]. cbn. lia.
Qed.
Lemma run_below (b : list Z) x s :
  ordered ccc (b ++ s) → Forall (λ c, 0 < ccc c) b → (∀ y, last b = Some y → ccc y < ccc x) →
  Forall (λ y, 0 < ccc y < ccc x) b.
Proof.
  intros Ho Hb Hl. destruct b as [|y b _] using rev_ind; [constructor|].
  apply Forall_app in Hb as [Hb Hy]. apply Forall_cons in Hy as [Hy _]. specialize (Hl y ltac:(by rewrite last_snoc)).
  rewrite <- app_assoc in Ho. cbn [app] in Ho. pose proof (ordered_le b y s Ho Hy Hb) as Hle.
  apply Forall_app; split; [|constructor; [lia|constructor]].
  rewrite Forall_forall in Hle, Hb |- *. intros z Hz. specialize (Hle z Hz). specialize (Hb z Hz). lia.
Qed.
(** [x] composes with the starter [c], over the run [b] *)
Lemma compose_order a c b x s p :
  Forall plain_char b → plain_char x → Forall plain_char s → composes c x p → Forall (λ y, 0 < ccc y < ccc x) b →
  order ccc (fulls 0 ((a ++ [p]) ++ b ++ s)) = order ccc (fulls 0 ((a ++ [c]) ++ b ++ x :: s)).
Proof.
  intros Hb Hx Hs (_ & Hp & _) Hlow. unfold fulls. rewrite !flat_map_app. cbn [flat_map]. rewrite !app_nil_r.
  fold (fulls 0 b) (fulls 0 s). rewrite !(plain_fulls b), !(plain_fulls s), Hp, (plain_full x) by (done || apply Hx).
  rewrite <- !app_assoc, !(app_assoc (flat_map (full 0) a)). cbn [app]. symmetry. by apply order_move_front.
Qed.
Lemma ordered_skip (b : list Z) x s :
  ordered ccc (b ++ x :: s) → Forall (λ c, 0 < ccc c) b → 0 <= ccc x → (b ≠ [] → 0 < ccc x) → ordered ccc (b ++ s).
Proof.
  intros Ho Hb Hx Hbx p u v r E.
  (* [u v] are both in [b], both in [s], or around the gap *)
  apply app_eq_inv in E as [(k & -> & E)|(k & E & ->)].
  - destruct k as [|u' [|v' k]]; cbn [app] in E.
    + subst s. apply (Ho (p ++ [x]) u v r). rewrite app_nil_r. by rewrite <- app_assoc.
    + injection E as <- <-. pose proof Hb as [_ Hu]%Forall_app. apply Forall_cons in Hu as [Hu _].
      specialize (Hbx ltac:(by destruct p)).
      assert (in_order ccc u x) as H1 by (apply (Ho p u x (v :: r)); by rewrite <- app_assoc).
      assert (in_order ccc x v) as H2 by (apply (Ho (p ++ [u]) x v r); by rewrite <- !app_assoc).
      unfold in_order in *. lia.
    + injection E as <- <- ->. apply (Ho p u v (k ++ x :: s)). by rewrite <- app_assoc.
  - apply (Ho (b ++ x :: k) u v r). by rewrite <- app_assoc.
Qed.
Lemma ordered_suffix (b s : list Z) : ordered ccc (b ++ s) → ordered ccc s.
Proof. intros Ho p u v r ->. apply (Ho (b ++ p) u v r). by rewrite app_assoc. Qed.

(** ** The loop *)
(** What the loop computes, by [compose_pair]: the output is [a ++ b], where [a]
    ends with the last starter and [b] are the characters after it; only the
    last of these is looked at. *)
Definition blocked (b : list Z) (x : Z) : bool := match last b with Some y => ccc x <=? ccc y | None => false end.
(** the composite of the last starter and [x], or 0 *)
Definition compose_last (a b : list Z) (x : Z) : Z :=
  if blocked b x then 0 else match last a with Some c => default 0 (compose_pair c x) | None => 0 end.
Fixpoint composition (a b rest : list Z) : list Z :=
  match rest with
  | [] => a ++ b
  | x :: rest =>
    let p := compose_last a b x in
    if negb (p =? 0) then composition (removelast a ++ [p]) b rest
    else if ccc x =? 0 then composition ((a ++ b) ++ [x]) [] rest
    else composition a (b ++ [x]) rest
  end.
(** of a string *)
Definition compose_string (l : list Z) : list Z := composition [] [] l.
Lemma compose_string_cons c l :
  compose_string (c :: l) = if ccc c =? 0 then composition [c] [] l else composition [] [c] l.
Proof. reflexivity. Qed.

(** the state of the loop: [a ++ b] is the output, [rest] is to do *)
Record loop_state (a b rest : list Z) : Prop := {
  ls_points : Forall point ((a ++ b) ++ rest);
  ls_starter : ends_starter a;
  ls_run : Forall (λ c, ¬ starter c) b
}.
(** the loop on a buffer where [gap] is free *)
Definition loop (fuel : nat) (out gap rest : list Z) : option (list Z * Z) :=
  compose_loop fuel ((out ++ gap) ++ rest) (zlen ((out ++ gap) ++ rest)) (zlen (out ++ gap)) (zlen out).
#[local] Ltac zlens := unfold zlen in *; repeat progress (rewrite ?length_app in *; cbn [length] in * ); lia.
Lemma loop_next fuel out gap x rest :
  ∃ gap', (buf ← aset ((out ++ gap) ++ x :: rest) (zlen out) x;
    compose_loop fuel buf (zlen ((out ++ gap) ++ x :: rest)) (zlen (out ++ gap) + 1) (zlen out + 1)) =
    loop fuel (out ++ [x]) gap' rest.
Proof.
  assert (∃ gap', aset ((out ++ gap) ++ x :: rest) (zlen out) x = Some (((out ++ [x]) ++ gap') ++ rest) ∧
    zlen gap' = zlen gap) as (gap' & -> & Hgap).
  { rewrite <- (app_assoc _ gap). destruct gap as [|g gap]; cbn [app]; rewrite aset_app_at.
    - exists []. by rewrite app_nil_r, <- !app_assoc.
    - exists (gap ++ [x]). rewrite <- !app_assoc. split; [done|]. rewrite zlen_app, !zlen_cons. change (zlen (@nil Z)) with 0. lia. }
  exists gap'. cbn [mbind option_bind]. unfold loop. f_equal; zlens.
Qed.
Lemma loop_compose fuel a c b gap x rest p :
  (buf ← aset ((((a ++ [c]) ++ b) ++ gap) ++ x :: rest) (zlen a) p;
    compose_loop fuel buf (zlen ((((a ++ [c]) ++ b) ++ gap) ++ x :: rest)) (zlen (((a ++ [c]) ++ b) ++ gap) + 1)
      (zlen ((a ++ [c]) ++ b))) = loop fuel ((a ++ [p]) ++ b) (gap ++ [x]) rest.
Proof.
  assert (aset ((((a ++ [c]) ++ b) ++ gap) ++ x :: rest) (zlen a) p = Some ((((a ++ [p]) ++ b) ++ gap ++ [x]) ++ rest)) as ->.
  { rewrite <- !app_assoc. cbn [app]. by rewrite aset_app_at. }
  cbn [mbind option_bind]. unfold loop. f_equal; zlens.
Qed.
Lemma compose_last_spec a b x :
  Forall point (a ++ b) → point x → compose_last a b x ≠ 0 →
  blocked b x = false ∧ ∃ a' c, a = a' ++ [c] ∧ compose_pair c x = Some (compose_last a b x) ∧ composes c x (compose_last a b x).
Proof.
  intros [Ha _]%Forall_app Hx. unfold compose_last. destruct (blocked b x); [done|]. destruct a as [|c a _] using rev_ind; [done|].
  rewrite last_snoc. apply Forall_app in Ha as [_ [Hc _]%Forall_cons].
  destruct (compose_pair_cases c x Hc Hx) as (p & E & Hp). rewrite E. cbn [from_option id]. intros Hp0. split; [done|].
  exists a, c. split; [done|]. split; [done|]. by destruct Hp.
Qed.
(** one step of the loop *)
Lemma loop_step fuel a b gap x rest :
  loop_state a b (x :: rest) →
  let p := compose_last a b x in
  ∃ gap', loop (S fuel) (a ++ b) gap (x :: rest) =
    if negb (p =? 0) then loop fuel ((removelast a ++ [p]) ++ b) gap' rest else loop fuel ((a ++ b) ++ [x]) gap' rest.
Proof.
  intros [[Hp [Hx _]%Forall_cons]%Forall_app Ha Hb] p. unfold loop at 1. cbn [compose_loop].
  pose proof (zlen_nonneg rest). destruct (Z.ltb_spec (zlen ((a ++ b) ++ gap)) (zlen (((a ++ b) ++ gap) ++ x :: rest))) as [_|]; [|zlens].
  rewrite aget_app_at. cbn [mbind option_bind].
  rewrite (get_cc_eq x) by (unfold point in Hx; lia). cbn [mbind option_bind].
  destruct (loop_next fuel (a ++ b) gap x rest) as [gap' Hnext].
  rewrite (f_equal (λ l, find_starter _ l _ _) (eq_sym (app_assoc (a ++ b) gap (x :: rest)))).
  rewrite (find_starter_spec _ a b (gap ++ x :: rest) (ccc x) (point_chars _ Hp) Ha Hb) by (rewrite !length_app; lia).
  cbn [mbind option_bind]. fold (blocked b x). destruct (decide (p = 0)) as [E|E].
  - rewrite E. cbn [Z.eqb negb]. exists gap'. rewrite <- Hnext. clear Hnext. unfold p, compose_last in E. clear p.
    destruct (blocked b x); [reflexivity|]. destruct a as [|c a _] using rev_ind; [reflexivity|].
    rewrite last_snoc in E. rewrite Z.geb_leb. destruct (Z.leb_spec 0 (zlen (a ++ [c]) - 1)); [|reflexivity].
    replace (zlen (a ++ [c]) - 1) with (zlen a) by zlens.
    assert (((((a ++ [c]) ++ b) ++ gap) ++ x :: rest).[zlen a] = Some c) as -> by (rewrite <- !app_assoc; cbn [app]; apply aget_app_at).
    apply Forall_app in Hp as [[_ [Hc _]%Forall_cons]%Forall_app _].
    destruct (compose_pair_cases c x Hc Hx) as (p & E2 & _). rewrite E2 in E. cbn [from_option id] in E. subst p. cbn [mbind option_bind]. by rewrite E2.
  - destruct (compose_last_spec a b x Hp Hx E) as (-> & a' & c & -> & Epair & _). fold p in Epair. destruct (Z.eqb_spec p 0) as [|_]; [done|].
    exists (gap ++ [x]). cbn [negb]. rewrite removelast_last, <- (loop_compose fuel a' c). pose proof (zlen_nonneg a').
    rewrite Z.geb_leb. destruct (Z.leb_spec 0 (zlen (a' ++ [c]) - 1)); [|zlens].
    replace (zlen (a' ++ [c]) - 1) with (zlen a') by zlens.
    assert (((((a' ++ [c]) ++ b) ++ gap) ++ x :: rest).[zlen a'] = Some c) as -> by (rewrite <- !app_assoc; cbn [app]; apply aget_app_at).
    cbn [mbind option_bind]. rewrite Epair. cbn [mbind option_bind]. destruct (Z.eqb_spec p 0); [done|reflexivity].
Qed.
Lemma state_compose a c b x rest p :
  loop_state (a ++ [c]) b (x :: rest) → composes c x p → loop_state (a ++ [p]) b rest.
Proof.
  intros [[[[Hp _]%Forall_app Hpb]%Forall_app [_ Hr]%Forall_cons]%Forall_app Ha Hb] (Hpp & _ & Hcc). split; [| |done].
  - apply Forall_app; split; [|done]. apply Forall_app; split; [|done]. apply Forall_app; split; [done|by constructor].
  - intros y. rewrite last_snoc. intros [= <-]. apply Hcc, Ha. by rewrite last_snoc.
Qed.
Lemma state_next a b x rest :
  loop_state a b (x :: rest) →
  (starter x → loop_state ((a ++ b) ++ [x]) [] rest) ∧ (¬ starter x → loop_state a (b ++ [x]) rest).
Proof.
  intros [Hp Ha Hb]. split; intros Hs; split; rewrite ?app_nil_r.
  - by rewrite <- (app_assoc _ [x]).
  - intros y. rewrite last_snoc. by intros [= <-].
  - constructor.
  - by rewrite (app_assoc a), <- (app_assoc _ [x]).
  - done.
  - apply Forall_app; split; [done|by constructor].
Qed.
Lemma loop_spec fuel a b gap rest :
  loop_state a b rest → (length rest < fuel)%nat →
  ∃ gap', loop fuel (a ++ b) gap rest = Some (composition a b rest ++ gap', zlen (composition a b rest)).
Proof.
  revert a b gap rest. induction fuel as [|fuel IH]; intros a b gap rest Hst Hf; [lia|]. destruct rest as [|x rest].
  { exists gap. unfold loop. cbn [compose_loop composition]. by rewrite !app_nil_r, Z.ltb_irrefl. }
  cbn [length] in Hf. destruct (loop_step fuel a b gap x rest Hst) as [gap' ->]. cbn [composition].
  pose proof Hst as [[Hp [Hx _]%Forall_cons]%Forall_app _ _]. destruct (Z.eqb_spec (compose_last a b x) 0) as [E|E]; cbn [negb].
  - destruct (state_next a b x rest Hst) as [Hn1 Hn2]. destruct (Z.eqb_spec (ccc x) 0) as [Hs|Hs].
    + destruct (IH ((a ++ b) ++ [x]) [] gap' rest (Hn1 Hs) ltac:(lia)) as [g Hg]. rewrite app_nil_r in Hg. by exists g.
    + rewrite <- app_assoc. apply IH; [by apply Hn2|lia].
  - destruct (compose_last_spec a b x Hp Hx E) as (_ & a' & c & -> & _ & Hc). rewrite removelast_last.
    apply IH; [by eapply state_compose|lia].
Qed.
Lemma compose_loop_eq l :
  Forall point l → 1 < zlen l →
  ∃ buf, compose_loop (S (length l)) l (zlen l) 1 1 = Some (compose_string l ++ buf, zlen (compose_string l)).
Proof.
  intros Hp Hl. destruct l as [|c l]; [zlens|]. rewrite compose_string_cons.
  destruct (Z.eqb_spec (ccc c) 0) as [Hs|Hs].
  - apply (loop_spec (S (length (c :: l))) [c] [] [] l); [|cbn [length]; lia]. split; [done|intros y [= <-]; done|constructor].
  - apply (loop_spec (S (length (c :: l))) [] [c] [] l); [|cbn [length]; lia]. split; [done|done|by constructor].
Qed.

(** ** The Canonical Composition Algorithm of Unicode *)
(** [x] composes with the last starter [c] of the output, if it is not blocked
    from it: no character between them is a starter or has a class as high *)
Definition can_compose (out : list Z) (x : Z) (a : list Z) (c : Z) (b : list Z) (q : Z) : Prop :=
  out = a ++ c :: b ∧ starter c ∧ Forall (λ y, ¬ starter y ∧ ccc y < ccc x) b ∧ primary_composite q c x.
Inductive canonical_composition : list Z → list Z → list Z → Prop :=
  | cc_done out : canonical_composition out [] out
  | cc_compose out x rest res a c b q : can_compose out x a c b q → canonical_composition (a ++ q :: b) rest res → canonical_composition out (x :: rest) res
  | cc_keep out x rest res : (∀ a c b q, ¬ can_compose out x a c b q) → canonical_composition (out ++ [x]) rest res → canonical_composition out (x :: rest) res.

Lemma last_starter_unique (a a' b b' : list Z) c c' : Forall (λ y, ¬ starter y) b → Forall (λ y, ¬ starter y) b' → starter c → starter c' →
  a ++ c :: b = a' ++ c' :: b' → a = a' ∧ c = c' ∧ b = b'.
Proof.
  intros Hb Hb' Hc Hc' E. apply app_eq_inv in E as [(k & -> & E)|(k & -> & E)]; (destruct k as [|z k]; cbn [app] in *; [injection E as <- <-; by rewrite app_nil_r|]).
  - injection E as -> E. subst b'. apply Forall_app in Hb' as [_ [? _]%Forall_cons]. done.
  - injection E as <- E. subst b. apply Forall_app in Hb as [_ [? _]%Forall_cons]. done.
Qed.
(** the state of the loop on ordered text without U+11A7 *)
Record cc_state (a b rest : list Z) : Prop := {
  cs_state : loop_state a b rest;
  cs_11a7 : 0x11a7 ∉ rest;
  cs_ordered : ordered ccc (b ++ rest)
}.
Lemma classes_pos b : Forall point b → Forall (λ c, ¬ starter c) b → Forall (λ c, 0 < ccc c) b.
Proof.
  rewrite !Forall_forall. intros Hp Hb c Hc. specialize (Hp c Hc). specialize (Hb c Hc). unfold point in Hp. cbv beta in Hb.
  pose proof (ccc_range c ltac:(lia)). lia.
Qed.
Lemma cc_state_run a b x rest : cc_state a b (x :: rest) → blocked b x = false → Forall (λ y, 0 < ccc y < ccc x) b.
Proof.
  intros [[[[_ Hp]%Forall_app [Hx _]%Forall_cons]%Forall_app _ Hb] _ Ho] Hbl. apply (run_below b x (x :: rest)); [done|by apply classes_pos|].
  intros y Ey. unfold blocked in Hbl. rewrite Ey in Hbl. by apply Z.leb_gt.
Qed.
Lemma cc_state_compose a b x rest : cc_state a b (x :: rest) → compose_last a b x ≠ 0 →
  ∃ a' c, a = a' ++ [c] ∧ can_compose (a ++ b) x a' c b (compose_last a b x) ∧ cc_state (a' ++ [compose_last a b x]) b rest.
Proof.
  intros Hst E. pose proof Hst as [Hls [Hx Hr]%not_elem_of_cons Ho]. pose proof Hls as [[Hp [Hpx _]%Forall_cons]%Forall_app Ha Hb].
  destruct (compose_last_spec a b x Hp Hpx E) as (Hbl & a' & c & -> & Ec & Hc). pose proof (cc_state_run _ _ _ _ Hst Hbl) as Hrun. set (p := compose_last (a' ++ [c]) b x) in *. clearbody p.
  assert (starter c) as Hs by (apply Ha; by rewrite last_snoc). pose proof Hp as [[_ [Hpc _]%Forall_cons]%Forall_app Hpb]%Forall_app. exists a', c. split; [done|]. split.
  - split; [by rewrite <- app_assoc|]. split; [done|]. split; [eapply Forall_impl; [exact Hrun|]; cbn; lia|]. destruct (compose_pair_primary c x Hpc Hpx) as (p' & Ep & Hq & _); [congruence|].
    assert (p' = p) as -> by congruence. split; [by apply Hq|]. split; [done|by apply Hc].
  - split; [by eapply state_compose|done|]. apply (ordered_skip b x); [done|by apply classes_pos|unfold point in Hpx; pose proof (ccc_range x ltac:(lia)); lia|].
    intros Hne. destruct b as [|z b _] using rev_ind; [done|]. apply Forall_app in Hrun as [_ [Hz _]%Forall_cons]. lia.
Qed.
Lemma cc_state_keep a b x rest : cc_state a b (x :: rest) → compose_last a b x = 0 →
  (∀ a' c b' q, ¬ can_compose (a ++ b) x a' c b' q) ∧ (starter x → cc_state ((a ++ b) ++ [x]) [] rest) ∧ (¬ starter x → cc_state a (b ++ [x]) rest).
Proof.
  intros [Hls [Hx Hr]%not_elem_of_cons Ho] E. pose proof (state_next a b x rest Hls) as [H1 H2]. pose proof Hls as [[Hp [Hpx _]%Forall_cons]%Forall_app Ha Hb]. split; [|split].
  - intros a0 c b0 q (Eout & Hc & Hb0 & Hprim). destruct a as [|c' a' _] using rev_ind.
    { cbn [app] in Eout. subst b. apply Forall_app in Hb as [_ [Hcc _]%Forall_cons]. done. }
    rewrite <- app_assoc in Eout. cbn [app] in Eout. assert (starter c') as Hs by (apply Ha; by rewrite last_snoc).
    destruct (last_starter_unique a' a0 b b0 c' c) as (-> & -> & ->); [done|eapply Forall_impl; [exact Hb0|]; by intros y [? _]|done..|].
    pose proof Hp as [[_ [Hpc _]%Forall_cons]%Forall_app _]%Forall_app. destruct (compose_pair_primary c x Hpc Hpx) as (p & Ep & Hq & _); [congruence|]. destruct Hprim as [[_ Hp0]%Hq _].
    unfold compose_last in E. rewrite last_snoc, Ep in E. cbn [from_option id] in E. destruct (blocked b0 x) eqn:Hbl; [|done]. unfold blocked in Hbl. destruct (last b0) as [y|] eqn:Ey; [|done].
    apply last_Some in Ey as [b1 ->]. apply Forall_app in Hb0 as [_ [[_ Hy] _]%Forall_cons]. apply Z.leb_le in Hbl. lia.
  - intros Hs. split; [auto|done|]. apply (ordered_suffix (b ++ [x])). by rewrite <- app_assoc.
  - intros Hs. split; [auto|done|]. by rewrite <- app_assoc.
Qed.
Lemma composition_canonical a b rest : cc_state a b rest → canonical_composition (a ++ b) rest (composition a b rest).
Proof.
  revert a b. induction rest as [|x rest IH]; intros a b Hst; cbn [composition]; [constructor|]. destruct (Z.eqb_spec (compose_last a b x) 0) as [E|E]; cbn [negb].
  - destruct (cc_state_keep _ _ _ _ Hst E) as (Hn & H1 & H2). apply cc_keep; [done|]. destruct (Z.eqb_spec (ccc x) 0) as [Hs|Hs].
    + rewrite <- (app_nil_r ((a ++ b) ++ [x])) at 1. by apply IH, H1.
    + rewrite <- app_assoc. by apply IH, H2.
  - destruct (cc_state_compose _ _ _ _ Hst E) as (a' & c & Ea & Hc & Hst'). eapply cc_compose; [exact Hc|]. rewrite Ea at 2. rewrite removelast_last. specialize (IH _ _ Hst'). rewrite <- app_assoc in IH. exact IH.
Qed.

(** C20: the loop of [unicode_normalize] that composes, in place, is the Canonical Composition Algorithm of Unicode on text in canonical order without U+11A7: each character that has a primary composite with the last starter before it, and is not blocked from it, is composed with it, and the others are kept *)
Theorem compose_loop_composes l : Forall point l → 0x11a7 ∉ l → ordered ccc l → 1 < zlen l →
  ∃ buf out_len, compose_loop (S (length l)) l (zlen l) 1 1 = Some (buf, out_len) ∧ canonical_composition [] l (ztake out_len buf).
Proof.
  intros Hp Hn Ho Hl. destruct (compose_loop_eq l Hp Hl) as [buf ->]. eexists _, _. split; [done|]. rewrite ztake_app. apply (composition_canonical [] [] l). split; [|done..]. by split.
Qed.
(** A with a ring, and an acute that the ring does not block after it is composed *)
Lemma compose_loop_composes_witness :
  compose_loop 4 [0x41; 0x30a; 0x301] 3 1 1 = Some ([0x1fa; 0x30a; 0x301], 1) ∧ canonical_composition [] [0x41; 0x30a; 0x301] [0x1fa].
Proof.
  destruct (compose_loop_composes [0x41; 0x30a; 0x301]) as (buf & out_len & E & H); [repeat constructor; done|set_solver| |done|].
  - intros p u v r Er. assert (ccc 0x30a = 230 ∧ ccc 0x301 = 230 ∧ ccc 0x41 = 0) as (E1 & E2 & E3) by (vm_compute; done). unfold in_order.
    destruct p as [|p0 [|p1 p]]; cbn [app] in Er; [injection Er as <- <- _; lia|injection Er as _ <- <- _; lia|]. injection Er as _ _ Er. destruct p as [|p2 [|p3 p]]; discriminate.
  - change (compose_loop 4 [0x41; 0x30a; 0x301] 3 1 1 = Some (buf, out_len)) in E. assert (Some (buf, out_len) = Some ([0x1fa; 0x30a; 0x301], 1)) as E' by (rewrite <- E; vm_compute; reflexivity).
    injection E' as -> ->. split; [exact E|exact H].
Defined.

(** ** Composing keeps the decomposition *)
(** what is composed is canonically ordered and fully decomposed *)
Record ordered_state (a b rest : list Z) : Prop := {
  os_state : loop_state a b rest;
  os_run : Forall plain_char b;
  os_rest : Forall plain_char rest;
  os_ordered : ordered ccc (b ++ rest)
}.
Lemma ordered_compose a c b x rest p :
  ordered_state (a ++ [c]) b (x :: rest) → composes c x p → blocked b x = false →
  ordered_state (a ++ [p]) b rest ∧
  order ccc (fulls 0 (((a ++ [p]) ++ b) ++ rest)) = order ccc (fulls 0 (((a ++ [c]) ++ b) ++ x :: rest)).
Proof.
  intros [Hst Hb [Hx Hr]%Forall_cons Ho] Hcomp Hbl.
  pose proof Hst as [[[_ Hpb]%Forall_app [Hpx _]%Forall_cons]%Forall_app _ Hns]. pose proof (classes_pos b Hpb Hns) as Hc.
  unfold point in Hpx. pose proof (ccc_range x ltac:(lia)).
  assert (∀ y, last b = Some y → ccc y < ccc x) as Hlast by (intros y Ey; unfold blocked in Hbl; rewrite Ey in Hbl; by apply Z.leb_gt).
  pose proof (run_below b x _ Ho Hc Hlast) as Hlow. split.
  - split; [by eapply state_compose|done..|]. apply (ordered_skip b x); [done..|lia|]. intros Hne.
    destruct b as [|z b _] using rev_ind; [done|]. apply Forall_app in Hlow as [_ [Hz _]%Forall_cons]. lia.
  - rewrite <- (app_assoc _ b rest), <- (app_assoc _ b (x :: rest)). by apply compose_order.
Qed.
Lemma ordered_next a b x rest :
  ordered_state a b (x :: rest) →
  (starter x → ordered_state ((a ++ b) ++ [x]) [] rest) ∧ (¬ starter x → ordered_state a (b ++ [x]) rest).
Proof.
  intros [Hst Hb [Hx Hr]%Forall_cons Ho]. destruct (state_next a b x rest Hst) as [H1 H2].
  split; intros Hs; (split; [by auto|..|done|]).
  - constructor.
  - apply (ordered_suffix (b ++ [x])). by rewrite <- app_assoc.
  - apply Forall_app; split; [done|by constructor].
  - by rewrite <- app_assoc.
Qed.
Lemma composition_order a b rest :
  ordered_state a b rest →
  Forall point (composition a b rest) ∧ order ccc (fulls 0 (composition a b rest)) = order ccc (fulls 0 ((a ++ b) ++ rest)).
Proof.
  revert a b. induction rest as [|x rest IH]; intros a b Hst; cbn [composition].
  { rewrite app_nil_r. split; [|done]. destruct Hst as [[Hp _ _] _ _ _]. by rewrite app_nil_r in Hp. }
  pose proof Hst as [[[Hp [Hx _]%Forall_cons]%Forall_app _ _] _ _ _].
  destruct (Z.eqb_spec (compose_last a b x) 0) as [E|E]; cbn [negb].
  - destruct (ordered_next a b x rest Hst) as [Hn1 Hn2]. destruct (Z.eqb_spec (ccc x) 0) as [Hs|Hs].
    + destruct (IH _ _ (Hn1 Hs)) as [H1 H2]. split; [done|]. by rewrite H2, app_nil_r, <- (app_assoc _ [x]).
    + destruct (IH _ _ (Hn2 Hs)) as [H1 H2]. split; [done|]. by rewrite H2, (app_assoc a), <- (app_assoc _ [x]).
  - destruct (compose_last_spec a b x Hp Hx E) as (Hbl & a' & c & -> & _ & Hc). rewrite removelast_last.
    destruct (ordered_compose a' c b x rest _ Hst Hc Hbl) as [H1 H2]. destruct (IH _ _ H1) as [H3 H4]. split; [done|]. by rewrite H4.
Qed.
Lemma compose_string_order l :
  Forall plain_char l → ordered ccc l →
  Forall point (compose_string l) ∧ order ccc (fulls 0 (compose_string l)) = order ccc (fulls 0 l).
Proof.
  intros Hl Ho. apply (composition_order [] [] l). split; [|done..].
  split; [|done..]. eapply Forall_impl; [exact Hl|apply plain_point].
Qed.
