(* ===== verification/NormSpec.v ===== *)
(** * Normalization forms

    What [unicode_normalize] computes before it composes: [to_nfd_rec] appends
    the full decomposition of each character, or leaves the buffer in error,
    and the canonical order of the whole is a decomposed string. *)
From stdpp Require Import gmap relations.
From S2P Require Import Prelude Alloc Cutils DynBuf Reliable UnicodeTables TableSearch CaseConv RunTable NormTables Normalize.
From S2P Require Import NormDecomp NormOrder NormCompose NormLoop.

Section Buffer.
Context `{!Allocator}.

(** some allocation is refused *)
Definition fails : Prop := ∃ n sz, realloc_ok n sz = false.
(** [s'] is [s] with the characters [l] appended, or in error *)
Definition appended (s s' : DynBuf) (l : list Z) : Prop :=
  dbuf_wf s' ∧ d_size s' <= d_size s + 4 * zlen l ∧
  (d_error s' = false → d_error s = false ∧ d_buf s' = d_buf s ++ flat_map le32 l) ∧
  (d_error s' = true → d_error s = true ∨ fails).
Definition puts (m : M DynBuf) (s : DynBuf) (l : list Z) : Prop :=
  ∀ h, ∃ s' h', m h = Some (s', h') ∧ appended s s' l.

Lemma dbuf_realloc_error s size h ret s' h' :
  dbuf_realloc s size h = Some ((ret, s'), h') → d_error s' = true → d_error s = true ∨ fails.
Proof.
  unfold dbuf_realloc. destruct (_ >? _); [|intros [= <- <- <-]; by left].
  destruct (d_error s) eqn:Ee; [by left|]. rewrite bind_realloc.
  match goal with |- context [realloc_ok h ?sz] => destruct (realloc_ok h sz) eqn:Er end.
  - intros [= <- <- <-]. by left.
  - intros _ _. right. by eexists _, _.
Qed.
Lemma dbuf_put_error s data h ret s' h' :
  dbuf_put s data h = Some ((ret, s'), h') → d_error s' = true → d_error s = true ∨ fails.
Proof.
  unfold dbuf_put. intros ((ret1 & s1) & h1 & Hc & Hp)%bind_M_Some Herr.
  assert (d_error s1 = true) as He1.
  { destruct (negb (ret1 =? 0)); [by injection Hp as <- <- <-|].
    apply bind_M_Some in Hp as (s2 & h2 & Hs & [= <- <- <-]). unfold dbuf_store in Hs.
    destruct (_ || _); [done|]. apply bind_M_Some in Hs as (gap & h3 & _ & [= <- <-]). done. }
  unfold dbuf_claim in Hc. destruct (_ >? _); [by eapply dbuf_realloc_error|]. injection Hc as <- <- <-. by left.
Qed.

Lemma appended_nil s : dbuf_wf s → appended s s [].
Proof. intros Hwf. split; [done|]. split; [change (zlen (@nil Z)) with 0; lia|]. split; [by rewrite app_nil_r|by left]. Qed.
Lemma appended_app s s1 s2 l k : appended s s1 l → appended s1 s2 k → appended s s2 (l ++ k).
Proof.
  intros (H1 & H2 & H3 & H4) (K1 & K2 & K3 & K4). split; [done|]. split; [rewrite zlen_app; lia|]. split.
  - intros E. destruct (K3 E) as [E1 ->]. destruct (H3 E1) as [E0 ->]. split; [done|]. by rewrite flat_map_app, app_assoc.
  - intros E. destruct (K4 E) as [?|?]; [|by right]. auto.
Qed.
Lemma puts_ret s : dbuf_wf s → puts (mret s) s [].
Proof. intros Hwf h. exists s, h. split; [done|by apply appended_nil]. Qed.
Lemma puts_bind m f s l k :
  puts m s l → (∀ s1, appended s s1 l → puts (f s1) s1 k) → puts (m ≫= f) s (l ++ k).
Proof.
  intros Hm Hf h. destruct (Hm h) as (s1 & h1 & E & H1). destruct (Hf s1 H1 h1) as (s2 & h2 & E2 & H2).
  exists s2, h2. split; [by rewrite (bind_M_eq _ _ _ _ _ E)|]. by eapply appended_app.
Qed.
Lemma put_int_puts s v : dbuf_wf s → d_size s + 4 < 2 ^ 64 → puts (put_int s v) s [v].
Proof.
  intros Hwf Hs h. destruct (dbuf_put_cases s (le32 v) h Hwf (bytes_le32 v)) as (ret & s' & h' & E & Hw & Hc);
    [by rewrite zlen_le32|].
  exists s', h'. unfold put_int, dbuf_put_u32. rewrite (bind_M_eq _ _ _ _ _ E). split; [done|].
  split; [done|]. split; [|split].
  - change (zlen [v]) with 1. unfold d_size. destruct Hc as [(_ & -> & _)|(_ & -> & _)]; [|lia]. rewrite zlen_app, zlen_le32. lia.
  - intros He. destruct Hc as [(_ & Hb & Hee)|(_ & _ & Hee)]; [|congruence]. split; [congruence|]. by rewrite Hb; cbn [flat_map]; rewrite app_nil_r.
  - by eapply dbuf_put_error.
Qed.

(** ** Decomposing a string *)
Lemma appended_size s s' l n : appended s s' l → d_size s + 4 * (zlen l + n) < 2 ^ 64 → d_size s' + 4 * n < 2 ^ 64.
Proof. intros (_ & Ha & _). lia. Qed.
Lemma hangul_puts s c :
  dbuf_wf s → d_size s + 4 * zlen (hangul_decomp c) < 2 ^ 64 →
  puts (dbuf ← put_int s (0x1100 + (c - 0xac00) / 588);
        dbuf ← put_int dbuf (0x1161 + ((c - 0xac00) mod 588) / 28);
        if negb ((c - 0xac00) mod 28 =? 0) then put_int dbuf (0x11a7 + (c - 0xac00) mod 28) else mret dbuf) s (hangul_decomp c).
Proof.
  unfold hangul_decomp. cbv zeta. intros Hwf Hs. rewrite zlen_app in Hs. change (zlen [_; _]) with 2 in Hs.
  set (t := if _ =? 0 then [] else [0x11a7 + (c - 0xac00) mod 28]) in *. pose proof (zlen_nonneg t).
  apply (puts_bind _ _ s [_] (_ :: t)); [apply put_int_puts; [done|lia]|].
  intros s1 H1. apply (puts_bind _ _ s1 [_] t).
  { apply put_int_puts; [apply H1|]. destruct H1 as (_ & H1 & _). change (zlen [_]) with 1 in H1. lia. }
  intros s2 H2. subst t. destruct (_ =? 0); cbn [negb]; [by apply puts_ret, H2|]. apply put_int_puts; [apply H2|].
  destruct H1 as (_ & H1 & _). destruct H2 as (_ & H2 & _). change (zlen [_]) with 1 in *. lia.
Qed.
Lemma to_nfd_rec_puts n k s src ls :
  k = 0 ∨ k = 1 → mapM (full_map (S n) (dmap k)) src = Some ls → dbuf_wf s → d_size s + 4 * zlen (concat ls) < 2 ^ 64 →
  puts (to_nfd_rec (S n) k s src) s (concat ls).
Proof.
  intros Hk. revert s src ls. induction n as [n IH] using lt_wf_ind; intros s src ls Hls Hwf Hs.
  change (to_nfd_rec (S n) k s src) with (fold_M (to_nfd_char (to_nfd_rec n k) k) s src).
  apply mapM_Some_1 in Hls. revert s Hwf Hs. induction Hls as [|c l src ls Hc _ IHs]; intros s Hwf Hs; [by apply puts_ret|].
  cbn [fold_M concat] in *. rewrite zlen_app in Hs. pose proof (zlen_nonneg l). pose proof (zlen_nonneg (concat ls)).
  apply puts_bind.
  2: { intros s1 Hs1. apply IHs; [apply Hs1|]. by eapply appended_size. }
  clear IHs. rewrite full_map_unfold in Hc. unfold to_nfd_char. fold (hangul c). destruct (hangul c).
  { injection Hc as <-. apply hangul_puts; [done|lia]. }
  destruct (decomp_char_spec k c Hk) as (res & E & Hsrc & Hle). fold blank. rewrite E. unfold direct in *.
  intros h. rewrite bind_lift. revert h. fold (puts (if negb (zlen (default [] (dmap k !! c)) =? 0)
    then src ← lift (mapM id (ztake (zlen (default [] (dmap k !! c))) res)); to_nfd_rec n k s src else put_int s c) s l).
  rewrite Hsrc. destruct (default [] (dmap k !! c)) as [|x xs]; cbn [Z.eqb negb].
  - injection Hc as <-. apply put_int_puts; [done|]. change (zlen [c]) with 1 in Hs. lia.
  - rewrite zlen_cons. pose proof (zlen_nonneg xs). destruct (Z.eqb_spec (1 + zlen xs) 0); [lia|]. cbn [negb].
    intros h. rewrite bind_lift. revert h. apply bind_Some in Hc as (lx & Hlx & [= <-]).
    destruct n as [|n]; [apply mapM_Some_1 in Hlx; inversion Hlx; done|]. apply IH; [lia|done..|lia].
Qed.
End Buffer.

(** ** The forms *)
(** NFD and NFKD, for [k = 0] and [k = 1] *)
Definition decomposed (k : Z) (l : list Z) : list Z := order ccc (fulls k l).

Lemma order_perm cc l : Permutation (order cc l) l.
Proof. induction (order_reach cc l) as [|l1 l2 l3 [p a b s _] _ IH]; [done|]. by rewrite IH, (Permutation_swap a b s). Qed.
Lemma decomposed_Forall k l (P : Z → Prop) : Forall P (fulls k l) → Forall P (decomposed k l).
Proof. unfold decomposed. by rewrite order_perm. Qed.
Lemma fulls_irreducible_points k l :
  k = 0 ∨ k = 1 → Forall point l → Forall (λ c, irreducible (dmap k) c = true) (fulls k l).
Proof. intros Hk Hl. apply Forall_forall. intros x Hx%list_elem_of_In. by apply (forallb_forall _ (fulls k l)); [apply fulls_spec|]. Qed.
(** a decomposed string decomposes to itself *)
Lemma decomposed_id k l :
  k = 0 ∨ k = 1 → Forall point l → decomposed k (decomposed k l) = decomposed k l.
Proof.
  intros Hk Hl. unfold decomposed at 1. rewrite fulls_irreducible.
  - apply order_id, order_ordered.
  - apply forallb_forall. intros x Hx%list_elem_of_In. pose proof (decomposed_Forall k l _ (fulls_irreducible_points k l Hk Hl)) as H.
    rewrite Forall_forall in H. by apply H.
Qed.
(** a canonical decomposition is one for compatibility as well *)
Lemma dmap_sub c l : dmap 0 !! c = Some l → dmap 1 !! c = Some l.
Proof.
  intros H. destruct (pairs_spec 0 ltac:(by left)) as [E0 H0], (pairs_spec 1 ltac:(by right)) as [E1 H1].
  apply H1, (all_pairs_spec _ _ _ E1). apply H0, (all_pairs_spec _ _ _ E0) in H as (Hl & v & t & Hin & Hk & Hrest).
  split; [done|]. exists v, t. split; [done|]. split; [lia|done].
Qed.
Lemma irreducible_sub k c : k = 0 ∨ k = 1 → irreducible (dmap k) c = true → irreducible (dmap 0) c = true.
Proof.
  intros [->| ->]; [done|]. rewrite !irreducible_spec. intros (Hc & Hh & Hm). split; [done|]. split; [done|].
  destruct (dmap 0 !! c) as [l|] eqn:E; [|done]. apply dmap_sub in E. congruence.
Qed.
Lemma decomposed_points k l : k = 0 ∨ k = 1 → Forall point l → Forall point (decomposed k l).
Proof.
  intros Hk Hl. apply decomposed_Forall. eapply Forall_impl; [by apply fulls_irreducible_points|].
  cbv beta. intros c (Hc & _)%irreducible_spec. done.
Qed.
Lemma decomposed_plain k l :
  k = 0 ∨ k = 1 → Forall point l → 0x11a7 ∉ l → Forall plain_char (decomposed k l).
Proof.
  intros Hk Hl Hno. apply decomposed_Forall. pose proof (fulls_irreducible_points k l Hk Hl) as Hirr.
  rewrite Forall_forall in Hirr |- *. intros x Hx. split; [by eapply irreducible_sub, Hirr|]. intros ->.
  apply Hno. unfold fulls in Hx. apply list_elem_of_In, in_flat_map in Hx as (c & Hc%list_elem_of_In & Hx%list_elem_of_In).
  rewrite Forall_forall in Hl. destruct (full_spec k c Hk (Hl c Hc)) as (_ & _ & _ & Hf). by rewrite <- (Hf Hx).
Qed.
Lemma zlen_fulls k l : k = 0 ∨ k = 1 → Forall point l → zlen l <= zlen (fulls k l).
Proof.
  intros Hk. induction 1 as [|c l Hc _ IH]; [done|]. unfold fulls in *. cbn [flat_map]. rewrite zlen_app, zlen_cons.
  destruct (full_spec k c Hk Hc) as (_ & _ & Hz & _). lia.
Qed.
Lemma zlen_decomposed k l : zlen (decomposed k l) = zlen (fulls k l).
Proof. unfold zlen, decomposed. by rewrite order_perm. Qed.
Lemma full_maps k l : k = 0 ∨ k = 1 → Forall point l → ∃ ls, mapM (full_map NFD_DEPTH (dmap k)) l = Some ls ∧ concat ls = fulls k l.
Proof.
  intros Hk. induction 1 as [|c l Hc _ (ls & E & Hls)]; [by exists []|]. destruct (full_spec k c Hk Hc) as [Ec _].
  exists (full k c :: ls). cbn [mapM]. rewrite Ec. cbn [mbind option_bind]. rewrite E. split; [done|].
  cbn [concat]. by rewrite Hls.
Qed.
Lemma ints_le32 l : Forall (λ c, 0 <= c < 2 ^ 32) l → ints (flat_map le32 l) = l.
Proof.
  induction 1 as [|c l Hc _ IH]; [done|]. cbn [flat_map].
  pose proof (get_u32_app [] c [] Hc) as E. rewrite app_nil_l, app_nil_r in E. change (zlen []) with 0 in E.
  unfold get_u32, get_u16, le32, le16 in *. cbn [app aget] in *. cbn in E.
  cbn [ints]. f_equal; [|done]. by injection E.
Qed.

(** ** [unicode_normalize] *)
Section Forms.
Context `{!Allocator}.

(** its arguments: code points whose decomposition has less than 2^31 characters *)
Definition source (k : Z) (l : list Z) : Prop := Forall point l ∧ zlen (fulls k l) < 2 ^ 31.
Definition form (n : Z) : Prop := n = UNICODE_NFC ∨ n = UNICODE_NFD ∨ n = UNICODE_NFKC ∨ n = UNICODE_NFKD.
(** out of memory *)
Definition refused (r : Z * option (list Z)) : Prop := r = (-1, None) ∧ fails.
(** what follows the canonical order *)
Definition normalize_tail (n_type : Z) (l : list Z) : M (Z * option (list Z)) :=
  if (zlen l <=? 1) || negb (n_type .& 1 =? 0) then mret (zlen l, Some l)
  else
    '(buf, out_len) ← lift (compose_loop (S (length l)) l (zlen l) 1 1);
    mret (out_len, Some (ztake out_len buf)).

Lemma form_compat n : form n → n >> 1 = 0 ∨ n >> 1 = 1.
Proof. intros [->|[->|[->| ->]]]; by (left; reflexivity) || (right; reflexivity). Qed.
Lemma to_nfd_rec_cases k src s h :
  k = 0 ∨ k = 1 → source k src → dbuf_wf s → d_buf s = [] → d_error s = false →
  ∃ s' h', to_nfd_rec NFD_DEPTH k s src h = Some (s', h') ∧
    (d_error s' = true ∧ fails ∨ d_error s' = false ∧ d_buf s' = flat_map le32 (fulls k src)).
Proof.
  intros Hk [Hp Hz] Hwf Hb He. destruct (full_maps k src Hk Hp) as (ls & Els & Hls).
  destruct (to_nfd_rec_puts _ k s src ls Hk Els Hwf ltac:(unfold d_size; rewrite Hb, Hls; change (zlen (@nil Z)) with 0; lia) h)
    as (s' & h' & E & _ & _ & Hok & Herr).
  exists s', h'. split; [exact E|]. destruct (d_error s').
  - left. split; [done|]. destruct (Herr eq_refl) as [?|?]; [congruence|done].
  - right. destruct (Hok eq_refl) as [_ ->]. by rewrite Hb, Hls.
Qed.
Lemma zlen_flat_le32 l : zlen (flat_map le32 l) = 4 * zlen l.
Proof. induction l as [|c l IH]; [done|]. cbn [flat_map]. rewrite zlen_app, zlen_le32, zlen_cons. lia. Qed.
Lemma normalize_cases src n_type h :
  form n_type → source (n_type >> 1) src →
  (∃ h', unicode_normalize src n_type h = Some ((-1, None), h') ∧ fails) ∨
  (n_type = UNICODE_NFC ∧ Forall (λ c, 0 <= c < 0x100) src ∧ ∃ h', unicode_normalize src n_type h = Some ((zlen src, Some src), h')) ∨
  (∃ h', unicode_normalize src n_type h = normalize_tail n_type (decomposed (n_type >> 1) src) h').
Proof.
  intros Hn Hs. pose proof (form_compat _ Hn) as Hk. pose proof Hs as [Hp Hz].
  pose proof (zlen_fulls _ src Hk Hp) as Hlow.
  unfold unicode_normalize. cbv zeta.
  destruct (dbuf_realloc_spec dbuf_init (4 * zlen src) h dbuf_init_wf ltac:(lia)) as (ret & s & h1 & E & Hb & Hwf & Hret).
  rewrite (bind_M_eq _ _ _ _ _ E). destruct Hret as [(-> & _ & He & _)|(-> & He & _)]; cbn [Z.eqb negb]; cycle 1.
  { left. exists h1. split; [done|]. destruct (dbuf_realloc_error _ _ _ _ _ _ E He) as [?|?]; done. }
  destruct ((n_type =? UNICODE_NFC) && _) eqn:Elat.
  { right; left. apply andb_true_iff in Elat as [->%Z.eqb_eq Hlat]. split; [done|]. split; [|by exists h1].
    rewrite forallb_forall in Hlat. apply Forall_forall. intros c Hc. rewrite Forall_forall in Hp. specialize (Hp c Hc).
    apply list_elem_of_In, Hlat, Z.ltb_lt in Hc. unfold point in Hp. lia. }
  destruct (to_nfd_rec_cases (n_type >> 1) src s h1 Hk Hs Hwf Hb He) as (s2 & h2 & E2 & Hs2). rewrite (bind_M_eq _ _ _ _ _ E2).
  unfold dbuf_error. destruct Hs2 as [[-> Hfail]|[-> Hbuf]]; [left; by exists h2|].
  right; right. exists h2.
  pose proof (fulls_irreducible_points _ src Hk Hp) as Hirr.
  assert (Forall point (fulls (n_type >> 1) src)) as Hpts
    by (eapply Forall_impl; [exact Hirr|]; cbv beta; by intros c (? & _)%irreducible_spec).
  rewrite Hbuf, ints_le32 by (eapply Forall_impl; [exact Hpts|]; cbv beta; unfold point; lia).
  replace (i32 (d_size s2 / 4)) with (zlen (fulls (n_type >> 1) src)); cycle 1.
  { unfold d_size. rewrite Hbuf, zlen_flat_le32, Z.mul_comm, Z.div_mul by lia. pose proof (zlen_nonneg (fulls (n_type >> 1) src)).
    symmetry. apply i32_small. lia. }
  rewrite sort_cc_spec by (by apply point_chars). rewrite bind_lift. fold (decomposed (n_type >> 1) src).
  rewrite <- (zlen_decomposed _ src). reflexivity.
Qed.
End Forms.
