(* ===== verification/NormForms.v ===== *)
(** * Normalization forms

    The specification of [unicode_normalize]: NFD and NFKD are the canonical
    order of the full decompositions, NFC and NFKC the canonical composition of
    these (also on the fast path: a Latin-1 string is its own NFC).  The forms
    are canonically equivalent to the source, and idempotent. *)
From stdpp Require Import gmap.
From S2P Require Import Prelude Alloc Cutils DynBuf Reliable UnicodeTables TableSearch CaseConv RunTable NormTables Normalize.
From S2P Require Import NormDecomp NormOrder NormCompose NormLoop NormSpec.

(** ** Latin-1 *)
Definition latin1 (c : Z) : Prop := 0 <= c < 0x100.
(** a Latin-1 character is a starter, or the composite of one and a mark *)
Definition latin1_ok (m : gmap Z (list Z)) (c : Z) : bool :=
  match full_map NFD_DEPTH m c with
  | Some [x] => (x =? c) && (ccc x =? 0)
  | Some [b; k] => (0 <? c) && (0 <=? b) && (b <? 0x100) && (ccc b =? 0) && (0 <? ccc k) && (k <=? 0x10ffff) && (0x100 <=? k) &&
                   opt_test (Z.eqb c) (compose_pair b k)
  | _ => false
  end.
Lemma latin1_checked : forall_range (latin1_ok (dmap 0)) 0 256 = true.
Proof. vm_compute. reflexivity. Qed.
Inductive latin1_char (c : Z) : Prop :=
| latin1_starter : full 0 c = [c] → starter c → latin1_char c
| latin1_composite b k :
    full 0 c = [b; k] → latin1 b → starter b → 0 < ccc k → point k → c ≠ 0 → compose_pair b k = Some c → latin1_char c.
Lemma latin1_ok_spec m c l :
  latin1_ok m c = true → full_map NFD_DEPTH m c = Some l →
  (l = [c] ∧ starter c) ∨
  ∃ b k, l = [b; k] ∧ latin1 b ∧ starter b ∧ 0 < ccc k ∧ point k ∧ c ≠ 0 ∧ compose_pair b k = Some c.
Proof.
  unfold latin1_ok. intros H E. rewrite E in H. clear E.
  destruct l as [|x [|y [|z l]]]; [discriminate| | |discriminate].
  - apply andb_true_iff in H as [->%Z.eqb_eq ?%Z.eqb_eq]. by left.
  - right. exists x, y. repeat (apply andb_true_iff in H as [H ?]). unfold latin1, point. bool_props.
    match goal with H : opt_test _ _ = true |- _ => apply opt_test_Some in H as (p & -> & ->%Z.eqb_eq) end.
    repeat split; try lia.
Qed.
Lemma latin1_cases c : latin1 c → latin1_char c.
Proof.
  intros Hc. unfold latin1 in Hc. pose proof (forall_range_spec _ _ _ latin1_checked c ltac:(lia)) as Hok. cbv beta in Hok.
  destruct (full_spec 0 c (or_introl eq_refl) ltac:(lia)) as [E _].
  destruct (latin1_ok_spec _ _ _ Hok E) as [[Hf Hs]|(b & k & Hf & ? & ? & ? & ? & ? & ?)];
    [by apply latin1_starter|by eapply latin1_composite].
Qed.
Lemma compose_pair_latin1 y x : point y → latin1 x → compose_pair y x = Some 0.
Proof.
  intros Hy Hx. unfold latin1 in Hx. unfold compose_pair.
  rewrite !Z.geb_leb. destruct (Z.leb_spec 0x1161 x), (Z.leb_spec 0x11a7 x); [lia..|]. rewrite ?andb_false_r. cbn [andb].
  destruct (unicode_compose_pair_spec y x Hy ltac:(unfold point; lia)) as (r & -> & [->|Hin] & _); [done|exfalso].
  destruct comp_list_ok as (_ & Hok & _). rewrite Forall_forall in Hok.
  destruct (comp_ok_spec _ _ _ _ (Hok _ Hin)) as (_ & _ & Hp1 & _). lia.
Qed.
Lemma compose_last_latin1 a x : Forall point a → latin1 x → compose_last a [] x = 0.
Proof.
  intros Ha Hx. unfold compose_last. cbn [blocked last]. destruct a as [|c a _] using rev_ind; [done|]. rewrite last_snoc.
  apply Forall_app in Ha as [_ [Hc _]%Forall_cons]. by rewrite compose_pair_latin1.
Qed.
Lemma latin1_points l : Forall latin1 l → Forall point l.
Proof. intros Hl. eapply Forall_impl; [exact Hl|]. unfold latin1, point. lia. Qed.
Lemma latin1_composition a src :
  Forall point a → Forall latin1 src → composition a [] (fulls 0 src) = a ++ src.
Proof.
  intros Ha Hs. revert a Ha. induction Hs as [|c src Hc Hs IH]; intros a Ha; [done|]. unfold fulls in *. cbn [flat_map].
  assert (Forall point (a ++ [c])) as Hac by (apply Forall_app; split; [done|]; apply latin1_points; by constructor).
  destruct (latin1_cases c Hc) as [-> Hst|b k -> Hb Hst Hk Hpk Hc0 Hp]; cbn [app composition].
  - rewrite compose_last_latin1 by done. cbn [Z.eqb negb]. rewrite Hst, app_nil_r. cbn [Z.eqb]. rewrite IH by done. by rewrite <- app_assoc.
  - rewrite compose_last_latin1 by done. cbn [Z.eqb negb]. rewrite Hst, app_nil_r. cbn [Z.eqb].
    assert (compose_last (a ++ [b]) [] k = c) as -> by (unfold compose_last; cbn [blocked last]; by rewrite last_snoc, Hp).
    destruct (Z.eqb_spec c 0) as [|_]; [done|]. cbn [negb]. rewrite removelast_last, IH by done. by rewrite <- app_assoc.
Qed.
Lemma latin1_inserts acc src : Forall latin1 src → inserts ccc acc (fulls 0 src) = rev (fulls 0 src) ++ acc.
Proof.
  intros Hs. revert acc. induction Hs as [|c src Hc Hs IH]; intros acc; [done|]. unfold fulls in *. cbn [flat_map].
  destruct (latin1_cases c Hc) as [-> Hst|b k -> Hb Hst Hk Hpk Hc0 Hp]; cbn [app]; cbn [inserts fold_left].
  - rewrite ins_in_order by (unfold in_order; lia). fold (inserts ccc (c :: acc) (flat_map (full 0) src)). rewrite IH.
    cbn [rev]. by rewrite <- app_assoc.
  - rewrite (ins_in_order ccc b), ins_in_order by (intros y Ey; cbn [head] in Ey; unfold in_order; first [lia|injection Ey as <-; lia]).
    fold (inserts ccc (k :: b :: acc) (flat_map (full 0) src)). rewrite IH. cbn [rev]. by rewrite <- !app_assoc.
Qed.
(** Latin-1 is unaffected by NFC *)
Lemma latin1_nfc src : Forall latin1 src → compose_string (decomposed 0 src) = src.
Proof.
  intros Hs. assert (decomposed 0 src = fulls 0 src) as ->.
  { unfold decomposed, order. rewrite latin1_inserts by done. by rewrite app_nil_r, rev_involutive. }
  by apply latin1_composition.
Qed.

(** ** The two decompositions *)
(** decomposing for compatibility after canonically is decomposing for compatibility *)
Definition twice_ok (m0 m1 : gmap Z (list Z)) (c : Z) : bool :=
  match full_map NFD_DEPTH m0 c, full_map NFD_DEPTH m1 c with
  | Some l0, Some l1 => match mapM (full_map NFD_DEPTH m1) l0 with Some ls => bool_decide (concat ls = l1) | None => false end
  | _, _ => false
  end.
Definition twice_all_ok (m0 m1 : gmap Z (list Z)) (ps : list (Z * list Z)) : bool := forallb (λ p, twice_ok m0 m1 p.1) ps.
Lemma twice_checked : twice_all_ok (dmap 0) (dmap 1) (pairs 0) = true.
Proof. vm_compute. reflexivity. Qed.
Lemma twice_ok_spec m0 m1 c l0 l1 ls :
  twice_ok m0 m1 c = true → full_map NFD_DEPTH m0 c = Some l0 → full_map NFD_DEPTH m1 c = Some l1 →
  mapM (full_map NFD_DEPTH m1) l0 = Some ls → concat ls = l1.
Proof. unfold twice_ok. intros H E0 E1 Hls. rewrite E0, E1, Hls in H. by apply bool_decide_eq_true in H. Qed.
Lemma twice_in m0 m1 (ps : list (Z * list Z)) x l :
  twice_all_ok m0 m1 ps = true → (x, l) ∈ ps → twice_ok m0 m1 x = true.
Proof. unfold twice_all_ok. rewrite forallb_forall. intros H Hin%list_elem_of_In. apply (H _ Hin). Qed.
Lemma full_twice_key c l : point c → (c, l) ∈ pairs 0 → fulls 1 (full 0 c) = full 1 c.
Proof.
  intros Hc Hin. destruct (full_spec 0 c (or_introl eq_refl) Hc) as (E0 & Hirr & _).
  destruct (full_spec 1 c (or_intror eq_refl) Hc) as [E1 _].
  assert (Forall point (full 0 c)) as Hp.
  { apply Forall_forall. intros x Hx%list_elem_of_In. rewrite forallb_forall in Hirr. apply Hirr, irreducible_spec in Hx as [Hx _]. exact Hx. }
  destruct (full_maps 1 (full 0 c) (or_intror eq_refl) Hp) as (ls & Els & <-).
  exact (twice_ok_spec _ _ _ _ _ _ (twice_in _ _ _ _ _ twice_checked Hin) E0 E1 Els).
Qed.
Lemma full_twice c : point c → fulls 1 (full 0 c) = full 1 c.
Proof.
  intros Hc. destruct (hangul c) eqn:Hh.
  { rewrite (full_hangul 0 c Hh), (full_hangul 1 c Hh). apply fulls_irreducible, hangul_irreducible; [by right|exact Hh]. }
  destruct (dmap 0 !! c) as [l|] eqn:El.
  - apply (full_twice_key c l Hc). by apply (pairs_spec 0 (or_introl eq_refl)).
  - rewrite (full_irreducible 0 c (proj2 (irreducible_spec (dmap 0) c) (conj Hc (conj Hh El)))). unfold fulls. cbn [flat_map]. apply app_nil_r.
Qed.
Lemma fulls_twice l : Forall point l → fulls 1 (fulls 0 l) = fulls 1 l.
Proof.
  induction 1 as [|c l Hc _ IH]; [done|]. unfold fulls in *. cbn [flat_map]. rewrite flat_map_app, IH. f_equal. by apply full_twice.
Qed.
(** what decomposes canonically to a decomposition decomposes to it *)
Lemma decomposed_twice k l src :
  k = 0 ∨ k = 1 → Forall point l → Forall point src → decomposed 0 l = decomposed k src → decomposed k l = decomposed k src.
Proof.
  intros [->| ->] Hl Hsrc E; [done|]. rewrite <- E. unfold decomposed. rewrite <- fulls_twice, fulls_irreducible; [done| |done].
  pose proof (decomposed_Forall 1 src _ (fulls_irreducible_points 1 src (or_intror eq_refl) Hsrc)) as H. rewrite <- E in H.
  unfold decomposed in H. rewrite order_perm in H. apply forallb_forall. intros x Hx%list_elem_of_In. rewrite Forall_forall in H. by apply H.
Qed.

(** ** The forms *)
Definition normal_form (n_type : Z) (src : list Z) : list Z :=
  let l := decomposed (n_type >> 1) src in if n_type .& 1 =? 0 then compose_string l else l.
Lemma normal_form_points n_type src : form n_type → Forall point src → 0x11a7 ∉ src →
  Forall point (normal_form n_type src) ∧ decomposed 0 (normal_form n_type src) = decomposed (n_type >> 1) src.
Proof.
  intros Hn Hp Hno. pose proof (form_compat _ Hn) as Hk. unfold normal_form. cbv zeta.
  pose proof (decomposed_plain _ src Hk Hp Hno) as Hpl. pose proof (order_ordered ccc (fulls (n_type >> 1) src)) as Ho.
  assert (decomposed 0 (decomposed (n_type >> 1) src) = decomposed (n_type >> 1) src) as Hid
    by (unfold decomposed at 1; by rewrite plain_fulls, order_id).
  destruct (n_type .& 1 =? 0); [|split; [by apply decomposed_points|done]].
  destruct (compose_string_order _ Hpl Ho) as [Hpc Heq]. split; [done|]. unfold decomposed at 1. rewrite Heq. exact Hid.
Qed.
(** ** U+11A7 *)
(** The position before the first trailing consonant is no consonant, but
    [compose_pair] composes it with a syllable, to the same syllable. *)
Lemma jamo_checked : forallb (λ c, ccc c =? 0) (0x11a7 :: jamo) = true.
Proof. vm_compute. reflexivity. Qed.
Lemma irreducible_11a7 : irreducible (dmap 0) 0x11a7 = true.
Proof. vm_compute. reflexivity. Qed.
Lemma forallb_elem {A} (f : A → bool) l x : forallb f l = true → x ∈ l → f x = true.
Proof. rewrite forallb_forall. intros H Hx%list_elem_of_In. by apply H. Qed.
Lemma jamo_ccc c : c ∈ 0x11a7 :: jamo → starter c.
Proof. intros Hc. exact (proj1 (Z.eqb_eq _ _) (forallb_elem _ _ c jamo_checked Hc)). Qed.
Lemma full_11a7 : full 0 0x11a7 = [0x11a7].
Proof. exact (full_irreducible 0 0x11a7 irreducible_11a7). Qed.
Lemma starters_ordered l : Forall (λ c, starter c) l → ordered ccc l.
Proof. intros Hl p a b s ->. apply Forall_app in Hl as [_ [Ha _]%Forall_cons]. unfold in_order. lia. Qed.
Definition lv_syllable (s : Z) : Prop := 0xac00 <= s < 0xac00 + 11172 ∧ (s - 0xac00) mod 28 = 0.
Lemma lv_decomp s :
  lv_syllable s → ∃ l v, full 0 s = [l; v] ∧ l ∈ jamo ∧ v ∈ jamo ∧ point l ∧ compose_pair l v = Some s.
Proof.
  intros [Hs Hm]. pose proof (full_hangul 0 s (proj2 (hangul_iff s) Hs)) as Hf. unfold hangul_decomp in Hf. cbv zeta in Hf.
  rewrite Hm in Hf. cbn [Z.eqb app] in Hf. pose proof (Z.div_mod (s - 0xac00) 588 ltac:(lia)) as H1.
  pose proof (Z.mod_pos_bound (s - 0xac00) 588 ltac:(lia)) as H2. set (q := (s - 0xac00) / 588) in *. set (r := (s - 0xac00) mod 588) in *.
  assert (r mod 28 = 0) as Hr.
  { replace (s - 0xac00) with (r + (q * 21) * 28) in Hm by lia. by rewrite Z.mod_add in Hm by lia. }
  pose proof (Z.div_mod r 28 ltac:(lia)) as H3. rewrite Hr in H3. set (v := r / 28) in *.
  exists (0x1100 + q), (0x1161 + v). split; [done|]. unfold jamo. rewrite !elem_of_app, !elem_of_seqZ.
  split; [lia|]. split; [lia|]. split; [unfold point; lia|]. unfold compose_pair. rewrite !Z.geb_leb.
  destruct (Z.leb_spec 0x1100 (0x1100 + q)), (Z.ltb_spec (0x1100 + q) (0x1100 + 19)); try lia.
  destruct (Z.leb_spec 0x1161 (0x1161 + v)), (Z.ltb_spec (0x1161 + v) (0x1161 + 21)); try lia.
  cbn [andb]. f_equal. lia.
Qed.
Lemma compose_11a7 s : lv_syllable s → compose_pair s 0x11a7 = Some s.
Proof.
  intros [Hs Hm]. unfold compose_pair. rewrite Hm, !Z.geb_leb.
  destruct (Z.leb_spec 0xac00 s), (Z.ltb_spec s (0xac00 + 11172)); try lia.
  destruct (Z.ltb_spec s (0x1100 + 19)); [lia|]. rewrite andb_false_r. cbn [andb].
  change (0x11a7 <=? 0x11a7) with true. change (0x11a7 <? 0x11a7 + 28) with true. cbn [andb Z.eqb]. f_equal. lia.
Qed.
Lemma compose_last_one c x p : compose_pair c x = Some p → compose_last [c] [] x = p.
Proof. intros Hc. unfold compose_last. cbn [blocked last]. by rewrite Hc. Qed.
Lemma composition_lv l v s :
  compose_pair l v = Some s → compose_pair s 0x11a7 = Some s → s ≠ 0 → composition [l] [] [v; 0x11a7] = [s].
Proof.
  intros E1 E2 Hs. generalize dependent 0x11a7. intros t E2. cbn [composition]. rewrite (compose_last_one _ _ _ E1).
  destruct (Z.eqb_spec s 0); [lia|]. cbn [negb removelast app]. rewrite (compose_last_one _ _ _ E2).
  destruct (Z.eqb_spec s 0); [lia|]. reflexivity.
Qed.
Lemma normal_form_11a7 s : lv_syllable s → normal_form UNICODE_NFC [s; 0x11a7] = [s].
Proof.
  intros Hs. destruct (lv_decomp s Hs) as (l & v & Hf & Hl & Hv & Hp & Hc). unfold normal_form.
  change (UNICODE_NFC >> 1) with 0. change (UNICODE_NFC .& 1 =? 0) with true. cbv iota zeta.
  assert (starter l ∧ starter v ∧ starter 0x11a7) as (Hsl & Hsv & Hst) by (split_and!; apply jamo_ccc; [by right|by right|by left]).
  assert (decomposed 0 [s; 0x11a7] = [l; v; 0x11a7]) as ->.
  { unfold decomposed, fulls. cbn [flat_map]. rewrite Hf, full_11a7. cbn [app]. apply order_id, starters_ordered.
    exact (Forall_cons_2 _ _ _ Hsl (Forall_cons_2 _ _ _ Hsv (Forall_cons_2 _ _ _ Hst (Forall_nil_2 _)))). }
  rewrite compose_string_cons, Hsl. cbn [Z.eqb]. apply (composition_lv l v s Hc (compose_11a7 s Hs)). destruct Hs. lia.
Qed.

Section Forms.
Context `{!Allocator}.

Lemma normalize_tail_spec n_type l h :
  Forall point l →
  let out := if n_type .& 1 =? 0 then compose_string l else l in
  normalize_tail n_type l h = Some ((zlen out, Some out), h).
Proof.
  intros Hl. unfold normalize_tail. destruct (n_type .& 1 =? 0); cbn [negb]; [|by rewrite orb_true_r].
  rewrite orb_false_r. destruct (Z.leb_spec (zlen l) 1) as [Hz|Hz].
  - enough (compose_string l = l) as -> by done. destruct l as [|x [|y l]]; [done| |unfold zlen in Hz; cbn [length] in Hz; lia].
    rewrite compose_string_cons. by destruct (ccc x =? 0).
  - destruct (compose_loop_eq l Hl Hz) as [buf ->]. by rewrite bind_lift, ztake_app.
Qed.
Lemma normalize_spec src n_type h :
  form n_type → source (n_type >> 1) src →
  ∃ r h', unicode_normalize src n_type h = Some (r, h') ∧
    (refused r ∨ r = (zlen (normal_form n_type src), Some (normal_form n_type src))).
Proof.
  intros Hn Hs. pose proof (form_compat _ Hn) as Hk. pose proof Hs as [Hp _].
  destruct (normalize_cases src n_type h Hn Hs) as [(h' & E & Hf)|[(-> & Hlat & h' & E)|(h' & E)]].
  - exists (-1, None), h'. split; [done|by left].
  - eexists _, h'. split; [exact E|]. right. unfold normal_form. change (UNICODE_NFC >> 1) with 0. change (UNICODE_NFC .& 1) with 0.
    cbv zeta. cbn [Z.eqb]. by rewrite latin1_nfc.
  - eexists _, h'. rewrite E, normalize_tail_spec by (by apply decomposed_points). split; [done|by right].
Qed.


(** The result of [unicode_normalize] is equivalent to the source: its
    canonical decomposition is that of the source for NFC and NFD, and the
    compatibility decomposition for NFKC and NFKD; so nothing but what the form
    calls for is changed.  U+11A7 is excepted. *)
Theorem unicode_normalize_equivalent src n_type h len out h' :
  form n_type → source (n_type >> 1) src → 0x11a7 ∉ src →
  unicode_normalize src n_type h = Some ((len, Some out), h') →
  decomposed 0 out = decomposed (n_type >> 1) src.
Proof.
  intros Hn Hs Hno E. destruct (normalize_spec src n_type h Hn Hs) as (r & h1 & E1 & [[-> _]| ->]); rewrite E in E1; [done|].
  injection E1 as -> -> ->. by apply normal_form_points; [|apply Hs|].
Qed.

(** C19: the four forms are idempotent: what [unicode_normalize] returns is
    normalized to itself by a second call, unless memory runs out. *)
Theorem unicode_normalize_idempotent src n_type h len out h' h2 :
  form n_type → source (n_type >> 1) src → 0x11a7 ∉ src →
  unicode_normalize src n_type h = Some ((len, Some out), h') →
  ∃ r h3, unicode_normalize out n_type h2 = Some (r, h3) ∧ (refused r ∨ r = (len, Some out)).
Proof.
  intros Hn Hs Hno E. destruct (normalize_spec src n_type h Hn Hs) as (r & h1 & E1 & [[-> _]| ->]); rewrite E in E1; [done|].
  injection E1 as -> -> ->. pose proof Hs as [Hp Hz]. destruct (normal_form_points n_type src Hn Hp Hno) as [Hpo Heq].
  pose proof (decomposed_twice _ _ _ (form_compat _ Hn) Hpo Hp Heq) as Heq2.
  destruct (normalize_spec (normal_form n_type src) n_type h2 Hn) as (r & h3 & E3 & Hr).
  { split; [done|]. by rewrite <- zlen_decomposed, Heq2, zlen_decomposed. }
  assert (normal_form n_type (normal_form n_type src) = normal_form n_type src) as Hid by (unfold normal_form at 1; by rewrite Heq2).
  exists r, h3. split; [done|]. by rewrite Hid in Hr.
Qed.

(** C23: a flaw of NFC: after a syllable without a trailing consonant, U+11A7
    is dropped - the source is changed to one that is not equivalent. *)
Theorem unicode_normalize_drops_11a7 s h :
  0xac00 <= s < 0xac00 + 11172 → (s - 0xac00) mod 28 = 0 →
  ∃ r h', unicode_normalize [s; 0x11a7] UNICODE_NFC h = Some (r, h') ∧
    (refused r ∨ r = (1, Some [s])) ∧ decomposed 0 [s] ≠ decomposed 0 [s; 0x11a7].
Proof.
  intros Hs Hm. destruct (lv_decomp s (conj Hs Hm)) as (l & v & Hf & Hl & Hv & _).
  destruct (normalize_spec [s; 0x11a7] UNICODE_NFC h) as (r & h' & E & Hr).
  - by left.
  - split; [constructor; [unfold point; lia|by constructor]|]. change (UNICODE_NFC >> 1) with 0. unfold fulls. cbn [flat_map].
    rewrite Hf, full_11a7. done.
  - exists r, h'. split; [done|]. rewrite normal_form_11a7 in Hr by done. split; [exact Hr|].
    intros Hlen%(f_equal zlen). rewrite !zlen_decomposed in Hlen. unfold fulls in Hlen. cbn [flat_map] in Hlen.
    rewrite Hf, full_11a7 in Hlen. done.
Qed.
End Forms.

Lemma unicode_normalize_equivalent_witness :
  decomposed 0 [0x1e69] = decomposed 0 [0x73; 0x307; 0x323].
Proof.
  eapply (unicode_normalize_equivalent [0x73; 0x307; 0x323] UNICODE_NFC O 1 [0x1e69]);
    [by left|split; [repeat constructor; done|vm_compute; reflexivity]|set_solver|vm_compute; reflexivity].
Defined.
Lemma unicode_normalize_idempotent_witness :
  ∃ r h, unicode_normalize [0x1e69] UNICODE_NFC O = Some (r, h) ∧ (refused r ∨ r = (1, Some [0x1e69])).
Proof.
  eapply (unicode_normalize_idempotent [0x73; 0x307; 0x323] UNICODE_NFC O 1 [0x1e69]);
    [by left|split; [repeat constructor; done|vm_compute; reflexivity]|set_solver|vm_compute; reflexivity].
Defined.
Lemma unicode_normalize_drops_11a7_witness :
  ∃ r h', unicode_normalize [0xac00; 0x11a7] UNICODE_NFC O = Some (r, h') ∧
    (refused r ∨ r = (1, Some [0xac00])) ∧ decomposed 0 [0xac00] ≠ decomposed 0 [0xac00; 0x11a7].
Proof. apply unicode_normalize_drops_11a7; [lia|reflexivity]. Defined.
