(* ===== verification/ReOpcodes.v ===== *)
(** * Opcodes and header of compiled regular expressions

    js/libregexp-opcode.h (the [DEF] list, expanded twice by js/libregexp.c),
    the header layout, and the character classifications that the compiler and
    the executor share. *)
From S2P Require Import Prelude.

Definition REOP_invalid : Z := 0.
Definition REOP_char : Z := 1.
Definition REOP_char32 : Z := 2.
Definition REOP_dot : Z := 3.
Definition REOP_any : Z := 4.
Definition REOP_line_start : Z := 5.
Definition REOP_line_end : Z := 6.
Definition REOP_goto : Z := 7.
Definition REOP_split_goto_first : Z := 8.
Definition REOP_split_next_first : Z := 9.
Definition REOP_match : Z := 10.
Definition REOP_save_start : Z := 11.
Definition REOP_save_end : Z := 12.
Definition REOP_save_reset : Z := 13.
Definition REOP_loop : Z := 14.
Definition REOP_push_i32 : Z := 15.
Definition REOP_drop : Z := 16.
Definition REOP_word_boundary : Z := 17.
Definition REOP_not_word_boundary : Z := 18.
Definition REOP_back_reference : Z := 19.
Definition REOP_backward_back_reference : Z := 20.
Definition REOP_range : Z := 21.
Definition REOP_range32 : Z := 22.
Definition REOP_lookahead : Z := 23.
Definition REOP_negative_lookahead : Z := 24.
Definition REOP_push_char_pos : Z := 25.
Definition REOP_check_advance : Z := 26.
Definition REOP_prev : Z := 27.
Definition REOP_simple_greedy_quant : Z := 28.
Definition REOP_COUNT : Z := 29.

(** the [size] of each opcode *)
Definition reopcode_info : list Z :=
  [1; 3; 5; 1; 1; 1; 1; 5; 5; 5; 1; 2; 2; 3; 5; 5; 1; 1; 1; 2; 2; 3; 3; 5; 5; 1; 1; 1; 17].

Definition CAPTURE_COUNT_MAX : Z := 255.
Definition STACK_SIZE_MAX : Z := 255.
Definition CP_LS : Z := 0x2028.
Definition CP_PS : Z := 0x2029.
Definition TMP_BUF_SIZE : Z := 128.

Definition RE_HEADER_FLAGS : Z := 0.
Definition RE_HEADER_CAPTURE_COUNT : Z := 1.
Definition RE_HEADER_STACK_SIZE : Z := 2.
Definition RE_HEADER_BYTECODE_LEN : Z := 3.
Definition RE_HEADER_LEN : Z := 7.

Definition LRE_FLAG_GLOBAL : Z := 1 << 0.
Definition LRE_FLAG_IGNORECASE : Z := 1 << 1.
Definition LRE_FLAG_MULTILINE : Z := 1 << 2.
Definition LRE_FLAG_DOTALL : Z := 1 << 3.
Definition LRE_FLAG_UNICODE : Z := 1 << 4.
Definition LRE_FLAG_STICKY : Z := 1 << 5.
Definition LRE_FLAG_NAMED_GROUPS : Z := 1 << 7.
(** [(flags & flag) != 0] *)
Definition has_flag (flags flag : Z) : bool := negb (flags .& flag =? 0).

Definition is_digit (c : Z) : bool := (c >=? 0x30) && (c <=? 0x39).
Definition is_line_terminator (c : Z) : bool := (c =? 10) || (c =? 13) || (c =? CP_LS) || (c =? CP_PS).
Definition is_word_char (c : Z) : bool :=
  ((c >=? 0x30) && (c <=? 0x39)) || ((c >=? 0x61) && (c <=? 0x7a)) ||
  ((c >=? 0x41) && (c <=? 0x5a)) || (c =? 0x5f).
