(* ===== verification/ReExec.v ===== *)
(** * The backtracking executor (js/libregexp.c)

    [lre_exec_backtrack] interprets the byte code over a subject string with
    an explicit stack of choice points.  Pointers into the subject are indices
    in its code units, pointers into the byte code are indices in its bytes.
    One function models each group of [case]s; [exec_step] dispatches on the
    opcode, [exec_resume] is the code at the labels [no_match] and [recurse],
    and [lre_exec_backtrack] is the [for(;;)] loop.  An out of bounds access,
    an [assert] that fails and [abort()] are [None]. *)
From S2P Require Import Prelude Alloc Cutils UnicodeTables CaseConv ReOpcodes.

(** ** Characters of the subject *)
Section Subject.
Context (cbuf : list Z) (cbuf_type : Z).

(** [GET_CHAR]: the character at [cptr], before [cbuf_end], and the next position *)
Definition GET_CHAR (cptr cbuf_end : Z) : option (Z * Z) :=
  c ← cbuf.[cptr];
  if (cbuf_type =? 0) then Some (c, cptr + 1)
  else if is_hi_surrogate c && (cbuf_type =? 2) then
    if cptr + 1 <? cbuf_end then
      d ← cbuf.[cptr + 1];
      if is_lo_surrogate d then Some (from_surrogate c d, cptr + 2) else Some (c, cptr + 1)
    else Some (c, cptr + 1)
  else Some (c, cptr + 1).
Definition PEEK_CHAR (cptr cbuf_end : Z) : option Z :=
  '(c, _) ← GET_CHAR cptr cbuf_end; Some c.
(** [GET_PREV_CHAR]: the character before [cptr], after [cbuf_start], and its position *)
Definition GET_PREV_CHAR (cptr cbuf_start : Z) : option (Z * Z) :=
  let p := cptr - 1 in
  c ← cbuf.[p];
  if (cbuf_type =? 0) then Some (c, p)
  else if is_lo_surrogate c && (cbuf_type =? 2) then
    if p >? cbuf_start then
      d ← cbuf.[p - 1];
      if is_hi_surrogate d then Some (from_surrogate d c, p - 1) else Some (c, p)
    else Some (c, p)
  else Some (c, p).
Definition PEEK_PREV_CHAR (cptr cbuf_start : Z) : option Z :=
  '(c, _) ← GET_PREV_CHAR cptr cbuf_start; Some c.
(** [PREV_CHAR]: with 8 bit characters the subject is not read *)
Definition PREV_CHAR (cptr cbuf_start : Z) : option Z :=
  if (cbuf_type =? 0) then Some (cptr - 1)
  else '(_, p) ← GET_PREV_CHAR cptr cbuf_start; Some p.
End Subject.

(** ** State *)
Inductive REExecStateEnum :=
  RE_EXEC_STATE_SPLIT | RE_EXEC_STATE_LOOKAHEAD | RE_EXEC_STATE_NEGATIVE_LOOKAHEAD
| RE_EXEC_STATE_GREEDY_QUANT.
(** a capture pointer, [None] for NULL *)
Definition cap : Type := option Z.
(** a choice point; [rs_stack] holds the [stack_len] saved elements *)
Record REExecState := mkRS {
  rs_type : REExecStateEnum;
  rs_count : Z;
  rs_cptr : Z;
  rs_pc : Z;
  rs_capture : list cap;
  rs_stack : list (option Z)
}.
(** the fields of [REExecContext] that do not change, and the byte code *)
Record REExecContext := mkCtx {
  s_cbuf : list Z;
  s_cbuf_type : Z;
  s_capture_count : Z;
  s_stack_size_max : Z;
  s_multi_line : bool;
  s_ignore_case : bool;
  s_is_unicode : bool;
  s_bc : list Z
}.
Definition s_cbuf_end (s : REExecContext) : Z := zlen (s_cbuf s).
(** what changes: the [capture] and [stack] arrays that the caller owns (a
    [stack] element is [None] until it is written), the locals [pc], [cptr]
    and [stack_len], and the stack of choice points (the top is the head) with
    its capacity [state_stack_size] *)
Record exec_state := mkES {
  es_capture : list cap;
  es_stack : list (option Z);
  es_stack_len : Z;
  es_pc : Z;
  es_cptr : Z;
  es_states : list REExecState;
  es_state_size : Z
}.
Definition with_pc (st : exec_state) (pc : Z) : exec_state :=
  mkES (es_capture st) (es_stack st) (es_stack_len st) pc (es_cptr st) (es_states st) (es_state_size st).
Definition with_cptr (st : exec_state) (cptr : Z) : exec_state :=
  mkES (es_capture st) (es_stack st) (es_stack_len st) (es_pc st) cptr (es_states st) (es_state_size st).
Definition with_capture (st : exec_state) (capture : list cap) : exec_state :=
  mkES capture (es_stack st) (es_stack_len st) (es_pc st) (es_cptr st) (es_states st) (es_state_size st).
Definition with_stack (st : exec_state) (stack : list (option Z)) (stack_len : Z) : exec_state :=
  mkES (es_capture st) stack stack_len (es_pc st) (es_cptr st) (es_states st) (es_state_size st).
Definition with_states (st : exec_state) (states : list REExecState) (size : Z) : exec_state :=
  mkES (es_capture st) (es_stack st) (es_stack_len st) (es_pc st) (es_cptr st) states size.

(** how one opcode ends: [break], [goto no_match], or [return -1] *)
Inductive step_result := SNext (st : exec_state) | SNoMatch (st : exec_state) | SError (st : exec_state).
(** how [lre_exec_backtrack] ends: -1, 0, or 1 - the position with [no_recurse] *)
Inductive exec_result := RError | RFail | RMatch (cptr : Z).

Section Exec.
Context `{!Allocator}.
Context (s : REExecContext).
Let cbuf := s_cbuf s.
Let cbuf_end := s_cbuf_end s.
Let bc := s_bc s.
Let get_char (cptr : Z) : option (Z * Z) := GET_CHAR cbuf (s_cbuf_type s) cptr cbuf_end.
(** [if (s->ignore_case) c = lre_canonicalize(c, s->is_unicode)] *)
Definition exec_fold (c : Z) : option Z :=
  if s_ignore_case s then lre_canonicalize c (s_is_unicode s) else Some c.
(** [sizeof(REExecState) + ...] with 8-byte pointers *)
Definition s_state_size : Z := 32 + s_capture_count s * 8 * 2 + s_stack_size_max s * 8.

(** [push_state]: -1 when the stack cannot grow *)
Definition push_state (st : exec_state) (pc cptr : Z) (type : REExecStateEnum) (count : Z) :
    M (Z * exec_state) :=
  '(ret, size) ←
    (if zlen (es_states st) + 1 >? es_state_size st then
       let new_size := max_int (es_state_size st * 3 / 2) 8 in
       ok ← realloc (new_size * s_state_size);
       mret (if ok : bool then (0, new_size) else (-1, es_state_size st))
     else mret (0, es_state_size st));
  if ret <? 0 then mret (-1, st)
  else
    _ ← massert ((2 * s_capture_count s <=? zlen (es_capture st)) &&
                 (0 <=? es_stack_len st) && (es_stack_len st <=? zlen (es_stack st)));
    let rs := mkRS type count cptr pc (ztake (2 * s_capture_count s) (es_capture st))
                (ztake (es_stack_len st) (es_stack st)) in
    mret (0, with_states st (rs :: es_states st) size).

(** ** Opcodes *)

(** label [test_char] *)
Definition exec_test_char (st : exec_state) (val : Z) : option step_result :=
  if es_cptr st >=? cbuf_end then Some (SNoMatch st)
  else
    '(c, cptr) ← get_char (es_cptr st);
    c ← exec_fold c;
    if negb (val =? c) then Some (SNoMatch st) else Some (SNext (with_cptr st cptr)).
Definition exec_char (st : exec_state) : option step_result :=
  val ← get_u16 bc (es_pc st); exec_test_char (with_pc st (es_pc st + 2)) val.
Definition exec_char32 (st : exec_state) : option step_result :=
  val ← get_u32 bc (es_pc st); exec_test_char (with_pc st (es_pc st + 4)) val.
Definition exec_split (st : exec_state) (opcode : Z) : M step_result :=
  val ← lift (get_u32 bc (es_pc st));
  let pc := es_pc st + 4 in
  let '(pc, pc1) := if opcode =? REOP_split_next_first then (pc, pc + i32 val) else (pc + i32 val, pc) in
  '(ret, st) ← push_state (with_pc st pc) pc1 (es_cptr st) RE_EXEC_STATE_SPLIT 0;
  mret (if ret <? 0 then SError st else SNext st).
Definition exec_lookahead (st : exec_state) (opcode : Z) : M step_result :=
  val ← lift (get_u32 bc (es_pc st));
  let pc := es_pc st + 4 in
  '(ret, st) ← push_state (with_pc st pc) (pc + i32 val) (es_cptr st)
     (if opcode =? REOP_lookahead then RE_EXEC_STATE_LOOKAHEAD else RE_EXEC_STATE_NEGATIVE_LOOKAHEAD) 0;
  mret (if ret <? 0 then SError st else SNext st).
Definition exec_goto (st : exec_state) : option step_result :=
  val ← get_u32 bc (es_pc st); Some (SNext (with_pc st (es_pc st + 4 + i32 val))).
Definition exec_line_start (st : exec_state) : option step_result :=
  if es_cptr st =? 0 then Some (SNext st)
  else if negb (s_multi_line s) then Some (SNoMatch st)
  else
    c ← PEEK_PREV_CHAR cbuf (s_cbuf_type s) (es_cptr st) 0;
    Some (if negb (is_line_terminator c) then SNoMatch st else SNext st).
Definition exec_line_end (st : exec_state) : option step_result :=
  if es_cptr st =? cbuf_end then Some (SNext st)
  else if negb (s_multi_line s) then Some (SNoMatch st)
  else
    c ← PEEK_CHAR cbuf (s_cbuf_type s) (es_cptr st) cbuf_end;
    Some (if negb (is_line_terminator c) then SNoMatch st else SNext st).
Definition exec_dot (st : exec_state) : option step_result :=
  if es_cptr st =? cbuf_end then Some (SNoMatch st)
  else
    '(c, cptr) ← get_char (es_cptr st);
    Some (if is_line_terminator c then SNoMatch st else SNext (with_cptr st cptr)).
Definition exec_any (st : exec_state) : option step_result :=
  if es_cptr st =? cbuf_end then Some (SNoMatch st)
  else '(c, cptr) ← get_char (es_cptr st); Some (SNext (with_cptr st cptr)).
Definition exec_save (st : exec_state) (opcode : Z) : option step_result :=
  val ← bc.[es_pc st];
  if val <? s_capture_count s then
    capture ← aset (es_capture st) (2 * val + opcode - REOP_save_start) (Some (es_cptr st));
    Some (SNext (with_pc (with_capture st capture) (es_pc st + 1)))
  else None.
(** [while (val <= val2)] *)
Fixpoint reset_captures (fuel : nat) (capture : list cap) (val val2 : Z) : option (list cap) :=
  match fuel with
  | O => None
  | S fuel =>
    if val <=? val2 then
      capture ← aset capture (2 * val) (None : cap); capture ← aset capture (2 * val + 1) (None : cap);
      reset_captures fuel capture (val + 1) val2
    else Some capture
  end.
Definition exec_save_reset (st : exec_state) : option step_result :=
  val ← bc.[es_pc st]; val2 ← bc.[es_pc st + 1];
  if val2 <? s_capture_count s then
    capture ← reset_captures (S (length (es_capture st))) (es_capture st) val val2;
    Some (SNext (with_pc (with_capture st capture) (es_pc st + 2)))
  else None.
(** [stack[stack_len++] = v] *)
Definition stack_push (st : exec_state) (v : Z) : option exec_state :=
  stack ← aset (es_stack st) (es_stack_len st) (Some v);
  Some (with_stack st stack (es_stack_len st + 1)).
Definition exec_push_i32 (st : exec_state) : option step_result :=
  val ← get_u32 bc (es_pc st);
  st ← stack_push (with_pc st (es_pc st + 4)) val; Some (SNext st).
Definition exec_drop (st : exec_state) : option step_result :=
  Some (SNext (with_stack st (es_stack st) (es_stack_len st - 1))).
Definition exec_loop (st : exec_state) : option step_result :=
  val ← get_u32 bc (es_pc st);
  let pc := es_pc st + 4 in
  top ← (es_stack st).[es_stack_len st - 1]; top ← top;
  let top := u64 (top - 1) in
  stack ← aset (es_stack st) (es_stack_len st - 1) (Some top);
  let pc := if negb (top =? 0) then pc + i32 val else pc in
  Some (SNext (with_pc (with_stack st stack (es_stack_len st)) pc)).
Definition exec_push_char_pos (st : exec_state) : option step_result :=
  st ← stack_push st (es_cptr st); Some (SNext st).
Definition exec_check_advance (st : exec_state) : option step_result :=
  let stack_len := es_stack_len st - 1 in
  top ← (es_stack st).[stack_len]; top ← top;
  let st := with_stack st (es_stack st) stack_len in
  Some (if top =? es_cptr st then SNoMatch st else SNext st).
Definition exec_word_boundary (st : exec_state) (opcode : Z) : option step_result :=
  v1 ← (if es_cptr st =? 0 then Some false
        else c ← PEEK_PREV_CHAR cbuf (s_cbuf_type s) (es_cptr st) 0; Some (is_word_char c));
  v2 ← (if es_cptr st >=? cbuf_end then Some false
        else c ← PEEK_CHAR cbuf (s_cbuf_type s) (es_cptr st) cbuf_end; Some (is_word_char c));
  Some (if negb (((b2z v1 .^ b2z v2) .^ (REOP_not_word_boundary - opcode)) =? 0)
        then SNoMatch st else SNext st).

(** the two loops of the back references: the final position, or no match *)
Fixpoint exec_back_ref (fuel : nat) (cptr1 cptr1_end cptr : Z) : option (option Z) :=
  match fuel with
  | O => None
  | S fuel =>
    if cptr1 <? cptr1_end then
      if cptr >=? cbuf_end then Some None
      else
        '(c1, cptr1) ← GET_CHAR cbuf (s_cbuf_type s) cptr1 cptr1_end;
        '(c2, cptr) ← get_char cptr;
        c1 ← exec_fold c1; c2 ← exec_fold c2;
        if negb (c1 =? c2) then Some None else exec_back_ref fuel cptr1 cptr1_end cptr
    else Some (Some cptr)
  end.
Fixpoint exec_backward_back_ref (fuel : nat) (cptr1 cptr1_start cptr : Z) : option (option Z) :=
  match fuel with
  | O => None
  | S fuel =>
    if cptr1 >? cptr1_start then
      if cptr =? 0 then Some None
      else
        '(c1, cptr1) ← GET_PREV_CHAR cbuf (s_cbuf_type s) cptr1 cptr1_start;
        '(c2, cptr) ← GET_PREV_CHAR cbuf (s_cbuf_type s) cptr 0;
        c1 ← exec_fold c1; c2 ← exec_fold c2;
        if negb (c1 =? c2) then Some None else exec_backward_back_ref fuel cptr1 cptr1_start cptr
    else Some (Some cptr)
  end.
Definition exec_back_reference (st : exec_state) (opcode : Z) : option step_result :=
  val ← bc.[es_pc st];
  let st := with_pc st (es_pc st + 1) in
  if val >=? s_capture_count s then Some (SNoMatch st)
  else
    cptr1_start ← (es_capture st).[2 * val];
    cptr1_end ← (es_capture st).[2 * val + 1];
    match cptr1_start, cptr1_end with
    | Some cptr1_start, Some cptr1_end =>
      r ← (if opcode =? REOP_back_reference
           then exec_back_ref (S (length cbuf)) cptr1_start cptr1_end (es_cptr st)
           else exec_backward_back_ref (S (length cbuf)) cptr1_end cptr1_start (es_cptr st));
      Some (match r with None => SNoMatch st | Some cptr => SNext (with_cptr st cptr) end)
    | _, _ => Some (SNext st)
    end.

(** the binary search of REOP_range and REOP_range32: [get_low] and [get_high]
    read the bounds of interval [idx] *)
Fixpoint range_search (fuel : nat) (get_low get_high : Z → option Z) (c idx_min idx_max : Z) : option bool :=
  match fuel with
  | O => None
  | S fuel =>
    if idx_min <=? idx_max then
      let idx := u32 (idx_min + idx_max) / 2 in
      low ← get_low idx; high ← get_high idx;
      if c <? low then range_search fuel get_low get_high c idx_min (u32 (idx - 1))
      else if c >? high then range_search fuel get_low get_high c (idx + 1) idx_max
      else Some true
    else Some false
  end.
Definition exec_range (st : exec_state) : option step_result :=
  n ← get_u16 bc (es_pc st);
  let pc := es_pc st + 2 in
  let st := with_pc st pc in
  if es_cptr st >=? cbuf_end then Some (SNoMatch st)
  else
    '(c, cptr) ← get_char (es_cptr st);
    c ← exec_fold c;
    low ← get_u16 bc (pc + 0 * 4);
    if c <? low then Some (SNoMatch st)
    else
      let idx_max := u32 (n - 1) in
      high ← get_u16 bc (pc + idx_max * 4 + 2);
      let range_match := SNext (with_pc (with_cptr st cptr) (pc + 4 * n)) in
      if (c >=? 0xffff) && (high =? 0xffff) then Some range_match
      else if c >? high then Some (SNoMatch st)
      else
        found ← range_search (S (Z.to_nat n)) (λ idx, get_u16 bc (pc + idx * 4))
                  (λ idx, get_u16 bc (pc + idx * 4 + 2)) c 0 idx_max;
        Some (if found : bool then range_match else SNoMatch st).
Definition exec_range32 (st : exec_state) : option step_result :=
  n ← get_u16 bc (es_pc st);
  let pc := es_pc st + 2 in
  let st := with_pc st pc in
  if es_cptr st >=? cbuf_end then Some (SNoMatch st)
  else
    '(c, cptr) ← get_char (es_cptr st);
    c ← exec_fold c;
    low ← get_u32 bc (pc + 0 * 8);
    if c <? low then Some (SNoMatch st)
    else
      let idx_max := u32 (n - 1) in
      high ← get_u32 bc (pc + idx_max * 8 + 4);
      if c >? high then Some (SNoMatch st)
      else
        found ← range_search (S (Z.to_nat n)) (λ idx, get_u32 bc (pc + idx * 8))
                  (λ idx, get_u32 bc (pc + idx * 8 + 4)) c 0 idx_max;
        Some (if found : bool then SNext (with_pc (with_cptr st cptr) (pc + 8 * n)) else SNoMatch st).
Definition exec_prev (st : exec_state) : option step_result :=
  if es_cptr st =? 0 then Some (SNoMatch st)
  else cptr ← PREV_CHAR cbuf (s_cbuf_type s) (es_cptr st) 0; Some (SNext (with_cptr st cptr)).

(** the opcodes other than [REOP_match] and [REOP_simple_greedy_quant], after
    [opcode = *pc++] *)
Definition exec_step (st : exec_state) (opcode : Z) : M step_result :=
  if opcode =? REOP_char32 then lift (exec_char32 st)
  else if opcode =? REOP_char then lift (exec_char st)
  else if (opcode =? REOP_split_goto_first) || (opcode =? REOP_split_next_first) then exec_split st opcode
  else if (opcode =? REOP_lookahead) || (opcode =? REOP_negative_lookahead) then exec_lookahead st opcode
  else if opcode =? REOP_goto then lift (exec_goto st)
  else if opcode =? REOP_line_start then lift (exec_line_start st)
  else if opcode =? REOP_line_end then lift (exec_line_end st)
  else if opcode =? REOP_dot then lift (exec_dot st)
  else if opcode =? REOP_any then lift (exec_any st)
  else if (opcode =? REOP_save_start) || (opcode =? REOP_save_end) then lift (exec_save st opcode)
  else if opcode =? REOP_save_reset then lift (exec_save_reset st)
  else if opcode =? REOP_push_i32 then lift (exec_push_i32 st)
  else if opcode =? REOP_drop then lift (exec_drop st)
  else if opcode =? REOP_loop then lift (exec_loop st)
  else if opcode =? REOP_push_char_pos then lift (exec_push_char_pos st)
  else if opcode =? REOP_check_advance then lift (exec_check_advance st)
  else if (opcode =? REOP_word_boundary) || (opcode =? REOP_not_word_boundary) then
    lift (exec_word_boundary st opcode)
  else if (opcode =? REOP_back_reference) || (opcode =? REOP_backward_back_reference) then
    lift (exec_back_reference st opcode)
  else if opcode =? REOP_range then lift (exec_range st)
  else if opcode =? REOP_range32 then lift (exec_range32 st)
  else if opcode =? REOP_prev then lift (exec_prev st)
  else ub.

(** ** Backtracking *)

(** [memcpy] of saved elements to the start of an array *)
Definition memcpy_to {A} (dst src : list A) : option (list A) :=
  if zlen src <=? zlen dst then Some (src ++ zdrop (zlen src) dst) else None.
(** restore [pc], [cptr] and the stack of a choice point, and its captures
    unless they are kept (label [pop_state1]) *)
Definition restore_state (st : exec_state) (rs : REExecState) (keep_capture : bool) : option exec_state :=
  capture ← (if keep_capture then Some (es_capture st) else memcpy_to (es_capture st) (rs_capture rs));
  stack ← memcpy_to (es_stack st) (rs_stack rs);
  Some (mkES capture stack (zlen (rs_stack rs)) (rs_pc rs) (rs_cptr rs) (es_states st) (es_state_size st)).
(** [for(i = 0; i < char_count; i++) PREV_CHAR(..)] *)
Fixpoint go_backward (n : nat) (cptr : Z) : option Z :=
  match n with
  | O => Some cptr
  | S n => cptr ← PREV_CHAR cbuf (s_cbuf_type s) cptr 0; go_backward n cptr
  end.
(** the [RE_EXEC_STATE_GREEDY_QUANT] choice point: one character block less *)
Definition resume_greedy (st : exec_state) (rs : REExecState) (rest : list REExecState) : option exec_state :=
  st ← restore_state st rs false;
  let pc := rs_pc rs in
  char_count ← get_u32 bc (pc + 12);
  cptr ← go_backward (Z.to_nat char_count) (rs_cptr rs);
  next ← get_u32 bc pc;
  let count := u64 (rs_count rs - 1) in
  let states :=
    if count =? 0 then rest
    else mkRS (rs_type rs) count cptr pc (rs_capture rs) (rs_stack rs) :: rest in
  Some (with_states (with_cptr (with_pc st (pc + 16 + i32 next)) cptr) states (es_state_size st)).
(** the [for(;;)] at the label [recurse]: the choice point where execution
    resumes, or the final [ret] when there is none *)
Fixpoint exec_recurse (states : list REExecState) (st : exec_state) (ret : bool) :
    option (bool * exec_state + exec_state) :=
  match states with
  | [] => Some (inl (ret, with_states st [] (es_state_size st)))
  | rs :: rest =>
    match rs_type rs with
    | RE_EXEC_STATE_SPLIT =>
      if negb ret then
        st ← restore_state st rs false; Some (inr (with_states st rest (es_state_size st)))
      else exec_recurse rest st ret
    | RE_EXEC_STATE_GREEDY_QUANT =>
      if negb ret then st ← resume_greedy st rs rest; Some (inr st)
      else exec_recurse rest st ret
    | RE_EXEC_STATE_LOOKAHEAD =>
      if ret then
        st ← restore_state st rs true; Some (inr (with_states st rest (es_state_size st)))
      else exec_recurse rest st false
    | RE_EXEC_STATE_NEGATIVE_LOOKAHEAD =>
      if negb ret then
        st ← restore_state st rs false; Some (inr (with_states st rest (es_state_size st)))
      else exec_recurse rest st false
    end
  end.

(** the [for(;;)] of [REOP_simple_greedy_quant]: [rec] runs the block, [q]
    counts its matches; the final [cptr] and [q], or an error *)
Fixpoint greedy_loop (rec : exec_state → M (exec_result * exec_state)) (fuel : nat) (st : exec_state)
    (pc1 q quant_max : Z) : M (option Z * exec_state) :=
  match fuel with
  | O => ub
  | S fuel =>
    let stack_len := es_stack_len st in
    let cptr := es_cptr st in
    '(res, st) ← rec (with_pc st pc1);
    let st := with_cptr (with_stack st (es_stack st) stack_len) cptr in
    match res with
    | RError => mret (None, st)
    | RFail => mret (Some q, st)
    | RMatch cptr =>
      let st := with_cptr st cptr in
      let q := q + 1 in
      if (q >=? quant_max) && negb (quant_max =? INT32_MAX) then mret (Some q, st)
      else greedy_loop rec fuel st pc1 q quant_max
    end
  end.
Definition exec_simple_greedy_quant (rec : exec_state → M (exec_result * exec_state)) (fuel : nat)
    (st : exec_state) : M step_result :=
  let pc := es_pc st in
  next_pos ← lift (get_u32 bc pc);
  quant_min ← lift (get_u32 bc (pc + 4));
  quant_max ← lift (get_u32 bc (pc + 8));
  let pc1 := pc + 16 in
  let pc := pc1 + i32 next_pos in
  '(q, st) ← greedy_loop rec fuel st pc1 0 quant_max;
  let st := with_pc st pc in
  match q with
  | None => mret (SError st)
  | Some q =>
    if q <? quant_min then mret (SNoMatch st)
    else if q >? quant_min then
      '(ret, st) ← push_state st (pc1 - 16) (es_cptr st) RE_EXEC_STATE_GREEDY_QUANT (q - quant_min);
      mret (if ret <? 0 then SError st else SNext st)
    else mret (SNext st)
  end.

(** the main [for(;;)]; the fuel bounds the number of opcodes and the nesting *)
Fixpoint lre_exec_backtrack (fuel : nat) (st : exec_state) (no_recurse : bool) : M (exec_result * exec_state) :=
  match fuel with
  | O => ub
  | S fuel =>
    opcode ← lift bc.[es_pc st];
    let st := with_pc st (es_pc st + 1) in
    let recurse ret st :=
      r ← lift (exec_recurse (es_states st) st ret);
      match r with
      | inl (ret, st) => mret (if ret : bool then RMatch (es_cptr st) else RFail, st)
      | inr st => lre_exec_backtrack fuel st no_recurse
      end in
    if opcode =? REOP_match then
      if no_recurse then mret (RMatch (es_cptr st), st) else recurse true st
    else
      r ← (if opcode =? REOP_simple_greedy_quant
           then exec_simple_greedy_quant (λ st, lre_exec_backtrack fuel st true) fuel st
           else exec_step st opcode);
      match r with
      | SNext st => lre_exec_backtrack fuel st no_recurse
      | SNoMatch st => if no_recurse then mret (RFail, st) else recurse false st
      | SError st => mret (RError, st)
      end
  end.
End Exec.

(** ** Entry points *)
Definition lre_get_capture_count (bc_buf : list Z) : option Z := bc_buf.[RE_HEADER_CAPTURE_COUNT].
Definition lre_get_flags (bc_buf : list Z) : option Z := bc_buf.[RE_HEADER_FLAGS].
(** the offset of the group names in the byte code, [None] for NULL *)
Definition lre_get_groupnames (bc_buf : list Z) : option (option Z) :=
  flags ← lre_get_flags bc_buf;
  if flags .& LRE_FLAG_NAMED_GROUPS =? 0 then Some None
  else
    re_bytecode_len ← get_u32 bc_buf RE_HEADER_BYTECODE_LEN;
    Some (Some (RE_HEADER_LEN + re_bytecode_len)).

(** [lre_exec]: 1, 0 or -1, and the captures; [cbuf] are the [clen] code units *)
Definition exec_context (bc_buf cbuf : list Z) (cbuf_type : Z) : option REExecContext :=
  re_flags ← lre_get_flags bc_buf;
  capture_count ← lre_get_capture_count bc_buf;
  stack_size_max ← bc_buf.[RE_HEADER_STACK_SIZE];
  let is_unicode := has_flag re_flags LRE_FLAG_UNICODE in
  Some (mkCtx cbuf (if (cbuf_type =? 1) && is_unicode then 2 else cbuf_type) capture_count stack_size_max
          (has_flag re_flags LRE_FLAG_MULTILINE) (has_flag re_flags LRE_FLAG_IGNORECASE) is_unicode bc_buf).
Definition exec_init (s : REExecContext) (cindex : Z) : exec_state :=
  mkES (repeat None (Z.to_nat (2 * s_capture_count s))) (repeat None (Z.to_nat (s_stack_size_max s))) 0
    RE_HEADER_LEN cindex [] 0.
Definition lre_exec `{!Allocator} (fuel : nat) (bc_buf cbuf : list Z) (cindex cbuf_type : Z) :
    M (Z * list cap) :=
  s ← lift (exec_context bc_buf cbuf cbuf_type);
  '(r, st) ← lre_exec_backtrack s fuel (exec_init s cindex) false;
  mret (match r with RError => -1 | RFail => 0 | RMatch _ => 1 end, es_capture st).
