(* ===== verification/ReLex.v ===== *)
(** * Lexical level of the regular expression compiler (js/libregexp.c)

    Functions that read the pattern without emitting code: digits, escape
    sequences, identifiers, group names and the search for captures.  The
    pattern is the NUL terminated buffer [buf]; a pointer into it is an index,
    and a function that advances [*pp] returns the new index. *)
From S2P Require Import Prelude Cutils Utf8 UnicodeTables CaseConv RunTable ReOpcodes.

Definition char_range_d : list Z := [1; 0x0030; 0x0039 + 1].
Definition char_range_s : list Z :=
  [10; 0x0009; 0x000D + 1; 0x0020; 0x0020 + 1; 0x00A0; 0x00A0 + 1; 0x1680; 0x1680 + 1;
   0x2000; 0x200A + 1; 0x2028; 0x2029 + 1; 0x202F; 0x202F + 1; 0x205F; 0x205F + 1;
   0x3000; 0x3000 + 1; 0xFEFF; 0xFEFF + 1].
Definition char_range_w : list Z :=
  [4; 0x0030; 0x0039 + 1; 0x0041; 0x005A + 1; 0x005F; 0x005F + 1; 0x0061; 0x007A + 1].

Fixpoint lre_is_space_loop (fuel : nat) (c i n : Z) : option bool :=
  match fuel with
  | O => None
  | S fuel =>
    if i <? n then
      low ← char_range_s.[2 * i + 1];
      if c <? low then Some false
      else
        high ← char_range_s.[2 * i + 2];
        if c <? high then Some true else lre_is_space_loop fuel c (i + 1) n
    else Some false
  end.
Definition lre_is_space (c : Z) : option bool :=
  lre_is_space_loop (S (length char_range_s)) c 0 ((zlen char_range_s - 1) / 2).

Definition lre_id_start_table_ascii : list Z := [0x00000000; 0x00000010; 0x87FFFFFE; 0x07FFFFFE].
Definition lre_id_continue_table_ascii : list Z := [0x00000000; 0x03FF0010; 0x87FFFFFE; 0x07FFFFFE].
Definition lre_js_is_ident_first (c : Z) : option bool :=
  if c <? 128 then
    w ← lre_id_start_table_ascii.[c >> 5]; Some (negb ((w >> (c .& 31)) .& 1 =? 0))
  else lre_is_id_start c.
Definition lre_js_is_ident_next (c : Z) : option bool :=
  if c <? 128 then
    w ← lre_id_continue_table_ascii.[c >> 5]; Some (negb ((w >> (c .& 31)) .& 1 =? 0))
  else
    b ← lre_is_id_continue c; Some (b || (c =? 0x200C) || (c =? 0x200D)).

Section Buffer.
Context (buf : list Z).

(** the value and the new position; -1 on overflow, with [*pp] unchanged *)
Fixpoint parse_digits_loop (fuel : nat) (p v : Z) (allow_overflow : bool) : option (option (Z * Z)) :=
  match fuel with
  | O => None
  | S fuel =>
    c ← buf.[p];
    if (c <? 0x30) || (c >? 0x39) then Some (Some (v, p))
    else
      let v := v * 10 + c - 0x30 in
      if v >=? INT32_MAX then
        if allow_overflow then parse_digits_loop fuel (p + 1) INT32_MAX allow_overflow else Some None
      else parse_digits_loop fuel (p + 1) v allow_overflow
  end.
Definition parse_digits (p : Z) (allow_overflow : bool) : option (Z * Z) :=
  r ← parse_digits_loop (S (length buf)) p 0 allow_overflow;
  Some (match r with Some vp => vp | None => (-1, p) end).

(** the loop of [\u{...}]: the code point and the position of the closing
    brace, or [None] for [return -1] *)
Fixpoint escape_braces (fuel : nat) (p c : Z) : option (option (Z * Z)) :=
  match fuel with
  | O => None
  | S fuel =>
    h ← buf.[p]; let h := from_hex h in let p := p + 1 in
    if h <? 0 then Some None
    else
      let c := (c << 4) .| h in
      if c >? 0x10FFFF then Some None
      else
        x ← buf.[p];
        if x =? 0x7d then Some (Some (c, p)) else escape_braces fuel p c
  end.
(** [n] hexadecimal digits *)
Fixpoint escape_hex (n : nat) (p c : Z) : option (option (Z * Z)) :=
  match n with
  | O => Some (Some (c, p))
  | S n =>
    h ← buf.[p]; let h := from_hex h in
    if h <? 0 then Some None else escape_hex n (p + 1) ((c << 4) .| h)
  end.
(** the second half of an escaped surrogate pair at [p], if there is one *)
Definition escape_low_surrogate (p : Z) : option (option Z) :=
  r ← escape_hex 4 (p + 2) 0;
  Some (match r with Some (c1, _) => if is_lo_surrogate c1 then Some c1 else None | None => None end).
(** [case 'x': case 'u':], at [p] after the letter *)
Definition escape_xu (is_x : bool) (p allow_utf16 : Z) : option (option (Z * Z)) :=
  x ← buf.[p];
  if (x =? 0x7b) && negb (allow_utf16 =? 0) then
    r ← escape_braces (S (length buf)) (p + 1) 0;
    Some (match r with Some (c, p) => Some (c, p + 1) | None => None end)
  else
    r ← escape_hex (if is_x then 2 else 4) p 0;
    match r with
    | None => Some None
    | Some (c, p) =>
      if is_hi_surrogate c && (allow_utf16 =? 2) then
        x ← buf.[p];
        if x =? 0x5c then
          y ← buf.[p + 1];
          if y =? 0x75 then
            lo ← escape_low_surrogate p;
            Some (Some (match lo with Some c1 => (from_surrogate c c1, p + 6) | None => (c, p) end))
          else Some (Some (c, p))
        else Some (Some (c, p))
      else Some (Some (c, p))
    end.
(** [case '0' ... '7'] *)
Definition escape_octal (c p allow_utf16 : Z) : option (option (Z * Z)) :=
  let c := c - 0x30 in
  if allow_utf16 =? 2 then
    if negb (c =? 0) then Some None
    else x ← buf.[p]; if is_digit x then Some None else Some (Some (c, p))
  else
    x ← buf.[p];
    let v := u32 (x - 0x30) in
    if v >? 7 then Some (Some (c, p))
    else
      let c := (c << 3) .| v in
      let p := p + 1 in
      if c >=? 32 then Some (Some (c, p))
      else
        x ← buf.[p];
        let v := u32 (x - 0x30) in
        if v >? 7 then Some (Some (c, p)) else Some (Some ((c << 3) .| v, p + 1)).
(** [lre_parse_escape]: the character (or -1, -2) and the new position *)
Definition lre_parse_escape (pp allow_utf16 : Z) : option (Z * Z) :=
  c ← buf.[pp];
  let p := pp + 1 in
  let done (r : option (option (Z * Z))) :=
    r ← r; Some (match r with Some cp => cp | None => (-1, pp) end) in
  if c =? 0x62 then Some (8, p)
  else if c =? 0x66 then Some (12, p)
  else if c =? 0x6e then Some (10, p)
  else if c =? 0x72 then Some (13, p)
  else if c =? 0x74 then Some (9, p)
  else if c =? 0x76 then Some (11, p)
  else if (c =? 0x78) || (c =? 0x75) then done (escape_xu (c =? 0x78) p allow_utf16)
  else if (0x30 <=? c) && (c <=? 0x37) then done (escape_octal c p allow_utf16)
  else Some (-2, pp).

(** [unicode_from_utf8(p, UTF8_CHAR_LEN_MAX, &p)] *)
Definition utf8_at (p : Z) : option (Z * Z) :=
  '(c, n) ← unicode_from_utf8 (zdrop p buf) UTF8_CHAR_LEN_MAX; Some (c, p + n).

(** one character of a group name: [Some None] for [return -1], [Some (Some None)]
    at the closing angle bracket *)
Definition group_name_char (p : Z) : option (option (option (Z * Z))) :=
  c ← buf.[p];
  if c =? 0x5c then
    x ← buf.[p + 1];
    if negb (x =? 0x75) then Some None
    else '(c, p) ← lre_parse_escape (p + 1) 2; Some (Some (Some (u32 c, p)))
  else if c =? 0x3e then Some (Some None)
  else if c >=? 128 then
    '(c, p) ← utf8_at p;
    let c := u32 c in
    if is_hi_surrogate c then
      '(d, p1) ← utf8_at p;
      if is_lo_surrogate (u32 d) then Some (Some (Some (from_surrogate c d, p1)))
      else Some (Some (Some (c, p)))
    else Some (Some (Some (c, p)))
  else Some (Some (Some (c, p + 1))).
(** [q] are the bytes stored so far; the bytes stored at the end, and the
    position of the closing angle bracket unless the name is refused *)
Fixpoint group_name_loop (fuel : nat) (q : list Z) (buf_size p : Z) : option (list Z * option Z) :=
  match fuel with
  | O => None
  | S fuel =>
    r ← group_name_char p;
    match r with
    | None => Some (q, None)
    | Some None => Some (q, Some p)
    | Some (Some (c, p)) =>
      if c >? 0x10FFFF then Some (q, None)
      else
        ok ← (if zlen q =? 0 then lre_js_is_ident_first c else lre_js_is_ident_next c);
        if negb ok then Some (q, None)
        else if zlen q + UTF8_CHAR_LEN_MAX + 1 >? buf_size then Some (q, None)
        else group_name_loop fuel (q ++ (if c <? 128 then [c] else unicode_to_utf8 c)) buf_size p
    end
  end.
(** [re_parse_group_name]: the bytes stored in the caller's buffer (the name
    and its NUL, or what an error leaves), and the position after the angle
    bracket, or [None] for -1 *)
Definition re_parse_group_name (buf_size p : Z) : option (list Z * option Z) :=
  '(q, p) ← group_name_loop (S (length buf)) [] buf_size p;
  Some (match p with
        | Some p => if zlen q =? 0 then (q, None) else (q ++ [0], Some (p + 1))
        | None => (q, None)
        end).

(** ** The captures of the whole pattern *)
Context (buf_end : Z).

(** the scan over a bracketed class, [p] after the bracket *)
Fixpoint skip_class (fuel : nat) (p : Z) : option Z :=
  match fuel with
  | O => None
  | S fuel =>
    if p <? buf_end then
      x ← buf.[p];
      if x =? 0x5d then Some p
      else if x =? 0x5c then skip_class fuel (p + 2)
      else skip_class fuel (p + 1)
    else Some p
  end.
(** the outcome: the returned index and [*phas_named_captures] *)
Fixpoint captures_loop (fuel : nat) (p capture_index : Z) (named : bool) (capture_name : option (list Z)) :
    option (Z * bool) :=
  match fuel with
  | O => None
  | S fuel =>
    let done capture_index named :=
      Some (match capture_name with Some _ => -1 | None => capture_index end, named) in
    if p <? buf_end then
      c ← buf.[p];
      if c =? 0x28 then
        x ← buf.[p + 1];
        if x =? 0x3f then
          y ← buf.[p + 2];
          is_name ← (if y =? 0x3c then
                       z ← buf.[p + 3]; Some (negb (z =? 0x3d) && negb (z =? 0x21))
                     else Some false);
          if is_name : bool then
            r ← (match capture_name with
                 | None => Some (p, None)
                 | Some _ =>
                   let p := p + 3 in
                   '(name, p1) ← re_parse_group_name TMP_BUF_SIZE p;
                   match p1 with
                   | Some p1 => len ← strlen name; Some (p1, Some (ztake len name))
                   | None => Some (p, None)
                   end
                 end);
            let '(p, name) := r in
            if bool_decide (capture_name ≠ None ∧ name = capture_name) then Some (capture_index, true)
            else
              let capture_index := capture_index + 1 in
              if capture_index >=? CAPTURE_COUNT_MAX then done capture_index true
              else captures_loop fuel (p + 1) capture_index true capture_name
          else captures_loop fuel (p + 1) capture_index named capture_name
        else
          let capture_index := capture_index + 1 in
          if capture_index >=? CAPTURE_COUNT_MAX then done capture_index named
          else captures_loop fuel (p + 1) capture_index named capture_name
      else if c =? 0x5c then captures_loop fuel (p + 2) capture_index named capture_name
      else if c =? 0x5b then
        p ← skip_class (S (length buf)) (p + 1 + b2z (c =? 0x5d));
        captures_loop fuel (p + 1) capture_index named capture_name
      else captures_loop fuel (p + 1) capture_index named capture_name
    else done capture_index named
  end.
Definition re_parse_captures (capture_name : option (list Z)) : option (Z * bool) :=
  captures_loop (S (length buf)) 0 1 false capture_name.
End Buffer.
