(* ===== verification/ReLexSpec.v ===== *)
(** * The lexer on zero-terminated patterns

    Every lexical function of ReLex.v is total on a zero-terminated pattern:
    it stays in bounds, its fuel is enough, the position never moves
    backwards, and its result is in the documented range. *)
From S2P Require Import Prelude Cutils Utf8 UnicodeTables CharRange CaseConv RunTable UnicodeProps ReOpcodes ReLex.

(** ** Helpers *)
Lemma zdrop_cons {A} p (l : list A) x rest :
  0 <= p → zdrop p l = x :: rest → l.[p] = Some x ∧ zdrop (p + 1) l = rest.
Proof.
  intros Hp Hz. unfold zdrop in *. unfold aget. zcase; [lia|].
  split.
  - replace (Z.to_nat p) with (Z.to_nat p + 0)%nat by lia. by rewrite <- lookup_drop, Hz.
  - replace (Z.to_nat (p + 1)) with (Z.to_nat p + 1)%nat by lia. by rewrite <- drop_drop, Hz.
Qed.
Lemma is_digit_iff d : is_digit d = true ↔ 0x30 <= d <= 0x39.
Proof. unfold is_digit. rewrite andb_true_iff, !Z.geb_leb, !Z.leb_le. lia. Qed.
Lemma digit_test d : ((d <? 0x30) || (d >? 0x39)) = negb (is_digit d).
Proof.
  unfold is_digit. rewrite Z.geb_leb, Z.gtb_ltb.
  destruct (Z.ltb_spec d 0x30), (Z.ltb_spec 0x39 d), (Z.leb_spec 0x30 d), (Z.leb_spec d 0x39); lia || done.
Qed.
Lemma from_hex_range x : from_hex x = -1 ∨ 0 <= from_hex x < 16.
Proof. unfold from_hex. repeat (zcase; [right; lia|]). by left. Qed.
Lemma octal_test x : (u32 (x - 0x30) >? 7) = (7 <? u32 (x - 0x30)).
Proof. apply Z.gtb_ltb. Qed.
Lemma u32_octal x : 0 <= x < 256 → u32 (x - 0x30) <= 7 → 0x30 <= x <= 0x37 ∧ u32 (x - 0x30) = x - 0x30.
Proof.
  intros Hx. unfold u32. destruct (Z.ltb_spec x 0x30).
  - rewrite <- (Z.mod_add _ 1), Z.mod_small by lia. lia.
  - rewrite Z.mod_small by lia. lia.
Qed.
Lemma elem_of_zdrop {A} p (l : list A) i x : l.[i] = Some x → 0 <= p <= i → x ∈ zdrop p l.
Proof.
  intros Hi Hp. unfold aget in Hi. destruct (i <? 0) eqn:En; [done|]. unfold zdrop.
  replace (Z.to_nat i) with (Z.to_nat p + Z.to_nat (i - p))%nat in Hi by lia.
  rewrite <- lookup_drop in Hi. by eapply list_elem_of_lookup_2.
Qed.
Lemma strlen_total l : 0 ∈ l → is_Some (strlen l).
Proof.
  induction l as [|x l IH]; intros Hin; [by apply elem_of_nil in Hin|]. cbn [strlen].
  destruct (Z.eqb_spec x 0); [eauto|]. apply elem_of_cons in Hin as [|Hin]; [done|].
  destruct (IH Hin) as [k ->]. eauto.
Qed.
Lemma unicode_to_utf8_len c : zlen (unicode_to_utf8 c) <= UTF8_CHAR_LEN_MAX.
Proof.
  unfold unicode_to_utf8, UTF8_CHAR_LEN_MAX, zlen.
  repeat match goal with |- context [if ?b then _ else _] => destruct b end; cbn [length]; lia.
Qed.
(** the tests of the ASCII identifier tables *)
Definition ident_first_ok (c : Z) : bool :=
  match lre_js_is_ident_first c with Some b => negb b || negb (c =? 0) | None => false end.
Definition ident_next_ok (c : Z) : bool :=
  match lre_js_is_ident_next c with Some b => negb b || negb (c =? 0) | None => false end.
Lemma lre_is_id_start_total c : 0 <= c → is_Some (lre_is_id_start c).
Proof.
  intros Hc. destruct (indexed_table_lookup unicode_prop_ID_Start_table unicode_prop_ID_Start_index c)
    as (_ & b & _ & _ & E & _); [by unfold indexed_tables; rewrite !elem_of_cons; tauto|done|].
  unfold lre_is_id_start. rewrite E. eauto.
Qed.
Lemma lre_is_id_continue_total c : 0 <= c → is_Some (lre_is_id_continue c).
Proof.
  intros Hc. unfold lre_is_id_continue. destruct (lre_is_id_start_total c Hc) as [[] ->]; [eauto|].
  cbn [mbind option_bind].
  destruct (indexed_table_lookup unicode_prop_ID_Continue1_table unicode_prop_ID_Continue1_index c)
    as (_ & b & _ & _ & E & _); [by unfold indexed_tables; rewrite !elem_of_cons; tauto|done|].
  rewrite E. eauto.
Qed.
(** the number a run of digits writes, after [acc] *)
Fixpoint digits_value (acc : Z) (ds : list Z) : Z :=
  match ds with [] => acc | d :: ds => digits_value (acc * 10 + (d - 0x30)) ds end.
Lemma digits_value_ge acc ds :
  0 <= acc → Forall (λ d, is_digit d = true) ds → acc <= digits_value acc ds.
Proof.
  revert acc. induction ds as [|d ds IH]; intros acc Hacc Hd; cbn [digits_value]; [lia|].
  apply Forall_cons in Hd as [Hd%is_digit_iff Hds]. specialize (IH (acc * 10 + (d - 0x30))).
  specialize (IH ltac:(lia) Hds). lia.
Qed.
Lemma digits_split l :
  (∃ x, x ∈ l ∧ is_digit x = false) →
  ∃ ds x rest, l = ds ++ x :: rest ∧ Forall (λ d, is_digit d = true) ds ∧ is_digit x = false.
Proof.
  induction l as [|y l IH]; intros (x & Hin & Hx); [by apply elem_of_nil in Hin|].
  destruct (is_digit y) eqn:Hy; [|by exists [], y, l].
  destruct IH as (ds & z & rest & -> & Hd & Hz).
  { apply elem_of_cons in Hin as [->|Hin]; [congruence|eauto]. }
  exists (y :: ds), z, rest. split; [done|]. split; [by constructor|done].
Qed.

(** the number a run of hexadecimal digits writes, after [acc] *)
Definition hex_value (acc : Z) (hs : list Z) : Z := foldl (λ c h, c * 16 + from_hex h) acc hs.
Lemma hex_value_ge acc hs : 0 <= acc → Forall (λ h, 0 <= from_hex h) hs → acc <= hex_value acc hs.
Proof.
  revert acc. induction hs as [|h hs IH]; intros acc Ha Hh; [done|].
  apply Forall_cons in Hh as [Hh Hhs]. specialize (IH (acc * 16 + from_hex h) ltac:(lia) Hhs).
  change (hex_value acc (h :: hs)) with (hex_value (acc * 16 + from_hex h) hs). lia.
Qed.
Lemma escape_hex_value buf hs rest p c :
  0 <= p → 0 <= c → zdrop p buf = hs ++ rest → Forall (λ h, 0 <= from_hex h) hs →
  escape_hex buf (length hs) p c = Some (Some (hex_value c hs, p + zlen hs)).
Proof.
  revert p c. induction hs as [|h hs IH]; intros p c Hp Hc Hz Hh; cbn [escape_hex length].
  { by rewrite zlen_nil, Z.add_0_r. }
  apply Forall_cons in Hh as [Hh Hhs]. apply zdrop_cons in Hz as [-> Hz]; [|done]. cbn [mbind option_bind].
  destruct (Z.ltb_spec (from_hex h) 0); [lia|].
  destruct (from_hex_range h) as [|Hr]; [lia|].
  rewrite lor_shiftl_add by (change (2 ^ 4) with 16; lia). rewrite (IH (p + 1)); [|lia|lia|done|done].
  rewrite zlen_cons. replace (p + 1 + zlen hs) with (p + (1 + zlen hs)) by lia. done.
Qed.
Lemma escape_braces_value buf hs rest p c fuel :
  0 <= p → 0 <= c → hs ≠ [] → zdrop p buf = hs ++ 0x7d :: rest → Forall (λ h, 0 <= from_hex h) hs →
  hex_value c hs <= 0x10FFFF → (length hs <= fuel)%nat →
  escape_braces buf fuel p c = Some (Some (hex_value c hs, p + zlen hs)).
Proof.
  revert p c hs. induction fuel as [|fuel IH]; intros p c hs Hp Hc Hne Hz Hh Hv Hf.
  { destruct hs; [done|cbn in Hf; lia]. }
  destruct hs as [|h hs]; [done|]. cbn [escape_braces].
  apply Forall_cons in Hh as [Hh Hhs]. apply zdrop_cons in Hz as [-> Hz]; [|done]. cbn [mbind option_bind].
  destruct (Z.ltb_spec (from_hex h) 0); [lia|]. destruct (from_hex_range h) as [|Hr]; [lia|].
  rewrite lor_shiftl_add by (change (2 ^ 4) with 16; lia).
  change (hex_value c (h :: hs)) with (hex_value (c * 2 ^ 4 + from_hex h) hs) in *.
  pose proof (hex_value_ge (c * 2 ^ 4 + from_hex h) hs ltac:(lia) Hhs).
  rewrite Z.gtb_ltb. destruct (Z.ltb_spec 0x10FFFF (c * 2 ^ 4 + from_hex h)); [lia|]. rewrite zlen_cons.
  destruct hs as [|h' hs].
  - apply zdrop_cons in Hz as [-> _]; [|lia]. done.
  - pose proof (zdrop_cons (p + 1) buf h' _ ltac:(lia) Hz) as [-> _]. cbn [mbind option_bind].
    destruct (Z.eqb_spec h' 0x7d) as [->|].
    { apply Forall_cons in Hhs as [Hhs _]. cbn in Hhs. lia. }
    rewrite (IH (p + 1) _ (h' :: hs)); [do 3 f_equal; lia|lia|lia|done..|cbn in *; lia].
Qed.

(** a zero-terminated buffer of [n] bytes; the encoder of the host emits no
    five or six byte UTF-8 form *)
Record pattern_buf (buf : list Z) (n : Z) : Prop := {
  pb_len : zlen buf = n + 1;
  pb_end : buf.[n] = Some 0;
  pb_bytes : Forall (λ b, 0 <= b < 0xf8) buf
}.

Section Pattern.
Context (buf : list Z) (n : Z) (Hbuf : pattern_buf buf n).

Lemma buf_len_nonneg : 0 <= n.
Proof. pose proof (aget_Some_range _ _ _ (pb_end _ _ Hbuf)). lia. Qed.
Lemma buf_get p : 0 <= p <= n → ∃ x, buf.[p] = Some x ∧ 0 <= x < 0xf8 ∧ (x ≠ 0 → p < n).
Proof.
  intros Hp. destruct (aget_is_Some buf p) as [x Hx]; [rewrite (pb_len _ _ Hbuf); lia|].
  exists x. split; [done|]. split.
  - unfold aget in Hx. destruct (p <? 0); [done|].
    pose proof (pb_bytes _ _ Hbuf) as Hb. rewrite Forall_lookup in Hb. by eapply Hb.
  - intros Hx0. destruct (decide (p = n)) as [->|]; [|lia].
    rewrite (pb_end _ _ Hbuf) in Hx. congruence.
Qed.

(** ** Digits *)
Lemma parse_digits_loop_spec fuel ds x rest p v allow_overflow :
  (length ds < fuel)%nat → 0 <= p → zdrop p buf = ds ++ x :: rest →
  Forall (λ d, is_digit d = true) ds → is_digit x = false → 0 <= v <= INT32_MAX →
  (allow_overflow = false → v < INT32_MAX) →
  parse_digits_loop buf fuel p v allow_overflow =
    Some (if allow_overflow || (digits_value v ds <? INT32_MAX)
          then Some (Z.min (digits_value v ds) INT32_MAX, p + zlen ds) else None).
Proof.
  revert ds p v. induction fuel as [|fuel IH]; intros ds p v Hf Hp Hz Hd Hx Hv Hov; [lia|].
  cbn [parse_digits_loop]. destruct ds as [|d ds].
  - apply zdrop_cons in Hz as [-> _]; [|done]. cbn [mbind option_bind digits_value].
    rewrite (digit_test x), Hx. cbn [negb]. destruct allow_overflow; cbn [orb].
    + rewrite zlen_nil. do 3 f_equal; lia.
    + specialize (Hov eq_refl). zcase; [|lia]. rewrite zlen_nil. do 3 f_equal; lia.
  - apply Forall_cons in Hd as [Hd Hds]. apply zdrop_cons in Hz as [-> Hz]; [|done].
    cbn [mbind option_bind digits_value]. rewrite (digit_test d), Hd. cbn [negb].
    apply is_digit_iff in Hd. replace (v * 10 + d - 48) with (v * 10 + (d - 48)) by lia.
    rewrite zlen_cons. cbn in Hf. rewrite Z.geb_leb. destruct (Z.leb_spec INT32_MAX (v * 10 + (d - 48))).
    + pose proof (digits_value_ge (v * 10 + (d - 48)) ds ltac:(lia) Hds).
      destruct allow_overflow; cbn [orb]; [|zcase; [lia|done]].
      pose proof (digits_value_ge INT32_MAX ds ltac:(unfold INT32_MAX; lia) Hds).
      rewrite (IH ds) by (done || lia || (unfold INT32_MAX; lia)). cbn [orb]. do 3 f_equal; lia.
    + rewrite (IH ds) by (done || lia). destruct (_ || _); [|done]. do 3 f_equal. lia.
Qed.
(** the run of digits at [p], and what the function makes of it *)
Lemma parse_digits_run ds x rest p allow_overflow :
  0 <= p → zdrop p buf = ds ++ x :: rest → Forall (λ d, is_digit d = true) ds → is_digit x = false →
  parse_digits buf p allow_overflow =
    Some (if allow_overflow || (digits_value 0 ds <? INT32_MAX)
          then (Z.min (digits_value 0 ds) INT32_MAX, p + zlen ds) else (-1, p)).
Proof.
  intros Hp Hz Hd Hx. unfold parse_digits.
  rewrite (parse_digits_loop_spec _ ds x rest) by (done || (unfold INT32_MAX; lia) ||
    (apply (f_equal length) in Hz; unfold zdrop in Hz; rewrite length_drop, length_app in Hz; cbn in Hz; lia)).
  cbn [mbind option_bind]. by destruct (_ || _).
Qed.
Lemma parse_digits_total p allow_overflow :
  0 <= p <= n →
  ∃ v p', parse_digits buf p allow_overflow = Some (v, p') ∧ p <= p' <= n ∧
    ((v = -1 ∧ p' = p ∧ allow_overflow = false) ∨ 0 <= v <= INT32_MAX).
Proof.
  intros Hp. destruct (digits_split (zdrop p buf)) as (ds & x & rest & Hz & Hd & Hx).
  { exists 0. split; [|done]. apply (elem_of_zdrop _ _ n); [by apply pb_end|lia]. }
  rewrite (parse_digits_run ds x rest) by (done || lia).
  assert (zlen ds + zlen rest = n - p) as Hl.
  { apply (f_equal zlen) in Hz. rewrite zlen_zdrop in Hz by (rewrite (pb_len _ _ Hbuf); lia).
    rewrite (pb_len _ _ Hbuf), zlen_app, zlen_cons in Hz. lia. }
  pose proof (zlen_nonneg ds). pose proof (zlen_nonneg rest).
  pose proof (digits_value_ge 0 ds ltac:(lia) Hd).
  destruct allow_overflow; cbn [orb].
  - eexists _, _. split; [reflexivity|]. split; [lia|]. right. unfold INT32_MAX in *. lia.
  - zcase; eexists _, _; (split; [reflexivity|]); (split; [lia|]); [right; lia|by left].
Qed.

(** ** Escapes *)
Lemma escape_hex_spec k p c :
  0 <= p <= n → 0 <= c →
  ∃ r, escape_hex buf k p c = Some r ∧
    match r with
    | None => True
    | Some (c', p') => c * 16 ^ Z.of_nat k <= c' < (c + 1) * 16 ^ Z.of_nat k ∧ p' = p + Z.of_nat k ∧ p' <= n
    end.
Proof.
  revert p c. induction k as [|k IH]; intros p c Hp Hc; cbn [escape_hex].
  { eexists. split; [reflexivity|]. cbn. lia. }
  destruct (buf_get p Hp) as (x & -> & Hx & Hlt). cbn [mbind option_bind].
  destruct (from_hex_range x) as [->|Hh]; [by exists None|].
  destruct (Z.ltb_spec (from_hex x) 0); [lia|].
  assert (p < n) by (apply Hlt; intros ->; cbn in Hh; lia).
  rewrite lor_shiftl_add by (change (2 ^ 4) with 16; lia). change (2 ^ 4) with 16.
  destruct (IH (p + 1) (c * 16 + from_hex x)) as (r & -> & Hr); [lia|lia|].
  exists r. split; [done|]. destruct r as [[c' p']|]; [|done].
  rewrite Nat2Z.inj_succ, Z.pow_succ_r by lia.
  pose proof (Z.pow_pos_nonneg 16 (Z.of_nat k) ltac:(lia) ltac:(lia)). nia.
Qed.
Lemma escape_braces_spec fuel p c :
  0 <= p <= n → 0 <= c → n - p < Z.of_nat fuel →
  ∃ r, escape_braces buf fuel p c = Some r ∧
    match r with None => True | Some (c', p') => 0 <= c' <= 0x10FFFF ∧ p < p' < n end.
Proof.
  revert p c. induction fuel as [|fuel IH]; intros p c Hp Hc Hf; [lia|]. cbn [escape_braces].
  destruct (buf_get p Hp) as (x & -> & Hx & Hlt). cbn [mbind option_bind].
  destruct (from_hex_range x) as [->|Hh]; [by exists None|].
  destruct (Z.ltb_spec (from_hex x) 0); [lia|].
  assert (p < n) by (apply Hlt; intros ->; cbn in Hh; lia).
  rewrite lor_shiftl_add by (change (2 ^ 4) with 16; lia).
  rewrite Z.gtb_ltb. destruct (Z.ltb_spec 0x10FFFF (c * 2 ^ 4 + from_hex x)); [by exists None|].
  destruct (buf_get (p + 1)) as (y & -> & Hy & Hylt); [lia|]. cbn [mbind option_bind].
  destruct (Z.eqb_spec y 0x7d) as [->|].
  - eexists. split; [reflexivity|]. cbn. assert (p + 1 < n) by (apply Hylt; done). lia.
  - destruct (IH (p + 1) (c * 2 ^ 4 + from_hex x)) as (r & -> & Hr); [lia..|].
    exists r. split; [done|]. destruct r as [[c' p']|]; [lia|done].
Qed.
Lemma escape_low_surrogate_spec p :
  0 <= p → p + 2 <= n → ∃ r, escape_low_surrogate buf p = Some r ∧
    match r with None => True | Some c1 => is_lo_surrogate c1 = true ∧ p + 6 <= n end.
Proof.
  intros Hp Hn. unfold escape_low_surrogate.
  destruct (escape_hex_spec 4 (p + 2) 0) as (r & -> & Hr); [lia..|]. cbn [mbind option_bind].
  eexists. split; [reflexivity|]. destruct r as [[c1 p1]|]; [|done].
  destruct (is_lo_surrogate c1) eqn:E; [|done]. split; [done|lia].
Qed.
(** what every branch of [lre_parse_escape] yields: a code point and a later
    position, or nothing *)
Definition escape_ok (p : Z) (r : option (Z * Z)) : Prop :=
  match r with None => True | Some (c, p') => 0 <= c <= 0x10FFFF ∧ p <= p' <= n end.
Lemma escape_xu_spec is_x p allow_utf16 :
  0 <= p <= n → ∃ r, escape_xu buf is_x p allow_utf16 = Some r ∧ escape_ok p r.
Proof.
  intros Hp. unfold escape_xu.
  destruct (buf_get p Hp) as (x & -> & Hx & Hlt). cbn [mbind option_bind].
  destruct ((x =? 0x7b) && negb (allow_utf16 =? 0)) eqn:Eb.
  - apply andb_true_iff in Eb as [->%Z.eqb_eq _]. assert (p < n) by (by apply Hlt).
    destruct (escape_braces_spec (S (length buf)) (p + 1) 0) as (r & -> & Hr);
      [lia|lia|pose proof (pb_len _ _ Hbuf) as Hl; unfold zlen in Hl; lia|].
    cbn [mbind option_bind]. eexists. split; [reflexivity|]. destruct r as [[c p']|]; cbn; [lia|done].
  - destruct (escape_hex_spec (if is_x then 2 else 4) p 0) as (r & E & Hr); [lia..|].
    rewrite E. cbn [mbind option_bind]. destruct r as [[c p']|]; [|by exists None].
    assert (0 <= c <= 0xFFFF) by (destruct is_x; cbn in Hr; lia).
    assert (p <= p' <= n) by (destruct is_x; cbn in Hr; lia).
    destruct (is_hi_surrogate c && (allow_utf16 =? 2)) eqn:Ehi; [|by exists (Some (c, p')); split; [|cbn; lia]].
    apply andb_true_iff in Ehi as [Ehi%is_hi_surrogate_iff _].
    destruct (buf_get p') as (y & -> & Hy & Hylt); [lia|]. cbn [mbind option_bind].
    destruct (Z.eqb_spec y 0x5c) as [->|]; [|by exists (Some (c, p')); split; [|cbn; lia]].
    destruct (buf_get (p' + 1)) as (z & -> & Hz & Hzlt); [specialize (Hylt ltac:(done)); lia|].
    cbn [mbind option_bind].
    destruct (Z.eqb_spec z 0x75) as [->|]; [|by exists (Some (c, p')); split; [|cbn; lia]].
    specialize (Hzlt ltac:(done)).
    destruct (escape_low_surrogate_spec p') as (lo & -> & Hlo); [lia..|]. cbn [mbind option_bind].
    eexists. split; [reflexivity|]. destruct lo as [c1|]; cbn; [|lia].
    destruct Hlo as [Hlo%is_lo_surrogate_iff ?]. unfold from_surrogate, u32. rewrite Z.mod_small by lia. lia.
Qed.
Lemma escape_octal_spec c p allow_utf16 :
  0 <= p <= n → 0x30 <= c <= 0x37 → ∃ r, escape_octal buf c p allow_utf16 = Some r ∧ escape_ok p r.
Proof.
  intros Hp Hc. unfold escape_octal. cbv zeta.
  destruct (buf_get p Hp) as (x & -> & Hx & Hlt). cbn [mbind option_bind].
  destruct (allow_utf16 =? 2).
  { zcase; [by exists None|]. bool_props. destruct (is_digit x); [by exists None|].
    eexists. split; [reflexivity|]. cbn. lia. }
  rewrite octal_test. destruct (Z.ltb_spec 7 (u32 (x - 0x30))) as [|Hv].
  { eexists. split; [reflexivity|]. cbn. lia. }
  apply u32_octal in Hv; [|lia]. destruct Hv as [Hxr ->]. assert (p < n) by (apply Hlt; lia).
  rewrite lor_shiftl_add by (change (2 ^ 3) with 8; lia). rewrite Z.geb_leb. zcase.
  { eexists. split; [reflexivity|]. cbn. lia. }
  destruct (buf_get (p + 1)) as (y & -> & Hy & Hylt); [lia|]. cbn [mbind option_bind].
  rewrite octal_test. destruct (Z.ltb_spec 7 (u32 (y - 0x30))) as [|Hv].
  { eexists. split; [reflexivity|]. cbn. lia. }
  apply u32_octal in Hv; [|lia]. destruct Hv as [Hyr ->]. assert (p + 1 < n) by (apply Hylt; lia).
  rewrite lor_shiftl_add by (change (2 ^ 3) with 8; lia).
  eexists. split; [reflexivity|]. cbn. lia.
Qed.
Lemma lre_parse_escape_cases pp allow_utf16 :
  0 <= pp <= n →
  ∃ c p', lre_parse_escape buf pp allow_utf16 = Some (c, p') ∧
    (((c = -1 ∨ c = -2) ∧ p' = pp) ∨ (0 <= c <= 0x10FFFF ∧ pp < p' <= n)).
Proof.
  intros Hp. unfold lre_parse_escape. destruct (buf_get pp Hp) as (x & -> & Hx & Hlt).
  cbn [mbind option_bind]. cbv zeta.
  assert (∀ (m : option (option (Z * Z))), (∃ r, m = Some r ∧ escape_ok (pp + 1) r) →
    ∃ c p', (r ← m; Some (match r with Some cp => cp | None => (-1, pp) end)) = Some (c, p') ∧
      (((c = -1 ∨ c = -2) ∧ p' = pp) ∨ (0 <= c <= 0x10FFFF ∧ pp < p' <= n))) as Hdone.
  { intros m (r & -> & Hr). cbn [mbind option_bind]. destruct r as [[c p']|]; cbn in Hr.
    - exists c, p'. split; [done|]. right. lia.
    - exists (-1), pp. split; [done|]. left. tauto. }
  repeat match goal with
  | |- context [if x =? ?k then Some _ else _] =>
      destruct (Z.eqb_spec x k); [by eexists _, _; split; [reflexivity|]; right; lia|]
  end.
  destruct (_ || _) eqn:Exu.
  { apply Hdone, escape_xu_spec. assert (pp < n); [|lia]. apply Hlt. blia. }
  destruct ((48 <=? x) && (x <=? 55)) eqn:Eo.
  { bool_props. apply Hdone, escape_octal_spec; [|lia]. assert (pp < n); [|lia]. apply Hlt. lia. }
  exists (-2), pp. split; [done|]. left. tauto.
Qed.

(** ** Characters, identifiers and group names *)
Lemma utf8_at_total p x :
  0 <= p → buf.[p] = Some x → 0 < x →
  ∃ c p', utf8_at buf p = Some (c, p') ∧ ((c = -1 ∧ p' = p) ∨ (0 <= c < 2 ^ 21 ∧ p < p' <= n)).
Proof.
  intros Hp Hx Hx0. assert (p < n) as Hpn.
  { destruct (buf_get p) as (y & Hy & _ & Hlt).
    - pose proof (aget_Some_range _ _ _ Hx). rewrite (pb_len _ _ Hbuf) in *. lia.
    - rewrite Hx in Hy. injection Hy as <-. apply Hlt. lia. }
  destruct (buf_get p) as (y & Hy & Hy8 & _); [lia|]. rewrite Hx in Hy. injection Hy as <-.
  unfold utf8_at. destruct (unicode_from_utf8_total (zdrop p buf) (n - p) x) as (c & k & -> & Hc).
  - rewrite aget_zdrop by lia. replace (p + (n - p)) with n by lia. apply pb_end, Hbuf.
  - lia.
  - rewrite aget_zdrop, Z.add_0_r by lia. done.
  - done.
  - cbn [mbind option_bind]. eexists _, _. split; [reflexivity|]. lia.
Qed.
Lemma ident_first_total c : 0 <= c → ∃ b, lre_js_is_ident_first c = Some b ∧ (b = true → c ≠ 0).
Proof.
  intros Hc. unfold lre_js_is_ident_first. destruct (Z.ltb_spec c 128) as [Hlt|].
  - assert (forall_range ident_first_ok 0 128 = true) as Hall by (vm_compute; reflexivity).
    pose proof (forall_range_spec _ _ _ Hall c ltac:(lia)) as Hok. unfold ident_first_ok, lre_js_is_ident_first in Hok.
    destruct (Z.ltb_spec c 128); [|lia]. destruct (lre_id_start_table_ascii.[c >> 5]) as [w|]; [|done].
    cbn [mbind option_bind] in *. eexists. split; [reflexivity|]. intros Hb ->. by rewrite Hb in Hok.
  - destruct (lre_is_id_start_total c) as [b Hb]; [lia|]. exists b. split; [done|]. intros _ ->. lia.
Qed.
Lemma ident_next_total c : 0 <= c → ∃ b, lre_js_is_ident_next c = Some b ∧ (b = true → c ≠ 0).
Proof.
  intros Hc. unfold lre_js_is_ident_next. destruct (Z.ltb_spec c 128) as [Hlt|].
  - assert (forall_range ident_next_ok 0 128 = true) as Hall by (vm_compute; reflexivity).
    pose proof (forall_range_spec _ _ _ Hall c ltac:(lia)) as Hok. unfold ident_next_ok, lre_js_is_ident_next in Hok.
    destruct (Z.ltb_spec c 128); [|lia]. destruct (lre_id_continue_table_ascii.[c >> 5]) as [w|]; [|done].
    cbn [mbind option_bind] in *. eexists. split; [reflexivity|]. intros Hb ->. by rewrite Hb in Hok.
  - destruct (lre_is_id_continue_total c) as [b Hb]; [lia|]. rewrite Hb. cbn [mbind option_bind].
    eexists. split; [reflexivity|]. intros _ ->. lia.
Qed.
Lemma group_name_char_spec p :
  0 <= p <= n →
  ∃ r, group_name_char buf p = Some r ∧
    match r with
    | Some (Some (c, p')) => 0 <= c ∧ (c = 0 ∨ 0x10FFFF < c ∨ p < p' <= n)
    | Some None => p < n
    | None => True
    end.
Proof.
  intros Hp. unfold group_name_char. destruct (buf_get p Hp) as (x & Ex & Hx & Hlt). rewrite Ex.
  cbn [mbind option_bind]. destruct (Z.eqb_spec x 0x5c) as [->|].
  { specialize (Hlt ltac:(done)). destruct (buf_get (p + 1)) as (y & -> & Hy & Hylt); [lia|].
    cbn [mbind option_bind]. destruct (negb (y =? 0x75)); [by exists None|].
    destruct (lre_parse_escape_cases (p + 1) 2) as (c & p' & -> & Hc); [lia|]. cbn [mbind option_bind].
    eexists. split; [reflexivity|]. cbn. unfold u32. split; [apply Z.mod_pos_bound; lia|].
    destruct Hc as [[Hc ->]|[Hc Hp']]; [|right; right; lia]. right; left. destruct Hc as [->| ->]; vm_compute; done. }
  destruct (Z.eqb_spec x 0x3e) as [->|]; [eexists; split; [reflexivity|]; by apply Hlt|].
  rewrite Z.geb_leb. destruct (Z.leb_spec 128 x).
  - destruct (utf8_at_total p x) as (c & p' & -> & Hc); [lia|done|lia|]. cbn [mbind option_bind]. cbv zeta.
    destruct (is_hi_surrogate (u32 c)) eqn:Eh.
    + apply is_hi_surrogate_iff in Eh. destruct Hc as [[-> _]|[Hc Hp']]; [vm_compute in Eh; destruct Eh; done|].
      destruct (buf_get p') as (y & Ey & Hy & _); [lia|].
      assert (∃ d p1, utf8_at buf p' = Some (d, p1) ∧ (is_lo_surrogate (u32 d) = true → 0 <= d ∧ p' < p1 <= n))
        as (d & p1 & -> & Hd).
      { destruct (Z.eqb_spec y 0) as [->|].
        - unfold utf8_at, unicode_from_utf8. rewrite aget_zdrop, Z.add_0_r, Ey by lia. cbn [mbind option_bind].
          change (0 <? 128) with true. cbv iota. cbn [mbind option_bind]. eexists _, _. split; [reflexivity|].
          vm_compute. done.
        - destruct (utf8_at_total p' y) as (d & p1 & -> & Hd); [lia|done|lia|]. eexists _, _. split; [done|].
          rewrite is_lo_surrogate_iff. destruct Hd as [[-> _]|Hd]; [|lia]. intros H0. vm_compute in H0. destruct H0; done. }
      cbn [mbind option_bind]. destruct (is_lo_surrogate (u32 d)) eqn:El.
      * specialize (Hd eq_refl). eexists. split; [reflexivity|]. cbn.
        split; [unfold from_surrogate, u32; apply Z.mod_pos_bound; lia|]. right; right; lia.
      * eexists. split; [reflexivity|]. cbn. split; [lia|]. right; right; lia.
    + eexists. split; [reflexivity|]. cbn. unfold u32. split; [apply Z.mod_pos_bound; lia|].
      destruct Hc as [[-> _]|Hc]; [right; left; vm_compute; done|right; right; lia].
  - eexists. split; [reflexivity|]. cbn. split; [lia|]. destruct (decide (x = 0)); [by left|].
    right; right. specialize (Hlt ltac:(done)). lia.
Qed.
Lemma group_name_loop_spec fuel q buf_size p :
  0 <= p <= n → n - p < Z.of_nat fuel → zlen q < buf_size →
  ∃ q' r, group_name_loop buf fuel q buf_size p = Some (q', r) ∧ zlen q' < buf_size ∧
    match r with Some p' => p <= p' < n | None => True end.
Proof.
  revert q p. induction fuel as [|fuel IH]; intros q p Hp Hf Hq; [lia|]. cbn [group_name_loop].
  destruct (group_name_char_spec p Hp) as (r & -> & Hr). cbn [mbind option_bind].
  destruct r as [[[c p']|]|]; [|by exists q, (Some p); split; [done|]; split; [done|lia]|by exists q, None].
  destruct Hr as [Hc Hr]. rewrite Z.gtb_ltb. destruct (Z.ltb_spec 0x10FFFF c); [by exists q, None|].
  assert (∃ b, (if zlen q =? 0 then lre_js_is_ident_first c else lre_js_is_ident_next c) = Some b ∧ (b = true → c ≠ 0))
    as (b & -> & Hb) by (destruct (zlen q =? 0); [by apply ident_first_total|by apply ident_next_total]).
  cbn [mbind option_bind]. destruct b; [|by exists q, None]. cbn [negb]. specialize (Hb eq_refl).
  rewrite Z.gtb_ltb. destruct (Z.ltb_spec buf_size (zlen q + UTF8_CHAR_LEN_MAX + 1)); [by exists q, None|].
  destruct (IH (q ++ (if c <? 128 then [c] else unicode_to_utf8 c)) p') as (q' & r & -> & Hq' & Hr').
  - lia.
  - lia.
  - pose proof (unicode_to_utf8_len c). unfold UTF8_CHAR_LEN_MAX in *. rewrite zlen_app. destruct (c <? 128); [|lia].
    change (zlen [c]) with 1. lia.
  - exists q', r. split; [done|]. split; [done|]. destruct r; [lia|done].
Qed.
Lemma re_parse_group_name_total buf_size p :
  0 <= p <= n → 0 < buf_size →
  ∃ name r, re_parse_group_name buf buf_size p = Some (name, r) ∧ zlen name <= buf_size ∧
    match r with
    | Some p' => p < p' <= n ∧ ∃ q, name = q ++ [0] ∧ q ≠ []
    | None => zlen name < buf_size
    end.
Proof.
  intros Hp Hs. unfold re_parse_group_name.
  destruct (group_name_loop_spec (S (length buf)) [] buf_size p) as (q & r & -> & Hq & Hr);
    [done|pose proof (pb_len _ _ Hbuf) as Hl; unfold zlen in Hl; lia|done|].
  cbn [mbind option_bind]. destruct r as [p'|].
  - destruct (Z.eqb_spec (zlen q) 0) as [|Hq0].
    + eexists _, _. split; [reflexivity|]. cbn. split; [lia|done].
    + eexists _, _. split; [reflexivity|]. cbn. rewrite zlen_app. change (zlen [0]) with 1.
      split; [lia|]. split; [lia|]. exists q. split; [done|]. by intros ->.
  - eexists _, _. split; [reflexivity|]. cbn. split; [lia|done].
Qed.

(** ** The search for captures *)
Lemma skip_class_total fuel p :
  0 <= p → Z.max 0 (n - p) < Z.of_nat fuel → ∃ p', skip_class buf n fuel p = Some p' ∧ p <= p'.
Proof.
  revert p. induction fuel as [|fuel IH]; intros p Hp Hf; cbn [skip_class].
  { lia. }
  destruct (Z.ltb_spec p n); [|by exists p].
  destruct (buf_get p) as (x & -> & _); [lia|]. cbn [mbind option_bind].
  destruct (x =? 0x5d); [by exists p|].
  destruct (x =? 0x5c);
    [destruct (IH (p + 2)) as (p' & -> & ?)|destruct (IH (p + 1)) as (p' & -> & ?)]; try lia;
    exists p'; (split; [done|lia]).
Qed.
Lemma captures_loop_total fuel p capture_index named capture_name :
  0 <= p → Z.max 0 (n - p) < Z.of_nat fuel → 1 <= capture_index < CAPTURE_COUNT_MAX →
  ∃ i b, captures_loop buf n fuel p capture_index named capture_name = Some (i, b) ∧
    (1 <= i <= CAPTURE_COUNT_MAX ∨ (i = -1 ∧ capture_name ≠ None)).
Proof.
  revert p capture_index named. induction fuel as [|fuel IH]; intros p ci named Hp Hf Hci; cbn [captures_loop].
  { lia. }
  assert (∀ i (b : bool), 1 <= i <= CAPTURE_COUNT_MAX →
    ∃ i' b', Some (match capture_name with Some _ => -1 | None => i end, b) = Some (i', b') ∧
      (1 <= i' <= CAPTURE_COUNT_MAX ∨ (i' = -1 ∧ capture_name ≠ None))) as Hdone.
  { intros i b Hi. destruct capture_name; eexists _, _; (split; [reflexivity|]); [by right|by left]. }
  destruct (Z.ltb_spec p n); [|apply Hdone; lia].
  destruct (buf_get p) as (x & -> & _); [lia|]. cbn [mbind option_bind].
  destruct (Z.eqb_spec x 0x28).
  - destruct (buf_get (p + 1)) as (y & -> & _ & Hylt); [lia|]. cbn [mbind option_bind].
    destruct (Z.eqb_spec y 0x3f) as [->|].
    + specialize (Hylt ltac:(done)). destruct (buf_get (p + 2)) as (z & -> & _ & Hzlt); [lia|].
      cbn [mbind option_bind].
      assert (∃ b, (if z =? 0x3c then z ← buf.[p + 3]; Some (negb (z =? 0x3d) && negb (z =? 0x21)) else Some false)
                = Some b ∧ (b = true → p + 3 <= n)) as (b & -> & Hb).
      { destruct (Z.eqb_spec z 0x3c) as [->|]; [|by exists false].
        specialize (Hzlt ltac:(done)). destruct (buf_get (p + 3)) as (w & -> & _); [lia|].
        eexists. split; [reflexivity|]. lia. }
      cbn [mbind option_bind]. destruct b; [|apply IH; lia]. specialize (Hb eq_refl).
      assert (∃ p' name, match capture_name with
        | None => Some (p, None)
        | Some _ => '(name, p1) ← re_parse_group_name buf TMP_BUF_SIZE (p + 3);
                    match p1 with
                    | Some p1 => len ← strlen name; Some (p1, Some (ztake len name))
                    | None => Some (p + 3, None)
                    end
        end = Some (p', name) ∧ p <= p') as (p' & name & E & Hp').
      { destruct capture_name; [|by exists p, None].
        destruct (re_parse_group_name_total TMP_BUF_SIZE (p + 3)) as (nm & r & -> & _ & Hr);
          [lia|unfold TMP_BUF_SIZE; lia|]. cbn [mbind option_bind]. destruct r as [p1|].
        - destruct Hr as (Hr & q & -> & _). destruct (strlen_total (q ++ [0])) as [len ->].
          { apply elem_of_app. right. by apply list_elem_of_singleton. }
          eexists _, _. split; [reflexivity|]. lia.
        - eexists _, _. split; [reflexivity|]. lia. }
      cbv zeta. rewrite E. cbn [mbind option_bind].
      destruct (bool_decide _); [eexists _, _; split; [reflexivity|]; left; unfold CAPTURE_COUNT_MAX in *; lia|].
      rewrite Z.geb_leb. destruct (Z.leb_spec CAPTURE_COUNT_MAX (ci + 1)); [apply Hdone; lia|apply IH; lia].
    + rewrite Z.geb_leb. destruct (Z.leb_spec CAPTURE_COUNT_MAX (ci + 1)); [apply Hdone; lia|apply IH; lia].
  - destruct (x =? 0x5c); [apply IH; lia|]. destruct (x =? 0x5b); [|apply IH; lia].
    destruct (skip_class_total (S (length buf)) (p + 1 + b2z (x =? 93))) as (p' & -> & Hp').
    + unfold b2z. destruct (x =? 93); lia.
    + pose proof (pb_len _ _ Hbuf) as Hl; unfold zlen in Hl. unfold b2z. destruct (x =? 93); lia.
    + cbn [mbind option_bind]. apply IH; unfold b2z in *; destruct (x =? 93); lia.
Qed.
Lemma re_parse_captures_total capture_name :
  ∃ i b, re_parse_captures buf n capture_name = Some (i, b) ∧
    (1 <= i <= CAPTURE_COUNT_MAX ∨ (i = -1 ∧ capture_name ≠ None)).
Proof.
  apply captures_loop_total; [lia| |unfold CAPTURE_COUNT_MAX; lia].
  pose proof (pb_len _ _ Hbuf) as Hl; unfold zlen in Hl. lia.
Qed.
End Pattern.

(** ** The escapes of a code point *)
Lemma escape_braces_at buf p hs allow_utf16 rest :
  0 <= p → zdrop p buf = 0x75 :: 0x7b :: hs ++ 0x7d :: rest → hs ≠ [] →
  Forall (λ h, 0 <= from_hex h) hs → hex_value 0 hs <= 0x10FFFF → allow_utf16 ≠ 0 →
  lre_parse_escape buf p allow_utf16 = Some (hex_value 0 hs, p + zlen hs + 3).
Proof.
  intros Hp Hz Hne Hh Hc Ha. assert (length hs <= length buf)%nat as Hlen.
  { apply (f_equal length) in Hz. unfold zdrop in Hz. rewrite length_drop in Hz. cbn in Hz.
    rewrite length_app in Hz. lia. }
  apply zdrop_cons in Hz as [E1 Hz]; [|done]. apply zdrop_cons in Hz as [E2 Hz]; [|lia].
  unfold lre_parse_escape. rewrite E1. cbn [mbind option_bind]. cbv zeta. cbn [Z.eqb Pos.eqb orb].
  unfold escape_xu. rewrite E2. cbn [mbind option_bind Z.eqb Pos.eqb].
  destruct (Z.eqb_spec allow_utf16 0); [done|]. cbn [negb andb].
  rewrite (escape_braces_value _ hs rest) by (done || lia). cbn [mbind option_bind]. do 2 f_equal. lia.
Qed.
Lemma escape_pair_at buf p hs hs' rest c :
  0 <= p → zdrop p buf = 0x75 :: hs ++ 0x5c :: 0x75 :: hs' ++ rest →
  Forall (λ h, 0 <= from_hex h) hs → Forall (λ h, 0 <= from_hex h) hs' →
  length hs = 4%nat → length hs' = 4%nat → 0x10000 <= c <= 0x10FFFF →
  hex_value 0 hs = get_hi_surrogate c → hex_value 0 hs' = get_lo_surrogate c →
  lre_parse_escape buf p 2 = Some (c, p + 11).
Proof.
  intros Hp Hz Hh Hh' Hl Hl' Hc Hhi Hlo. apply zdrop_cons in Hz as [E1 Hz]; [|done].
  unfold lre_parse_escape. rewrite E1. cbn [mbind option_bind]. cbv zeta. cbn [Z.eqb Pos.eqb orb].
  destruct hs as [|h1 hs]; [done|]. unfold escape_xu.
  pose proof (zdrop_cons (p + 1) buf h1 _ ltac:(lia) Hz) as [-> _]. cbn [mbind option_bind].
  assert ((h1 =? 0x7b) && negb (2 =? 0) = false) as ->.
  { apply Forall_cons in Hh as [Hh _]. destruct (Z.eqb_spec h1 0x7b) as [->|]; [by cbn in Hh; lia|done]. }
  rewrite <- Hl, (escape_hex_value _ _ _ (p + 1) 0 ltac:(lia) ltac:(lia) Hz Hh). cbn [mbind option_bind].
  rewrite Hhi. destruct (surrogate_halves c) as (Eh & El & Ec); [lia|]. rewrite Eh. cbn [andb Z.eqb Pos.eqb].
  assert (zlen (h1 :: hs) = 4) as Hl4 by (unfold zlen; lia). rewrite Hl4.
  assert (zdrop (p + 1 + 4) buf = 0x5c :: 0x75 :: hs' ++ rest) as Hz'.
  { rewrite <- Hl4, <- zdrop_zdrop, Hz, zdrop_app by (lia || apply zlen_nonneg). done. }
  apply zdrop_cons in Hz' as [-> Hz']; [|lia]. cbn [mbind option_bind Z.eqb Pos.eqb].
  apply zdrop_cons in Hz' as [-> Hz']; [|lia]. cbn [mbind option_bind Z.eqb Pos.eqb].
  unfold escape_low_surrogate. rewrite <- Hl'.
  replace (p + 1 + 4 + 2) with (p + 1 + 4 + 1 + 1) by lia.
  rewrite (escape_hex_value _ _ _ (p + 1 + 4 + 1 + 1) 0 ltac:(lia) ltac:(lia) Hz' Hh'). cbn [mbind option_bind].
  rewrite Hlo, El. cbn [mbind option_bind]. rewrite Ec. do 2 f_equal. lia.
Qed.

(** ** Properties *)

(** Reading a decimal number.  At any position of the pattern there is a
    maximal run of digits; [parse_digits] returns its value saturated at
    INT32_MAX and moves after it, or, where overflow is not allowed and the
    value reaches INT32_MAX, returns -1 and does not move.  The 64-bit
    accumulator never overflows. *)
Theorem parse_digits_spec buf n p allow_overflow :
  pattern_buf buf n → 0 <= p <= n →
  ∃ ds x rest, zdrop p buf = ds ++ x :: rest ∧ Forall (λ d, is_digit d = true) ds ∧ is_digit x = false ∧
    parse_digits buf p allow_overflow =
      Some (if allow_overflow || (digits_value 0 ds <? INT32_MAX)
            then (Z.min (digits_value 0 ds) INT32_MAX, p + zlen ds) else (-1, p)).
Proof.
  intros Hbuf Hp. destruct (digits_split (zdrop p buf)) as (ds & x & rest & Hz & Hd & Hx).
  { exists 0. split; [|done]. apply (elem_of_zdrop _ _ n); [by apply pb_end|lia]. }
  exists ds, x, rest. split; [done|]. split; [done|]. split; [done|]. apply (parse_digits_run _ _ x rest); done || lia.
Qed.
Lemma parse_digits_spec_witness :
  ∃ ds x rest, zdrop 1 [0x7b; 0x34; 0x32; 0x7d; 0] = ds ++ x :: rest ∧
    Forall (λ d, is_digit d = true) ds ∧ is_digit x = false ∧
    parse_digits [0x7b; 0x34; 0x32; 0x7d; 0] 1 true =
      Some (if true || (digits_value 0 ds <? INT32_MAX)
            then (Z.min (digits_value 0 ds) INT32_MAX, 1 + zlen ds) else (-1, 1)).
Proof.
  apply (parse_digits_spec [0x7b; 0x34; 0x32; 0x7d; 0] 4 1 true); [|lia].
  constructor; [reflexivity|reflexivity|repeat constructor; lia].
Defined.

(** Escape sequences stay in the pattern.  At any position of a
    zero-terminated pattern [lre_parse_escape] terminates within it and either
    fails (-1, -2) without moving, or yields a code point of Unicode and a
    position strictly further, at most at the terminator. *)
Theorem lre_parse_escape_bounds buf n pp allow_utf16 :
  pattern_buf buf n → 0 <= pp <= n →
  ∃ c p', lre_parse_escape buf pp allow_utf16 = Some (c, p') ∧
    (((c = -1 ∨ c = -2) ∧ p' = pp) ∨ (0 <= c <= 0x10FFFF ∧ pp < p' <= n)).
Proof. intros Hbuf Hp. by apply (lre_parse_escape_cases buf n Hbuf). Qed.
Lemma lre_parse_escape_bounds_witness :
  ∃ c p', lre_parse_escape [0x75; 0x7b; 0x34; 0x31; 0x7d; 0] 0 1 = Some (c, p') ∧
    (((c = -1 ∨ c = -2) ∧ p' = 0) ∨ (0 <= c <= 0x10FFFF ∧ 0 < p' <= 5)).
Proof.
  apply (lre_parse_escape_bounds [0x75; 0x7b; 0x34; 0x31; 0x7d; 0] 5 0 1); [|lia].
  constructor; [reflexivity|reflexivity|repeat constructor; lia].
Defined.

(** The value of the escapes of a code point.  The digits of
    [\u{...}] give the code point they write, in any escape mode that accepts
    braces; two four-digit escapes that write the surrogate halves of a
    supplementary code point give that code point in unicode mode. *)
Theorem lre_parse_escape_unicode hs hs' c allow_utf16 pre rest :
  Forall (λ h, 0 <= from_hex h) (hs ++ hs') →
  (hs ≠ [] → hex_value 0 hs = c → c <= 0x10FFFF → allow_utf16 ≠ 0 →
   lre_parse_escape (pre ++ 0x75 :: 0x7b :: hs ++ 0x7d :: rest) (zlen pre) allow_utf16 =
     Some (c, zlen pre + zlen hs + 3)) ∧
  (length hs = 4%nat → length hs' = 4%nat → 0x10000 <= c <= 0x10FFFF →
   hex_value 0 hs = get_hi_surrogate c → hex_value 0 hs' = get_lo_surrogate c →
   lre_parse_escape (pre ++ 0x75 :: hs ++ 0x5c :: 0x75 :: hs' ++ rest) (zlen pre) 2 =
     Some (c, zlen pre + 11)).
Proof.
  intros [Hh Hh']%Forall_app. pose proof (zlen_nonneg pre). split.
  - intros Hne <- Hc Ha. apply (escape_braces_at _ _ _ _ rest); [done|by rewrite zdrop_app|done..].
  - intros Hl Hl' Hc Hhi Hlo. apply (escape_pair_at _ _ hs hs' rest); [done|by rewrite zdrop_app|done..].
Qed.
Lemma lre_parse_escape_unicode_witness :
  lre_parse_escape (0x75 :: 0x7b :: c_bytes "1f600" ++ 0x7d :: [0]) 0 1 = Some (0x1f600, 8) ∧
  lre_parse_escape (0x75 :: c_bytes "d83d" ++ 0x5c :: 0x75 :: c_bytes "de00" ++ [0]) 0 2 = Some (0x1f600, 11).
Proof.
  split.
  - apply (lre_parse_escape_unicode (c_bytes "1f600") [] 0x1f600 1 [] [0]); [|done|by vm_compute..].
    repeat constructor; vm_compute; discriminate.
  - apply (lre_parse_escape_unicode (c_bytes "d83d") (c_bytes "de00") 0x1f600 1 [] [0]); [|by vm_compute..].
    repeat constructor; vm_compute; discriminate.
Defined.

(** Group names and captures.  [re_parse_group_name] terminates inside the
    pattern and writes at most [buf_size] bytes; when it accepts, the name is
    not empty, is zero-terminated, and the position is after its bracket.  The
    scan for captures terminates too; it returns a capture number of at most
    CAPTURE_COUNT_MAX, or -1 when it looks for a name. *)
Theorem re_parse_names_total buf n p buf_size capture_name :
  pattern_buf buf n → 0 <= p <= n → 0 < buf_size →
  (∃ name r, re_parse_group_name buf buf_size p = Some (name, r) ∧ zlen name <= buf_size ∧
     match r with
     | Some p' => p < p' <= n ∧ ∃ q, name = q ++ [0] ∧ q ≠ []
     | None => zlen name < buf_size
     end) ∧
  ∃ i named, re_parse_captures buf n capture_name = Some (i, named) ∧
    (1 <= i <= CAPTURE_COUNT_MAX ∨ (i = -1 ∧ capture_name ≠ None)).
Proof.
  intros Hbuf Hp Hs. split; [by apply re_parse_group_name_total|by apply re_parse_captures_total].
Qed.
Lemma re_parse_names_total_witness :
  (∃ name r, re_parse_group_name [0x61; 0x3e; 0] 128 0 = Some (name, r) ∧ zlen name <= 128 ∧
     match r with
     | Some p' => 0 < p' <= 2 ∧ ∃ q, name = q ++ [0] ∧ q ≠ []
     | None => zlen name < 128
     end) ∧
  ∃ i named, re_parse_captures [0x61; 0x3e; 0] 2 None = Some (i, named) ∧
    (1 <= i <= CAPTURE_COUNT_MAX ∨ (i = -1 ∧ (None : option (list Z)) ≠ None)).
Proof.
  apply (re_parse_names_total [0x61; 0x3e; 0] 2 0 128 None); [|lia..].
  constructor; [reflexivity|reflexivity|repeat constructor; lia].
Defined.

(** ** White space *)
(** the runs of the category table that a mask selects *)
Definition separator_mask : Z := gc_bits [UNICODE_GC_Zs; UNICODE_GC_Zl; UNICODE_GC_Zp].
Definition separator_points : list Z :=
  [0x20; 0x21; 0xa0; 0xa1; 0x1680; 0x1681; 0x2000; 0x200b; 0x2028; 0x2029; 0x2029; 0x202a;
   0x202f; 0x2030; 0x205f; 0x2060; 0x3000; 0x3001].
Lemma separator_points_eq :
  opt_test (λ runs, bool_decide (concat (map (gc_run_points separator_mask) runs) = separator_points))
    unicode_gc_runs = true.
Proof. vm_compute. reflexivity. Qed.
Lemma gc_bit_testbit id g : 0 <= id → Z.testbit (gc_bit id) g = (g =? id).
Proof.
  intros Hid. unfold gc_bit. rewrite Z.shiftl_1_l, Z.pow2_bits_eqb by done. apply Z.eqb_sym.
Qed.
Lemma separator_mem c :
  opt_test (Z.testbit separator_mask) (unicode_gc c) = cr_mem separator_points c.
Proof.
  pose proof unicode_gc_runs_ok as Hok. pose proof separator_points_eq as Hp. unfold unicode_gc.
  destruct unicode_gc_runs as [runs|]; [|done]. cbn [opt_test] in Hok, Hp. apply bool_decide_eq_true in Hp.
  destruct (gc_runs_points_facts separator_mask runs 0 _ Hok) as (_ & _ & Hmem & _);
    [lia|by unfold unicode_max; lia|]. cbn [mbind option_bind]. by rewrite <- Hmem, Hp.
Qed.
Lemma separator_bits g :
  Z.testbit separator_mask g = true ↔ g = UNICODE_GC_Zs ∨ g = UNICODE_GC_Zl ∨ g = UNICODE_GC_Zp.
Proof.
  unfold separator_mask, gc_bits. cbn [foldr]. rewrite !Z.lor_spec, !gc_bit_testbit, Z.bits_0, orb_false_r by (vm_compute; done).
  rewrite !orb_true_iff, !Z.eqb_eq. done.
Qed.
(** decide an equation of interval tests *)
Ltac space_cases c :=
  repeat match goal with
  | |- context [?k <=? c] => destruct (Z.leb_spec k c); try lia
  | |- context [c <=? ?k] => destruct (Z.leb_spec c k); try lia
  | |- context [c =? ?k] => destruct (Z.eqb_spec c k); try lia
  end; reflexivity.
Lemma is_space_step fuel c i n low high :
  (i <? n) = true → char_range_s.[2 * i + 1] = Some low → char_range_s.[2 * i + 2] = Some high →
  lre_is_space_loop (S fuel) c i n =
    if c <? low then Some false
    else if c <? high then Some true else lre_is_space_loop fuel c (i + 1) n.
Proof. intros Hi Hl Hh. cbn [lre_is_space_loop]. rewrite Hi, Hl. cbn [mbind option_bind]. by rewrite Hh. Qed.
Lemma is_space_end fuel c i n : (i <? n) = false → lre_is_space_loop (S fuel) c i n = Some false.
Proof. intros Hi. cbn [lre_is_space_loop]. by rewrite Hi. Qed.
Lemma lre_is_space_eq c :
  lre_is_space c = Some (((0x9 <=? c) && (c <=? 0xd)) || (c =? 0xfeff) || cr_mem separator_points c).
Proof.
  unfold lre_is_space. change (S (length char_range_s)) with 22%nat.
  change ((zlen char_range_s - 1) / 2) with 10.
  do 10 (erewrite is_space_step by reflexivity). rewrite is_space_end by reflexivity.
  unfold separator_points. cbn [cr_mem].
  repeat match goal with
  | |- context [if c <? ?k then Some ?b else _] => destruct (Z.ltb_spec c k); [f_equal; space_cases c|]
  end.
  f_equal; space_cases c.
Qed.

(** [lre_is_space] is the WhiteSpace and LineTerminator of ECMAScript: the
    controls TAB, LF, VT, FF and CR, the byte order mark, and the characters
    whose general category, in the library's own table, is a separator. *)
Theorem lre_is_space_spec c :
  lre_is_space c = Some true ↔
    0x9 <= c <= 0xd ∨ c = 0xfeff ∨
    ∃ g, unicode_gc c = Some g ∧ (g = UNICODE_GC_Zs ∨ g = UNICODE_GC_Zl ∨ g = UNICODE_GC_Zp).
Proof.
  rewrite lre_is_space_eq, <- separator_mem. generalize (unicode_gc c). intros o. split.
  - intros E. apply (inj Some) in E. apply orb_true_iff in E as [E|E]; [blia|right; right].
    apply opt_test_Some in E as (g & Hg & Ht). exists g. split; [done|]. by apply separator_bits.
  - intros Hc. f_equal. apply orb_true_iff. destruct Hc as [Hc|[->|(g & Hg & Ht)]]; [left; blia|by left|right].
    subst o. cbn [opt_test]. by apply separator_bits.
Qed.
