(* ===== verification/ReClass.v ===== *)
(** * Atoms and character classes of the regular expression compiler

    The parse state of js/libregexp.c, the emission of opcodes, and the
    functions that parse one atom or one bracketed class.  A function returns
    the C status (0 or -1) with the new state; the pattern is [c_buf], a
    pointer into it is an index. *)
From S2P Require Import Prelude Alloc Cutils Utf8 DynBuf CharRange UnicodeTables CaseConv RunTable.
From S2P Require Import UnicodeProps ReOpcodes ReLex.

(** the fields of [REParseState] that do not change; [c_buf] goes on after
    [buf_end] with the terminating zero *)
Record REParseContext := mkPC {
  c_buf : list Z;
  c_buf_end : Z;
  c_is_unicode : bool;
  c_ignore_case : bool;
  c_dotall : bool
}.
(** the fields that change; [s_u] are the [TMP_BUF_SIZE] bytes of the union
    [u], which holds [error_msg] and [tmp_buf] at the same address *)
Record REParseState := mkPS {
  byte_code : DynBuf;
  buf_ptr : Z;
  capture_count : Z;
  total_capture_count : Z;
  has_named_captures : Z;
  group_names : DynBuf;
  s_u : list Z
}.
Definition set_byte_code (s : REParseState) (b : DynBuf) : REParseState :=
  mkPS b (buf_ptr s) (capture_count s) (total_capture_count s) (has_named_captures s) (group_names s) (s_u s).
Definition set_buf_ptr (s : REParseState) (p : Z) : REParseState :=
  mkPS (byte_code s) p (capture_count s) (total_capture_count s) (has_named_captures s) (group_names s) (s_u s).
Definition set_capture_count (s : REParseState) (n : Z) : REParseState :=
  mkPS (byte_code s) (buf_ptr s) n (total_capture_count s) (has_named_captures s) (group_names s) (s_u s).
Definition set_captures (s : REParseState) (total named : Z) : REParseState :=
  mkPS (byte_code s) (buf_ptr s) (capture_count s) total named (group_names s) (s_u s).
Definition set_group_names (s : REParseState) (g : DynBuf) : REParseState :=
  mkPS (byte_code s) (buf_ptr s) (capture_count s) (total_capture_count s) (has_named_captures s) g (s_u s).
Definition set_u (s : REParseState) (u : list Z) : REParseState :=
  mkPS (byte_code s) (buf_ptr s) (capture_count s) (total_capture_count s) (has_named_captures s)
    (group_names s) u.

(** the bytes [d] written at the start of [u] *)
Definition store_u (s : REParseState) (d : list Z) : REParseState := set_u s (d ++ zdrop (zlen d) (s_u s)).
(** [re_parse_error]: the message, of which [vsnprintf] keeps what fits; the
    callers return its result -1 *)
Definition re_parse_error (s : REParseState) (msg : list Z) : REParseState :=
  store_u s (ztake (TMP_BUF_SIZE - 1) msg ++ [0]).
Definition re_parse_out_of_memory (s : REParseState) : REParseState :=
  re_parse_error s (c_bytes "out of memory").

Definition CLASS_RANGE_BASE : Z := 0x40000000.
Definition CHAR_RANGE_d : Z := 0.
Definition CHAR_RANGE_D : Z := 1.
Definition CHAR_RANGE_s : Z := 2.
Definition CHAR_RANGE_S : Z := 3.
Definition CHAR_RANGE_w : Z := 4.
Definition CHAR_RANGE_W : Z := 5.
Definition char_range_table : list (list Z) := [char_range_d; char_range_s; char_range_w].

Section Emit.
Context `{!Allocator}.

Definition re_emit_op (s : REParseState) (op : Z) : M REParseState :=
  '(_, b) ← dbuf_putc (byte_code s) op; mret (set_byte_code s b).
(** the offset of the value, and the state *)
Definition re_emit_op_u32 (s : REParseState) (op val : Z) : M (Z * REParseState) :=
  '(_, b) ← dbuf_putc (byte_code s) op;
  let pos := d_size b in
  '(_, b) ← dbuf_put_u32 b val;
  mret (pos, set_byte_code s b).
Definition re_emit_goto (s : REParseState) (op val : Z) : M (Z * REParseState) :=
  '(_, b) ← dbuf_putc (byte_code s) op;
  let pos := d_size b in
  '(_, b) ← dbuf_put_u32 b (val - (pos + 4));
  mret (pos, set_byte_code s b).
Definition re_emit_op_u8 (s : REParseState) (op val : Z) : M REParseState :=
  '(_, b) ← dbuf_putc (byte_code s) op;
  '(_, b) ← dbuf_putc b val;
  mret (set_byte_code s b).
Definition re_emit_op_u16 (s : REParseState) (op val : Z) : M REParseState :=
  '(_, b) ← dbuf_putc (byte_code s) op;
  '(_, b) ← dbuf_put_u16 b val;
  mret (set_byte_code s b).

(** ** Ranges *)
Fixpoint add_points (cr : CharRange) (pts : list Z) : M (Z * CharRange) :=
  match pts with
  | [] => mret (0, cr)
  | v :: pts => cr ←? cr_add_point cr v; add_points cr pts
  end.
Definition cr_init_char_range (c : Z) : M (Z * CharRange) :=
  c_pt ← lift char_range_table.[c >> 1];
  len ← lift c_pt.[0];
  cr ←? add_points cr_init (ztake (len * 2) (zdrop 1 c_pt));
  if negb (c .& 1 =? 0) then cr_invert cr else mret (0, cr).

(** the two loops of [re_emit_range] *)
Fixpoint emit_range16 (b : DynBuf) (points : list Z) : M DynBuf :=
  match points with
  | lo :: hi :: points =>
    '(_, b) ← dbuf_put_u16 b lo;
    let high := u32 (hi - 1) in
    let high := if high =? UINT32_MAX - 1 then 0xffff else high in
    '(_, b) ← dbuf_put_u16 b high;
    emit_range16 b points
  | _ => mret b
  end.
Fixpoint emit_range32 (b : DynBuf) (points : list Z) : M DynBuf :=
  match points with
  | lo :: hi :: points =>
    '(_, b) ← dbuf_put_u32 b lo;
    '(_, b) ← dbuf_put_u32 b (u32 (hi - 1));
    emit_range32 b points
  | _ => mret b
  end.
Definition re_emit_range (s : REParseState) (cr : CharRange) : M (Z * REParseState) :=
  let len := cr_len cr / 2 in
  if len >=? 65535 then mret (-1, re_parse_error s (c_bytes "too many ranges"))
  else if len =? 0 then
    '(_, s) ← re_emit_op_u32 s REOP_char32 (-1); mret (0, s)
  else
    high ← lift (cr_points cr).[cr_len cr - 1];
    high ← lift (if high =? UINT32_MAX then (cr_points cr).[cr_len cr - 2] else Some high);
    if high <=? 0xffff then
      s ← re_emit_op_u16 s REOP_range len;
      b ← emit_range16 (byte_code s) (cr_points cr);
      mret (0, set_byte_code s b)
    else
      s ← re_emit_op_u16 s REOP_range32 len;
      b ← emit_range32 (byte_code s) (cr_points cr);
      mret (0, set_byte_code s b).

(** ** Unicode properties *)
Definition is_unicode_char (c : Z) : bool :=
  ((c >=? 0x30) && (c <=? 0x39)) || ((c >=? 0x41) && (c <=? 0x5a)) ||
  ((c >=? 0x61) && (c <=? 0x7a)) || (c =? 0x5f).
(** [while (is_unicode_char( *p ))] into a 64-byte buffer: the word and the
    position, or [None] when the buffer is full *)
Fixpoint unicode_word (fuel : nat) (buf : list Z) (p : Z) (q : list Z) : option (option (list Z * Z)) :=
  match fuel with
  | O => None
  | S fuel =>
    x ← buf.[p];
    if is_unicode_char x then
      if zlen q >=? 64 - 1 then Some None else unicode_word fuel buf (p + 1) (q ++ [x])
    else Some (Some (q, p))
  end.
(** [!strcmp(name, str)] *)
Definition streq (name : list Z) (str : string) : bool := bool_decide (name = c_bytes str).

Context (ctx : REParseContext).
Let buf := c_buf ctx.

(** the range of a property: -1 (with the error already set), or 0 *)
Definition property_range (s : REParseState) (name value : list Z) : M (Z * CharRange * REParseState) :=
  let unknown_property_name s := re_parse_error s (c_bytes "unknown unicode property name") in
  let result (r : Z * CharRange) not_found :=
    let '(ret, cr) := r in
    mret (if ret =? 0 then (0, cr, s)
          else if ret =? -2 then (-1, cr, re_parse_error s not_found)
          else (-1, cr, re_parse_out_of_memory s)) in
  if streq name "Script" || streq name "sc" then
    r ← unicode_script cr_init (value ++ [0]) false; result r (c_bytes "unknown unicode script")
  else if streq name "Script_Extensions" || streq name "scx" then
    r ← unicode_script cr_init (value ++ [0]) true; result r (c_bytes "unknown unicode script")
  else if streq name "General_Category" || streq name "gc" then
    r ← unicode_general_category cr_init (value ++ [0]);
    result r (c_bytes "unknown unicode general category")
  else if zlen value =? 0 then
    '(ret, cr) ← unicode_general_category cr_init (name ++ [0]);
    if ret =? -1 then mret (-1, cr, re_parse_out_of_memory s)
    else if ret <? 0 then
      '(ret, cr) ← unicode_prop cr (name ++ [0]);
      mret (if ret =? 0 then (0, cr, s)
            else if ret =? -2 then (-1, cr, unknown_property_name s)
            else (-1, cr, re_parse_out_of_memory s))
    else mret (0, cr, s)
  else mret (-1, cr_init, unknown_property_name s).
(** [parse_unicode_property]: the status, the range, the position, the state *)
Definition parse_unicode_property (s : REParseState) (pp : Z) (is_inv : bool) :
    M (Z * CharRange * Z * REParseState) :=
  let error s msg := mret (-1, cr_init, pp, re_parse_error s (c_bytes msg)) in
  x ← lift buf.[pp];
  if negb (x =? 0x7b) then error s "expecting '{' after \p"
  else
    w ← lift (unicode_word (S (length buf)) buf (pp + 1) []);
    match w with
    | None => error s "unknown unicode property name"
    | Some (name, p) =>
      x ← lift buf.[p];
      w ← lift (if x =? 0x3d then unicode_word (S (length buf)) buf (p + 1) [] else Some (Some ([], p)));
      match w with
      | None => error s "unknown unicode property value"
      | Some (value, p) =>
        x ← lift buf.[p];
        if negb (x =? 0x7d) then error s "expecting '}'"
        else
          let p := p + 1 in
          '(ret, cr, s) ← property_range s name value;
          if negb (ret =? 0) then mret (-1, cr, pp, s)
          else if is_inv then
            '(ret, cr) ← cr_invert cr;
            mret (if negb (ret =? 0) then (-1, cr, pp, s) else (0, cr, p, s))
          else mret (0, cr, p, s)
      end
    end.

(** ** Atoms *)

(** the result of [get_class_atom]: -1, a character, or CLASS_RANGE_BASE with
    a range; the position; the state *)
Definition atom_result : Type := Z * option CharRange * Z * REParseState.

(** label [normal_char] *)
Definition atom_normal_char (s : REParseState) (c p pp : Z) : M atom_result :=
  if c >=? 128 then
    '(c, p) ← lift (utf8_at buf p);
    if (u32 c >? 0xffff) && negb (c_is_unicode ctx) then
      mret (-1, None, pp, re_parse_error s (c_bytes "malformed unicode char"))
    else mret (c, None, p, s)
  else mret (c, None, p + 1, s).
Definition atom_invalid_escape (s : REParseState) (pp : Z) : atom_result :=
  (-1, None, pp, re_parse_error s (c_bytes "invalid escape sequence in regular expression")).
(** label [class_range] *)
Definition atom_class_range (s : REParseState) (c p pp : Z) : M atom_result :=
  '(ret, cr) ← cr_init_char_range c;
  mret (if negb (ret =? 0) then (-1, None, pp, s) else (CLASS_RANGE_BASE, Some cr, p, s)).
(** the [default] of the inner [switch]: [p] at the character [c] after the backslash *)
Definition atom_escape (s : REParseState) (c p pp : Z) : M atom_result :=
  '(ret, p) ← lift (lre_parse_escape buf p (b2z (c_is_unicode ctx) * 2));
  if ret >=? 0 then mret (ret, None, p, s)
  else
    x ← lift buf.[p];
    if (ret =? -2) && negb (x =? 0) && bool_decide (x ∈ c_bytes "^$\.*+?()[]{}|/") then
      atom_normal_char s c p pp
    else if c_is_unicode ctx then mret (atom_invalid_escape s pp)
    else atom_normal_char s c p pp.
(** [case 'c'], [p] after the letter *)
Definition atom_control (s : REParseState) (p pp : Z) (inclass : bool) : M atom_result :=
  c ← lift buf.[p];
  if ((c >=? 0x61) && (c <=? 0x7a)) || ((c >=? 0x41) && (c <=? 0x5a)) ||
     ((((c >=? 0x30) && (c <=? 0x39)) || (c =? 0x5f)) && inclass && negb (c_is_unicode ctx)) then
    mret (c .& 0x1f, None, p + 1, s)
  else if c_is_unicode ctx then mret (atom_invalid_escape s pp)
  else mret (0x5c, None, p - 1, s).
Definition get_class_atom (s : REParseState) (pp : Z) (inclass : bool) : M atom_result :=
  let unexpected_end s := (-1, None, pp, re_parse_error s (c_bytes "unexpected end")) in
  let p := pp in
  c ← lift buf.[p];
  if c =? 0x5c then
    let p := p + 1 in
    if p >=? c_buf_end ctx then mret (unexpected_end s)
    else
      c ← lift buf.[p];
      let p := p + 1 in
      if c =? 0x64 then atom_class_range s CHAR_RANGE_d p pp
      else if c =? 0x44 then atom_class_range s CHAR_RANGE_D p pp
      else if c =? 0x73 then atom_class_range s CHAR_RANGE_s p pp
      else if c =? 0x53 then atom_class_range s CHAR_RANGE_S p pp
      else if c =? 0x77 then atom_class_range s CHAR_RANGE_w p pp
      else if c =? 0x57 then atom_class_range s CHAR_RANGE_W p pp
      else if c =? 0x63 then atom_control s p pp inclass
      else if ((c =? 0x70) || (c =? 0x50)) && c_is_unicode ctx then
        '(ret, cr, p, s) ← parse_unicode_property s p (c =? 0x50);
        mret (if negb (ret =? 0) then (-1, None, pp, s) else (CLASS_RANGE_BASE, Some cr, p, s))
      else atom_escape s c (p - 1) pp
  else if (c =? 0) && (p >=? c_buf_end ctx) then mret (unexpected_end s)
  else atom_normal_char s c p pp.

(** ** Bracketed classes *)

(** label [class_atom]: add the character or range of the last atom *)
Definition class_add_atom (cr : CharRange) (c1 : Z) (cr1 : option CharRange) : M (Z * CharRange) :=
  if c1 >=? CLASS_RANGE_BASE then
    cr1 ← lift cr1; cr_union1 cr (cr_points cr1)
  else cr_union_interval cr c1 c1.
(** the [for(;;)] over the atoms: the status, the range, the position of the
    closing bracket, the state *)
Fixpoint char_class_loop (fuel : nat) (s : REParseState) (cr : CharRange) (p : Z) :
    M (Z * CharRange * Z * REParseState) :=
  match fuel with
  | O => ub
  | S fuel =>
    x ← lift buf.[p];
    if x =? 0x5d then mret (0, cr, p, s)
    else
      '(c1, cr1, p, s) ← get_class_atom s p true;
      if c1 <? 0 then mret (-1, cr, p, s)
      else
        let memory_error s := re_parse_out_of_memory s in
        let class_atom s :=
          '(ret, cr) ← class_add_atom cr c1 cr1;
          if negb (ret =? 0) then mret (-1, cr, p, memory_error s) else char_class_loop fuel s cr p in
        let invalid_class_range s := mret (-1, cr, p, re_parse_error s (c_bytes "invalid class range")) in
        x ← lift buf.[p];
        is_range ← lift (if x =? 0x2d then y ← buf.[p + 1]; Some (negb (y =? 0x5d)) else Some false);
        if is_range : bool then
          if c1 >=? CLASS_RANGE_BASE then
            if c_is_unicode ctx then invalid_class_range s else class_atom s
          else
            '(c2, _, p0, s) ← get_class_atom s (p + 1) true;
            if c2 <? 0 then mret (-1, cr, p, s)
            else if c2 >=? CLASS_RANGE_BASE then
              if c_is_unicode ctx then invalid_class_range s else class_atom s
            else if c2 <? c1 then invalid_class_range s
            else
              '(ret, cr) ← cr_union_interval cr c1 c2;
              if negb (ret =? 0) then mret (-1, cr, p0, memory_error s)
              else char_class_loop fuel s cr p0
        else class_atom s
  end.
Definition re_parse_char_class (s : REParseState) (pp : Z) : M (Z * Z * REParseState) :=
  let p := pp + 1 in
  x ← lift buf.[p];
  let invert := x =? 0x5e in
  let p := if invert then p + 1 else p in
  '(ret, cr, p, s) ← char_class_loop (S (length buf)) s cr_init p;
  if negb (ret =? 0) then mret (-1, pp, s)
  else
    '(ret, cr) ← (if c_ignore_case ctx then cr_regexp_canonicalize cr (c_is_unicode ctx) else mret (0, cr));
    if negb (ret =? 0) then mret (-1, pp, re_parse_out_of_memory s)
    else
      '(ret, cr) ← (if invert then cr_invert cr else mret (0, cr));
      if negb (ret =? 0) then mret (-1, pp, re_parse_out_of_memory s)
      else
        '(ret, s) ← re_emit_range s cr;
        mret (if negb (ret =? 0) then (-1, pp, s) else (0, p + 1, s)).
End Emit.
