(* ===== verification/ReCompile.v ===== *)
(** * The regular expression compiler (js/libregexp.c)

    [re_parse_disjunction], [re_parse_alternative] and [re_parse_term] emit
    the byte code of a pattern while they read it; [lre_compile] wraps the
    code in its header.  A [goto] between the cases of [re_parse_term] is a
    call of the definition named after the label.  A write into the byte code
    beyond its allocated size is undefined behaviour ([ub]). *)
From S2P Require Import Prelude Alloc Cutils Utf8 DynBuf CharRange UnicodeTables CaseConv RunTable.
From S2P Require Import UnicodeProps ReOpcodes ReLex ReClass.

(** ** Looking at the emitted code *)
Section ByteCode.
Context (bc_buf : list Z).

(** the size of the opcode at [pos] with its ranges *)
Definition opcode_len (pos opcode : Z) : option Z :=
  len ← reopcode_info.[opcode];
  if opcode =? REOP_range then val ← get_u16 bc_buf (pos + 1); Some (len + val * 4)
  else if opcode =? REOP_range32 then val ← get_u16 bc_buf (pos + 1); Some (len + val * 8)
  else Some len.
Definition simple_char_op (opcode : Z) : bool :=
  (opcode =? REOP_range) || (opcode =? REOP_range32) || (opcode =? REOP_char) ||
  (opcode =? REOP_char32) || (opcode =? REOP_dot) || (opcode =? REOP_any).
(** the opcodes [re_need_check_advance] ignores *)
Definition no_effect_op (opcode : Z) : bool :=
  (opcode =? REOP_line_start) || (opcode =? REOP_line_end) || (opcode =? REOP_push_i32) ||
  (opcode =? REOP_push_char_pos) || (opcode =? REOP_drop) || (opcode =? REOP_word_boundary) ||
  (opcode =? REOP_not_word_boundary) || (opcode =? REOP_prev) || (opcode =? REOP_save_start) ||
  (opcode =? REOP_save_end) || (opcode =? REOP_save_reset) || (opcode =? REOP_back_reference) ||
  (opcode =? REOP_backward_back_reference).
Fixpoint need_check_advance_loop (fuel : nat) (pos : Z) (ret : bool) : option bool :=
  match fuel with
  | O => None
  | S fuel =>
    if pos <? zlen bc_buf then
      opcode ← bc_buf.[pos];
      len ← opcode_len pos opcode;
      if simple_char_op opcode then need_check_advance_loop fuel (pos + len) false
      else if no_effect_op opcode then need_check_advance_loop fuel (pos + len) ret
      else Some true
    else Some ret
  end.
Definition re_need_check_advance : option bool :=
  need_check_advance_loop (S (length bc_buf)) 0 true.
(** the opcodes [re_is_simple_quantifier] accepts beside the characters *)
Definition assertion_op (opcode : Z) : bool :=
  (opcode =? REOP_line_start) || (opcode =? REOP_line_end) || (opcode =? REOP_word_boundary) ||
  (opcode =? REOP_not_word_boundary).
Fixpoint is_simple_quantifier_loop (fuel : nat) (pos count : Z) : option Z :=
  match fuel with
  | O => None
  | S fuel =>
    if pos <? zlen bc_buf then
      opcode ← bc_buf.[pos];
      len ← opcode_len pos opcode;
      if simple_char_op opcode then is_simple_quantifier_loop fuel (pos + len) (count + 1)
      else if assertion_op opcode then is_simple_quantifier_loop fuel (pos + len) count
      else Some (-1)
    else Some count
  end.
Definition re_is_simple_quantifier : option Z :=
  is_simple_quantifier_loop (S (length bc_buf)) 0 0.

(** the loop of [compute_stack_size], which has skipped the header *)
Fixpoint stack_size_loop (fuel : nat) (pos stack_size stack_size_max : Z) : option Z :=
  match fuel with
  | O => None
  | S fuel =>
    if pos <? zlen bc_buf then
      opcode ← bc_buf.[pos];
      size ← reopcode_info.[opcode];
      if negb ((opcode <? REOP_COUNT) && (pos + size <=? zlen bc_buf)) then None
      else
        len ← opcode_len pos opcode;
        if (opcode =? REOP_push_i32) || (opcode =? REOP_push_char_pos) then
          let stack_size := stack_size + 1 in
          if stack_size >? stack_size_max then
            if stack_size >? STACK_SIZE_MAX then Some (-1)
            else stack_size_loop fuel (pos + len) stack_size stack_size
          else stack_size_loop fuel (pos + len) stack_size stack_size_max
        else if (opcode =? REOP_drop) || (opcode =? REOP_check_advance) then
          if stack_size >? 0 then stack_size_loop fuel (pos + len) (stack_size - 1) stack_size_max
          else None
        else stack_size_loop fuel (pos + len) stack_size stack_size_max
    else Some stack_size_max
  end.
End ByteCode.
Definition compute_stack_size (bc_buf : list Z) : option Z :=
  let code := zdrop RE_HEADER_LEN bc_buf in
  stack_size_loop code (S (length code)) 0 0 0.

(** ** Group names *)
(** the entries of [group_names] from offset [p] on *)
Fixpoint find_group_name_loop (fuel : nat) (names name : list Z) (p capture_index : Z) : option Z :=
  match fuel with
  | O => None
  | S fuel =>
    if p <? zlen names then
      len ← strlen (zdrop p names);
      if bool_decide (ztake len (zdrop p names) = name) then Some capture_index
      else find_group_name_loop fuel names name (p + (len + 1)) (capture_index + 1)
    else Some (-1)
  end.
Definition find_group_name (s : REParseState) (name : list Z) : option Z :=
  if allocated_size (group_names s) =? 0 then Some (-1)
  else find_group_name_loop (S (length (d_buf (group_names s)))) (d_buf (group_names s)) name 0 1.
(** the string in [u.tmp_buf] *)
Definition tmp_name (s : REParseState) : option (list Z) :=
  len ← strlen (s_u s); Some (ztake len (s_u s)).

(** ** Writes into the emitted code *)
(** [memcpy(s->byte_code.buf + pos, d, ..)]: what lies beyond [size] is not kept *)
Definition bc_poke (s : REParseState) (pos : Z) (d : list Z) : M REParseState :=
  let b := byte_code s in
  if (pos <? 0) || (allocated_size b <? pos + zlen d) then ub
  else
    mret (set_byte_code s
      (mkDynBuf (ztake (d_size b) (ztake pos (d_buf b) ++ d ++ zdrop (pos + zlen d) (d_buf b)))
                (allocated_size b) (d_error b))).
Definition bc_size (s : REParseState) : Z := d_size (byte_code s).
(** the emitted code from [start] on *)
Definition bc_from (s : REParseState) (start : Z) : list Z := zdrop start (d_buf (byte_code s)).

Section Parser.
Context `{!Allocator}.
Context (ctx : REParseContext).
(** the host's [lre_check_stack_overflow], as a function of the number of
    nested calls of [re_parse_disjunction] *)
Context (lre_check_stack_overflow : nat → bool).
Let buf := c_buf ctx.
Let is_unicode := c_is_unicode ctx.

Definition bc_insert (s : REParseState) (pos len : Z) : M (Z * REParseState) :=
  '(ret, b) ← dbuf_insert (byte_code s) pos len; mret (ret, set_byte_code s b).
Definition bc_put_self (s : REParseState) (offset len : Z) : M REParseState :=
  '(_, b) ← dbuf_put_self (byte_code s) offset len; mret (set_byte_code s b).

Definition re_count_captures (s : REParseState) : option (Z * REParseState) :=
  if total_capture_count s <? 0 then
    '(n, named) ← re_parse_captures buf (c_buf_end ctx) None;
    Some (n, set_captures s n (b2z named))
  else Some (total_capture_count s, s).
Definition re_has_named_captures (s : REParseState) : option (bool * REParseState) :=
  s ← (if has_named_captures s <? 0 then '(_, s) ← re_count_captures s; Some s else Some s);
  Some (negb (has_named_captures s =? 0), s).

(** [re_parse_expect]: the position after [c], or an error *)
Definition re_parse_expect (s : REParseState) (p c : Z) : option (option Z * REParseState) :=
  x ← buf.[p];
  if negb (x =? c) then Some (None, re_parse_error s (c_bytes "expecting '" ++ [c] ++ c_bytes "'"))
  else Some (Some (p + 1), s).

(** ** Terms

    The [switch] of [re_parse_term]: [p], [last_atom_start] and
    [last_capture_count] where it ends, or [return -1]. *)
Definition term_result : Type := option (Z * Z * Z) * REParseState.
Definition term_error (s : REParseState) (msg : string) : M term_result :=
  mret (None, re_parse_error s (c_bytes msg)).
(** [re_emit_op] when the direction asks for it *)
Definition emit_prev (s : REParseState) (is_backward_dir : bool) : M REParseState :=
  if is_backward_dir then re_emit_op s REOP_prev else mret s.

(** label [normal_char] *)
Definition term_normal_char (s : REParseState) (c : Z) (cr : option CharRange) (p : Z)
    (is_backward_dir : bool) : M term_result :=
  let last_atom_start := bc_size s in
  let last_capture_count := capture_count s in
  s ← emit_prev s is_backward_dir;
  '(ret, s) ←
    (if c >=? CLASS_RANGE_BASE then cr ← lift cr; re_emit_range s cr
     else
       c ← lift (if c_ignore_case ctx then lre_canonicalize c is_unicode else Some c);
       if c <=? 0xffff then s ← re_emit_op_u16 s REOP_char c; mret (0, s)
       else '(_, s) ← re_emit_op_u32 s REOP_char32 c; mret (0, s));
  if negb (ret =? 0) then mret (None, s)
  else s ← emit_prev s is_backward_dir; mret (Some (p, last_atom_start, last_capture_count), s).
(** label [parse_class_atom] *)
Definition term_class_atom (s : REParseState) (p : Z) (is_backward_dir : bool) : M term_result :=
  '(c, cr, p, s) ← get_class_atom ctx s p false;
  if c <? 0 then mret (None, s) else term_normal_char s c cr p is_backward_dir.
(** label [emit_back_reference] *)
Definition term_back_reference (s : REParseState) (c p : Z) (is_backward_dir : bool) : M term_result :=
  let last_atom_start := bc_size s in
  let last_capture_count := capture_count s in
  s ← re_emit_op_u8 s (REOP_back_reference + b2z is_backward_dir) c;
  mret (Some (p, last_atom_start, last_capture_count), s).
Definition term_dot (s : REParseState) (p : Z) (is_backward_dir : bool) : M term_result :=
  let last_atom_start := bc_size s in
  let last_capture_count := capture_count s in
  s ← emit_prev s is_backward_dir;
  s ← re_emit_op s (if c_dotall ctx then REOP_any else REOP_dot);
  s ← emit_prev s is_backward_dir;
  mret (Some (p + 1, last_atom_start, last_capture_count), s).
Definition term_class (s : REParseState) (p : Z) (is_backward_dir : bool) : M term_result :=
  let last_atom_start := bc_size s in
  let last_capture_count := capture_count s in
  s ← emit_prev s is_backward_dir;
  '(ret, p, s) ← re_parse_char_class ctx s p;
  if negb (ret =? 0) then mret (None, s)
  else s ← emit_prev s is_backward_dir; mret (Some (p, last_atom_start, last_capture_count), s).
(** [case '{'] *)
Definition term_brace (s : REParseState) (p : Z) (is_backward_dir : bool) : M term_result :=
  if is_unicode then term_error s "syntax error"
  else
    x ← lift buf.[p + 1];
    if negb (is_digit x) then term_class_atom s p is_backward_dir
    else
      '(_, p1) ← lift (parse_digits buf (p + 1) true);
      x ← lift buf.[p1];
      p1 ← lift (if x =? 0x2c then
                   y ← buf.[p1 + 1];
                   if is_digit y then '(_, p1) ← parse_digits buf (p1 + 1) true; Some p1
                   else Some (p1 + 1)
                 else Some p1);
      x ← lift buf.[p1];
      if negb (x =? 0x7d) then term_class_atom s p is_backward_dir
      else term_error s "nothing to repeat".
(** [case 'k'] of the escapes, [p] at the backslash *)
Definition term_named_back_reference (s : REParseState) (p : Z) (is_backward_dir : bool) : M term_result :=
  let fallback s msg :=
    if is_unicode then term_error s msg
    else
      '(named, s) ← lift (re_has_named_captures s);
      if named : bool then term_error s msg else term_class_atom s p is_backward_dir in
  x ← lift buf.[p + 2];
  if negb (x =? 0x3c) then fallback s "expecting group name"
  else
    '(name, p1) ← lift (re_parse_group_name buf TMP_BUF_SIZE (p + 3));
    let s := store_u s name in
    match p1 with
    | None => fallback s "invalid group name"
    | Some p1 =>
      name ← lift (tmp_name s);
      c ← lift (find_group_name s name);
      c ← lift (if c <? 0 then
                  '(c, _) ← re_parse_captures buf (c_buf_end ctx) (Some name); Some c
                else Some c);
      if c <? 0 then fallback s "group name not defined"
      else term_back_reference s c p1 is_backward_dir
    end.
(** up to two octal digits more: [n] is their number, [c] the value so far *)
Fixpoint octal_digits (n : nat) (c p : Z) : option (Z * Z) :=
  match n with
  | O => Some (c, p)
  | S n =>
    x ← buf.[p];
    if (x >=? 0x30) && (x <=? 0x37) then octal_digits n ((c << 3) + x - 0x30) (p + 1) else Some (c, p)
  end.
(** [case '0'] of the escapes *)
Definition term_zero (s : REParseState) (p : Z) (is_backward_dir : bool) : M term_result :=
  let p := p + 2 in
  if is_unicode then
    x ← lift buf.[p];
    if is_digit x then term_error s "invalid decimal escape in regular expression"
    else term_normal_char s 0 None p is_backward_dir
  else
    '(c, p) ← lift (octal_digits 2 0 p); term_normal_char s c None p is_backward_dir.
(** Annex B.1.4 in the cases '1' to '9': the character and the position after it *)
Definition legacy_octal (q : Z) : option (Z * Z) :=
  x ← buf.[q];
  if x <=? 0x37 then
    if x <=? 0x33 then octal_digits 2 (x - 0x30) (q + 1) else octal_digits 2 0 q
  else Some (x, q + 1).
Definition term_digit (s : REParseState) (p : Z) (is_backward_dir : bool) : M term_result :=
  let q := p + 1 in
  '(c, p) ← lift (parse_digits buf q false);
  '(out_of_range, s) ← lift (if c <? 0 then Some (true, s)
                             else if c >=? capture_count s then
                               '(n, s) ← re_count_captures s; Some (c >=? n, s)
                             else Some (false, s));
  if out_of_range : bool then
    if negb is_unicode then
      '(c, p) ← lift (legacy_octal q); term_normal_char s c None p is_backward_dir
    else term_error s "back reference out of range in regular expression"
  else term_back_reference s c p is_backward_dir.
Definition term_escape (s : REParseState) (p : Z) (is_backward_dir : bool) : M term_result :=
  x ← lift buf.[p + 1];
  if (x =? 0x62) || (x =? 0x42) then
    s ← re_emit_op s (REOP_word_boundary + b2z (negb (x =? 0x62)));
    mret (Some (p + 2, -1, 0), s)
  else if x =? 0x6b then term_named_back_reference s p is_backward_dir
  else if x =? 0x30 then term_zero s p is_backward_dir
  else if (0x31 <=? x) && (x <=? 0x39) then term_digit s p is_backward_dir
  else term_class_atom s p is_backward_dir.

(** ** Groups: [disj] is [re_parse_disjunction] *)
Section Groups.
Context (disj : REParseState → bool → M (Z * REParseState)).

(** a disjunction up to its closing parenthesis: the position after it *)
Definition term_group (s : REParseState) (p : Z) (is_backward_dir : bool) : M term_result :=
  let last_atom_start := bc_size s in
  let last_capture_count := capture_count s in
  '(ret, s) ← disj (set_buf_ptr s p) is_backward_dir;
  if negb (ret =? 0) then mret (None, s)
  else
    '(p, s) ← lift (re_parse_expect s (buf_ptr s) 0x29);
    mret (match p with Some p => Some (p, last_atom_start, last_capture_count) | None => None end, s).
(** label [lookahead] *)
Definition term_lookahead (s : REParseState) (p : Z) (is_neg is_backward_lookahead : bool) : M term_result :=
  let '(last_atom_start, last_capture_count) :=
    if negb is_unicode && negb is_backward_lookahead then (bc_size s, capture_count s) else (-1, 0) in
  '(pos, s) ← re_emit_op_u32 s (REOP_lookahead + b2z is_neg) 0;
  '(ret, s) ← disj (set_buf_ptr s p) is_backward_lookahead;
  if negb (ret =? 0) then mret (None, s)
  else
    '(p, s) ← lift (re_parse_expect s (buf_ptr s) 0x29);
    match p with
    | None => mret (None, s)
    | Some p =>
      s ← re_emit_op s REOP_match;
      if dbuf_error (byte_code s) then mret (None, s)
      else
        s ← bc_poke s pos (le32 (bc_size s - (pos + 4)));
        mret (Some (p, last_atom_start, last_capture_count), s)
    end.
(** label [parse_capture] *)
Definition term_capture (s : REParseState) (p : Z) (is_backward_dir : bool) : M term_result :=
  if capture_count s >=? CAPTURE_COUNT_MAX then term_error s "too many captures"
  else
    let last_atom_start := bc_size s in
    let last_capture_count := capture_count s in
    let capture_index := capture_count s in
    let s := set_capture_count s (capture_index + 1) in
    s ← re_emit_op_u8 s (REOP_save_start + b2z is_backward_dir) capture_index;
    '(ret, s) ← disj (set_buf_ptr s p) is_backward_dir;
    if negb (ret =? 0) then mret (None, s)
    else
      let p := buf_ptr s in
      s ← re_emit_op_u8 s (REOP_save_start + 1 - b2z is_backward_dir) capture_index;
      '(p, s) ← lift (re_parse_expect s p 0x29);
      mret (match p with Some p => Some (p, last_atom_start, last_capture_count) | None => None end, s).
Definition term_named_capture (s : REParseState) (p : Z) (is_backward_dir : bool) : M term_result :=
  '(name, p) ← lift (re_parse_group_name buf TMP_BUF_SIZE p);
  let s := store_u s name in
  match p with
  | None => term_error s "invalid group name"
  | Some p =>
    name ← lift (tmp_name s);
    c ← lift (find_group_name s name);
    if c >? 0 then term_error s "duplicate group name"
    else
      '(_, names) ← dbuf_put (group_names s) (name ++ [0]);
      term_capture (set_captures (set_group_names s names) (total_capture_count s) 1) p is_backward_dir
  end.
(** [case '('] *)
Definition term_paren (s : REParseState) (p : Z) (is_backward_dir : bool) : M term_result :=
  x ← lift buf.[p + 1];
  if x =? 0x3f then
    y ← lift buf.[p + 2];
    if y =? 0x3a then term_group s (p + 3) is_backward_dir
    else if (y =? 0x3d) || (y =? 0x21) then term_lookahead s (p + 3) (y =? 0x21) false
    else if y =? 0x3c then
      z ← lift buf.[p + 3];
      if (z =? 0x3d) || (z =? 0x21) then term_lookahead s (p + 4) (z =? 0x21) true
      else term_named_capture s (p + 3) is_backward_dir
    else term_error s "invalid group"
  else
    '(_, names) ← dbuf_putc (group_names s) 0;
    term_capture (set_group_names s names) (p + 1) is_backward_dir.

(** the first [switch] of [re_parse_term] *)
Definition term_atom (s : REParseState) (is_backward_dir : bool) : M term_result :=
  let p := buf_ptr s in
  c ← lift buf.[p];
  if c =? 0x5e then s ← re_emit_op s REOP_line_start; mret (Some (p + 1, -1, 0), s)
  else if c =? 0x24 then s ← re_emit_op s REOP_line_end; mret (Some (p + 1, -1, 0), s)
  else if c =? 0x2e then term_dot s p is_backward_dir
  else if c =? 0x7b then term_brace s p is_backward_dir
  else if (c =? 0x2a) || (c =? 0x2b) || (c =? 0x3f) then term_error s "nothing to repeat"
  else if c =? 0x28 then term_paren s p is_backward_dir
  else if c =? 0x5c then term_escape s p is_backward_dir
  else if c =? 0x5b then term_class s p is_backward_dir
  else if ((c =? 0x5d) || (c =? 0x7d)) && is_unicode then term_error s "syntax error"
  else term_class_atom s p is_backward_dir.
End Groups.

(** ** Quantifiers *)
(** the [switch] on the quantifier at [p]: none (with the position where the
    term ends), an error, or its bounds and the position after it *)
Inductive quant_result := QNone (p : Z) | QError (s : REParseState) | Quant (quant_min quant_max p : Z).
Definition quant_braces (s : REParseState) (p : Z) : option quant_result :=
  let p1 := p in
  let invalid_quant_count := Some (QError (re_parse_error s (c_bytes "invalid repetition count"))) in
  x ← buf.[p + 1];
  if negb (is_digit x) then if is_unicode then invalid_quant_count else Some (QNone p)
  else
    '(quant_min, p) ← parse_digits buf (p + 1) true;
    x ← buf.[p];
    '(quant_max, p) ← (if x =? 0x2c then
                         y ← buf.[p + 1];
                         if is_digit y then parse_digits buf (p + 1) true else Some (INT32_MAX, p + 1)
                       else Some (quant_min, p));
    if quant_max <? quant_min then invalid_quant_count
    else
      x ← buf.[p];
      if negb (x =? 0x7d) && negb is_unicode then Some (QNone p1)
      else
        '(p, s) ← re_parse_expect s p 0x7d;
        Some (match p with Some p => Quant quant_min quant_max p | None => QError s end).
Definition parse_quant (s : REParseState) (p : Z) : option quant_result :=
  c ← buf.[p];
  if c =? 0x2a then Some (Quant 0 INT32_MAX (p + 1))
  else if c =? 0x2b then Some (Quant 1 INT32_MAX (p + 1))
  else if c =? 0x3f then Some (Quant 0 1 (p + 1))
  else if c =? 0x7b then quant_braces s p
  else Some (QNone p).

(** label [out_of_memory] *)
Definition quant_oom (s : REParseState) : M (Z * REParseState) := mret (-1, re_parse_out_of_memory s).
(** the [simple_greedy_quant] of an atom of [len] characters *)
Definition quant_simple (s : REParseState) (last_atom_start quant_min quant_max len : Z) :
    M (Z * REParseState) :=
  s ← re_emit_op s REOP_match;
  '(ret, s) ← bc_insert s last_atom_start 17;
  if negb (ret =? 0) then quant_oom s
  else
    s ← bc_poke s last_atom_start [u8 REOP_simple_greedy_quant];
    s ← bc_poke s (last_atom_start + 1) (le32 (bc_size s - last_atom_start - 17));
    s ← bc_poke s (last_atom_start + 5) (le32 quant_min);
    s ← bc_poke s (last_atom_start + 9) (le32 quant_max);
    s ← bc_poke s (last_atom_start + 13) (le32 len);
    mret (0, s).
(** [quant_min == 0] with [0 < quant_max] *)
Definition quant_optional (s : REParseState) (last_atom_start quant_max len : Z) (greedy check : bool) :
    M (Z * REParseState) :=
  if (quant_max =? 1) || (quant_max =? INT32_MAX) then
    let has_goto := quant_max =? INT32_MAX in
    '(ret, s) ← bc_insert s last_atom_start (5 + b2z check);
    if negb (ret =? 0) then quant_oom s
    else
      s ← bc_poke s last_atom_start [u8 (REOP_split_goto_first + b2z greedy)];
      s ← bc_poke s (last_atom_start + 1) (le32 (len + 5 * b2z has_goto + b2z check * 2));
      s ← (if check then
             s ← bc_poke s (last_atom_start + 1 + 4) [u8 REOP_push_char_pos];
             re_emit_op s REOP_check_advance
           else mret s);
      if has_goto then '(_, s) ← re_emit_goto s REOP_goto last_atom_start; mret (0, s)
      else mret (0, s)
  else
    '(ret, s) ← bc_insert s last_atom_start (10 + b2z check);
    if negb (ret =? 0) then quant_oom s
    else
      s ← bc_poke s last_atom_start [u8 REOP_push_i32];
      s ← bc_poke s (last_atom_start + 1) (le32 quant_max);
      s ← bc_poke s (last_atom_start + 5) [u8 (REOP_split_goto_first + b2z greedy)];
      s ← bc_poke s (last_atom_start + 6) (le32 (len + 5 + b2z check * 2));
      s ← (if check then
             s ← bc_poke s (last_atom_start + 10) [u8 REOP_push_char_pos];
             re_emit_op s REOP_check_advance
           else mret s);
      '(_, s) ← re_emit_goto s REOP_loop (last_atom_start + 5);
      s ← re_emit_op s REOP_drop;
      mret (0, s).
(** [quant_min == 0] *)
Definition quant_zero (s : REParseState) (last_atom_start last_capture_count quant_max len : Z)
    (greedy check : bool) : M (Z * REParseState) :=
  '(ret, last_atom_start, s) ←
    (if negb (last_capture_count =? capture_count s) then
       '(ret, s) ← bc_insert s last_atom_start 3;
       if negb (ret =? 0) then mret (-1, last_atom_start, s)
       else
         s ← bc_poke s last_atom_start [u8 REOP_save_reset];
         s ← bc_poke s (last_atom_start + 1) [u8 last_capture_count];
         s ← bc_poke s (last_atom_start + 2) [u8 (capture_count s - 1)];
         mret (0, last_atom_start + 3, s)
     else mret (0, last_atom_start, s));
  if negb (ret =? 0) then quant_oom s
  else if quant_max =? 0 then
    let b := byte_code s in
    mret (0, set_byte_code s (mkDynBuf (ztake last_atom_start (d_buf b)) (allocated_size b) (d_error b)))
  else quant_optional s last_atom_start quant_max len greedy check.
(** the copy of the atom in a second loop, which starts at [pos] *)
Definition quant_copy (s : REParseState) (last_atom_start pos len op : Z) (greedy check : bool) :
    M REParseState :=
  '(_, s) ← re_emit_op_u32 s (REOP_split_goto_first + b2z greedy) (len + 5 + b2z check * 2);
  s ← (if check then re_emit_op s REOP_push_char_pos else mret s);
  s ← bc_put_self s last_atom_start len;
  s ← (if check then re_emit_op s REOP_check_advance else mret s);
  '(_, s) ← re_emit_goto s op pos; mret s.
(** [quant_min >= 1] *)
Definition quant_repeat (s : REParseState) (last_atom_start quant_min quant_max len : Z)
    (greedy check : bool) : M (Z * REParseState) :=
  '(ret, last_atom_start, s) ←
    (if quant_min =? 1 then mret (0, last_atom_start, s)
     else
       '(ret, s) ← bc_insert s last_atom_start 5;
       if negb (ret =? 0) then mret (-1, last_atom_start, s)
       else
         s ← bc_poke s last_atom_start [u8 REOP_push_i32];
         s ← bc_poke s (last_atom_start + 1) (le32 quant_min);
         let last_atom_start := last_atom_start + 5 in
         '(_, s) ← re_emit_goto s REOP_loop last_atom_start;
         s ← re_emit_op s REOP_drop;
         mret (0, last_atom_start, s));
  if negb (ret =? 0) then quant_oom s
  else if quant_max =? INT32_MAX then
    s ← quant_copy s last_atom_start (bc_size s) len REOP_goto greedy check; mret (0, s)
  else if quant_max >? quant_min then
    '(_, s) ← re_emit_op_u32 s REOP_push_i32 (quant_max - quant_min);
    s ← quant_copy s last_atom_start (bc_size s) len REOP_loop greedy check;
    s ← re_emit_op s REOP_drop;
    mret (0, s)
  else mret (0, s).
Definition quant_general (s : REParseState) (last_atom_start last_capture_count quant_min quant_max : Z)
    (greedy check : bool) : M (Z * REParseState) :=
  let len := bc_size s - last_atom_start in
  if quant_min =? 0 then quant_zero s last_atom_start last_capture_count quant_max len greedy check
  else if (quant_min =? 1) && (quant_max =? INT32_MAX) && negb check then
    '(_, s) ← re_emit_goto s (REOP_split_next_first - b2z greedy) last_atom_start; mret (0, s)
  else quant_repeat s last_atom_start quant_min quant_max len greedy check.
(** label [quantifier], after the test of [greedy] *)
Definition quant_emit (s : REParseState) (last_atom_start last_capture_count quant_min quant_max : Z)
    (greedy : bool) : M (Z * REParseState) :=
  if last_atom_start <? 0 then mret (-1, re_parse_error s (c_bytes "nothing to repeat"))
  else if greedy then
    if dbuf_error (byte_code s) then quant_oom s
    else
      len ← lift (if quant_max >? 0 then re_is_simple_quantifier (bc_from s last_atom_start) else Some 0);
      if len >? 0 then quant_simple s last_atom_start quant_min quant_max len
      else
        check ← lift (re_need_check_advance (bc_from s last_atom_start));
        quant_general s last_atom_start last_capture_count quant_min quant_max greedy check
  else quant_general s last_atom_start last_capture_count quant_min quant_max greedy false.
(** the second half of [re_parse_term] *)
Definition term_quant (s : REParseState) (p last_atom_start last_capture_count : Z) : M (Z * REParseState) :=
  let done s p := mret (0, set_buf_ptr s p) in
  if last_atom_start >=? 0 then
    q ← lift (parse_quant s p);
    match q with
    | QNone p => done s p
    | QError s => mret (-1, s)
    | Quant quant_min quant_max p =>
      x ← lift buf.[p];
      let '(greedy, p) := if x =? 0x3f then (false, p + 1) else (true, p) in
      '(ret, s) ← quant_emit s last_atom_start last_capture_count quant_min quant_max greedy;
      if negb (ret =? 0) then mret (-1, s) else done s p
    end
  else done s p.

(** ** Terms, alternatives, disjunctions *)
Definition re_parse_term (disj : REParseState → bool → M (Z * REParseState)) (s : REParseState)
    (is_backward_dir : bool) : M (Z * REParseState) :=
  '(r, s) ← term_atom disj s is_backward_dir;
  match r with
  | None => mret (-1, s)
  | Some (p, last_atom_start, last_capture_count) => term_quant s p last_atom_start last_capture_count
  end.
(** the term in [term_start, size) moved to [start]; -1 without memory *)
Definition move_term (s : REParseState) (start term_start : Z) : M (Z * REParseState) :=
  let end_ := bc_size s in
  let term_size := end_ - term_start in
  '(ret, b) ← dbuf_realloc (byte_code s) (u64 (end_ + term_size));
  if negb (ret =? 0) then mret (-1, set_byte_code s b)
  else
    _ ← massert ((0 <=? term_size) && (end_ + term_size <=? allocated_size b));
    tl ← fresh_bytes end_ (Z.to_nat term_size);
    let mem := ztake (start + term_size) (d_buf b ++ tl) ++ zdrop start (d_buf b) in
    let mem := ztake start mem ++ zdrop end_ mem ++ zdrop (start + term_size) mem in
    mret (0, set_byte_code s (mkDynBuf (ztake end_ mem) (allocated_size b) (d_error b))).
Fixpoint re_parse_alternative_loop (disj : REParseState → bool → M (Z * REParseState)) (fuel : nat)
    (s : REParseState) (start : Z) (is_backward_dir : bool) : M (Z * REParseState) :=
  match fuel with
  | O => ub
  | S fuel =>
    let p := buf_ptr s in
    if p >=? c_buf_end ctx then mret (0, s)
    else
      x ← lift buf.[p];
      if (x =? 0x7c) || (x =? 0x29) then mret (0, s)
      else
        let term_start := bc_size s in
        '(ret, s) ← re_parse_term disj s is_backward_dir;
        if negb (ret =? 0) then mret (ret, s)
        else if is_backward_dir then
          '(ret, s) ← move_term s start term_start;
          if negb (ret =? 0) then mret (-1, s)
          else re_parse_alternative_loop disj fuel s start is_backward_dir
        else re_parse_alternative_loop disj fuel s start is_backward_dir
  end.
Definition re_parse_alternative (disj : REParseState → bool → M (Z * REParseState)) (s : REParseState)
    (is_backward_dir : bool) : M (Z * REParseState) :=
  re_parse_alternative_loop disj (S (length buf)) s (bc_size s) is_backward_dir.
(** [while ( *s->buf_ptr == '|')] *)
Fixpoint re_parse_disjunction_loop (disj : REParseState → bool → M (Z * REParseState)) (fuel : nat)
    (s : REParseState) (start : Z) (is_backward_dir : bool) : M (Z * REParseState) :=
  match fuel with
  | O => ub
  | S fuel =>
    x ← lift buf.[buf_ptr s];
    if x =? 0x7c then
      let s := set_buf_ptr s (buf_ptr s + 1) in
      let len := bc_size s - start in
      '(ret, s) ← bc_insert s start 5;
      if negb (ret =? 0) then quant_oom s
      else
        s ← bc_poke s start [u8 REOP_split_next_first];
        s ← bc_poke s (start + 1) (le32 (len + 5));
        '(pos, s) ← re_emit_op_u32 s REOP_goto 0;
        '(ret, s) ← re_parse_alternative disj s is_backward_dir;
        if negb (ret =? 0) then mret (-1, s)
        else
          let len := bc_size s - (pos + 4) in
          s ← bc_poke s pos (le32 len);
          re_parse_disjunction_loop disj fuel s start is_backward_dir
    else mret (0, s)
  end.
(** [depth] counts the calls in progress; the fuel bounds them *)
Fixpoint re_parse_disjunction (fuel depth : nat) (s : REParseState) (is_backward_dir : bool) :
    M (Z * REParseState) :=
  match fuel with
  | O => ub
  | S fuel =>
    if lre_check_stack_overflow depth then mret (-1, re_parse_error s (c_bytes "stack overflow"))
    else
      let start := bc_size s in
      let disj := re_parse_disjunction fuel (S depth) in
      '(ret, s) ← re_parse_alternative disj s is_backward_dir;
      if negb (ret =? 0) then mret (-1, s)
      else re_parse_disjunction_loop disj (S (length buf)) s start is_backward_dir
  end.

(** ** [lre_compile] *)
(** the header, and the loop over all positions unless the match is sticky *)
Definition compile_prologue (re_flags : Z) (s : REParseState) : M REParseState :=
  '(_, b) ← dbuf_putc (byte_code s) re_flags;
  '(_, b) ← dbuf_putc b 0;
  '(_, b) ← dbuf_putc b 0;
  '(_, b) ← dbuf_put_u32 b 0;
  let s := set_byte_code s b in
  s ← (if negb (has_flag re_flags LRE_FLAG_STICKY) then
         '(_, s) ← re_emit_op_u32 s REOP_split_goto_first (1 + 5);
         s ← re_emit_op s REOP_any;
         '(_, s) ← re_emit_op_u32 s REOP_goto (-(5 + 1 + 5));
         mret s
       else mret s);
  re_emit_op_u8 s REOP_save_start 0.
(** the patches of the header, and the group names *)
Definition compile_epilogue (s : REParseState) (stack_size : Z) : M REParseState :=
  s ← bc_poke s RE_HEADER_CAPTURE_COUNT [u8 (capture_count s)];
  s ← bc_poke s RE_HEADER_STACK_SIZE [u8 stack_size];
  s ← bc_poke s RE_HEADER_BYTECODE_LEN (le32 (bc_size s - RE_HEADER_LEN));
  if d_size (group_names s) >? capture_count s - 1 then
    '(_, b) ← dbuf_put (byte_code s) (d_buf (group_names s));
    let s := set_byte_code s b in
    flags ← lift (d_buf b).[RE_HEADER_FLAGS];
    bc_poke s RE_HEADER_FLAGS [flags .| LRE_FLAG_NAMED_GROUPS]
  else mret s.
(** the status of the compilation, without the label [error] *)
Definition compile_body (re_flags : Z) (s : REParseState) : M (Z * REParseState) :=
  s ← compile_prologue re_flags s;
  '(ret, s) ← re_parse_disjunction (S (length buf)) 0 s false;
  if negb (ret =? 0) then mret (-1, s)
  else
    s ← re_emit_op_u8 s REOP_save_end 0;
    s ← re_emit_op s REOP_match;
    x ← lift buf.[buf_ptr s];
    if negb (x =? 0) then mret (-1, re_parse_error s (c_bytes "extraneous characters at the end"))
    else if dbuf_error (byte_code s) then mret (-1, re_parse_out_of_memory s)
    else
      stack_size ← lift (compute_stack_size (d_buf (byte_code s)));
      if stack_size <? 0 then
        mret (-1, re_parse_error s (c_bytes "too many imbricated quantifiers"))
      else s ← compile_epilogue s stack_size; mret (0, s).
End Parser.

Definition compile_context (pattern : list Z) (re_flags : Z) : REParseContext :=
  mkPC (pattern ++ [0]) (zlen pattern) (has_flag re_flags LRE_FLAG_UNICODE)
    (has_flag re_flags LRE_FLAG_IGNORECASE) (has_flag re_flags LRE_FLAG_DOTALL).
Definition compile_state : REParseState :=
  mkPS dbuf_init 0 1 (-1) (-1) dbuf_init (repeat 0 (Z.to_nat TMP_BUF_SIZE)).
(** [lre_compile]: the byte code, or [None] for NULL; and [error_msg] *)
Definition lre_compile `{!Allocator} (lre_check_stack_overflow : nat → bool) (error_msg : list Z)
    (error_msg_size : Z) (pattern : list Z) (re_flags : Z) : M (option (list Z) * list Z) :=
  let ctx := compile_context pattern re_flags in
  '(ret, s) ← compile_body ctx lre_check_stack_overflow re_flags compile_state;
  if negb (ret =? 0) then
    error_msg ← lift (pstrcpy error_msg error_msg_size (s_u s)); mret (None, error_msg)
  else
    error_msg ← lift (aset error_msg 0 0);
    mret (Some (d_buf (byte_code s)), error_msg).
