(* ===== verification/ReCode.v ===== *)
(** * Byte code in memory

    [code_at bc pc l]: the bytes [l] are in the byte code [bc] from offset
    [pc] on.  The executor reads its operands through the lemmas below. *)
From S2P Require Import Prelude Cutils ReOpcodes.

Definition code_at (bc : list Z) (pc : Z) (l : list Z) : Prop :=
  ∃ pre rest, bc = pre ++ l ++ rest ∧ zlen pre = pc.

Lemma code_at_intro pre l rest : code_at (pre ++ l ++ rest) (zlen pre) l.
Proof. by exists pre, rest. Qed.
Lemma code_at_nonneg bc pc l : code_at bc pc l → 0 <= pc ∧ pc + zlen l <= zlen bc.
Proof.
  intros (pre & rest & -> & <-). pose proof (zlen_nonneg pre). pose proof (zlen_nonneg rest).
  autorewrite with zlen. lia.
Qed.
Lemma code_at_app bc pc l k : code_at bc pc (l ++ k) → code_at bc pc l ∧ code_at bc (pc + zlen l) k.
Proof.
  intros (pre & rest & -> & <-). split.
  - exists pre, (k ++ rest). by rewrite <- app_assoc.
  - exists (pre ++ l), rest. split; [by rewrite <- !app_assoc|by rewrite zlen_app].
Qed.
Lemma code_at_join bc pc l k : code_at bc pc l → code_at bc (pc + zlen l) k → code_at bc pc (l ++ k).
Proof.
  intros (pre & rest & -> & <-) (pre' & rest' & E & Hl).
  exists pre, rest'. split; [|done].
  assert (rest = k ++ rest') as ->; [|by rewrite <- app_assoc].
  rewrite app_assoc in E. apply app_inj_1 in E as [_ E]; [done|].
  rewrite length_app. unfold zlen in Hl. lia.
Qed.
Lemma code_at_cons bc pc x l : code_at bc pc (x :: l) → bc.[pc] = Some x ∧ code_at bc (pc + 1) l.
Proof.
  intros H. split; [|by apply (code_at_app _ _ [x] l)]. destruct H as (pre & rest & -> & <-). apply aget_app_at.
Qed.
Lemma le32_mod v : le32 (v mod 2 ^ 32) = le32 v.
Proof.
  unfold le32. rewrite <- (le16_mod (v mod 2 ^ 32)), <- (le16_mod v).
  rewrite <- (le16_mod (v mod 2 ^ 32 >> 16)), <- (le16_mod (v >> 16)).
  rewrite !shiftr_div by lia. f_equal; f_equal; Z.div_mod_to_equations; lia.
Qed.
Lemma code_at_u16 bc pc v l : code_at bc pc (le16 v ++ l) → get_u16 bc pc = Some (u16 v).
Proof.
  intros [(pre & rest & -> & <-) _]%code_at_app. rewrite <- le16_mod.
  apply get_u16_app. unfold u16. by apply Z.mod_pos_bound.
Qed.
Lemma code_at_u32 bc pc v l : code_at bc pc (le32 v ++ l) → get_u32 bc pc = Some (u32 v).
Proof.
  intros [(pre & rest & -> & <-) _]%code_at_app. rewrite <- le32_mod.
  apply get_u32_app. unfold u32. by apply Z.mod_pos_bound.
Qed.
Lemma zlen_le16 v : zlen (le16 v) = 2.
Proof. reflexivity. Qed.
#[export] Hint Rewrite zlen_le16 zlen_le32 : zlen.
Lemma u16_small v : 0 <= v < 2 ^ 16 → u16 v = v.
Proof. apply Z.mod_small. Qed.
Lemma u32_small v : 0 <= v < 2 ^ 32 → u32 v = v.
Proof. apply Z.mod_small. Qed.

(** chunks of equal size *)
Lemma concat_chunk {A} (f : A → list Z) k ps i p :
  (∀ x, zlen (f x) = k) → ps.[i] = Some p →
  ∃ pre post, concat (map f ps) = pre ++ f p ++ post ∧ zlen pre = i * k.
Proof.
  intros Hk Hp. pose proof (aget_Some_range _ _ _ Hp) as Hi. unfold aget in Hp.
  destruct (Z.ltb_spec i 0); [lia|]. rewrite <- (take_drop_middle ps (Z.to_nat i) p Hp).
  rewrite map_app, concat_app. cbn [map concat]. eexists _, _. split; [reflexivity|].
  assert (∀ l, zlen (concat (map f l)) = zlen l * k) as ->.
  { clear -Hk. intros l. induction l as [|x l IH]; [done|]. cbn [map concat]. autorewrite with zlen. rewrite Hk, IH. lia. }
  f_equal. unfold zlen in *. rewrite length_take. lia.
Qed.
Lemma code_at_chunk {A} (f : A → list Z) k ps bc pc i p :
  (∀ x, zlen (f x) = k) → code_at bc pc (concat (map f ps)) → ps.[i] = Some p → code_at bc (pc + i * k) (f p).
Proof.
  intros Hk Hc Hp. destruct (concat_chunk f k ps i p Hk Hp) as (pre & post & E & Hpre).
  rewrite E in Hc. apply code_at_app in Hc as [_ Hc]. apply code_at_app in Hc as [Hc _]. by rewrite Hpre in Hc.
Qed.
