(* ===== verification/ReRange.v ===== *)
(** * Ranges in the byte code (js/libregexp.c)

    [re_emit_range] writes the set of characters of a class as a table of
    closed intervals, of 16 or of 32 bits, after the opcode [REOP_range] or
    [REOP_range32], and the executor searches the table by bisection.  The
    theorems of this file connect both sides: the executor moves over exactly
    the characters of the set that the compiler was given. *)
From S2P Require Import Prelude Alloc Cutils DynBuf CharRange UnicodeTables CaseConv UnicodeProps.
From S2P Require Import Reliable ReOpcodes ReExec ReClass ReCompile ReCode.

(** ** The emitted table *)

(** the last character of an interval, as the 16 bit table stores it *)
Definition last16 (hi : Z) : Z := if hi =? UINT32_MAX then 0xffff else hi - 1.
Definition entry16 (p : Z * Z) : list Z := le16 p.1 ++ le16 (last16 p.2).
Definition entry32 (p : Z * Z) : list Z := le32 p.1 ++ le32 (p.2 - 1).
(** the bound that decides on the width *)
Definition range_top (pts : list Z) : Z :=
  match last (to_pairs pts) with
  | Some (lo, hi) => if hi =? UINT32_MAX then lo else hi
  | None => 0
  end.
(** what [re_emit_range] emits, and the size of its ranges *)
Definition range_code (pts : list Z) : list Z :=
  let ps := to_pairs pts in
  if zlen ps =? 0 then [REOP_char32] ++ le32 (-1)
  else if range_top pts <=? 0xffff then [REOP_range] ++ le16 (zlen ps) ++ concat (map entry16 ps)
  else [REOP_range32] ++ le16 (zlen ps) ++ concat (map entry32 ps).

(** points in order, without empty intervals *)
Definition range_pts (l : list Z) : Prop :=
  cr_wf l ∧ proper l ∧ Forall (λ p, 0 <= p <= UINT32_MAX) l.

Lemma range_pts_pairs l :
  range_pts l → Forall (λ p : Z * Z, 0 <= p.1 < p.2 ∧ p.2 <= UINT32_MAX) (to_pairs l) ∧
  StronglySorted (λ p q : Z * Z, p.2 <= q.1) (to_pairs l).
Proof.
  intros ([He Hs] & [_ Hp] & Hf). revert l He Hs Hp Hf. refine (pairs_ind _ _ _); [by repeat constructor|].
  intros x y l He IH Hs Hp Hf. cbn [to_pairs] in *.
  apply StronglySorted_inv in Hs as [Hs Hx]. apply StronglySorted_inv in Hs as [Hs Hy].
  apply Forall_cons in Hp as [Hxy Hp]. apply Forall_cons in Hf as [Hbx Hf]. apply Forall_cons in Hf as [Hby Hf].
  destruct (IH Hs Hp Hf) as [I1 I2]. cbn [fst snd] in *. split.
  - constructor; [cbn; lia|done].
  - constructor; [done|]. clear -Hy He. revert l He Hy. refine (pairs_ind _ _ _); [constructor|].
    intros a b l He IH Hy. cbn [to_pairs]. apply Forall_cons in Hy as [Ha Hy]. apply Forall_cons in Hy as [_ Hy].
    constructor; [done|by apply IH].
Qed.
Lemma to_pairs_last l : even_len l → 0 < zlen l →
  ∃ lo hi, last (to_pairs l) = Some (lo, hi) ∧ l.[zlen l - 1] = Some hi ∧ l.[zlen l - 2] = Some lo ∧
    (to_pairs l).[zlen (to_pairs l) - 1] = Some (lo, hi).
Proof.
  revert l. refine (pairs_ind _ _ _); [done|]. intros x y l He IH _. pose proof (zlen_nonneg l).
  pose proof (zlen_to_pairs l He). destruct (decide (zlen l = 0)) as [Hz|Hn].
  - destruct l; [|rewrite zlen_cons in Hz; pose proof (zlen_nonneg l); lia].
    exists x, y. cbn. done.
  - destruct IH as (lo & hi & H1 & H2 & H3 & H4); [lia|]. exists lo, hi. cbn [to_pairs]. rewrite !zlen_cons.
    split. { destruct (to_pairs l) as [|q ps] eqn:E; [done|]. by rewrite <- H1. }
    rewrite !(aget_cons_pos x), !(aget_cons_pos y), aget_cons_pos by lia.
    rewrite <- H2, <- H3, <- H4. split; [f_equal; lia|]. split; f_equal; lia.
Qed.
Lemma range_top_lookup l : even_len l → 0 < zlen l →
  (high ← l.[zlen l - 1]; if high =? UINT32_MAX then l.[zlen l - 2] else Some high) = Some (range_top l).
Proof.
  intros He Hl. destruct (to_pairs_last l He Hl) as (lo & hi & H1 & H2 & H3 & _).
  unfold range_top. rewrite H1, H2. cbn. by destruct (hi =? UINT32_MAX).
Qed.
Lemma zlen_chunks {A} (f : A → list Z) k (l : list A) :
  (∀ x, zlen (f x) = k) → zlen (concat (map f l)) = zlen l * k.
Proof.
  intros Hk. induction l as [|x l IH]; [done|]. cbn [map concat]. autorewrite with zlen. rewrite Hk, IH. lia.
Qed.
Lemma le16_u16 v : le16 (u16 v) = le16 v.
Proof. apply le16_mod. Qed.
Lemma le32_u32 v : le32 (u32 v) = le32 v.
Proof. apply le32_mod. Qed.

Section Emission.
Context `{!Allocator, !Reliable}.

Lemma wp_emit_range16 ps b l :
  holds b l → Forall (λ p : Z * Z, 0 <= p.1 < p.2 ∧ p.2 <= UINT32_MAX) ps → zlen l + zlen ps * 4 < buf_max →
  wp (emit_range16 b (of_pairs ps)) (λ b', holds b' (l ++ concat (map entry16 ps))).
Proof.
  revert b l. induction ps as [|[lo hi] ps IH]; intros b l Hb Hf Hs; cbn [of_pairs emit_range16 map concat].
  { apply wp_ret. by rewrite app_nil_r. }
  apply Forall_cons in Hf as [[Hlo Hhi] Hf]. cbn [fst snd] in *. rewrite zlen_cons in Hs. pose proof (zlen_nonneg ps).
  apply (wp_bind _ _ _ _ (wp_dbuf_put_u16 b l lo Hb ltac:(lia))). intros ? (b1 & -> & Hb1).
  assert (u32 (hi - 1) = hi - 1) as -> by (apply u32_small; unfold UINT32_MAX in *; lia).
  assert ((if hi - 1 =? UINT32_MAX - 1 then 0xffff else hi - 1) = last16 hi) as ->.
  { unfold last16. destruct (Z.eqb_spec hi UINT32_MAX), (Z.eqb_spec (hi - 1) (UINT32_MAX - 1)); lia. }
  assert (zlen (l ++ le16 lo) + 2 < buf_max) as Hs1 by (autorewrite with zlen; lia).
  apply (wp_bind _ _ _ _ (wp_dbuf_put_u16 b1 _ (last16 hi) Hb1 Hs1)). intros ? (b2 & -> & Hb2).
  eapply wp_mono; [apply IH; [exact Hb2|done|]|].
  - autorewrite with zlen. lia.
  - intros b3 Hb3. unfold entry16 at 1. cbn [fst snd]. by rewrite <- !app_assoc in *.
Qed.
Lemma wp_emit_range32 ps b l :
  holds b l → zlen l + zlen ps * 8 < buf_max →
  wp (emit_range32 b (of_pairs ps)) (λ b', holds b' (l ++ concat (map entry32 ps))).
Proof.
  revert b l. induction ps as [|[lo hi] ps IH]; intros b l Hb Hs; cbn [of_pairs emit_range32 map concat].
  { apply wp_ret. by rewrite app_nil_r. }
  rewrite zlen_cons in Hs. pose proof (zlen_nonneg ps).
  apply (wp_bind _ _ _ _ (wp_dbuf_put_u32 b l lo Hb ltac:(lia))). intros ? (b1 & -> & Hb1).
  assert (zlen (l ++ le32 lo) + 4 < buf_max) as Hs1 by (autorewrite with zlen; lia).
  apply (wp_bind _ _ _ _ (wp_dbuf_put_u32 b1 _ (u32 (hi - 1)) Hb1 Hs1)). intros ? (b2 & -> & Hb2).
  eapply wp_mono; [apply IH; [exact Hb2|]|].
  - autorewrite with zlen. lia.
  - intros b3 Hb3. unfold entry32 at 1. cbn [fst snd]. by rewrite le32_u32, <- !app_assoc in *.
Qed.

(** the emission of one instruction *)
Definition appends (s : REParseState) (d : list Z) (s' : REParseState) : Prop :=
  ∃ b, s' = set_byte_code s b ∧ holds b (d_buf (byte_code s) ++ d).
Definition bc_ok (s : REParseState) : Prop := dbuf_wf (byte_code s) ∧ d_error (byte_code s) = false.
Lemma bc_ok_holds s : bc_ok s ↔ holds (byte_code s) (d_buf (byte_code s)).
Proof. unfold bc_ok, holds. tauto. Qed.
Lemma appends_ok s d s' : appends s d s' → bc_ok s'.
Proof. intros (b & -> & Hb & Hw & He). by split. Qed.
Lemma appends_buf s d s' : appends s d s' → d_buf (byte_code s') = d_buf (byte_code s) ++ d.
Proof. by intros (b & -> & Hb & _). Qed.
Lemma appends_trans s1 d1 s2 d2 s3 : appends s1 d1 s2 → appends s2 d2 s3 → appends s1 (d1 ++ d2) s3.
Proof.
  intros (b1 & -> & Hb1) (b2 & -> & Hb2). exists b2. split; [done|]. cbn in Hb2.
  destruct Hb1 as (E & _). by rewrite E, <- app_assoc in Hb2.
Qed.

Lemma wp_re_emit_op s op :
  bc_ok s → bc_size s + 1 < buf_max → wp (re_emit_op s op) (appends s [u8 op]).
Proof.
  intros Hb%bc_ok_holds Hs. unfold re_emit_op.
  apply (wp_bind _ _ _ _ (wp_dbuf_putc _ _ op Hb Hs)). intros ? (b & -> & Hb1). apply wp_ret. by exists b.
Qed.
Lemma wp_re_emit_op_u8 s op v :
  bc_ok s → bc_size s + 2 < buf_max → wp (re_emit_op_u8 s op v) (appends s [u8 op; u8 v]).
Proof.
  intros Hb%bc_ok_holds Hs. unfold bc_size, d_size in Hs. unfold re_emit_op_u8.
  apply (wp_bind _ _ _ _ (wp_dbuf_putc _ _ op Hb ltac:(lia))). intros ? (b & -> & Hb1).
  assert (zlen (d_buf (byte_code s) ++ [u8 op]) + 1 < buf_max) as Hs1 by (autorewrite with zlen; lia).
  apply (wp_bind _ _ _ _ (wp_dbuf_putc _ _ v Hb1 Hs1)). intros ? (b' & -> & Hb2). apply wp_ret. exists b'.
  rewrite <- app_assoc in Hb2. done.
Qed.
Lemma wp_re_emit_op_u16 s op v :
  bc_ok s → bc_size s + 3 < buf_max → wp (re_emit_op_u16 s op v) (appends s (u8 op :: le16 v)).
Proof.
  intros Hb%bc_ok_holds Hs. unfold bc_size, d_size in Hs. unfold re_emit_op_u16.
  apply (wp_bind _ _ _ _ (wp_dbuf_putc _ _ op Hb ltac:(lia))). intros ? (b & -> & Hb1).
  assert (zlen (d_buf (byte_code s) ++ [u8 op]) + 2 < buf_max) as Hs1 by (autorewrite with zlen; lia).
  apply (wp_bind _ _ _ _ (wp_dbuf_put_u16 _ _ v Hb1 Hs1)). intros ? (b' & -> & Hb2). apply wp_ret. exists b'.
  rewrite <- app_assoc in Hb2. done.
Qed.
Lemma wp_re_emit_op_u32 s op v :
  bc_ok s → bc_size s + 5 < buf_max →
  wp (re_emit_op_u32 s op v) (λ r, ∃ s', r = (bc_size s + 1, s') ∧ appends s (u8 op :: le32 v) s').
Proof.
  intros Hb%bc_ok_holds Hs. unfold bc_size, d_size in Hs. unfold re_emit_op_u32.
  apply (wp_bind _ _ _ _ (wp_dbuf_putc _ _ op Hb ltac:(lia))). intros ? (b & -> & Hb1).
  assert (zlen (d_buf (byte_code s) ++ [u8 op]) + 4 < buf_max) as Hs1 by (autorewrite with zlen; lia).
  apply (wp_bind _ _ _ _ (wp_dbuf_put_u32 _ _ v Hb1 Hs1)). intros ? (b' & -> & Hb2). apply wp_ret.
  rewrite (holds_size _ _ Hb1), zlen_app. eexists. split; [reflexivity|]. exists b'.
  rewrite <- app_assoc in Hb2. done.
Qed.
Lemma wp_re_emit_goto s op v :
  bc_ok s → bc_size s + 5 < buf_max →
  wp (re_emit_goto s op v)
     (λ r, ∃ s', r = (bc_size s + 1, s') ∧ appends s (u8 op :: le32 (v - (bc_size s + 5))) s').
Proof.
  intros Hb%bc_ok_holds Hs. unfold bc_size, d_size in Hs. unfold re_emit_goto.
  apply (wp_bind _ _ _ _ (wp_dbuf_putc _ _ op Hb ltac:(lia))). intros ? (b & -> & Hb1).
  assert (zlen (d_buf (byte_code s) ++ [u8 op]) + 4 < buf_max) as Hs1 by (autorewrite with zlen; lia).
  apply (wp_bind _ _ _ _ (wp_dbuf_put_u32 _ _ (v - (d_size b + 4)) Hb1 Hs1)). intros ? (b' & -> & Hb2). apply wp_ret.
  rewrite (holds_size _ _ Hb1), zlen_app in *. eexists. split; [reflexivity|]. exists b'.
  rewrite <- app_assoc in Hb2. split; [done|]. unfold bc_size, d_size. cbn in Hb2. by rewrite <- Z.add_assoc in Hb2.
Qed.

(** The emission of a range. *)
Lemma wp_re_emit_range s cr :
  bc_ok s → range_pts (cr_points cr) → zlen (cr_points cr) / 2 < 65535 → bc_size s + 2 ^ 20 < buf_max →
  wp (re_emit_range s cr) (λ r, ∃ s', r = (0, s') ∧ appends s (range_code (cr_points cr)) s').
Proof.
  intros Hb Hpts Hlen Hs. pose proof (range_pts_pairs _ Hpts) as [Hps _].
  pose proof Hpts as ([He _] & _ & _). pose proof (zlen_to_pairs _ He) as Hz. pose proof (zlen_nonneg (to_pairs (cr_points cr))).
  unfold re_emit_range, cr_len. rewrite Z.geb_leb. destruct (Z.leb_spec 65535 (zlen (cr_points cr) / 2)); [lia|].
  unfold range_code. assert (zlen (cr_points cr) / 2 = zlen (to_pairs (cr_points cr))) as ->
    by (rewrite Hz; Z.div_mod_to_equations; lia).
  destruct (Z.eqb_spec (zlen (to_pairs (cr_points cr))) 0) as [|Hn].
  { apply (wp_bind _ _ _ _ (wp_re_emit_op_u32 s REOP_char32 (-1) Hb ltac:(lia))). intros ? (s1 & -> & Ha).
    apply wp_ret. by exists s1. }
  assert (zlen (cr_points cr) / 2 = zlen (to_pairs (cr_points cr))) as Hdiv by (rewrite Hz; Z.div_mod_to_equations; lia).
  pose proof (range_top_lookup _ He ltac:(lia)) as Htop.
  destruct ((cr_points cr).[zlen (cr_points cr) - 1]) as [high|] eqn:Eh; [|done]. cbn [mbind option_bind] in Htop.
  eapply wp_bind_lift; [reflexivity|]. eapply wp_bind_lift; [exact Htop|].
  destruct (range_top (cr_points cr) <=? 65535).
  - apply (wp_bind _ _ _ _ (wp_re_emit_op_u16 s REOP_range _ Hb ltac:(lia))). intros s1 Ha.
    pose proof (appends_buf _ _ _ Ha) as Hbuf. pose proof (proj1 (bc_ok_holds _) (appends_ok _ _ _ Ha)) as Hb1.
    rewrite <- (of_to_pairs (cr_points cr)) at 1 by done.
    eapply wp_bind; [apply wp_emit_range16; [exact Hb1|done|]|].
    { rewrite Hbuf. autorewrite with zlen. unfold bc_size, d_size in Hs. lia. }
    intros b2 Hb2. apply wp_ret. eexists. split; [reflexivity|].
    change ([REOP_range] ++ ?x ++ ?y) with ((u8 REOP_range :: x) ++ y). eapply appends_trans; [exact Ha|]. by exists b2.
  - apply (wp_bind _ _ _ _ (wp_re_emit_op_u16 s REOP_range32 _ Hb ltac:(lia))). intros s1 Ha.
    pose proof (appends_buf _ _ _ Ha) as Hbuf. pose proof (proj1 (bc_ok_holds _) (appends_ok _ _ _ Ha)) as Hb1.
    rewrite <- (of_to_pairs (cr_points cr)) at 1 by done.
    eapply wp_bind; [apply wp_emit_range32; [exact Hb1|]|].
    { rewrite Hbuf. autorewrite with zlen. unfold bc_size, d_size in Hs. lia. }
    intros b2 Hb2. apply wp_ret. eexists. split; [reflexivity|].
    change ([REOP_range32] ++ ?x ++ ?y) with ((u8 REOP_range32 :: x) ++ y). eapply appends_trans; [exact Ha|]. by exists b2.
Qed.
End Emission.

(** ** The search *)

(** closed intervals in increasing order *)
Definition entries_sorted (es : list (Z * Z)) : Prop :=
  StronglySorted (λ p q : Z * Z, p.2 < q.1) es ∧ Forall (λ p : Z * Z, 0 <= p.1 <= p.2) es.
Definition in_entries (es : list (Z * Z)) (c : Z) : Prop := ∃ i p, es.[i] = Some p ∧ p.1 <= c <= p.2.

Lemma StronglySorted_aget {A} (R : A → A → Prop) l i j p q :
  StronglySorted R l → l.[i] = Some p → l.[j] = Some q → i < j → R p q.
Proof.
  intros Hs. revert i j. induction Hs as [|x l Hs IH Hx]; intros i j Hi Hj Hij.
  - apply aget_Some_range in Hi. unfold zlen in Hi; cbn in Hi; lia.
  - pose proof (aget_Some_range _ _ _ Hi). rewrite aget_cons_pos in Hj by lia.
    destruct (decide (i = 0)) as [->|].
    + rewrite aget_cons_0 in Hi. injection Hi as ->. unfold aget in Hj. destruct (j - 1 <? 0); [done|].
      by eapply (Forall_lookup_1 _ _ _ _ Hx).
    + rewrite aget_cons_pos in Hi by lia. by apply (IH (i - 1) (j - 1)); [..|lia].
Qed.
Lemma entries_lookup_lt es i j p q :
  entries_sorted es → es.[i] = Some p → es.[j] = Some q → i < j → p.2 < q.1.
Proof.
  intros [Hs _] Hi Hj Hij. by apply (StronglySorted_aget _ _ _ _ _ _ Hs Hi Hj Hij).
Qed.
Lemma entries_lookup_le es i p : entries_sorted es → es.[i] = Some p → 0 <= p.1 <= p.2.
Proof.
  intros [_ Hf] Hi. unfold aget in Hi. destruct (Z.ltb_spec i 0); [done|].
  by eapply (Forall_lookup_1 _ _ _ _ Hf).
Qed.

Lemma range_search_spec fuel gl gh es c lo hi :
  entries_sorted es → zlen es < 2 ^ 16 →
  (∀ i p, es.[i] = Some p → gl i = Some p.1 ∧ gh i = Some p.2) →
  (∀ p, es.[0] = Some p → p.1 <= c) →
  0 <= lo → lo <= hi + 1 → hi < zlen es → hi + 1 - lo < Z.of_nat fuel →
  (∀ i p, es.[i] = Some p → i < lo → p.2 < c) → (∀ i p, es.[i] = Some p → hi < i → c < p.1) →
  ∃ b : bool, range_search fuel gl gh c lo hi = Some b ∧ (b = true ↔ in_entries es c).
Proof.
  intros Hes Hn Hg H0. revert lo hi. induction fuel as [|fuel IH]; intros lo hi Hlo Hlh Hhi Hf Hl Hr; [lia|].
  cbn [range_search]. destruct (Z.leb_spec lo hi).
  2: { exists false. split; [done|]. split; [done|]. intros (i & p & Hp & Hc). exfalso.
       destruct (decide (i < lo)) as [Hi|Hi]; [specialize (Hl i p Hp Hi); lia|].
       specialize (Hr i p Hp ltac:(lia)). lia. }
  set (idx := u32 (lo + hi) / 2).
  assert (lo <= idx <= hi) as Hidx.
  { subst idx. unfold u32. rewrite Z.mod_small by lia. Z.div_mod_to_equations; lia. }
  destruct (aget_is_Some es idx) as [p Hp]; [lia|]. destruct (Hg idx p Hp) as [-> ->]. cbn [mbind option_bind].
  pose proof (entries_lookup_le _ _ _ Hes Hp) as Hple.
  destruct (Z.ltb_spec c p.1) as [Hc|Hc].
  - assert (idx ≠ 0) by (intros E; rewrite E in Hp; specialize (H0 _ Hp); lia).
    assert (u32 (idx - 1) = idx - 1) as -> by (apply Z.mod_small; lia).
    apply IH; [lia..|done|]. intros i q Hq Hi. destruct (decide (i = idx)) as [->|].
    + congruence.
    + pose proof (entries_lookup_lt es idx i p q Hes Hp Hq ltac:(lia)). lia.
  - rewrite Z.gtb_ltb. destruct (Z.ltb_spec p.2 c) as [Hc2|Hc2].
    + apply IH; [lia..| |done]. intros i q Hq Hi. destruct (decide (i = idx)) as [->|].
      * congruence.
      * pose proof (entries_lookup_lt es i idx q p Hes Hq Hp ltac:(lia)).
        pose proof (entries_lookup_le _ _ _ Hes Hq). lia.
    + exists true. split; [done|]. split; [|done]. intros _. exists idx, p. split; [done|lia].
Qed.

(** ** Ranges as entries *)
Definition entries (last_ : Z → Z) (l : list Z) : list (Z * Z) :=
  map (λ p : Z * Z, (p.1, last_ p.2)) (to_pairs l).
Lemma aget_map {A B} (f : A → B) (l : list A) i : (map f l).[i] = f <$> l.[i].
Proof. unfold aget. destruct (i <? 0); [done|]. apply list_lookup_fmap. Qed.
Lemma entries_sorted_map f ps :
  StronglySorted (λ p q : Z * Z, p.2 <= q.1) ps → Forall (λ p : Z * Z, 0 <= p.1 <= f p.2 ∧ f p.2 < p.2) ps →
  entries_sorted (map (λ p : Z * Z, (p.1, f p.2)) ps).
Proof.
  intros Hs Hf. split.
  - induction Hs as [|p ps Hs IH Hp]; cbn [map]; [constructor|]. apply Forall_cons in Hf as [[_ Hfp] Hf].
    constructor; [by apply IH|]. rewrite Forall_map. eapply Forall_impl; [exact Hp|]. cbn. intros; lia.
  - rewrite Forall_map. eapply Forall_impl; [exact Hf|]. cbn. intros; lia.
Qed.
Lemma cr_in_lookup l c : cr_in l c ↔ ∃ i p, (to_pairs l).[i] = Some p ∧ p.1 <= c < p.2.
Proof.
  unfold cr_in. rewrite Exists_exists. split.
  - intros (p & [i Hi]%list_elem_of_lookup_1 & Hc). exists (Z.of_nat i), p. by rewrite aget_nat.
  - intros (i & p & Hi & Hc). exists p. split; [|done]. unfold aget in Hi. destruct (i <? 0); [done|].
    by eapply list_elem_of_lookup_2.
Qed.

(** ** Execution *)
Section Execution.
Context `{!Allocator}.
Context (s : REExecContext).

(** the opcode at [pc] *)
Definition exec_at (st : exec_state) : M step_result :=
  opcode ← lift (s_bc s).[es_pc st]; exec_step s (with_pc st (es_pc st + 1)) opcode.

(** the end of the subject matches no character *)
Definition at_end (st : exec_state) : Prop := es_cptr st >= s_cbuf_end s.
(** the character at the position, after case folding *)
Definition next_char (st : exec_state) (c cptr : Z) : Prop :=
  es_cptr st < s_cbuf_end s ∧
  ∃ c0, GET_CHAR (s_cbuf s) (s_cbuf_type s) (es_cptr st) (s_cbuf_end s) = Some (c0, cptr) ∧ exec_fold s c0 = Some c.

Lemma exec_test_char_spec st v c cptr :
  next_char st c cptr →
  exec_test_char s st v = Some (if v =? c then SNext (with_cptr st cptr) else SNoMatch st).
Proof.
  intros (Hlt & c0 & Hg & Hc). unfold exec_test_char. rewrite Z.geb_leb.
  destruct (Z.leb_spec (s_cbuf_end s) (es_cptr st)); [lia|]. rewrite Hg. cbn [mbind option_bind]. rewrite Hc.
  cbn [mbind option_bind]. by destruct (v =? c).
Qed.

(** the reads of the table *)
Lemma code_at_entry16 bc pc ps i p :
  code_at bc pc (concat (map entry16 ps)) → ps.[i] = Some p → 0 <= p.1 < 2 ^ 16 → 0 <= last16 p.2 < 2 ^ 16 →
  get_u16 bc (pc + i * 4) = Some p.1 ∧ get_u16 bc (pc + i * 4 + 2) = Some (last16 p.2).
Proof.
  intros Hc Hp H1 H2. assert (∀ x, zlen (entry16 x) = 4) as Hk by done.
  pose proof (code_at_chunk entry16 4 ps bc pc i p Hk Hc Hp) as He. unfold entry16 in He.
  rewrite (code_at_u16 _ _ _ _ He). apply code_at_app in He as [_ He]. rewrite <- (app_nil_r (le16 (last16 _))) in He.
  rewrite zlen_le16 in He. rewrite (code_at_u16 _ _ _ _ He). by rewrite !u16_small.
Qed.
Lemma code_at_entry32 bc pc ps i p :
  code_at bc pc (concat (map entry32 ps)) → ps.[i] = Some p → 0 <= p.1 < p.2 → p.2 <= UINT32_MAX →
  get_u32 bc (pc + i * 8) = Some p.1 ∧ get_u32 bc (pc + i * 8 + 4) = Some (p.2 - 1).
Proof.
  intros Hc Hp H1 H2. assert (∀ x, zlen (entry32 x) = 8) as Hk by done. unfold UINT32_MAX in *.
  pose proof (code_at_chunk entry32 8 ps bc pc i p Hk Hc Hp) as He. unfold entry32 in He.
  rewrite (code_at_u32 _ _ _ _ He). apply code_at_app in He as [_ He]. rewrite <- (app_nil_r (le32 (p.2 - 1))) in He.
  rewrite zlen_le32 in He. rewrite (code_at_u32 _ _ _ _ He). by rewrite !u32_small by lia.
Qed.
(** what the first and the last entry exclude *)
Lemma entries_below es p c : entries_sorted es → es.[0] = Some p → c < p.1 → ¬ in_entries es c.
Proof.
  intros Hes Hp Hc (i & q & Hq & Hqc). destruct (decide (i = 0)) as [->|]; [rewrite Hp in Hq; injection Hq as ->; lia|].
  pose proof (aget_Some_range _ _ _ Hq). pose proof (entries_lookup_lt es 0 i p q Hes Hp Hq ltac:(lia)).
  pose proof (entries_lookup_le _ _ _ Hes Hp). lia.
Qed.
Lemma entries_above es p c : entries_sorted es → es.[zlen es - 1] = Some p → p.2 < c → ¬ in_entries es c.
Proof.
  intros Hes Hp Hc (i & q & Hq & Hqc). pose proof (aget_Some_range _ _ _ Hq).
  destruct (decide (i = zlen es - 1)) as [->|]; [rewrite Hp in Hq; injection Hq as ->; lia|].
  pose proof (entries_lookup_lt es i (zlen es - 1) q p Hes Hq Hp ltac:(lia)).
  pose proof (entries_lookup_le _ _ _ Hes Hp). lia.
Qed.
(** a decision that agrees with membership *)
Lemma entries_mem es l c b :
  cr_wf l → (in_entries es c ↔ cr_in l c) → (b = true ↔ in_entries es c) → b = cr_mem l c.
Proof.
  intros Hw He Hb. rewrite He, <- (cr_mem_in l c Hw) in Hb. destruct b, (cr_mem l c); intuition congruence.
Qed.

Definition minus_one (hi : Z) : Z := hi - 1.
Lemma entries32_facts l :
  range_pts l → entries_sorted (entries minus_one l) ∧ ∀ c, in_entries (entries minus_one l) c ↔ cr_in l c.
Proof.
  intros Hl. destruct (range_pts_pairs l Hl) as [Hf Hs]. split.
  - apply entries_sorted_map; [done|]. eapply Forall_impl; [exact Hf|]. unfold minus_one. cbn. intros; lia.
  - intros c. rewrite cr_in_lookup. unfold in_entries, entries. setoid_rewrite aget_map. split.
    + intros (i & p & Hp & Hc). destruct ((to_pairs l).[i]) as [q|] eqn:Eq; [|done]. injection Hp as <-.
      exists i, q. split; [done|]. unfold minus_one in Hc. cbn in Hc. lia.
    + intros (i & p & Hp & Hc). exists i, (p.1, minus_one p.2). rewrite Hp. split; [done|]. unfold minus_one. cbn. lia.
Qed.
Lemma exec_range32_spec st l c cptr :
  range_pts l → 0 < zlen (to_pairs l) < 65535 →
  code_at (s_bc s) (es_pc st) (le16 (zlen (to_pairs l)) ++ concat (map entry32 (to_pairs l))) →
  next_char st c cptr →
  exec_range32 s st = Some (if cr_mem l c
    then SNext (with_pc (with_cptr st cptr) (es_pc st + 2 + 8 * zlen (to_pairs l)))
    else SNoMatch (with_pc st (es_pc st + 2))).
Proof.
  intros Hl Hn Hcode (Hlt & c0 & Hg & Hc). pose proof (range_pts_pairs l Hl) as [Hf _].
  destruct (entries32_facts l Hl) as [Hes Hin]. pose proof (proj1 Hl) as Hw. set (n := zlen (to_pairs l)) in *.
  assert (zlen (entries minus_one l) = n) as Hzn by (unfold entries, n, zlen; by rewrite length_map).
  assert (∀ i p, (entries minus_one l).[i] = Some p →
    get_u32 (s_bc s) (es_pc st + 2 + i * 8) = Some p.1 ∧ get_u32 (s_bc s) (es_pc st + 2 + i * 8 + 4) = Some p.2) as Hget.
  { intros i p. unfold entries. rewrite aget_map. destruct ((to_pairs l).[i]) as [q|] eqn:Eq; [|done].
    intros [= <-]. cbn [fst snd]. apply code_at_app in Hcode as [_ Hcode]. rewrite zlen_le16 in Hcode.
    assert (0 <= q.1 < q.2 ∧ q.2 <= UINT32_MAX) as [? ?].
    { unfold aget in Eq. destruct (i <? 0); [done|]. by apply (Forall_lookup_1 _ _ _ _ Hf Eq). }
    by eapply code_at_entry32. }
  destruct (aget_is_Some (entries minus_one l) 0) as [first Hfirst]; [lia|].
  destruct (aget_is_Some (entries minus_one l) (n - 1)) as [last_ Hlast]; [lia|].
  unfold exec_range32. rewrite (code_at_u16 _ _ _ _ Hcode), u16_small by lia. cbn [mbind option_bind es_cptr with_pc].
  rewrite Z.geb_leb. destruct (Z.leb_spec (s_cbuf_end s) (es_cptr st)); [lia|]. rewrite Hg. cbn [mbind option_bind].
  rewrite Hc. cbn [mbind option_bind]. rewrite (proj1 (Hget 0 first Hfirst)). cbn [mbind option_bind].
  destruct (Z.ltb_spec c first.1) as [Hlow|Hlow].
  { rewrite <- (entries_mem _ l c false Hw (Hin c)); [done|]. split; [done|].
    intros Hx. by destruct (entries_below _ _ _ Hes Hfirst Hlow). }
  rewrite u32_small by lia. rewrite (proj2 (Hget _ _ Hlast)). cbn [mbind option_bind]. rewrite Z.gtb_ltb.
  destruct (Z.ltb_spec last_.2 c) as [Hhigh|Hhigh].
  { rewrite <- (entries_mem _ l c false Hw (Hin c)); [done|]. split; [done|].
    intros Hx. rewrite <- Hzn in Hlast. by destruct (entries_above _ _ _ Hes Hlast Hhigh). }
  destruct (range_search_spec (S (Z.to_nat n)) (λ idx, get_u32 (s_bc s) (es_pc st + 2 + idx * 8))
    (λ idx, get_u32 (s_bc s) (es_pc st + 2 + idx * 8 + 4)) (entries minus_one l) c 0 (n - 1))
    as (b & -> & Hb); [done|lia|done|intros p Hp; congruence|lia..| | |].
  { intros i p Hp. apply aget_Some_range in Hp. lia. }
  { intros i p Hp. apply aget_Some_range in Hp. lia. }
  cbn [mbind option_bind]. by rewrite (entries_mem _ l c b Hw (Hin c) Hb).
Qed.

Lemma range_top_bounds l :
  range_pts l → 0 < zlen l → range_top l <= 0xffff →
  Forall (λ p : Z * Z, p.1 <= 0xffff ∧ (p.2 <= 0xffff ∨ p.2 = UINT32_MAX)) (to_pairs l).
Proof.
  intros Hl Hlen Htop. destruct (range_pts_pairs l Hl) as [Hf Hs]. pose proof (proj1 (proj1 Hl)) as He.
  destruct (to_pairs_last l He Hlen) as (lo & hi & H1 & _ & _ & Hlast). unfold range_top in Htop. rewrite H1 in Htop.
  set (n := zlen (to_pairs l)) in *.
  assert (lo < hi) as Hlohi.
  { unfold aget in Hlast. destruct (n - 1 <? 0); [done|]. by apply (Forall_lookup_1 _ _ _ _ Hf Hlast). }
  apply Forall_forall. intros p [i Hi]%list_elem_of_lookup_1. rewrite <- aget_nat in Hi.
  pose proof (aget_Some_range _ _ _ Hi) as Hr. fold n in Hr.
  assert (p.1 < p.2) as Hp. { rewrite aget_nat in Hi. by apply (Forall_lookup_1 _ _ _ _ Hf Hi). }
  destruct (decide (Z.of_nat i = n - 1)) as [E|].
  - rewrite E, Hlast in Hi. injection Hi as <-. cbn. destruct (Z.eqb_spec hi UINT32_MAX); [lia|]. lia.
  - pose proof (StronglySorted_aget _ _ _ _ _ _ Hs Hi Hlast ltac:(lia)) as Hle. cbn in Hle.
    destruct (Z.eqb_spec hi UINT32_MAX); lia.
Qed.
Lemma entries16_facts l :
  range_pts l → 0 < zlen l → range_top l <= 0xffff →
  entries_sorted (entries last16 l) ∧ ∀ c, c < 0xffff → in_entries (entries last16 l) c ↔ cr_in l c.
Proof.
  intros Hl Hlen Htop. destruct (range_pts_pairs l Hl) as [Hf Hs].
  pose proof (range_top_bounds l Hl Hlen Htop) as Hb. pose proof (conj Hf Hb) as Hfb. rewrite <- Forall_and in Hfb.
  assert (Forall (λ p : Z * Z, 0 <= p.1 <= last16 p.2 ∧ last16 p.2 < p.2) (to_pairs l)) as Hall.
  { eapply Forall_impl; [exact Hfb|]. intros p. cbn. unfold last16, UINT32_MAX.
    destruct (Z.eqb_spec p.2 (2 ^ 32 - 1)); lia. }
  split; [by apply entries_sorted_map|].
  intros c Hc. rewrite cr_in_lookup. unfold in_entries, entries. setoid_rewrite aget_map.
  assert (∀ q, q.1 <= last16 q.2 → q.1 <= c <= last16 q.2 ↔ q.1 <= c < q.2) as Hq.
  { intros q. unfold last16, UINT32_MAX. destruct (Z.eqb_spec q.2 (2 ^ 32 - 1)); lia. }
  assert (∀ i q, (to_pairs l).[i] = Some q → q.1 <= last16 q.2) as Hle.
  { intros i q Hi. unfold aget in Hi. destruct (i <? 0); [done|]. apply (Forall_lookup_1 _ _ _ _ Hall Hi). }
  split.
  - intros (i & p & Hp & Hpc). destruct ((to_pairs l).[i]) as [q|] eqn:Eq; [|done]. injection Hp as <-.
    exists i, q. split; [done|]. apply Hq; [by eapply Hle|done].
  - intros (i & p & Hp & Hpc). exists i, (p.1, last16 p.2). rewrite Hp. split; [done|]. apply (Hq p); [by eapply Hle|done].
Qed.
(** the characters from 0xffff on *)
Lemma range16_high l lo hi c :
  range_pts l → 0 < zlen l → range_top l <= 0xffff → (to_pairs l).[zlen (to_pairs l) - 1] = Some (lo, hi) →
  0xffff <= c < UINT32_MAX → cr_in l c ↔ hi = UINT32_MAX.
Proof.
  intros Hl Hlen Htop Hlast Hc. destruct (range_pts_pairs l Hl) as [Hf Hs].
  pose proof (range_top_bounds l Hl Hlen Htop) as Hb. rewrite cr_in_lookup. split.
  - intros (i & p & Hp & Hpc). pose proof (aget_Some_range _ _ _ Hp) as Hr.
    assert (p.2 = UINT32_MAX) as E.
    { unfold aget in Hp. destruct (i <? 0); [done|]. pose proof (Forall_lookup_1 _ _ _ _ Hb Hp). cbn in *. lia. }
    destruct (decide (i = zlen (to_pairs l) - 1)) as [->|]; [rewrite Hlast in Hp; by injection Hp as <-|].
    pose proof (StronglySorted_aget _ _ _ _ _ _ Hs Hp Hlast ltac:(lia)) as Hle. cbn in Hle.
    unfold aget in Hlast. destruct (_ - 1 <? 0); [done|]. pose proof (Forall_lookup_1 _ _ _ _ Hf Hlast). cbn in *. lia.
  - intros ->. exists (zlen (to_pairs l) - 1), (lo, UINT32_MAX). split; [done|].
    unfold aget in Hlast. destruct (_ - 1 <? 0); [done|].
    pose proof (Forall_lookup_1 _ _ _ _ Hb Hlast). cbn in *. lia.
Qed.
Lemma exec_range_spec st l c cptr :
  range_pts l → 0 < zlen (to_pairs l) < 65535 → range_top l <= 0xffff →
  code_at (s_bc s) (es_pc st) (le16 (zlen (to_pairs l)) ++ concat (map entry16 (to_pairs l))) →
  next_char st c cptr → 0 <= c < UINT32_MAX →
  exec_range s st = Some (if cr_mem l c
    then SNext (with_pc (with_cptr st cptr) (es_pc st + 2 + 4 * zlen (to_pairs l)))
    else SNoMatch (with_pc st (es_pc st + 2))).
Proof.
  intros Hl Hn Htop Hcode (Hlt & c0 & Hg & Hc) Hcb. pose proof (range_pts_pairs l Hl) as [Hf _].
  pose proof (proj1 Hl) as Hw. pose proof (zlen_to_pairs l (proj1 Hw)) as Hzl.
  assert (0 < zlen l) as Hlen by lia. destruct (entries16_facts l Hl Hlen Htop) as [Hes Hin].
  pose proof (range_top_bounds l Hl Hlen Htop) as Hb. set (n := zlen (to_pairs l)) in *.
  assert (zlen (entries last16 l) = n) as Hzn by (unfold entries, n, zlen; by rewrite length_map).
  assert (∀ i p, (entries last16 l).[i] = Some p →
    get_u16 (s_bc s) (es_pc st + 2 + i * 4) = Some p.1 ∧ get_u16 (s_bc s) (es_pc st + 2 + i * 4 + 2) = Some p.2) as Hget.
  { intros i p. unfold entries. rewrite aget_map. destruct ((to_pairs l).[i]) as [q|] eqn:Eq; [|done].
    intros [= <-]. cbn [fst snd]. apply code_at_app in Hcode as [_ Hcode]. rewrite zlen_le16 in Hcode.
    pose proof Eq as Eq'. unfold aget in Eq'. destruct (i <? 0); [done|].
    pose proof (Forall_lookup_1 _ _ _ _ Hf Eq'). pose proof (Forall_lookup_1 _ _ _ _ Hb Eq').
    cbn in *. eapply code_at_entry16; [done..|lia|]. unfold last16. destruct (Z.eqb_spec q.2 UINT32_MAX); lia. }
  destruct (aget_is_Some (entries last16 l) 0) as [first Hfirst]; [lia|].
  destruct (aget_is_Some (to_pairs l) (n - 1)) as [[lo hi] Hlast]; [lia|].
  assert ((entries last16 l).[n - 1] = Some (lo, last16 hi)) as Hlast' by (unfold entries; by rewrite aget_map, Hlast).
  pose proof (range16_high l lo hi c Hl Hlen Htop Hlast) as Hhigh16.
  unfold exec_range. rewrite (code_at_u16 _ _ _ _ Hcode), u16_small by lia. cbn [mbind option_bind es_cptr with_pc].
  rewrite Z.geb_leb. destruct (Z.leb_spec (s_cbuf_end s) (es_cptr st)); [lia|]. rewrite Hg. cbn [mbind option_bind].
  rewrite Hc. cbn [mbind option_bind]. rewrite (proj1 (Hget 0 first Hfirst)). cbn [mbind option_bind].
  assert (first.1 <= 0xffff ∧ 0 <= lo <= 0xffff ∧ (hi <= 0xffff ∨ hi = UINT32_MAX)) as (Hf1 & Hlo & Hhi).
  { unfold entries in Hfirst. rewrite aget_map in Hfirst. destruct ((to_pairs l).[0]) as [q|] eqn:Eq; [|done].
    injection Hfirst as <-. unfold aget in Eq, Hlast. destruct (n - 1 <? 0); [done|]. cbn in Eq.
    pose proof (Forall_lookup_1 _ _ _ _ Hb Eq). pose proof (Forall_lookup_1 _ _ _ _ Hb Hlast).
    pose proof (Forall_lookup_1 _ _ _ _ Hf Hlast). cbn in *. lia. }
  destruct (Z.ltb_spec c first.1) as [Hlow|Hlow].
  { rewrite <- (entries_mem _ l c false Hw (Hin c ltac:(lia))); [done|]. split; [done|].
    intros Hx. by destruct (entries_below _ _ _ Hes Hfirst Hlow). }
  rewrite u32_small by lia. rewrite (proj2 (Hget _ _ Hlast')). cbn [mbind option_bind fst snd].
  rewrite Z.geb_leb, Z.gtb_ltb. pose proof (cr_mem_in l c Hw) as Hmem.
  change (last16 hi) with (if hi =? UINT32_MAX then 0xffff else hi - 1).
  destruct (Z.leb_spec 0xffff c) as [Hc16|Hc16]; cbn [andb].
  { assert (0xffff <= c < UINT32_MAX) as Hc2 by lia. specialize (Hhigh16 Hc2). destruct (Z.eqb_spec hi UINT32_MAX) as [Hmax|Hmax].
    - cbn [Z.eqb Pos.eqb]. rewrite (proj2 Hmem); [done|]. by apply Hhigh16.
    - destruct (Z.eqb_spec (hi - 1) 0xffff); [lia|]. destruct (Z.ltb_spec (hi - 1) c); [|lia].
      destruct (cr_mem l c); [|done]. exfalso. by apply Hmax, Hhigh16, Hmem. }
  destruct (Z.ltb_spec (if hi =? UINT32_MAX then 0xffff else hi - 1) c) as [Hhigh|Hhigh].
  { rewrite <- (entries_mem _ l c false Hw (Hin c ltac:(lia))); [done|]. split; [done|].
    intros Hx. rewrite <- Hzn in Hlast'. by destruct (entries_above _ _ _ Hes Hlast' Hhigh). }
  destruct (range_search_spec (S (Z.to_nat n)) (λ idx, get_u16 (s_bc s) (es_pc st + 2 + idx * 4))
    (λ idx, get_u16 (s_bc s) (es_pc st + 2 + idx * 4 + 2)) (entries last16 l) c 0 (n - 1))
    as (b & -> & Hbr); [done|lia|done|intros p Hp; congruence|lia..| | |].
  { intros i p Hp. apply aget_Some_range in Hp. lia. }
  { intros i p Hp. apply aget_Some_range in Hp. lia. }
  cbn [mbind option_bind]. by rewrite (entries_mem _ l c b Hw (Hin c ltac:(lia)) Hbr).
Qed.

(** The code of a range moves over the characters of the range. *)
Lemma range_code_exec st l :
  range_pts l → zlen l / 2 < 65535 → code_at (s_bc s) (es_pc st) (range_code l) →
  ∃ f, (∀ h, exec_at st h = lift f h) ∧
    (at_end st → ∃ pc', f = Some (SNoMatch (with_pc st pc'))) ∧
    ∀ c cptr, next_char st c cptr → 0 <= c < UINT32_MAX →
    ∃ pc', f = Some (if cr_mem l c
      then SNext (with_pc (with_cptr st cptr) (es_pc st + zlen (range_code l)))
      else SNoMatch (with_pc st pc')).
Proof.
  intros Hl Hlen Hcode. pose proof (zlen_to_pairs l (proj1 (proj1 Hl))) as Hz.
  pose proof (zlen_nonneg (to_pairs l)). unfold range_code in *. unfold exec_at.
  set (st1 := with_pc st (es_pc st + 1)).
  assert (zlen (to_pairs l) < 65535) as Hsmall by (Z.div_mod_to_equations; lia).
  assert (∀ c cptr, next_char st c cptr → next_char st1 c cptr) as Hst1 by done.
  destruct (Z.eqb_spec (zlen (to_pairs l)) 0) as [Hz0|Hn]; [|destruct (Z.leb_spec (range_top l) 0xffff) as [Htop|Htop]];
    apply code_at_cons in Hcode as [Hop Hcode]; rewrite Hop;
    [exists (exec_char32 s st1)|exists (exec_range s st1)|exists (exec_range32 s st1)]; (split; [done|split]).
  - intros He. rewrite <- (app_nil_r (le32 (-1))) in Hcode. unfold exec_char32. cbn [es_pc with_pc st1].
    rewrite (code_at_u32 _ _ _ _ Hcode). cbn [mbind option_bind]. eexists. unfold exec_test_char.
    unfold at_end in He. cbn [es_cptr with_pc st1]. change (es_cptr st1) with (es_cptr st). rewrite Z.geb_leb.
    destruct (Z.leb_spec (s_cbuf_end s) (es_cptr st)); [reflexivity|lia].
  - intros c cptr Hnext Hc. assert (cr_mem l c = false) as ->.
    { destruct l as [|x l]; [done|]. rewrite zlen_cons in Hz. pose proof (zlen_nonneg l). lia. }
    rewrite <- (app_nil_r (le32 (-1))) in Hcode. unfold exec_char32. cbn [es_pc with_pc st1].
    rewrite (code_at_u32 _ _ _ _ Hcode). cbn [mbind option_bind].
    rewrite (exec_test_char_spec _ _ c cptr) by done. destruct (Z.eqb_spec (u32 (-1)) c) as [E|_].
    + unfold u32, UINT32_MAX in *. change (-1 mod 2 ^ 32) with (2 ^ 32 - 1) in E. lia.
    + by eexists.
  - intros He. unfold exec_range. cbn [es_pc with_pc st1]. rewrite (code_at_u16 _ _ _ _ Hcode). cbn [mbind option_bind].
    unfold at_end in He. eexists. cbn [es_cptr with_pc st1]. change (es_cptr st1) with (es_cptr st). rewrite Z.geb_leb.
    destruct (Z.leb_spec (s_cbuf_end s) (es_cptr st)); [reflexivity|lia].
  - intros c cptr Hnext Hc.
    rewrite (exec_range_spec st1 l c cptr Hl ltac:(lia) Htop Hcode (Hst1 _ _ Hnext) Hc).
    exists (es_pc st + 1 + 2). destruct (cr_mem l c); [|done].
    match goal with |- context [with_pc _ (es_pc st + zlen ?k)] =>
      assert (zlen k = 3 + 4 * zlen (to_pairs l)) as -> end.
    { autorewrite with zlen. rewrite (zlen_chunks entry16 4) by done. lia. }
    replace (es_pc st + (3 + 4 * zlen (to_pairs l))) with (es_pc st + 1 + 2 + 4 * zlen (to_pairs l)) by lia. done.
  - intros He. unfold exec_range32. cbn [es_pc with_pc st1]. rewrite (code_at_u16 _ _ _ _ Hcode). cbn [mbind option_bind].
    unfold at_end in He. eexists. cbn [es_cptr with_pc st1]. change (es_cptr st1) with (es_cptr st). rewrite Z.geb_leb.
    destruct (Z.leb_spec (s_cbuf_end s) (es_cptr st)); [reflexivity|lia].
  - intros c cptr Hnext Hc.
    rewrite (exec_range32_spec st1 l c cptr Hl ltac:(lia) Hcode (Hst1 _ _ Hnext)).
    exists (es_pc st + 1 + 2). destruct (cr_mem l c); [|done].
    match goal with |- context [with_pc _ (es_pc st + zlen ?k)] =>
      assert (zlen k = 3 + 8 * zlen (to_pairs l)) as -> end.
    { autorewrite with zlen. rewrite (zlen_chunks entry32 8) by done. lia. }
    replace (es_pc st + (3 + 8 * zlen (to_pairs l))) with (es_pc st + 1 + 2 + 8 * zlen (to_pairs l)) by lia. done.
Qed.
Lemma exec_range_code st l c cptr h :
  range_pts l → zlen l / 2 < 65535 → code_at (s_bc s) (es_pc st) (range_code l) →
  next_char st c cptr → 0 <= c < UINT32_MAX →
  ∃ pc', exec_at st h = Some (if cr_mem l c
    then SNext (with_pc (with_cptr st cptr) (es_pc st + zlen (range_code l)))
    else SNoMatch (with_pc st pc'), h).
Proof.
  intros Hl Hlen Hcode Hnext Hc. destruct (range_code_exec st l Hl Hlen Hcode) as (f & -> & _ & Hf).
  destruct (Hf c cptr Hnext Hc) as (pc' & ->). by exists pc'.
Qed.
End Execution.

(** C17: a range survives the trip through the byte code.  [re_emit_range]
    appends a table to the byte code and does not fail; the executor, at that
    place of any code that has it, moves over the next character and behind
    the table when the character is in the range, and otherwise does not
    match. *)
Theorem emitted_range_spec `{!Allocator, !Reliable} s cr h :
  bc_ok s → range_pts (cr_points cr) → zlen (cr_points cr) / 2 < 65535 → bc_size s + 2 ^ 20 < buf_max →
  ∃ s' h', re_emit_range s cr h = Some ((0, s'), h') ∧
    ∀ x rest st c cptr h1, s_bc x = d_buf (byte_code s') ++ rest → es_pc st = bc_size s →
      next_char x st c cptr → 0 <= c < UINT32_MAX →
      ∃ pc', exec_at x st h1 = Some (if cr_mem (cr_points cr) c
        then SNext (with_pc (with_cptr st cptr) (bc_size s')) else SNoMatch (with_pc st pc'), h1).
Proof.
  intros Hb Hl Hlen Hs. destruct (wp_re_emit_range s cr Hb Hl Hlen Hs h) as (r & h' & E & s' & -> & Ha).
  exists s', h'. split; [done|]. intros x rest st c cptr h1 Hx Hpc Hnext Hc. apply appends_buf in Ha.
  assert (code_at (s_bc x) (es_pc st) (range_code (cr_points cr))) as Hcode.
  { rewrite Hx, Ha, <- app_assoc, Hpc. apply code_at_intro. }
  assert (bc_size s' = es_pc st + zlen (range_code (cr_points cr))) as ->.
  { unfold bc_size, d_size in *. by rewrite Ha, zlen_app, Hpc. }
  by apply exec_range_code.
Qed.
Definition witness_state : REParseState := mkPS dbuf_init 0 1 0 0 dbuf_init [].
Lemma emitted_range_spec_witness :
  ∃ s' h', re_emit_range witness_state (mkCR [0x41; 0x5b; 0x61; UINT32_MAX] 4) 0%nat = Some ((0, s'), h') ∧
    ∀ x rest st c cptr h1, s_bc x = d_buf (byte_code s') ++ rest → es_pc st = bc_size witness_state →
      next_char x st c cptr → 0 <= c < UINT32_MAX →
      ∃ pc', exec_at x st h1 = Some (if cr_mem [0x41; 0x5b; 0x61; UINT32_MAX] c
        then SNext (with_pc (with_cptr st cptr) (bc_size s')) else SNoMatch (with_pc st pc'), h1).
Proof.
  apply (emitted_range_spec witness_state (mkCR [0x41; 0x5b; 0x61; UINT32_MAX] 4) 0%nat).
  - by split; [split; [|constructor]|].
  - split; [split; [done|repeat constructor; done]|]. split; [split; [done|repeat constructor]|repeat constructor; done].
  - reflexivity.
  - reflexivity.
Defined.
