(* ===== verification/ReSyntax.v ===== *)
(** * The shape of compiled regular expressions

    The compiler of js/libregexp.c emits byte code directly; it never builds a
    tree.  The code it emits has the structure of one, which this file makes
    explicit: [re] lists the constructs that the quantifiers, groups and
    alternatives are compiled to, and [code] is their byte code.  All jumps
    are relative and stay inside of the construct, so that a piece of code may
    be moved, copied and wrapped, as the compiler does.

    [simple] is the condition of [re_is_simple_quantifier], [depth] is the
    number of elements that a construct keeps on the stack of the executor. *)
From S2P Require Import Prelude Cutils CharRange ReOpcodes ReCode ReRange.

(** instructions that neither jump nor use the stack *)
Inductive op :=
| OChar (c : Z) | OChar32 (c : Z) | ODot | OAny | ORange (pts : list Z)
| OLineStart | OLineEnd | OWordBoundary (neg : bool) | OPrev
| OSaveStart (k : Z) | OSaveEnd (k : Z) | OSaveReset (first last : Z)
| OBackRef (backward : bool) (k : Z).

Inductive re :=
| RNil
| ROp (o : op)
| RSeq (a b : re)
| RAlt (a b : re)
| RLook (neg : bool) (a : re)
| RSimple (quant_min quant_max count : Z) (a : re)
| ROpt (greedy check : bool) (a : re)
| RStar (greedy check : bool) (a : re)
| RUpto (n : Z) (greedy check : bool) (a : re)
| RPlus (greedy : bool) (a : re)
| RRep (n : Z) (a : re).

Definition op_code (o : op) : list Z :=
  match o with
  | OChar c => REOP_char :: le16 c
  | OChar32 c => REOP_char32 :: le32 c
  | ODot => [REOP_dot]
  | OAny => [REOP_any]
  | ORange pts => range_code pts
  | OLineStart => [REOP_line_start]
  | OLineEnd => [REOP_line_end]
  | OWordBoundary neg => [REOP_word_boundary + b2z neg]
  | OPrev => [REOP_prev]
  | OSaveStart k => [REOP_save_start; k]
  | OSaveEnd k => [REOP_save_end; k]
  | OSaveReset first last => [REOP_save_reset; first; last]
  | OBackRef backward k => [REOP_back_reference + b2z backward; k]
  end.

(** an instruction with a relative target *)
Definition jump (opcode offset : Z) : list Z := opcode :: le32 offset.
(** a body that must advance *)
Definition checked (check : bool) (body : list Z) : list Z :=
  if check then [REOP_push_char_pos] ++ body ++ [REOP_check_advance] else body.
Definition split_op (greedy : bool) : Z := REOP_split_goto_first + b2z greedy.

Fixpoint code (r : re) : list Z :=
  match r with
  | RNil => []
  | ROp o => op_code o
  | RSeq a b => code a ++ code b
  | RAlt a b =>
      jump REOP_split_next_first (zlen (code a) + 5) ++ code a ++ jump REOP_goto (zlen (code b)) ++ code b
  | RLook neg a => jump (REOP_lookahead + b2z neg) (zlen (code a) + 1) ++ code a ++ [REOP_match]
  | RSimple quant_min quant_max count a =>
      jump REOP_simple_greedy_quant (zlen (code a) + 1) ++ le32 quant_min ++ le32 quant_max ++ le32 count ++
      code a ++ [REOP_match]
  | ROpt greedy check a => let body := checked check (code a) in jump (split_op greedy) (zlen body) ++ body
  | RStar greedy check a =>
      let body := checked check (code a) in
      jump (split_op greedy) (zlen body + 5) ++ body ++ jump REOP_goto (- (zlen body + 10))
  | RUpto n greedy check a =>
      let body := checked check (code a) in
      jump REOP_push_i32 n ++ jump (split_op greedy) (zlen body + 5) ++ body ++
      jump REOP_loop (- (zlen body + 10)) ++ [REOP_drop]
  | RPlus greedy a => code a ++ jump (REOP_split_next_first - b2z greedy) (- (zlen (code a) + 5))
  | RRep n a => jump REOP_push_i32 n ++ code a ++ jump REOP_loop (- (zlen (code a) + 5)) ++ [REOP_drop]
  end.

Fixpoint depth (r : re) : Z :=
  match r with
  | RNil | ROp _ => 0
  | RSeq a b | RAlt a b => Z.max (depth a) (depth b)
  | RLook _ a | RSimple _ _ _ a | RPlus _ a => depth a
  | ROpt _ check a | RStar _ check a => b2z check + depth a
  | RUpto _ _ check a => 1 + b2z check + depth a
  | RRep _ a => 1 + depth a
  end.

(** the characters that a simple body reads, or [None] *)
Definition op_chars (o : op) : option Z :=
  match o with
  | OChar _ | OChar32 _ | ODot | OAny | ORange _ => Some 1
  | OLineStart | OLineEnd | OWordBoundary _ => Some 0
  | _ => None
  end.
Fixpoint simple (r : re) : option Z :=
  match r with
  | RNil => Some 0
  | ROp o => op_chars o
  | RSeq a b => n ← simple a; m ← simple b; Some (n + m)
  | _ => None
  end.

(** ** Well-formed constructs, for [captures] capture groups *)
Section WellFormed.
Context (captures : Z).
Definition op_wf (o : op) : Prop :=
  match o with
  | OChar c => 0 <= c <= 0xffff
  | OChar32 c => 0 <= c < 2 ^ 32
  | ORange pts => range_pts pts ∧ zlen pts / 2 < 65535
  | OSaveStart k | OSaveEnd k => 0 <= k < captures
  | OSaveReset first last => 0 <= first <= last ∧ last < captures
  | OBackRef _ k => 0 <= k < 256
  | _ => True
  end.
Fixpoint re_wf (r : re) : Prop :=
  match r with
  | RNil => True
  | ROp o => op_wf o
  | RSeq a b | RAlt a b => re_wf a ∧ re_wf b
  | RLook _ a | ROpt _ _ a | RStar _ _ a | RPlus _ a => re_wf a
  | RSimple quant_min quant_max count a =>
      re_wf a ∧ simple a = Some count ∧ 0 < count ∧ 0 <= quant_min <= quant_max ∧ 0 < quant_max <= INT32_MAX
  | RUpto n _ _ a | RRep n a => re_wf a ∧ 0 < n <= INT32_MAX
  end.
End WellFormed.

Lemma zlen_jump o v : zlen (jump o v) = 5.
Proof. reflexivity. Qed.
#[export] Hint Rewrite zlen_jump : zlen.
Lemma depth_nonneg r : 0 <= depth r.
Proof. induction r; cbn [depth]; try destruct check; cbn [b2z]; lia. Qed.
