(* ===== verification/ReSem.v ===== *)
(** * What compiled regular expressions mean

    The backtracking semantics of the constructs of ReSyntax.v, without byte
    code, choice points or auxiliary stack.  [ev r x l]: started in [x] - a
    position and the captures - [r] has the outcomes [l], in the order in
    which they are tried.  The relation holds only of searches that terminate;
    a search that runs forever has no list of outcomes. *)
From S2P Require Import Prelude Cutils CharRange CaseConv ReOpcodes ReExec ReSyntax.

(** a position in the subject, and the captures *)
Record mstate := mkM { m_pos : Z; m_caps : list cap }.

Section Semantics.
Context (s : REExecContext).
Local Notation cbuf := (s_cbuf s).
Local Notation cbuf_end := (s_cbuf_end s).

(** ** Characters *)
(** the character at [p], and the position after it *)
Definition next_at (p : Z) : option (Z * Z) :=
  if p <? cbuf_end then GET_CHAR cbuf (s_cbuf_type s) p cbuf_end else None.
(** the character before [p], and its position *)
Definition prev_at (p : Z) : option (Z * Z) :=
  if 0 <? p then GET_PREV_CHAR cbuf (s_cbuf_type s) p 0 else None.
(** one character that satisfies [f] *)
Definition step_char (f : Z → bool) (x : mstate) : option mstate :=
  match next_at (m_pos x) with
  | Some (c, q) => if f c then Some (mkM q (m_caps x)) else None
  | None => None
  end.
(** a test of the character after case folding *)
Definition folded (f : Z → bool) (c : Z) : bool :=
  match exec_fold s c with Some d => f d | None => false end.
Definition char_is (f : Z → bool) (o : option (Z * Z)) : bool :=
  match o with Some (c, _) => f c | None => false end.
Definition when (b : bool) (x : mstate) : option mstate := if b then Some x else None.

(** ** Captures *)
Definition set_cap (i : Z) (v : cap) (caps : list cap) : list cap :=
  match aset caps i v with Some caps => caps | None => caps end.
Fixpoint reset_caps (n : nat) (k : Z) (caps : list cap) : list cap :=
  match n with
  | O => caps
  | S n => reset_caps n (k + 1) (set_cap (2 * k + 1) None (set_cap (2 * k) None caps))
  end.
Definition get_cap (i : Z) (caps : list cap) : cap := match caps.[i] with Some c => c | None => None end.
(** the text of a capture, character by character, from either end *)
Fixpoint text (fuel : nat) (a b : Z) : list Z :=
  match fuel with
  | O => []
  | S fuel =>
    if a <? b then
      match GET_CHAR cbuf (s_cbuf_type s) a b with Some (c, a) => c :: text fuel a b | None => [] end
    else []
  end.
Fixpoint text_back (fuel : nat) (a b : Z) : list Z :=
  match fuel with
  | O => []
  | S fuel =>
    if a <? b then
      match GET_PREV_CHAR cbuf (s_cbuf_type s) b a with Some (c, b) => c :: text_back fuel a b | None => [] end
    else []
  end.
(** the same characters again, in the direction of [next] *)
Fixpoint same_text (next : Z → option (Z * Z)) (cs : list Z) (p : Z) : option Z :=
  match cs with
  | [] => Some p
  | c :: cs =>
    match next p with
    | Some (d, q) => if bool_decide (exec_fold s c = exec_fold s d) then same_text next cs q else None
    | None => None
    end
  end.
Definition back_ref (backward : bool) (k : Z) (x : mstate) : option mstate :=
  if k >=? s_capture_count s then None
  else
    match get_cap (2 * k) (m_caps x), get_cap (2 * k + 1) (m_caps x) with
    | Some a, Some b =>
      let fuel := length cbuf in
      match (if backward then same_text prev_at (text_back fuel a b) (m_pos x)
             else same_text next_at (text fuel a b) (m_pos x)) with
      | Some q => Some (mkM q (m_caps x))
      | None => None
      end
    | _, _ => Some x
    end.

(** ** Instructions: the next state, or no match *)
Definition op_next (o : op) (x : mstate) : option mstate :=
  let p := m_pos x in
  match o with
  | OChar c | OChar32 c => step_char (folded (Z.eqb c)) x
  | ODot => step_char (λ c, negb (is_line_terminator c)) x
  | OAny => step_char (λ _, true) x
  | ORange pts => step_char (folded (cr_mem pts)) x
  | OLineStart => when ((p =? 0) || s_multi_line s && char_is is_line_terminator (prev_at p)) x
  | OLineEnd => when ((p =? cbuf_end) || s_multi_line s && char_is is_line_terminator (next_at p)) x
  | OWordBoundary neg =>
      when (xorb neg (xorb (char_is is_word_char (prev_at p)) (char_is is_word_char (next_at p)))) x
  | OPrev => match prev_at p with Some (_, q) => Some (mkM q (m_caps x)) | None => None end
  | OSaveStart k => Some (mkM p (set_cap (2 * k) (Some p) (m_caps x)))
  | OSaveEnd k => Some (mkM p (set_cap (2 * k + 1) (Some p) (m_caps x)))
  | OSaveReset first last => Some (mkM p (reset_caps (Z.to_nat (last - first + 1)) first (m_caps x)))
  | OBackRef backward k => back_ref backward k x
  end.

(** ** Constructs *)
(** the outcomes that advanced, when they have to *)
Definition advanced (check : bool) (x : mstate) (l : list mstate) : list mstate :=
  if check then filter (λ y, m_pos y ≠ m_pos x) l else l.
(** the order of a greedy or lazy choice between going on and stopping *)
Definition choice {A} (greedy : bool) (go stop : list A) : list A := if greedy then go ++ stop else stop ++ go.

Inductive ev : re → mstate → list mstate → Prop :=
| ev_nil x : ev RNil x [x]
| ev_op o x : ev (ROp o) x (option_list (op_next o x))
| ev_seq a b x l k : ev a x l → evs b l k → ev (RSeq a b) x k
| ev_alt a b x l k : ev a x l → ev b x k → ev (RAlt a b) x (l ++ k)
| ev_look a x l :
    ev a x l →
    ev (RLook false a) x (match l with [] => [] | y :: _ => [mkM (m_pos x) (m_caps y)] end)
| ev_look_not a x l : ev a x l → ev (RLook true a) x (match l with [] => [x] | _ :: _ => [] end)
| ev_simple quant_min quant_max count a x l :
    ev_iter a quant_max 0 x l →
    ev (RSimple quant_min quant_max count a) x (take (length l - Z.to_nat quant_min) l)
| ev_opt greedy check a x l : ev a x l → ev (ROpt greedy check a) x (choice greedy (advanced check x l) [x])
| ev_star greedy check a x l k :
    ev a x l → evs (RStar greedy check a) (advanced check x l) k → ev (RStar greedy check a) x (choice greedy k [x])
| ev_upto_0 greedy check a x : ev (RUpto 0 greedy check a) x [x]
| ev_upto n greedy check a x l k :
    0 < n → ev a x l → evs (RUpto (n - 1) greedy check a) (advanced check x l) k →
    ev (RUpto n greedy check a) x (choice greedy k [x])
| ev_plus greedy a x l k : ev a x l → evs (ROpt greedy false (RPlus greedy a)) l k → ev (RPlus greedy a) x k
| ev_rep_0 a x : ev (RRep 0 a) x [x]
| ev_rep n a x l k : 0 < n → ev a x l → evs (RRep (n - 1) a) l k → ev (RRep n a) x k
(** from each state of a list in turn *)
with evs : re → list mstate → list mstate → Prop :=
| evs_nil r : evs r [] []
| evs_cons r x l k ks : ev r x k → evs r l ks → evs r (x :: l) (k ++ ks)
(** the states after [quant_max], ..., 1, 0 more rounds of a body with at most
    one outcome, as far as it goes; [q] rounds are done *)
with ev_iter : re → Z → Z → mstate → list mstate → Prop :=
| ev_iter_stop a quant_max q x : ev a x [] → ev_iter a quant_max q x [x]
| ev_iter_max a quant_max q x y :
    ev a x [y] → q + 1 >= quant_max → quant_max ≠ INT32_MAX → ev_iter a quant_max q x [y; x]
| ev_iter_next a quant_max q x y l :
    ev a x [y] → ¬ (q + 1 >= quant_max ∧ quant_max ≠ INT32_MAX) →
    ev_iter a quant_max (q + 1) y l → ev_iter a quant_max q x (l ++ [x]).
End Semantics.

Scheme ev_ind' := Minimality for ev Sort Prop
  with evs_ind' := Minimality for evs Sort Prop
  with ev_iter_ind' := Minimality for ev_iter Sort Prop.
Combined Scheme ev_mutind from ev_ind', evs_ind', ev_iter_ind'.
