(* ===== verification/ReSubject.v ===== *)
(** * Walking over the subject (js/libregexp.c, [GET_CHAR] and its variants)

    A subject of UTF-16 code units may hold surrogate pairs; in unicode mode
    the executor reads a pair as one character, from either side.  A position
    between the halves of a pair is not [aligned]: from it the two directions
    disagree.  Everywhere else they are inverse, and they keep positions
    aligned and inside of the subject. *)
From S2P Require Import Prelude Cutils UnicodeTables CaseConv ReOpcodes ReExec ReSyntax ReSem.

Section Subject.
Context (s : REExecContext).
Local Notation cbuf := (s_cbuf s).
Local Notation cbuf_end := (s_cbuf_end s).

Definition subject_ok : Prop := Forall (λ c, 0 <= c < 2 ^ 16) (s_cbuf s).
Definition aligned (p : Z) : Prop :=
  s_cbuf_type s = 2 → ∀ c d, cbuf.[p - 1] = Some c → cbuf.[p] = Some d →
  is_hi_surrogate c = true → is_lo_surrogate d = true → False.

Lemma subject_unit p c : subject_ok → cbuf.[p] = Some c → 0 <= c < 2 ^ 16.
Proof.
  intros Hs Hc. unfold aget in Hc. destruct (p <? 0); [done|]. by apply (Forall_lookup_1 _ _ _ _ Hs Hc).
Qed.
Lemma from_surrogate_range c d :
  is_hi_surrogate c = true → is_lo_surrogate d = true → 0x10000 <= from_surrogate c d <= 0x10ffff.
Proof.
  intros Hc%is_hi_surrogate_iff Hd%is_lo_surrogate_iff. unfold from_surrogate, u32. rewrite Z.mod_small; lia.
Qed.
Lemma hi_not_lo c : is_hi_surrogate c = true → is_lo_surrogate c = true → False.
Proof. intros Hc%is_hi_surrogate_iff Hd%is_lo_surrogate_iff. lia. Qed.

(** what [GET_CHAR] reads *)
Definition pair_at (p e c d : Z) : Prop :=
  s_cbuf_type s = 2 ∧ cbuf.[p] = Some c ∧ cbuf.[p + 1] = Some d ∧ p + 1 < e ∧
  is_hi_surrogate c = true ∧ is_lo_surrogate d = true.
Lemma GET_CHAR_cases p e :
  0 <= p < e → e <= cbuf_end →
  (∃ c d, pair_at p e c d ∧ GET_CHAR cbuf (s_cbuf_type s) p e = Some (from_surrogate c d, p + 2)) ∨
  (∃ c, cbuf.[p] = Some c ∧ (∀ d d', ¬ pair_at p e d d') ∧ GET_CHAR cbuf (s_cbuf_type s) p e = Some (c, p + 1)).
Proof.
  intros Hp He. destruct (aget_is_Some cbuf p) as [c Hc]; [unfold s_cbuf_end in *; lia|].
  unfold GET_CHAR. rewrite Hc. cbn [mbind option_bind].
  assert ((∀ d d', ¬ pair_at p e d d') → ∃ c0, Some c = Some c0 ∧ (∀ d d', ¬ pair_at p e d d') ∧
    Some (c, p + 1) = Some (c0, p + 1)) as Hone by (intros Hn; by exists c).
  destruct (Z.eqb_spec (s_cbuf_type s) 0) as [Ht|Ht].
  { right. apply Hone. intros d d' (? & _). lia. }
  destruct (is_hi_surrogate c) eqn:Ehi; cbn [andb].
  2: { right. apply Hone. intros d d' (_ & Hd & _ & _ & ? & _). congruence. }
  destruct (Z.eqb_spec (s_cbuf_type s) 2) as [Ht2|Ht2]; [|right; apply Hone; by intros d d' (? & _)].
  destruct (Z.ltb_spec (p + 1) e) as [Hlt|Hge]; [|right; apply Hone; intros d d' (_ & _ & _ & ? & _); lia].
  destruct (aget_is_Some cbuf (p + 1)) as [d Hd]; [unfold s_cbuf_end in *; lia|].
  rewrite Hd. cbn [mbind option_bind]. destruct (is_lo_surrogate d) eqn:Elo.
  - left. by exists c, d.
  - right. apply Hone. intros d1 d2 (_ & _ & Hd2 & _ & _ & ?). congruence.
Qed.
Lemma GET_PREV_CHAR_cases p a :
  0 <= a < p → p <= cbuf_end →
  (∃ c d, pair_at (p - 2) p c d ∧ a <= p - 2 ∧
     GET_PREV_CHAR cbuf (s_cbuf_type s) p a = Some (from_surrogate c d, p - 2)) ∨
  (∃ c, cbuf.[p - 1] = Some c ∧ (a <= p - 2 → ∀ d d', ¬ pair_at (p - 2) p d d') ∧
     GET_PREV_CHAR cbuf (s_cbuf_type s) p a = Some (c, p - 1)).
Proof.
  intros Hp He. destruct (aget_is_Some cbuf (p - 1)) as [c Hc]; [unfold s_cbuf_end in *; lia|].
  unfold GET_PREV_CHAR. rewrite Hc. cbn [mbind option_bind].
  replace (p - 1 - 1) with (p - 2) by lia.
  assert ((a <= p - 2 → ∀ d d', ¬ pair_at (p - 2) p d d') →
    ∃ c0, Some c = Some c0 ∧ (a <= p - 2 → ∀ d d', ¬ pair_at (p - 2) p d d') ∧
    Some (c, p - 1) = Some (c0, p - 1)) as Hone by (intros Hn; by exists c).
  assert (∀ d d', pair_at (p - 2) p d d' → d' = c) as Hpc.
  { intros d d' (_ & _ & Hd & _). replace (p - 2 + 1) with (p - 1) in Hd by lia. congruence. }
  destruct (Z.eqb_spec (s_cbuf_type s) 0) as [Ht|Ht].
  { right. apply Hone. intros _ d d' (? & _). lia. }
  destruct (is_lo_surrogate c) eqn:Elo; cbn [andb].
  2: { right. apply Hone. intros _ d d' Hd. pose proof (Hpc _ _ Hd). destruct Hd as (_ & _ & _ & _ & _ & ?). congruence. }
  destruct (Z.eqb_spec (s_cbuf_type s) 2) as [Ht2|Ht2]; [|right; apply Hone; by intros _ d d' (? & _)].
  rewrite Z.gtb_ltb. destruct (Z.ltb_spec a (p - 1)) as [Hlt|Hge]; [|right; apply Hone; lia].
  destruct (aget_is_Some cbuf (p - 2)) as [d Hd]; [unfold s_cbuf_end in *; lia|].
  rewrite Hd. cbn [mbind option_bind]. destruct (is_hi_surrogate d) eqn:Ehi.
  - left. exists d, c. split; [|split; [lia|done]]. split; [done|]. split; [done|].
    replace (p - 2 + 1) with (p - 1) by lia. split; [done|]. split; [lia|done].
  - right. apply Hone. intros _ d1 d2 (_ & Hd2 & _ & _ & ? & _). congruence.
Qed.

(** ** The two directions *)
Lemma next_at_cases p :
  subject_ok → 0 <= p →
  (cbuf_end <= p ∧ next_at s p = None) ∨
  (∃ c q, next_at s p = Some (c, q) ∧ GET_CHAR cbuf (s_cbuf_type s) p cbuf_end = Some (c, q) ∧
     0 <= c <= 0x10ffff ∧ p < q <= cbuf_end ∧ aligned q).
Proof.
  intros Hs Hp. unfold next_at. destruct (Z.ltb_spec p (s_cbuf_end s)) as [Hlt|Hge]; [right|by left].
  destruct (GET_CHAR_cases p cbuf_end) as [(c & d & Hpair & E)|(c & Hc & Hno & E)]; [done|done|..];
    rewrite E.
  - destruct Hpair as (Ht & H1 & H2 & H3 & H4 & H5). pose proof (from_surrogate_range c d H4 H5).
    exists (from_surrogate c d), (p + 2). split; [done|]. split; [done|]. split; [lia|]. split; [lia|].
    intros _ c1 d1 Hc1 _ Hhi _. replace (p + 2 - 1) with (p + 1) in Hc1 by lia. rewrite H2 in Hc1. injection Hc1 as <-.
    by apply (hi_not_lo d).
  - pose proof (subject_unit _ _ Hs Hc). exists c, (p + 1).
    split; [done|]. split; [done|]. split; [lia|]. split; [lia|].
    intros Ht c1 d1 Hc1 Hd1 Hhi Hlo. replace (p + 1 - 1) with p in Hc1 by lia. apply (Hno c1 d1).
    split; [done|]. split; [done|]. split; [done|]. split; [|done].
    apply aget_Some_range in Hd1. unfold s_cbuf_end. lia.
Qed.
Lemma prev_at_cases p :
  subject_ok → 0 <= p <= cbuf_end →
  (p = 0 ∧ prev_at s p = None) ∨
  (∃ c q, prev_at s p = Some (c, q) ∧ GET_PREV_CHAR cbuf (s_cbuf_type s) p 0 = Some (c, q) ∧
     0 <= c <= 0x10ffff ∧ 0 <= q < p ∧ aligned q).
Proof.
  intros Hs Hp. unfold prev_at. destruct (Z.ltb_spec 0 p) as [Hlt|Hge]; [right|left; split; [lia|done]].
  destruct (GET_PREV_CHAR_cases p 0) as [(c & d & Hpair & Ha & E)|(c & Hc & Hno & E)]; [lia|lia|..];
    rewrite E.
  - destruct Hpair as (Ht & H1 & H2 & H3 & H4 & H5). pose proof (from_surrogate_range c d H4 H5).
    exists (from_surrogate c d), (p - 2). split; [done|]. split; [done|]. split; [lia|]. split; [lia|].
    intros _ c1 d1 _ Hd1 _ Hlo. rewrite H1 in Hd1. injection Hd1 as <-. by apply (hi_not_lo c).
  - pose proof (subject_unit _ _ Hs Hc). exists c, (p - 1).
    split; [done|]. split; [done|]. split; [lia|]. split; [lia|].
    intros Ht c1 d1 Hc1 Hd1 Hhi Hlo. replace (p - 1 - 1) with (p - 2) in Hc1 by lia.
    pose proof (aget_Some_range _ _ _ Hc1). apply (Hno ltac:(lia) c1 d1).
    split; [done|]. split; [done|]. replace (p - 2 + 1) with (p - 1) by lia. split; [done|]. split; [lia|done].
Qed.
Lemma prev_at_next_at p c q :
  subject_ok → 0 <= p → aligned p → next_at s p = Some (c, q) → prev_at s q = Some (c, p).
Proof.
  intros Hs Hp Ha Hn. pose proof Hn as Hn'. unfold next_at in Hn'.
  destruct (Z.ltb_spec p (s_cbuf_end s)) as [Hlt|]; [|done]. 
  unfold prev_at. destruct (GET_CHAR_cases p cbuf_end) as [(c1 & d & Hpair & E)|(c1 & Hc & Hno & E)]; [lia|lia|..];
    rewrite E in Hn'; injection Hn' as <- <-.
  - destruct Hpair as (Ht & H1 & H2 & H3 & H4 & H5). destruct (Z.ltb_spec 0 (p + 2)); [|lia].
    destruct (GET_PREV_CHAR_cases (p + 2) 0) as [(c2 & d2 & Hpair & Hle & E2)|(c2 & Hc2 & Hno & E2)]; [lia|lia|..].
    + rewrite E2. destruct Hpair as (_ & K1 & K2 & _).
      replace (p + 2 - 2) with p in * by lia. congruence.
    + destruct (Hno ltac:(lia) c1 d). replace (p + 2 - 2) with p by lia. repeat (split; [done || lia|]). done.
  - destruct (Z.ltb_spec 0 (p + 1)); [|lia].
    destruct (GET_PREV_CHAR_cases (p + 1) 0) as [(c2 & d2 & Hpair & Hle & E2)|(c2 & Hc2 & Hno2 & E2)]; [lia|lia|..].
    + destruct Hpair as (Ht & K1 & K2 & _ & K4 & K5). exfalso. apply (Ha Ht c2 d2); [|..|done|done].
      * by replace (p - 1) with (p + 1 - 2) by lia.
      * by replace p with (p + 1 - 2 + 1) by lia.
    + rewrite E2. replace (p + 1 - 1) with p in * by lia. congruence.
Qed.
Lemma next_at_prev_at q c p :
  subject_ok → 0 <= q <= cbuf_end → aligned q → prev_at s q = Some (c, p) → next_at s p = Some (c, q).
Proof.
  intros Hs Hq Ha Hn. unfold prev_at in Hn. destruct (Z.ltb_spec 0 q) as [Hlt|]; [|done].
  unfold next_at. destruct (GET_PREV_CHAR_cases q 0) as [(c1 & d & Hpair & Hle & E)|(c1 & Hc & Hno & E)]; [lia|lia|..];
    rewrite E in Hn; injection Hn as <- <-.
  - destruct Hpair as (Ht & H1 & H2 & H3 & H4 & H5). destruct (Z.ltb_spec (q - 2) cbuf_end); [|lia].
    destruct (GET_CHAR_cases (q - 2) cbuf_end) as [(c2 & d2 & Hpair & E2)|(c2 & Hc2 & Hno & E2)]; [lia|lia|..].
    + rewrite E2. destruct Hpair as (_ & K1 & K2 & _). replace (q - 2 + 2) with q by lia. congruence.
    + destruct (Hno c1 d). repeat (split; [done || lia|]). done.
  - destruct (Z.ltb_spec (q - 1) cbuf_end); [|lia].
    destruct (GET_CHAR_cases (q - 1) cbuf_end) as [(c2 & d2 & Hpair & E2)|(c2 & Hc2 & Hno2 & E2)]; [lia|lia|..].
    + destruct Hpair as (Ht & K1 & K2 & _ & K4 & K5). exfalso. replace (q - 1 + 1) with q in K2 by lia.
      by apply (Ha Ht c2 d2).
    + rewrite E2. replace (q - 1 + 1) with q by lia. congruence.
Qed.
End Subject.

(** Reading a character forwards and reading it backwards are inverse to
    each other, between two positions that are not inside of a surrogate pair:
    [GET_CHAR] at [p] reads [c] and moves to [q] exactly when [GET_PREV_CHAR]
    at [q] reads [c] and moves to [p]. *)
Theorem GET_CHAR_inverse s p c q :
  subject_ok s → 0 <= p < s_cbuf_end s → 0 < q <= s_cbuf_end s → aligned s p → aligned s q →
  GET_CHAR (s_cbuf s) (s_cbuf_type s) p (s_cbuf_end s) = Some (c, q) ↔
  GET_PREV_CHAR (s_cbuf s) (s_cbuf_type s) q 0 = Some (c, p).
Proof.
  intros Hs Hp Hq Hap Haq.
  pose proof (prev_at_next_at s p c q Hs ltac:(lia) Hap) as H1. pose proof (next_at_prev_at s q c p Hs ltac:(lia) Haq) as H2.
  unfold next_at, prev_at in H1, H2. destruct (Z.ltb_spec p (s_cbuf_end s)); [|lia]. destruct (Z.ltb_spec 0 q); [|lia].
  by split.
Qed.
(** U+1F600 between two ASCII characters *)
Definition pair_context : REExecContext := mkCtx [0x61; 0xd83d; 0xde00; 0x62] 2 1 0 false false true [].
Lemma GET_CHAR_inverse_witness :
  GET_CHAR (s_cbuf pair_context) 2 1 4 = Some (0x1f600, 3) ∧
  (GET_CHAR (s_cbuf pair_context) 2 1 4 = Some (0x1f600, 3) ↔ GET_PREV_CHAR (s_cbuf pair_context) 2 3 0 = Some (0x1f600, 1)).
Proof.
  split; [reflexivity|]. apply (GET_CHAR_inverse pair_context 1 0x1f600 3); [repeat constructor; done|done|done|..];
    intros _ c d Hc Hd; cbn in Hc, Hd; injection Hc as <-; injection Hd as <-; done.
Defined.
