(* ===== verification/ReOps.v ===== *)
(** * The executor's instructions implement their meaning

    One step of [exec_step] on each instruction of ReSyntax.v computes
    [op_next]: it never leaves the subject, the captures or the byte code, and
    it keeps the state well-formed. *)
From S2P Require Import Prelude Alloc Cutils CharRange UnicodeTables CaseConv Reliable ReOpcodes ReExec ReClass.
From S2P Require Import ReCode ReRange ReSyntax ReSem ReSubject.

Section Ops.
Context `{!Allocator}.
Context (s : REExecContext).
Local Notation cbuf := (s_cbuf s).
Local Notation cbuf_end := (s_cbuf_end s).
Local Notation captures := (s_capture_count s).

(** a state of a match: the position is in the subject, not inside a pair, and
    the captures point into the subject *)
Record state_ok (x : mstate) : Prop := {
  ok_pos : 0 <= m_pos x <= cbuf_end;
  ok_aligned : aligned s (m_pos x);
  ok_caps : zlen (m_caps x) = 2 * captures;
  ok_cap i p : (m_caps x).[i] = Some (Some p : cap) → 0 <= p <= cbuf_end
}.
(** the context of an execution *)
Record context_ok : Prop := {
  cx_subject : subject_ok s;
  cx_length : cbuf_end < 2 ^ 31;
  cx_captures : 0 < captures < 256;
  cx_code : zlen (s_bc s) < 2 ^ 31
}.
Context (Hcx : context_ok).

Lemma exec_fold_total c : 0 <= c <= 0x10ffff → ∃ d, exec_fold s c = Some d ∧ 0 <= d <= 0x10ffff.
Proof.
  intros Hc. unfold exec_fold. destruct (s_ignore_case s); [|by exists c].
  destruct (lre_canonicalize_total c (s_is_unicode s)) as (d & -> & Hd); [done|]. by exists d.
Qed.

(** ** The concrete states that represent a state of a match *)
Record represents (st : exec_state) (pc : Z) (x : mstate) (stk : list Z) (S : list REExecState) : Prop := {
  rp_pc : es_pc st = pc;
  rp_cptr : es_cptr st = m_pos x;
  rp_capture : es_capture st = m_caps x;
  rp_states : es_states st = S;
  rp_stack : ∃ tl, es_stack st = map Some stk ++ tl;
  rp_size : zlen (es_stack st) = s_stack_size_max s;
  rp_len : es_stack_len st = zlen stk
}.
Lemma represents_pc st pc pc' x stk S : represents st pc x stk S → represents (with_pc st pc') pc' x stk S.
Proof. intros []. by split. Qed.
Lemma represents_cptr st pc p q x stk S :
  represents st pc x stk S → represents (with_cptr (with_pc st p) q) p (mkM q (m_caps x)) stk S.
Proof. intros []. by split. Qed.
Lemma represents_capture st pc p caps x stk S :
  represents st pc x stk S → represents (with_pc (with_capture st caps) p) p (mkM (m_pos x) caps) stk S.
Proof. intros []. by split. Qed.

(** ** Captures *)
Lemma set_cap_ok i (v : cap) (caps : list cap) : 0 <= i < zlen caps → aset caps i v = Some (set_cap i v caps) ∧ zlen (set_cap i v caps) = zlen caps.
Proof.
  intros Hi. unfold set_cap, aset, zlen in *. destruct (Z.ltb_spec i 0); [lia|].
  destruct (Z.leb_spec (Z.of_nat (length caps)) i); [lia|]. cbn [orb]. by rewrite length_insert.
Qed.
Lemma set_cap_lookup i (v : cap) (caps : list cap) j p :
  (set_cap i v caps).[j] = Some (Some p : cap) → v = Some p ∨ caps.[j] = Some (Some p : cap).
Proof.
  unfold set_cap, aset. destruct ((i <? 0) || _); [by right|]. unfold aget. destruct (j <? 0); [done|].
  destruct (decide (Z.to_nat i = Z.to_nat j)) as [E|E]; [|rewrite list_lookup_insert_ne by done; by right].
  intros Hj. left. rewrite E in Hj. apply list_lookup_insert_Some in Hj as [(_ & -> & _)|(? & _)]; done.
Qed.
Lemma state_ok_caps x (caps : list cap) :
  state_ok x → zlen caps = zlen (m_caps x) → (∀ i p, caps.[i] = Some (Some p : cap) → 0 <= p <= cbuf_end) →
  state_ok (mkM (m_pos x) caps).
Proof. intros [] Hl Hc. split; cbn [m_pos m_caps]; [done|done|congruence|done]. Qed.
Lemma state_ok_set_cap x i v :
  state_ok x → 0 <= i < 2 * captures → (∀ p, v = Some p → 0 <= p <= cbuf_end) →
  state_ok (mkM (m_pos x) (set_cap i v (m_caps x))).
Proof.
  intros Hok Hi Hv. pose proof Hok as [_ _ Hl Hc]. apply state_ok_caps; [done|apply set_cap_ok; lia|].
  intros j p [?|?]%set_cap_lookup; [by apply Hv|by eapply Hc].
Qed.
Lemma state_ok_move x q : state_ok x → 0 <= q <= cbuf_end → aligned s q → state_ok (mkM q (m_caps x)).
Proof. intros [] Hq Ha. by split. Qed.
Lemma reset_caps_spec n k x fuel :
  state_ok x → 0 <= k → k + Z.of_nat n <= captures → (n < fuel)%nat →
  reset_captures fuel (m_caps x) k (k + Z.of_nat n - 1) = Some (reset_caps n k (m_caps x)) ∧
  state_ok (mkM (m_pos x) (reset_caps n k (m_caps x))).
Proof.
  revert k x fuel. induction n as [|n IH]; intros k x fuel Hok Hk Hn Hf.
  - destruct fuel as [|fuel]; [lia|]. cbn [reset_captures reset_caps]. destruct (Z.leb_spec k (k + Z.of_nat 0 - 1)); [lia|].
    split; [done|]. by destruct x.
  - destruct fuel as [|fuel]; [lia|]. cbn [reset_captures reset_caps].
    destruct (Z.leb_spec k (k + Z.of_nat (S n) - 1)); [|lia]. pose proof (ok_caps _ Hok) as Hl.
    destruct (set_cap_ok (2 * k) None (m_caps x)) as [-> Hl1]; [lia|]. cbn [mbind option_bind].
    destruct (set_cap_ok (2 * k + 1) None (set_cap (2 * k) None (m_caps x))) as [-> Hl2]; [lia|]. cbn [mbind option_bind].
    pose proof (state_ok_set_cap x (2 * k) None Hok ltac:(lia) ltac:(done)) as Hok1.
    pose proof (state_ok_set_cap _ (2 * k + 1) None Hok1 ltac:(lia) ltac:(done)) as Hok2. cbn [m_pos m_caps] in Hok2.
    destruct (IH (k + 1) _ fuel Hok2) as [E Hok3]; [lia..|]. cbn [m_pos m_caps] in *.
    replace (k + Z.of_nat (S n) - 1) with (k + 1 + Z.of_nat n - 1) by lia. done.
Qed.

(** ** One instruction *)
Definition implements (o : op) (st : exec_state) (pc : Z) (x : mstate) (stk : list Z) (S : list REExecState) : Prop :=
  ∃ st', (∀ h, exec_at s st h = Some (match op_next s o x with Some _ => SNext st' | None => SNoMatch st' end, h)) ∧
    match op_next s o x with
    | Some y => represents st' (pc + zlen (op_code o)) y stk S ∧ state_ok y
    | None => ∃ pc', represents st' pc' x stk S
    end.
Lemma implements_intro o st pc x stk S r :
  (∀ h, exec_at s st h = Some (r, h)) →
  match op_next s o x with
  | Some y => ∃ st', r = SNext st' ∧ represents st' (pc + zlen (op_code o)) y stk S ∧ state_ok y
  | None => ∃ st' pc', r = SNoMatch st' ∧ represents st' pc' x stk S
  end → implements o st pc x stk S.
Proof.
  intros He Hm. unfold implements. destruct (op_next s o x) as [y|].
  - destruct Hm as (st' & -> & Hm). eauto.
  - destruct Hm as (st' & pc' & -> & Hm). eauto.
Qed.
(** the dispatch on an opcode without allocation *)
Lemma exec_at_lift st pc c l f r :
  es_pc st = pc → code_at (s_bc s) pc (c :: l) →
  exec_step s (with_pc st (pc + 1)) c = lift f → f = Some r → ∀ h, exec_at s st h = Some (r, h).
Proof. intros Hpc [Hc _]%code_at_cons He -> h. unfold exec_at. by rewrite Hpc, Hc, bind_lift, He. Qed.

Lemma next_char_at st pc x stk S :
  represents st pc x stk S → state_ok x →
  (cbuf_end <= m_pos x ∧ next_at s (m_pos x) = None) ∨
  ∃ c q, m_pos x < cbuf_end ∧ next_at s (m_pos x) = Some (c, q) ∧
    GET_CHAR cbuf (s_cbuf_type s) (es_cptr st) cbuf_end = Some (c, q) ∧
    0 <= c <= 0x10ffff ∧ state_ok (mkM q (m_caps x)) .
Proof.
  intros Hr Hok. pose proof (ok_pos _ Hok) as Hp.
  destruct (next_at_cases s (m_pos x) (cx_subject Hcx)) as [?|(c & q & E & Eg & Hc & Hq & Ha)]; [lia|by left|right].
  exists c, q. rewrite (rp_cptr _ _ _ _ _ Hr). split; [lia|]. split; [done|]. split; [done|]. split; [done|].
  apply state_ok_move; [done|lia|done].
Qed.
Lemma exec_test_char_eq st pc x stk S v :
  represents st pc x stk S → state_ok x →
  exec_test_char s st v = Some (match step_char s (folded s (Z.eqb v)) x with
                                | Some y => SNext (with_cptr st (m_pos y)) | None => SNoMatch st end) ∧
  match step_char s (folded s (Z.eqb v)) x with Some y => state_ok y ∧ m_caps y = m_caps x | None => True end.
Proof.
  intros Hr Hok. unfold exec_test_char, step_char, folded. rewrite Z.geb_leb.
  destruct (next_char_at st pc x stk S Hr Hok) as [[He ->]|(c & q & Hlt & -> & Hg & Hc & Hq)];
    rewrite (rp_cptr _ _ _ _ _ Hr) in *.
  - destruct (Z.leb_spec cbuf_end (m_pos x)); [done|lia].
  - destruct (Z.leb_spec cbuf_end (m_pos x)); [lia|]. rewrite Hg. cbn [mbind option_bind].
    destruct (exec_fold_total c Hc) as (d & -> & _). cbn [mbind option_bind].
    destruct (v =? d); cbn [negb]; done.
Qed.

Lemma exec_op_char o c st pc x stk S :
  o = OChar c ∨ o = OChar32 c → op_wf captures o → code_at (s_bc s) pc (op_code o) →
  represents st pc x stk S → state_ok x → implements o st pc x stk S.
Proof.
  intros Ho Hwf Hcode Hr Hok.
  assert (∃ w, zlen (op_code o) = 1 + w ∧ ∀ h, exec_at s st h =
    Some (match step_char s (folded s (Z.eqb c)) x with
          | Some y => SNext (with_cptr (with_pc st (pc + 1 + w)) (m_pos y))
          | None => SNoMatch (with_pc st (pc + 1 + w)) end, h)) as (w & Hw & He).
  { destruct Ho as [->| ->]; cbn [op_code op_wf] in *.
    - exists 2. split; [done|]. eapply exec_at_lift; [apply Hr|exact Hcode|reflexivity|].
      apply code_at_cons in Hcode as [_ Hcode]. rewrite <- (app_nil_r (le16 c)) in Hcode.
      unfold exec_char. cbn [es_pc with_pc]. rewrite (code_at_u16 _ _ _ _ Hcode), u16_small by lia. cbn [mbind option_bind].
      apply (exec_test_char_eq _ (pc + 1 + 2) x stk S c); [|done]. by eapply represents_pc, represents_pc.
    - exists 4. split; [done|]. eapply exec_at_lift; [apply Hr|exact Hcode|reflexivity|].
      apply code_at_cons in Hcode as [_ Hcode]. rewrite <- (app_nil_r (le32 c)) in Hcode.
      unfold exec_char32. cbn [es_pc with_pc]. rewrite (code_at_u32 _ _ _ _ Hcode), u32_small by lia. cbn [mbind option_bind].
      apply (exec_test_char_eq _ (pc + 1 + 4) x stk S c); [|done]. by eapply represents_pc, represents_pc. }
  eapply implements_intro; [exact He|].
  assert (op_next s o x = step_char s (folded s (Z.eqb c)) x) as -> by (by destruct Ho as [->| ->]).
  pose proof (proj2 (exec_test_char_eq _ pc x stk S c Hr Hok)) as Hy. rewrite Hw.
  replace (pc + (1 + w)) with (pc + 1 + w) by lia.
  destruct (step_char _ _ x) as [y|].
  - destruct Hy as [Hy Hcaps]. eexists. split; [reflexivity|]. split; [|done].
    destruct y as [q caps]. cbn in Hcaps |- *. subst. by eapply represents_cptr.
  - eexists _, _. split; [reflexivity|]. by eapply represents_pc.
Qed.
Lemma exec_op_any o f st pc x stk S :
  (o = ODot ∧ f = (λ c, negb (is_line_terminator c)) ∨ o = OAny ∧ f = (λ _, true)) →
  code_at (s_bc s) pc (op_code o) → represents st pc x stk S → state_ok x → implements o st pc x stk S.
Proof.
  intros Ho Hcode Hr Hok.
  assert (op_next s o x = step_char s f x) as En by (by destruct Ho as [[-> ->]|[-> ->]]).
  assert (zlen (op_code o) = 1) as Hw by (by destruct Ho as [[-> ->]|[-> ->]]).
  eapply (implements_intro _ _ _ _ _ _ (match step_char s f x with
    | Some y => SNext (with_cptr (with_pc st (pc + 1)) (m_pos y)) | None => SNoMatch (with_pc st (pc + 1)) end)).
  - pose proof (represents_pc _ _ (pc + 1) _ _ _ Hr) as Hr1.
    destruct Ho as [[-> ->]|[-> ->]]; (eapply exec_at_lift; [apply Hr|exact Hcode|reflexivity|]);
      unfold exec_dot, exec_any, step_char; destruct (next_char_at _ _ _ _ _ Hr1 Hok) as [[He ->]|(c & q & Hlt & -> & Hg & Hc & Hq)];
      rewrite (rp_cptr _ _ _ _ _ Hr1) in *; pose proof (ok_pos _ Hok);
      (destruct (Z.eqb_spec (m_pos x) cbuf_end); [done || lia|try lia]).
    + rewrite Hg. cbn [mbind option_bind]. by destruct (is_line_terminator c).
    + rewrite Hg. done.
  - rewrite En, Hw. unfold step_char.
    destruct (next_char_at _ _ _ _ _ Hr Hok) as [[He ->]|(c & q & Hlt & -> & Hg & Hc & Hq)].
    { eexists _, _. split; [reflexivity|]. by eapply represents_pc. }
    destruct (f c).
    + eexists. split; [reflexivity|]. split; [|done]. by eapply represents_cptr.
    + eexists _, _. split; [reflexivity|]. by eapply represents_pc.
Qed.

(** an assertion: the state moves on, or there is no match *)
Lemma assertion_op o b st pc x stk S :
  op_next s o x = when b x → zlen (op_code o) = 1 → represents st pc x stk S → state_ok x →
  (∀ h, exec_at s st h = Some (if b then SNext (with_pc st (pc + 1)) else SNoMatch (with_pc st (pc + 1)), h)) →
  implements o st pc x stk S.
Proof.
  intros En Hw Hr Hok He. eapply implements_intro; [exact He|]. rewrite En, Hw. unfold when.
  pose proof (represents_pc _ _ (pc + 1) _ _ _ Hr). destruct b; eauto 7.
Qed.
Lemma peek_prev p f :
  0 < p <= cbuf_end →
  ∃ c, PEEK_PREV_CHAR cbuf (s_cbuf_type s) p 0 = Some c ∧ char_is f (prev_at s p) = f c.
Proof.
  intros Hp. destruct (prev_at_cases s p (cx_subject Hcx)) as [[? _]|(c & q & E & Eg & _)]; [lia|lia|].
  exists c. unfold PEEK_PREV_CHAR. by rewrite Eg, E.
Qed.
Lemma peek_next p f :
  0 <= p < cbuf_end →
  ∃ c, PEEK_CHAR cbuf (s_cbuf_type s) p cbuf_end = Some c ∧ char_is f (next_at s p) = f c.
Proof.
  intros Hp. destruct (next_at_cases s p (cx_subject Hcx)) as [[? _]|(c & q & E & Eg & _)]; [lia|lia|].
  exists c. unfold PEEK_CHAR. by rewrite Eg, E.
Qed.
Lemma exec_op_line o st pc x stk S :
  o = OLineStart ∨ o = OLineEnd →
  code_at (s_bc s) pc (op_code o) → represents st pc x stk S → state_ok x → implements o st pc x stk S.
Proof.
  intros Ho Hcode Hr Hok. pose proof (ok_pos _ Hok) as Hp.
  pose proof (rp_cptr _ _ _ _ _ (represents_pc _ _ (pc + 1) _ _ _ Hr)) as Hcptr.
  destruct Ho as [->| ->]; (eapply assertion_op; [reflexivity|done..|]);
    (eapply exec_at_lift; [apply Hr|exact Hcode|reflexivity|]); unfold exec_line_start, exec_line_end; rewrite Hcptr.
  - destruct (Z.eqb_spec (m_pos x) 0); [done|]. destruct (s_multi_line s); [|done].
    destruct (peek_prev (m_pos x) is_line_terminator) as (c & -> & Hc); [lia|]. cbn [orb andb negb mbind option_bind].
    rewrite Hc. by destruct (is_line_terminator c).
  - destruct (Z.eqb_spec (m_pos x) cbuf_end); [done|]. destruct (s_multi_line s); [|done].
    destruct (peek_next (m_pos x) is_line_terminator) as (c & -> & Hc); [lia|]. cbn [orb andb negb mbind option_bind].
    rewrite Hc. by destruct (is_line_terminator c).
Qed.
Lemma exec_op_word neg st pc x stk S :
  code_at (s_bc s) pc (op_code (OWordBoundary neg)) → represents st pc x stk S → state_ok x →
  implements (OWordBoundary neg) st pc x stk S.
Proof.
  intros Hcode Hr Hok. pose proof (ok_pos _ Hok) as Hp.
  pose proof (rp_cptr _ _ _ _ _ (represents_pc _ _ (pc + 1) _ _ _ Hr)) as Hcptr.
  eapply assertion_op; [reflexivity|done..|]. cbn [op_code] in Hcode.
  eapply exec_at_lift; [apply Hr|exact Hcode|by destruct neg|]. unfold exec_word_boundary. rewrite Hcptr.
  assert ((if m_pos x =? 0 then Some false
           else c ← PEEK_PREV_CHAR cbuf (s_cbuf_type s) (m_pos x) 0; Some (is_word_char c)) =
          Some (char_is is_word_char (prev_at s (m_pos x)))) as ->.
  { destruct (Z.eqb_spec (m_pos x) 0) as [E|].
    - by destruct (prev_at_cases s (m_pos x) (cx_subject Hcx)) as [[_ ->]|(? & ? & _ & _ & _ & ? & _)]; [done| |lia].
    - destruct (peek_prev (m_pos x) is_word_char) as (c & -> & ->); [lia|done]. }
  cbn [mbind option_bind]. rewrite Z.geb_leb.
  assert ((if cbuf_end <=? m_pos x then Some false
           else c ← PEEK_CHAR cbuf (s_cbuf_type s) (m_pos x) cbuf_end; Some (is_word_char c)) =
          Some (char_is is_word_char (next_at s (m_pos x)))) as ->.
  { destruct (Z.leb_spec cbuf_end (m_pos x)) as [E|].
    - by destruct (next_at_cases s (m_pos x) (cx_subject Hcx)) as [[_ ->]|(? & ? & _ & _ & _ & ? & _)]; [lia| |lia].
    - destruct (peek_next (m_pos x) is_word_char) as (c & -> & ->); [lia|done]. }
  cbn [mbind option_bind]. by destruct (char_is _ (prev_at _ _)), (char_is _ (next_at _ _)), neg.
Qed.
Lemma exec_op_prev st pc x stk S :
  code_at (s_bc s) pc (op_code OPrev) → represents st pc x stk S → state_ok x → implements OPrev st pc x stk S.
Proof.
  intros Hcode Hr Hok. pose proof (ok_pos _ Hok) as Hp.
  pose proof (rp_cptr _ _ _ _ _ (represents_pc _ _ (pc + 1) _ _ _ Hr)) as Hcptr.
  eapply (implements_intro _ _ _ _ _ _ (match prev_at s (m_pos x) with
    | Some (_, q) => SNext (with_cptr (with_pc st (pc + 1)) q) | None => SNoMatch (with_pc st (pc + 1)) end)).
  - eapply exec_at_lift; [apply Hr|exact Hcode|reflexivity|]. unfold exec_prev. rewrite Hcptr.
    destruct (prev_at_cases s (m_pos x) (cx_subject Hcx)) as [[E ->]|(c & q & -> & Eg & _ & Hq & _)]; [done|by rewrite E|].
    destruct (Z.eqb_spec (m_pos x) 0); [lia|]. unfold PREV_CHAR.
    destruct (Z.eqb_spec (s_cbuf_type s) 0) as [Ht|]; [|by rewrite Eg]. cbn [mbind option_bind].
    unfold GET_PREV_CHAR in Eg. rewrite Ht in Eg. destruct (cbuf.[m_pos x - 1]); [|done]. by injection Eg as _ <-.
  - cbn [op_next]. destruct (prev_at_cases s (m_pos x) (cx_subject Hcx)) as [[E ->]|(c & q & -> & Eg & _ & Hq & Ha)]; [done|..].
    + eexists _, _. split; [reflexivity|]. by eapply represents_pc.
    + eexists. split; [reflexivity|]. split; [by eapply represents_cptr|]. apply state_ok_move; [done|lia|done].
Qed.
Lemma exec_op_save o i k st pc x stk S :
  (o = OSaveStart k ∧ i = 2 * k ∨ o = OSaveEnd k ∧ i = 2 * k + 1) → op_wf captures o →
  code_at (s_bc s) pc (op_code o) → represents st pc x stk S → state_ok x → implements o st pc x stk S.
Proof.
  intros Ho Hwf Hcode Hr Hok. pose proof (ok_caps _ Hok) as Hl.
  assert (0 <= k < captures) as Hk by (by destruct Ho as [[-> _]|[-> _]]).
  assert (op_next s o x = Some (mkM (m_pos x) (set_cap i (Some (m_pos x)) (m_caps x)))) as En
    by (by destruct Ho as [[-> ->]|[-> ->]]).
  assert (0 <= i < 2 * captures) as Hi by (destruct Ho as [[_ ->]|[_ ->]]; lia).
  destruct (set_cap_ok i (Some (m_pos x)) (m_caps x)) as [Ea _]; [lia|].
  eapply (implements_intro _ _ _ _ _ _ (SNext (with_pc (with_capture (with_pc st (pc + 1))
    (set_cap i (Some (m_pos x)) (m_caps x))) (pc + 2)))).
  - pose proof (represents_pc _ _ (pc + 1) _ _ _ Hr) as Hr1.
    assert (∀ op, (op = REOP_save_start ∧ i = 2 * k ∨ op = REOP_save_end ∧ i = 2 * k + 1) → (s_bc s).[pc + 1] = Some k →
      exec_save s (with_pc st (pc + 1)) op = Some (SNext (with_pc (with_capture (with_pc st (pc + 1))
        (set_cap i (Some (m_pos x)) (m_caps x))) (pc + 2)))) as Hsave.
    { intros op Hop Hk1. unfold exec_save. rewrite (rp_pc _ _ _ _ _ Hr1), Hk1. cbn [mbind option_bind].
      destruct (Z.ltb_spec k captures); [|lia]. rewrite (rp_capture _ _ _ _ _ Hr1), (rp_cptr _ _ _ _ _ Hr1).
      replace (2 * k + op - REOP_save_start) with i by (destruct Hop as [[-> ->]|[-> ->]]; unfold REOP_save_start, REOP_save_end; lia).
      rewrite Ea. cbn [mbind option_bind]. by replace (pc + 1 + 1) with (pc + 2) by lia. }
    destruct Ho as [[-> ->]|[-> ->]]; cbn [op_code] in Hcode; pose proof Hcode as [_ [Hk1 _]%code_at_cons]%code_at_cons;
      (eapply exec_at_lift; [apply Hr|exact Hcode|reflexivity|]); apply Hsave; auto.
  - rewrite En. eexists. split; [reflexivity|]. split.
    + assert (zlen (op_code o) = 2) as -> by (by destruct Ho as [[-> _]|[-> _]]).
      eapply represents_capture, represents_pc, Hr.
    + apply state_ok_set_cap; [done|done|]. intros p [= <-]. apply Hok.
Qed.
Lemma exec_op_reset first last st pc x stk S :
  op_wf captures (OSaveReset first last) → code_at (s_bc s) pc (op_code (OSaveReset first last)) →
  represents st pc x stk S → state_ok x → implements (OSaveReset first last) st pc x stk S.
Proof.
  intros [Hfl Hlast] Hcode Hr Hok. cbn [op_code] in Hcode. pose proof (ok_caps _ Hok) as Hl.
  pose proof (represents_pc _ _ (pc + 1) _ _ _ Hr) as Hr1.
  destruct (reset_caps_spec (Z.to_nat (last - first + 1)) first x (Datatypes.S (length (m_caps x)))) as [E Hok1];
    [done|lia|lia|unfold zlen in Hl; lia|].
  replace (first + Z.of_nat (Z.to_nat (last - first + 1)) - 1) with last in E by lia.
  eapply (implements_intro _ _ _ _ _ _ (SNext (with_pc (with_capture (with_pc st (pc + 1)) _) (pc + 3)))).
  - eapply exec_at_lift; [apply Hr|exact Hcode|reflexivity|]. unfold exec_save_reset.
    apply code_at_cons in Hcode as [_ [H1 [H2 _]%code_at_cons]%code_at_cons].
    rewrite (rp_pc _ _ _ _ _ Hr1), H1, H2. cbn [mbind option_bind]. destruct (Z.ltb_spec last captures); [|lia].
    rewrite (rp_capture _ _ _ _ _ Hr1), E. cbn [mbind option_bind]. by replace (pc + 1 + 2) with (pc + 3) by lia.
  - cbn [op_next]. eexists. split; [reflexivity|]. split; [|done]. by eapply represents_capture, represents_pc.
Qed.
Lemma exec_op_range pts st pc x stk S :
  op_wf captures (ORange pts) → code_at (s_bc s) pc (op_code (ORange pts)) →
  represents st pc x stk S → state_ok x → implements (ORange pts) st pc x stk S.
Proof.
  intros [Hpts Hlen] Hcode Hr Hok. cbn [op_code] in *. pose proof (rp_pc _ _ _ _ _ Hr) as Hpc. rewrite <- Hpc in Hcode.
  destruct (range_code_exec s st pts Hpts Hlen Hcode) as (f & He & Hend & Hf).
  assert (∃ r, f = Some r ∧ match op_next s (ORange pts) x with
    | Some y => ∃ st', r = SNext st' ∧ represents st' (pc + zlen (range_code pts)) y stk S ∧ state_ok y
    | None => ∃ st' pc', r = SNoMatch st' ∧ represents st' pc' x stk S end) as (r & -> & Hm).
  2: { eapply implements_intro; [|exact Hm]. intros h. by rewrite He. }
  cbn [op_next]. unfold step_char, folded.
  destruct (next_char_at _ _ _ _ _ Hr Hok) as [[Hlt ->]|(c & q & Hlt & -> & Hg & Hc & Hq)].
  - destruct Hend as (pc' & ->); [unfold at_end; rewrite (rp_cptr _ _ _ _ _ Hr); lia|].
    eexists. split; [reflexivity|]. eexists _, _. split; [reflexivity|]. by eapply represents_pc.
  - destruct (exec_fold_total c Hc) as (d & Hd & Hdr).
    destruct (Hf d q) as (pc' & ->); [|unfold UINT32_MAX; lia|].
    { split; [rewrite (rp_cptr _ _ _ _ _ Hr); done|]. eauto. }
    eexists. split; [reflexivity|]. rewrite Hd. destruct (cr_mem pts d).
    + eexists. split; [reflexivity|]. split; [|done]. rewrite Hpc. eapply (represents_cptr _ _ _ _ _ _ _ Hr).
    + eexists _, _. split; [reflexivity|]. by eapply represents_pc.
Qed.

(** ** Back references *)
Lemma exec_back_ref_spec n fuel a b p :
  0 <= a → b <= cbuf_end → b - a <= Z.of_nat n → (n < fuel)%nat → 0 <= p <= cbuf_end → aligned s p →
  exec_back_ref s fuel a b p = Some (same_text s (next_at s) (text s n a b) p) ∧
  match same_text s (next_at s) (text s n a b) p with Some q => 0 <= q <= cbuf_end ∧ aligned s q | None => True end.
Proof.
  revert fuel a p. induction n as [|n IH]; intros fuel a p Ha Hb Hn Hf Hp Hal;
    (destruct fuel as [|fuel]; [lia|]); cbn [exec_back_ref text]; (destruct (Z.ltb_spec a b) as [Hlt|Hge];
      [|split; [done|by cbn [same_text]]]); [lia|].
  rewrite Z.geb_leb.
  destruct (GET_CHAR_cases s a b) as [(c1 & d1 & Hpair & E)|(c1 & Hc1 & Hno & E)]; [lia|lia|..]; rewrite E;
    [set (c := from_surrogate c1 d1)|set (c := c1)];
    (assert (0 <= c <= 0x10ffff) as Hc;
      [first [destruct Hpair as (_ & _ & _ & _ & H1 & H2); pose proof (from_surrogate_range c1 d1 H1 H2); lia
             |pose proof (subject_unit s _ _ (cx_subject Hcx) Hc1); lia]|]);
    destruct (exec_fold_total c Hc) as (e & He & _); cbn [same_text];
    (destruct (next_at_cases s p (cx_subject Hcx)) as [[Hpe ->]|(c2 & q & -> & Eg & Hc2 & Hq & Haq)]; [lia|..];
     [by destruct (Z.leb_spec cbuf_end p); [|lia]|]);
    (destruct (Z.leb_spec cbuf_end p); [lia|]); destruct (exec_fold_total c2 Hc2) as (e2 & He2 & _);
    cbn [mbind option_bind]; rewrite Eg; cbn [mbind option_bind]; rewrite He, He2; cbn [mbind option_bind];
    (destruct (Z.eqb_spec e e2) as [->|Hne];
      [rewrite bool_decide_true by done; cbn [negb]; apply IH; lia || done
      |rewrite bool_decide_false by congruence; done]).
Qed.
Lemma exec_backward_back_ref_spec n fuel a b p :
  0 <= a → b <= cbuf_end → b - a <= Z.of_nat n → (n < fuel)%nat → 0 <= p <= cbuf_end → aligned s p →
  exec_backward_back_ref s fuel b a p = Some (same_text s (prev_at s) (text_back s n a b) p) ∧
  match same_text s (prev_at s) (text_back s n a b) p with Some q => 0 <= q <= cbuf_end ∧ aligned s q | None => True end.
Proof.
  revert fuel b p. induction n as [|n IH]; intros fuel b p Ha Hb Hn Hf Hp Hal;
    (destruct fuel as [|fuel]; [lia|]); cbn [exec_backward_back_ref text_back]; rewrite Z.gtb_ltb;
    (destruct (Z.ltb_spec a b) as [Hlt|Hge]; [|split; [done|by cbn [same_text]]]); [lia|].
  destruct (GET_PREV_CHAR_cases s b a) as [(c1 & d1 & Hpair & Hle & E)|(c1 & Hc1 & Hno & E)]; [lia|lia|..]; rewrite E;
    [set (c := from_surrogate c1 d1)|set (c := c1)];
    (assert (0 <= c <= 0x10ffff) as Hc;
      [first [destruct Hpair as (_ & _ & _ & _ & H1 & H2); pose proof (from_surrogate_range c1 d1 H1 H2); lia
             |pose proof (subject_unit s _ _ (cx_subject Hcx) Hc1); lia]|]);
    destruct (exec_fold_total c Hc) as (e & He & _); cbn [same_text];
    (destruct (prev_at_cases s p (cx_subject Hcx)) as [[-> ->]|(c2 & q & -> & Eg & Hc2 & Hq & Haq)]; [lia|done|..]);
    (destruct (Z.eqb_spec p 0); [lia|]); destruct (exec_fold_total c2 Hc2) as (e2 & He2 & _);
    cbn [mbind option_bind]; rewrite Eg; cbn [mbind option_bind]; rewrite He, He2; cbn [mbind option_bind];
    (destruct (Z.eqb_spec e e2) as [->|Hne];
      [rewrite bool_decide_true by done; cbn [negb]; apply IH; lia || done
      |rewrite bool_decide_false by congruence; done]).
Qed.
Lemma get_cap_eq x i : state_ok x → 0 <= i < 2 * captures → (m_caps x).[i] = Some (get_cap i (m_caps x)).
Proof.
  intros Hok Hi. unfold get_cap. destruct (aget_is_Some (m_caps x) i) as [c ->]; [rewrite (ok_caps _ Hok); lia|done].
Qed.
Lemma exec_op_back_ref backward k st pc x stk S :
  op_wf captures (OBackRef backward k) → code_at (s_bc s) pc (op_code (OBackRef backward k)) →
  represents st pc x stk S → state_ok x → implements (OBackRef backward k) st pc x stk S.
Proof.
  intros Hk Hcode Hr Hok. cbn [op_wf op_code] in *. pose proof (ok_pos _ Hok) as Hp.
  pose proof (represents_pc _ _ (pc + 1) _ _ _ Hr) as Hr1. pose proof (represents_pc _ _ (pc + 2) _ _ _ Hr) as Hr2.
  assert (∃ r, exec_back_reference s (with_pc st (pc + 1)) (REOP_back_reference + b2z backward) = Some r ∧
    match back_ref s backward k x with
    | Some y => ∃ st', r = SNext st' ∧ represents st' (pc + 2) y stk S ∧ state_ok y
    | None => ∃ st' pc', r = SNoMatch st' ∧ represents st' pc' x stk S end) as (r & Er & Hm).
  2: { eapply implements_intro; [|exact Hm]. eapply exec_at_lift; [apply Hr|exact Hcode|by destruct backward|exact Er]. }
  unfold exec_back_reference, back_ref. rewrite (rp_pc _ _ _ _ _ Hr1).
  apply code_at_cons in Hcode as [_ [Hk1 _]%code_at_cons]. rewrite Hk1. cbn [mbind option_bind].
  replace (pc + 1 + 1) with (pc + 2) by lia. change (with_pc (with_pc st (pc + 1)) (pc + 2)) with (with_pc st (pc + 2)).
  rewrite Z.geb_leb. destruct (Z.leb_spec captures k) as [Hge|Hlt].
  { eexists. split; [reflexivity|]. eauto. }
  rewrite (rp_capture _ _ _ _ _ Hr2), (get_cap_eq x (2 * k)), (get_cap_eq x (2 * k + 1)) by (done || lia). cbn [mbind option_bind].
  destruct (get_cap (2 * k) (m_caps x)) as [a|] eqn:Ea; [|eexists; split; [reflexivity|]; eauto].
  destruct (get_cap (2 * k + 1) (m_caps x)) as [b|] eqn:Eb; [|eexists; split; [reflexivity|]; eauto].
  assert (0 <= a <= cbuf_end) as Ha by (eapply (ok_cap _ Hok (2 * k)); rewrite get_cap_eq by (done || lia); by rewrite Ea).
  assert (0 <= b <= cbuf_end) as Hb by (eapply (ok_cap _ Hok (2 * k + 1)); rewrite get_cap_eq by (done || lia); by rewrite Eb).
  rewrite (rp_cptr _ _ _ _ _ Hr2). unfold s_cbuf_end, zlen in Hb, Ha.
  pose proof (exec_back_ref_spec (length cbuf) (Datatypes.S (length cbuf)) a b (m_pos x)) as Hfwd.
  pose proof (exec_backward_back_ref_spec (length cbuf) (Datatypes.S (length cbuf)) a b (m_pos x)) as Hbwd.
  destruct Hfwd as [Ef Hof]; [unfold s_cbuf_end, zlen; lia..|done|apply Hok|].
  destruct Hbwd as [Eb' Hob]; [unfold s_cbuf_end, zlen; lia..|done|apply Hok|].
  assert (∀ o : option Z, match o with Some q => 0 <= q <= cbuf_end ∧ aligned s q | None => True end →
    ∃ r, Some (match o with None => SNoMatch (with_pc st (pc + 2)) | Some q => SNext (with_cptr (with_pc st (pc + 2)) q) end)
         = Some r ∧
      match match o with Some q => Some (mkM q (m_caps x)) | None => None end with
      | Some y => ∃ st', r = SNext st' ∧ represents st' (pc + 2) y stk S ∧ state_ok y
      | None => ∃ st' pc', r = SNoMatch st' ∧ represents st' pc' x stk S end) as Hfin.
  { intros [q|] Hq; (eexists; split; [reflexivity|]); [|by eauto].
    eexists. split; [reflexivity|]. split; [by eapply represents_cptr|].
    by apply state_ok_move; [|apply Hq..]. }
  destruct backward; cbn [b2z].
  - change (REOP_back_reference + 1 =? REOP_back_reference) with false. rewrite Eb'. by apply Hfin.
  - change (REOP_back_reference + 0 =? REOP_back_reference) with true. rewrite Ef. by apply Hfin.
Qed.

(** Every instruction. *)
Lemma exec_op o st pc x stk S :
  op_wf captures o → code_at (s_bc s) pc (op_code o) → represents st pc x stk S → state_ok x →
  implements o st pc x stk S.
Proof.
  intros Hwf Hcode Hr Hok. destruct o.
  - apply (exec_op_char _ c); auto.
  - apply (exec_op_char _ c); auto.
  - eapply exec_op_any; eauto.
  - eapply exec_op_any; eauto.
  - by apply exec_op_range.
  - apply exec_op_line; auto.
  - apply exec_op_line; auto.
  - by apply exec_op_word.
  - by apply exec_op_prev.
  - apply (exec_op_save _ (2 * k) k); auto.
  - apply (exec_op_save _ (2 * k + 1) k); auto.
  - by apply exec_op_reset.
  - by apply exec_op_back_ref.
Qed.
End Ops.
