(* ===== verification/ReSim.v ===== *)
(** * The executor implements the backtracking semantics

    Compiled code run by [lre_exec_backtrack] explores the outcomes of its
    construct in the order of [ev]: it reaches its end in the state of the
    first outcome, with choice points from which the remaining outcomes
    follow, and below them the choice points it was started with. *)
From S2P Require Import Prelude Alloc Cutils CharRange CaseConv Reliable ReOpcodes ReExec ReCode ReRange.
From S2P Require Import ReSyntax ReSem ReSubject ReOps.

Section Simulation.
Context `{!Allocator, !Reliable}.
Context (s : REExecContext) (Hcx : context_ok s).
Local Notation bc := (s_bc s).
Local Notation captures := (s_capture_count s).
Local Notation stack_max := (s_stack_size_max s).
Local Notation state_ok := (state_ok s).
Local Notation represents := (represents s).

(** ** Runs of the executor *)

(** the code at the labels [no_match] and [recurse] *)
Definition exec_resume (fuel : nat) (no_recurse ret : bool) (st : exec_state) : M (exec_result * exec_state) :=
  r ← lift (exec_recurse s (es_states st) st ret);
  match r with
  | inl (ret, st) => mret (if ret : bool then RMatch (es_cptr st) else RFail, st)
  | inr st => lre_exec_backtrack s fuel st no_recurse
  end.
Lemma exec_step_match st h : exec_step s st REOP_match h = None.
Proof. reflexivity. Qed.
Lemma exec_step_quant st h : exec_step s st REOP_simple_greedy_quant h = None.
Proof. reflexivity. Qed.
Lemma exec_at_other st h r :
  exec_at s st h = Some r →
  ∃ c, bc.[es_pc st] = Some c ∧ exec_step s (with_pc st (es_pc st + 1)) c h = Some r ∧
    (c =? REOP_match) = false ∧ (c =? REOP_simple_greedy_quant) = false.
Proof.
  unfold exec_at. destruct (bc.[es_pc st]) as [c|]; [|done]. rewrite bind_lift. intros E. exists c.
  split; [done|]. split; [done|].
  destruct (Z.eqb_spec c REOP_match) as [->|]; [by rewrite exec_step_match in E|].
  destruct (Z.eqb_spec c REOP_simple_greedy_quant) as [->|]; [by rewrite exec_step_quant in E|done].
Qed.
Lemma backtrack_next fuel st st' nr h h' :
  exec_at s st h = Some (SNext st', h') →
  lre_exec_backtrack s (S fuel) st nr h = lre_exec_backtrack s fuel st' nr h'.
Proof.
  intros (c & Hc & E & E1 & E2)%exec_at_other. cbn [lre_exec_backtrack]. rewrite Hc, bind_lift, E1, E2.
  by rewrite (bind_M_eq _ _ _ _ _ E).
Qed.
Lemma backtrack_no_match fuel st st' nr h h' :
  exec_at s st h = Some (SNoMatch st', h') →
  lre_exec_backtrack s (S fuel) st nr h =
    if nr : bool then Some ((RFail, st'), h') else exec_resume fuel nr false st' h'.
Proof.
  intros (c & Hc & E & E1 & E2)%exec_at_other. cbn [lre_exec_backtrack]. rewrite Hc, bind_lift, E1, E2.
  rewrite (bind_M_eq _ _ _ _ _ E). by destruct nr.
Qed.
Lemma backtrack_match fuel st pc l nr h :
  code_at bc pc (REOP_match :: l) → es_pc st = pc →
  lre_exec_backtrack s (S fuel) st nr h =
    if nr : bool then Some ((RMatch (es_cptr st), with_pc st (pc + 1)), h)
    else exec_resume fuel nr true (with_pc st (pc + 1)) h.
Proof. intros [Hc _]%code_at_cons <-. cbn [lre_exec_backtrack]. rewrite Hc, bind_lift. by destruct nr. Qed.

Definition result (r : exec_result) (st : exec_state) (res : option (list cap)) : Prop :=
  match res with None => r = RFail | Some caps => (∃ p, r = RMatch p) ∧ es_capture st = caps end.
(** [m] gives the result with enough fuel *)
Definition total_run (m : nat → M (exec_result * exec_state)) (res : option (list cap)) : Prop :=
  ∃ n, ∀ fuel h, (n ≤ fuel)%nat → ∃ r st h', m fuel h = Some ((r, st), h') ∧ result r st res.
Definition runs (st : exec_state) : option (list cap) → Prop :=
  total_run (λ fuel, lre_exec_backtrack s fuel st false).
Definition resumes (ret : bool) (st : exec_state) : option (list cap) → Prop :=
  total_run (λ fuel, exec_resume fuel false ret st).

Lemma total_run_step m m' res :
  (∀ h, ∃ h', ∀ fuel, m (S fuel) h = m' fuel h') → total_run m' res → total_run m res.
Proof.
  intros Hm [n Hn]. exists (S n). intros fuel h Hf. destruct fuel as [|fuel]; [lia|].
  destruct (Hm h) as (h' & ->). apply Hn. lia.
Qed.
Lemma runs_next st st' res :
  (∀ h, ∃ h', exec_at s st h = Some (SNext st', h')) → runs st' res → runs st res.
Proof.
  intros He. apply total_run_step. intros h. destruct (He h) as (h' & E). exists h'. intros fuel.
  by apply backtrack_next.
Qed.
Lemma runs_no_match st st' res :
  (∀ h, ∃ h', exec_at s st h = Some (SNoMatch st', h')) → resumes false st' res → runs st res.
Proof.
  intros He. apply total_run_step. intros h. destruct (He h) as (h' & E). exists h'. intros fuel.
  by rewrite (backtrack_no_match _ _ _ _ _ _ E).
Qed.
Lemma runs_match st pc l res :
  code_at bc pc (REOP_match :: l) → es_pc st = pc → resumes true (with_pc st (pc + 1)) res → runs st res.
Proof.
  intros Hc Hpc. apply total_run_step. intros h. exists h. intros fuel. by rewrite (backtrack_match _ _ _ _ _ _ Hc Hpc).
Qed.

(** ** Configurations: at an instruction, after a failure, after a success *)
Definition arrays (st : exec_state) : Prop := zlen (es_capture st) = 2 * captures ∧ zlen (es_stack st) = stack_max.
Definition runs_at (pc : Z) (x : mstate) (stk : list Z) (S : list REExecState) (res : option (list cap)) : Prop :=
  ∀ st, represents st pc x stk S → runs st res.
Definition runs_fail (S : list REExecState) (res : option (list cap)) : Prop :=
  ∀ st, arrays st → es_states st = S → resumes false st res.
Definition runs_succ (S : list REExecState) (caps : list cap) (res : option (list cap)) : Prop :=
  ∀ st, arrays st → es_states st = S → es_capture st = caps → resumes true st res.

Lemma represents_arrays st pc x stk S : represents st pc x stk S → state_ok x → arrays st.
Proof. intros [] []. split; [congruence|done]. Qed.
Lemma represents_stk st pc x stk S : represents st pc x stk S → zlen stk <= stack_max.
Proof.
  intros []. destruct rp_stack as [tl E]. rewrite <- rp_size, E. unfold zlen.
  rewrite length_app, length_map. lia.
Qed.

(** a choice point *)
Definition saved (type : REExecStateEnum) (count pc : Z) (x : mstate) (stk : list Z) : REExecState :=
  mkRS type count (m_pos x) pc (m_caps x) (map Some stk).
(** the choice points a success discards *)
Definition plain (rs : REExecState) : Prop :=
  rs_type rs = RE_EXEC_STATE_SPLIT ∨ rs_type rs = RE_EXEC_STATE_GREEDY_QUANT.

Lemma restore_saved st type count pc x stk rest keep size :
  arrays st → zlen (m_caps x) = 2 * captures → zlen stk <= stack_max →
  ∃ st', restore_state st (saved type count pc x stk) keep = Some st' ∧ es_pc st' = pc ∧ es_cptr st' = m_pos x ∧
    represents (with_states st' rest size) pc
      (mkM (m_pos x) (if keep : bool then es_capture st else m_caps x)) stk rest.
Proof.
  intros [Hc Hs] Hx Hstk. unfold restore_state, saved. cbn [rs_capture rs_stack rs_pc rs_cptr].
  assert (∃ stack, memcpy_to (es_stack st) (map Some stk) = Some stack ∧
    stack = map Some stk ++ zdrop (zlen stk) (es_stack st) ∧ zlen stack = stack_max) as (stack & E & Es & Hl).
  { unfold memcpy_to. assert (zlen (map Some stk) = zlen stk) as -> by (unfold zlen; by rewrite length_map).
    destruct (Z.leb_spec (zlen stk) (zlen (es_stack st))); [|lia]. eexists. split; [reflexivity|]. split; [done|].
    pose proof (zlen_nonneg stk). rewrite zlen_app, zlen_zdrop by lia. unfold zlen at 1. rewrite length_map.
    unfold zlen in *. lia. }
  assert (∃ capture, (if keep then Some (es_capture st) else memcpy_to (es_capture st) (m_caps x)) = Some capture ∧
    capture = if keep then es_capture st else m_caps x) as (capture & E2 & Ec).
  { destruct keep; [eauto|]. unfold memcpy_to. destruct (Z.leb_spec (zlen (m_caps x)) (zlen (es_capture st))); [|lia].
    eexists. split; [reflexivity|]. unfold zdrop. rewrite drop_ge; [by rewrite app_nil_r|]. unfold zlen in *. lia. }
  rewrite E2. cbn [mbind option_bind]. rewrite E. cbn [mbind option_bind]. eexists. split; [reflexivity|].
  split; [done|]. split; [done|]. split; cbn [es_pc es_cptr es_capture es_states es_stack es_stack_len with_states m_pos m_caps];
    [done..|by exists (zdrop (zlen stk) (es_stack st))|done|]. unfold zlen. by rewrite length_map.
Qed.

(** ** What a failure and a success do with the choice points *)
Lemma resumes_inr ret st st' res :
  exec_recurse s (es_states st) st ret = Some (inr st') → runs st' res → resumes ret st res.
Proof.
  intros E [n Hn]. exists n. intros fuel h Hf. unfold exec_resume. rewrite E, bind_lift. by apply Hn.
Qed.
Lemma resumes_eq ret ret' st st' res :
  exec_recurse s (es_states st) st ret = exec_recurse s (es_states st') st' ret' →
  resumes ret' st' res → resumes ret st res.
Proof. intros E [n Hn]. exists n. intros fuel h Hf. unfold exec_resume in *. rewrite E. by apply Hn. Qed.
Lemma restore_size st rs keep st' : restore_state st rs keep = Some st' → es_state_size st' = es_state_size st.
Proof.
  unfold restore_state. destruct (if keep then _ else _); [|done]. cbn [mbind option_bind].
  destruct (memcpy_to _ _); [|done]. by intros [= <-].
Qed.
Lemma exec_recurse_states states st S ret :
  exec_recurse s states (with_states st S (es_state_size st)) ret = exec_recurse s states st ret.
Proof.
  induction states as [|rs rest IH] in ret |- *; [done|]. cbn [exec_recurse]. unfold resume_greedy.
  assert (∀ keep, restore_state (with_states st S (es_state_size st)) rs keep =
    (st' ← restore_state st rs keep; Some (with_states st' S (es_state_size st)))) as Hr.
  { intros keep. unfold restore_state. cbn [es_capture with_states es_stack].
    destruct (if keep then _ else _); [|done]. cbn [mbind option_bind]. by destruct (memcpy_to _ _). }
  rewrite !Hr, !IH.
  destruct (rs_type rs), ret; cbn [negb]; try done;
    (destruct (restore_state st rs _) as [st'|] eqn:Est; [|done]); apply restore_size in Est;
    cbn [mbind option_bind]; unfold with_states; cbn; rewrite ?Est; try done.
Qed.
Lemma fail_restore type count pc x stk S res :
  (type = RE_EXEC_STATE_SPLIT ∨ type = RE_EXEC_STATE_NEGATIVE_LOOKAHEAD) →
  state_ok x → zlen stk <= stack_max → runs_at pc x stk S res → runs_fail (saved type count pc x stk :: S) res.
Proof.
  intros Ht Hok Hstk Hrun st Ha Hst.
  destruct (restore_saved st type count pc x stk S false (es_state_size st) Ha (ok_caps _ _ Hok) Hstk) as (st' & E & _ & _ & Hr).
  apply (resumes_inr _ _ (with_states st' S (es_state_size st))).
  - rewrite Hst. cbn [exec_recurse]. rewrite <- (restore_size _ _ _ _ E).
    destruct Ht as [->| ->]; cbn [rs_type saved negb]; fold (saved RE_EXEC_STATE_SPLIT count pc x stk);
      fold (saved RE_EXEC_STATE_NEGATIVE_LOOKAHEAD count pc x stk); rewrite E; done.
  - apply Hrun. by destruct x.
Qed.
Lemma fail_look count pc x stk S res :
  runs_fail S res → runs_fail (saved RE_EXEC_STATE_LOOKAHEAD count pc x stk :: S) res.
Proof.
  intros Hrun st Ha Hst. apply (resumes_eq _ false _ (with_states st S (es_state_size st))).
  - rewrite Hst. cbn [exec_recurse es_states with_states]. by rewrite exec_recurse_states.
  - by apply Hrun.
Qed.
Lemma succ_plain E S caps res : Forall plain E → runs_succ S caps res → runs_succ (E ++ S) caps res.
Proof.
  intros HE. induction HE as [|rs E Hrs HE IH]; [done|]. intros Hrun st Ha Hst Hcap.
  apply (resumes_eq _ true _ (with_states st (E ++ S) (es_state_size st))).
  - rewrite Hst. cbn [app exec_recurse es_states with_states]. rewrite exec_recurse_states. by destruct Hrs as [->| ->].
  - by apply IH.
Qed.
Lemma succ_look count pc x stk S caps res :
  state_ok x → zlen stk <= stack_max → runs_at pc (mkM (m_pos x) caps) stk S res →
  runs_succ (saved RE_EXEC_STATE_LOOKAHEAD count pc x stk :: S) caps res.
Proof.
  intros Hok Hstk Hrun st Ha Hst <-.
  destruct (restore_saved st RE_EXEC_STATE_LOOKAHEAD count pc x stk S true (es_state_size st) Ha (ok_caps _ _ Hok) Hstk)
    as (st' & E & _ & _ & Hr).
  apply (resumes_inr _ _ (with_states st' S (es_state_size st))); [|by apply Hrun].
  rewrite Hst. cbn [exec_recurse]. rewrite <- (restore_size _ _ _ _ E).
  cbn [rs_type saved]. fold (saved RE_EXEC_STATE_LOOKAHEAD count pc x stk). by rewrite E.
Qed.
Lemma succ_neg count pc x stk S caps res :
  runs_fail S res → runs_succ (saved RE_EXEC_STATE_NEGATIVE_LOOKAHEAD count pc x stk :: S) caps res.
Proof.
  intros Hrun st Ha Hst _. apply (resumes_eq _ false _ (with_states st S (es_state_size st))).
  - rewrite Hst. cbn [exec_recurse es_states with_states]. by rewrite exec_recurse_states.
  - by apply Hrun.
Qed.
Lemma succ_nil caps : runs_succ [] caps (Some caps).
Proof.
  intros st Ha Hst Hc. exists 0%nat. intros fuel h _. unfold exec_resume. rewrite Hst. cbn [exec_recurse].
  rewrite bind_lift. eexists _, _, _. split; [reflexivity|]. split; [by eexists|done].
Qed.
Lemma fail_nil : runs_fail [] None.
Proof.
  intros st Ha Hst. exists 0%nat. intros fuel h _. unfold exec_resume. rewrite Hst. cbn [exec_recurse].
  rewrite bind_lift. eexists _, _, _. by split.
Qed.

(** ** Outcomes

    [outcomes pc stk S l P]: the configuration [P] - the set of results it
    leads to - continues at [pc] from the states [l] in turn, each with
    choice points above [S] that lead to the next one, the last with choice
    points that lead to the failure of [S]. *)
Definition extends (S' S : list REExecState) : Prop := ∃ E, S' = E ++ S ∧ Forall plain E.
Fixpoint outcomes (pc : Z) (stk : list Z) (S : list REExecState) (l : list mstate) (P : option (list cap) → Prop) : Prop :=
  match l with
  | [] => ∀ res, runs_fail S res → P res
  | y :: l => ∃ S', extends S' S ∧ (∀ res, runs_at pc y stk S' res → P res) ∧ outcomes pc stk S l (runs_fail S')
  end.

Lemma extends_refl S : extends S S.
Proof. by exists []. Qed.
Lemma extends_cons rs S : plain rs → extends (rs :: S) S.
Proof. intros Hp. exists [rs]. split; [done|]. by constructor; [|constructor]. Qed.
Lemma extends_trans S1 S2 S3 : extends S1 S2 → extends S2 S3 → extends S1 S3.
Proof. intros (E1 & -> & H1) (E2 & -> & H2). exists (E1 ++ E2). split; [by rewrite app_assoc|by apply Forall_app]. Qed.
Lemma outcomes_mono pc stk S l (P Q : option (list cap) → Prop) :
  (∀ res, P res → Q res) → outcomes pc stk S l P → outcomes pc stk S l Q.
Proof.
  intros HPQ. destruct l as [|y l]; cbn [outcomes]; [intros HP res Hf; by apply HPQ, HP|].
  intros (S' & He & HP & Hl). exists S'. split; [done|]. split; [|done]. intros res Hr. by apply HPQ, HP.
Qed.
(** one outcome after another *)
Lemma outcomes_app pc stk S S' l k P :
  extends S' S → outcomes pc stk S' l P → outcomes pc stk S k (runs_fail S') → outcomes pc stk S (l ++ k) P.
Proof.
  intros He Hl Hk. revert P Hl. induction l as [|y l IH]; intros P Hl; cbn [app outcomes] in *.
  - by apply (outcomes_mono _ _ _ _ (runs_fail S')).
  - destruct Hl as (S1 & He1 & HP & Hl). exists S1. split; [by eapply extends_trans|]. split; [done|]. by apply IH.
Qed.
Lemma outcomes_one pc stk S y (P : option (list cap) → Prop) :
  (∀ res, runs_at pc y stk S res → P res) → outcomes pc stk S [y] P.
Proof. intros HP. exists S. split; [apply extends_refl|]. by split; [|cbn]. Qed.
(** each outcome continues with outcomes of its own *)
Lemma outcomes_bind pc1 stk1 pc2 stk2 S l ls P :
  outcomes pc1 stk1 S l P →
  Forall2 (λ y ly, ∀ S', extends S' S → outcomes pc2 stk2 S' ly (runs_at pc1 y stk1 S')) l ls →
  outcomes pc2 stk2 S (concat ls) P.
Proof.
  intros Hl Hf. revert P Hl. induction Hf as [|y ly l ls Hy Hf IH]; intros P Hl; [done|]. cbn [outcomes concat] in *.
  destruct Hl as (S' & He & HP & Hl). apply (outcomes_app _ _ _ S'); [done| |by apply IH].
  eapply outcomes_mono; [exact HP|]. by apply Hy.
Qed.
(** the states that pass a test go on *)
Lemma outcomes_filter pc1 stk1 pc2 stk2 S l (f : mstate → Prop) `{!∀ y, Decision (f y)} P :
  outcomes pc1 stk1 S l P → Forall state_ok l →
  (∀ y S' res, state_ok y → f y → runs_at pc2 y stk2 S' res → runs_at pc1 y stk1 S' res) →
  (∀ y S' res, state_ok y → ¬ f y → runs_fail S' res → runs_at pc1 y stk1 S' res) →
  outcomes pc2 stk2 S (filter f l) P.
Proof.
  intros Hl Hok Hgo Hstop.
  assert (filter f l = concat (map (λ y, if decide (f y) then [y] else []) l)) as ->.
  { clear. induction l as [|y l IH]; [done|]. rewrite filter_cons. cbn [map concat]. rewrite <- IH. by destruct (decide (f y)). }
  apply (outcomes_bind pc1 stk1 pc2 stk2 S l); [done|]. clear Hl.
  induction Hok as [|y l Hy Hok IH]; cbn [map]; constructor; [|done].
  intros S' _. destruct (decide (f y)) as [Hf|Hf].
  - apply outcomes_one. intros res. by apply Hgo.
  - intros res. by apply Hstop.
Qed.
Lemma outcomes_map pc1 stk1 pc2 stk2 S l P :
  outcomes pc1 stk1 S l P → Forall state_ok l →
  (∀ y S' res, state_ok y → runs_at pc2 y stk2 S' res → runs_at pc1 y stk1 S' res) → outcomes pc2 stk2 S l P.
Proof.
  intros Hl Hok Hgo. assert (l = filter (λ _, True) l) as ->.
  { clear. induction l as [|y l IH]; [done|]. rewrite filter_cons_True by done. by f_equal. }
  eapply outcomes_filter; [done..|naive_solver|done].
Qed.

(** ** Control instructions *)
Lemma i32_u32 v : - 2 ^ 31 <= v < 2 ^ 31 → i32 (u32 v) = v.
Proof. intros Hv. unfold i32, u32. Z.div_mod_to_equations. lia. Qed.
Lemma jump_at pc o v l : code_at bc pc (jump o v ++ l) → bc.[pc] = Some o ∧ get_u32 bc (pc + 1) = Some (u32 v).
Proof. intros [Ho Hv]%code_at_cons. split; [done|]. by eapply code_at_u32. Qed.
Lemma code_at_small pc l : code_at bc pc l → 0 <= pc ∧ zlen l < 2 ^ 31.
Proof. intros Hc%code_at_nonneg. pose proof (cx_code _ Hcx). lia. Qed.

(** a new choice point *)
Lemma push_state_saved st p x stk S pc cptr type count :
  represents st p x stk S → state_ok x → ∃ size, ∀ h, ∃ h',
  push_state s st pc cptr type count h =
    Some ((0, with_states st (saved type count pc (mkM cptr (m_caps x)) stk :: S) size), h').
Proof.
  intros Hr Hok. pose proof (represents_stk _ _ _ _ _ Hr) as Hstk. destruct Hr as [Hpc Hcp Hca Hst [tl Etl] Hsz Hlen].
  unfold push_state. set (new_size := max_int (es_state_size st * 3 / 2) 8).
  exists (if zlen (es_states st) + 1 >? es_state_size st then new_size else es_state_size st). intros h.
  assert (∃ h', (if zlen (es_states st) + 1 >? es_state_size st then
       ok ← realloc (new_size * s_state_size s);
       mret (if ok : bool then (0, new_size) else (-1, es_state_size st))
     else mret (0, es_state_size st)) h =
     Some ((0, if zlen (es_states st) + 1 >? es_state_size st then new_size else es_state_size st), h')) as (h' & E).
  { destruct (_ >? _); [|by eexists _]. rewrite bind_realloc, reliable. by eexists _. }
  exists h'. rewrite (bind_M_eq _ _ _ _ _ E). cbn [Z.ltb Z.compare].
  assert (massert ((2 * captures <=? zlen (es_capture st)) && (0 <=? es_stack_len st) &&
    (es_stack_len st <=? zlen (es_stack st))) h' = Some (tt, h')) as Ea.
  { unfold massert. replace (_ && _) with true; [done|]. symmetry. pose proof (ok_caps _ _ Hok). rewrite Hca, Hlen, Hsz.
    pose proof (zlen_nonneg stk). bool_lia. }
  rewrite (bind_M_eq _ _ _ _ _ Ea). unfold saved. cbn [m_pos m_caps]. rewrite Hst, Hca, Hlen, Etl.
  pose proof (ok_caps _ _ Hok) as Hl. unfold ztake at 1. rewrite take_ge by (unfold zlen in Hl; lia).
  assert (zlen stk = zlen (map Some stk)) as -> by (unfold zlen; by rewrite length_map). by rewrite ztake_app.
Qed.
Lemma represents_with_states st p x stk S S' size :
  represents st p x stk S → represents (with_states st S' size) p x stk S'.
Proof. intros []. by split. Qed.

(** both kinds of split: [first] runs with a choice point for [second] *)
Lemma exec_split_at pc greedy v l x stk S res :
  - 2 ^ 31 <= v < 2 ^ 31 → code_at bc pc (jump (split_op greedy) v ++ l) → state_ok x →
  runs_at (if greedy then pc + 5 else pc + 5 + v) x stk
    (saved RE_EXEC_STATE_SPLIT 0 (if greedy then pc + 5 + v else pc + 5) x stk :: S) res →
  runs_at pc x stk S res.
Proof.
  intros Hv [Hop Hval]%jump_at Hok Hrun st Hr.
  set (first := if greedy then pc + 5 else pc + 5 + v) in *. set (second := if greedy then pc + 5 + v else pc + 5) in *.
  pose proof (represents_pc _ _ _ first _ _ _ Hr) as Hr1.
  destruct (push_state_saved _ _ _ _ _ second (m_pos x) RE_EXEC_STATE_SPLIT 0 Hr1 Hok) as (size & Hp).
  eapply runs_next; [|apply Hrun; eapply represents_with_states; exact Hr1]. intros h. destruct (Hp h) as (h' & E).
  exists h'. unfold exec_at. rewrite (rp_pc _ _ _ _ _ _ Hr), Hop, bind_lift.
  assert (exec_step s (with_pc st (pc + 1)) (split_op greedy) = exec_split s (with_pc st (pc + 1)) (split_op greedy)) as ->
    by (by destruct greedy).
  unfold exec_split. cbn [es_pc with_pc]. rewrite Hval, bind_lift. rewrite i32_u32 by done.
  assert ((if split_op greedy =? REOP_split_next_first then (pc + 1 + 4, pc + 1 + 4 + v) else (pc + 1 + 4 + v, pc + 1 + 4)) =
    (first, second)) as ->.
  { subst first second. replace (pc + 1 + 4) with (pc + 5) by lia. by destruct greedy. }
  change (with_pc (with_pc st (pc + 1)) first) with (with_pc st first). change (es_cptr (with_pc st (pc + 1))) with (es_cptr st).
  rewrite (rp_cptr _ _ _ _ _ _ Hr). rewrite (bind_M_eq _ _ _ _ _ E). cbn [Z.ltb Z.compare]. by destruct x.
Qed.
Lemma exec_look_at pc neg v l x stk S res :
  0 <= v < 2 ^ 31 → code_at bc pc (jump (REOP_lookahead + b2z neg) v ++ l) → state_ok x →
  runs_at (pc + 5) x stk
    (saved (if neg then RE_EXEC_STATE_NEGATIVE_LOOKAHEAD else RE_EXEC_STATE_LOOKAHEAD) 0 (pc + 5 + v) x stk :: S) res →
  runs_at pc x stk S res.
Proof.
  intros Hv [Hop Hval]%jump_at Hok Hrun st Hr.
  pose proof (represents_pc _ _ _ (pc + 5) _ _ _ Hr) as Hr1.
  destruct (push_state_saved _ _ _ _ _ (pc + 5 + v) (m_pos x)
    (if neg then RE_EXEC_STATE_NEGATIVE_LOOKAHEAD else RE_EXEC_STATE_LOOKAHEAD) 0 Hr1 Hok) as (size & Hp).
  eapply runs_next; [|apply Hrun; eapply represents_with_states; exact Hr1]. intros h. destruct (Hp h) as (h' & E).
  exists h'. unfold exec_at. rewrite (rp_pc _ _ _ _ _ _ Hr), Hop, bind_lift.
  assert (exec_step s (with_pc st (pc + 1)) (REOP_lookahead + b2z neg) =
    exec_lookahead s (with_pc st (pc + 1)) (REOP_lookahead + b2z neg)) as -> by (by destruct neg).
  unfold exec_lookahead. cbn [es_pc with_pc]. rewrite Hval, bind_lift. rewrite i32_u32 by lia.
  replace (pc + 1 + 4) with (pc + 5) by lia.
  assert ((if REOP_lookahead + b2z neg =? REOP_lookahead then RE_EXEC_STATE_LOOKAHEAD else RE_EXEC_STATE_NEGATIVE_LOOKAHEAD) =
    if neg then RE_EXEC_STATE_NEGATIVE_LOOKAHEAD else RE_EXEC_STATE_LOOKAHEAD) as -> by (by destruct neg).
  change (with_pc (with_pc st (pc + 1)) (pc + 5)) with (with_pc st (pc + 5)).
  change (es_cptr (with_pc st (pc + 1))) with (es_cptr st).
  rewrite (rp_cptr _ _ _ _ _ _ Hr). rewrite (bind_M_eq _ _ _ _ _ E). cbn [Z.ltb Z.compare]. by destruct x.
Qed.
(** the instructions that do not allocate *)
Lemma runs_lift pc c l x stk S f res :
  code_at bc pc (c :: l) →
  (∀ st, represents st pc x stk S →
     exec_step s (with_pc st (pc + 1)) c = lift (f st) ∧
     ∃ st', f st = Some (SNext st') ∧ runs st' res ∨ f st = Some (SNoMatch st') ∧ resumes false st' res) →
  runs_at pc x stk S res.
Proof.
  intros [Hc _]%code_at_cons Hf st Hr. destruct (Hf st Hr) as (Es & st' & [[E Hrun]|[E Hrun]]).
  - eapply runs_next; [|exact Hrun]. intros h. exists h. unfold exec_at. by rewrite (rp_pc _ _ _ _ _ _ Hr), Hc, bind_lift, Es, E.
  - eapply runs_no_match; [|exact Hrun]. intros h. exists h. unfold exec_at. by rewrite (rp_pc _ _ _ _ _ _ Hr), Hc, bind_lift, Es, E.
Qed.
Lemma exec_goto_at pc v l x stk S res :
  - 2 ^ 31 <= v < 2 ^ 31 → code_at bc pc (jump REOP_goto v ++ l) → runs_at (pc + 5 + v) x stk S res → runs_at pc x stk S res.
Proof.
  intros Hv Hcode Hrun. pose proof Hcode as [_ Hval]%jump_at.
  eapply (runs_lift _ _ _ _ _ _ (λ st, exec_goto s (with_pc st (pc + 1)))); [exact Hcode|]. intros st Hr. split; [done|].
  eexists. left. unfold exec_goto. cbn [es_pc with_pc]. rewrite Hval. cbn [mbind option_bind]. rewrite i32_u32 by done.
  replace (pc + 1 + 4 + v) with (pc + 5 + v) by lia. split; [reflexivity|]. apply Hrun. by eapply represents_pc, represents_pc.
Qed.
Lemma stack_push_at st p x stk S v :
  represents st p x stk S → zlen stk < stack_max →
  ∃ st', stack_push st v = Some st' ∧ represents st' p x (stk ++ [v]) S.
Proof.
  intros [Hpc Hcp Hca Hst [tl Etl] Hsz Hlen] Hlt. unfold stack_push.
  assert (zlen stk = zlen (map Some stk)) as El by (unfold zlen; by rewrite length_map).
  assert (∃ t tl', tl = t :: tl') as (t & tl' & ->).
  { destruct tl as [|t tl]; [|by eauto]. rewrite Etl, app_nil_r, <- El in Hsz. lia. }
  rewrite Etl, Hlen, El, aset_app_at. cbn [mbind option_bind]. eexists. split; [reflexivity|].
  split; cbn [es_pc es_cptr es_capture es_states es_stack es_stack_len with_stack]; [done..| | |].
  - exists tl'. by rewrite map_app, <- app_assoc.
  - rewrite <- Hsz, Etl. unfold zlen. rewrite !length_app. done.
  - unfold zlen in *. rewrite length_app, length_map in *. cbn. lia.
Qed.
Lemma exec_push_at pc v l x stk S res :
  0 <= v < 2 ^ 32 → code_at bc pc (jump REOP_push_i32 v ++ l) → zlen stk < stack_max →
  runs_at (pc + 5) x (stk ++ [v]) S res → runs_at pc x stk S res.
Proof.
  intros Hv Hcode Hlt Hrun. pose proof Hcode as [_ Hval]%jump_at.
  eapply (runs_lift _ _ _ _ _ _ (λ st, exec_push_i32 s (with_pc st (pc + 1)))); [exact Hcode|]. intros st Hr. split; [done|].
  unfold exec_push_i32. cbn [es_pc with_pc]. rewrite Hval. cbn [mbind option_bind]. rewrite u32_small by done.
  destruct (stack_push_at (with_pc st (pc + 5)) (pc + 5) x stk S v) as (st' & E & Hr'); [by eapply represents_pc|done|].
  exists st'. left. change (with_pc (with_pc st (pc + 1)) (pc + 1 + 4)) with (with_pc st (pc + 1 + 4)).
  replace (pc + 1 + 4) with (pc + 5) by lia. rewrite E. split; [done|]. by apply Hrun.
Qed.
Lemma exec_push_pos_at pc l x stk S res :
  code_at bc pc (REOP_push_char_pos :: l) → zlen stk < stack_max →
  runs_at (pc + 1) x (stk ++ [m_pos x]) S res → runs_at pc x stk S res.
Proof.
  intros Hcode Hlt Hrun.
  eapply (runs_lift _ _ _ _ _ _ (λ st, exec_push_char_pos (with_pc st (pc + 1)))); [exact Hcode|]. intros st Hr. split; [done|].
  pose proof (represents_pc _ _ _ (pc + 1) _ _ _ Hr) as Hr1. unfold exec_push_char_pos. rewrite (rp_cptr _ _ _ _ _ _ Hr1).
  destruct (stack_push_at _ _ _ _ _ (m_pos x) Hr1 Hlt) as (st' & -> & Hr').
  exists st'. left. split; [done|]. by apply Hrun.
Qed.
(** the top of the stack *)
Lemma represents_top st p x stk v S :
  represents st p x (stk ++ [v]) S →
  es_stack_len st - 1 = zlen stk ∧ (es_stack st).[zlen stk] = Some (Some v) ∧
  represents (with_stack st (es_stack st) (zlen stk)) p x stk S ∧
  (∀ w, ∃ stack, aset (es_stack st) (zlen stk) (Some w) = Some stack ∧
    represents (with_stack st stack (es_stack_len st)) p x (stk ++ [w]) S).
Proof.
  intros [Hpc Hcp Hca Hst [tl Etl] Hsz Hlen]. rewrite map_app, <- app_assoc in Etl. cbn [map app] in Etl.
  assert (zlen stk = zlen (map Some stk)) as El by (unfold zlen; by rewrite length_map).
  split; [rewrite Hlen, zlen_app; unfold zlen; cbn; lia|]. split; [by rewrite Etl, El, aget_app_at|]. split.
  - split; cbn; [done..|by exists (Some v :: tl)|done|done].
  - intros w. exists (map Some stk ++ Some w :: tl). rewrite Etl, El, aset_app_at. split; [done|].
    split; cbn [es_pc es_cptr es_capture es_states es_stack es_stack_len with_stack]; [done..| | |].
    + exists tl. by rewrite map_app, <- app_assoc.
    + rewrite <- Hsz, Etl. unfold zlen. by rewrite !length_app.
    + rewrite Hlen. unfold zlen. by rewrite !length_app.
Qed.
Lemma exec_drop_at pc l x stk v S res :
  code_at bc pc (REOP_drop :: l) → runs_at (pc + 1) x stk S res → runs_at pc x (stk ++ [v]) S res.
Proof.
  intros Hcode Hrun.
  eapply (runs_lift _ _ _ _ _ _ (λ st, exec_drop (with_pc st (pc + 1)))); [exact Hcode|]. intros st Hr. split; [done|].
  destruct (represents_top _ _ _ _ _ _ (represents_pc _ _ _ (pc + 1) _ _ _ Hr)) as (El & _ & Hr' & _).
  eexists. left. unfold exec_drop. rewrite El. split; [reflexivity|]. by apply Hrun.
Qed.
Lemma exec_check_at pc l y stk v S res :
  code_at bc pc (REOP_check_advance :: l) → state_ok y →
  (if decide (m_pos y ≠ v) then runs_at (pc + 1) y stk S res else runs_fail S res) →
  runs_at pc y (stk ++ [v]) S res.
Proof.
  intros Hcode Hok Hrun.
  eapply (runs_lift _ _ _ _ _ _ (λ st, exec_check_advance (with_pc st (pc + 1)))); [exact Hcode|]. intros st Hr. split; [done|].
  pose proof (represents_pc _ _ _ (pc + 1) _ _ _ Hr) as Hr1.
  destruct (represents_top _ _ _ _ _ _ Hr1) as (El & Ev & Hr' & _).
  unfold exec_check_advance. rewrite El, Ev. cbn [mbind option_bind].
  exists (with_stack (with_pc st (pc + 1)) (es_stack (with_pc st (pc + 1))) (zlen stk)).
  rewrite (rp_cptr _ _ _ _ _ _ Hr'). destruct (Z.eqb_spec v (m_pos y)); destruct (decide (m_pos y ≠ v)); try done.
  - right. split; [done|]. apply Hrun; [by eapply represents_arrays|apply Hr'].
  - left. split; [done|]. by apply Hrun.
Qed.
Lemma exec_loop_at pc v l x stk n S res :
  - 2 ^ 31 <= v < 2 ^ 31 → 0 < n < 2 ^ 32 → code_at bc pc (jump REOP_loop v ++ l) →
  runs_at (if n - 1 =? 0 then pc + 5 else pc + 5 + v) x (stk ++ [n - 1]) S res → runs_at pc x (stk ++ [n]) S res.
Proof.
  intros Hv Hn Hcode Hrun. pose proof Hcode as [_ Hval]%jump_at.
  eapply (runs_lift _ _ _ _ _ _ (λ st, exec_loop s (with_pc st (pc + 1)))); [exact Hcode|]. intros st Hr. split; [done|].
  pose proof (represents_pc _ _ _ (pc + 1) _ _ _ Hr) as Hr1.
  destruct (represents_top _ _ _ _ _ _ Hr1) as (El & Ev & _ & Hset).
  unfold exec_loop. rewrite (rp_pc _ _ _ _ _ _ Hr1), Hval. cbn [mbind option_bind]. rewrite El, Ev. cbn [mbind option_bind].
  assert (u64 (n - 1) = n - 1) as -> by (apply Z.mod_small; lia).
  destruct (Hset (n - 1)) as (stack & -> & Hr'). cbn [mbind option_bind]. rewrite i32_u32 by done.
  replace (pc + 1 + 4) with (pc + 5) by lia. eexists. left. split; [reflexivity|]. apply Hrun.
  destruct (n - 1 =? 0); cbn [negb]; by eapply represents_pc.
Qed.
End Simulation.
