(* ===== verification/ReRefine.v ===== *)
(** * Every construct refines its semantics

    The simulation of ReSim.v, construct by construct: the outcomes that [ev]
    lists are those that the executor finds, in that order. *)
From S2P Require Import Prelude Alloc Cutils CharRange CaseConv Reliable ReOpcodes ReExec ReCode ReRange.
From S2P Require Import ReSyntax ReSem ReSubject ReOps ReSim.

Section Refinement.
Context `{!Allocator, !Reliable}.
Context (s : REExecContext) (Hcx : context_ok s).
Local Notation bc := (s_bc s).
Local Notation stack_max := (s_stack_size_max s).
Local Notation state_ok := (state_ok s).
Local Notation represents := (represents s).
Local Notation outcomes := (outcomes s).
Local Notation runs_at := (runs_at s).
Local Notation runs_fail := (runs_fail s).
Local Notation wf := (re_wf (s_capture_count s)).

(** the code of a construct, started in [x], has the outcomes [l] *)
Definition sim_code (r : re) (x : mstate) (l : list mstate) : Prop :=
  ∀ pc stk S, code_at bc pc (code r) → zlen stk + depth r <= stack_max →
  outcomes (pc + zlen (code r)) stk S l (runs_at pc x stk S).

(** ** Instructions *)
Lemma sim_op o x : op_wf (s_capture_count s) o → state_ok x → sim_code (ROp o) x (option_list (op_next s o x)).
Proof.
  intros Hwf Hok pc stk S Hcode _. cbn [code] in *.
  destruct (op_next s o x) as [y|] eqn:Ey; cbn [option_list].
  - apply outcomes_one. intros res Hrun st Hr.
    destruct (exec_op s Hcx o st pc x stk S Hwf Hcode Hr Hok) as (st' & He & Hm). rewrite Ey in He, Hm.
    eapply runs_next; [intros h; exists h; apply He|]. apply Hrun, Hm.
  - intros res Hrun st Hr.
    destruct (exec_op s Hcx o st pc x stk S Hwf Hcode Hr Hok) as (st' & He & Hm). rewrite Ey in He, Hm.
    destruct Hm as (pc' & Hr'). eapply runs_no_match; [intros h; exists h; apply He|].
    apply Hrun; [by eapply represents_arrays|apply Hr'].
Qed.

(** ** The body of a loop *)
Lemma sim_checked check a x l pc stk S :
  sim_code a x l → Forall state_ok l → code_at bc pc (checked check (code a)) →
  zlen stk + b2z check + depth a <= stack_max →
  outcomes (pc + zlen (checked check (code a))) stk S (advanced check x l) (runs_at pc x stk S).
Proof.
  intros Hsim Hok Hcode Hd. destruct check; cbn [checked advanced b2z] in *.
  2: { apply Hsim; [done|lia]. }
  apply code_at_app in Hcode as [Hpush [Hbody Hcheck]%code_at_app]. change (zlen [REOP_push_char_pos]) with 1 in *.
  pose proof (depth_nonneg a).
  assert (outcomes (pc + 1 + zlen (code a)) (stk ++ [m_pos x]) S l (runs_at pc x stk S)) as Hl.
  { eapply outcomes_mono; [|apply Hsim; [exact Hbody|autorewrite with zlen; lia]]. intros res Hrun.
    eapply exec_push_pos_at; [exact Hpush|lia|done]. }
  replace (pc + zlen ([REOP_push_char_pos] ++ code a ++ [REOP_check_advance])) with (pc + 1 + zlen (code a) + 1)
    by (autorewrite with zlen; lia).
  eapply (outcomes_filter s _ _ _ _ _ _ (λ y, m_pos y ≠ m_pos x)); [exact Hl|done|..].
  - intros y S' res Hy Hf Hrun. eapply exec_check_at; [exact Hcheck|done|]. by destruct (decide (m_pos y ≠ m_pos x)).
  - intros y S' res Hy Hf Hrun. eapply exec_check_at; [exact Hcheck|done|]. by destruct (decide (m_pos y ≠ m_pos x)).
Qed.

(** greedy and lazy: a choice point for stopping, or for going on *)
Lemma outcomes_choice greedy go_pc stop_pc x go stk stk2 S end_ (P : option (list cap) → Prop) :
  state_ok x → zlen stk <= stack_max →
  (∀ res, runs_at (if greedy : bool then go_pc else stop_pc) x stk
    (saved RE_EXEC_STATE_SPLIT 0 (if greedy then stop_pc else go_pc) x stk :: S) res → P res) →
  (∀ S', extends S' S → outcomes end_ stk2 S' go (runs_at go_pc x stk S')) →
  (∀ S' res, runs_at end_ x stk2 S' res → runs_at stop_pc x stk S' res) →
  outcomes end_ stk2 S (choice greedy go [x]) P.
Proof.
  intros Hok Hstk HP Hgo Hstop. eapply outcomes_mono; [exact HP|].
  assert (plain (saved RE_EXEC_STATE_SPLIT 0 (if greedy then stop_pc else go_pc) x stk)) as Hp by by left.
  destruct greedy; cbn [choice].
  - eapply outcomes_app; [by apply extends_cons|by apply Hgo, extends_cons|].
    apply outcomes_one. intros res Hrun. apply fail_restore; [by left|done..|]. by apply Hstop.
  - eapply outcomes_app; [by apply extends_cons|apply outcomes_one, Hstop|].
    eapply outcomes_mono; [|apply Hgo, extends_refl]. intros res Hrun. apply fail_restore; [by left|done..].
Qed.

(** ** Sequences and alternatives *)
Lemma sim_seq a b x l ls : sim_code a x l → Forall2 (sim_code b) l ls → sim_code (RSeq a b) x (concat ls).
Proof.
  intros Ha Hb pc stk S Hcode Hd. cbn [code depth] in *. apply code_at_app in Hcode as [Hca Hcb].
  rewrite zlen_app, Z.add_assoc. eapply outcomes_bind; [apply Ha; [done|lia]|].
  eapply Forall2_impl; [exact Hb|]. intros y ly Hy S' _. apply Hy; [done|lia].
Qed.
Lemma sim_alt a b x l k :
  state_ok x → Forall state_ok l → sim_code a x l → sim_code b x k → sim_code (RAlt a b) x (l ++ k).
Proof.
  intros Hok Hl Ha Hb pc stk S Hcode Hd. cbn [code depth] in *. pose proof (code_at_small _ Hcx _ _ Hcode) as [_ Hsmall].
  autorewrite with zlen in Hsmall. pose proof (zlen_nonneg (code a)). pose proof (zlen_nonneg (code b)).
  pose proof (depth_nonneg a). pose proof Hcode as Hsplit.
  apply code_at_app in Hcode as [_ [Hca [Hgoto Hcb]%code_at_app]%code_at_app]. autorewrite with zlen in *.
  set (second := saved RE_EXEC_STATE_SPLIT 0 (pc + 5 + (zlen (code a) + 5)) x stk).
  apply (outcomes_mono s _ _ _ _ (runs_at (pc + 5) x stk (second :: S))).
  { intros res. eapply (exec_split_at s pc true); [|exact Hsplit|done]. lia. }
  apply (outcomes_app s _ _ _ (second :: S)); [apply extends_cons; by left|..].
  - eapply outcomes_map; [apply Ha; [exact Hca|lia]|done|]. intros y S' res _ Hrun.
    eapply exec_goto_at; [|rewrite <- (app_nil_r (jump _ _)) in Hgoto; exact Hgoto|]; [lia|].
    by replace (pc + 5 + zlen (code a) + 5 + zlen (code b))
      with (pc + (5 + (zlen (code a) + (5 + zlen (code b))))) by lia.
  - replace (pc + (5 + (zlen (code a) + (5 + zlen (code b)))))
      with (pc + 5 + zlen (code a) + 5 + zlen (code b)) by lia.
    eapply outcomes_mono; [|apply Hb; [exact Hcb|lia]]. intros res Hrun.
    apply fail_restore; [by left|done|lia|].
    by replace (pc + 5 + (zlen (code a) + 5)) with (pc + 5 + zlen (code a) + 5) by lia.
Qed.
(** the end of a lookahead *)
Lemma succ_at pc y stk S res :
  code_at bc pc [REOP_match] → state_ok y → runs_succ s S (m_caps y) res → runs_at pc y stk S res.
Proof.
  intros Hcode Hok Hs st Hr. eapply runs_match; [exact Hcode|apply Hr|].
  pose proof (represents_pc _ _ _ (pc + 1) _ _ _ Hr) as Hr1. apply Hs; [by eapply represents_arrays|apply Hr1..].
Qed.
Lemma sim_look neg a x l :
  state_ok x → Forall state_ok l → sim_code a x l →
  sim_code (RLook neg a) x
    (match l with
     | [] => if neg then [x] else []
     | y :: _ => if neg then [] else [mkM (m_pos x) (m_caps y)]
     end).
Proof.
  intros Hok Hl Ha pc stk S Hcode Hd. cbn [code depth] in *. pose proof (code_at_small _ Hcx _ _ Hcode) as [_ Hsmall].
  autorewrite with zlen in Hsmall. pose proof (zlen_nonneg (code a)). pose proof (depth_nonneg a). pose proof Hcode as Hlook.
  apply code_at_app in Hcode as [_ [Hca Hmatch]%code_at_app]. autorewrite with zlen in *.
  set (type := if neg then RE_EXEC_STATE_NEGATIVE_LOOKAHEAD else RE_EXEC_STATE_LOOKAHEAD).
  set (end_ := pc + (5 + (zlen (code a) + (1 + 0)))).
  set (ls := saved type 0 end_ x stk).
  assert (∀ res, runs_at (pc + 5) x stk (ls :: S) res → runs_at pc x stk S res) as Hstart.
  { intros res Hrun. eapply (exec_look_at s pc neg); [|exact Hlook|done|]; [lia|].
    by replace (pc + 5 + (zlen (code a) + 1)) with end_ by lia. }
  specialize (Ha (pc + 5) stk (ls :: S) Hca ltac:(lia)).
  assert (∀ y S' res, state_ok y → extends S' (ls :: S) → runs_succ s (ls :: S) (m_caps y) res →
    runs_at (pc + 5 + zlen (code a)) y stk S' res) as Hmt.
  { intros y S' res Hy (E & -> & HE) Hs. eapply succ_at; [exact Hmatch|done|]. by apply succ_plain. }
  destruct l as [|y l]; cbn [ReSim.outcomes] in Ha.
  - assert (∀ res, runs_fail (ls :: S) res → runs_at pc x stk S res) as Hf by (intros res Hr; by apply Hstart, Ha).
    subst ls type. destruct neg.
    + apply outcomes_one. intros res Hrun. apply Hf. apply fail_restore; [by right|done|lia|done].
    + intros res Hrun. apply Hf. by apply fail_look.
  - apply Forall_cons in Hl as [Hy _]. destruct Ha as (S' & He & Hrun & _).
    assert (∀ res, runs_succ s (ls :: S) (m_caps y) res → runs_at pc x stk S res) as Hs
      by (intros res Hr; by eapply Hstart, Hrun, Hmt).
    subst ls type. destruct neg.
    + intros res Hr. apply Hs. by apply succ_neg.
    + apply outcomes_one. intros res Hr. apply Hs. apply succ_look; [done|lia|done].
Qed.

Lemma b2z_nonneg b : 0 <= b2z b.
Proof. by destruct b. Qed.

(** ** Loops *)
Lemma sim_opt greedy check a x l :
  state_ok x → Forall state_ok l → sim_code a x l →
  sim_code (ROpt greedy check a) x (choice greedy (advanced check x l) [x]).
Proof.
  intros Hok Hl Ha pc stk S Hcode Hd. cbn [code depth] in *. cbv zeta in *.
  pose proof (code_at_small _ Hcx _ _ Hcode) as [_ Hsmall]. autorewrite with zlen in Hsmall.
  set (body := checked check (code a)) in *. pose proof (zlen_nonneg body). pose proof (depth_nonneg a).
  pose proof Hcode as Hsplit. apply code_at_app in Hcode as [_ Hbody]. autorewrite with zlen in *.
  replace (pc + (5 + zlen body)) with (pc + 5 + zlen body) by lia.
  eapply (outcomes_choice greedy (pc + 5) (pc + 5 + zlen body) _ _ stk); [done|pose proof (b2z_nonneg check); lia|..].
  - intros res. eapply exec_split_at; [|exact Hsplit|done]. lia.
  - intros S' _. apply sim_checked; [done..|lia].
  - done.
Qed.
Lemma sim_star greedy check a x l ls :
  state_ok x → Forall state_ok l → sim_code a x l → Forall2 (sim_code (RStar greedy check a)) (advanced check x l) ls →
  sim_code (RStar greedy check a) x (choice greedy (concat ls) [x]).
Proof.
  intros Hok Hl Ha Hls pc stk S Hcode Hd. pose proof Hcode as Hself. pose proof Hd as Hd'. cbn [code depth] in *. cbv zeta in *.
  pose proof (code_at_small _ Hcx _ _ Hcode) as [_ Hsmall]. autorewrite with zlen in Hsmall.
  set (body := checked check (code a)) in *. pose proof (zlen_nonneg body). pose proof (depth_nonneg a).
  pose proof Hcode as Hsplit. apply code_at_app in Hcode as [_ [Hbody Hgoto]%code_at_app]. autorewrite with zlen in *.
  set (end_ := pc + (5 + (zlen body + 5))).
  eapply (outcomes_choice greedy (pc + 5) end_ _ _ stk); [done|pose proof (b2z_nonneg check); lia|..].
  - intros res Hrun. eapply exec_split_at; [|exact Hsplit|done|]; [lia|].
    by replace (pc + 5 + (zlen body + 5)) with end_ by lia.
  - intros S' _. eapply outcomes_bind; [apply sim_checked; [exact Ha|done..|lia]|].
    eapply Forall2_impl; [exact Hls|]. intros y ly Hy S1 _. specialize (Hy pc stk S1 Hself Hd').
    replace (pc + zlen (code (RStar greedy check a))) with end_ in Hy.
    2: { cbn [code]. cbv zeta. fold body. subst end_. by autorewrite with zlen. }
    eapply outcomes_mono; [|exact Hy].
    intros res Hrun. eapply exec_goto_at; [|rewrite <- (app_nil_r (jump _ _)) in Hgoto; exact Hgoto|]; [lia|].
    fold body. by replace (pc + 5 + zlen body + 5 + - (zlen body + 10)) with pc by lia.
  - done.
Qed.

(** a counted loop with the counter [n] on the stack; [n0] is the count in the
    code *)
Definition upto_sim (n : Z) (greedy check : bool) (a : re) (x : mstate) (l : list mstate) : Prop :=
  ∀ n0 pc stk S, let r := RUpto n0 greedy check a in
  code_at bc pc (code r) → zlen stk + depth r <= stack_max →
  outcomes (pc + zlen (code r)) stk S l (runs_at (if n =? 0 then pc + zlen (code r) - 1 else pc + 5) x (stk ++ [n]) S).
Lemma sim_upto_0 greedy check a x : upto_sim 0 greedy check a x [x].
Proof.
  intros n0 pc stk S r Hcode Hd. subst r. apply outcomes_one. intros res Hrun. cbn [Z.eqb code] in *. cbv zeta in *.
  set (body := checked check (code a)) in *.
  apply code_at_app in Hcode as [_ [_ [_ [_ Hdrop]%code_at_app]%code_at_app]%code_at_app]. autorewrite with zlen in *.
  replace (pc + (5 + (5 + (zlen body + (5 + (1 + 0))))) - 1) with (pc + 5 + 5 + zlen body + 5) by lia.
  eapply exec_drop_at; [exact Hdrop|].
  by replace (pc + 5 + 5 + zlen body + 5 + 1) with (pc + (5 + (5 + (zlen body + (5 + (1 + 0)))))) by lia.
Qed.
Lemma sim_upto n greedy check a x l ls :
  0 < n <= INT32_MAX → state_ok x → Forall state_ok l → sim_code a x l →
  Forall2 (upto_sim (n - 1) greedy check a) (advanced check x l) ls →
  upto_sim n greedy check a x (choice greedy (concat ls) [x]).
Proof.
  intros Hn Hok Hl Ha Hls n0 pc stk S r Hcode Hd. pose proof Hcode as Hself. pose proof Hd as Hd'. subst r.
  destruct (Z.eqb_spec n 0); [lia|]. cbn [code depth] in *. cbv zeta in *.
  pose proof (code_at_small _ Hcx _ _ Hcode) as [_ Hsmall]. autorewrite with zlen in Hsmall.
  set (body := checked check (code a)) in *. pose proof (zlen_nonneg body). pose proof (depth_nonneg a).
  apply code_at_app in Hcode as [_ Hcode]. pose proof Hcode as Hsplit.
  apply code_at_app in Hcode as [_ [Hbody Hcode]%code_at_app]. pose proof Hcode as Hloop.
  apply code_at_app in Hcode as [_ Hdrop]. autorewrite with zlen in *.
  set (end_ := pc + (5 + (5 + (zlen body + (5 + (1 + 0)))))).
  assert (0 < zlen stk + 1 ∧ zlen stk + 1 + b2z check + depth a <= stack_max) as [_ Hstk]
    by (pose proof (zlen_nonneg stk); lia).
  assert (zlen (stk ++ [n]) = zlen stk + 1) as Hz by (rewrite zlen_app; done).
  eapply (outcomes_choice greedy (pc + 5 + 5) (end_ - 1) _ _ (stk ++ [n])); [done|rewrite Hz; pose proof (b2z_nonneg check); lia|..].
  - intros res Hrun. eapply exec_split_at; [|exact Hsplit|done|]; [lia|].
    by replace (pc + 5 + 5 + (zlen body + 5)) with (end_ - 1) by lia.
  - intros S' _. eapply outcomes_bind; [apply sim_checked; [exact Ha|done..|lia]|].
    eapply Forall2_impl; [exact Hls|]. intros y ly Hy S1 _.
    specialize (Hy n0 pc stk S1 Hself Hd'). cbv zeta in Hy.
    replace (pc + zlen (code (RUpto n0 greedy check a))) with end_ in Hy.
    2: { cbn [code]. cbv zeta. fold body. subst end_. by autorewrite with zlen. }
    eapply outcomes_mono; [|exact Hy]. fold body.
    intros res Hrun. eapply exec_loop_at; [| |exact Hloop|]; [lia|unfold INT32_MAX in Hn; lia|].
    replace (pc + 5 + 5 + zlen body + 5) with (end_ - 1) by lia.
    by replace (end_ - 1 + - (zlen body + 10)) with (pc + 5) by lia.
  - intros S' res Hrun. eapply exec_drop_at.
    + replace (end_ - 1) with (pc + 5 + 5 + zlen body + 5) by lia. exact Hdrop.
    + by replace (end_ - 1 + 1) with end_ by lia.
Qed.
Lemma sim_upto_code n greedy check a x l :
  0 < n <= INT32_MAX → upto_sim n greedy check a x l → sim_code (RUpto n greedy check a) x l.
Proof.
  intros Hn Hs pc stk S Hcode Hd. eapply outcomes_mono; [|apply (Hs n pc stk S Hcode Hd)].
  destruct (Z.eqb_spec n 0); [lia|]. intros res Hrun. cbn [code depth] in *. cbv zeta in Hcode.
  pose proof (depth_nonneg a). eapply exec_push_at; [|exact Hcode| |done].
  - unfold INT32_MAX in Hn. lia.
  - pose proof (b2z_nonneg check); lia.
Qed.

Definition rep_sim (n : Z) (a : re) (x : mstate) (l : list mstate) : Prop :=
  ∀ n0 pc stk S, let r := RRep n0 a in
  code_at bc pc (code r) → zlen stk + depth r <= stack_max →
  outcomes (pc + zlen (code r)) stk S l (runs_at (if n =? 0 then pc + zlen (code r) - 1 else pc + 5) x (stk ++ [n]) S).
Lemma sim_rep_0 a x : rep_sim 0 a x [x].
Proof.
  intros n0 pc stk S r Hcode Hd. subst r. apply outcomes_one. intros res Hrun. cbn [Z.eqb code] in *.
  apply code_at_app in Hcode as [_ [_ [_ Hdrop]%code_at_app]%code_at_app]. autorewrite with zlen in *.
  replace (pc + (5 + (zlen (code a) + (5 + (1 + 0)))) - 1) with (pc + 5 + zlen (code a) + 5) by lia.
  eapply exec_drop_at; [exact Hdrop|].
  by replace (pc + 5 + zlen (code a) + 5 + 1) with (pc + (5 + (zlen (code a) + (5 + (1 + 0))))) by lia.
Qed.
Lemma sim_rep n a x l ls :
  0 < n <= INT32_MAX → sim_code a x l → Forall2 (rep_sim (n - 1) a) l ls → rep_sim n a x (concat ls).
Proof.
  intros Hn Ha Hls n0 pc stk S r Hcode Hd. pose proof Hcode as Hself. pose proof Hd as Hd'. subst r.
  destruct (Z.eqb_spec n 0); [lia|]. cbn [code depth] in *.
  pose proof (code_at_small _ Hcx _ _ Hcode) as [_ Hsmall]. autorewrite with zlen in Hsmall.
  pose proof (zlen_nonneg (code a)). pose proof (depth_nonneg a).
  apply code_at_app in Hcode as [_ [Hbody Hloop]%code_at_app]. autorewrite with zlen in *.
  set (end_ := pc + (5 + (zlen (code a) + (5 + (1 + 0))))).
  assert (zlen (stk ++ [n]) = zlen stk + 1) as Hz by (rewrite zlen_app; done).
  eapply outcomes_bind; [apply Ha; [exact Hbody|lia]|].
  eapply Forall2_impl; [exact Hls|]. intros y ly Hy S1 _.
  specialize (Hy n0 pc stk S1 Hself Hd'). cbv zeta in Hy.
  replace (pc + zlen (code (RRep n0 a))) with end_ in Hy.
  2: { cbn [code]. subst end_. by autorewrite with zlen. }
  eapply outcomes_mono; [|exact Hy].
  intros res Hrun. eapply exec_loop_at; [| |exact Hloop|]; [lia|unfold INT32_MAX in Hn; lia|].
  replace (pc + 5 + zlen (code a) + 5) with (end_ - 1) by lia.
  by replace (end_ - 1 + - (zlen (code a) + 5)) with (pc + 5) by lia.
Qed.
Lemma sim_rep_code n a x l : 0 < n <= INT32_MAX → rep_sim n a x l → sim_code (RRep n a) x l.
Proof.
  intros Hn Hs pc stk S Hcode Hd. eapply outcomes_mono; [|apply (Hs n pc stk S Hcode Hd)].
  destruct (Z.eqb_spec n 0); [lia|]. intros res Hrun. cbn [code depth] in *. pose proof (depth_nonneg a).
  eapply exec_push_at; [|exact Hcode| |done]; [unfold INT32_MAX in Hn; lia|lia].
Qed.
(** the code of [RPlus] splits after its body *)
Lemma sim_plus greedy a x l ls ks :
  Forall state_ok l → sim_code a x l →
  Forall2 (λ y k, sim_code (RPlus greedy a) y k) l ls → ks = zip_with (λ y k, choice greedy k [y]) l ls →
  sim_code (RPlus greedy a) x (concat ks).
Proof.
  intros Hl Ha Hls -> pc stk S Hcode Hd. pose proof Hcode as Hself. pose proof Hd as Hd'. cbn [code depth] in *.
  pose proof (code_at_small _ Hcx _ _ Hcode) as [_ Hsmall]. autorewrite with zlen in Hsmall.
  pose proof (zlen_nonneg (code a)). pose proof (depth_nonneg a).
  apply code_at_app in Hcode as [Hbody Hsplit]. autorewrite with zlen in *.
  eapply outcomes_bind; [apply Ha; [exact Hbody|exact Hd]|].
  clear Ha. revert Hl. induction Hls as [|y k l ls Hy Hls IH]; intros Hl; cbn [zip_with]; [constructor|].
  apply Forall_cons in Hl as [Hoky Hl]. constructor; [|by apply IH]. intros S' _.
  eapply (outcomes_choice greedy pc (pc + (zlen (code a) + 5)) _ _ stk); [done|lia|..].
  - intros res Hrun. assert (REOP_split_next_first - b2z greedy = split_op (negb greedy)) as E by by destruct greedy.
    rewrite E, <- (app_nil_r (jump _ _)) in Hsplit. eapply exec_split_at; [|exact Hsplit|done|]; [lia|].
    replace (pc + zlen (code a) + 5 + - (zlen (code a) + 5)) with pc by lia.
    replace (pc + zlen (code a) + 5) with (pc + (zlen (code a) + 5)) by lia. by destruct greedy.
  - intros S1 _. specialize (Hy pc stk S1 Hself Hd'). cbn [code] in Hy. by autorewrite with zlen in Hy.
  - done.
Qed.
End Refinement.
