(* ===== verification/ReGreedy.v ===== *)
(** * The greedy loop over simple bodies (REOP_simple_greedy_quant)

    A quantifier whose body reads a fixed number of characters in every way
    it can match is run by a loop of its own: the body runs without choice
    points as often as it can, and one choice point then walks back over the
    subject, a block of characters at a time. *)
From S2P Require Import Prelude Alloc Cutils CharRange CaseConv Reliable ReOpcodes ReExec ReCode ReRange.
From S2P Require Import ReSyntax ReSem ReSubject ReOps ReSim ReRefine.

Section Greedy.
Context `{!Allocator, !Reliable}.
Context (s : REExecContext) (Hcx : context_ok s).
Local Notation bc := (s_bc s).
Local Notation state_ok := (state_ok s).
Local Notation represents := (represents s).
Local Notation wf := (re_wf (s_capture_count s)).

(** ** Walking back *)
Lemma go_backward_app i j p : go_backward s (i + j) p = (q ← go_backward s i p; go_backward s j q).
Proof.
  revert p. induction i as [|i IH]; intros p; cbn [Nat.add go_backward]; [done|].
  destruct (PREV_CHAR _ _ p 0) as [q|]; [|done]. cbn [mbind option_bind]. apply IH.
Qed.
Lemma prev_char_eq q c p : prev_at s q = Some (c, p) → PREV_CHAR (s_cbuf s) (s_cbuf_type s) q 0 = Some p.
Proof.
  unfold prev_at, PREV_CHAR. destruct (0 <? q); [|done]. intros E. rewrite E.
  destruct (Z.eqb_spec (s_cbuf_type s) 0) as [Ht|]; [|done]. unfold GET_PREV_CHAR in E. rewrite Ht in E.
  destruct ((s_cbuf s).[q - 1]); [|done]. by injection E as _ <-.
Qed.
(** [y] is [n] characters after [x] *)
Definition chars_after (n : Z) (x y : mstate) : Prop :=
  m_caps y = m_caps x ∧ go_backward s (Z.to_nat n) (m_pos y) = Some (m_pos x) ∧
  m_pos x + n <= m_pos y ∧ state_ok y.
Lemma chars_after_refl x : state_ok x → chars_after 0 x x.
Proof. intros Hok. split; [done|]. split; [done|]. split; [lia|done]. Qed.
Lemma chars_after_trans n m x y z : 0 <= n → 0 <= m → chars_after n x y → chars_after m y z → chars_after (n + m) x z.
Proof.
  intros Hn Hm (H1 & H2 & H3 & H4) (K1 & K2 & K3 & K4). split; [congruence|]. split; [|split; [lia|done]].
  rewrite Z.add_comm, Z2Nat.inj_add, go_backward_app, K2 by lia. done.
Qed.
Lemma op_next_chars o n x y :
  op_chars o = Some n → op_wf (s_capture_count s) o → state_ok x → op_next s o x = Some y → chars_after n x y.
Proof.
  intros Hn Hwf Hok Hy.
  assert (∀ b, Some n = Some 0 → when b x = Some y → chars_after n x y) as Hwhen.
  { intros b [= ->]. destruct b; [|done]. intros [= <-]. by apply chars_after_refl. }
  assert (∀ f, Some n = Some 1 → step_char s f x = Some y → chars_after n x y) as Hstep.
  { intros f [= ->] E. unfold step_char in E. destruct (next_at s (m_pos x)) as [[c q]|] eqn:En; [|done].
    destruct (f c); [|done]. injection E as <-. pose proof (ok_pos _ _ Hok) as Hp.
    pose proof (prev_at_next_at _ _ _ _ (cx_subject _ Hcx) (proj1 Hp) (ok_aligned _ _ Hok) En) as Hprev.
    destruct (next_at_cases s (m_pos x) (cx_subject _ Hcx)) as [[_ E]|(c' & q' & E & _ & _ & Hq & Ha)]; [lia|congruence|].
    rewrite En in E. injection E as <- <-. split; [done|]. split.
    - change (Z.to_nat 1) with 1%nat. cbn [m_pos go_backward]. by rewrite (prev_char_eq _ _ _ Hprev).
    - split; [cbn; lia|]. apply state_ok_move; [done|lia|done]. }
  destruct o; try done; cbn [op_chars op_next] in *; eauto.
Qed.
Lemma simple_nonneg a n : simple a = Some n → 0 <= n.
Proof.
  revert n. induction a; intros m Hm; try done; cbn [simple] in Hm.
  - injection Hm as <-. done.
  - destruct o; try done; injection Hm as <-; done.
  - apply bind_Some in Hm as (n1 & H1 & Hm). apply bind_Some in Hm as (n2 & H2 & [= <-]).
    specialize (IHa1 _ H1). specialize (IHa2 _ H2). lia.
Qed.

(** ** One round of the body, without choice points *)
Definition body_ends (n : Z) (pc : Z) (x : mstate) (stk : list Z) (S : list REExecState) (st : exec_state)
    (l : list mstate) : Prop :=
  match l with
  | [] => ∃ st' pc' p' j, represents st' pc' (mkM p' (m_caps x)) stk S ∧
      ∀ fuel h, (j ≤ fuel)%nat → lre_exec_backtrack s fuel st true h = Some ((RFail, st'), h)
  | [y] => ∃ st' j, represents st' pc y stk S ∧ chars_after n x y ∧
      ∀ fuel h, lre_exec_backtrack s (j + fuel) st true h = lre_exec_backtrack s fuel st' true h
  | _ => False
  end.
Lemma ev_nil_inv x l : ev s RNil x l → l = [x].
Proof. by inversion 1. Qed.
Lemma ev_op_inv o x l : ev s (ROp o) x l → l = option_list (op_next s o x).
Proof. by inversion 1. Qed.
Lemma ev_seq_inv a b x k : ev s (RSeq a b) x k → ∃ l, ev s a x l ∧ evs s b l k.
Proof. inversion 1; eauto. Qed.
Lemma evs_cons_inv r y l k : evs s r (y :: l) k → ∃ ky ks, k = ky ++ ks ∧ ev s r y ky ∧ evs s r l ks.
Proof. inversion 1; subst; eauto. Qed.
Lemma evs_nil_inv r k : evs s r [] k → k = [].
Proof. by inversion 1. Qed.

Lemma simple_body a n x l pc stk S st :
  simple a = Some n → wf a → state_ok x → ev s a x l → code_at bc pc (code a) → represents st pc x stk S →
  body_ends n (pc + zlen (code a)) x stk S st l.
Proof.
  revert n x l pc st. induction a; intros cnt x l pc st Hn Hwf Hok Hev Hcode Hr; try done; cbn [simple code re_wf] in *.
  - apply ev_nil_inv in Hev as ->. injection Hn as <-. exists st, 0%nat. change (zlen []) with 0. rewrite Z.add_0_r.
    split; [done|]. split; [by apply chars_after_refl|done].
  - apply ev_op_inv in Hev as ->. destruct (exec_op s Hcx o st pc x stk S Hwf Hcode Hr Hok) as (st' & He & Hm).
    destruct (op_next s o x) as [y|] eqn:Ey; cbn [option_list body_ends].
    + exists st', 1%nat. split; [apply Hm|]. split; [by eapply op_next_chars|].
      intros fuel h. by apply backtrack_next.
    + destruct Hm as (pc' & Hr'). exists st', pc', (m_pos x), 1%nat. destruct x as [p caps]. split; [done|].
      intros fuel h Hf. destruct fuel as [|fuel]; [lia|]. by rewrite (backtrack_no_match _ _ _ _ _ _ _ (He h)).
  - apply bind_Some in Hn as (n1 & H1 & Hn). apply bind_Some in Hn as (n2 & H2 & [= <-]). destruct Hwf as [Hw1 Hw2].
    pose proof (simple_nonneg _ _ H1). pose proof (simple_nonneg _ _ H2).
    apply ev_seq_inv in Hev as (la & Ha & Hb). apply code_at_app in Hcode as [Hca Hcb].
    specialize (IHa1 _ x la pc st H1 Hw1 Hok Ha Hca Hr). destruct la as [|y [|]]; [|  |done]; cbn [body_ends] in IHa1.
    + apply evs_nil_inv in Hb as ->. done.
    + destruct IHa1 as (st1 & j1 & Hr1 & Hc1 & Hj1).
      apply evs_cons_inv in Hb as (ky & ks & -> & Hb & Hks%evs_nil_inv). subst ks. rewrite app_nil_r.
      specialize (IHa2 _ y ky _ st1 H2 Hw2 ltac:(apply Hc1) Hb Hcb Hr1).
      rewrite zlen_app, Z.add_assoc. pose proof Hc1 as (Hcaps & _). destruct ky as [|z [|]]; [| |done]; cbn [body_ends] in *.
      * destruct IHa2 as (st2 & pc' & p' & j2 & Hr2 & Hj2). rewrite Hcaps in Hr2. exists st2, pc', p', (j1 + j2)%nat.
        split; [done|]. intros fuel h Hf. replace fuel with (j1 + (fuel - j1))%nat by lia. rewrite Hj1. apply Hj2. lia.
      * destruct IHa2 as (st2 & j2 & Hr2 & Hc2 & Hj2). exists st2, (j1 + j2)%nat. split; [done|].
        split; [by eapply chars_after_trans|]. intros fuel h. by rewrite <- Nat.add_assoc, Hj1, Hj2.
Qed.

(** ** The rounds *)
(** the positions of the rounds, the last one first *)
Fixpoint chain (n : Z) (l : list mstate) : Prop :=
  match l with
  | [] => False
  | y :: l => match l with [] => state_ok y | x :: _ => chars_after n x y ∧ chain n l end
  end.
Lemma chain_snoc n l x y : chain n (l ++ [y]) → chars_after n x y → state_ok x → chain n ((l ++ [y]) ++ [x]).
Proof.
  intros Hl Hxy Hx. induction l as [|z l IH]; [done|]. cbn [app chain] in *.
  destruct l as [|w l]; cbn [app] in *; [by destruct Hl|]. destruct Hl as [Hz Hl]. split; [done|]. by apply IH.
Qed.
Lemma chain_head n y l : chain n (y :: l) → state_ok y.
Proof. cbn [chain]. destruct l; [done|]. by intros [(_ & _ & _ & ?) _]. Qed.
Lemma chain_length n y l : 0 < n → chain n (y :: l) → zlen l <= m_pos y.
Proof.
  intros Hn. revert y. induction l as [|x l IH]; intros y Hl.
  - apply chain_head in Hl. pose proof (ok_pos _ _ Hl). change (zlen []) with 0. lia.
  - destruct Hl as [(_ & _ & Hp & _) Hl]. specialize (IH x Hl). rewrite zlen_cons. lia.
Qed.

(** the code at the start of a round, and after its body *)
Lemma greedy_loop_S F G st pc q quant_max h r st1 h1 :
  lre_exec_backtrack s F (with_pc st pc) true h = Some ((r, st1), h1) →
  greedy_loop (λ st, lre_exec_backtrack s F st true) (Datatypes.S G) st pc q quant_max h =
    (let st2 := with_cptr (with_stack st1 (es_stack st1) (es_stack_len st)) (es_cptr st) in
     match r with
     | RError => Some ((None, st2), h1)
     | RFail => Some ((Some q, st2), h1)
     | RMatch cptr =>
       let st3 := with_cptr st2 cptr in
       if (q + 1 >=? quant_max) && negb (quant_max =? INT32_MAX) then Some ((Some (q + 1), st3), h1)
       else greedy_loop (λ st, lre_exec_backtrack s F st true) G st3 pc (q + 1) quant_max h1
     end).
Proof. intros E. cbn [greedy_loop]. rewrite (bind_M_eq _ _ _ _ _ E). destruct r; [done..|]. cbv zeta. by destruct (_ && _). Qed.
Lemma represents_back st1 p y stk S n c :
  represents st1 p y stk S → n = zlen stk →
  represents (with_cptr (with_stack st1 (es_stack st1) n) c) p (mkM c (m_caps y)) stk S.
Proof. intros [] ->. by split. Qed.
Lemma body_match a count x y pc stk S st :
  simple a = Some count → wf a → state_ok x → ev s a x [y] → code_at bc pc (code a ++ [REOP_match]) →
  represents st (es_pc st) x stk S →
  chars_after count x y ∧ ∃ st1 j, represents st1 (es_pc st1) y stk S ∧
    ∀ F h, (j ≤ F)%nat → lre_exec_backtrack s F (with_pc st pc) true h = Some ((RMatch (m_pos y), st1), h).
Proof.
  intros Hn Hwf Hok Hev [Hcode Hmatch]%code_at_app Hr.
  destruct (simple_body a count x [y] pc stk S (with_pc st pc) Hn Hwf Hok Hev Hcode) as (st' & j & Hr' & Hc & Hj);
    [by eapply represents_pc|]. split; [done|]. exists (with_pc st' (pc + zlen (code a) + 1)), (Datatypes.S j).
  split; [by eapply represents_pc|]. intros F h HF. replace F with (j + Datatypes.S (F - Datatypes.S j))%nat by lia.
  rewrite Hj. rewrite (backtrack_match _ _ _ _ _ _ _ Hmatch) by apply Hr'. by rewrite (rp_cptr _ _ _ _ _ _ Hr').
Qed.
(** all rounds: where they end and how far the loop counts *)
Definition rounds_end (a : re) (count quant_max q : Z) (x : mstate) (l : list mstate) : Prop :=
  ∃ y l', l = y :: l' ∧ last l = Some x ∧
    ∀ pc stk S st, state_ok x → code_at bc pc (code a ++ [REOP_match]) → represents st (es_pc st) x stk S →
    chain count l ∧
    ∃ st' N, represents st' (es_pc st') y stk S ∧ ∀ F G h, (N ≤ F)%nat → (N ≤ G)%nat →
      greedy_loop (λ st, lre_exec_backtrack s F st true) G st pc q quant_max h =
        Some ((Some (q + zlen l'), st'), h).
Lemma rounds_stop a count quant_max q x :
  ev s a x [] → simple a = Some count → wf a → rounds_end a count quant_max q x [x].
Proof.
  intros Hev Hn Hwf. exists x, []. split; [done|]. split; [done|]. intros pc stk S st Hok [Hcode _]%code_at_app Hr.
  split; [done|].
  destruct (simple_body a count x [] pc stk S (with_pc st pc) Hn Hwf Hok Hev Hcode) as (st' & pc' & p' & j & Hr' & Hj);
    [by eapply represents_pc|].
  exists (with_cptr (with_stack st' (es_stack st') (es_stack_len st)) (es_cptr st)), (Datatypes.S j). split.
  2: { intros F G h HF HG. destruct G as [|G]; [lia|].
       erewrite greedy_loop_S by (apply Hj; lia). cbv zeta iota beta. by rewrite Z.add_0_r. }
  rewrite (rp_cptr _ _ _ _ _ _ Hr). destruct x as [p caps].
  pose proof (represents_back _ _ _ _ _ _ p Hr' (rp_len _ _ _ _ _ _ Hr)) as Hr2.
  cbn [es_pc with_cptr with_stack m_pos m_caps] in *. by rewrite (rp_pc _ _ _ _ _ _ Hr').
Qed.
Lemma round_state st1 st x y stk S :
  represents st (es_pc st) x stk S → represents st1 (es_pc st1) y stk S →
  let st3 := with_cptr (with_cptr (with_stack st1 (es_stack st1) (es_stack_len st)) (es_cptr st)) (m_pos y) in
  represents st3 (es_pc st3) y stk S.
Proof. intros Hr. pose proof (rp_len _ _ _ _ _ _ Hr) as ->. intros []. by split. Qed.
Lemma greedy_rounds a count quant_max q x l :
  ev_iter s a quant_max q x l → simple a = Some count → wf a → rounds_end a count quant_max q x l.
Proof.
  intros Hiter Hn Hwf. induction Hiter as [a qm q x Hev|a qm q x y Hev Hmax Hinf|a qm q x y l Hev Hgo Hiter IH].
  - by apply rounds_stop.
  - exists y, [x]. split; [done|]. split; [done|]. intros pc stk S st Hok Hcode Hr.
    destruct (body_match a count x y pc stk S st Hn Hwf Hok Hev Hcode Hr) as (Hc & st1 & j & Hr1 & Hj).
    split; [by split|]. eexists _, (Datatypes.S j). split; [exact (round_state st1 st x y stk S Hr Hr1)|].
    intros F G h HF HG. destruct G as [|G]; [lia|]. erewrite greedy_loop_S by (apply Hj; lia). cbv zeta iota beta.
    rewrite Z.geb_leb. destruct (Z.leb_spec qm (q + 1)); [|lia]. by destruct (Z.eqb_spec qm INT32_MAX).
  - destruct (IH Hn Hwf) as (z & l' & -> & Hlast & Hrun). exists z, (l' ++ [x]).
    split; [done|]. split; [by rewrite last_snoc|]. intros pc stk S st Hok Hcode Hr.
    destruct (body_match a count x y pc stk S st Hn Hwf Hok Hev Hcode Hr) as (Hc & st1 & j & Hr1 & Hj).
    destruct (Hrun pc stk S _ ltac:(apply Hc) Hcode (round_state st1 st x y stk S Hr Hr1)) as (Hchain & st' & N & Hr' & HN). split.
    { apply last_Some in Hlast as (l0 & E). rewrite E in *. by apply chain_snoc. }
    exists st', (Datatypes.S (max j N)). split; [done|]. intros F G h HF HG. destruct G as [|G]; [lia|].
    erewrite greedy_loop_S by (apply Hj; lia). cbv zeta iota beta.
    assert ((q + 1 >=? qm) && negb (qm =? INT32_MAX) = false) as ->.
    { destruct (Z.geb_spec (q + 1) qm), (Z.eqb_spec qm INT32_MAX); try done. destruct Hgo. lia. }
    rewrite (HN F G h) by lia. rewrite zlen_app. change (zlen [x]) with 1. do 4 f_equal. lia.
Qed.

(** ** The choice point of the loop *)
Lemma greedy_fail n k pc1 v qmin qmax y z stk S res :
  code_at bc pc1 (le32 v ++ le32 qmin ++ le32 qmax ++ le32 n) → 0 <= v < 2 ^ 31 → 0 < n < 2 ^ 31 → 0 < k < 2 ^ 63 →
  chars_after n z y → state_ok z → zlen stk <= s_stack_size_max s →
  runs_at s (pc1 + 16 + v) z stk
    (if k - 1 =? 0 then S else saved RE_EXEC_STATE_GREEDY_QUANT (k - 1) pc1 z stk :: S) res →
  runs_fail s (saved RE_EXEC_STATE_GREEDY_QUANT k pc1 y stk :: S) res.
Proof.
  intros Hcode Hv Hn Hk (Hcaps & Hback & _ & Hoky) Hokz Hstk Hrun st Ha Hst.
  set (rest := if k - 1 =? 0 then S else saved RE_EXEC_STATE_GREEDY_QUANT (k - 1) pc1 z stk :: S) in *.
  destruct (restore_saved s st RE_EXEC_STATE_GREEDY_QUANT k pc1 y stk rest false (es_state_size st) Ha (ok_caps _ _ Hoky) Hstk)
    as (st' & E & Epc & Ecp & Hr).
  pose proof (restore_size _ _ _ _ E) as Hsz.
  apply (resumes_inr s _ _ (with_states (with_cptr (with_pc st' (pc1 + 16 + v)) (m_pos z)) rest (es_state_size st))).
  - rewrite Hst. cbn [exec_recurse rs_type saved negb]. unfold resume_greedy.
    fold (saved RE_EXEC_STATE_GREEDY_QUANT k pc1 y stk). rewrite E. cbn [mbind option_bind].
    unfold saved. cbn [rs_pc rs_cptr rs_count rs_type rs_capture rs_stack].
    pose proof Hcode as [Hc1 [_ [_ Hc4]%code_at_app]%code_at_app]%code_at_app. autorewrite with zlen in Hc4.
    rewrite <- (app_nil_r (le32 v)) in Hc1. rewrite <- (app_nil_r (le32 n)) in Hc4.
    replace (pc1 + 12) with (pc1 + 4 + 4 + 4) by lia.
    rewrite (code_at_u32 _ _ _ _ Hc4), u32_small by lia. cbn [mbind option_bind]. rewrite Hback. cbn [mbind option_bind].
    rewrite (code_at_u32 _ _ _ _ Hc1). cbn [mbind option_bind]. rewrite i32_u32 by lia.
    assert (u64 (k - 1) = k - 1) as -> by (apply Z.mod_small; lia). rewrite Hcaps, Hsz. done.
  - apply Hrun. destruct Hr as [_ Hcp Hca Hs2 Htl Hsz2 Hl2]. cbn in Hcp, Hca, Hs2, Htl, Hsz2, Hl2.
    split; cbn [es_pc es_cptr es_capture es_states es_stack es_stack_len with_states with_cptr with_pc]; [done..|congruence|done|done|done|done].
Qed.

(** the outcomes that remain at the choice point *)
Lemma greedy_outcomes n pc1 v qmin qmax stk S l y k end_ :
  code_at bc pc1 (le32 v ++ le32 qmin ++ le32 qmax ++ le32 n) → 0 <= v < 2 ^ 31 → 0 < n < 2 ^ 31 →
  zlen stk <= s_stack_size_max s → end_ = pc1 + 16 + v →
  chain n (y :: l) → (Datatypes.S k <= length l)%nat → Z.of_nat (Datatypes.S k) < 2 ^ 63 →
  outcomes s end_ stk S (take (Datatypes.S k) l)
    (runs_fail s (saved RE_EXEC_STATE_GREEDY_QUANT (Z.of_nat (Datatypes.S k)) pc1 y stk :: S)).
Proof.
  intros Hcode Hv Hn Hstk ->. revert y l. induction k as [|k IH]; intros y l Hl Hk Hsmall;
    (destruct l as [|z l]; [cbn in Hk; lia|]); destruct Hl as [Hzy Hl]; pose proof (chain_head _ _ _ Hl) as Hokz.
  - cbn [take]. apply outcomes_one. intros res Hrun. eapply greedy_fail; [exact Hcode|lia|lia|lia|done..|].
    by change (Z.of_nat 1 - 1 =? 0) with true.
  - set (rest := saved RE_EXEC_STATE_GREEDY_QUANT (Z.of_nat (Datatypes.S k)) pc1 z stk :: S).
    change (take (Datatypes.S (Datatypes.S k)) (z :: l)) with (z :: take (Datatypes.S k) l).
    exists rest. split; [apply extends_cons; by right|]. split.
    + intros res Hrun. eapply greedy_fail; [exact Hcode|lia|lia|lia|done..|].
      replace (Z.of_nat (Datatypes.S (Datatypes.S k)) - 1) with (Z.of_nat (Datatypes.S k)) by lia.
      by destruct (Z.eqb_spec (Z.of_nat (Datatypes.S k)) 0); [lia|].
    + apply IH; [done|cbn in Hk; lia|lia].
Qed.

(** ** The whole quantifier *)
Lemma backtrack_quant fuel st pc v l h :
  code_at bc pc (jump REOP_simple_greedy_quant v ++ l) → es_pc st = pc →
  lre_exec_backtrack s (Datatypes.S fuel) st false h =
    (r ← exec_simple_greedy_quant s (λ st, lre_exec_backtrack s fuel st true) fuel (with_pc st (pc + 1));
     match r with
     | SNext st => lre_exec_backtrack s fuel st false
     | SNoMatch st => exec_resume s fuel false false st
     | SError st => mret (RError, st)
     end) h.
Proof. intros [Hc _]%code_at_cons <-. cbn [lre_exec_backtrack]. by rewrite Hc, bind_lift. Qed.
Lemma runs_quant st pc v l st' (ok : bool) res :
  code_at bc pc (jump REOP_simple_greedy_quant v ++ l) → es_pc st = pc →
  (∃ N, ∀ F h, (N ≤ F)%nat → ∃ h',
     exec_simple_greedy_quant s (λ st, lre_exec_backtrack s F st true) F (with_pc st (pc + 1)) h =
       Some (if ok then SNext st' else SNoMatch st', h')) →
  (if ok then runs s st' res else resumes s false st' res) → runs s st res.
Proof.
  intros Hcode Hpc (N & HN) Hrun.
  assert (∃ n, ∀ fuel h, (n ≤ fuel)%nat → ∃ r st2 h2,
    (if ok then lre_exec_backtrack s fuel st' false else exec_resume s fuel false false st') h = Some ((r, st2), h2) ∧
    result r st2 res) as (n & Hn) by by destruct ok.
  exists (Datatypes.S (max N n)). intros fuel h Hf. destruct fuel as [|fuel]; [lia|].
  rewrite (backtrack_quant _ _ _ _ _ _ Hcode Hpc). destruct (HN fuel h) as (h' & E); [lia|].
  rewrite (bind_M_eq _ _ _ _ _ E). destruct (Hn fuel h') as (r & st2 & h2 & E2 & Hr); [lia|].
  exists r, st2, h2. split; [|done]. by destruct ok.
Qed.
Lemma represents_exists pc x stk S : zlen stk <= s_stack_size_max s → ∃ st, represents st pc x stk S.
Proof.
  intros Hle. exists (mkES (m_caps x) (map Some stk ++ repeat None (Z.to_nat (s_stack_size_max s - zlen stk)))
    (zlen stk) pc (m_pos x) S 0). split; cbn; [done..|by eexists| |done].
  rewrite zlen_app. unfold zlen in *. rewrite length_map, repeat_length. lia.
Qed.
(** the loop, and the choice point if there is one *)
Lemma exec_quant_eq F h st st' pc v quant_min quant_max count x y q stk S :
  code_at bc (pc + 1) (le32 v ++ le32 quant_min ++ le32 quant_max ++ le32 count) →
  0 <= v < 2 ^ 31 → 0 <= quant_min < 2 ^ 31 → 0 <= quant_max < 2 ^ 31 →
  represents st pc x stk S → represents st' (es_pc st') y stk S → state_ok y →
  greedy_loop (λ st, lre_exec_backtrack s F st true) F (with_pc st (pc + 1)) (pc + 17) 0 quant_max h =
    Some ((Some q, st'), h) →
  let end_ := pc + 17 + v in
  (q < quant_min ∧ exec_simple_greedy_quant s (λ st, lre_exec_backtrack s F st true) F (with_pc st (pc + 1)) h =
     Some (SNoMatch (with_pc st' end_), h)) ∨
  (q = quant_min ∧ exec_simple_greedy_quant s (λ st, lre_exec_backtrack s F st true) F (with_pc st (pc + 1)) h =
     Some (SNext (with_pc st' end_), h)) ∨
  (quant_min < q ∧ exec_simple_greedy_quant s (λ st, lre_exec_backtrack s F st true) F (with_pc st (pc + 1)) h =
     ('(ret, st2) ← push_state s (with_pc st' end_) (pc + 1) (m_pos y) RE_EXEC_STATE_GREEDY_QUANT (q - quant_min);
      mret (if ret <? 0 then SError st2 else SNext st2)) h).
Proof.
  intros Hcode Hv Hmin Hmax Hr Hr' Hy E end_. pose proof Hcode as [H1 [H2 [H3 _]%code_at_app]%code_at_app]%code_at_app.
  autorewrite with zlen in *.
  rewrite <- (app_nil_r (le32 _)) in H1; rewrite <- (app_nil_r (le32 _)) in H2; rewrite <- (app_nil_r (le32 _)) in H3.
  unfold exec_simple_greedy_quant. cbn [es_pc with_pc]. rewrite (code_at_u32 _ _ _ _ H1), u32_small, bind_lift by lia.
  replace (pc + 1 + 4) with (pc + 1 + 4) by lia. rewrite (code_at_u32 _ _ _ _ H2), u32_small, bind_lift by lia.
  replace (pc + 1 + 8) with (pc + 1 + 4 + 4) by lia. rewrite (code_at_u32 _ _ _ _ H3), u32_small, bind_lift by lia.
  replace (pc + 1 + 16) with (pc + 17) by lia. rewrite (bind_M_eq _ _ _ _ _ E). cbv beta iota zeta.
  rewrite <- (u32_small v), i32_u32, ?u32_small by lia. fold end_. replace (pc + 17 - 16) with (pc + 1) by lia.
  change (es_cptr (with_pc st' end_)) with (es_cptr st'). rewrite (rp_cptr _ _ _ _ _ _ Hr'). rewrite Z.gtb_ltb.
  destruct (Z.ltb_spec q quant_min); [by left|right]. destruct (Z.ltb_spec quant_min q); [by right|left]. split; [lia|done].
Qed.
(** from the loop to the outcomes *)
Lemma quant_outcomes pc v quant_min quant_max count x y l stk S :
  code_at bc pc (jump REOP_simple_greedy_quant v ++ le32 quant_min ++ le32 quant_max ++ le32 count) →
  0 <= v < 2 ^ 31 → 0 <= quant_min < 2 ^ 31 → 0 <= quant_max < 2 ^ 31 → 0 < count < 2 ^ 31 →
  zlen stk <= s_stack_size_max s → chain count (y :: l) →
  (∀ st, represents st pc x stk S → ∃ st' N, represents st' (es_pc st') y stk S ∧ ∀ F h, (N ≤ F)%nat →
     greedy_loop (λ st, lre_exec_backtrack s F st true) F (with_pc st (pc + 1)) (pc + 17) 0 quant_max h =
       Some ((Some (zlen l), st'), h)) →
  outcomes s (pc + 17 + v) stk S (take (length (y :: l) - Z.to_nat quant_min) (y :: l)) (runs_at s pc x stk S).
Proof.
  intros Hall Hv Hmin Hmax Hcount Hstk Hchain Hloop. pose proof (chain_head _ _ _ Hchain) as Hoky.
  pose proof (chain_length _ _ _ (proj1 Hcount) Hchain) as Hlen. pose proof (ok_pos _ _ Hoky) as Hpos.
  pose proof (cx_length _ Hcx) as Hclen. pose proof Hall as [_ Hcode]%code_at_app. rewrite zlen_jump in Hcode.
  change (pc + 5) with (pc + 5) in Hcode.
  assert (code_at bc (pc + 1) (le32 v ++ le32 quant_min ++ le32 quant_max ++ le32 count)) as Hops.
  { unfold jump in Hall. cbn [app] in Hall. by apply code_at_cons in Hall as [_ ?]. }
  set (m := (length (y :: l) - Z.to_nat quant_min)%nat). set (end_ := pc + 17 + v).
  destruct (Z.ltb_spec (zlen l) quant_min) as [Hlt|Hge].
  { assert (m = 0%nat) as -> by (subst m; cbn [length]; unfold zlen in Hlt; lia). cbn [take].
    intros res Hfail st Hr. destruct (Hloop st Hr) as (st' & N & Hr' & HN).
    eapply (runs_quant st pc v _ (with_pc st' end_) false); [exact Hall|apply Hr| |].
    - exists N. intros F h HF. exists h.
      destruct (exec_quant_eq F h st st' pc v quant_min quant_max count x y (zlen l) stk S) as [[_ ->]|[[? _]|[? _]]];
        try done || lia. by apply HN.
    - pose proof (represents_pc _ _ _ end_ _ _ _ Hr') as Hr2. apply Hfail; [by eapply represents_arrays|apply Hr2]. }
  assert (m = Datatypes.S (m - 1)) as Em by (subst m; cbn [length]; unfold zlen in Hge; lia). rewrite Em. cbn [take].
  set (k := zlen l - quant_min). assert (Z.of_nat (m - 1) = k) as Ek by (subst m k; cbn [length]; unfold zlen in *; lia).
  exists (if k =? 0 then S else saved RE_EXEC_STATE_GREEDY_QUANT k (pc + 1) y stk :: S). split; [|split].
  - destruct (k =? 0); [apply extends_refl|apply extends_cons; by right].
  - intros res Hrun st Hr. destruct (Hloop st Hr) as (st' & N & Hr' & HN).
    pose proof (represents_pc _ _ _ end_ _ _ _ Hr') as Hr2. destruct (Z.eqb_spec k 0) as [Hk|Hk].
    + eapply (runs_quant st pc v _ (with_pc st' end_) true); [exact Hall|apply Hr| |by apply Hrun].
      exists N. intros F h HF. exists h.
      destruct (exec_quant_eq F h st st' pc v quant_min quant_max count x y (zlen l) stk S) as [[? _]|[[_ ->]|[? _]]];
        try done || lia. by apply HN.
    + destruct (push_state_saved _ _ _ _ _ _ (pc + 1) (m_pos y) RE_EXEC_STATE_GREEDY_QUANT k Hr2 Hoky) as (size & Hp).
      eapply (runs_quant st pc v _ _ true); [exact Hall|apply Hr| |apply Hrun; eapply represents_with_states; exact Hr2].
      exists N. intros F h HF. destruct (Hp h) as (h' & E). exists h'.
      destruct (exec_quant_eq F h st st' pc v quant_min quant_max count x y (zlen l) stk S) as [[? _]|[[? _]|[_ ->]]];
        try done || lia; [by apply HN|].
      fold end_. fold k. rewrite (bind_M_eq _ _ _ _ _ E). cbn [Z.ltb Z.compare]. by destruct y.
  - destruct (m - 1)%nat as [|k'] eqn:Em1; [cbn in Ek; rewrite <- Ek; by intros res|].
    destruct (Z.eqb_spec k 0); [lia|]. rewrite <- Ek.
    eapply greedy_outcomes; [exact Hops|done|done|done| |exact Hchain|subst m; cbn [length] in *; lia|unfold zlen in *; lia].
    unfold end_. lia.
Qed.
Lemma sim_simple quant_min quant_max count a x l :
  wf (RSimple quant_min quant_max count a) → count < 2 ^ 31 → state_ok x → ev_iter s a quant_max 0 x l →
  sim_code s (RSimple quant_min quant_max count a) x (take (length l - Z.to_nat quant_min) l).
Proof.
  intros (Hwf & Hn & Hcount & Hmin & Hmax) Hc31 Hok Hiter pc stk S Hcode Hd. cbn [code depth] in *. unfold INT32_MAX in *.
  pose proof (code_at_small _ Hcx _ _ Hcode) as [_ Hsmall]. autorewrite with zlen in Hsmall.
  pose proof (zlen_nonneg (code a)). pose proof (depth_nonneg a).
  assert (code_at bc pc (jump REOP_simple_greedy_quant (zlen (code a) + 1) ++ le32 quant_min ++ le32 quant_max ++ le32 count) ∧
    code_at bc (pc + 17) (code a ++ [REOP_match])) as [Hhead Hbody].
  { rewrite !app_assoc in Hcode. rewrite <- (app_assoc _ (code a)) in Hcode. apply code_at_app in Hcode as [Hh Hb].
    rewrite <- !app_assoc in Hh. split; [done|]. by autorewrite with zlen in Hb. }
  destruct (greedy_rounds _ _ _ _ _ _ Hiter Hn Hwf) as (y & l' & -> & Hlast & Hrounds).
  destruct (represents_exists (pc + 1) x stk S ltac:(lia)) as (st0 & Hr0).
  destruct (Hrounds (pc + 17) stk S st0 Hok Hbody) as (Hchain & _); [by rewrite (rp_pc _ _ _ _ _ _ Hr0)|].
  match goal with |- outcomes _ ?e _ _ _ _ => replace e with (pc + 17 + (zlen (code a) + 1)) by (autorewrite with zlen; lia) end.
  eapply quant_outcomes; [exact Hhead|lia..|done|]. intros st Hr.
  destruct (Hrounds (pc + 17) stk S (with_pc st (pc + 1)) Hok Hbody) as (_ & st' & N & Hr' & HN); [by eapply represents_pc|].
  exists st', N. split; [done|]. intros F h HF. rewrite (HN F F h HF HF). by rewrite Z.add_0_l.
Qed.
End Greedy.
