(* ===== verification/ReCorrect.v ===== *)
(** * The executor computes the first outcome

    The constructs of ReRefine.v and ReGreedy.v put together: [lre_exec] on
    the byte code of a construct returns 1 with the captures of the first
    outcome, or 0 when there is none. *)
From S2P Require Import Prelude Alloc Cutils CharRange CaseConv Reliable ReOpcodes ReExec ReCode ReRange.
From S2P Require Import ReSyntax ReSem ReSubject ReOps ReSim ReRefine ReGreedy.

Section Correct.
Context `{!Allocator, !Reliable}.
Context (s : REExecContext) (Hcx : context_ok s).
Local Notation bc := (s_bc s).
Local Notation captures := (s_capture_count s).
Local Notation state_ok := (state_ok s).
Local Notation represents := (represents s).
Local Notation wf := (re_wf captures).

(** ** All constructs *)
(** inside of a counted loop the counter may have reached zero *)
Definition loop_wf (r : re) : Prop :=
  match r with
  | RUpto n _ _ a | RRep n a => wf a ∧ 0 <= n <= INT32_MAX
  | _ => wf r
  end.
Lemma re_wf_loop r : wf r → loop_wf r.
Proof. destruct r; cbn; intuition lia. Qed.
Definition sim (r : re) (x : mstate) (l : list mstate) : Prop :=
  match r with
  | RUpto n greedy check a => upto_sim s n greedy check a x l
  | RRep n a => rep_sim s n a x l
  | ROpt greedy false a => sim_code s r x l ∧ ∃ k, l = choice greedy k [x] ∧ sim_code s a x k
  | _ => sim_code s r x l
  end.
Lemma sim_sim_code r x l : wf r → sim r x l → sim_code s r x l.
Proof.
  destruct r; cbn [sim re_wf]; try done.
  - by destruct check; [|intros _ [? _]].
  - intros [_ ?]. by apply sim_upto_code.
  - intros [_ ?]. by apply sim_rep_code.
Qed.
Lemma sims_sim_code r l ls : wf r → Forall2 (sim r) l ls → Forall2 (sim_code s r) l ls.
Proof. intros Hwf Hs. eapply Forall2_impl; [exact Hs|]. intros. by apply sim_sim_code. Qed.
Lemma simple_count a n : simple a = Some n → n <= zlen (code a).
Proof.
  revert n. induction a; intros m Hm; try done; cbn [simple code] in *.
  - injection Hm as <-. done.
  - destruct o; try done; injection Hm as <-; try done. cbn [op_code]. unfold range_code.
    destruct (_ =? 0); [done|]. destruct (_ <=? _); rewrite zlen_app; change (zlen [_]) with 1;
      match goal with |- _ <= 1 + zlen ?l => pose proof (zlen_nonneg l) end; lia.
  - apply bind_Some in Hm as (n1 & H1 & Hm). apply bind_Some in Hm as (n2 & H2 & [= <-]).
    specialize (IHa1 _ H1). specialize (IHa2 _ H2). rewrite zlen_app. lia.
Qed.
Lemma advanced_ok check x l : Forall state_ok l → Forall state_ok (advanced check x l).
Proof.
  intros Hl. destruct check; [|done]. apply Forall_forall. intros y [_ Hy]%list_elem_of_filter.
  by eapply Forall_forall.
Qed.
Lemma choice_ok greedy x l : Forall state_ok l → state_ok x → Forall state_ok (choice greedy l [x]).
Proof. intros Hl Hx. assert (Forall state_ok [x]) by by constructor. destruct greedy; cbn [choice]; apply Forall_app; by split. Qed.
Lemma plus_split greedy a l ks :
  Forall2 (sim (ROpt greedy false (RPlus greedy a))) l ks →
  ∃ ls, Forall2 (sim_code s (RPlus greedy a)) l ls ∧ ks = zip_with (λ y k, choice greedy k [y]) l ls.
Proof.
  induction 1 as [|y ky l ks [_ (k & -> & Hk)] _ (ls & Hls & ->)]; [by exists []|].
  exists (k :: ls). split; [by constructor|done].
Qed.

(** an instruction keeps the state well-formed *)
Lemma step_char_ok f x y : state_ok x → step_char s f x = Some y → state_ok y.
Proof.
  intros Hok. unfold step_char.
  pose proof (ok_pos _ _ Hok).
  destruct (next_at_cases s (m_pos x) (cx_subject _ Hcx)) as [[_ ->]|(c & q & -> & _ & _ & Hq & Ha)]; [lia|done|].
  destruct (f c); [intros [= <-]; apply state_ok_move; [done|lia|done]|done].
Qed.
Lemma op_next_ok o x y : op_wf captures o → state_ok x → op_next s o x = Some y → state_ok y.
Proof.
  intros Hwf Hok Hy.
  (* every other instruction is run on its own *)
  assert (zlen (op_code o) < 2 ^ 31 → state_ok y) as Hrun; [|destruct o; try by apply Hrun].
  2: by eapply step_char_ok.
  intros Hsmall.
  set (s' := mkCtx (s_cbuf s) (s_cbuf_type s) captures 0 (s_multi_line s) (s_ignore_case s)
    (s_is_unicode s) (op_code o)).
  assert (context_ok s') as Hcx' by (by destruct Hcx).
  assert (op_next s' o x = Some y) as E by (by destruct o).
  assert (ReOps.state_ok s' x) as Hok' by (by destruct Hok).
  destruct (represents_exists s' 0 x [] []) as (st & Hr); [done|].
  destruct (exec_op s' Hcx' o st 0 x [] [] Hwf) as (st' & _ & Hm); [|done..|].
  - cbn [s_bc s']. exists [], []. by rewrite app_nil_r.
  - rewrite E in Hm. destruct Hm as [_ []]. by split.
Qed.

Lemma ev_sim_aux :
  (∀ r x l, ev s r x l → loop_wf r → state_ok x → Forall state_ok l ∧ sim r x l) ∧
  (∀ r l k, evs s r l k → loop_wf r → Forall state_ok l →
     Forall state_ok k ∧ ∃ ls, k = concat ls ∧ Forall2 (sim r) l ls) ∧
  (∀ a quant_max q x l, ev_iter s a quant_max q x l → wf a → state_ok x → Forall state_ok l).
Proof.
  apply ev_mutind.
  - intros x _ Hok. split; [by constructor|]. intros pc stk S Hcode _.
    change (zlen (code RNil)) with 0. rewrite Z.add_0_r. by apply outcomes_one.
  - intros o x Hwf Hok. split; [|by apply sim_op]. destruct (op_next s o x) as [y|] eqn:Ey; [|constructor].
    constructor; [by eapply op_next_ok|constructor].
  - intros a b x l k _ IHa _ IHb [Hwa Hwb] Hok. apply re_wf_loop in Hwa as Hla. apply re_wf_loop in Hwb as Hlb.
    destruct (IHa Hla Hok) as [Hl Ha]. destruct (IHb Hlb Hl) as [Hk (ls & -> & Hls)]. split; [done|].
    apply (sim_seq s a b x l); [by apply sim_sim_code|by apply sims_sim_code].
  - intros a b x l k _ IHa _ IHb [Hwa Hwb] Hok. apply re_wf_loop in Hwa as Hla. apply re_wf_loop in Hwb as Hlb.
    destruct (IHa Hla Hok) as [Hl Ha]. destruct (IHb Hlb Hok) as [Hk Hb]. split; [by apply Forall_app|].
    apply sim_alt; [done..|by apply sim_sim_code|by apply sim_sim_code].
  - intros a x l _ IHa Hwf Hok. destruct (IHa (re_wf_loop a Hwf) Hok) as [Hl Ha]. apply sim_sim_code in Ha; [|done].
    split; [|exact (sim_look s Hcx false a x l Hok Hl Ha)].
    destruct l as [|y l]; [constructor|]. apply Forall_cons in Hl as [Hy _]. constructor; [|constructor].
    apply (state_ok_caps s x (m_caps y) Hok); [by rewrite (ok_caps _ _ Hy), (ok_caps _ _ Hok)|apply Hy].
  - intros a x l _ IHa Hwf Hok. destruct (IHa (re_wf_loop a Hwf) Hok) as [Hl Ha]. apply sim_sim_code in Ha; [|done].
    split; [|exact (sim_look s Hcx true a x l Hok Hl Ha)]. destruct l as [|y l]; [by constructor|constructor].
  - intros quant_min quant_max count a x l Hiter IH Hwf Hok. pose proof Hwf as (Hwa & Hcount & _).
    split; [by apply Forall_take, IH|]. intros pc stk S Hcode Hd.
    assert (count < 2 ^ 31) as Hc.
    { pose proof (code_at_small _ Hcx _ _ Hcode) as [_ Hsmall]. cbn [code] in Hsmall. autorewrite with zlen in Hsmall.
      pose proof (simple_count _ _ Hcount). lia. }
    by apply (sim_simple s Hcx quant_min quant_max count a x l).
  - intros greedy check a x l _ IHa Hwf Hok. destruct (IHa (re_wf_loop a Hwf) Hok) as [Hl Ha]. apply sim_sim_code in Ha; [|done].
    split; [by apply choice_ok; [apply advanced_ok|]|]. pose proof (sim_opt s Hcx greedy check a x l Hok Hl Ha) as Hs.
    destruct check; [done|]. split; [done|]. by exists l.
  - intros greedy check a x l k _ IHa _ IHs Hwf Hok. destruct (IHa (re_wf_loop a Hwf) Hok) as [Hl Ha].
    apply sim_sim_code in Ha; [|done]. destruct (IHs Hwf (advanced_ok check x l Hl)) as [Hk (ls & -> & Hls)].
    split; [by apply choice_ok|]. by apply (sim_star s Hcx greedy check a x l ls).
  - intros greedy check a x [Hwf _] Hok. split; [by constructor|]. apply sim_upto_0.
  - intros n greedy check a x l k Hn _ IHa _ IHs [Hwf Hmax] Hok. destruct (IHa (re_wf_loop a Hwf) Hok) as [Hl Ha].
    apply sim_sim_code in Ha; [|done].
    destruct (IHs ltac:(cbn; split; [done|lia]) (advanced_ok check x l Hl)) as [Hk (ls & -> & Hls)].
    split; [by apply choice_ok|]. apply (sim_upto s Hcx n greedy check a x l ls); [lia|done..].
  - intros greedy a x l k _ IHa _ IHs Hwf Hok. destruct (IHa (re_wf_loop a Hwf) Hok) as [Hl Ha].
    apply sim_sim_code in Ha; [|done]. destruct (IHs Hwf Hl) as [Hk (ks & -> & Hks)]. split; [done|].
    destruct (plus_split _ _ _ _ Hks) as (ls & Hls & ->).
    by apply (sim_plus s Hcx greedy a x l ls).
  - intros a x [Hwf _] Hok. split; [by constructor|]. apply sim_rep_0.
  - intros n a x l k Hn _ IHa _ IHs [Hwf Hmax] Hok. destruct (IHa (re_wf_loop a Hwf) Hok) as [Hl Ha].
    apply sim_sim_code in Ha; [|done]. destruct (IHs ltac:(cbn; split; [done|lia]) Hl) as [Hk (ls & -> & Hls)].
    split; [done|]. apply (sim_rep s Hcx n a x l ls); [lia|done..].
  - intros r _ _. split; [constructor|]. by exists [].
  - intros r x l k ks _ IH _ IHs Hwf Hl. apply Forall_cons in Hl as [Hx Hl]. destruct (IH Hwf Hx) as [Hk Hs].
    destruct (IHs Hwf Hl) as [Hks (ls & -> & Hls)]. split; [by apply Forall_app|].
    exists (k :: ls). split; [done|by constructor].
  - intros a quant_max q x _ _ _ Hok. by constructor.
  - intros a quant_max q x y _ IHa _ _ Hwf Hok. destruct (IHa (re_wf_loop a Hwf) Hok) as [Hy _].
    apply (proj2 (Forall_app _ [y] [x])); split; [done|by constructor].
  - intros a quant_max q x y l _ IHa _ _ IH Hwf Hok. destruct (IHa (re_wf_loop a Hwf) Hok) as [Hy _].
    apply Forall_cons in Hy as [Hy _]. apply Forall_app; split; [by apply IH|by constructor].
Qed.

Lemma ev_state_ok r x l : ev s r x l → wf r → state_ok x → Forall state_ok l.
Proof. intros Hev Hwf%re_wf_loop Hok. by apply (proj1 ev_sim_aux r x l Hev Hwf). Qed.
Lemma ev_sim r x l : ev s r x l → wf r → state_ok x → sim_code s r x l.
Proof. intros Hev Hwf Hok. apply sim_sim_code; [done|]. by apply (proj1 ev_sim_aux r x l Hev (re_wf_loop _ Hwf)). Qed.

(** ** A run from the start *)
Definition start_state (cindex : Z) : mstate := mkM cindex (repeat None (Z.to_nat (2 * captures))).
Lemma start_state_ok cindex : 0 <= cindex <= s_cbuf_end s → aligned s cindex → state_ok (start_state cindex).
Proof.
  intros Hi Ha. pose proof (cx_captures _ Hcx). split; [done|done|..]; cbn [m_caps start_state].
  - unfold zlen. rewrite repeat_length. lia.
  - intros i p. unfold aget. destruct (i <? 0); [done|]. intros Hl%list_elem_of_lookup_2. 
    apply list_elem_of_In, repeat_spec in Hl. done.
Qed.
Lemma exec_init_represents cindex : 0 <= s_stack_size_max s → represents (exec_init s cindex) RE_HEADER_LEN (start_state cindex) [] [].
Proof.
  intros Hs. split; cbn [es_pc es_cptr es_capture es_states es_stack es_stack_len exec_init]; [done..| | |done].
  - by eexists.
  - unfold zlen. rewrite repeat_length. lia.
Qed.
Lemma run_first_outcome p cindex l :
  code_at bc RE_HEADER_LEN (code p ++ [REOP_match]) → wf p → depth p <= s_stack_size_max s →
  0 <= cindex <= s_cbuf_end s → aligned s cindex → ev s p (start_state cindex) l →
  runs s (exec_init s cindex) (match l with [] => None | y :: _ => Some (m_caps y) end).
Proof.
  intros [Hcode Hmatch]%code_at_app Hwf Hd Hi Ha Hev. pose proof (start_state_ok cindex Hi Ha) as Hok.
  pose proof (depth_nonneg p). pose proof (exec_init_represents cindex ltac:(lia)) as Hr.
  pose proof (ev_state_ok _ _ _ Hev Hwf Hok) as Hl.
  specialize (ev_sim _ _ _ Hev Hwf Hok RE_HEADER_LEN [] [] Hcode ltac:(done)) as Hout.
  destruct l as [|y l]; cbn [ReSim.outcomes] in Hout.
  - apply Hout; [|done]. apply fail_nil.
  - apply Forall_cons in Hl as [Hy _]. destruct Hout as (S' & (E & -> & HE) & Hrun & _). apply Hrun; [|done].
    eapply succ_at; [exact Hmatch|done|]. apply succ_plain; [done|]. apply succ_nil.
Qed.
End Correct.
