(* ===== verification/ReMatch.v ===== *)
(** * What [lre_exec] returns

    The programs that [lre_compile] makes look for a match of the pattern at
    each position from the start index on, or at the start index only with the
    flag [sticky].  [lre_exec] returns the first outcome of the pattern - in
    the order of the backtracking semantics - at the first of these positions
    where it has one. *)
From S2P Require Import Prelude Alloc Cutils CharRange CaseConv Reliable ReOpcodes ReExec ReCode ReRange.
From S2P Require Import ReSyntax ReSem ReSubject ReOps ReSim ReRefine ReGreedy ReCorrect.

(** the whole program: capture 0 is the match *)
Definition program (sticky : bool) (r : re) : re :=
  RSeq (if sticky then RNil else RStar false false (ROp OAny))
    (RSeq (ROp (OSaveStart 0)) (RSeq r (ROp (OSaveEnd 0)))).
Lemma program_depth sticky r : depth (program sticky r) = depth r.
Proof. pose proof (depth_nonneg r). destruct sticky; cbn [program depth b2z]; lia. Qed.

Section Positions.
Context (s : REExecContext).
(** the start positions, from [p] on *)
Fixpoint positions (fuel : nat) (p : Z) : list Z :=
  p :: match fuel, next_at s p with S fuel, Some (_, q) => positions fuel q | _, _ => [] end.
Definition starts (sticky : bool) (cindex : Z) : list Z :=
  if sticky then [cindex] else positions (length (s_cbuf s)) cindex.
(** the state of a search that starts at [p] *)
Definition try_state (p : Z) : mstate :=
  mkM p (set_cap 0 (Some p) (repeat None (Z.to_nat (2 * s_capture_count s)))).
(** the captures of a match: capture 0 ends where the pattern does *)
Definition match_captures (y : mstate) : list cap := set_cap 1 (Some (m_pos y)) (m_caps y).
End Positions.

Section Match.
Context (s : REExecContext) (Hcx : context_ok s).

Lemma evs_one r x l : ev s r x l → evs s r [x] l.
Proof. intros H. rewrite <- (app_nil_r l). by repeat econstructor. Qed.
Lemma ev_skip fuel p caps :
  0 <= p → zlen (s_cbuf s) - p <= Z.of_nat fuel →
  ev s (RStar false false (ROp OAny)) (mkM p caps) (map (λ q, mkM q caps) (positions s fuel p)).
Proof.
  revert p. induction fuel as [|fuel IH]; intros p Hp Hf; cbn [positions map];
    apply (ev_star s false false (ROp OAny) _ _ _ (ev_op s OAny (mkM p caps)));
    cbn [op_next advanced]; unfold step_char; cbn [m_pos m_caps];
    (destruct (next_at_cases s p (cx_subject _ Hcx)) as [[He ->]|(c & q & E & _ & _ & Hq & _)]; [lia|constructor|]).
  - unfold s_cbuf_end in Hq. lia.
  - rewrite E. cbn [option_list]. apply evs_one, IH; lia.
Qed.
Lemma ev_program sticky r cindex (L : Z → list mstate) :
  0 <= cindex → Forall (λ p, ev s r (try_state s p) (L p)) (starts s sticky cindex) →
  ev s (program sticky r) (start_state s cindex)
    (map (λ y, mkM (m_pos y) (match_captures y)) (flat_map L (starts s sticky cindex))).
Proof.
  intros Hi HL.
  assert (ev s (if sticky then RNil else RStar false false (ROp OAny)) (start_state s cindex)
    (map (λ q, mkM q (m_caps (start_state s cindex))) (starts s sticky cindex))) as Hstart.
  { destruct sticky; [constructor|]. apply ev_skip; [done|]. unfold zlen. lia. }
  eapply ev_seq; [exact Hstart|]. clear Hstart.
  induction HL as [|p ps Hp HL IH]; [constructor|]. cbn [map flat_map]. rewrite map_app. constructor; [|done].
  eapply ev_seq; [constructor|]. cbn [op_next option_list m_pos m_caps start_state]. apply evs_one.
  eapply ev_seq; [exact Hp|]. clear. induction (L p) as [|y l IH]; [constructor|].
  apply (evs_cons s _ y l [_]); [|exact IH]. constructor.
Qed.
Lemma program_wf sticky r : re_wf (s_capture_count s) r → re_wf (s_capture_count s) (program sticky r).
Proof. pose proof (cx_captures _ Hcx). intros Hwf. destruct sticky; cbn; repeat split; try done || lia. Qed.
End Match.

(** the code is the program of [r], and its header describes it *)
Record runs_program (bc_buf cbuf : list Z) (cbuf_type : Z) (s : REExecContext) (sticky : bool) (r : re) : Prop := {
  rn_context : exec_context bc_buf cbuf cbuf_type = Some s;
  rn_ok : context_ok s;
  rn_code : code_at bc_buf RE_HEADER_LEN (code (program sticky r) ++ [REOP_match]);
  rn_wf : re_wf (s_capture_count s) r;
  rn_depth : depth r <= s_stack_size_max s
}.
(** the result of [lre_exec] is that of a search with the outcomes [l] *)
Definition returns_first `{!Allocator} (bc_buf cbuf : list Z) (cindex cbuf_type : Z) (l : list mstate) : Prop :=
  ∃ n, ∀ fuel h, (n ≤ fuel)%nat → ∃ caps h',
    lre_exec fuel bc_buf cbuf cindex cbuf_type h =
      Some ((match l with [] => 0 | _ :: _ => 1 end, caps), h') ∧
    match l with [] => True | y :: _ => caps = match_captures y end.

Lemma context_fields bc_buf cbuf cbuf_type s :
  exec_context bc_buf cbuf cbuf_type = Some s → s_cbuf s = cbuf ∧ s_bc s = bc_buf.
Proof.
  unfold exec_context. intros Hfields. apply bind_Some in Hfields as (flags & _ & Hfields).
  apply bind_Some in Hfields as (count & _ & Hfields). by apply bind_Some in Hfields as (size & _ & [= <-]).
Qed.
Lemma context_length bc_buf cbuf cbuf_type s : exec_context bc_buf cbuf cbuf_type = Some s → s_cbuf_end s = zlen cbuf.
Proof. intros [E _]%context_fields. unfold s_cbuf_end. by rewrite E. Qed.

Lemma lre_exec_first_cases `{!Allocator, !Reliable} bc_buf cbuf cbuf_type s sticky r cindex L :
  runs_program bc_buf cbuf cbuf_type s sticky r → 0 <= cindex <= zlen cbuf → aligned s cindex →
  Forall (λ p, ev s r (try_state s p) (L p)) (starts s sticky cindex) →
  returns_first bc_buf cbuf cindex cbuf_type (flat_map L (starts s sticky cindex)).
Proof.
  intros [Hctx Hcx Hcode Hwf Hd] Hi Ha HL. pose proof (context_fields _ _ _ _ Hctx) as [Ecbuf Ebc].
  pose proof (ev_program s Hcx sticky r cindex L ltac:(lia) HL) as Hev.
  assert (code_at (s_bc s) RE_HEADER_LEN (code (program sticky r) ++ [REOP_match])) as Hcode' by (by rewrite Ebc).
  assert (0 <= cindex <= s_cbuf_end s) as Hi' by (unfold s_cbuf_end; by rewrite Ecbuf).
  destruct (run_first_outcome s Hcx (program sticky r) cindex _ Hcode' (program_wf s Hcx sticky r Hwf)
    ltac:(by rewrite program_depth) Hi' Ha Hev) as (n & Hn).
  exists n. intros fuel h Hf. destruct (Hn fuel h Hf) as (res & st & h' & E & Hres). clear Hn.
  unfold lre_exec. rewrite Hctx, bind_lift. exists (es_capture st), h'. rewrite (bind_M_eq _ _ _ _ _ E).
  destruct (flat_map L _) as [|y l]; cbn [map] in Hres; unfold result in Hres; cbn [m_caps] in Hres.
  - by subst res.
  - destruct Hres as [[p ->] Hcaps]. done.
Qed.

(** C14: [lre_exec] on the program of [r] returns, and its result is that of the
    backtracking semantics: 1 with the captures of the first outcome of [r] at
    the first start position that has one, or 0 when there is none. *)
Theorem lre_exec_first `{!Allocator, !Reliable} bc_buf cbuf cbuf_type s sticky r cindex L :
  runs_program bc_buf cbuf cbuf_type s sticky r → 0 <= cindex <= zlen cbuf → aligned s cindex →
  Forall (λ p, ev s r (try_state s p) (L p)) (starts s sticky cindex) →
  returns_first bc_buf cbuf cindex cbuf_type (flat_map L (starts s sticky cindex)).
Proof. apply lre_exec_first_cases. Qed.

(** the code of [/a|b/], run on [xab] *)
Definition witness_code : list Z := [0; 1; 0; 32; 0; 0; 0] ++ code (program false (RAlt (ROp (OChar 0x61)) (ROp (OChar 0x62)))) ++ [REOP_match].
Definition witness_context : REExecContext := mkCtx [0x78; 0x61; 0x62] 0 1 0 false false false witness_code.
Lemma witness_runs : runs_program witness_code [0x78; 0x61; 0x62] 0 witness_context false (RAlt (ROp (OChar 0x61)) (ROp (OChar 0x62))).
Proof.
  split; [done| |by exists [0; 1; 0; 32; 0; 0; 0], []|done|done].
  split; [repeat constructor; done|done|done|done].
Qed.
Lemma lre_exec_first_witness :
  let L p := option_list (op_next witness_context (OChar 0x61) (try_state witness_context p)) ++
             option_list (op_next witness_context (OChar 0x62) (try_state witness_context p)) in
  flat_map L (starts witness_context false 0) =
    [mkM 2 [Some 1; None]; mkM 3 [Some 2; None]] ∧
  returns_first (H := total_allocator) witness_code [0x78; 0x61; 0x62] 0 0 (flat_map L (starts witness_context false 0)).
Proof.
  intros L. split; [by vm_compute|].
  apply (lre_exec_first witness_code [0x78; 0x61; 0x62] 0 witness_context false (RAlt (ROp (OChar 0x61)) (ROp (OChar 0x62))) 0 L).
  - exact witness_runs.
  - done.
  - by intros ?.
  - apply Forall_forall. intros p _. apply ev_alt; apply ev_op.
Defined.
