(* ===== verification/ReTotal.v ===== *)
(** * Searches that end

    A loop ends when each round moves the position, always in the same
    direction: the body either reads a character wherever it goes, or is
    checked to advance ([REOP_check_advance]).  Such constructs have a list of
    outcomes from every state, so that [lre_exec] returns. *)
From S2P Require Import Prelude Alloc Cutils CharRange CaseConv Reliable ReOpcodes ReExec ReCode ReRange.
From S2P Require Import ReSyntax ReSem ReSubject ReOps ReSim ReRefine ReGreedy ReCorrect ReMatch.

(** ** The direction of a construct *)
Definition char_op (o : op) : bool := bool_decide (op_chars o = Some 1).
(** instructions that do not move *)
Definition stays (o : op) : bool :=
  match o with
  | OLineStart | OLineEnd | OWordBoundary _ | OSaveStart _ | OSaveEnd _ | OSaveReset _ _ => true
  | _ => false
  end.
(** a character before the position, as the compiler emits it in a lookbehind *)
Definition char_before (o : op) : re := RSeq (ROp OPrev) (RSeq (ROp o) (ROp OPrev)).

(** every outcome reads a character *)
Inductive consumes : re → Prop :=
| consumes_op o : char_op o = true → consumes (ROp o)
| consumes_before o : char_op o = true → consumes (char_before o)
| consumes_l a b : consumes a → consumes (RSeq a b)
| consumes_r a b : consumes b → consumes (RSeq a b).
(** [directed backward r]: [r] moves in one direction, and its loops end *)
Inductive directed : bool → re → Prop :=
| dir_nil d : directed d RNil
| dir_stays d o : stays o = true → directed d (ROp o)
| dir_char o : char_op o = true → directed false (ROp o)
| dir_prev : directed true (ROp OPrev)
| dir_back_ref d k : directed d (ROp (OBackRef d k))
| dir_before o : char_op o = true → directed true (char_before o)
| dir_seq d a b : directed d a → directed d b → directed d (RSeq a b)
| dir_alt d a b : directed d a → directed d b → directed d (RAlt a b)
| dir_look d d' neg a : directed d' a → directed d (RLook neg a)
| dir_simple quant_min quant_max count a : directed false a → directed false (RSimple quant_min quant_max count a)
| dir_opt d greedy check a : directed d a → directed d (ROpt greedy check a)
| dir_star d greedy (check : bool) a :
    directed d a → check = true ∨ consumes a → directed d (RStar greedy check a)
| dir_upto d n greedy check a : directed d a → directed d (RUpto n greedy check a)
| dir_plus d greedy a : directed d a → consumes a → directed d (RPlus greedy a)
| dir_rep d n a : directed d a → directed d (RRep n a).

Section Total.
Context (s : REExecContext) (Hcx : context_ok s).
Local Notation state_ok := (state_ok s).
Local Notation wf := (re_wf (s_capture_count s)).
Local Notation cbuf_end := (s_cbuf_end s).

(** [y] is not behind [x], and not at [x] when [strict] *)
Definition moved (d : bool) (strict : Prop) (x y : mstate) : Prop :=
  (if d then m_pos y <= m_pos x else m_pos x <= m_pos y) ∧ (strict → m_pos y ≠ m_pos x).
(** what is left of the subject *)
Definition left (d : bool) (x : mstate) : Z := if d then m_pos x else cbuf_end - m_pos x.
Definition ends_in (d : bool) (strict : Prop) (r : re) (x : mstate) : Prop :=
  ∃ l, ev s r x l ∧ Forall (λ y, state_ok y ∧ moved d strict x y) l.
Definition ends (d : bool) (r : re) : Prop := ∀ x, state_ok x → ends_in d (consumes r) r x.

Lemma left_nonneg d x : state_ok x → 0 <= left d x.
Proof. intros Hok. pose proof (ok_pos _ _ Hok). unfold left. destruct d; lia. Qed.
Lemma moved_refl d x : moved d False x x.
Proof. split; [destruct d; lia|done]. Qed.
Lemma moved_trans d (P Q R : Prop) x y z : moved d P x y → moved d Q y z → (R → P ∨ Q) → moved d R x z.
Proof.
  intros [H1 H2] [H3 H4] HR. split; [destruct d; lia|]. intros [HP|HQ]%HR;
    [specialize (H2 HP)|specialize (H4 HQ)]; destruct d; lia.
Qed.
Lemma moved_left d P x y : moved d P x y → left d y <= left d x.
Proof. intros [H _]. unfold left. destruct d; lia. Qed.
Lemma moved_left_strict d P x y : P → moved d P x y → left d y < left d x.
Proof. intros HP [H1 H2]. specialize (H2 HP). unfold left. destruct d; lia. Qed.
Lemma moved_mono d (P Q : Prop) x y : (Q → P) → moved d P x y → moved d Q x y.
Proof. intros HQ [H1 H2]. split; [done|]. auto. Qed.

(** the outcomes from each state of a list *)
Lemma ends_list d (P Q R : Prop) r x l :
  (R → P ∨ Q) → Forall (λ y, state_ok y ∧ moved d P x y ∧ ends_in d Q r y) l →
  ∃ k, evs s r l k ∧ Forall (λ z, state_ok z ∧ moved d R x z) k.
Proof.
  intros HR. induction 1 as [|y l (Hy & Hxy & k1 & Hev1 & Hk1) _ (k2 & Hev2 & Hk2)]; [exists []; by repeat constructor|].
  exists (k1 ++ k2). split; [by constructor|]. apply Forall_app; split; [|done].
  eapply Forall_impl; [exact Hk1|]. intros z [Hz Hyz]. split; [done|]. by eapply moved_trans.
Qed.

(** ** Instructions *)
Lemma ends_op d (P : Prop) o x :
  op_wf (s_capture_count s) o → state_ok x → (∀ y, op_next s o x = Some y → moved d P x y) → ends_in d P (ROp o) x.
Proof.
  intros Hwf Hok Hm. exists (option_list (op_next s o x)). split; [constructor|].
  destruct (op_next s o x) as [y|] eqn:Ey; cbn [option_list]; constructor; [|constructor].
  split; [by eapply (op_next_ok s Hcx)|auto].
Qed.
Lemma stays_pos o x y : stays o = true → op_next s o x = Some y → m_pos y = m_pos x.
Proof.
  destruct o; try done; intros _; cbn [op_next]; unfold when;
    try (destruct (_ : bool); [|done]); by intros [= <-].
Qed.
Lemma char_op_pos o x y : char_op o = true → state_ok x → op_next s o x = Some y → m_pos x < m_pos y.
Proof.
  intros Ho Hok. pose proof (ok_pos _ _ Hok).
  assert (∀ f, step_char s f x = Some y → m_pos x < m_pos y) as Hstep.
  { intros f. unfold step_char.
    destruct (next_at_cases s (m_pos x) (cx_subject _ Hcx)) as [[_ ->]|(c & q & -> & _ & _ & Hq & _)]; [lia|done|].
    destruct (f c); [|done]. intros [= <-]. cbn. lia. }
  destruct o; try done; cbn [op_next]; apply Hstep.
Qed.
Lemma prev_pos x y : state_ok x → op_next s OPrev x = Some y → m_pos y < m_pos x.
Proof.
  intros Hok. pose proof (ok_pos _ _ Hok). cbn [op_next].
  destruct (prev_at_cases s (m_pos x) (cx_subject _ Hcx)) as [[_ ->]|(c & q & -> & _ & _ & Hq & _)]; [lia|done|].
  intros [= <-]. cbn. lia.
Qed.
(** the text of a group moves like its characters *)
Lemma same_text_moves next (le : Z → Z → Prop) (ok : Z → Prop) cs p q :
  (∀ p, le p p) → (∀ p q r, le p q → le q r → le p r) →
  (∀ p c q, ok p → next p = Some (c, q) → le p q ∧ ok q) → ok p → same_text s next cs p = Some q → le p q.
Proof.
  intros Hrefl Htrans Hnext. revert p. induction cs as [|c cs IH]; intros p Hok; cbn [same_text]; [by intros [= ->]|].
  destruct (next p) as [[c' p']|] eqn:En; [|done]. destruct (bool_decide _); [|done].
  destruct (Hnext _ _ _ Hok En) as [Hle Hok']. intros Ht. eauto.
Qed.
Lemma back_ref_moved d k x y : state_ok x → op_next s (OBackRef d k) x = Some y → moved d False x y.
Proof.
  intros Hok. pose proof (ok_pos _ _ Hok) as Hp. cbn [op_next]. unfold back_ref. destruct (_ >=? _); [done|].
  destruct (get_cap _ _) as [a|]; [|by intros [= <-]; apply moved_refl].
  destruct (get_cap _ _) as [b|]; [|by intros [= <-]; apply moved_refl].
  destruct (if d then _ else _) as [q|] eqn:Eq; [|done]. intros [= <-]. split; [|done]. cbn [m_pos].
  destruct d; revert Eq.
  - apply (same_text_moves _ (λ p q, q <= p) (λ p, 0 <= p <= cbuf_end)); [lia|lia| |done].
    intros p c q' Hpr E. destruct (prev_at_cases s p (cx_subject _ Hcx) Hpr) as [[_ ?]|(? & ? & E' & _ & _ & ? & _)]; [congruence|].
    rewrite E in E'. injection E' as _ <-. lia.
  - apply (same_text_moves _ Z.le (λ p, 0 <= p <= cbuf_end)); [lia|lia| |done].
    intros p c q' Hpr E. destruct (next_at_cases s p (cx_subject _ Hcx) (proj1 Hpr)) as [[_ ?]|(? & ? & E' & _ & _ & ? & _)]; [congruence|].
    rewrite E in E'. injection E' as _ <-. lia.
Qed.
(** back, over one character, and back again: one character before *)
Lemma char_before_moved o x z y w :
  char_op o = true → state_ok x → state_ok y →
  op_next s OPrev x = Some y → op_next s o y = Some z → op_next s OPrev z = Some w → m_pos w < m_pos x.
Proof.
  intros Ho Hok Hoky Hxy Hyz Hzw. pose proof (prev_pos _ _ Hok Hxy). pose proof (ok_pos _ _ Hoky) as Hpy.
  assert (∃ f, step_char s f y = Some z) as (f & Hf).
  { destruct o; try done; cbn [op_next] in Hyz; eauto. }
  unfold step_char in Hf. destruct (next_at s (m_pos y)) as [[c q]|] eqn:En; [|done].
  destruct (f c); [|done]. injection Hf as <-. cbn [op_next m_pos m_caps] in Hzw.
  rewrite (prev_at_next_at _ _ _ _ (cx_subject _ Hcx) (proj1 Hpy) (ok_aligned _ _ Hoky) En) in Hzw.
  injection Hzw as <-. done.
Qed.
Lemma ends_before o x (P : Prop) :
  char_op o = true → op_wf (s_capture_count s) o → state_ok x → ends_in true P (char_before o) x.
Proof.
  intros Ho Hwf Hok. unfold char_before.
  assert (∀ o x, ∃ l, ev s (ROp o) x l ∧ l = option_list (op_next s o x)) as Hop by (intros; eexists; by split; [constructor|]).
  set (l := match op_next s OPrev x with
    | Some y => match op_next s o y with Some z => option_list (op_next s OPrev z) | None => [] end | None => [] end).
  exists l. split.
  - eapply ev_seq; [constructor|]. subst l. destruct (op_next s OPrev x) as [y|]; cbn [option_list]; [|constructor].
    apply evs_one. eapply ev_seq; [constructor|]. destruct (op_next s o y) as [z|]; cbn [option_list]; [|constructor].
    apply evs_one. constructor.
  - subst l. destruct (op_next s OPrev x) as [y|] eqn:Exy; [|constructor].
    destruct (op_next s o y) as [z|] eqn:Eyz; [|constructor]. destruct (op_next s OPrev z) as [w|] eqn:Ezw; [|constructor].
    assert (state_ok y) as Hy by (eapply (op_next_ok s Hcx); [|exact Hok|exact Exy]; done).
    assert (state_ok z) as Hz by (eapply (op_next_ok s Hcx); [|exact Hy|exact Eyz]; done).
    constructor; [|constructor]. split; [eapply (op_next_ok s Hcx); [|exact Hz|exact Ezw]; done|].
    pose proof (char_before_moved _ _ _ _ _ Ho Hok Hy Exy Eyz Ezw). split; lia.
Qed.

(** ** Loops *)
Lemma moved_advanced d (P : Prop) (check : bool) x l :
  check = true ∨ P → Forall (λ y, state_ok y ∧ moved d P x y) l →
  Forall (λ y, state_ok y ∧ moved d True x y) (advanced check x l).
Proof.
  intros Hc Hl. apply Forall_forall. intros y Hy. rewrite Forall_forall in Hl. destruct check; cbn [advanced] in Hy.
  - apply list_elem_of_filter in Hy as [Hne Hy]. destruct (Hl y Hy) as [? [Hm _]]. done.
  - destruct Hc as [?|HP]; [done|]. destruct (Hl y Hy) as [? Hm]. split; [done|]. by eapply moved_mono; [|exact Hm].
Qed.
Lemma moved_weaken d (P : Prop) x l :
  Forall (λ y, state_ok y ∧ moved d P x y) l → Forall (λ y, state_ok y ∧ moved d False x y) l.
Proof. intros Hl. eapply Forall_impl; [exact Hl|]. intros y [? Hm]. split; [done|]. by eapply moved_mono; [|exact Hm]. Qed.
Lemma moved_weak_advanced d (P : Prop) check x l :
  Forall (λ y, state_ok y ∧ moved d P x y) l → Forall (λ y, state_ok y ∧ moved d False x y) (advanced check x l).
Proof.
  intros Hl%moved_weaken. destruct check; [|done]. apply Forall_forall. intros y [_ Hy]%list_elem_of_filter.
  rewrite Forall_forall in Hl. auto.
Qed.
Lemma choice_moved d greedy x k :
  state_ok x → Forall (λ y, state_ok y ∧ moved d False x y) k →
  Forall (λ y, state_ok y ∧ moved d False x y) (choice greedy k [x]).
Proof.
  intros Hok Hk. assert (Forall (λ y, state_ok y ∧ moved d False x y) [x])
    by (constructor; [split; [done|by apply moved_refl]|constructor]).
  destruct greedy; cbn [choice]; apply Forall_app; by split.
Qed.
(** a loop each round of which advances *)
Lemma ends_rounds d r x l :
  state_ok x → (∀ y, state_ok y → left d y < left d x → ends_in d False r y) →
  Forall (λ y, state_ok y ∧ moved d True x y) l →
  ∃ k, evs s r l k ∧ Forall (λ z, state_ok z ∧ moved d False x z) k.
Proof.
  intros Hok Hr Hl. apply (ends_list d True False False); [tauto|]. eapply Forall_impl; [exact Hl|].
  intros y [Hy Hm]. split; [done|]. split; [done|]. apply Hr; [done|]. by eapply moved_left_strict; [|exact Hm].
Qed.
Lemma left_ind d (P : mstate → Prop) :
  (∀ x, state_ok x → (∀ y, state_ok y → left d y < left d x → P y) → P x) → ∀ x, state_ok x → P x.
Proof.
  intros Hind. assert (∀ n x, state_ok x → left d x < n → P x) as H.
  { intros n. destruct (Z.le_ge_cases n 0) as [Hn|Hn]; [intros x Hok; pose proof (left_nonneg d x Hok); lia|].
    revert n Hn. apply (natlike_ind (λ n, ∀ x, state_ok x → left d x < n → P x)).
    - intros x Hok. pose proof (left_nonneg d x Hok). lia.
    - intros n Hn IH x Hok Hlt. apply Hind; [done|]. intros y Hy Hlt'. apply IH; [done|lia]. }
  intros x Hok. eapply H; [done|]. apply Z.lt_succ_diag_r.
Qed.

Lemma ends_star d greedy (check : bool) a x :
  ends d a → check = true ∨ consumes a → state_ok x → ends_in d False (RStar greedy check a) x.
Proof.
  intros Ha Hc Hok. revert x Hok. apply (left_ind d). intros x Hok IH. destruct (Ha x Hok) as (l & Hev & Hl).
  destruct (ends_rounds d (RStar greedy check a) x (advanced check x l) Hok IH) as (k & Hk & Hm);
    [by eapply moved_advanced; [exact Hc|]|].
  exists (choice greedy k [x]). split; [by econstructor|by apply choice_moved].
Qed.
Lemma ends_plus d greedy a x : ends d a → consumes a → state_ok x → ends_in d False (RPlus greedy a) x.
Proof.
  intros Ha Hc Hok. revert x Hok. apply (left_ind d). intros x Hok IH. destruct (Ha x Hok) as (l & Hev & Hl).
  destruct (ends_rounds d (ROpt greedy false (RPlus greedy a)) x l Hok) as (k & Hk & Hm).
  - intros y Hy Hlt. destruct (IH y Hy Hlt) as (ky & Hky & Hmy). exists (choice greedy ky [y]).
    split; [by apply (ev_opt s greedy false)|by apply choice_moved].
  - apply (moved_advanced d _ false x l (or_intror Hc) Hl).
  - exists k. split; [by econstructor|done].
Qed.
Lemma ends_upto d n greedy check a x : 0 <= n → ends d a → state_ok x → ends_in d False (RUpto n greedy check a) x.
Proof.
  intros Hn Ha. revert x. pattern n. apply natlike_ind; [| |done]; clear n Hn.
  - intros x Hok. exists [x]. split; [constructor|]. constructor; [split; [done|by apply moved_refl]|constructor].
  - intros n Hn IH x Hok. destruct (Ha x Hok) as (l & Hev & Hl).
    destruct (ends_list d False False False (RUpto n greedy check a) x (advanced check x l)) as (k & Hk & Hm); [tauto| |].
    + eapply Forall_impl; [by eapply moved_weak_advanced|]. intros y [Hy Hm]. eauto.
    + exists (choice greedy k [x]). split; [|by apply choice_moved]. econstructor; [lia|done|].
      by replace (Z.succ n - 1) with n by lia.
Qed.
Lemma ends_rep d n a x : 0 <= n → ends d a → state_ok x → ends_in d False (RRep n a) x.
Proof.
  intros Hn Ha. revert x. pattern n. apply natlike_ind; [| |done]; clear n Hn.
  - intros x Hok. exists [x]. split; [constructor|]. constructor; [split; [done|by apply moved_refl]|constructor].
  - intros n Hn IH x Hok. destruct (Ha x Hok) as (l & Hev & Hl).
    destruct (ends_list d False False False (RRep n a) x l) as (k & Hk & Hm); [tauto| |].
    + eapply Forall_impl; [by eapply moved_weaken|]. intros y [Hy Hm]. eauto.
    + exists k. split; [|done]. econstructor; [lia|done|]. by replace (Z.succ n - 1) with n by lia.
Qed.

(** ** Simple bodies *)
Lemma simple_outcome a n x :
  simple a = Some n → wf a → state_ok x →
  ∃ o, ev s a x (option_list o) ∧ ∀ y, o = Some y → chars_after s n x y.
Proof.
  revert n x. induction a; intros cnt x Hn Hwf Hok; try done; cbn [simple re_wf] in *.
  - injection Hn as <-. exists (Some x). split; [constructor|]. intros y [= <-]. by apply chars_after_refl.
  - exists (op_next s o x). split; [constructor|]. intros y Hy. by eapply (op_next_chars s Hcx).
  - apply bind_Some in Hn as (n1 & H1 & Hn). apply bind_Some in Hn as (n2 & H2 & [= <-]). destruct Hwf as [Hw1 Hw2].
    destruct (IHa1 n1 x H1 Hw1 Hok) as ([y|] & Hev1 & Hy); cbn [option_list] in Hev1.
    + destruct (IHa2 n2 y H2 Hw2 ltac:(by apply (Hy y))) as (o & Hev2 & Hz). exists o.
      split; [by eapply ev_seq, evs_one|]. intros z ->.
      eapply chars_after_trans; [by eapply simple_nonneg|by eapply simple_nonneg|by apply Hy|by apply Hz].
    + exists None. split; [|done]. by eapply ev_seq; [|constructor].
Qed.
Lemma iter_ends a n quant_max q x :
  simple a = Some n → 0 < n → wf a → state_ok x →
  ∃ l, ev_iter s a quant_max q x l ∧ Forall (λ y, state_ok y ∧ moved false False x y) l.
Proof.
  intros Hn Hpos Hwf Hok. revert q. revert x Hok.
  match goal with |- ∀ x, _ → @?P x => apply (left_ind false P) end.
  intros x Hok IH q. destruct (simple_outcome a n x Hn Hwf Hok) as (o & Hev & Ho).
  assert (state_ok x ∧ moved false False x x) as Hx by (split; [done|by apply moved_refl]).
  destruct o as [y|]; [|exists [x]; split; [by constructor|by constructor]].
  destruct (Ho y eq_refl) as (_ & _ & Hlt & Hy). assert (moved false False x y) as Hxy by (split; [lia|done]).
  destruct (decide (q + 1 >= quant_max ∧ quant_max ≠ INT32_MAX)) as [[Hm Hinf]|Hgo].
  - exists [y; x]. split; [by apply ev_iter_max|]. constructor; [done|by constructor].
  - destruct (IH y Hy ltac:(cbn; lia) (q + 1)) as (l & Hl & Hml). exists (l ++ [x]).
    split; [by eapply ev_iter_next|]. apply Forall_app; split; [|by constructor].
    eapply Forall_impl; [exact Hml|]. intros z [Hz Hyz]. split; [done|].
    eapply moved_trans; [exact Hxy|exact Hyz|tauto].
Qed.

(** ** All constructs *)
Lemma consumes_seq_inv a b :
  consumes (RSeq a b) → consumes a ∨ consumes b.
Proof. inversion 1; subst; [right; by constructor; constructor|by left|by right]. Qed.
Lemma ends_weak d r : (¬ consumes r) → (∀ x, state_ok x → ends_in d False r x) → ends d r.
Proof.
  intros Hc Hr x Hok. destruct (Hr x Hok) as (l & Hev & Hl). exists l. split; [done|].
  eapply Forall_impl; [exact Hl|]. intros y [Hy Hm]. split; [done|]. by eapply moved_mono; [|exact Hm].
Qed.
Lemma directed_ends d r : directed d r → wf r → ends d r.
Proof.
  induction 1 as [d|d o Ho|o Ho| |d k|d o Ho|d a b _ IHa _ IHb|d a b _ IHa _ IHb|d d' neg a _ IHa|qmin qmax n a _ _
    |d greedy check a _ IHa|d greedy check a _ IHa Hc|d n greedy check a _ IHa|d greedy a _ IHa Hc|d n a _ IHa];
    intros Hwf.
  - apply ends_weak; [by inversion 1|]. intros x Hok. exists [x]. split; [constructor|].
    constructor; [split; [done|apply moved_refl]|constructor].
  - apply ends_weak; [by inversion 1; destruct o|]. intros x Hok. apply ends_op; [done..|]. intros y Hy.
    pose proof (stays_pos _ _ _ Ho Hy). split; [destruct d; lia|done].
  - intros x Hok. apply ends_op; [done..|]. intros y Hy. pose proof (char_op_pos _ _ _ Ho Hok Hy). split; lia.
  - intros x Hok. apply ends_op; [done..|]. intros y Hy. pose proof (prev_pos _ _ Hok Hy). split; lia.
  - apply ends_weak; [by inversion 1|]. intros x Hok. apply ends_op; [done..|]. intros y. by apply back_ref_moved.
  - destruct Hwf as (_ & Hwf & _). intros x Hok. by apply ends_before.
  - destruct Hwf as [Hwa Hwb]. intros x Hok. destruct (IHa Hwa x Hok) as (l & Hev & Hl).
    destruct (ends_list d (consumes a) (consumes b) (consumes (RSeq a b)) b x l) as (k & Hk & Hm);
      [apply consumes_seq_inv| |exists k; split; [by econstructor|done]].
    eapply Forall_impl; [exact Hl|]. intros y [Hy Hm]. split; [done|]. split; [done|]. by apply IHb.
  - destruct Hwf as [Hwa Hwb]. apply ends_weak; [by inversion 1|]. intros x Hok.
    destruct (IHa Hwa x Hok) as (l & Hev & Hl%moved_weaken). destruct (IHb Hwb x Hok) as (k & Hevb & Hk%moved_weaken).
    exists (l ++ k). split; [by constructor|by apply Forall_app].
  - apply ends_weak; [by inversion 1|]. intros x Hok. destruct (IHa Hwf x Hok) as (l & Hev & Hl).
    assert (∀ k, ev s (RLook neg a) x k → Forall (λ y, m_pos y = m_pos x) k → ends_in d False (RLook neg a) x) as Hends.
    { intros k Hk Hp. exists k. split; [done|]. pose proof (ev_state_ok s Hcx (RLook neg a) x k Hk Hwf Hok) as Hoks.
      rewrite Forall_forall in Hp. rewrite Forall_forall in Hoks. apply Forall_forall. intros y Hy.
      split; [auto|]. specialize (Hp y Hy). split; [destruct d; lia|done]. }
    destruct neg; [apply ev_look_not in Hev|apply ev_look in Hev]; (eapply Hends; [exact Hev|]); by destruct l; repeat constructor.
  - destruct Hwf as (Hwa & Hn & Hpos & _). apply ends_weak; [by inversion 1|]. intros x Hok.
    destruct (iter_ends a n qmax 0 x Hn Hpos Hwa Hok) as (l & Hl & Hm). eexists. split; [by constructor|].
    by apply Forall_take.
  - apply ends_weak; [by inversion 1|]. intros x Hok. destruct (IHa Hwf x Hok) as (l & Hev & Hl).
    exists (choice greedy (advanced check x l) [x]). split; [by constructor|].
    apply choice_moved; [done|by eapply moved_weak_advanced].
  - apply ends_weak; [by inversion 1|]. intros x Hok. apply ends_star; auto.
  - destruct Hwf as [Hwf Hn]. apply ends_weak; [by inversion 1|]. intros x Hok. apply ends_upto; auto. lia.
  - apply ends_weak; [by inversion 1|]. intros x Hok. apply ends_plus; auto.
  - destruct Hwf as [Hwf Hn]. apply ends_weak; [by inversion 1|]. intros x Hok. apply ends_rep; auto. lia.
Qed.
End Total.

Lemma starts_ok s sticky cindex :
  context_ok s → 0 <= cindex <= s_cbuf_end s → aligned s cindex →
  Forall (λ p, cindex <= p <= s_cbuf_end s ∧ aligned s p) (starts s sticky cindex).
Proof.
  intros Hcx Hi Ha. unfold starts. destruct sticky; [constructor; [split; [lia|done]|constructor]|].
  assert (∀ n p, cindex <= p <= s_cbuf_end s → aligned s p →
    Forall (λ p, cindex <= p <= s_cbuf_end s ∧ aligned s p) (positions s n p)) as H; [|apply H; [lia|done]].
  induction n as [|n IH]; intros p Hp Hap; cbn [positions]; (constructor; [done|]); [constructor|].
  destruct (next_at_cases s p (cx_subject _ Hcx)) as [[_ ->]|(c & q & -> & _ & _ & Hq & Haq)]; [lia|constructor|].
  apply IH; [lia|done].
Qed.
Lemma try_state_ok s p : context_ok s → 0 <= p <= s_cbuf_end s → aligned s p → state_ok s (try_state s p).
Proof.
  intros Hcx Hp Ha. pose proof (cx_captures _ Hcx). apply (state_ok_set_cap s (start_state s p) 0 (Some p)).
  - by apply start_state_ok.
  - lia.
  - by intros q [= <-].
Qed.
(** a construct that ends has a list of outcomes at each start position *)
Lemma starts_outcomes s sticky r cindex d :
  context_ok s → re_wf (s_capture_count s) r → directed d r → 0 <= cindex <= s_cbuf_end s → aligned s cindex →
  ∃ L, Forall (λ p, ev s r (try_state s p) (L p) ∧ Forall (λ y, state_ok s y ∧ moved d False (try_state s p) y) (L p))
    (starts s sticky cindex).
Proof.
  intros Hcx Hwf Hd Hi Ha. pose proof (starts_ok s sticky cindex Hcx Hi Ha) as Hs.
  induction Hs as [|p ps [Hp Hap] _ (L & HL)]; [by exists (λ _, [])|].
  destruct (directed_ends s Hcx d r Hd Hwf (try_state s p)) as (l & Hev & Hl); [apply try_state_ok; [done|lia|done]|].
  exists (λ q, if decide (q = p) then l else L q). constructor; [rewrite decide_True by done|].
  - split; [done|]. by eapply moved_weaken.
  - eapply Forall_impl; [exact HL|]. intros q Hq. destruct (decide (q = p)) as [->|]; [|done].
    split; [done|]. by eapply moved_weaken.
Qed.

(** C15: a pattern whose loops advance is matched in finite time, whatever the
    subject: [lre_exec] returns 0 or 1 on the program of [r], without reading or
    writing out of bounds, and the result is that of the backtracking semantics. *)
Theorem lre_exec_terminates `{!Allocator, !Reliable} bc_buf cbuf cbuf_type s sticky r cindex :
  runs_program bc_buf cbuf cbuf_type s sticky r → directed false r → 0 <= cindex <= zlen cbuf → aligned s cindex →
  ∃ L, Forall (λ p, ev s r (try_state s p) (L p)) (starts s sticky cindex) ∧
    returns_first bc_buf cbuf cindex cbuf_type (flat_map L (starts s sticky cindex)).
Proof.
  intros Hr Hd Hi Ha. pose proof Hr as [Hctx Hcx _ Hwf _].
  destruct (starts_outcomes s sticky r cindex false Hcx Hwf Hd) as (L & HL); [by rewrite (context_length _ _ _ _ Hctx)|done|].
  assert (Forall (λ p, ev s r (try_state s p) (L p)) (starts s sticky cindex)) as HL'
    by (eapply Forall_impl; [exact HL|by intros p [? _]]).
  exists L. split; [done|]. by eapply lre_exec_first_cases.
Qed.

(** the code of [/(?:a|)*b/], with a check in the loop *)
Definition loop_re : re := RSeq (RStar true true (RAlt (ROp (OChar 0x61)) RNil)) (ROp (OChar 0x62)).
Definition loop_code : list Z := [0; 1; 1; 44; 0; 0; 0] ++ code (program false loop_re) ++ [REOP_match].
Definition loop_context (cbuf : list Z) : REExecContext := mkCtx cbuf 0 1 1 false false false loop_code.
Lemma loop_runs : runs_program loop_code [0x61; 0x61; 0x62] 0 (loop_context [0x61; 0x61; 0x62]) false loop_re.
Proof.
  split; [done| |by exists [0; 1; 1; 44; 0; 0; 0], []|done|done].
  split; [repeat constructor; done|done|done|done].
Qed.
Lemma lre_exec_terminates_witness :
  ∃ L, Forall (λ p, ev (loop_context [0x61; 0x61; 0x62]) loop_re (try_state (loop_context [0x61; 0x61; 0x62]) p) (L p)) (starts (loop_context [0x61; 0x61; 0x62]) false 0) ∧
    returns_first (H := total_allocator) loop_code [0x61; 0x61; 0x62] 0 0 (flat_map L (starts (loop_context [0x61; 0x61; 0x62]) false 0)).
Proof.
  apply lre_exec_terminates.
  - exact loop_runs.
  - apply dir_seq; [|by apply dir_char]. apply dir_star; [|by left]. apply dir_alt; [by apply dir_char|apply dir_nil].
  - done.
  - by intros ?.
Defined.
