(* ===== verification/ReBounds.v ===== *)
(** * Where a match is

    The captures that [lre_exec] returns are positions of the subject, and the
    match starts where the search does or later and ends where it starts or
    later - provided that the search does not start inside of a surrogate
    pair. *)
From S2P Require Import Prelude Alloc Cutils CharRange CaseConv Reliable ReOpcodes ReExec ReCode ReRange.
From S2P Require Import ReSyntax ReSem ReSubject ReOps ReSim ReRefine ReGreedy ReCorrect ReMatch ReTotal.

(** [r] leaves capture 0 to the program *)
Definition op_keeps (o : op) : Prop :=
  match o with OSaveStart k | OSaveEnd k => 0 < k | OSaveReset first _ => 0 < first | _ => True end.
Fixpoint keeps (r : re) : Prop :=
  match r with
  | RNil => True
  | ROp o => op_keeps o
  | RSeq a b | RAlt a b => keeps a ∧ keeps b
  | RLook _ a | RSimple _ _ _ a | ROpt _ _ a | RStar _ _ a | RUpto _ _ _ a | RPlus _ a | RRep _ a => keeps a
  end.

Section Keeps.
Context (s : REExecContext).

Lemma set_cap_get_ne i j (v : cap) (caps : list cap) : 0 <= j < i → (set_cap i v caps).[j] = caps.[j].
Proof.
  intros Hj. unfold set_cap, aset. destruct ((i <? 0) || _); [done|]. unfold aget. destruct (j <? 0); [done|].
  apply list_lookup_insert_ne. lia.
Qed.
Lemma reset_caps_get n k j (caps : list cap) : 0 <= j < 2 * k → (reset_caps n k caps).[j] = caps.[j].
Proof.
  revert k caps. induction n as [|n IH]; intros k caps Hj; cbn [reset_caps]; [done|].
  rewrite IH, !set_cap_get_ne by lia. done.
Qed.
(** capture 0 is the same after [r] *)
Definition same_start (x y : mstate) : Prop := (m_caps y).[0] = (m_caps x).[0].
Lemma op_keeps_start o x y : op_keeps o → op_next s o x = Some y → same_start x y.
Proof.
  intros Ho. unfold same_start.
  assert (∀ f, step_char s f x = Some y → (m_caps y).[0] = (m_caps x).[0]) as Hstep.
  { intros f. unfold step_char. destruct (next_at _ _) as [[c q]|]; [|done]. destruct (f c); [|done]. by intros [= <-]. }
  destruct o; cbn [op_next op_keeps] in *; unfold when, back_ref; try apply Hstep;
    repeat case_match; intros; simplify_eq; try done; cbn [m_caps].
  - apply set_cap_get_ne. lia.
  - apply set_cap_get_ne. lia.
  - apply reset_caps_get. lia.
Qed.
Lemma keeps_choice (P : mstate → Prop) greedy l x : Forall P l → P x → Forall P (choice greedy l [x]).
Proof. intros Hl Hx. assert (Forall P [x]) by by constructor. destruct greedy; cbn [choice]; by apply Forall_app. Qed.
Lemma keeps_advanced (P : mstate → Prop) check x l : Forall P l → Forall P (advanced check x l).
Proof.
  destruct check; cbn [advanced]; [|done]. rewrite !Forall_forall. intros Hl y [_ Hy]%list_elem_of_filter. auto.
Qed.
Lemma keeps_start :
  (∀ r x l, ev s r x l → keeps r → Forall (same_start x) l) ∧
  (∀ r l k, evs s r l k → keeps r → ∀ x, Forall (same_start x) l → Forall (same_start x) k) ∧
  (∀ a quant_max q x l, ev_iter s a quant_max q x l → keeps a → Forall (same_start x) l).
Proof.
  assert (∀ x y l, same_start x y → Forall (same_start y) l → Forall (same_start x) l) as Htrans.
  { unfold same_start. intros x y l Hxy Hl. eapply Forall_impl; [exact Hl|]. intros z Hz. by rewrite Hz. }
  apply ev_mutind; cbn [keeps]; try by repeat constructor.
  - intros o x Ho. destruct (op_next s o x) as [y|] eqn:Ey; cbn [option_list]; constructor; [|constructor].
    by eapply op_keeps_start.
  - intros a b x l k _ IHa _ IHb [Ha Hb]. auto.
  - intros a b x l k _ IHa _ IHb [Ha Hb]. apply Forall_app; auto.
  - intros a x l _ IHa Ha. specialize (IHa Ha). destruct l as [|y l]; [constructor|].
    apply Forall_cons in IHa as [Hy _]. by constructor.
  - intros a x l _ _ _. destruct l; by repeat constructor.
  - intros quant_min quant_max count a x l _ IH Ha. by apply Forall_take, IH.
  - intros greedy check a x l _ IHa Ha. by apply keeps_choice; [apply keeps_advanced, IHa|].
  - intros greedy check a x l k _ IHa _ IHs Ha. apply keeps_choice; [|done]. by apply IHs, keeps_advanced, IHa.
  - intros n greedy check a x l k _ _ IHa _ IHs Ha. apply keeps_choice; [|done]. by apply IHs, keeps_advanced, IHa.
  - intros greedy a x l k _ IHa _ IHs Ha. by apply IHs, IHa.
  - intros n a x l k _ _ IHa _ IHs Ha. by apply IHs, IHa.
  - intros r x l k ks _ IH _ IHs Hr x0 Hl. apply Forall_cons in Hl as [Hx Hl]. apply Forall_app; split; [|by apply IHs].
    eapply Htrans; [exact Hx|by apply IH].
  - intros a quant_max q x y _ IHa _ _ Ha. apply (proj2 (Forall_app _ [y] [x])). split; [by apply IHa|by constructor].
  - intros a quant_max q x y l _ IHa _ _ IH Ha. specialize (IHa Ha). apply Forall_cons in IHa as [Hy _].
    apply Forall_app; split; [|by constructor]. eapply Htrans; [exact Hy|by apply IH].
Qed.
End Keeps.

(** the outcomes of the search: where they start, and where they end *)
Lemma outcome_bounds s cindex r L y :
  context_ok s → keeps r → 0 <= cindex → ∀ ps, Forall (λ p, cindex <= p <= s_cbuf_end s ∧ aligned s p) ps →
  Forall (λ p, ev s r (try_state s p) (L p) ∧ Forall (λ y, state_ok s y ∧ moved false False (try_state s p) y) (L p)) ps →
  y ∈ flat_map L ps →
  state_ok s y ∧ ∃ a, (m_caps y).[0] = Some (Some a) ∧ cindex <= a <= m_pos y.
Proof.
  intros Hcx Hk Hi ps Hps HL Hy. induction Hps as [|p ps [Hp Ha] Hps IH]; [by apply not_elem_of_nil in Hy|].
  apply Forall_cons in HL as [[Hev Hl] HL]. cbn [flat_map] in Hy. apply elem_of_app in Hy as [Hy|Hy]; [|by apply IH].
  rewrite Forall_forall in Hl. destruct (Hl y Hy) as [Hok [Hm _]]. split; [done|]. exists p.
  pose proof (proj1 (keeps_start s) r _ _ Hev Hk) as Hs. rewrite Forall_forall in Hs. rewrite (Hs y Hy).
  split; [|cbn in Hm; lia]. cbn [m_caps try_state]. pose proof (cx_captures _ Hcx).
  unfold set_cap, aset, aget, zlen. rewrite repeat_length.
  destruct (Z.leb_spec (Z.of_nat (Z.to_nat (2 * s_capture_count s))) 0); [lia|]. cbn [Z.ltb Z.compare orb].
  apply list_lookup_insert_eq. rewrite repeat_length. lia.
Qed.
Lemma match_captures_bounds s y a :
  context_ok s → state_ok s y → (m_caps y).[0] = Some (Some a) →
  (match_captures y).[0] = Some (Some a) ∧ (match_captures y).[1] = Some (Some (m_pos y)) ∧
  ∀ i p, (match_captures y).[i] = Some (Some p : cap) → 0 <= p <= s_cbuf_end s.
Proof.
  intros Hcx Hok Ha. pose proof (cx_captures _ Hcx). pose proof (ok_caps _ _ Hok) as Hl. unfold match_captures.
  split; [by rewrite set_cap_get_ne by lia|]. split.
  - unfold set_cap, aset, aget, zlen in *. destruct (Z.leb_spec (Z.of_nat (length (m_caps y))) 1); [lia|].
    cbn [Z.ltb Z.compare orb]. apply list_lookup_insert_eq. lia.
  - intros i p [[= <-]|Hp]%set_cap_lookup; [by apply ok_pos|by eapply (ok_cap _ _ Hok)].
Qed.

(** C16: on the program of a construct of [ReSyntax] that moves forward, whose
    loops advance ([directed]) and that leaves capture 0 to the program
    ([keeps]), searched from an index that is not inside of a surrogate pair
    ([aligned]), every capture that [lre_exec] returns is a position of the
    subject, and the match is a substring of it: it starts at the start index
    or after it, and it does not end before it starts.  The example
    [lre_exec_split_pair] of ReFaults.v shows that [aligned] is needed. *)
Theorem lre_exec_match_bounds `{!Allocator, !Reliable} bc_buf cbuf cbuf_type s sticky r cindex :
  runs_program bc_buf cbuf cbuf_type s sticky r → directed false r → keeps r →
  0 <= cindex <= zlen cbuf → aligned s cindex →
  ∃ n, ∀ fuel h, (n ≤ fuel)%nat → ∃ ret caps h',
    lre_exec fuel bc_buf cbuf cindex cbuf_type h = Some ((ret, caps), h') ∧
    (ret = 0 ∨
     ret = 1 ∧ (∀ i p, caps.[i] = Some (Some p) → 0 <= p <= zlen cbuf) ∧
     ∃ a b, caps.[0] = Some (Some a) ∧ caps.[1] = Some (Some b) ∧ cindex <= a <= b ∧ b <= zlen cbuf).
Proof.
  intros Hr Hd Hk Hi Ha. pose proof Hr as [Hctx Hcx _ Hwf _]. pose proof (context_length _ _ _ _ Hctx) as Hlen.
  rewrite <- Hlen in *. destruct (starts_outcomes s sticky r cindex false Hcx Hwf Hd Hi Ha) as (L & HL).
  assert (Forall (λ p, ev s r (try_state s p) (L p)) (starts s sticky cindex)) as HL'
    by (eapply Forall_impl; [exact HL|by intros p [? _]]).
  destruct (lre_exec_first_cases _ _ _ _ _ _ _ _ Hr ltac:(by rewrite <- Hlen) Ha HL') as (n & Hn).
  exists n. intros fuel h Hf. destruct (Hn fuel h Hf) as (caps & h' & E & Hcaps).
  eexists _, caps, h'. split; [exact E|]. clear E.
  destruct (flat_map L (starts s sticky cindex)) as [|y l] eqn:El; [by left|right]. split; [done|].
  destruct (outcome_bounds s cindex r L y Hcx Hk (proj1 Hi) _ (starts_ok s sticky cindex Hcx Hi Ha) HL) as (Hok & a & H0a & Hle);
    [rewrite El; apply list_elem_of_here|].
  destruct (match_captures_bounds s y a Hcx Hok H0a) as (Hc0 & Hc1 & Hall). rewrite Hcaps.
  split; [done|]. exists a, (m_pos y). pose proof (ok_pos _ _ Hok). split; [done|]. split; [done|]. lia.
Qed.
Lemma lre_exec_match_bounds_witness :
  ∃ n, ∀ fuel h, (n ≤ fuel)%nat → ∃ ret caps h',
    lre_exec (H := total_allocator) fuel loop_code [0x61; 0x61; 0x62] 0 0 h = Some ((ret, caps), h') ∧
    (ret = 0 ∨
     ret = 1 ∧ (∀ i p, caps.[i] = Some (Some p) → 0 <= p <= 3) ∧
     ∃ a b, caps.[0] = Some (Some a) ∧ caps.[1] = Some (Some b) ∧ 0 <= a <= b ∧ b <= 3).
Proof.
  apply (lre_exec_match_bounds loop_code [0x61; 0x61; 0x62] 0 (loop_context [0x61; 0x61; 0x62]) false loop_re 0).
  - exact loop_runs.
  - apply dir_seq; [|by apply dir_char]. apply dir_star; [|by left]. apply dir_alt; [by apply dir_char|apply dir_nil].
  - done.
  - done.
  - by intros ?.
Defined.
