(* ===== verification/ReFaults.v ===== *)
(** * Where the engine breaks its promises

    Two patterns that the compiler accepts and the executor mistreats: the
    hypotheses of ReTotal.v (loops advance) and of ReBounds.v (the search does
    not start inside of a surrogate pair) are needed, and the code does not
    establish them. *)
From S2P Require Import Prelude Alloc Cutils DynBuf CharRange UnicodeTables CaseConv RunTable UnicodeProps Canonicalize Reliable.
From S2P Require Import ReOpcodes ReExec ReLex ReClass ReCompile ReCode ReRange.
From S2P Require Import ReSyntax ReSem ReSubject ReOps ReSim ReRefine ReGreedy ReCorrect ReMatch ReTotal ReBounds.

(** ** Searches that do not end *)
(** [/(?:)*?x/y] *)
Definition endless_code : list Z := [32; 1; 0; 18; 0; 0; 0] ++
  code (RSeq (ROp (OSaveStart 0)) (RSeq (RStar false false RNil) (RSeq (ROp (OChar 0x78)) (ROp (OSaveEnd 0))))) ++ [REOP_match].
Definition endless_context : REExecContext := mkCtx [] 0 1 0 false false false endless_code.
(** at [x], with a choice point for another round *)
Definition endless_state : exec_state :=
  mkES [Some 0; None] [] 0 19 0 [mkRS RE_EXEC_STATE_SPLIT 0 0 14 [Some 0; None] []] 8.
(** one opcode, evaluated *)
Ltac exec_next :=
  match goal with |- lre_exec_backtrack ?s (Datatypes.S _) ?st _ ?h = _ =>
    let e := eval vm_compute in (exec_at s st 0%nat) in
    match e with Some (SNext ?st', ?k) =>
      rewrite (backtrack_next s _ st st' _ h (k + h)%nat) by (vm_compute; reflexivity)
    end
  end.
Lemma endless_start fuel h :
  lre_exec_backtrack (H := total_allocator) endless_context (2 + fuel) (exec_init endless_context 0) false h =
    lre_exec_backtrack (H := total_allocator) endless_context fuel endless_state false (Datatypes.S h).
Proof. cbn [Nat.add]. do 2 exec_next. reflexivity. Qed.
Lemma endless_round fuel h :
  lre_exec_backtrack (H := total_allocator) endless_context (3 + fuel) endless_state false h =
    lre_exec_backtrack (H := total_allocator) endless_context fuel endless_state false h.
Proof.
  cbn [Nat.add]. erewrite (backtrack_no_match endless_context _ endless_state) by (vm_compute; reflexivity).
  unfold exec_resume. erewrite (bind_M_eq _ _ h) by (vm_compute; reflexivity). cbv iota beta. do 2 exec_next. reflexivity.
Qed.
(** C37: [/(?:)*?x/y] is never decided on the empty subject: a lazy loop is not
    checked to advance, so that the executor goes around an empty body for ever,
    through the same state every three opcodes, and returns with no amount of
    fuel. *)
Theorem lazy_empty_loop_endless :
  option_map (fst ∘ fst) (lre_compile (H := total_allocator) (λ _, false) (repeat 0 128) 128 (c_bytes "(?:)*?x")
    LRE_FLAG_STICKY 0%nat) = Some (Some endless_code) ∧
  (∀ fuel h, lre_exec_backtrack (H := total_allocator) endless_context (3 + fuel) endless_state false h =
     lre_exec_backtrack (H := total_allocator) endless_context fuel endless_state false h) ∧
  ∀ fuel h, lre_exec (H := total_allocator) fuel endless_code [] 0 0 h = None.
Proof.
  split; [vm_compute; reflexivity|]. split; [exact endless_round|]. intros fuel h.
  assert (∀ n h, lre_exec_backtrack (H := total_allocator) endless_context n endless_state false h = None) as Hloop.
  { intros n. induction (lt_wf n) as [n _ IH]. intros h'. destruct n as [|[|[|n]]]; [done|vm_compute; reflexivity..|].
    rewrite (endless_round n). apply IH. lia. }
  unfold lre_exec. change (exec_context endless_code [] 0) with (Some endless_context). rewrite bind_lift.
  assert (lre_exec_backtrack (H := total_allocator) endless_context fuel (exec_init endless_context 0) false h = None) as E.
  { destruct fuel as [|[|n]]; [done|vm_compute; reflexivity|]. by rewrite (endless_start n). }
  unfold mbind, M_bind. by rewrite E.
Qed.

(** ** A start index inside of a surrogate pair *)
(** [/.*(?=\u{1f600})/uy] *)
Definition split_pair_pattern : list Z := c_bytes ".*(?=" ++ [0xf0; 0x9f; 0x98; 0x80] ++ c_bytes ")".
Definition split_pair_code : list Z := [48; 1; 0; 35; 0; 0; 0] ++
  code (RSeq (ROp (OSaveStart 0)) (RSeq (RSimple 0 INT32_MAX 1 (ROp ODot))
    (RSeq (RLook false (ROp (OChar32 0x1f600))) (ROp (OSaveEnd 0))))) ++ [REOP_match].
Definition split_pair_subject : list Z := [0xd83d; 0xde00].

(** Without the alignment the bounds do not hold. From the start index 1,
    inside of the pair U+D83D U+DE00, the greedy quantifier of
    [/.*(?=\u{1f600})/uy] reads one code unit and then goes back over the whole
    pair: the match that [lre_exec] returns starts at 1 and ends at 0. *)
Example lre_exec_split_pair :
  ∃ bc, option_map (fst ∘ fst) (lre_compile (H := total_allocator) (λ _, false) (repeat 0 128) 128 split_pair_pattern
      (LRE_FLAG_STICKY + LRE_FLAG_UNICODE) 0%nat) = Some (Some bc) ∧
    option_map fst (lre_exec (H := total_allocator) 100 bc split_pair_subject 1 1 0%nat) = Some (1, [Some 1; Some 0]).
Proof. exists split_pair_code. split; vm_compute; reflexivity. Qed.
