(* ===== verification/Limb.v ===== *)
(** * Limbs (js/libbf.c)

    The digits of a big number are machine words, the limbs, of 64 or 32 bits
    depending on the host; the class [LimbSize] is that choice.  A number is an
    array of limbs, the least significant first, and [val] is its value.  Here
    are the operations on words of js/libbf.c, and the loops over arrays. *)
From S2P Require Import Prelude.

Class LimbSize := { limb64 : bool }.
(** a 64-bit host, to evaluate the definitions on *)
#[export] Instance limb64_host : LimbSize | 100 := {| limb64 := true |}.

Section Words.
Context `{!LimbSize}.

Definition LIMB_LOG2_BITS : Z := if limb64 then 6 else 5.
Definition LIMB_BITS : Z := 1 << LIMB_LOG2_BITS.
(** the base *)
Definition B : Z := 2 ^ LIMB_BITS.
(** conversions to [limb_t], [slimb_t] and [dlimb_t] *)
Definition ulimb (x : Z) : Z := x mod B.
Definition slimb (x : Z) : Z := (x + B / 2) mod B - B / 2.
Definition dlimb (x : Z) : Z := x mod (B * B).

Definition clz (a : Z) : Z := if a =? 0 then LIMB_BITS else LIMB_BITS - 1 - Z.log2 a.
Definition ctz (a : Z) : Z := if a =? 0 then LIMB_BITS else Z.log2 (a .& (- a)).
Definition ceil_log2 (a : Z) : Z := if a <=? 1 then 0 else LIMB_BITS - clz (a - 1).
(** the division of C truncates *)
Definition ceil_div (a b : Z) : Z := if a >=? 0 then Z.quot (a + b - 1) b else Z.quot a b.
Definition floor_div (a b : Z) : Z := if a >=? 0 then Z.quot a b else Z.quot (a - b + 1) b.
Definition smod (a b : Z) : Z := let a := Z.rem a b in if a <? 0 then a + b else a.
(** the sum is computed with wrap-around *)
Definition sat_add (a b : Z) : Z :=
  let r := slimb (a + b) in
  if (a .^ r) .& (b .^ r) <? 0 then (a >> (LIMB_BITS - 1)) .^ (2 ^ (LIMB_BITS - 1) - 1) else r.
Definition shrd (low high shift : Z) : Z :=
  if negb (shift =? 0) then (low >> shift) .| ulimb (high << (LIMB_BITS - shift)) else low.
Definition shld (a1 a0 shift : Z) : Z :=
  if negb (shift =? 0) then ulimb (a1 << shift) .| (a0 >> (LIMB_BITS - shift)) else a1.
Definition limb_mask (start last : Z) : Z :=
  let n := last - start + 1 in
  if n =? LIMB_BITS then ulimb (-1) else ulimb ((ulimb (1 << n) - 1) << start).

(** the [LIMB_BITS] bits from position [pos] of an array on, and one bit *)
Definition get_bits (tab : list Z) (len pos : Z) : option Z :=
  let i := ulimb (pos >> LIMB_LOG2_BITS) in
  let p := pos .& (LIMB_BITS - 1) in
  a0 ← (if i <? len then tab.[i] else Some 0);
  if p =? 0 then Some a0
  else
    let i := ulimb (i + 1) in
    a1 ← (if i <? len then tab.[i] else Some 0);
    Some ((a0 >> p) .| ulimb (a1 << (LIMB_BITS - p))).
Definition get_bit (tab : list Z) (len pos : Z) : option Z :=
  let i := pos >> LIMB_LOG2_BITS in
  if (i <? 0) || (i >=? len) then Some 0 else v ← tab.[i]; Some ((v >> (pos .& (LIMB_BITS - 1))) .& 1).
End Words.

(** ** Loops
    [for(i = 0; i < n; i++)] and [for(i = n - 1; i >= 0; i--)], whose body
    takes the index and the variables that it changes. *)
Fixpoint for_up {S} (n : nat) (body : Z → S → option S) (i : Z) (s : S) : option S :=
  match n with O => Some s | S n => s ← body i s; for_up n body (i + 1) s end.
Fixpoint for_down {S} (n : nat) (body : Z → S → option S) (s : S) : option S :=
  match n with O => Some s | S n => s ← body (Z.of_nat n) s; for_down n body s end.
(** a call on the array that begins at [tab + off] *)
Definition at_offset {A} (off : Z) (f : list Z → option (list Z * A)) (tab : list Z) : option (list Z * A) :=
  if (off <? 0) || (zlen tab <? off) then None
  else '(r, a) ← f (zdrop off tab); Some (ztake off tab ++ r, a).

Lemma for_up_inv {S} (I : Z → S → Prop) n body i s :
  (∀ j s, i <= j < i + Z.of_nat n → I j s → ∃ s', body j s = Some s' ∧ I (j + 1) s') →
  I i s → ∃ s', for_up n body i s = Some s' ∧ I (i + Z.of_nat n) s'.
Proof.
  revert i s. induction n as [|n IH]; intros i s Hb Hi; [exists s; split; [done|by rewrite Z.add_0_r]|].
  destruct (Hb i s ltac:(lia) Hi) as (s1 & E & H1). cbn [for_up]. rewrite E. cbn [mbind option_bind].
  destruct (IH (i + 1) s1) as (s2 & E2 & H2); [intros; apply Hb; [lia|done]|done|].
  exists s2. split; [done|]. by replace (i + Z.of_nat (Datatypes.S n)) with (i + 1 + Z.of_nat n) by lia.
Qed.
Lemma for_down_inv {S} (I : Z → S → Prop) n body s :
  (∀ j s, 0 <= j < Z.of_nat n → I (j + 1) s → ∃ s', body j s = Some s' ∧ I j s') →
  I (Z.of_nat n) s → ∃ s', for_down n body s = Some s' ∧ I 0 s'.
Proof.
  revert s. induction n as [|n IH]; intros s Hb Hi; [by exists s|].
  destruct (Hb (Z.of_nat n) s ltac:(lia)) as (s1 & E & H1); [by replace (Z.of_nat n + 1) with (Z.of_nat (Datatypes.S n)) by lia|].
  cbn [for_down]. rewrite E. cbn [mbind option_bind]. apply IH; [intros; apply Hb; [lia|done]|done].
Qed.

(** ** Values *)
Section Values.
Context `{!LimbSize}.

Lemma LIMB_BITS_cases : LIMB_BITS = 64 ∨ LIMB_BITS = 32.
Proof. unfold LIMB_BITS, LIMB_LOG2_BITS. destruct limb64; [by left|by right]. Qed.
Lemma LIMB_BITS_log2 : LIMB_BITS = 2 ^ LIMB_LOG2_BITS ∧ 0 <= LIMB_LOG2_BITS.
Proof. unfold LIMB_BITS, LIMB_LOG2_BITS. by destruct limb64. Qed.
Lemma B_half : B = 2 * (B / 2) ∧ 2 ^ 31 <= B / 2.
Proof. unfold B. destruct LIMB_BITS_cases as [-> | ->]; by vm_compute. Qed.
Lemma B_half_pow : B / 2 = 2 ^ (LIMB_BITS - 1).
Proof. unfold B. destruct LIMB_BITS_cases as [-> | ->]; by vm_compute. Qed.
Lemma B_pos : 2 ^ 32 <= B.
Proof. destruct B_half. lia. Qed.

Definition limb (x : Z) : Prop := 0 <= x < B.
Notation limbs := (Forall limb).
Lemma limb_ulimb x : limb (ulimb x).
Proof. pose proof B_pos. apply Z.mod_pos_bound. lia. Qed.
Lemma ulimb_id x : limb x → ulimb x = x.
Proof. apply Z.mod_small. Qed.

Fixpoint val (l : list Z) : Z := match l with [] => 0 | x :: l => x + B * val l end.
Lemma val_app l k : val (l ++ k) = val l + B ^ zlen l * val k.
Proof.
  pose proof B_pos. induction l as [|x l IH]; [change (zlen (@nil Z)) with 0; cbn [app val]; lia|].
  cbn [app val]. rewrite IH, zlen_cons, Z.pow_add_r, Z.pow_1_r by (pose proof (zlen_nonneg l); lia). ring.
Qed.
Lemma val_snoc l x : val (l ++ [x]) = val l + B ^ zlen l * x.
Proof. rewrite val_app. cbn [val]. ring. Qed.
Lemma val_bounds l : limbs l → 0 <= val l < B ^ zlen l.
Proof.
  pose proof B_pos. induction 1 as [|x l Hx _ IH]; [by split|].
  cbn [val]. rewrite zlen_cons, Z.pow_add_r, Z.pow_1_r by (pose proof (zlen_nonneg l); lia). unfold limb in Hx. nia.
Qed.
Lemma pow_B_pos n : 0 <= n → 0 < B ^ n.
Proof. pose proof B_pos. intros. apply Z.pow_pos_nonneg; lia. Qed.
Lemma pow_B_S n : 0 <= n → B ^ (n + 1) = B * B ^ n.
Proof. intros. rewrite Z.pow_add_r, Z.pow_1_r by lia. ring. Qed.

(** the [i]-th limb, 0 outside of the array *)
Definition limb_at (l : list Z) (i : Z) : Z := default 0 (l.[i]).
Lemma aget_limb_at l i : 0 <= i < zlen l → l.[i] = Some (limb_at l i).
Proof. intros [x Hx]%aget_is_Some. unfold limb_at. by rewrite Hx. Qed.
Lemma limb_at_range l i : limbs l → limb (limb_at l i).
Proof.
  intros Hl. unfold limb_at, aget. destruct (i <? 0); [pose proof B_pos; by split; [|cbn; lia]|].
  destruct (l !! Z.to_nat i) eqn:E; [|pose proof B_pos; by split; [|cbn; lia]]. rewrite Forall_lookup in Hl. by apply (Hl _ _ E).
Qed.
Lemma limb_at_ztake l i n : limbs (ztake n l) → 0 <= i < n → limb (limb_at l i).
Proof.
  intros Hl Hi. pose proof (limb_at_range _ i Hl) as H1. replace (limb_at l i) with (limb_at (ztake n l) i); [done|].
  unfold limb_at, aget, ztake. destruct (i <? 0); [done|]. by rewrite lookup_take_lt by lia.
Qed.
Lemma ztake_snoc (l : list Z) i : 0 <= i < zlen l → ztake (i + 1) l = ztake i l ++ [limb_at l i].
Proof.
  intros Hi. pose proof (aget_limb_at l i Hi) as E. unfold aget in E. destruct (Z.ltb_spec i 0); [lia|].
  unfold ztake. replace (Z.to_nat (i + 1)) with (S (Z.to_nat i)) by lia. by apply take_S_r.
Qed.
Lemma zdrop_limb_cons (l : list Z) i : 0 <= i < zlen l → zdrop i l = limb_at l i :: zdrop (i + 1) l.
Proof.
  intros Hi. pose proof (aget_limb_at l i Hi) as E. unfold aget in E. destruct (Z.ltb_spec i 0); [lia|].
  unfold zdrop. replace (Z.to_nat (i + 1)) with (S (Z.to_nat i)) by lia. by apply drop_S.
Qed.
Lemma limbs_app l k : limbs (l ++ k) ↔ limbs l ∧ limbs k.
Proof. apply Forall_app. Qed.
Lemma limbs_ztake l i : limbs l → limbs (ztake i l).
Proof. apply Forall_take. Qed.
Lemma limbs_zdrop l i : limbs l → limbs (zdrop i l).
Proof. apply Forall_drop. Qed.
Lemma val_split l i : 0 <= i <= zlen l → val l = val (ztake i l) + B ^ i * val (zdrop i l).
Proof. intros Hi. rewrite <- (ztake_zdrop i l) at 1. by rewrite val_app, zlen_ztake. Qed.
Lemma ztake_all (l : list Z) n : zlen l <= n → ztake n l = l.
Proof. intros. apply take_ge. unfold zlen in *. lia. Qed.
Lemma zdrop_all (l : list Z) n : zlen l <= n → zdrop n l = [].
Proof. intros. apply drop_ge. unfold zlen in *. lia. Qed.
Lemma val_ztake_S l i : 0 <= i < zlen l → val (ztake (i + 1) l) = val (ztake i l) + B ^ i * limb_at l i.
Proof. intros Hi. rewrite ztake_snoc, val_snoc, zlen_ztake by lia. done. Qed.

(** ** Loops with a carry
    A loop that stores one limb for each index, from the limb that it computes
    at that index and a carry. *)
Fixpoint series (t : Z → Z) (n : nat) : Z := match n with O => 0 | S n => series t n + B ^ Z.of_nat n * t (Z.of_nat n) end.
Lemma series_limbs l n : Z.of_nat n <= zlen l → series (limb_at l) n = val (ztake (Z.of_nat n) l).
Proof.
  induction n as [|n IH]; intros Hn; [done|]. cbn [series]. rewrite IH by lia.
  replace (Z.of_nat (S n)) with (Z.of_nat n + 1) by lia. by rewrite val_ztake_S by lia.
Qed.
Lemma series_add t u n : series (λ i, t i + u i) n = series t n + series u n.
Proof. induction n as [|n IH]; [done|]. cbn [series]. rewrite IH. ring. Qed.
Lemma series_sub t u n : series (λ i, t i - u i) n = series t n - series u n.
Proof. induction n as [|n IH]; [done|]. cbn [series]. rewrite IH. ring. Qed.
Lemma series_mul t c n : series (λ i, t i * c) n = series t n * c.
Proof. induction n as [|n IH]; [done|]. cbn [series]. rewrite IH. ring. Qed.
Lemma series_0 n : series (λ _, 0) n = 0.
Proof. induction n as [|n IH]; [done|]. cbn [series]. rewrite IH. ring. Qed.

(** what such a loop returns: [n] limbs before the rest of [res], and the carry *)
Definition stored (res : list Z) (n : Z) (K : Z → Prop) (o : option (list Z * Z)) (P : list Z → Z → Prop) : Prop :=
  ∃ r k, o = Some (r ++ zdrop n res, k) ∧ zlen r = n ∧ limbs r ∧ K k ∧ P r k.
Lemma stored_mono res n K o (P Q : list Z → Z → Prop) : stored res n K o P → (∀ r k, P r k → Q r k) → stored res n K o Q.
Proof. intros (r & k & E & Hl & Hr & Hk & HP) HPQ. exists r, k. eauto 6. Qed.
(** the number in the first [n] limbs *)
Definition low (n : Z) (l : list Z) : Z := val (ztake n l).
Lemma series_low l n : 0 <= n <= zlen l → series (limb_at l) (Z.to_nat n) = low n l.
Proof. intros. rewrite series_limbs by lia. by rewrite Z2Nat.id by lia. Qed.

Lemma carry_loop (K : Z → Prop) (sgn : Z) (t : Z → Z) n (body : Z → list Z * Z → option (list Z * Z)) res0 k0 :
  (∀ i res k, 0 <= i < n → zlen res = zlen res0 → res.[i] = res0.[i] → K k →
     ∃ a k', body i (res, k) = (res' ← aset res i a; Some (res', k')) ∧
       limb a ∧ K k' ∧ a + sgn * B * k' = t i + sgn * k) →
  0 <= n <= zlen res0 → K k0 →
  stored res0 n K (for_up (Z.to_nat n) body 0 (res0, k0))
    (λ r k, val r + sgn * B ^ n * k = series t (Z.to_nat n) + sgn * k0).
Proof.
  intros Hbody Hn Hk0.
  destruct (for_up_inv (λ i '(res, k), 0 <= i ∧ ∃ r, res = r ++ zdrop i res0 ∧ zlen r = i ∧ limbs r ∧ K k ∧
      val r + sgn * B ^ i * k = series t (Z.to_nat i) + sgn * k0) (Z.to_nat n) body 0 (res0, k0)) as ([res k] & E & HI).
  - intros i [res k] Hi (_ & r & -> & Hlen & Hr & Hk & Hv). rewrite zdrop_limb_cons by lia.
    destruct (Hbody i (r ++ limb_at res0 i :: zdrop (i + 1) res0) k) as (a & k' & E & Ha & Hk' & Hak).
    + lia.
    + rewrite zlen_app, zlen_cons, zlen_zdrop by lia. lia.
    + rewrite (aget_limb_at res0 i) by lia. generalize (limb_at res0 i), (zdrop (i + 1) res0). intros x l. rewrite <- Hlen. apply aget_app_at.
    + done.
    + assert (aset (r ++ limb_at res0 i :: zdrop (i + 1) res0) i a = Some (r ++ a :: zdrop (i + 1) res0)) as Es.
      { generalize (limb_at res0 i), (zdrop (i + 1) res0). intros x l. rewrite <- Hlen. apply aset_app_at. }
      rewrite E, Es. cbn [mbind option_bind]. eexists. split; [reflexivity|]. split; [lia|].
      exists (r ++ [a]). split; [by rewrite <- app_assoc|]. split; [rewrite zlen_app; change (zlen [a]) with 1; lia|].
      split; [apply limbs_app; by split; [|constructor]|]. split; [done|].
      rewrite val_snoc, Hlen. replace (Z.to_nat (i + 1)) with (S (Z.to_nat i)) by lia. cbn [series].
      rewrite Z2Nat.id, pow_B_S by lia.
      transitivity (val r + B ^ i * (a + sgn * B * k')); [ring|]. rewrite Hak. lia.
  - split; [lia|]. exists []. split; [done|]. split; [done|]. split; [constructor|]. split; [done|]. cbn [val]. change (Z.to_nat 0) with O. cbn [series]. rewrite Z.pow_0_r. lia.
  - destruct HI as (_ & r & -> & Hlen & Hr & Hk & Hv). rewrite Z.add_0_l in *. rewrite Z2Nat.id in * by lia.
    exists r, k. done.
Qed.
(** A loop from the last limb down to the first. *)
Lemma aset_ztake (res : list Z) j (x : Z) (q : list Z) :
  0 <= j < zlen res → aset (ztake (j + 1) res ++ q) j x = Some (ztake j res ++ x :: q).
Proof.
  intros Hj. rewrite ztake_snoc, <- app_assoc by lia. cbn [app]. generalize (limb_at res j). intros y.
  rewrite <- (zlen_ztake j res) at 2 by lia. apply aset_app_at.
Qed.
Lemma down_loop (P : Z → list Z → Z → Prop) n (body : Z → list Z * Z → option (list Z * Z)) res0 l0 :
  (∀ j q res l, 0 <= j < n → zlen q = n - (j + 1) → limbs q → res.[j] = res0.[j] → P (j + 1) q l →
     ∃ x l', body j (res, l) = (res' ← aset res j x; Some (res', l')) ∧ limb x ∧ P j (x :: q) l') →
  0 <= n <= zlen res0 → P n [] l0 →
  ∃ q l, for_down (Z.to_nat n) body (res0, l0) = Some (q ++ zdrop n res0, l) ∧ zlen q = n ∧ limbs q ∧ P 0 q l.
Proof.
  intros Hbody Hn H0.
  destruct (for_down_inv (λ j '(res, l), ∃ q, res = ztake j res0 ++ q ++ zdrop n res0 ∧ zlen q = n - j ∧ limbs q ∧ P j q l)
    (Z.to_nat n) body (res0, l0)) as ([res l] & E & q & -> & Hlen & Hq & HP).
  - intros j [res l] Hj (q & -> & Hlen & Hq & HP).
    assert ((ztake (j + 1) res0 ++ q ++ zdrop n res0).[j] = res0.[j]) as Hj0.
    { rewrite aget_app_l by (rewrite zlen_ztake; lia). unfold aget, ztake. destruct (j <? 0); [done|]. by rewrite lookup_take_lt by lia. }
    destruct (Hbody j q (ztake (j + 1) res0 ++ q ++ zdrop n res0) l ltac:(lia) Hlen Hq Hj0 HP) as (x & l' & E & Hx & HP'). rewrite E, aset_ztake by lia. eexists. split; [reflexivity|]. exists (x :: q).
    split; [done|]. rewrite zlen_cons. split; [lia|]. split; [by constructor|done].
  - rewrite Z2Nat.id by lia. exists []. cbn [app]. rewrite ztake_zdrop. split; [done|]. split; [by rewrite Z.sub_diag|]. by split; [constructor|].
  - exists q, l. rewrite E. change (ztake 0 res0) with (@nil Z). rewrite Z.sub_0_r in Hlen. done.
Qed.
(** the same loop on a part of the array *)
Lemma for_down_offset {S} (f : S → S) n body1 body2 s :
  (∀ j s, 0 <= j < Z.of_nat n → body1 j (f s) = (s' ← body2 j s; Some (f s'))) →
  for_down n body1 (f s) = (s' ← for_down n body2 s; Some (f s')).
Proof.
  revert s. induction n as [|n IH]; intros s Hb; [done|]. cbn [for_down]. rewrite Hb by lia.
  destruct (body2 (Z.of_nat n) s) as [s'|]; [|done]. cbn [mbind option_bind]. apply IH. intros. apply Hb. lia.
Qed.
Lemma at_offset_app {A} (f : list Z → option (list Z * A)) (p t : list Z) i :
  zlen p = i → at_offset i f (p ++ t) = ('(r, a) ← f t; Some (p ++ r, a)).
Proof.
  intros <-. unfold at_offset. pose proof (zlen_nonneg p). pose proof (zlen_nonneg t).
  destruct (Z.ltb_spec (zlen p) 0); [lia|]. destruct (Z.ltb_spec (zlen (p ++ t)) (zlen p)); [rewrite zlen_app in *; lia|]. cbn [orb].
  by rewrite zdrop_app, ztake_app.
Qed.
Lemma aget_at (p t : list Z) x i : zlen p = i → (p ++ x :: t).[i] = Some x.
Proof. intros <-. apply aget_app_at. Qed.
Lemma aset_at (p t : list Z) x y i : zlen p = i → aset (p ++ x :: t) i y = Some (p ++ y :: t).
Proof. intros <-. apply aset_app_at. Qed.
End Values.
Notation limbs := (Forall limb).
