(* ===== verification/LimbOps.v ===== *)
(** * Multi-precision addition and multiplication (js/libbf.c)

    The [mp_*] functions on arrays of limbs.  [res] is the array that is
    written; where the C code writes on an operand, the loop reads an element
    before it writes it, and the operand passed here is the array before. *)
From S2P Require Import Prelude Limb.

Section Ops.
Context `{!LimbSize}.

Fixpoint mp_scan_nz_loop (n : nat) (tab : list Z) (i : Z) : option Z :=
  match n with
  | O => Some 0
  | S n => v ← tab.[i]; if negb (v =? 0) then Some 1 else mp_scan_nz_loop n tab (i + 1)
  end.
Definition mp_scan_nz (tab : list Z) (n : Z) : option Z := mp_scan_nz_loop (Z.to_nat n) tab 0.
Definition mp_add (res op1 op2 : list Z) (n carry : Z) : option (list Z * Z) :=
  for_up (Z.to_nat n) (λ i '(res, k),
    v ← op1.[i]; b ← op2.[i];
    let a := ulimb (v + b) in
    let k1 := b2z (a <? v) in
    let a := ulimb (a + k) in
    let k := b2z (a <? k) .| k1 in
    res ← aset res i a; Some (res, k)) 0 (res, carry).
Fixpoint mp_add_ui_loop (n : nat) (tab : list Z) (i k : Z) : option (list Z * Z) :=
  match n with
  | O => Some (tab, k)
  | S n =>
    if k =? 0 then Some (tab, k)
    else v ← tab.[i]; let a := ulimb (v + k) in let k := b2z (a <? k) in
         tab ← aset tab i a; mp_add_ui_loop n tab (i + 1) k
  end.
Definition mp_add_ui (tab : list Z) (b n : Z) : option (list Z * Z) := mp_add_ui_loop (Z.to_nat n) tab 0 b.
(** [mp_sub] and [mp_neg] count with an [int]: [n] is below 2^31 *)
Definition mp_sub (res op1 op2 : list Z) (n carry : Z) : option (list Z * Z) :=
  for_up (Z.to_nat n) (λ i '(res, k),
    v ← op1.[i]; b ← op2.[i];
    let a := ulimb (v - b) in
    let k1 := b2z (a >? v) in
    let v := ulimb (a - k) in
    let k := b2z (v >? a) .| k1 in
    res ← aset res i v; Some (res, k)) 0 (res, carry).
Definition mp_neg (res op2 : list Z) (n carry : Z) : option (list Z * Z) :=
  for_up (Z.to_nat n) (λ i '(res, k),
    b ← op2.[i];
    let v := 0 in
    let a := ulimb (v - b) in
    let k1 := b2z (a >? v) in
    let v := ulimb (a - k) in
    let k := b2z (v >? a) .| k1 in
    res ← aset res i v; Some (res, k)) 0 (res, carry).
Fixpoint mp_sub_ui_loop (n : nat) (tab : list Z) (i k : Z) : option (list Z * Z) :=
  match n with
  | O => Some (tab, k)
  | S n =>
    v ← tab.[i]; let a := ulimb (v - k) in let k := b2z (a >? v) in
    tab ← aset tab i a; if k =? 0 then Some (tab, k) else mp_sub_ui_loop n tab (i + 1) k
  end.
Definition mp_sub_ui (tab : list Z) (b n : Z) : option (list Z * Z) := mp_sub_ui_loop (Z.to_nat n) tab 0 b.
(** the remainder is the second component; [None]: the [assert] *)
Definition mp_shr (tab_r tab : list Z) (n shift high : Z) : option (list Z * Z) :=
  if (1 <=? shift) && (shift <? LIMB_BITS) then
    '(tab_r, l) ← for_down (Z.to_nat n) (λ i '(tab_r, l),
      a ← tab.[i]; tab_r ← aset tab_r i ((a >> shift) .| ulimb (l << (LIMB_BITS - shift))); Some (tab_r, a)) (tab_r, high);
    Some (tab_r, l .& ((1 << shift) - 1))
  else None.
Definition mp_mul1 (tabr taba : list Z) (n b l : Z) : option (list Z * Z) :=
  for_up (Z.to_nat n) (λ i '(tabr, l),
    a ← taba.[i]; let t := dlimb (a * b + l) in
    tabr ← aset tabr i (ulimb t); Some (tabr, t >> LIMB_BITS)) 0 (tabr, l).
Definition mp_add_mul1 (tabr taba : list Z) (n b : Z) : option (list Z * Z) :=
  for_up (Z.to_nat n) (λ i '(tabr, l),
    a ← taba.[i]; r ← tabr.[i]; let t := dlimb (a * b + l + r) in
    tabr ← aset tabr i (ulimb t); Some (tabr, t >> LIMB_BITS)) 0 (tabr, 0).
Definition mp_mul_basecase (result op1 : list Z) (op1_size : Z) (op2 : list Z) (op2_size : Z) : option (list Z) :=
  b ← op2.[0];
  '(result, r) ← mp_mul1 result op1 op1_size b 0;
  result ← aset result op1_size r;
  for_up (Z.to_nat (op2_size - 1)) (λ i result,
    b ← op2.[i];
    '(result, r) ← at_offset i (λ t, mp_add_mul1 t op1 op1_size b) result;
    aset result (i + op1_size) r) 1 result.
Definition mp_sub_mul1 (tabr taba : list Z) (n b : Z) : option (list Z * Z) :=
  for_up (Z.to_nat n) (λ i '(tabr, l),
    a ← taba.[i]; r ← tabr.[i]; let t := dlimb (r - a * b - l) in
    tabr ← aset tabr i (ulimb t); Some (tabr, ulimb (- (t >> LIMB_BITS)))) 0 (tabr, 0).
(** [-1], [0] or [1] *)
Fixpoint mp_cmp_loop (n : nat) (taba tabb : list Z) : option Z :=
  match n with
  | O => Some 0
  | S n =>
    a ← taba.[Z.of_nat n]; b ← tabb.[Z.of_nat n];
    if negb (a =? b) then Some (if a <? b then -1 else 1) else mp_cmp_loop n taba tabb
  end.
Definition mp_cmp (taba tabb : list Z) (n : Z) : option Z := mp_cmp_loop (Z.to_nat n) taba tabb.
End Ops.

Section Lemmas.
Context `{!LimbSize}.
Notation carry := (λ k, 0 <= k <= 1).

Lemma shiftr_limb t : t >> LIMB_BITS = t / B.
Proof. unfold B. apply shiftr_div. destruct LIMB_BITS_cases as [-> | ->]; lia. Qed.
Lemma ulimb_split x : x = ulimb x + B * (x / B).
Proof. pose proof B_pos. unfold ulimb. rewrite Z.add_comm. apply Z.div_mod. lia. Qed.
Lemma carry_of_add v b : limb v → limb b → v + b = ulimb (v + b) + B * b2z (ulimb (v + b) <? b).
Proof.
  unfold limb. intros Hv Hb. pose proof B_pos. pose proof (ulimb_split (v + b)) as Es. pose proof (limb_ulimb (v + b)) as Hl. unfold limb in Hl.
  assert (0 <= (v + b) / B <= 1) as Hq by (split; [apply Z.div_pos; lia|apply Z.lt_succ_r, Z.div_lt_upper_bound; lia]).
  assert ((v + b) / B = 0 ∨ (v + b) / B = 1) as [E|E] by lia; rewrite E in Es;
    destruct (Z.ltb_spec (ulimb (v + b)) b); cbn [b2z]; lia.
Qed.
Lemma ulimb_add_carry v b k :
  limb v → limb b → 0 <= k <= 1 →
  let a := ulimb (v + b) in let a' := ulimb (a + k) in let k' := b2z (a' <? k) .| b2z (a <? v) in
  limb a' ∧ 0 <= k' <= 1 ∧ a' + B * k' = v + b + k.
Proof.
  intros Hv Hb Hk. cbv zeta. pose proof B_pos. unfold limb in *. pose proof (limb_ulimb (v + b)) as Ha.
  pose proof (ulimb_split (v + b)) as Es. set (a := ulimb (v + b)) in *.
  assert ((v + b) / B = b2z (a <? v)) as Eq.
  { destruct (Z.ltb_spec a v); cbn [b2z]; unfold limb in Ha.
    - apply Z.le_antisymm; [|nia]. apply Z.lt_succ_r, Z.div_lt_upper_bound; lia.
    - assert ((v + b) / B < 2) by (apply Z.div_lt_upper_bound; lia). assert (0 <= (v + b) / B) by (apply Z.div_pos; lia). nia. }
  pose proof (limb_ulimb (a + k)) as Ha'. pose proof (ulimb_split (a + k)) as Es'. set (a' := ulimb (a + k)) in *.
  assert ((a + k) / B = b2z (a' <? k)) as Eq'.
  { unfold limb in *. assert (0 <= (a + k) / B <= 1) by (split; [apply Z.div_pos; lia|apply Z.lt_succ_r, Z.div_lt_upper_bound; lia]).
    destruct (Z.ltb_spec a' k); cbn [b2z]; nia. }
  unfold limb in *. split; [done|]. rewrite Eq in Es. rewrite Eq' in Es'.
  destruct (a' <? k) eqn:E1, (a <? v) eqn:E2; cbn [b2z] in *; bool_props; try (change (Z.lor _ _) with 1); try (change (Z.lor _ _) with 0); lia.
Qed.
Lemma ulimb_sub_carry v b k :
  limb v → limb b → 0 <= k <= 1 →
  let a := ulimb (v - b) in let a' := ulimb (a - k) in let k' := b2z (a' >? a) .| b2z (a >? v) in
  limb a' ∧ 0 <= k' <= 1 ∧ a' + -1 * B * k' = v - b + -1 * k.
Proof.
  intros Hv Hb Hk. cbv zeta. pose proof B_pos. unfold limb in *. pose proof (limb_ulimb (v - b)) as Ha.
  pose proof (ulimb_split (v - b)) as Es. set (a := ulimb (v - b)) in *. rewrite !Z.gtb_ltb.
  assert ((v - b) / B = - b2z (v <? a)) as Eq.
  { assert (-1 <= (v - b) / B < 1) by (split; [apply Z.div_le_lower_bound|apply Z.div_lt_upper_bound]; lia).
    unfold limb in *. destruct (Z.ltb_spec v a); cbn [b2z]; nia. }
  pose proof (limb_ulimb (a - k)) as Ha'. pose proof (ulimb_split (a - k)) as Es'. set (a' := ulimb (a - k)) in *.
  assert ((a - k) / B = - b2z (a <? a')) as Eq'.
  { unfold limb in *. assert (-1 <= (a - k) / B < 1) by (split; [apply Z.div_le_lower_bound|apply Z.div_lt_upper_bound]; lia).
    destruct (Z.ltb_spec a a'); cbn [b2z]; nia. }
  unfold limb in *. split; [done|]. rewrite Eq in Es. rewrite Eq' in Es'.
  destruct (a <? a') eqn:E1, (v <? a) eqn:E2; cbn [b2z] in *; bool_props; try (change (Z.lor _ _) with 1); try (change (Z.lor _ _) with 0); lia.
Qed.
Lemma dlimb_split t : 0 <= t < B * B → dlimb t = t ∧ limb (ulimb t) ∧ limb (t >> LIMB_BITS) ∧ ulimb t + B * (t >> LIMB_BITS) = t.
Proof.
  intros Ht. pose proof B_pos. unfold dlimb. rewrite Z.mod_small by lia. rewrite shiftr_limb. split; [done|].
  split; [apply limb_ulimb|]. split; [|symmetry; apply ulimb_split].
  split; [apply Z.div_pos; lia|apply Z.div_lt_upper_bound; lia].
Qed.
Lemma mul_borrow r a b l :
  limb r → limb a → limb b → limb l →
  let t := dlimb (r - a * b - l) in let l' := ulimb (- (t >> LIMB_BITS)) in
  limb (ulimb t) ∧ limb l' ∧ ulimb t + -1 * B * l' = r - a * b + -1 * l.
Proof.
  intros Hr Ha Hb Hl. cbv zeta. pose proof B_pos. rewrite shiftr_limb. set (x := r - a * b - l).
  split; [apply limb_ulimb|]. split; [apply limb_ulimb|].
  assert (x = dlimb x + B * (B * (x / (B * B)))) as Ex.
  { unfold dlimb. rewrite Z.mul_assoc, Z.add_comm. apply Z.div_mod. nia. }
  set (c := x / (B * B)) in *. clearbody c. unfold limb in *.
  assert (ulimb (dlimb x) = ulimb x) as ->.
  { rewrite Ex at 2. unfold ulimb. by rewrite (Z.mul_comm B), Z.mod_add by lia. }
  assert (dlimb x / B = x / B - c * B) as ->.
  { rewrite Ex at 2. rewrite (Z.mul_comm B (B * c)), Z.div_add by lia. ring. }
  assert (ulimb (- (x / B - c * B)) = - (x / B)) as ->.
  { unfold ulimb. replace (- (x / B - c * B)) with (- (x / B) + c * B) by ring. rewrite Z.mod_add by lia. apply Z.mod_small.
    assert (- B < x / B) by (apply Z.le_succ_l; apply Z.div_le_lower_bound; unfold x; nia).
    assert (x / B < 1) by (apply Z.div_lt_upper_bound; unfold x; nia). lia. }
  pose proof (ulimb_split x). unfold x in *. lia.
Qed.

(** ** The functions *)
Lemma mp_add_spec res op1 op2 n k :
  limbs op1 → limbs op2 → 0 <= n <= zlen res → n <= zlen op1 → n <= zlen op2 → 0 <= k <= 1 →
  stored res n carry (mp_add res op1 op2 n k) (λ r k', val r + B ^ n * k' = low n op1 + low n op2 + k).
Proof.
  intros H1 H2 Hn Hn1 Hn2 Hk.
  eapply stored_mono; [apply (carry_loop carry 1 (λ i, limb_at op1 i + limb_at op2 i)); [|done|done]|].
  - intros i res' k' Hi _ _ Hk'. rewrite !aget_limb_at by lia. cbn [mbind option_bind].
    destruct (ulimb_add_carry _ _ k' (limb_at_range op1 i H1) (limb_at_range op2 i H2) Hk') as (Ha & Hc & E).
    eexists _, _. split; [reflexivity|]. split; [eassumption|]. split; [eassumption|]. lia.
  - intros r h Hv. rewrite series_add, !series_low in Hv by lia. lia.
Qed.
Lemma mp_sub_spec res op1 op2 n k :
  limbs op1 → limbs op2 → 0 <= n <= zlen res → n <= zlen op1 → n <= zlen op2 → 0 <= k <= 1 →
  stored res n carry (mp_sub res op1 op2 n k) (λ r k', val r - B ^ n * k' = low n op1 - low n op2 - k).
Proof.
  intros H1 H2 Hn Hn1 Hn2 Hk.
  eapply stored_mono; [apply (carry_loop carry (-1) (λ i, limb_at op1 i - limb_at op2 i)); [|done|done]|].
  - intros i res' k' Hi _ _ Hk'. rewrite !aget_limb_at by lia. cbn [mbind option_bind].
    destruct (ulimb_sub_carry _ _ k' (limb_at_range op1 i H1) (limb_at_range op2 i H2) Hk') as (Ha & Hc & E).
    eexists _, _. split; [reflexivity|]. split; [eassumption|]. split; [eassumption|]. lia.
  - intros r h Hv. rewrite series_sub, !series_low in Hv by lia. lia.
Qed.
Lemma mp_neg_spec res op2 n k :
  limbs op2 → 0 <= n <= zlen res → n <= zlen op2 → 0 <= k <= 1 →
  stored res n carry (mp_neg res op2 n k) (λ r k', val r - B ^ n * k' = - low n op2 - k).
Proof.
  intros H2 Hn Hn2 Hk. pose proof B_pos.
  eapply stored_mono; [apply (carry_loop carry (-1) (λ i, 0 - limb_at op2 i)); [|done|done]|].
  - intros i res' k' Hi _ _ Hk'. rewrite !aget_limb_at by lia. cbn [mbind option_bind].
    destruct (ulimb_sub_carry 0 _ k' ltac:(split; lia) (limb_at_range op2 i H2) Hk') as (Ha & Hc & E).
    eexists _, _. split; [reflexivity|]. split; [eassumption|]. split; [eassumption|]. lia.
  - intros r h Hv. rewrite (series_sub (λ _, 0)), series_0, series_low in Hv by lia. lia.
Qed.
Lemma mp_mul1_spec tabr taba n b l :
  limbs taba → limb b → limb l → 0 <= n <= zlen tabr → n <= zlen taba →
  stored tabr n limb (mp_mul1 tabr taba n b l) (λ r h, val r + B ^ n * h = low n taba * b + l).
Proof.
  intros Ha Hb Hl Hn Hna.
  eapply stored_mono; [apply (carry_loop limb 1 (λ i, limb_at taba i * b)); [|done|done]|].
  - intros i res' k' Hi _ _ Hk'. rewrite !aget_limb_at by lia. cbn [mbind option_bind]. cbv zeta.
    pose proof (limb_at_range taba i Ha) as Hai. unfold limb in *.
    destruct (dlimb_split (limb_at taba i * b + k')) as (-> & H1 & H2 & H3); [nia|].
    eexists _, _. split; [reflexivity|]. split; [eassumption|]. split; [eassumption|]. lia.
  - intros r h Hv. rewrite series_mul, series_low in Hv by lia. lia.
Qed.
Lemma mp_add_mul1_spec tabr taba n b :
  limbs (ztake n tabr) → limbs taba → limb b → 0 <= n <= zlen tabr → n <= zlen taba →
  stored tabr n limb (mp_add_mul1 tabr taba n b) (λ r h, val r + B ^ n * h = low n tabr + low n taba * b).
Proof.
  intros Ht Ha Hb Hn Hna. pose proof B_pos.
  eapply stored_mono; [apply (carry_loop limb 1 (λ i, limb_at taba i * b + limb_at tabr i)); [|done|split; lia]|].
  - intros i res' k' Hi _ -> Hk'. rewrite !aget_limb_at by lia. cbn [mbind option_bind]. cbv zeta.
    pose proof (limb_at_range taba i Ha) as Hai. pose proof (limb_at_ztake tabr i n Ht Hi) as Hti. unfold limb in *.
    destruct (dlimb_split (limb_at taba i * b + k' + limb_at tabr i)) as (-> & H1 & H2 & H3); [nia|].
    eexists _, _. split; [reflexivity|]. split; [eassumption|]. split; [eassumption|]. lia.
  - intros r h Hv. rewrite series_add, series_mul, !series_low in Hv by lia. lia.
Qed.
Lemma mp_sub_mul1_spec tabr taba n b :
  limbs (ztake n tabr) → limbs taba → limb b → 0 <= n <= zlen tabr → n <= zlen taba →
  stored tabr n limb (mp_sub_mul1 tabr taba n b) (λ r h, val r - B ^ n * h = low n tabr - low n taba * b).
Proof.
  intros Ht Ha Hb Hn Hna. pose proof B_pos.
  eapply stored_mono; [apply (carry_loop limb (-1) (λ i, limb_at tabr i - limb_at taba i * b)); [|done|split; lia]|].
  - intros i res' k' Hi _ -> Hk'. rewrite !aget_limb_at by lia. cbn [mbind option_bind]. cbv zeta.
    destruct (mul_borrow _ _ _ k' (limb_at_ztake tabr i n Ht Hi) (limb_at_range taba i Ha) Hb Hk') as (H1 & H2 & H3).
    eexists _, _. split; [reflexivity|]. split; [exact H1|]. split; [exact H2|]. exact H3.
  - intros r h Hv. rewrite series_sub, series_mul, !series_low in Hv by lia. lia.
Qed.
Lemma low_cons n x q : low (1 + Z.of_nat n) (x :: q) = x + B * low (Z.of_nat n) q.
Proof. unfold low, ztake. by replace (Z.to_nat (1 + Z.of_nat n)) with (S (Z.to_nat (Z.of_nat n))) by lia. Qed.
Lemma zdrop_S_cons {A} n (x : A) q : zdrop (1 + Z.of_nat n) (x :: q) = zdrop (Z.of_nat n) q.
Proof. unfold zdrop. by replace (Z.to_nat (1 + Z.of_nat n)) with (S (Z.to_nat (Z.of_nat n))) by lia. Qed.
Lemma ztake_S_cons {A} n (x : A) q : ztake (1 + Z.of_nat n) (x :: q) = x :: ztake (Z.of_nat n) q.
Proof. unfold ztake. by replace (Z.to_nat (1 + Z.of_nat n)) with (S (Z.to_nat (Z.of_nat n))) by lia. Qed.
Lemma mp_add_ui_loop_spec n p q k :
  limbs q → limb k → Z.of_nat n <= zlen q →
  ∃ r k', mp_add_ui_loop n (p ++ q) (zlen p) k = Some (p ++ r ++ zdrop (Z.of_nat n) q, k') ∧
    zlen r = Z.of_nat n ∧ limbs r ∧ limb k' ∧ val r + B ^ Z.of_nat n * k' = low (Z.of_nat n) q + k.
Proof.
  intros Hq. revert p q k Hq. induction n as [|n IH]; intros p q k Hq Hk Hn.
  { exists [], k. cbn [mp_add_ui_loop app]. split_and!; [done|done|constructor|done..|]. unfold low. cbn [val]. change (ztake (Z.of_nat 0) q) with (@nil Z).
    change (Z.of_nat 0) with 0. rewrite Z.pow_0_r. cbn [val]. lia. }
  destruct q as [|x q]; [change (zlen (@nil Z)) with 0 in Hn; lia|]. rewrite zlen_cons in Hn. apply Forall_cons in Hq as [Hx Hq].
  pose proof B_pos. replace (Z.of_nat (S n)) with (1 + Z.of_nat n) by lia.
  pose proof (low_cons n x q) as Hlow. pose proof (zdrop_S_cons n x q) as Hdrop.
  cbn [mp_add_ui_loop]. destruct (Z.eqb_spec k 0) as [->|Hk0].
  - exists (ztake (1 + Z.of_nat n) (x :: q)), 0. rewrite ztake_zdrop. split; [done|]. rewrite zlen_ztake by (rewrite zlen_cons; lia).
    split; [done|]. split; [apply limbs_ztake; by constructor|]. split; [split; lia|]. unfold low. lia.
  - rewrite aget_app_at. cbn [mbind option_bind]. rewrite aset_app_at. cbn [mbind option_bind].
    pose proof (carry_of_add x k Hx Hk) as Ek.
    set (a := ulimb (x + k)) in *. pose proof (limb_ulimb (x + k) : limb a) as Ha.
    destruct (IH (p ++ [a]) q (b2z (a <? k)) Hq) as (r & k' & E & Hlen & Hr & Hk' & Hv); [destruct (a <? k); split; cbn [b2z]; lia|lia|].
    exists (a :: r), k'. rewrite zlen_app in E. change (zlen [a]) with 1 in E. rewrite <- !app_assoc in E. cbn [app] in E. rewrite E.
    rewrite Hdrop, zlen_cons. split; [done|]. split; [lia|]. split; [by constructor|]. split; [done|]. rewrite Hlow.
    rewrite Z.pow_add_r, Z.pow_1_r by lia. cbn [val].
    transitivity (a + B * (val r + B ^ Z.of_nat n * k')); [ring|]. rewrite Hv. lia.
Qed.
Lemma mp_add_ui_spec tab b n :
  limbs tab → limb b → 0 <= n <= zlen tab →
  stored tab n limb (mp_add_ui tab b n) (λ r k, val r + B ^ n * k = low n tab + b).
Proof.
  intros Ht Hb Hn. destruct (mp_add_ui_loop_spec (Z.to_nat n) [] tab b Ht Hb ltac:(lia)) as (r & k & E & Hr).
  rewrite Z2Nat.id in * by lia. by exists r, k.
Qed.
Lemma borrow_of_sub v b : limb v → limb b → v - b = ulimb (v - b) - B * b2z (ulimb (v - b) >? v).
Proof.
  unfold limb. intros Hv Hb. pose proof B_pos. pose proof (ulimb_split (v - b)) as Es. pose proof (limb_ulimb (v - b)) as Hl. unfold limb in Hl.
  assert (-1 <= (v - b) / B <= 0) as Hq by (split; [apply Z.div_le_lower_bound; lia|apply Z.lt_succ_r, Z.div_lt_upper_bound; lia]).
  rewrite Z.gtb_ltb. assert ((v - b) / B = 0 ∨ (v - b) / B = -1) as [E|E] by lia; rewrite E in Es;
    destruct (Z.ltb_spec v (ulimb (v - b))); cbn [b2z]; lia.
Qed.
Lemma mp_sub_ui_loop_spec n p q k :
  limbs q → limb k → Z.of_nat n <= zlen q →
  ∃ r k', mp_sub_ui_loop n (p ++ q) (zlen p) k = Some (p ++ r ++ zdrop (Z.of_nat n) q, k') ∧
    zlen r = Z.of_nat n ∧ limbs r ∧ limb k' ∧ val r - B ^ Z.of_nat n * k' = low (Z.of_nat n) q - k.
Proof.
  intros Hq. revert p q k Hq. induction n as [|n IH]; intros p q k Hq Hk Hn.
  { exists [], k. cbn [mp_sub_ui_loop app]. split_and!; [done|done|constructor|done..|]. unfold low. change (ztake (Z.of_nat 0) q) with (@nil Z).
    change (Z.of_nat 0) with 0. rewrite Z.pow_0_r. cbn [val]. lia. }
  destruct q as [|x q]; [change (zlen (@nil Z)) with 0 in Hn; lia|]. rewrite zlen_cons in Hn. apply Forall_cons in Hq as [Hx Hq].
  pose proof B_pos. replace (Z.of_nat (S n)) with (1 + Z.of_nat n) by lia.
  cbn [mp_sub_ui_loop]. rewrite aget_app_at. cbn [mbind option_bind]. rewrite aset_app_at. cbn [mbind option_bind].
  pose proof (borrow_of_sub x k Hx Hk) as Ek. set (a := ulimb (x - k)) in *. pose proof (limb_ulimb (x - k) : limb a) as Ha.
  destruct (Z.eqb_spec (b2z (a >? x)) 0) as [E0|_].
  - rewrite E0 in *. exists (a :: ztake (Z.of_nat n) q), 0. rewrite zdrop_S_cons, low_cons, zlen_cons, zlen_ztake by lia. cbn [app].
    rewrite ztake_zdrop. split; [done|]. split; [done|]. split; [constructor; [done|by apply limbs_ztake]|]. split; [split; lia|].
    cbn [val]. unfold low. lia.
  - destruct (IH (p ++ [a]) q (b2z (a >? x)) Hq) as (r & k' & E & Hlen & Hr & Hk' & Hv); [destruct (a >? x); split; cbn [b2z]; lia|lia|].
    exists (a :: r), k'. rewrite zlen_app in E. change (zlen [a]) with 1 in E. rewrite <- !app_assoc in E. cbn [app] in E. rewrite E.
    rewrite zdrop_S_cons, low_cons, zlen_cons. split; [done|]. split; [lia|]. split; [by constructor|]. split; [done|].
    rewrite Z.pow_add_r, Z.pow_1_r by lia. cbn [val].
    transitivity (a + B * (val r - B ^ Z.of_nat n * k')); [ring|]. rewrite Hv. lia.
Qed.
Lemma mp_sub_ui_spec tab b n :
  limbs tab → limb b → 0 <= n <= zlen tab →
  stored tab n limb (mp_sub_ui tab b n) (λ r k, val r - B ^ n * k = low n tab - b).
Proof.
  intros Ht Hb Hn. destruct (mp_sub_ui_loop_spec (Z.to_nat n) [] tab b Ht Hb ltac:(lia)) as (r & k & E & Hr).
  rewrite Z2Nat.id in * by lia. by exists r, k.
Qed.
Lemma land_ones_mod x s : 0 <= s → x .& ((1 << s) - 1) = x mod 2 ^ s.
Proof. intros. rewrite Z.shiftl_1_l. by apply land_mask. Qed.
(** a limb shifted right, with bits of the next one shifted in *)
Lemma shift_in a l s :
  1 <= s < LIMB_BITS → limb a → limb l →
  (a >> s) .| ulimb (l << (LIMB_BITS - s)) = a / 2 ^ s + (l mod 2 ^ s) * 2 ^ (LIMB_BITS - s) ∧
  limb ((a >> s) .| ulimb (l << (LIMB_BITS - s))).
Proof.
  intros Hs Ha Hl. assert (B = 2 ^ s * 2 ^ (LIMB_BITS - s)) as HB by (unfold B; rewrite <- Z.pow_add_r by lia; f_equal; lia).
  assert (0 < 2 ^ s ∧ 0 < 2 ^ (LIMB_BITS - s)) as [Hp Hp'] by (split; apply Z.pow_pos_nonneg; lia).
  assert (ulimb (l << (LIMB_BITS - s)) = (l mod 2 ^ s) << (LIMB_BITS - s)) as ->.
  { unfold ulimb. rewrite !Z.shiftl_mul_pow2, HB by lia. rewrite Z.mul_mod_distr_r by lia. done. }
  unfold limb in *. assert (0 <= a >> s < 2 ^ (LIMB_BITS - s)) as Has.
  { rewrite shiftr_div by lia. split; [apply Z.div_pos; lia|apply Z.div_lt_upper_bound; lia]. }
  rewrite Z.lor_comm, lor_shiftl_add by lia. rewrite shiftr_div in * by lia. split; [lia|].
  pose proof (Z.mod_pos_bound l (2 ^ s) Hp). nia.
Qed.
(** the invariant of the loops that shift right by [s]: [l] is the limb above
    the next one, and [r] what is shifted already *)
Definition shr_inv (t : list Z) (s high j : Z) (r : list Z) (l : Z) : Prop :=
  limb l ∧ val r * 2 ^ s + l mod 2 ^ s = val (zdrop j t) + high * B ^ (zlen t - j).
Lemma shr_start t s high : 1 <= s < LIMB_BITS → 0 <= high < 2 ^ s → shr_inv t s high (zlen t) [] high.
Proof.
  intros Hs Hh. assert (2 ^ s < B) as HsB by (apply Z.pow_lt_mono_r; lia).
  split; [unfold limb; lia|]. rewrite Z.sub_diag, zdrop_all by lia. cbn [val]. rewrite Z.mod_small by lia. lia.
Qed.
Lemma shr_step t s high j r l :
  limbs t → 1 <= s < LIMB_BITS → 0 <= j < zlen t → shr_inv t s high (j + 1) r l →
  let x := (limb_at t j >> s) .| ulimb (l << (LIMB_BITS - s)) in limb x ∧ shr_inv t s high j (x :: r) (limb_at t j).
Proof.
  intros Ht Hs Hj [Hl Hv] x. pose proof (limb_at_range t j Ht) as Ha. destruct (shift_in (limb_at t j) l s Hs Ha Hl) as [Ex Hx]. fold x in Ex, Hx.
  assert (0 < 2 ^ s) as Hp by (apply Z.pow_pos_nonneg; lia).
  split; [done|]. split; [done|]. cbn [val]. rewrite Ex, (zdrop_limb_cons t j) by lia. cbn [val].
  replace (zlen t - j) with (zlen t - (j + 1) + 1) by lia. rewrite pow_B_S by lia.
  assert (2 ^ s ≠ 0) as Hp0 by lia. pose proof (Z.div_mod (limb_at t j) (2 ^ s) Hp0) as Hd.
  assert (B = 2 ^ s * 2 ^ (LIMB_BITS - s)) as HB by (unfold B; rewrite <- Z.pow_add_r by lia; f_equal; lia).
  transitivity (2 ^ s * (limb_at t j / 2 ^ s) + limb_at t j mod 2 ^ s + B * (val r * 2 ^ s + l mod 2 ^ s));
    [rewrite HB; ring|]. rewrite Hv, <- Hd. ring.
Qed.
Lemma shr_end t s high r l :
  1 <= s < LIMB_BITS → shr_inv t s high 0 r l →
  l mod 2 ^ s = (val t + high * B ^ zlen t) mod 2 ^ s ∧ val r = (val t + high * B ^ zlen t) / 2 ^ s.
Proof.
  intros Hs [Hl Hv]. assert (0 < 2 ^ s) as Hp by (apply Z.pow_pos_nonneg; lia). rewrite Z.sub_0_r in Hv. change (zdrop 0 t) with t in Hv.
  rewrite <- Hv. pose proof (Z.mod_pos_bound l (2 ^ s) Hp).
  rewrite Z.add_comm, Z.mod_add, Z.mod_mod, Z.div_add, Z.div_small by lia. lia.
Qed.
Lemma mp_shr_spec tab_r tab n s high :
  limbs tab → 0 <= n <= zlen tab_r → n <= zlen tab → 1 <= s < LIMB_BITS → 0 <= high < 2 ^ s →
  ∃ r, mp_shr tab_r tab n s high = Some (r ++ zdrop n tab_r, (low n tab + high * B ^ n) mod 2 ^ s) ∧
    zlen r = n ∧ limbs r ∧ val r = (low n tab + high * B ^ n) / 2 ^ s.
Proof.
  intros Ht Hn Hn2 Hs Hhigh. unfold mp_shr. destruct (Z.leb_spec 1 s), (Z.ltb_spec s LIMB_BITS); try lia. cbn [andb].
  set (t := ztake n tab). assert (zlen t = n) as Hlt by (apply zlen_ztake; lia). pose proof (limbs_ztake tab n Ht : limbs t) as Hlt'.
  match goal with |- context [for_down _ ?body _] =>
    destruct (down_loop (shr_inv t s high) n body tab_r high) as (r & l & E & Hlen & Hr & HP); [|done|..]
  end.
  - intros j r res l Hj Hlen Hr _ HP. rewrite aget_limb_at by lia. cbn [mbind option_bind].
    destruct (shr_step t s high j r l Hlt' Hs ltac:(lia) HP) as [Hx HP'].
    assert (limb_at t j = limb_at tab j) as Ej.
    { unfold t, limb_at, aget, ztake. destruct (j <? 0); [done|]. by rewrite lookup_take_lt by lia. }
    rewrite Ej in Hx, HP'. eexists _, _. split; [reflexivity|]. split; [exact Hx|exact HP'].
  - rewrite <- Hlt at 1. by apply shr_start.
  - rewrite E. cbn [mbind option_bind]. destruct (shr_end t s high r l Hs HP) as [Hm Hd]. rewrite Hlt in Hm, Hd.
    exists r. rewrite land_ones_mod, Hm by lia. done.
Qed.
Lemma mp_cmp_spec taba tabb n :
  limbs taba → limbs tabb → 0 <= n <= zlen taba → n <= zlen tabb →
  ∃ c, mp_cmp taba tabb n = Some c ∧
    (c = -1 ∧ low n taba < low n tabb ∨ c = 0 ∧ low n taba = low n tabb ∨ c = 1 ∧ low n tabb < low n taba).
Proof.
  intros Ha Hb Hn Hnb. unfold mp_cmp. rewrite <- (Z2Nat.id n) in * by lia. rewrite Nat2Z.id. generalize dependent (Z.to_nat n). clear n.
  intros n. induction n as [|n IH]; intros Hn Hnb; [exists 0; split; [done|]; right; left; done|].
  cbn [mp_cmp_loop]. rewrite !aget_limb_at by lia. cbn [mbind option_bind]. unfold low.
  replace (Z.of_nat (S n)) with (Z.of_nat n + 1) by lia. rewrite !val_ztake_S by lia.
  pose proof (val_bounds (ztake (Z.of_nat n) taba) (limbs_ztake _ _ Ha)) as Ba. pose proof (val_bounds (ztake (Z.of_nat n) tabb) (limbs_ztake _ _ Hb)) as Bb.
  rewrite zlen_ztake in Ba by lia. rewrite zlen_ztake in Bb by lia.
  destruct (Z.eqb_spec (limb_at taba (Z.of_nat n)) (limb_at tabb (Z.of_nat n))) as [->|Hne]; cbn [negb].
  - destruct (IH ltac:(lia) ltac:(lia)) as (c & -> & Hc). exists c. split; [done|]. unfold low in Hc. lia.
  - eexists. split; [reflexivity|]. destruct (Z.ltb_spec (limb_at taba (Z.of_nat n)) (limb_at tabb (Z.of_nat n))).
    + left. split; [done|]. nia.
    + right; right. split; [done|]. nia.
Qed.
Lemma mp_scan_nz_loop_spec n p q :
  limbs q → Z.of_nat n <= zlen q → mp_scan_nz_loop n (p ++ q) (zlen p) = Some (if low (Z.of_nat n) q =? 0 then 0 else 1).
Proof.
  intros Hq. pose proof B_pos. revert p q Hq. induction n as [|n IH]; intros p q Hq Hn; [done|].
  destruct q as [|x q]; [change (zlen (@nil Z)) with 0 in Hn; lia|]. rewrite zlen_cons in Hn. apply Forall_cons in Hq as [Hx Hq].
  cbn [mp_scan_nz_loop]. rewrite aget_app_at. cbn [mbind option_bind]. replace (Z.of_nat (S n)) with (1 + Z.of_nat n) by lia. rewrite low_cons.
  pose proof (val_bounds _ (limbs_ztake q (Z.of_nat n) Hq)) as Hb. fold (low (Z.of_nat n) q) in Hb. unfold limb in Hx.
  destruct (Z.eqb_spec x 0) as [->|Hx0]; cbn [negb].
  - specialize (IH (p ++ [0]) q Hq ltac:(lia)). rewrite <- app_assoc, zlen_app in IH. cbn [app] in IH. change (zlen [0]) with 1 in IH. rewrite IH.
    rewrite Z.add_0_l. destruct (Z.eqb_spec (low (Z.of_nat n) q) 0) as [->|]; [by rewrite Z.mul_0_r|].
    destruct (Z.eqb_spec (B * low (Z.of_nat n) q) 0); [nia|done].
  - destruct (Z.eqb_spec (x + B * low (Z.of_nat n) q) 0); [nia|done].
Qed.
Lemma mp_scan_nz_spec tab n :
  limbs tab → 0 <= n <= zlen tab → mp_scan_nz tab n = Some (if low n tab =? 0 then 0 else 1).
Proof.
  intros Ht Hn. pose proof (mp_scan_nz_loop_spec (Z.to_nat n) [] tab Ht ltac:(lia)) as E. by rewrite Z2Nat.id in E by lia.
Qed.

(** ** Multiplication *)
Lemma zlen_at_least {A} (l : list A) n : zlen l = n → ∀ k : list A, ztake n (l ++ k) = l ∧ zdrop n (l ++ k) = k.
Proof. intros <- k. split; [apply ztake_app|apply zdrop_app]. Qed.
Lemma aset_zdrop (r res : list Z) n x :
  zlen r = n → n < zlen res → aset (r ++ zdrop n res) n x = Some ((r ++ [x]) ++ zdrop (n + 1) res).
Proof.
  intros Hlen Hn. pose proof (zlen_nonneg r). rewrite zdrop_limb_cons, <- app_assoc by lia. cbn [app].
  generalize (limb_at res n), (zdrop (n + 1) res). intros y l. rewrite <- Hlen. apply aset_app_at.
Qed.
(** a row of the product is added at limb [i] *)
Lemma mul_row r res op1 n1 b i :
  limbs r → limbs op1 → limb b → 0 <= n1 <= zlen op1 → 0 <= i → zlen r = i + n1 → i + n1 < zlen res →
  ∃ r', ('(result, h) ← at_offset i (λ t, mp_add_mul1 t op1 n1 b) (r ++ zdrop (i + n1) res); aset result (i + n1) h)
      = Some (r' ++ zdrop (i + 1 + n1) res) ∧
    limbs r' ∧ zlen r' = i + 1 + n1 ∧ val r' = val r + B ^ i * (low n1 op1 * b).
Proof.
  intros Hr Hop Hb Hn1 Hi Hlen Hres. unfold at_offset. pose proof (zlen_nonneg (zdrop (i + n1) res)).
  destruct (Z.ltb_spec i 0); [lia|]. destruct (Z.ltb_spec (zlen (r ++ zdrop (i + n1) res)) i); [rewrite zlen_app in *; lia|]. cbn [orb].
  set (r1 := ztake i r). set (r2 := zdrop i r). assert (r = r1 ++ r2) as Er by (symmetry; apply ztake_zdrop).
  assert (zlen r1 = i ∧ zlen r2 = n1) as [Hz1 Hz2] by (unfold r1, r2; rewrite zlen_ztake, zlen_zdrop by lia; lia).
  clearbody r1 r2. subst r. apply limbs_app in Hr as [Hr1 Hr2].
  rewrite <- app_assoc. destruct (zlen_at_least r1 i Hz1 (r2 ++ zdrop (i + n1) res)) as [-> ->].
  destruct (mp_add_mul1_spec (r2 ++ zdrop (i + n1) res) op1 n1 b) as (r' & h & E & Hl & Hr' & Hh & Hv).
  - by destruct (zlen_at_least r2 n1 Hz2 (zdrop (i + n1) res)) as [-> _].
  - done.
  - done.
  - rewrite zlen_app. pose proof (zlen_nonneg (zdrop (i + n1) res)). lia.
  - lia.
  - rewrite E. cbn [mbind option_bind]. destruct (zlen_at_least r2 n1 Hz2 (zdrop (i + n1) res)) as [Et ->].
    unfold low in Hv at 1. rewrite Et in Hv. rewrite app_assoc, aset_zdrop by (rewrite ?zlen_app; lia).
    eexists. split; [by replace (i + n1 + 1) with (i + 1 + n1) by lia|].
    split; [rewrite !limbs_app; split_and!; [done..|by constructor]|].
    split; [rewrite !zlen_app; change (zlen [h]) with 1; lia|]. rewrite val_snoc, !val_app, zlen_app, Hz1, Hl, Z.pow_add_r by lia.
    transitivity (val r1 + B ^ i * (val r' + B ^ n1 * h)); [ring|]. rewrite Hv. ring.
Qed.
Lemma mp_mul_basecase_spec result op1 n1 op2 n2 :
  limbs op1 → limbs op2 → 0 <= n1 <= zlen op1 → 1 <= n2 <= zlen op2 → n1 + n2 <= zlen result →
  ∃ r, mp_mul_basecase result op1 n1 op2 n2 = Some (r ++ zdrop (n1 + n2) result) ∧
    zlen r = n1 + n2 ∧ limbs r ∧ val r = low n1 op1 * low n2 op2.
Proof.
  intros H1 H2 Hn1 Hn2 Hres. unfold mp_mul_basecase. pose proof B_pos. rewrite aget_limb_at by lia. cbn [mbind option_bind].
  destruct (mp_mul1_spec result op1 n1 (limb_at op2 0) 0 H1 (limb_at_range op2 0 H2) ltac:(split; lia) ltac:(lia) ltac:(lia))
    as (r & h & -> & Hlen & Hr & Hh & Hv).
  cbn [mbind option_bind]. rewrite aset_zdrop by lia. cbn [mbind option_bind]. rewrite (Z.add_comm n1 1).
  match goal with |- ∃ r, for_up _ ?body _ _ = _ ∧ _ =>
    destruct (for_up_inv (λ i res, ∃ r, res = r ++ zdrop (i + n1) result ∧ limbs r ∧ zlen r = i + n1 ∧ val r = low n1 op1 * low i op2)
      (Z.to_nat (n2 - 1)) body 1 ((r ++ [h]) ++ zdrop (1 + n1) result)) as (res & E & r2 & -> & Hr2 & Hlen2 & Hv2)
  end.
  - intros i res Hi (r1 & -> & Hr1 & Hlen1 & Hv1). rewrite aget_limb_at by lia. cbn [mbind option_bind].
    destruct (mul_row r1 result op1 n1 (limb_at op2 i) i Hr1 H1 (limb_at_range op2 i H2) Hn1 ltac:(lia) Hlen1 ltac:(lia))
      as (r' & E & Hr' & Hlen' & Hv').
    eexists. split; [exact E|]. exists r'. split; [done|]. split; [done|]. split; [done|]. rewrite Hv', Hv1. unfold low. rewrite (val_ztake_S op2) by lia. ring.
  - exists (r ++ [h]). split; [done|]. split; [apply limbs_app; by split; [|constructor]|]. rewrite zlen_app. split; [change (zlen [h]) with 1; lia|].
    rewrite val_snoc, Hlen, Hv. pose proof (val_ztake_S op2 0 ltac:(lia)) as E1. change (ztake 0 op2) with (@nil Z) in E1.
    rewrite Z.pow_0_r, Z.add_0_l in E1. cbn [val] in E1. unfold low. rewrite E1. ring.
  - rewrite Z2Nat.id in * by lia. replace (1 + (n2 - 1)) with n2 in * by lia.
    rewrite (Z.add_comm n1 n2). exists r2. by rewrite E.
Qed.
End Lemmas.
