(* ===== verification/LimbDiv.v ===== *)
(** * Multi-precision division (js/libbf.c)

    [udiv1norm] divides two limbs by one with a precomputed inverse, and
    [mp_divnorm] is the schoolbook division.  The divisors are normalized:
    their highest bit is set. *)
From S2P Require Import Prelude Limb LimbOps.

Section Div.
Context `{!LimbSize}.

Definition UDIV1NORM_THRESHOLD : Z := 3.
Definition udiv1norm_init (d : Z) : Z :=
  let a1 := ulimb (- d - 1) in
  let a0 := ulimb (-1) in
  ulimb (((a1 << LIMB_BITS) .| a0) / d).
(** the quotient and the remainder [*pr] *)
Definition udiv1norm (a1 a0 d d_inv : Z) : Z * Z :=
  let n1m := ulimb (slimb a0 >> (LIMB_BITS - 1)) in
  let n_adj := ulimb (a0 + (n1m .& d)) in
  let a := dlimb (d_inv * ulimb (a1 - n1m) + n_adj) in
  let q := ulimb ((a >> LIMB_BITS) + a1) in
  let a := (a1 << LIMB_BITS) .| a0 in
  let a := dlimb (a - q * d - d) in
  let ah := a >> LIMB_BITS in
  let q := ulimb (q + (1 + ah)) in
  let r := ulimb (ulimb a + (ah .& d)) in
  (q, r).
Definition mp_div1norm (tabr taba : list Z) (n b r : Z) : option (list Z * Z) :=
  if n >=? UDIV1NORM_THRESHOLD then
    let b_inv := udiv1norm_init b in
    for_down (Z.to_nat n) (λ i '(tabr, r),
      a ← taba.[i]; let '(q, r) := udiv1norm r a b b_inv in
      tabr ← aset tabr i q; Some (tabr, r)) (tabr, r)
  else
    for_down (Z.to_nat n) (λ i '(tabr, r),
      a ← taba.[i]; let a1 := (r << LIMB_BITS) .| a in
      tabr ← aset tabr i (ulimb (a1 / b)); Some (tabr, ulimb (a1 mod b))) (tabr, r).

(** [for(j = nb - 1; j >= 0; j--)]: the first quotient digit *)
Fixpoint divnorm_first (j : nat) (taba : list Z) (n : Z) (tabb : list Z) : option Z :=
  match j with
  | O => Some 1
  | S j =>
    a ← taba.[n + Z.of_nat j]; b ← tabb.[Z.of_nat j];
    if negb (a =? b) then Some (if a <? b then 0 else 1) else divnorm_first j taba n tabb
  end.
(** the digit before the correction *)
Definition divnorm_digit (ah al b1 b1_inv : Z) : Z :=
  if ah >=? b1 then ulimb (-1)
  else if negb (b1_inv =? 0) then fst (udiv1norm ah al b1 b1_inv)
  else ulimb (((ah << LIMB_BITS) .| al) / b1).
(** [for(;;)]: add the divisor back until the result is not negative *)
Fixpoint divnorm_correct (fuel : nat) (taba tabb : list Z) (nb i q : Z) : option (list Z * Z) :=
  match fuel with
  | O => None
  | S fuel =>
    let q := ulimb (q - 1) in
    '(taba, c) ← at_offset i (λ t, mp_add t t tabb nb 0) taba;
    if negb (c =? 0) then
      v ← taba.[i + nb]; let v := ulimb (v + 1) in
      taba ← aset taba (i + nb) v;
      if v =? 0 then Some (taba, q) else divnorm_correct fuel taba tabb nb i q
    else divnorm_correct fuel taba tabb nb i q
  end.
(** the quotient digit is two too large at most *)
Definition CORRECT_FUEL : nat := 2.
Definition divnorm_step (tabb : list Z) (nb b1 b1_inv : Z) (i : Z) (s : list Z * list Z) : option (list Z * list Z) :=
  let '(tabq, taba) := s in
  ah ← taba.[i + nb]; al ← taba.[i + nb - 1];
  let q := divnorm_digit ah al b1 b1_inv in
  '(taba, r) ← at_offset i (λ t, mp_sub_mul1 t tabb nb q) taba;
  v ← taba.[i + nb];
  let a := ulimb (v - r) in
  let c := b2z (a >? v) in
  taba ← aset taba (i + nb) a;
  '(taba, q) ← (if negb (c =? 0) then divnorm_correct CORRECT_FUEL taba tabb nb i q else Some (taba, q));
  tabq ← aset tabq i q; Some (tabq, taba).
(** the schoolbook division, of [mp_divnorm] from the first iteration on *)
Definition divnorm_basecase (tabq taba : list Z) (na : Z) (tabb : list Z) (nb : Z) : option (list Z * list Z) :=
  b1 ← tabb.[nb - 1];
  let n := na - nb in
  let b1_inv := if n >=? UDIV1NORM_THRESHOLD then udiv1norm_init b1 else 0 in
  q ← divnorm_first (Z.to_nat nb) taba n tabb;
  tabq ← aset tabq n q;
  '(taba, _) ← (if negb (q =? 0) then at_offset n (λ t, mp_sub t t tabb nb 0) taba else Some (taba, 0));
  for_down (Z.to_nat n) (divnorm_step tabb nb b1 b1_inv) (tabq, taba).
End Div.

Section Udiv.
Context `{!LimbSize}.
(** a normalized divisor *)
Definition normalized (d : Z) : Prop := B / 2 <= d < B.

Lemma join_limbs h l : limb l → (h << LIMB_BITS) .| l = h * B + l.
Proof. intros Hl. destruct LIMB_BITS_log2. unfold limb, B in *. apply lor_shiftl_add; [destruct LIMB_BITS_cases as [-> | ->]; lia|done]. Qed.
Lemma ulimb_m1 : ulimb (-1) = B - 1.
Proof. pose proof B_pos. unfold ulimb. symmetry. apply (Z.mod_unique _ _ (-1)); lia. Qed.
Lemma land_m1 d : limb d → (B - 1) .& d = d.
Proof.
  intros Hd. rewrite Z.land_comm. unfold limb, B in *.
  rewrite land_mask by (destruct LIMB_BITS_cases as [-> | ->]; lia). by apply Z.mod_small.
Qed.
(** the inverse is [floor((B^2 - 1) / d) - B] *)
Lemma udiv1norm_init_spec d :
  normalized d → ∃ e, limb (udiv1norm_init d) ∧ 1 <= e <= d ∧ (B + udiv1norm_init d) * d = B * B - e.
Proof.
  intros Hd. unfold normalized in Hd. pose proof B_pos. destruct B_half as [HB _].
  unfold udiv1norm_init. cbv zeta. rewrite ulimb_m1, join_limbs by (split; lia).
  assert (ulimb (- d - 1) = B - 1 - d) as -> by (unfold ulimb; symmetry; apply (Z.mod_unique _ _ (-1)); lia).
  set (x := (B - 1 - d) * B + (B - 1)). assert (0 <= x / d < B) as Hx by (split; [apply Z.div_pos; unfold x; nia|apply Z.div_lt_upper_bound; unfold x; nia]).
  unfold ulimb. rewrite Z.mod_small by lia. pose proof (Z.div_mod x d ltac:(lia)) as E. pose proof (Z.mod_pos_bound x d ltac:(lia)).
  exists (x mod d + 1). split; [done|]. split; [lia|]. unfold x in *. nia.
Qed.
(** the estimate of the quotient: at most one too small *)
Lemma udiv_estimate d v e a1 a0 n1 t :
  normalized d → limb v → 1 <= e <= d → (B + v) * d = B * B - e → 0 <= a1 < d → limb a0 →
  (n1 = 0 ∧ a0 < B / 2 ∨ n1 = 1 ∧ B / 2 <= a0) → limb t → 
  ∀ q, q * B + t = v * (a1 + n1) + (a0 - n1 * (B - d)) + a1 * B → 0 <= a1 * B + a0 - q * d < 2 * d.
Proof.
  intros Hd Hv He HV Ha1 Ha0 Hn1 Ht q Hq. unfold normalized, limb in *. destruct B_half as [HB HB2].
  assert (B * (a1 * B + a0 - q * d) = (B - d) * (a0 - n1 * (B - d)) + (a1 + n1) * e + d * t) as E.
  { transitivity (B * (a1 * B + a0) - d * (q * B)); [ring|].
    replace (q * B) with (v * (a1 + n1) + (a0 - n1 * (B - d)) + a1 * B - t) by lia.
    transitivity (B * a1 * B + B * a0 - (a1 + n1) * ((B + v) * d) + (a1 + n1) * B * d - d * (a0 - n1 * (B - d)) - d * a1 * B + d * t); [ring|].
    rewrite HV. ring. }
  set (x := a1 * B + a0 - q * d) in *. clearbody x.
  enough (0 <= B * x < B * (2 * d)) as [Hx1 Hx2].
  { split; [apply (Z.mul_le_mono_pos_l _ _ B); lia|apply (Z.mul_lt_mono_pos_l B); lia]. }
  rewrite E. clear E HV Hq.
  destruct Hn1 as [[-> Hl]|[-> Hl]].
  - assert (0 <= (B - d) * a0 <= (B - d) * (B / 2)) by nia. assert (0 <= a1 * e <= (d - 1) * d) by nia.
    assert (0 <= d * t <= d * (B - 1)) by nia. assert ((B - d) * (B / 2) <= d * (B - d)) by nia. lia.
  - assert (0 <= (B - d) * (a0 - (B - d)) <= (B - d) * (d - 1)) by nia. assert (0 <= (a1 + 1) * e <= d * d) by nia.
    assert (0 <= d * t <= d * (B - 1)) by nia. nia.
Qed.
Lemma slimb_sign a0 : limb a0 → ulimb (slimb a0 >> (LIMB_BITS - 1)) = if a0 <? B / 2 then 0 else B - 1.
Proof.
  intros Ha. destruct B_half as [HB HB2]. unfold limb in Ha. rewrite shiftr_div by (destruct LIMB_BITS_cases as [-> | ->]; lia).
  rewrite <- B_half_pow. unfold slimb. destruct (Z.ltb_spec a0 (B / 2)).
  - rewrite Z.mod_small by lia. replace (a0 + B / 2 - B / 2) with a0 by lia. rewrite Z.div_small by lia. apply ulimb_id. split; lia.
  - assert ((a0 + B / 2) mod B = a0 - B / 2) as -> by (symmetry; apply (Z.mod_unique _ _ 1); lia).
    assert ((a0 - B / 2 - B / 2) / (B / 2) = -1) as -> by (symmetry; apply (Z.div_unique _ _ _ (a0 - B / 2)); lia). apply ulimb_m1.
Qed.
(** from the estimate: one more subtraction, undone if it was too many *)
Lemma udiv_fix d q N :
  normalized d → limb q → 0 <= N < d * B → 0 <= N - q * d < 2 * d →
  let a := dlimb (N - q * d - d) in let ah := a >> LIMB_BITS in
  ulimb (q + (1 + ah)) = N / d ∧ ulimb (ulimb a + (ah .& d)) = N mod d.
Proof.
  intros Hd Hq HN Hx. cbv zeta. unfold normalized, limb in *. destruct B_half as [HB HB2]. rewrite shiftr_limb.
  assert (0 <= N / d < B) as Hqd by (split; [apply Z.div_pos; lia|apply Z.div_lt_upper_bound; lia]).
  set (x := N - q * d) in *. destruct (Z.ltb_spec x d).
  - assert (dlimb (x - d) = B * B + (x - d)) as -> by (unfold dlimb; symmetry; apply (Z.mod_unique _ _ (-1)); nia).
    assert ((B * B + (x - d)) / B = B - 1) as -> by (symmetry; apply (Z.div_unique _ _ _ (B + (x - d))); lia).
    assert (ulimb (B * B + (x - d)) = B + (x - d)) as -> by (unfold ulimb; symmetry; apply (Z.mod_unique _ _ (B - 1)); lia).
    rewrite land_m1 by (split; lia). assert (N / d = q) as E by (symmetry; apply (Z.div_unique _ _ _ x); lia).
    assert (N mod d = x) as -> by (symmetry; apply (Z.mod_unique _ _ q); lia). rewrite E. unfold ulimb.
    split; symmetry; [apply (Z.mod_unique _ _ 1); lia|apply (Z.mod_unique _ _ 1); lia].
  - assert (dlimb (x - d) = x - d) as -> by (unfold dlimb; apply Z.mod_small; nia).
    rewrite (Z.div_small (x - d)) by lia. rewrite Z.land_0_l, Z.add_0_r. assert (ulimb (x - d) = x - d) as -> by (apply ulimb_id; split; lia).
    rewrite Z.add_0_r. assert (N / d = q + 1) as E by (symmetry; apply (Z.div_unique _ _ _ (x - d)); lia).
    assert (N mod d = x - d) as -> by (symmetry; apply (Z.mod_unique _ _ (q + 1)); lia). rewrite E in *.
    split; apply ulimb_id; split; lia.
Qed.
Lemma udiv1norm_eq a1 a0 d :
  normalized d → 0 <= a1 < d → limb a0 →
  udiv1norm a1 a0 d (udiv1norm_init d) = ((a1 * B + a0) / d, (a1 * B + a0) mod d).
Proof.
  intros Hd Ha1 Ha0. destruct (udiv1norm_init_spec d Hd) as (e & Hv & He & HV). set (v := udiv1norm_init d) in *. clearbody v.
  assert (0 <= a1 * B + a0 < d * B) as HN by (unfold limb, normalized in *; nia).
  unfold udiv1norm. cbv zeta. destruct B_half as [HB HB2]. pose proof Hd as Hd'. unfold normalized, limb in Hd', Hv, Ha0.
  rewrite slimb_sign, join_limbs by (split; lia).
  set (n1 := if a0 <? B / 2 then 0 else 1).
  assert (n1 = 0 ∧ a0 < B / 2 ∨ n1 = 1 ∧ B / 2 <= a0) as Hn1 by (unfold n1; destruct (Z.ltb_spec a0 (B / 2)); [left|right]; split; done || lia).
  assert (ulimb (a0 + ((if a0 <? B / 2 then 0 else B - 1) .& d)) = a0 - n1 * (B - d)) as ->.
  { unfold n1. destruct (Z.ltb_spec a0 (B / 2)); [rewrite Z.land_0_l; apply (ulimb_id (a0 + 0)); split; lia|].
    rewrite land_m1 by (split; lia). unfold ulimb. symmetry. apply (Z.mod_unique _ _ 1); lia. }
  assert (ulimb (a1 - (if a0 <? B / 2 then 0 else B - 1)) = a1 + n1) as ->.
  { unfold n1. destruct (Z.ltb_spec a0 (B / 2)); [rewrite Z.sub_0_r, Z.add_0_r; apply ulimb_id; split; lia|].
    unfold ulimb. symmetry. apply (Z.mod_unique _ _ (-1)); lia. }
  set (s := v * (a1 + n1) + (a0 - n1 * (B - d))).
  assert (0 <= s < B * B) as Hs by (unfold s; destruct Hn1 as [[-> ?]|[-> ?]]; nia).
  destruct (dlimb_split s Hs) as (-> & Ht & Hq & Es).
  assert (((s >> LIMB_BITS) + a1) * B + ulimb s = s + a1 * B) as Eq by lia.
  pose proof (udiv_estimate d v e a1 a0 n1 (ulimb s) Hd Hv He HV Ha1 Ha0 Hn1 Ht _ Eq) as Hest.
  set (q := (s >> LIMB_BITS) + a1) in *. assert (limb q) as Hlq.
  { assert (0 <= q) by (unfold q, limb in *; lia). split; [done|]. apply (Z.mul_lt_mono_pos_r d); lia. }
  rewrite (ulimb_id q Hlq). by destruct (udiv_fix d q (a1 * B + a0) Hd Hlq HN Hest) as [-> ->].
Qed.
Lemma mp_div1norm_spec tabr taba n b r :
  limbs taba → normalized b → 0 <= r < b → 0 <= n <= zlen tabr → n <= zlen taba →
  ∃ q r', mp_div1norm tabr taba n b r = Some (q ++ zdrop n tabr, r') ∧
    zlen q = n ∧ limbs q ∧ 0 <= r' < b ∧ val q * b + r' = low n taba + B ^ n * r.
Proof.
  intros Ha Hb Hr Hn Hna. pose proof Hb as Hb'. unfold normalized in Hb'. destruct B_half as [HB HB2].
  set (t := ztake n taba). assert (zlen t = n) as Hlt by (apply zlen_ztake; lia).
  set (P j q l := 0 <= l < b ∧ val q * b + l = val (zdrop j t) + B ^ (n - j) * r).
  assert (∀ j q l, 0 <= j < n → P (j + 1) q l →
    let N := l * B + limb_at taba j in 0 <= N / b < B ∧ P j (N / b :: q) (N mod b)) as Hstep.
  { intros j q l Hj [Hl Hv] N. pose proof (limb_at_range taba j Ha) as Hx. unfold limb in Hx.
    assert (0 <= N / b < B) as HN by (split; [apply Z.div_pos|apply Z.div_lt_upper_bound]; unfold N; nia). split; [done|].
    pose proof (Z.div_mod N b ltac:(lia)) as Ed. split; [apply Z.mod_pos_bound; lia|].
    cbn [val]. rewrite (zdrop_limb_cons t j) by lia. cbn [val].
    assert (limb_at t j = limb_at taba j) as ->.
    { unfold t, limb_at, aget, ztake. destruct (j <? 0); [done|]. by rewrite lookup_take_lt by lia. }
    replace (n - j) with (n - (j + 1) + 1) by lia. rewrite pow_B_S by lia.
    transitivity (b * (N / b) + N mod b + B * (val q * b)); [ring|]. rewrite <- Ed. unfold N.
    transitivity (limb_at taba j + B * (val q * b + l)); [ring|]. rewrite Hv. ring. }
  assert (∀ body, (∀ j res l, 0 <= j < n → 0 <= l < b → let N := l * B + limb_at taba j in
      body j (res, l) = (res' ← aset res j (N / b); Some (res', N mod b))) →
    ∃ q r', for_down (Z.to_nat n) body (tabr, r) = Some (q ++ zdrop n tabr, r') ∧
      zlen q = n ∧ limbs q ∧ 0 <= r' < b ∧ val q * b + r' = low n taba + B ^ n * r) as Hloop.
  { intros body Hbody. destruct (down_loop P n body tabr r) as (q & l & E & Hlen & Hq & Hl & Hv); [|done|..].
    - intros j q res l Hj _ _ _ HP. pose proof HP as [Hl _]. destruct (Hstep j q l Hj HP) as [Hx HP'].
      eexists _, _. split; [apply (Hbody j res l Hj Hl)|]. done.
    - split; [done|]. rewrite zdrop_all, Z.sub_diag, Z.pow_0_r by lia. cbn [val]. lia.
    - exists q, l. rewrite Z.sub_0_r in Hv. done. }
  unfold mp_div1norm. destruct (n >=? UDIV1NORM_THRESHOLD); apply Hloop; intros j res l Hj Hl N; rewrite aget_limb_at by lia; cbn [mbind option_bind].
  - by rewrite (udiv1norm_eq l (limb_at taba j) b Hb Hl (limb_at_range taba j Ha)).
  - cbv zeta. rewrite join_limbs by apply (limb_at_range taba j Ha). fold N. pose proof (limb_at_range taba j Ha) as Hx. unfold limb in Hx.
    pose proof (Z.mod_pos_bound N b ltac:(lia)).
    rewrite (ulimb_id (N mod b)) by (split; lia). rewrite ulimb_id; [done|].
    split; [apply Z.div_pos|apply Z.div_lt_upper_bound]; unfold N; nia.
Qed.
End Udiv.

(** ** The schoolbook division *)
Section Divnorm.
Context `{!LimbSize}.

(** The quotient of [nb + 1] limbs by [nb], Knuth's Theorem B: [u] is
    [h * B + l] followed by [nb - 1] limbs, of weight [p]. *)
Lemma digit_bounds h l L b1 V' p :
  limb l → 0 <= L < p → normalized b1 → 0 <= V' < p →
  let V := b1 * p + V' in let U := (h * B + l) * p + L in
  0 <= h → U < B * V →
  let q := if h >=? b1 then B - 1 else (h * B + l) / b1 in
  0 <= q < B ∧ U - q * V < V ∧ -2 * V <= U - q * V.
Proof.
  intros Hl HL Hb HV' V U Hh HU q. unfold limb, normalized in *. destruct B_half as [HB HB2].
  assert (0 < p) as Hp by lia. unfold q. rewrite Z.geb_leb. destruct (Z.leb_spec b1 h) as [Hge|Hlt].
  - assert (h * B * p <= U) by (unfold U; nia). assert (B * V < B * ((b1 + 1) * p)) by (unfold V; nia).
    assert (h * B < B * (b1 + 1)) as Hh1 by nia. assert (h = b1) as -> by nia.
    split; [lia|]. split; [nia|]. assert ((B - 1) * V <= (B - 1) * ((b1 + 1) * p)) by (unfold V; nia).
    assert (b1 * B * p <= U) by (unfold U; nia). assert (2 * (b1 * p) <= 2 * V) by (unfold V; nia). nia.
  - set (N := h * B + l) in *. pose proof (Z.div_mod N b1 ltac:(lia)) as E. pose proof (Z.mod_pos_bound N b1 ltac:(lia)) as Hm.
    assert (0 <= N / b1 < B) as Hq by (split; [apply Z.div_pos; unfold N; nia|apply Z.div_lt_upper_bound; unfold N; nia]).
    set (d := N / b1) in *. split; [done|]. unfold U, V. split.
    + assert (N < b1 * (d + 1)) by lia. nia.
    + assert (d * b1 * p <= N * p) by nia. assert (d * V' <= B * p) by nia. assert (B * p <= 2 * (b1 * p)) by nia. nia.
Qed.
Context (tabb : list Z) (nb : Z).
Hypothesis Htabb : limbs tabb.
Hypothesis Hnb : zlen tabb = nb.
Notation V := (val tabb).

Lemma low_app l k n : zlen l = n → low n (l ++ k) = val l.
Proof. intros Hl. unfold low. by destruct (zlen_at_least l n Hl k) as [-> _]. Qed.
Lemma low_V : low nb tabb = V.
Proof. unfold low. by rewrite ztake_all by lia. Qed.
Lemma nb_pos : 0 <= nb.
Proof. rewrite <- Hnb. apply zlen_nonneg. Qed.
(** the numbers of [nb + 1] limbs *)
Lemma val_lo_h lo h : limbs lo → zlen lo = nb → limb h → 0 <= val lo + B ^ nb * h < B * B ^ nb.
Proof.
  intros Hlo Hl Hh. pose proof (val_bounds lo Hlo) as Hb. rewrite Hl in Hb. unfold limb in Hh. nia.
Qed.
(** Adding the divisor back: [lo] and [h] hold [x + B^(nb+1)], where [x] is
    negative, and [x + m * V] is the remainder. *)
Lemma divnorm_correct_spec fuel p lo h z i q x :
  zlen p = i → limbs z → limbs lo → zlen lo = nb → limb h → val lo + B ^ nb * h = x + B * B ^ nb →
  x < 0 → - (Z.of_nat fuel * V) <= x → limb q → (∃ u, 0 <= u ∧ x = u - q * V) →
  ∃ lo' q', divnorm_correct fuel (p ++ lo ++ h :: z) tabb nb i q = Some (p ++ lo' ++ 0 :: z, q') ∧
    limbs lo' ∧ zlen lo' = nb ∧ limb q' ∧ 0 <= val lo' < V ∧ val lo' = x + (q - q') * V.
Proof.
  intros Hp Hz. pose proof (val_bounds tabb Htabb) as HV. rewrite Hnb in HV. pose proof B_pos. pose proof nb_pos.
  assert (0 < B ^ nb) as HBn by (apply pow_B_pos; lia).
  revert lo h q x. induction fuel as [|fuel IH]; intros lo h q x Hlo Hl Hh Hx Hneg Hf Hq (u & Hu & Exu); [lia|].
  cbn [divnorm_correct]. unfold limb in Hq. assert (0 < q) as Hq0 by nia.
  assert (ulimb (q - 1) = q - 1) as -> by (apply ulimb_id; split; lia).
  rewrite (at_offset_app _ p _ i Hp).
  destruct (mp_add_spec (lo ++ h :: z) (lo ++ h :: z) tabb nb 0) as (lo' & c & -> & Hl' & Hlo' & Hc & Hv).
  { apply limbs_app. split; [done|]. by constructor. }
  { done. }
  { rewrite zlen_app, zlen_cons. pose proof (zlen_nonneg z). lia. }
  { rewrite zlen_app, zlen_cons. pose proof (zlen_nonneg z). lia. }
  { lia. }
  { lia. }
  destruct (zlen_at_least lo nb Hl (h :: z)) as [_ ->]. rewrite (low_app lo _ nb Hl), low_V in Hv. cbn [mbind option_bind].
  pose proof (val_bounds lo' Hlo') as Hb'. rewrite Hl' in Hb'. unfold limb in Hh.
  assert (c = 0 ∨ c = 1) as [->| ->] by lia; cbn [Z.eqb negb].
  - destruct (IH lo' h (q - 1) (x + V) Hlo' Hl') as (lo2 & q2 & -> & L1 & L2 & L3 & L4 & L5); [done|lia|nia|lia|split; lia|exists u; split; lia|].
    exists lo2, q2. split; [done|]. split; [exact L1|]. split; [exact L2|]. split; [exact L3|]. split; [exact L4|]. lia.
  - rewrite (app_assoc p lo'), (aget_at (p ++ lo')) by (rewrite zlen_app; lia). cbn [mbind option_bind].
    rewrite (aset_at (p ++ lo')) by (rewrite zlen_app; lia). cbn [mbind option_bind]. rewrite <- app_assoc.
    destruct (decide (h = B - 1)) as [->|Hh1].
    + assert (ulimb (B - 1 + 1) = 0) as -> by (unfold ulimb; symmetry; apply (Z.mod_unique _ _ 1); lia).
      cbn [Z.eqb]. exists lo', (q - 1). split; [done|]. split; [done|]. split; [done|]. split; [split; lia|]. split; [nia|nia].
    + assert (ulimb (h + 1) = h + 1) as -> by (apply ulimb_id; split; lia). destruct (Z.eqb_spec (h + 1) 0); [lia|].
      destruct (IH lo' (h + 1) (q - 1) (x + V) Hlo' Hl') as (lo2 & q2 & -> & L1 & L2 & L3 & L4 & L5); [split; lia|nia|nia|lia|split; lia|exists u; split; lia|].
      exists lo2, q2. split; [done|]. split; [exact L1|]. split; [exact L2|]. split; [exact L3|]. split; [exact L4|]. lia.
Qed.

Hypothesis Hnb2 : 1 <= nb.
Notation b1 := (limb_at tabb (nb - 1)).
Hypothesis Hb1 : normalized b1.
Variable b1_inv : Z.
Hypothesis Hinv : b1_inv = 0 ∨ b1_inv = udiv1norm_init b1.

Lemma divnorm_digit_eq h l :
  limb h → limb l → divnorm_digit h l b1 b1_inv = if h >=? b1 then B - 1 else (h * B + l) / b1.
Proof.
  intros Hh Hl. pose proof Hb1 as Hb. unfold divnorm_digit, normalized, limb in *. rewrite Z.geb_leb. destruct (Z.leb_spec b1 h); [apply ulimb_m1|].
  destruct (Z.eqb_spec b1_inv 0) as [_|Hne]; cbn [negb].
  - rewrite join_limbs by (split; lia). apply ulimb_id. destruct B_half. split; [apply Z.div_pos|apply Z.div_lt_upper_bound]; nia.
  - destruct Hinv as [->| ->]; [done|]. rewrite udiv1norm_eq; [done|done|lia|done].
Qed.
(** the parts of [tabb] and of [nb + 1] limbs that the estimate looks at *)
Lemma val_top l n : zlen l = n → 1 <= n → val l = limb_at l (n - 1) * B ^ (n - 1) + val (ztake (n - 1) l).
Proof.
  intros Hl Hn. rewrite <- (ztake_all l n) at 1 by lia. replace n with (n - 1 + 1) at 1 by lia. rewrite val_ztake_S by lia. lia.
Qed.
Lemma divnorm_digit_spec lo h :
  limbs lo → zlen lo = nb → limb h → val lo + B ^ nb * h < B * V →
  let q := divnorm_digit h (limb_at lo (nb - 1)) b1 b1_inv in let U := val lo + B ^ nb * h in
  limb q ∧ U - q * V < V ∧ -2 * V <= U - q * V.
Proof.
  intros Hlo Hl Hh HU q U. pose proof (limb_at_range lo (nb - 1) Hlo) as Hal. unfold q. rewrite divnorm_digit_eq by done.
  pose proof (val_bounds _ (limbs_ztake lo (nb - 1) Hlo)) as HL. pose proof (val_bounds _ (limbs_ztake tabb (nb - 1) Htabb)) as HV'.
  rewrite zlen_ztake in HL, HV' by lia.
  assert (U = (h * B + limb_at lo (nb - 1)) * B ^ (nb - 1) + val (ztake (nb - 1) lo)) as EU.
  { unfold U. rewrite (val_top lo nb) by lia.
    assert (B ^ nb = B * B ^ (nb - 1)) as -> by (rewrite <- pow_B_S by lia; f_equal; lia). ring. }
  pose proof (digit_bounds h (limb_at lo (nb - 1)) (val (ztake (nb - 1) lo)) b1 (val (ztake (nb - 1) tabb)) (B ^ (nb - 1)) Hal HL Hb1 HV') as Hd.
  cbv zeta in Hd. rewrite <- EU, <- (val_top tabb nb) in Hd by lia. unfold limb in Hh. apply Hd; [lia|exact HU].
Qed.
Lemma divnorm_step_spec tabq p lo h z i :
  zlen p = i → limbs lo → zlen lo = nb → limb h → limbs z → val lo + B ^ nb * h < B * V → 0 <= i < zlen tabq →
  ∃ q lo' tabq', divnorm_step tabb nb b1 b1_inv i (tabq, p ++ lo ++ h :: z) = Some (tabq', p ++ lo' ++ 0 :: z) ∧
    aset tabq i q = Some tabq' ∧ limb q ∧ limbs lo' ∧ zlen lo' = nb ∧ 0 <= val lo' < V ∧ val lo + B ^ nb * h = q * V + val lo'.
Proof.
  intros Hp Hlo Hl Hh Hz HU Hi. pose proof B_pos. pose proof (val_bounds tabb Htabb) as HV. rewrite Hnb in HV.
  destruct (divnorm_digit_spec lo h Hlo Hl Hh HU) as (Hq & Hup & Hdown). unfold divnorm_step.
  rewrite (app_assoc p lo), (aget_at (p ++ lo) z h (i + nb)) by (rewrite zlen_app; lia). cbn [mbind option_bind].
  assert (((p ++ lo) ++ h :: z).[i + nb - 1] = Some (limb_at lo (nb - 1))) as ->.
  { rewrite aget_app_l by (rewrite zlen_app; lia). rewrite <- Hp. replace (zlen p + nb - 1) with (zlen p + (nb - 1)) by lia.
    rewrite aget_app_off by lia. apply aget_limb_at. lia. }
  cbn [mbind option_bind]. set (q := divnorm_digit h _ b1 b1_inv) in *. clearbody q.
  rewrite <- app_assoc, (at_offset_app _ p _ i Hp).
  destruct (mp_sub_mul1_spec (lo ++ h :: z) tabb nb q) as (lo1 & r & -> & Hl1 & Hlo1 & Hr & Hv1);
    [by destruct (zlen_at_least lo nb Hl (h :: z)) as [-> _]|done|done|rewrite zlen_app, zlen_cons; pose proof (zlen_nonneg z); lia|lia|].
  destruct (zlen_at_least lo nb Hl (h :: z)) as [_ ->]. rewrite (low_app lo _ nb Hl), low_V in Hv1. cbn [mbind option_bind].
  rewrite (app_assoc p lo1), (aget_at (p ++ lo1)) by (rewrite zlen_app; lia). cbn [mbind option_bind].
  rewrite (aset_at (p ++ lo1)) by (rewrite zlen_app; lia). cbn [mbind option_bind]. rewrite <- app_assoc.
  pose proof (borrow_of_sub h r Hh Hr) as Eh. set (a := ulimb (h - r)) in *. pose proof (limb_ulimb (h - r) : limb a) as Ha. clearbody a.
  pose proof (val_lo_h lo1 a Hlo1 Hl1 Ha) as Hb1'.
  assert (val lo1 + B ^ nb * a - B * B ^ nb * b2z (a >? h) = val lo + B ^ nb * h - q * V) as Ex.
  { transitivity (val lo1 + B ^ nb * (a - B * b2z (a >? h))); [ring|]. rewrite <- Eh. lia. }
  assert (∃ lo' q', (if negb (b2z (a >? h) =? 0) then divnorm_correct CORRECT_FUEL (p ++ lo1 ++ a :: z) tabb nb i q
      else Some (p ++ lo1 ++ a :: z, q)) = Some (p ++ lo' ++ 0 :: z, q') ∧
    limbs lo' ∧ zlen lo' = nb ∧ limb q' ∧ 0 <= val lo' < V ∧ val lo' = val lo + B ^ nb * h - q * V + (q - q') * V)
    as (lo' & q' & -> & L1 & L2 & L3 & L4 & L5).
  { destruct (a >? h); cbn [b2z Z.eqb negb] in *.
    - apply divnorm_correct_spec; [done..|lia|lia|change (Z.of_nat CORRECT_FUEL) with 2; lia|done|].
      exists (val lo + B ^ nb * h). split; [|lia]. pose proof (val_bounds lo Hlo). unfold limb in Hh. pose proof (pow_B_pos nb ltac:(lia)). nia.
    - assert (a = 0) as -> by (unfold limb in Ha; pose proof (pow_B_pos nb ltac:(lia)); pose proof (val_bounds lo1 Hlo1); nia).
      exists lo1, q. split_and!; [done..|lia|lia|lia]. }
  cbn [mbind option_bind]. destruct (aset tabq i q') as [tabq'|] eqn:Eset.
  2: { unfold aset in Eset. destruct (Z.ltb_spec i 0), (Z.leb_spec (Z.of_nat (length tabq)) i); try done; unfold zlen in *; lia. }
  cbn [mbind option_bind]. exists q', lo', tabq'. split; [done|]. split; [done|]. split; [done|]. split; [done|]. split; [done|]. split; [done|]. lia.
Qed.

Lemma V_bounds : B ^ nb <= 2 * V ∧ V < B ^ nb.
Proof.
  pose proof (val_bounds tabb Htabb) as HV. rewrite Hnb in HV. split; [|lia]. pose proof Hb1 as Hb. unfold normalized in Hb. destruct B_half.
  rewrite (val_top tabb nb) by lia. pose proof (val_bounds _ (limbs_ztake tabb (nb - 1) Htabb)).
  assert (B ^ nb = B * B ^ (nb - 1)) as -> by (rewrite <- pow_B_S by lia; f_equal; lia). pose proof (pow_B_pos (nb - 1) ltac:(lia)). nia.
Qed.
Lemma divnorm_first_spec j taba n :
  limbs taba → 0 <= n → zlen taba = n + nb → Z.of_nat j <= nb →
  divnorm_first j taba n tabb = Some (if low (Z.of_nat j) (zdrop n taba) <? low (Z.of_nat j) tabb then 0 else 1).
Proof.
  intros Ha Hn Hl. pose proof (zlen_zdrop n taba ltac:(lia)) as Hzd. pose proof (limbs_zdrop taba n Ha) as Hld.
  induction j as [|j IH]; intros Hj; [done|]. cbn [divnorm_first].
  assert (taba.[n + Z.of_nat j] = Some (limb_at (zdrop n taba) (Z.of_nat j))) as ->.
  { rewrite <- aget_limb_at by lia. rewrite aget_zdrop by lia. done. }
  cbn [mbind option_bind]. rewrite (aget_limb_at tabb) by lia. cbn [mbind option_bind].
  replace (Z.of_nat (S j)) with (Z.of_nat j + 1) by lia. unfold low. rewrite !val_ztake_S by lia.
  pose proof (val_bounds _ (limbs_ztake (zdrop n taba) (Z.of_nat j) Hld)) as B1. pose proof (val_bounds _ (limbs_ztake tabb (Z.of_nat j) Htabb)) as B2.
  rewrite zlen_ztake in B1, B2 by lia. set (x := limb_at (zdrop n taba) (Z.of_nat j)). set (y := limb_at tabb (Z.of_nat j)).
  destruct (Z.eqb_spec x y) as [E|Hne]; cbn [negb].
  - rewrite IH by lia. unfold low. rewrite E. destruct (Z.ltb_spec (val (ztake (Z.of_nat j) (zdrop n taba))) (val (ztake (Z.of_nat j) tabb)));
      destruct (Z.ltb_spec (val (ztake (Z.of_nat j) (zdrop n taba)) + B ^ Z.of_nat j * y) (val (ztake (Z.of_nat j) tabb) + B ^ Z.of_nat j * y)); done || lia.
  - destruct (Z.ltb_spec x y); match goal with |- context [if ?a <? ?b then 0 else 1] => destruct (Z.ltb_spec a b) end; done || nia.
Qed.
(** the state of the loop: the quotient digits from [j] on, and the remainder *)
Record divnorm_inv (A : list Z) (n : Z) (tabq0 : list Z) (j : Z) (s : list Z * list Z) (qs r : list Z) : Prop := {
  dn_quot : s.1 = ztake j tabq0 ++ qs ++ zdrop (n + 1) tabq0;
  dn_qs : zlen qs = n + 1 - j ∧ limbs qs;
  dn_rem : s.2 = ztake j A ++ r;
  dn_r : zlen r = n + nb - j ∧ limbs r ∧ val r < V;
  dn_val : val (zdrop j A) = val qs * V + val r
}.
Lemma divnorm_step_inv A n tabq0 j s qs r :
  limbs A → zlen A = n + nb → n < zlen tabq0 → 0 <= j < n → divnorm_inv A n tabq0 (j + 1) s qs r →
  ∃ s' qs' r', divnorm_step tabb nb b1 b1_inv j s = Some s' ∧ divnorm_inv A n tabq0 j s' qs' r'.
Proof.
  intros HA HlA Hq0 Hj [Eq [Hqs Lqs] Er (Hr & Lr & HrV) Hval]. destruct s as [tabq taba]. cbn [fst snd] in *. subst tabq taba.
  destruct V_bounds as [_ HVB]. pose proof B_pos. pose proof (limb_at_range A j HA) as Hx. set (x := limb_at A j) in *. pose proof nb_pos.
  set (w := x :: r). assert (zlen w = n + nb - j) as Hw by (unfold w; rewrite zlen_cons; lia). assert (limbs w) as Lw by (by constructor).
  assert (val w < B * V) as HwV by (unfold w; cbn [val]; unfold limb in Hx; nia).
  assert (w = ztake nb w ++ limb_at w nb :: zdrop (nb + 1) w) as Ew
    by (rewrite <- (zdrop_limb_cons w nb) by lia; symmetry; apply ztake_zdrop).
  pose proof (limb_at_range w nb Lw) as Hh. set (lo := ztake nb w) in *. set (h := limb_at w nb) in *. set (z := zdrop (nb + 1) w) in *.
  assert (zlen lo = nb) as Hlo by (apply zlen_ztake; lia). assert (limbs lo) as Llo by by apply limbs_ztake.
  assert (limbs z) as Lz by by apply limbs_zdrop. pose proof (val_bounds z Lz) as Hz. pose proof (val_bounds lo Llo) as Hblo.
  assert (val w = val lo + B ^ nb * h + B * B ^ nb * val z) as Evw by (rewrite Ew, val_app, Hlo; cbn [val]; ring).
  assert (val z = 0) as Hz0.
  { unfold limb in Hh. pose proof (pow_B_pos nb ltac:(lia)) as Hp. assert (val w < B * B ^ nb) by nia. assert (0 <= B ^ nb * h) by nia.
    destruct (decide (val z = 0)); [done|]. assert (B * B ^ nb * 1 <= B * B ^ nb * val z) by (apply Z.mul_le_mono_nonneg_l; nia). lia. }
  rewrite Hz0, Z.mul_0_r, Z.add_0_r in Evw.
  destruct (divnorm_step_spec (ztake (j + 1) tabq0 ++ qs ++ zdrop (n + 1) tabq0) (ztake j A) lo h z j)
    as (q & lo' & tabq' & E & Eset & Hq & Llo' & Hlo' & HV' & Hdiv); [apply zlen_ztake; lia|done|done|done|done|lia|..].
  { rewrite zlen_app, zlen_ztake by lia. pose proof (zlen_nonneg (qs ++ zdrop (n + 1) tabq0)). lia. }
  assert (tabq' = ztake j tabq0 ++ (q :: qs) ++ zdrop (n + 1) tabq0) as -> by (rewrite aset_ztake in Eset by lia; by injection Eset).
  exists (ztake j tabq0 ++ (q :: qs) ++ zdrop (n + 1) tabq0, ztake j A ++ lo' ++ 0 :: z), (q :: qs), (lo' ++ 0 :: z).
  rewrite (ztake_snoc A j) by lia. fold x. rewrite <- app_assoc. cbn [app]. fold w. rewrite Ew at 1. split; [exact E|].
  assert (val (lo' ++ 0 :: z) = val lo') as Evr by (rewrite val_app; cbn [val]; rewrite Hz0; lia).
  split; cbn [fst snd].
  - done.
  - rewrite zlen_cons. split; [lia|by constructor].
  - done.
  - rewrite Evr, zlen_app, zlen_cons. split; [unfold z; rewrite zlen_zdrop by lia; lia|]. split; [|lia].
    apply limbs_app. split; [done|]. constructor; [split; lia|done].
  - rewrite Evr, (zdrop_limb_cons A j) by lia. fold x. cbn [val]. rewrite Hval.
    transitivity (x + B * val r + B * (val qs * V)); [ring|]. change (x + B * val r) with (val w). rewrite Evw, Hdiv. ring.
Qed.
Lemma divnorm_start A tabq n :
  limbs A → 0 <= n → zlen A = n + nb → n < zlen tabq →
  ∃ q tabq' taba' c qs r, divnorm_first (Z.to_nat nb) A n tabb = Some q ∧ aset tabq n q = Some tabq' ∧
    (if negb (q =? 0) then at_offset n (λ t, mp_sub t t tabb nb 0) A else Some (A, 0)) = Some (taba', c) ∧
    divnorm_inv A n tabq n (tabq', taba') qs r.
Proof.
  intros HA Hn HlA Hq. pose proof B_pos. pose proof (zlen_zdrop n A ltac:(lia)) as Hzd. pose proof (limbs_zdrop A n HA) as Hld.
  set (q := if val (zdrop n A) <? V then 0 else 1). pose proof nb_pos. destruct V_bounds as [HV1 HV2].
  pose proof (val_bounds (zdrop n A) Hld) as Hb. replace (zlen (zdrop n A)) with nb in Hb by lia.
  assert (divnorm_first (Z.to_nat nb) A n tabb = Some q) as Hfirst.
  { rewrite divnorm_first_spec by lia || done. rewrite Z2Nat.id by lia. unfold low. by rewrite !ztake_all by lia. }
  assert (aset tabq n q = Some (ztake n tabq ++ [q] ++ zdrop (n + 1) tabq)) as Hset.
  { rewrite <- (ztake_zdrop (n + 1) tabq) at 1. rewrite aset_ztake by lia. done. }
  assert (zlen [q] = n + 1 - n ∧ limbs [q]) as Hqs.
  { split; [change (zlen [q]) with 1; lia|]. constructor; [unfold q; destruct (_ <? _); split; lia|done]. }
  assert (q = if val (zdrop n A) <? V then 0 else 1) as Eq0 by done. clearbody q.
  destruct (Z.ltb_spec (val (zdrop n A)) V) as [Hlt|Hge]; subst q; cbn [Z.eqb negb].
  - exists 0, (ztake n tabq ++ [0] ++ zdrop (n + 1) tabq), A, 0, [0], (zdrop n A). split; [done|]. split; [done|]. split; [done|].
    split; cbn [fst snd]; [done|done|by rewrite ztake_zdrop|split; [lia|done]|cbn [val]; lia].
  - destruct (mp_sub_spec (zdrop n A) (zdrop n A) tabb nb 0 Hld Htabb ltac:(lia) ltac:(lia) ltac:(lia) ltac:(lia)) as (r & c & E & Hlr & Lr & Hc & Hv).
    exists 1, (ztake n tabq ++ [1] ++ zdrop (n + 1) tabq), (ztake n A ++ r), c, [1], r. split; [done|]. split; [done|].
    rewrite <- (ztake_zdrop n A) at 1. rewrite at_offset_app by (apply zlen_ztake; lia). rewrite E, (zdrop_all (zdrop n A)), app_nil_r by lia. cbn [mbind option_bind]. split; [done|].
    unfold low in Hv. rewrite !ztake_all in Hv by lia. pose proof (val_bounds r Lr) as Hbr. rewrite Hlr in Hbr.
    assert (c = 0) as -> by nia. split; cbn [fst snd]; [done|done|done|split; [lia|split; [done|lia]]|cbn [val]; lia].
Qed.
Lemma divnorm_basecase_cases A tabq na :
  limbs A → nb <= na → zlen A = na → na - nb < zlen tabq → b1_inv = (if na - nb >=? UDIV1NORM_THRESHOLD then udiv1norm_init b1 else 0) →
  ∃ qs r, divnorm_basecase tabq A na tabb nb = Some (qs ++ zdrop (na - nb + 1) tabq, r) ∧
    zlen qs = na - nb + 1 ∧ limbs qs ∧ zlen r = na ∧ limbs r ∧ val A = val qs * V + val r ∧ 0 <= val r < V.
Proof.
  intros HA Hna HlA Hq Einv. pose proof nb_pos. unfold divnorm_basecase. rewrite aget_limb_at by lia. cbn [mbind option_bind]. rewrite <- Einv.
  destruct (divnorm_start A tabq (na - nb) HA ltac:(lia) ltac:(lia) Hq) as (q & tabq' & taba' & c & qs & r & E1 & E2 & E3 & Hinv0).
  rewrite E1. cbn [mbind option_bind]. rewrite E2. cbn [mbind option_bind]. rewrite E3. cbn [mbind option_bind].
  destruct (for_down_inv (λ j s, ∃ qs r, divnorm_inv A (na - nb) tabq j s qs r) (Z.to_nat (na - nb))
    (divnorm_step tabb nb b1 b1_inv) (tabq', taba')) as (s & E & qs' & r' & [Eq [H1 H2] Er (H3 & H4 & H5) Hval]).
  - intros j s Hj (qs1 & r1 & Hi). destruct (divnorm_step_inv A (na - nb) tabq j s qs1 r1 HA ltac:(lia) Hq ltac:(lia) Hi)
      as (s' & qs2 & r2 & E & Hi'). eauto.
  - rewrite Z2Nat.id by lia. eauto.
  - exists qs', r'. rewrite E. destruct s as [tq ta]. cbn [fst snd] in *. subst tq ta. change (ztake 0 tabq) with (@nil Z). change (ztake 0 A) with (@nil Z).
    cbn [app]. split; [done|]. change (zdrop 0 A) with A in Hval. pose proof (val_bounds r' H4). split_and!; [lia|done|lia|done|done|lia|lia].
Qed.
End Divnorm.

Section Theorems.
Context `{!LimbSize}.

(** C31: The schoolbook division of [na] limbs by [nb], whatever the precomputed
    inverse: the quotient and the remainder that it stores are those of the two
    numbers, the corrections of a quotient digit end after two rounds at most,
    and no limb outside of the arrays is read or written. *)
Theorem divnorm_basecase_correct tabq taba na tabb nb :
  limbs taba → limbs tabb → zlen tabb = nb → 1 <= nb → normalized (limb_at tabb (nb - 1)) →
  nb <= na → zlen taba = na → na - nb < zlen tabq →
  ∃ q r, divnorm_basecase tabq taba na tabb nb = Some (q ++ zdrop (na - nb + 1) tabq, r) ∧
    zlen q = na - nb + 1 ∧ limbs q ∧ limbs r ∧ val q = val taba / val tabb ∧ val r = val taba mod val tabb.
Proof.
  intros Ha Hb Hnb Hnb1 Hn Hna Hza Hq.
  set (b1_inv := if na - nb >=? UDIV1NORM_THRESHOLD then udiv1norm_init (limb_at tabb (nb - 1)) else 0).
  destruct (divnorm_basecase_cases tabb nb Hb Hnb Hnb1 Hn b1_inv ltac:(unfold b1_inv; destruct (_ >=? _); tauto) taba tabq na Ha Hna Hza Hq eq_refl)
    as (q & r & E & H1 & H2 & H3 & H4 & Hv & Hr). exists q, r.
  repeat split; try done; [apply (Z.div_unique _ _ _ (val r))|apply (Z.mod_unique _ _ (val q))]; tauto || lia.
Qed.
End Theorems.
Lemma divnorm_basecase_correct_witness : ∃ q r,
  divnorm_basecase [0; 0; 0] [5; 0; 7; 9] 4 [3; 2 ^ 63] 2 = Some (q ++ [], r) ∧
  val q = val [5; 0; 7; 9] / val [3; 2 ^ 63] ∧ val r = val [5; 0; 7; 9] mod val [3; 2 ^ 63].
Proof.
  assert (limbs [5; 0; 7; 9] ∧ limbs [3; 2 ^ 63]) as [Ha Hb] by (split; repeat (apply Forall_cons; split; [vm_compute; done|]); by apply Forall_nil).
  assert (normalized (limb_at [3; 2 ^ 63] (2 - 1))) as Hn by (vm_compute; done).
  destruct (divnorm_basecase_correct [0; 0; 0] [5; 0; 7; 9] 4 [3; 2 ^ 63] 2 Ha Hb eq_refl ltac:(lia) Hn ltac:(lia) eq_refl ltac:(done))
    as (q & r & E & _ & _ & _ & Hq & Hr). eauto.
Defined.
