(* ===== verification/BigFloat.v ===== *)
(** * Big floats (js/libbf.c)

    A [bf_t] is a sign, an exponent and an array of limbs whose highest bit is
    set: the number is [0.tab * 2^expn].  Zeros, infinities and NaN have no
    limbs and an exponent of their own.  The library rounds by
    [bf_normalize_and_round]: the mantissa is shifted into place and cut to
    [prec] bits.

    The field [len] is the length of [tab].  Sums and differences of signed
    words are undefined behaviour when they overflow ([sword]); where an operand is
    unsigned they wrap. *)
From S2P Require Import Prelude Alloc Limb LimbOps.

Section Constants.
Context `{!LimbSize}.
Definition BF_RAW_EXP_MIN : Z := - (B / 2).
Definition BF_RAW_EXP_MAX : Z := B / 2 - 1.
Definition BF_EXP_BITS_MAX : Z := LIMB_BITS - 3.
Definition BF_EXT_EXP_BITS_MAX : Z := BF_EXP_BITS_MAX + 1.
Definition BF_PREC_MAX : Z := (1 << (LIMB_BITS - 2)) - 2.
Definition BF_PREC_INF : Z := BF_PREC_MAX + 1.
Definition BF_EXP_ZERO : Z := BF_RAW_EXP_MIN.
Definition BF_EXP_INF : Z := BF_RAW_EXP_MAX - 1.
Definition BF_EXP_NAN : Z := BF_RAW_EXP_MAX.
End Constants.
(** [bf_rnd_t] *)
Definition BF_RNDN : Z := 0.
Definition BF_RNDZ : Z := 1.
Definition BF_RNDD : Z := 2.
Definition BF_RNDU : Z := 3.
Definition BF_RNDNA : Z := 4.
Definition BF_RNDA : Z := 5.
Definition BF_RNDF : Z := 6.
Definition BF_FLAG_SUBNORMAL : Z := 1 << 3.
Definition BF_FLAG_RADPNT_PREC : Z := 1 << 4.
Definition BF_RND_MASK : Z := 7.
Definition BF_EXP_BITS_SHIFT : Z := 5.
Definition BF_EXP_BITS_MASK : Z := 0x3f.
Definition BF_ST_INVALID_OP : Z := 1 << 0.
Definition BF_ST_OVERFLOW : Z := 1 << 2.
Definition BF_ST_UNDERFLOW : Z := 1 << 3.
Definition BF_ST_INEXACT : Z := 1 << 4.
Definition BF_ST_MEM_ERROR : Z := 1 << 5.

Record bf_t := mk_bf { bf_sign : Z; bf_expn : Z; bf_tab : list Z }.
Definition bf_len (r : bf_t) : Z := zlen (bf_tab r).
Definition set_sign (r : bf_t) (s : Z) : bf_t := mk_bf s (bf_expn r) (bf_tab r).
Definition set_expn (r : bf_t) (e : Z) : bf_t := mk_bf (bf_sign r) e (bf_tab r).
Definition set_tab (r : bf_t) (t : list Z) : bf_t := mk_bf (bf_sign r) (bf_expn r) t.

Section BigFloat.
Context `{!LimbSize, !Allocator}.

(** a signed word *)
Definition sword (x : Z) : option Z := if (- (B / 2) <=? x) && (x <? B / 2) then Some x else None.
Definition bf_max (a b : Z) : Z := if a >? b then a else b.
Definition bf_min (a b : Z) : Z := if a <? b then a else b.
Definition bf_get_exp_bits (flags : Z) : Z :=
  let e := (flags >> BF_EXP_BITS_SHIFT) .& BF_EXP_BITS_MASK in
  if e =? BF_EXP_BITS_MASK then BF_EXP_BITS_MAX + 1 else BF_EXP_BITS_MAX - e.
(** [(limb_t)1 << (bf_get_exp_bits(flags) - 1)]; a negative shift is undefined *)
Definition exp_range (flags : Z) : option Z :=
  let n := bf_get_exp_bits flags - 1 in if n <? 0 then None else Some (1 << n).

(** ** Values *)
Definition bf_init : bf_t := mk_bf 0 BF_EXP_ZERO [].
(** [n] indeterminate limbs from offset [off] on *)
Definition fresh_limbs (off : Z) (n : nat) : M (list Z) :=
  λ h, Some ((λ i : nat, ulimb (junk h (off + Z.of_nat i))) <$> seq 0 n, h).
(** a failed [realloc] is not an error when the new size is 0 *)
Definition bf_resize (r : bf_t) (len : Z) : M (Z * bf_t) :=
  if negb (len =? bf_len r) then
    ok ← realloc (len * (LIMB_BITS / 8));
    if negb (ok : bool) && negb (len =? 0) then mret (-1, r)
    else
      gap ← fresh_limbs (bf_len r) (Z.to_nat (len - bf_len r));
      mret (0, set_tab r (ztake len (bf_tab r) ++ gap))
  else mret (0, r).
Definition bf_set_nan (r : bf_t) : M bf_t := '(_, r) ← bf_resize r 0; mret (mk_bf 0 BF_EXP_NAN (bf_tab r)).
Definition bf_set_zero (r : bf_t) (is_neg : Z) : M bf_t := '(_, r) ← bf_resize r 0; mret (mk_bf is_neg BF_EXP_ZERO (bf_tab r)).
Definition bf_set_inf (r : bf_t) (is_neg : Z) : M bf_t := '(_, r) ← bf_resize r 0; mret (mk_bf is_neg BF_EXP_INF (bf_tab r)).
(** [fail: bf_set_nan(r); return BF_ST_MEM_ERROR;] *)
Definition bf_mem_error (r : bf_t) : M (Z * bf_t) := r ← bf_set_nan r; mret (BF_ST_MEM_ERROR, r).
Definition bf_set_ui (r : bf_t) (a : Z) : M (Z * bf_t) :=
  let r := set_sign r 0 in
  if a =? 0 then
    '(_, r) ← bf_resize (set_expn r BF_EXP_ZERO) 0; mret (0, r)
  else if a <? B then
    '(ret, r) ← bf_resize r 1;
    if negb (ret =? 0) then bf_mem_error r
    else
      let shift := clz a in
      mret (0, mk_bf (bf_sign r) (LIMB_BITS - shift) [ulimb (a << shift)])
  else
    '(ret, r) ← bf_resize r 2;
    if negb (ret =? 0) then bf_mem_error r
    else
      let a0 := ulimb a in
      let a1 := ulimb (a >> 32) in
      let shift := clz a1 in
      mret (0, mk_bf (bf_sign r) (2 * LIMB_BITS - shift) [ulimb (a0 << shift); shld a1 a0 shift]).
(** [-a] overflows for the least [int64_t] *)
Definition bf_set_si (r : bf_t) (a : Z) : M (Z * bf_t) :=
  if a =? - 2 ^ 63 then ub
  else if a <? 0 then '(ret, r) ← bf_set_ui r (u64 (- a)); mret (ret, set_sign r 1) else bf_set_ui r a.
(** [r] is not [a] *)
Definition bf_set (r a : bf_t) : M (Z * bf_t) :=
  '(ret, r) ← bf_resize r (bf_len a);
  if negb (ret =? 0) then bf_mem_error r else mret (0, mk_bf (bf_sign a) (bf_expn a) (bf_tab a)).
Definition bf_neg (r : bf_t) : bf_t := set_sign r (bf_sign r .^ 1).
Definition bf_is_finite (a : bf_t) : bool := bf_expn a <? BF_EXP_INF.
Definition bf_is_nan (a : bf_t) : bool := bf_expn a =? BF_EXP_NAN.
Definition bf_is_zero (a : bf_t) : bool := bf_expn a =? BF_EXP_ZERO.
Definition get_limbz (a : bf_t) (idx : Z) : option Z :=
  let idx := ulimb idx in if idx >=? bf_len a then Some 0 else (bf_tab a).[idx].

(** ** Comparison *)
Fixpoint cmpu_loop (n : nat) (a b : bf_t) (len : Z) : option Z :=
  match n with
  | O => Some 0
  | S n =>
    let i := Z.of_nat n in
    v1 ← get_limbz a (bf_len a - len + i); v2 ← get_limbz b (bf_len b - len + i);
    if negb (v1 =? v2) then Some (if v1 <? v2 then -1 else 1) else cmpu_loop n a b len
  end.
Definition bf_cmpu (a b : bf_t) : option Z :=
  if negb (bf_expn a =? bf_expn b) then Some (if bf_expn a <? bf_expn b then -1 else 1)
  else let len := bf_max (bf_len a) (bf_len b) in cmpu_loop (Z.to_nat len) a b len.
Definition bf_cmp_full (a b : bf_t) : option Z :=
  if (bf_expn a =? BF_EXP_NAN) || (bf_expn b =? BF_EXP_NAN) then
    Some (if bf_expn a =? bf_expn b then 0 else if bf_expn a =? BF_EXP_NAN then 1 else -1)
  else if negb (bf_sign a =? bf_sign b) then Some (1 - 2 * bf_sign a)
  else res ← bf_cmpu a b; Some (if negb (bf_sign a =? 0) then - res else res).
Definition bf_cmp (a b : bf_t) : option Z :=
  if (bf_expn a =? BF_EXP_NAN) || (bf_expn b =? BF_EXP_NAN) then Some 2
  else if negb (bf_sign a =? bf_sign b) then
    Some (if (bf_expn a =? BF_EXP_ZERO) && (bf_expn b =? BF_EXP_ZERO) then 0 else 1 - 2 * bf_sign a)
  else res ← bf_cmpu a b; Some (if negb (bf_sign a =? 0) then - res else res).

(** ** Rounding *)
(** [while (pos >= 0)] below limb [n] *)
Fixpoint scan_below (n : nat) (tab : list Z) : option Z :=
  match n with
  | O => Some 0
  | S n => v ← tab.[Z.of_nat n]; if negb (v =? 0) then Some 1 else scan_below n tab
  end.
Definition scan_bit_nz (r : bf_t) (bit_pos : Z) : option Z :=
  let pos := bit_pos >> LIMB_LOG2_BITS in
  if pos <? 0 then Some 0
  else
    v ← (bf_tab r).[pos];
    if negb (v .& limb_mask 0 (bit_pos .& (LIMB_BITS - 1)) =? 0) then Some 1 else scan_below (Z.to_nat pos) (bf_tab r).
(** [add_one], and whether the result is inexact; [None] is [abort()] *)
Definition bf_get_rnd_add (r : bf_t) (l prec rnd_mode : Z) : option (bool * bool) :=
  bit0 ← (if rnd_mode =? BF_RNDF then Some 1
          else p ← sword (prec + 1); scan_bit_nz r (slimb (l * LIMB_BITS - 1 - bf_max 0 p)));
  bit1 ← get_bit (bf_tab r) l (slimb (l * LIMB_BITS - 1 - prec));
  let inexact := negb (bit1 .| bit0 =? 0) in
  add_one ←
    (if rnd_mode =? BF_RNDZ then Some false
     else if rnd_mode =? BF_RNDN then
       if negb (bit1 =? 0) then
         if negb (bit0 =? 0) then Some true
         else p ← sword (prec - 1); b ← get_bit (bf_tab r) l (slimb (l * LIMB_BITS - 1 - p)); Some (negb (b =? 0))
       else Some false
     else if (rnd_mode =? BF_RNDD) || (rnd_mode =? BF_RNDU) then
       Some (if bf_sign r =? b2z (rnd_mode =? BF_RNDD) then inexact else false)
     else if rnd_mode =? BF_RNDA then Some inexact
     else if (rnd_mode =? BF_RNDNA) || (rnd_mode =? BF_RNDF) then Some (negb (bit1 =? 0))
     else None);
  Some (add_one, inexact).
Definition bf_set_overflow (r : bf_t) (sign prec flags : Z) : M (Z * bf_t) :=
  let rnd_mode := flags .& BF_RND_MASK in
  if (prec =? BF_PREC_INF) || (rnd_mode =? BF_RNDN) || (rnd_mode =? BF_RNDNA) || (rnd_mode =? BF_RNDA) ||
     ((rnd_mode =? BF_RNDD) && (sign =? 1)) || ((rnd_mode =? BF_RNDU) && (sign =? 0)) then
    r ← bf_set_inf r sign; mret (BF_ST_OVERFLOW .| BF_ST_INEXACT, r)
  else
    let l := ulimb (prec + LIMB_BITS - 1) / LIMB_BITS in
    '(ret, r) ← bf_resize r l;
    if negb (ret =? 0) then bf_mem_error r
    else
      t ← lift (aset (bf_tab r) 0 (limb_mask (ulimb (- prec) .& (LIMB_BITS - 1)) (LIMB_BITS - 1)));
      t ← lift (for_up (Z.to_nat (l - 1)) (λ i t, aset t i (ulimb (-1))) 1 t);
      e_max ← lift (exp_range flags);
      mret (BF_ST_OVERFLOW .| BF_ST_INEXACT, mk_bf sign e_max t).
(** the precision in bits of the mantissa, maybe negative *)
Definition round_prec (expn prec1 flags e_min : Z) : option Z :=
  if negb (flags .& BF_FLAG_RADPNT_PREC =? 0) then
    Some (if negb (prec1 =? BF_PREC_INF) then slimb (expn + prec1) else slimb prec1)
  else if (expn <? e_min) && negb (flags .& BF_FLAG_SUBNORMAL =? 0) then
    if prec1 =? BF_PREC_INF then None else d ← sword (e_min - expn); Some (slimb (prec1 - d))
  else Some (slimb prec1).
(** add [carry] at limb [i] and above *)
Fixpoint round_carry (n : nat) (tab : list Z) (i carry : Z) : option (list Z * Z) :=
  match n with
  | O => Some (tab, carry)
  | S n =>
    x ← tab.[i]; let v := ulimb (x + carry) in let carry := b2z (v <? carry) in
    tab ← aset tab i v; if carry =? 0 then Some (tab, carry) else round_carry n tab (i + 1) carry
  end.
(** [for(i = l - 1; i >= pos; i--)]: shift right by one bit, with a one in front *)
Definition round_shift (tab : list Z) (pos l : Z) : option (list Z) :=
  '(tab, _) ← for_down (Z.to_nat (l - pos)) (λ k '(tab, v),
    let i := pos + k in
    a ← tab.[i]; tab ← aset tab i ((a >> 1) .| ulimb (v << (LIMB_BITS - 1))); Some (tab, a)) (tab, 1);
  Some tab.
(** the addition of one at bit [prec - 1] *)
Definition round_add_one (r : bf_t) (l prec : Z) : option bf_t :=
  let bit_pos := slimb (l * LIMB_BITS - 1 - (prec - 1)) in
  let pos := bit_pos >> LIMB_LOG2_BITS in
  '(tab, carry) ← round_carry (Z.to_nat (l - pos)) (bf_tab r) pos (1 << (bit_pos .& (LIMB_BITS - 1)));
  if negb (carry =? 0) then
    tab ← round_shift tab pos l;
    e ← sword (bf_expn r + 1);
    Some (mk_bf (bf_sign r) e tab)
  else Some (set_tab r tab).
(** [while (r->tab[i] == 0) i++;] *)
Fixpoint skip_zeros (fuel : nat) (tab : list Z) (i : Z) : option Z :=
  match fuel with
  | O => None
  | S fuel => v ← tab.[i]; if v =? 0 then skip_zeros fuel tab (i + 1) else Some i
  end.
(** keep [prec] bits, and drop the limbs that are zero *)
Definition round_cut (r : bf_t) (l prec : Z) : M bf_t :=
  let bit_pos := slimb (l * LIMB_BITS - 1 - (prec - 1)) in
  let i := bit_pos >> LIMB_LOG2_BITS in
  '(tab, i) ← lift
    (if i >=? 0 then
       let shift := bit_pos .& (LIMB_BITS - 1) in
       if negb (shift =? 0) then
         v ← (bf_tab r).[i]; tab ← aset (bf_tab r) i (v .& limb_mask shift (LIMB_BITS - 1)); Some (tab, i)
       else Some (bf_tab r, i)
     else Some (bf_tab r, 0));
  i ← lift (skip_zeros (S (length tab)) tab i);
  let '(tab, l) :=
    if i >? 0 then (ztake (l - i) (zdrop i tab) ++ zdrop (l - i) tab, l - i) else (tab, l) in
  '(_, r) ← bf_resize (set_tab r tab) l;
  mret r.
Definition bf_underflow (r : bf_t) (ret : Z) : M (Z * bf_t) :=
  r ← bf_set_zero r (bf_sign r); mret (ret .| (BF_ST_UNDERFLOW .| BF_ST_INEXACT), r).
(** from [check underflow] to the end *)
Definition round_finish (r : bf_t) (prec1 flags l prec ret e_min e_max : Z) : M (Z * bf_t) :=
  if (bf_expn r <? e_min) && (flags .& BF_FLAG_SUBNORMAL =? 0) then bf_underflow r ret
  else
    let ret := if (bf_expn r <? e_min) && negb (ret .& BF_ST_INEXACT =? 0) then ret .| BF_ST_UNDERFLOW else ret in
    if bf_expn r >? e_max then bf_set_overflow r (bf_sign r) prec1 flags
    else r ← round_cut r l prec; mret (ret, r).
Definition __bf_round (r : bf_t) (prec1 flags l ret : Z) : M (Z * bf_t) :=
  e_range ← lift (exp_range flags);
  let e_min := - e_range + 3 in
  let e_max := e_range in
  prec ← lift (round_prec (bf_expn r) prec1 flags e_min);
  let rnd_mode := flags .& BF_RND_MASK in
  '(add_one, inexact) ← lift (bf_get_rnd_add r l prec rnd_mode);
  let ret := if inexact : bool then ret .| BF_ST_INEXACT else ret in
  if prec <=? 0 then
    if add_one : bool then
      '(_, r) ← bf_resize r 1;
      t ← lift (aset (bf_tab r) 0 (1 << (LIMB_BITS - 1)));
      e ← lift (d ← sword (1 - prec); sword (bf_expn r + d));
      mret (ret .| (BF_ST_UNDERFLOW .| BF_ST_INEXACT), mk_bf (bf_sign r) e t)
    else bf_underflow r ret
  else
    r ← lift (if add_one then round_add_one r l prec else Some r);
    round_finish r prec1 flags l prec ret e_min e_max.
(** [while (l > 0 && r->tab[l - 1] == 0) l--;] *)
Fixpoint top_limb (l : nat) (tab : list Z) : option Z :=
  match l with
  | O => Some 0
  | S n => v ← tab.[Z.of_nat n]; if v =? 0 then top_limb n tab else Some (Z.of_nat l)
  end.
(** shift the first [l] limbs left, by less than a limb *)
Definition norm_shift (tab : list Z) (l shift : Z) : option (list Z * Z) :=
  for_up (Z.to_nat l) (λ i '(tab, v),
    a ← tab.[i]; tab ← aset tab i (ulimb (a << shift) .| (v >> (LIMB_BITS - shift))); Some (tab, a)) 0 (tab, 0).
Definition bf_normalize_and_round (r : bf_t) (prec1 flags : Z) : M (Z * bf_t) :=
  l ← lift (top_limb (length (bf_tab r)) (bf_tab r));
  if l =? 0 then '(_, r) ← bf_resize (set_expn r BF_EXP_ZERO) 0; mret (0, r)
  else
    let e := slimb (bf_expn r - (bf_len r - l) * LIMB_BITS) in
    v ← lift (bf_tab r).[l - 1];
    let shift := clz v in
    r ← lift (if negb (shift =? 0) then
                '(tab, _) ← norm_shift (bf_tab r) l shift;
                e ← sword (e - shift);
                Some (mk_bf (bf_sign r) e tab)
              else Some (set_expn r e));
    __bf_round r prec1 flags l 0.
Definition bf_round (r : bf_t) (prec flags : Z) : M (Z * bf_t) :=
  if bf_len r =? 0 then mret (0, r) else __bf_round r prec flags (bf_len r) 0.
Definition bf_rint (r : bf_t) (rnd_mode : Z) : M (Z * bf_t) := bf_round r 0 (rnd_mode .| BF_FLAG_RADPNT_PREC).
(** [while (n != 0)] *)
Fixpoint can_round_loop (n : nat) (a : bf_t) (bit_pos bit : Z) : option bool :=
  match n with
  | O => Some false
  | S n => b ← get_bit (bf_tab a) (bf_len a) bit_pos;
           if negb (b =? bit) then Some true else can_round_loop n a (bit_pos - 1) bit
  end.
Definition bf_can_round (a : bf_t) (prec rnd_mode k : Z) : option bool :=
  if (bf_expn a =? BF_EXP_INF) || (bf_expn a =? BF_EXP_NAN) then Some false
  else if rnd_mode =? BF_RNDF then Some (k >=? prec + 1)
  else if bf_expn a =? BF_EXP_ZERO then Some false
  else
    let is_rndn := (rnd_mode =? BF_RNDN) || (rnd_mode =? BF_RNDNA) in
    if k <? prec + 2 then Some false
    else
      let bit_pos := slimb (bf_len a * LIMB_BITS - 1 - prec) in
      let n := k - prec in
      bit ← get_bit (bf_tab a) (bf_len a) bit_pos;
      can_round_loop (Z.to_nat (n - 1)) a (bit_pos - 1) (bit .^ b2z is_rndn).

(** ** Operations *)
(** [alias]: [r] is one of the operands *)
Definition bf_mul (alias : bool) (r a b : bf_t) (prec flags : Z) : M (Z * bf_t) :=
  let '(a, b) := if bf_len a <? bf_len b then (b, a) else (a, b) in
  let r_sign := bf_sign a .^ bf_sign b in
  if bf_len b =? 0 then
    if (bf_expn a =? BF_EXP_NAN) || (bf_expn b =? BF_EXP_NAN) then r ← bf_set_nan r; mret (0, r)
    else if (bf_expn a =? BF_EXP_INF) || (bf_expn b =? BF_EXP_INF) then
      if ((bf_expn a =? BF_EXP_INF) && (bf_expn b =? BF_EXP_ZERO)) || ((bf_expn a =? BF_EXP_ZERO) && (bf_expn b =? BF_EXP_INF))
      then r ← bf_set_nan r; mret (BF_ST_INVALID_OP, r)
      else r ← bf_set_inf r r_sign; mret (0, r)
    else r ← bf_set_zero r r_sign; mret (0, r)
  else
    let '(a_len, b_len) :=
      if flags .& BF_RND_MASK =? BF_RNDF then
        let precl := ulimb (prec + 2 + LIMB_BITS - 1) / LIMB_BITS in (bf_min (bf_len a) precl, bf_min (bf_len b) precl)
      else (bf_len a, bf_len b) in
    let a_tab := zdrop (bf_len a - a_len) (bf_tab a) in
    let b_tab := zdrop (bf_len b - b_len) (bf_tab b) in
    let r := if alias then bf_init else r in
    '(ret, r) ← bf_resize r (a_len + b_len);
    if negb (ret =? 0) then bf_mem_error r
    else
      t ← lift (mp_mul_basecase (bf_tab r) a_tab a_len b_tab b_len);
      e ← lift (sword (bf_expn a + bf_expn b));
      bf_normalize_and_round (mk_bf r_sign e t) prec flags.
Definition bf_mul_2exp (r : bf_t) (e prec flags : Z) : M (Z * bf_t) :=
  if bf_len r =? 0 then mret (0, r)
  else
    let e_max := (1 << BF_EXT_EXP_BITS_MAX) - 1 in
    let e := bf_min (bf_max e (- e_max)) e_max in
    e ← lift (sword (bf_expn r + e));
    __bf_round (set_expn r e) prec flags (bf_len r) 0.
Fixpoint exp_min_loop (n : nat) (a : bf_t) (i : Z) : option Z :=
  match n with
  | O => Some 0
  | S n =>
    v ← (bf_tab a).[i];
    if negb (v =? 0) then Some (slimb (bf_expn a - (bf_len a - i) * LIMB_BITS + ctz v)) else exp_min_loop n a (i + 1)
  end.
Definition bf_get_exp_min (a : bf_t) : option Z := exp_min_loop (length (bf_tab a)) a 0.
End BigFloat.
