(* ===== verification/LimbBits.v ===== *)
(** * The bits of a big number

    The bits of an array of limbs are those of its value; reading one bit,
    looking for a bit that is set, and shifting. *)
From S2P Require Import Prelude Alloc Limb LimbOps BigFloat.

Section Bits.
Context {LS : LimbSize}.
Notation LB := (@LIMB_BITS LS).

Lemma LB_pos : 32 <= LB.
Proof. destruct LIMB_BITS_cases as [-> | ->]; lia. Qed.
Lemma pow_B n : 0 <= n → B ^ n = 2 ^ (LB * n).
Proof. intros. pose proof LB_pos. unfold B. symmetry. apply Z.pow_mul_r; lia. Qed.
Lemma shiftr_log2 x : x >> LIMB_LOG2_BITS = x / LB.
Proof. destruct LIMB_BITS_log2 as [E ?]. rewrite shiftr_div, <- E by lia. done. Qed.
Lemma land_log2 x : x .& (LB - 1) = x mod LB.
Proof. destruct LIMB_BITS_log2 as [E ?]. rewrite E at 1. rewrite land_mask, <- E by lia. done. Qed.

Lemma limb_at_val l i : limbs l → 0 <= i → limb_at l i = (val l / B ^ i) mod B.
Proof.
  intros Hl Hi. pose proof (pow_B_pos i Hi). pose proof B_pos. destruct (Z.lt_ge_cases i (zlen l)) as [Hlt|Hge].
  - rewrite (val_split l i), (zdrop_limb_cons l i) by lia. cbn [val].
    pose proof (val_bounds _ (limbs_ztake l i Hl)) as Hb. rewrite zlen_ztake in Hb by lia.
    rewrite (Z.mul_comm (B ^ i)), Z.div_add, Z.div_small, Z.add_0_l by lia.
    rewrite (Z.mul_comm B), Z.mod_add by lia. symmetry. apply Z.mod_small, (limb_at_range l i Hl).
  - pose proof (val_bounds l Hl) as Hb. assert (B ^ zlen l <= B ^ i) by (apply Z.pow_le_mono_r; lia).
    rewrite Z.div_small by lia. unfold limb_at, aget. destruct (i <? 0); [done|].
    rewrite lookup_ge_None_2 by (unfold zlen in *; lia). done.
Qed.
Lemma limb_testbit l pos : limbs l → 0 <= pos → Z.testbit (limb_at l (pos / LB)) (pos mod LB) = Z.testbit (val l) pos.
Proof.
  intros Hl Hp. pose proof LB_pos. pose proof (Z.div_mod pos LB ltac:(lia)) as E. pose proof (Z.mod_pos_bound pos LB ltac:(lia)) as Hm.
  assert (0 <= pos / LB) as Hd by (apply Z.div_pos; lia). rewrite limb_at_val by done. rewrite pow_B by done. unfold B.
  rewrite Z.mod_pow2_bits_low by lia. rewrite Z.div_pow2_bits by nia. f_equal. lia.
Qed.
Lemma ztake_limb_at (l : list Z) n i : 0 <= i < n → limb_at (ztake n l) i = limb_at l i.
Proof. intros Hi. unfold limb_at, aget, ztake. destruct (i <? 0); [done|]. by rewrite lookup_take_lt by lia. Qed.
Lemma b2z_land1 x : x .& 1 = b2z (Z.testbit x 0).
Proof. rewrite land_1_mod, Z.bit0_odd, Zmod_odd. by destruct (Z.odd x). Qed.
(** [get_bit] on the first [l] limbs *)
Lemma get_bit_spec tab l pos :
  limbs tab → 0 <= l <= zlen tab → get_bit tab l pos = Some (b2z (Z.testbit (low l tab) pos)).
Proof.
  intros Ht Hl. unfold get_bit. rewrite shiftr_log2, land_log2, Z.geb_leb. pose proof LB_pos.
  pose proof (limbs_ztake tab l Ht) as Hlt. pose proof (val_bounds _ Hlt) as Hb. rewrite zlen_ztake in Hb by lia.
  destruct (Z.ltb_spec (pos / LB) 0) as [Hneg|Hpos].
  - cbn [orb]. rewrite Z.testbit_neg_r; [done|]. destruct (Z.lt_ge_cases pos 0); [done|]. pose proof (Z.div_pos pos LB); lia.
  - assert (0 <= pos) by (destruct (Z.lt_ge_cases pos 0); [pose proof (Z.div_lt_upper_bound pos LB 0); lia|done]).
    destruct (Z.leb_spec l (pos / LB)) as [Hge|Hlt2]; cbn [orb].
    + unfold low. assert (Z.testbit (val (ztake l tab)) pos = false) as ->; [|done]. apply Z.testbit_false; [done|].
      rewrite Z.div_small; [done|]. split; [lia|].
      eapply Z.lt_le_trans; [apply Hb|]. rewrite pow_B by lia. apply Z.pow_le_mono_r; [lia|].
      pose proof (Z.mul_div_le pos LB). nia.
    + rewrite aget_limb_at by lia. cbn [mbind option_bind]. rewrite b2z_land1. f_equal. f_equal.
      pose proof (Z.mod_pos_bound pos LB ltac:(lia)). rewrite Z.shiftr_spec, Z.add_0_l by lia.
      unfold low. rewrite <- limb_testbit by done. by rewrite ztake_limb_at by lia.
Qed.
Lemma limb_mask_low k : 0 <= k < LB → limb_mask 0 k = 2 ^ (k + 1) - 1.
Proof.
  intros Hk. unfold limb_mask. rewrite Z.sub_0_r. destruct (Z.eqb_spec (k + 1) LB) as [->|].
  - unfold ulimb, B. symmetry. apply (Z.mod_unique _ _ (-1)); [|lia]. pose proof (Z.pow_pos_nonneg 2 LB ltac:(lia) ltac:(lia)). lia.
  - rewrite Z.shiftl_0_r, Z.shiftl_1_l. assert (0 < 2 ^ (k + 1)) by (apply Z.pow_pos_nonneg; lia).
    assert (2 ^ (k + 1) < B) by (apply Z.pow_lt_mono_r; lia).
    unfold ulimb. rewrite (Z.mod_small (2 ^ (k + 1))) by lia. apply Z.mod_small. lia.
Qed.
Lemma scan_below_spec n tab :
  limbs tab → Z.of_nat n <= zlen tab → scan_below n tab = Some (b2z (negb (low (Z.of_nat n) tab =? 0))).
Proof.
  intros Ht. pose proof B_pos. induction n as [|n IH]; intros Hn; [done|]. cbn [scan_below]. rewrite aget_limb_at by lia. cbn [mbind option_bind].
  pose proof (limb_at_range tab (Z.of_nat n) Ht) as Hx. unfold limb in Hx. pose proof (val_bounds _ (limbs_ztake tab (Z.of_nat n) Ht)) as Hb.
  pose proof (pow_B_pos (Z.of_nat n) ltac:(lia)). replace (Z.of_nat (S n)) with (Z.of_nat n + 1) by lia. unfold low. rewrite val_ztake_S by lia.
  destruct (Z.eqb_spec (limb_at tab (Z.of_nat n)) 0) as [->|Hne]; cbn [negb].
  - rewrite IH by lia. unfold low. by rewrite Z.mul_0_r, Z.add_0_r.
  - destruct (Z.eqb_spec (val (ztake (Z.of_nat n) tab) + B ^ Z.of_nat n * limb_at tab (Z.of_nat n)) 0); [nia|done].
Qed.
(** whether one of the bits up to [bit_pos] is set *)
Lemma scan_bit_nz_spec r bit_pos l :
  limbs (bf_tab r) → 0 <= l <= bf_len r → bit_pos < LB * l →
  scan_bit_nz r bit_pos = Some (b2z (negb (if bit_pos <? 0 then true else low l (bf_tab r) mod 2 ^ (bit_pos + 1) =? 0))).
Proof.
  intros Ht Hl Hp. unfold scan_bit_nz. rewrite shiftr_log2, land_log2. pose proof LB_pos. unfold bf_len in Hl.
  destruct (Z.ltb_spec bit_pos 0).
  { destruct (Z.ltb_spec (bit_pos / LB) 0); [done|]. pose proof (Z.div_lt_upper_bound bit_pos LB 0). lia. }
  assert (0 <= bit_pos / LB < l) as Hi by (split; [apply Z.div_pos; lia|apply Z.div_lt_upper_bound; lia]).
  destruct (Z.ltb_spec (bit_pos / LB) 0); [lia|]. rewrite aget_limb_at by lia. cbn [mbind option_bind].
  pose proof (Z.mod_pos_bound bit_pos LB ltac:(lia)) as Hm. pose proof (Z.div_mod bit_pos LB ltac:(lia)) as Ed.
  set (i := bit_pos / LB) in *. set (k := bit_pos mod LB) in *. rewrite limb_mask_low, land_mask by lia.
  set (tab := bf_tab r) in *. pose proof (limb_at_range tab i Ht) as Hx. unfold limb in Hx.
  pose proof (val_bounds _ (limbs_ztake tab i Ht)) as Hb. rewrite zlen_ztake in Hb by lia.
  assert (0 < 2 ^ (k + 1)) as Hpk by (apply Z.pow_pos_nonneg; lia). pose proof (pow_B_pos i ltac:(lia)) as HpB.
  assert (low l tab mod 2 ^ (bit_pos + 1) = val (ztake i tab) + B ^ i * (limb_at tab i mod 2 ^ (k + 1))) as ->.
  { replace (bit_pos + 1) with (LB * i + (k + 1)) by lia. rewrite Z.pow_add_r, <- pow_B by lia. unfold low.
    rewrite (val_split (ztake l tab) i) by (rewrite zlen_ztake; lia).
    rewrite (zdrop_limb_cons (ztake l tab) i) by (rewrite zlen_ztake; lia). rewrite ztake_limb_at by lia. cbn [val].
    assert (ztake i (ztake l tab) = ztake i tab) as -> by (unfold ztake; rewrite take_take; f_equal; lia).
    set (w := val (zdrop (i + 1) (ztake l tab))). pose proof (Z.div_mod (limb_at tab i) (2 ^ (k + 1)) ltac:(lia)) as Ex.
    pose proof (Z.mod_pos_bound (limb_at tab i) (2 ^ (k + 1)) Hpk).
    assert (B = 2 ^ (k + 1) * 2 ^ (LB - (k + 1))) as HB by (unfold B; rewrite <- Z.pow_add_r by lia; f_equal; lia).
    symmetry. apply (Z.mod_unique _ _ (limb_at tab i / 2 ^ (k + 1) + 2 ^ (LB - (k + 1)) * w)); [left; nia|].
    transitivity (val (ztake i tab) + B ^ i * (limb_at tab i + 2 ^ (k + 1) * 2 ^ (LB - (k + 1)) * w)); [rewrite <- HB; ring|].
    rewrite Ex at 1. ring. }
  pose proof (Z.mod_pos_bound (limb_at tab i) (2 ^ (k + 1)) Hpk).
  destruct (Z.eqb_spec (limb_at tab i mod 2 ^ (k + 1)) 0) as [->|Hne]; cbn [negb].
  - rewrite scan_below_spec by (done || lia). rewrite Z2Nat.id by lia. unfold low. by rewrite Z.mul_0_r, Z.add_0_r.
  - destruct (Z.eqb_spec (val (ztake i tab) + B ^ i * (limb_at tab i mod 2 ^ (k + 1))) 0); [nia|done].
Qed.
End Bits.
