(* ===== verification/BigFloatRound.v ===== *)
(** * Rounding a mantissa

    The steps of [__bf_round] on the value of the mantissa: the decision to
    round up, the addition of one unit of the last place, and the cut. *)
From S2P Require Import Prelude Alloc Reliable Limb LimbOps BigFloat LimbBits.

(** ** The reference
    [m / d] rounded up: the mantissa [m] of a number of sign [sgn], the unit of
    the last place [d]. *)
Definition round_incr (mode sgn m d : Z) : bool :=
  let q := m / d in
  let t := m mod d in
  if mode =? BF_RNDN then (d <? 2 * t) || ((2 * t =? d) && Z.odd q)
  else if mode =? BF_RNDD then (sgn =? 1) && negb (t =? 0)
  else if mode =? BF_RNDU then (sgn =? 0) && negb (t =? 0)
  else if mode =? BF_RNDA then negb (t =? 0)
  else if (mode =? BF_RNDNA) || (mode =? BF_RNDF) then d <=? 2 * t
  else false.
(** the integer that rounds [m / d] *)
Definition round_quot (mode sgn m d : Z) : Z := m / d + b2z (round_incr mode sgn m d).
Definition rounding_mode (mode : Z) : Prop := 0 <= mode <= 6.

Section Decision.
Context {LS : LimbSize}.
Notation LB := (@LIMB_BITS LS).

Lemma B_eighth : B = 8 * (B / 8) ∧ B / 2 = 4 * (B / 8) ∧ 2 ^ 29 <= B / 8.
Proof. unfold B. destruct LIMB_BITS_cases as [-> | ->]; vm_compute; done. Qed.
Lemma slimb_id x : - (B / 2) <= x < B / 2 → slimb x = x.
Proof. intros Hx. destruct B_half as [HB _]. unfold slimb. rewrite Z.mod_small by lia. lia. Qed.
Lemma sword_id x : - (B / 2) <= x < B / 2 → sword x = Some x.
Proof. intros Hx. unfold sword. destruct (Z.leb_spec (- (B / 2)) x), (Z.ltb_spec x (B / 2)); done || lia. Qed.
(** precisions that occur *)
Definition small_prec (l p : Z) : Prop := 0 < LB * l <= B / 8 ∧ - (2 * (B / 8)) - 8 <= p <= 3 * (B / 8).

(** evaluate for each mode and sign *)
Ltac modes Hmode Hsgn :=
  unfold rounding_mode in Hmode;
  match type of Hmode with 0 <= ?mode <= 6 =>
    let Hin := fresh in
    assert (mode = 0 ∨ mode = 1 ∨ mode = 2 ∨ mode = 3 ∨ mode = 4 ∨ mode = 5 ∨ mode = 6) as Hin by lia;
    destruct Hin as [->|[->|[->|[->|[->|[->| ->]]]]]]
  end; destruct Hsgn as [-> | ->]; reflexivity.
(** the bits below the last place *)
Lemma half_bits m s :
  0 <= m → 1 <= s →
  let t := m mod 2 ^ s in let bit1 := Z.testbit m (s - 1) in let bit0 := negb (m mod 2 ^ (s - 1) =? 0) in
  (bit1 = true → 2 ^ s <= 2 * t ∧ (bit0 = false → 2 * t = 2 ^ s) ∧ (bit0 = true → 2 ^ s < 2 * t)) ∧
  (bit1 = false → 2 * t < 2 ^ s) ∧ (t = 0 ↔ bit1 = false ∧ bit0 = false).
Proof.
  intros Hm Hs t bit1 bit0. assert (2 ^ s = 2 * 2 ^ (s - 1)) as Ep by (rewrite <- Z.pow_succ_r by lia; f_equal; lia).
  assert (0 < 2 ^ (s - 1)) as Hp by (apply Z.pow_pos_nonneg; lia).
  assert (t = m mod 2 ^ (s - 1) + 2 ^ (s - 1) * b2z bit1) as Et.
  { unfold t, bit1. rewrite Ep. rewrite (Z.mul_comm 2), Z.rem_mul_r by lia. f_equal. f_equal. rewrite Z.testbit_eqb by lia.
    pose proof (Z.mod_pos_bound (m / 2 ^ (s - 1)) 2 ltac:(lia)). destruct (Z.eqb_spec ((m / 2 ^ (s - 1)) mod 2) 1); cbn [b2z]; lia. }
  pose proof (Z.mod_pos_bound m (2 ^ (s - 1)) Hp) as Hb. unfold bit0. clearbody t bit1.
  destruct (Z.eqb_spec (m mod 2 ^ (s - 1)) 0), bit1; cbn [b2z negb] in *; split_and!; intros; try done; try lia.
Qed.
Lemma mod_pow_zero m s : 0 <= s → m mod 2 ^ s = 0 ↔ ∀ i, 0 <= i < s → Z.testbit m i = false.
Proof.
  intros Hs. split.
  - intros E i Hi. rewrite <- (Z.mod_pow2_bits_low m s i) by lia. by rewrite E, Z.bits_0.
  - intros Hb. apply Z.bits_inj_0. intros i. destruct (Z.lt_ge_cases i 0); [by apply Z.testbit_neg_r|].
    destruct (Z.lt_ge_cases i s); [rewrite Z.mod_pow2_bits_low by lia; by apply Hb|]. by apply Z.mod_pow2_bits_high.
Qed.
Lemma bf_get_rnd_add_spec r l p mode m :
  limbs (bf_tab r) → 0 < l <= bf_len r → m = low l (bf_tab r) → 0 < m → small_prec l p → rounding_mode mode →
  bf_sign r = 0 ∨ bf_sign r = 1 →
  let d := 2 ^ Z.max 0 (LB * l - p) in
  bf_get_rnd_add r l p mode = Some (round_incr mode (bf_sign r) m d, (mode =? BF_RNDF) || negb (m mod d =? 0)).
Proof.
  intros Ht Hl Em Hm [HL Hp] Hmode Hsgn d. destruct B_eighth as (HB & HB2 & HB3). pose proof LB_pos. unfold bf_get_rnd_add.
  rewrite !(Z.mul_comm l LB). rewrite (sword_id (p + 1)), (sword_id (p - 1)) by lia. cbn [mbind option_bind].
  set (s := LB * l - p) in *.
  rewrite (slimb_id (LB * l - 1 - p)), (slimb_id (LB * l - 1 - (p - 1))) by lia.
  rewrite !get_bit_spec by (unfold bf_len in *; done || lia). rewrite <- !Em. cbn [mbind option_bind].
  replace (LB * l - 1 - p) with (s - 1) by lia. replace (LB * l - 1 - (p - 1)) with s by lia.
  set (bit0 := (1 <=? s) && negb (m mod 2 ^ (s - 1) =? 0)).
  assert (0 <= m < 2 ^ (LB * l)) as Hmb.
  { rewrite Em. pose proof (val_bounds _ (limbs_ztake (bf_tab r) l Ht)) as Hb. rewrite zlen_ztake, pow_B in Hb by (unfold bf_len in *; lia). done. }
  assert (scan_bit_nz r (slimb (LB * l - 1 - bf_max 0 (p + 1))) = Some (b2z bit0)) as Escan.
  { unfold bf_max. rewrite Z.gtb_ltb, slimb_id by (destruct (Z.ltb_spec (p + 1) 0); lia).
    rewrite (scan_bit_nz_spec r _ l) by (done || (destruct (Z.ltb_spec (p + 1) 0); lia)). rewrite <- Em. f_equal. f_equal. unfold bit0.
    destruct (Z.ltb_spec (p + 1) 0).
    - rewrite Z.sub_0_r. destruct (Z.ltb_spec (LB * l - 1) 0); [lia|]. replace (LB * l - 1 + 1) with (LB * l) by lia.
      assert (2 ^ (LB * l) <= 2 ^ (s - 1)) by (apply Z.pow_le_mono_r; lia). rewrite !Z.mod_small by lia.
      by destruct (Z.leb_spec 1 s); [|lia].
    - replace (LB * l - 1 - (p + 1)) with (s - 2) by lia. destruct (Z.ltb_spec (s - 2) 0).
      + destruct (Z.leb_spec 1 s); [|done]. replace s with 1 by lia. by rewrite Z.mod_1_r.
      + replace (s - 2 + 1) with (s - 1) by lia. by destruct (Z.leb_spec 1 s); [|lia]. }
  rewrite Escan. clear Escan. destruct (Z.le_gt_cases s 0) as [Hs|Hs].
  - assert (bit0 = false) as -> by (unfold bit0; by destruct (Z.leb_spec 1 s); [lia|]). rewrite (Z.testbit_neg_r m (s - 1)) by lia.
    assert (d = 1) as -> by (unfold d; by rewrite Z.max_l by lia). rewrite Z.mod_1_r. unfold round_incr. rewrite Z.mod_1_r.
    by modes Hmode Hsgn.
  - assert (d = 2 ^ s) as -> by (unfold d; by rewrite Z.max_r by lia). assert (bit0 = negb (m mod 2 ^ (s - 1) =? 0)) as Eb0
      by (unfold bit0; by destruct (Z.leb_spec 1 s); [|lia]).
    destruct (half_bits m s ltac:(lia) ltac:(lia)) as (H1 & H2 & H3). rewrite <- Eb0 in *. unfold round_incr.
    assert (Z.testbit m s = Z.odd (m / 2 ^ s)) as Eodd by (rewrite Z.testbit_odd, Z.shiftr_div_pow2 by lia; done).
    rewrite Eodd. set (t := m mod 2 ^ s) in *. clearbody t bit0. clear Eodd Eb0. destruct (Z.testbit m (s - 1)) eqn:Eb1; clear Eb1.
    + destruct (H1 eq_refl) as (Ha & Hb & Hc). assert (t ≠ 0) as Ht0 by (intros E0%H3; naive_solver).
      destruct (Z.eqb_spec t 0); [done|]. destruct (Z.leb_spec (2 ^ s) (2 * t)); [|lia].
      assert ((2 ^ s <? 2 * t) || ((2 * t =? 2 ^ s) && Z.odd (m / 2 ^ s)) = bit0 || Z.odd (m / 2 ^ s)) as ->.
      { destruct bit0; [destruct (Z.ltb_spec (2 ^ s) (2 * t)); [done|specialize (Hc eq_refl); lia]|].
        rewrite (Hb eq_refl), Z.ltb_irrefl, Z.eqb_refl. done. }
      clear H1 H2 H3 Ha Hb Hc. destruct bit0, (Z.odd (m / 2 ^ s)); by modes Hmode Hsgn.
    + specialize (H2 eq_refl). destruct (Z.ltb_spec (2 ^ s) (2 * t)); [lia|]. destruct (Z.eqb_spec (2 * t) (2 ^ s)); [lia|].
      destruct (Z.leb_spec (2 ^ s) (2 * t)); [lia|]. assert ((t =? 0) = negb bit0) as ->.
      { destruct bit0, (Z.eqb_spec t 0); naive_solver. }
      destruct bit0; by modes Hmode Hsgn.
Qed.
End Decision.

(** [n] units of the last place is a rounding of the mantissa [m] *)
Definition is_rounding (mode sgn m d n : Z) : Prop :=
  if mode =? BF_RNDN then 2 * Z.abs (n * d - m) <= d ∧ (2 * Z.abs (n * d - m) = d → Z.even n = true)
  else if mode =? BF_RNDNA then 2 * Z.abs (n * d - m) <= d ∧ (2 * Z.abs (n * d - m) = d → m < n * d)
  else if mode =? BF_RNDF then Z.abs (n * d - m) < d
  else if (mode =? BF_RNDZ) || ((mode =? BF_RNDD) && (sgn =? 0)) || ((mode =? BF_RNDU) && (sgn =? 1)) then n * d <= m < (n + 1) * d
  else (n - 1) * d < m <= n * d.
Lemma round_quot_rounds mode sgn m d :
  0 < d → 0 <= m → rounding_mode mode → sgn = 0 ∨ sgn = 1 → is_rounding mode sgn m d (round_quot mode sgn m d).
Proof.
  intros Hd Hm Hmode Hsgn. unfold round_quot, round_incr, is_rounding. assert (d ≠ 0) as Hd0 by lia.
  pose proof (Z.div_mod m d Hd0) as E. pose proof (Z.mod_pos_bound m d Hd) as Ht. set (q := m / d) in *. set (t := m mod d) in *.
  assert (Z.abs ((q + 0) * d - m) = t ∧ Z.abs ((q + 1) * d - m) = d - t) as [E0 E1] by lia.
  unfold rounding_mode in Hmode.
  assert (mode = 0 ∨ mode = 1 ∨ mode = 2 ∨ mode = 3 ∨ mode = 4 ∨ mode = 5 ∨ mode = 6) as Hin by lia.
  destruct Hin as [->|[->|[->|[->|[->|[->| ->]]]]]]; destruct Hsgn as [-> | ->]; cbn [Z.eqb BF_RNDN BF_RNDZ BF_RNDD BF_RNDU BF_RNDNA BF_RNDA BF_RNDF Pos.eqb andb orb negb];
    repeat match goal with
    | |- context [?a <? ?b] => destruct (Z.ltb_spec a b)
    | |- context [?a =? ?b] => destruct (Z.eqb_spec a b)
    | |- context [?a <=? ?b] => destruct (Z.leb_spec a b)
    | |- context [Z.odd q] => destruct (Z.odd q) eqn:Eo
    end; cbn [b2z andb orb negb]; rewrite ?E0, ?E1; try lia;
    try (split; [lia|]; intros; first [lia | rewrite <- Z.negb_odd, ?Z.add_0_r, ?Z.odd_add, Eo; reflexivity]).
Qed.

(** ** Adding one *)
Section AddOne.
Context {LS : LimbSize}.
Notation LB := (@LIMB_BITS LS).

Lemma round_carry_spec n p q k :
  limbs q → limb k → Z.of_nat n <= zlen q →
  ∃ r k', round_carry n (p ++ q) (zlen p) k = Some (p ++ r ++ zdrop (Z.of_nat n) q, k') ∧
    zlen r = Z.of_nat n ∧ limbs r ∧ limb k' ∧ val r + B ^ Z.of_nat n * k' = low (Z.of_nat n) q + k.
Proof.
  intros Hq. revert p q k Hq. induction n as [|n IH]; intros p q k Hq Hk Hn.
  { exists [], k. cbn [round_carry app]. split_and!; [done|done|constructor|done..|]. unfold low. change (ztake (Z.of_nat 0) q) with (@nil Z).
    change (Z.of_nat 0) with 0. rewrite Z.pow_0_r. cbn [val]. lia. }
  destruct q as [|x q]; [change (zlen (@nil Z)) with 0 in Hn; lia|]. rewrite zlen_cons in Hn. apply Forall_cons in Hq as [Hx Hq].
  pose proof B_pos. replace (Z.of_nat (S n)) with (1 + Z.of_nat n) by lia.
  cbn [round_carry]. rewrite aget_app_at. cbn [mbind option_bind]. rewrite aset_app_at. cbn [mbind option_bind].
  pose proof (carry_of_add x k Hx Hk) as Ek. set (a := ulimb (x + k)) in *. pose proof (limb_ulimb (x + k) : limb a) as Ha.
  destruct (Z.eqb_spec (b2z (a <? k)) 0) as [E0|_].
  - rewrite E0 in *. exists (a :: ztake (Z.of_nat n) q), 0. rewrite zdrop_S_cons, low_cons, zlen_cons, zlen_ztake by lia. cbn [app].
    rewrite ztake_zdrop. split; [done|]. split; [done|]. split; [constructor; [done|by apply limbs_ztake]|]. split; [split; lia|].
    cbn [val]. unfold low. lia.
  - destruct (IH (p ++ [a]) q (b2z (a <? k)) Hq) as (r & k' & E & Hlen & Hr & Hk' & Hv); [destruct (a <? k); split; cbn [b2z]; lia|lia|].
    exists (a :: r), k'. rewrite zlen_app in E. change (zlen [a]) with 1 in E. rewrite <- !app_assoc in E. cbn [app] in E. rewrite E.
    rewrite zdrop_S_cons, low_cons, zlen_cons. split; [done|]. split; [lia|]. split; [by constructor|]. split; [done|].
    rewrite Z.pow_add_r, Z.pow_1_r by lia. cbn [val].
    transitivity (a + B * (val r + B ^ Z.of_nat n * k')); [ring|]. rewrite Hv. lia.
Qed.
Lemma round_shift_spec p r z l pos :
  zlen p = pos → limbs r → zlen r = l - pos →
  ∃ r', round_shift (p ++ r ++ z) pos l = Some (p ++ r' ++ z) ∧ limbs r' ∧ zlen r' = l - pos ∧ val r' = (val r + B ^ (l - pos)) / 2.
Proof.
  intros Hp Hr Hl. unfold round_shift. pose proof LB_pos. pose proof (zlen_nonneg r). pose proof (zlen_nonneg z).
  set (body := λ j '(tab, v), a ← tab.[j]; tab ← aset tab j ((a >> 1) .| ulimb (v << (LB - 1))); Some (tab, a)).
  rewrite (for_down_offset (λ s : list Z * Z, (p ++ s.1, s.2)) _ _ body (r ++ z, 1)).
  2: { intros j [res v] Hj. cbn [fst snd]. rewrite <- Hp, aget_app_off by lia. unfold body. destruct (res.[j]) as [a|]; [|done].
    cbn [mbind option_bind]. rewrite aset_app_off by lia. by destruct (aset res j _). }
  destruct (down_loop (shr_inv r 1 1) (l - pos) body (r ++ z) 1) as (q & v & E & Hlen & Hq & HP).
  - intros j q res v Hj Hlen Hq Hres HP. unfold body. rewrite Hres, aget_app_l by lia. rewrite aget_limb_at by lia. cbn [mbind option_bind].
    destruct (shr_step r 1 1 j q v Hr ltac:(lia) ltac:(lia) HP) as [Hx HP'].
    eexists _, _. split; [reflexivity|]. split; [exact Hx|exact HP'].
  - rewrite zlen_app. lia.
  - rewrite <- Hl. apply shr_start; lia.
  - rewrite E. cbn [mbind option_bind fst snd]. assert (1 <= 1 < LB) as L1 by lia. destruct (shr_end r 1 1 q v L1 HP) as [_ Hd]. rewrite Hl, Z.mul_1_l in Hd.
    exists q. split; [|done]. by destruct (zlen_at_least r (l - pos) Hl z) as [_ ->].
Qed.
Lemma high_quot x y a k : 0 <= x < a → 0 < k → (x + a * y) / (a * k) = y / k.
Proof.
  intros Hx Hk. rewrite <- Z.div_div by lia. f_equal. rewrite (Z.mul_comm a), Z.div_add by lia. by rewrite Z.div_small by lia.
Qed.
(** [v + b * c = x + k] is the sum with its carry, the base is [2 * h * k] *)
Lemma add_one_quot x v c k h b :
  0 < k → 0 < h → b = k * (2 * h) → 0 <= x < b → 0 <= v < b → 0 <= c → v + b * c = x + k →
  (c = 0 ∧ x / k + 1 < 2 * h ∧ v / k = x / k + 1) ∨ (c = 1 ∧ x / k + 1 = 2 * h ∧ (v + b) / 2 / k = h).
Proof.
  intros Hk Hh Hb Hx Hv Hc E. assert (k <= b) as Hkb by nia. assert (c = 0 ∨ c = 1) as [-> | ->] by nia; [left|right]; (split; [done|]).
  - assert (v / k = x / k + 1) as Eq by (replace v with (x + 1 * k) by lia; rewrite Z.div_add by lia; lia).
    rewrite Eq. split; [|done]. rewrite <- Eq. apply Z.div_lt_upper_bound; lia.
  - assert (x / k = 2 * h - 1) as -> by (symmetry; apply (Z.div_unique x k (2 * h - 1) v); [left|]; lia).
    split; [lia|]. rewrite Z.div_div by lia. symmetry. apply (Z.div_unique (v + b) (2 * k) h v); [left|]; lia.
Qed.
Lemma round_add_one_spec r l p m :
  limbs (bf_tab r) → 0 < l <= bf_len r → m = low l (bf_tab r) → LB * l <= B / 8 → 1 <= p < LB * l →
  - (B / 2) <= bf_expn r < B / 2 - 1 →
  let s := LB * l - p in
  ∃ r', round_add_one r l p = Some r' ∧ bf_sign r' = bf_sign r ∧ bf_len r' = bf_len r ∧ limbs (bf_tab r') ∧
    if m / 2 ^ s + 1 =? 2 ^ p then bf_expn r' = bf_expn r + 1 ∧ low l (bf_tab r') / 2 ^ s = 2 ^ (p - 1)
    else bf_expn r' = bf_expn r ∧ low l (bf_tab r') / 2 ^ s = m / 2 ^ s + 1.
Proof.
  intros Ht Hl Em HL Hp He s. destruct B_eighth as (HB & HB2 & HB3). pose proof LB_pos. unfold bf_len in *.
  unfold round_add_one. cbv zeta. rewrite (Z.mul_comm l LB), slimb_id, shiftr_log2, land_log2 by lia.
  replace (LB * l - 1 - (p - 1)) with s by lia. assert (LB ≠ 0) as HLB0 by lia. assert (0 < LB) as HLBp by lia.
  pose proof (Z.div_mod s LB HLB0) as Es. pose proof (Z.mod_pos_bound s LB HLBp) as Hk.
  assert (0 <= s / LB < l) as Hpos by (split; [apply Z.div_pos; lia|apply Z.div_lt_upper_bound; lia]).
  set (pos := s / LB) in *. set (k := s mod LB) in *. set (n := l - pos).
  set (P := ztake pos (bf_tab r)). set (Q := zdrop pos (bf_tab r)).
  assert (zlen P = pos) as HP by (apply zlen_ztake; lia). assert (zlen Q = zlen (bf_tab r) - pos) as HQ by (apply zlen_zdrop; lia).
  assert (limbs P ∧ limbs Q) as [LP LQ] by (split; [by apply limbs_ztake|by apply limbs_zdrop]).
  assert (bf_tab r = P ++ Q) as Etab by (symmetry; apply ztake_zdrop).
  assert (0 < 2 ^ k) as Hpk by (apply Z.pow_pos_nonneg; lia).
  assert (2 ^ k < B) as HkB by (apply Z.pow_lt_mono_r; lia).
  destruct (round_carry_spec (Z.to_nat n) P Q (2 ^ k) LQ ltac:(unfold limb; lia) ltac:(lia)) as (R & c & E & HR & LR & Hc & Hv).
  assert (Z.of_nat (Z.to_nat n) = n) as Enn by lia. fold n in E. rewrite Enn in *. rewrite HP in E. rewrite Z.shiftl_1_l. fold n. rewrite Etab, E. cbn [mbind option_bind]. clear E.
  assert (low l (bf_tab r) = val P + B ^ pos * low n Q) as Elow.
  { unfold low. rewrite Etab. rewrite (val_split (ztake l (P ++ Q)) pos) by (rewrite zlen_ztake; rewrite ?zlen_app; lia). f_equal.
    - f_equal. unfold ztake. rewrite take_take, Nat.min_l by lia. by destruct (zlen_at_least P pos HP Q) as [? _].
    - f_equal. f_equal. unfold zdrop, ztake. rewrite skipn_firstn_comm. unfold n. replace (Z.to_nat l - Z.to_nat pos)%nat with (Z.to_nat (l - pos)) by lia.
      f_equal. by destruct (zlen_at_least P pos HP Q) as [_ ?]. }
  assert (2 ^ s = B ^ pos * 2 ^ k) as E2s by (rewrite Es, pow_B, <- Z.pow_add_r by lia; done).
  pose proof (val_bounds P LP) as BP. rewrite HP in BP. pose proof (pow_B_pos pos ltac:(lia)) as HBp.
  assert (∀ R' Z0, zlen R' = n → low l (P ++ R' ++ Z0) / 2 ^ s = val R' / 2 ^ k) as Hlow.
  { intros R' Z0 HR'. rewrite app_assoc. assert (zlen (P ++ R') = l) as HPR by (rewrite zlen_app; lia).
    unfold low. destruct (zlen_at_least (P ++ R') l HPR Z0) as [-> _]. rewrite val_app, HP, E2s. by apply high_quot. }
  assert (m / 2 ^ s = low n Q / 2 ^ k) as -> by (rewrite Em, Elow, E2s; by apply high_quot).
  pose proof (val_bounds R LR) as BR. rewrite HR in BR.
  pose proof (val_bounds _ (limbs_ztake Q n LQ)) as BQ. rewrite zlen_ztake in BQ by lia. fold (low n Q) in BQ.
  assert (B ^ n = 2 ^ k * 2 ^ p) as En by (rewrite pow_B, <- Z.pow_add_r by lia; f_equal; lia).
  assert (2 ^ p = 2 * 2 ^ (p - 1)) as Ep by (rewrite <- Z.pow_succ_r by lia; f_equal; lia).
  assert (0 < 2 ^ (p - 1)) as Hp1 by (apply Z.pow_pos_nonneg; lia).
  rewrite Ep in En. unfold limb in Hc.
  destruct (add_one_quot (low n Q) (val R) c (2 ^ k) (2 ^ (p - 1)) (B ^ n)) as [(-> & Hq & Hq')|(-> & Hq & Hq')]; [lia..| |].
  - rewrite Z.eqb_refl. cbn [negb]. eexists. split; [reflexivity|]. cbn [bf_sign bf_expn bf_tab set_tab]. unfold bf_len. cbn [bf_tab set_tab].
    rewrite Ep. destruct (Z.eqb_spec (low n Q / 2 ^ k + 1) (2 * 2 ^ (p - 1))); [lia|].
    rewrite Hlow by done. rewrite !zlen_app, zlen_zdrop by lia. repeat split; try done; [lia|].
    apply limbs_app; split; [done|]. apply limbs_app; split; [done|by apply limbs_zdrop].
  - destruct (round_shift_spec P R (zdrop n Q) l pos HP LR HR) as (R' & E & LR' & HR' & Hv'). fold n in HR', Hv'.
    cbn [Z.eqb negb]. rewrite E. cbn [mbind option_bind]. rewrite sword_id by lia. cbn [mbind option_bind].
    eexists. split; [reflexivity|]. unfold bf_len. cbn [bf_sign bf_expn bf_tab].
    rewrite Ep, Hq, Z.eqb_refl, Hlow by done. rewrite !zlen_app, zlen_zdrop by lia. repeat split; try done; [lia| |by rewrite Hv', Hq'].
    apply limbs_app; split; [done|]. apply limbs_app; split; [done|by apply limbs_zdrop].
Qed.
End AddOne.

(** ** The cut *)
Section Cut.
Context {LS : LimbSize} `{!Allocator}.
Notation LB := (@LIMB_BITS LS).

Lemma land_shiftl x y k : 0 <= k → x .& (y << k) = ((x >> k) .& y) << k.
Proof.
  intros Hk. apply Z.bits_inj'. intros i Hi. rewrite Z.land_spec, !Z.shiftl_spec, Z.land_spec by lia.
  destruct (Z.lt_ge_cases i k); [by rewrite !(Z.testbit_neg_r _ (i - k)), andb_false_r by lia|].
  rewrite Z.shiftr_spec by lia. by replace (i - k + k) with i by lia.
Qed.
Lemma limb_mask_high x k : limb x → 0 < k < LB → x .& limb_mask k (LB - 1) = x / 2 ^ k * 2 ^ k.
Proof.
  intros Hx Hk. assert (0 < 2 ^ k) as Hp by (apply Z.pow_pos_nonneg; lia).
  assert (0 < 2 ^ (LB - k)) as Hp2 by (apply Z.pow_pos_nonneg; lia).
  assert (B = 2 ^ (LB - k) * 2 ^ k) as HB by (unfold B; rewrite <- Z.pow_add_r by lia; f_equal; lia).
  assert (2 ^ (LB - k) < B) as HpB by (apply Z.pow_lt_mono_r; lia).
  unfold limb_mask. replace (LB - 1 - k + 1) with (LB - k) by lia. destruct (Z.eqb_spec (LB - k) LB); [lia|].
  rewrite Z.shiftl_1_l. unfold ulimb. rewrite (Z.mod_small (2 ^ (LB - k))) by lia.
  rewrite Z.mod_small by (rewrite Z.shiftl_mul_pow2 by lia; nia).
  rewrite land_shiftl, land_mask, shiftr_div, Z.shiftl_mul_pow2 by lia. f_equal.
  apply Z.mod_small. unfold limb in Hx. split; [apply Z.div_pos; lia|apply Z.div_lt_upper_bound; lia].
Qed.
Lemma low_zdrop tab i l : 0 <= i <= l → l <= zlen tab → low l tab = low i tab + B ^ i * low (l - i) (zdrop i tab).
Proof.
  intros Hi Hl. unfold low. rewrite (val_split (ztake l tab) i) by (rewrite zlen_ztake; lia). f_equal; f_equal.
  - unfold ztake. rewrite take_take. f_equal. lia.
  - f_equal. unfold zdrop, ztake. rewrite skipn_firstn_comm. f_equal. lia.
Qed.
Lemma low_nonneg l tab : limbs tab → 0 <= l <= zlen tab → 0 <= low l tab < B ^ l.
Proof. intros Ht Hl. pose proof (val_bounds _ (limbs_ztake tab l Ht)) as Hb. by rewrite zlen_ztake in Hb by lia. Qed.
Lemma skip_zeros_spec fuel tab i l :
  limbs tab → 0 <= i <= l → l <= zlen tab → 0 < low (l - i) (zdrop i tab) → l - i < Z.of_nat fuel →
  ∃ j, skip_zeros fuel tab i = Some j ∧ i <= j < l ∧ limb_at tab j ≠ 0 ∧
    low (l - i) (zdrop i tab) = B ^ (j - i) * low (l - j) (zdrop j tab).
Proof.
  intros Ht. revert i. induction fuel as [|fuel IH]; intros i Hi Hl Hv Hf; [lia|].
  destruct (Z.eq_dec i l) as [->|Hil]; [rewrite Z.sub_diag in Hv; unfold low in Hv; change (ztake 0 (zdrop l tab)) with (@nil Z) in Hv; cbn [val] in Hv; lia|].
  cbn [skip_zeros]. rewrite aget_limb_at by lia. cbn [mbind option_bind].
  destruct (Z.eqb_spec (limb_at tab i) 0) as [E0|Hne].
  - assert (low (l - i) (zdrop i tab) = B * low (l - (i + 1)) (zdrop (i + 1) tab)) as E.
    { rewrite zdrop_limb_cons by lia. rewrite E0. replace (l - i) with (1 + Z.of_nat (Z.to_nat (l - (i + 1)))) by lia.
      rewrite low_cons. by rewrite Z2Nat.id by lia. }
    rewrite E in *. pose proof B_pos. destruct (IH (i + 1)) as (j & Ej & Hj & Hj0 & Hjv); [lia|lia|nia|lia|].
    exists j. split; [done|]. split; [lia|]. split; [done|]. rewrite Hjv. replace (j - i) with (j - (i + 1) + 1) by lia.
    rewrite pow_B_S by lia. ring.
  - exists i. rewrite Z.sub_diag, Z.pow_0_r. split; [done|]. split; [lia|]. split; [done|]. lia.
Qed.
Lemma wp_bf_resize `{!Reliable} r n :
  0 <= n → wp (bf_resize r n) (λ x, ∃ g, x = (0, set_tab r (ztake n (bf_tab r) ++ g)) ∧ limbs g ∧ zlen g = Z.max 0 (n - bf_len r)).
Proof.
  intros Hn. unfold bf_resize. destruct (Z.eqb_spec n (bf_len r)) as [->|Hne]; cbn [negb].
  - apply wp_ret. exists []. rewrite app_nil_r, ztake_all by (unfold bf_len; lia). split; [by destruct r|]. split; [constructor|]. rewrite zlen_nil. lia.
  - eapply (wp_bind _ _ (λ ok, ok = true)); [intros h; eexists _, _; split; [reflexivity|]; exact (reliable _ _)|]. intros ok ->. cbn [negb andb].
    eapply (wp_bind _ _ (λ g, limbs g ∧ zlen g = Z.max 0 (n - bf_len r))).
    + intros h. eexists _, _. split; [reflexivity|]. split.
      * apply Forall_forall. intros x Hx%list_elem_of_fmap. destruct Hx as (i & -> & _). apply limb_ulimb.
      * unfold zlen. rewrite length_fmap, length_seq. lia.
    + intros g [Hg Hlen]. apply wp_ret. by exists g.
Qed.
Lemma wp_bf_shrink `{!Reliable} r n :
  0 <= n <= bf_len r → wp (bf_resize r n) (λ x, x = (0, set_tab r (ztake n (bf_tab r)))).
Proof.
  intros Hn. eapply wp_mono; [apply wp_bf_resize; lia|]. intros ? (g & -> & _ & Hlen). rewrite Z.max_l in Hlen by lia.
  destruct g; [by rewrite app_nil_r|]. rewrite zlen_cons in Hlen. pose proof (zlen_nonneg g). lia.
Qed.
(** the limbs from the one that has the last bit on *)
Lemma cut_mask_spec tab s i k :
  limbs tab → 0 <= s → s < LB * zlen tab → i = s / LB → k = s mod LB →
  ∃ tab', (if negb (k =? 0) then
      v ← tab.[i]; tab ← aset tab i (v .& limb_mask k (LB - 1)); Some (tab, i)
    else Some (tab, i)) = Some (tab', i) ∧ limbs tab' ∧ zlen tab' = zlen tab ∧
    ∀ n, 0 < n <= zlen tab - i → low n (zdrop i tab') = low n (zdrop i tab) / 2 ^ k * 2 ^ k.
Proof.
  intros Ht Hs Hl Ei Ek. pose proof LB_pos. assert (LB ≠ 0) as HLB0 by lia. assert (0 < LB) as HLBp by lia.
  pose proof (Z.mod_pos_bound s LB HLBp) as Hk. assert (0 <= i < zlen tab) as Hi by (split; [subst i; apply Z.div_pos; lia|subst i; apply Z.div_lt_upper_bound; lia]).
  rewrite <- Ek in Hk. clear Ei Ek. destruct (Z.eqb_spec k 0) as [->|Hk0]; cbn [negb].
  { exists tab. split; [done|]. split; [done|]. split; [done|]. intros. by rewrite Z.pow_0_r, Z.mul_1_r, Z.div_1_r. }
  rewrite aget_limb_at by lia. cbn [mbind option_bind]. pose proof (limb_at_range tab i Ht) as Hx. rewrite limb_mask_high by (done || lia).
  set (x := limb_at tab i) in *. set (y := x / 2 ^ k * 2 ^ k). assert (0 < 2 ^ k) as Hp by (apply Z.pow_pos_nonneg; lia).
  assert (limb y) as Hy by (unfold y, limb in *; pose proof (Z.mul_div_le x (2 ^ k) Hp); pose proof (Z.div_pos x (2 ^ k)); nia).
  assert (aset tab i y = Some (ztake i tab ++ y :: zdrop (i + 1) tab)) as -> by (rewrite <- (ztake_zdrop (i + 1) tab) at 1; by apply aset_ztake).
  cbn [mbind option_bind]. eexists. split; [reflexivity|]. assert (zlen (ztake i tab) = i) as Hz by (apply zlen_ztake; lia).
  split; [apply limbs_app; split; [by apply limbs_ztake|constructor; [done|by apply limbs_zdrop]]|].
  split; [rewrite zlen_app, zlen_cons, zlen_zdrop by lia; lia|]. intros n Hn.
  destruct (zlen_at_least _ i Hz (y :: zdrop (i + 1) tab)) as [_ ->]. rewrite (zdrop_limb_cons tab i) by lia. fold x.
  replace n with (1 + Z.of_nat (Z.to_nat (n - 1))) by lia. rewrite !low_cons, Z2Nat.id by lia.
  assert (B = 2 ^ (LB - k) * 2 ^ k) as HB by (unfold B; rewrite <- Z.pow_add_r by lia; f_equal; lia).
  set (w := low (n - 1) (zdrop (i + 1) tab)). replace (x + B * w) with (x + (2 ^ (LB - k) * w) * 2 ^ k) by (rewrite HB; ring).
  rewrite Z.div_add by lia. rewrite HB. unfold y. ring.
Qed.
(** the limbs that remain after the bits below [2 ^ s] are cleared *)
Definition is_cut (l M s : Z) (t : list Z) : Prop :=
  limbs t ∧ 0 < zlen t <= l ∧ limb_at t 0 ≠ 0 ∧ val t * B ^ (l - zlen t) = M / 2 ^ s * 2 ^ s.
Lemma round_cut_spec `{!Reliable} r l p :
  limbs (bf_tab r) → 0 < l <= bf_len r → LB * l <= B / 8 → 1 <= p <= 3 * (B / 8) → 2 ^ (LB * l - 1) <= low l (bf_tab r) →
  wp (round_cut r l p) (λ r', ∃ t, r' = set_tab r t ∧ is_cut l (low l (bf_tab r)) (Z.max 0 (LB * l - p)) t).
Proof.
  intros Ht Hl HL Hp HM. destruct B_eighth as (HB & HB2 & HB3). pose proof LB_pos. unfold bf_len in *.
  unfold round_cut. cbv zeta. rewrite (Z.mul_comm l LB), slimb_id, shiftr_log2, land_log2 by lia.
  replace (LB * l - 1 - (p - 1)) with (LB * l - p) by lia. set (s := Z.max 0 (LB * l - p)).
  set (i := s / LB). set (k := s mod LB). assert (LB ≠ 0) as HLB0 by lia. assert (0 < LB) as HLBp by lia.
  pose proof (Z.div_mod s LB HLB0) as Es. pose proof (Z.mod_pos_bound s LB HLBp) as Hk. fold i k in Es, Hk.
  assert (0 <= i < l) as Hi by (split; [apply Z.div_pos; lia|apply Z.div_lt_upper_bound; lia]).
  destruct (cut_mask_spec (bf_tab r) s i k Ht) as (tab & E & Lt & Hz & Hv); [lia|nia|done|done|].
  eapply (wp_bind_lift _ (tab, i)).
  { rewrite Z.geb_leb. destruct (Z.leb_spec 0 ((LB * l - p) / LB)).
    - assert (s = LB * l - p) as Es' by (unfold s; pose proof (Z.div_lt_upper_bound (LB * l - p) LB 0); lia). rewrite <- Es'. exact E.
    - assert (s = 0) as Es' by (unfold s; pose proof (Z.div_pos (LB * l - p) LB); lia).
      assert (i = 0 ∧ k = 0) as [Ei Ek] by (unfold i, k; rewrite Es'; by rewrite Z.div_0_l, Z.mod_0_l by lia).
      rewrite Ek, Ei in *. exact E. }
  clear E. assert (0 < 2 ^ k) as Hpk by (apply Z.pow_pos_nonneg; lia). specialize (Hv (l - i) ltac:(lia)).
  assert (2 ^ s = B ^ i * 2 ^ k) as E2s by (rewrite Es, pow_B, <- Z.pow_add_r by lia; done).
  set (M := low l (bf_tab r)) in *. assert (M / 2 ^ s = low (l - i) (zdrop i (bf_tab r)) / 2 ^ k) as EM.
  { unfold M. rewrite (low_zdrop _ i l), E2s by lia. apply high_quot; [|done]. apply low_nonneg; [done|lia]. }
  rewrite <- EM in Hv. assert (2 ^ s <= M) as HsM by (etransitivity; [|exact HM]; apply Z.pow_le_mono_r; lia).
  assert (0 < 2 ^ s) as Hps by (apply Z.pow_pos_nonneg; lia).
  assert (0 < M / 2 ^ s) as Hq by (apply Z.div_str_pos; lia).
  destruct (skip_zeros_spec (S (length tab)) tab i l Lt) as (j & E & Hj & Hj0 & Hjv); [lia|lia|rewrite Hv; nia|unfold zlen in *; lia|].
  eapply wp_bind_lift; [exact E|]. clear E.
  assert (zlen (zdrop j tab) = zlen tab - j) as Hzd by (apply zlen_zdrop; lia).
  assert (is_cut l M s (ztake (l - j) (zdrop j tab))) as Hcut.
  { assert (zlen (ztake (l - j) (zdrop j tab)) = l - j) as Hz2 by (apply zlen_ztake; lia).
    split; [by apply limbs_ztake, limbs_zdrop|]. rewrite Hz2. split; [lia|]. split.
    - rewrite ztake_limb_at by lia. unfold limb_at. rewrite aget_zdrop, Z.add_0_r by lia. exact Hj0.
    - fold (low (l - j) (zdrop j tab)). replace (l - (l - j)) with (i + (j - i)) by lia. rewrite Z.pow_add_r by lia.
      transitivity (B ^ i * (B ^ (j - i) * low (l - j) (zdrop j tab))); [ring|]. rewrite <- Hjv, Hv, E2s. ring. }
  assert (∀ rest, zlen rest = zlen tab - (l - j) → wp ('(_, r') ← bf_resize (set_tab r (ztake (l - j) (zdrop j tab) ++ rest)) (l - j); mret r')
    (λ r', ∃ t, r' = set_tab r t ∧ is_cut l M s t)) as Hend.
  { intros rest Hr. assert (zlen (ztake (l - j) (zdrop j tab)) = l - j) as Hz2 by (apply zlen_ztake; lia).
    eapply wp_bind; [apply wp_bf_shrink; unfold bf_len; cbn [bf_tab set_tab]; rewrite zlen_app; lia|].
    intros ? ->. apply wp_ret. eexists. split; [reflexivity|]. cbn [bf_tab set_tab].
    by destruct (zlen_at_least _ (l - j) Hz2 rest) as [-> _]. }
  rewrite Z.gtb_ltb. destruct (Z.ltb_spec 0 j).
  - apply Hend. rewrite zlen_zdrop by lia. lia.
  - assert (j = 0) as -> by lia. rewrite Z.sub_0_r in Hend. specialize (Hend (zdrop l tab)). change (zdrop 0 tab) with tab in *.
    rewrite ztake_zdrop in Hend. apply Hend. rewrite zlen_zdrop by lia. lia.
Qed.
End Cut.
