(* ===== verification/BigFloatValue.v ===== *)
(** * The value of a big float

    The magnitude of a [bf_t] is the rational [0.tab * 2^expn].  Numbers in
    normal form have no leading zero bit and no trailing zero limb; then the
    exponent gives the order of magnitude, and [bf_cmpu] orders the magnitudes. *)
From Stdlib Require Import QArith Qpower.
From S2P Require Import Prelude Alloc Limb LimbOps BigFloat LimbBits.
Open Scope Z_scope.

(** ** Dyadic rationals *)
Definition dyad (n e : Z) : Q := (inject_Z n * (2 # 1) ^ e)%Q.
Lemma pow2_pos e : (0 < (2 # 1) ^ e)%Q.
Proof. by apply Qpower_0_lt. Qed.
Lemma dyad_shift n e k : 0 <= k → (dyad (n * 2 ^ k) e == dyad n (e + k))%Q.
Proof.
  intros Hk. unfold dyad. rewrite inject_Z_mult, Qpower_plus by done. rewrite (Zpower_Qpower 2 k Hk). change (inject_Z 2) with (2 # 1). ring.
Qed.
Lemma dyad_mul n e m f : (dyad n e * dyad m f == dyad (n * m) (e + f))%Q.
Proof. unfold dyad. rewrite inject_Z_mult, Qpower_plus by done. ring. Qed.
Lemma dyad_compare n m e : (dyad n e ?= dyad m e)%Q = (n ?= m).
Proof.
  pose proof (pow2_pos e) as Hp. unfold dyad. destruct (Z.compare_spec n m) as [->|Hlt|Hgt].
  - by apply Qeq_alt.
  - apply Qlt_alt, Qmult_lt_compat_r; [done|]. by rewrite <- Zlt_Qlt.
  - apply Qgt_alt, Qmult_lt_compat_r; [done|]. by rewrite <- Zlt_Qlt.
Qed.
Lemma dyad_lt n m e : (dyad n e < dyad m e)%Q ↔ n < m.
Proof. by rewrite Qlt_alt, dyad_compare, Z.compare_lt_iff. Qed.
Lemma dyad_le n m e : (dyad n e <= dyad m e)%Q ↔ n <= m.
Proof. by rewrite Qle_alt, dyad_compare, Z.compare_le_iff. Qed.
Lemma dyad_eq n m e : (dyad n e == dyad m e)%Q ↔ n = m.
Proof. by rewrite Qeq_alt, dyad_compare, Z.compare_eq_iff. Qed.
Lemma dyad_0 e : (dyad 0 e == 0)%Q.
Proof. unfold dyad. ring. Qed.

(** ** Numbers in normal form *)
Section Values.
Context {LS : LimbSize}.
Notation LB := (@LIMB_BITS LS).

Definition bf_mag (r : bf_t) : Q := dyad (val (bf_tab r)) (bf_expn r - LB * bf_len r).
(** finite and not zero *)
Record bf_normal (r : bf_t) : Prop := {
  nf_limbs : limbs (bf_tab r);
  nf_len : 0 < bf_len r;
  nf_low : limb_at (bf_tab r) 0 ≠ 0;
  nf_high : 2 ^ (LB * bf_len r - 1) <= val (bf_tab r);
  nf_expn : BF_EXP_ZERO < bf_expn r < BF_EXP_INF
}.
Definition bf_is_0 (r : bf_t) : Prop := bf_tab r = [] ∧ bf_expn r = BF_EXP_ZERO.
Definition bf_is_inf (r : bf_t) : Prop := bf_tab r = [] ∧ bf_expn r = BF_EXP_INF.
Definition bf_finite (r : bf_t) : Prop := (bf_sign r = 0 ∨ bf_sign r = 1) ∧ (bf_is_0 r ∨ bf_normal r).
(** the number *)
Definition bf_Q (r : bf_t) : Q := if bf_sign r =? 1 then (- bf_mag r)%Q else bf_mag r.

Lemma normal_bounds r : bf_normal r → 2 ^ (LB * bf_len r - 1) <= val (bf_tab r) < 2 ^ (LB * bf_len r).
Proof. intros [Ht Hl _ Hh _]. pose proof (val_bounds _ Ht) as Hb. unfold bf_len in *. rewrite pow_B in Hb by lia. lia. Qed.
Lemma normal_mag r : bf_normal r → (dyad 1 (bf_expn r - 1) <= bf_mag r)%Q ∧ (bf_mag r < dyad 1 (bf_expn r))%Q.
Proof.
  intros Hr. pose proof (normal_bounds r Hr) as Hb. pose proof (nf_len r Hr). pose proof LB_pos. set (w := LB * bf_len r) in *.
  assert (1 <= w) as Hw by nia. split; unfold bf_mag; fold w.
  - replace (bf_expn r - 1) with (bf_expn r - w + (w - 1)) by lia. rewrite <- dyad_shift, dyad_le by lia. lia.
  - rewrite <- (Z.sub_add w (bf_expn r)) at 2. rewrite <- dyad_shift, dyad_lt by lia. lia.
Qed.
Lemma zero_mag r : bf_is_0 r → (bf_mag r == 0)%Q.
Proof. intros [E _]. unfold bf_mag. rewrite E. apply dyad_0. Qed.
(** the order of magnitude decides *)
Lemma mag_expn a b : bf_is_0 a ∨ bf_normal a → bf_normal b → bf_expn a < bf_expn b → (bf_mag a < bf_mag b)%Q.
Proof.
  intros Ha Hb Hlt. destruct (normal_mag b Hb) as [Hlo _]. eapply Qlt_le_trans; [|exact Hlo]. destruct Ha as [Ha|Ha].
  - rewrite zero_mag by done. rewrite <- (dyad_0 (bf_expn b - 1)). by apply dyad_lt.
  - eapply Qlt_le_trans; [apply (normal_mag a Ha)|]. replace (bf_expn b - 1) with (bf_expn a + (bf_expn b - 1 - bf_expn a)) by lia.
    rewrite <- dyad_shift, dyad_le by lia. pose proof (Z.pow_pos_nonneg 2 (bf_expn b - 1 - bf_expn a)). lia.
Qed.

(** ** Comparison *)
Definition sgn_of (c : comparison) : Z := match c with Lt => -1 | Eq => 0 | Gt => 1 end.
Lemma series_bound t n : (∀ i, 0 <= i < Z.of_nat n → limb (t i)) → 0 <= series t n < B ^ Z.of_nat n.
Proof.
  pose proof B_pos. induction n as [|n IH]; intros Ht; [done|]. cbn [series]. replace (Z.of_nat (S n)) with (Z.of_nat n + 1) by lia.
  specialize (IH ltac:(intros; apply Ht; lia)). pose proof (Ht (Z.of_nat n) ltac:(lia)) as Hx. unfold limb in Hx. rewrite pow_B_S by lia. nia.
Qed.
Lemma series_shift l d n : 0 <= d → series (λ i, limb_at l (i - d)) n = B ^ d * series (limb_at l) (n - Z.to_nat d).
Proof.
  intros Hd. induction n as [|n IH]; [change (0 - Z.to_nat d)%nat with O; cbn [series]; lia|]. cbn [series]. rewrite IH. destruct (Z.lt_ge_cases (Z.of_nat n) d).
  - replace (S n - Z.to_nat d)%nat with O by lia. replace (n - Z.to_nat d)%nat with O by lia. cbn [series].
    unfold limb_at, aget. destruct (Z.ltb_spec (Z.of_nat n - d) 0); [|lia]. change (default 0 (@None Z)) with 0. lia.
  - replace (S n - Z.to_nat d)%nat with (S (n - Z.to_nat d)) by lia. cbn [series].
    replace (Z.of_nat (n - Z.to_nat d)) with (Z.of_nat n - d) by lia. rewrite Z.mul_add_distr_l, Z.mul_assoc, <- Z.pow_add_r by lia.
    by replace (d + (Z.of_nat n - d)) with (Z.of_nat n) by lia.
Qed.
Lemma get_limbz_spec a i : limbs (bf_tab a) → bf_len a < B / 2 → - (B / 2) <= i < B / 2 → get_limbz a i = Some (limb_at (bf_tab a) i).
Proof.
  intros Ht Hl Hi. destruct B_half as [HB _]. unfold get_limbz, bf_len in *. rewrite Z.geb_leb. pose proof (zlen_nonneg (bf_tab a)).
  destruct (Z.lt_ge_cases i 0) as [Hneg|Hpos].
  - assert (ulimb i = i + B) as -> by (unfold ulimb; symmetry; apply (Z.mod_unique _ _ (-1)); lia).
    destruct (Z.leb_spec (zlen (bf_tab a)) (i + B)); [|lia]. unfold limb_at, aget. by destruct (Z.ltb_spec i 0); [|lia].
  - rewrite ulimb_id by (unfold limb; lia). destruct (Z.leb_spec (zlen (bf_tab a)) i) as [Hge|Hlt]; [|by apply aget_limb_at].
    unfold limb_at, aget. destruct (Z.ltb_spec i 0); [done|]. by rewrite lookup_ge_None_2 by (unfold zlen in *; lia).
Qed.
Lemma cmpu_loop_spec n a b len :
  limbs (bf_tab a) → limbs (bf_tab b) → bf_len a <= len → bf_len b <= len → len < B / 2 → Z.of_nat n <= len →
  cmpu_loop n a b len = Some (sgn_of (series (λ i, limb_at (bf_tab a) (i - (len - bf_len a))) n ?=
                                      series (λ i, limb_at (bf_tab b) (i - (len - bf_len b))) n)).
Proof.
  intros La Lb Ha Hb Hl. destruct B_half as [HB _]. pose proof B_pos. pose proof (zlen_nonneg (bf_tab a)). pose proof (zlen_nonneg (bf_tab b)).
  unfold bf_len in *. induction n as [|n IH]; intros Hn; [done|]. cbn [cmpu_loop series]. unfold bf_len.
  rewrite !get_limbz_spec by (unfold bf_len; done || lia). cbn [mbind option_bind].
  replace (zlen (bf_tab a) - len + Z.of_nat n) with (Z.of_nat n - (len - zlen (bf_tab a))) by lia.
  replace (zlen (bf_tab b) - len + Z.of_nat n) with (Z.of_nat n - (len - zlen (bf_tab b))) by lia.
  set (f := λ i, limb_at (bf_tab a) (i - (len - zlen (bf_tab a)))) in *. set (g := λ i, limb_at (bf_tab b) (i - (len - zlen (bf_tab b)))) in *.
  change (limb_at (bf_tab a) (Z.of_nat n - (len - zlen (bf_tab a)))) with (f (Z.of_nat n)).
  change (limb_at (bf_tab b) (Z.of_nat n - (len - zlen (bf_tab b)))) with (g (Z.of_nat n)).
  pose proof (series_bound f n ltac:(intros; by apply limb_at_range)). pose proof (series_bound g n ltac:(intros; by apply limb_at_range)).
  pose proof (pow_B_pos (Z.of_nat n) ltac:(lia)). destruct (Z.eqb_spec (f (Z.of_nat n)) (g (Z.of_nat n))) as [->|Hne]; cbn [negb].
  - rewrite IH by lia. f_equal. f_equal. unfold bf_len. fold f g. destruct (Z.compare_spec (series f n) (series g n)); symmetry;
      [apply Z.compare_eq_iff|apply Z.compare_lt_iff|apply Z.compare_gt_iff]; lia.
  - f_equal. destruct (Z.ltb_spec (f (Z.of_nat n)) (g (Z.of_nat n))).
    + assert (series f n + B ^ Z.of_nat n * f (Z.of_nat n) < series g n + B ^ Z.of_nat n * g (Z.of_nat n)) as Hc%Z.compare_lt_iff by nia. by rewrite Hc.
    + assert (series g n + B ^ Z.of_nat n * g (Z.of_nat n) < series f n + B ^ Z.of_nat n * f (Z.of_nat n)) as Hc by nia.
      apply Z.compare_gt_iff in Hc. by rewrite Hc.
Qed.
Lemma mag_at r len : bf_len r <= len → (bf_mag r == dyad (val (bf_tab r) * B ^ (len - bf_len r)) (bf_expn r - LB * len))%Q.
Proof.
  intros Hl. pose proof LB_pos. rewrite pow_B, dyad_shift by nia. unfold bf_mag.
  by replace (bf_expn r - LB * len + LB * (len - bf_len r)) with (bf_expn r - LB * bf_len r) by ring.
Qed.
Lemma cmpu_same_expn a b len :
  limbs (bf_tab a) → limbs (bf_tab b) → len = Z.max (bf_len a) (bf_len b) → len < B / 2 → bf_expn a = bf_expn b →
  cmpu_loop (Z.to_nat len) a b len = Some (sgn_of (bf_mag a ?= bf_mag b)%Q).
Proof.
  intros La Lb -> Hl He. pose proof (zlen_nonneg (bf_tab a)). pose proof (zlen_nonneg (bf_tab b)).
  set (len := Z.max (bf_len a) (bf_len b)) in *. assert (bf_len a <= len ∧ bf_len b <= len ∧ 0 <= len) as (Ha & Hb & Hl0) by (unfold len, bf_len in *; lia).
  rewrite cmpu_loop_spec by (done || lia). f_equal. f_equal. rewrite (mag_at a len), (mag_at b len), He, dyad_compare by done.
  unfold bf_len in *. rewrite !series_shift by lia. replace (Z.to_nat len - Z.to_nat (len - zlen (bf_tab a)))%nat with (Z.to_nat (zlen (bf_tab a))) by lia.
  replace (Z.to_nat len - Z.to_nat (len - zlen (bf_tab b)))%nat with (Z.to_nat (zlen (bf_tab b))) by lia.
  rewrite !series_low by lia. unfold low. rewrite !ztake_all by lia. by rewrite !(Z.mul_comm (val _)).
Qed.
Lemma zero_or_normal_limbs a : bf_is_0 a ∨ bf_normal a → limbs (bf_tab a).
Proof. intros [[-> _]|Ha]; [constructor|apply Ha]. Qed.
Lemma bf_cmpu_spec a b :
  bf_is_0 a ∨ bf_normal a → bf_is_0 b ∨ bf_normal b → bf_len a < B / 2 → bf_len b < B / 2 →
  bf_cmpu a b = Some (sgn_of (bf_mag a ?= bf_mag b)%Q).
Proof.
  intros Ha Hb Hla Hlb. unfold bf_cmpu. assert (∀ x y, bf_is_0 x ∨ bf_normal x → bf_is_0 y ∨ bf_normal y → bf_expn x < bf_expn y → bf_normal y) as Hn.
  { intros x y Hx [[_ Ey]|Hy] Hlt; [|done]. destruct Hx as [[_ Ex]|Hx]; [lia|]. pose proof (nf_expn x Hx). lia. }
  destruct (Z.eqb_spec (bf_expn a) (bf_expn b)) as [He|Hne]; cbn [negb].
  - apply cmpu_same_expn; [by apply zero_or_normal_limbs..| | |done].
    + unfold bf_max. rewrite Z.gtb_ltb. destruct (Z.ltb_spec (bf_len b) (bf_len a)); lia.
    + unfold bf_max. rewrite Z.gtb_ltb. destruct (Z.ltb_spec (bf_len b) (bf_len a)); lia.
  - f_equal. destruct (Z.ltb_spec (bf_expn a) (bf_expn b)).
    + assert ((bf_mag a ?= bf_mag b)%Q = Lt) as ->; [|done]. apply Qlt_alt, mag_expn; [done|eauto..|done].
    + assert (bf_expn b < bf_expn a) as Hlt by lia. assert ((bf_mag a ?= bf_mag b)%Q = Gt) as ->; [|done].
      apply Qgt_alt, mag_expn; [done|eauto..|done].
Qed.
Lemma mag_nonneg a : bf_is_0 a ∨ bf_normal a → (0 <= bf_mag a)%Q.
Proof.
  intros Ha. unfold bf_mag. rewrite <- (dyad_0 (bf_expn a - LB * bf_len a)). apply dyad_le.
  pose proof (val_bounds _ (zero_or_normal_limbs a Ha)). lia.
Qed.
Lemma mag_pos a : bf_normal a → (0 < bf_mag a)%Q.
Proof.
  intros Ha. unfold bf_mag. rewrite <- (dyad_0 (bf_expn a - LB * bf_len a)). apply dyad_lt.
  pose proof (nf_high a Ha). pose proof (nf_len a Ha). pose proof LB_pos. pose proof (Z.pow_pos_nonneg 2 (LB * bf_len a - 1)). nia.
Qed.
Lemma finite_expn a : bf_finite a → bf_expn a ≠ BF_EXP_NAN ∧ (bf_expn a = BF_EXP_ZERO ↔ bf_is_0 a).
Proof.
  intros [_ Ha]. destruct B_half. unfold BF_EXP_NAN, BF_EXP_INF, BF_EXP_ZERO, BF_RAW_EXP_MAX, BF_RAW_EXP_MIN in *.
  assert (bf_is_0 a → bf_expn a = - (B / 2)) as Hz0 by (by intros [_ E]). destruct Ha as [Ha|Ha]; [rewrite (Hz0 Ha); split; [lia|done]|].
  pose proof (nf_expn a Ha) as He. unfold BF_EXP_INF, BF_EXP_ZERO, BF_RAW_EXP_MAX, BF_RAW_EXP_MIN in He. split; [lia|]. split; [lia|intros; by apply Hz0].
Qed.
Lemma sgn_of_opp x y : sgn_of (- x ?= - y)%Q = - sgn_of (x ?= y)%Q.
Proof.
  destruct (Qcompare_spec x y) as [E|Hl|Hl].
  - assert ((- x ?= - y)%Q = Eq) as ->; [|done]. apply Qeq_alt. by rewrite E.
  - assert ((- x ?= - y)%Q = Gt) as ->; [|done]. apply Qgt_alt. by apply Qopp_lt_compat.
  - assert ((- x ?= - y)%Q = Lt) as ->; [|done]. apply Qlt_alt. by apply Qopp_lt_compat.
Qed.
(** numbers of different signs that are not both zero *)
Lemma opp_order a b :
  bf_is_0 a ∨ bf_normal a → bf_is_0 b ∨ bf_normal b → ¬ (bf_is_0 a ∧ bf_is_0 b) → (- bf_mag a < bf_mag b)%Q.
Proof.
  intros Ha Hb Hab. assert (0 < bf_mag a + bf_mag b)%Q as Hs.
  { pose proof (mag_nonneg a Ha). pose proof (mag_nonneg b Hb). destruct Ha as [Ha|Ha].
    - destruct Hb as [Hb|Hb]; [by destruct Hab|]. pose proof (mag_pos b Hb). assert (bf_mag a + bf_mag b == bf_mag b)%Q as -> by (rewrite (zero_mag a Ha); ring). done.
    - pose proof (mag_pos a Ha). eapply Qlt_le_trans; [eassumption|]. rewrite <- (Qplus_0_r (bf_mag a)) at 1. by apply Qplus_le_r. }
  apply (Qplus_lt_r _ _ (bf_mag a)). by rewrite Qplus_opp_r.
Qed.
Lemma zero_Q a : bf_is_0 a → (bf_Q a == 0)%Q.
Proof. intros Ha. unfold bf_Q. destruct (_ =? _); rewrite (zero_mag a Ha); ring. Qed.
Lemma bf_cmp_spec a b :
  bf_finite a → bf_finite b → bf_len a < B / 2 → bf_len b < B / 2 → bf_cmp a b = Some (sgn_of (bf_Q a ?= bf_Q b)%Q).
Proof.
  intros Fa Fb Hla Hlb. destruct (finite_expn a Fa) as [Na Za], (finite_expn b Fb) as [Nb Zb]. destruct Fa as [Sa Ha], Fb as [Sb Hb].
  unfold bf_cmp. destruct (Z.eqb_spec (bf_expn a) BF_EXP_NAN), (Z.eqb_spec (bf_expn b) BF_EXP_NAN); try done. cbn [orb].
  destruct (Z.eqb_spec (bf_sign a) (bf_sign b)) as [Es|Es]; cbn [negb].
  - rewrite bf_cmpu_spec by done. cbn [mbind option_bind]. f_equal. unfold bf_Q. rewrite <- Es.
    destruct Sa as [-> | ->]; cbn [Z.eqb Pos.eqb negb]; [done|]. by rewrite sgn_of_opp.
  - destruct (decide (bf_expn a = BF_EXP_ZERO ∧ bf_expn b = BF_EXP_ZERO)) as [[Ea Eb]|Hne].
    + rewrite Ea, Eb, Z.eqb_refl. cbn [andb]. f_equal. apply Za in Ea. apply Zb in Eb. assert ((bf_Q a ?= bf_Q b)%Q = Eq) as ->; [|done].
      apply Qeq_alt. by rewrite !zero_Q.
    + assert ((bf_expn a =? BF_EXP_ZERO) && (bf_expn b =? BF_EXP_ZERO) = false) as -> by (apply andb_false_iff; rewrite !Z.eqb_neq; destruct (decide (bf_expn a = BF_EXP_ZERO)); tauto).
      assert (¬ (bf_is_0 a ∧ bf_is_0 b)) as Hab by tauto. f_equal. unfold bf_Q. destruct Sa as [Ea|Ea], Sb as [Eb|Eb]; rewrite Ea, Eb in *; try done; cbn [Z.eqb Pos.eqb].
      * assert ((bf_mag a ?= - bf_mag b)%Q = Gt) as ->; [|done]. apply Qgt_alt, opp_order; tauto.
      * assert ((- bf_mag a ?= bf_mag b)%Q = Lt) as ->; [|done]. apply Qlt_alt, opp_order; tauto.
Qed.
End Values.
