(* ===== verification/BigFloatSpec.v ===== *)
(** * The rounding function

    [ref_round] is the rounding of a number by its value: the precision, the
    integer that rounds the mantissa, and what underflow and overflow give.
    [__bf_round] implements it on limbs. *)
From Stdlib Require Import QArith Qpower.
From S2P Require Import Prelude Alloc Reliable Limb LimbOps BigFloat LimbBits BigFloatRound BigFloatValue.
Open Scope Z_scope.

(** [RFinite n x] is [n * 2 ^ x] *)
Inductive rounded := RZero | RInf | RFinite (n x : Z).

Section Reference.
Context {LS : LimbSize}.
Notation LB := (@LIMB_BITS LS).

(** the precision: after the point, of a subnormal number, or as given *)
Definition ref_prec (e prec1 flags e_min : Z) : Z :=
  if negb (flags .& BF_FLAG_RADPNT_PREC =? 0) then if prec1 =? BF_PREC_INF then prec1 else e + prec1
  else if (e <? e_min) && negb (flags .& BF_FLAG_SUBNORMAL =? 0) then prec1 - (e_min - e) else prec1.
(** does an overflow give an infinity, or the largest number *)
Definition ref_overflow (mode sgn prec1 e_max : Z) : rounded :=
  if (prec1 =? BF_PREC_INF) || (mode =? BF_RNDN) || (mode =? BF_RNDNA) || (mode =? BF_RNDA) ||
     ((mode =? BF_RNDD) && (sgn =? 1)) || ((mode =? BF_RNDU) && (sgn =? 0))
  then RInf else RFinite (2 ^ prec1 - 1) (e_max - prec1).
(** the number of sign [sgn] and mantissa [m] of [w] bits, [m * 2 ^ (e - w)] *)
Definition ref_round (sgn m w e prec1 flags : Z) : Z * rounded :=
  let e_max := 2 ^ (bf_get_exp_bits flags - 1) in
  let e_min := - e_max + 3 in
  let mode := flags .& BF_RND_MASK in
  let p := ref_prec e prec1 flags e_min in
  let s := Z.max 0 (w - p) in
  let n := round_quot mode sgn m (2 ^ s) in
  let inexact := (mode =? BF_RNDF) || negb (m mod 2 ^ s =? 0) in
  let x := e - w + s in
  let e' := x + Z.log2 n + 1 in
  let underflow := BF_ST_UNDERFLOW .| BF_ST_INEXACT in
  if n =? 0 then (underflow, RZero)
  else if p <=? 0 then (underflow, RFinite n x)
  else if (e' <? e_min) && (flags .& BF_FLAG_SUBNORMAL =? 0) then (underflow, RZero)
  else if e_max <? e' then (BF_ST_OVERFLOW .| BF_ST_INEXACT, ref_overflow mode sgn prec1 e_max)
  else (if inexact then if e' <? e_min then underflow else BF_ST_INEXACT else 0, RFinite n x).
(** the number that represents it *)
Definition is_result (sgn : Z) (o : rounded) (r : bf_t) : Prop :=
  bf_sign r = sgn ∧
  match o with
  | RZero => bf_is_0 r
  | RInf => bf_is_inf r
  | RFinite n x => bf_normal r ∧ (bf_mag r == dyad n x)%Q
  end.
End Reference.

Section Steps.
Context {LS : LimbSize} `{!Allocator, !Reliable}.
Notation LB := (@LIMB_BITS LS).

Lemma exp_range_spec flags :
  1 <= bf_get_exp_bits flags → exp_range flags = Some (2 ^ (bf_get_exp_bits flags - 1)) ∧ 1 <= 2 ^ (bf_get_exp_bits flags - 1) <= B / 8.
Proof.
  intros He. pose proof LB_pos. unfold exp_range. destruct (Z.ltb_spec (bf_get_exp_bits flags - 1) 0); [lia|]. rewrite Z.shiftl_1_l. split; [done|].
  assert (bf_get_exp_bits flags <= LB - 2) as Hb.
  { unfold bf_get_exp_bits, BF_EXP_BITS_MAX. destruct (_ =? _); [lia|]. assert (0 <= (flags >> BF_EXP_BITS_SHIFT) .& BF_EXP_BITS_MASK) by (apply Z.land_nonneg; by right). lia. }
  assert (B / 8 = 2 ^ (LB - 3)) as -> by (unfold B; change 8 with (2 ^ 3); rewrite Z.pow_sub_r by lia; done).
  split; [|apply Z.pow_le_mono_r; lia]. pose proof (Z.pow_pos_nonneg 2 (bf_get_exp_bits flags - 1)). lia.
Qed.
Lemma PREC_INF_eighth : BF_PREC_INF = 2 * (B / 8) - 1.
Proof. unfold BF_PREC_INF, BF_PREC_MAX, B. destruct LIMB_BITS_cases as [-> | ->]; by vm_compute. Qed.
Lemma round_prec_spec e prec1 flags e_min :
  - (2 * (B / 8)) <= e <= B / 8 → 0 <= prec1 <= BF_PREC_INF → - (B / 8) <= e_min <= 2 →
  (prec1 = BF_PREC_INF → flags .& BF_FLAG_SUBNORMAL = 0) →
  round_prec e prec1 flags e_min = Some (ref_prec e prec1 flags e_min) ∧
  - (2 * (B / 8)) - 8 <= ref_prec e prec1 flags e_min <= 3 * (B / 8).
Proof.
  intros He Hp Hm Hsub. destruct B_eighth as (HB & HB2 & HB3). pose proof PREC_INF_eighth. unfold round_prec, ref_prec.
  destruct (flags .& BF_FLAG_RADPNT_PREC =? 0); cbn [negb].
  - destruct (Z.ltb_spec e e_min); cbn [andb]; [|rewrite slimb_id by lia; split; [done|lia]].
    destruct (Z.eqb_spec (flags .& BF_FLAG_SUBNORMAL) 0) as [Hf|Hf]; cbn [negb]; [rewrite slimb_id by lia; split; [done|lia]|].
    destruct (Z.eqb_spec prec1 BF_PREC_INF) as [Hi|Hi]; [by destruct (Hf (Hsub Hi))|].
    rewrite sword_id by lia. cbn [mbind option_bind]. rewrite slimb_id by lia. split; [done|lia].
  - destruct (Z.eqb_spec prec1 BF_PREC_INF) as [Hi|Hi]; cbn [negb]; rewrite slimb_id by lia; (split; [done|lia]).
Qed.

(** the mantissa after the addition *)
Lemma round_up_spec r l p (add : bool) :
  limbs (bf_tab r) → 0 < l <= bf_len r → LB * l <= B / 8 → 1 <= p → (add = true → p < LB * l) →
  2 ^ (LB * l - 1) <= low l (bf_tab r) → - (B / 2) <= bf_expn r < B / 2 - 1 →
  let s := Z.max 0 (LB * l - p) in let n := low l (bf_tab r) / 2 ^ s + b2z add in let x := bf_expn r - LB * l + s in
  ∃ r1, (if add then round_add_one r l p else Some r) = Some r1 ∧ bf_sign r1 = bf_sign r ∧ bf_len r1 = bf_len r ∧ limbs (bf_tab r1) ∧
    2 ^ (LB * l - 1) <= low l (bf_tab r1) ∧ bf_expn r <= bf_expn r1 <= bf_expn r + 1 ∧ bf_expn r1 = x + Z.log2 n + 1 ∧ 0 < n ∧
    (dyad (low l (bf_tab r1) / 2 ^ s) (bf_expn r1 - LB * l + s) == dyad n x)%Q.
Proof.
  intros Ht Hl HL Hp Hadd HM He s n x. pose proof LB_pos. set (m := low l (bf_tab r)) in *.
  pose proof (low_nonneg l (bf_tab r) Ht ltac:(unfold bf_len in *; lia)) as Hm. fold m in Hm. rewrite pow_B in Hm by lia.
  assert (0 <= s <= LB * l - 1) as Hs by (unfold s; nia). assert (0 < 2 ^ s) as Hps by (apply Z.pow_pos_nonneg; lia).
  assert (2 ^ (LB * l - 1) = 2 ^ (LB * l - 1 - s) * 2 ^ s) as Eh by (rewrite <- Z.pow_add_r by lia; f_equal; lia).
  assert (2 ^ (LB * l) = 2 ^ (LB * l - s) * 2 ^ s) as Ew by (rewrite <- Z.pow_add_r by lia; f_equal; lia).
  assert (2 ^ (LB * l - 1 - s) <= m / 2 ^ s) as Hq1 by (apply Z.div_le_lower_bound; lia).
  assert (m / 2 ^ s < 2 ^ (LB * l - s)) as Hq2 by (apply Z.div_lt_upper_bound; lia).
  assert (0 < 2 ^ (LB * l - 1 - s)) as Hph by (apply Z.pow_pos_nonneg; lia).
  assert (∀ k, 2 ^ (LB * l - 1 - s) <= k < 2 ^ (LB * l - s) → Z.log2 k = LB * l - 1 - s) as Hlog.
  { intros k Hk. apply Z.log2_unique; [lia|]. replace (Z.succ (LB * l - 1 - s)) with (LB * l - s) by lia. done. }
  destruct add; cbn [b2z] in n; [|exists r; unfold n; rewrite Z.add_0_r, Hlog by lia; repeat split; try done; lia].
  specialize (Hadd eq_refl). assert (s = LB * l - p) as Es by (unfold s; lia).
  destruct (round_add_one_spec r l p m Ht Hl eq_refl HL ltac:(lia) He) as (r1 & E & Esg & Elen & Lt & Hr). rewrite <- Es in Hr.
  exists r1. split; [done|]. split; [done|]. split; [done|]. split; [done|]. fold n in Hr.
  replace (LB * l - s) with p in * by lia. replace (LB * l - 1 - s) with (p - 1) in * by lia.
  assert (2 ^ (LB * l - 1) <= low l (bf_tab r1)) as Hm1.
  { rewrite Eh. etransitivity; [|apply (Z.mul_div_le _ (2 ^ s) Hps)]. rewrite Z.mul_comm. apply Z.mul_le_mono_nonneg_l; [lia|].
    destruct (Z.eqb_spec n (2 ^ p)); destruct Hr as [_ ->]; lia. }
  split; [done|]. destruct (Z.eqb_spec n (2 ^ p)) as [En|En]; destruct Hr as [-> ->].
  - rewrite En, Z.log2_pow2 by lia. split; [lia|]. split; [unfold x; lia|]. split; [lia|].
    assert (2 ^ p = 2 ^ (p - 1) * 2 ^ 1) as -> by (rewrite <- Z.pow_add_r by lia; f_equal; lia).
    rewrite dyad_shift by lia. by replace (bf_expn r + 1 - LB * l + s) with (x + 1) by (unfold x; lia).
  - rewrite (Hlog n) by lia. split; [lia|]. split; [unfold x; lia|]. split; [lia|done].
Qed.
(** the number that the cut leaves *)
Lemma cut_normal sg e l M s t :
  is_cut l M s t → 2 ^ (LB * l - 1) <= M → 0 <= s <= LB * l - 1 → BF_EXP_ZERO < e < BF_EXP_INF →
  bf_normal (mk_bf sg e t) ∧ (bf_mag (mk_bf sg e t) == dyad (M / 2 ^ s) (e - LB * l + s))%Q.
Proof.
  intros (Lt & Hlen & Hz0 & Hv) HM Hs He. pose proof LB_pos. rewrite pow_B in Hv by lia.
  assert (0 < 2 ^ s) as Hps by (apply Z.pow_pos_nonneg; lia).
  assert (2 ^ (LB * l - 1) = 2 ^ (LB * l - 1 - s) * 2 ^ s) as Eh by (rewrite <- Z.pow_add_r by lia; f_equal; lia).
  assert (2 ^ (LB * l - 1 - s) <= M / 2 ^ s) as Hq1 by (apply Z.div_le_lower_bound; lia).
  split; [split; unfold bf_len; cbn [bf_tab bf_expn]; [done|lia|done| |done]|].
  - assert (0 < 2 ^ (LB * (l - zlen t))) as Hpz by (apply Z.pow_pos_nonneg; nia). apply (Z.mul_le_mono_pos_r _ _ _ Hpz).
    rewrite Hv, <- Z.pow_add_r by nia. replace (LB * zlen t - 1 + LB * (l - zlen t)) with (LB * l - 1) by ring. rewrite Eh. nia.
  - unfold bf_mag, bf_len. cbn [bf_tab bf_expn]. rewrite <- dyad_shift, <- Hv, dyad_shift by nia.
    by replace (e - LB * l + LB * (l - zlen t)) with (e - LB * zlen t) by ring.
Qed.
Lemma aset_split (t : list Z) j v : 0 <= j < zlen t → aset t j v = Some (ztake j t ++ v :: zdrop (j + 1) t).
Proof. intros Hj. rewrite <- (ztake_zdrop (j + 1) t) at 1. by apply aset_ztake. Qed.
Lemma limb_mask_from k : 0 <= k < LB → limb_mask k (LB - 1) = B - 2 ^ k.
Proof.
  intros Hk. pose proof B_pos. unfold limb_mask. replace (LB - 1 - k + 1) with (LB - k) by lia. destruct (Z.eqb_spec (LB - k) LB) as [E|Hne].
  - assert (k = 0) as -> by lia. unfold ulimb. symmetry. apply (Z.mod_unique _ _ (-1)); [left|]; change (2 ^ 0) with 1; lia.
  - assert (0 < 2 ^ k) as Hp by (apply Z.pow_pos_nonneg; lia). assert (0 < 2 ^ (LB - k)) as Hp2 by (apply Z.pow_pos_nonneg; lia).
    assert (B = 2 ^ (LB - k) * 2 ^ k) as HB by (unfold B; rewrite <- Z.pow_add_r by lia; f_equal; lia).
    assert (2 ^ (LB - k) < B) as HpB by (apply Z.pow_lt_mono_r; lia).
    rewrite Z.shiftl_1_l. unfold ulimb. rewrite (Z.mod_small (2 ^ (LB - k))), Z.shiftl_mul_pow2 by lia.
    rewrite Z.mod_small by nia. lia.
Qed.
(** [for(i = 1; i < l; i++) r->tab[i] = -1;] *)
Lemma fill_ones l k t0 :
  limbs t0 → zlen t0 = l → 1 <= l → 0 <= k < LB → limb_at t0 0 = B - 2 ^ k →
  ∃ t, for_up (Z.to_nat (l - 1)) (λ i t, aset t i (ulimb (-1))) 1 t0 = Some t ∧
    limbs t ∧ zlen t = l ∧ limb_at t 0 = B - 2 ^ k ∧ val t = B ^ l - 2 ^ k.
Proof.
  intros Lt Hz Hl Hk H00. pose proof B_pos. assert (ulimb (-1) = B - 1) as -> by (unfold ulimb; symmetry; apply (Z.mod_unique _ _ (-1)); [left|]; lia).
  destruct (for_up_inv (λ j t, limbs t ∧ zlen t = l ∧ limb_at t 0 = B - 2 ^ k ∧ 1 <= j ∧ low j t = B ^ j - 2 ^ k)
    (Z.to_nat (l - 1)) (λ i t, aset t i (B - 1)) 1 t0) as (t & E & Hlt & Hzt & H0t & _ & Hv).
  - intros j t Hj (Hlt & Hzt & H0t & Hj1 & Hv). rewrite aset_split by lia. eexists. split; [reflexivity|].
    assert (zlen (ztake j t) = j) as Hzj by (apply zlen_ztake; lia).
    split; [apply limbs_app; split; [by apply limbs_ztake|]; constructor; [unfold limb; lia|by apply limbs_zdrop]|].
    split; [rewrite zlen_app, zlen_cons, zlen_zdrop by lia; lia|]. split; [|split; [lia|]].
    + unfold limb_at in *. rewrite aget_app_l by lia. rewrite <- H0t. f_equal. unfold aget, ztake. cbn [Z.ltb Z.compare]. by rewrite lookup_take_lt by lia.
    + change (ztake j t ++ B - 1 :: zdrop (j + 1) t) with (ztake j t ++ [B - 1] ++ zdrop (j + 1) t). rewrite app_assoc. unfold low.
      assert (zlen (ztake j t ++ [B - 1]) = j + 1) as Hz1 by (rewrite zlen_app, Hzj; done).
      destruct (zlen_at_least _ _ Hz1 (zdrop (j + 1) t)) as [-> _]. rewrite val_snoc, Hzj. fold (low j t). rewrite Hv, pow_B_S by lia. ring.
  - split; [done|]. split; [done|]. split; [done|]. split; [lia|]. rewrite Z.pow_1_r. unfold low. change 1 with (0 + 1).
    rewrite val_ztake_S by lia. rewrite H00. change (ztake 0 t0) with (@nil Z). cbn [val]. lia.
  - exists t. split; [done|]. split; [done|]. split; [done|]. split; [done|].
    replace (1 + Z.of_nat (Z.to_nat (l - 1))) with l in Hv by lia. unfold low in Hv. by rewrite ztake_all in Hv by lia.
Qed.
Lemma wp_resize_0 r : wp (bf_resize r 0) (λ x, x = (0, set_tab r [])).
Proof. apply (wp_bf_shrink r 0). unfold bf_len. pose proof (zlen_nonneg (bf_tab r)). lia. Qed.
Lemma wp_set_inf r sg : wp (bf_set_inf r sg) (λ r', r' = mk_bf sg BF_EXP_INF []).
Proof. eapply wp_bind; [apply wp_resize_0|]. intros ? ->. by apply wp_ret. Qed.
Lemma wp_set_zero r sg : wp (bf_set_zero r sg) (λ r', r' = mk_bf sg BF_EXP_ZERO []).
Proof. eapply wp_bind; [apply wp_resize_0|]. intros ? ->. by apply wp_ret. Qed.
Lemma wp_set_nan r : wp (bf_set_nan r) (λ r', r' = mk_bf 0 BF_EXP_NAN []).
Proof. eapply wp_bind; [apply wp_resize_0|]. intros ? ->. by apply wp_ret. Qed.
(** [ceil(prec / LIMB_BITS)] limbs *)
Lemma ceil_limbs prec :
  1 <= prec <= BF_PREC_INF → let l := ulimb (prec + LB - 1) / LB in let k := ulimb (- prec) .& (LB - 1) in
  1 <= l ∧ 0 <= k < LB ∧ LB * l = prec + k.
Proof.
  intros Hp l k. pose proof LB_pos. pose proof PREC_INF_eighth. destruct B_eighth as (HB & HB2 & HB3).
  assert (LB <= 64) by (destruct LIMB_BITS_cases as [-> | ->]; lia). assert (0 < LB) as HLBp by lia.
  unfold l, k. rewrite ulimb_id by (unfold limb; lia). rewrite land_log2.
  assert (ulimb (- prec) mod LB = (- prec) mod LB) as ->.
  { unfold ulimb. assert (B = LB * (B / LB)) as EB by (unfold B; destruct LIMB_BITS_cases as [-> | ->]; vm_compute; done).
    assert (0 < B / LB) by (apply Z.div_str_pos; lia). rewrite EB, Z.rem_mul_r by lia. rewrite Z.mul_comm, Z.mod_add, Z.mod_mod by lia. done. }
  assert (LB ≠ 0) as HLB0 by lia. pose proof (Z.div_mod (prec + LB - 1) LB HLB0) as E. pose proof (Z.mod_pos_bound (prec + LB - 1) LB HLBp) as Hb.
  set (c := (prec + LB - 1) / LB) in *. assert ((- prec) mod LB = LB * c - prec) as -> by (symmetry; apply (Z.mod_unique _ _ (- c)); [left|]; lia).
  split; [nia|]. lia.
Qed.
Lemma bf_set_overflow_spec r sg prec flags :
  limbs (bf_tab r) → 1 <= prec <= BF_PREC_INF → 1 <= bf_get_exp_bits flags →
  wp (bf_set_overflow r sg prec flags) (λ '(st, r'), st = BF_ST_OVERFLOW .| BF_ST_INEXACT ∧
    is_result sg (ref_overflow (flags .& BF_RND_MASK) sg prec (2 ^ (bf_get_exp_bits flags - 1))) r').
Proof.
  intros Lt Hp He. destruct (exp_range_spec flags He) as [Er Hr]. pose proof LB_pos. pose proof B_pos. destruct B_eighth as (HB & HB2 & HB3).
  unfold bf_set_overflow, ref_overflow. destruct (_ || _).
  { eapply wp_bind; [apply wp_set_inf|]. intros ? ->. by apply wp_ret. }
  destruct (ceil_limbs prec Hp) as (Hl & Hk & E). set (l := ulimb (prec + LB - 1) / LB) in *. set (k := ulimb (- prec) .& (LB - 1)) in *.
  eapply wp_bind; [apply wp_bf_resize; lia|]. intros ? (g & -> & Lg & Hg). cbn [Z.eqb negb bf_tab set_tab].
  set (t0 := ztake l (bf_tab r) ++ g). assert (zlen t0 = l) as Hz0.
  { unfold t0, bf_len in *. rewrite zlen_app, Hg. pose proof (zlen_nonneg (bf_tab r)). destruct (Z.le_gt_cases l (zlen (bf_tab r))).
    - rewrite zlen_ztake by lia. lia.
    - rewrite ztake_all by lia. lia. }
  assert (limbs t0) as Lt0 by (apply limbs_app; split; [by apply limbs_ztake|done]).
  assert (0 < 2 ^ k) as Hpk by (apply Z.pow_pos_nonneg; lia). assert (2 ^ k < B) as HkB by (apply Z.pow_lt_mono_r; lia).
  rewrite limb_mask_from by done. eapply wp_bind_lift; [apply aset_split; lia|].
  change (ztake 0 t0 ++ B - 2 ^ k :: zdrop (0 + 1) t0) with (B - 2 ^ k :: zdrop 1 t0).
  destruct (fill_ones l k (B - 2 ^ k :: zdrop 1 t0)) as (t & Ef & Ltt & Hzt & H0t & Hv); [..|done| |].
  - constructor; [unfold limb; lia|by apply limbs_zdrop].
  - rewrite zlen_cons, zlen_zdrop by lia. lia.
  - lia.
  - done.
  - eapply wp_bind_lift; [exact Ef|]. eapply wp_bind_lift; [exact Er|]. apply wp_ret. split; [done|]. split; [done|].
    assert (B ^ l - 2 ^ k = (2 ^ prec - 1) * 2 ^ k) as Ev by (rewrite pow_B, E, Z.pow_add_r by lia; ring).
    split; [split; unfold bf_len; cbn [bf_tab bf_expn]|].
    + done.
    + lia.
    + rewrite H0t. lia.
    + rewrite Hv, Hzt, pow_B by lia. assert (2 ^ (LB * l) = 2 * 2 ^ (LB * l - 1)) as -> by (rewrite <- Z.pow_succ_r by lia; f_equal; lia).
      assert (2 ^ k <= 2 ^ (LB * l - 1)) by (apply Z.pow_le_mono_r; lia). lia.
    + unfold BF_EXP_ZERO, BF_EXP_INF, BF_RAW_EXP_MIN, BF_RAW_EXP_MAX. lia.
    + unfold bf_mag, bf_len. cbn [bf_tab bf_expn]. rewrite Hv, Ev, Hzt, dyad_shift by lia.
      match goal with |- (dyad _ ?a == dyad _ ?b)%Q => by replace a with b by lia end.
Qed.
(** ** The whole function *)
(** what a call of [__bf_round] relies on *)
Record round_ready (r : bf_t) (l prec1 flags : Z) : Prop := {
  rr_limbs : limbs (bf_tab r);
  rr_len : 0 < l <= bf_len r;
  rr_size : LB * l <= B / 8;
  rr_high : 2 ^ (LB * l - 1) <= low l (bf_tab r);
  rr_sign : bf_sign r = 0 ∨ bf_sign r = 1;
  rr_expn : - (2 * (B / 8)) <= bf_expn r <= B / 8;
  rr_mode : rounding_mode (flags .& BF_RND_MASK);
  rr_bits : 1 <= bf_get_exp_bits flags;
  rr_prec : 0 <= prec1 <= BF_PREC_INF;
  rr_subnormal : prec1 = BF_PREC_INF → flags .& BF_FLAG_SUBNORMAL = 0;
  rr_overflow : prec1 = 0 → bf_expn r < 2 ^ (bf_get_exp_bits flags - 1)
}.
Lemma round_incr_exact mode sgn m : round_incr mode sgn m 1 = false.
Proof. unfold round_incr. rewrite Z.mod_1_r, Z.mul_0_r, Z.eqb_refl. cbn [negb]. rewrite !andb_false_r. by repeat destruct (mode =? _). Qed.
Lemma round_tiny r p (add inexact : bool) :
  limbs (bf_tab r) → 0 < bf_len r → - (2 * (B / 8)) <= bf_expn r <= B / 8 → - (2 * (B / 8)) - 8 <= p <= 0 →
  let ret := if inexact then 0 .| BF_ST_INEXACT else 0 in
  wp (if add then
        '(_, r) ← bf_resize r 1;
        t ← lift (aset (bf_tab r) 0 (1 << (LB - 1)));
        e ← lift (d ← sword (1 - p); sword (bf_expn r + d));
        mret (ret .| (BF_ST_UNDERFLOW .| BF_ST_INEXACT), mk_bf (bf_sign r) e t)
      else bf_underflow r ret)
     (λ '(st, r'), st = BF_ST_UNDERFLOW .| BF_ST_INEXACT ∧ is_result (bf_sign r) (if add then RFinite 1 (bf_expn r - p) else RZero) r').
Proof.
  intros Lt Hl He Hp ret. assert (ret .| (BF_ST_UNDERFLOW .| BF_ST_INEXACT) = BF_ST_UNDERFLOW .| BF_ST_INEXACT) as Hret by (unfold ret; by destruct inexact).
  pose proof LB_pos. pose proof B_pos. destruct B_eighth as (HB & HB2 & HB3). destruct add.
  - eapply wp_bind; [apply wp_bf_shrink; lia|]. intros ? ->. cbn [bf_tab bf_sign bf_expn set_tab].
    assert (zlen (ztake 1 (bf_tab r)) = 1) as Hz by (apply zlen_ztake; unfold bf_len in *; lia).
    eapply wp_bind_lift; [apply aset_split; lia|]. change (ztake 0 (ztake 1 (bf_tab r))) with (@nil Z).
    rewrite (zdrop_all _ (0 + 1)) by lia. cbn [app]. rewrite (sword_id (1 - p)) by lia. cbn [mbind option_bind].
    rewrite sword_id by lia. eapply wp_bind_lift; [reflexivity|]. apply wp_ret. split; [done|]. split; [done|]. rewrite Z.shiftl_1_l.
    assert (0 < 2 ^ (LB - 1)) as Hph by (apply Z.pow_pos_nonneg; lia). assert (2 ^ (LB - 1) < B) as HhB by (apply Z.pow_lt_mono_r; lia).
    split; [split; unfold bf_len; cbn [bf_tab bf_expn]; change (zlen [2 ^ (LB - 1)]) with 1|].
    + constructor; [unfold limb; lia|constructor].
    + lia.
    + change (limb_at [2 ^ (LB - 1)] 0) with (2 ^ (LB - 1)). lia.
    + cbn [val]. rewrite Z.mul_1_r. lia.
    + unfold BF_EXP_ZERO, BF_EXP_INF, BF_RAW_EXP_MIN, BF_RAW_EXP_MAX. lia.
    + unfold bf_mag, bf_len. cbn [bf_tab bf_expn val]. change (zlen [2 ^ (LB - 1)]) with 1. rewrite Z.mul_0_r, Z.add_0_r, <- (Z.mul_1_l (2 ^ (LB - 1))), dyad_shift by lia.
      match goal with |- (dyad _ ?a == dyad _ ?b)%Q => by replace a with b by lia end.
  - eapply wp_bind; [apply wp_set_zero|]. intros ? ->. by apply wp_ret.
Qed.
Lemma round_finish_spec r prec1 flags l p (inexact : bool) :
  limbs (bf_tab r) → 0 < l <= bf_len r → LB * l <= B / 8 → 1 <= p <= 3 * (B / 8) → 2 ^ (LB * l - 1) <= low l (bf_tab r) →
  - (2 * (B / 8)) <= bf_expn r <= B / 8 + 1 → 0 <= prec1 <= BF_PREC_INF → 1 <= bf_get_exp_bits flags →
  (prec1 = 0 → bf_expn r <= 2 ^ (bf_get_exp_bits flags - 1)) →
  let e_max := 2 ^ (bf_get_exp_bits flags - 1) in let e_min := - e_max + 3 in let s := Z.max 0 (LB * l - p) in
  wp (round_finish r prec1 flags l p (if inexact then 0 .| BF_ST_INEXACT else 0) e_min e_max) (λ '(st, r'),
    (if (bf_expn r <? e_min) && (flags .& BF_FLAG_SUBNORMAL =? 0) then st = BF_ST_UNDERFLOW .| BF_ST_INEXACT ∧ is_result (bf_sign r) RZero r'
     else if e_max <? bf_expn r then
       st = BF_ST_OVERFLOW .| BF_ST_INEXACT ∧ is_result (bf_sign r) (ref_overflow (flags .& BF_RND_MASK) (bf_sign r) prec1 e_max) r'
     else st = (if inexact then if bf_expn r <? e_min then BF_ST_UNDERFLOW .| BF_ST_INEXACT else BF_ST_INEXACT else 0) ∧
       bf_sign r' = bf_sign r ∧ bf_normal r' ∧ (bf_mag r' == dyad (low l (bf_tab r) / 2 ^ s) (bf_expn r - LB * l + s))%Q)).
Proof.
  intros Lt Hl HL Hp HM He Hp1 Hb Hov e_max e_min s. pose proof LB_pos. destruct B_eighth as (HB & HB2 & HB3). unfold round_finish.
  destruct ((bf_expn r <? e_min) && _) eqn:Eu.
  { eapply wp_bind; [apply wp_set_zero|]. intros ? ->. apply wp_ret. split; [by destruct inexact|]. done. }
  rewrite Z.gtb_ltb. destruct (Z.ltb_spec e_max (bf_expn r)) as [Hof|Hof].
  - eapply wp_mono; [apply bf_set_overflow_spec; [done| |done]|]; [|by intros []]. destruct (Z.eq_dec prec1 0) as [E0|]; [specialize (Hov E0); unfold e_max in Hof; lia|lia].
  - eapply wp_bind; [by apply round_cut_spec|]. intros ? (t & -> & Hcut). apply wp_ret. split.
    { destruct inexact, (bf_expn r <? e_min); done. }
    fold s in Hcut. destruct (cut_normal (bf_sign r) (bf_expn r) l _ s t Hcut HM) as [Hn Hmag].
    + unfold s. nia.
    + unfold BF_EXP_ZERO, BF_EXP_INF, BF_RAW_EXP_MIN, BF_RAW_EXP_MAX. lia.
    + split; [done|]. split; [exact Hn|exact Hmag].
Qed.
Lemma __bf_round_spec r l prec1 flags :
  round_ready r l prec1 flags →
  wp (__bf_round r prec1 flags l 0) (λ '(st, r'), ∃ o,
    ref_round (bf_sign r) (low l (bf_tab r)) (LB * l) (bf_expn r) prec1 flags = (st, o) ∧ is_result (bf_sign r) o r').
Proof.
  intros [Lt Hl HL HM Hsg He Hmode Hb Hp1 Hsub Hov]. pose proof LB_pos. destruct B_eighth as (HB & HB2 & HB3).
  destruct (exp_range_spec flags Hb) as [Er Hr]. unfold __bf_round, ref_round. eapply wp_bind_lift; [exact Er|].
  set (e_max := 2 ^ (bf_get_exp_bits flags - 1)) in *. set (e_min := - e_max + 3).
  destruct (round_prec_spec (bf_expn r) prec1 flags e_min He Hp1 ltac:(unfold e_min; lia) Hsub) as [Ep Hp].
  eapply wp_bind_lift; [exact Ep|]. set (p := ref_prec (bf_expn r) prec1 flags e_min) in *. set (m := low l (bf_tab r)) in *.
  assert (0 < 2 ^ (LB * l - 1)) as Hph by (apply Z.pow_pos_nonneg; lia).
  eapply wp_bind_lift; [apply (bf_get_rnd_add_spec r l p _ m); try done; [lia|split; lia]|].
  set (s := Z.max 0 (LB * l - p)) in *. unfold round_quot. set (mode := flags .& BF_RND_MASK) in *.
  set (add := round_incr mode (bf_sign r) m (2 ^ s)). set (inexact := (mode =? BF_RNDF) || negb (m mod 2 ^ s =? 0)).
  destruct (Z.leb_spec p 0) as [Hp0|Hp0].
  - eapply wp_mono; [apply (round_tiny r p add inexact); try done; lia|]. intros [st r'] [-> Hres].
    pose proof (low_nonneg l (bf_tab r) Lt ltac:(unfold bf_len in *; lia)) as Hm. fold m in Hm. rewrite pow_B in Hm by lia.
    assert (2 ^ (LB * l) <= 2 ^ s) by (apply Z.pow_le_mono_r; unfold s; lia). rewrite (Z.div_small m) by lia. rewrite Z.add_0_l.
    destruct add; cbn [b2z Z.eqb] in *; eexists; (split; [reflexivity|]); [|done].
    replace (bf_expn r - LB * l + s) with (bf_expn r - p) by (unfold s; nia). done.
  - destruct (round_up_spec r l p add Lt Hl HL ltac:(lia)) as (r1 & E & Esg & Elen & Lt1 & HM1 & He1 & Hexp & Hn & Hmag); [|done|lia|].
    { intros Ha. destruct (Z.lt_ge_cases p (LB * l)); [done|]. assert (s = 0) as Es by (unfold s; lia). unfold add in Ha. rewrite Es in Ha.
      change (2 ^ 0) with 1 in Ha. by rewrite round_incr_exact in Ha. }
    fold m s in Hexp, Hn, Hmag. eapply wp_bind_lift; [exact E|]. clear E.
    set (n := m / 2 ^ s + b2z add) in *. destruct (Z.eqb_spec n 0); [lia|]. rewrite <- Hexp, <- Esg.
    eapply wp_mono; [apply round_finish_spec; try done; try lia; rewrite ?Elen; lia|]. fold e_max e_min s. intros [st r'] Hres. rewrite Esg in *.
    destruct ((bf_expn r1 <? e_min) && _); [destruct Hres as [-> Hres]; eauto|]. destruct (e_max <? bf_expn r1); [destruct Hres as [-> Hres]; eauto|].
    destruct Hres as (-> & Hs & Hnf & Hv). eexists. split; [reflexivity|]. split; [done|]. split; [done|]. by rewrite Hv.
Qed.
End Steps.
