(* ===== verification/BigFloatOps.v ===== *)
(** * Rounded operations

    Normalization, [bf_round] and [bf_mul] give the correct rounding of the
    exact result; what they store is again in normal form. *)
From Stdlib Require Import QArith Qpower.
From S2P Require Import Prelude Alloc Reliable Limb LimbOps BigFloat LimbBits BigFloatRound BigFloatValue BigFloatSpec.
Open Scope Z_scope.

Section Operations.
Context {LS : LimbSize} `{!Allocator, !Reliable}.
Notation LB := (@LIMB_BITS LS).

(** [r] and the flags [st] are the rounding of the number of sign [sgn] and magnitude [x] *)
Definition rounds_to (sgn : Z) (x : Q) (prec flags st : Z) (r : bf_t) : Prop :=
  ∃ m w e o, 2 ^ (w - 1) <= m < 2 ^ w ∧ 0 < w ∧ (x == dyad m (e - w))%Q ∧
    ref_round sgn m w e prec flags = (st, o) ∧ is_result sgn o r.
(** the modes, precisions and exponent sizes that make sense *)
Record good_params (prec flags : Z) : Prop := {
  gp_mode : rounding_mode (flags .& BF_RND_MASK);
  gp_bits : 1 <= bf_get_exp_bits flags;
  gp_prec : 1 <= prec <= BF_PREC_INF;
  gp_subnormal : prec = BF_PREC_INF → flags .& BF_FLAG_SUBNORMAL = 0
}.

Lemma low_all l : low (zlen l) l = val l.
Proof. unfold low. by rewrite ztake_all. Qed.
Lemma bf_round_cases r prec flags :
  bf_normal r → bf_sign r = 0 ∨ bf_sign r = 1 → LB * bf_len r <= B / 8 → - (B / 8) <= bf_expn r <= B / 8 → good_params prec flags →
  wp (bf_round r prec flags) (λ '(st, r'), ∃ o,
    ref_round (bf_sign r) (val (bf_tab r)) (LB * bf_len r) (bf_expn r) prec flags = (st, o) ∧ is_result (bf_sign r) o r').
Proof.
  intros Hr Hsg HL He [Gm Gb Gp Gs]. unfold bf_round. pose proof (nf_len r Hr). destruct (Z.eqb_spec (bf_len r) 0); [lia|].
  rewrite <- low_all. destruct B_eighth as (HB & HB2 & HB3). apply __bf_round_spec. split; try done; try lia; [apply Hr|].
  unfold bf_len. rewrite low_all. apply Hr.
Qed.

(** ** Normalization *)
Lemma top_limb_spec n tab :
  limbs tab → Z.of_nat n <= zlen tab →
  ∃ l, top_limb n tab = Some l ∧ 0 <= l <= Z.of_nat n ∧ low (Z.of_nat n) tab = low l tab ∧ (0 < l → limb_at tab (l - 1) ≠ 0).
Proof.
  intros Ht. induction n as [|n IH]; intros Hn; [exists 0; repeat split; lia|]. cbn [top_limb]. rewrite aget_limb_at by lia. cbn [mbind option_bind].
  destruct (Z.eqb_spec (limb_at tab (Z.of_nat n)) 0) as [E|Hne].
  - destruct (IH ltac:(lia)) as (l & El & Hl & Hv & Hnz). exists l. split; [done|]. split; [lia|]. split; [|done].
    rewrite <- Hv. replace (Z.of_nat (S n)) with (Z.of_nat n + 1) by lia. unfold low. rewrite val_ztake_S by lia. rewrite E. lia.
  - exists (Z.of_nat (S n)). split; [done|]. split; [lia|]. split; [done|]. intros _. by replace (Z.of_nat (S n) - 1) with (Z.of_nat n) by lia.
Qed.
Lemma clz_spec a : limb a → a ≠ 0 → 0 <= clz a < LB ∧ 2 ^ (LB - 1) <= a * 2 ^ clz a < B.
Proof.
  intros Ha Hne. unfold limb in Ha. unfold clz. destruct (Z.eqb_spec a 0); [done|].
  destruct (Z.log2_spec a ltac:(lia)) as [H1 H2]. assert (Z.log2 a < LB) as H3 by (apply Z.log2_lt_pow2; unfold B in *; lia).
  pose proof (Z.log2_nonneg a). split; [lia|]. assert (0 < 2 ^ (LB - 1 - Z.log2 a)) as Hp by (apply Z.pow_pos_nonneg; lia).
  assert (2 ^ (LB - 1) = 2 ^ Z.log2 a * 2 ^ (LB - 1 - Z.log2 a)) as -> by (rewrite <- Z.pow_add_r by lia; f_equal; lia).
  assert (B = 2 ^ Z.succ (Z.log2 a) * 2 ^ (LB - 1 - Z.log2 a)) as -> by (unfold B; rewrite <- Z.pow_add_r by lia; f_equal; lia).
  nia.
Qed.
Lemma shl_limb a v s :
  limb a → limb v → 0 < s < LB →
  let x := ulimb (a << s) .| (v >> (LB - s)) in limb x ∧ x + B * (a >> (LB - s)) = a * 2 ^ s + (v >> (LB - s)).
Proof.
  intros Ha Hv Hs x. unfold limb in *. assert (0 < 2 ^ s) as Hp by (apply Z.pow_pos_nonneg; lia).
  assert (0 < 2 ^ (LB - s)) as Hp2 by (apply Z.pow_pos_nonneg; lia).
  assert (B = 2 ^ (LB - s) * 2 ^ s) as HB by (unfold B; rewrite <- Z.pow_add_r by lia; f_equal; lia).
  rewrite !shiftr_div by lia. assert (0 <= v / 2 ^ (LB - s) < 2 ^ s) as Hvs by (split; [apply Z.div_pos; lia|apply Z.div_lt_upper_bound; lia]).
  assert (ulimb (a << s) = (a mod 2 ^ (LB - s)) << s) as Eu.
  { unfold ulimb. rewrite !Z.shiftl_mul_pow2, HB by lia. by rewrite Z.mul_mod_distr_r by lia. }
  unfold x. rewrite shiftr_div, Eu by lia. rewrite lor_shiftl_add by lia. pose proof (Z.div_mod a (2 ^ (LB - s)) ltac:(lia)) as E.
  pose proof (Z.mod_pos_bound a (2 ^ (LB - s)) Hp2). rewrite HB in *. split; [nia|].
  rewrite E at 3. ring.
Qed.
Lemma norm_shift_spec tab l s :
  limbs tab → 0 <= l <= zlen tab → 0 < s < LB →
  ∃ r v, norm_shift tab l s = Some (r ++ zdrop l tab, v) ∧ zlen r = l ∧ limbs r ∧ limb v ∧ val r + B ^ l * (v >> (LB - s)) = low l tab * 2 ^ s.
Proof.
  intros Ht Hl Hs. pose proof B_pos. unfold norm_shift.
  destruct (for_up_inv (λ i '(t, v), 0 <= i ∧ ∃ r, t = r ++ zdrop i tab ∧ zlen r = i ∧ limbs r ∧ limb v ∧ val r + B ^ i * (v >> (LB - s)) = low i tab * 2 ^ s)
    (Z.to_nat l) (λ i '(tab, v), a ← tab.[i]; tab ← aset tab i (ulimb (a << s) .| (v >> (LB - s))); Some (tab, a)) 0 (tab, 0)) as ([t v] & E & HI).
  - intros i [t v] Hi (_ & r & -> & Hz & Lr & Lv & Hv). rewrite (zdrop_limb_cons tab i) by lia. pose proof (limb_at_range tab i Ht) as La.
    set (a := limb_at tab i) in *. destruct (shl_limb a v s La Lv Hs) as [Hx Ex]. set (x := ulimb (a << s) .| (v >> (LB - s))) in *.
    rewrite (aget_at r _ a i Hz). cbn [mbind option_bind]. fold x. rewrite (aset_at r _ a x i Hz). cbn [mbind option_bind].
    eexists. split; [reflexivity|]. split; [lia|]. exists (r ++ [x]). split; [by rewrite <- app_assoc|].
    split; [rewrite zlen_app; change (zlen [x]) with 1; lia|]. split; [apply limbs_app; by split; [|constructor]|]. split; [done|].
    unfold low in *. rewrite val_ztake_S, val_snoc, Hz, pow_B_S by lia. fold a.
    transitivity (val r + B ^ i * (x + B * (a >> (LB - s)))); [ring|]. rewrite Ex.
    transitivity ((val r + B ^ i * (v >> (LB - s))) + B ^ i * (a * 2 ^ s)); [ring|]. rewrite Hv. ring.
  - split; [done|]. exists []. split; [done|]. split; [done|]. split; [constructor|]. split; [split; lia|].
    rewrite Z.shiftr_0_l, Z.mul_0_r. done.
  - destruct HI as (_ & r & -> & Hz & Lr & Lv & Hv). rewrite Z.add_0_l, Z2Nat.id in * by lia. exists r, v. done.
Qed.
Lemma norm_high tab l s :
  limbs tab → 1 <= l <= zlen tab → 0 <= s < LB → 2 ^ (LB - 1) <= limb_at tab (l - 1) * 2 ^ s < B →
  2 ^ (LB * l - 1) <= low l tab * 2 ^ s < B ^ l.
Proof.
  intros Ht Hl Hs Hv. pose proof LB_pos. replace l with (l - 1 + 1) at 2 3 4 by lia. rewrite pow_B_S by lia. unfold low. rewrite val_ztake_S by lia.
  pose proof (low_nonneg (l - 1) tab Ht ltac:(lia)) as Hlow. unfold low in Hlow. set (v := limb_at tab (l - 1)) in *.
  assert (0 < 2 ^ s) as Hp by (apply Z.pow_pos_nonneg; lia). set (y := val (ztake (l - 1) tab)) in *.
  assert (2 ^ (LB * l - 1) = B ^ (l - 1) * 2 ^ (LB - 1)) as -> by (rewrite pow_B, <- Z.pow_add_r by nia; f_equal; lia).
  assert (B = 2 ^ (LB - s) * 2 ^ s) as HB by (unfold B; rewrite <- Z.pow_add_r by lia; f_equal; lia).
  assert (v + 1 <= 2 ^ (LB - s)) by nia. assert ((v + 1) * 2 ^ s <= B) by nia. split; [nia|].
  apply (Z.lt_le_trans _ ((B ^ (l - 1) + B ^ (l - 1) * v) * 2 ^ s)); nia.
Qed.
Lemma norm_step r l e :
  limbs (bf_tab r) → 1 <= l <= bf_len r → limb_at (bf_tab r) (l - 1) ≠ 0 → - (B / 2) + LB <= e < B / 2 →
  let s := clz (limb_at (bf_tab r) (l - 1)) in
  ∃ tab, (if negb (s =? 0) then
            '(tab, _) ← norm_shift (bf_tab r) l s; e ← sword (e - s); Some (mk_bf (bf_sign r) e tab)
          else Some (set_expn r e)) = Some (mk_bf (bf_sign r) (e - s) tab) ∧
    limbs tab ∧ zlen tab = bf_len r ∧ low l tab = low l (bf_tab r) * 2 ^ s ∧ 2 ^ (LB * l - 1) <= low l tab < B ^ l ∧ 0 <= s < LB.
Proof.
  intros Ht Hl Hne He s. destruct (clz_spec _ (limb_at_range _ (l - 1) Ht) Hne) as [Hs Hv]. fold s in Hs, Hv. unfold bf_len in *.
  pose proof (norm_high (bf_tab r) l s Ht Hl Hs Hv) as Hh. destruct (Z.eqb_spec s 0) as [E|Hs0]; cbn [negb].
  - exists (bf_tab r). rewrite E, Z.pow_0_r, Z.mul_1_r, Z.sub_0_r in *. repeat split; try done; lia.
  - destruct (norm_shift_spec (bf_tab r) l s Ht ltac:(lia) ltac:(lia)) as (q & v & -> & Hz & Lq & Lv & Hq). cbn [mbind option_bind].
    rewrite sword_id by lia. cbn [mbind option_bind]. eexists. split; [reflexivity|].
    assert (low l (q ++ zdrop l (bf_tab r)) = val q) as -> by (unfold low; by destruct (zlen_at_least q l Hz (zdrop l (bf_tab r))) as [-> _]).
    pose proof (val_bounds q Lq) as Bq. rewrite Hz in Bq. unfold limb in Lv. rewrite shiftr_div in Hq by lia.
    assert (0 < 2 ^ (LB - s)) as Hp2 by (apply Z.pow_pos_nonneg; lia). pose proof (Z.div_pos v (2 ^ (LB - s)) ltac:(lia) Hp2).
    assert (v / 2 ^ (LB - s) = 0) as Ev0 by (destruct (Z.eq_dec (v / 2 ^ (LB - s)) 0); [done|nia]).
    assert (val q = low l (bf_tab r) * 2 ^ s) as -> by (rewrite Ev0 in Hq; lia).
    split; [apply limbs_app; split; [done|by apply limbs_zdrop]|]. split; [rewrite zlen_app, zlen_zdrop by lia; lia|]. repeat split; try done; lia.
Qed.
Lemma bf_normalize_and_round_spec r prec flags :
  limbs (bf_tab r) → bf_sign r = 0 ∨ bf_sign r = 1 → LB * bf_len r <= B / 8 → - (B / 8) <= bf_expn r <= B / 8 → good_params prec flags →
  wp (bf_normalize_and_round r prec flags) (λ '(st, r'),
    if val (bf_tab r) =? 0 then st = 0 ∧ bf_sign r' = bf_sign r ∧ bf_is_0 r'
    else rounds_to (bf_sign r) (bf_mag r) prec flags st r').
Proof.
  intros Ht Hsg HL He [Gm Gb Gp Gs]. pose proof LB_pos. destruct B_eighth as (HB & HB2 & HB3). unfold bf_normalize_and_round.
  destruct (top_limb_spec (length (bf_tab r)) (bf_tab r) Ht ltac:(unfold zlen; lia)) as (l & El & Hl & Hv & Hnz).
  fold (zlen (bf_tab r)) in Hv, Hl. rewrite low_all in Hv. eapply wp_bind_lift; [exact El|]. clear El. fold (bf_len r) in Hl.
  destruct (Z.eqb_spec l 0) as [->|Hl0].
  - rewrite Hv. change (low 0 (bf_tab r)) with 0. cbn [Z.eqb]. eapply wp_bind; [apply wp_resize_0|]. intros ? ->. by apply wp_ret.
  - specialize (Hnz ltac:(lia)). assert (LB * l <= LB * bf_len r) as Hll by nia. assert (LB * 1 <= LB * l) as Hl1 by nia.
    assert (slimb (bf_expn r - (bf_len r - l) * LB) = bf_expn r - (bf_len r - l) * LB) as Es by (apply slimb_id; lia).
    cbv zeta. rewrite Es. clear Es. set (e := bf_expn r - (bf_len r - l) * LB).
    eapply wp_bind_lift; [apply aget_limb_at; unfold bf_len in *; lia|].
    destruct (norm_step r l e Ht ltac:(lia) Hnz ltac:(unfold e; lia)) as (tab & E & Lt & Hz & Hlow & Hh & Hs). set (s := clz (limb_at (bf_tab r) (l - 1))) in *.
    eapply wp_bind_lift; [exact E|]. clear E. assert (0 < 2 ^ (LB * l - 1)) as Hph by (apply Z.pow_pos_nonneg; lia).
    destruct (Z.eqb_spec (val (bf_tab r)) 0) as [E0|_]; [rewrite Hv in E0; rewrite E0 in Hlow; lia|].
    eapply wp_mono; [apply __bf_round_spec; split; cbn [bf_tab bf_sign bf_expn]; try done; unfold bf_len in *; cbn [bf_tab]; try lia|].
    cbn [bf_tab bf_sign bf_expn]. intros [st r'] (o & Ho & Hres). exists (low l tab), (LB * l), (e - s), o.
    rewrite pow_B in Hh by lia. split; [lia|]. split; [lia|]. split; [|done].
    unfold bf_mag. rewrite Hv, Hlow. rewrite dyad_shift by lia. unfold e.
    match goal with |- (dyad _ ?a == dyad _ ?b)%Q => by replace a with b by ring end.
Qed.

(** ** Multiplication *)
Lemma dyad_val_mul a b : (bf_mag a * bf_mag b == dyad (val (bf_tab a) * val (bf_tab b)) (bf_expn a + bf_expn b - LB * (bf_len a + bf_len b)))%Q.
Proof.
  unfold bf_mag. rewrite dyad_mul. match goal with |- (dyad _ ?a == dyad _ ?b)%Q => by replace a with b by ring end.
Qed.
Lemma normal_val_pos a : bf_normal a → 0 < val (bf_tab a).
Proof. intros Ha. pose proof (nf_high a Ha). pose proof (nf_len a Ha). pose proof LB_pos. pose proof (Z.pow_pos_nonneg 2 (LB * bf_len a - 1)). nia. Qed.
Lemma sign_xor a b : a = 0 ∨ a = 1 → b = 0 ∨ b = 1 → a .^ b = 0 ∨ a .^ b = 1.
Proof. intros [-> | ->] [-> | ->]; vm_compute; tauto. Qed.
(** the magnitude of the [n] highest limbs *)
Definition top_mag (a : bf_t) (n : Z) : Q := dyad (val (zdrop (bf_len a - n) (bf_tab a))) (bf_expn a - LB * n).
Lemma top_mag_all a : top_mag a (bf_len a) = bf_mag a.
Proof. unfold top_mag. by rewrite Z.sub_diag. Qed.
Lemma normal_top a n : bf_normal a → 1 <= n <= bf_len a → 0 < val (zdrop (bf_len a - n) (bf_tab a)).
Proof.
  intros Ha Hn. pose proof (nf_high a Ha) as Hh. pose proof LB_pos. unfold bf_len in *. rewrite (val_split (bf_tab a) (zlen (bf_tab a) - n)) in Hh by lia.
  pose proof (val_bounds _ (limbs_ztake _ (zlen (bf_tab a) - n) (nf_limbs a Ha))) as Hb. rewrite zlen_ztake, pow_B in Hb by lia.
  pose proof (val_bounds _ (limbs_zdrop _ (zlen (bf_tab a) - n) (nf_limbs a Ha))) as Hb2.
  destruct (Z.eq_dec (val (zdrop (zlen (bf_tab a) - n) (bf_tab a))) 0) as [E|]; [|lia]. rewrite E in Hh.
  assert (2 ^ (LB * (zlen (bf_tab a) - n)) <= 2 ^ (LB * zlen (bf_tab a) - 1)) by (apply Z.pow_le_mono_r; nia). lia.
Qed.
(** the product of the [la] and [lb] highest limbs of two numbers that are not zero *)
Lemma mul_core r a b la lb prec flags :
  bf_normal a → bf_normal b → bf_sign a = 0 ∨ bf_sign a = 1 → bf_sign b = 0 ∨ bf_sign b = 1 → 1 <= la <= bf_len a → 1 <= lb <= bf_len b →
  LB * (bf_len a + bf_len b) <= B / 8 → - (B / 16) <= bf_expn a <= B / 16 → - (B / 16) <= bf_expn b <= B / 16 →
  good_params prec flags → limbs (bf_tab r) →
  wp ('(ret, r) ← bf_resize r (la + lb);
      if negb (ret =? 0) then bf_mem_error r
      else
        t ← lift (mp_mul_basecase (bf_tab r) (zdrop (bf_len a - la) (bf_tab a)) la (zdrop (bf_len b - lb) (bf_tab b)) lb);
        e ← lift (sword (bf_expn a + bf_expn b));
        bf_normalize_and_round (mk_bf (bf_sign a .^ bf_sign b) e t) prec flags)
    (λ '(st, r'), rounds_to (bf_sign a .^ bf_sign b) (top_mag a la * top_mag b lb)%Q prec flags st r').
Proof.
  intros Ha Hb Sa Sb Hla Hlb HL Ea Eb Hg Lr. pose proof LB_pos. destruct B_eighth as (HB & HB2 & HB3).
  assert (2 * (B / 16) <= B / 8) as H16 by (unfold B; destruct LIMB_BITS_cases as [-> | ->]; vm_compute; done).
  eapply wp_bind; [apply wp_bf_resize; lia|]. intros ? (g & -> & Lg & Hzg). cbn [Z.eqb negb bf_tab set_tab].
  set (t0 := ztake (la + lb) (bf_tab r) ++ g). assert (zlen t0 = la + lb) as Hz0.
  { unfold t0, bf_len in *. rewrite zlen_app, Hzg. pose proof (zlen_nonneg (bf_tab r)). destruct (Z.le_gt_cases (la + lb) (zlen (bf_tab r))).
    - rewrite zlen_ztake by lia. lia.
    - rewrite ztake_all by lia. lia. }
  pose proof (normal_top a la Ha Hla) as Pa. pose proof (normal_top b lb Hb Hlb) as Pb. unfold top_mag.
  set (ta := zdrop (bf_len a - la) (bf_tab a)) in *. set (tb := zdrop (bf_len b - lb) (bf_tab b)) in *.
  assert (zlen ta = la ∧ zlen tb = lb) as [Hza Hzb] by (unfold ta, tb, bf_len in *; rewrite !zlen_zdrop by lia; lia).
  assert (limbs ta ∧ limbs tb) as [La' Lb'] by (split; apply limbs_zdrop; [apply Ha|apply Hb]).
  destruct (mp_mul_basecase_spec t0 ta la tb lb) as (t & E & Hz & Lt & Hv); [done|done|lia..|].
  eapply wp_bind_lift; [exact E|]. rewrite zdrop_all, app_nil_r by lia. unfold low in Hv. rewrite !ztake_all in Hv by lia.
  rewrite sword_id by lia. eapply wp_bind_lift; [reflexivity|].
  eapply wp_mono; [apply bf_normalize_and_round_spec; unfold bf_len; cbn [bf_tab bf_sign bf_expn]; [done|by apply sign_xor| |lia|done]|].
  { rewrite Hz. nia. }
  intros [st r']. unfold bf_mag, bf_len. cbn [bf_tab bf_sign bf_expn]. rewrite Hv, Hz.
  destruct (Z.eqb_spec (val ta * val tb) 0); [nia|]. intros (m & w & e & o & Hm & Hw & Hx & Ho & Hres). exists m, w, e, o.
  split; [done|]. split; [done|]. split; [|done]. rewrite <- Hx, dyad_mul.
  match goal with |- (dyad _ ?a == dyad _ ?b)%Q => by replace a with b by ring end.
Qed.
Lemma mul_swap alias r a b prec flags : bf_len a < bf_len b → bf_mul alias r a b prec flags = bf_mul alias r b a prec flags.
Proof.
  intros Hl. unfold bf_mul. destruct (Z.ltb_spec (bf_len a) (bf_len b)); [|lia]. destruct (Z.ltb_spec (bf_len b) (bf_len a)); [lia|].
  by rewrite (Z.lxor_comm (bf_sign b)).
Qed.
(** how many limbs of an operand count *)
Definition mul_len (a : bf_t) (prec flags : Z) : Z :=
  if flags .& BF_RND_MASK =? BF_RNDF then bf_min (bf_len a) (ulimb (prec + 2 + LB - 1) / LB) else bf_len a.
Lemma mul_len_range a prec flags : good_params prec flags → 0 < bf_len a → 1 <= mul_len a prec flags <= bf_len a.
Proof.
  intros [_ _ Hp _] Hl. unfold mul_len. destruct (_ =? _); [|lia]. pose proof LB_pos. pose proof PREC_INF_eighth. destruct B_eighth as (HB & HB2 & HB3).
  assert (LB <= 64) by (destruct LIMB_BITS_cases as [-> | ->]; lia). rewrite ulimb_id by (unfold limb; lia).
  assert (1 <= (prec + 2 + LB - 1) / LB) by (apply Z.div_le_lower_bound; lia). unfold bf_min. destruct (Z.ltb_spec (bf_len a) ((prec + 2 + LB - 1) / LB)); lia.
Qed.
Definition small_operand (a : bf_t) : Prop := LB * bf_len a <= B / 16 ∧ - (B / 16) <= bf_expn a <= B / 16.
Lemma mul_normal alias r a b prec flags :
  bf_normal a → bf_normal b → bf_sign a = 0 ∨ bf_sign a = 1 → bf_sign b = 0 ∨ bf_sign b = 1 → small_operand a → small_operand b →
  good_params prec flags → limbs (bf_tab r) →
  wp (bf_mul alias r a b prec flags) (λ '(st, r'), rounds_to (bf_sign a .^ bf_sign b)
    (top_mag a (mul_len a prec flags) * top_mag b (mul_len b prec flags))%Q prec flags st r').
Proof.
  assert (2 * (B / 16) <= B / 8) as H16 by (unfold B; destruct LIMB_BITS_cases as [-> | ->]; vm_compute; done).
  assert (∀ a b, bf_normal a → bf_normal b → bf_sign a = 0 ∨ bf_sign a = 1 → bf_sign b = 0 ∨ bf_sign b = 1 → small_operand a → small_operand b →
    good_params prec flags → limbs (bf_tab r) → bf_len b <= bf_len a →
    wp (bf_mul alias r a b prec flags) (λ '(st, r'), rounds_to (bf_sign a .^ bf_sign b)
    (top_mag a (mul_len a prec flags) * top_mag b (mul_len b prec flags))%Q prec flags st r')) as Hord.
  { clear a b. intros a b Ha Hb Sa Sb [La Ea] [Lb Eb] Hg Lr Hab. pose proof (nf_len a Ha) as Pa. pose proof (nf_len b Hb) as Pb.
    pose proof (mul_len_range a prec flags Hg Pa) as Ra. pose proof (mul_len_range b prec flags Hg Pb) as Rb.
    unfold bf_mul. destruct (Z.ltb_spec (bf_len a) (bf_len b)); [lia|]. destruct (Z.eqb_spec (bf_len b) 0); [lia|].
    unfold mul_len in *. destruct (flags .& BF_RND_MASK =? BF_RNDF); apply mul_core; try done; try lia; by destruct alias; [constructor|]. }
  intros Ha Hb Sa Sb Oa Ob Hg Lr. destruct (Z.le_gt_cases (bf_len b) (bf_len a)) as [Hl|Hl]; [by apply Hord|].
  rewrite mul_swap by lia. eapply wp_mono; [apply Hord; try done; lia|]. intros [st r'] (m & w & e & o & Hm & Hw & Hx & Ho & Hres).
  exists m, w, e, o. rewrite Z.lxor_comm, Qmult_comm. done.
Qed.
End Operations.
