(* ===== verification/BigFloatUnique.v ===== *)
(** * Rounding is a function of the value

    A number has one normal form, and [ref_round] does not depend on how the
    exact value is written: the rounding of a value is one number with one status. *)
From Stdlib Require Import QArith Qpower.
From S2P Require Import Prelude Alloc Reliable Limb LimbOps BigFloat LimbBits BigFloatRound BigFloatValue BigFloatSpec BigFloatOps.
Open Scope Z_scope.

Section Unique.
Context {LS : LimbSize}.
Notation LB := (@LIMB_BITS LS).

(** ** Normal forms *)
Lemma val_inj l k : limbs l → limbs k → zlen l = zlen k → val l = val k → l = k.
Proof.
  intros Hl. revert k. induction Hl as [|x l Hx Hl IH]; intros [|y k] Hk Hz Hv; [done| | |].
  - rewrite zlen_nil, zlen_cons in Hz. pose proof (zlen_nonneg k). lia.
  - rewrite zlen_nil, zlen_cons in Hz. pose proof (zlen_nonneg l). lia.
  - apply Forall_cons in Hk as [Hy Hk]. rewrite !zlen_cons in Hz. cbn [val] in Hv. unfold limb in *.
    assert (x = y) as -> by (apply (f_equal (λ z, z mod B)) in Hv; by rewrite !(Z.mul_comm B), !Z.mod_add, !Z.mod_small in Hv by lia).
    f_equal. apply IH; [done|lia|nia].
Qed.
Lemma dyad_exponent m1 m2 e1 e2 w1 w2 :
  0 < w1 → 0 < w2 → 2 ^ (w1 - 1) <= m1 < 2 ^ w1 → 2 ^ (w2 - 1) <= m2 < 2 ^ w2 → (dyad m1 (e1 - w1) == dyad m2 (e2 - w2))%Q → e1 <= e2.
Proof.
  intros Hw1 Hw2 Hm1 Hm2 E. destruct (Z.le_gt_cases e1 e2) as [|Hgt]; [done|]. exfalso.
  assert (dyad m2 (e2 - w2) < dyad 1 (e1 - 1))%Q as Hlt.
  { replace (e1 - 1) with (e2 - w2 + (e1 - 1 - e2 + w2)) by lia. rewrite <- dyad_shift, dyad_lt by lia.
    eapply Z.lt_le_trans; [apply Hm2|]. rewrite Z.mul_1_l. apply Z.pow_le_mono_r; lia. }
  rewrite <- E in Hlt. replace (e1 - 1) with (e1 - w1 + (w1 - 1)) in Hlt by lia. rewrite <- dyad_shift, dyad_lt in Hlt by lia. lia.
Qed.
Lemma dyad_exponent_eq m1 m2 e1 e2 w1 w2 :
  0 < w1 → 0 < w2 → 2 ^ (w1 - 1) <= m1 < 2 ^ w1 → 2 ^ (w2 - 1) <= m2 < 2 ^ w2 → (dyad m1 (e1 - w1) == dyad m2 (e2 - w2))%Q → e1 = e2.
Proof.
  intros Hw1 Hw2 Hm1 Hm2 E. apply Z.le_antisymm; [exact (dyad_exponent m1 m2 e1 e2 w1 w2 Hw1 Hw2 Hm1 Hm2 E)|].
  symmetry in E. exact (dyad_exponent m2 m1 e2 e1 w2 w1 Hw2 Hw1 Hm2 Hm1 E).
Qed.
Lemma normal_width r : bf_normal r → 0 < LB * bf_len r.
Proof. intros Hr. pose proof (nf_len r Hr). pose proof LB_pos. nia. Qed.
Lemma normal_len_le r1 r2 :
  bf_normal r1 → bf_normal r2 → bf_expn r1 = bf_expn r2 → (bf_mag r1 == bf_mag r2)%Q → bf_len r2 <= bf_len r1 ∧ (bf_len r1 = bf_len r2 → val (bf_tab r1) = val (bf_tab r2)).
Proof.
  intros H1 H2 Ee Em. pose proof LB_pos. unfold bf_mag in Em. rewrite <- Ee in Em. split.
  - destruct (Z.le_gt_cases (bf_len r2) (bf_len r1)) as [|Hgt]; [done|]. exfalso.
    replace (bf_expn r1 - LB * bf_len r1) with (bf_expn r1 - LB * bf_len r2 + LB * (bf_len r2 - bf_len r1)) in Em by ring.
    rewrite <- dyad_shift, dyad_eq, <- pow_B in Em by nia. apply (nf_low r2 H2). rewrite limb_at_val by (apply H2 || done).
    rewrite Z.pow_0_r, Z.div_1_r, <- Em. replace (bf_len r2 - bf_len r1) with (bf_len r2 - bf_len r1 - 1 + 1) by lia.
    rewrite pow_B_S by lia. rewrite (Z.mul_comm B), Z.mul_assoc. pose proof B_pos. by rewrite Z.mod_mul by lia.
  - intros El. rewrite El, dyad_eq in Em. done.
Qed.
Lemma normal_unique r1 r2 : bf_normal r1 → bf_normal r2 → bf_sign r1 = bf_sign r2 → (bf_mag r1 == bf_mag r2)%Q → r1 = r2.
Proof.
  intros H1 H2 Es Em. assert (bf_expn r1 = bf_expn r2) as Ee.
  { eapply dyad_exponent_eq; [apply (normal_width r1 H1)|apply (normal_width r2 H2)|by apply normal_bounds..|exact Em]. }
  destruct (normal_len_le r1 r2 H1 H2 Ee Em) as [L1 Hv]. destruct (normal_len_le r2 r1 H2 H1 ltac:(done) ltac:(by symmetry)) as [L2 _].
  assert (bf_len r1 = bf_len r2) as El by lia. specialize (Hv El).
  assert (bf_tab r1 = bf_tab r2) as Et by (apply val_inj; [apply H1|apply H2|exact El|exact Hv]).
  destruct r1, r2. cbn in *. by subst.
Qed.

(** ** The reference rounds values *)
Definition same_rounded (o1 o2 : rounded) : Prop :=
  match o1, o2 with
  | RZero, RZero | RInf, RInf => True
  | RFinite n x, RFinite m y => (dyad n x == dyad m y)%Q
  | _, _ => False
  end.
Lemma same_rounded_refl o : same_rounded o o.
Proof. by destruct o. Qed.
Lemma is_result_unique sgn o1 o2 r1 r2 : same_rounded o1 o2 → is_result sgn o1 r1 → is_result sgn o2 r2 → r1 = r2.
Proof.
  intros Ho [S1 H1] [S2 H2]. destruct o1, o2; try done; [destruct r1, r2; unfold bf_is_0, bf_is_inf in *; cbn in *; naive_solver..|].
  destruct H1 as [N1 E1], H2 as [N2 E2]. apply normal_unique; [done|done|congruence|]. rewrite E1, E2. exact Ho.
Qed.
Lemma round_incr_scale mode sgn m d c : 0 < d → 0 < c → round_incr mode sgn (m * c) (d * c) = round_incr mode sgn m d.
Proof.
  intros Hd Hc. unfold round_incr. rewrite Z.div_mul_cancel_r, Z.mul_mod_distr_r by lia. set (t := m mod d).
  assert (2 * (t * c) = (2 * t) * c) as -> by ring. assert ((t * c =? 0) = (t =? 0)) as -> by (destruct (Z.eqb_spec t 0), (Z.eqb_spec (t * c) 0); done || nia).
  assert ((d * c <? 2 * t * c) = (d <? 2 * t)) as -> by (destruct (Z.ltb_spec d (2 * t)), (Z.ltb_spec (d * c) (2 * t * c)); done || nia).
  assert ((2 * t * c =? d * c) = (2 * t =? d)) as -> by (destruct (Z.eqb_spec (2 * t) d), (Z.eqb_spec (2 * t * c) (d * c)); done || nia).
  assert ((d * c <=? 2 * t * c) = (d <=? 2 * t)) as -> by (destruct (Z.leb_spec d (2 * t)), (Z.leb_spec (d * c) (2 * t * c)); done || nia).
  done.
Qed.
Lemma round_incr_multiple mode sgn m d : 0 < d → m mod d = 0 → round_incr mode sgn m d = false.
Proof.
  intros Hd Hm. unfold round_incr. rewrite Hm, Z.mul_0_r, Z.eqb_refl. cbn [negb]. rewrite !andb_false_r.
  destruct (Z.ltb_spec d 0); [lia|]. destruct (Z.eqb_spec 0 d); [lia|]. destruct (Z.leb_spec d 0); [lia|]. by repeat destruct (mode =? _).
Qed.
Lemma ref_round_scale sgn m w e prec flags k :
  0 < m → 0 <= k →
  (ref_round sgn (m * 2 ^ k) (w + k) e prec flags).1 = (ref_round sgn m w e prec flags).1 ∧
  same_rounded (ref_round sgn (m * 2 ^ k) (w + k) e prec flags).2 (ref_round sgn m w e prec flags).2.
Proof.
  intros Hm Hk. unfold ref_round. set (e_max := 2 ^ (bf_get_exp_bits flags - 1)). set (p := ref_prec e prec flags (- e_max + 3)). cbv zeta.
  assert (0 < 2 ^ k) as Hpk by (apply Z.pow_pos_nonneg; lia). unfold round_quot. destruct (Z.le_gt_cases p w) as [Hpw|Hpw].
  - assert (Z.max 0 (w + k - p) = w - p + k) as -> by lia. assert (Z.max 0 (w - p) = w - p) as -> by lia.
    assert (0 < 2 ^ (w - p)) as Hps by (apply Z.pow_pos_nonneg; lia).
    rewrite Z.pow_add_r by lia. rewrite round_incr_scale, Z.div_mul_cancel_r, Z.mul_mod_distr_r by lia.
    assert ((m mod 2 ^ (w - p) * 2 ^ k =? 0) = (m mod 2 ^ (w - p) =? 0)) as ->
      by (destruct (Z.eqb_spec (m mod 2 ^ (w - p)) 0), (Z.eqb_spec (m mod 2 ^ (w - p) * 2 ^ k) 0); done || nia).
    replace (e - (w + k) + (w - p + k)) with (e - w + (w - p)) by lia. split; [done|apply same_rounded_refl].
  - assert (Z.max 0 (w - p) = 0) as -> by lia. set (s := Z.max 0 (w + k - p)). assert (0 <= s < k ∨ s = 0 ∧ k = 0) as Hs by lia.
    assert (0 < 2 ^ s) as Hps by (apply Z.pow_pos_nonneg; lia).
    assert (2 ^ k = 2 ^ (k - s) * 2 ^ s) as Ek by (rewrite <- Z.pow_add_r by lia; f_equal; lia). rewrite Ek, Z.mul_assoc.
    rewrite Z.div_mul, Z.mod_mul by lia. rewrite (round_incr_multiple _ _ (m * _ * _)) by (done || apply Z.mod_mul; lia).
    rewrite Z.pow_0_r, Z.div_1_r, Z.mod_1_r, round_incr_multiple by (done || apply Z.mod_1_r). cbn [b2z]. rewrite !Z.add_0_r.
    assert (0 < 2 ^ (k - s)) as Hpd by (apply Z.pow_pos_nonneg; lia). rewrite Z.log2_mul_pow2 by lia.
    replace (e - (w + k) + s + (k - s + Z.log2 m) + 1) with (e - w + Z.log2 m + 1) by lia.
    destruct (Z.eqb_spec (m * 2 ^ (k - s)) 0), (Z.eqb_spec m 0); try nia.
    assert (dyad (m * 2 ^ (k - s)) (e - (w + k) + s) == dyad m (e - w))%Q as Ed by (rewrite dyad_shift by lia; by replace (e - (w + k) + s + (k - s)) with (e - w) by lia).
    destruct (p <=? 0); [done|]. destruct (_ && _); [done|]. destruct (_ <? _); [split; [done|apply same_rounded_refl]|done].
Qed.
Lemma rounds_to_unique sgn x prec flags st1 r1 st2 r2 :
  rounds_to sgn x prec flags st1 r1 → rounds_to sgn x prec flags st2 r2 → st1 = st2 ∧ r1 = r2.
Proof.
  intros (m1 & w1 & e1 & o1 & Hm1 & Hw1 & Hx1 & Ho1 & Hr1) (m2 & w2 & e2 & o2 & Hm2 & Hw2 & Hx2 & Ho2 & Hr2).
  assert (e1 = e2) as -> by (eapply dyad_exponent_eq; [exact Hw1|exact Hw2|done..|by rewrite <- Hx1, <- Hx2]).
  pose proof (Z.pow_pos_nonneg 2 (w1 - 1) ltac:(lia) ltac:(lia)). pose proof (Z.pow_pos_nonneg 2 (w2 - 1) ltac:(lia) ltac:(lia)).
  assert (dyad m1 (e2 - w1) == dyad m2 (e2 - w2))%Q as Ed by (by rewrite <- Hx1, <- Hx2).
  destruct (Z.le_ge_cases w1 w2) as [Hle|Hle].
  - replace (e2 - w1) with (e2 - w2 + (w2 - w1)) in Ed by lia. rewrite <- dyad_shift, dyad_eq in Ed by lia.
    destruct (ref_round_scale sgn m1 w1 e2 prec flags (w2 - w1)) as [Hst Hso]; [lia|lia|]. rewrite Ed in Hst, Hso.
    replace (w1 + (w2 - w1)) with w2 in * by lia. rewrite Ho1, Ho2 in *. cbn [fst snd] in *. split; [done|]. symmetry. by eapply is_result_unique.
  - replace (e2 - w2) with (e2 - w1 + (w1 - w2)) in Ed by lia. rewrite <- dyad_shift, dyad_eq in Ed by lia. symmetry in Ed.
    destruct (ref_round_scale sgn m2 w2 e2 prec flags (w1 - w2)) as [Hst Hso]; [lia|lia|]. rewrite Ed in Hst, Hso.
    replace (w2 + (w1 - w2)) with w1 in * by lia. rewrite Ho1, Ho2 in *. cbn [fst snd] in *. split; [done|]. by eapply is_result_unique.
Qed.
End Unique.
