(* ===== verification/BigFloatCorrect.v ===== *)
(** * Correctness of the rounded operations

    Every operation returns a number in canonical form.  A rounded result is
    within one unit of the last place of the exact one, half a unit when it
    rounds to nearest, and on the side that the mode asks for. *)
From Stdlib Require Import QArith Qpower Qabs.
From S2P Require Import Prelude Alloc Reliable Limb LimbOps BigFloat LimbBits BigFloatRound BigFloatValue BigFloatSpec BigFloatOps BigFloatUnique.
Open Scope Z_scope.

Section Error.
Context {LS : LimbSize}.
Notation LB := (@LIMB_BITS LS).

Definition signed (sgn : Z) (x : Q) : Q := if sgn =? 1 then (- x)%Q else x.
(** [y] rounds [x] in a given mode; [u] is the unit of the last place *)
Definition rounding_error (mode : Z) (x y u : Q) : Prop :=
  (Qabs (y - x) < u)%Q ∧
  (mode = BF_RNDN ∨ mode = BF_RNDNA → 2 * Qabs (y - x) <= u)%Q ∧
  (mode = BF_RNDZ → Qabs y <= Qabs x)%Q ∧ (mode = BF_RNDA → Qabs x <= Qabs y)%Q ∧
  (mode = BF_RNDD → y <= x)%Q ∧ (mode = BF_RNDU → x <= y)%Q.

Lemma signed_dyad sgn n e : sgn = 0 ∨ sgn = 1 → (signed sgn (dyad n e) == dyad ((1 - 2 * sgn) * n) e)%Q.
Proof. intros [-> | ->]; unfold signed, dyad; cbn [Z.eqb Pos.eqb]; rewrite inject_Z_mult; [change (inject_Z (1 - 2 * 0)) with 1%Q|change (inject_Z (1 - 2 * 1)) with (- 1)%Q]; ring. Qed.
Lemma dyad_sub n m e : (dyad n e - dyad m e == dyad (n - m) e)%Q.
Proof. unfold dyad. unfold Z.sub. rewrite inject_Z_plus, inject_Z_opp. ring. Qed.
Lemma dyad_abs n e : (Qabs (dyad n e) == dyad (Z.abs n) e)%Q.
Proof.
  unfold dyad. rewrite Qabs_Qmult, (Qabs_pos ((2 # 1) ^ e)) by (apply Qlt_le_weak, pow2_pos). done.
Qed.
Lemma dyad_double n e : (2 * dyad n e == dyad (2 * n) e)%Q.
Proof. unfold dyad. rewrite inject_Z_mult. change (inject_Z 2) with 2%Q. ring. Qed.
(** an integer multiple of a unit, as a unit at another place *)
Lemma dyad_unit_lt D w p e : Z.abs D < 2 ^ Z.max 0 (w - p) → (dyad (Z.abs D) (e - w) < dyad 1 (e - p))%Q.
Proof.
  intros HD. destruct (Z.le_gt_cases p w) as [Hpw|Hpw].
  - rewrite Z.max_r in HD by lia. replace (e - p) with (e - w + (w - p)) by lia. rewrite <- dyad_shift, dyad_lt by lia. lia.
  - rewrite Z.max_l in HD by lia. assert (Z.abs D = 0) as -> by (change (2 ^ 0) with 1 in HD; lia). rewrite dyad_0. rewrite <- (dyad_0 (e - p)). by apply dyad_lt.
Qed.
Lemma dyad_unit_half D w p e : 2 * Z.abs D <= 2 ^ Z.max 0 (w - p) → (dyad (2 * Z.abs D) (e - w) <= dyad 1 (e - p))%Q.
Proof.
  intros HD. destruct (Z.le_gt_cases p w) as [Hpw|Hpw].
  - rewrite Z.max_r in HD by lia. replace (e - p) with (e - w + (w - p)) by lia. rewrite <- dyad_shift, dyad_le by lia. lia.
  - rewrite Z.max_l in HD by lia. assert (Z.abs D = 0) as -> by (change (2 ^ 0) with 1 in HD; lia). rewrite dyad_0. rewrite <- (dyad_0 (e - p)). by apply dyad_le.
Qed.
Lemma is_rounding_error mode sgn m w p e n :
  rounding_mode mode → sgn = 0 ∨ sgn = 1 → 0 <= m → 0 <= n → is_rounding mode sgn m (2 ^ Z.max 0 (w - p)) n →
  let s := Z.max 0 (w - p) in
  rounding_error mode (signed sgn (dyad m (e - w))) (signed sgn (dyad (n * 2 ^ s) (e - w))) (dyad 1 (e - p)).
Proof.
  intros Hmode Hsgn Hm Hn Hr s. fold s in Hr. assert (0 < 2 ^ s) as Hps by (apply Z.pow_pos_nonneg; lia). set (N := n * 2 ^ s) in *.
  assert (0 <= N) as HN by nia.
  assert (Z.abs ((1 - 2 * sgn) * N - (1 - 2 * sgn) * m) = Z.abs (N - m)) as Eabs by (destruct Hsgn as [-> | ->]; lia).
  unfold rounding_error. rewrite !signed_dyad by done. rewrite dyad_sub, !dyad_abs, dyad_double, Eabs.
  assert (Z.abs (N - m) < 2 ^ s ∧ (mode = BF_RNDN ∨ mode = BF_RNDNA → 2 * Z.abs (N - m) <= 2 ^ s) ∧
    (mode = BF_RNDZ → N <= m) ∧ (mode = BF_RNDA → m <= N) ∧ (mode = BF_RNDD → (1 - 2 * sgn) * N <= (1 - 2 * sgn) * m) ∧
    (mode = BF_RNDU → (1 - 2 * sgn) * m <= (1 - 2 * sgn) * N)) as (A1 & A2 & A3 & A4 & A5 & A6).
  { unfold is_rounding in Hr. unfold N in *. clearbody s. clear Eabs. unfold rounding_mode, BF_RNDN, BF_RNDZ, BF_RNDD, BF_RNDU, BF_RNDNA, BF_RNDA, BF_RNDF in *.
    assert (mode = 0 ∨ mode = 1 ∨ mode = 2 ∨ mode = 3 ∨ mode = 4 ∨ mode = 5 ∨ mode = 6) as Hin by lia.
    destruct Hin as [->|[->|[->|[->|[->|[->| ->]]]]]]; destruct Hsgn as [-> | ->]; cbn [Z.eqb Pos.eqb andb orb] in Hr; repeat split; lia. }
  split; [by apply dyad_unit_lt|]. split; [intros H1; apply dyad_unit_half; by apply A2|].
  split; [intros H1; apply dyad_le; specialize (A3 H1); destruct Hsgn as [-> | ->]; lia|]. split; [intros H1; apply dyad_le; specialize (A4 H1); destruct Hsgn as [-> | ->]; lia|].
  split; intros H1; apply dyad_le; auto.
Qed.
(** ** Results in range *)
Lemma round_quot_log2 mode sgn m w s :
  0 < w → 2 ^ (w - 1) <= m < 2 ^ w → 0 <= s <= w - 1 → 0 < round_quot mode sgn m (2 ^ s) ∧ w - s <= Z.log2 (round_quot mode sgn m (2 ^ s)) + 1 <= w - s + 1.
Proof.
  intros Hw Hm Hs. unfold round_quot. assert (0 < 2 ^ s) as Hps by (apply Z.pow_pos_nonneg; lia).
  assert (2 ^ (w - 1) = 2 ^ (w - 1 - s) * 2 ^ s) as E1 by (rewrite <- Z.pow_add_r by lia; f_equal; lia).
  assert (2 ^ w = 2 ^ (w - s) * 2 ^ s) as E2 by (rewrite <- Z.pow_add_r by lia; f_equal; lia).
  assert (2 ^ (w - 1 - s) <= m / 2 ^ s) as Hq1 by (apply Z.div_le_lower_bound; lia).
  assert (m / 2 ^ s < 2 ^ (w - s)) as Hq2 by (apply Z.div_lt_upper_bound; lia).
  assert (0 < 2 ^ (w - 1 - s)) as Hph by (apply Z.pow_pos_nonneg; lia).
  set (n := m / 2 ^ s + b2z (round_incr mode sgn m (2 ^ s))). assert (2 ^ (w - 1 - s) <= n <= 2 ^ (w - s)) as Hn by (unfold n; destruct (round_incr _ _ _ _); cbn [b2z]; lia).
  split; [lia|]. assert (Z.log2 (2 ^ (w - 1 - s)) <= Z.log2 n) as L1 by (apply Z.log2_le_mono; lia).
  assert (Z.log2 n <= Z.log2 (2 ^ (w - s))) as L2 by (apply Z.log2_le_mono; lia). rewrite Z.log2_pow2 in * by lia. lia.
Qed.
Lemma dyad_between m w e e2 :
  0 < w → 2 ^ (w - 1) <= m < 2 ^ w → (dyad 1 (e - 1) <= dyad m (e2 - w))%Q → (dyad m (e2 - w) < dyad 1 e)%Q → e2 = e.
Proof.
  intros Hw Hm Hlo Hhi. apply Z.le_antisymm.
  - destruct (Z.le_gt_cases e2 e) as [|Hgt]; [done|]. exfalso. replace (e2 - w) with (e - w + (e2 - e)) in Hhi by lia.
    replace e with (e - w + w) in Hhi at 3 by lia. rewrite <- !dyad_shift, dyad_lt in Hhi by lia.
    assert (2 ^ 1 <= 2 ^ (e2 - e)) by (apply Z.pow_le_mono_r; lia). assert (2 ^ w = 2 ^ (w - 1) * 2) as E by (rewrite Z.mul_comm, <- Z.pow_succ_r by lia; f_equal; lia). nia.
  - destruct (Z.le_gt_cases e e2) as [|Hgt]; [done|]. exfalso. replace (e - 1) with (e2 - w + (e - 1 - e2 + w)) in Hlo by lia.
    rewrite <- dyad_shift, dyad_le in Hlo by lia. assert (2 ^ w <= 2 ^ (e - 1 - e2 + w)) by (apply Z.pow_le_mono_r; lia). lia.
Qed.
Lemma rounds_to_error sgn x e prec flags st r :
  let e_max := 2 ^ (bf_get_exp_bits flags - 1) in let mode := flags .& BF_RND_MASK in
  rounds_to sgn x prec flags st r → sgn = 0 ∨ sgn = 1 → good_params prec flags → flags .& BF_FLAG_RADPNT_PREC = 0 →
  (dyad 1 (e - 1) <= x)%Q → (x < dyad 1 e)%Q → - e_max + 3 <= e < e_max →
  bf_normal r ∧ (st = 0 ∨ st = BF_ST_INEXACT) ∧ rounding_error mode (signed sgn x) (bf_Q r) (dyad 1 (e - prec)) ∧
  (st = 0 → (bf_Q r == signed sgn x)%Q).
Proof.
  intros e_max mode (m & w & e2 & o & Hm & Hw & Hx & Ho & Hres) Hsgn [Gm Gb Gp Gs] Hrad Hlo Hhi He.
  assert (e2 = e) as -> by (rewrite Hx in Hlo, Hhi; exact (dyad_between m w e e2 Hw Hm Hlo Hhi)).
  unfold ref_round in Ho. fold e_max mode in Ho. unfold ref_prec in Ho. rewrite Hrad in Ho. cbn [Z.eqb negb] in Ho.
  destruct (Z.ltb_spec e (- e_max + 3)); [lia|]. cbn [andb] in Ho. set (s := Z.max 0 (w - prec)) in *.
  destruct (round_quot_log2 mode sgn m w s Hw Hm ltac:(lia)) as [Hn Hlog]. assert (0 < 2 ^ s) as Hps by (apply Z.pow_pos_nonneg; lia).
  pose proof (Z.pow_pos_nonneg 2 (w - 1) ltac:(lia) ltac:(lia)) as Hpw.
  pose proof (round_quot_rounds mode sgn m (2 ^ s) Hps ltac:(lia) Gm Hsgn) as Hround.
  assert (m mod 2 ^ s = 0 → round_quot mode sgn m (2 ^ s) * 2 ^ s = m) as Hexact.
  { intros E0. unfold round_quot. rewrite round_incr_multiple by done. cbn [b2z]. rewrite Z.add_0_r.
    assert (2 ^ s ≠ 0) as Hps0 by lia. pose proof (Z.div_mod m (2 ^ s) Hps0). lia. }
  set (n := round_quot mode sgn m (2 ^ s)) in *. destruct (Z.eqb_spec n 0); [lia|]. destruct (Z.leb_spec prec 0); [lia|].
  destruct (Z.ltb_spec (e - w + s + Z.log2 n + 1) (- e_max + 3)); [lia|]. cbn [andb] in Ho.
  destruct (Z.ltb_spec e_max (e - w + s + Z.log2 n + 1)); [lia|]. injection Ho as <- <-. destruct Hres as [Es [Hnf Hmag]].
  rewrite <- dyad_shift in Hmag by lia. assert (bf_Q r == signed sgn (dyad (n * 2 ^ s) (e - w)))%Q as EQ.
  { unfold bf_Q, signed. rewrite Es. destruct (sgn =? 1); by rewrite Hmag. }
  assert (signed sgn x == signed sgn (dyad m (e - w)))%Q as EX by (unfold signed; destruct (sgn =? 1); by rewrite Hx).
  split; [done|]. split; [destruct (_ || _); tauto|]. split.
  - pose proof (is_rounding_error mode sgn m w prec e n Gm Hsgn ltac:(lia) ltac:(lia) Hround) as Herr. fold s in Herr.
    unfold rounding_error in *. by rewrite EQ, EX.
  - rewrite EQ, EX. destruct (mode =? BF_RNDF); [done|]. destruct (Z.eqb_spec (m mod 2 ^ s) 0) as [E0|]; [|done]. intros _. by rewrite Hexact.
Qed.
End Error.

(** ** Canonical numbers *)
Section Canonical.
Context {LS : LimbSize} `{!Allocator, !Reliable}.
Notation LB := (@LIMB_BITS LS).

Definition bf_is_NaN (r : bf_t) : Prop := bf_tab r = [] ∧ bf_expn r = BF_EXP_NAN.
(** the representations that occur *)
Definition bf_wf (r : bf_t) : Prop :=
  (bf_sign r = 0 ∨ bf_sign r = 1) ∧ (bf_is_0 r ∨ bf_normal r ∨ bf_is_inf r ∨ bf_is_NaN r).

Lemma is_result_wf sgn o r : sgn = 0 ∨ sgn = 1 → is_result sgn o r → bf_wf r.
Proof. intros Hs [E Hr]. split; [by rewrite E|]. destruct o; [tauto|tauto|]. destruct Hr. tauto. Qed.
Lemma rounds_to_wf sgn x prec flags st r : sgn = 0 ∨ sgn = 1 → rounds_to sgn x prec flags st r → bf_wf r.
Proof. intros Hs (m & w & e & o & _ & _ & _ & _ & Hr). by eapply is_result_wf. Qed.
Lemma wf_empty r : bf_wf r → bf_len r = 0 → bf_is_0 r ∨ bf_is_inf r ∨ bf_is_NaN r.
Proof. intros [_ [E|[E|E]]] Hl; [tauto| |tauto]. pose proof (nf_len r E). lia. Qed.
Lemma wf_normal r : bf_wf r → bf_len r ≠ 0 → bf_normal r.
Proof. intros [_ [[E _]|[E|[[E _]|[E _]]]]] Hl; try done; unfold bf_len in Hl; by rewrite E in Hl. Qed.
(** what [bf_mul] returns when an operand has no mantissa *)
Definition mul_special (a b : bf_t) : Z * bf_t :=
  let sgn := bf_sign a .^ bf_sign b in
  if (bf_expn a =? BF_EXP_NAN) || (bf_expn b =? BF_EXP_NAN) then (0, mk_bf 0 BF_EXP_NAN [])
  else if (bf_expn a =? BF_EXP_INF) || (bf_expn b =? BF_EXP_INF) then
    if (bf_expn a =? BF_EXP_ZERO) || (bf_expn b =? BF_EXP_ZERO) then (BF_ST_INVALID_OP, mk_bf 0 BF_EXP_NAN [])
    else (0, mk_bf sgn BF_EXP_INF [])
  else (0, mk_bf sgn BF_EXP_ZERO []).
Lemma exp_distinct : BF_EXP_ZERO ≠ BF_EXP_INF ∧ BF_EXP_ZERO ≠ BF_EXP_NAN ∧ BF_EXP_INF ≠ BF_EXP_NAN.
Proof. destruct B_half. unfold BF_EXP_ZERO, BF_EXP_INF, BF_EXP_NAN, BF_RAW_EXP_MAX, BF_RAW_EXP_MIN. lia. Qed.
Lemma bf_mul_special alias r a b prec flags :
  bf_len a = 0 ∨ bf_len b = 0 → wp (bf_mul alias r a b prec flags) (λ x, x = mul_special a b).
Proof.
  assert (∀ a b, bf_len b = 0 → bf_len b <= bf_len a → wp (bf_mul alias r a b prec flags) (λ x, x = mul_special a b)) as Hord.
  { clear a b. intros a b Hb Hab. unfold bf_mul, mul_special. destruct (Z.ltb_spec (bf_len a) (bf_len b)); [lia|]. rewrite Hb. cbn [Z.eqb].
    destruct exp_distinct as (D1 & D2 & D3). destruct ((bf_expn a =? BF_EXP_NAN) || _); [eapply wp_bind; [apply wp_set_nan|]; intros ? ->; by apply wp_ret|].
    destruct ((bf_expn a =? BF_EXP_INF) || (bf_expn b =? BF_EXP_INF)) eqn:Ei; [|eapply wp_bind; [apply wp_set_zero|]; intros ? ->; by apply wp_ret].
    assert ((bf_expn a =? BF_EXP_INF) && (bf_expn b =? BF_EXP_ZERO) || (bf_expn a =? BF_EXP_ZERO) && (bf_expn b =? BF_EXP_INF) =
      (bf_expn a =? BF_EXP_ZERO) || (bf_expn b =? BF_EXP_ZERO)) as ->.
    { destruct (Z.eqb_spec (bf_expn a) BF_EXP_INF), (Z.eqb_spec (bf_expn b) BF_EXP_INF), (Z.eqb_spec (bf_expn a) BF_EXP_ZERO), (Z.eqb_spec (bf_expn b) BF_EXP_ZERO);
        try done; congruence. }
    destruct ((bf_expn a =? BF_EXP_ZERO) || _); [eapply wp_bind; [apply wp_set_nan|]|eapply wp_bind; [apply wp_set_inf|]]; intros ? ->; by apply wp_ret. }
  pose proof (zlen_nonneg (bf_tab a)). pose proof (zlen_nonneg (bf_tab b)). intros Hl. destruct (Z.le_gt_cases (bf_len b) (bf_len a)).
  - apply Hord; [|done]. unfold bf_len in *. lia.
  - rewrite mul_swap by lia. eapply wp_mono; [apply Hord; unfold bf_len in *; lia|]. intros ? ->. unfold mul_special.
    by rewrite (Z.lxor_comm (bf_sign b)), (orb_comm (bf_expn b =? BF_EXP_NAN)), (orb_comm (bf_expn b =? BF_EXP_INF)), (orb_comm (bf_expn b =? BF_EXP_ZERO)).
Qed.
Lemma mul_special_wf a b : bf_wf a → bf_wf b → bf_wf (mul_special a b).2.
Proof.
  intros [Sa _] [Sb _]. pose proof (sign_xor _ _ Sa Sb) as Hs. unfold mul_special, bf_wf.
  repeat destruct (_ || _); cbn [snd bf_sign]; (split; [tauto|]); unfold bf_is_0, bf_is_inf, bf_is_NaN; cbn [bf_tab bf_expn]; tauto.
Qed.
Lemma normal_dyad r : bf_normal r → (bf_mag r == dyad (val (bf_tab r)) (bf_expn r - LB * bf_len r))%Q.
Proof. done. Qed.
Lemma bf_round_normal r prec flags :
  bf_normal r → bf_sign r = 0 ∨ bf_sign r = 1 → LB * bf_len r <= B / 8 → - (B / 8) <= bf_expn r <= B / 8 → good_params prec flags →
  wp (bf_round r prec flags) (λ '(st, r'), rounds_to (bf_sign r) (bf_mag r) prec flags st r').
Proof.
  intros Hr Hs HL He Hg. eapply wp_mono; [by apply bf_round_cases|]. intros [st r'] (o & Ho & Hres).
  exists (val (bf_tab r)), (LB * bf_len r), (bf_expn r), o. split; [by apply normal_bounds|]. split; [by apply normal_width|]. done.
Qed.
(** the flags of [bf_rint] *)
Lemma rint_flags mode :
  rounding_mode mode → let flags := mode .| BF_FLAG_RADPNT_PREC in
  flags .& BF_RND_MASK = mode ∧ bf_get_exp_bits flags = LB - 3 ∧ flags .& BF_FLAG_SUBNORMAL = 0 ∧ (flags .& BF_FLAG_RADPNT_PREC =? 0) = false.
Proof.
  intros Hm flags. unfold rounding_mode in Hm. unfold flags, bf_get_exp_bits, BF_EXP_BITS_MAX.
  assert (mode = 0 ∨ mode = 1 ∨ mode = 2 ∨ mode = 3 ∨ mode = 4 ∨ mode = 5 ∨ mode = 6) as Hin by lia.
  assert ((mode .| BF_FLAG_RADPNT_PREC) >> BF_EXP_BITS_SHIFT .& BF_EXP_BITS_MASK = 0) as -> by (by destruct Hin as [->|[->|[->|[->|[->|[->| ->]]]]]]).
  destruct (Z.eqb_spec 0 BF_EXP_BITS_MASK); [done|]. rewrite Z.sub_0_r.
  destruct Hin as [->|[->|[->|[->|[->|[->| ->]]]]]]; done.
Qed.
End Canonical.

(** ** Rounding to an integer *)
Section Rint.
Context {LS : LimbSize}.
Notation LB := (@LIMB_BITS LS).

Lemma dyad_int n : (dyad n 0 == inject_Z n)%Q.
Proof. unfold dyad. change ((2 # 1) ^ 0)%Q with 1%Q. ring. Qed.
Lemma rounding_error_0 mode : rounding_error mode 0 0 1.
Proof. unfold rounding_error. change (Qabs (0 - 0)) with 0%Q. change (Qabs 0) with 0%Q. repeat split; intros; apply Qle_refl || done. Qed.
Lemma sixteenth : B / 16 = 2 ^ (LB - 3 - 1) ∧ B / 8 = 2 * (B / 16) ∧ 4 <= B / 16.
Proof. unfold B. destruct LIMB_BITS_cases as [-> | ->]; vm_compute; done. Qed.
Lemma rint_ready r mode :
  bf_normal r → bf_sign r = 0 ∨ bf_sign r = 1 → LB * bf_len r <= B / 8 → - (B / 16) < bf_expn r < B / 16 → rounding_mode mode →
  round_ready r (bf_len r) 0 (mode .| BF_FLAG_RADPNT_PREC).
Proof.
  intros Hr Hs HL He Hmode. pose proof (rint_flags mode Hmode) as (F1 & F2 & F3 & F4). destruct sixteenth as (E16 & E8 & Hp16). pose proof LB_pos. pose proof (nf_len r Hr).
  split; rewrite ?F1, ?F2; try done; try lia; [apply Hr|unfold bf_len; rewrite low_all; apply Hr|].
  unfold BF_PREC_INF, BF_PREC_MAX. rewrite Z.shiftl_1_l. pose proof (Z.pow_le_mono_r 2 2 (LB - 2)). lia.
Qed.
(** the value of a result, when it is the reference without underflow or overflow *)
Lemma rint_value r mode st o r' :
  bf_normal r → bf_sign r = 0 ∨ bf_sign r = 1 → - (B / 16) < bf_expn r < B / 16 → rounding_mode mode →
  ref_round (bf_sign r) (val (bf_tab r)) (LB * bf_len r) (bf_expn r) 0 (mode .| BF_FLAG_RADPNT_PREC) = (st, o) → is_result (bf_sign r) o r' →
  ∃ n, (bf_Q r' == inject_Z n)%Q ∧ rounding_error mode (bf_Q r) (inject_Z n) 1.
Proof.
  intros Hr Hs He Hmode Ho Hres. pose proof (rint_flags mode Hmode) as (F1 & F2 & F3 & F4). destruct sixteenth as (E16 & E8 & Hp16). pose proof LB_pos.
  pose proof (normal_bounds r Hr) as Hm. pose proof (normal_width r Hr) as Hw. set (w := LB * bf_len r) in *. set (m := val (bf_tab r)) in *. set (e := bf_expn r) in *.
  assert (0 < 2 ^ (w - 1)) as Hpw by (apply Z.pow_pos_nonneg; lia).
  unfold ref_round in Ho. rewrite F1, F2, <- E16 in Ho. unfold ref_prec in Ho. rewrite F4 in Ho. cbn [negb] in Ho.
  assert ((0 =? BF_PREC_INF) = false) as E0.
  { apply Z.eqb_neq. unfold BF_PREC_INF, BF_PREC_MAX. rewrite Z.shiftl_1_l. pose proof (Z.pow_le_mono_r 2 2 (LB - 2)). lia. }
  rewrite E0, Z.add_0_r in Ho. set (s := Z.max 0 (w - e)) in *. assert (0 < 2 ^ s) as Hps by (apply Z.pow_pos_nonneg; lia).
  pose proof (round_quot_rounds mode (bf_sign r) m (2 ^ s) Hps ltac:(lia) Hmode Hs) as Hround.
  assert (0 <= round_quot mode (bf_sign r) m (2 ^ s)) as Hn0.
  { unfold round_quot. pose proof (Z.div_pos m (2 ^ s) ltac:(lia) Hps). destruct (round_incr _ _ _ _); cbn [b2z]; lia. }
  assert (0 < e → Z.log2 (round_quot mode (bf_sign r) m (2 ^ s)) + 1 <= w - s + 1) as Hlog.
  { intros Hpos. apply (round_quot_log2 mode (bf_sign r) m w s); [done|done|lia]. }
  set (n := round_quot mode (bf_sign r) m (2 ^ s)) in *. pose proof (Z.log2_nonneg n).
  assert (bf_Q r' == signed (bf_sign r) (dyad n (e - w + s)))%Q as EQ.
  { destruct (Z.eqb_spec n 0) as [En|En].
    - injection Ho as <- <-. destruct Hres as [_ Hz]. rewrite (zero_Q r' Hz), En, signed_dyad, Z.mul_0_r by done. by rewrite dyad_0.
    - assert (o = RFinite n (e - w + s)) as ->.
      { destruct (Z.leb_spec e 0); [by injection Ho|]. specialize (Hlog ltac:(lia)).
        destruct (Z.ltb_spec (e - w + s + Z.log2 n + 1) (- (B / 16) + 3)); [lia|]. cbn [andb] in Ho.
        destruct (Z.ltb_spec (B / 16) (e - w + s + Z.log2 n + 1)); [lia|]. by injection Ho. }
      destruct Hres as [Es [_ Hmag]]. unfold bf_Q, signed. rewrite Es. destruct (_ =? 1); by rewrite Hmag. }
  assert (dyad n (e - w + s) == inject_Z (n * 2 ^ (e - w + s)))%Q as Eint by (rewrite <- (Z.add_0_l (e - w + s)) at 1; rewrite <- dyad_shift, dyad_int by lia; done).
  exists ((1 - 2 * bf_sign r) * (n * 2 ^ (e - w + s))).
  assert (bf_Q r' == dyad ((1 - 2 * bf_sign r) * (n * 2 ^ (e - w + s))) 0)%Q as EQ2.
  { rewrite EQ, <- signed_dyad by done. unfold signed. destruct (_ =? 1); by rewrite Eint, dyad_int. }
  split; [by rewrite <- dyad_int|]. pose proof (is_rounding_error mode (bf_sign r) m w e e n Hmode Hs ltac:(lia) Hn0 Hround) as Herr. fold s in Herr.
  rewrite Z.sub_diag in Herr. unfold rounding_error in *. rewrite (dyad_int 1) in Herr. rewrite <- (dyad_int (_ * _)), <- EQ2, EQ.
  assert (dyad (n * 2 ^ s) (e - w) == dyad n (e - w + s))%Q as Es by (apply dyad_shift; lia).
  change (bf_Q r) with (signed (bf_sign r) (dyad m (e - w))). unfold signed in *. destruct (bf_sign r =? 1); rewrite <- Es; exact Herr.
Qed.
End Rint.

(** ** The operations *)
Section Theorems.
Context {LS : LimbSize} `{!Allocator, !Reliable}.
Notation LB := (@LIMB_BITS LS).

Lemma normal_one_limb s e x : B / 2 <= x < B → BF_EXP_ZERO < e < BF_EXP_INF → bf_normal (mk_bf s e [x]).
Proof.
  intros Hx He. destruct B_half as [HB HB2]. rewrite B_half_pow in Hx.
  split; unfold bf_len; cbn [bf_tab bf_expn]; change (zlen [x]) with 1; [constructor; [unfold limb; lia|constructor]|lia| | |done].
  - change (limb_at [x] 0) with x. pose proof LB_pos. pose proof (Z.pow_pos_nonneg 2 (LB - 1)). lia.
  - cbn [val]. rewrite Z.mul_1_r. lia.
Qed.
(** C29: The product that [bf_mul] stores is the exact product of the two numbers
    rounded once, in every mode other than faithful rounding: sign, precision,
    overflow, underflow and status flags are those of the reference rounding. *)
Theorem bf_mul_correct alias r a b prec flags :
  bf_normal a → bf_normal b → bf_sign a = 0 ∨ bf_sign a = 1 → bf_sign b = 0 ∨ bf_sign b = 1 → small_operand a → small_operand b →
  good_params prec flags → flags .& BF_RND_MASK ≠ BF_RNDF → limbs (bf_tab r) →
  wp (bf_mul alias r a b prec flags) (λ '(st, r'), rounds_to (bf_sign a .^ bf_sign b) (bf_mag a * bf_mag b)%Q prec flags st r').
Proof.
  intros Ha Hb Sa Sb Oa Ob Hg Hf Lr. eapply wp_mono; [by apply mul_normal|]. intros [st r']. unfold mul_len.
  destruct (Z.eqb_spec (flags .& BF_RND_MASK) BF_RNDF); [done|]. by rewrite !top_mag_all.
Qed.
(** Whatever its operands and the rounding mode, [bf_mul] returns a number in
    canonical form; zeros, infinities and NaN follow the rules of IEEE 754. *)
Theorem bf_mul_canonical alias r a b prec flags :
  bf_wf a → bf_wf b → (bf_normal a → small_operand a) → (bf_normal b → small_operand b) → good_params prec flags → limbs (bf_tab r) →
  wp (bf_mul alias r a b prec flags) (λ '(st, r'), bf_wf r' ∧ (bf_len a = 0 ∨ bf_len b = 0 → (st, r') = mul_special a b)).
Proof.
  intros Wa Wb Oa Ob Hg Lr. destruct (decide (bf_len a = 0 ∨ bf_len b = 0)) as [Hl|Hl].
  - eapply wp_mono; [by apply bf_mul_special|]. intros [st r'] E. split; [|done]. pose proof (mul_special_wf a b Wa Wb) as Hw. by rewrite <- E in Hw.
  - assert (bf_normal a ∧ bf_normal b) as [Ha Hb] by (split; apply wf_normal; tauto). destruct Wa as [Sa _], Wb as [Sb _].
    eapply wp_mono; [apply mul_normal; auto|]. intros [st r'] Hr. split; [|tauto]. eapply rounds_to_wf; [|exact Hr]. by apply sign_xor.
Qed.
(** C30: [bf_round] of a number whose exponent is in range: the result is less than
    one unit of the last place away, at most half a unit in the modes to nearest,
    and on the side that a directed mode asks for; it is exact unless the status
    says inexact. *)
Theorem bf_round_error r prec flags :
  bf_normal r → bf_sign r = 0 ∨ bf_sign r = 1 → LB * bf_len r <= B / 8 → - (B / 8) <= bf_expn r <= B / 8 → good_params prec flags →
  flags .& BF_FLAG_RADPNT_PREC = 0 → - 2 ^ (bf_get_exp_bits flags - 1) + 3 <= bf_expn r < 2 ^ (bf_get_exp_bits flags - 1) →
  wp (bf_round r prec flags) (λ '(st, r'), bf_normal r' ∧
    rounding_error (flags .& BF_RND_MASK) (bf_Q r) (bf_Q r') (dyad 1 (bf_expn r - prec)) ∧
    (st = 0 ∨ st = BF_ST_INEXACT) ∧ (st = 0 → (bf_Q r' == bf_Q r)%Q)).
Proof.
  intros Hr Hs HL He Hg Hrad Hrange. eapply wp_mono; [by apply bf_round_normal|]. intros [st r'] Hres.
  destruct (normal_mag r Hr) as [Hlo Hhi]. destruct (rounds_to_error _ _ (bf_expn r) _ _ _ _ Hres Hs Hg Hrad Hlo Hhi Hrange) as (Hn & Hst & Herr & Hex).
  done.
Qed.
(** [bf_rint] returns the integer that rounds the number in the given mode. *)
Theorem bf_rint_integer r mode :
  bf_finite r → LB * bf_len r <= B / 8 → (bf_normal r → - (B / 16) < bf_expn r < B / 16) → rounding_mode mode →
  wp (bf_rint r mode) (λ '(st, r'), bf_wf r' ∧ ∃ n, (bf_Q r' == inject_Z n)%Q ∧ rounding_error mode (bf_Q r) (inject_Z n) 1).
Proof.
  intros [Hs [Hr|Hr]] HL He Hmode.
  - unfold bf_rint, bf_round. destruct Hr as [Et Ee]. unfold bf_len. rewrite Et. cbn [Z.eqb zlen length Z.of_nat]. apply wp_ret.
    split; [split; [done|left; by split]|]. exists 0. assert (bf_Q r == 0)%Q as E0 by (by apply zero_Q). split; [done|]. unfold rounding_error. rewrite E0. apply (rounding_error_0 mode).
  - specialize (He Hr). pose proof (rint_flags mode Hmode) as (F1 & F2 & F3 & F4). unfold bf_rint, bf_round.
    pose proof (nf_len r Hr). destruct (Z.eqb_spec (bf_len r) 0); [lia|]. eapply wp_mono; [apply __bf_round_spec, rint_ready; auto|].
    intros [st r'] (o & Ho & Hres). unfold bf_len in Ho at 1. rewrite low_all in Ho.
    split; [by eapply is_result_wf|]. by eapply rint_value.
Qed.
(** [bf_cmp] orders the numbers as rationals: positive and negative zero are
    equal, and the limbs that an operand does not have count as zero. *)
Theorem bf_cmp_order a b :
  bf_finite a → bf_finite b → bf_len a < B / 2 → bf_len b < B / 2 → bf_cmp a b = Some (sgn_of (bf_Q a ?= bf_Q b)%Q).
Proof. apply bf_cmp_spec. Qed.
(** ** Integers *)
Lemma set_ui_one r a :
  0 < a < B → wp ('(ret, r) ← bf_resize r 1;
    if negb (ret =? 0) then bf_mem_error r
    else let shift := clz a in mret (0, mk_bf (bf_sign r) (LB - shift) [ulimb (a << shift)]))
    (λ '(st, r'), st = 0 ∧ bf_sign r' = bf_sign r ∧ (bf_mag r' == inject_Z a)%Q).
Proof.
  intros Ha. eapply wp_bind; [apply wp_bf_resize; lia|]. intros ? (g & -> & _ & _). cbn [Z.eqb negb bf_sign set_tab]. apply wp_ret. split; [done|]. split; [done|].
  assert (limb a ∧ a ≠ 0) as [La Ha0] by (unfold limb; lia). destruct (clz_spec a La Ha0) as [Hs Hv]. assert (0 < 2 ^ clz a) as Hpc by (apply Z.pow_pos_nonneg; lia).
  rewrite Z.shiftl_mul_pow2, ulimb_id by (unfold limb; nia).
  unfold bf_mag, bf_len. cbn [bf_tab bf_expn val]. change (zlen [a * 2 ^ clz a]) with 1. rewrite Z.mul_0_r, Z.add_0_r, dyad_shift by lia.
  replace (LB - clz a - LB * 1 + clz a) with 0 by lia. apply dyad_int.
Qed.
Lemma shld_spec a1 a0 s :
  limb a1 → limb a0 → 0 <= s < LB → a1 * 2 ^ s < B → ulimb (a0 << s) + B * shld a1 a0 s = (a0 + B * a1) * 2 ^ s.
Proof.
  intros L1 L0 Hs Hv. unfold shld. destruct (Z.eqb_spec s 0) as [->|Hs0]; cbn [negb].
  - rewrite Z.shiftl_0_r, ulimb_id by done. lia.
  - destruct (shl_limb a1 a0 s L1 L0 ltac:(lia)) as [_ E1]. destruct (shl_limb a0 0 s L0 ltac:(pose proof B_pos; split; lia) ltac:(lia)) as [_ E0].
    rewrite Z.shiftr_0_l, Z.lor_0_r in E0. assert (a1 >> (LB - s) = 0) as Ez.
    { rewrite shiftr_div by lia. apply Z.div_small. unfold limb in L1. split; [lia|]. assert (B = 2 ^ (LB - s) * 2 ^ s) as HB by (unfold B; rewrite <- Z.pow_add_r by lia; f_equal; lia).
      assert (0 < 2 ^ s) by (apply Z.pow_pos_nonneg; lia). nia. }
    rewrite Ez in E1. lia.
Qed.
Lemma bf_set_ui_spec r a :
  0 <= a < 2 ^ 64 → wp (bf_set_ui r a) (λ '(st, r'), st = 0 ∧ bf_sign r' = 0 ∧ (bf_mag r' == inject_Z a)%Q).
Proof.
  intros Ha. unfold bf_set_ui. destruct (Z.eqb_spec a 0) as [->|Hne].
  { eapply wp_bind; [apply wp_resize_0|]. intros ? ->. apply wp_ret. split; [done|]. split; [done|]. apply zero_mag. by split. }
  destruct (Z.ltb_spec a B); [apply (set_ui_one (set_sign r 0)); lia|].
  assert (LB = 32 ∧ B = 2 ^ 32) as [E32 EB] by (unfold B in *; destruct LIMB_BITS_cases as [E|E]; rewrite E in *; [lia|done]).
  eapply wp_bind; [apply wp_bf_resize; lia|]. intros ? (g & -> & _ & _). cbn [Z.eqb negb bf_sign set_tab set_sign]. apply wp_ret. split; [done|]. split; [done|].
  assert (ulimb (a >> 32) = a / B) as Ea1 by (rewrite shiftr_div, <- EB by lia; apply Z.mod_small; rewrite EB in *; split; [apply Z.div_pos; lia|apply Z.div_lt_upper_bound; lia]).
  assert (limb (a / B)) as L1 by (rewrite <- Ea1; apply limb_ulimb). assert (a / B ≠ 0) as Hn1 by (pose proof (Z.div_str_pos a B); rewrite EB in *; lia).
  rewrite Ea1. destruct (clz_spec (a / B) L1 Hn1) as [Hs Hv]. unfold bf_mag, bf_len. cbn [bf_tab bf_expn val].
  match goal with |- context [zlen [?x; ?y]] => change (zlen [x; y]) with 2 end. rewrite Z.mul_0_r, Z.add_0_r, shld_spec by (done || apply limb_ulimb || lia).
  assert (ulimb a + B * (a / B) = a) as -> by (unfold ulimb; pose proof (Z.div_mod a B); rewrite EB in *; lia).
  rewrite dyad_shift by lia. replace (2 * LB - clz (a / B) - LB * 2 + clz (a / B)) with 0 by lia. apply dyad_int.
Qed.
(** [bf_set_si] stores exactly the integer it is given, except the least
    64-bit integer, whose negation overflows. *)
Theorem bf_set_si_exact r a :
  - 2 ^ 63 < a < 2 ^ 63 → wp (bf_set_si r a) (λ '(st, r'), st = 0 ∧ (bf_Q r' == inject_Z a)%Q).
Proof.
  intros Ha. unfold bf_set_si. destruct (Z.eqb_spec a (- 2 ^ 63)); [lia|]. destruct (Z.ltb_spec a 0).
  - assert (u64 (- a) = - a) as -> by (apply Z.mod_small; lia). eapply wp_bind; [apply bf_set_ui_spec; lia|].
    intros [st r'] (-> & Es & Em). apply wp_ret. split; [done|]. unfold bf_Q. cbn [bf_sign set_sign Z.eqb Pos.eqb].
    change (bf_mag (set_sign r' 1)) with (bf_mag r'). rewrite Em. rewrite inject_Z_opp. ring.
  - eapply wp_mono; [apply bf_set_ui_spec; lia|]. intros [st r'] (-> & Es & Em). split; [done|]. unfold bf_Q. by rewrite Es.
Qed.
End Theorems.

(** ** Examples *)
Definition three : bf_t := mk_bf 0 2 [3 * 2 ^ 62].
Definition minus_five : bf_t := mk_bf 1 3 [5 * 2 ^ 61].
Definition minus_eleven_halves : bf_t := mk_bf 1 3 [11 * 2 ^ 60].
Lemma three_normal : bf_normal three ∧ bf_wf three ∧ small_operand three.
Proof.
  assert (bf_normal three) as Hn by (apply normal_one_limb; vm_compute; done).
  split; [done|]. split; [split; [by left|tauto]|]. vm_compute. done.
Qed.
Lemma minus_five_normal : bf_normal minus_five ∧ bf_wf minus_five ∧ small_operand minus_five.
Proof.
  assert (bf_normal minus_five) as Hn by (apply normal_one_limb; vm_compute; done).
  split; [done|]. split; [split; [by right|tauto]|]. vm_compute. done.
Qed.
Lemma good_params_10 : good_params 10 BF_RNDN.
Proof. split; vm_compute; done. Qed.
Lemma bf_mul_correct_witness : ∃ st r' h',
  bf_mul false bf_init three minus_five 10 BF_RNDN O = Some ((st, r'), h') ∧
  rounds_to 1 (bf_mag three * bf_mag minus_five)%Q 10 BF_RNDN st r'.
Proof.
  destruct (wp_returns _ O _ (bf_mul_correct false bf_init three minus_five 10 BF_RNDN (proj1 three_normal) (proj1 minus_five_normal)
    ltac:(by left) ltac:(by right) (proj2 (proj2 three_normal)) (proj2 (proj2 minus_five_normal)) good_params_10 ltac:(vm_compute; done) ltac:(constructor)))
    as ([st r'] & h' & E & Hr). eauto.
Defined.
Lemma bf_mul_canonical_witness : ∃ st r' h',
  bf_mul false bf_init three (mk_bf 1 BF_EXP_INF []) 10 BF_RNDN O = Some ((st, r'), h') ∧
  bf_wf r' ∧ (st, r') = (0, mk_bf 1 BF_EXP_INF []).
Proof.
  destruct (wp_returns _ O _ (bf_mul_canonical false bf_init three (mk_bf 1 BF_EXP_INF []) 10 BF_RNDN (proj1 (proj2 three_normal))
    ltac:(split; [by right|right; right; left; by split]) (λ _, proj2 (proj2 three_normal)) ltac:(intros Hn; by pose proof (nf_len _ Hn)) good_params_10 ltac:(constructor)))
    as ([st r'] & h' & E & Hw & Hs). exists st, r', h'. split; [done|]. split; [done|]. exact (Hs (or_intror eq_refl)).
Defined.
Lemma bf_round_error_witness : ∃ st r' h',
  bf_round minus_five 2 BF_RNDD O = Some ((st, r'), h') ∧ rounding_error BF_RNDD (bf_Q minus_five) (bf_Q r') (dyad 1 1).
Proof.
  destruct (wp_returns _ O _ (bf_round_error minus_five 2 BF_RNDD (proj1 minus_five_normal) ltac:(by right) ltac:(vm_compute; done) ltac:(vm_compute; done)
    ltac:(split; vm_compute; done) ltac:(done) ltac:(vm_compute; done))) as ([st r'] & h' & E & _ & Hr & _). eauto.
Defined.
Lemma bf_rint_integer_witness : ∃ st r' h' n,
  bf_rint minus_eleven_halves BF_RNDU O = Some ((st, r'), h') ∧
  (bf_Q r' == inject_Z n)%Q ∧ rounding_error BF_RNDU (- (11 # 2)) (inject_Z n) 1.
Proof.
  assert (bf_normal minus_eleven_halves) as Hn by (apply normal_one_limb; vm_compute; done).
  destruct (wp_returns _ O _ (bf_rint_integer minus_eleven_halves BF_RNDU ltac:(split; [by right|by right]) ltac:(vm_compute; done)
    ltac:(intros _; vm_compute; done) ltac:(vm_compute; done))) as ([st r'] & h' & E & _ & n & En & Herr).
  exists st, r', h', n. split; [done|]. split; [done|]. unfold rounding_error in *.
  assert (bf_Q minus_eleven_halves == - (11 # 2))%Q as EQ by (vm_compute; reflexivity). by rewrite EQ in Herr.
Defined.
Lemma bf_cmp_order_witness : bf_cmp minus_five three = Some (sgn_of (bf_Q minus_five ?= bf_Q three)%Q).
Proof.
  apply (bf_cmp_order minus_five three); [|..|vm_compute; done|vm_compute; done].
  - split; [by right|right; apply minus_five_normal].
  - split; [by left|right; apply three_normal].
Defined.
Lemma bf_set_si_exact_witness : ∃ st r' h', bf_set_si bf_init (-1000) O = Some ((st, r'), h') ∧ (bf_Q r' == inject_Z (-1000))%Q.
Proof.
  destruct (wp_returns _ O _ (bf_set_si_exact bf_init (-1000) ltac:(done))) as ([st r'] & h' & E & _ & Hr). eauto.
Defined.
(** Faithful rounding should give one of the two neighbours of the product;
    [bf_mul] may miss both, because it drops limbs of the operands that reach
    three quarters of a unit before it rounds: here the result is below the number
    that rounding down gives. *)
Example bf_mul_rndf_unfaithful :
  let a := mk_bf 0 0 [2 ^ 64 - 1; 2 ^ 64 - 4] in let b := mk_bf 0 0 [2 ^ 64 - 1; 2 ^ 63 + 1] in
  ∃ down faithful h1 h2,
    bf_mul false bf_init a b 62 BF_RNDD O = Some ((BF_ST_INEXACT, down), h1) ∧
    bf_mul false bf_init a b 62 BF_RNDF O = Some ((BF_ST_INEXACT, faithful), h2) ∧ (bf_Q faithful < bf_Q down)%Q.
Proof. eexists _, _, _, _. split; [vm_compute; reflexivity|]. split; [vm_compute; reflexivity|]. vm_compute. reflexivity. Qed.
