(* ===== verification/BigFloatAdd.v ===== *)
(** * Addition of big floats (js/libbf.c)

    The operand of the smaller exponent is shifted while the limbs are added.
    Only the limbs that the precision asks for are stored: those below are
    added for their carry, and whether one of them is not zero goes into the
    lowest bit of the result. *)
From S2P Require Import Prelude Alloc Limb LimbOps BigFloat.

Section Add.
Context `{!LimbSize, !Allocator}.

(** ** Cancelled bits *)
(** [/* first search the equals bits */]: both limbs, [bit_offset] and [n] *)
Fixpoint cancel_equal (fuel : nat) (a b : bf_t) (bit_offset b_offset n : Z) : option (Z * Z * Z * Z) :=
  match fuel with
  | O => None
  | S fuel =>
    v1 ← get_limbz a (bit_offset >> LIMB_LOG2_BITS);
    pos ← sword (bit_offset + b_offset);
    v2 ← get_bits (bf_tab b) (bf_len b) pos;
    if negb (v1 =? v2) then Some (v1, v2, bit_offset, n)
    else
      n ← sword (n + LIMB_BITS); bit_offset ← sword (bit_offset - LIMB_BITS);
      cancel_equal fuel a b bit_offset b_offset n
  end.
(** the zeros of [a] over ones of [b] in the limbs that follow *)
Fixpoint cancel_run (fuel : nat) (a b : bf_t) (bit_offset b_offset n : Z) : option Z :=
  match fuel with
  | O => None
  | S fuel =>
    v1 ← get_limbz a (bit_offset >> LIMB_LOG2_BITS);
    pos ← sword (bit_offset + b_offset);
    v2 ← get_bits (bf_tab b) (bf_len b) pos;
    if negb (v1 =? 0) || negb (v2 =? ulimb (-1)) then
      sword (n + bf_min (clz v1) (clz (ulimb (Z.lnot v2))))
    else
      n ← sword (n + LIMB_BITS); bit_offset ← sword (bit_offset - LIMB_BITS);
      cancel_run fuel a b bit_offset b_offset n
  end.
Definition cancel_fuel (a b : bf_t) : nat := (length (bf_tab a) + length (bf_tab b) + 3)%nat.
(** the limb that holds the first different bit: [n], and whether the search ends in it *)
Definition cancel_first (v1 v2 n : Z) : option (Z * bool) :=
  let p := clz (v1 .^ v2) + 1 in
  n ← sword (n + p);
  let p := LIMB_BITS - p in
  if p >? 0 then
    let mask := limb_mask 0 (p - 1) in
    let p1 := bf_min (clz (v1 .& mask)) (clz (ulimb (Z.lnot v2) .& mask)) - (LIMB_BITS - p) in
    n ← sword (n + p1); Some (n, negb (p1 =? p))
  else Some (n, false).
Definition count_cancelled_bits (a b : bf_t) : option Z :=
  let bit_offset := slimb (bf_len a * LIMB_BITS - 1) in
  let b_offset := slimb ((bf_len b - bf_len a) * LIMB_BITS - (LIMB_BITS - 1) + bf_expn a - bf_expn b) in
  '(v1, v2, bit_offset, n) ← cancel_equal (cancel_fuel a b) a b bit_offset b_offset 0;
  '(n, stop) ← cancel_first v1 v2 n;
  if stop : bool then Some n
  else bit_offset ← sword (bit_offset - LIMB_BITS); cancel_run (cancel_fuel a b) a b bit_offset b_offset n.

(** ** Addition of the limbs *)
(** [v1 + (v2 ^ sub_mask) + carry] with its carry *)
Definition add_limbs (v1 v2 sub_mask carry : Z) : Z * Z :=
  let v2 := v2 .^ sub_mask in
  let u := ulimb (v1 + v2) in
  let carry1 := b2z (u <? v1) in
  let u := ulimb (u + carry) in
  (u, b2z (u <? carry) .| carry1).
(** the bits before the result: [while (i < 0)] *)
Fixpoint add_low (fuel : nat) (a b : bf_t) (a_offset b_bit_offset sub_mask i carry z : Z) : option (Z * Z) :=
  if i <? 0 then
    match fuel with
    | O => None
    | S fuel =>
      ap ← sword (a_offset + i);
      bp ← sword (b_bit_offset + i * LIMB_BITS);
      let in_a := (ap >=? 0) && (ap <? bf_len a) in
      v1 ← (if in_a then (bf_tab a).[ap] else Some 0);
      let in_b := (bp + LIMB_BITS >? 0) && (bp <? slimb (bf_len b * LIMB_BITS)) in
      v2 ← (if in_b then get_bits (bf_tab b) (bf_len b) bp else Some 0);
      let i :=
        if negb (in_a || in_b) then
          let i := 0 in
          let i := if ap <? 0 then bf_min i (- a_offset) else i in
          if bp + LIMB_BITS <=? 0 then bf_min i ((- b_bit_offset) >> LIMB_LOG2_BITS) else i
        else i + 1 in
      let '(u, carry) := add_limbs v1 v2 sub_mask carry in
      add_low fuel a b a_offset b_bit_offset sub_mask i carry (z .| u)
    end
  else Some (carry, z).
Definition add_fuel (a b : bf_t) : nat := (length (bf_tab a) + length (bf_tab b) + 5)%nat.
(** [/* and the result */] *)
Definition add_high (a b : bf_t) (a_offset b_bit_offset sub_mask : Z) (r_len : Z) (tab : list Z) (carry : Z) : option (list Z * Z) :=
  for_up (Z.to_nat r_len) (λ i '(tab, carry),
    v1 ← get_limbz a (a_offset + i);
    pos ← sword (b_bit_offset + i * LIMB_BITS);
    v2 ← get_bits (bf_tab b) (bf_len b) pos;
    let '(u, carry) := add_limbs v1 v2 sub_mask carry in
    tab ← aset tab i u; Some (tab, carry)) 0 (tab, carry).
(** two numbers that are not zero, [|a| >= |b|] *)
Definition add_normal (r a b : bf_t) (a_sign is_sub prec flags : Z) : M (Z * bf_t) :=
  d ← lift (sword (bf_expn a - bf_expn b));
  cancelled_bits ← lift
    (if negb (is_sub =? 0) then (if d <=? 1 then count_cancelled_bits a b else Some 1) else Some 0);
  let precl := ulimb (cancelled_bits + prec + 2 + LIMB_BITS - 1) / LIMB_BITS in
  d1 ← lift (sword (d + LIMB_BITS - 1));
  let tot_len := bf_max (bf_len a) (bf_len b + Z.quot d1 LIMB_BITS) in
  let r_len := bf_min precl tot_len in
  '(ret, r) ← bf_resize (mk_bf a_sign (bf_expn a) (bf_tab r)) r_len;
  if negb (ret =? 0) then bf_mem_error r
  else
    let a_offset := slimb (bf_len a - r_len) in
    let b_bit_offset := slimb ((bf_len b - r_len) * LIMB_BITS + d) in
    let sub_mask := ulimb (- is_sub) in
    '(carry, z) ← lift (add_low (add_fuel a b) a b a_offset b_bit_offset sub_mask (slimb (r_len - tot_len)) is_sub 0);
    '(tab, carry) ← lift (add_high a b a_offset b_bit_offset sub_mask r_len (bf_tab r) carry);
    v ← lift tab.[0];
    tab ← lift (aset tab 0 (v .| b2z (negb (z =? 0))));
    let r := set_tab r tab in
    if (is_sub =? 0) && negb (carry =? 0) then
      '(ret, r) ← bf_resize r (r_len + 1);
      if negb (ret =? 0) then bf_mem_error r
      else
        tab ← lift (aset (bf_tab r) r_len 1);
        e ← lift (sword (bf_expn r + LIMB_BITS));
        bf_normalize_and_round (mk_bf (bf_sign r) e tab) prec flags
    else bf_normalize_and_round r prec flags.
(** [|a| >= |b|]: from [else if (a->len == 0 || b->len == 0)] on *)
Definition add_ordered (r a b : bf_t) (a_sign is_sub prec flags : Z) : M (Z * bf_t) :=
  if (bf_len a =? 0) || (bf_len b =? 0) then
    if bf_expn a >=? BF_EXP_INF then
      if bf_expn a =? BF_EXP_NAN then r ← bf_set_nan r; mret (0, r)
      else if (bf_expn b =? BF_EXP_INF) && negb (is_sub =? 0) then r ← bf_set_nan r; mret (BF_ST_INVALID_OP, r)
      else r ← bf_set_inf r a_sign; mret (0, r)
    else
      '(_, r) ← bf_set r a;
      bf_normalize_and_round (set_sign r a_sign) prec flags
  else add_normal r a b a_sign is_sub prec flags.
(** [r] is neither [a] nor [b] *)
Definition bf_add_internal (r a b : bf_t) (prec flags b_neg : Z) : M (Z * bf_t) :=
  let a_sign := bf_sign a in
  let b_sign := bf_sign b .^ b_neg in
  let is_sub := a_sign .^ b_sign in
  cmp_res ← lift (bf_cmpu a b);
  let '(a, b, a_sign) := if cmp_res <? 0 then (b, a, b_sign) else (a, b, a_sign) in
  if (cmp_res =? 0) && negb (is_sub =? 0) && (bf_expn a <? BF_EXP_INF) then
    r ← bf_set_zero r (b2z (flags .& BF_RND_MASK =? BF_RNDD)); mret (0, r)
  else add_ordered r a b a_sign is_sub prec flags.
Definition __bf_add (r a b : bf_t) (prec flags : Z) : M (Z * bf_t) := bf_add_internal r a b prec flags 0.
Definition __bf_sub (r a b : bf_t) (prec flags : Z) : M (Z * bf_t) := bf_add_internal r a b prec flags 1.
(** [alias]: [r] is one of the operands *)
Definition bf_op2 (alias : bool) (r a b : bf_t) (prec flags : Z) (func : bf_t → bf_t → bf_t → Z → Z → M (Z * bf_t)) : M (Z * bf_t) :=
  func (if alias then bf_init else r) a b prec flags.
Definition bf_add (alias : bool) (r a b : bf_t) (prec flags : Z) : M (Z * bf_t) := bf_op2 alias r a b prec flags __bf_add.
Definition bf_sub (alias : bool) (r a b : bf_t) (prec flags : Z) : M (Z * bf_t) := bf_op2 alias r a b prec flags __bf_sub.
End Add.
