(* ===== verification/BigFloatAlign.v ===== *)
(** * Aligned operands

    The limbs that the addition reads are those of the two numbers written
    in one frame of limbs: [get_bits] reads a limb at any bit position. *)
From S2P Require Import Prelude Alloc Limb LimbOps BigFloat LimbBits BigFloatRound BigFloatValue.

Section Align.
Context {LS : LimbSize}.
Notation LB := (@LIMB_BITS LS).

(** limb [j] of a number *)
Definition digit (x j : Z) : Z := (x / B ^ j) mod B.
Lemma digit_limb x j : limb (digit x j).
Proof. pose proof B_pos. apply Z.mod_pos_bound. lia. Qed.
Lemma limb_at_neg l i : i < 0 → limb_at l i = 0.
Proof. intros Hi. unfold limb_at, aget. by destruct (Z.ltb_spec i 0); [|lia]. Qed.
Lemma limb_at_beyond l i : zlen l <= i → limb_at l i = 0.
Proof.
  intros Hi. unfold limb_at, aget. destruct (i <? 0); [done|]. by rewrite lookup_ge_None_2 by (unfold zlen in *; lia).
Qed.
Lemma digit_shifted l i c : limbs l → 0 <= c → 0 <= i + c → digit (val l * B ^ c) (i + c) = limb_at l i.
Proof.
  intros Hl Hc Hic. pose proof B_pos. unfold digit. destruct (Z.lt_ge_cases i 0).
  - rewrite limb_at_neg by done. replace c with (- i + (i + c)) at 1 by lia. rewrite Z.pow_add_r, Z.mul_assoc, Z.div_mul by (lia || (pose proof (pow_B_pos (i + c)); lia)).
    replace (- i) with (- i - 1 + 1) by lia. rewrite pow_B_S, (Z.mul_comm B), Z.mul_assoc, Z.mod_mul by lia. done.
  - rewrite Z.pow_add_r, Z.div_mul_cancel_r by (lia || (pose proof (pow_B_pos i); pose proof (pow_B_pos c); lia)). symmetry. by apply limb_at_val.
Qed.
(** a shift left and a shift right that is longer *)
Lemma shift_scale v k n m : 0 <= k → 0 <= n → 0 <= m → v * 2 ^ (k + m) / 2 ^ (n + m) = v * 2 ^ k / 2 ^ n.
Proof.
  intros Hk Hn Hm. rewrite !Z.pow_add_r, Z.mul_assoc by lia. apply Z.div_mul_cancel_r; apply Z.pow_nonzero; lia.
Qed.
Lemma shift_invariant v pos k1 k2 : 0 <= k1 → 0 <= k2 → 0 <= pos + k1 → 0 <= pos + k2 → v * 2 ^ k1 / 2 ^ (pos + k1) = v * 2 ^ k2 / 2 ^ (pos + k2).
Proof.
  intros H1 H2 H3 H4. rewrite <- (shift_scale v k1 (pos + k1) k2), <- (shift_scale v k2 (pos + k2) k1) by lia.
  by rewrite (Z.add_comm k2 k1), <- !Z.add_assoc, (Z.add_comm k1 k2).
Qed.
Lemma shr_pair a0 a1 p : limb a0 → limb a1 → 0 < p < LB → (a0 >> p) .| ulimb (a1 << (LB - p)) = (a0 + B * a1) / 2 ^ p mod B.
Proof.
  intros H0 H1 Hp. unfold limb in *. assert (0 < 2 ^ p) as Hpp by (apply Z.pow_pos_nonneg; lia). assert (0 < 2 ^ (LB - p)) as Hpq by (apply Z.pow_pos_nonneg; lia).
  assert (B = 2 ^ (LB - p) * 2 ^ p) as HB by (unfold B; rewrite <- Z.pow_add_r by lia; f_equal; lia).
  assert (0 <= a0 / 2 ^ p < 2 ^ (LB - p)) as Hq by (split; [apply Z.div_pos; lia|apply Z.div_lt_upper_bound; lia]).
  assert (ulimb (a1 << (LB - p)) = (a1 mod 2 ^ p) << (LB - p)) as ->.
  { unfold ulimb. rewrite !Z.shiftl_mul_pow2, HB, (Z.mul_comm (2 ^ (LB - p))) by lia. by rewrite Z.mul_mod_distr_r by lia. }
  rewrite shiftr_div, Z.lor_comm, lor_shiftl_add by lia.
  replace (a0 + B * a1) with (a0 + (2 ^ (LB - p) * a1) * 2 ^ p) by (rewrite HB; ring). rewrite Z.div_add by lia.
  pose proof (Z.div_mod a1 (2 ^ p) ltac:(lia)) as E. pose proof (Z.mod_pos_bound a1 (2 ^ p) Hpp).
  apply (Z.mod_unique _ _ (a1 / 2 ^ p)); [left; rewrite HB; nia|]. rewrite E at 1. rewrite HB. ring.
Qed.
(** the limb at index [i] of the array, 0 outside *)
Lemma read_limb tab i : limbs tab → zlen tab < B / 2 → - (B / 2) <= i < B / 2 →
  (if ulimb i <? zlen tab then tab.[ulimb i] else Some 0) = Some (limb_at tab i).
Proof.
  intros Ht Hl Hi. destruct B_half as [HB _]. pose proof (zlen_nonneg tab). destruct (Z.lt_ge_cases i 0) as [Hneg|Hpos].
  - assert (ulimb i = i + B) as -> by (unfold ulimb; symmetry; apply (Z.mod_unique _ _ (-1)); lia).
    rewrite limb_at_neg by done. by destruct (Z.ltb_spec (i + B) (zlen tab)); [lia|].
  - rewrite ulimb_id by (unfold limb; lia). destruct (Z.ltb_spec i (zlen tab)); [by apply aget_limb_at|]. by rewrite limb_at_beyond.
Qed.
Lemma ulimb_succ i : ulimb (ulimb i + 1) = ulimb (i + 1).
Proof. pose proof B_pos. unfold ulimb. by rewrite Zplus_mod_idemp_l. Qed.
Lemma pair_window v n p : 0 <= v → 0 <= n → 0 < p < LB → (digit v n + B * digit v (n + 1)) / 2 ^ p mod B = (v / B ^ n / 2 ^ p) mod B.
Proof.
  intros Hv Hn Hp. pose proof B_pos. pose proof (pow_B_pos n Hn). unfold digit. rewrite pow_B_S, (Z.mul_comm B (B ^ n)), <- Z.div_div by lia.
  set (w := v / B ^ n). assert (w = (w mod B + B * (w / B mod B)) + (w / B / B) * (B * B)) as E.
  { assert (B ≠ 0) as HB0 by lia. pose proof (Z.div_mod w B HB0). pose proof (Z.div_mod (w / B) B HB0). lia. }
  assert (0 < 2 ^ p) as Hpp by (apply Z.pow_pos_nonneg; lia).
  assert (B = 2 ^ (LB - p) * 2 ^ p) as HB by (unfold B; rewrite <- Z.pow_add_r by lia; f_equal; lia).
  rewrite E at 3. replace (w / B / B * (B * B)) with (w / B / B * B * 2 ^ (LB - p) * 2 ^ p) by (rewrite HB at 6; ring).
  rewrite Z.div_add by lia. replace (w / B / B * B * 2 ^ (LB - p)) with (w / B / B * 2 ^ (LB - p) * B) by ring. by rewrite Z.mod_add by lia.
Qed.
Lemma get_bits_spec tab pos k :
  limbs tab → zlen tab < B / 2 → - (B / 2) <= pos < B / 2 → 0 <= k → 0 <= pos + k →
  get_bits tab (zlen tab) pos = Some ((val tab * 2 ^ k / 2 ^ (pos + k)) mod B).
Proof.
  intros Ht Hl Hpos Hk Hpk. pose proof LB_pos. destruct B_half as [HB HB31]. unfold get_bits. rewrite shiftr_log2, land_log2.
  assert (LB ≠ 0) as HLB0 by lia. assert (0 < LB) as HLBp by lia. pose proof (Z.div_mod pos LB HLB0) as E. pose proof (Z.mod_pos_bound pos LB HLBp) as Hp.
  set (i := pos / LB) in *. set (p := pos mod LB) in *. assert (- (B / 2) <= i ∧ i + 1 < B / 2) as [Hi1 Hi2] by (split; [destruct (Z.le_gt_cases (- (B / 2)) i)|destruct (Z.lt_ge_cases (i + 1) (B / 2))]; [done|nia|done|nia]).
  rewrite ulimb_succ, !read_limb by (done || lia). cbn [mbind option_bind].
  set (c := Z.max 0 (- i)). rewrite (shift_invariant (val tab) pos k (LB * c)) by nia. rewrite <- pow_B by lia.
  assert (2 ^ (pos + LB * c) = B ^ (i + c) * 2 ^ p) as -> by (rewrite pow_B, <- Z.pow_add_r by lia; f_equal; lia).
  assert (0 < 2 ^ p) as Hpp by (apply Z.pow_pos_nonneg; lia). pose proof (pow_B_pos (i + c) ltac:(lia)). rewrite <- Z.div_div by lia.
  pose proof (val_bounds tab Ht) as Hv. pose proof (pow_B_pos c ltac:(lia)).
  rewrite <- (digit_shifted tab i c) by (done || lia). destruct (Z.eqb_spec p 0) as [Ep|Ep].
  - rewrite Ep, Z.pow_0_r, Z.div_1_r. done.
  - rewrite <- (digit_shifted tab (i + 1) c) by (done || lia). cbn [mbind option_bind]. f_equal.
    rewrite shr_pair by (apply digit_limb || lia). replace (i + 1 + c) with (i + c + 1) by lia. apply pair_window; nia.
Qed.
End Align.
