(* ===== verification/BigFloatSticky.v ===== *)
(** * Rounding with a sticky bit

    A number that is cut off two bits below the precision, with a one in the
    lowest bit when something was lost, rounds like the whole number. *)
From Stdlib Require Import QArith Qpower.
From S2P Require Import Prelude Alloc Reliable Limb LimbOps BigFloat LimbBits BigFloatRound BigFloatValue BigFloatSpec BigFloatOps BigFloatUnique.
Open Scope Z_scope.

Section Sticky.
Context {LS : LimbSize}.
Notation LB := (@LIMB_BITS LS).

(** the quotient [q] of a division with remainder [t] *)
Definition sticky (q t : Z) : Z := q .| b2z (negb (t =? 0)).

Lemma is_result_same sgn o1 o2 r : same_rounded o1 o2 → is_result sgn o1 r → is_result sgn o2 r.
Proof.
  intros Ho [Es Hr]. split; [done|]. destruct o1, o2; try done. destruct Hr as [Hn Hm]. split; [done|]. by rewrite Hm.
Qed.
Lemma same_rounded_sym o1 o2 : same_rounded o1 o2 → same_rounded o2 o1.
Proof. destruct o1, o2; try done. Qed.
(** the reference at any mantissa of the value *)
Lemma rounds_to_at sgn x prec flags st r m w e :
  rounds_to sgn x prec flags st r → 0 < w → 2 ^ (w - 1) <= m < 2 ^ w → (x == dyad m (e - w))%Q →
  ∃ o, ref_round sgn m w e prec flags = (st, o) ∧ is_result sgn o r.
Proof.
  intros (m1 & w1 & e1 & o & Hm1 & Hw1 & Hx & Ho & Hr) Hw Hm Hx2.
  assert (e1 = e) as -> by (eapply dyad_exponent_eq; [exact Hw1|exact Hw|done..|by rewrite <- Hx, <- Hx2]).
  pose proof (Z.pow_pos_nonneg 2 (w1 - 1) ltac:(lia) ltac:(lia)). pose proof (Z.pow_pos_nonneg 2 (w - 1) ltac:(lia) ltac:(lia)).
  assert (dyad m1 (e - w1) == dyad m (e - w))%Q as Ed by (by rewrite <- Hx, <- Hx2).
  destruct (Z.le_ge_cases w1 w) as [Hle|Hle].
  - replace (e - w1) with (e - w + (w - w1)) in Ed by lia. rewrite <- dyad_shift, dyad_eq in Ed by lia.
    destruct (ref_round_scale sgn m1 w1 e prec flags (w - w1)) as [Hst Hso]; [lia|lia|]. rewrite Ed in Hst, Hso.
    replace (w1 + (w - w1)) with w in * by lia. rewrite Ho in Hst, Hso. cbn [fst snd] in *.
    exists (ref_round sgn m w e prec flags).2. split; [by rewrite (surjective_pairing (ref_round sgn m w e prec flags)), Hst|].
    eapply is_result_same; [by apply same_rounded_sym|done].
  - replace (e - w) with (e - w1 + (w1 - w)) in Ed by lia. rewrite <- dyad_shift, dyad_eq in Ed by lia. symmetry in Ed.
    destruct (ref_round_scale sgn m w e prec flags (w1 - w)) as [Hst Hso]; [lia|lia|]. rewrite Ed in Hst, Hso.
    replace (w + (w1 - w)) with w1 in * by lia. rewrite Ho in Hst, Hso. cbn [fst snd] in *.
    exists (ref_round sgn m w e prec flags).2. split; [by rewrite (surjective_pairing (ref_round sgn m w e prec flags)), <- Hst|].
    by eapply is_result_same.
Qed.
Lemma rounds_to_eq sgn x y prec flags st r : (x == y)%Q → rounds_to sgn x prec flags st r → rounds_to sgn y prec flags st r.
Proof. intros E (m & w & e & o & Hm & Hw & Hx & Ho & Hr). exists m, w, e, o. by rewrite <- E. Qed.

(** ** The sticky bit *)
Lemma lor_1 q : 0 <= q → q .| 1 = q + b2z (Z.even q).
Proof.
  intros Hq. pose proof (Z.div_mod q 2 ltac:(lia)) as E. rewrite Zmod_even in E.
  assert (q .| 1 = 2 * (q / 2) + 1) as ->.
  { apply Z.bits_inj'. intros i Hi. rewrite Z.lor_spec. destruct (Z.eq_dec i 0) as [->|].
    - by rewrite Z.testbit_odd_0, orb_true_r.
    - replace i with (Z.succ (i - 1)) by lia. rewrite Z.testbit_odd_succ, Z.div2_bits by lia.
      change (Z.testbit 1 (Z.succ (i - 1))) with (Z.testbit (2 * 0 + 1) (Z.succ (i - 1))). by rewrite Z.testbit_odd_succ, Z.bits_0, orb_false_r by lia. }
  destruct (Z.even q); cbn [b2z]; lia.
Qed.
Lemma sticky_exact q : sticky q 0 = q.
Proof. apply Z.lor_0_r. Qed.
Lemma sticky_inexact q t : 0 <= q → t ≠ 0 → sticky q t = q + b2z (Z.even q).
Proof. intros Hq Ht. unfold sticky. destruct (Z.eqb_spec t 0); [done|]. by apply lor_1. Qed.
(** division by an even power of two *)
Lemma sticky_div q k : 0 <= q → 1 <= k → let d := 2 ^ k in let m := q + b2z (Z.even q) in
  m / d = q / d ∧ m mod d = q mod d + b2z (Z.even (q mod d)).
Proof.
  intros Hq Hk d m. assert (d = 2 ^ (k - 1) * 2) as Ed by (unfold d; rewrite Z.mul_comm, <- Z.pow_succ_r by lia; f_equal; lia).
  assert (0 < 2 ^ (k - 1)) as Hp by (apply Z.pow_pos_nonneg; lia). assert (0 < d) as Hd by lia.
  pose proof (Z.div_mod q d ltac:(lia)) as E. pose proof (Z.mod_pos_bound q d Hd) as Hb.
  assert (Z.even (q mod d) = Z.even q) as Eev.
  { assert (Z.even d = true) as Hed by (rewrite Ed, Z.even_mul; apply orb_true_r). rewrite E at 2. rewrite Z.even_add, Z.even_mul, Hed. by destruct (Z.even (q mod d)). }
  rewrite Eev. assert (q mod d + b2z (Z.even q) < d) as Hlt.
  { destruct (Z.even q) eqn:Eq; cbn [b2z]; [|lia]. apply Z.even_spec in Eev as [k' Ek']; lia. }
  assert (m = d * (q / d) + (q mod d + b2z (Z.even q))) as Em by (unfold m; lia).
  split; symmetry; [apply (Z.div_unique m d (q / d) (q mod d + b2z (Z.even q)))|apply (Z.mod_unique m d (q / d) (q mod d + b2z (Z.even q)))]; destruct (Z.even q); cbn [b2z] in *; lia.
Qed.
(** the rounding decision is that of the whole number *)
Lemma round_incr_sticky mode sgn q t j k :
  0 <= q → 0 < t < 2 ^ j → 0 <= j → 2 <= k →
  round_incr mode sgn (q + b2z (Z.even q)) (2 ^ k) = round_incr mode sgn (q * 2 ^ j + t) (2 ^ (k + j)) ∧
  (q + b2z (Z.even q)) / 2 ^ k = (q * 2 ^ j + t) / 2 ^ (k + j) ∧
  (q + b2z (Z.even q)) mod 2 ^ k ≠ 0 ∧ (q * 2 ^ j + t) mod 2 ^ (k + j) ≠ 0.
Proof.
  intros Hq Ht Hj Hk. destruct (sticky_div q k Hq ltac:(lia)) as [Ed Em]. set (d := 2 ^ k) in *.
  assert (0 < d) as Hd by (apply Z.pow_pos_nonneg; lia). pose proof (Z.mod_pos_bound q d Hd) as Hb. pose proof (Z.div_mod q d ltac:(lia)) as E.
  assert (d = 2 * (2 * 2 ^ (k - 2))) as Ed4 by (unfold d; rewrite <- !Z.pow_succ_r by lia; f_equal; lia).
  rewrite Z.pow_add_r by lia. fold d. assert (0 < 2 ^ j) as Hpj by (apply Z.pow_pos_nonneg; lia).
  assert (q * 2 ^ j + t = (d * 2 ^ j) * (q / d) + ((q mod d) * 2 ^ j + t)) as Es by (rewrite E at 1; ring).
  assert (0 <= q mod d * 2 ^ j + t < d * 2 ^ j) as Hr by nia.
  assert ((q * 2 ^ j + t) / (d * 2 ^ j) = q / d) as Eq by (symmetry; apply (Z.div_unique _ _ _ (q mod d * 2 ^ j + t)); [left; done|done]).
  assert ((q * 2 ^ j + t) mod (d * 2 ^ j) = q mod d * 2 ^ j + t) as Eq2 by (symmetry; apply (Z.mod_unique _ _ (q / d)); [left; done|done]).
  unfold round_incr. rewrite Ed, Em, Eq, Eq2. set (c := q mod d) in *. set (u := c + b2z (Z.even c)).
  assert (u = c ∧ Z.odd c = true ∨ u = c + 1 ∧ Z.even c = true) as Hu by (unfold u; rewrite <- Z.negb_even; destruct (Z.even c); [right|left]; cbn [b2z negb]; split; done || lia).
  set (h := 2 ^ (k - 2)) in *. assert (u ≠ 2 * h ∧ u ≠ 0 ∧ (2 * h < u ↔ 2 * h <= c)) as (U1 & U2 & U3).
  { destruct Hu as [[-> Ho]|[-> Hev]]; [apply Z.odd_spec in Ho as [c' Ec]|apply Z.even_spec in Hev as [c' Ec]]; lia. }
  assert ((u =? 0) = false ∧ (c * 2 ^ j + t =? 0) = false) as [-> ->] by (split; apply Z.eqb_neq; nia).
  assert ((d <? 2 * u) = (d * 2 ^ j <? 2 * (c * 2 ^ j + t))) as ->.
  { destruct (Z.le_gt_cases (2 * h) c) as [Hc|Hc].
    - transitivity true; [apply Z.ltb_lt|symmetry; apply Z.ltb_lt]; [lia|nia].
    - transitivity false; [apply Z.ltb_ge|symmetry; apply Z.ltb_ge]; [lia|nia]. }
  assert ((2 * u =? d) = (2 * (c * 2 ^ j + t) =? d * 2 ^ j)) as ->.
  { transitivity false; [apply Z.eqb_neq; lia|symmetry; apply Z.eqb_neq]. destruct (Z.le_gt_cases (2 * h) c); nia. }
  assert ((d <=? 2 * u) = (d * 2 ^ j <=? 2 * (c * 2 ^ j + t))) as ->.
  { destruct (Z.le_gt_cases (2 * h) c) as [Hc|Hc].
    - transitivity true; [apply Z.leb_le|symmetry; apply Z.leb_le]; [lia|nia].
    - transitivity false; [apply Z.leb_gt|symmetry; apply Z.leb_gt]; [lia|nia]. }
  split; [done|]. split; [done|]. split; [lia|nia].
Qed.
Lemma sticky_width q t w : 0 < w → 2 ^ (w - 1) <= q < 2 ^ w → 2 <= w → 2 ^ (w - 1) <= sticky q t < 2 ^ w.
Proof.
  intros Hw Hq Hw2. destruct (Z.eq_dec t 0) as [->|Ht]; [by rewrite sticky_exact|]. pose proof (Z.pow_pos_nonneg 2 (w - 1) ltac:(lia) ltac:(lia)).
  rewrite sticky_inexact by lia. destruct (Z.even q) eqn:Ev; cbn [b2z]; [|lia]. apply Z.even_spec in Ev as [k Ek].
  assert (2 ^ w = 2 * 2 ^ (w - 1)) by (rewrite <- Z.pow_succ_r by lia; f_equal; lia). lia.
Qed.
Lemma rounds_to_sticky sgn q t j x w prec flags st r :
  0 <= t < 2 ^ j → 0 <= j → 0 < w → 2 ^ (w - 1) <= q < 2 ^ w → (t ≠ 0 → prec + 2 <= w) → 0 < prec → flags .& BF_FLAG_RADPNT_PREC = 0 →
  rounds_to sgn (dyad (sticky q t) x) prec flags st r → rounds_to sgn (dyad (q * 2 ^ j + t) (x - j)) prec flags st r.
Proof.
  intros Ht Hj Hw Hq Hp Hp0 Hrad Hr. destruct (Z.eq_dec t 0) as [->|Ht0].
  { rewrite sticky_exact in Hr. eapply rounds_to_eq; [|exact Hr]. rewrite Z.add_0_r, dyad_shift by lia. by replace (x - j + j) with x by lia. }
  specialize (Hp Ht0). pose proof (Z.pow_pos_nonneg 2 (w - 1) ltac:(lia) ltac:(lia)) as Hpw. assert (0 < 2 ^ j) as Hpj by (apply Z.pow_pos_nonneg; lia).
  destruct (rounds_to_at _ _ _ _ _ _ (sticky q t) w (x + w) Hr Hw) as (o & Ho & Hres); [by apply sticky_width; lia|by replace (x + w - w) with x by lia|].
  exists (q * 2 ^ j + t), (w + j), (x + w), o. split.
  { assert (2 ^ (w + j - 1) = 2 ^ (w - 1) * 2 ^ j) as -> by (rewrite <- Z.pow_add_r by lia; f_equal; lia). rewrite Z.pow_add_r by lia. nia. }
  split; [lia|]. split; [by replace (x + w - (w + j)) with (x - j) by lia|]. split; [|done]. rewrite <- Ho. clear Ho Hres Hr.
  rewrite sticky_inexact by lia. unfold ref_round. set (e_max := 2 ^ (bf_get_exp_bits flags - 1)).
  set (p := ref_prec (x + w) prec flags (- e_max + 3)). cbv zeta. assert (p <= prec) as Hpp.
  { unfold p, ref_prec. rewrite Hrad. cbn [Z.eqb negb]. destruct (Z.ltb_spec (x + w) (- e_max + 3)); cbn [andb]; [destruct (negb _)|]; lia. }
  assert (Z.max 0 (w - p) = w - p) as -> by lia. assert (Z.max 0 (w + j - p) = w - p + j) as -> by lia.
  destruct (round_incr_sticky (flags .& BF_RND_MASK) sgn q t j (w - p)) as (E1 & E2 & E3 & E4); [lia|lia|lia|lia|].
  unfold round_quot. rewrite E1, E2. rewrite (proj2 (Z.eqb_neq _ _) E3), (proj2 (Z.eqb_neq _ _) E4).
  by replace (x + w - (w + j) + (w - p + j)) with (x + w - w + (w - p)) by lia.
Qed.
End Sticky.
