(* ===== verification/BigFloatAddSpec.v ===== *)
(** * The limbs of a sum

    The loops of [bf_add_internal] add two numbers written in one frame of
    [N] limbs, the second one complemented for a subtraction.  The first loop
    runs over the limbs that are not stored: it jumps over the gaps between
    the operands, and keeps the carry and whether a limb is not zero. *)
From S2P Require Import Prelude Alloc Limb LimbOps BigFloat LimbBits BigFloatRound BigFloatValue BigFloatAlign BigFloatAdd.

Section Digits.
Context {LS : LimbSize}.
Notation LB := (@LIMB_BITS LS).

Lemma series_digits x n : series (digit x) n = x mod B ^ Z.of_nat n.
Proof.
  pose proof B_pos. induction n as [|n IH]; [cbn [series]; by rewrite Z.pow_0_r, Z.mod_1_r|]. cbn [series]. rewrite IH. unfold digit.
  replace (Z.of_nat (S n)) with (Z.of_nat n + 1) by lia. rewrite pow_B_S, (Z.mul_comm B) by lia. pose proof (pow_B_pos (Z.of_nat n) ltac:(lia)).
  by rewrite Z.rem_mul_r by lia.
Qed.
Lemma series_ext t u n : (∀ i, 0 <= i < Z.of_nat n → t i = u i) → series t n = series u n.
Proof. intros E. induction n as [|n IH]; [done|]. cbn [series]. rewrite IH by (intros; apply E; lia). rewrite E by lia. done. Qed.
Lemma series_const c n : series (λ _, c) n * (B - 1) = c * (B ^ Z.of_nat n - 1).
Proof.
  induction n as [|n IH]; [cbn [series]; rewrite Z.pow_0_r; ring|]. cbn [series]. rewrite Z.mul_add_distr_r, IH.
  replace (Z.of_nat (S n)) with (Z.of_nat n + 1) by lia. rewrite pow_B_S by lia. ring.
Qed.
Lemma series_ones n : series (λ _, B - 1) n = B ^ Z.of_nat n - 1.
Proof. pose proof B_pos. pose proof (series_const (B - 1) n). nia. Qed.
(** [n] more limbs, all equal *)
Lemma series_more t c n m : (∀ i, Z.of_nat n <= i < Z.of_nat n + Z.of_nat m → t i = c) → series t (n + m) = series t n + B ^ Z.of_nat n * series (λ _, c) m.
Proof.
  intros E. induction m as [|m IH]; [rewrite Nat.add_0_r; cbn [series]; lia|]. rewrite Nat.add_succ_r. cbn [series].
  rewrite IH by (intros; apply E; lia). rewrite E by lia. replace (Z.of_nat (n + m)) with (Z.of_nat n + Z.of_nat m) by lia. rewrite Z.pow_add_r by lia. ring.
Qed.
Lemma series_app t n m : series t (n + m) = series t n + B ^ Z.of_nat n * series (λ i, t (Z.of_nat n + i)) m.
Proof.
  induction m as [|m IH]; [rewrite Nat.add_0_r; cbn [series]; lia|]. rewrite Nat.add_succ_r. cbn [series]. rewrite IH.
  replace (Z.of_nat (n + m)) with (Z.of_nat n + Z.of_nat m) by lia. rewrite Z.pow_add_r by lia. ring.
Qed.
Lemma lxor_ones v n : 0 <= n → 0 <= v < 2 ^ n → v .^ (2 ^ n - 1) = 2 ^ n - 1 - v.
Proof.
  intros Hn Hv. assert (v .& (v .^ (2 ^ n - 1)) = 0) as E.
  { apply Z.bits_inj'. intros i Hi. replace (2 ^ n - 1) with (Z.ones n) by (rewrite Z.ones_equiv; lia).
    rewrite Z.land_spec, Z.lxor_spec, Z.bits_0, Z.testbit_ones_nonneg by lia. destruct (Z.ltb_spec i n); [by destruct (Z.testbit v i)|].
    assert (2 ^ n <= 2 ^ i) by (apply Z.pow_le_mono_r; lia). assert (Z.testbit v i = false) as -> by (apply Z.testbit_false; [lia|]; by rewrite Z.div_small by lia). done. }
  pose proof (Z.add_nocarry_lxor v (v .^ (2 ^ n - 1)) E) as Ea. rewrite <- Z.lxor_assoc, Z.lxor_nilpotent, Z.lxor_0_l in Ea. lia.
Qed.
End Digits.

Section Sum.
Context {LS : LimbSize} (a b : bf_t) (N d sub : Z).
Notation LB := (@LIMB_BITS LS).
Hypothesis Ha : limbs (bf_tab a).
Hypothesis Hb : limbs (bf_tab b).
Hypothesis Hla : 0 < bf_len a <= N.
Hypothesis Hlb : 0 < bf_len b.
Hypothesis Hd : 0 <= d.
Hypothesis HN : LB * bf_len b + d <= LB * N.
Hypothesis Hsmall : LB * N <= B / 2 - LB.
Hypothesis Hsub : sub = 0 ∨ sub = 1.
Notation k := (LB * (N - bf_len b) - d).
Notation va := (val (bf_tab a) * B ^ (N - bf_len a)).
Notation vb := (val (bf_tab b) * 2 ^ k).
(** what is added at limb [j] *)
Definition addend (j : Z) : Z := digit va j + (if sub =? 0 then digit vb j else B - 1 - digit vb j).

Lemma frame_small : bf_len a < B / 2 ∧ bf_len b < B / 2 ∧ N < B / 2.
Proof. pose proof LB_pos. destruct B_half. nia. Qed.
Lemma read_a j : 0 <= j < N → limb_at (bf_tab a) (j - (N - bf_len a)) = digit va j.
Proof. intros Hj. rewrite <- (digit_shifted _ _ (N - bf_len a)) by (done || lia). f_equal. lia. Qed.
Lemma k_nonneg : 0 <= k.
Proof. rewrite Z.mul_sub_distr_l. lia. Qed.
Lemma pos_b_range j : 0 <= j < N → - (B / 2) <= LB * j - k < B / 2.
Proof. intros Hj. pose proof LB_pos. nia. Qed.
Lemma read_b j : 0 <= j < N → get_bits (bf_tab b) (bf_len b) (LB * j - k) = Some (digit vb j).
Proof.
  intros Hj. pose proof LB_pos. destruct frame_small as (_ & S2 & _). pose proof k_nonneg. pose proof (pos_b_range j Hj). assert (0 <= LB * j) by nia.
  pose proof (get_bits_spec (bf_tab b) (LB * j - k) k Hb S2) as E. fold (bf_len b) in E. rewrite E by (done || lia).
  replace (LB * j - k + k) with (LB * j) by lia. unfold digit. by rewrite pow_B by lia.
Qed.
Lemma digit_a_low j : 0 <= j < N - bf_len a → digit va j = 0.
Proof. intros Hj. rewrite <- read_a by lia. apply limb_at_neg. lia. Qed.
Lemma digit_b_low j : 0 <= j → LB * j - k + LB <= 0 → digit vb j = 0.
Proof.
  intros Hj Hk. pose proof LB_pos. unfold digit. replace k with (k - LB * (j + 1) + LB * (j + 1)) by lia.
  rewrite Z.pow_add_r, <- (pow_B (j + 1)), pow_B_S, !Z.mul_assoc by lia. pose proof (pow_B_pos j Hj). rewrite Z.div_mul by lia. pose proof B_pos. by rewrite Z.mod_mul by lia.
Qed.
Lemma digit_b_high j : 0 <= j → LB * bf_len b <= LB * j - k → digit vb j = 0.
Proof.
  intros Hj Hk. pose proof LB_pos. pose proof (val_bounds _ Hb) as Hv. fold (bf_len b) in Hv. rewrite pow_B in Hv by lia. unfold digit. rewrite Z.div_small; [done|].
  rewrite pow_B by lia. assert (0 < 2 ^ k) by (apply Z.pow_pos_nonneg; lia). split; [nia|].
  apply (Z.lt_le_trans _ (2 ^ (LB * bf_len b) * 2 ^ k)); [nia|]. rewrite <- Z.pow_add_r by lia. apply Z.pow_le_mono_r; lia.
Qed.
Lemma add_limbs_spec j c :
  0 <= c <= 1 → let '(u, c') := add_limbs (digit va j) (digit vb j) (ulimb (- sub)) c in
  limb u ∧ 0 <= c' <= 1 ∧ u + B * c' = addend j + c.
Proof.
  intros Hc. unfold add_limbs. cbv zeta. assert (digit vb j .^ ulimb (- sub) = if sub =? 0 then digit vb j else B - 1 - digit vb j) as ->.
  { destruct Hsub as [-> | ->]; cbn [Z.eqb]; [apply Z.lxor_0_r|]. pose proof B_pos. assert (ulimb (- (1)) = 2 ^ LB - 1) as -> by (unfold ulimb; symmetry; apply (Z.mod_unique _ _ (-1)); unfold B in *; lia).
    rewrite lxor_ones by (apply digit_limb || (pose proof LB_pos; lia)). done. }
  apply ulimb_add_carry; [apply digit_limb| |done]. destruct (sub =? 0); [apply digit_limb|]. pose proof (digit_limb vb j) as Hl. unfold limb in *. lia.
Qed.

(** ** The limbs below the result *)
Definition low_inv (j carry z : Z) : Prop :=
  0 <= j ∧ 0 <= carry <= 1 ∧ 0 <= z ∧ ∃ R, 0 <= R < B ^ j ∧ series addend (Z.to_nat j) + sub = R + B ^ j * carry ∧ (z = 0 ↔ R = 0).
Lemma low_step j carry z :
  low_inv j carry z → let '(u, c') := add_limbs (digit va j) (digit vb j) (ulimb (- sub)) carry in low_inv (j + 1) c' (z .| u).
Proof.
  intros (Hj & Hc & Hz & R & HR & Es & Hzr). pose proof (add_limbs_spec j carry Hc) as Hu. destruct (add_limbs _ _ _ _) as [u c'].
  destruct Hu as (Lu & Hc' & Eu). unfold limb in Lu. pose proof (pow_B_pos j Hj). split; [lia|]. split; [done|]. split; [apply Z.lor_nonneg; lia|]. exists (R + B ^ j * u).
  rewrite pow_B_S by lia. split; [nia|]. split.
  - replace (Z.to_nat (j + 1)) with (S (Z.to_nat j)) by lia. cbn [series]. rewrite Z2Nat.id by lia.
    transitivity (R + B ^ j * (u + B * c')); [|ring]. rewrite Eu. lia.
  - rewrite Z.lor_eq_0_iff, Hzr. split; [intros [-> ->]; lia|]. intros E. assert (R = 0 ∧ u = 0) by nia. tauto.
Qed.
(** a gap of both operands *)
Lemma low_jump j j' carry z :
  low_inv j carry z → j < j' → (∀ i, j <= i < j' → digit va i = 0 ∧ digit vb i = 0) →
  let '(u, c') := add_limbs 0 0 (ulimb (- sub)) carry in low_inv j' c' (z .| u).
Proof.
  intros (Hj & Hc & Hz & R & HR & Es & Hzr) Hlt Hgap. destruct (Hgap j ltac:(lia)) as [Ea Eb]. pose proof (add_limbs_spec j carry Hc) as Hu. rewrite Ea, Eb in Hu.
  assert (addend j = if sub =? 0 then 0 else B - 1) as Eadd by (unfold addend; rewrite Ea, Eb; destruct (sub =? 0); lia). rewrite Eadd in Hu.
  destruct (add_limbs _ _ _ _) as [u c']. destruct Hu as (Lu & Hc' & Eu). unfold limb in Lu. pose proof (pow_B_pos j Hj). pose proof B_pos.
  assert (series addend (Z.to_nat j') = series addend (Z.to_nat j) + (if sub =? 0 then 0 else B ^ j' - B ^ j)) as Eser.
  { replace (Z.to_nat j') with (Z.to_nat j + Z.to_nat (j' - j))%nat by lia. rewrite (series_more addend (if sub =? 0 then 0 else B - 1)).
    - rewrite Z2Nat.id by lia. destruct (sub =? 0); [rewrite series_0; ring|]. rewrite series_ones, Z2Nat.id, Z.mul_sub_distr_l, <- Z.pow_add_r by lia.
      replace (j + (j' - j)) with j' by lia. ring.
    - intros i Hi. destruct (Hgap i ltac:(lia)) as [Ea' Eb']. unfold addend. rewrite Ea', Eb'. destruct (sub =? 0); lia. }
  assert (B ^ j < B ^ j') as Hpow by (apply Z.pow_lt_mono_r; lia). split; [lia|]. split; [done|]. split; [apply Z.lor_nonneg; lia|].
  destruct Hsub as [E0|E0]; rewrite E0 in *; cbn [Z.eqb] in *.
  - assert (c' = 0 ∧ u = carry) as [-> ->] by (assert (c' = 0 ∨ c' = 1) as [-> | ->] by lia; lia). exists (R + B ^ j * carry).
    assert (B ^ j * 2 <= B ^ j') by (replace j' with (j' - j + j) by lia; rewrite Z.pow_add_r by lia; pose proof (Z.pow_le_mono_r B 1 (j' - j)); nia).
    rewrite Z.lor_eq_0_iff, Hzr, Eser. split; [nia|]. split; [lia|]. nia.
  - assert (carry = 1 ∧ c' = 1 ∧ u = 0 ∨ carry = 0 ∧ c' = 0 ∧ u = B - 1) as [(-> & -> & ->)|(-> & -> & ->)]
      by (assert (carry = 0 ∨ carry = 1) as [-> | ->] by lia; assert (c' = 0 ∨ c' = 1) as [-> | ->] by lia; lia).
    + exists R. rewrite Z.lor_eq_0_iff, Hzr, Eser. split; [lia|]. split; [lia|]. tauto.
    + exists (R + (B ^ j' - B ^ j)). rewrite Z.lor_eq_0_iff, Hzr, Eser. split; [lia|]. split; [lia|]. lia.
Qed.
(** the loop, [l] limbs of the result being stored *)
Section Low.
Context (l : Z).
Hypothesis Hl : 0 < l <= N.
Notation j0 := (N - l).
Notation a_off := (bf_len a - l).
Notation b_off := ((bf_len b - l) * LB + d).
(** the first index at which [b] has bits, and how much is left to do *)
Notation b_first := (- b_off / LB).
Definition add_measure (i : Z) : Z :=
  Z.max 0 (- Z.max i (- a_off)) + Z.max 0 (b_first + bf_len b + 1 - Z.max i b_first) +
  b2z (i <? - a_off) + b2z (i <? b_first) + b2z (i <? 0).
Lemma b_first_spec i : (b_first <= i ↔ 0 < b_off + i * LB + LB) ∧ (b_off + i * LB < LB * bf_len b → i < b_first + bf_len b + 1).
Proof.
  pose proof LB_pos. assert (LB ≠ 0) as HLB0 by lia. assert (0 < LB) as HLBp by lia.
  pose proof (Z.div_mod (- b_off) LB HLB0) as E. pose proof (Z.mod_pos_bound (- b_off) LB HLBp) as Hm. set (q := - b_off / LB) in *. nia.
Qed.
Lemma low_read_a i : - j0 <= i < 0 → let ap := a_off + i in let in_a := (ap >=? 0) && (ap <? bf_len a) in
  (if in_a then (bf_tab a).[ap] else Some 0) = Some (digit va (j0 + i)) ∧ (in_a = true ↔ - a_off <= i) ∧ (in_a = false → ap < 0).
Proof.
  intros Hi ap in_a. assert (in_a = (0 <=? ap)) as Ein.
  { unfold in_a. rewrite Z.geb_leb. destruct (Z.leb_spec 0 ap); [|done]. cbn [andb]. apply Z.ltb_lt. unfold ap. lia. }
  rewrite Ein. destruct (Z.leb_spec 0 ap); (split; [|split; [split; intros; unfold ap in *; lia || done|unfold ap in *; done]]).
  - rewrite aget_limb_at by (unfold ap, bf_len in *; lia). f_equal. rewrite <- read_a by lia. f_equal. unfold ap. lia.
  - by rewrite digit_a_low by (unfold ap in *; lia).
Qed.
Lemma low_read_b i : - j0 <= i < 0 → let bp := b_off + i * LB in let in_b := (bp + LB >? 0) && (bp <? LB * bf_len b) in
  (if in_b then get_bits (bf_tab b) (bf_len b) bp else Some 0) = Some (digit vb (j0 + i)) ∧
  (in_b = true → b_first <= i < b_first + bf_len b + 1) ∧ (in_b = false → bp + LB <= 0 ∨ LB * bf_len b <= bp).
Proof.
  intros Hi bp in_b. assert (bp = LB * (j0 + i) - k) as Ebp by (unfold bp; ring). destruct (b_first_spec i) as [B1 B2]. fold bp in B1, B2.
  unfold in_b. rewrite Z.gtb_ltb. destruct (Z.ltb_spec 0 (bp + LB)); cbn [andb].
  - destruct (Z.ltb_spec bp (LB * bf_len b)); (split; [|split; [intros; done || lia|intros; done || lia]]).
    + rewrite Ebp. apply read_b. lia.
    + by rewrite digit_b_high by lia.
  - split; [|split; [done|lia]]. by rewrite digit_b_low by lia.
Qed.
Lemma jump_target i : - j0 <= i < 0 → a_off + i < 0 → let bp := b_off + i * LB in bp + LB <= 0 ∨ LB * bf_len b <= bp →
  let i' := (if bp + LB <=? 0 then bf_min (bf_min 0 (- a_off)) (- b_off >> LIMB_LOG2_BITS) else bf_min 0 (- a_off)) in
  i < i' <= 0 ∧ add_measure i' < add_measure i ∧ ∀ j, j0 + i <= j < j0 + i' → digit va j = 0 ∧ digit vb j = 0.
Proof.
  intros Hi Ha0 bp Hb0 i'. pose proof LB_pos. destruct (b_first_spec i) as [B1 B2]. fold bp in B1, B2.
  assert (i' = if i <? b_first then Z.min (Z.min 0 (- a_off)) b_first else Z.min 0 (- a_off)) as Ei'.
  { unfold i', bf_min. rewrite shiftr_log2. destruct (Z.leb_spec (bp + LB) 0), (Z.ltb_spec i b_first); try lia;
      destruct (Z.ltb_spec 0 (- a_off)); try lia; destruct (Z.ltb_spec 0 b_first); destruct (Z.ltb_spec (- a_off) b_first); lia. }
  split; [destruct (Z.ltb_spec i b_first); lia|]. split.
  - rewrite Ei'. unfold add_measure. destruct (Z.ltb_spec i b_first);
      repeat match goal with |- context [b2z (?x <? ?y)] => destruct (Z.ltb_spec x y) end; cbn [b2z]; lia.
  - intros j Hj. assert (i' <= - a_off) as Hia by (destruct (Z.ltb_spec i b_first); lia). split; [apply digit_a_low; lia|].
    destruct Hb0 as [Hb0|Hb0].
    + apply digit_b_low; [lia|]. destruct (b_first_spec (j - j0)) as [B3 _]. destruct (Z.ltb_spec i b_first); [|lia].
      assert (LB * j - k = b_off + (j - j0) * LB) as -> by ring. lia.
    + apply digit_b_high; [lia|]. unfold bp in Hb0. nia.
Qed.
Lemma step_measure i : i < 0 → (- a_off <= i ∨ b_first <= i < b_first + bf_len b + 1) → add_measure (i + 1) < add_measure i.
Proof.
  intros Hi Hr. unfold add_measure. repeat match goal with |- context [b2z (?x <? ?y)] => destruct (Z.ltb_spec x y) end; cbn [b2z]; lia.
Qed.
Lemma add_low_spec fuel i carry z :
  - j0 <= i <= 0 → low_inv (j0 + i) carry z → add_measure i <= Z.of_nat fuel →
  ∃ carry' z', add_low fuel a b a_off b_off (ulimb (- sub)) i carry z = Some (carry', z') ∧ low_inv j0 carry' z'.
Proof.
  revert i carry z. induction fuel as [|fuel IH]; intros i carry z Hi Hinv Hm.
  { assert (0 <= i) as Hi0.
    { destruct (Z.lt_ge_cases i 0) as [Hneg|]; [|done]. exfalso. unfold add_measure in Hm. destruct (Z.ltb_spec i 0); [|lia].
      repeat match type of Hm with context [b2z (?x <? ?y)] => destruct (Z.ltb_spec x y) end; cbn [b2z] in Hm; lia. }
    assert (i = 0) as -> by lia. exists carry, z. rewrite Z.add_0_r in Hinv. done. }
  cbn [add_low]. destruct (Z.ltb_spec i 0) as [Hneg|Hpos]; [|assert (i = 0) as -> by lia; rewrite Z.add_0_r in Hinv; eauto].
  pose proof LB_pos. destruct B_half as [HB HB31]. assert (LB * l <= LB * N) as Hll by nia. assert (LB * bf_len a <= LB * N) as Hlla by nia. assert (0 <= LB * l) by nia.
  assert (0 <= LB * bf_len a) by nia. assert (- (LB * j0) <= i * LB <= 0) as HiLB by nia.
  rewrite (sword_id (a_off + i)) by nia. cbn [mbind option_bind]. rewrite (sword_id (b_off + i * LB)) by nia. cbn [mbind option_bind].
  rewrite (Z.mul_comm (bf_len b) LB), (slimb_id (LB * bf_len b)) by lia.
  destruct (low_read_a i ltac:(lia)) as (Ea & Ia & Oa). destruct (low_read_b i ltac:(lia)) as (Eb & Ib & Ob). rewrite Ea. cbn [mbind option_bind]. rewrite Eb. cbn [mbind option_bind]. clear Ea Eb.
  set (in_a := (a_off + i >=? 0) && _) in *. set (in_b := (b_off + i * LB + LB >? 0) && _) in *. destruct (in_a || in_b) eqn:Ein; cbn [negb].
  - pose proof (low_step (j0 + i) carry z Hinv) as Hs. destruct (add_limbs _ _ _ _) as [u c']. apply IH; [lia|by replace (j0 + (i + 1)) with (j0 + i + 1) by lia|].
    assert (- a_off <= i ∨ b_first <= i < b_first + bf_len b + 1) as Hr by (apply orb_true_iff in Ein as [Ein|Ein]; [left; by apply Ia|right; by apply Ib]).
    pose proof (step_measure i Hneg Hr). lia.
  - apply orb_false_iff in Ein as [Fa Fb]. specialize (Oa Fa). specialize (Ob Fb).
    destruct (jump_target i ltac:(lia) Oa Ob) as (Hi' & Hm' & Hgap). destruct (Z.ltb_spec (a_off + i) 0); [|lia]. set (i' := if b_off + i * LB + LB <=? 0 then _ else _) in *.
    destruct (Hgap (j0 + i) ltac:(lia)) as [-> ->]. pose proof (low_jump (j0 + i) (j0 + i') carry z Hinv ltac:(lia) Hgap) as Hs.
    destruct (add_limbs _ _ _ _) as [u c']. apply IH; [lia|done|lia].
Qed.
(** the limbs that are stored *)
Lemma add_high_spec tab carry :
  zlen tab = l → 0 <= carry <= 1 →
  ∃ r c, add_high a b a_off b_off (ulimb (- sub)) l tab carry = Some (r, c) ∧ zlen r = l ∧ limbs r ∧ 0 <= c <= 1 ∧
    val r + B ^ l * c = series (λ i, addend (j0 + i)) (Z.to_nat l) + carry.
Proof.
  intros Htab Hc. unfold add_high. pose proof LB_pos. destruct frame_small as (S1 & S2 & S3). destruct B_half as [HB HB31].
  match goal with |- context [for_up _ ?body _ _] =>
    destruct (carry_loop (λ c, 0 <= c <= 1) 1 (λ i, addend (j0 + i)) l body tab carry) as (r & c & E & Hz & Lr & Hc' & Hv); [|lia|done|] end.
  - intros i res c Hi Hres _ Hci. assert (0 <= j0 + i < N) as Hj by lia. pose proof (pos_b_range _ Hj) as Hpos. cbv beta iota.
    replace (b_off + i * LB) with (LB * (j0 + i) - k) by ring. rewrite sword_id by done.
    rewrite (get_limbz_spec a (a_off + i)) by (done || lia). cbn [mbind option_bind]. rewrite read_b by done. cbn [mbind option_bind].
    replace (a_off + i) with (j0 + i - (N - bf_len a)) by lia. rewrite read_a by done.
    pose proof (add_limbs_spec (j0 + i) c Hci) as Hu. destruct (add_limbs _ _ _ _) as [u c']. destruct Hu as (Lu & Hcu & Eu).
    exists u, c'. split; [done|]. split; [done|]. split; [done|]. lia.
  - exists r, c. rewrite E, zdrop_all, app_nil_r by lia. split; [done|]. split; [done|]. split; [done|]. split; [done|]. lia.
Qed.
End Low.
(** ** The whole sum *)
Lemma frame_bounds : 0 <= va < B ^ N ∧ 0 <= vb < B ^ N.
Proof.
  pose proof LB_pos. pose proof k_nonneg. pose proof (val_bounds _ Ha) as Ba. pose proof (val_bounds _ Hb) as Bb. fold (bf_len a) in Ba. fold (bf_len b) in Bb.
  pose proof (pow_B_pos (N - bf_len a) ltac:(lia)). assert (0 < 2 ^ k) by (apply Z.pow_pos_nonneg; lia). split.
  - replace N with (bf_len a + (N - bf_len a)) at 3 by lia. rewrite Z.pow_add_r by lia. nia.
  - rewrite pow_B in Bb by lia. rewrite pow_B by nia. split; [nia|]. apply (Z.lt_le_trans _ (2 ^ (LB * bf_len b) * 2 ^ k)); [nia|].
    rewrite <- Z.pow_add_r by lia. apply Z.pow_le_mono_r; lia.
Qed.
Lemma series_addend : series addend (Z.to_nat N) = va + (if sub =? 0 then vb else B ^ N - 1 - vb).
Proof.
  destruct frame_bounds as [Ba Bb]. unfold addend. rewrite (series_add (digit va) (λ j, if sub =? 0 then digit vb j else B - 1 - digit vb j)).
  rewrite series_digits, Z2Nat.id, Z.mod_small by lia. f_equal. destruct (sub =? 0).
  - rewrite (series_digits vb), Z2Nat.id, Z.mod_small by lia. done.
  - rewrite (series_sub (λ _, B - 1) (digit vb)), series_ones, series_digits, Z2Nat.id, Z.mod_small by lia. lia.
Qed.
(** the limbs [r], the carry [c] and the remainder [R] of the limbs below *)
Lemma sum_spec l carry z r c :
  0 < l <= N → low_inv (N - l) carry z → zlen r = l → limbs r → 0 <= c <= 1 → (sub = 1 → vb < va) →
  val r + B ^ l * c = series (λ i, addend (N - l + i)) (Z.to_nat l) + carry →
  ∃ R, 0 <= R < 2 ^ (LB * (N - l)) ∧ (z = 0 ↔ R = 0) ∧
    (if sub =? 0 then va + vb = (val r + B ^ l * c) * 2 ^ (LB * (N - l)) + R else va - vb = val r * 2 ^ (LB * (N - l)) + R).
Proof.
  intros Hl (_ & _ & _ & R & HR & Es & Hz) Hr Lr Hc Hlt Ev. exists R. rewrite <- pow_B by lia. split; [done|]. split; [done|].
  pose proof series_addend as E. replace (Z.to_nat N) with (Z.to_nat (N - l) + Z.to_nat l)%nat in E by lia. rewrite series_app, Z2Nat.id in E by lia.
  set (S1 := series addend (Z.to_nat (N - l))) in *. set (S2 := series _ (Z.to_nat l)) in *. destruct frame_bounds as [Ba Bb].
  pose proof (val_bounds r Lr) as Br. rewrite Hr in Br. pose proof (pow_B_pos (N - l) ltac:(lia)).
  assert (B ^ N = B ^ (N - l) * B ^ l) as EN by (rewrite <- Z.pow_add_r by lia; f_equal; lia).
  assert (B ^ (N - l) * S2 = B ^ (N - l) * (val r + B ^ l * c) - B ^ (N - l) * carry) as E2 by (rewrite Ev; ring).
  destruct Hsub as [E0|E0]; rewrite E0 in *; cbn [Z.eqb] in *.
  - rewrite E2 in E. lia.
  - specialize (Hlt eq_refl). rewrite E2, Z.mul_add_distr_l, Z.mul_assoc, <- EN in E.
    assert (0 <= B ^ (N - l) * val r + R < B ^ N) as Hq by (rewrite EN; revert Br HR H; clear; intros; nia).
    clear EN E2 Hsmall HN Ev. assert (c = 0 ∨ c = 1) as [-> | ->] by lia; lia.
Qed.
End Sum.
