(* ===== verification/BigFloatCancel.v ===== *)
(** * Cancelled bits

    [count_cancelled_bits] bounds from below the difference of two numbers of
    about the same size: it returns [n] such that the difference keeps at
    most [n] leading zeros, which gives the limbs that a subtraction has to
    compute. *)
From Stdlib Require Import QArith.
From S2P Require Import Prelude Alloc Limb LimbOps BigFloat LimbBits BigFloatRound BigFloatValue BigFloatOps BigFloatAlign BigFloatAdd BigFloatAddSpec.
Open Scope Z_scope.

Section Bits.
Context {LS : LimbSize}.
Notation LB := (@LIMB_BITS LS).

Lemma clz_log2 x : x ≠ 0 → clz x = LB - 1 - Z.log2 x.
Proof. intros Hx. unfold clz. by destruct (Z.eqb_spec x 0). Qed.
(** the leading zeros that two limbs share *)
Lemma min_clz_spec x y P :
  0 <= x < 2 ^ P → 0 <= y < 2 ^ P → 0 <= P <= LB → let p1 := bf_min (clz x) (clz y) - (LB - P) in
  0 <= p1 <= P ∧ (p1 = P ↔ x = 0 ∧ y = 0) ∧ (p1 < P → 2 ^ (P - 1 - p1) <= x + y).
Proof.
  intros Hx Hy HP p1. assert (∀ z, 0 <= z < 2 ^ P → LB - P <= clz z <= LB ∧ (clz z = LB ↔ z = 0) ∧ (clz z < LB → 2 ^ (LB - 1 - clz z) <= z)) as Hc.
  { intros z Hz. unfold clz. destruct (Z.eqb_spec z 0); [lia|]. assert (Z.log2 z < P) by (apply Z.log2_lt_pow2; lia). pose proof (Z.log2_nonneg z).
    split; [lia|]. split; [lia|]. intros _. replace (LB - 1 - (LB - 1 - Z.log2 z)) with (Z.log2 z) by lia. by apply Z.log2_spec; lia. }
  destruct (Hc x Hx) as (X1 & X2 & X3). destruct (Hc y Hy) as (Y1 & Y2 & Y3). unfold p1, bf_min.
  destruct (Z.ltb_spec (clz x) (clz y)) as [Hl|Hl]; (split; [lia|]; split; [lia|]); intros Hp.
  - replace (P - 1 - (clz x - (LB - P))) with (LB - 1 - clz x) by lia. lia.
  - replace (P - 1 - (clz y - (LB - P))) with (LB - 1 - clz y) by lia. lia.
Qed.
(** the first different bit of two limbs *)
Lemma first_different v1 v2 :
  limb v1 → limb v2 → v2 < v1 → let P := LB - (clz (v1 .^ v2) + 1) in 0 <= P < LB ∧ v1 / 2 ^ P = v2 / 2 ^ P + 1.
Proof.
  intros H1 H2 Hlt P. unfold limb in *. assert (0 <= v1 .^ v2) by (apply Z.lxor_nonneg; lia).
  assert (v1 .^ v2 ≠ 0) as Hne by (intros E%Z.lxor_eq; lia).
  assert (P = Z.log2 (v1 .^ v2)) as EP by (unfold P; rewrite clz_log2 by done; lia). pose proof (Z.log2_nonneg (v1 .^ v2)).
  assert (P < LB) as HP.
  { rewrite EP. unfold B in *. pose proof LB_pos. apply Z.log2_lt_pow2; [lia|]. assert (v1 .^ v2 < 2 ^ LB) as Hx.
    { assert (∀ z, 0 <= z < 2 ^ LB → Z.shiftr z LB = 0) as Hs by (intros z Hz; rewrite Z.shiftr_div_pow2 by lia; by apply Z.div_small).
      assert ((v1 .^ v2) >> LB = 0) as E by (rewrite Z.shiftr_lxor, !Hs by lia; done). rewrite Z.shiftr_div_pow2 in E by lia.
      apply Z.div_small_iff in E; [lia|]. apply Z.pow_nonzero; lia. }
    done. }
  split; [lia|]. assert (0 < 2 ^ P) as Hpp by (apply Z.pow_pos_nonneg; lia). pose proof (Z.log2_spec (v1 .^ v2) ltac:(lia)) as [L1 L2]. rewrite <- EP in L1, L2.
  rewrite Z.pow_succ_r in L2 by lia. assert ((v1 / 2 ^ P) .^ (v2 / 2 ^ P) = 1) as E.
  { rewrite <- !Z.shiftr_div_pow2, <- Z.shiftr_lxor, Z.shiftr_div_pow2 by lia.
    assert (∀ p x, p <= x < 2 * p → x / p = 1) as Hq by (intros p x Hpx; symmetry; apply (Z.div_unique _ _ _ (x - p)); lia). by apply Hq. }
  pose proof (Z.div_le_mono v2 v1 (2 ^ P) Hpp ltac:(lia)). set (x := v1 / 2 ^ P) in *. set (y := v2 / 2 ^ P) in *.
  assert (x = y .^ 1) as Ex by (rewrite <- E, (Z.lxor_comm x), <- Z.lxor_assoc, Z.lxor_nilpotent, Z.lxor_0_l; done).
  assert (y .^ 1 = y + 1 ∨ y .^ 1 = y - 1) as [Ey|Ey]; [|lia|lia].
  assert (0 <= y) as Hy by (apply Z.div_pos; lia). destruct (Z.Even_or_Odd y) as [[t Et]|[t Et]]; rewrite Et; [left|right].
  - destruct t; [done|done|lia].
  - replace (2 * t + 1 - 1) with (2 * t) by lia. destruct t; [done|done|lia].
Qed.
Lemma cancel_first_spec v1 v2 n :
  limb v1 → limb v2 → v2 < v1 → 0 <= n < B / 2 - LB - 1 →
  ∃ n' (stop : bool), cancel_first v1 v2 n = Some (n', stop) ∧
    if stop then n < n' < n + LB ∧ 2 ^ (LB - 1 - (n' - n)) <= v1 - v2 - 1 else n' = n + LB ∧ v1 = v2 + 1.
Proof.
  intros H1 H2 Hlt Hn. pose proof LB_pos. destruct (first_different v1 v2 H1 H2 Hlt) as [HP E]. unfold cancel_first. cbv zeta. set (p := clz (v1 .^ v2) + 1) in *.
  set (P := LB - p) in *. unfold limb in *. assert (0 < 2 ^ P) as Hpp by (apply Z.pow_pos_nonneg; lia).
  pose proof (Z.mod_pos_bound v1 (2 ^ P) Hpp) as M1. pose proof (Z.mod_pos_bound v2 (2 ^ P) Hpp) as M2.
  assert (v1 - v2 - 1 = v1 mod 2 ^ P + (2 ^ P - 1 - v2 mod 2 ^ P)) as Ed.
  { pose proof (Z.div_mod v1 (2 ^ P) ltac:(lia)). pose proof (Z.div_mod v2 (2 ^ P) ltac:(lia)). nia. }
  rewrite sword_id by lia. cbn [mbind option_bind]. rewrite Z.gtb_ltb. destruct (Z.ltb_spec 0 P) as [HP0|HP0].
  - rewrite limb_mask_low by lia. replace (P - 1 + 1) with P by lia.
    assert (∀ z, 0 <= z → z .& (2 ^ P - 1) = z mod 2 ^ P) as Hmask by (intros z Hz; rewrite <- Z.land_ones, Z.ones_equiv by lia; f_equal; lia).
    assert (ulimb (Z.lnot v2) = B - 1 - v2) as -> by (unfold ulimb, Z.lnot; symmetry; apply (Z.mod_unique _ _ (-1)); lia).
    assert ((B - 1 - v2) mod 2 ^ P = 2 ^ P - 1 - v2 mod 2 ^ P) as E2.
    { pose proof (Z.div_mod v2 (2 ^ P) ltac:(lia)). assert (B = 2 ^ (LB - P) * 2 ^ P) as HB by (unfold B; rewrite <- Z.pow_add_r by lia; f_equal; lia).
      symmetry. apply (Z.mod_unique _ _ (2 ^ (LB - P) - 1 - v2 / 2 ^ P)); [lia|]. rewrite HB. nia. }
    rewrite !Hmask, E2 by lia. destruct (min_clz_spec (v1 mod 2 ^ P) (2 ^ P - 1 - v2 mod 2 ^ P) P) as (C1 & C2 & C3); [lia..|].
    set (p1 := bf_min _ _ - _) in *. rewrite sword_id by lia. cbn [mbind option_bind]. destruct (Z.eqb_spec p1 P) as [Ep|Ep]; cbn [negb].
    + exists (n + p + p1), false. split; [done|]. unfold P in *. lia.
    + exists (n + p + p1), true. split; [done|]. split; [unfold P in *; lia|]. rewrite Ed.
      replace (LB - 1 - (n + p + p1 - n)) with (P - 1 - p1) by (unfold P; lia). apply C3. lia.
  - assert (P = 0) as E0 by lia. exists (n + p), false. split; [done|]. rewrite E0, Z.pow_0_r, !Z.mod_1_r in Ed. unfold P in *. lia.
Qed.
Lemma digit_split x j : 0 <= j → x / B ^ j = B * (x / B ^ (j + 1)) + digit x j.
Proof.
  intros Hj. pose proof B_pos. pose proof (pow_B_pos j Hj). unfold digit. rewrite pow_B_S, (Z.mul_comm B (B ^ j)), <- Z.div_div by lia. apply Z.div_mod. lia.
Qed.
Lemma quot_gap x y j s h : 0 <= j → 0 <= h → x / B ^ j = y / B ^ j + 1 + s → 2 ^ h <= s → 2 ^ (LB * j + h) <= x - y.
Proof.
  intros Hj Hh E Hs. pose proof LB_pos. pose proof (pow_B_pos j Hj) as Hp. assert (B ^ j ≠ 0) as Hn by lia. pose proof (Z.div_mod x (B ^ j) Hn). pose proof (Z.div_mod y (B ^ j) Hn).
  pose proof (Z.mod_pos_bound x (B ^ j) Hp). pose proof (Z.mod_pos_bound y (B ^ j) Hp). rewrite Z.pow_add_r, <- pow_B by nia.
  assert (B ^ j * 2 ^ h <= B ^ j * s) by (apply Z.mul_le_mono_nonneg_l; lia). assert (B ^ j * (x / B ^ j) = B ^ j * (y / B ^ j) + B ^ j + B ^ j * s) by (rewrite E; ring). lia.
Qed.
End Bits.

Section Cancel.
Context {LS : LimbSize} (a b : bf_t) (M d : Z).
Notation LB := (@LIMB_BITS LS).
Hypothesis Ha : limbs (bf_tab a).
Hypothesis Hb : limbs (bf_tab b).
Hypothesis Hla : 0 < bf_len a < M.
Hypothesis Hlb : 0 < bf_len b.
Hypothesis HlM : bf_len b + 2 <= M.
Hypothesis Hd : d = 0 ∨ d = 1.
Hypothesis Hsmall : LB * M <= B / 2 - 2 * LB - 2.
Notation k := (LB * (M - bf_len b) - d).
Notation va := (val (bf_tab a) * B ^ (M - bf_len a)).
Notation vb := (val (bf_tab b) * 2 ^ k).
Notation b_off := ((bf_len b - bf_len a) * LB - (LB - 1) + d).
(** [bit_offset] at the limb [j] *)
Definition offset_at (j : Z) : Z := LB * (j + 1 - (M - bf_len a)) - 1.

Lemma cancel_reads j : 0 <= j < M →
  get_limbz a (offset_at j >> LIMB_LOG2_BITS) = Some (digit va j) ∧ sword (offset_at j + b_off) = Some (LB * j - k) ∧
  get_bits (bf_tab b) (bf_len b) (LB * j - k) = Some (digit vb j) ∧ sword (offset_at j - LB) = Some (offset_at (j - 1)).
Proof.
  intros Hj. pose proof LB_pos. destruct B_half as [HB HB31].
  assert (LB * bf_len b + d <= LB * M) as HN by (assert (LB * (bf_len b + 2) <= LB * M) by nia; lia).
  assert (0 < bf_len a <= M) as Hla' by lia. assert (0 <= d) as Hd0 by lia. assert (LB * M <= B / 2 - LB) as Hs by lia.
  destruct (frame_small a b M d Hla' Hlb Hd0 HN Hs) as (S1 & S2 & S3). assert (0 <= LB * j) by nia. assert (LB * j + LB <= LB * M) by nia.
  assert (offset_at j >> LIMB_LOG2_BITS = j - (M - bf_len a)) as ->.
  { rewrite shiftr_log2. unfold offset_at. symmetry. apply (Z.div_unique _ _ _ (LB - 1)); lia. }
  rewrite get_limbz_spec, read_a by (done || lia). split; [done|]. assert (offset_at j + b_off = LB * j - k) as -> by (unfold offset_at; ring).
  assert (LB * (M - bf_len b) <= LB * M) by nia. rewrite sword_id by lia. split; [done|]. split; [by apply (read_b a b M d)|].
  assert (0 <= LB * (M - bf_len a) <= LB * M) by nia.
  assert (offset_at j - LB = offset_at (j - 1)) as -> by (unfold offset_at; ring). apply sword_id. unfold offset_at. lia.
Qed.
Lemma lowest_digits : digit va 0 = 0 ∧ digit vb 0 = 0.
Proof.
  pose proof LB_pos. split; [apply digit_a_low; done || lia|]. apply digit_b_low; [done|]. assert (LB * 2 <= LB * (M - bf_len b)) by nia. lia.
Qed.
Lemma cancel_equal_spec fuel j :
  0 <= j < M → j < Z.of_nat fuel → va / B ^ (j + 1) = vb / B ^ (j + 1) → vb < va →
  ∃ j', 0 < j' <= j ∧ cancel_equal fuel a b (offset_at j) b_off (LB * (M - 1 - j)) = Some (digit va j', digit vb j', offset_at j', LB * (M - 1 - j')) ∧
    digit vb j' < digit va j' ∧ va / B ^ (j' + 1) = vb / B ^ (j' + 1).
Proof.
  pose proof LB_pos. destruct B_half as [HB HB31]. revert j. induction fuel as [|fuel IH]; intros j Hj Hf E Hlt; [lia|]. cbn [cancel_equal].
  destruct (cancel_reads j Hj) as (-> & -> & R & Eo). cbn [mbind option_bind]. rewrite R. cbn [mbind option_bind].
  pose proof (digit_split va j ltac:(lia)) as Da. pose proof (digit_split vb j ltac:(lia)) as Db. rewrite E in Da.
  assert (vb / B ^ j <= va / B ^ j) as Hle by (apply Z.div_le_mono; [apply pow_B_pos; lia|lia]).
  destruct (Z.eqb_spec (digit va j) (digit vb j)) as [Ed|Ed]; cbn [negb].
  - assert (0 < j) as Hj0.
    { destruct (Z.eq_dec j 0) as [->|]; [|lia]. rewrite Z.pow_0_r, !Z.div_1_r in Da, Db. lia. }
    assert (0 <= LB * (M - 1 - j) ∧ LB * (M - 1 - j) + LB <= LB * M) as [] by nia. rewrite (sword_id (LB * (M - 1 - j) + LB)) by lia. cbn [mbind option_bind]. rewrite Eo. cbn [mbind option_bind].
    replace (LB * (M - 1 - j) + LB) with (LB * (M - 1 - (j - 1))) by ring.
    destruct (IH (j - 1)) as (j' & Hj' & E' & Hd' & Eq'); [lia|lia|replace (j - 1 + 1) with j by lia; lia|done|]. exists j'. split; [lia|]. done.
  - exists j. split; [|split; [done|split; [lia|done]]]. destruct (Z.eq_dec j 0) as [->|]; [|lia]. destruct lowest_digits. lia.
Qed.
Lemma cancel_run_spec fuel j :
  0 <= j < M → j < Z.of_nat fuel → va / B ^ (j + 1) = vb / B ^ (j + 1) + 1 →
  ∃ n, cancel_run fuel a b (offset_at j) b_off (LB * (M - 1 - j)) = Some n ∧ 0 <= n < LB * M ∧ 2 ^ (LB * M - 1 - n) <= va - vb.
Proof.
  pose proof LB_pos. destruct B_half as [HB HB31]. revert j. induction fuel as [|fuel IH]; intros j Hj Hf E; [lia|]. cbn [cancel_run].
  destruct (cancel_reads j Hj) as (-> & -> & R & Eo). cbn [mbind option_bind]. rewrite R. cbn [mbind option_bind].
  pose proof (digit_split va j ltac:(lia)) as Da. pose proof (digit_split vb j ltac:(lia)) as Db. rewrite E in Da.
  pose proof (digit_limb va j) as La. pose proof (digit_limb vb j) as Lb. unfold limb in La, Lb.
  assert (ulimb (-1) = B - 1) as -> by (unfold ulimb; symmetry; apply (Z.mod_unique _ _ (-1)); lia).
  assert (0 <= LB * (M - 1 - j) ∧ LB * (M - 1 - j) + LB <= LB * M ∧ 0 <= LB * j) as (N1 & N2 & N3) by nia.
  destruct (Z.eqb_spec (digit va j) 0) as [E1|E1], (Z.eqb_spec (digit vb j) (B - 1)) as [E2|E2]; cbn [negb orb].
  1: { assert (0 < j) as Hj0 by (destruct (Z.eq_dec j 0) as [->|]; [destruct lowest_digits; lia|lia]).
    rewrite (sword_id (LB * (M - 1 - j) + LB)) by lia. cbn [mbind option_bind]. rewrite Eo. cbn [mbind option_bind].
    replace (LB * (M - 1 - j) + LB) with (LB * (M - 1 - (j - 1))) by ring. apply IH; [lia|lia|]. replace (j - 1 + 1) with j by lia. lia. }
  all: assert (ulimb (Z.lnot (digit vb j)) = B - 1 - digit vb j) as -> by (unfold ulimb, Z.lnot; symmetry; apply (Z.mod_unique _ _ (-1)); lia);
    destruct (min_clz_spec (digit va j) (B - 1 - digit vb j) LB) as (C1 & C2 & C3); [unfold B in *; lia..|]; rewrite Z.sub_diag, Z.sub_0_r in *;
    set (c := bf_min _ _) in *; exists (LB * (M - 1 - j) + c); rewrite sword_id by lia; split; [done|]; split; [lia|];
    replace (LB * M - 1 - (LB * (M - 1 - j) + c)) with (LB * j + (LB - 1 - c)) by ring;
    apply (quot_gap va vb j (digit va j + (B - 1 - digit vb j))); [lia|lia|lia|apply C3; lia].
Qed.
Lemma count_cancelled_bits_spec :
  bf_expn a - bf_expn b = d → M <= bf_len a + bf_len b + 2 → vb < va →
  ∃ n, count_cancelled_bits a b = Some n ∧ 0 <= n < LB * M ∧ 2 ^ (LB * M - 1 - n) <= va - vb.
Proof.
  intros Ed HM Hlt. pose proof LB_pos. destruct B_half as [HB HB31]. unfold count_cancelled_bits.
  assert (0 <= LB * bf_len a <= LB * M ∧ 0 <= LB * bf_len b <= LB * M ∧ LB * (bf_len b + 2) <= LB * M) as (X1 & X2 & X3) by nia.
  assert (slimb (bf_len a * LB - 1) = offset_at (M - 1)) as -> by (unfold offset_at; rewrite slimb_id by lia; ring).
  assert (slimb ((bf_len b - bf_len a) * LB - (LB - 1) + bf_expn a - bf_expn b) = b_off) as -> by (rewrite slimb_id by lia; lia).
  assert (Z.of_nat (cancel_fuel a b) = bf_len a + bf_len b + 3) as Hfuel by (unfold cancel_fuel, bf_len, zlen; lia).
  assert (va / B ^ (M - 1 + 1) = vb / B ^ (M - 1 + 1)) as Etop.
  { replace (M - 1 + 1) with M by lia. destruct (frame_bounds a b M d Ha Hb) as [Ba Bb]; [lia..|]. by rewrite !Z.div_small. }
  destruct (cancel_equal_spec (cancel_fuel a b) (M - 1)) as (j & Hj & E & Hdj & Eq); [lia|lia|done|done|].
  replace (LB * (M - 1 - (M - 1))) with 0 in E by ring. rewrite E. cbn [mbind option_bind]. clear E.
  assert (0 <= LB * (M - 1 - j) ∧ LB * (M - 1 - j) + LB <= LB * M ∧ 0 <= LB * j) as (N1 & N2 & N3) by nia.
  destruct (cancel_first_spec (digit va j) (digit vb j) (LB * (M - 1 - j))) as (n & stop & -> & Hs); [apply digit_limb..|done|lia|].
  cbn [mbind option_bind]. pose proof (digit_split va j ltac:(lia)) as Da. pose proof (digit_split vb j ltac:(lia)) as Db. rewrite Eq in Da. destruct stop.
  - exists n. split; [done|]. split; [lia|]. destruct Hs as [Hn Hs].
    replace (LB * M - 1 - n) with (LB * j + (LB - 1 - (n - LB * (M - 1 - j)))) by ring.
    apply (quot_gap va vb j (digit va j - digit vb j - 1)); [lia|lia|lia|done].
  - destruct Hs as [-> Hs]. destruct (cancel_reads j ltac:(lia)) as (_ & _ & _ & ->). cbn [mbind option_bind].
    replace (LB * (M - 1 - j) + LB) with (LB * (M - 1 - (j - 1))) by ring. apply cancel_run_spec; [lia|lia|]. replace (j - 1 + 1) with j by lia. lia.
Qed.
End Cancel.
