(* ===== verification/BigFloatSum.v ===== *)
(** * The rounded sum

    The limbs that [add_normal] stores, with the sticky bit, round to what the
    exact sum or difference of the magnitudes rounds to. *)
From Stdlib Require Import QArith Qpower Lqa.
From S2P Require Import Prelude Alloc Reliable Limb LimbOps BigFloat LimbBits BigFloatRound BigFloatValue BigFloatSpec BigFloatOps BigFloatUnique BigFloatAlign BigFloatAdd BigFloatSticky BigFloatAddSpec BigFloatCancel.
Open Scope Z_scope.

Section Magnitudes.
Context {LS : LimbSize}.
Notation LB := (@LIMB_BITS LS).

Lemma sixteenth_half : B / 2 = 8 * (B / 16) ∧ B / 8 = 2 * (B / 16) ∧ 2 ^ 28 <= B / 16.
Proof. unfold B. destruct LIMB_BITS_cases as [-> | ->]; vm_compute; done. Qed.
Lemma dyad_plus n m e : (dyad n e + dyad m e == dyad (n + m) e)%Q.
Proof. unfold dyad. rewrite inject_Z_plus. ring. Qed.
Lemma dyad_minus n m e : (dyad n e - dyad m e == dyad (n - m) e)%Q.
Proof. unfold dyad, Z.sub. rewrite inject_Z_plus, inject_Z_opp. ring. Qed.
Lemma dyad_1_le e1 e2 : e1 <= e2 → (dyad 1 e1 <= dyad 1 e2)%Q.
Proof.
  intros He. replace e2 with (e1 + (e2 - e1)) by lia. rewrite <- dyad_shift by lia. apply dyad_le. pose proof (Z.pow_pos_nonneg 2 (e2 - e1)). lia.
Qed.
(** [|a| + |b|] or [|a| - |b|] *)
Definition sum_mag (is_sub : Z) (a b : bf_t) : Q := if is_sub =? 0 then (bf_mag a + bf_mag b)%Q else (bf_mag a - bf_mag b)%Q.
(** the two numbers in a frame of [N] limbs *)
Lemma mag_frame a b N d :
  bf_len a <= N → LB * bf_len b + d <= LB * N → d = bf_expn a - bf_expn b →
  (bf_mag a == dyad (val (bf_tab a) * B ^ (N - bf_len a)) (bf_expn a - LB * N))%Q ∧
  (bf_mag b == dyad (val (bf_tab b) * 2 ^ (LB * (N - bf_len b) - d)) (bf_expn a - LB * N))%Q.
Proof.
  intros Ha Hb ->. split; [by apply mag_at|]. rewrite dyad_shift by lia. unfold bf_mag.
  match goal with |- (dyad _ ?x == dyad _ ?y)%Q => by replace x with y by ring end.
Qed.
(** the bits that a subtraction cancels *)
Lemma cancelled_spec a b is_sub :
  bf_normal a → bf_normal b → small_operand a → small_operand b → 0 <= bf_expn a - bf_expn b → is_sub = 0 ∨ is_sub = 1 →
  (is_sub = 1 → (bf_mag b < bf_mag a)%Q) →
  ∃ n, (if negb (is_sub =? 0) then (if bf_expn a - bf_expn b <=? 1 then count_cancelled_bits a b else Some 1) else Some 0) = Some n ∧
    0 <= n <= B / 16 + 2 * LB ∧ (dyad 1 (bf_expn a - 1 - n) <= sum_mag is_sub a b)%Q.
Proof.
  intros Ha Hb [La Ea] [Lb Eb] Hd Hsub Hlt. pose proof LB_pos. pose proof (nf_len a Ha). pose proof (nf_len b Hb). destruct sixteenth_half as (H16 & H2 & H28). assert (LB <= 64) as HLB64 by (destruct LIMB_BITS_cases as [-> | ->]; lia).
  destruct (normal_mag a Ha) as [Alo Ahi]. destruct (normal_mag b Hb) as [Blo Bhi]. pose proof (mag_pos b Hb). unfold sum_mag.
  destruct Hsub as [-> | ->]; cbn [Z.eqb negb].
  - exists 0. split; [done|]. split; [lia|]. rewrite Z.sub_0_r. lra.
  - destruct (Z.leb_spec (bf_expn a - bf_expn b) 1) as [Hd1|Hd1].
    + set (M := Z.max (bf_len a) (bf_len b + 1) + 1). assert (LB * M <= B / 16 + 2 * LB) as HM by nia.
      destruct (mag_frame a b M (bf_expn a - bf_expn b)) as [Ma Mb]; [lia|nia|done|]. specialize (Hlt eq_refl). rewrite Ma, Mb in Hlt. rewrite dyad_lt in Hlt.
      destruct (count_cancelled_bits_spec a b M (bf_expn a - bf_expn b)) as (n & E & Hn & Hv); [apply Ha|apply Hb|lia..|done|].
      exists n. split; [done|]. split; [lia|]. rewrite Ma, Mb, dyad_minus.
      replace (bf_expn a - 1 - n) with (bf_expn a - LB * M + (LB * M - 1 - n)) by ring. rewrite <- dyad_shift by lia. apply dyad_le. lia.
    + exists 1. split; [done|]. split; [lia|]. pose proof (dyad_1_le (bf_expn b) (bf_expn a - 1 - 1) ltac:(lia)).
      assert (dyad 1 (bf_expn a - 1) == dyad 1 (bf_expn a - 1 - 1) + dyad 1 (bf_expn a - 1 - 1))%Q as Ed.
      { rewrite dyad_plus. replace (bf_expn a - 1) with (bf_expn a - 1 - 1 + 1) at 1 by lia. by rewrite <- dyad_shift by lia. }
      lra.
Qed.
End Magnitudes.

Section Store.
Context {LS : LimbSize} `{!Allocator, !Reliable}.
Notation LB := (@LIMB_BITS LS).

(** [r->tab[0] |= (z != 0)] *)
Lemma sticky_store r z R :
  limbs r → 0 < zlen r → (z = 0 ↔ R = 0) →
  ∃ v t, r.[0] = Some v ∧ aset r 0 (v .| b2z (negb (z =? 0))) = Some t ∧ zlen t = zlen r ∧ limbs t ∧ val t = sticky (val r) R.
Proof.
  intros Lr Hl Hz. destruct r as [|v r]; [done|]. apply Forall_cons in Lr as [Lv Lr]. exists v, ((v .| b2z (negb (z =? 0))) :: r).
  split; [done|]. split; [done|]. split; [done|]. assert (b2z (negb (z =? 0)) = b2z (negb (R =? 0))) as -> by (destruct (Z.eqb_spec z 0), (Z.eqb_spec R 0); tauto).
  pose proof (val_bounds r Lr) as Hr. pose proof B_pos. unfold limb in Lv. destruct (Z.eqb_spec R 0) as [->|HR]; cbn [negb b2z].
  - rewrite Z.lor_0_r, sticky_exact. split; [by constructor|done].
  - cbn [val]. rewrite sticky_inexact by (done || nia). rewrite lor_1 by lia. destruct B_half as [HB _].
    assert (Z.even (v + B * val r) = Z.even v) as -> by (rewrite HB, Z.even_add, <- Z.mul_assoc, Z.even_mul; by destruct (Z.even v)).
    split; [|ring]. constructor; [|done]. unfold limb. destruct (Z.even v) eqn:Ev; cbn [b2z]; [|lia]. apply Z.even_spec in Ev as [h Eh]. lia.
Qed.
Lemma sticky_add_even q s R : 0 <= q → 0 <= s ∧ Z.even s = true → sticky (q + s) R = sticky q R + s.
Proof.
  intros Hq [Hs Ev]. destruct (Z.eq_dec R 0) as [->|HR]; [by rewrite !sticky_exact|]. rewrite !sticky_inexact by lia.
  rewrite Z.even_add, Ev. destruct (Z.even q); cbn; lia.
Qed.
Lemma even_pow_B l : 0 < l → 0 <= B ^ l ∧ Z.even (B ^ l) = true.
Proof.
  intros Hl. pose proof (pow_B_pos l ltac:(lia)). split; [lia|]. pose proof LB_pos. rewrite pow_B by lia. rewrite Z.even_pow by nia. done.
Qed.
(** what is left of [add_normal] *)
Lemma round_sum sgn e t q R j prec flags :
  limbs t → LB * zlen t <= B / 8 → - (B / 8) <= e <= B / 8 → sgn = 0 ∨ sgn = 1 → good_params prec flags → flags .& BF_FLAG_RADPNT_PREC = 0 →
  val t = sticky q R → 0 <= R < 2 ^ j → 0 <= j → 0 < q → (R ≠ 0 → 2 ^ (prec + 1) <= q) →
  wp (bf_normalize_and_round (mk_bf sgn e t) prec flags) (λ '(st, r'), rounds_to sgn (dyad (q * 2 ^ j + R) (e - LB * zlen t - j)) prec flags st r').
Proof.
  intros Lt HL He Hs Hg Hrad Hv HR Hj Hq Hp. eapply wp_mono; [apply bf_normalize_and_round_spec; done|]. cbn [bf_tab bf_sign]. intros [st r'].
  assert (q <= sticky q R) as Hst.
  { destruct (Z.eq_dec R 0) as [->|]; [rewrite sticky_exact; lia|]. rewrite sticky_inexact by lia. destruct (Z.even q); cbn [b2z]; lia. }
  rewrite Hv. destruct (Z.eqb_spec (sticky q R) 0); [lia|]. unfold bf_mag, bf_len. cbn [bf_tab bf_expn]. rewrite Hv.
  pose proof (Z.log2_spec q Hq) as Hlog. pose proof (Z.log2_nonneg q).
  apply (rounds_to_sticky _ _ _ _ _ (Z.log2 q + 1)); [done|done|lia| | |pose proof (gp_prec _ _ Hg); lia|done].
  - replace (Z.log2 q + 1 - 1) with (Z.log2 q) by lia. by rewrite Z.add_1_r.
  - intros HR0. specialize (Hp HR0). pose proof (gp_prec _ _ Hg). assert (prec + 1 <= Z.log2 q) by (apply Z.log2_le_pow2; done). lia.
Qed.
(** the two loops *)
Lemma add_loops a b N d sub l tab :
  limbs (bf_tab a) → limbs (bf_tab b) → 0 < bf_len a <= N → 0 < bf_len b → 0 <= d → LB * bf_len b + d <= LB * N → LB * N <= B / 2 - LB → sub = 0 ∨ sub = 1 →
  0 < l <= N → zlen tab = l → let va := val (bf_tab a) * B ^ (N - bf_len a) in let vb := val (bf_tab b) * 2 ^ (LB * (N - bf_len b) - d) in (sub = 1 → vb < va) →
  ∃ carry z r c R, add_low (add_fuel a b) a b (bf_len a - l) ((bf_len b - l) * LB + d) (ulimb (- sub)) (l - N) sub 0 = Some (carry, z) ∧
    add_high a b (bf_len a - l) ((bf_len b - l) * LB + d) (ulimb (- sub)) l tab carry = Some (r, c) ∧
    zlen r = l ∧ limbs r ∧ 0 <= c <= 1 ∧ (z = 0 ↔ R = 0) ∧ 0 <= R < 2 ^ (LB * (N - l)) ∧
    (if sub =? 0 then va + vb = (val r + B ^ l * c) * 2 ^ (LB * (N - l)) + R else va - vb = val r * 2 ^ (LB * (N - l)) + R).
Proof.
  intros Ha Hb Hla Hlb Hd HN Hs Hsub Hl Ht va vb Hlt. pose proof LB_pos.
  destruct (add_low_spec a b N d sub Ha Hb Hla Hlb Hd HN Hs Hsub l Hl (add_fuel a b) (l - N) sub 0) as (carry & z & E1 & Hinv).
  - lia.
  - replace (N - l + (l - N)) with 0 by lia. split; [done|]. split; [lia|]. split; [done|]. exists 0. change (Z.to_nat 0) with O. cbn [series]. rewrite Z.pow_0_r. lia.
  - unfold add_measure, add_fuel. assert (∀ c : bool, 0 <= b2z c <= 1) as Hb2 by (intros []; cbn; lia).
    pose proof (Hb2 (l - N <? - (bf_len a - l))). pose proof (Hb2 (l - N <? - ((bf_len b - l) * LB + d) / LB)). pose proof (Hb2 (l - N <? 0)). unfold bf_len, zlen in *. lia.
  - pose proof Hinv as (_ & Hc & _).
    destruct (add_high_spec a b N d sub Ha Hb Hla Hlb Hd HN Hs Hsub l Hl tab carry Ht Hc) as (r & c & E2 & Hz & Lr & Hcr & Hv).
    destruct (sum_spec a b N d sub Ha Hb Hla Hlb Hd HN Hsub l carry z r c) as (R & HR & Hzr & Hsum); try done.
    exists carry, z, r, c, R. done.
Qed.
(** how many bits the stored part of a sum has *)
Lemma stored_bits x e q R n prec N l :
  (dyad 1 (e - 1 - n) <= x)%Q → (x == dyad (q * 2 ^ (LB * (N - l)) + R) (e - LB * N))%Q → 0 <= R < 2 ^ (LB * (N - l)) → 0 < l <= N →
  0 <= prec → (l < N → n + prec + 2 <= LB * l) → 0 < q ∧ (R ≠ 0 → 2 ^ (prec + 1) <= q).
Proof.
  intros Hx Ex HR Hl Hp0 Hp. pose proof LB_pos. rewrite Ex in Hx. destruct (Z.eq_dec l N) as [->|HlN].
  - rewrite Z.sub_diag, Z.mul_0_r, Z.pow_0_r in *. assert (R = 0) as -> by lia. rewrite Z.mul_1_r, Z.add_0_r in Hx. split; [|done].
    apply (dyad_lt 0 q (e - LB * N)). rewrite dyad_0. eapply Qlt_le_trans; [|exact Hx]. rewrite <- (dyad_0 (e - 1 - n)). by apply dyad_lt.
  - specialize (Hp ltac:(lia)). assert (0 <= LB * (N - l)) as Hj by nia. assert (0 < 2 ^ (LB * (N - l))) as Hpj by (apply Z.pow_pos_nonneg; lia).
    assert (0 <= LB * l - 1 - n) as Hh by lia. replace (e - 1 - n) with (e - LB * N + (LB * (N - l) + (LB * l - 1 - n))) in Hx by ring.
    rewrite <- dyad_shift, dyad_le, Z.mul_1_l, Z.pow_add_r in Hx by lia. pose proof (Z.pow_le_mono_r 2 (prec + 1) (LB * l - 1 - n) ltac:(lia) ltac:(lia)).
    pose proof (Z.pow_pos_nonneg 2 (prec + 1) ltac:(lia) ltac:(lia)). set (p := 2 ^ (LB * l - 1 - n)) in *. assert (p <= q) by nia. split; [lia|]. intros _. lia.
Qed.
(** the limbs of the result, from the length [l] that was allocated on *)
Lemma add_store a b N l n is_sub a_sign prec flags tab e :
  bf_normal a → bf_normal b → bf_len a <= N → let d := bf_expn a - bf_expn b in 0 <= d → LB * bf_len b + d <= LB * N → LB * N <= B / 2 - LB →
  is_sub = 0 ∨ is_sub = 1 → (is_sub = 1 → (bf_mag b < bf_mag a)%Q) → a_sign = 0 ∨ a_sign = 1 → good_params prec flags → flags .& BF_FLAG_RADPNT_PREC = 0 →
  0 < l <= N → LB * (l + 1) <= B / 8 → - (B / 8) <= bf_expn a <= B / 8 - LB → zlen tab = l → e = bf_expn a →
  0 <= n → (l < N → n + prec + 2 <= LB * l) → (dyad 1 (bf_expn a - 1 - n) <= sum_mag is_sub a b)%Q →
  wp ('(carry, z) ← lift (add_low (add_fuel a b) a b (bf_len a - l) ((bf_len b - l) * LB + d) (ulimb (- is_sub)) (l - N) is_sub 0);
      '(tab, carry) ← lift (add_high a b (bf_len a - l) ((bf_len b - l) * LB + d) (ulimb (- is_sub)) l tab carry);
      v ← lift tab.[0];
      tab ← lift (aset tab 0 (v .| b2z (negb (z =? 0))));
      let r := mk_bf a_sign e tab in
      if (is_sub =? 0) && negb (carry =? 0) then
        '(ret, r) ← bf_resize r (l + 1);
        if negb (ret =? 0) then bf_mem_error r
        else
          tab ← lift (aset (bf_tab r) l 1);
          e ← lift (sword (bf_expn r + LB));
          bf_normalize_and_round (mk_bf (bf_sign r) e tab) prec flags
      else bf_normalize_and_round r prec flags)
    (λ '(st, r'), rounds_to a_sign (sum_mag is_sub a b) prec flags st r').
Proof.
  intros Ha Hb HaN d Hd HN Hs Hsub Hlt Hsg Hg Hrad Hl HL Hea Htab -> Hn Hprec Hmag. pose proof LB_pos. destruct B_eighth as (HB & HB2 & HB3).
  pose proof (nf_len a Ha). pose proof (nf_len b Hb). pose proof (gp_prec _ _ Hg). destruct (mag_frame a b N d HaN HN eq_refl) as [Ma Mb].
  destruct (add_loops a b N d is_sub l tab) as (carry & z & r & c & R & E1 & E2 & Hz & Lr & Hc & HzR & HR & Hsum); [apply Ha|apply Hb|lia|lia|lia|lia|lia|done|done|done| |].
  { intros E. specialize (Hlt E). by rewrite Ma, Mb, dyad_lt in Hlt. }
  eapply wp_bind_lift; [exact E1|]. eapply wp_bind_lift; [exact E2|]. clear E1 E2.
  destruct (sticky_store r z R Lr ltac:(lia) HzR) as (v & t & Ev & Et & Hzt & Lt & Hvt).
  eapply wp_bind_lift; [exact Ev|]. eapply wp_bind_lift; [exact Et|]. clear Ev Et. cbv zeta.
  set (q := if is_sub =? 0 then val r + B ^ l * c else val r).
  assert (sum_mag is_sub a b == dyad (q * 2 ^ (LB * (N - l)) + R) (bf_expn a - LB * N))%Q as Ex.
  { unfold sum_mag, q. destruct (is_sub =? 0); rewrite Ma, Mb; [rewrite dyad_plus|rewrite dyad_minus]; by rewrite Hsum. }
  destruct (stored_bits _ _ q R n prec N l Hmag Ex HR Hl ltac:(lia) Hprec) as [Hq0 Hq]. assert (0 <= LB * (N - l)) as Hj by nia.
  assert (∀ e t, limbs t → LB * zlen t <= B / 8 → - (B / 8) <= e <= B / 8 → val t = sticky q R → e - LB * zlen t = bf_expn a - LB * l →
    wp (bf_normalize_and_round (mk_bf a_sign e t) prec flags) (λ '(st, r'), rounds_to a_sign (sum_mag is_sub a b) prec flags st r')) as Hround.
  { intros e t' L' HL' He' Hv' Ee. eapply wp_mono; [by apply (round_sum a_sign e t' q R (LB * (N - l)))|]. intros [st r'] Hr'.
    eapply rounds_to_eq; [|exact Hr']. rewrite Ex, Ee. match goal with |- (dyad _ ?x == dyad _ ?y)%Q => by replace x with y by ring end. }
  destruct ((is_sub =? 0) && negb (c =? 0)) eqn:Ecar.
  - apply andb_true_iff in Ecar as [Es Ec%negb_true_iff%Z.eqb_neq]. unfold q in *. rewrite Es in *. assert (c = 1) as -> by lia. rewrite Z.mul_1_r in *.
    eapply wp_bind; [apply wp_bf_resize; lia|]. intros ? (g & -> & Lg & Hzg). cbn [Z.eqb negb bf_tab set_tab bf_expn bf_sign]. unfold bf_len in Hzg. cbn [bf_tab] in Hzg.
    rewrite ztake_all by lia. assert (∃ g0, g = [g0]) as [g0 ->] by (destruct g as [|g0 [|]]; rewrite ?zlen_cons, ?zlen_nil in Hzg; [lia|eauto|pose proof (zlen_nonneg l0); lia]). assert (aset (t ++ [g0]) l 1 = Some (t ++ [1])) as Eset by (rewrite <- Hz, <- Hzt; apply aset_app_at).
    eapply wp_bind_lift; [exact Eset|]. rewrite sword_id by lia. eapply wp_bind_lift; [reflexivity|].
    assert (zlen (t ++ [1]) = l + 1) as Hz1 by (rewrite zlen_app; change (zlen [1]) with 1; lia). apply Hround; rewrite ?Hz1; try lia.
    + apply limbs_app. split; [done|]. constructor; [pose proof B_pos; unfold limb; lia|constructor].
    + rewrite val_snoc, Hvt, Hzt, Hz, Z.mul_1_r. symmetry. apply sticky_add_even; [pose proof (val_bounds r Lr); lia|apply even_pow_B; lia].
  - assert (q = val r) as Eq.
    { unfold q. destruct (is_sub =? 0); [|done]. cbn [andb] in Ecar. apply negb_false_iff, Z.eqb_eq in Ecar. rewrite Ecar. lia. }
    apply Hround; rewrite ?Hzt, ?Hz; try lia; [done|]. by rewrite Eq.
Qed.
Lemma add_lengths la lb d n prec :
  0 < la → 0 < lb → 0 <= d → LB * la <= B / 16 → LB * lb <= B / 16 → d <= B / 8 → 0 <= n <= B / 16 + 2 * LB → 1 <= prec <= BF_PREC_INF → prec <= B / 32 ∨ d <= B / 32 →
  let N := bf_max la (lb + (d + LB - 1) / LB) in let l := bf_min ((n + prec + 2 + LB - 1) / LB) N in
  la <= N ∧ LB * lb + d <= LB * N ∧ LB * N <= B / 8 + B / 16 + LB ∧ 0 < l <= N ∧ LB * (l + 1) <= B / 8 ∧ (l < N → n + prec + 2 <= LB * l).
Proof.
  intros Pa Pb Hd La Lb Hd8 Hn Hp Hsmall N l. pose proof LB_pos. destruct sixteenth_half as (H2 & H8 & H28).
  assert (LB <= 64) as HLB64 by (destruct LIMB_BITS_cases as [-> | ->]; lia).
  assert (B / 16 = 2 * (B / 32)) as H32 by (unfold B; destruct LIMB_BITS_cases as [-> | ->]; vm_compute; done).
  assert (∀ x, 0 <= x → x <= LB * ((x + LB - 1) / LB) <= x + LB - 1) as Hceil.
  { intros x Hx. assert (LB ≠ 0) as HLB0 by lia. assert (0 < LB) as HLBp by lia. pose proof (Z.div_mod (x + LB - 1) LB HLB0). pose proof (Z.mod_pos_bound (x + LB - 1) LB HLBp). lia. }
  pose proof (Hceil d Hd) as Cd. pose proof (Hceil (n + prec + 2) ltac:(lia)) as Cp. set (dl := (d + LB - 1) / LB) in *. set (precl := (n + prec + 2 + LB - 1) / LB) in *.
  assert (0 < precl) by nia. unfold bf_max in N. assert (la <= N ∧ lb + dl <= N ∧ (N = la ∨ N = lb + dl)) as (N1 & N2 & N3).
  { unfold N. rewrite Z.gtb_ltb. destruct (Z.ltb_spec (lb + dl) la); lia. }
  clearbody N. assert (LB * (lb + dl) <= LB * N) by (apply Z.mul_le_mono_nonneg_l; lia). unfold bf_min in l. assert ((l = precl ∨ l = N) ∧ l <= N ∧ l <= precl) as (L1 & L2 & L3).
  { unfold l. destruct (Z.ltb_spec precl N); lia. }
  clearbody l. assert (LB * N <= B / 16 + d + LB - 1) by (destruct N3 as [-> | ->]; lia). assert (LB * l <= LB * N ∧ LB * l <= LB * precl) as [] by (split; apply Z.mul_le_mono_nonneg_l; lia).
  split; [done|]. split; [lia|]. split; [lia|]. split; [lia|]. split; [lia|]. intros HlN. assert (l = precl) as -> by lia. lia.
Qed.
Lemma add_normal_spec r a b a_sign is_sub prec flags :
  bf_normal a → bf_normal b → small_operand a → small_operand b → 0 <= bf_expn a - bf_expn b → is_sub = 0 ∨ is_sub = 1 →
  (is_sub = 1 → (bf_mag b < bf_mag a)%Q) → a_sign = 0 ∨ a_sign = 1 → good_params prec flags → flags .& BF_FLAG_RADPNT_PREC = 0 →
  prec <= B / 32 ∨ bf_expn a - bf_expn b <= B / 32 →
  wp (add_normal r a b a_sign is_sub prec flags) (λ '(st, r'), rounds_to a_sign (sum_mag is_sub a b) prec flags st r').
Proof.
  intros Ha Hb Sa Sb Hd Hsub Hlt Hsg Hg Hrad Hsmall. pose proof LB_pos. pose proof (nf_len a Ha). pose proof (nf_len b Hb). destruct sixteenth_half as (F2 & F8 & F28).
  assert (LB <= 64) as HLB64 by (destruct LIMB_BITS_cases as [-> | ->]; lia). pose proof PREC_INF_eighth. pose proof (gp_prec _ _ Hg). destruct B_half as [HB HB31].
  destruct (cancelled_spec a b is_sub Ha Hb Sa Sb Hd Hsub Hlt) as (n & En & Hn & Hmag). destruct Sa as [La Ea], Sb as [Lb Eb].
  unfold add_normal. set (d := bf_expn a - bf_expn b) in *. rewrite (sword_id d) by lia. eapply wp_bind_lift; [reflexivity|].
  eapply wp_bind_lift; [exact En|]. clear En. rewrite (sword_id (d + LB - 1)) by lia. eapply wp_bind_lift; [reflexivity|]. cbv zeta.
  rewrite Z.quot_div_nonneg, ulimb_id by (unfold limb; lia).
  destruct (add_lengths (bf_len a) (bf_len b) d n prec) as (N1 & N2 & N3 & L1 & L2 & L3); [done|done|done|lia..|done|done|].
  set (N := bf_max _ _) in *. set (l := bf_min _ _) in *. clearbody N l. eapply wp_bind; [apply wp_bf_resize; lia|]. intros ? (g & -> & Lg & Hzg).
  cbn [Z.eqb negb bf_tab set_tab bf_expn bf_sign]. unfold bf_len in Hzg at 1. cbn [bf_tab] in Hzg.
  assert (LB * l <= LB * N ∧ LB * 1 <= LB * l ∧ 1 * N <= LB * N ∧ 1 * l <= LB * l) as (M1 & M2 & M3 & M4)
    by (split; [|split; [|split]]; (apply Z.mul_le_mono_nonneg_l || apply Z.mul_le_mono_nonneg_r); lia).
  assert (1 * bf_len a <= LB * bf_len a ∧ 0 <= LB * bf_len b) as [M5 M6] by (split; [apply Z.mul_le_mono_nonneg_r|apply Z.mul_nonneg_nonneg]; lia).
  rewrite (slimb_id (bf_len a - l)), (slimb_id ((bf_len b - l) * LB + d)), (slimb_id (l - N)) by lia.
  eapply (add_store a b N l n is_sub a_sign prec flags _ (bf_expn a)); try done; try lia.
  rewrite zlen_app, Hzg. destruct (Z.le_gt_cases l (zlen (bf_tab r))).
  - rewrite zlen_ztake by lia. lia.
  - rewrite ztake_all by lia. lia.
Qed.
End Store.
