(* ===== verification/BigFloatAddCorrect.v ===== *)
(** * Addition and subtraction are correctly rounded

    [bf_add] and [bf_sub] round the exact sum and the exact difference of
    their operands; what they return is in canonical form, and zeros,
    infinities and NaN follow the rules of IEEE 754. *)
From Stdlib Require Import QArith Qpower Qabs Lqa.
From S2P Require Import Prelude Alloc Reliable Limb LimbOps BigFloat LimbBits BigFloatRound BigFloatValue BigFloatSpec BigFloatOps BigFloatUnique BigFloatCorrect BigFloatAlign BigFloatAdd BigFloatSticky BigFloatAddSpec BigFloatCancel BigFloatSum.
Open Scope Z_scope.

Section Sums.
Context {LS : LimbSize} `{!Allocator, !Reliable}.
Notation LB := (@LIMB_BITS LS).

(** [r] and [st] are the rounding of the exact result [x]; a zero result has the sign [zero_sign] *)
Definition rounds_signed (x : Q) (zero_sign prec flags st : Z) (r : bf_t) : Prop :=
  ((x == 0)%Q → st = 0 ∧ bf_is_0 r ∧ bf_sign r = zero_sign) ∧
  ((0 < x)%Q → rounds_to 0 x prec flags st r) ∧ ((x < 0)%Q → rounds_to 1 (- x) prec flags st r).
(** the sign of an exact zero: the common sign of the operands, or minus in [BF_RNDD] only *)
Definition sum_zero_sign (a_sign b_sign flags : Z) : Z := if a_sign =? b_sign then a_sign else b2z (flags .& BF_RND_MASK =? BF_RNDD).
(** two finite operands can be added: their sizes, and no huge gap at a huge precision *)
Record addable (a b : bf_t) (prec : Z) : Prop := {
  ad_a : bf_normal a → small_operand a;
  ad_b : bf_normal b → small_operand b;
  ad_gap : prec <= B / 32 ∨ (bf_normal a → bf_normal b → Z.abs (bf_expn a - bf_expn b) <= B / 32)
}.

Lemma wp_bf_set r a : wp (bf_set r a) (λ x, x = (0, a)).
Proof.
  unfold bf_set. eapply wp_bind; [apply wp_bf_resize, zlen_nonneg|]. intros ? (g & -> & _). cbn [Z.eqb negb]. apply wp_ret. by destruct a.
Qed.
Lemma normalize_zero r prec flags :
  bf_tab r = [] → wp (bf_normalize_and_round r prec flags) (λ '(st, r'), st = 0 ∧ bf_is_0 r' ∧ bf_sign r' = bf_sign r).
Proof.
  intros Et. unfold bf_normalize_and_round. rewrite Et. eapply wp_bind_lift; [reflexivity|]. cbn [Z.eqb].
  eapply wp_bind; [apply wp_resize_0|]. intros ? ->. by apply wp_ret.
Qed.
(** the operands in order *)
Lemma add_ordered_spec r a b a_sign is_sub prec flags :
  bf_is_0 a ∨ bf_normal a → bf_is_0 b ∨ bf_normal b → addable a b prec → a_sign = 0 ∨ a_sign = 1 → is_sub = 0 ∨ is_sub = 1 →
  (bf_mag b <= bf_mag a)%Q → (is_sub = 1 → (bf_mag b < bf_mag a)%Q) → good_params prec flags → flags .& BF_FLAG_RADPNT_PREC = 0 →
  wp (add_ordered r a b a_sign is_sub prec flags) (λ '(st, r'),
    ((sum_mag is_sub a b == 0)%Q → st = 0 ∧ bf_is_0 r' ∧ bf_sign r' = a_sign) ∧
    ((0 < sum_mag is_sub a b)%Q → rounds_to a_sign (sum_mag is_sub a b) prec flags st r')).
Proof.
  intros Ha Hb [Oa Ob Og] Hs Hsub Hle Hlt Hg Hrad. pose proof (mag_nonneg b Hb) as Nb. unfold add_ordered. destruct Hb as [Zb|Nob].
  - pose proof (zero_mag b Zb) as Eb. assert (bf_len b = 0) as -> by (destruct Zb as [E _]; unfold bf_len; by rewrite E). rewrite orb_true_r.
    assert (sum_mag is_sub a b == bf_mag a)%Q as Ex by (unfold sum_mag; destruct (is_sub =? 0); rewrite Eb; ring).
    assert (bf_expn a < BF_EXP_INF) as Hea by (destruct Ha as [[_ ->]|Ha]; [destruct B_half; unfold BF_EXP_ZERO, BF_EXP_INF, BF_RAW_EXP_MAX, BF_RAW_EXP_MIN; lia|apply Ha]).
    rewrite Z.geb_leb. destruct (Z.leb_spec BF_EXP_INF (bf_expn a)); [lia|]. eapply wp_bind; [apply wp_bf_set|]. intros ? ->. destruct Ha as [Za|Ha].
    + pose proof (zero_mag a Za) as Ea. eapply wp_mono; [apply normalize_zero, Za|]. cbn [bf_sign set_sign]. intros [st r'] Hr.
      split; [done|]. intros Hpos. rewrite Ex in Hpos. lra.
    + pose proof (mag_pos a Ha). destruct (Oa Ha) as [La Ea]. destruct sixteenth_half as (F2 & F8 & F28).
      eapply wp_mono; [apply bf_normalize_and_round_spec; cbn [bf_tab set_sign bf_sign bf_expn]; try done; [apply Ha|unfold bf_len in *; cbn [bf_tab set_sign]; lia|lia]|].
      cbn [bf_tab set_sign bf_sign bf_expn]. pose proof (normal_val_pos a Ha). destruct (Z.eqb_spec (val (bf_tab a)) 0); [lia|]. intros [st r'] Hr.
      split; [intros E; rewrite Ex in E; lra|]. intros _. by eapply rounds_to_eq; [symmetry; exact Ex|].
  - assert (bf_normal a) as Noa.
    { destruct Ha as [Za|]; [|done]. pose proof (zero_mag a Za). pose proof (mag_pos b Nob). exfalso. lra. }
    pose proof (nf_len a Noa). pose proof (nf_len b Nob). destruct (Z.eqb_spec (bf_len a) 0), (Z.eqb_spec (bf_len b) 0); try lia. cbn [orb].
    assert (bf_expn b <= bf_expn a) as He.
    { destruct (Z.le_gt_cases (bf_expn b) (bf_expn a)) as [|He]; [done|]. pose proof (mag_expn a b (or_intror Noa) Nob He). exfalso. lra. }
    assert (0 < sum_mag is_sub a b)%Q as Hpos.
    { pose proof (mag_pos b Nob). unfold sum_mag. destruct Hsub as [-> | ->]; cbn [Z.eqb]; [|specialize (Hlt eq_refl)]; lra. }
    eapply wp_mono; [apply add_normal_spec; try done; [by apply Oa|by apply Ob|lia|]|].
    + destruct Og as [|Og]; [by left|right]. specialize (Og Noa Nob). lia.
    + intros [st r'] Hr. split; [intros E; rewrite E in Hpos; lra|done].
Qed.
Lemma signed_rounds x sgn m zs prec flags st r :
  (x == signed sgn m)%Q → sgn = 0 ∨ sgn = 1 → (0 <= m)%Q → ((m == 0)%Q → st = 0 ∧ bf_is_0 r ∧ bf_sign r = sgn ∧ sgn = zs) →
  ((0 < m)%Q → rounds_to sgn m prec flags st r) → rounds_signed x zs prec flags st r.
Proof.
  intros Ex Hs Hm Hz Hp. unfold signed in Ex. destruct Hs as [-> | ->]; cbn [Z.eqb Pos.eqb] in Ex; (split; [|split]); intros Hx; rewrite Ex in Hx.
  - destruct Hz as (? & ? & -> & ?); done.
  - eapply rounds_to_eq; [symmetry; exact Ex|]. by apply Hp.
  - lra.
  - destruct Hz as (? & ? & -> & ?); [apply Qle_antisym; lra|done].
  - lra.
  - eapply rounds_to_eq; [|apply Hp; lra]. rewrite Ex. ring.
Qed.
Lemma rounds_signed_eq x y zs prec flags st r : (x == y)%Q → rounds_signed x zs prec flags st r → rounds_signed y zs prec flags st r.
Proof.
  intros E (H1 & H2 & H3). unfold rounds_signed. split; [intros Hy; apply H1; by rewrite E|]. split; intros Hy.
  - eapply rounds_to_eq; [exact E|]. apply H2. by rewrite E.
  - eapply rounds_to_eq; [by rewrite <- E|]. apply H3. by rewrite E.
Qed.
Lemma addable_sym a b prec : addable a b prec → addable b a prec.
Proof. intros [H1 H2 H3]. split; try done. destruct H3 as [H3|H3]; [by left|right]. intros Hb Ha. specialize (H3 Ha Hb). lia. Qed.
Lemma finite_sign_xor a s : bf_finite a → s = 0 ∨ s = 1 → bf_finite (set_sign a (bf_sign a .^ s)).
Proof. intros [Hs Ha] Hn. split; [by apply sign_xor|]. destruct Ha as [Ha|Ha]; [by left|right]. by destruct Ha. Qed.
(** the exact sum by the magnitudes in order *)
Lemma sum_signed a b sa sb : sa = 0 ∨ sa = 1 → sb = 0 ∨ sb = 1 → (signed sa (bf_mag a) + signed sb (bf_mag b) == signed sa (sum_mag (sa .^ sb) a b))%Q.
Proof. intros [-> | ->] [-> | ->]; unfold signed, sum_mag; cbv [Z.eqb Z.lxor Pos.eqb Pos.lxor Z.of_N]; ring. Qed.
Lemma add_side r a b sa sb prec flags :
  bf_is_0 a ∨ bf_normal a → bf_is_0 b ∨ bf_normal b → addable a b prec → sa = 0 ∨ sa = 1 → sb = 0 ∨ sb = 1 →
  (bf_mag b <= bf_mag a)%Q → (sa ≠ sb → (bf_mag b < bf_mag a)%Q) → good_params prec flags → flags .& BF_FLAG_RADPNT_PREC = 0 →
  wp (add_ordered r a b sa (sa .^ sb) prec flags) (λ '(st, r'),
    rounds_signed (signed sa (bf_mag a) + signed sb (bf_mag b)) (sum_zero_sign sa sb flags) prec flags st r').
Proof.
  intros Na Nb Hab Sa Sb Hle Hlt Hg Hrad. assert (sa .^ sb = 1 → sa ≠ sb) as Hne by (intros E ->; by rewrite Z.lxor_nilpotent in E).
  pose proof (mag_nonneg b Nb) as Hb0. pose proof (sign_xor sa sb Sa Sb) as Hsub.
  assert (0 <= sum_mag (sa .^ sb) a b)%Q as Hpos by (unfold sum_mag; destruct (sa .^ sb =? 0); lra).
  eapply wp_mono; [apply add_ordered_spec; auto|]. intros [st r'] [Hz Hp].
  eapply signed_rounds; [by apply sum_signed|done|done| |exact Hp]. intros E. destruct (Hz E) as (? & ? & ?). split; [done|]. split; [done|]. split; [done|].
  unfold sum_zero_sign. destruct (Z.eqb_spec sa sb) as [|Hn]; [done|]. exfalso. specialize (Hlt Hn). unfold sum_mag in E. destruct (sa .^ sb =? 0); lra.
Qed.
Lemma add_finite r a b prec flags b_neg :
  bf_finite a → bf_finite b → addable a b prec → b_neg = 0 ∨ b_neg = 1 → good_params prec flags → flags .& BF_FLAG_RADPNT_PREC = 0 →
  let b' := set_sign b (bf_sign b .^ b_neg) in
  wp (bf_add_internal r a b prec flags b_neg) (λ '(st, r'),
    rounds_signed (bf_Q a + bf_Q b') (sum_zero_sign (bf_sign a) (bf_sign b') flags) prec flags st r').
Proof.
  intros Fa Fb Hab Hneg Hg Hrad b'. pose proof (finite_sign_xor b b_neg Fb Hneg) as Fb'. fold b' in Fb'. unfold bf_add_internal.
  pose proof Fa as [Sa Na]. pose proof Fb as [_ Nb]. pose proof Fb' as [Sb _]. change (bf_sign b .^ b_neg) with (bf_sign b').
  destruct sixteenth_half as (F2 & F8 & F28). pose proof LB_pos.
  assert (∀ c, bf_is_0 c ∨ bf_normal c → (bf_normal c → small_operand c) → bf_len c < B / 2) as Hlen.
  { intros c [[E _]|Hc] Ho; [unfold bf_len; rewrite E, zlen_nil; lia|]. destruct (Ho Hc) as [Hl _]. pose proof (nf_len c Hc). nia. }
  pose proof (Hlen a Na (ad_a _ _ _ Hab)) as La. pose proof (Hlen b Nb (ad_b _ _ _ Hab)) as Lb.
  eapply wp_bind_lift; [by apply bf_cmpu_spec|]. pose proof (sign_xor _ _ Sa Sb) as Hsub. set (is_sub := bf_sign a .^ bf_sign b') in *.
  change (bf_Q a) with (signed (bf_sign a) (bf_mag a)). change (bf_Q b') with (signed (bf_sign b') (bf_mag b)).
  destruct (Qcompare_spec (bf_mag a) (bf_mag b)) as [Heq|Hlt|Hgt]; cbn [sgn_of Z.ltb Z.eqb Z.compare andb].
  - assert (bf_expn a < BF_EXP_INF) as He by (destruct Na as [[_ ->]|Hn]; [unfold BF_EXP_ZERO, BF_EXP_INF, BF_RAW_EXP_MAX, BF_RAW_EXP_MIN; destruct B_half; lia|apply Hn]).
    apply Z.ltb_lt in He. rewrite He, andb_true_r. destruct (Z.eqb_spec is_sub 0) as [E0|E0]; cbn [negb].
    + apply Z.lxor_eq in E0. unfold is_sub. apply add_side; try done. rewrite Heq. apply Qle_refl.
    + eapply wp_bind; [apply wp_set_zero|]. intros ? ->. apply wp_ret.
      assert (signed (bf_sign a) (bf_mag a) + signed (bf_sign b') (bf_mag b) == 0)%Q as Ex.
      { rewrite sum_signed by done. fold is_sub. unfold sum_mag, signed. destruct (Z.eqb_spec is_sub 0); [done|]. destruct (bf_sign a =? 1); rewrite Heq; ring. }
      split; [|split; intros Hx; rewrite Ex in Hx; by apply Qlt_irrefl in Hx]. intros _. split; [done|]. split; [done|]. unfold sum_zero_sign.
      destruct (Z.eqb_spec (bf_sign a) (bf_sign b')) as [E|]; [|done]. unfold is_sub in E0. by rewrite E, Z.lxor_nilpotent in E0.
  - unfold is_sub. rewrite Z.lxor_comm. eapply wp_mono; [apply (add_side r b a (bf_sign b') (bf_sign a)); try done; [by apply addable_sym|by apply Qlt_le_weak]|].
    intros [st r']. unfold rounds_signed. assert (sum_zero_sign (bf_sign b') (bf_sign a) flags = sum_zero_sign (bf_sign a) (bf_sign b') flags) as ->.
    { unfold sum_zero_sign. destruct (Z.eqb_spec (bf_sign a) (bf_sign b')) as [->|]; [by rewrite Z.eqb_refl|]. by destruct (Z.eqb_spec (bf_sign b') (bf_sign a)). }
    by apply rounds_signed_eq, Qplus_comm.
  - apply add_side; try done. by apply Qlt_le_weak.
Qed.
Lemma rounds_signed_wf x zs prec flags st r : zs = 0 ∨ zs = 1 → rounds_signed x zs prec flags st r → bf_wf r.
Proof.
  intros Hs (Hz & Hp & Hn). destruct (Qcompare_spec 0 x) as [E|E|E].
  - destruct (Hz (Qeq_sym _ _ E)) as (_ & Hr & Es). split; [by rewrite Es|by left].
  - eapply rounds_to_wf; [|exact (Hp E)]. by left.
  - eapply rounds_to_wf; [|exact (Hn E)]. by right.
Qed.
Lemma sum_zero_sign_range sa sb flags : sa = 0 ∨ sa = 1 → sum_zero_sign sa sb flags = 0 ∨ sum_zero_sign sa sb flags = 1.
Proof. intros Hs. unfold sum_zero_sign. destruct (_ =? sb); [done|]. destruct (_ =? BF_RNDD); [by right|by left]. Qed.

(** ** Infinities and NaN *)
Definition bf_special (a : bf_t) : Prop := bf_is_inf a ∨ bf_is_NaN a.
(** what an addition returns when an operand is not finite *)
Definition add_special (a b : bf_t) : Z * bf_t :=
  if (bf_expn a =? BF_EXP_NAN) || (bf_expn b =? BF_EXP_NAN) then (0, mk_bf 0 BF_EXP_NAN [])
  else if bf_expn a =? BF_EXP_INF then
    if (bf_expn b =? BF_EXP_INF) && negb (bf_sign a =? bf_sign b) then (BF_ST_INVALID_OP, mk_bf 0 BF_EXP_NAN [])
    else (0, mk_bf (bf_sign a) BF_EXP_INF [])
  else (0, mk_bf (bf_sign b) BF_EXP_INF []).
Lemma wf_cases a : bf_wf a → bf_special a ∨ bf_finite a.
Proof. intros [Hs Ha]. unfold bf_special, bf_finite. tauto. Qed.
Lemma special_expn a : bf_special a → bf_len a = 0 ∧ (bf_expn a = BF_EXP_INF ∨ bf_expn a = BF_EXP_NAN).
Proof. intros [[E1 E2]|[E1 E2]]; unfold bf_len; rewrite E1; (split; [done|]); tauto. Qed.
Lemma expn_order : BF_EXP_ZERO < BF_EXP_INF < BF_EXP_NAN.
Proof. destruct B_half. unfold BF_EXP_ZERO, BF_EXP_INF, BF_EXP_NAN, BF_RAW_EXP_MAX, BF_RAW_EXP_MIN. lia. Qed.
Lemma finite_expn_lt a : bf_finite a → bf_expn a < BF_EXP_INF.
Proof. intros [_ [[_ ->]|Ha]]; [pose proof expn_order; lia|apply Ha]. Qed.
Lemma cmpu_special a b : bf_wf a → bf_wf b → bf_special a ∨ bf_special b →
  bf_cmpu a b = Some (if bf_expn a <? bf_expn b then -1 else if bf_expn a =? bf_expn b then 0 else 1).
Proof.
  intros Wa Wb Hs. unfold bf_cmpu. destruct (Z.eqb_spec (bf_expn a) (bf_expn b)) as [E|E]; cbn [negb].
  - assert (bf_len a = 0 ∧ bf_len b = 0) as [-> ->]; [|rewrite E, Z.ltb_irrefl; done].
    assert (∀ x y, bf_special x → bf_wf y → bf_expn x = bf_expn y → bf_len y = 0) as Hl.
    { intros x y Hx Wy Exy. destruct (wf_cases y Wy) as [Hy|Hy]; [apply (special_expn y Hy)|]. pose proof (finite_expn_lt y Hy). pose proof expn_order.
      destruct (special_expn x Hx) as [_ [|]]; lia. }
    destruct Hs as [Hs|Hs]; (split; [|]); try (by apply (special_expn _ Hs)); [by eapply (Hl a b)|by eapply (Hl b a)].
  - by destruct (Z.ltb_spec (bf_expn a) (bf_expn b)).
Qed.
Lemma add_ordered_special r a b a_sign is_sub prec flags :
  bf_special a → wp (add_ordered r a b a_sign is_sub prec flags) (λ x, x =
    if bf_expn a =? BF_EXP_NAN then (0, mk_bf 0 BF_EXP_NAN [])
    else if (bf_expn b =? BF_EXP_INF) && negb (is_sub =? 0) then (BF_ST_INVALID_OP, mk_bf 0 BF_EXP_NAN []) else (0, mk_bf a_sign BF_EXP_INF [])).
Proof.
  intros Ha. destruct (special_expn a Ha) as [Hl He]. pose proof expn_order. unfold add_ordered. rewrite Hl. cbn [Z.eqb orb].
  rewrite Z.geb_leb. destruct (Z.leb_spec BF_EXP_INF (bf_expn a)); [|lia].
  destruct (bf_expn a =? BF_EXP_NAN); [eapply wp_bind; [apply wp_set_nan|]; intros ? ->; by apply wp_ret|].
  destruct (_ && _); (eapply wp_bind; [apply wp_set_nan || apply wp_set_inf|]; intros ? ->; by apply wp_ret).
Qed.
Lemma wf_expn_le a : bf_wf a → bf_expn a <= BF_EXP_NAN.
Proof.
  intros Wa. pose proof expn_order. destruct (wf_cases a Wa) as [Ha|Ha]; [destruct (special_expn a Ha) as [_ [|]]; lia|]. pose proof (finite_expn_lt a Ha). lia.
Qed.
Lemma add_nonfinite r a b prec flags b_neg :
  bf_wf a → bf_wf b → bf_special a ∨ bf_special b → b_neg = 0 ∨ b_neg = 1 →
  wp (bf_add_internal r a b prec flags b_neg) (λ x, x = add_special a (set_sign b (bf_sign b .^ b_neg))).
Proof.
  intros Wa Wb Hs Hn. unfold bf_add_internal. eapply wp_bind_lift; [by apply cmpu_special|].
  pose proof expn_order. pose proof (wf_expn_le a Wa). pose proof (wf_expn_le b Wb). set (sb := bf_sign b .^ b_neg).
  assert (bf_expn a < bf_expn b → bf_special b) as Sb.
  { intros Hlt. destruct Hs as [Hs|]; [|done]. destruct (wf_cases b Wb) as [|Hf]; [done|]. pose proof (finite_expn_lt b Hf). destruct (special_expn a Hs) as [_ [|]]; lia. }
  assert (bf_expn b <= bf_expn a → bf_special a) as Sa.
  { intros Hle. destruct Hs as [|Hs]; [done|]. destruct (wf_cases a Wa) as [|Hf]; [done|]. pose proof (finite_expn_lt a Hf). destruct (special_expn b Hs) as [_ [|]]; lia. }
  unfold add_special. cbn [bf_expn bf_sign set_sign].
  destruct (Z.ltb_spec (bf_expn a) (bf_expn b)) as [Hlt|Hge]; cbn [Z.ltb Z.eqb Z.compare andb].
  - specialize (Sb Hlt). destruct (special_expn b Sb) as [_ He]. eapply wp_mono; [by apply add_ordered_special|]. intros ? ->.
    destruct (Z.eqb_spec (bf_expn a) BF_EXP_NAN), (Z.eqb_spec (bf_expn b) BF_EXP_NAN), (Z.eqb_spec (bf_expn a) BF_EXP_INF); try lia; done.
  - specialize (Sa Hge). destruct (special_expn a Sa) as [_ He].
    assert ((if bf_expn a =? bf_expn b then 0 else 1) <? 0 = false) as -> by (by destruct (bf_expn a =? bf_expn b)).
    match goal with |- wp (if ?c then _ else _) _ => assert (c = false) as -> end.
    { destruct (Z.ltb_spec (bf_expn a) BF_EXP_INF); [lia|]. by rewrite andb_false_r. }
    eapply wp_mono; [by apply add_ordered_special|]. intros ? ->.
    assert (negb (bf_sign a .^ sb =? 0) = negb (bf_sign a =? sb)) as ->.
    { destruct (Z.eqb_spec (bf_sign a) sb) as [->|Hne]; [by rewrite Z.lxor_nilpotent|]. destruct (Z.eqb_spec (bf_sign a .^ sb) 0) as [E%Z.lxor_eq|]; done. }
    destruct (Z.eqb_spec (bf_expn a) BF_EXP_NAN), (Z.eqb_spec (bf_expn b) BF_EXP_NAN), (Z.eqb_spec (bf_expn a) BF_EXP_INF); try lia; done.
Qed.

(** ** Exact operations *)
Lemma rounds_to_exact sgn x flags st r m w e :
  rounds_to sgn x BF_PREC_INF flags st r → good_params BF_PREC_INF flags → flags .& BF_FLAG_RADPNT_PREC = 0 →
  0 < w <= BF_PREC_INF → 2 ^ (w - 1) <= m < 2 ^ w → (x == dyad m (e - w))%Q →
  - 2 ^ (bf_get_exp_bits flags - 1) + 3 <= e <= 2 ^ (bf_get_exp_bits flags - 1) →
  bf_normal r ∧ bf_sign r = sgn ∧ (bf_mag r == x)%Q ∧ (flags .& BF_RND_MASK ≠ BF_RNDF → st = 0).
Proof.
  intros Hr [Gm Gb Gp Gs] Hrad Hw Hm Hx He. destruct (rounds_to_at _ _ _ _ _ _ m w e Hr ltac:(lia) Hm Hx) as (o & Ho & Hres).
  assert (0 < 2 ^ (w - 1)) as Hpw by (apply Z.pow_pos_nonneg; lia). unfold ref_round, ref_prec in Ho. rewrite Hrad, Gs in Ho by done. cbn [Z.eqb negb] in Ho. rewrite andb_false_r in Ho.
  rewrite Z.max_l, Z.pow_0_r in Ho by lia. unfold round_quot in Ho. rewrite round_incr_exact, Z.div_1_r, Z.mod_1_r in Ho. cbn [b2z Z.eqb negb] in Ho. rewrite Z.add_0_r, orb_false_r in Ho.
  assert (Z.log2 m = w - 1) as El by (apply Z.log2_unique; [lia|]; by replace (Z.succ (w - 1)) with w by lia). rewrite El in Ho.
  replace (e - w + 0 + (w - 1) + 1) with e in Ho by lia. destruct (Z.eqb_spec m 0); [lia|]. destruct (Z.leb_spec BF_PREC_INF 0); [lia|].
  destruct (Z.ltb_spec e (- 2 ^ (bf_get_exp_bits flags - 1) + 3)); [lia|]. cbn [andb] in Ho. destruct (Z.ltb_spec (2 ^ (bf_get_exp_bits flags - 1)) e); [lia|].
  injection Ho as Hst <-. rewrite Z.add_0_r in Hres. destruct Hres as [Es [Hn Hmag]]. split; [done|]. split; [done|]. split; [by rewrite Hmag, Hx|].
  intros Hmode. subst st. by destruct (Z.eqb_spec (flags .& BF_RND_MASK) BF_RNDF).
Qed.
(** a number has no more limbs than its bits need *)
Lemma normal_len_bound r m w x : bf_normal r → (bf_mag r == dyad m x)%Q → 0 < w → 2 ^ (w - 1) <= m < 2 ^ w → LB * (bf_len r - 1) < w ∧ bf_expn r = x + w.
Proof.
  intros Hr Hx Hw Hm. pose proof LB_pos. pose proof (normal_bounds r Hr) as Hb. pose proof (normal_width r Hr) as HwL.
  assert (bf_expn r = x + w) as He.
  { eapply (dyad_exponent_eq (val (bf_tab r)) m (bf_expn r) (x + w) (LB * bf_len r) w); [done..|]. unfold bf_mag in Hx. rewrite Hx. by replace (x + w - w) with x by lia. }
  split; [|done]. destruct (Z.lt_ge_cases (LB * (bf_len r - 1)) w) as [|Hge]; [done|exfalso]. unfold bf_mag in Hx. rewrite He in Hx.
  replace x with (x + w - LB * bf_len r + (LB * bf_len r - w)) in Hx at 2 by lia. rewrite <- dyad_shift, dyad_eq in Hx by lia.
  pose proof (nf_low r Hr) as Hlow. rewrite limb_at_val in Hlow by (apply Hr || lia). rewrite Z.pow_0_r, Z.div_1_r, Hx in Hlow. apply Hlow.
  replace (LB * bf_len r - w) with (LB * (bf_len r - 1) - w + LB) by ring. rewrite Z.pow_add_r, Z.mul_assoc by lia. fold B. apply Z.mod_mul. pose proof B_pos. lia.
Qed.
End Sums.
