(* ===== verification/BigFloatExact.v ===== *)
(** * Exact sums

    At the precision [BF_PREC_INF] nothing is rounded: sums and differences
    are exact, so that what was added can be subtracted again. *)
From Stdlib Require Import QArith Qpower Qabs Lqa.
From S2P Require Import Prelude Alloc Reliable Limb LimbOps BigFloat LimbBits BigFloatRound BigFloatValue BigFloatSpec BigFloatOps BigFloatUnique BigFloatCorrect BigFloatAdd BigFloatSum BigFloatAddCorrect.
Open Scope Z_scope.

Section Exact.
Context {LS : LimbSize} `{!Allocator, !Reliable}.
Notation LB := (@LIMB_BITS LS).

(** a finite number as an integer multiple of [2 ^ x0] *)
Lemma finite_int a x0 h :
  bf_finite a → x0 <= h → (bf_normal a → x0 <= bf_expn a - LB * bf_len a ∧ bf_expn a <= h) →
  ∃ n, (bf_Q a == dyad n x0)%Q ∧ Z.abs n < 2 ^ (h - x0).
Proof.
  intros [Hs Ha] Hh Hx. pose proof (Z.pow_pos_nonneg 2 (h - x0) ltac:(lia) ltac:(lia)). destruct Ha as [Za|Na].
  - exists 0. rewrite (zero_Q a Za), dyad_0. split; [done|lia].
  - destruct (Hx Na) as [Hx1 Hx2]. pose proof (normal_bounds a Na) as Hb. pose proof (normal_width a Na).
    set (k := bf_expn a - LB * bf_len a - x0). exists ((1 - 2 * bf_sign a) * (val (bf_tab a) * 2 ^ k)).
    assert (0 < 2 ^ k) as Hk by (apply Z.pow_pos_nonneg; unfold k; lia). assert (0 < 2 ^ (LB * bf_len a - 1)) by (apply Z.pow_pos_nonneg; lia). split.
    + change (bf_Q a) with (signed (bf_sign a) (bf_mag a)). rewrite <- signed_dyad by done. unfold bf_mag, signed.
      assert (dyad (val (bf_tab a)) (bf_expn a - LB * bf_len a) == dyad (val (bf_tab a) * 2 ^ k) x0)%Q as E.
      { rewrite dyad_shift by (unfold k; lia). by replace (x0 + k) with (bf_expn a - LB * bf_len a) by (unfold k; lia). }
      destruct (bf_sign a =? 1); by rewrite E.
    + rewrite Z.abs_mul. assert (Z.abs (1 - 2 * bf_sign a) = 1) as -> by (destruct Hs as [-> | ->]; done). rewrite Z.mul_1_l, Z.abs_eq by nia.
      apply (Z.lt_le_trans _ (2 ^ (LB * bf_len a) * 2 ^ k)); [nia|]. rewrite <- Z.pow_add_r by (unfold k; lia). apply Z.pow_le_mono_r; unfold k; lia.
Qed.
(** the parameters of exact arithmetic *)
Record exact_params (flags : Z) : Prop := {
  ep_good : good_params BF_PREC_INF flags;
  ep_radix : flags .& BF_FLAG_RADPNT_PREC = 0;
  ep_range : B / 32 <= 2 ^ (bf_get_exp_bits flags - 1)
}.
Lemma exact_side sgn x n x0 k flags st r :
  rounds_to sgn x BF_PREC_INF flags st r → (x == dyad n x0)%Q → 0 < n < 2 ^ k → exact_params flags → k <= BF_PREC_INF →
  - (B / 32) + 3 <= x0 + 1 → x0 + k <= B / 32 →
  bf_normal r ∧ bf_sign r = sgn ∧ (bf_mag r == x)%Q ∧ (flags .& BF_RND_MASK ≠ BF_RNDF → st = 0) ∧ LB * (bf_len r - 1) < k ∧ x0 + 1 <= bf_expn r <= x0 + k.
Proof.
  intros Hr Hx Hn [Hg Hrad Hrange] Hk Hlo Hhi. pose proof (Z.log2_spec n ltac:(lia)) as Hlog. pose proof (Z.log2_nonneg n). rewrite <- Z.add_1_r in Hlog.
  assert (Z.log2 n < k) as Hkl by (apply Z.log2_lt_pow2; lia).
  assert (2 ^ (Z.log2 n + 1 - 1) <= n < 2 ^ (Z.log2 n + 1)) as Hm by (by replace (Z.log2 n + 1 - 1) with (Z.log2 n) by lia).
  assert (x == dyad n (x0 + (Z.log2 n + 1) - (Z.log2 n + 1)))%Q as Hx' by (rewrite Hx; by replace (x0 + (Z.log2 n + 1) - (Z.log2 n + 1)) with x0 by lia).
  destruct (rounds_to_exact sgn x flags st r n (Z.log2 n + 1) (x0 + (Z.log2 n + 1))) as (Nr & Es & Em & Hst); [done|done|done|lia|done|done|lia|].
  destruct (normal_len_bound r n (Z.log2 n + 1) x0 Nr) as [Hl He]; [by rewrite Em|lia|done|].
  split; [done|]. split; [done|]. split; [done|]. split; [done|]. lia.
Qed.
Lemma exact_sum x zs n x0 k flags st r :
  rounds_signed x zs BF_PREC_INF flags st r → zs = 0 ∨ zs = 1 → (x == dyad n x0)%Q → Z.abs n < 2 ^ k → exact_params flags → k <= BF_PREC_INF →
  - (B / 32) + 3 <= x0 + 1 → x0 + k <= B / 32 →
  bf_finite r ∧ (bf_Q r == x)%Q ∧ (flags .& BF_RND_MASK ≠ BF_RNDF → st = 0) ∧ (bf_normal r → LB * (bf_len r - 1) < k ∧ x0 + 1 <= bf_expn r <= x0 + k).
Proof.
  intros (Hz & Hp & Hn) Hzs Hx Hk He Hk2 Hlo Hhi. destruct (Z.lt_total n 0) as [Hneg|[->|Hpos]].
  - assert (x < 0)%Q as Hx0 by (rewrite Hx, <- (dyad_0 x0); by apply dyad_lt).
    assert (- x == dyad (- n) x0)%Q as Hx' by (rewrite Hx; unfold dyad; rewrite inject_Z_opp; ring).
    destruct (exact_side 1 (- x) (- n) x0 k flags st r (Hn Hx0) Hx' ltac:(lia) He Hk2 Hlo Hhi) as (Nr & Es & Em & Hst & Hl).
    split; [split; [by right|by right]|]. split; [|split; done]. unfold bf_Q. rewrite Es. cbn [Z.eqb Pos.eqb]. rewrite Em. ring.
  - rewrite dyad_0 in Hx. destruct (Hz Hx) as (-> & Zr & Es). split; [split; [by rewrite Es|by left]|]. split; [by rewrite (zero_Q r Zr)|].
    split; [done|]. intros Nr. pose proof (nf_len r Nr) as Hl. destruct Zr as [E _]. unfold bf_len in Hl. by rewrite E in Hl.
  - assert (0 < x)%Q as Hx0 by (rewrite Hx, <- (dyad_0 x0); by apply dyad_lt).
    destruct (exact_side 0 x n x0 k flags st r (Hp Hx0) Hx ltac:(lia) He Hk2 Hlo Hhi) as (Nr & Es & Em & Hst & Hl).
    split; [split; [by left|by right]|]. split; [|split; done]. unfold bf_Q. by rewrite Es.
Qed.
Lemma finite_Q_unique r a : bf_finite r → bf_normal a → bf_sign a = 0 ∨ bf_sign a = 1 → (bf_Q r == bf_Q a)%Q → r = a.
Proof.
  intros [Sr Nr] Na Sa E. pose proof (mag_pos a Na) as Pa. unfold bf_Q in E. destruct Nr as [Zr|Nr].
  - pose proof (zero_mag r Zr). exfalso. destruct (bf_sign r =? 1), (bf_sign a =? 1); lra.
  - pose proof (mag_pos r Nr). destruct Sr as [Er|Er], Sa as [Ea|Ea]; rewrite Er, Ea in E; cbn [Z.eqb Pos.eqb] in E; try (exfalso; lra).
    + apply normal_unique; [done|done|by rewrite Er|done].
    + apply normal_unique; [done|done|by rewrite Er|]. rewrite <- (Qopp_involutive (bf_mag r)), <- (Qopp_involutive (bf_mag a)). by rewrite E.
Qed.
(** operands whose exact sums and differences can be formed *)
Definition exact_operand (a : bf_t) : Prop := LB * bf_len a <= B / 256 ∧ - (B / 256) <= bf_expn a <= B / 256.
Lemma fractions : B / 16 = 16 * (B / 256) ∧ B / 32 = 8 * (B / 256) ∧ B / 8 = 32 * (B / 256) ∧ 2 ^ 24 <= B / 256.
Proof. unfold B. destruct LIMB_BITS_cases as [-> | ->]; vm_compute; done. Qed.
Lemma exact_int a : bf_finite a → (bf_normal a → exact_operand a) → ∃ n, (bf_Q a == dyad n (- (2 * (B / 256))))%Q ∧ Z.abs n < 2 ^ (3 * (B / 256)).
Proof.
  intros Fa Oa. destruct fractions as (_ & _ & _ & F). replace (3 * (B / 256)) with (B / 256 - - (2 * (B / 256))) by lia. apply finite_int; [done|lia|].
  intros Na. destruct (Oa Na). lia.
Qed.
(** an exact sum, and that it can be used as an operand *)
Lemma exact_add x n zs flags st r :
  rounds_signed x zs BF_PREC_INF flags st r → zs = 0 ∨ zs = 1 → exact_params flags → (x == dyad n (- (2 * (B / 256))))%Q → Z.abs n < 2 ^ (3 * (B / 256) + 1) →
  bf_finite r ∧ (bf_Q r == x)%Q ∧ (flags .& BF_RND_MASK ≠ BF_RNDF → st = 0) ∧
  (bf_normal r → small_operand r ∧ - (2 * (B / 256)) <= bf_expn r <= B / 256 + 1).
Proof.
  intros Hr Hzs He Hx Hn. destruct fractions as (F16 & F32 & F8 & F). pose proof PREC_INF_eighth.
  assert (LB <= 64) by (destruct LIMB_BITS_cases as [-> | ->]; lia).
  destruct (exact_sum x zs n (- (2 * (B / 256))) (3 * (B / 256) + 1) flags st r Hr Hzs Hx Hn He) as (Fr & Ex & Hst & Hl); [lia|lia|lia|].
  split; [done|]. split; [done|]. split; [done|]. intros Nr. specialize (Hl Nr). unfold small_operand. lia.
Qed.
Lemma abs_sum n m k : Z.abs n < 2 ^ k → Z.abs m < 2 ^ k → 0 <= k → Z.abs (n + m) < 2 ^ (k + 1).
Proof. intros Hn Hm Hk. rewrite Z.pow_add_r by lia. lia. Qed.
Lemma exact_addable a b : (bf_normal a → exact_operand a) → (bf_normal b → exact_operand b) → addable a b BF_PREC_INF.
Proof.
  intros Oa Ob. destruct fractions as (F16 & F32 & F8 & F). split.
  - intros Ha. destruct (Oa Ha). unfold small_operand. lia.
  - intros Hb. destruct (Ob Hb). unfold small_operand. lia.
  - right. intros Ha Hb. destruct (Oa Ha), (Ob Hb). lia.
Qed.
End Exact.
