(* ===== verification/BigFloatAddTheorems.v ===== *)
(** * What [bf_add] and [bf_sub] guarantee

    Correct rounding, canonical results, exact arithmetic at [BF_PREC_INF],
    and the one place where a failed allocation is not reported. *)
From Stdlib Require Import QArith Qpower Qabs Lqa.
From S2P Require Import Prelude Alloc Reliable Limb LimbOps BigFloat LimbBits BigFloatRound BigFloatValue BigFloatSpec BigFloatOps BigFloatUnique BigFloatCorrect BigFloatAdd BigFloatSum BigFloatAddCorrect BigFloatExact.
Open Scope Z_scope.

Section Theorems.
Context {LS : LimbSize} `{!Allocator, !Reliable}.
Notation LB := (@LIMB_BITS LS).

Lemma set_sign_0 b : set_sign b (bf_sign b .^ 0) = b.
Proof. rewrite Z.lxor_0_r. by destruct b. Qed.
Lemma bf_Q_neg b : bf_sign b = 0 ∨ bf_sign b = 1 → (bf_Q (set_sign b (bf_sign b .^ 1)) == - bf_Q b)%Q.
Proof. intros [E|E]; unfold bf_Q; cbn [bf_sign set_sign]; rewrite E; cbv [Z.lxor Z.eqb Pos.eqb Pos.lxor Z.of_N]; unfold bf_mag; cbn [bf_tab bf_expn set_sign bf_len]; unfold bf_len; cbn [bf_tab set_sign]; ring. Qed.
(** addition of any two numbers *)
Lemma add_total r a b prec flags b_neg :
  bf_wf a → bf_wf b → addable a b prec → b_neg = 0 ∨ b_neg = 1 → good_params prec flags → flags .& BF_FLAG_RADPNT_PREC = 0 →
  wp (bf_add_internal r a b prec flags b_neg) (λ '(st, r'), bf_wf r' ∧
    (bf_special a ∨ bf_special b → (st, r') = add_special a (set_sign b (bf_sign b .^ b_neg)))).
Proof.
  intros Wa Wb Hab Hneg Hg Hrad. pose proof Wa as [Sa _]. pose proof Wb as [Sb _]. pose proof (sign_xor _ _ Sb Hneg) as Sb'. destruct (wf_cases a Wa) as [Ha|Fa].
  all: destruct (wf_cases b Wb) as [Hb|Fb].
  1-3: eapply wp_mono; [by apply add_nonfinite; tauto|]; intros [st r'] E; split; [|done]; change r' with (st, r').2; rewrite E;
    unfold add_special, bf_wf, bf_is_inf, bf_is_NaN; repeat case_match; cbn [snd bf_sign bf_expn bf_tab]; tauto.
  eapply wp_mono; [by apply add_finite|]. intros [st r'] Hr. split; [eapply rounds_signed_wf; [|exact Hr]; by apply sum_zero_sign_range|].
  assert (∀ c, bf_finite c → ¬ bf_special c) as Hn.
  { intros c Fc Hc. pose proof (finite_expn_lt c Fc). destruct (special_expn c Hc) as [_ [|]]; pose proof expn_order; lia. }
  intros [Hc|Hc]; [by destruct (Hn a)|by destruct (Hn b)].
Qed.
(** C25: The sum that [bf_add] stores is the exact sum of the two numbers rounded
    once, in every rounding mode, whatever the distance of the exponents and
    however many bits cancel; an exact zero has the sign that IEEE 754 asks for. *)
Theorem bf_add_correct alias r a b prec flags :
  bf_finite a → bf_finite b → addable a b prec → good_params prec flags → flags .& BF_FLAG_RADPNT_PREC = 0 →
  wp (bf_add alias r a b prec flags) (λ '(st, r'),
    rounds_signed (bf_Q a + bf_Q b) (sum_zero_sign (bf_sign a) (bf_sign b) flags) prec flags st r').
Proof.
  intros Fa Fb Hab Hg Hrad. unfold bf_add, bf_op2, __bf_add. eapply wp_mono; [apply add_finite; auto|]. intros [st r']. by rewrite set_sign_0.
Qed.
(** The difference that [bf_sub] stores is the exact difference of the two
    numbers rounded once, in every rounding mode. *)
Theorem bf_sub_correct alias r a b prec flags :
  bf_finite a → bf_finite b → addable a b prec → good_params prec flags → flags .& BF_FLAG_RADPNT_PREC = 0 →
  wp (bf_sub alias r a b prec flags) (λ '(st, r'),
    rounds_signed (bf_Q a - bf_Q b) (sum_zero_sign (bf_sign a) (1 - bf_sign b) flags) prec flags st r').
Proof.
  intros Fa Fb Hab Hg Hrad. unfold bf_sub, bf_op2, __bf_sub. eapply wp_mono; [apply add_finite; auto|]. intros [st r']. cbn [bf_sign set_sign].
  assert (1 - bf_sign b = bf_sign b .^ 1) as -> by (by destruct (proj1 Fb) as [-> | ->]). apply rounds_signed_eq. by rewrite bf_Q_neg by apply Fb.
Qed.
(** C27: Whatever its operands, [bf_add] returns a number in canonical form; with
    an infinity or a NaN it returns what IEEE 754 asks for, and the invalid
    operation for a sum of opposite infinities. *)
Theorem bf_add_canonical alias r a b prec flags :
  bf_wf a → bf_wf b → addable a b prec → good_params prec flags → flags .& BF_FLAG_RADPNT_PREC = 0 →
  wp (bf_add alias r a b prec flags) (λ '(st, r'), bf_wf r' ∧ (bf_special a ∨ bf_special b → (st, r') = add_special a b)).
Proof.
  intros Wa Wb Hab Hg Hrad. unfold bf_add, bf_op2, __bf_add. eapply wp_mono; [apply add_total; auto|]. intros [st r']. by rewrite set_sign_0.
Qed.
(** C26: At [BF_PREC_INF] what was added can be subtracted again: [(a + b) - b]
    gives the same limbs, exponent and sign as [a]. *)
Theorem bf_add_sub_cancel r a b flags :
  bf_normal a → bf_sign a = 0 ∨ bf_sign a = 1 → bf_finite b → exact_operand a → (bf_normal b → exact_operand b) → exact_params flags →
  wp ('(_, s) ← bf_add false r a b BF_PREC_INF flags; bf_sub false bf_init s b BF_PREC_INF flags) (λ '(st, r'),
    r' = a ∧ (flags .& BF_RND_MASK ≠ BF_RNDF → st = 0)).
Proof.
  intros Na Sa Fb Oa Ob He. assert (bf_finite a) as Fa by (split; [done|by right]). destruct fractions as (F16 & F32 & F8 & F).
  destruct (exact_int a Fa (λ _, Oa)) as (na & Ea & Ha). destruct (exact_int b Fb Ob) as (nb & Eb & Hb).
  unfold bf_add, bf_sub, bf_op2, __bf_add, __bf_sub. eapply wp_bind; [apply add_finite; auto; [by apply exact_addable|apply He|apply He]|]. intros [st s].
  rewrite set_sign_0. intros Hs.
  assert (bf_Q a + bf_Q b == dyad (na + nb) (- (2 * (B / 256))))%Q as Ex by (by rewrite Ea, Eb, dyad_plus).
  destruct (exact_add _ (na + nb) _ flags st s Hs (sum_zero_sign_range _ _ _ Sa) He Ex) as (Fs & Es & _ & Hl); [apply abs_sum; lia|].
  assert (addable s b BF_PREC_INF) as Hsb.
  { split; [intros Ns; by apply Hl|intros Nb; destruct (Ob Nb); unfold small_operand; lia|right]. intros Ns Nb. destruct (Hl Ns) as [_ Hls], (Ob Nb). lia. }
  eapply wp_mono; [apply add_finite; auto; apply He|]. intros [st' r'] Hr.
  assert (bf_Q s + bf_Q (set_sign b (bf_sign b .^ 1)) == bf_Q a)%Q as Ey by (rewrite bf_Q_neg, Es by apply Fb; ring).
  destruct (exact_add _ na _ flags st' r' Hr (sum_zero_sign_range _ _ _ (proj1 Fs)) He) as (Fr & Er & Hst & _); [by rewrite Ey|rewrite Z.pow_add_r by lia; lia|].
  split; [|done]. apply finite_Q_unique; [done|done|done|]. by rewrite Er.
Qed.
End Theorems.

(** C28: A failed allocation can be lost: [bf_add] of a number and a zero ignores
    what [bf_set] returns, so with an allocator that refuses, the sum of any
    number and zero is zero, and the status says that it is exact. *)
Theorem bf_add_loses_mem_error `{!LimbSize, !Allocator} a prec flags :
  (∀ n sz, realloc_ok n sz = false) → bf_normal a →
  bf_add false bf_init a bf_init prec flags O = Some ((0, mk_bf (bf_sign a) BF_EXP_ZERO []), 1%nat).
Proof.
  intros Hno Ha. pose proof (nf_expn a Ha) as He. pose proof (nf_len a Ha) as Hl. unfold bf_add, bf_op2, __bf_add, bf_add_internal, bf_cmpu.
  assert (bf_expn bf_init = BF_EXP_ZERO) as Ei by done. rewrite Ei. destruct (Z.eqb_spec (bf_expn a) BF_EXP_ZERO); [lia|]. cbn [negb].
  destruct (Z.ltb_spec (bf_expn a) BF_EXP_ZERO); [lia|]. unfold mbind at 1, M_bind, lift. cbn [mbind option_bind Z.ltb Z.eqb Z.compare andb].
  unfold add_ordered. change (bf_len bf_init) with 0. rewrite orb_true_r. rewrite Z.geb_leb. destruct (Z.leb_spec BF_EXP_INF (bf_expn a)); [lia|].
  assert (∀ h, bf_set bf_init a h = Some ((BF_ST_MEM_ERROR, mk_bf 0 BF_EXP_NAN []), S h)) as Hset.
  { intros h. unfold bf_set, bf_resize. change (bf_len bf_init) with 0. destruct (Z.eqb_spec (bf_len a) 0); [lia|]. cbn [negb].
    unfold mbind, M_bind, realloc. cbn [option_bind]. rewrite Hno. cbn [option_bind negb andb]. done. }
  unfold mbind at 1, M_bind. rewrite Hset. done.
Qed.

(** ** Examples *)
Definition minus_three : bf_t := mk_bf 1 2 [3 * 2 ^ 62].
Lemma three_operand : bf_finite three ∧ exact_operand three.
Proof. split; [split; [by left|right; apply three_normal]|vm_compute; done]. Qed.
Lemma minus_five_operand : bf_finite minus_five ∧ exact_operand minus_five.
Proof. split; [split; [by right|right; apply minus_five_normal]|vm_compute; done]. Qed.
Lemma three_five_addable prec : prec = 2 ∨ prec = BF_PREC_INF → addable three minus_five prec.
Proof.
  intros Hp. split; [intros _; apply three_normal|intros _; apply minus_five_normal|]. right. intros _ _. vm_compute. done.
Qed.
Lemma params_2 : good_params 2 BF_RNDZ.
Proof. split; vm_compute; done. Qed.
Lemma bf_add_correct_witness : ∃ st r' h', bf_add false bf_init three minus_five 2 BF_RNDZ O = Some ((st, r'), h') ∧
  rounds_signed (bf_Q three + bf_Q minus_five) 0 2 BF_RNDZ st r'.
Proof.
  destruct (wp_returns _ O _ (bf_add_correct false bf_init three minus_five 2 BF_RNDZ (proj1 three_operand) (proj1 minus_five_operand)
    (three_five_addable 2 (or_introl eq_refl)) params_2 eq_refl)) as ([st r'] & h' & E & Hr). eauto.
Defined.
Lemma bf_sub_correct_witness : ∃ st r' h', bf_sub false bf_init three minus_five 2 BF_RNDZ O = Some ((st, r'), h') ∧
  rounds_signed (bf_Q three - bf_Q minus_five) 0 2 BF_RNDZ st r'.
Proof.
  destruct (wp_returns _ O _ (bf_sub_correct false bf_init three minus_five 2 BF_RNDZ (proj1 three_operand) (proj1 minus_five_operand)
    (three_five_addable 2 (or_introl eq_refl)) params_2 eq_refl)) as ([st r'] & h' & E & Hr). eauto.
Defined.
Lemma bf_add_canonical_witness : ∃ st r' h', bf_add false bf_init three (mk_bf 1 BF_EXP_INF []) 2 BF_RNDZ O = Some ((st, r'), h') ∧
  bf_wf r' ∧ (st, r') = (0, mk_bf 1 BF_EXP_INF []).
Proof.
  assert (¬ bf_normal (mk_bf 1 BF_EXP_INF [])) as Hn by (intros Hn; by pose proof (nf_len _ Hn)).
  destruct (wp_returns _ O _ (bf_add_canonical false bf_init three (mk_bf 1 BF_EXP_INF []) 2 BF_RNDZ (proj1 (proj2 three_normal))
    ltac:(split; [by right|right; right; left; by split]) ltac:(split; [intros _; apply three_normal|done|by right]) params_2 eq_refl))
    as ([st r'] & h' & E & Hw & Hs). exists st, r', h'. split; [done|]. split; [done|]. apply Hs. right. left. by split.
Defined.
Lemma bf_add_sub_cancel_witness : ∃ st h',
  ('(_, s) ← bf_add false bf_init three minus_five BF_PREC_INF BF_RNDN; bf_sub false bf_init s minus_five BF_PREC_INF BF_RNDN) O = Some ((st, three), h') ∧ st = 0.
Proof.
  assert (exact_params BF_RNDN) as He by (split; [split|..]; vm_compute; done).
  destruct (wp_returns _ O _ (bf_add_sub_cancel bf_init three minus_five BF_RNDN (proj1 three_normal) ltac:(by left) (proj1 minus_five_operand)
    (proj2 three_operand) (λ _, proj2 minus_five_operand) He)) as ([st r'] & h' & E & -> & Hst). exists st, h'. split; [exact E|]. by apply Hst.
Defined.
Lemma bf_add_loses_mem_error_witness :
  let refusing := {| realloc_ok := λ _ _, false; junk := λ _ _, 0 |} in
  bf_add (H0 := refusing) false bf_init three bf_init 10 BF_RNDN O = Some ((0, mk_bf 0 BF_EXP_ZERO []), 1%nat).
Proof. intros refusing. apply (bf_add_loses_mem_error three 10 BF_RNDN); [done|apply three_normal]. Defined.
(** [1 - 1/2] has one leading zero; [count_cancelled_bits] returns 2, which is an upper bound, not a lower one *)
Definition bf_one : bf_t := mk_bf 0 1 [2 ^ 63].
Definition bf_half : bf_t := mk_bf 0 0 [2 ^ 63].
Lemma cancelled_bits_upper : count_cancelled_bits bf_one bf_half = Some 2 ∧ (bf_Q bf_one - bf_Q bf_half == 1 # 2)%Q.
Proof. split; vm_compute; reflexivity. Qed.
