(* ===== verification/DList.v ===== *)
(** * Intrusive doubly linked lists (js/list.h)

    A node is an address with two pointers; a list is a ring through its head.
    The memory maps the nodes that are allocated to their pointers, [None]
    being [NULL] or what [malloc] left.  [dlists] says which sequences the
    rings of a memory hold, [dlists_add_tail] and the other rules what the
    operations do to them; the clients - the garbage collector, the tables of
    Map and Set - work with the sequences only. *)
From stdpp Require Import gmap.
From S2P Require Import Prelude.

Section Operations.
Context {A : Type} `{!EqDecision A, !Countable A}.
Notation links := (gmap A (option A * option A)).
Implicit Types (m : links) (x y el head : A).

Definition get_prev (m : links) (x : A) : option A := m !! x ≫= fst.
Definition get_next (m : links) (x : A) : option A := m !! x ≫= snd.
Definition set_prev (m : links) (x : A) (v : option A) : option links := '(_, n) ← m !! x; Some (<[x := (v, n)]> m).
Definition set_next (m : links) (x : A) (v : option A) : option links := '(p, _) ← m !! x; Some (<[x := (p, v)]> m).

Definition init_list_head (m : links) (head : A) : option links := m ← set_prev m head (Some head); set_next m head (Some head).
(** insert [el] between [prev] and [next] *)
Definition __list_add (m : links) (el prev next : A) : option links :=
  m ← set_next m prev (Some el);
  m ← set_prev m el (Some prev);
  m ← set_next m el (Some next);
  set_prev m next (Some el).
Definition list_add (m : links) (el head : A) : option links := n ← get_next m head; __list_add m el head n.
Definition list_add_tail (m : links) (el head : A) : option links := p ← get_prev m head; __list_add m el p head.
Definition list_del (m : links) (el : A) : option links :=
  prev ← get_prev m el; next ← get_next m el;
  m ← set_next m prev (Some next);
  m ← set_prev m next (Some prev);
  m ← set_prev m el None;
  set_next m el None.
Definition list_empty (m : links) (el : A) : option bool := n ← get_next m el; Some (bool_decide (n = el)).

(** ** What a ring holds *)
(** from [x] through [l] to [y] *)
Fixpoint chain (m : links) (x : A) (l : list A) (y : A) : Prop :=
  match l with
  | [] => get_next m x = Some y ∧ get_prev m y = Some x
  | z :: l => get_next m x = Some z ∧ get_prev m z = Some x ∧ chain m z l y
  end.
(** the rings of the heads in [F] *)
Record dlists (m : links) (F : gmap A (list A)) : Prop := {
  dl_chain : ∀ h l, F !! h = Some l → chain m h l h;
  dl_nodup : ∀ h l, F !! h = Some l → NoDup (h :: l);
  dl_disjoint : ∀ h1 l1 h2 l2, F !! h1 = Some l1 → F !! h2 = Some l2 → h1 ≠ h2 → (h1 :: l1) ## (h2 :: l2)
}.
(** a node that no ring goes through *)
Definition free_node (F : gmap A (list A)) (x : A) : Prop := ∀ h l, F !! h = Some l → x ∉ h :: l.
End Operations.

Section Rules.
Context {A : Type} `{!EqDecision A, !Countable A}.
Notation links := (gmap A (option A * option A)).
Implicit Types (m : links) (x y z h : A) (l : list A) (F : gmap A (list A)).

Lemma chain_app m x l1 y l2 z : chain m x (l1 ++ y :: l2) z ↔ chain m x l1 y ∧ chain m y l2 z.
Proof. revert x. induction l1 as [|w l1 IH]; intros x; cbn; [naive_solver|]. rewrite IH. naive_solver. Qed.
Lemma chain_nodes m x l y z : chain m x l y → z ∈ x :: l → is_Some (m !! z).
Proof.
  revert x. induction l as [|w l IH]; intros x Hc Hz; cbn in Hc.
  - apply list_elem_of_singleton in Hz as ->. destruct Hc as [Hn _]. unfold get_next in Hn. destruct (m !! x); [eauto|done].
  - destruct Hc as (Hn & _ & Hc). apply elem_of_cons in Hz as [->|Hz]; [|eauto]. unfold get_next in Hn. destruct (m !! x); [eauto|done].
Qed.
(** a chain depends on the forward pointers of its nodes but the last, and on the backward ones of those but the first *)
Lemma chain_frame m m' x l y :
  (∀ z, z ∈ x :: l → get_next m' z = get_next m z) → (∀ z, z ∈ l ++ [y] → get_prev m' z = get_prev m z) →
  chain m x l y → chain m' x l y.
Proof.
  revert x. induction l as [|w l IH]; intros x Hn Hp Hc; cbn in *.
  - rewrite Hn, Hp by set_solver. done.
  - destruct Hc as (E1 & E2 & Hc). rewrite Hn, Hp by set_solver. split; [done|]. split; [done|]. apply IH; [|set_solver|done]. intros z Hz. apply Hn. set_solver.
Qed.
Lemma chain_last m x l y : chain m x l y → ∃ p, get_prev m y = Some p ∧ last (x :: l) = Some p.
Proof.
  revert x. induction l as [|w l IH]; intros x Hc; cbn in Hc; [exists x; by destruct Hc|]. destruct Hc as (_ & _ & Hc).
  destruct (IH w Hc) as (p & E & Hl). exists p. split; [done|]. rewrite last_cons_cons. done.
Qed.
Lemma get_next_set_prev m m' x v z : set_prev m x v = Some m' → get_next m' z = get_next m z.
Proof. unfold set_prev, get_next. destruct (m !! x) as [[p n]|] eqn:E; [|done]. intros [= <-]. destruct (decide (z = x)) as [->|]; simplify_map_eq; done. Qed.
Lemma get_prev_set_next m m' x v z : set_next m x v = Some m' → get_prev m' z = get_prev m z.
Proof. unfold set_next, get_prev. destruct (m !! x) as [[p n]|] eqn:E; [|done]. intros [= <-]. destruct (decide (z = x)) as [->|]; simplify_map_eq; done. Qed.
Lemma get_prev_set_prev m m' x v z : set_prev m x v = Some m' → get_prev m' z = if decide (z = x) then v else get_prev m z.
Proof. unfold set_prev, get_prev. destruct (m !! x) as [[p n]|] eqn:E; [|done]. intros [= <-]. destruct (decide (z = x)) as [->|]; simplify_map_eq; done. Qed.
Lemma get_next_set_next m m' x v z : set_next m x v = Some m' → get_next m' z = if decide (z = x) then v else get_next m z.
Proof. unfold set_next, get_next. destruct (m !! x) as [[p n]|] eqn:E; [|done]. intros [= <-]. destruct (decide (z = x)) as [->|]; simplify_map_eq; done. Qed.
Lemma set_prev_dom m m' x v : set_prev m x v = Some m' → dom m' = dom m.
Proof. unfold set_prev. destruct (m !! x) as [[p n]|] eqn:E; [|done]. intros [= <-]. rewrite dom_insert_L. apply elem_of_dom_2 in E. set_solver. Qed.
Lemma set_next_dom m m' x v : set_next m x v = Some m' → dom m' = dom m.
Proof. unfold set_next. destruct (m !! x) as [[p n]|] eqn:E; [|done]. intros [= <-]. rewrite dom_insert_L. apply elem_of_dom_2 in E. set_solver. Qed.
Lemma set_prev_ok m x v : x ∈ dom m → is_Some (set_prev m x v).
Proof. intros [[p n] E]%elem_of_dom. unfold set_prev. rewrite E. eauto. Qed.
Lemma set_next_ok m x v : x ∈ dom m → is_Some (set_next m x v).
Proof. intros [[p n] E]%elem_of_dom. unfold set_next. rewrite E. eauto. Qed.

(** the pointers after an insertion and after a removal *)
Lemma list_insert_spec m el p n :
  el ∈ dom m → p ∈ dom m → n ∈ dom m →
  ∃ m', __list_add m el p n = Some m' ∧ dom m' = dom m ∧
    (∀ z, get_next m' z = if decide (z = el) then Some n else if decide (z = p) then Some el else get_next m z) ∧
    (∀ z, get_prev m' z = if decide (z = n) then Some el else if decide (z = el) then Some p else get_prev m z).
Proof.
  intros He Hp Hn. unfold __list_add. destruct (set_next_ok m p (Some el) Hp) as [m1 E1]. rewrite E1. cbn [mbind option_bind]. pose proof (set_next_dom _ _ _ _ E1) as D1.
  destruct (set_prev_ok m1 el (Some p)) as [m2 E2]; [by rewrite D1|]. rewrite E2. cbn [mbind option_bind]. pose proof (set_prev_dom _ _ _ _ E2) as D2.
  destruct (set_next_ok m2 el (Some n)) as [m3 E3]; [by rewrite D2, D1|]. rewrite E3. cbn [mbind option_bind]. pose proof (set_next_dom _ _ _ _ E3) as D3.
  destruct (set_prev_ok m3 n (Some el)) as [m4 E4]; [by rewrite D3, D2, D1|]. rewrite E4. exists m4. split; [done|]. split; [by rewrite (set_prev_dom _ _ _ _ E4), D3, D2, D1|]. split; intros z.
  - rewrite (get_next_set_prev _ _ _ _ _ E4), (get_next_set_next _ _ _ _ _ E3), (get_next_set_prev _ _ _ _ _ E2), (get_next_set_next _ _ _ _ _ E1). done.
  - rewrite (get_prev_set_prev _ _ _ _ _ E4), (get_prev_set_next _ _ _ _ _ E3), (get_prev_set_prev _ _ _ _ _ E2), (get_prev_set_next _ _ _ _ _ E1). done.
Qed.
Lemma list_remove_spec m el p n :
  get_prev m el = Some p → get_next m el = Some n → p ∈ dom m → n ∈ dom m →
  ∃ m', list_del m el = Some m' ∧ dom m' = dom m ∧
    (∀ z, get_next m' z = if decide (z = el) then None else if decide (z = p) then Some n else get_next m z) ∧
    (∀ z, get_prev m' z = if decide (z = el) then None else if decide (z = n) then Some p else get_prev m z).
Proof.
  intros Ep En Hp Hn. unfold list_del. rewrite Ep, En. cbn [mbind option_bind].
  assert (el ∈ dom m) as He by (apply elem_of_dom; unfold get_prev in Ep; destruct (m !! el); [eauto|done]).
  destruct (set_next_ok m p (Some n) Hp) as [m1 E1]. rewrite E1. cbn [mbind option_bind]. pose proof (set_next_dom _ _ _ _ E1) as D1.
  destruct (set_prev_ok m1 n (Some p)) as [m2 E2]; [by rewrite D1|]. rewrite E2. cbn [mbind option_bind]. pose proof (set_prev_dom _ _ _ _ E2) as D2.
  destruct (set_prev_ok m2 el None) as [m3 E3]; [by rewrite D2, D1|]. rewrite E3. cbn [mbind option_bind]. pose proof (set_prev_dom _ _ _ _ E3) as D3.
  destruct (set_next_ok m3 el None) as [m4 E4]; [by rewrite D3, D2, D1|]. rewrite E4. exists m4. split; [done|]. split; [by rewrite (set_next_dom _ _ _ _ E4), D3, D2, D1|]. split; intros z.
  - rewrite (get_next_set_next _ _ _ _ _ E4), (get_next_set_prev _ _ _ _ _ E3), (get_next_set_prev _ _ _ _ _ E2), (get_next_set_next _ _ _ _ _ E1). done.
  - rewrite (get_prev_set_next _ _ _ _ _ E4), (get_prev_set_prev _ _ _ _ _ E3), (get_prev_set_prev _ _ _ _ _ E2), (get_prev_set_next _ _ _ _ _ E1). done.
Qed.
(** the node before the end of a chain, the node after its start *)
Lemma chain_end m x l y : chain m x l y → ∃ p, p ∈ x :: l ∧ get_prev m y = Some p ∧ get_next m p = Some y ∧ (l = [] ∧ p = x ∨ ∃ l0, l = l0 ++ [p] ∧ chain m x l0 p).
Proof.
  intros Hc. destruct l as [|w l _] using rev_ind; [exists x; destruct Hc; set_solver|]. apply chain_app in Hc as [H1 [H2 H3]].
  exists w. split; [set_solver|]. split; [done|]. split; [done|]. right. by exists l.
Qed.
Lemma chain_start m x l y : chain m x l y → ∃ n, n ∈ l ++ [y] ∧ get_next m x = Some n ∧ get_prev m n = Some x ∧ (l = [] ∧ n = y ∨ ∃ l0, l = n :: l0 ∧ chain m n l0 y).
Proof. destruct l as [|w l]; cbn; [intros [H1 H2]; exists y; set_solver|]. intros (H1 & H2 & H3). exists w. split; [set_solver|]. split; [done|]. split; [done|]. right. eauto. Qed.
Lemma ring_dom m h l : chain m h l h → ∀ z, z ∈ h :: l → z ∈ dom m.
Proof. intros Hc z Hz. apply elem_of_dom. eapply chain_nodes; eauto. Qed.

(** ** The operations on sequences *)
(** a ring changes, the others keep their pointers *)
Lemma dlists_update m m' F h l l' (new : list A) :
  dlists m F → F !! h = Some l → chain m' h l' h → NoDup (h :: l') → (∀ z, z ∈ l' → z ∈ l ∨ z ∈ new) → (∀ z, z ∈ new → free_node F z) →
  (∀ z, z ∉ h :: l → z ∉ new → get_next m' z = get_next m z ∧ get_prev m' z = get_prev m z) → dlists m' (<[h := l']> F).
Proof.
  intros [Dc Dn Dd] Eh Hc Hn Hsub Hnew Hframe. split.
  - intros h1 l1 E. destruct (decide (h = h1)) as [->|Hne]; simplify_map_eq; [done|].
    apply (chain_frame m); [| |by apply Dc]; intros z Hz; apply Hframe.
    1,3: intros Hin; apply (Dd h1 l1 h l E Eh ltac:(congruence) z); [set_solver|done].
    1,2: intros Hin; apply (Hnew z Hin h1 l1 E); set_solver.
  - intros h1 l1 E. destruct (decide (h = h1)) as [->|Hne]; simplify_map_eq; [done|by apply Dn].
  - assert (∀ h1 l1, F !! h1 = Some l1 → h ≠ h1 → (h :: l') ## (h1 :: l1)) as Hdis.
    { intros h1 l1 E Hne z [->|Hz]%elem_of_cons Hz1; [apply (Dd h l h1 l1 Eh E Hne h); set_solver|].
      destruct (Hsub z Hz) as [Hz2|Hz2]; [apply (Dd h l h1 l1 Eh E Hne z); set_solver|by apply (Hnew z Hz2 h1 l1 E)]. }
    intros h1 l1 h2 l2 E1 E2 Hne. destruct (decide (h = h1)) as [->|H1]; simplify_map_eq; [by apply Hdis|].
    destruct (decide (h = h2)) as [->|H2]; simplify_map_eq; [|by apply (Dd h1 l1 h2 l2)]. intros z Hz1 Hz2. by apply (Hdis h1 l1 E1 ltac:(congruence) z).
Qed.
Lemma nodup_snoc h l p : NoDup (h :: l ++ [p]) → p ∉ h :: l ∧ h ∉ l ∧ p ≠ h.
Proof.
  rewrite app_comm_cons. intros (N1 & N2 & _)%NoDup_app. apply NoDup_cons in N1 as [N1 _].
  assert (p ∉ h :: l) as Hp by (intros Hin; by apply (N2 p Hin); set_solver). set_solver.
Qed.
Lemma dlists_add_tail m F h l x :
  dlists m F → F !! h = Some l → free_node F x → x ∈ dom m →
  ∃ m', list_add_tail m x h = Some m' ∧ dom m' = dom m ∧ dlists m' (<[h := l ++ [x]]> F).
Proof.
  intros D Eh Hx Hd. pose proof (dl_chain _ _ D _ _ Eh) as Hc. pose proof (dl_nodup _ _ D _ _ Eh) as Hn. pose proof (Hx _ _ Eh) as Hxl. pose proof (ring_dom _ _ _ Hc) as Hdom.
  destruct (chain_end _ _ _ _ Hc) as (p & Hp & Ep & En & Hl). unfold list_add_tail. rewrite Ep. cbn [mbind option_bind].
  destruct (list_insert_spec m x p h Hd (Hdom p Hp) (Hdom h ltac:(set_solver))) as (m' & -> & Dm & Nx & Pv). exists m'. split; [done|]. split; [done|].
  assert (x ≠ h ∧ x ≠ p) as [Nh Np] by set_solver.
  apply (dlists_update m m' F h l _ [x] D Eh); [|rewrite app_comm_cons; apply NoDup_app; split; [done|split; [set_solver|apply NoDup_singleton]]|set_solver|set_solver|].
  - destruct Hl as [[-> ->]|(l0 & -> & H0)].
    + cbn. rewrite !Nx, !Pv. repeat case_decide; done || congruence.
    + destruct (nodup_snoc h l0 p Hn) as (P1 & P2 & P3). rewrite <- app_assoc. cbn [app]. apply chain_app. split.
      * apply (chain_frame m); [| |done]; intros z Hz; [rewrite Nx|rewrite Pv]; rewrite !decide_False by set_solver; done.
      * cbn. rewrite !Nx, !Pv. repeat case_decide; done || congruence.
  - intros z Hz1 Hz2. rewrite Nx, Pv. rewrite !decide_False by set_solver. done.
Qed.
Lemma dlists_add m F h l x :
  dlists m F → F !! h = Some l → free_node F x → x ∈ dom m →
  ∃ m', list_add m x h = Some m' ∧ dom m' = dom m ∧ dlists m' (<[h := x :: l]> F).
Proof.
  intros D Eh Hx Hd. pose proof (dl_chain _ _ D _ _ Eh) as Hc. pose proof (dl_nodup _ _ D _ _ Eh) as Hn. pose proof (Hx _ _ Eh) as Hxl. pose proof (ring_dom _ _ _ Hc) as Hdom.
  destruct (chain_start _ _ _ _ Hc) as (n & Hp & En & Ep & Hl). unfold list_add. rewrite En. cbn [mbind option_bind].
  destruct (list_insert_spec m x h n Hd (Hdom h ltac:(set_solver)) (Hdom n ltac:(set_solver))) as (m' & -> & Dm & Nx & Pv). exists m'. split; [done|]. split; [done|].
  assert (x ≠ h ∧ x ∉ l) as [Nh Nl] by (by apply not_elem_of_cons in Hxl).
  assert (x ≠ n) as Np by (destruct Hl as [[_ ->]|(l0 & -> & _)]; [done|by apply not_elem_of_cons in Nl as [? _]]).
  apply NoDup_cons in Hn as [Hhl Hnl]. clear Hdom. apply (dlists_update m m' F h l _ [x] D Eh).
  - destruct Hl as [[-> ->]|(l0 & -> & H0)]; [cbn; rewrite !Nx, !Pv; repeat case_decide; done || congruence|].
    apply not_elem_of_cons in Hhl as [N1 N3]. apply NoDup_cons in Hnl as [N2 _]. apply not_elem_of_cons in Nl as [_ Nl].
    cbn. rewrite !Nx, !Pv. split; [repeat case_decide; done || congruence|]. split; [repeat case_decide; done || congruence|].
    split; [repeat case_decide; done || congruence|]. split; [repeat case_decide; done || congruence|].
    apply (chain_frame m); [| |done]; clear D Hx; intros z Hz; [rewrite Nx|rewrite Pv]; rewrite !decide_False; try done; set_solver.
  - constructor; [apply not_elem_of_cons; split; [congruence|done]|]. by constructor.
  - set_solver.
  - set_solver.
  - clear D Hx. intros z Hz1 Hz2. rewrite Nx, Pv. rewrite !decide_False; try done; set_solver.
Qed.
Lemma dlists_del m F h l1 x l2 :
  dlists m F → F !! h = Some (l1 ++ x :: l2) →
  ∃ m', list_del m x = Some m' ∧ dom m' = dom m ∧ dlists m' (<[h := l1 ++ l2]> F).
Proof.
  intros D Eh. pose proof (dl_chain _ _ D _ _ Eh) as Hc. pose proof (dl_nodup _ _ D _ _ Eh) as Hn. pose proof (ring_dom _ _ _ Hc) as Hdom.
  apply chain_app in Hc as [C1 C2]. destruct (chain_end _ _ _ _ C1) as (p & Hp & Ep & _ & Hl1). destruct (chain_start _ _ _ _ C2) as (n & Hnn & En & _ & Hl2).
  assert (p ∈ dom m ∧ n ∈ dom m) as [Dp Dn'] by (split; apply Hdom; clear D; set_solver).
  destruct (list_remove_spec m x p n Ep En Dp Dn') as (m' & -> & Dm & Nx & Pv). exists m'. split; [done|]. split; [done|]. clear Hdom.
  assert (NoDup (h :: l1 ++ l2) ∧ x ∉ h :: l1 ∧ x ∉ l2 ∧ h ∉ l1 ∧ h ∉ l2 ∧ l1 ## l2 ∧ NoDup l1 ∧ NoDup l2) as (Hn' & X1 & X2 & X3 & X4 & X5 & X6 & X7).
  { apply NoDup_cons in Hn as [Hh Hn]. apply NoDup_app in Hn as (N1 & N2 & N3). apply NoDup_cons in N3 as [N3 N4].
    split; [|set_solver]. constructor; [set_solver|]. apply NoDup_app. set_solver. }
  apply (dlists_update m m' F h _ _ [] D Eh); [|done|set_solver|set_solver|].
  - destruct Hl1 as [[-> ->]|(l0 & -> & H0)], Hl2 as [[-> ->]|(l3 & -> & H3)].
    + cbn. rewrite Nx, Pv. repeat case_decide; done || set_solver.
    + cbn. rewrite Nx, Pv. split; [repeat case_decide; done || set_solver|]. split; [repeat case_decide; done || set_solver|].
      apply NoDup_cons in X7 as [X7 _]. apply (chain_frame m); [| |done]; intros z Hz; [rewrite Nx|rewrite Pv]; rewrite !decide_False by set_solver; done.
    + rewrite app_nil_r. apply NoDup_app in X6 as (_ & X6 & _). apply chain_app. split.
      * apply (chain_frame m); [| |done]; intros z Hz; [rewrite Nx|rewrite Pv]; rewrite !decide_False by set_solver; done.
      * cbn. rewrite Nx, Pv. repeat case_decide; done || set_solver.
    + rewrite <- app_assoc. cbn [app]. apply NoDup_app in X6 as (_ & X6 & _). apply NoDup_cons in X7 as [X7 _]. apply chain_app. split.
      * apply (chain_frame m); [| |done]; intros z Hz; [rewrite Nx|rewrite Pv]; rewrite !decide_False by set_solver; done.
      * cbn. rewrite Nx, Pv. split; [repeat case_decide; done || set_solver|]. split; [repeat case_decide; done || set_solver|].
        apply (chain_frame m); [| |done]; intros z Hz; [rewrite Nx|rewrite Pv]; rewrite !decide_False by set_solver; done.
  - intros z Hz1 _. rewrite Nx, Pv. rewrite !decide_False by set_solver. done.
Qed.
Lemma dlists_next m F h l1 x l2 : dlists m F → F !! h = Some (l1 ++ x :: l2) → get_next m x = Some (hd h l2).
Proof.
  intros D Eh. pose proof (dl_chain _ _ D _ _ Eh) as Hc. apply chain_app in Hc as [_ C2]. destruct (chain_start _ _ _ _ C2) as (n & _ & En & _ & [[-> ->]|(l0 & -> & _)]); done.
Qed.
Lemma dlists_first m F h l : dlists m F → F !! h = Some l → get_next m h = Some (hd h l).
Proof.
  intros D Eh. pose proof (dl_chain _ _ D _ _ Eh) as Hc. destruct (chain_start _ _ _ _ Hc) as (n & _ & En & _ & [[-> ->]|(l0 & -> & _)]); done.
Qed.
Lemma dlists_empty m F h l : dlists m F → F !! h = Some l → list_empty m h = Some (bool_decide (l = [])).
Proof.
  intros D Eh. unfold list_empty. rewrite (dlists_first _ _ _ _ D Eh). cbn [mbind option_bind]. f_equal. pose proof (dl_nodup _ _ D _ _ Eh) as Hn.
  apply bool_decide_ext. destruct l as [|y l]; cbn; [done|]. apply NoDup_cons in Hn as [Hn _]. set_solver.
Qed.
Lemma dlists_init m F h :
  dlists m F → F !! h = None → free_node F h → h ∈ dom m → ∃ m', init_list_head m h = Some m' ∧ dom m' = dom m ∧ dlists m' (<[h := []]> F).
Proof.
  intros [Dc Dn Dd] Eh Hf Hd. unfold init_list_head. destruct (set_prev_ok m h (Some h) Hd) as [m1 E1]. rewrite E1. cbn [mbind option_bind].
  destruct (set_next_ok m1 h (Some h)) as [m2 E2]; [by rewrite (set_prev_dom _ _ _ _ E1)|]. rewrite E2. exists m2. split; [done|].
  split; [by rewrite (set_next_dom _ _ _ _ E2), (set_prev_dom _ _ _ _ E1)|].
  assert (∀ z, get_next m2 z = if decide (z = h) then Some h else get_next m z) as Nx by (intros z; rewrite (get_next_set_next _ _ _ _ _ E2), (get_next_set_prev _ _ _ _ _ E1); done).
  assert (∀ z, get_prev m2 z = if decide (z = h) then Some h else get_prev m z) as Pv by (intros z; rewrite (get_prev_set_next _ _ _ _ _ E2), (get_prev_set_prev _ _ _ _ _ E1); done).
  split.
  - intros h1 l1 E. destruct (decide (h = h1)) as [->|Hne]; simplify_map_eq; [cbn; rewrite Nx, Pv; by case_decide|].
    apply (chain_frame m); [| |by apply Dc]; intros z Hz; [rewrite Nx|rewrite Pv]; rewrite decide_False; try done; intros ->; apply (Hf _ _ E); set_solver.
  - intros h1 l1 E. destruct (decide (h = h1)) as [->|Hne]; simplify_map_eq; [apply NoDup_singleton|by apply Dn].
  - intros h1 l1 h2 l2 E1' E2' Hne. destruct (decide (h = h1)) as [<-|H1], (decide (h = h2)) as [<-|H2]; simplify_map_eq; [| |by apply (Dd h1 l1 h2 l2)].
    + intros z ->%list_elem_of_singleton Hz. by apply (Hf _ _ E2').
    + intros z Hz ->%list_elem_of_singleton. by apply (Hf _ _ E1').
Qed.
Lemma dlists_del_free m F h l1 x l2 : dlists m F → F !! h = Some (l1 ++ x :: l2) → free_node (<[h := l1 ++ l2]> F) x.
Proof.
  intros [Dc Dn Dd] Eh h1 l E Hin. pose proof (Dn _ _ Eh) as Hn. destruct (decide (h = h1)) as [<-|Hne]; simplify_map_eq.
  - apply NoDup_cons in Hn as [Hh Hn]. apply NoDup_app in Hn as (N1 & N2 & N3). apply NoDup_cons in N3 as [N3 _].
    apply elem_of_cons in Hin as [->|Hin]; [apply Hh; set_solver|]. apply elem_of_app in Hin as [Hin|Hin]; [apply (N2 x Hin); set_solver|done].
  - apply (Dd _ _ _ _ Eh E Hne x); [set_solver|done].
Qed.
Lemma dlists_in m F h l x : dlists m F → F !! h = Some l → x ∈ h :: l → x ∈ dom m.
Proof. intros D Eh Hx. by apply (ring_dom m h l); [apply (dl_chain _ _ D)|]. Qed.
(** a node goes from one list to the end, or to the front, of another *)
Lemma dlists_move_tail m F h g l1 x l2 l3 :
  dlists m F → F !! h = Some (l1 ++ x :: l2) → <[h := l1 ++ l2]> F !! g = Some l3 →
  ∃ m1 m2, list_del m x = Some m1 ∧ list_add_tail m1 x g = Some m2 ∧ dom m2 = dom m ∧ dlists m2 (<[g := l3 ++ [x]]> (<[h := l1 ++ l2]> F)).
Proof.
  intros D Eh Eg. assert (x ∈ dom m) as Hx by (eapply dlists_in; [exact D|exact Eh|]; set_solver).
  destruct (dlists_del m F h l1 x l2 D Eh) as (m1 & E1 & D1 & D').
  destruct (dlists_add_tail m1 _ g l3 x D' Eg (dlists_del_free _ _ _ _ _ _ D Eh)) as (m2 & E2 & D2 & D''); [by rewrite D1|]. exists m1, m2. by rewrite D2, D1.
Qed.
Lemma dlists_move m F h g l1 x l2 l3 :
  dlists m F → F !! h = Some (l1 ++ x :: l2) → <[h := l1 ++ l2]> F !! g = Some l3 →
  ∃ m1 m2, list_del m x = Some m1 ∧ list_add m1 x g = Some m2 ∧ dom m2 = dom m ∧ dlists m2 (<[g := x :: l3]> (<[h := l1 ++ l2]> F)).
Proof.
  intros D Eh Eg. assert (x ∈ dom m) as Hx by (eapply dlists_in; [exact D|exact Eh|]; set_solver).
  destruct (dlists_del m F h l1 x l2 D Eh) as (m1 & E1 & D1 & D').
  destruct (dlists_add m1 _ g l3 x D' Eg (dlists_del_free _ _ _ _ _ _ D Eh)) as (m2 & E2 & D2 & D''); [by rewrite D1|]. exists m1, m2. by rewrite D2, D1.
Qed.
(** memory that is in no list *)
Lemma dlists_delete m F x : dlists m F → free_node F x → dlists (delete x m) F.
Proof.
  intros [Dc Dn Dd] Hx. split; [|done|done]. intros h l E. pose proof (Hx _ _ E) as Hxl.
  assert (∀ z, z ≠ x → get_next (delete x m) z = get_next m z ∧ get_prev (delete x m) z = get_prev m z) as Hz by (intros z Hz; unfold get_next, get_prev; by rewrite lookup_delete_ne by congruence).
  apply (chain_frame m); [| |by apply Dc]; intros z Hin; apply Hz; intros ->; apply Hxl; set_solver.
Qed.
(** a ring that is given up: its head and its nodes are in no list *)
Lemma dlists_forget m F h : dlists m F → dlists m (delete h F).
Proof. intros [Dc Dn Dd]. split; [intros h1 l1|intros h1 l1|intros h1 l1 h2 l2]; rewrite !lookup_delete_Some; naive_solver. Qed.
Lemma dlists_forget_free m F h l x : dlists m F → F !! h = Some l → x ∈ h :: l → free_node (delete h F) x.
Proof. intros [Dc Dn Dd] Eh Hx h1 l1 [Hne E]%lookup_delete_Some Hin. by apply (Dd h l h1 l1 Eh E Hne x). Qed.
(** C6: the operations of [list.h] on the pointers are those on sequences: an insertion puts the node at the front or at the end, a removal takes it out and leaves it free, and the other lists of the memory do not change *)
Theorem list_h_refines m F h l : dlists m F → F !! h = Some l →
  (∀ x, free_node F x → x ∈ dom m → (∃ m', list_add m x h = Some m' ∧ dlists m' (<[h := x :: l]> F)) ∧ (∃ m', list_add_tail m x h = Some m' ∧ dlists m' (<[h := l ++ [x]]> F))) ∧
  (∀ l1 x l2, l = l1 ++ x :: l2 → ∃ m', list_del m x = Some m' ∧ dlists m' (<[h := l1 ++ l2]> F) ∧ free_node (<[h := l1 ++ l2]> F) x) ∧
  list_empty m h = Some (bool_decide (l = [])).
Proof.
  intros D E. split; [|split; [|by eapply dlists_empty]].
  - intros x Hf Hx. destruct (dlists_add _ _ _ _ x D E Hf Hx) as (m1 & E1 & _ & D1). destruct (dlists_add_tail _ _ _ _ x D E Hf Hx) as (m2 & E2 & _ & D2). split; eauto.
  - intros l1 x l2 ->. destruct (dlists_del _ _ _ _ _ _ D E) as (m1 & E1 & _ & D1). exists m1. split; [done|]. split; [done|]. by eapply dlists_del_free.
Qed.
End Rules.
(** a ring with two nodes, and a node that is in none *)
Lemma list_h_refines_witness :
  let m : gmap Z (option Z * option Z) := {[ 0 := (Some 2, Some 1); 1 := (Some 0, Some 2); 2 := (Some 1, Some 0); 3 := (None, None) ]} in
  dlists m {[ 0 := [1; 2] ]} ∧ ∃ m', list_add_tail m 3 0 = Some m' ∧ dlists m' (<[0 := [1; 2; 3]]> {[ 0 := [1; 2] ]}).
Proof.
  intros m. assert (dlists m {[ 0 := [1; 2] ]}) as D.
  { split; [intros h l [<- <-]%lookup_singleton_Some; vm_compute; repeat split|intros h l [<- <-]%lookup_singleton_Some; repeat constructor; set_solver|].
    intros h1 l1 h2 l2 [<- _]%lookup_singleton_Some [<- _]%lookup_singleton_Some. done. }
  split; [exact D|]. destruct (list_h_refines m {[ 0 := [1; 2] ]} 0 [1; 2] D) as (Ha & _ & _); [done|]. apply (Ha 3).
  - intros h l [<- <-]%lookup_singleton_Some. set_solver.
  - apply elem_of_dom. vm_compute. by eexists.
Defined.
