(* ===== verification/GcHeap.v ===== *)
(** * The heap of the garbage collector (js/quickjs.h, js/quickjs.c)

    Values, the objects that the collector knows, and what they refer to:
    [children] is the sequence of calls that [mark_children] makes, the mark
    functions of the classes included.  A field that may be [NULL] is an
    option; what a union holds is one constructor for each class. *)
From stdpp Require Import gmap.
From S2P Require Import Prelude.

Definition ptr : Type := Z.

(** ** Values *)
Inductive JSValue :=
  | JSInt (n : Z)
  | JSBool (b : bool)
  | JSNull
  | JSUndefined
  | JSUninitialized
  | JSCatchOffset (n : Z)
  | JSException
  | JSFloat64 (bits : Z)
  | JSBigInt (p : ptr)
  | JSSymbol (p : ptr)
  | JSString (p : ptr)
  | JSModule (p : ptr)
  | JSFunctionBytecode (p : ptr)
  | JSObject (p : ptr).
#[export] Instance JSValue_eq_dec : EqDecision JSValue.
Proof. solve_decision. Defined.
Definition JS_VALUE_GET_TAG (v : JSValue) : Z :=
  match v with
  | JSBigInt _ => -10 | JSSymbol _ => -8 | JSString _ => -7 | JSModule _ => -3
  | JSFunctionBytecode _ => -2 | JSObject _ => -1 | JSInt _ => 0 | JSBool _ => 1 | JSNull => 2
  | JSUndefined => 3 | JSUninitialized => 4 | JSCatchOffset _ => 5 | JSException => 6 | JSFloat64 _ => 7
  end.

(** ** Properties and shapes *)
Definition JS_ATOM_NULL : Z := 0.
Definition JS_PROP_TMASK : Z := 3 << 4.
Definition JS_PROP_GETSET : Z := 1 << 4.
Definition JS_PROP_VARREF : Z := 2 << 4.
Definition JS_PROP_AUTOINIT : Z := 3 << 4.
(** [JSProperty.u], which member it is being known from the flags of the shape *)
Inductive JSProperty :=
  | PropValue (value : JSValue)
  | PropGetset (getter setter : option ptr)
  | PropVarRef (var_ref : ptr)
  | PropAutoinit (realm : ptr).
Record JSShapeProperty := mk_shape_prop { prs_flags : Z; prs_atom : Z }.

(** ** What the class of an object adds: [JSObject.u] *)
Inductive class_data :=
  | ClassNone (** no mark function: objects, errors, mapped arguments, regular expressions, buffers *)
  | ClassArray (values : list JSValue)
  | ClassObjectData (object_data : JSValue)
  | ClassCFunction (realm : option ptr)
  | ClassBytecodeFunction (home_object function_bytecode : option ptr) (var_refs : option (list (option ptr)))
  | ClassBoundFunction (func_obj this_val : JSValue) (argv : list JSValue)
  | ClassCFunctionData (data : option (list JSValue))
  | ClassForInIterator (obj : JSValue)
  | ClassTypedArray (buffer : option ptr)
  | ClassMap (records : option (list (JSValue * JSValue))) (** Map and Set, not the weak ones *)
  | ClassMapIterator (obj : option JSValue)
  | ClassArrayIterator (obj : option JSValue)
  | ClassRegexpStringIterator (data : option (JSValue * JSValue))
  | ClassGenerator (data : option (bool * option ptr)) (** completed or not, and the state *)
  | ClassAsyncFunctionResolve (state : option ptr)
  | ClassAsyncGenerator (data : option (list (list JSValue) * option ptr))
  | ClassProxy (data : option (JSValue * JSValue))
  | ClassPromise (data : option (list (list JSValue) * JSValue))
  | ClassPromiseResolveFunction (promise : option JSValue)
  | ClassAsyncFromSyncIterator (data : option (JSValue * JSValue)).

(** the frame of a suspended function: the slots from [arg_buf] to [cur_sp] *)
Record JSAsyncFunctionState := mk_async {
  as_is_completed : bool;
  as_this_val : JSValue;
  as_cur_func : JSValue;
  as_arg_buf : bool; (** not [NULL] *)
  as_slots : option (list JSValue); (** [None]: [cur_sp] is [NULL], the function is running *)
  as_resolving_funcs : JSValue * JSValue
}.
(** the variables that a module exports, and the values that it holds *)
Record JSModuleDef := mk_module { md_export_vars : list (option ptr); md_values : list JSValue }.
Record JSContext := mk_context {
  cx_loaded_modules : list JSModuleDef;
  cx_values1 : list JSValue; (** [global_obj] to [array_proto_values] *)
  cx_native_error_proto : list JSValue;
  cx_class_proto : list JSValue;
  cx_values2 : list JSValue; (** [iterator_proto] to [function_proto] *)
  cx_array_shape : option ptr
}.
(** the objects by [gc_obj_type] *)
Inductive gc_obj :=
  | GcJSObject (cls : class_data) (shape : option ptr) (prop : list JSProperty)
  | GcFunctionBytecode (cpool : list JSValue) (realm : option ptr) (closure_var_count : Z)
  | GcShape (proto : option ptr) (props : list JSShapeProperty)
  | GcVarRef (is_detached : bool) (value : JSValue) (async_func : option ptr)
  | GcAsyncFunction (s : JSAsyncFunctionState)
  | GcJSContext (ctx : JSContext).
Record gc_header := mk_header { gc_ref_count : Z; gc_mark : Z; gc_free_mark : Z; gc_body : gc_obj }.
Definition heap : Type := gmap ptr gc_header.
Definition body_of (h : gmap ptr gc_header) (p : ptr) : option gc_obj := gc_body <$> h !! p.

(** ** Marking *)
Definition opt_list {A} (o : option A) : list A := match o with Some x => [x] | None => [] end.
Definition JS_MarkValue (v : JSValue) : list ptr :=
  match v with JSObject p | JSFunctionBytecode p => [p] | _ => [] end.
Definition mark_values (l : list JSValue) : list ptr := l ≫= JS_MarkValue.

(** [mark_func] on one property *)
Definition mark_property (prs : JSShapeProperty) (pr : JSProperty) : option (list ptr) :=
  if prs_atom prs =? JS_ATOM_NULL then Some []
  else
    let t := prs_flags prs .& JS_PROP_TMASK in
    if negb (t =? 0) then
      if t =? JS_PROP_GETSET then
        match pr with PropGetset getter setter => Some (opt_list getter ++ opt_list setter) | _ => None end
      else if t =? JS_PROP_VARREF then match pr with PropVarRef v => Some [v] | _ => None end
      else if t =? JS_PROP_AUTOINIT then match pr with PropAutoinit realm => Some [realm] | _ => None end
      else Some []
    else match pr with PropValue v => Some (JS_MarkValue v) | _ => None end.
Fixpoint mark_properties (props : list JSShapeProperty) (prop : list JSProperty) : option (list ptr) :=
  match props with
  | [] => Some []
  | prs :: props =>
    match prop with
    | [] => None
    | pr :: prop => l ← mark_property prs pr; k ← mark_properties props prop; Some (l ++ k)
    end
  end.
(** the first [n] closure variables *)
Definition closure_vars (h : gmap ptr gc_header) (b : ptr) (var_refs : list (option ptr)) : option (list (option ptr)) :=
  match body_of h b with
  | Some (GcFunctionBytecode _ _ n) => if (0 <=? n) && (n <=? zlen var_refs) then Some (ztake n var_refs) else None
  | _ => None
  end.
(** the [gc_mark] functions of the classes *)
Definition js_bytecode_function_mark (h : gmap ptr gc_header) (home b : option ptr) (var_refs : option (list (option ptr))) : option (list ptr) :=
  match b with
  | None => Some (opt_list home)
  | Some b =>
    vars ← (match var_refs with Some l => closure_vars h b l | None => Some [] end);
    Some (opt_list home ++ (vars ≫= opt_list) ++ [b])
  end.
Definition js_map_mark (records : list (JSValue * JSValue)) : list ptr :=
  records ≫= λ '(key, value), JS_MarkValue key ++ JS_MarkValue value.
Definition js_array_mark (values : list JSValue) : list ptr := mark_values values.
Definition js_object_data_mark (object_data : JSValue) : list ptr := JS_MarkValue object_data.
Definition js_c_function_mark (realm : option ptr) : list ptr := opt_list realm.
Definition js_bound_function_mark (func_obj this_val : JSValue) (argv : list JSValue) : list ptr :=
  JS_MarkValue func_obj ++ JS_MarkValue this_val ++ mark_values argv.
Definition js_c_function_data_mark (data : option (list JSValue)) : list ptr := match data with Some l => mark_values l | None => [] end.
Definition js_for_in_iterator_mark (obj : JSValue) : list ptr := JS_MarkValue obj.
Definition js_typed_array_mark (buffer : option ptr) : list ptr := match buffer with Some p => JS_MarkValue (JSObject p) | None => [] end.
(** the object of an iterator, when its data exists *)
Definition js_map_iterator_mark (obj : option JSValue) : list ptr := match obj with Some v => JS_MarkValue v | None => [] end.
Definition js_array_iterator_mark (obj : option JSValue) : list ptr := match obj with Some v => JS_MarkValue v | None => [] end.
Definition js_regexp_string_iterator_mark (data : option (JSValue * JSValue)) : list ptr :=
  match data with Some (iterating_regexp, iterated_string) => JS_MarkValue iterating_regexp ++ JS_MarkValue iterated_string | None => [] end.
Definition js_generator_mark (data : option (bool * option ptr)) : list ptr := match data with Some (_, Some s) => [s] | _ => [] end.
Definition js_async_function_resolve_mark (state : option ptr) : list ptr := match state with Some s => [s] | None => [] end.
Definition js_async_generator_mark (data : option (list (list JSValue) * option ptr)) : list ptr :=
  match data with Some (queue, s) => (queue ≫= mark_values) ++ opt_list s | None => [] end.
Definition js_proxy_mark (data : option (JSValue * JSValue)) : list ptr :=
  match data with Some (target, handler) => JS_MarkValue target ++ JS_MarkValue handler | None => [] end.
Definition js_promise_mark (data : option (list (list JSValue) * JSValue)) : list ptr :=
  match data with Some (reactions, result) => (reactions ≫= mark_values) ++ JS_MarkValue result | None => [] end.
Definition js_promise_resolve_function_mark (promise : option JSValue) : list ptr := match promise with Some v => JS_MarkValue v | None => [] end.
Definition js_async_from_sync_iterator_mark (data : option (JSValue * JSValue)) : list ptr :=
  match data with Some (sync_iter, next_method) => JS_MarkValue sync_iter ++ JS_MarkValue next_method | None => [] end.
Definition class_mark (h : gmap ptr gc_header) (c : class_data) : option (list ptr) :=
  match c with
  | ClassNone => Some []
  | ClassArray values => Some (js_array_mark values)
  | ClassObjectData v => Some (js_object_data_mark v)
  | ClassCFunction realm => Some (js_c_function_mark realm)
  | ClassBytecodeFunction home b var_refs => js_bytecode_function_mark h home b var_refs
  | ClassBoundFunction func_obj this_val argv => Some (js_bound_function_mark func_obj this_val argv)
  | ClassCFunctionData data => Some (js_c_function_data_mark data)
  | ClassForInIterator obj => Some (js_for_in_iterator_mark obj)
  | ClassTypedArray buffer => Some (js_typed_array_mark buffer)
  | ClassMap records => Some (match records with Some l => js_map_mark l | None => [] end)
  | ClassMapIterator obj => Some (js_map_iterator_mark obj)
  | ClassArrayIterator obj => Some (js_array_iterator_mark obj)
  | ClassRegexpStringIterator data => Some (js_regexp_string_iterator_mark data)
  | ClassGenerator data => Some (js_generator_mark data)
  | ClassAsyncFunctionResolve s => Some (js_async_function_resolve_mark s)
  | ClassAsyncGenerator data => Some (js_async_generator_mark data)
  | ClassProxy data => Some (js_proxy_mark data)
  | ClassPromise data => Some (js_promise_mark data)
  | ClassPromiseResolveFunction promise => Some (js_promise_resolve_function_mark promise)
  | ClassAsyncFromSyncIterator data => Some (js_async_from_sync_iterator_mark data)
  end.
Definition async_mark (s : JSAsyncFunctionState) : list ptr :=
  (if as_is_completed s then []
   else JS_MarkValue (as_cur_func s) ++ JS_MarkValue (as_this_val s) ++
     match as_slots s with Some l => if as_arg_buf s then mark_values l else [] | None => [] end) ++
  JS_MarkValue (as_resolving_funcs s).1 ++ JS_MarkValue (as_resolving_funcs s).2.
Definition js_mark_module_def (m : JSModuleDef) : list ptr := (md_export_vars m ≫= opt_list) ++ mark_values (md_values m).
Definition JS_MarkContext (c : JSContext) : list ptr :=
  (cx_loaded_modules c ≫= js_mark_module_def) ++ mark_values (cx_values1 c) ++ mark_values (cx_native_error_proto c) ++
  mark_values (cx_class_proto c) ++ mark_values (cx_values2 c) ++ opt_list (cx_array_shape c).
(** the arguments of the calls of [mark_func], in order *)
Definition children (h : gmap ptr gc_header) (p : ptr) : option (list ptr) :=
  match body_of h p with
  | None => None
  | Some (GcJSObject cls shape prop) =>
    sh ← shape;
    match body_of h sh with
    | Some (GcShape _ props) => l ← mark_properties props prop; k ← class_mark h cls; Some (sh :: l ++ k)
    | _ => None
    end
  | Some (GcFunctionBytecode cpool realm _) => Some (mark_values cpool ++ opt_list realm)
  | Some (GcVarRef is_detached value async_func) => Some (if is_detached then JS_MarkValue value else opt_list async_func)
  | Some (GcAsyncFunction s) => Some (async_mark s)
  | Some (GcShape proto _) => Some (opt_list proto)
  | Some (GcJSContext c) => Some (JS_MarkContext c)
  end.
