(* ===== verification/Gc.v ===== *)
(** * The cycle collector (js/quickjs.c)

    Reference counts, and the collector for the cycles that they miss:
    [gc_decref] takes the references between objects away from the counts,
    [gc_scan] gives them back from the objects that still have a count,
    [gc_free_cycles] frees the others.  An access to a freed object is [None],
    as is a failed [assert]. *)
From stdpp Require Import gmap.
From S2P Require Import Prelude DList GcHeap.

(** the nodes of the lists: their heads, and [header.link] of the objects *)
Inductive gc_node := GcObjList | TmpObjList | GcZeroRefCountList | GcLink (p : ptr).
#[export] Instance gc_node_eq_dec : EqDecision gc_node.
Proof. solve_decision. Defined.
#[export] Instance gc_node_countable : Countable gc_node.
Proof.
  refine (inj_countable' (λ n, match n with GcObjList => inl 0 | TmpObjList => inl 1 | GcZeroRefCountList => inl 2 | GcLink p => inr p end)
    (λ s : Z + Z, match s with inl 0 => GcObjList | inl 1 => TmpObjList | inl _ => GcZeroRefCountList | inr p => GcLink p end) _).
  by intros [].
Defined.
Inductive JSGCPhaseEnum := JS_GC_PHASE_NONE | JS_GC_PHASE_DECREF | JS_GC_PHASE_REMOVE_CYCLES.
#[export] Instance JSGCPhaseEnum_eq_dec : EqDecision JSGCPhaseEnum.
Proof. solve_decision. Defined.

Record JSRuntime := mk_rt {
  rt_heap : gmap ptr gc_header;
  rt_links : gmap gc_node (option gc_node * option gc_node);
  gc_phase : JSGCPhaseEnum
}.
Definition set_heap (rt : JSRuntime) h := mk_rt h (rt_links rt) (gc_phase rt).
Definition set_links (rt : JSRuntime) m := mk_rt (rt_heap rt) m (gc_phase rt).
Definition set_phase (rt : JSRuntime) ph := mk_rt (rt_heap rt) (rt_links rt) ph.

(** ** The state *)
Definition header (rt : JSRuntime) (p : ptr) : option gc_header := rt_heap rt !! p.
Definition put_header (rt : JSRuntime) (p : ptr) (h : gc_header) : JSRuntime := set_heap rt (<[p := h]> (rt_heap rt)).
Definition with_ref_count (h : gc_header) n := mk_header n (gc_mark h) (gc_free_mark h) (gc_body h).
Definition with_mark (h : gc_header) n := mk_header (gc_ref_count h) n (gc_free_mark h) (gc_body h).
Definition set_mark (rt : JSRuntime) (p : ptr) (n : Z) : option JSRuntime := h ← header rt p; Some (put_header rt p (with_mark h n)).
Definition rt_list_del (rt : JSRuntime) (p : ptr) : option JSRuntime := m ← list_del (rt_links rt) (GcLink p); Some (set_links rt m).
Definition rt_list_add_tail (rt : JSRuntime) (p : ptr) (head : gc_node) : option JSRuntime := m ← list_add_tail (rt_links rt) (GcLink p) head; Some (set_links rt m).
Definition rt_list_add (rt : JSRuntime) (p : ptr) (head : gc_node) : option JSRuntime := m ← list_add (rt_links rt) (GcLink p) head; Some (set_links rt m).
(** [js_free_rt] of an object: its memory is gone *)
Definition js_free_obj (rt : JSRuntime) (p : ptr) : option JSRuntime :=
  _ ← header rt p; Some (mk_rt (delete p (rt_heap rt)) (delete (GcLink p) (rt_links rt)) (gc_phase rt)).
(** a function for each element, in order *)
Fixpoint for_each {A} (f : A → JSRuntime → option JSRuntime) (l : list A) (rt : JSRuntime) : option JSRuntime :=
  match l with [] => Some rt | x :: l => rt ← f x rt; for_each f l rt end.
Definition mark_children (f : ptr → JSRuntime → option JSRuntime) (p : ptr) (rt : JSRuntime) : option JSRuntime :=
  l ← children (rt_heap rt) p; for_each f l rt.

(** ** Reachability by counts *)
Definition gc_decref_child (p : ptr) (rt : JSRuntime) : option JSRuntime :=
  h ← header rt p;
  if negb (gc_ref_count h >? 0) then None
  else
    let n := gc_ref_count h - 1 in
    let rt := put_header rt p (with_ref_count h n) in
    if (n =? 0) && (gc_mark h =? 1) then rt ← rt_list_del rt p; rt_list_add_tail rt p TmpObjList else Some rt.
(** [list_for_each_safe]: [el1] is the next node *)
Fixpoint gc_decref_loop (fuel : nat) (el el1 : gc_node) (rt : JSRuntime) : option JSRuntime :=
  match el with
  | GcObjList => Some rt
  | GcLink p =>
    match fuel with
    | O => None
    | S fuel =>
      h ← header rt p;
      if negb (gc_mark h =? 0) then None
      else
        rt ← mark_children gc_decref_child p rt;
        rt ← set_mark rt p 1;
        h ← header rt p;
        rt ← (if gc_ref_count h =? 0 then rt ← rt_list_del rt p; rt_list_add_tail rt p TmpObjList else Some rt);
        n ← get_next (rt_links rt) el1;
        gc_decref_loop fuel el1 n rt
    end
  | _ => None
  end.
Definition gc_fuel (rt : JSRuntime) : nat := S (size (rt_heap rt)).
Definition gc_decref (rt : JSRuntime) : option JSRuntime :=
  m ← init_list_head (rt_links rt) TmpObjList;
  let rt := set_links rt m in
  el ← get_next m GcObjList; el1 ← get_next m el;
  gc_decref_loop (gc_fuel rt) el el1 rt.
Definition gc_scan_incref_child (p : ptr) (rt : JSRuntime) : option JSRuntime :=
  h ← header rt p;
  let n := gc_ref_count h + 1 in
  let rt := put_header rt p (with_ref_count h n) in
  if n =? 1 then
    rt ← rt_list_del rt p; rt ← rt_list_add_tail rt p GcObjList; set_mark rt p 0
  else Some rt.
Definition gc_scan_incref_child2 (p : ptr) (rt : JSRuntime) : option JSRuntime :=
  h ← header rt p; Some (put_header rt p (with_ref_count h (gc_ref_count h + 1))).
(** the objects with a count, and those that they reach: the list grows at its end *)
Fixpoint gc_scan_loop (fuel : nat) (el : gc_node) (rt : JSRuntime) : option JSRuntime :=
  match el with
  | GcObjList => Some rt
  | GcLink p =>
    match fuel with
    | O => None
    | S fuel =>
      h ← header rt p;
      if negb (gc_ref_count h >? 0) then None
      else
        rt ← set_mark rt p 0;
        rt ← mark_children gc_scan_incref_child p rt;
        el ← get_next (rt_links rt) el;
        gc_scan_loop fuel el rt
    end
  | _ => None
  end.
(** the counts of the objects that will be freed *)
Fixpoint gc_restore_loop (fuel : nat) (el : gc_node) (rt : JSRuntime) : option JSRuntime :=
  match el with
  | TmpObjList => Some rt
  | GcLink p =>
    match fuel with
    | O => None
    | S fuel =>
      rt ← mark_children gc_scan_incref_child2 p rt;
      el ← get_next (rt_links rt) el;
      gc_restore_loop fuel el rt
    end
  | _ => None
  end.
Definition gc_scan (rt : JSRuntime) : option JSRuntime :=
  el ← get_next (rt_links rt) GcObjList;
  rt ← gc_scan_loop (gc_fuel rt) el rt;
  el ← get_next (rt_links rt) TmpObjList;
  gc_restore_loop (gc_fuel rt) el rt.

(** ** Giving references up *)
(** what the free functions call, one constructor for each kind of callee *)
Inductive release :=
  | FreeValue (v : JSValue)
  | FreeShape (sh : ptr)
  | FreeVarRef (v : option ptr)
  | FreeAsyncFunc (s : ptr)
  | FreeContext (ctx : ptr).

(** [remove_gc_object], and [js_free_rt] or the list of the zombies *)
Definition remove_gc_object (rt : JSRuntime) (p : ptr) : option JSRuntime := rt_list_del rt p.
Definition free_or_keep (rt : JSRuntime) (p : ptr) : option JSRuntime :=
  rt ← remove_gc_object rt p;
  h ← header rt p;
  if bool_decide (gc_phase rt = JS_GC_PHASE_REMOVE_CYCLES) && negb (gc_ref_count h =? 0) then rt_list_add_tail rt p GcZeroRefCountList
  else js_free_obj rt p.
(** [--ref_count] *)
Definition decr (rt : JSRuntime) (p : ptr) : option (JSRuntime * Z) :=
  h ← header rt p; let n := gc_ref_count h - 1 in Some (put_header rt p (with_ref_count h n), n).
(** a count that reaches zero, when [free_zero_refcount] or [gc_free_cycles] runs *)
Definition queue_zero (p : ptr) (rt : JSRuntime) : option JSRuntime :=
  if bool_decide (gc_phase rt = JS_GC_PHASE_REMOVE_CYCLES) then Some rt
  else rt ← rt_list_del rt p; rt_list_add rt p GcZeroRefCountList.
(** [JS_FreeValueRT]; strings, symbols and big integers are not objects of the collector *)
Definition free_value (v : JSValue) (rt : JSRuntime) : option JSRuntime :=
  match v with
  | JSObject p | JSFunctionBytecode p => '(rt, n) ← decr rt p; if n <=? 0 then queue_zero p rt else Some rt
  | JSModule _ => None
  | _ => Some rt
  end.
Definition async_func_free (s : ptr) (rt : JSRuntime) : option JSRuntime := '(rt, n) ← decr rt s; if n =? 0 then queue_zero s rt else Some rt.
Definition js_free_shape0 (sh : ptr) (rt : JSRuntime) : option JSRuntime :=
  h ← header rt sh;
  if negb (gc_ref_count h =? 0) then None
  else
    match gc_body h with
    | GcShape proto _ =>
      rt ← for_each (λ p, free_value (JSObject p)) (opt_list proto) rt;
      rt ← remove_gc_object rt sh; js_free_obj rt sh
    | _ => None
    end.
Definition js_free_shape (sh : ptr) (rt : JSRuntime) : option JSRuntime := '(rt, n) ← decr rt sh; if n <=? 0 then js_free_shape0 sh rt else Some rt.
Definition free_var_ref (v : ptr) (rt : JSRuntime) : option JSRuntime :=
  h ← header rt v;
  if negb (gc_ref_count h >? 0) then None
  else
    '(rt, n) ← decr rt v;
    if n =? 0 then
      match gc_body h with
      | GcVarRef is_detached value async_func =>
        rt ← (if is_detached then free_value value rt else for_each async_func_free (opt_list async_func) rt);
        rt ← remove_gc_object rt v; js_free_obj rt v
      | _ => None
      end
    else Some rt.
Definition js_free_module_def (m : JSModuleDef) (rt : JSRuntime) : option JSRuntime :=
  rt ← for_each free_var_ref (md_export_vars m ≫= opt_list) rt; for_each free_value (md_values m) rt.
Definition JS_FreeContext (c : ptr) (rt : JSRuntime) : option JSRuntime :=
  '(rt, n) ← decr rt c;
  if n >? 0 then Some rt
  else
    h ← header rt c;
    if negb (gc_ref_count h =? 0) then None
    else
      match gc_body h with
      | GcJSContext ctx =>
        rt ← for_each js_free_module_def (cx_loaded_modules ctx) rt;
        rt ← for_each free_value (cx_values1 ctx ++ cx_native_error_proto ctx ++ cx_class_proto ctx ++ cx_values2 ctx) rt;
        rt ← for_each js_free_shape (opt_list (cx_array_shape ctx)) rt;
        rt ← remove_gc_object rt c; js_free_obj rt c
      | _ => None
      end.
Definition run_release (r : release) (rt : JSRuntime) : option JSRuntime :=
  match r with
  | FreeValue v => free_value v rt
  | FreeShape sh => js_free_shape sh rt
  | FreeVarRef v => for_each free_var_ref (opt_list v) rt
  | FreeAsyncFunc s => async_func_free s rt
  | FreeContext c => JS_FreeContext c rt
  end.

(** ** Freeing an object *)
Definition free_property (prs : JSShapeProperty) (pr : JSProperty) : option (list release) :=
  let t := prs_flags prs .& JS_PROP_TMASK in
  if negb (t =? 0) then
    if t =? JS_PROP_GETSET then
      match pr with PropGetset getter setter => Some ((λ p, FreeValue (JSObject p)) <$> (opt_list getter ++ opt_list setter)) | _ => None end
    else if t =? JS_PROP_VARREF then match pr with PropVarRef v => Some [FreeVarRef (Some v)] | _ => None end
    else if t =? JS_PROP_AUTOINIT then match pr with PropAutoinit realm => Some [FreeContext realm] | _ => None end
    else Some []
  else match pr with PropValue v => Some [FreeValue v] | _ => None end.
Fixpoint free_properties (props : list JSShapeProperty) (prop : list JSProperty) : option (list release) :=
  match props with
  | [] => Some []
  | prs :: props =>
    match prop with
    | [] => None
    | pr :: prop => l ← free_property prs pr; k ← free_properties props prop; Some (l ++ k)
    end
  end.
Definition free_values (l : list JSValue) : list release := FreeValue <$> l.
Definition js_bytecode_function_finalizer (h : gmap ptr gc_header) (home b : option ptr) (var_refs : option (list (option ptr))) : option (list release) :=
  let home := (λ p, FreeValue (JSObject p)) <$> opt_list home in
  match b with
  | None => Some home
  | Some b =>
    vars ← (match var_refs with Some l => closure_vars h b l | None => Some [] end);
    Some (home ++ (FreeVarRef <$> vars) ++ [FreeValue (JSFunctionBytecode b)])
  end.
Definition js_map_finalizer (records : list (JSValue * JSValue)) : list release :=
  records ≫= λ '(key, value), [FreeValue key; FreeValue value].
(** the finalizers of the classes *)
Definition js_array_finalizer (values : list JSValue) : list release := free_values values.
Definition js_object_data_finalizer (object_data : JSValue) : list release := [FreeValue object_data].
Definition js_c_function_finalizer (realm : option ptr) : list release := match realm with Some c => [FreeContext c] | None => [] end.
Definition js_bound_function_finalizer (func_obj this_val : JSValue) (argv : list JSValue) : list release :=
  [FreeValue func_obj; FreeValue this_val] ++ free_values argv.
Definition js_c_function_data_finalizer (data : option (list JSValue)) : list release := match data with Some l => free_values l | None => [] end.
Definition js_for_in_iterator_finalizer (obj : JSValue) : list release := [FreeValue obj].
Definition js_typed_array_finalizer (buffer : option ptr) : list release := match buffer with Some p => [FreeValue (JSObject p)] | None => [] end.
Definition js_map_iterator_finalizer (obj : option JSValue) : list release := match obj with Some v => [FreeValue v] | None => [] end.
Definition js_array_iterator_finalizer (obj : option JSValue) : list release := match obj with Some v => [FreeValue v] | None => [] end.
Definition js_regexp_string_iterator_finalizer (data : option (JSValue * JSValue)) : list release :=
  match data with Some (iterating_regexp, iterated_string) => [FreeValue iterating_regexp; FreeValue iterated_string] | None => [] end.
Definition js_generator_finalizer (data : option (bool * option ptr)) : list release :=
  match data with Some (completed, s) => if completed then [] else FreeAsyncFunc <$> opt_list s | None => [] end.
Definition js_async_function_resolve_finalizer (state : option ptr) : list release := match state with Some s => [FreeAsyncFunc s] | None => [] end.
Definition js_async_generator_free (queue : list (list JSValue)) (s : option ptr) : list release := (queue ≫= free_values) ++ (FreeAsyncFunc <$> opt_list s).
Definition js_async_generator_finalizer (data : option (list (list JSValue) * option ptr)) : list release :=
  match data with Some (queue, s) => js_async_generator_free queue s | None => [] end.
Definition js_proxy_finalizer (data : option (JSValue * JSValue)) : list release :=
  match data with Some (target, handler) => [FreeValue target; FreeValue handler] | None => [] end.
Definition js_promise_finalizer (data : option (list (list JSValue) * JSValue)) : list release :=
  match data with Some (reactions, result) => (reactions ≫= free_values) ++ [FreeValue result] | None => [] end.
Definition js_promise_resolve_function_finalizer (promise : option JSValue) : list release := match promise with Some v => [FreeValue v] | None => [] end.
Definition js_async_from_sync_iterator_finalizer (data : option (JSValue * JSValue)) : list release :=
  match data with Some (sync_iter, next_method) => [FreeValue sync_iter; FreeValue next_method] | None => [] end.
Definition class_finalizer (h : gmap ptr gc_header) (c : class_data) : option (list release) :=
  match c with
  | ClassNone => Some []
  | ClassArray values => Some (js_array_finalizer values)
  | ClassObjectData v => Some (js_object_data_finalizer v)
  | ClassCFunction realm => Some (js_c_function_finalizer realm)
  | ClassBytecodeFunction home b var_refs => js_bytecode_function_finalizer h home b var_refs
  | ClassBoundFunction func_obj this_val argv => Some (js_bound_function_finalizer func_obj this_val argv)
  | ClassCFunctionData data => Some (js_c_function_data_finalizer data)
  | ClassForInIterator obj => Some (js_for_in_iterator_finalizer obj)
  | ClassTypedArray buffer => Some (js_typed_array_finalizer buffer)
  | ClassMap records => Some (match records with Some l => js_map_finalizer l | None => [] end)
  | ClassMapIterator obj => Some (js_map_iterator_finalizer obj)
  | ClassArrayIterator obj => Some (js_array_iterator_finalizer obj)
  | ClassRegexpStringIterator data => Some (js_regexp_string_iterator_finalizer data)
  | ClassGenerator data => Some (js_generator_finalizer data)
  | ClassAsyncFunctionResolve s => Some (js_async_function_resolve_finalizer s)
  | ClassAsyncGenerator data => Some (js_async_generator_finalizer data)
  | ClassProxy data => Some (js_proxy_finalizer data)
  | ClassPromise data => Some (js_promise_finalizer data)
  | ClassPromiseResolveFunction promise => Some (js_promise_resolve_function_finalizer promise)
  | ClassAsyncFromSyncIterator data => Some (js_async_from_sync_iterator_finalizer data)
  end.
(** the object is marked, and forgets its shape, properties and class *)
Definition set_free_mark (rt : JSRuntime) (p : ptr) : option JSRuntime :=
  h ← header rt p; Some (put_header rt p (mk_header (gc_ref_count h) (gc_mark h) 1 (gc_body h))).
Definition forget_fields (rt : JSRuntime) (p : ptr) (body : gc_obj) : option JSRuntime :=
  h ← header rt p; Some (put_header rt p (mk_header (gc_ref_count h) (gc_mark h) (gc_free_mark h) body)).
Definition free_object (p : ptr) (rt : JSRuntime) : option JSRuntime :=
  rt ← set_free_mark rt p;
  match body_of (rt_heap rt) p with
  | Some (GcJSObject cls (Some sh) prop) =>
    match body_of (rt_heap rt) sh with
    | Some (GcShape _ props) =>
      l ← free_properties props prop;
      rt ← for_each run_release l rt;
      rt ← js_free_shape sh rt;
      rt ← forget_fields rt p (GcJSObject cls None []);
      l ← class_finalizer (rt_heap rt) cls;
      rt ← for_each run_release l rt;
      rt ← forget_fields rt p (GcJSObject ClassNone None []);
      free_or_keep rt p
    | _ => None
    end
  | _ => None
  end.
Definition free_function_bytecode (p : ptr) (rt : JSRuntime) : option JSRuntime :=
  match body_of (rt_heap rt) p with
  | Some (GcFunctionBytecode cpool realm _) =>
    rt ← for_each free_value cpool rt;
    rt ← for_each JS_FreeContext (opt_list realm) rt;
    free_or_keep rt p
  | _ => None
  end.
Definition async_releases (s : JSAsyncFunctionState) : option (list release) :=
  frame ← (if as_is_completed s then Some []
           else
             slots ← (if as_arg_buf s then as_slots s else Some []);
             Some (free_values slots ++ [FreeValue (as_cur_func s); FreeValue (as_this_val s)]));
  Some (frame ++ [FreeValue (as_resolving_funcs s).1; FreeValue (as_resolving_funcs s).2]).
Definition __async_func_free (p : ptr) (rt : JSRuntime) : option JSRuntime :=
  match body_of (rt_heap rt) p with
  | Some (GcAsyncFunction s) => l ← async_releases s; rt ← for_each run_release l rt; free_or_keep rt p
  | _ => None
  end.
Definition free_gc_object (p : ptr) (rt : JSRuntime) : option JSRuntime :=
  match body_of (rt_heap rt) p with
  | Some (GcJSObject _ _ _) => free_object p rt
  | Some (GcFunctionBytecode _ _ _) => free_function_bytecode p rt
  | Some (GcAsyncFunction _) => __async_func_free p rt
  | _ => None
  end.

(** ** The two users *)
Fixpoint free_zero_loop (fuel : nat) (rt : JSRuntime) : option JSRuntime :=
  el ← get_next (rt_links rt) GcZeroRefCountList;
  match el with
  | GcZeroRefCountList => Some rt
  | GcLink p =>
    match fuel with
    | O => None
    | S fuel =>
      h ← header rt p;
      if negb (gc_ref_count h =? 0) then None else rt ← free_gc_object p rt; free_zero_loop fuel rt
    end
  | _ => None
  end.
Definition free_zero_refcount (rt : JSRuntime) : option JSRuntime :=
  rt ← free_zero_loop (gc_fuel rt) (set_phase rt JS_GC_PHASE_DECREF); Some (set_phase rt JS_GC_PHASE_NONE).
(** outside of the collector *)
Definition JS_FreeValueRT (v : JSValue) (rt : JSRuntime) : option JSRuntime :=
  match v with
  | JSObject p | JSFunctionBytecode p =>
    '(rt, n) ← decr rt p;
    if n <=? 0 then rt ← queue_zero p rt; if bool_decide (gc_phase rt = JS_GC_PHASE_NONE) then free_zero_refcount rt else Some rt
    else Some rt
  | _ => free_value v rt
  end.
(** a new object, its memory being allocated, and a new reference *)
Definition add_gc_object (rt : JSRuntime) (p : ptr) : option JSRuntime := rt ← set_mark rt p 0; rt_list_add_tail rt p GcObjList.
Definition JS_DupValueRT (v : JSValue) (rt : JSRuntime) : option JSRuntime :=
  match v with
  | JSObject p | JSFunctionBytecode p => h ← header rt p; Some (put_header rt p (with_ref_count h (gc_ref_count h + 1)))
  | _ => Some rt
  end.
Definition is_value_object (o : gc_obj) : bool :=
  match o with GcJSObject _ _ _ | GcFunctionBytecode _ _ _ | GcAsyncFunction _ => true | _ => false end.
Fixpoint free_cycles_loop (fuel : nat) (rt : JSRuntime) : option JSRuntime :=
  el ← get_next (rt_links rt) TmpObjList;
  match el with
  | TmpObjList => Some rt
  | GcLink p =>
    match fuel with
    | O => None
    | S fuel =>
      h ← header rt p;
      rt ← (if is_value_object (gc_body h) then free_gc_object p rt
            else rt ← rt_list_del rt p; rt_list_add_tail rt p GcZeroRefCountList);
      free_cycles_loop fuel rt
    end
  | _ => None
  end.
(** the zombies; [list_for_each_safe] *)
Fixpoint free_zombies (fuel : nat) (el el1 : gc_node) (rt : JSRuntime) : option JSRuntime :=
  match el with
  | GcZeroRefCountList => Some rt
  | GcLink p =>
    match fuel with
    | O => None
    | S fuel =>
      h ← header rt p;
      if negb (is_value_object (gc_body h)) then None
      else rt ← js_free_obj rt p; n ← get_next (rt_links rt) el1; free_zombies fuel el1 n rt
    end
  | _ => None
  end.
Definition gc_free_cycles (rt : JSRuntime) : option JSRuntime :=
  rt ← free_cycles_loop (gc_fuel rt) (set_phase rt JS_GC_PHASE_REMOVE_CYCLES);
  let rt := set_phase rt JS_GC_PHASE_NONE in
  el ← get_next (rt_links rt) GcZeroRefCountList; el1 ← get_next (rt_links rt) el;
  rt ← free_zombies (gc_fuel rt) el el1 rt;
  m ← init_list_head (rt_links rt) GcZeroRefCountList; Some (set_links rt m).
Definition JS_RunGC (rt : JSRuntime) : option JSRuntime :=
  rt ← gc_decref rt; rt ← gc_scan rt; gc_free_cycles rt.
