(* ===== verification/GcMark.v ===== *)
(** * The marking phases of the collector (js/quickjs.c)

    What [gc_decref] and [gc_scan] compute: the counts without the references
    between objects, then the objects that the others reach.  The heap of a
    phase is the initial one under new counts and marks, [overlay], so that
    what the objects refer to is fixed. *)
From stdpp Require Import gmap.
From S2P Require Import Prelude DList GcHeap Gc.

(** ** Occurrences *)
Fixpoint cnt (p : ptr) (l : list ptr) : Z :=
  match l with [] => 0 | x :: l => (if decide (x = p) then 1 else 0) + cnt p l end.
Lemma cnt_app p l1 l2 : cnt p (l1 ++ l2) = cnt p l1 + cnt p l2.
Proof. induction l1 as [|x l1 IH]; cbn; [done|]. rewrite IH. lia. Qed.
Lemma cnt_nonneg p l : 0 <= cnt p l.
Proof. induction l as [|x l IH]; cbn; [lia|]. case_decide; lia. Qed.
Lemma cnt_pos p l : p ∈ l ↔ 0 < cnt p l.
Proof.
  induction l as [|x l IH]; cbn; [split; [by intros ?%not_elem_of_nil|lia]|]. rewrite elem_of_cons, IH. pose proof (cnt_nonneg p l).
  case_decide; split; intros; [lia|left; congruence|naive_solver lia|right; lia].
Qed.
Lemma cnt_zero p l : p ∉ l → cnt p l = 0.
Proof. rewrite cnt_pos. pose proof (cnt_nonneg p l). lia. Qed.
#[export] Instance cnt_perm p : Proper ((≡ₚ) ==> (=)) (cnt p).
Proof. induction 1 as [|x l1 l2 _ IH|x y l|l1 l2 l3 _ IH1 _ IH2]; cbn; lia. Qed.
#[export] Instance bind_list_perm (f : ptr → list ptr) : Proper ((≡ₚ) ==> (≡ₚ)) (mbind (M := list) f).
Proof. intros l1 l2 E. by apply bind_Permutation. Qed.
Lemma bind_ext_in (f g : ptr → list ptr) l : (∀ x, x ∈ l → f x = g x) → l ≫= f = l ≫= g.
Proof. induction l as [|x l IH]; intros E; [done|]. rewrite !bind_cons, IH by set_solver. f_equal. apply E. set_solver. Qed.
Lemma bind_snoc (f : ptr → list ptr) l p : (l ++ [p]) ≫= f = (l ≫= f) ++ f p.
Proof. rewrite bind_app. cbn. by rewrite app_nil_r. Qed.

(** ** The objects do not change what they refer to *)
Lemma children_bodies h h' p : (∀ q, body_of h' q = body_of h q) → children h' p = children h p.
Proof.
  intros E. assert (∀ b l, closure_vars h' b l = closure_vars h b l) as Ec by (intros b l; unfold closure_vars; by rewrite E).
  unfold children. rewrite E. destruct (body_of h p) as [[cls sh prop| | | | |]|]; try done. destruct sh as [sh|]; [|done]. cbn [mbind option_bind]. rewrite E.
  destruct (body_of h sh) as [[| |proto props| | |]|]; try done. destruct (mark_properties props prop); [|done]. cbn [mbind option_bind].
  replace (class_mark h' cls) with (class_mark h cls); [done|]. destruct cls as [| | | |home b vars| | | | | | | | | | | | | | |]; try done. cbn. unfold js_bytecode_function_mark.
  destruct b as [b|]; [|done]. destruct vars as [vars|]; [|done]. by rewrite Ec.
Qed.

(** ** The lists *)
Definition gc_lists (G T Z : list ptr) : gmap gc_node (list gc_node) :=
  <[GcObjList := GcLink <$> G]> (<[TmpObjList := GcLink <$> T]> (<[GcZeroRefCountList := GcLink <$> Z]> ∅)).
Lemma gc_lists_obj G T Z : gc_lists G T Z !! GcObjList = Some (GcLink <$> G).
Proof. done. Qed.
Lemma gc_lists_tmp G T Z : gc_lists G T Z !! TmpObjList = Some (GcLink <$> T).
Proof. done. Qed.
Lemma gc_lists_zero G T Z : gc_lists G T Z !! GcZeroRefCountList = Some (GcLink <$> Z).
Proof. done. Qed.
Lemma gc_lists_set_obj G T Z G' : <[GcObjList := GcLink <$> G']> (gc_lists G T Z) = gc_lists G' T Z.
Proof. unfold gc_lists. by rewrite insert_insert_eq. Qed.
Lemma gc_lists_set_tmp G T Z T' : <[TmpObjList := GcLink <$> T']> (gc_lists G T Z) = gc_lists G T' Z.
Proof. unfold gc_lists. rewrite insert_insert_ne by done. by rewrite insert_insert_eq. Qed.
Lemma gc_lists_set_zero G T Z Z' : <[GcZeroRefCountList := GcLink <$> Z']> (gc_lists G T Z) = gc_lists G T Z'.
Proof. unfold gc_lists. rewrite insert_insert_ne by done. rewrite (insert_insert_ne _ GcZeroRefCountList TmpObjList) by done. by rewrite insert_insert_eq. Qed.
Create HintDb gclists.
#[export] Hint Rewrite gc_lists_set_obj gc_lists_set_tmp gc_lists_set_zero gc_lists_obj gc_lists_tmp gc_lists_zero : gclists.

Lemma links_nodup (h : gc_node) l : NoDup (h :: (GcLink <$> l)) → NoDup l.
Proof. intros [_ Hn]%NoDup_cons. by apply NoDup_fmap_1 in Hn. Qed.
Lemma rings_nodup m F h l : dlists m F → F !! h = Some (GcLink <$> l) → NoDup l.
Proof. intros D E. eapply links_nodup, (dl_nodup _ _ D), E. Qed.
Lemma rings_disjoint m F h1 h2 l1 l2 : dlists m F → F !! h1 = Some (GcLink <$> l1) → F !! h2 = Some (GcLink <$> l2) → h1 ≠ h2 → ∀ x : ptr, x ∈ l1 → x ∉ l2.
Proof. intros D E1 E2 Hne x H1 H2. apply (dl_disjoint _ _ D _ _ _ _ E1 E2 Hne (GcLink x)); apply elem_of_cons; right; by apply list_elem_of_fmap_2. Qed.
Lemma lists_nodup m G T Z : dlists m (gc_lists G T Z) → NoDup (G ++ T ++ Z).
Proof.
  intros D. pose proof (rings_nodup _ _ _ _ D (gc_lists_obj G T Z)). pose proof (rings_nodup _ _ _ _ D (gc_lists_tmp G T Z)). pose proof (rings_nodup _ _ _ _ D (gc_lists_zero G T Z)).
  pose proof (rings_disjoint _ _ _ _ _ _ D (gc_lists_obj G T Z) (gc_lists_tmp G T Z) ltac:(done)). pose proof (rings_disjoint _ _ _ _ _ _ D (gc_lists_obj G T Z) (gc_lists_zero G T Z) ltac:(done)).
  pose proof (rings_disjoint _ _ _ _ _ _ D (gc_lists_tmp G T Z) (gc_lists_zero G T Z) ltac:(done)).
  rewrite !NoDup_app. split; [done|]. split; [|done]. intros x Hx. rewrite elem_of_app. naive_solver.
Qed.
Lemma fmap_split (l1 l2 : list ptr) x : GcLink <$> (l1 ++ x :: l2) = (GcLink <$> l1) ++ GcLink x :: (GcLink <$> l2).
Proof. by rewrite fmap_app. Qed.
Lemma hd_fmap (h : gc_node) x (l : list ptr) : hd h (GcLink <$> x :: l) = GcLink x.
Proof. done. Qed.

(** a node goes to the end of a list *)
Lemma move_tail rt F h g l1 x l2 l3 :
  dlists (rt_links rt) F → F !! h = Some (GcLink <$> l1 ++ x :: l2) → <[h := GcLink <$> l1 ++ l2]> F !! g = Some (GcLink <$> l3) →
  ∃ rt', (rt ← rt_list_del rt x; rt_list_add_tail rt x g) = Some rt' ∧ rt_heap rt' = rt_heap rt ∧ gc_phase rt' = gc_phase rt ∧
    dlists (rt_links rt') (<[g := GcLink <$> l3 ++ [x]]> (<[h := GcLink <$> l1 ++ l2]> F)).
Proof.
  intros D Eh Eg. rewrite fmap_split in Eh. rewrite fmap_app in Eg.
  destruct (dlists_move_tail _ _ _ _ _ _ _ _ D Eh Eg) as (m1 & m2 & E1 & E2 & _ & D'). unfold rt_list_del, rt_list_add_tail. rewrite E1. cbn [mbind option_bind rt_links set_links]. rewrite E2. cbn [mbind option_bind].
  eexists. split; [done|]. split; [done|]. split; [done|]. cbn. by rewrite !fmap_app.
Qed.
Lemma move_obj_tmp rt G1 x G2 T Z :
  dlists (rt_links rt) (gc_lists (G1 ++ x :: G2) T Z) →
  ∃ rt', (rt ← rt_list_del rt x; rt_list_add_tail rt x TmpObjList) = Some rt' ∧ rt_heap rt' = rt_heap rt ∧ gc_phase rt' = gc_phase rt ∧ dlists (rt_links rt') (gc_lists (G1 ++ G2) (T ++ [x]) Z).
Proof.
  intros D. destruct (move_tail rt _ GcObjList TmpObjList G1 x G2 T D) as (rt' & ? & ? & ? & D'); [done|by autorewrite with gclists|]. autorewrite with gclists in D'. by exists rt'.
Qed.
Lemma move_tmp_obj rt G T1 x T2 Z :
  dlists (rt_links rt) (gc_lists G (T1 ++ x :: T2) Z) →
  ∃ rt', (rt ← rt_list_del rt x; rt_list_add_tail rt x GcObjList) = Some rt' ∧ rt_heap rt' = rt_heap rt ∧ gc_phase rt' = gc_phase rt ∧ dlists (rt_links rt') (gc_lists (G ++ [x]) (T1 ++ T2) Z).
Proof.
  intros D. destruct (move_tail rt _ TmpObjList GcObjList T1 x T2 G D) as (rt' & ? & ? & ? & D'); [done|by autorewrite with gclists|]. autorewrite with gclists in D'. by exists rt'.
Qed.
Lemma move_tmp_zero rt G T1 x T2 Z :
  dlists (rt_links rt) (gc_lists G (T1 ++ x :: T2) Z) →
  ∃ rt', (rt ← rt_list_del rt x; rt_list_add_tail rt x GcZeroRefCountList) = Some rt' ∧ rt_heap rt' = rt_heap rt ∧ gc_phase rt' = gc_phase rt ∧ dlists (rt_links rt') (gc_lists G (T1 ++ T2) (Z ++ [x])).
Proof.
  intros D. destruct (move_tail rt _ TmpObjList GcZeroRefCountList T1 x T2 Z D) as (rt' & ? & ? & ? & D'); [done|by autorewrite with gclists|]. autorewrite with gclists in D'. by exists rt'.
Qed.
Lemma next_obj m G1 x G2 T Z : dlists m (gc_lists (G1 ++ x :: G2) T Z) → get_next m (GcLink x) = Some (hd GcObjList (GcLink <$> G2)).
Proof. intros D. apply (dlists_next m _ GcObjList (GcLink <$> G1)) with (2 := eq_trans (gc_lists_obj _ T Z) (f_equal Some (fmap_split _ _ _))). done. Qed.
Lemma next_tmp m G T1 x T2 Z : dlists m (gc_lists G (T1 ++ x :: T2) Z) → get_next m (GcLink x) = Some (hd TmpObjList (GcLink <$> T2)).
Proof. intros D. apply (dlists_next m _ TmpObjList (GcLink <$> T1)) with (2 := eq_trans (gc_lists_tmp G _ Z) (f_equal Some (fmap_split _ _ _))). done. Qed.
Lemma next_zero m G T Z1 x Z2 : dlists m (gc_lists G T (Z1 ++ x :: Z2)) → get_next m (GcLink x) = Some (hd GcZeroRefCountList (GcLink <$> Z2)).
Proof. intros D. apply (dlists_next m _ GcZeroRefCountList (GcLink <$> Z1)) with (2 := eq_trans (gc_lists_zero G T _) (f_equal Some (fmap_split _ _ _))). done. Qed.

(** the lists when the collector does not run *)
Definition count_lists (G Z : list ptr) : gmap gc_node (list gc_node) := <[GcObjList := GcLink <$> G]> (<[GcZeroRefCountList := GcLink <$> Z]> ∅).
Lemma count_lists_obj G Z : count_lists G Z !! GcObjList = Some (GcLink <$> G).
Proof. done. Qed.
Lemma count_lists_zero G Z : count_lists G Z !! GcZeroRefCountList = Some (GcLink <$> Z).
Proof. done. Qed.
Lemma count_lists_set_obj G Z G' : <[GcObjList := GcLink <$> G']> (count_lists G Z) = count_lists G' Z.
Proof. unfold count_lists. by rewrite insert_insert_eq. Qed.
Lemma count_lists_set_zero G Z Z' : <[GcZeroRefCountList := GcLink <$> Z']> (count_lists G Z) = count_lists G Z'.
Proof. unfold count_lists. rewrite insert_insert_ne by done. by rewrite insert_insert_eq. Qed.
#[export] Hint Rewrite count_lists_set_obj count_lists_set_zero count_lists_obj count_lists_zero : gclists.
Lemma count_lists_nodup m G Z : dlists m (count_lists G Z) → NoDup (G ++ Z).
Proof.
  intros D. rewrite NoDup_app. split; [by apply (rings_nodup _ _ _ _ D (count_lists_obj G Z))|]. split; [|by apply (rings_nodup _ _ _ _ D (count_lists_zero G Z))].
  by apply (rings_disjoint _ _ _ _ _ _ D (count_lists_obj G Z) (count_lists_zero G Z)).
Qed.

Section Marking.
Context (h0 : gmap ptr gc_header) (L0 : list ptr) (ext : ptr → Z).
Definition kids (p : ptr) : list ptr := default [] (children h0 p).
Definition rc (p : ptr) : Z := ext p + cnt p (L0 ≫= kids).
(** the objects, what they refer to, and the references that come from elsewhere *)
Record heap_ok : Prop := {
  ho_dom : ∀ p, p ∈ L0 ↔ is_Some (h0 !! p);
  ho_kids : ∀ p, p ∈ L0 → ∃ l, children h0 p = Some l ∧ ∀ q, q ∈ l → q ∈ L0;
  ho_count : ∀ p hd, h0 !! p = Some hd → gc_ref_count hd = rc p ∧ gc_mark hd = 0;
  ho_pos : ∀ p, p ∈ L0 → 0 < rc p;
  ho_ext : ∀ p, 0 <= ext p
}.
(** the objects that the outside refers to, and those that they reach *)
Inductive reach : ptr → Prop :=
  | reach_root p : p ∈ L0 → 0 < ext p → reach p
  | reach_step p q : reach p → q ∈ kids p → reach q.

(** the initial heap under the counts [c] and the marks [m] *)
Definition overlay (h : gmap ptr gc_header) (c m : ptr → Z) : Prop :=
  ∀ p, h !! p = (λ hd, mk_header (c p) (m p) (gc_free_mark hd) (gc_body hd)) <$> h0 !! p.
Lemma overlay_children h c m p : overlay h c m → children h p = children h0 p.
Proof. intros Ho. apply children_bodies. intros q. unfold body_of. rewrite Ho. by destruct (h0 !! q). Qed.
Lemma overlay_ext h c m c' m' : overlay h c m → (∀ p, p ∈ dom h0 → c p = c' p ∧ m p = m' p) → overlay h c' m'.
Proof.
  intros Ho E p. rewrite Ho. destruct (h0 !! p) as [hd|] eqn:Ep; [|done]. cbn. destruct (E p) as [-> ->]; [|done]. by eapply elem_of_dom_2.
Qed.
Lemma overlay_count h c m p hd n : overlay h c m → h !! p = Some hd → overlay (<[p := with_ref_count hd n]> h) (λ q, if decide (q = p) then n else c q) m.
Proof.
  intros Ho E q. destruct (decide (p = q)) as [<-|Hne].
  - rewrite lookup_insert_eq. rewrite Ho in E. destruct (h0 !! p) as [hd0|]; [|done]. cbn in *. injection E as <-. by rewrite decide_True.
  - rewrite lookup_insert_ne by done. rewrite Ho. destruct (h0 !! q); [|done]. cbn. by rewrite decide_False by congruence.
Qed.
Lemma overlay_mark h c m p hd n : overlay h c m → h !! p = Some hd → overlay (<[p := with_mark hd n]> h) c (λ q, if decide (q = p) then n else m q).
Proof.
  intros Ho E q. destruct (decide (p = q)) as [<-|Hne].
  - rewrite lookup_insert_eq. rewrite Ho in E. destruct (h0 !! p) as [hd0|]; [|done]. cbn in *. injection E as <-. by rewrite decide_True.
  - rewrite lookup_insert_ne by done. rewrite Ho. destruct (h0 !! q); [|done]. cbn. by rewrite decide_False by congruence.
Qed.

Hypothesis Hok : heap_ok.
Lemma overlay_lookup h c m p : overlay h c m → p ∈ L0 → ∃ hd, h !! p = Some hd ∧ gc_ref_count hd = c p ∧ gc_mark hd = m p.
Proof. intros Ho Hp. apply (ho_dom Hok) in Hp as [hd E]. eexists. rewrite Ho, E. cbn. done. Qed.
Lemma overlay_kids h c m p : overlay h c m → p ∈ L0 → children h p = Some (kids p) ∧ ∀ q, q ∈ kids p → q ∈ L0.
Proof. intros Ho Hp. rewrite (overlay_children _ _ _ _ Ho). destruct (ho_kids Hok p Hp) as (l & E & Hl). unfold kids. rewrite E. done. Qed.
Lemma overlay_init : overlay h0 rc (λ _, 0).
Proof. intros p. destruct (h0 !! p) as [hd|] eqn:E; [|done]. destruct (ho_count Hok _ _ E) as [<- <-]. cbn. by destruct hd. Qed.

(** *** [gc_decref] *)
(** [P]: the objects that are done, [K] and [T] those of them with a count and without; [taken]: the references that the counts lack *)
Record decref_inv (rt : JSRuntime) (P K R T taken : list ptr) : Prop := {
  di_lists : dlists (rt_links rt) (gc_lists (K ++ R) T []);
  di_heap : overlay (rt_heap rt) (λ p, rc p - cnt p taken) (λ p, if decide (p ∈ P) then 1 else 0);
  di_all : L0 = P ++ R;
  di_part : K ++ T ≡ₚ P;
  di_keep : ∀ p, p ∈ K → cnt p taken < rc p;
  di_zero : ∀ p, p ∈ T → rc p = cnt p taken;
  di_phase : gc_phase rt = JS_GC_PHASE_NONE
}.
Lemma gc_decref_child_inv rt P K R T taken x :
  decref_inv rt P K R T taken → NoDup L0 → x ∈ L0 → cnt x taken < rc x →
  ∃ rt' K' T', gc_decref_child x rt = Some rt' ∧ decref_inv rt' P K' R T' (taken ++ [x]).
Proof.
  intros [Dl Dh Da Dp Dk Dz Dph] Hnd Hx Hc. destruct (overlay_lookup _ _ _ x Dh Hx) as (hd & E & Ec & Em).
  pose proof (overlay_count _ _ _ x hd (gc_ref_count hd - 1) Dh E) as Dh'. unfold gc_decref_child, header. rewrite E. cbn [mbind option_bind].
  replace (gc_ref_count hd >? 0) with true by lia. cbn [negb]. assert (∀ p, cnt p (taken ++ [x]) = cnt p taken + if decide (x = p) then 1 else 0) as Ct by (intros p; rewrite cnt_app; cbn; lia).
  assert (overlay (<[x := with_ref_count hd (gc_ref_count hd - 1)]> (rt_heap rt)) (λ p, rc p - cnt p (taken ++ [x])) (λ p, if decide (p ∈ P) then 1 else 0)) as Dh2.
  { eapply overlay_ext; [exact Dh'|]. intros p _. cbn beta. split; [|done]. rewrite Ct. repeat case_decide; subst; try congruence; lia. }
  assert (∀ p, p ∈ T → x ≠ p) as Hxt by (intros p Hp <-; specialize (Dz _ Hp); lia).
  destruct ((gc_ref_count hd - 1 =? 0) && (gc_mark hd =? 1)) eqn:Eb.
  - apply andb_true_iff in Eb as [E1 E2]. rewrite Em in E2. case_decide as HxP; [|lia]. rewrite <- Dp, elem_of_app in HxP. destruct HxP as [HxK|HxT]; [|by apply Hxt in HxT].
    apply list_elem_of_split in HxK as (K1 & K2 & ->). rewrite <- app_assoc in Dl. cbn [app] in Dl.
    destruct (move_obj_tmp (put_header rt x (with_ref_count hd (gc_ref_count hd - 1))) K1 x (K2 ++ R) T [] Dl) as (rt' & -> & Eh & Ep & Dl').
    exists rt', (K1 ++ K2), (T ++ [x]). split; [done|]. rewrite app_assoc in Dl'. split; try done; [by rewrite Eh| | | |by rewrite Ep].
    + rewrite <- Dp. solve_Permutation.
    + intros p Hp. rewrite Ct. assert (x ≠ p) as Hpx; [|rewrite decide_False by done; apply Dk in Hp || (assert (p ∈ K1 ++ x :: K2) as Hp' by set_solver; apply Dk in Hp'); lia].
      intros <-. assert (NoDup (K1 ++ x :: K2 ++ T)) as Hn; [|apply NoDup_app in Hn as (_ & N1 & [N2 _]%NoDup_cons); set_solver].
      rewrite Da in Hnd. apply NoDup_app in Hnd as [Hnd _]. rewrite <- Dp in Hnd. by rewrite <- app_assoc in Hnd.
    + intros p [Hp| ->%list_elem_of_singleton]%elem_of_app; rewrite Ct; [rewrite decide_False by (by apply Hxt)|rewrite decide_True by done]; [specialize (Dz p Hp)|]; lia.
  - exists (put_header rt x (with_ref_count hd (gc_ref_count hd - 1))), K, T. split; [done|]. split; try done.
    + intros p Hp. rewrite Ct. destruct (decide (x = p)) as [<-|]; [|specialize (Dk p Hp); lia]. apply andb_false_iff in Eb as [E1|E1]; [lia|]. rewrite Em, decide_True in E1; [done|]. rewrite <- Dp. set_solver.
    + intros p Hp. rewrite Ct, decide_False by (by apply Hxt). specialize (Dz p Hp). lia.
Qed.
Lemma gc_decref_children rt P K R T taken l :
  decref_inv rt P K R T taken → NoDup L0 → (∀ q, q ∈ l → q ∈ L0) → (∀ q, q ∈ L0 → cnt q taken + cnt q l <= rc q) →
  ∃ rt' K' T', for_each gc_decref_child l rt = Some rt' ∧ decref_inv rt' P K' R T' (taken ++ l).
Proof.
  intros Di Hnd. revert rt K T taken Di. induction l as [|x l IH]; intros rt K T taken Di Hl Hc; [exists rt, K, T; by rewrite app_nil_r|].
  destruct (gc_decref_child_inv rt P K R T taken x Di Hnd) as (rt1 & K1 & T1 & E1 & D1); [set_solver| |].
  { specialize (Hc x ltac:(set_solver)). cbn in Hc. rewrite decide_True in Hc by done. pose proof (cnt_nonneg x l). lia. }
  destruct (IH rt1 K1 T1 (taken ++ [x]) D1) as (rt2 & K2 & T2 & E2 & D2); [set_solver| |].
  { intros q Hq. specialize (Hc q Hq). rewrite cnt_app. cbn in *. lia. }
  exists rt2, K2, T2. cbn. rewrite E1. split; [done|]. by rewrite <- app_assoc in D2.
Qed.

Lemma set_mark_overlay rt c m p n : overlay (rt_heap rt) c m → p ∈ L0 →
  ∃ rt', set_mark rt p n = Some rt' ∧ rt_links rt' = rt_links rt ∧ gc_phase rt' = gc_phase rt ∧ overlay (rt_heap rt') c (λ q, if decide (q = p) then n else m q).
Proof.
  intros Ho Hp. destruct (overlay_lookup _ _ _ p Ho Hp) as (hd & E & _). unfold set_mark, header. rewrite E. eexists. split; [done|]. split; [done|]. split; [done|]. by apply overlay_mark.
Qed.
(** one object of the list *)
Definition gc_decref_body (p : ptr) (rt : JSRuntime) : option JSRuntime :=
  rt ← mark_children gc_decref_child p rt;
  rt ← set_mark rt p 1;
  h ← header rt p;
  if gc_ref_count h =? 0 then rt ← rt_list_del rt p; rt_list_add_tail rt p TmpObjList else Some rt.
Lemma gc_decref_body_inv rt P K p R T :
  decref_inv rt P K (p :: R) T (P ≫= kids) → NoDup L0 →
  ∃ rt' K' T', gc_decref_body p rt = Some rt' ∧ decref_inv rt' (P ++ [p]) K' R T' ((P ++ [p]) ≫= kids).
Proof.
  intros Di Hnd. pose proof (di_all _ _ _ _ _ _ Di) as Da. assert (p ∈ L0) as Hp by (rewrite Da; set_solver).
  destruct (overlay_kids _ _ _ p (di_heap _ _ _ _ _ _ Di) Hp) as [Ek Hk]. unfold gc_decref_body, mark_children. rewrite Ek. cbn [mbind option_bind].
  assert (∀ q, cnt q ((P ++ [p]) ≫= kids) <= rc q) as Hle.
  { intros q. unfold rc. rewrite Da. rewrite bind_snoc, bind_app, bind_cons, !cnt_app. pose proof (cnt_nonneg q (R ≫= kids)). pose proof (ho_ext Hok q). lia. }
  destruct (gc_decref_children rt P K (p :: R) T (P ≫= kids) (kids p) Di Hnd Hk) as (rt1 & K1 & T1 & E1 & D1).
  { intros q _. specialize (Hle q). by rewrite bind_snoc, cnt_app in Hle. }
  rewrite E1. cbn [mbind option_bind]. rewrite <- bind_snoc in D1.
  set (taken := (P ++ [p]) ≫= kids) in *. destruct D1 as [Dl Dh _ Dp Dk Dz Dph].
  destruct (set_mark_overlay _ _ _ p 1 Dh Hp) as (rt2 & -> & El & Ep & Dh2). cbn [mbind option_bind]. rewrite <- El in Dl. rewrite Dph in Ep.
  assert (overlay (rt_heap rt2) (λ q, rc q - cnt q taken) (λ q, if decide (q ∈ P ++ [p]) then 1 else 0)) as Dh3.
  { eapply overlay_ext; [exact Dh2|]. intros q _. cbn beta. split; [done|]. destruct (decide (q = p)) as [->|]; [by rewrite decide_True by set_solver|]. by apply decide_ext; set_solver. }
  destruct (overlay_lookup _ _ _ p Dh3 Hp) as (hd & E & Ec & _). unfold header. rewrite E. cbn [mbind option_bind]. rewrite Da in Hnd.
  assert (p ∉ K1 ++ T1) as Hpn by (rewrite Dp; apply NoDup_app in Hnd as (_ & N & _); intros Hin; apply (N p Hin); set_solver).
  destruct (Z.eqb_spec (gc_ref_count hd) 0) as [Ez|Ez].
  - destruct (move_obj_tmp rt2 K1 p R T1 [] Dl) as (rt3 & -> & Eh & Ep3 & Dl3). exists rt3, K1, (T1 ++ [p]). split; [done|]. split; try done; [by rewrite Eh|by rewrite <- app_assoc|by rewrite app_assoc, Dp| |by rewrite Ep3].
    intros q [Hq| ->%list_elem_of_singleton]%elem_of_app; [by apply Dz|lia].
  - exists rt2, (K1 ++ [p]), T1. split; [done|]. split; try done; [by rewrite <- app_assoc|by rewrite <- app_assoc|rewrite <- Dp; solve_Permutation|].
    intros q [Hq| ->%list_elem_of_singleton]%elem_of_app; [by apply Dk|]. specialize (Hle p). lia.
Qed.
Lemma gc_decref_loop_inv fuel el1 rt P K R T :
  decref_inv rt P K R T (P ≫= kids) → NoDup L0 → (length R <= fuel)%nat → (R ≠ [] → el1 = hd GcObjList (GcLink <$> tail R)) →
  ∃ rt' K' T', gc_decref_loop fuel (hd GcObjList (GcLink <$> R)) el1 rt = Some rt' ∧ decref_inv rt' L0 K' [] T' (L0 ≫= kids).
Proof.
  revert fuel el1 rt P K T. induction R as [|p R IH]; intros fuel el1 rt P K T Di Hnd Hf Hel.
  - exists rt, K, T. assert (P = L0) as -> by (rewrite (di_all _ _ _ _ _ _ Di); by rewrite app_nil_r). by destruct fuel.
  - destruct fuel as [|fuel]; [cbn in Hf; lia|]. assert (p ∈ L0) as Hp by (rewrite (di_all _ _ _ _ _ _ Di); set_solver). rewrite Hel by done.
    destruct (overlay_lookup _ _ _ p (di_heap _ _ _ _ _ _ Di) Hp) as (hd0 & E & _ & Em).
    assert (p ∉ P) as HpP by (rewrite (di_all _ _ _ _ _ _ Di) in Hnd; apply NoDup_app in Hnd as (_ & N & _); intros Hin; apply (N p Hin); set_solver).
    rewrite decide_False in Em by done. destruct (gc_decref_body_inv _ _ _ _ _ _ Di Hnd) as (rt1 & K1 & T1 & E1 & D1).
    cbn [gc_decref_loop hd fmap list_fmap tail]. change (header rt p) with (rt_heap rt !! p). rewrite E. cbn [mbind option_bind]. rewrite Em. cbn [Z.eqb negb].
    unfold gc_decref_body in E1. destruct (mark_children gc_decref_child p rt) as [rta|]; [|done]. cbn [mbind option_bind] in *. destruct (set_mark rta p 1) as [rtb|]; [|done]. cbn [mbind option_bind] in *.
    destruct (header rtb p) as [hd1|]; [|done]. cbn [mbind option_bind] in *. rewrite E1. cbn [mbind option_bind]. pose proof (di_lists _ _ _ _ _ _ D1) as Dl.
    destruct R as [|q R]; cbn [fmap list_fmap hd].
    + rewrite (dlists_first _ _ _ _ Dl (gc_lists_obj _ _ _)). cbn [mbind option_bind]. by apply (IH fuel _ _ _ _ _ D1 Hnd); [cbn; lia|].
    + rewrite (next_obj _ _ _ _ _ _ Dl). cbn [mbind option_bind]. apply (IH fuel _ _ _ _ _ D1 Hnd); [cbn in *; lia|done].
Qed.

(** the collector is not running *)
Record gc_ready (rt : JSRuntime) : Prop := {
  gr_heap : rt_heap rt = h0;
  gr_lists : dlists (rt_links rt) (count_lists L0 []);
  gr_tmp : TmpObjList ∈ dom (rt_links rt);
  gr_phase : gc_phase rt = JS_GC_PHASE_NONE
}.
Lemma ready_nodup rt : gc_ready rt → NoDup L0.
Proof. intros [_ D _ _]. apply count_lists_nodup in D. by rewrite app_nil_r in D. Qed.
Lemma overlay_size h c m : overlay h c m → NoDup L0 → size h = length L0.
Proof.
  intros Ho Hnd. rewrite <- size_dom. replace (dom h) with (list_to_set L0 : gset ptr); [by rewrite size_list_to_set|].
  apply set_eq. intros p. rewrite elem_of_list_to_set, elem_of_dom, Ho, (ho_dom Hok), fmap_is_Some. done.
Qed.
(** after [gc_decref] the counts are the references from elsewhere *)
Lemma gc_decref_spec rt : gc_ready rt →
  ∃ rt' K T, gc_decref rt = Some rt' ∧ dlists (rt_links rt') (gc_lists K T []) ∧ K ++ T ≡ₚ L0 ∧ gc_phase rt' = JS_GC_PHASE_NONE ∧
    overlay (rt_heap rt') ext (λ _, 1) ∧ (∀ p, p ∈ K → 0 < ext p) ∧ (∀ p, p ∈ T → ext p = 0).
Proof.
  intros Hr. pose proof (ready_nodup _ Hr) as Hnd. destruct Hr as [Eh Dl Ht Hph]. unfold gc_decref.
  destruct (dlists_init (rt_links rt) _ TmpObjList Dl) as (m & -> & _ & Dl'); [done| |done|].
  { intros h l E Hin. unfold count_lists in E. apply lookup_insert_Some in E as [[<- <-]|[_ E]]; [|apply lookup_insert_Some in E as [[<- <-]|[_ E]]; [by apply list_elem_of_singleton in Hin|done]].
    apply elem_of_cons in Hin as [?|(q & ? & _)%list_elem_of_fmap]; done. }
  cbn [mbind option_bind]. unfold count_lists in Dl'. rewrite insert_insert_ne in Dl' by done. change (dlists m (gc_lists L0 [] [])) in Dl'. rewrite (dlists_first _ _ _ _ Dl' (gc_lists_obj _ _ _)). cbn [mbind option_bind].
  assert (decref_inv (set_links rt m) [] [] L0 [] []) as Di.
  { split; cbn; try done; [|set_solver|set_solver]. rewrite Eh. eapply overlay_ext; [apply overlay_init|]. intros p _. split; [cbn; lia|]. by rewrite decide_False by set_solver. }
  assert (length L0 <= gc_fuel (set_links rt m))%nat as Hf by (unfold gc_fuel; cbn; rewrite Eh, (overlay_size _ _ _ overlay_init Hnd); lia).
  assert (∃ el1, get_next m (hd GcObjList (GcLink <$> L0)) = Some el1 ∧ (L0 ≠ [] → el1 = hd GcObjList (GcLink <$> tail L0))) as (el1 & -> & Hel).
  { destruct L0 as [|x R] eqn:EL; cbn [fmap list_fmap hd tail]; [exists GcObjList; split; [by apply (dlists_first _ _ _ _ Dl' (gc_lists_obj [] _ _))|done]|].
    eexists. split; [by apply (next_obj _ [] _ _ _ _ Dl')|done]. }
  cbn [mbind option_bind]. destruct (gc_decref_loop_inv _ el1 _ [] [] L0 [] Di Hnd Hf Hel) as (rt' & K & T & E & [Dl2 Dh2 _ Dp2 Dk2 Dz2 Dph2]).
  exists rt', K, T. split; [done|]. rewrite app_nil_r in Dl2. split; [done|]. split; [done|]. split; [done|]. unfold rc in *.
  split; [eapply overlay_ext; [exact Dh2|]; intros p Hp; cbn beta; split; [lia|]; rewrite decide_True; [done|apply (ho_dom Hok); by apply elem_of_dom]|].
  split; intros p Hp; [specialize (Dk2 p Hp)|specialize (Dz2 p Hp)]; lia.
Qed.

(** *** [gc_scan] *)
(** [S]: the objects that are done, [R]: those to do, [T]: those that nothing reaches so far *)
Record scan_inv (rt : JSRuntime) (S R T given : list ptr) (m : ptr → Z) : Prop := {
  si_lists : dlists (rt_links rt) (gc_lists (S ++ R) T []);
  si_heap : overlay (rt_heap rt) (λ p, ext p + cnt p given) m;
  si_done : ∀ p, p ∈ S → m p = 0;
  si_todo : ∀ p, p ∈ T → m p = 1;
  si_all : S ++ R ++ T ≡ₚ L0;
  si_reach : ∀ p, p ∈ S ++ R → reach p;
  si_keep : ∀ p, p ∈ S ++ R → 0 < ext p + cnt p given;
  si_zero : ∀ p, p ∈ T → ext p + cnt p given = 0;
  si_phase : gc_phase rt = JS_GC_PHASE_NONE
}.
Lemma gc_scan_incref_child_inv rt S R T given m x :
  scan_inv rt S R T given m → NoDup L0 → reach x → x ∈ L0 →
  ∃ rt' R' T' m', gc_scan_incref_child x rt = Some rt' ∧ scan_inv rt' S R' T' (given ++ [x]) m'.
Proof.
  intros [Dl Dh Dd Dt Da Dr Dk Dz Dph] Hnd Hre Hx. destruct (overlay_lookup _ _ _ x Dh Hx) as (hd & E & Ec & Em).
  pose proof (overlay_count _ _ _ x hd (gc_ref_count hd + 1) Dh E) as Dh'. unfold gc_scan_incref_child, header. rewrite E. cbn [mbind option_bind].
  assert (∀ p, cnt p (given ++ [x]) = cnt p given + if decide (x = p) then 1 else 0) as Ct by (intros p; rewrite cnt_app; cbn; lia).
  assert (overlay (<[x := with_ref_count hd (gc_ref_count hd + 1)]> (rt_heap rt)) (λ p, ext p + cnt p (given ++ [x])) m) as Dh2.
  { eapply overlay_ext; [exact Dh'|]. intros p _. cbn beta. split; [|done]. rewrite Ct. repeat case_decide; subst; try congruence; lia. }
  assert (∀ p, 0 <= cnt p given) as Hg by (intros p; apply cnt_nonneg). pose proof (ho_ext Hok) as Hext.
  assert (∀ p, p ∈ S ++ R → 0 < ext p + cnt p (given ++ [x])) as Dk' by (intros p Hp; rewrite Ct; specialize (Dk p Hp); case_decide; lia).
  destruct (Z.eqb_spec (gc_ref_count hd + 1) 1) as [E1|E1].
  - assert (x ∈ T) as HxT. { rewrite <- Da, app_assoc, elem_of_app in Hx. destruct Hx as [Hx|Hx]; [|done]. specialize (Dk x Hx). lia. }
    apply list_elem_of_split in HxT as (T1 & T2 & ->).
    destruct (move_tmp_obj (put_header rt x (with_ref_count hd (gc_ref_count hd + 1))) _ T1 x T2 [] Dl) as (rt' & Em' & Eh & Ep & Dl').
    unfold rt_list_add_tail in *. destruct (rt_list_del _ x) as [rta|]; [|done]. cbn [mbind option_bind] in *. rewrite Em'. cbn [mbind option_bind].
    cbn [rt_heap put_header set_heap] in Eh. rewrite <- Eh in Dh2. destruct (set_mark_overlay rt' _ m x 0 Dh2 Hx) as (rt2 & -> & El & Ep2 & Dh3). rewrite <- El in Dl'.
    exists rt2, (R ++ [x]), (T1 ++ T2), (λ q, if decide (q = x) then 0 else m q). split; [done|]. rewrite <- app_assoc in Dl'.
    assert (NoDup (T1 ++ x :: T2)) as Hn by (rewrite <- Da in Hnd; apply NoDup_app in Hnd as (_ & _ & (_ & _ & Hnd)%NoDup_app); done).
    apply NoDup_app in Hn as (_ & N1 & [N2 _]%NoDup_cons). assert (∀ p, p ∈ T1 ++ T2 → p ≠ x ∧ p ∈ T1 ++ x :: T2) as HT by set_solver.
    split; try done.
    + intros p Hp. case_decide; [done|by apply Dd].
    + intros p [Hp1 Hp2]%HT. rewrite decide_False by done. by apply Dt.
    + rewrite <- Da. solve_Permutation.
    + intros p. rewrite app_assoc, elem_of_app. intros [Hp| ->%list_elem_of_singleton]; [by apply Dr|done].
    + intros p. rewrite app_assoc, elem_of_app. intros [Hp| ->%list_elem_of_singleton]; [by apply Dk'|]. rewrite Ct, decide_True by done. specialize (Hg x). specialize (Hext x). lia.
    + intros p [Hp1 Hp2]%HT. rewrite Ct, decide_False by congruence. specialize (Dz p Hp2). lia.
    + by rewrite Ep2, Ep.
  - exists (put_header rt x (with_ref_count hd (gc_ref_count hd + 1))), R, T, m. split; [done|]. split; try done.
    intros p Hp. rewrite Ct. destruct (decide (x = p)) as [<-|]; [|specialize (Dz p Hp); lia]. specialize (Dz x Hp). lia.
Qed.
Lemma gc_scan_children rt S R T given m l :
  scan_inv rt S R T given m → NoDup L0 → (∀ q, q ∈ l → reach q ∧ q ∈ L0) →
  ∃ rt' R' T' m', for_each gc_scan_incref_child l rt = Some rt' ∧ scan_inv rt' S R' T' (given ++ l) m'.
Proof.
  intros Di Hnd. revert rt R T given m Di. induction l as [|x l IH]; intros rt R T given m Di Hl; [exists rt, R, T, m; by rewrite app_nil_r|].
  destruct (gc_scan_incref_child_inv rt S R T given m x Di Hnd) as (rt1 & R1 & T1 & m1 & E1 & D1); [apply Hl; set_solver..|].
  destruct (IH rt1 R1 T1 (given ++ [x]) m1 D1) as (rt2 & R2 & T2 & m2 & E2 & D2); [set_solver|].
  exists rt2, R2, T2, m2. cbn. rewrite E1. split; [done|]. by rewrite <- app_assoc in D2.
Qed.

Lemma gc_scan_step rt S p R T m :
  scan_inv rt S (p :: R) T (S ≫= kids) m → NoDup L0 →
  ∃ rt' R' T' m', (rt ← set_mark rt p 0; mark_children gc_scan_incref_child p rt) = Some rt' ∧ scan_inv rt' (S ++ [p]) R' T' ((S ++ [p]) ≫= kids) m'.
Proof.
  intros [Dl Dh Dd Dt Da Dr Dk Dz Dph] Hnd. assert (p ∈ L0) as Hp by (rewrite <- Da; set_solver). assert (p ∈ S ++ p :: R) as HpG by set_solver.
  destruct (set_mark_overlay rt _ m p 0 Dh Hp) as (rt1 & -> & El & Ep & Dh1). cbn [mbind option_bind].
  destruct (overlay_kids _ _ _ p Dh1 Hp) as [Ek Hk]. unfold mark_children. rewrite Ek. cbn [mbind option_bind].
  assert (scan_inv rt1 (S ++ [p]) R T (S ≫= kids) (λ q, if decide (q = p) then 0 else m q)) as D1.
  { split; rewrite <- ?app_assoc; cbn [app]; try done; [by rewrite El| | |by rewrite Ep].
    - intros q [Hq| ->%list_elem_of_singleton]%elem_of_app; [case_decide; [done|by apply Dd]|by rewrite decide_True].
    - intros q Hq. rewrite decide_False; [by apply Dt|]. intros ->. specialize (Dk p HpG). specialize (Dz p Hq). lia. }
  rewrite bind_snoc. apply (gc_scan_children _ _ _ _ _ _ _ D1 Hnd). intros q Hq. split; [|by apply Hk]. eapply reach_step; [by apply Dr, HpG|done].
Qed.
Lemma gc_scan_loop_inv fuel rt S R T m :
  scan_inv rt S R T (S ≫= kids) m → NoDup L0 → (length L0 <= length S + fuel)%nat →
  ∃ rt' S' T' m', gc_scan_loop fuel (hd GcObjList (GcLink <$> R)) rt = Some rt' ∧ scan_inv rt' S' [] T' (S' ≫= kids) m'.
Proof.
  revert rt S R T m. induction fuel as [|fuel IH]; intros rt S R T m Di Hnd Hf; (destruct R as [|p R]; [by exists rt, S, T, m|]).
  - pose proof (si_all _ _ _ _ _ _ Di) as Da. apply Permutation_length in Da. rewrite !length_app in Da. cbn in Da. lia.
  - cbn [gc_scan_loop hd fmap list_fmap]. pose proof Di as [_ Dh _ _ Da _ Dk _ _]. assert (p ∈ L0) as Hp by (rewrite <- Da; set_solver).
    destruct (overlay_lookup _ _ _ p Dh Hp) as (hd0 & E & Ec & _). change (header rt p) with (rt_heap rt !! p). rewrite E. cbn [mbind option_bind]. rewrite Ec.
    assert (0 < ext p + cnt p (S ≫= kids)) as Hpos by (apply Dk; set_solver). replace (ext p + cnt p (S ≫= kids) >? 0) with true by lia. cbn [negb].
    destruct (gc_scan_step _ _ _ _ _ _ Di Hnd) as (rt1 & R1 & T1 & m1 & E1 & D1). destruct (set_mark rt p 0) as [rta|]; [|done]. cbn [mbind option_bind] in *. rewrite E1. cbn [mbind option_bind].
    pose proof (si_lists _ _ _ _ _ _ D1) as Dl1. rewrite <- app_assoc in Dl1. rewrite (next_obj _ _ _ _ _ _ Dl1). cbn [mbind option_bind].
    apply (IH rt1 _ _ _ _ D1 Hnd). rewrite length_app. cbn. lia.
Qed.
Lemma gc_restore_children rt c m l :
  overlay (rt_heap rt) c m → (∀ q, q ∈ l → q ∈ L0) →
  ∃ rt', for_each gc_scan_incref_child2 l rt = Some rt' ∧ overlay (rt_heap rt') (λ p, c p + cnt p l) m ∧ rt_links rt' = rt_links rt ∧ gc_phase rt' = gc_phase rt.
Proof.
  revert rt c. induction l as [|x l IH]; intros rt c Ho Hl; cbn [for_each].
  { eexists. split; [done|]. split; [|done]. eapply overlay_ext; [exact Ho|]. intros q _. cbn. split; [lia|done]. }
  destruct (overlay_lookup _ _ _ x Ho) as (hd & E & Ec & _); [apply Hl; set_solver|]. assert (gc_scan_incref_child2 x rt = Some (put_header rt x (with_ref_count hd (gc_ref_count hd + 1)))) as -> by (unfold gc_scan_incref_child2, header; by rewrite E). cbn [mbind option_bind].
  destruct (IH (put_header rt x (with_ref_count hd (gc_ref_count hd + 1))) _ (overlay_count _ _ _ x hd (gc_ref_count hd + 1) Ho E)) as (rt' & -> & Ho' & El & Ep); [set_solver|].
  exists rt'. split; [done|]. split; [|done]. eapply overlay_ext; [exact Ho'|]. intros q _. cbn. split; [|done]. repeat case_decide; subst; try congruence; lia.
Qed.
Lemma gc_restore_loop_spec fuel rt G T1 T2 c m :
  dlists (rt_links rt) (gc_lists G (T1 ++ T2) []) → overlay (rt_heap rt) c m → (∀ p, p ∈ T2 → p ∈ L0) → (length T2 <= fuel)%nat →
  ∃ rt', gc_restore_loop fuel (hd TmpObjList (GcLink <$> T2)) rt = Some rt' ∧ overlay (rt_heap rt') (λ p, c p + cnt p (T2 ≫= kids)) m ∧ rt_links rt' = rt_links rt ∧ gc_phase rt' = gc_phase rt.
Proof.
  revert rt T1 T2 c. induction fuel as [|fuel IH]; intros rt T1 T2 c Dl Ho Ht Hf; (destruct T2 as [|p T2]; [exists rt; split; [done|]; split; [|done]; eapply overlay_ext; [exact Ho|]; intros q _; cbn; split; [lia|done]|]); [cbn in Hf; lia|].
  cbn [gc_restore_loop hd fmap list_fmap]. destruct (overlay_kids _ _ _ p Ho) as [Ek Hk]; [apply Ht; set_solver|]. unfold mark_children at 1. rewrite Ek. cbn [mbind option_bind].
  destruct (gc_restore_children rt c m (kids p) Ho Hk) as (rt1 & -> & Ho1 & El1 & Ep1). cbn [mbind option_bind]. rewrite El1, (next_tmp _ _ _ _ _ _ Dl). cbn [mbind option_bind].
  destruct (IH rt1 (T1 ++ [p]) T2 (λ q, c q + cnt q (kids p))) as (rt2 & -> & Ho2 & El2 & Ep2); [by rewrite El1, <- app_assoc|done|set_solver|cbn in Hf; lia|].
  exists rt2. split; [done|]. split; [|by rewrite El2, Ep2]. eapply overlay_ext; [exact Ho2|]. intros q _. rewrite bind_cons, cnt_app. split; [lia|done].
Qed.
Lemma scan_done rt S T m : scan_inv rt S [] T (S ≫= kids) m → ∀ p, p ∈ S ↔ reach p.
Proof.
  intros [Dl Dh Dd Dt Da Dr Dk Dz Dph] p. rewrite app_nil_r in *. split; [by apply Dr|]. pose proof (ho_ext Hok) as Hext.
  induction 1 as [p Hp He|p q _ IH Hq].
  - rewrite <- Da in Hp. apply elem_of_app in Hp as [Hp|Hp]; [done|]. specialize (Dz p Hp). pose proof (cnt_nonneg p (S ≫= kids)). lia.
  - assert (q ∈ L0) as Hq0. { destruct (ho_kids Hok p) as (l & E & Hl); [rewrite <- Da; set_solver|]. apply Hl. unfold kids in Hq. by rewrite E in Hq. }
    rewrite <- Da in Hq0. apply elem_of_app in Hq0 as [Hq0|Hq0]; [done|]. specialize (Dz q Hq0). specialize (Hext q).
    assert (0 < cnt q (S ≫= kids)); [|lia]. apply cnt_pos, list_elem_of_bind. eauto.
Qed.
Lemma gc_scan_spec rt K T :
  dlists (rt_links rt) (gc_lists K T []) → K ++ T ≡ₚ L0 → NoDup L0 → gc_phase rt = JS_GC_PHASE_NONE → overlay (rt_heap rt) ext (λ _, 1) →
  (∀ p, p ∈ K → 0 < ext p) → (∀ p, p ∈ T → ext p = 0) →
  ∃ rt' S T m, gc_scan rt = Some rt' ∧ dlists (rt_links rt') (gc_lists S T []) ∧ S ++ T ≡ₚ L0 ∧ gc_phase rt' = JS_GC_PHASE_NONE ∧
    (∀ p, p ∈ S ↔ reach p) ∧ overlay (rt_heap rt') rc m ∧ (∀ p, p ∈ S → m p = 0).
Proof.
  intros Dl Da Hnd Dph Dh Dk Dz. assert (scan_inv rt [] K T [] (λ _, 1)) as Di.
  { split; cbn; try done; [|set_solver|intros p Hp; apply reach_root; [rewrite <- Da; set_solver|by apply Dk]|intros p Hp; specialize (Dk p Hp); lia|intros p Hp; specialize (Dz p Hp); lia].
    eapply overlay_ext; [exact Dh|]. intros p _. cbn. split; [lia|done]. }
  pose proof (overlay_size _ _ _ Dh Hnd) as Hsz. destruct (gc_scan_loop_inv (gc_fuel rt) rt [] K T _ Di Hnd) as (rt2 & S & T2 & m & E2 & D2); [unfold gc_fuel; cbn; lia|].
  pose proof (scan_done _ _ _ _ D2) as Hd. destruct D2 as [Dl2 Dh2 Dd2 Dt2 Da2 _ _ _ Dph2]. rewrite app_nil_r in *. cbn [app] in Da2.
  destruct (gc_restore_loop_spec (gc_fuel rt2) rt2 S [] T2 _ m Dl2 Dh2) as (rt3 & E3 & Ho3 & El3 & Ep3).
  { intros p Hp. rewrite <- Da2. set_solver. }
  { apply Permutation_length in Da2. rewrite length_app in Da2. unfold gc_fuel. rewrite (overlay_size _ _ _ Dh2 Hnd). lia. }
  exists rt3, S, T2, m. unfold gc_scan. rewrite (dlists_first _ _ _ _ Dl (gc_lists_obj _ _ _)). cbn [mbind option_bind]. rewrite E2. cbn [mbind option_bind].
  rewrite (dlists_first _ _ _ _ Dl2 (gc_lists_tmp _ _ _)). cbn [mbind option_bind]. rewrite E3, El3, Ep3. repeat (split; [done|]). split; [|done].
  eapply overlay_ext; [exact Ho3|]. intros p _. cbn beta. split; [|done]. unfold rc. rewrite <- Da2, bind_app, cnt_app. lia.
Qed.
(** the marking as a whole: the objects that are reached stay in their list, the others are in the temporary one, and all have their counts again *)
Lemma gc_mark_spec rt : gc_ready rt →
  ∃ rt1 rt' S T m, gc_decref rt = Some rt1 ∧ gc_scan rt1 = Some rt' ∧ dlists (rt_links rt') (gc_lists S T []) ∧ S ++ T ≡ₚ L0 ∧ gc_phase rt' = JS_GC_PHASE_NONE ∧
    (∀ p, p ∈ S ↔ reach p) ∧ overlay (rt_heap rt') rc m ∧ (∀ p, p ∈ S → m p = 0).
Proof.
  intros Hr. destruct (gc_decref_spec rt Hr) as (rt1 & K & T & E & Dl & Da & Dph & Dh & Dk & Dz).
  destruct (gc_scan_spec rt1 K T Dl Da (ready_nodup _ Hr) Dph Dh Dk Dz) as (rt' & S & T' & m & Hs). by exists rt1, rt', S, T', m.
Qed.
End Marking.
