(* ===== verification/GcAgree.v ===== *)
(** * Marking and freeing agree (js/quickjs.c)

    What [mark_children] visits is what the free functions give up: the
    releases of an object, in whatever order, have the targets that the mark
    functions report.  The conditions on the objects are those that the engine
    keeps: a deleted property holds no reference, a completed generator has no
    state, a running function has its frame elsewhere. *)
From stdpp Require Import gmap.
From S2P Require Import Prelude DList GcHeap Gc.

(** the object that a release decrements *)
Definition release_targets (r : release) : list ptr :=
  match r with
  | FreeValue v => JS_MarkValue v
  | FreeShape x | FreeAsyncFunc x | FreeContext x => [x]
  | FreeVarRef v => opt_list v
  end.
(** every call that an object's free function makes *)
Definition module_releases (m : JSModuleDef) : list release :=
  ((λ v, FreeVarRef (Some v)) <$> (md_export_vars m ≫= opt_list)) ++ free_values (md_values m).
Definition gc_releases (h : gmap ptr gc_header) (o : gc_obj) : option (list release) :=
  match o with
  | GcJSObject cls (Some sh) prop =>
    match body_of h sh with
    | Some (GcShape _ props) => l ← free_properties props prop; k ← class_finalizer h cls; Some (l ++ FreeShape sh :: k)
    | _ => None
    end
  | GcJSObject _ None _ => None
  | GcFunctionBytecode cpool realm _ => Some (free_values cpool ++ (FreeContext <$> opt_list realm))
  | GcShape proto _ => Some ((λ p, FreeValue (JSObject p)) <$> opt_list proto)
  | GcVarRef is_detached value async_func => Some (if is_detached then [FreeValue value] else FreeAsyncFunc <$> opt_list async_func)
  | GcAsyncFunction s => async_releases s
  | GcJSContext c =>
    Some ((cx_loaded_modules c ≫= module_releases) ++
      free_values (cx_values1 c ++ cx_native_error_proto c ++ cx_class_proto c ++ cx_values2 c) ++ (FreeShape <$> opt_list (cx_array_shape c)))
  end.

(** what the engine keeps *)
Definition prop_ok (prs : JSShapeProperty) (pr : JSProperty) : bool :=
  if prs_atom prs =? JS_ATOM_NULL then
    (prs_flags prs .& JS_PROP_TMASK =? 0) && match pr with PropValue v => bool_decide (JS_MarkValue v = []) | _ => false end
  else true.
Fixpoint props_ok (props : list JSShapeProperty) (prop : list JSProperty) : bool :=
  match props, prop with prs :: props, pr :: prop => prop_ok prs pr && props_ok props prop | _, _ => true end.
Definition class_ok (c : class_data) : bool :=
  match c with ClassGenerator (Some (true, Some _)) => false | _ => true end.
Definition async_ok (s : JSAsyncFunctionState) : bool :=
  as_is_completed s || negb (as_arg_buf s) || match as_slots s with Some _ => true | None => false end.
Definition body_ok (h : gmap ptr gc_header) (o : gc_obj) : bool :=
  match o with
  | GcJSObject cls (Some sh) prop => match body_of h sh with Some (GcShape _ props) => props_ok props prop && class_ok cls | _ => false end
  | GcAsyncFunction s => async_ok s
  | _ => true
  end.

(** ** The agreement *)
Notation targets l := (l ≫= release_targets).
Lemma targets_values l : targets (free_values l) = mark_values l.
Proof. induction l as [|v l IH]; [done|]. cbn. unfold free_values, mark_values in *. by f_equal. Qed.
Lemma targets_fmap {A} (f : A → release) (g : A → list ptr) l : (∀ x, release_targets (f x) = g x) → targets (f <$> l) = l ≫= g.
Proof. intros E. induction l as [|x l IH]; [done|]. cbn. rewrite E. by f_equal. Qed.
Lemma bind_single {A} (l : list A) : l ≫= (λ x, [x]) = l.
Proof. induction l as [|x l IH]; [done|]. cbn. by f_equal. Qed.
Lemma bind_bind_targets {A} (f : A → list release) (g : A → list ptr) l : (∀ x, targets (f x) = g x) → targets (l ≫= f) = l ≫= g.
Proof. intros E. induction l as [|x l IH]; [done|]. cbn. rewrite bind_app, E. by f_equal. Qed.
#[export] Instance targets_perm : Proper ((≡ₚ) ==> (≡ₚ)) (λ l, targets l).
Proof. intros l1 l2 E. by apply bind_Permutation. Qed.

Lemma property_agree prs pr l : mark_property prs pr = Some l → prop_ok prs pr → ∃ k, free_property prs pr = Some k ∧ targets k = l.
Proof.
  unfold mark_property, prop_ok, free_property. destruct (prs_atom prs =? JS_ATOM_NULL).
  - intros [= <-] [Ht Hp]%andb_True. apply Is_true_eq_true in Ht. rewrite Ht. cbn [negb]. destruct pr as [v| | |]; try done. apply bool_decide_unpack in Hp. eexists. split; [done|]. cbn. by rewrite Hp.
  - intros Hm _. repeat case_match; try done; injection Hm as <-; eexists; (split; [done|]); cbn; rewrite ?app_nil_r; try done.
    rewrite (targets_fmap _ (λ p, [p])) by done. apply bind_single.
Qed.
Lemma properties_agree props prop l : mark_properties props prop = Some l → props_ok props prop → ∃ k, free_properties props prop = Some k ∧ targets k = l.
Proof.
  revert prop l. induction props as [|prs props IH]; intros prop l Hm Ho; [injection Hm as <-; by exists []|]. destruct prop as [|pr prop]; [done|]. cbn in Hm, Ho. apply andb_True in Ho as [H1 H2].
  destruct (mark_property prs pr) as [l1|] eqn:E1; [|done]. cbn in Hm. destruct (mark_properties props prop) as [l2|] eqn:E2; [|done]. injection Hm as <-.
  destruct (property_agree _ _ _ E1 H1) as (k1 & F1 & <-). destruct (IH _ _ E2 H2) as (k2 & F2 & <-). exists (k1 ++ k2). cbn. rewrite F1. cbn. rewrite F2. split; [done|]. by rewrite bind_app.
Qed.
Lemma class_agree h c l : class_mark h c = Some l → class_ok c → ∃ k, class_finalizer h c = Some k ∧ targets k = l.
Proof.
  destruct c as [|values|v|realm|home b vars|f t argv|data|v|buf|recs|o|o|data|data|s|data|data|data|o|data]; cbn [class_mark class_finalizer class_ok]; intros Hm Ho; try (injection Hm as <-; eexists; split; [done|]).
  - done.
  - apply targets_values.
  - apply app_nil_r.
  - by destruct realm.
  - unfold js_bytecode_function_mark, js_bytecode_function_finalizer in *. assert (∀ l, targets ((λ p, FreeValue (JSObject p)) <$> opt_list l) = opt_list l) as Eh.
    { intros k. rewrite (targets_fmap _ (λ p, [p])) by done. apply bind_single. }
    destruct b as [b|]; [|injection Hm as <-; eexists; split; [done|apply Eh]]. destruct (match vars with Some l0 => closure_vars h b l0 | None => Some [] end) as [vs|]; [|done].
    injection Hm as <-. eexists. split; [done|]. rewrite !bind_app, Eh, (targets_fmap _ opt_list) by done. done.
  - unfold js_bound_function_finalizer, js_bound_function_mark. cbn. by rewrite targets_values.
  - destruct data; [apply targets_values|done].
  - apply app_nil_r.
  - by destruct buf.
  - destruct recs as [recs|]; [|done]. apply (bind_bind_targets _ (λ '(key, value), JS_MarkValue key ++ JS_MarkValue value)). intros [k v]. cbn. by rewrite app_nil_r.
  - destruct o; [apply app_nil_r|done].
  - destruct o; [apply app_nil_r|done].
  - destruct data as [[x y]|]; [|done]. cbn. by rewrite !app_nil_r.
  - destruct data as [[[] [s|]]|]; done.
  - by destruct s.
  - destruct data as [[queue s]|]; [|done]. cbn. unfold js_async_generator_free. rewrite bind_app. f_equal; [|by destruct s]. apply bind_bind_targets, targets_values.
  - destruct data as [[x y]|]; [|done]. cbn. by rewrite !app_nil_r.
  - destruct data as [[queue s]|]; [|done]. cbn. rewrite bind_app. f_equal; [|cbn; by rewrite app_nil_r]. apply bind_bind_targets, targets_values.
  - destruct o; [apply app_nil_r|done].
  - destruct data as [[x y]|]; [|done]. cbn. by rewrite !app_nil_r.
Qed.
Lemma module_agree m : targets (module_releases m) = js_mark_module_def m.
Proof. unfold module_releases, js_mark_module_def. rewrite bind_app, targets_values. f_equal. rewrite (targets_fmap _ (λ p, [p])) by done. apply bind_single. Qed.
Lemma async_agree s : async_ok s → ∃ k, async_releases s = Some k ∧ targets k ≡ₚ async_mark s.
Proof.
  unfold async_ok, async_releases, async_mark. destruct (as_is_completed s); [intros _; eexists; split; [done|]; cbn; by rewrite app_nil_r|]. cbn [orb].
  destruct (as_arg_buf s), (as_slots s) as [l|]; cbn [negb orb]; intros Ho; try done; (eexists; split; [done|]);
    rewrite ?bind_app, ?targets_values; cbn; rewrite ?app_nil_r; solve_Permutation.
Qed.
(** the releases of an object have the targets that it marks *)
Lemma releases_agree h p o l :
  body_of h p = Some o → children h p = Some l → body_ok h o → ∃ k, gc_releases h o = Some k ∧ targets k ≡ₚ l.
Proof.
  unfold children. intros ->. destruct o as [cls sh prop|cpool realm n|proto props|d v a|s|c]; cbn [body_ok gc_releases].
  - destruct sh as [sh|]; [|done]. cbn [mbind option_bind]. destruct (body_of h sh) as [[| |proto props| | |]|]; try done. intros Hm [H1 H2]%andb_True.
    destruct (mark_properties props prop) as [l1|] eqn:E1; [|done]. cbn [mbind option_bind] in Hm. destruct (class_mark h cls) as [l2|] eqn:E2; [|done]. injection Hm as <-.
    destruct (properties_agree _ _ _ E1 H1) as (k1 & -> & <-). destruct (class_agree _ _ _ E2 H2) as (k2 & -> & <-). cbn [mbind option_bind]. eexists. split; [done|]. rewrite bind_app, bind_cons. cbn [release_targets app]. solve_Permutation.
  - intros [= <-] _. eexists. split; [done|]. rewrite bind_app, targets_values, (targets_fmap _ (λ p, [p])) by done. by rewrite bind_single.
  - intros [= <-] _. eexists. split; [done|]. rewrite (targets_fmap _ (λ p, [p])) by done. by rewrite bind_single.
  - intros [= <-] _. eexists. split; [done|]. destruct d; [cbn; by rewrite app_nil_r|]. rewrite (targets_fmap _ (λ p, [p])) by done. by rewrite bind_single.
  - intros [= <-] Ho. by apply async_agree.
  - intros [= <-] _. eexists. split; [done|]. rewrite !bind_app, targets_values. unfold JS_MarkContext, mark_values. rewrite (bind_bind_targets _ _ _ module_agree), (targets_fmap _ (λ p, [p])) by done. rewrite bind_single, !bind_app. solve_Permutation.
Qed.
