(* ===== verification/GcRelease.v ===== *)
(** * Giving references up (js/quickjs.c)

    The free functions against an interface: an invariant that a decrement
    keeps, and under which an object whose count is gone can be freed.  The
    collector and the reference counts have one each; the walk through what an
    object holds - values, shapes, variables, contexts - is proved here once. *)
From stdpp Require Import gmap.
From S2P Require Import Prelude DList GcHeap Gc GcMark GcAgree.

(** ** Sequences of calls *)
Lemma for_each_app {A} (f : A → JSRuntime → option JSRuntime) l1 l2 rt : for_each f (l1 ++ l2) rt = (rt ← for_each f l1 rt; for_each f l2 rt).
Proof. revert rt. induction l1 as [|x l1 IH]; intros rt; cbn; [done|]. destruct (f x rt); cbn; [apply IH|done]. Qed.
Lemma for_each_fmap {A B} (f : B → JSRuntime → option JSRuntime) (g : A → B) l rt : for_each f (g <$> l) rt = for_each (λ x, f (g x)) l rt.
Proof. revert rt. induction l as [|x l IH]; intros rt; cbn; [done|]. destruct (f (g x) rt); cbn; [apply IH|done]. Qed.
Lemma for_each_bind {A B} (f : A → JSRuntime → option JSRuntime) (k : B → JSRuntime → option JSRuntime) (g : A → list B) l rt :
  (∀ x rt, f x rt = for_each k (g x) rt) → for_each f l rt = for_each k (l ≫= g) rt.
Proof.
  intros E. revert rt. induction l as [|x l IH]; intros rt; cbn; [done|]. rewrite for_each_app, E. destruct (for_each k (g x) rt); cbn; [apply IH|done].
Qed.
Lemma for_each_ext {A} (f g : A → JSRuntime → option JSRuntime) l rt : (∀ x rt, f x rt = g x rt) → for_each f l rt = for_each g l rt.
Proof. intros E. revert rt. induction l as [|x l IH]; intros rt; cbn; [done|]. rewrite E. destruct (g x rt); cbn; [apply IH|done]. Qed.

(** [--ref_count] changes nothing else *)
Lemma decr_heap rt x hd : header rt x = Some hd →
  ∃ rt', decr rt x = Some (rt', gc_ref_count hd - 1) ∧ rt' = put_header rt x (with_ref_count hd (gc_ref_count hd - 1)) ∧
    (∀ p, is_Some (rt_heap rt' !! p) ↔ is_Some (rt_heap rt !! p)) ∧
    (∀ p hd', rt_heap rt' !! p = Some hd' → ∃ hd0, rt_heap rt !! p = Some hd0 ∧ gc_body hd' = gc_body hd0 ∧ gc_mark hd' = gc_mark hd0 ∧ gc_free_mark hd' = gc_free_mark hd0 ∧
      gc_ref_count hd' = gc_ref_count hd0 - if decide (x = p) then 1 else 0).
Proof.
  intros Eh. unfold decr. rewrite Eh. eexists. split; [done|]. split; [done|]. unfold header in Eh. split.
  - intros p. cbn. rewrite lookup_insert_is_Some. split; [intros [<-|[_ ?]]; [by rewrite Eh|done]|]. intros Hp. destruct (decide (x = p)); [by left|by right].
  - intros p hd' E0. cbn in E0. apply lookup_insert_Some in E0 as [[<- <-]|[Hne E0]]; [exists hd; rewrite decide_True by done; done|]. exists hd'. rewrite decide_False by done. repeat (split; [done|]). lia.
Qed.

(** ** What kind of object a reference is to *)
Definition is_object (o : gc_obj) : bool := match o with GcJSObject _ _ _ => true | _ => false end.
Definition is_bytecode (o : gc_obj) : bool := match o with GcFunctionBytecode _ _ _ => true | _ => false end.
Definition is_async (o : gc_obj) : bool := match o with GcAsyncFunction _ => true | _ => false end.
Definition is_shape (o : gc_obj) : bool := match o with GcShape _ _ => true | _ => false end.
Definition is_var_ref (o : gc_obj) : bool := match o with GcVarRef _ _ _ => true | _ => false end.
Definition is_context (o : gc_obj) : bool := match o with GcJSContext _ => true | _ => false end.
Definition kind_at (h : gmap ptr gc_header) (f : gc_obj → bool) (p : ptr) : bool := match body_of h p with Some o => f o | None => false end.
Definition release_typed (h : gmap ptr gc_header) (r : release) : bool :=
  match r with
  | FreeValue (JSObject p) => kind_at h is_object p
  | FreeValue (JSFunctionBytecode p) => kind_at h is_bytecode p
  | FreeValue (JSModule _) => false
  | FreeValue _ => true
  | FreeShape p => kind_at h is_shape p
  | FreeVarRef v => forallb (kind_at h is_var_ref) (opt_list v)
  | FreeAsyncFunc p => kind_at h is_async p
  | FreeContext p => kind_at h is_context p
  end.

(** ** The interface *)
(** [Inv rt E W]: the objects of [E] are being freed, the references to [W] are still to be given up *)
Class FreeProtocol (h0 : gmap ptr gc_header) (Inv : JSRuntime → list ptr → list ptr → Prop) := {
  fp_perm rt E W W' : Inv rt E W → W ≡ₚ W' → Inv rt E W';
  (** a reference to a value: at zero it is queued *)
  fp_value rt E W x : Inv rt E (x :: W) → kind_at h0 is_value_object x →
    ∃ rt' k rt2, decr rt x = Some (rt', k) ∧ 0 <= k ∧ (if k =? 0 then queue_zero x rt' else Some rt') = Some rt2 ∧ Inv rt2 E W;
  (** a reference to something else: at zero what it holds is to be given up *)
  fp_plain rt E W x : Inv rt E (x :: W) → is_Some (h0 !! x) → kind_at h0 is_value_object x = false →
    ∃ rt' k, decr rt x = Some (rt', k) ∧ 0 <= k ∧ (∃ hd, header rt x = Some hd ∧ gc_ref_count hd = k + 1 ∧ header rt' x = Some (with_ref_count hd k)) ∧
      (0 < k → Inv rt' E W) ∧
      (k = 0 → body_of (rt_heap rt') x = body_of h0 x ∧
        ∃ o rs, body_of h0 x = Some o ∧ gc_releases h0 o = Some rs ∧ Forall (release_typed h0) rs ∧ Inv rt' (x :: E) (targets rs ++ W));
  (** and then its memory goes *)
  fp_gone rt E W x : Inv rt (x :: E) W → kind_at h0 is_value_object x = false →
    ∃ rt', (rt ← remove_gc_object rt x; js_free_obj rt x) = Some rt' ∧ Inv rt' E W;
  (** what is being freed, and what it still refers to, is there *)
  fp_alive rt E W x : Inv rt E W → x ∈ E → is_Some (header rt x);
  fp_body rt E W x : Inv rt E W → x ∈ W → kind_at h0 is_bytecode x ∨ kind_at h0 is_shape x → body_of (rt_heap rt) x = body_of h0 x;
  (** the fields of an object that is being freed do not matter *)
  fp_update rt E W x hd hd' : Inv rt E W → x ∈ E → kind_at h0 is_value_object x → header rt x = Some hd → gc_ref_count hd' = gc_ref_count hd →
    (gc_body hd' = gc_body hd ∨ kind_at h0 is_object x ∧ ∃ cls, gc_body hd' = GcJSObject cls None []) → Inv (put_header rt x hd') E W
}.
Lemma kind_some h f p : kind_at h f p → is_Some (h !! p).
Proof. unfold kind_at, body_of. destruct (h !! p); [eauto|done]. Qed.
Lemma kind_imp h (f g : gc_obj → bool) p : kind_at h f p → (∀ o, f o → g o) → kind_at h g p.
Proof. unfold kind_at. destruct (body_of h p); [auto|done]. Qed.
Lemma kind_not h (f g : gc_obj → bool) p : kind_at h f p → (∀ o, f o → g o = false) → kind_at h g p = false.
Proof. unfold kind_at. destruct (body_of h p); [auto|done]. Qed.

Section Releases.
Context (h0 : gmap ptr gc_header) (Inv : JSRuntime → list ptr → list ptr → Prop) `{!FreeProtocol h0 Inv}.
Definition step_ok (r : release) : Prop :=
  ∀ rt E W, release_typed h0 r → Inv rt E (release_targets r ++ W) → ∃ rt', run_release r rt = Some rt' ∧ Inv rt' E W.
Lemma steps_ok rs rt E W : Forall step_ok rs → Forall (release_typed h0) rs → Inv rt E (targets rs ++ W) → ∃ rt', for_each run_release rs rt = Some rt' ∧ Inv rt' E W.
Proof.
  intros Hs. revert rt. induction Hs as [|r rs Hr _ IH]; intros rt Ht Hi; [by exists rt|]. apply Forall_cons in Ht as [Ht1 Ht2]. rewrite bind_cons, <- app_assoc in Hi.
  destruct (Hr rt E _ Ht1 Hi) as (rt1 & E1 & H1). destruct (IH rt1 Ht2 H1) as (rt2 & E2 & H2). exists rt2. cbn. by rewrite E1.
Qed.
Lemma value_ok v : step_ok (FreeValue v).
Proof.
  intros rt E W Ht Hi. destruct v; cbn [run_release free_value]; try (by exists rt); try done; cbn in Ht, Hi.
  all: destruct (fp_value _ _ _ _ Hi) as (rt' & k & rt2 & -> & Hk & Eq & Hi'); [eapply kind_imp; [exact Ht|]; by intros []|].
  all: cbn [mbind option_bind]; exists rt2; split; [|done]; replace (k <=? 0) with (k =? 0) by lia; exact Eq.
Qed.
Lemma async_func_ok p : step_ok (FreeAsyncFunc p).
Proof.
  intros rt E W Ht Hi. cbn [run_release]. unfold async_func_free. cbn in Ht, Hi.
  destruct (fp_value _ _ _ _ Hi) as (rt' & k & rt2 & -> & Hk & Eq & Hi'); [eapply kind_imp; [exact Ht|]; by intros []|].
  cbn [mbind option_bind]. exists rt2. split; [exact Eq|done].
Qed.
Lemma values_ok (l : list JSValue) : Forall step_ok (free_values l).
Proof. apply Forall_fmap, Forall_true. intros v. apply value_ok. Qed.
Lemma fmap_ok {A} (f : A → release) l : (∀ x, step_ok (f x)) → Forall step_ok (f <$> l).
Proof. intros Hf. by apply Forall_fmap, Forall_true. Qed.
(** the body that the free function finds *)
Lemma body_found rt x o hd k : body_of (rt_heap rt) x = body_of h0 x → body_of h0 x = Some o → header rt x = Some (with_ref_count hd k) → gc_body hd = o.
Proof. intros E1 E2 Eh. rewrite E2 in E1. unfold body_of in E1. unfold header in Eh. rewrite Eh in E1. by injection E1. Qed.
Lemma shape_ok sh : step_ok (FreeShape sh).
Proof.
  intros rt E W Ht Hi. cbn [run_release]. unfold js_free_shape. cbn in Ht, Hi. assert (kind_at h0 is_value_object sh = false) as Hv by (eapply kind_not; [exact Ht|]; by intros []).
  destruct (fp_plain _ _ _ _ Hi (kind_some _ _ _ Ht) Hv) as (rt1 & k & -> & Hk & (hd & _ & _ & Eh) & H1 & H2). cbn [mbind option_bind].
  destruct (Z.leb_spec k 0) as [Hk0|Hk0]; [|exists rt1; split; [done|by apply H1]]. assert (k = 0) as -> by lia. destruct (H2 eq_refl) as (Eb & o & rs & Eo & Er & Hty & Hi1). clear H1 H2.
  pose proof (body_found _ _ _ _ _ Eb Eo Eh) as Ebo. unfold js_free_shape0. rewrite Eh. cbn [mbind option_bind gc_ref_count with_ref_count Z.eqb negb gc_body]. rewrite Ebo.
  unfold kind_at in Ht. rewrite Eo in Ht. destruct o as [| |proto props| | |]; try done. injection Er as <-.
  destruct (steps_ok _ rt1 (sh :: E) W (fmap_ok (λ p, FreeValue (JSObject p)) _ (λ p, value_ok _)) Hty Hi1) as (rt2 & E2 & Hi2). rewrite for_each_fmap in E2.
  change (for_each (λ p, free_value (JSObject p)) (opt_list proto) rt1 = Some rt2) in E2. rewrite E2. cbn [mbind option_bind]. by apply fp_gone.
Qed.
Lemma var_ref_ok v : step_ok (FreeVarRef v).
Proof.
  destruct v as [v|]; [|intros rt E W _ Hi; by exists rt]. intros rt E W Ht Hi. cbn [run_release opt_list for_each]. cbn in Ht, Hi. rewrite andb_true_r in Ht. unfold free_var_ref.
  assert (kind_at h0 is_value_object v = false) as Hv by (eapply kind_not; [exact Ht|]; by intros []).
  destruct (fp_plain _ _ _ _ Hi (kind_some _ _ _ Ht) Hv) as (rt1 & k & -> & Hk & (hd & Eh0 & Ec & Eh) & H1 & H2). rewrite Eh0. cbn [mbind option_bind]. rewrite Ec. replace (k + 1 >? 0) with true by lia. cbn [negb].
  destruct (Z.eqb_spec k 0) as [->|Hk0]; [|exists rt1; split; [done|apply H1; lia]]. destruct (H2 eq_refl) as (Eb & o & rs & Eo & Er & Hty & Hi1). clear H1 H2.
  pose proof (body_found _ _ _ _ _ Eb Eo Eh) as Ebo. rewrite Ebo. unfold kind_at in Ht. rewrite Eo in Ht. destruct o as [| | |d value af| |]; try done. injection Er as <-.
  assert (Forall step_ok (if d then [FreeValue value] else FreeAsyncFunc <$> opt_list af)) as Hs by (destruct d; [constructor; [apply value_ok|constructor]|apply fmap_ok, async_func_ok]).
  destruct (steps_ok _ rt1 (v :: E) W Hs Hty Hi1) as (rt2 & E2 & Hi2).
  assert ((if d then free_value value rt1 else for_each async_func_free (opt_list af) rt1) = Some rt2) as ->; [destruct d; [cbn in E2; by destruct (free_value value rt1)|by rewrite for_each_fmap in E2]|].
  cbn [mbind option_bind]. destruct (fp_gone _ _ _ _ Hi2 Hv) as (rt3 & E3 & Hi3). exists rt3. split; [|done]. by rewrite E3.
Qed.
Lemma free_modules_eq ms rt : for_each js_free_module_def ms rt = for_each run_release (ms ≫= module_releases) rt.
Proof.
  apply for_each_bind. intros m rt0. unfold js_free_module_def, module_releases, free_values. rewrite for_each_app, for_each_fmap.
  rewrite (for_each_ext free_var_ref (λ x, run_release (FreeVarRef (Some x)))); [|intros x rt'; cbn; by destruct (free_var_ref x rt')].
  destruct (for_each _ _ rt0); [|done]. cbn [mbind option_bind]. by rewrite for_each_fmap.
Qed.
Lemma context_ok c : step_ok (FreeContext c).
Proof.
  intros rt E W Ht Hi. cbn [run_release]. unfold JS_FreeContext. cbn in Ht, Hi. assert (kind_at h0 is_value_object c = false) as Hv by (eapply kind_not; [exact Ht|]; by intros []).
  destruct (fp_plain _ _ _ _ Hi (kind_some _ _ _ Ht) Hv) as (rt1 & k & -> & Hk & (hd & _ & _ & Eh) & H1 & H2). cbn [mbind option_bind].
  destruct (k >? 0) eqn:Hk0; [exists rt1; split; [done|apply H1; lia]|]. assert (k = 0) as -> by lia. destruct (H2 eq_refl) as (Eb & o & rs & Eo & Er & Hty & Hi1). clear H1 H2.
  pose proof (body_found _ _ _ _ _ Eb Eo Eh) as Ebo. rewrite Eh. cbn [mbind option_bind gc_ref_count with_ref_count Z.eqb negb gc_body]. rewrite Ebo.
  unfold kind_at in Ht. rewrite Eo in Ht. destruct o as [| | | | |ctx]; try done. injection Er as <-. rewrite !bind_app, <- !app_assoc in Hi1. apply Forall_app in Hty as [Ht1 [Ht2 Ht3]%Forall_app].
  assert (Forall step_ok (cx_loaded_modules ctx ≫= module_releases)) as Hs1 by (apply Forall_bind, Forall_true; intros m; apply Forall_app; split; [apply fmap_ok; intros p; apply var_ref_ok|apply values_ok]).
  destruct (steps_ok _ rt1 _ _ Hs1 Ht1 Hi1) as (rt2 & E2 & Hi2). rewrite free_modules_eq, E2. cbn [mbind option_bind].
  destruct (steps_ok _ rt2 _ _ (values_ok _) Ht2 Hi2) as (rt3 & E3 & Hi3). unfold free_values in E3. rewrite for_each_fmap in E3.
  change (for_each free_value (cx_values1 ctx ++ cx_native_error_proto ctx ++ cx_class_proto ctx ++ cx_values2 ctx) rt2 = Some rt3) in E3. rewrite E3. cbn [mbind option_bind].
  destruct (steps_ok _ rt3 _ _ (fmap_ok _ _ shape_ok) Ht3 Hi3) as (rt4 & E4 & Hi4). rewrite for_each_fmap in E4. change (for_each js_free_shape (opt_list (cx_array_shape ctx)) rt3 = Some rt4) in E4.
  rewrite E4. cbn [mbind option_bind]. by apply fp_gone.
Qed.
Lemma release_ok r : step_ok r.
Proof. destruct r; [apply value_ok|apply shape_ok|apply var_ref_ok|apply async_func_ok|apply context_ok]. Qed.
Lemma releases_ok rs rt E W : Forall (release_typed h0) rs → Inv rt E (targets rs ++ W) → ∃ rt', for_each run_release rs rt = Some rt' ∧ Inv rt' E W.
Proof. apply steps_ok, Forall_true, release_ok. Qed.

(** ** An object *)
Lemma class_finalizer_heap h c ks :
  class_finalizer h0 c = Some ks → Forall (release_typed h0) ks → (∀ b, b ∈ targets ks → kind_at h0 is_bytecode b → body_of h b = body_of h0 b) → class_finalizer h c = Some ks.
Proof.
  intros E Ht Hb. destruct c as [| | | |home b vars| | | | | | | | | | | | | | |]; try done. cbn in *. unfold js_bytecode_function_finalizer in *. destruct b as [b|]; [|done]. destruct vars as [vars|]; [|done].
  assert (closure_vars h b vars = closure_vars h0 b vars) as ->; [|done]. unfold closure_vars. destruct (closure_vars h0 b vars) as [vs|]; [|done]. injection E as <-. rewrite Hb; [done| |].
  - rewrite !bind_app. set_solver.
  - apply Forall_app in Ht as [_ [_ Ht]%Forall_app]. by apply Forall_cons in Ht as [Ht _].
Qed.
Lemma forget_fields_eq rt p hd body : header rt p = Some hd → forget_fields rt p body = Some (put_header rt p (mk_header (gc_ref_count hd) (gc_mark hd) (gc_free_mark hd) body)).
Proof. intros E. unfold forget_fields. by rewrite E. Qed.
Lemma forget_fields_ok rt x W cls : Inv rt [x] W → kind_at h0 is_object x → ∃ rt', forget_fields rt x (GcJSObject cls None []) = Some rt' ∧ Inv rt' [x] W.
Proof.
  intros Hi Hk. destruct (fp_alive _ _ _ x Hi) as [hd Eh]; [set_solver|]. rewrite (forget_fields_eq _ _ _ _ Eh). eexists. split; [done|].
  eapply fp_update; [exact Hi|set_solver|eapply kind_imp; [exact Hk|]; by intros []|exact Eh|done|]. right. split; [done|by eexists].
Qed.
Lemma set_free_mark_ok rt x W : Inv rt [x] W → kind_at h0 is_object x → ∃ rt', set_free_mark rt x = Some rt' ∧ Inv rt' [x] W ∧ body_of (rt_heap rt') x = body_of (rt_heap rt) x.
Proof.
  intros Hi Hk. destruct (fp_alive _ _ _ x Hi) as [hd Eh]; [set_solver|]. unfold set_free_mark. rewrite Eh. eexists. split; [done|]. split.
  - eapply fp_update; [exact Hi|set_solver|eapply kind_imp; [exact Hk|]; by intros []|exact Eh|done|]. by left.
  - unfold body_of. cbn. rewrite lookup_insert_eq. unfold header in Eh. by rewrite Eh.
Qed.
(** everything that the object holds is given up, once *)
Lemma free_object_ok rt x cls sh prop rs :
  body_of h0 x = Some (GcJSObject cls sh prop) → gc_releases h0 (GcJSObject cls sh prop) = Some rs → Forall (release_typed h0) rs →
  Inv rt [x] (targets rs) → body_of (rt_heap rt) x = body_of h0 x → ∃ rt', free_object x rt = free_or_keep rt' x ∧ Inv rt' [x] [].
Proof.
  intros Eb Er Ht Hi Ebr. cbn in Er. destruct sh as [sh|]; [|done].
  destruct (body_of h0 sh) as [[| |proto props| | |]|] eqn:Es; try done. destruct (free_properties props prop) as [l|] eqn:El; [|done]. cbn [mbind option_bind] in Er. destruct (class_finalizer h0 cls) as [ks|] eqn:Ek; [|done]. injection Er as <-.
  assert (kind_at h0 is_object x) as Hko by (unfold kind_at; by rewrite Eb). apply Forall_app in Ht as [Ht1 [Ht2 Ht3]%Forall_cons].
  unfold free_object. destruct (set_free_mark_ok _ _ _ Hi Hko) as (rt1 & -> & Hi1 & Eb1). cbn [mbind option_bind]. rewrite Eb1, Ebr, Eb. rewrite bind_app, bind_cons in Hi1. cbn [release_targets] in Hi1.
  assert (kind_at h0 is_shape sh) as Hks by (unfold kind_at; by rewrite Es).
  rewrite (fp_body _ _ _ sh Hi1) by (set_solver || by right). rewrite Es, El. cbn [mbind option_bind].
  destruct (releases_ok l rt1 [x] _ Ht1 Hi1) as (rt2 & -> & Hi2). cbn [mbind option_bind]. destruct (shape_ok sh rt2 [x] (targets ks) Ht2 Hi2) as (rt3 & E3 & Hi3).
  cbn [run_release] in E3. rewrite E3. cbn [mbind option_bind]. destruct (forget_fields_ok rt3 x _ cls Hi3 Hko) as (rt4 & -> & Hi4). cbn [mbind option_bind].
  rewrite (class_finalizer_heap (rt_heap rt4) cls ks Ek Ht3); [|intros b Hb Hk; apply (fp_body _ _ _ b Hi4); [done|by left]]. cbn [mbind option_bind].
  destruct (releases_ok ks rt4 [x] [] Ht3) as (rt5 & -> & Hi5); [by rewrite app_nil_r|]. cbn [mbind option_bind]. destruct (forget_fields_ok rt5 x _ ClassNone Hi5 Hko) as (rt6 & -> & Hi6). by exists rt6.
Qed.
Lemma free_gc_object_ok rt x o rs :
  body_of h0 x = Some o → is_value_object o → gc_releases h0 o = Some rs → Forall (release_typed h0) rs →
  Inv rt [x] (targets rs) → body_of (rt_heap rt) x = body_of h0 x → ∃ rt', free_gc_object x rt = free_or_keep rt' x ∧ Inv rt' [x] [].
Proof.
  intros Eb Hv Er Ht Hi Ebr. destruct (releases_ok rs rt [x] [] Ht) as (rt' & E1 & Hi'); [by rewrite app_nil_r|]. unfold free_gc_object, free_function_bytecode, __async_func_free. rewrite Ebr, Eb.
  destruct o as [cls sh prop|cpool realm k|proto props|d v a|s|c]; try done.
  - eapply free_object_ok; [exact Eb|exact Er|done|done|done].
  - injection Er as <-. rewrite for_each_app in E1. unfold free_values in E1. rewrite for_each_fmap in E1. change (for_each (λ x, run_release (FreeValue x)) cpool rt) with (for_each free_value cpool rt) in E1.
    destruct (for_each free_value cpool rt) as [rt1|]; [|done]. cbn [mbind option_bind] in *. rewrite for_each_fmap in E1. change (for_each JS_FreeContext (opt_list realm) rt1 = Some rt') in E1. rewrite E1. by exists rt'.
  - cbn in Er. rewrite Er. cbn [mbind option_bind]. rewrite E1. by exists rt'.
Qed.
End Releases.
