(* ===== verification/GcFree.v ===== *)
(** * Freeing the cycles (js/quickjs.c)

    [gc_free_cycles]: the objects of the temporary list give up what they
    refer to, one after the other, the shapes, variables and contexts go with
    their last reference, and the memory of an object that the others still
    refer to stays until the end.  The invariant follows the references that
    are still to be given up. *)
From stdpp Require Import gmap.
From S2P Require Import Prelude DList GcHeap Gc GcMark GcAgree GcRelease.

(** ** Leaving a list *)
Lemma lists_del m G T Z x : dlists m (gc_lists G T Z) → x ∈ T ++ Z →
  ∃ m' T' Z', list_del m (GcLink x) = Some m' ∧ dlists m' (gc_lists G T' Z') ∧ free_node (gc_lists G T' Z') (GcLink x) ∧ GcLink x ∈ dom m' ∧
    (length T' <= length T)%nat ∧ (x ∈ T → (length T' < length T)%nat) ∧ (∀ p, p ∈ T' ↔ p ∈ T ∧ p ≠ x) ∧ (∀ p, p ∈ Z' ↔ p ∈ Z ∧ p ≠ x).
Proof.
  intros D Hx. pose proof (lists_nodup _ _ _ _ D) as Hnd. apply NoDup_app in Hnd as (_ & _ & (N1 & N2 & N3)%NoDup_app).
  apply elem_of_app in Hx as [Hx|Hx]; apply list_elem_of_split in Hx as (l1 & l2 & ->).
  - assert (gc_lists G (l1 ++ x :: l2) Z !! TmpObjList = Some ((GcLink <$> l1) ++ GcLink x :: (GcLink <$> l2))) as E by (by rewrite gc_lists_tmp, fmap_split).
    destruct (dlists_del m _ _ _ _ _ D E) as (m' & Ed & Dm & D'). pose proof (dlists_del_free _ _ _ _ _ _ D E) as Hf. rewrite <- fmap_app in D', Hf. rewrite gc_lists_set_tmp in D', Hf.
    apply NoDup_app in N1 as (N1 & N4 & [N5 N6]%NoDup_cons). assert (x ∉ Z) as Hz by (apply N2; set_solver). clear N2. exists m', (l1 ++ l2), Z. split; [done|]. split; [done|]. split; [done|].
    split; [rewrite Dm; eapply dlists_in; [exact D|exact E|set_solver]|]. rewrite !length_app. cbn. split; [lia|]. split; [lia|]. clear D D' Hf. split; intros p; [|split; [intros Hp; split; [done|congruence]|naive_solver]].
    rewrite !elem_of_app, elem_of_cons. split; [|naive_solver]. intros Hp. split; [naive_solver|]. intros ->. destruct Hp as [Hp|Hp]; [apply (N4 x Hp); set_solver|done].
  - assert (gc_lists G T (l1 ++ x :: l2) !! GcZeroRefCountList = Some ((GcLink <$> l1) ++ GcLink x :: (GcLink <$> l2))) as E by (by rewrite gc_lists_zero, fmap_split).
    destruct (dlists_del m _ _ _ _ _ D E) as (m' & Ed & Dm & D'). pose proof (dlists_del_free _ _ _ _ _ _ D E) as Hf. rewrite <- fmap_app in D', Hf. rewrite gc_lists_set_zero in D', Hf.
    apply NoDup_app in N3 as (N3 & N4 & [N5 N6]%NoDup_cons). assert (x ∉ T) as Hz by (intros Hp; apply (N2 x Hp); set_solver). clear N2. exists m', T, (l1 ++ l2). split; [done|]. split; [done|]. split; [done|].
    split; [rewrite Dm; eapply dlists_in; [exact D|exact E|set_solver]|]. split; [lia|]. split; [done|]. clear D D' Hf. split; intros p; [split; [intros Hp; split; [done|congruence]|naive_solver]|].
    rewrite !elem_of_app, elem_of_cons. split; [|naive_solver]. intros Hp. split; [naive_solver|]. intros ->. destruct Hp as [Hp|Hp]; [apply (N4 x Hp); set_solver|done].
Qed.

Section Freeing.
Context (h0 : gmap ptr gc_header) (L0 : list ptr) (ext : ptr → Z) (Sl : list ptr).
Notation kids := (kids h0).
Notation U V W := ((V ≫= kids) ++ W).
Definition base (p : ptr) : Z := if decide (p ∈ Sl) then ext p + cnt p (Sl ≫= kids) else 0.
Definition is_val (p : ptr) : bool := kind_at h0 is_value_object p.
(** [T], [Z]: the temporary list and that of the zombies; [V]: the objects that have given nothing up; [E]: those that are being freed; [W]: what remains of that *)
Record free_inv (rt : JSRuntime) (T Z V E W : list ptr) : Prop := {
  fi_lists : dlists (rt_links rt) (gc_lists Sl T Z);
  fi_phase : gc_phase rt = JS_GC_PHASE_REMOVE_CYCLES;
  fi_alloc : ∀ p, is_Some (rt_heap rt !! p) ↔ p ∈ Sl ++ T ++ Z;
  fi_count : ∀ p hd, rt_heap rt !! p = Some hd → gc_ref_count hd = base p + cnt p (U V W);
  fi_freed : ∀ p, p ∈ L0 → rt_heap rt !! p = None → base p + cnt p (U V W) = 0;
  fi_body : ∀ p hd, rt_heap rt !! p = Some hd →
    body_of h0 p = Some (gc_body hd) ∨ (p ∉ V ∧ p ∉ Sl ∧ kind_at h0 is_object p ∧ ∃ cls, gc_body hd = GcJSObject cls None []);
  fi_live : ∀ p hd, p ∈ Sl → rt_heap rt !! p = Some hd → gc_mark hd = 0 ∧ gc_free_mark <$> h0 !! p = Some (gc_free_mark hd);
  fi_nodup : NoDup (V ++ E);
  fi_todo : ∀ p, p ∈ V → p ∈ T ++ Z ∧ (is_val p → p ∈ T);
  fi_plain : ∀ p, p ∈ T ++ Z → is_val p = false → (p ∈ E ∧ base p + cnt p (U V W) = 0) ∨ (p ∈ V ∧ 0 < cnt p (U V W));
  fi_tmp : ∀ p, p ∈ T → p ∈ V ∨ p ∈ E;
  fi_cur : ∀ p, p ∈ E → p ∈ T ++ Z ∧ (is_val p → p ∈ T)
}.
Definition releasing (rt : JSRuntime) (n : nat) (E W : list ptr) : Prop := ∃ T Z V, (length T <= n)%nat ∧ free_inv rt T Z V E W.

Hypothesis Hok : heap_ok h0 L0 ext.
Hypothesis Hlive : ∀ p, p ∈ Sl ↔ reach h0 L0 ext p.
Lemma reach_in p : reach h0 L0 ext p → p ∈ L0.
Proof.
  induction 1 as [|p q _ IH Hq]; [done|]. destruct (ho_kids _ _ _ Hok p IH) as (l & E & Hl). apply Hl. unfold GcMark.kids in Hq. by rewrite E in Hq.
Qed.
Lemma base_live p : p ∈ Sl → 0 < base p.
Proof.
  intros Hp. unfold base. rewrite decide_True by done. apply Hlive in Hp. pose proof (ho_ext _ _ _ Hok p). pose proof (cnt_nonneg p (Sl ≫= kids)).
  inversion Hp as [? ? ?|q ? Hq Hk]; subst; [lia|]. assert (0 < cnt p (Sl ≫= kids)); [|lia]. apply cnt_pos, list_elem_of_bind. exists q. split; [done|]. by apply Hlive.
Qed.
Lemma base_garbage p : p ∉ Sl → base p = 0.
Proof. intros Hp. unfold base. by rewrite decide_False. Qed.
Lemma base_nonneg p : 0 <= base p.
Proof. destruct (decide (p ∈ Sl)) as [Hp|Hp]; [apply base_live in Hp; lia|rewrite base_garbage by done; lia]. Qed.
(** the live objects do not refer to the others, nor does the outside *)
Lemma garbage_count p : p ∈ L0 → p ∉ Sl → ext p = 0 ∧ cnt p (Sl ≫= kids) = 0.
Proof.
  intros Hp Hn. pose proof (ho_ext _ _ _ Hok p). split.
  - destruct (decide (0 < ext p)) as [He|He]; [|lia]. exfalso. apply Hn, Hlive. by apply reach_root.
  - apply cnt_zero. intros (q & Hq & Hk)%list_elem_of_bind. apply Hn, Hlive. eapply reach_step; [by apply Hlive|done].
Qed.
Lemma free_inv_perm rt T Z V V' E W W' : free_inv rt T Z V E W → V ≡ₚ V' → (∀ p, cnt p (U V W) = cnt p (U V' W')) → free_inv rt T Z V' E W'.
Proof.
  intros [F1 F2 F3 F4 F5 F6 F7 F8 F9 F10 F11 F12] EV EU. split; try done.
  - intros p hd Ep. rewrite <- EU. by apply F4.
  - intros p Hp Ep. rewrite <- EU. by apply F5.
  - intros p hd Ep. rewrite <- EV. by apply F6.
  - by rewrite <- EV.
  - intros p. rewrite <- EV. by apply F9.
  - intros p. rewrite <- EU, <- EV. by apply F10.
  - intros p. rewrite <- EV. by apply F11.
Qed.
Lemma free_inv_todo rt T Z V E W W' : free_inv rt T Z V E W → W ≡ₚ W' → free_inv rt T Z V E W'.
Proof. intros Hi EW. apply (free_inv_perm _ _ _ _ _ _ _ _ Hi); [done|]. intros p. by rewrite EW. Qed.

(** ** One reference less *)
Lemma free_inv_header rt T Z V E W x : free_inv rt T Z V E (x :: W) → x ∈ L0 → ∃ hd, rt_heap rt !! x = Some hd ∧ gc_ref_count hd = base x + cnt x (U V W) + 1.
Proof.
  intros Hi Hx. assert (cnt x (U V (x :: W)) = cnt x (U V W) + 1) as Ec by (rewrite !cnt_app; cbn; rewrite decide_True by done; lia).
  destruct (rt_heap rt !! x) as [hd|] eqn:E0; [|exfalso; pose proof (fi_freed _ _ _ _ _ _ Hi x Hx E0) as Hz; pose proof (base_nonneg x); pose proof (cnt_nonneg x (U V W)); lia].
  exists hd. split; [done|]. rewrite (fi_count _ _ _ _ _ _ Hi x hd E0). lia.
Qed.
(** the count goes down; what has none left is to be freed *)
Lemma decr_inv rt T Z V E W x : free_inv rt T Z V E (x :: W) → x ∈ L0 →
  ∃ rt' n, decr rt x = Some (rt', n) ∧ n = base x + cnt x (U V W) ∧ (is_val x ∨ 0 < n → free_inv rt' T Z V E W) ∧
    (is_val x = false → n = 0 → ∃ V', body_of (rt_heap rt') x = body_of h0 x ∧ free_inv rt' T Z V' (x :: E) (kids x ++ W)).
Proof.
  intros Hi Hx. destruct (free_inv_header _ _ _ _ _ _ _ Hi Hx) as (hd & Eh & Ec). destruct (decr_heap rt x hd Eh) as (rt' & Ed & Ert & Hal & Hh).
  set (n := gc_ref_count hd - 1) in *. exists rt', n. split; [done|]. split; [lia|].
  assert (∀ p, cnt p (U V (x :: W)) = cnt p (U V W) + if decide (x = p) then 1 else 0) as Cu by (intros p; rewrite !cnt_app; cbn; lia).
  destruct Hi as [F1 F2 F3 F4 F5 F6 F7 F8 F9 F10 F11 F12]. assert (rt_links rt' = rt_links rt ∧ gc_phase rt' = gc_phase rt) as [El Ep] by (by subst rt').
  assert (∀ p hd', rt_heap rt' !! p = Some hd' → gc_ref_count hd' = base p + cnt p (U V W)) as G4.
  { intros p hd' (hd0 & E0 & _ & _ & _ & ->)%Hh. rewrite (F4 _ _ E0), Cu. lia. }
  assert (∀ p, p ∈ L0 → rt_heap rt' !! p = None → base p + cnt p (U V W) = 0) as G5.
  { intros p Hp E0. assert (rt_heap rt !! p = None) as E1 by (apply eq_None_not_Some; rewrite <- Hal; by apply eq_None_not_Some). specialize (F5 p Hp E1). rewrite Cu in F5. pose proof (base_nonneg p). pose proof (cnt_nonneg p (U V W)). case_decide; lia. }
  split.
  - intros Hn. split; rewrite ?El, ?Ep; try done.
    + intros p. by rewrite Hal.
    + intros p hd' (hd0 & E0 & -> & _)%Hh. by apply F6.
    + intros p hd' Hp (hd0 & E0 & _ & -> & -> & _)%Hh. by apply F7.
    + intros p Hp Hv. pose proof (base_nonneg p). pose proof (cnt_nonneg p (U V W)). destruct (F10 p Hp Hv) as [[H1 H2]|[H1 H2]]; rewrite Cu in H2; [left; split; [done|]; case_decide; lia|].
      destruct (decide (x = p)) as [<-|]; [|right; split; [done|lia]]. destruct Hn as [Hn|Hn]; [by rewrite Hv in Hn|]. destruct (decide (x ∈ Sl)) as [Hs|Hs]; [|rewrite (base_garbage x Hs) in *; right; split; [done|lia]].
      exfalso. apply lists_nodup in F1. apply NoDup_app in F1 as (_ & F1 & _). by apply (F1 x Hs).
  - intros Hv Hn. assert (x ∈ T ++ Z) as HxT.
    { assert (x ∈ Sl ++ T ++ Z) as H by (apply F3; eauto). apply elem_of_app in H as [H|H]; [|done]. apply base_live in H. pose proof (cnt_nonneg x (U V W)). lia. }
    destruct (F10 x HxT Hv) as [[H1 H2]|[H1 H2]].
    { rewrite Cu, decide_True in H2 by done. pose proof (base_nonneg x). pose proof (cnt_nonneg x (U V W)). lia. }
    apply list_elem_of_split in H1 as (V1 & V2 & ->). exists (V1 ++ V2).
    assert (∀ p, cnt p (U (V1 ++ V2) (kids x ++ W)) = cnt p (U (V1 ++ x :: V2) W)) as Cv by (intros p; rewrite !bind_app, bind_cons, !cnt_app; lia).
    assert (∀ p, p ∈ V1 ++ V2 → p ∈ V1 ++ x :: V2) as Hsub by set_solver.
    assert (x ∉ V1 ++ V2 ∧ x ∉ E ∧ NoDup ((V1 ++ V2) ++ x :: E)) as (N1 & N2 & N3).
    { assert (x :: (V1 ++ V2) ++ E ≡ₚ (V1 ++ x :: V2) ++ E) as P by solve_Permutation. rewrite <- P in F8. split; [|split]; [apply NoDup_cons in F8 as [F8 _]; set_solver..|]. by rewrite <- Permutation_middle. }
    split.
    { destruct (F6 x hd Eh) as [E0|(E0 & _)]; [|by set_solver]. subst rt'. unfold body_of at 1. cbn. rewrite lookup_insert_eq. cbn. by rewrite E0. }
    split; rewrite ?El, ?Ep; try done.
    + intros p. by rewrite Hal.
    + intros p hd'. rewrite Cv. by apply G4.
    + intros p. rewrite Cv. by apply G5.
    + intros p hd' (hd0 & E0 & -> & _)%Hh. destruct (F6 _ _ E0) as [?|(B1 & B2 & B3 & B4)]; [by left|right]. split; [set_solver|done].
    + intros p hd' Hp (hd0 & E0 & _ & -> & -> & _)%Hh. by apply F7.
    + intros p Hp. by apply F9, Hsub.
    + intros p Hp Hv'. rewrite Cv. destruct (decide (x = p)) as [<-|Hne]; [left; split; [set_solver|lia]|]. destruct (F10 p Hp Hv') as [[B1 B2]|[B1 B2]]; rewrite Cu, decide_False in B2 by done; [left|right]; (split; [set_solver|lia]).
    + intros p Hp. destruct (decide (x = p)) as [<-|Hne]; [right; set_solver|]. destruct (F11 p Hp); [left|right]; set_solver.
    + intros p [->|Hp]%elem_of_cons; [|by apply F12]. split; [done|]. by rewrite Hv.
Qed.

(** ** An object goes *)
(** its memory, when nothing refers to it; the list, when something does *)
Lemma free_inv_gone rt T Z V x E W : free_inv rt T Z V (x :: E) W → base x + cnt x (U V W) = 0 →
  ∃ rt' T' Z', (rt ← remove_gc_object rt x; js_free_obj rt x) = Some rt' ∧ (length T' <= length T)%nat ∧ (x ∈ T → (length T' < length T)%nat) ∧ free_inv rt' T' Z' V E W.
Proof.
  intros [F1 F2 F3 F4 F5 F6 F7 F8 F9 F10 F11 F12] Hz. destruct (F12 x) as [HxT Hxv]; [set_solver|].
  destruct (lists_del _ _ _ _ _ F1 HxT) as (m' & T' & Z' & Ed & D' & Hf & _ & Hl & Hl2 & HT & HZ). assert (is_Some (rt_heap rt !! x)) as [hd Eh] by (apply F3; set_solver).
  unfold remove_gc_object, rt_list_del, js_free_obj, header. rewrite Ed. cbn [mbind option_bind rt_heap set_links]. rewrite Eh. cbn [mbind option_bind].
  eexists _, T', Z'. split; [done|]. split; [done|]. split; [done|].
  assert (x ∉ V ∧ x ∉ E ∧ NoDup (V ++ E)) as (N1 & N2 & N3) by (rewrite <- Permutation_middle in F8; apply NoDup_cons in F8 as [F8 ?]; split; [|split]; [set_solver..|done]).
  assert (∀ p, p ∈ T' ++ Z' ↔ p ∈ T ++ Z ∧ p ≠ x) as HTZ by (intros p; rewrite !elem_of_app, HT, HZ; naive_solver).
  assert (x ∉ Sl) as HxS by (intros Hx; apply lists_nodup in F1; apply NoDup_app in F1 as (_ & F1 & _); by apply (F1 x Hx)).
  split; cbn; try done.
  - by apply dlists_delete.
  - intros p. rewrite lookup_delete_is_Some, F3, !elem_of_app, HT, HZ. split; [|intros [Hp|Hp]; [split; [congruence|by left]|naive_solver]]. intros [Hne Hp]. naive_solver.
  - intros p hd' [_ E0]%lookup_delete_Some. by apply F4.
  - intros p Hp E0. destruct (decide (x = p)) as [<-|Hne]; [done|]. rewrite lookup_delete_ne in E0 by done. by apply F5.
  - intros p hd' [_ E0]%lookup_delete_Some. by apply F6.
  - intros p hd' Hp [_ E0]%lookup_delete_Some. by apply F7.
  - intros p Hp. destruct (F9 p Hp) as [A1 A2]. rewrite HTZ, HT. assert (p ≠ x) by congruence. naive_solver.
  - intros p [Hp Hne]%HTZ Hv. destruct (F10 p Hp Hv) as [[A1 A2]|A]; [left; split; [set_solver|done]|by right].
  - intros p [Hp Hne]%HT. destruct (F11 p Hp); [by left|right; set_solver].
  - intros p Hp. destruct (F12 p) as [A1 A2]; [set_solver|]. rewrite HTZ, HT. assert (p ≠ x) by congruence. naive_solver.
Qed.
Lemma free_inv_zombie rt T Z V x E W : free_inv rt T Z V (x :: E) W → is_val x →
  ∃ rt' T' Z', (rt ← remove_gc_object rt x; rt_list_add_tail rt x GcZeroRefCountList) = Some rt' ∧ (length T' < length T)%nat ∧ free_inv rt' T' Z' V E W.
Proof.
  intros [F1 F2 F3 F4 F5 F6 F7 F8 F9 F10 F11 F12] Hv. destruct (F12 x) as [HxT Hxv]; [set_solver|].
  destruct (lists_del _ _ _ _ _ F1 HxT) as (m' & T' & Z' & Ed & D' & Hf & Hd & _ & Hl & HT & HZ).
  unfold remove_gc_object, rt_list_del. rewrite Ed. cbn [mbind option_bind]. unfold rt_list_add_tail. cbn [rt_links set_links].
  destruct (dlists_add_tail m' _ GcZeroRefCountList _ (GcLink x) D' (gc_lists_zero _ _ _) Hf Hd) as (m2 & -> & _ & D2). cbn [mbind option_bind].
  change [GcLink x] with (GcLink <$> [x]) in D2. rewrite <- fmap_app, gc_lists_set_zero in D2. eexists _, T', (Z' ++ [x]). split; [done|]. split; [by apply Hl, Hxv|].
  assert (x ∉ V ∧ x ∉ E ∧ NoDup (V ++ E)) as (N1 & N2 & N3) by (rewrite <- Permutation_middle in F8; apply NoDup_cons in F8 as [F8 ?]; split; [|split]; [set_solver..|done]).
  assert (∀ p, p ∈ T' ++ Z' ++ [x] ↔ p ∈ T ++ Z) as HTZ.
  { intros p. rewrite !elem_of_app, HT, HZ, list_elem_of_singleton. destruct (decide (p = x)) as [->|]; [|naive_solver]. split; [|naive_solver]. intros _. by apply elem_of_app. }
  split; cbn; try done.
  - intros p. rewrite F3, !(elem_of_app Sl), HTZ. done.
  - intros p Hp. destruct (F9 p Hp) as [A1 A2]. rewrite HTZ, HT. assert (p ≠ x) by congruence. naive_solver.
  - intros p Hp%HTZ Hv'. destruct (F10 p Hp Hv') as [[A1 A2]|A]; [left; split; [|done]|by right]. apply elem_of_cons in A1 as [->|A1]; [|done]. by rewrite Hv' in Hv.
  - intros p [Hp Hne]%HT. destruct (F11 p Hp); [by left|right; set_solver].
  - intros p Hp. destruct (F12 p) as [A1 A2]; [set_solver|]. rewrite HTZ, HT. assert (p ≠ x) by congruence. naive_solver.
Qed.
Lemma free_or_keep_inv rt n x W : releasing rt (S n) [x] W → is_val x → ∃ rt', free_or_keep rt x = Some rt' ∧ releasing rt' n [] W.
Proof.
  intros (T & Z & V & Hn & Hi) Hv. destruct (fi_cur _ _ _ _ _ _ Hi x) as [HxT Hxv]; [set_solver|]. specialize (Hxv Hv).
  assert (is_Some (rt_heap rt !! x)) as [hd Eh] by (apply (fi_alloc _ _ _ _ _ _ Hi); set_solver).
  pose proof (fi_count _ _ _ _ _ _ Hi x hd Eh) as Ec. pose proof (fi_phase _ _ _ _ _ _ Hi) as Hph. unfold free_or_keep.
  destruct (Z.eqb_spec (gc_ref_count hd) 0) as [Ez|Ez].
  - destruct (free_inv_gone _ _ _ _ _ _ _ Hi) as (rt' & T' & Z' & E1 & _ & Hl & Hi'); [lia|]. exists rt'. unfold remove_gc_object in *.
    destruct (rt_list_del rt x) as [rta|] eqn:Ed; [|done]. cbn [mbind option_bind] in *. unfold rt_list_del in Ed. destruct (list_del (rt_links rt) (GcLink x)); [|done]. injection Ed as <-.
    unfold header at 1. cbn [rt_heap set_links]. rewrite Eh. cbn [mbind option_bind]. rewrite Ez. cbn [Z.eqb negb]. rewrite andb_false_r. split; [done|]. exists T', Z', V. split; [|done]. specialize (Hl Hxv). lia.
  - destruct (free_inv_zombie _ _ _ _ _ _ _ Hi Hv) as (rt' & T' & Z' & E1 & Hl & Hi'). exists rt'. unfold remove_gc_object in *.
    destruct (rt_list_del rt x) as [rta|] eqn:Ed; [|done]. cbn [mbind option_bind] in *. unfold rt_list_del in Ed. destruct (list_del (rt_links rt) (GcLink x)); [|done]. injection Ed as <-.
    unfold header at 1. cbn [rt_heap set_links gc_phase]. rewrite Eh. cbn [mbind option_bind]. rewrite Hph, bool_decide_true by done. replace (gc_ref_count hd =? 0) with false by lia. cbn [negb andb].
    split; [done|]. exists T', Z', V. split; [lia|done].
Qed.
Lemma plain_gone rt n x E W : releasing rt n (x :: E) W → is_val x = false → ∃ rt', (rt ← remove_gc_object rt x; js_free_obj rt x) = Some rt' ∧ releasing rt' n E W.
Proof.
  intros (T & Z & V & Hn & Hi) Hv. assert (base x + cnt x (U V W) = 0) as Hz.
  { destruct (fi_cur _ _ _ _ _ _ Hi x) as [HxT _]; [set_solver|]. destruct (fi_plain _ _ _ _ _ _ Hi x HxT Hv) as [[_ ?]|[Hx _]]; [done|].
    pose proof (fi_nodup _ _ _ _ _ _ Hi) as Hnd. apply NoDup_app in Hnd as (_ & Hnd & _). exfalso. apply (Hnd x Hx). set_solver. }
  destruct (free_inv_gone _ _ _ _ _ _ _ Hi Hz) as (rt' & T' & Z' & E1 & Hl & _ & Hi'). exists rt'. split; [done|]. exists T', Z', V. split; [lia|done].
Qed.

(** ** The interface of the free functions *)
Hypothesis Hbody : ∀ p o, p ∈ L0 → p ∉ Sl → body_of h0 p = Some o → body_ok h0 o ∧ ∀ rs, gc_releases h0 o = Some rs → Forall (release_typed h0) rs.
Lemma kind_in f p : kind_at h0 f p → p ∈ L0.
Proof. intros Hk%kind_some. by apply (ho_dom _ _ _ Hok). Qed.
Lemma kids_releases p : p ∈ L0 → p ∉ Sl → ∃ o rs, body_of h0 p = Some o ∧ gc_releases h0 o = Some rs ∧ targets rs ≡ₚ kids p ∧ Forall (release_typed h0) rs.
Proof.
  intros Hp Hn. assert (∃ o, body_of h0 p = Some o) as [o E] by (pose proof Hp as [hd E]%(ho_dom _ _ _ Hok); unfold body_of; rewrite E; by eexists).
  destruct (Hbody p o Hp Hn E) as [Hb Ht]. destruct (ho_kids _ _ _ Hok p Hp) as (l & El & _). unfold GcMark.kids. rewrite El.
  destruct (releases_agree _ _ _ _ E El Hb) as (rs & Er & Ep). exists o, rs. split; [done|]. split; [done|]. split; [done|]. by apply Ht.
Qed.
Lemma releasing_perm rt n E W W' : releasing rt n E W → W ≡ₚ W' → releasing rt n E W'.
Proof. intros (T & Z & V & Hn & Hi) EW. exists T, Z, V. split; [done|]. by eapply free_inv_todo. Qed.
Lemma decr_val rt n E W x : releasing rt n E (x :: W) → is_val x →
  ∃ rt' k rt2, decr rt x = Some (rt', k) ∧ 0 <= k ∧ (if k =? 0 then queue_zero x rt' else Some rt') = Some rt2 ∧ releasing rt2 n E W.
Proof.
  intros (T & Z & V & Hn & Hi) Hv. destruct (decr_inv _ _ _ _ _ _ _ Hi (kind_in _ _ Hv)) as (rt' & k & Ed & Ek & Hi' & _). exists rt', k, rt'. split; [done|]. specialize (Hi' (or_introl Hv)).
  pose proof (base_nonneg x) as B. pose proof (cnt_nonneg x (U V W)) as C. split; [lia|]. split; [|by exists T, Z, V]. unfold queue_zero. rewrite bool_decide_true by apply (fi_phase _ _ _ _ _ _ Hi'). by destruct (k =? 0).
Qed.
Lemma decr_plain rt n E W x : releasing rt n E (x :: W) → is_Some (h0 !! x) → is_val x = false →
  ∃ rt' k, decr rt x = Some (rt', k) ∧ 0 <= k ∧ (∃ hd, header rt x = Some hd ∧ gc_ref_count hd = k + 1 ∧ header rt' x = Some (with_ref_count hd k)) ∧
    (0 < k → releasing rt' n E W) ∧
    (k = 0 → body_of (rt_heap rt') x = body_of h0 x ∧
      ∃ o rs, body_of h0 x = Some o ∧ gc_releases h0 o = Some rs ∧ Forall (release_typed h0) rs ∧ releasing rt' n (x :: E) (targets rs ++ W)).
Proof.
  intros (T & Z & V & Hn & Hi) Hx%(ho_dom _ _ _ Hok) Hv. destruct (free_inv_header _ _ _ _ _ _ _ Hi Hx) as (hd & Eh & Ec). destruct (decr_inv _ _ _ _ _ _ _ Hi Hx) as (rt' & k & Ed & Ek & Hi1 & Hi2).
  pose proof (base_nonneg x) as B. pose proof (cnt_nonneg x (U V W)) as C. exists rt', k. split; [done|]. split; [lia|]. split.
  { exists hd. split; [done|]. split; [lia|]. unfold decr, header in Ed. rewrite Eh in Ed. cbn in Ed. injection Ed as <- E2. unfold header. cbn. rewrite lookup_insert_eq. by rewrite E2. }
  split; [intros Hk; exists T, Z, V; split; [done|]; apply Hi1; by right|]. intros Hk. assert (x ∉ Sl) as Hs by (intros Hs%base_live; lia).
  destruct (Hi2 Hv Hk) as (V' & Eb & Hi'). split; [done|]. destruct (kids_releases x Hx Hs) as (o & rs & Eo & Er & Ep & Ht). exists o, rs. split; [done|]. split; [done|]. split; [done|].
  exists T, Z, V'. split; [done|]. eapply free_inv_todo; [exact Hi'|by rewrite Ep].
Qed.
Lemma releasing_alive rt n E W x : releasing rt n E W → x ∈ E ∨ x ∈ W ∧ x ∈ L0 → is_Some (header rt x).
Proof.
  intros (T & Z & V & Hn & [F1 F2 F3 F4 F5 F6 F7 F8 F9 F10 F11 F12]) [Hx|[Hx Hl]]; [apply F3; destruct (F12 x Hx); set_solver|].
  destruct (header rt x) as [hd|] eqn:E0; [by exists hd|]. specialize (F5 x Hl E0). pose proof (base_nonneg x). assert (0 < cnt x (U V W)); [|lia]. apply cnt_pos. set_solver.
Qed.
Lemma releasing_body rt n E W x : releasing rt n E W → x ∈ W → kind_at h0 is_bytecode x ∨ kind_at h0 is_shape x → body_of (rt_heap rt) x = body_of h0 x.
Proof.
  intros Hi Hx Hk. assert (kind_at h0 is_object x = false ∧ x ∈ L0) as [Hk' Hl] by (destruct Hk as [Hk|Hk]; (split; [eapply kind_not; [exact Hk|]; by intros []|by eapply kind_in])).
  destruct (releasing_alive _ _ _ _ _ Hi (or_intror (conj Hx Hl))) as [hd Eh]. destruct Hi as (T & Z & V & Hn & [F1 F2 F3 F4 F5 F6 F7 F8 F9 F10 F11 F12]).
  unfold body_of at 1. unfold header in Eh. rewrite Eh. destruct (F6 _ _ Eh) as [?|(_ & _ & Hk2 & _)]; [done|]. by rewrite Hk' in Hk2.
Qed.
Lemma releasing_update rt n E W x hd hd' :
  releasing rt n E W → x ∈ E → is_val x → header rt x = Some hd → gc_ref_count hd' = gc_ref_count hd →
  (gc_body hd' = gc_body hd ∨ kind_at h0 is_object x ∧ ∃ cls, gc_body hd' = GcJSObject cls None []) → releasing (put_header rt x hd') n E W.
Proof.
  intros (T & Z & V & Hn & [F1 F2 F3 F4 F5 F6 F7 F8 F9 F10 F11 F12]) HxE Hv Eh Ec Eb. exists T, Z, V. split; [done|].
  assert (x ∉ V) as N1 by (apply NoDup_app in F8 as (_ & F8 & _); intros Hx; by apply (F8 x Hx)). unfold header in Eh.
  assert (x ∈ T) as Hx by (by apply F12). assert (x ∉ Sl) as N2 by (intros Hs; apply lists_nodup in F1; apply NoDup_app in F1 as (_ & F1 & _); apply (F1 x Hs); set_solver).
  split; cbn; try done.
  - intros p. rewrite lookup_insert_is_Some, <- F3. split; [intros [<-|[_ ?]]; [by rewrite Eh|done]|]. intros Hp. destruct (decide (x = p)); [by left|by right].
  - intros p hd0 [[<- <-]|[Hne E0]]%lookup_insert_Some; [rewrite Ec|]; by apply F4.
  - intros p Hp [E0 _]%lookup_insert_None. by apply F5.
  - intros p hd0 [[<- <-]|[Hne E0]]%lookup_insert_Some; [|by apply F6]. destruct Eb as [->|[Hk Eb]]; [by apply F6|]. by right.
  - intros p hd0 Hp [[<- <-]|[Hne E0]]%lookup_insert_Some; [done|by apply F7].
Qed.
#[export] Instance cycle_protocol n : FreeProtocol h0 (λ rt E W, releasing rt n E W).
Proof.
  split.
  - intros rt E W W'. apply releasing_perm.
  - intros rt E W x. apply decr_val.
  - intros rt E W x. apply decr_plain.
  - intros rt E W x. apply plain_gone.
  - intros rt E W x Hi Hx. eapply releasing_alive; [exact Hi|by left].
  - intros rt E W x. apply releasing_body.
  - intros rt E W x hd hd'. apply releasing_update.
Qed.
End Freeing.
