(* ===== verification/GcCycles.v ===== *)
(** * What a collection does (js/quickjs.c)

    The steps of [gc_free_cycles] and what is left at the end; then [JS_RunGC]
    on a heap whose counts are right: no assertion fails and no freed object is
    used, the objects that stay are those that the outside reaches, and their
    counts are right again. *)
From stdpp Require Import gmap.
From S2P Require Import Prelude DList GcHeap Gc GcMark GcAgree GcRelease GcFree.

(** * The cycles are freed *)
Section Cycles.
Context (h0 : gmap ptr gc_header) (L0 : list ptr) (ext : ptr → Z) (Sl : list ptr).
Notation kids := (kids h0).
Notation base := (base h0 ext Sl).
Notation is_val := (is_val h0).
Notation free_inv := (free_inv h0 L0 ext Sl).
Notation releasing := (releasing h0 L0 ext Sl).
Notation U V W := ((V ≫= kids) ++ W).
Hypothesis Hok : heap_ok h0 L0 ext.
Hypothesis Hlive : ∀ p, p ∈ Sl ↔ reach h0 L0 ext p.
Hypothesis Hbody : ∀ p o, p ∈ L0 → p ∉ Sl → body_of h0 p = Some o → body_ok h0 o ∧ ∀ rs, gc_releases h0 o = Some rs → Forall (release_typed h0) rs.

(** ** One object of the temporary list *)
Lemma free_inv_start rt T Z V x : free_inv rt T Z V [] [] → x ∈ T → is_val x →
  x ∈ L0 ∧ x ∉ Sl ∧ body_of (rt_heap rt) x = body_of h0 x ∧ ∃ V', free_inv rt T Z V' [x] (kids x).
Proof.
  intros [F1 F2 F3 F4 F5 F6 F7 F8 F9 F10 F11 F12] Hx Hv. split; [by eapply (kind_in h0 L0 ext Hok)|]. split; [intros Hs; apply lists_nodup in F1; apply NoDup_app in F1 as (_ & F1 & _); apply (F1 x Hs); set_solver|].
  assert (is_Some (rt_heap rt !! x)) as [hd Eh] by (apply F3; set_solver). destruct (F11 x Hx) as [HV|?]; [|by set_solver].
  split; [destruct (F6 x hd Eh) as [E|[? _]]; [|done]; unfold body_of at 1; by rewrite Eh|]. apply list_elem_of_split in HV as (V1 & V2 & ->). exists (V1 ++ V2).
  assert (∀ p, cnt p (U (V1 ++ V2) (kids x)) = cnt p (U (V1 ++ x :: V2) [])) as Cv by (intros p; rewrite !bind_app, bind_cons, !cnt_app; cbn; lia).
  rewrite app_nil_r in F8. assert (x ∉ V1 ++ V2 ∧ NoDup ((V1 ++ V2) ++ [x])) as (N1 & N3).
  { assert (x :: (V1 ++ V2) ≡ₚ V1 ++ x :: V2) as P by solve_Permutation. rewrite <- P in F8. split; [by apply NoDup_cons in F8 as [F8 _]|]. by rewrite <- Permutation_cons_append. }
  assert (∀ p, p ∈ V1 ++ V2 → p ∈ V1 ++ x :: V2) as Hsub by set_solver. split; try done.
  - intros p hd'. rewrite Cv. apply F4.
  - intros p. rewrite Cv. apply F5.
  - intros p hd' E0. destruct (F6 _ _ E0) as [?|(B1 & B2)]; [by left|right]. split; [set_solver|done].
  - intros p Hp. by apply F9, Hsub.
  - intros p Hp Hv'. rewrite Cv. destruct (F10 p Hp Hv') as [[B1 B2]|[B1 B2]]; [by set_solver|]. right. split; [|done]. assert (p ≠ x) by (intros ->; by rewrite Hv' in Hv). set_solver.
  - intros p Hp. destruct (decide (x = p)) as [<-|Hne]; [right; set_solver|]. destruct (F11 p Hp); [left|right]; set_solver.
  - intros p ->%list_elem_of_singleton. split; [set_solver|done].
Qed.
Lemma free_gc_object_inv rt n T Z V x : free_inv rt T Z V [] [] → x ∈ T → (length T <= S n)%nat → is_val x →
  ∃ rt', free_gc_object x rt = Some rt' ∧ releasing rt' n [] [].
Proof.
  intros Hi Hx Hl Hv. destruct (free_inv_start _ _ _ _ _ Hi Hx Hv) as (Hx0 & Hn & Eb & V' & Hi1). destruct (kids_releases h0 L0 ext Sl Hok Hbody x Hx0 Hn) as (o & rs & Eo & Er & Ep & Ht).
  assert (releasing rt (S n) [x] (targets rs)) as Hi2 by (exists T, Z, V'; split; [done|]; eapply free_inv_todo; [exact Hi1|by rewrite Ep]).
  pose proof (cycle_protocol h0 L0 ext Sl Hok Hlive Hbody (S n)) as HP. pose proof Hv as Hvo. unfold GcFree.is_val, kind_at in Hvo. rewrite Eo in Hvo.
  destruct (free_gc_object_ok h0 _ rt x o rs Eo Hvo Er Ht Hi2 Eb) as (rt' & -> & Hi3). by apply (free_or_keep_inv h0 L0 ext Sl Hok Hlive).
Qed.
(** ** The temporary list *)
Lemma free_cycles_loop_inv fuel rt : releasing rt fuel [] [] → ∃ rt', free_cycles_loop fuel rt = Some rt' ∧ releasing rt' 0 [] [].
Proof.
  revert rt. induction fuel as [|fuel IH]; intros rt (T & Z & V & Hn & Hi); pose proof (fi_lists _ _ _ _ _ _ _ _ _ _ Hi) as Dl; cbn [free_cycles_loop];
    rewrite (dlists_first _ _ _ _ Dl (gc_lists_tmp _ _ _)); cbn [mbind option_bind]; (destruct T as [|x T]; [exists rt; split; [done|by exists [], Z, V]|]).
  { cbn in Hn. lia. }
  cbn [fmap list_fmap hd]. assert (is_Some (rt_heap rt !! x)) as [hd Eh] by (apply (fi_alloc _ _ _ _ _ _ _ _ _ _ Hi); set_solver). change (header rt x) with (rt_heap rt !! x). rewrite Eh. cbn [mbind option_bind].
  assert (is_value_object (gc_body hd) = is_val x) as ->.
  { unfold GcFree.is_val, kind_at. destruct (fi_body _ _ _ _ _ _ _ _ _ _ Hi x hd Eh) as [E0|(_ & _ & Hk & (cls & E0))]; [by rewrite E0|]. rewrite E0. unfold kind_at in Hk. destruct (body_of h0 x) as [[]|]; done. }
  destruct (is_val x) eqn:Hv.
  - destruct (free_gc_object_inv rt fuel (x :: T) Z V x Hi) as (rt1 & -> & Hi1); [set_solver|done|by rewrite Hv|]. cbn [mbind option_bind]. by apply IH.
  - destruct (move_tmp_zero rt Sl [] x T Z Dl) as (rt1 & -> & Eh1 & Ep1 & D'). cbn [mbind option_bind]. apply IH. exists T, (Z ++ [x]), V. split; [cbn in Hn; lia|].
    assert (∀ p, p ∈ T ++ Z ++ [x] ↔ p ∈ (x :: T) ++ Z) as HTZ by (intros p; rewrite !elem_of_app, !elem_of_cons, elem_of_nil; naive_solver).
    destruct Hi as [F1 F2 F3 F4 F5 F6 F7 F8 F9 F10 F11 F12]. split; rewrite ?Eh1, ?Ep1; try done.
    + intros p. rewrite F3, !(elem_of_app Sl), HTZ. done.
    + intros p Hp. rewrite HTZ. destruct (F9 p Hp) as [A1 A2]. split; [done|]. intros Hvp. specialize (A2 Hvp). apply elem_of_cons in A2 as [->|A2]; [by rewrite Hv in Hvp|done].
    + intros p. rewrite HTZ. apply F10.
    + intros p Hp. apply F11. set_solver.
    + by intros p Hp%elem_of_nil.
Qed.

(** nothing but values is left: the contexts go with the values that refer to them, the variables and shapes with these *)
Lemma target_kind r x : release_typed h0 r → x ∈ release_targets r →
  match r with FreeContext _ => kind_at h0 is_context x | FreeShape _ => kind_at h0 is_shape x | FreeVarRef _ => kind_at h0 is_var_ref x | _ => is_val x end.
Proof.
  destruct r as [v|sh|v|s|c]; cbn; [|by intros ? ->%list_elem_of_singleton| | |by intros ? ->%list_elem_of_singleton].
  - destruct v; cbn; try (by intros _ ?%elem_of_nil); intros Hk ->%list_elem_of_singleton; (eapply kind_imp; [exact Hk|]; by intros []).
  - destruct v as [v|]; [|by intros _ ?%elem_of_nil]. cbn. rewrite andb_true_r. by intros ? ->%list_elem_of_singleton.
  - intros Hk ->%list_elem_of_singleton. eapply kind_imp; [exact Hk|]. by intros [].
Qed.
Lemma plain_kids p x : p ∈ L0 → p ∉ Sl → is_val p = false → x ∈ kids p → kind_at h0 is_context x = false ∧ (kind_at h0 is_context p = false → is_val x).
Proof.
  intros Hp Hn Hv Hx. destruct (kids_releases h0 L0 ext Sl Hok Hbody p Hp Hn) as (o & rs & Eo & Er & Ep & Ht). rewrite <- Ep in Hx. apply list_elem_of_bind in Hx as (r & Hx & Hr). rewrite Forall_forall in Ht. pose proof (target_kind r x (Ht r Hr) Hx) as Hk.
  assert (is_val x → kind_at h0 is_context x = false) as Hvc by (intros Hk'; eapply kind_not; [exact Hk'|]; by intros []). unfold GcFree.is_val, kind_at in Hv. rewrite Eo in Hv.
  assert (kind_at h0 is_context p = is_context o) as -> by (unfold kind_at; by rewrite Eo).
  destruct o as [cls sh prop|cpool realm k|proto props|d v a|s|c]; try done; cbn in Er; injection Er as <-.
  - apply list_elem_of_fmap in Hr as (q & -> & _). auto.
  - destruct d; [apply list_elem_of_singleton in Hr as ->|apply list_elem_of_fmap in Hr as (q & -> & _)]; auto.
  - split; [|done]. apply elem_of_app in Hr as [Hr|[Hr|Hr]%elem_of_app].
    + apply list_elem_of_bind in Hr as (m & [Hr|Hr]%elem_of_app & _); apply list_elem_of_fmap in Hr as (q & -> & _); [eapply kind_not; [exact Hk|]; by intros []|auto].
    + apply list_elem_of_fmap in Hr as (q & -> & _). auto.
    + apply list_elem_of_fmap in Hr as (q & -> & _). eapply kind_not; [exact Hk|]. by intros [].
Qed.
Lemma nothing_left rt Z V : free_inv rt [] Z V [] [] → V = [] ∧ ∀ p, p ∈ Z → is_val p.
Proof.
  intros Hi. pose proof (fi_lists _ _ _ _ _ _ _ _ _ _ Hi) as Dl. apply lists_nodup in Dl. apply NoDup_app in Dl as (_ & Dl & _).
  assert (∀ x, x ∈ V → is_val x = false ∧ x ∈ L0 ∧ x ∉ Sl ∧ ∃ q, q ∈ V ∧ x ∈ kids q) as HV.
  { intros x Hx. destruct (fi_todo _ _ _ _ _ _ _ _ _ _ Hi x Hx) as [HZ HT]. assert (is_val x = false) as Hv by (destruct (is_val x); [specialize (HT I); by apply elem_of_nil in HT|done]).
    split; [done|]. destruct (fi_plain _ _ _ _ _ _ _ _ _ _ Hi x HZ Hv) as [[[]%elem_of_nil _]|[_ Hc]]. rewrite app_nil_r in Hc. apply cnt_pos, list_elem_of_bind in Hc as (q & Hxq & Hq).
    split; [|split; [intros Hs; by apply (Dl x Hs)|by exists q]]. assert (is_Some (rt_heap rt !! x)) as [hd Eh] by (apply (fi_alloc _ _ _ _ _ _ _ _ _ _ Hi); set_solver).
    apply (ho_dom _ _ _ Hok). destruct (fi_body _ _ _ _ _ _ _ _ _ _ Hi x hd Eh) as [Eb|(? & _)]; [|done]. unfold body_of in Eb. destruct (h0 !! x); [eauto|done]. }
  assert (V = []) as ->.
  { destruct V as [|x V]; [done|]. exfalso. destruct (HV x) as (Hvx & _ & _ & q & Hq & Hxq); [set_solver|]. destruct (HV q Hq) as (Hvq & Hq0 & Hqs & q' & Hq' & Hqq). destruct (HV q' Hq') as (Hvq' & Hq0' & Hqs' & _).
    destruct (plain_kids q' q Hq0' Hqs' Hvq' Hqq) as [Hc _]. destruct (plain_kids q x Hq0 Hqs Hvq Hxq) as [_ Hx]. specialize (Hx Hc). by rewrite Hvx in Hx. }
  split; [done|]. intros p Hp. destruct (is_val p) eqn:Hv; [done|]. destruct (fi_plain _ _ _ _ _ _ _ _ _ _ Hi p Hp Hv) as [[[]%elem_of_nil _]|[[]%elem_of_nil _]].
Qed.
End Cycles.

(** ** The zombies *)
Lemma free_zombies_spec fuel el1 rt F Z :
  dlists (rt_links rt) F → (∀ x, x ∈ Z → free_node F (GcLink x)) → NoDup Z → (∀ x, x ∈ Z → ∃ hd, header rt x = Some hd ∧ is_value_object (gc_body hd)) →
  (∀ l1 x l2, Z = l1 ++ x :: l2 → get_next (rt_links rt) (GcLink x) = Some (hd GcZeroRefCountList (GcLink <$> l2))) →
  is_Some (get_next (rt_links rt) GcZeroRefCountList) → (length Z <= fuel)%nat → (Z ≠ [] → el1 = hd GcZeroRefCountList (GcLink <$> tail Z)) →
  ∃ rt', free_zombies fuel (hd GcZeroRefCountList (GcLink <$> Z)) el1 rt = Some rt' ∧ dlists (rt_links rt') F ∧ gc_phase rt' = gc_phase rt ∧ GcZeroRefCountList ∈ dom (rt_links rt') ∧
    ∀ p, rt_heap rt' !! p = if decide (p ∈ Z) then None else rt_heap rt !! p.
Proof.
  revert fuel el1 rt. induction Z as [|x Z IH]; intros fuel el1 rt D Hf Hnd Hh Hn [n0 H0] Hl He.
  { exists rt. split; [by destruct fuel|]. split; [done|]. split; [done|]. split; [|done]. apply elem_of_dom. unfold get_next in H0. destruct (rt_links rt !! GcZeroRefCountList); [eauto|done]. }
  destruct fuel as [|fuel]; [cbn in Hl; lia|]. rewrite He by done. destruct (Hh x) as (hx & Ex & Hv); [set_solver|]. cbn [free_zombies hd fmap list_fmap tail]. rewrite Ex. cbn [mbind option_bind]. apply Is_true_eq_true in Hv. rewrite Hv. cbn [negb].
  unfold js_free_obj. rewrite Ex. cbn [mbind option_bind rt_links]. apply NoDup_cons in Hnd as [Hx Hnd].
  assert (∀ y, y ≠ GcLink x → get_next (delete (GcLink x) (rt_links rt)) y = get_next (rt_links rt) y) as Hg by (intros y Hy; unfold get_next; by rewrite lookup_delete_ne by congruence).
  assert (∃ n1, get_next (delete (GcLink x) (rt_links rt)) (hd GcZeroRefCountList (GcLink <$> Z)) = Some n1 ∧ (Z ≠ [] → n1 = hd GcZeroRefCountList (GcLink <$> tail Z))) as (n1 & En1 & Hn1).
  { destruct Z as [|y Z]; cbn [fmap list_fmap hd tail]; [exists n0; split; [by rewrite Hg|done]|]. eexists. split; [|done]. rewrite Hg by (intros [= ->]; set_solver). by apply (Hn [x] y Z). }
  fold (fmap (M := list) GcLink Z). rewrite En1. cbn [mbind option_bind].
  destruct (IH fuel n1 (mk_rt (delete x (rt_heap rt)) (delete (GcLink x) (rt_links rt)) (gc_phase rt))) as (rt' & E' & D' & Hp' & Hd' & Hh'); cbn [rt_links rt_heap].
  - apply dlists_delete; [done|]. apply Hf. set_solver.
  - intros y Hy. apply Hf. set_solver.
  - done.
  - intros y Hy. unfold header. cbn. rewrite lookup_delete_ne by (intros ->; done). apply Hh. set_solver.
  - intros l1 y l2 ->. rewrite Hg by (intros [= ->]; set_solver). by apply (Hn (x :: l1)).
  - rewrite Hg by done. eauto.
  - cbn in Hl. lia.
  - done.
  - exists rt'. split; [done|]. split; [done|]. split; [done|]. split; [done|]. intros p. rewrite Hh'. cbn. destruct (decide (x = p)) as [<-|Hne].
    + rewrite lookup_delete_eq. rewrite (decide_True (P := x ∈ x :: Z)) by set_solver. by case_decide.
    + rewrite lookup_delete_ne by done. apply decide_ext. set_solver.
Qed.

(** * The collection *)
(** what an object refers to depends on itself and on what it refers to *)
Lemma children_local h h' p l : children h p = Some l → (∀ q, q = p ∨ q ∈ l → body_of h' q = body_of h q) → children h' p = Some l.
Proof.
  intros E Hb. unfold children in *. rewrite (Hb p) by (by left). destruct (body_of h p) as [[cls sh prop| | | | |]|]; try done. destruct sh as [sh|]; [|done]. cbn [mbind option_bind] in *.
  assert (∃ l', l = sh :: l') as (l' & ->) by (destruct (body_of h sh) as [[| |? ?| | |]|]; try done; destruct (mark_properties _ _); [|done]; destruct (class_mark _ _); [|done]; injection E as <-; eauto).
  rewrite (Hb sh) by set_solver. destruct (body_of h sh) as [[| |proto props| | |]|]; try done. destruct (mark_properties props prop) as [l1|]; [|done]. cbn [mbind option_bind] in *.
  destruct (class_mark h cls) as [l2|] eqn:E2; [|done]. injection E as <-. replace (class_mark h' cls) with (Some l2); [done|]. rewrite <- E2. destruct cls as [| | | |home b vars| | | | | | | | | | | | | | |]; try done.
  cbn in *. unfold js_bytecode_function_mark in *. destruct b as [b|]; [|done]. destruct vars as [vars|]; [|done]. assert (closure_vars h' b vars = closure_vars h b vars) as ->; [|done].
  destruct (closure_vars h b vars) as [vs|] eqn:Ev; [|done]. rewrite <- Ev. unfold closure_vars. rewrite Hb; [done|]. injection E2 as <-. right. set_solver.
Qed.

Section Collection.
Context (h0 : gmap ptr gc_header) (L0 : list ptr) (ext : ptr → Z).
(** the types of the references, and what the engine keeps, of the objects that nothing reaches *)
Definition garbage_ok : Prop :=
  ∀ p o, p ∈ L0 → ¬ reach h0 L0 ext p → body_of h0 p = Some o → body_ok h0 o ∧ ∀ rs, gc_releases h0 o = Some rs → Forall (release_typed h0) rs.
Hypothesis Hok : heap_ok h0 L0 ext.
Hypothesis Hgarbage : garbage_ok.
(** the state from which the collector frees *)
Lemma free_start rt S T m :
  dlists (rt_links rt) (gc_lists S T []) → S ++ T ≡ₚ L0 → (∀ p, p ∈ S ↔ reach h0 L0 ext p) → overlay h0 (rt_heap rt) (rc h0 L0 ext) m → (∀ p, p ∈ S → m p = 0) →
  releasing h0 L0 ext S (set_phase rt JS_GC_PHASE_REMOVE_CYCLES) (length T) [] [].
Proof.
  intros Dl Da Hs Ho Hm. exists T, [], T. split; [done|]. pose proof (lists_nodup _ _ _ _ Dl) as Hnd. rewrite app_nil_r in Hnd.
  assert (∀ p, p ∈ L0 → rc h0 L0 ext p = base h0 ext S p + cnt p ((T ≫= kids h0) ++ [])) as Hrc.
  { intros p Hp. unfold rc, base. rewrite <- Da, bind_app, !cnt_app. cbn [cnt]. case_decide as Hps; [lia|]. destruct (garbage_count h0 L0 ext S Hok Hs p Hp Hps) as [-> ->]. lia. }
  assert (∀ p hd, rt_heap rt !! p = Some hd → ∃ hd0, h0 !! p = Some hd0 ∧ p ∈ L0 ∧ hd = mk_header (rc h0 L0 ext p) (m p) (gc_free_mark hd0) (gc_body hd0)) as Hl.
  { intros p hd E. rewrite Ho in E. destruct (h0 !! p) as [hd0|] eqn:E0; [|done]. injection E as <-. exists hd0. split; [done|]. split; [|done]. apply (ho_dom _ _ _ Hok). eauto. }
  split; cbn; try done.
  - intros p. rewrite Ho, fmap_is_Some, app_nil_r, Da. symmetry. apply (ho_dom _ _ _ Hok).
  - intros p hd (hd0 & E0 & Hp & ->)%Hl. by apply Hrc.
  - intros p Hp E. apply (ho_dom _ _ _ Hok) in Hp as [hd0 E0]. rewrite Ho, E0 in E. done.
  - intros p hd (hd0 & E0 & Hp & ->)%Hl. left. unfold body_of. by rewrite E0.
  - intros p hd Hps (hd0 & E0 & Hp & ->)%Hl. rewrite E0. cbn. split; [by apply Hm|done].
  - rewrite app_nil_r. by apply NoDup_app in Hnd as (_ & _ & ?).
  - intros p Hp. rewrite app_nil_r. done.
  - intros p. rewrite app_nil_r. intros Hp _. right. split; [done|]. assert (p ∈ L0) as Hp0 by (rewrite <- Da; set_solver). pose proof (ho_pos _ _ _ Hok p Hp0) as Hpos. rewrite Hrc in Hpos by done.
    rewrite app_nil_r in Hpos. unfold base in Hpos. rewrite decide_False in Hpos; [by rewrite app_nil_r|]. apply NoDup_app in Hnd as (_ & Hnd & _). intros Hps. by apply (Hnd p).
  - intros p Hp. by left.
  - by intros p ?%elem_of_nil.
Qed.
(** the rest of [gc_free_cycles] *)
Lemma gc_free_cycles_spec rt S T m :
  dlists (rt_links rt) (gc_lists S T []) → S ++ T ≡ₚ L0 → (∀ p, p ∈ S ↔ reach h0 L0 ext p) → overlay h0 (rt_heap rt) (rc h0 L0 ext) m → (∀ p, p ∈ S → m p = 0) →
  ∃ rt', gc_free_cycles rt = Some rt' ∧ dlists (rt_links rt') (gc_lists S [] []) ∧ gc_phase rt' = JS_GC_PHASE_NONE ∧
    (∀ p, p ∉ S → rt_heap rt' !! p = None) ∧
    (∀ p, p ∈ S → rt_heap rt' !! p = (λ hd, mk_header (ext p + cnt p (S ≫= kids h0)) 0 (gc_free_mark hd) (gc_body hd)) <$> h0 !! p).
Proof.
  intros Dl Da Hs Ho Hm. pose proof (free_start rt S T m Dl Da Hs Ho Hm) as Hi. pose proof (lists_nodup _ _ _ _ Dl) as Hnd. rewrite app_nil_r in Hnd.
  assert (NoDup L0) as HndL by (by rewrite <- Da). pose proof (overlay_size h0 L0 ext Hok _ _ _ Ho HndL) as Hsz.
  assert (releasing h0 L0 ext S (set_phase rt JS_GC_PHASE_REMOVE_CYCLES) (gc_fuel rt) [] []) as Hi0.
  { destruct Hi as (T' & Z & V & Hl & Hi). exists T', Z, V. split; [|done]. unfold gc_fuel. rewrite Hsz, <- Da, length_app. lia. }
  assert (∀ p o, p ∈ L0 → p ∉ S → body_of h0 p = Some o → body_ok h0 o ∧ ∀ rs, gc_releases h0 o = Some rs → Forall (release_typed h0) rs) as Hg by (intros p o Hp Hn; apply Hgarbage; [done|by rewrite <- Hs]).
  destruct (free_cycles_loop_inv h0 L0 ext S Hok Hs Hg _ _ Hi0) as (rt1 & E1 & T1 & Z & V & Hl & Hi1). destruct T1; [clear Hl|cbn in Hl; lia].
  destruct (nothing_left h0 L0 ext S Hok Hs Hg rt1 Z V Hi1) as [-> HZ]. destruct Hi1 as [F1 F2 F3 F4 F5 F6 F7 F8 F9 F10 F11 F12]. cbn [app] in F3.
  pose proof (lists_nodup _ _ _ _ F1) as Hnd1. cbn [app] in Hnd1. apply NoDup_app in Hnd1 as (_ & HSZ & HndZ).
  unfold gc_free_cycles. rewrite E1. cbn [mbind option_bind rt_links set_phase].
  rewrite (dlists_first _ _ _ _ F1 (gc_lists_zero _ _ _)). cbn [mbind option_bind].
  assert (∃ el1, get_next (rt_links rt1) (hd GcZeroRefCountList (GcLink <$> Z)) = Some el1 ∧ (Z ≠ [] → el1 = hd GcZeroRefCountList (GcLink <$> tail Z))) as (el1 & -> & Hel).
  { destruct Z as [|x Z]; cbn [fmap list_fmap hd tail]; [eexists; split; [by apply (dlists_first _ _ _ _ F1 (gc_lists_zero _ _ _))|done]|]. eexists. split; [by apply (next_zero _ _ _ [] x Z F1)|done]. }
  cbn [mbind option_bind]. set (F := delete GcZeroRefCountList (gc_lists S [] Z)).
  destruct (free_zombies_spec (gc_fuel (set_phase rt1 JS_GC_PHASE_NONE)) el1 (set_phase rt1 JS_GC_PHASE_NONE) F Z) as (rt2 & E2 & D2 & Ep2 & Hd2 & Hh2); [| |done| | | | |done|].
  - by apply dlists_forget.
  - intros x Hx. eapply dlists_forget_free; [exact F1|done|]. apply elem_of_cons. right. by apply list_elem_of_fmap_2.
  - intros x Hx. assert (is_Some (rt_heap rt1 !! x)) as [hx Ex] by (apply F3; set_solver). exists hx. split; [done|]. specialize (HZ x Hx). unfold is_val, kind_at in HZ.
    destruct (F6 x hx Ex) as [Eb|(_ & _ & _ & cls & ->)]; [by rewrite Eb in HZ|done].
  - intros l1 x l2 E. cbn. rewrite E in F1. by apply (next_zero _ _ _ l1 x l2 F1).
  - cbn. rewrite (dlists_first _ _ _ _ F1 (gc_lists_zero _ _ _)). eauto.
  - unfold gc_fuel. cbn. assert (list_to_set Z ⊆ dom (rt_heap rt1)) as Hsub by (intros p Hp%elem_of_list_to_set; apply elem_of_dom, F3; set_solver).
    apply subseteq_size in Hsub. rewrite size_list_to_set, size_dom in Hsub by done. lia.
  - rewrite E2. cbn [mbind option_bind]. destruct (dlists_init (rt_links rt2) F GcZeroRefCountList D2) as (m3 & -> & _ & D3); [apply lookup_delete_eq| |done|].
    { eapply dlists_forget_free; [exact F1|done|set_solver]. }
    cbn [mbind option_bind]. eexists. split; [done|]. cbn. unfold F in D3. rewrite insert_delete_eq in D3. change (@nil gc_node) with (GcLink <$> []) in D3. rewrite gc_lists_set_zero in D3. split; [done|].
    split; [done|]. split; intros p Hp; rewrite Hh2; cbn; case_decide as HpZ; try done.
    + apply eq_None_not_Some. rewrite F3, elem_of_app. tauto.
    + exfalso. by apply (HSZ p).
    + assert (is_Some (rt_heap rt1 !! p)) as [hp Ehp] by (apply F3; set_solver). rewrite Ehp. specialize (F4 _ _ Ehp). destruct (F7 _ _ Hp Ehp) as [G1 G2]. destruct (F6 _ _ Ehp) as [G3|(_ & ? & _)]; [|done].
      unfold body_of in G3. destruct (h0 !! p) as [hd0|]; [|done]. cbn in *. injection G2 as G2. injection G3 as G3. rewrite G2, G3, <- G1. unfold base in F4. rewrite decide_True in F4 by done. cbn [cnt] in F4. rewrite Z.add_0_r in F4. rewrite <- F4. by destruct hp.
Qed.
(** the objects that stay refer to the same ones *)
Lemma reach_local (h1 : gmap ptr gc_header) (S : list ptr) : (∀ p, p ∈ S ↔ reach h0 L0 ext p) → (∀ p, p ∈ S → body_of h1 p = body_of h0 p) → ∀ p, p ∈ S → children h1 p = Some (kids h0 p) ∧ kids h1 p = kids h0 p.
Proof.
  intros Hs Hb p Hp. assert (p ∈ L0) as Hp0 by (eapply reach_in; [exact Hok|by apply Hs]). destruct (ho_kids _ _ _ Hok p Hp0) as (l & El & _).
  assert (children h1 p = Some l) as E1; [|unfold kids; rewrite E1, El; done]. apply (children_local h0); [done|]. intros q [->|Hq]; [by apply Hb|]. apply Hb, Hs. eapply reach_step; [by apply Hs|]. unfold kids. by rewrite El.
Qed.
Lemma JS_RunGC_cases rt : gc_ready h0 L0 rt →
  ∃ rt' S, JS_RunGC rt = Some rt' ∧ (∀ p, p ∈ S ↔ reach h0 L0 ext p) ∧ gc_ready (rt_heap rt') S rt' ∧ heap_ok (rt_heap rt') S ext ∧
    (∀ p, p ∉ S → header rt' p = None) ∧
    (∀ p, p ∈ S → header rt' p = (λ hd, mk_header (ext p + cnt p (S ≫= kids h0)) 0 (gc_free_mark hd) (gc_body hd)) <$> h0 !! p).
Proof.
  intros Hr. destruct (gc_mark_spec h0 L0 ext Hok rt Hr) as (rt1 & rt2 & S & T & m & E1 & E2 & Dl & Da & _ & Hs & Ho & Hm).
  destruct (gc_free_cycles_spec rt2 S T m Dl Da Hs Ho Hm) as (rt' & E3 & Dl' & Dph' & Hno & Hyes). exists rt', S. unfold JS_RunGC. rewrite E1. cbn [mbind option_bind]. rewrite E2. cbn [mbind option_bind].
  split; [done|]. split; [done|]. assert (∀ p, p ∈ S → p ∈ L0) as Hsub by (intros p Hp; rewrite <- Da; set_solver).
  assert (∀ p, p ∈ S → body_of (rt_heap rt') p = body_of h0 p) as Hb by (intros p Hp; unfold body_of; rewrite (Hyes p Hp); by destruct (h0 !! p)).
  pose proof (reach_local (rt_heap rt') S Hs Hb) as Hk.
  assert ((S ≫= kids (rt_heap rt')) = (S ≫= kids h0)) as Hkk by (apply bind_ext_in; intros p Hp; by apply Hk).
  split; [|split; [|done]].
  - split; [done| |by apply (dlists_in _ _ _ _ _ Dl' (gc_lists_tmp _ _ _)); set_solver|done]. apply (dlists_forget _ _ TmpObjList) in Dl'. unfold gc_lists in Dl'.
    rewrite delete_insert_ne, delete_insert_id in Dl' by done. exact Dl'.
  - split.
    + intros p. destruct (decide (p ∈ S)) as [Hp|Hp]; [|rewrite (Hno p Hp); split; [done|by intros []]]. rewrite (Hyes p Hp), fmap_is_Some, <- (ho_dom _ _ _ Hok). split; [intros _; by apply Hsub|done].
    + intros p Hp. destruct (Hk p Hp) as [-> _]. eexists. split; [done|]. intros q Hq. apply Hs. eapply reach_step; [by apply Hs|done].
    + intros p hd E. assert (p ∈ S) as Hp by (destruct (decide (p ∈ S)) as [Hp|Hp]; [done|by rewrite (Hno p Hp) in E]). rewrite (Hyes p Hp) in E. destruct (h0 !! p); [|done]. injection E as <-. cbn. unfold rc. by rewrite Hkk.
    + intros p Hp. unfold rc. rewrite Hkk. pose proof (base_live h0 L0 ext S Hok Hs p Hp) as Hb0. unfold base in Hb0. by rewrite decide_True in Hb0.
    + apply (ho_ext _ _ _ Hok).
Qed.
End Collection.
