(* ===== verification/GcCount.v ===== *)
(** * Reference counting (js/quickjs.c)

    [JS_FreeValueRT] and [free_zero_refcount]: a count that reaches zero puts
    the object in a list, whose elements give up what they hold until it is
    empty.  The invariant has the same form as the one of the collector. *)
From stdpp Require Import gmap.
From S2P Require Import Prelude DList GcHeap Gc GcMark GcAgree GcRelease GcCycles.

Lemma count_lists_del m G Z x : dlists m (count_lists G Z) → x ∈ G ++ Z →
  ∃ m' G' Z', list_del m (GcLink x) = Some m' ∧ dom m' = dom m ∧ dlists m' (count_lists G' Z') ∧ free_node (count_lists G' Z') (GcLink x) ∧
    x :: G' ++ Z' ≡ₚ G ++ Z ∧ (∀ p, p ∈ G' → p ∈ G) ∧ (∀ p, p ∈ Z' → p ∈ Z).
Proof.
  intros D Hx. apply elem_of_app in Hx as [Hx|Hx]; apply list_elem_of_split in Hx as (l1 & l2 & ->).
  - assert (count_lists (l1 ++ x :: l2) Z !! GcObjList = Some ((GcLink <$> l1) ++ GcLink x :: (GcLink <$> l2))) as E by (by rewrite count_lists_obj, fmap_split).
    destruct (dlists_del m _ _ _ _ _ D E) as (m' & Ed & Dm & D'). pose proof (dlists_del_free _ _ _ _ _ _ D E) as Hf. rewrite <- fmap_app in D', Hf. rewrite count_lists_set_obj in D', Hf.
    exists m', (l1 ++ l2), Z. split; [done|]. split; [done|]. split; [done|]. split; [done|]. clear. split; [rewrite <- !app_assoc; cbn [app]; solve_Permutation|]. split; [set_solver|done].
  - assert (count_lists G (l1 ++ x :: l2) !! GcZeroRefCountList = Some ((GcLink <$> l1) ++ GcLink x :: (GcLink <$> l2))) as E by (by rewrite count_lists_zero, fmap_split).
    destruct (dlists_del m _ _ _ _ _ D E) as (m' & Ed & Dm & D'). pose proof (dlists_del_free _ _ _ _ _ _ D E) as Hf. rewrite <- fmap_app in D', Hf. rewrite count_lists_set_zero in D', Hf.
    exists m', G, (l1 ++ l2). split; [done|]. split; [done|]. split; [done|]. split; [done|]. clear. split; [solve_Permutation|]. split; [done|set_solver].
Qed.

Section Counting.
Context (h0 : gmap ptr gc_header) (L0 : list ptr) (ext : ptr → Z).
Notation kids := (kids h0).
Notation U V W := ((V ≫= kids) ++ W).
Notation is_val := (kind_at h0 is_value_object).
(** [G], [Z]: the list of the objects and that of those without a count; [V]: those that have given nothing up; [E]: those that are being freed; [W]: what remains of that *)
Record count_pre (rt : JSRuntime) (G Z V E W : list ptr) : Prop := {
  ci_lists : dlists (rt_links rt) (count_lists G Z);
  ci_tmp : TmpObjList ∈ dom (rt_links rt);
  ci_phase : gc_phase rt = JS_GC_PHASE_DECREF;
  ci_in : ∀ p, p ∈ G ++ Z → p ∈ L0;
  ci_alloc : ∀ p, is_Some (rt_heap rt !! p) ↔ p ∈ G ++ Z;
  ci_count : ∀ p hd, rt_heap rt !! p = Some hd → gc_ref_count hd = ext p + cnt p (U V W);
  ci_freed : ∀ p, p ∈ L0 → rt_heap rt !! p = None → ext p + cnt p (U V W) = 0;
  ci_body : ∀ p hd, rt_heap rt !! p = Some hd →
    body_of h0 p = Some (gc_body hd) ∨ (p ∉ V ∧ kind_at h0 is_object p ∧ ∃ cls, gc_body hd = GcJSObject cls None []);
  ci_mark : ∀ p hd, p ∈ V → rt_heap rt !! p = Some hd → gc_mark hd = 0 ∧ gc_free_mark <$> h0 !! p = Some (gc_free_mark hd);
  ci_all : V ++ E ≡ₚ G ++ Z;
  ci_zero : ∀ p, p ∈ Z → is_val p ∧ ext p + cnt p (U V W) = 0;
  ci_cur : ∀ p, p ∈ E → ext p + cnt p (U V W) = 0 ∧ (is_val p → p ∈ Z)
}.
(** and the others have a count *)
Record count_inv (rt : JSRuntime) (G Z V E W : list ptr) : Prop := {
  ci_pre : count_pre rt G Z V E W;
  ci_live : ∀ p, p ∈ G → p ∈ V → 0 < ext p + cnt p (U V W)
}.
Definition counting (rt : JSRuntime) (n : nat) (E W : list ptr) : Prop := ∃ G Z V, (length (V ++ E) <= n)%nat ∧ count_inv rt G Z V E W.

(** what the objects are: [heap_ok] without the counts *)
Hypothesis Hdom : ∀ p, p ∈ L0 ↔ is_Some (h0 !! p).
Hypothesis Hkids : ∀ p, p ∈ L0 → ∃ l, children h0 p = Some l ∧ ∀ q, q ∈ l → q ∈ L0.
Hypothesis Hext : ∀ p, 0 <= ext p.
Hypothesis Hbody : ∀ p o, p ∈ L0 → ¬ reach h0 L0 ext p → body_of h0 p = Some o → body_ok h0 o ∧ ∀ rs, gc_releases h0 o = Some rs → Forall (release_typed h0) rs.

Lemma count_nodup rt G Z V E W : count_inv rt G Z V E W → NoDup (V ++ E) ∧ NoDup (G ++ Z).
Proof. intros Hi. pose proof (count_lists_nodup _ _ _ (ci_lists _ _ _ _ _ _ (ci_pre _ _ _ _ _ _ Hi))) as Hnd. split; [|done]. by rewrite (ci_all _ _ _ _ _ _ (ci_pre _ _ _ _ _ _ Hi)). Qed.
Lemma count_inv_todo rt G Z V E W W' : count_inv rt G Z V E W → W ≡ₚ W' → count_inv rt G Z V E W'.
Proof.
  intros [[F1 F2 F3 F4 F5 F6 F7 F8 F9 F10 F12 F13] F11] EW. assert (∀ p, cnt p (U V W) = cnt p (U V W')) as EU by (intros p; by rewrite EW). split; [split; try done; setoid_rewrite <- EU; done|]. setoid_rewrite <- EU. done.
Qed.
(** what the rest of the program reaches is not freed *)
Lemma reach_counted rt G Z V E W p : count_inv rt G Z V E W → reach h0 L0 ext p → p ∈ G ∧ p ∈ V.
Proof.
  intros Hi Hr. assert (∀ q, q ∈ L0 → 0 < ext q + cnt q (U V W) → q ∈ G ∧ q ∈ V) as Hpos.
  { intros q Hq Hc. destruct Hi as [[F1 F2 F3 F4 F5 F6 F7 F8 F9 F10 F12 F13] F11]. assert (q ∈ G ++ Z) as HGZ.
    { apply F5. destruct (rt_heap rt !! q) eqn:E0; [eauto|]. specialize (F7 q Hq E0). lia. }
    assert (q ∉ Z) as HZ by (intros HZ; destruct (F12 q HZ); lia). assert (q ∉ E) as HE by (intros HE; destruct (F13 q HE); lia). rewrite <- F10 in HGZ. split; [|set_solver]. rewrite F10 in HGZ. set_solver. }
  induction Hr as [p Hp He|p q Hr [IH1 IH2] Hq]; [apply Hpos; [done|pose proof (cnt_nonneg p (U V W)); lia]|].
  apply Hpos; [destruct (Hkids p) as (l & El & Hl); [apply (ci_in _ _ _ _ _ _ (ci_pre _ _ _ _ _ _ Hi)); set_solver|]; apply Hl; unfold GcMark.kids in Hq; by rewrite El in Hq|].
  specialize (Hext q). assert (0 < cnt q (U V W)); [|lia]. apply cnt_pos, elem_of_app. left. apply list_elem_of_bind. by exists p.
Qed.
Lemma kind_live f p : kind_at h0 f p → p ∈ L0.
Proof. intros Hk%kind_some. by apply Hdom. Qed.
Lemma zero_releases rt G Z V E W p : count_inv rt G Z V E W → p ∈ L0 → p ∉ G ∨ p ∉ V ∨ ext p + cnt p (U V W) = 0 →
  ∃ o rs, body_of h0 p = Some o ∧ gc_releases h0 o = Some rs ∧ targets rs ≡ₚ kids p ∧ Forall (release_typed h0) rs.
Proof.
  intros Hi Hp Hz. assert (¬ reach h0 L0 ext p) as Hn by (intros Hr; destruct (reach_counted _ _ _ _ _ _ _ Hi Hr) as [H1 H2]; pose proof (ci_live _ _ _ _ _ _ Hi p H1 H2); naive_solver lia).
  assert (∃ o, body_of h0 p = Some o) as [o E0] by (pose proof Hp as [hd E0]%Hdom; unfold body_of; rewrite E0; by eexists).
  destruct (Hbody p o Hp Hn E0) as [Hb Ht]. destruct (Hkids p Hp) as (l & El & _). unfold GcMark.kids. rewrite El.
  destruct (releases_agree _ _ _ _ E0 El Hb) as (rs & Er & Ep). exists o, rs. split; [done|]. split; [done|]. split; [done|]. by apply Ht.
Qed.

(** ** One reference less *)
Lemma count_header rt G Z V E W x : count_inv rt G Z V E (x :: W) → x ∈ L0 →
  ∃ hd, rt_heap rt !! x = Some hd ∧ gc_ref_count hd = ext x + cnt x (U V W) + 1 ∧ x ∈ G ∧ x ∈ V.
Proof.
  intros Hi Hx. assert (cnt x (U V (x :: W)) = cnt x (U V W) + 1) as Ec by (rewrite !cnt_app; cbn; rewrite decide_True by done; lia).
  pose proof (Hext x) as He. pose proof (cnt_nonneg x (U V W)) as Hc. destruct Hi as [[F1 F2 F3 F4 F5 F6 F7 F8 F9 F10 F12 F13] F11].
  destruct (rt_heap rt !! x) as [hd|] eqn:E0; [|exfalso; specialize (F7 x Hx E0); lia]. exists hd. split; [done|]. rewrite (F6 x hd E0). split; [lia|].
  assert (x ∈ G ++ Z) as HGZ by (apply F5; eauto). assert (x ∉ Z) as HZ by (intros HZ; destruct (F12 x HZ); lia). assert (x ∉ E) as HE by (intros HE; destruct (F13 x HE); lia).
  rewrite <- F10 in HGZ. split; [|set_solver]. rewrite F10 in HGZ. set_solver.
Qed.
(** the state after [--ref_count], apart from the list of the object *)
Lemma decr_counts rt G Z V E W x : count_inv rt G Z V E (x :: W) → x ∈ L0 →
  ∃ rt' n, decr rt x = Some (rt', n) ∧ n = ext x + cnt x (U V W) ∧ rt_links rt' = rt_links rt ∧ gc_phase rt' = gc_phase rt ∧ body_of (rt_heap rt') x = body_of h0 x ∧
    count_pre rt' G Z V E W ∧ (∀ p, p ∈ G → p ∈ V → p ≠ x → 0 < ext p + cnt p (U V W)) ∧ (0 < n → count_inv rt' G Z V E W).
Proof.
  intros Hi Hx. destruct (count_header _ _ _ _ _ _ _ Hi Hx) as (hd & Eh & Ec & HxG & HxV). destruct (decr_heap rt x hd Eh) as (rt' & Ed & Ert & Hal & Hh0).
  set (n := gc_ref_count hd - 1) in *. exists rt', n. split; [done|]. split; [lia|]. split; [by subst rt'|]. split; [by subst rt'|].
  assert (rt_links rt' = rt_links rt ∧ gc_phase rt' = gc_phase rt) as [El Ep] by (by subst rt').
  assert (∀ p, cnt p (U V (x :: W)) = cnt p (U V W) + if decide (x = p) then 1 else 0) as Cu by (intros p; rewrite !cnt_app; cbn; lia).
  destruct Hi as [[F1 F2 F3 F4 F5 F6 F7 F8 F9 F10 F12 F13] F11].
  assert (∀ p hd', rt_heap rt' !! p = Some hd' → ∃ hd, rt_heap rt !! p = Some hd ∧ gc_body hd' = gc_body hd ∧ gc_mark hd' = gc_mark hd ∧ gc_free_mark hd' = gc_free_mark hd ∧ gc_ref_count hd' = ext p + cnt p (U V W)) as Hh.
  { intros p hd' (hd0 & E0 & E1 & E2 & E3 & E4)%Hh0. exists hd0. repeat (split; [done|]). rewrite E4, (F6 _ _ E0), Cu. lia. }
  split; [subst rt'; unfold body_of at 1; cbn; rewrite lookup_insert_eq; cbn; destruct (F8 _ _ Eh) as [?|[? _]]; done|]. 
  assert (∀ p, cnt p (U V W) <= cnt p (U V (x :: W)) ∧ 0 <= cnt p (U V W) ∧ 0 <= ext p) as Hle by (intros p; rewrite Cu; pose proof (Hext p); pose proof (cnt_nonneg p (U V W)); case_decide; lia).
  assert (∀ p, ext p + cnt p (U V (x :: W)) = 0 → ext p + cnt p (U V W) = 0) as Hle0 by (intros p; specialize (Hle p); lia).
  assert (count_pre rt' G Z V E W) as Hpre.
  { split; rewrite ?El, ?Ep; try done.
    - intros p. by rewrite Hal.
    - intros p hd' (hd0 & _ & _ & _ & _ & ->)%Hh. done.
    - intros p Hp E0. apply Hle0, F7; [done|]. apply eq_None_not_Some. rewrite <- Hal. by apply eq_None_not_Some.
    - intros p hd' (hd0 & E0 & -> & _)%Hh. by apply F8.
    - intros p hd' Hp (hd0 & E0 & _ & -> & -> & _)%Hh. by apply F9.
    - intros p Hp. destruct (F12 p Hp) as [H1 H2]. split; [done|by apply Hle0].
    - intros p Hp. destruct (F13 p Hp) as [H1 H2]. split; [by apply Hle0|done]. }
  assert (∀ p, p ∈ G → p ∈ V → p ≠ x → 0 < ext p + cnt p (U V W)) as Hlive by (intros p H1 H2 H3; specialize (F11 p H1 H2); rewrite Cu, decide_False in F11 by congruence; lia).
  split; [done|]. split; [done|]. intros Hn. split; [done|]. intros p H1 H2. destruct (decide (p = x)) as [->|Hne]; [lia|by apply Hlive].
Qed.
(** an object begins to give up what it holds *)
Lemma count_start rt G Z V E W x : count_pre rt G Z V E W → (∀ p, p ∈ G → p ∈ V → p ≠ x → 0 < ext p + cnt p (U V W)) →
  x ∈ V → (is_val x → x ∈ Z) → ext x + cnt x (U V W) = 0 →
  ∃ V', V ≡ₚ x :: V' ∧ count_inv rt G Z V' (x :: E) (kids x ++ W).
Proof.
  intros Hi Hlive HxV Hxz Hx0. apply list_elem_of_split in HxV as (V1 & V2 & ->). exists (V1 ++ V2). split; [by rewrite Permutation_middle|].
  assert (∀ p, cnt p (U (V1 ++ V2) (kids x ++ W)) = cnt p (U (V1 ++ x :: V2) W)) as Cv by (intros p; rewrite !bind_app, bind_cons, !cnt_app; lia).
  destruct Hi as [F1 F2 F3 F4 F5 F6 F7 F8 F9 F10 F12 F13]. pose proof (count_lists_nodup _ _ _ F1) as HndG. pose proof HndG as HndV. rewrite <- F10 in HndV.
  assert (∀ p, p ∈ V1 ++ V2 → p ∈ V1 ++ x :: V2) as Hsub by set_solver. split; [split; try done; try setoid_rewrite Cv; try done|].
  - intros p hd E0. destruct (F8 p hd E0) as [?|[? ?]]; [by left|right]. split; [intros Hp; by apply Hsub in Hp|done].
  - intros p hd Hp. apply F9. by apply Hsub.
  - rewrite <- F10. rewrite <- !app_assoc. cbn [app]. solve_Permutation.
  - intros p [->|Hp]%elem_of_cons; [done|by apply F13].
  - intros p Hp HV. rewrite Cv. apply Hlive; [done|by apply Hsub|]. intros ->. rewrite <- app_assoc in HndV. cbn [app] in HndV. rewrite <- Permutation_middle in HndV. apply NoDup_cons in HndV as [HndV _]. set_solver.
Qed.
(** a value without references goes to the list *)
Lemma count_value rt n E W x : counting rt n E (x :: W) → is_val x →
  ∃ rt' k rt2, decr rt x = Some (rt', k) ∧ 0 <= k ∧ (if k =? 0 then queue_zero x rt' else Some rt') = Some rt2 ∧ counting rt2 n E W.
Proof.
  intros (G & Z & V & Hn & Hi) Hv. pose proof (kind_live _ _ Hv) as Hx. destruct (count_header _ _ _ _ _ _ _ Hi Hx) as (hd & Eh & Ec & HxG & HxV).
  destruct (decr_counts _ _ _ _ _ _ _ Hi Hx) as (rt' & k & Ed & Ek & El & Ep & Eb & Hpre & Hlive & Hpos). pose proof (Hext x) as He. pose proof (cnt_nonneg x (U V W)) as Hc.
  exists rt', k. destruct (Z.eqb_spec k 0) as [Hk0|Hk0]; [|exists rt'; split; [done|]; split; [lia|]; split; [done|]; exists G, Z, V; split; [done|]; apply Hpos; lia].
  clear Hpos. destruct (count_nodup _ _ _ _ _ _ Hi) as [HndV HndG]. clear Hi. destruct Hpre as [F1 F2 F3 F4 F5 F6 F7 F8 F9 F10 F12 F13]. apply list_elem_of_split in HxG as (G1 & G2 & ->).
  destruct (dlists_move (rt_links rt') (count_lists (G1 ++ x :: G2) Z) GcObjList GcZeroRefCountList (GcLink <$> G1) (GcLink x) (GcLink <$> G2) (GcLink <$> Z)) as (m1 & m2 & E1 & E2 & Dm & D').
  { done. } { by rewrite count_lists_obj, fmap_split. } { rewrite <- fmap_app. by autorewrite with gclists. }
  rewrite <- fmap_app, count_lists_set_obj in D'. change (GcLink x :: (GcLink <$> Z)) with (GcLink <$> x :: Z) in D'. rewrite count_lists_set_zero in D'.
  exists (set_links rt' m2). split; [done|]. split; [lia|]. split.
  { unfold queue_zero. rewrite bool_decide_false by (rewrite F3; done). unfold rt_list_del. rewrite E1. cbn [mbind option_bind]. unfold rt_list_add. cbn [rt_links set_links]. by rewrite E2. }
  exists (G1 ++ G2), (x :: Z), V. split; [done|].
  assert (∀ p, p ∈ (G1 ++ G2) ++ x :: Z ↔ p ∈ (G1 ++ x :: G2) ++ Z) as HGZ by (intros p; clear; set_solver).
  assert (x ∉ G1 ++ G2) as HxG by (apply NoDup_app in HndG as [HndG _]; rewrite <- Permutation_middle in HndG; by apply NoDup_cons in HndG as [HndG _]).
  assert (∀ p, p ∈ G1 ++ G2 → p ∈ G1 ++ x :: G2) as Hsub by (clear; set_solver). split; [split; cbn; try done|].
  - by rewrite Dm.
  - intros p. rewrite HGZ. apply F4.
  - intros p. by rewrite F5, HGZ.
  - rewrite F10. rewrite <- !app_assoc. cbn [app]. solve_Permutation.
  - intros p [->|Hp]%elem_of_cons; [split; [done|lia]|by apply F12].
  - intros p Hp. destruct (F13 p Hp) as [H1 H2]. split; [done|]. intros Hvp. apply elem_of_cons. right. auto.
  - intros p H1 H2. apply Hlive; [by apply Hsub|done|]. intros ->. done.
Qed.
Lemma count_plain rt n E W x : counting rt n E (x :: W) → is_Some (h0 !! x) → is_val x = false →
  ∃ rt' k, decr rt x = Some (rt', k) ∧ 0 <= k ∧ (∃ hd, header rt x = Some hd ∧ gc_ref_count hd = k + 1 ∧ header rt' x = Some (with_ref_count hd k)) ∧
    (0 < k → counting rt' n E W) ∧
    (k = 0 → body_of (rt_heap rt') x = body_of h0 x ∧
      ∃ o rs, body_of h0 x = Some o ∧ gc_releases h0 o = Some rs ∧ Forall (release_typed h0) rs ∧ counting rt' n (x :: E) (targets rs ++ W)).
Proof.
  intros (G & Z & V & Hn & Hi) Hx%Hdom Hv. destruct (count_header _ _ _ _ _ _ _ Hi Hx) as (hd & Eh & Ec & HxG & HxV).
  destruct (decr_counts _ _ _ _ _ _ _ Hi Hx) as (rt' & k & Ed & Ek & El & Ep & Eb & Hpre & Hlive & Hpos). pose proof (Hext x) as He. pose proof (cnt_nonneg x (U V W)) as Hc.
  exists rt', k. split; [done|]. split; [lia|]. split.
  { exists hd. split; [done|]. split; [lia|]. unfold decr, header in Ed. rewrite Eh in Ed. cbn in Ed. injection Ed as <- E2. unfold header. cbn. rewrite lookup_insert_eq. by rewrite E2. }
  split; [intros Hk; exists G, Z, V; split; [done|by apply Hpos]|]. intros Hk. split; [done|]. clear Hpos.
  destruct (count_start rt' G Z V E W x Hpre Hlive HxV) as (V' & EV & Hi'); [by rewrite Hv|lia|].
  destruct (zero_releases _ _ _ _ _ _ x Hi' Hx) as (o & rs & Eo & Er & Ept & Ht). { right. left. pose proof (count_nodup _ _ _ _ _ _ Hi') as [HndV _]. apply NoDup_app in HndV as (_ & HndV & _). intros Hin. apply (HndV x Hin). set_solver. }
  exists o, rs. split; [done|]. split; [done|]. split; [done|]. exists G, Z, V'. split; [rewrite EV in Hn; rewrite !length_app in *; cbn in *; lia|]. eapply count_inv_todo; [exact Hi'|by rewrite Ept].
Qed.

(** ** An object goes *)
Lemma count_inv_gone rt G Z V x E W : count_inv rt G Z V (x :: E) W →
  ∃ rt' G' Z', (rt ← remove_gc_object rt x; js_free_obj rt x) = Some rt' ∧ count_inv rt' G' Z' V E W.
Proof.
  intros Hi. destruct (count_nodup _ _ _ _ _ _ Hi) as [HndV HndG]. destruct Hi as [[F1 F2 F3 F4 F5 F6 F7 F8 F9 F10 F12 F13] F11]. destruct (F13 x) as [Hx0 Hxz]; [set_solver|].
  assert (x ∈ G ++ Z) as HxG by (rewrite <- F10; set_solver). destruct (count_lists_del _ _ _ _ F1 HxG) as (m' & G' & Z' & Ed & Dm & D' & Hf & Hp & HG & HZ).
  assert (is_Some (rt_heap rt !! x)) as [hd Eh] by (by apply F5). unfold remove_gc_object, rt_list_del, js_free_obj, header. rewrite Ed. cbn [mbind option_bind rt_heap set_links]. rewrite Eh. cbn [mbind option_bind].
  eexists _, G', Z'. split; [done|]. rewrite <- Hp in HndG. apply NoDup_cons in HndG as [HxN HndG]. rewrite <- Permutation_middle in HndV. apply NoDup_cons in HndV as [HxV HndV].
  assert (∀ p, p ∈ G' ++ Z' ↔ p ∈ G ++ Z ∧ p ≠ x) as HGZ. { intros p. rewrite <- Hp, elem_of_cons. split; [intros Hin; split; [by right|intros ->; done]|naive_solver]. }
  split; [split; cbn; try done|].
  - by apply dlists_delete.
  - rewrite dom_delete_L, Dm. set_solver.
  - intros p [Hin _]%HGZ. by apply F4.
  - intros p. rewrite lookup_delete_is_Some, F5, HGZ. naive_solver.
  - intros p hd' [_ E0]%lookup_delete_Some. by apply F6.
  - intros p Hin E0. destruct (decide (x = p)) as [<-|Hne]; [done|]. rewrite lookup_delete_ne in E0 by done. by apply F7.
  - intros p hd' [_ E0]%lookup_delete_Some. by apply F8.
  - intros p hd' Hin [_ E0]%lookup_delete_Some. by apply F9.
  - apply (Permutation_cons_inv (a := x)). by rewrite Hp, <- F10, Permutation_middle.
  - intros p Hin%HZ. by apply F12.
  - intros p Hin. destruct (F13 p) as [H1 H2]; [set_solver|]. split; [done|]. intros Hv. specialize (H2 Hv). assert (p ∈ G' ++ Z') as H3 by (apply HGZ; split; [set_solver|intros ->; apply HxV; set_solver]).
    apply elem_of_app in H3 as [H3%HG|H3]; [|done]. exfalso. apply count_lists_nodup, NoDup_app in F1 as (_ & F1 & _). by apply (F1 p).
  - intros p Hin%HG HV. by apply F11.
Qed.
Lemma count_gone rt n E W x : counting rt n (x :: E) W → ∃ rt', (rt ← remove_gc_object rt x; js_free_obj rt x) = Some rt' ∧ counting rt' (pred n) E W.
Proof.
  intros (G & Z & V & Hn & Hi). destruct (count_inv_gone _ _ _ _ _ _ _ Hi) as (rt' & G' & Z' & E1 & Hi'). exists rt'. split; [done|]. exists G', Z', V. split; [|done]. rewrite !length_app in *. cbn in Hn. lia.
Qed.
Lemma count_alive rt n E W x : counting rt n E W → x ∈ E → is_Some (header rt x).
Proof. intros (G & Z & V & Hn & Hi) Hx. apply (ci_alloc _ _ _ _ _ _ (ci_pre _ _ _ _ _ _ Hi)). rewrite <- (ci_all _ _ _ _ _ _ (ci_pre _ _ _ _ _ _ Hi)). set_solver. Qed.
Lemma count_body rt n E W x : counting rt n E W → x ∈ W → kind_at h0 is_bytecode x ∨ kind_at h0 is_shape x → body_of (rt_heap rt) x = body_of h0 x.
Proof.
  intros (G & Z & V & Hn & Hi) Hx Hk. assert (kind_at h0 is_object x = false ∧ x ∈ L0) as [Hk' Hl] by (destruct Hk as [Hk|Hk]; (split; [eapply kind_not; [exact Hk|]; by intros []|by eapply kind_live])).
  destruct Hi as [[F1 F2 F3 F4 F5 F6 F7 F8 F9 F10 F12 F13] F11]. unfold body_of at 1. destruct (rt_heap rt !! x) as [hd|] eqn:E0.
  - destruct (F8 _ _ E0) as [?|(_ & Hk2 & _)]; [done|]. by rewrite Hk' in Hk2.
  - specialize (F7 x Hl E0). specialize (Hext x). assert (0 < cnt x (U V W)); [|lia]. apply cnt_pos. set_solver.
Qed.
Lemma count_update rt n E W x hd hd' :
  counting rt n E W → x ∈ E → is_val x → header rt x = Some hd → gc_ref_count hd' = gc_ref_count hd →
  (gc_body hd' = gc_body hd ∨ kind_at h0 is_object x ∧ ∃ cls, gc_body hd' = GcJSObject cls None []) → counting (put_header rt x hd') n E W.
Proof.
  intros (G & Z & V & Hn & Hi) HxE Hv Eh Ec Eb. exists G, Z, V. split; [done|]. destruct (count_nodup _ _ _ _ _ _ Hi) as [HndV _]. destruct Hi as [[F1 F2 F3 F4 F5 F6 F7 F8 F9 F10 F12 F13] F11].
  assert (x ∉ V) as N1 by (apply NoDup_app in HndV as (_ & HndV & _); intros Hx; by apply (HndV x Hx)). unfold header in Eh.
  split; [split; cbn; try done|done].
  - intros p. rewrite lookup_insert_is_Some, <- F5. split; [intros [<-|[_ ?]]; [by rewrite Eh|done]|]. intros Hp. destruct (decide (x = p)); [by left|by right].
  - intros p hd0 [[<- <-]|[Hne E0]]%lookup_insert_Some; [rewrite Ec|]; by apply F6.
  - intros p Hp [E0 _]%lookup_insert_None. by apply F7.
  - intros p hd0 [[<- <-]|[Hne E0]]%lookup_insert_Some; [|by apply F8]. destruct Eb as [->|[Hk Eb]]; [by apply F8|]. by right.
  - intros p hd0 Hp [[<- <-]|[Hne E0]]%lookup_insert_Some; [done|by apply F9].
Qed.
Lemma counting_less rt n n' E W : counting rt n E W → (n <= n')%nat → counting rt n' E W.
Proof. intros (G & Z & V & Hn & Hi) Hl. exists G, Z, V. split; [lia|done]. Qed.
#[export] Instance count_protocol n : FreeProtocol h0 (λ rt E W, counting rt n E W).
Proof.
  split.
  - intros rt E W W' (G & Z & V & Hn & Hi) EW. exists G, Z, V. split; [done|]. by eapply count_inv_todo.
  - intros rt E W x. apply count_value.
  - intros rt E W x. apply count_plain.
  - intros rt E W x Hi _. destruct (count_gone _ _ _ _ _ Hi) as (rt' & E1 & Hi'). exists rt'. split; [done|]. eapply counting_less; [exact Hi'|lia].
  - intros rt E W x. apply count_alive.
  - intros rt E W x. apply count_body.
  - intros rt E W x hd hd'. apply count_update.
Qed.
Lemma count_keep rt n x W : counting rt n [x] W → ∃ rt', free_or_keep rt x = Some rt' ∧ counting rt' (pred n) [] W.
Proof.
  intros Hi. destruct (count_alive _ _ _ _ x Hi) as [hd Eh]; [set_solver|]. destruct (count_gone _ _ _ _ _ Hi) as (rt' & E1 & Hi'). exists rt'. split; [|done]. unfold free_or_keep, remove_gc_object in *.
  assert (gc_phase rt = JS_GC_PHASE_DECREF) as Hph by (destruct Hi as (G & Z & V & _ & Hi); apply (ci_phase _ _ _ _ _ _ (ci_pre _ _ _ _ _ _ Hi))).
  destruct (rt_list_del rt x) as [rta|] eqn:Ed; [|done]. cbn [mbind option_bind] in *. unfold rt_list_del in Ed. destruct (list_del (rt_links rt) (GcLink x)); [|done]. injection Ed as <-.
  unfold header in *. cbn [rt_heap set_links gc_phase]. rewrite Eh. cbn [mbind option_bind]. rewrite bool_decide_false by (by rewrite Hph). done.
Qed.
(** ** The list *)
Lemma free_zero_loop_inv fuel rt n : counting rt n [] [] → (n <= fuel)%nat →
  ∃ rt' G V, free_zero_loop fuel rt = Some rt' ∧ count_inv rt' G [] V [] [].
Proof.
  revert rt n. induction fuel as [|fuel IH]; intros rt n (G & Z & V & Hn & Hi) Hf; pose proof (ci_lists _ _ _ _ _ _ (ci_pre _ _ _ _ _ _ Hi)) as Dl; cbn [free_zero_loop];
    rewrite (dlists_first _ _ _ _ Dl (count_lists_zero _ _)); cbn [mbind option_bind]; (destruct Z as [|x Z]; [by exists rt, G, V|]).
  { pose proof (Permutation_length (ci_all _ _ _ _ _ _ (ci_pre _ _ _ _ _ _ Hi))) as Hl. rewrite (length_app G) in Hl. cbn in Hl. lia. }
  cbn [fmap list_fmap hd]. destruct (ci_zero _ _ _ _ _ _ (ci_pre _ _ _ _ _ _ Hi) x) as [Hv Hx0]; [set_solver|].
  assert (is_Some (header rt x)) as [hd Eh] by (apply (ci_alloc _ _ _ _ _ _ (ci_pre _ _ _ _ _ _ Hi)); set_solver). rewrite Eh. cbn [mbind option_bind].
  rewrite (ci_count _ _ _ _ _ _ (ci_pre _ _ _ _ _ _ Hi) x hd Eh), Hx0. cbn [Z.eqb negb].
  assert (x ∈ V) as HxV by (assert (x ∈ V ++ []) as H by (rewrite (ci_all _ _ _ _ _ _ (ci_pre _ _ _ _ _ _ Hi)); set_solver); by rewrite app_nil_r in H).
  assert (body_of (rt_heap rt) x = body_of h0 x) as Eb by (unfold body_of at 1; unfold header in Eh; rewrite Eh; destruct (ci_body _ _ _ _ _ _ (ci_pre _ _ _ _ _ _ Hi) x hd Eh) as [?|[? _]]; done).
  destruct (zero_releases _ _ _ _ _ _ x Hi (kind_live _ _ Hv) ltac:(by right; right)) as (o & rs & Eo & Er & Ept & Ht).
  destruct (count_start rt G (x :: Z) V [] [] x (ci_pre _ _ _ _ _ _ Hi)) as (V' & EV & Hi'); [intros p H1 H2 _; by apply (ci_live _ _ _ _ _ _ Hi)|done|set_solver|done|].
  assert (counting rt n [x] (targets rs)) as Hc by (exists G, (x :: Z), V'; split; [rewrite EV in Hn; rewrite !length_app in *; cbn in *; lia|]; eapply count_inv_todo; [exact Hi'|by rewrite Ept, app_nil_r]).
  pose proof Hv as Hvo. unfold kind_at in Hvo. rewrite Eo in Hvo. destruct (free_gc_object_ok h0 _ rt x o rs Eo Hvo Er Ht Hc Eb) as (rt1 & -> & Hi1).
  destruct (count_keep _ _ _ _ Hi1) as (rt2 & -> & Hi2). cbn [mbind option_bind]. apply (IH rt2 _ Hi2). lia.
Qed.
End Counting.

(** * The release as a whole *)
(** one reference more from outside *)
Definition ext_add (ext : ptr → Z) (p q : ptr) : Z := ext q + (if decide (q = p) then 1 else 0).

Section Release.
Context (h0 : gmap ptr gc_header) (L0 : list ptr) (ext : ptr → Z).
Notation is_val := (kind_at h0 is_value_object).
(** nothing is queued, nothing is being freed *)
Lemma count_done rt G V : (∀ p, p ∈ L0 ↔ is_Some (h0 !! p)) → (∀ p, p ∈ L0 → ∃ l, children h0 p = Some l ∧ ∀ q, q ∈ l → q ∈ L0) → (∀ p, 0 <= ext p) →
  count_inv h0 L0 ext rt G [] V [] [] → gc_ready (rt_heap rt) G (set_phase rt JS_GC_PHASE_NONE) ∧ heap_ok (rt_heap rt) G ext ∧
    (∀ q, q ∈ G → q ∈ L0 ∧ body_of (rt_heap rt) q = body_of h0 q ∧ kids (rt_heap rt) q = kids h0 q).
Proof.
  intros Hdom Hkids Hext [[F1 F2 F3 F4 F5 F6 F7 F8 F9 F10 F12 F13] F11]. rewrite !app_nil_r in *.
  assert (∀ p, p ∈ G → p ∈ V) as HGV by (intros p; by rewrite F10). assert (∀ p, cnt p (V ≫= kids h0) = cnt p (G ≫= kids h0)) as EU by (intros p; by rewrite F10).
  assert (∀ p, p ∈ G → body_of (rt_heap rt) p = body_of h0 p) as Hb.
  { intros p Hp. pose proof Hp as Hp'. apply F5 in Hp' as [hd E0]. unfold body_of at 1. rewrite E0. destruct (F8 _ _ E0) as [?|[? _]]; [done|]. by specialize (HGV p Hp). }
  assert (∀ p q, p ∈ G → q ∈ kids h0 p → q ∈ G) as Hcl.
  { intros p q Hp Hq. destruct (Hkids p (F4 p Hp)) as (l & El & Hl). assert (q ∈ L0) as Hq0 by (apply Hl; unfold kids in Hq; by rewrite El in Hq). apply F5.
    destruct (rt_heap rt !! q) eqn:E0; [eauto|]. specialize (F7 q Hq0 E0). specialize (Hext q). assert (0 < cnt q (V ≫= kids h0)); [|lia]. apply cnt_pos, list_elem_of_bind. exists p. auto. }
  assert (∀ p, p ∈ G → children (rt_heap rt) p = Some (kids h0 p)) as Hch.
  { intros p Hp. destruct (Hkids p (F4 p Hp)) as (l & El & _). assert (kids h0 p = l) as Ek by (unfold kids; by rewrite El). rewrite Ek. apply (children_local h0); [done|]. intros q [->|Hq]; apply Hb; [done|]. apply (Hcl p); [done|by rewrite Ek]. }
  assert (∀ p, p ∈ G → kids (rt_heap rt) p = kids h0 p) as Hk by (intros p Hp; unfold kids at 1; by rewrite (Hch p Hp)).
  assert (G ≫= kids (rt_heap rt) = G ≫= kids h0) as Hkk by (by apply bind_ext_in).
  split; [done|]. split; [|intros q Hq; auto]. split.
  - intros p. by rewrite F5.
  - intros p Hp. exists (kids h0 p). split; [by apply Hch|]. intros q Hq. by apply (Hcl p).
  - intros p hd E0. assert (p ∈ G) as Hp by (apply F5; eauto). destruct (F9 p hd (HGV p Hp) E0) as [-> _]. split; [|done]. unfold rc. by rewrite (F6 _ _ E0), EU, Hkk.
  - intros p Hp. unfold rc. rewrite Hkk, <- EU. by apply F11; [|apply HGV].
  - done.
Qed.
Hypothesis Hext : ∀ q, 0 <= ext q.
Hypothesis Hgarbage : garbage_ok h0 L0 ext.
Lemma count_init rt p : heap_ok h0 L0 (ext_add ext p) → gc_ready h0 L0 rt → count_inv h0 L0 ext (set_phase rt JS_GC_PHASE_DECREF) L0 [] L0 [] [p].
Proof.
  intros Hok Hr. pose proof Hr as [R1 R2 R3 R4].
  assert (∀ q, ext_add ext p q + cnt q (L0 ≫= kids h0) = ext q + cnt q ((L0 ≫= kids h0) ++ [p])) as Ec by (intros q; unfold ext_add; rewrite cnt_app; cbn; repeat case_decide; subst; try congruence; lia).
  split; [split; cbn; rewrite ?app_nil_r; try done|].
  - intros q. rewrite R1. by rewrite (ho_dom _ _ _ Hok).
  - intros q hd E0. rewrite R1 in E0. destruct (ho_count _ _ _ Hok q hd E0) as [-> _]. apply Ec.
  - intros q Hq E0. apply (ho_dom _ _ _ Hok) in Hq as [hd E1]. rewrite R1 in E0. by rewrite E0 in E1.
  - intros q hd E0. rewrite R1 in E0. left. unfold body_of. by rewrite E0.
  - intros q hd Hq E0. rewrite R1 in E0. destruct (ho_count _ _ _ Hok q hd E0) as [_ ->]. by rewrite E0.
  - by intros q ?%elem_of_nil.
  - by intros q ?%elem_of_nil.
  - intros q Hq _. rewrite <- Ec. by apply (ho_pos _ _ _ Hok).
Qed.
Lemma count_size rt G Z V E W : count_inv h0 L0 ext rt G Z V E W → size (rt_heap rt) = length (V ++ E).
Proof.
  intros Hi. destruct (count_nodup _ _ _ _ _ _ _ _ _ Hi) as [_ HndG]. destruct Hi as [[F1 F2 F3 F4 F5 F6 F7 F8 F9 F10 F12 F13] F11]. rewrite (Permutation_length F10), <- size_dom.
  replace (dom (rt_heap rt)) with (list_to_set (G ++ Z) : gset ptr); [by rewrite size_list_to_set|]. apply set_eq. intros q. rewrite elem_of_list_to_set, elem_of_dom. by rewrite F5.
Qed.
Lemma decr_phase rt ph p : decr (set_phase rt ph) p = '(rt', n) ← decr rt p; Some (set_phase rt' ph, n).
Proof. unfold decr, header. cbn. destruct (rt_heap rt !! p); done. Qed.
Lemma queue_zero_phase rt p : queue_zero p (set_phase rt JS_GC_PHASE_DECREF) = if bool_decide (gc_phase rt = JS_GC_PHASE_REMOVE_CYCLES) then queue_zero p (set_phase rt JS_GC_PHASE_DECREF) else rt' ← queue_zero p rt; Some (set_phase rt' JS_GC_PHASE_DECREF).
Proof.
  unfold queue_zero. cbn. destruct (bool_decide (gc_phase rt = JS_GC_PHASE_REMOVE_CYCLES)) eqn:Eb; [done|]. cbn. unfold rt_list_del, rt_list_add. cbn.
  destruct (list_del (rt_links rt) (GcLink p)); [|done]. cbn. destruct (list_add _ _ _); done.
Qed.
Lemma JS_FreeValueRT_cases rt v p : v = JSObject p ∨ v = JSFunctionBytecode p → is_val p → heap_ok h0 L0 (ext_add ext p) → gc_ready h0 L0 rt →
  ∃ rt' L', JS_FreeValueRT v rt = Some rt' ∧ gc_ready (rt_heap rt') L' rt' ∧ heap_ok (rt_heap rt') L' ext ∧
    (∀ q, reach h0 L0 ext q → q ∈ L') ∧ (∀ q, q ∈ L' → q ∈ L0 ∧ body_of (rt_heap rt') q = body_of h0 q ∧ kids (rt_heap rt') q = kids h0 q).
Proof.
  intros Hv Hp Hok Hr. pose proof (ho_dom _ _ _ Hok) as Hdom. pose proof (ho_kids _ _ _ Hok) as Hkids. pose proof (count_init rt p Hok Hr) as Hi. destruct Hr as [_ _ _ R4].
  assert (p ∈ L0) as Hp0 by (apply Hdom; by eapply kind_some). pose proof (decr_phase rt JS_GC_PHASE_DECREF p) as Edp.
  assert (∃ rt' n, decr rt p = Some (rt', n) ∧ gc_phase rt' = JS_GC_PHASE_NONE) as (rt1 & n & Ed & Eph).
  { unfold decr in *. destruct (header rt p) as [hd|] eqn:Eh; [eexists _, _; split; [done|exact R4]|]. exfalso. cbn in Edp. destruct (count_header h0 L0 ext Hdom Hkids Hext Hgarbage _ _ _ _ _ _ _ Hi Hp0) as (hd & E1 & _). unfold header in Eh. cbn in E1. by rewrite Eh in E1. }
  rewrite Ed in Edp. cbn [mbind option_bind] in Edp. assert (JS_FreeValueRT v rt = if n <=? 0 then rt ← queue_zero p rt1; if bool_decide (gc_phase rt = JS_GC_PHASE_NONE) then free_zero_refcount rt else Some rt else Some rt1) as ->.
  { destruct Hv as [-> | ->]; cbn [JS_FreeValueRT]; rewrite Ed; done. }
  destruct (Z.leb_spec n 0) as [Hn|Hn].
  - destruct (count_value h0 L0 ext Hdom Hkids Hext Hgarbage (set_phase rt JS_GC_PHASE_DECREF) (length L0) [] [] p) as (rt' & k & rt2 & Ed2 & Hk & Eq & Hc); [|done|].
    { exists L0, [], L0. split; [by rewrite app_nil_r|done]. }
    rewrite Edp in Ed2. injection Ed2 as <- <-. assert (n = 0) as -> by lia. cbn [Z.eqb] in Eq. rewrite queue_zero_phase, Eph, bool_decide_false in Eq by done.
    destruct (queue_zero p rt1) as [rt3|] eqn:Eq3; [|done]. cbn [mbind option_bind] in *. injection Eq as <-.
    assert (gc_phase rt3 = JS_GC_PHASE_NONE) as Eph3.
    { unfold queue_zero in Eq3. rewrite Eph, bool_decide_false in Eq3 by done. unfold rt_list_del, rt_list_add in Eq3. destruct (list_del _ _); [|done]. cbn in Eq3. destruct (list_add _ _ _); [|done]. by injection Eq3 as <-. }
    rewrite Eph3, bool_decide_true by done. unfold free_zero_refcount.
    destruct Hc as (G & Z & V & _ & Hc). destruct (free_zero_loop_inv h0 L0 ext Hdom Hkids Hext Hgarbage (gc_fuel rt3) (set_phase rt3 JS_GC_PHASE_DECREF) (length (V ++ []))) as (rt4 & G4 & V4 & -> & Hi4).
    { by exists G, Z, V. } { unfold gc_fuel. rewrite <- (count_size _ _ _ _ _ _ Hc). cbn. lia. }
    cbn [mbind option_bind]. destruct (count_done rt4 G4 V4 Hdom Hkids Hext Hi4) as (R & O & Hb). exists (set_phase rt4 JS_GC_PHASE_NONE), G4. split; [done|]. split; [done|]. split; [done|]. split; [|done].
    intros q Hq. by apply (reach_counted h0 L0 ext Hdom Hkids Hext Hgarbage _ _ _ _ _ _ q Hi4).
  - destruct (decr_counts h0 L0 ext Hdom Hkids Hext Hgarbage _ _ _ _ _ _ p Hi Hp0) as (rt' & k & Ed2 & _ & _ & _ & _ & _ & _ & Hpos). rewrite Edp in Ed2. injection Ed2 as <- <-. specialize (Hpos Hn).
    destruct (count_done _ _ _ Hdom Hkids Hext Hpos) as (R & O & Hb). exists rt1, L0. split; [done|]. cbn in *. assert (set_phase (set_phase rt1 JS_GC_PHASE_DECREF) JS_GC_PHASE_NONE = rt1) as Es by (destruct rt1; cbn in *; by rewrite Eph). rewrite Es in R.
    split; [done|]. split; [done|]. split; [|done]. intros q Hq. by apply (reach_counted h0 L0 ext Hdom Hkids Hext Hgarbage _ _ _ _ _ _ q Hpos).
Qed.
End Release.

(** ** What remains is as before *)
Lemma body_ok_local h h' o : (∀ sh, (∃ cls prop, o = GcJSObject cls (Some sh) prop) → body_of h' sh = body_of h sh) → body_ok h' o = body_ok h o.
Proof. intros E. destruct o as [cls [sh|] prop| | | | |]; try done. cbn. by rewrite E by eauto. Qed.
(** the shape that an object refers to, and the function of a closure *)
Definition used_bodies (h h' : gmap ptr gc_header) (l : list ptr) : Prop := ∀ q, q ∈ l → body_of h' q = body_of h q.
Lemma child_shape h p cls sh prop l : body_of h p = Some (GcJSObject cls (Some sh) prop) → children h p = Some l → sh ∈ l.
Proof.
  intros Eb E. unfold children in E. rewrite Eb in E. cbn [mbind option_bind] in E. destruct (body_of h sh) as [[| |? ?| | |]|]; try done. destruct (mark_properties _ _); [|done]. destruct (class_mark _ _); [|done]. injection E as <-. set_solver.
Qed.
Lemma gc_releases_local h h' p o l rs : body_of h p = Some o → children h p = Some l → used_bodies h h' l → body_ok h o → gc_releases h' o = Some rs → gc_releases h o = Some rs.
Proof.
  intros Eb El Hb Hok Er. destruct o as [cls [sh|] prop| | | | |]; try done. pose proof (Hb sh (child_shape _ _ _ _ _ _ Eb El)) as Esh. cbn in *. rewrite Esh in Er.
  destruct (releases_agree _ _ _ _ Eb El ltac:(cbn; exact Hok)) as (ks & Ek & Ep). cbn in Ek. destruct (body_of h sh) as [[| |proto props| | |]|]; try done. destruct (free_properties props prop) as [l1|]; [|done]. cbn [mbind option_bind] in *.
  destruct (class_finalizer h cls) as [l2|] eqn:E2; [|done]. injection Ek as <-. assert (class_finalizer h' cls = Some l2) as E3; [|by rewrite E3 in Er].
  destruct cls as [| | | |home b vars| | | | | | | | | | | | | | |]; try done. cbn in *. unfold js_bytecode_function_finalizer in *. destruct b as [b|]; [|done]. destruct vars as [vars|]; [|done].
  destruct (closure_vars h b vars) as [vs|] eqn:Ev; [|done]. injection E2 as <-. assert (closure_vars h' b vars = Some vs) as ->; [|done]. rewrite <- Ev. unfold closure_vars. rewrite Hb; [done|].
  rewrite <- Ep, bind_app, bind_cons, !bind_app. set_solver.
Qed.
Lemma typed_local h h' rs : used_bodies h h' (targets rs) → Forall (release_typed h) rs → Forall (release_typed h') rs.
Proof.
  intros Hb. rewrite !Forall_forall. intros Ht r Hr. specialize (Ht r Hr). revert Ht. assert (∀ q f, q ∈ release_targets r → kind_at h f q → kind_at h' f q) as Hk.
  { intros q f Hq. unfold kind_at. rewrite Hb; [done|]. apply list_elem_of_bind. by exists r. }
  destruct r as [v|sh|v|s|c]; cbn in *; [destruct v; cbn in *; try done; apply Hk; set_solver|apply Hk; set_solver| |apply Hk; set_solver|apply Hk; set_solver].
  destruct v as [v|]; [|done]. cbn in *. rewrite !andb_true_r. apply Hk. set_solver.
Qed.
Lemma garbage_stays (h1 : gmap ptr gc_header) L0 L1 h0 ext :
  heap_ok h1 L1 ext → (∀ p, p ∈ L0 → ∃ l, children h0 p = Some l ∧ ∀ q, q ∈ l → q ∈ L0) → (∀ q, q ∈ L1 → q ∈ L0 ∧ body_of h1 q = body_of h0 q ∧ kids h1 q = kids h0 q) →
  (∀ q, reach h0 L0 ext q → q ∈ L1) → garbage_ok h0 L0 ext → garbage_ok h1 L1 ext.
Proof.
  intros Hok Hkids Hsame Hreach Hg p o Hp Hn Eb. destruct (Hsame p Hp) as (Hp0 & Ebp & Ekp). rewrite Ebp in Eb.
  assert (¬ reach h0 L0 ext p) as Hn0.
  { intros Hr. apply Hn. clear -Hr Hreach Hsame. induction Hr as [p Hp He|p q Hr IH Hq]; [apply reach_root; [by apply Hreach, reach_root|done]|]. eapply reach_step; [exact IH|]. destruct (Hsame p (Hreach p Hr)) as (_ & _ & ->). done. }
  destruct (Hg p o Hp0 Hn0 Eb) as [Hb Ht]. destruct (Hkids p Hp0) as (l & El & _). destruct (ho_kids _ _ _ Hok p Hp) as (l1 & El1 & Hl1). assert (l1 = l) as -> by (unfold kids in Ekp; by rewrite El, El1 in Ekp).
  assert (used_bodies h0 h1 l) as Hu by (intros q Hq; by apply Hsame, Hl1). split.
  - rewrite (body_ok_local h0 h1); [done|]. intros sh (cls & prop & ->). by eapply Hu, child_shape.
  - intros rs Er. pose proof (gc_releases_local h0 h1 p o l rs Eb El Hu Hb Er) as Er0. apply (typed_local h0); [|by apply Ht]. destruct (releases_agree _ _ _ _ Eb El Hb) as (rs' & Er' & Ep). rewrite Er0 in Er'. injection Er' as <-. intros q Hq. apply Hu. by rewrite <- Ep.
Qed.
