(* ===== verification/GcCheck.v ===== *)
(** * The invariants of the collector, executable (js/quickjs.c)

    Boolean forms of the conditions of the theorems, and two small heaps: one
    with cycles through a map, a closure and its variable, and one without. *)
From stdpp Require Import gmap.
From S2P Require Import Prelude DList GcHeap Gc GcMark GcAgree GcRelease GcCycles GcCount.

Definition heap_okb (h : gmap ptr gc_header) (L : list ptr) (ext : ptr → Z) : bool :=
  let refs := L ≫= kids h in
  forallb (λ kv, bool_decide (kv.1 ∈ L)) (map_to_list h) &&
  forallb (λ p, match h !! p, children h p with
    | Some hd, Some l => (gc_ref_count hd =? ext p + cnt p refs) && (gc_mark hd =? 0) && (0 <? ext p + cnt p refs) && forallb (λ q, bool_decide (q ∈ L)) l
    | _, _ => false
    end) L.
Lemma heap_okb_sound h L ext : heap_okb h L ext = true → (∀ p, 0 <= ext p) → heap_ok h L ext.
Proof.
  unfold heap_okb. rewrite andb_true_iff, !forallb_forall. intros [H1 H2] Hext.
  assert (∀ p, p ∈ L → ∃ hd l, h !! p = Some hd ∧ children h p = Some l ∧ gc_ref_count hd = rc h L ext p ∧ gc_mark hd = 0 ∧ 0 < rc h L ext p ∧ ∀ q, q ∈ l → q ∈ L) as HL.
  { intros p Hp%list_elem_of_In. specialize (H2 p Hp). destruct (h !! p) as [hd|], (children h p) as [l|]; try done. rewrite !andb_true_iff, forallb_forall in H2. destruct H2 as [[[E1 E2] E3] E4].
    exists hd, l. split; [done|]. split; [done|]. unfold rc. split; [lia|]. split; [lia|]. split; [lia|]. intros q Hq%list_elem_of_In. specialize (E4 q Hq). by apply bool_decide_eq_true in E4. }
  assert (∀ p, is_Some (h !! p) → p ∈ L) as Hin.
  { intros p [hd E]. specialize (H1 (p, hd)). apply elem_of_map_to_list, list_elem_of_In in E. by apply H1, bool_decide_eq_true in E. }
  split; [| | | |done].
  - intros p. split; [|apply Hin]. intros Hp. destruct (HL p Hp) as (hd & l & E & _). eauto.
  - intros p Hp. destruct (HL p Hp) as (hd & l & _ & El & _ & _ & _ & Hl). eauto.
  - intros p hd E. destruct (HL p) as (hd' & l & E' & _ & Ec & Em & _); [by apply Hin|]. rewrite E in E'. injection E' as <-. done.
  - intros p Hp. by destruct (HL p Hp) as (hd & l & _ & _ & _ & _ & Hpos & _).
Qed.
Definition object_okb (h : gmap ptr gc_header) (p : ptr) : bool :=
  match body_of h p with Some o => body_ok h o && match gc_releases h o with Some rs => forallb (release_typed h) rs | None => true end | None => true end.
Lemma objects_okb_sound h L ext : forallb (object_okb h) L = true → garbage_ok h L ext.
Proof.
  rewrite forallb_forall. intros HL p o Hp%list_elem_of_In _ Eb. specialize (HL p Hp). unfold object_okb in HL. rewrite Eb, andb_true_iff in HL. destruct HL as [H1 H2]. split; [by apply Is_true_true|].
  intros rs Er. rewrite Er, forallb_forall in H2. apply Forall_forall. intros r Hr%list_elem_of_In. by apply Is_true_true, H2.
Qed.

(** the ring of a head *)
Fixpoint chainb (m : gmap gc_node (option gc_node * option gc_node)) (x : gc_node) (l : list gc_node) (y : gc_node) : bool :=
  match l with
  | [] => bool_decide (get_next m x = Some y) && bool_decide (get_prev m y = Some x)
  | z :: l => bool_decide (get_next m x = Some z) && bool_decide (get_prev m z = Some x) && chainb m z l y
  end.
Lemma chainb_sound m x l y : chainb m x l y = true → chain m x l y.
Proof. revert x. induction l as [|z l IH]; intros x; cbn; rewrite ?andb_true_iff, !bool_decide_eq_true; [done|]. intros [[H1 H2] H3]. auto. Qed.
Definition readyb (rt : JSRuntime) (L : list ptr) : bool :=
  chainb (rt_links rt) GcObjList (GcLink <$> L) GcObjList && chainb (rt_links rt) GcZeroRefCountList [] GcZeroRefCountList &&
  bool_decide (NoDup L) && bool_decide (is_Some (rt_links rt !! TmpObjList)) && bool_decide (gc_phase rt = JS_GC_PHASE_NONE).
Lemma readyb_sound rt L : readyb rt L = true → gc_ready (rt_heap rt) L rt.
Proof.
  unfold readyb. rewrite !andb_true_iff, !bool_decide_eq_true. intros [[[[H1%chainb_sound H2%chainb_sound] H3] H4] H5]. split; [done| |by apply elem_of_dom|done].
  assert (NoDup (GcObjList :: (GcLink <$> L))) as Hnd by (constructor; [by intros (p & ? & _)%list_elem_of_fmap|by apply NoDup_fmap_2; [intros x y [= ->]|]]).
  assert (GcZeroRefCountList ∉ GcObjList :: (GcLink <$> L)) as Hz by (intros [?|(p & ? & _)%list_elem_of_fmap]%elem_of_cons; done).
  split.
  - intros h l E. unfold count_lists in E. apply lookup_insert_Some in E as [[<- <-]|[_ E]]; [done|]. by apply lookup_insert_Some in E as [[<- <-]|[_ E]].
  - intros h l E. unfold count_lists in E. apply lookup_insert_Some in E as [[<- <-]|[_ E]]; [done|]. apply lookup_insert_Some in E as [[<- <-]|[_ E]]; [apply NoDup_singleton|done].
  - intros h1 l1 h2 l2 E1 E2 Hne. unfold count_lists in E1, E2. apply lookup_insert_Some in E1 as [[<- <-]|[_ E1]]; apply lookup_insert_Some in E2 as [[<- <-]|[_ E2]]; try done;
      [apply lookup_insert_Some in E2 as [[<- <-]|[_ E2]]; [|done]|apply lookup_insert_Some in E1 as [[<- <-]|[_ E1]]; [|done]|apply lookup_insert_Some in E1 as [[<- <-]|[_ E1]]; [|done]; by apply lookup_insert_Some in E2 as [[<- <-]|[_ E2]]].
    + by intros x Hx ->%list_elem_of_singleton.
    + by intros x ->%list_elem_of_singleton Hx.
Qed.

(** ** Two heaps *)
(** the lists that the operations build: every node starts with what [malloc] left *)
Definition build_links (L : list ptr) : option (gmap gc_node (option gc_node * option gc_node)) :=
  let m := list_to_map ((λ n, (n, (None, None))) <$> [GcObjList; TmpObjList; GcZeroRefCountList] ++ (GcLink <$> L)) in
  m ← init_list_head m GcObjList; m ← init_list_head m GcZeroRefCountList;
  foldl (λ m p, m ← m; list_add_tail m (GcLink p) GcObjList) (Some m) L.
Definition build_rt (l : list (ptr * gc_header)) : JSRuntime := mk_rt (list_to_map l) (default ∅ (build_links l.*1)) JS_GC_PHASE_NONE.
Definition plain_shape := GcShape None [mk_shape_prop 0 10].
Definition small_object (c : class_data) (v : JSValue) := GcJSObject c (Some 1) [PropValue v].
(** 2 refers to 3; 4 and 5 are a cycle through a map; the function 6 is a cycle through its variable 8; all objects have the shape 1 *)
Definition cyclic_rt : JSRuntime := build_rt [
  (1, mk_header 5 0 0 plain_shape);
  (2, mk_header 1 0 0 (small_object ClassNone (JSObject 3)));
  (3, mk_header 1 0 0 (small_object (ClassArray [JSInt 7]) JSUndefined));
  (4, mk_header 1 0 0 (small_object (ClassMap (Some [(JSInt 1, JSObject 5)])) JSNull));
  (5, mk_header 1 0 0 (small_object ClassNone (JSObject 4)));
  (6, mk_header 1 0 0 (small_object (ClassBytecodeFunction None (Some 7) (Some [Some 8])) JSUndefined));
  (7, mk_header 1 0 0 (GcFunctionBytecode [JSInt 1] None 1));
  (8, mk_header 1 0 0 (GcVarRef true (JSObject 6) None))].
Definition cyclic_list : list ptr := [1; 2; 3; 4; 5; 6; 7; 8].
Definition acyclic_rt : JSRuntime := build_rt [
  (1, mk_header 2 0 0 plain_shape);
  (2, mk_header 1 0 0 (small_object ClassNone (JSObject 3)));
  (3, mk_header 1 0 0 (small_object (ClassArray [JSInt 7]) JSUndefined))].
Definition acyclic_list : list ptr := [1; 2; 3].
Definition acyclic_rank (p : ptr) : nat := if p =? 2 then 2 else if p =? 3 then 1 else 0.
(** the program holds the object 2 *)
Definition no_refs (p : ptr) : Z := 0.
Definition one_ref : ptr → Z := ext_add no_refs 2.
Lemma no_refs_nonneg p : 0 <= no_refs p.
Proof. done. Qed.
Lemma one_ref_nonneg p : 0 <= one_ref p.
Proof. unfold one_ref, ext_add, no_refs. case_decide; lia. Qed.
(** the collector frees the two cycles; giving up 2 frees 2 and 3 *)
Definition allocated (rt : JSRuntime) : list ptr := List.filter (λ p, bool_decide (is_Some (header rt p))) cyclic_list.
Example collection_frees : allocated <$> JS_RunGC cyclic_rt = Some [1; 2; 3].
Proof. vm_compute. reflexivity. Qed.
Example release_frees : allocated <$> JS_FreeValueRT (JSObject 2) cyclic_rt = Some [1; 4; 5; 6; 7; 8].
Proof. vm_compute. reflexivity. Qed.
