(* ===== verification/GcLast.v ===== *)
(** * The last reference to an object (js/quickjs.c)

    What the free functions give up, against what the mark functions visit:
    when the last reference to an object goes, the object goes, and every other
    count drops by the number of times that [mark_children] visits its object.
    An instance of the interface of [GcRelease]. *)
From stdpp Require Import gmap.
From S2P Require Import Prelude DList GcHeap Gc GcMark GcAgree GcRelease GcCycles GcCount GcCheck.

(** the call that gives the last reference up, for each kind of object *)
Definition free_last_reference (p : ptr) (rt : JSRuntime) : option JSRuntime :=
  match body_of (rt_heap rt) p with
  | Some (GcJSObject _ _ _) => JS_FreeValueRT (JSObject p) rt
  | Some (GcFunctionBytecode _ _ _) => JS_FreeValueRT (JSFunctionBytecode p) rt
  | Some (GcShape _ _) => js_free_shape p rt
  | Some (GcVarRef _ _ _) => free_var_ref p rt
  | Some (GcAsyncFunction _) => rt ← async_func_free p rt; free_zero_refcount rt
  | Some (GcJSContext _) => JS_FreeContext p rt
  | None => None
  end.
(** the references have the kinds of the fields that hold them *)
Definition references_typed (h : gmap ptr gc_header) (o : gc_obj) : Prop := ∀ rs, gc_releases h o = Some rs → Forall (release_typed h) rs.
(** the count without the references of a list *)
Definition without (l : list ptr) (q : ptr) (hd : gc_header) : gc_header := with_ref_count hd (gc_ref_count hd - cnt q l).

Section Dropping.
Context (h0 : gmap ptr gc_header) (L' : list ptr) (p : ptr) (o : gc_obj) (rs : list release) (l : list ptr) (ph : JSGCPhaseEnum).
Hypothesis Hbody : body_of h0 p = Some o.
Hypothesis Hreleases : gc_releases h0 o = Some rs.
Hypothesis Htyped : Forall (release_typed h0) rs.
Hypothesis Htargets : targets rs ≡ₚ l.
Hypothesis Hself : p ∉ l.
Hypothesis Henough : ∀ q, q ∈ l → ∃ hd, h0 !! q = Some hd ∧ cnt q l < gc_ref_count hd.
Hypothesis Hph : ph ≠ JS_GC_PHASE_REMOVE_CYCLES.
Hypothesis Hp : p ∉ L'.

(** [p] is being freed, or it is gone; [W]: the references that it has not given up yet *)
Record dropping (rt : JSRuntime) (E W : list ptr) : Prop := {
  dr_phase : gc_phase rt = ph;
  dr_tmp : TmpObjList ∈ dom (rt_links rt);
  dr_lists : ∃ G Z, dlists (rt_links rt) (count_lists G Z) ∧ G ++ Z ≡ₚ E ++ L' ∧ ∀ q, q ∈ Z → q ∈ E;
  dr_others : ∀ q, q ≠ p → header rt q = (λ hd, with_ref_count hd (gc_ref_count hd - cnt q l + cnt q W)) <$> h0 !! q;
  dr_todo : ∀ q, cnt q W <= cnt q l;
  dr_self : (E = [p] ∧ ∃ hd, header rt p = Some hd ∧ gc_ref_count hd = 0) ∨ (E = [] ∧ header rt p = None)
}.
(** or it still has its last reference *)
Definition last_inv (rt : JSRuntime) (E W : list ptr) : Prop :=
  dropping rt E W ∨
  (E = [] ∧ W = [p] ∧ rt_heap rt = h0 ∧ gc_phase rt = ph ∧ TmpObjList ∈ dom (rt_links rt) ∧ kind_at h0 is_value_object p = false ∧ gc_ref_count <$> h0 !! p = Some 1 ∧
    ∃ L, dlists (rt_links rt) (count_lists L []) ∧ L ≡ₚ p :: L').

Lemma dropping_notin rt E W : dropping rt E W → p ∉ W.
Proof. intros Hd Hin%cnt_pos. pose proof (dr_todo _ _ _ Hd p). rewrite (cnt_zero p l Hself) in *. lia. Qed.
Lemma dropping_decr rt E W x : dropping rt E (x :: W) → ∃ hd rt' k, header rt x = Some hd ∧ gc_ref_count hd = k + 1 ∧ decr rt x = Some (rt', k) ∧ 0 < k ∧
  header rt' x = Some (with_ref_count hd k) ∧ dropping rt' E W.
Proof.
  intros Hd. pose proof (dropping_notin _ _ _ Hd) as Hx. assert (x ≠ p) as Hne by set_solver. destruct Hd as [D1 D0 D2 D3 D4 D5].
  assert (cnt x (x :: W) = cnt x W + 1) as Ex by (cbn; rewrite decide_True by done; lia). pose proof (cnt_nonneg x W) as Hw. pose proof (D4 x) as Hx4.
  destruct (Henough x) as (hd0 & E0 & Hn); [apply cnt_pos; lia|]. pose proof (D3 x Hne) as Eh. rewrite E0 in Eh. cbn [fmap option_fmap option_map] in Eh. eexists _, _, (gc_ref_count hd0 - cnt x l + cnt x (x :: W) - 1). split; [exact Eh|]. unfold decr. rewrite Eh. cbn [mbind option_bind gc_ref_count with_ref_count].
  split; [lia|]. split; [reflexivity|]. split; [lia|]. split; [unfold header, put_header; cbn; by rewrite lookup_insert_eq|]. split; [done|done|done| | |].
  - intros q Hq. unfold header, put_header. cbn [rt_heap set_heap]. destruct (decide (q = x)) as [->|Hqx].
    + rewrite lookup_insert_eq, E0. cbn. unfold with_ref_count. cbn. do 2 f_equal. rewrite decide_True by done. lia.
    + rewrite lookup_insert_ne by done. fold (header rt q). rewrite D3 by done. cbn. by rewrite decide_False by congruence.
  - intros q. specialize (D4 q). cbn in D4. case_decide; lia.
  - unfold header, put_header. cbn [rt_heap set_heap]. by rewrite lookup_insert_ne by congruence.
Qed.
Lemma dropping_gone rt W : dropping rt [p] W → ∃ rt', (rt ← remove_gc_object rt p; js_free_obj rt p) = Some rt' ∧ dropping rt' [] W.
Proof.
  intros [D1 D0 (G & Z & D2 & Ep & Hz) D3 D4 D5]. destruct D5 as [[_ (hd & Eh & _)]|[? _]]; [|done].
  destruct (count_lists_del _ _ _ p D2) as (m' & G' & Z' & Ed & Dm & D' & Hf & Ep' & _ & HZ'); [rewrite Ep; set_solver|]. unfold remove_gc_object, rt_list_del. rewrite Ed. cbn [mbind option_bind].
  unfold js_free_obj, header. cbn [rt_heap set_links]. unfold header in Eh. rewrite Eh. cbn [mbind option_bind]. eexists. split; [done|].
  assert (G' ++ Z' ≡ₚ L') as EL by (rewrite Ep in Ep'; by apply (Permutation_app_inv_l [p])).
  split; [done|cbn; rewrite dom_delete_L, Dm; set_solver| | |done|right; split; [done|unfold header; cbn; by rewrite lookup_delete_eq]].
  - exists G', Z'. split; [by apply dlists_delete|]. split; [done|]. intros q Hq. assert (q = p) as -> by (apply list_elem_of_singleton, Hz, HZ', Hq). exfalso. apply Hp. rewrite <- EL. set_solver.
  - intros q Hq. unfold header. cbn. rewrite lookup_delete_ne by congruence. by apply D3.
Qed.
#[export] Instance last_protocol : FreeProtocol h0 last_inv.
Proof.
  split.
  - intros rt E W W' [[D1 D0 D2 D3 D4 D5]|(-> & -> & H)] EW; [assert (∀ q, cnt q W = cnt q W') as EC by (intros q; by rewrite EW); left; split; try done; [intros q Hq; rewrite <- (EC q); by apply D3|intros q; by rewrite <- (EC q)]|]. right. apply Permutation_singleton_l in EW as ->. done.
  - intros rt E W x [Hd|(-> & [= -> ->] & Eh & _ & _ & Hv & _)] Hx; [|rewrite Hv in Hx; done]. destruct (dropping_decr _ _ _ _ Hd) as (hd & rt' & k & Eh & Ec & Ed & Hk & _ & Hd').
    exists rt', k, rt'. split; [done|]. split; [lia|]. rewrite (proj2 (Z.eqb_neq k 0)) by lia. split; [done|by left].
  - intros rt E W x [Hd|(-> & [= -> ->] & Eh & Eph & D0 & Hv & E1 & L & D & EL)] Hs Hx.
    + destruct (dropping_decr _ _ _ _ Hd) as (hd & rt' & k & Eh & Ec & Ed & Hk & Ex & Hd'). exists rt', k. split; [done|]. split; [lia|]. split; [by exists hd|]. split; [by left|lia].
    + destruct Hs as [hd Ehd]. rewrite Ehd in E1. injection E1 as E1. unfold decr, header. rewrite Eh, Ehd. cbn [mbind option_bind]. rewrite E1. eexists _, _. split; [done|]. cbn [Z.sub Z.opp Z.add Pos.add]. change (1 - 1) with 0.
      split; [done|]. split; [exists hd; split; [done|]; split; [done|]; cbn; by rewrite Eh, lookup_insert_eq|]. split; [done|]. intros _.
      assert (body_of (<[p:=with_ref_count hd 0]> h0) p = body_of h0 p) as Eb by (unfold body_of; by rewrite lookup_insert_eq, Ehd).
      split; [by unfold put_header; cbn; rewrite Eh|]. exists o, rs. split; [done|]. split; [done|]. split; [done|]. left. split; cbn [gc_phase rt_links put_header set_heap]; [done|done| | | |].
      * exists L, []. split; [done|]. rewrite app_nil_r. split; [done|set_solver].
      * intros q Hq. unfold header. cbn [rt_heap put_header set_heap]. rewrite Eh, lookup_insert_ne, app_nil_r by congruence. assert (cnt q (targets rs) = cnt q l) as -> by (by rewrite Htargets). destruct (h0 !! q) as [[]|]; [|done]. cbn. unfold with_ref_count. cbn. do 2 f_equal. lia.
      * intros q. by rewrite app_nil_r, Htargets.
      * left. split; [done|]. unfold header. cbn. rewrite Eh, lookup_insert_eq. by eexists.
  - intros rt E W x [Hd|(? & _)] Hx; [|done]. assert (x :: E = [p]) as [= -> ->] by (destruct (dr_self _ _ _ Hd) as [[? _]|[? _]]; done).
    destruct (dropping_gone _ _ Hd) as (rt' & E1 & Hd'). exists rt'. split; [done|by left].
  - intros rt E W x [Hd|(-> & _)] Hx; [|set_solver]. destruct (dr_self _ _ _ Hd) as [[-> (hd & Eh & _)]|[-> _]]; [|set_solver]. apply list_elem_of_singleton in Hx as ->. by eexists.
  - intros rt E W x [Hd|(-> & -> & Eh & _)] Hx _; [|by rewrite Eh]. assert (x ≠ p) as Hne by (intros ->; by apply (dropping_notin _ _ _ Hd)). pose proof (dr_others _ _ _ Hd x Hne) as Ex. unfold body_of. unfold header in Ex. rewrite Ex. by destruct (h0 !! x).
  - intros rt E W x hd hd' [Hd|(-> & _)] Hx _ Eh Ec _; [|set_solver]. left. destruct Hd as [D1 D0 D2 D3 D4 [[-> (hd0 & E0 & C0)]|[-> _]]]; [|set_solver]. apply list_elem_of_singleton in Hx as ->. rewrite Eh in E0. injection E0 as <-.
    split; [done|done|done| |done|].
    + intros q Hq. unfold header, put_header. cbn. rewrite lookup_insert_ne by congruence. by apply D3.
    + left. split; [done|]. exists hd'. unfold header, put_header. cbn. rewrite lookup_insert_eq. split; [done|congruence].
Qed.
Lemma dropped rt : last_inv rt [] [] → (∀ q, header rt q = if decide (q = p) then None else without l q <$> h0 !! q) ∧ gc_phase rt = ph ∧ TmpObjList ∈ dom (rt_links rt) ∧ ∃ G, dlists (rt_links rt) (count_lists G []) ∧ G ≡ₚ L'.
Proof.
  intros [[D1 D0 (G & Z & D2 & Ep & Hz) D3 D4 D5]|(_ & ? & _)]; [|done]. destruct D5 as [[? _]|[_ D5]]; [done|]. split; [|split; [done|split; [done|]]].
  - intros q. case_decide as Hq; [by subst|]. rewrite D3 by done. destruct (h0 !! q); [|done]. cbn. unfold without. do 2 f_equal. lia.
  - assert (Z = []) as -> by (destruct Z as [|z Z]; [done|]; destruct (not_elem_of_nil z); apply Hz; by left). rewrite app_nil_r in Ep. by exists G.
Qed.
(** the list of the objects without a count, when it holds [p] alone *)
Lemma free_zero_one rt G W : (∀ q, q ≠ p → header rt q = h0 !! q) → (∃ hd, header rt p = Some hd ∧ gc_ref_count hd = 0) → body_of (rt_heap rt) p = body_of h0 p → is_value_object o → TmpObjList ∈ dom (rt_links rt) →
  dlists (rt_links rt) (count_lists G [p]) → G ≡ₚ L' → W = targets rs → ph = JS_GC_PHASE_DECREF → ∃ rt', free_zero_refcount rt = Some (set_phase rt' JS_GC_PHASE_NONE) ∧ last_inv rt' [] [].
Proof.
  intros Ho (hd & Eh & Ec) Eb Hv Hm D EG -> Eph. assert (dropping (set_phase rt JS_GC_PHASE_DECREF) [p] (targets rs)) as Hd.
  { split; cbn [gc_phase set_phase rt_links]; [done|done| | | |left; split; [done|by exists hd]].
    - exists G, [p]. split; [done|]. split; [rewrite EG; solve_Permutation|done].
    - intros q Hq. change (header (set_phase rt JS_GC_PHASE_DECREF) q) with (header rt q). rewrite (Ho q Hq). assert (cnt q (targets rs) = cnt q l) as -> by (by rewrite Htargets). destruct (h0 !! q) as [[]|]; [|done]. cbn. unfold with_ref_count. cbn. do 2 f_equal. lia.
    - intros q. by rewrite Htargets. }
  destruct (free_gc_object_ok h0 last_inv _ p o rs Hbody Hv Hreleases Htyped (or_introl Hd) Eb) as (rt1 & E1 & [Hd1|(? & _)]); [|done].
  destruct (dropping_gone _ _ Hd1) as (rt2 & E2 & Hd2). assert (free_or_keep rt1 p = Some rt2) as E3.
  { unfold free_or_keep. destruct (remove_gc_object rt1 p) as [rt3|] eqn:Er; [|done]. cbn [mbind option_bind] in *. unfold js_free_obj in E2. assert (gc_phase rt3 = ph) as Eph3 by (unfold remove_gc_object, rt_list_del in Er; destruct (list_del _ _); [|done]; injection Er as <-; cbn; by apply (dr_phase _ _ _ Hd1)).
    destruct (header rt3 p) as [hd3|] eqn:Eh3; [|done]. cbn [mbind option_bind]. rewrite bool_decide_eq_false_2 by congruence. cbn [andb]. unfold js_free_obj. by rewrite Eh3. }
  exists rt2. split; [|by left]. unfold free_zero_refcount, gc_fuel. cbn [free_zero_loop]. cbn [rt_links set_phase]. rewrite (dlists_first _ _ _ _ D (count_lists_zero _ _)). cbn [mbind option_bind fmap list_fmap List.hd].
  change (header (set_phase rt JS_GC_PHASE_DECREF) p) with (header rt p). rewrite Eh. cbn [mbind option_bind]. rewrite Ec. cbn [Z.eqb negb]. rewrite E1, E3. cbn [mbind option_bind].
  destruct (dropped rt2 (or_introl Hd2)) as (_ & _ & _ & G2 & D2 & _). destruct (size _); cbn [free_zero_loop]; rewrite (dlists_first _ _ _ _ D2 (count_lists_zero _ _)); done.
Qed.
Lemma queue_one rt hd L : gc_ready h0 L rt → L ≡ₚ p :: L' → h0 !! p = Some hd → gc_ref_count hd = 1 → is_value_object o → ph = JS_GC_PHASE_DECREF →
  ∃ rt1 rt2 rt', decr rt p = Some (rt1, 0) ∧ queue_zero p rt1 = Some rt2 ∧ gc_phase rt2 = JS_GC_PHASE_NONE ∧ free_zero_refcount rt2 = Some (set_phase rt' JS_GC_PHASE_NONE) ∧ last_inv rt' [] [].
Proof.
  intros [Rh Rl Rt Rp] EL Eh Ec Hv Eph. unfold decr, header. rewrite Rh, Eh. cbn [mbind option_bind]. rewrite Ec. change (1 - 1) with 0. exists (put_header rt p (with_ref_count hd 0)). unfold queue_zero. cbn [gc_phase put_header set_heap]. rewrite Rp.
  rewrite bool_decide_eq_false_2 by done. assert (p ∈ L) as HpL by (rewrite EL; set_solver). apply list_elem_of_split in HpL as (l1 & l2 & ->).
  assert (count_lists (l1 ++ p :: l2) [] !! GcObjList = Some ((GcLink <$> l1) ++ GcLink p :: (GcLink <$> l2))) as E by (by rewrite count_lists_obj, fmap_split).
  destruct (dlists_move _ _ GcObjList GcZeroRefCountList _ _ _ [] Rl E) as (m1 & m2 & E1 & E2 & Dm & D2); [rewrite lookup_insert_ne by done; done|].
  unfold rt_list_del. cbn [rt_links put_header set_heap]. rewrite E1. cbn [mbind option_bind]. unfold rt_list_add. cbn [rt_links put_header set_heap set_links]. rewrite E2. cbn [mbind option_bind].
  rewrite <- fmap_app, count_lists_set_obj in D2. change [GcLink p] with (GcLink <$> [p]) in D2. rewrite count_lists_set_zero in D2.
  match goal with |- ∃ rt2 rt', _ ∧ Some ?r = _ ∧ _ => destruct (free_zero_one r (l1 ++ l2) (targets rs)) as (rt' & E3 & Hd); [| | |done|cbn; by rewrite Dm|done| |done|done|] end.
  - intros q Hq. unfold header. cbn. rewrite Rh. by rewrite lookup_insert_ne by congruence.
  - unfold header. cbn. rewrite Rh, lookup_insert_eq. by eexists.
  - unfold body_of. cbn. by rewrite Rh, lookup_insert_eq, Eh.
  - apply (Permutation_app_inv_l [p]). cbn. rewrite <- EL. apply Permutation_middle.
  - eexists _, rt'. split; [reflexivity|]. split; [reflexivity|]. split; [exact Rp|]. done.
Qed.
End Dropping.

(** C5: giving up the last reference to an object of any kind frees it, and lowers every other count by as many references as the collector marks from it *)
Theorem mark_children_is_freed rt L p o l : gc_ready (rt_heap rt) L rt → p ∈ L → body_of (rt_heap rt) p = Some o → gc_ref_count <$> header rt p = Some 1 →
  children (rt_heap rt) p = Some l → body_ok (rt_heap rt) o → references_typed (rt_heap rt) o → (∀ q, q ∈ l → ∃ hd, header rt q = Some hd ∧ cnt q l < gc_ref_count hd) →
  ∃ rt' L', free_last_reference p rt = Some rt' ∧ L ≡ₚ p :: L' ∧ gc_ready (rt_heap rt') L' rt' ∧ ∀ q, header rt' q = if decide (q = p) then None else without l q <$> header rt q.
Proof.
  intros Hr Hp Eb E1 Ec Hbo Ht Hen. destruct (releases_agree _ _ _ _ Eb Ec Hbo) as (rs & Er & Ep). specialize (Ht rs Er). pose proof (ready_nodup _ _ _ Hr) as Hnd.
  apply list_elem_of_split in Hp as (l1 & l2 & EL). set (L' := l1 ++ l2). assert (L ≡ₚ p :: L') as EL' by (subst L L'; symmetry; apply Permutation_middle).
  assert (p ∉ L') as HpL by (rewrite EL' in Hnd; by apply NoDup_cons in Hnd as [? _]).
  destruct (header rt p) as [hd|] eqn:Eh; [|done]. injection E1 as E1. assert (p ∉ l) as Hself.
  { intros Hin. destruct (Hen p Hin) as (hd' & Eh' & Hlt). rewrite Eh in Eh'. injection Eh' as <-. apply cnt_pos in Hin. lia. }
  destruct (is_value_object o) eqn:Hv.
  - destruct (queue_one (rt_heap rt) L' p o rs l JS_GC_PHASE_DECREF Eb Er Ht Ep Hself Hen ltac:(done) HpL rt hd L Hr EL' Eh E1 ltac:(by rewrite Hv) eq_refl) as (rt1 & rt2 & rt' & F1 & F2 & F3 & F4 & Hi).
    destruct (dropped _ _ _ _ JS_GC_PHASE_DECREF  ltac:(discriminate) _ Hi) as (Hh & _ & Hm & G & D & EG). exists (set_phase rt' JS_GC_PHASE_NONE), G. split.
    + unfold free_last_reference. rewrite Eb. destruct o; try done; unfold JS_FreeValueRT, async_func_free; rewrite F1; cbn [mbind option_bind Z.leb Z.eqb Z.compare]; rewrite F2; cbn [mbind option_bind]; [by rewrite F3, bool_decide_eq_true_2 by done..|done].
    + split; [by rewrite EG|]. split; [|done]. split; done.
  - assert (FreeProtocol (rt_heap rt) (last_inv (rt_heap rt) L' p l JS_GC_PHASE_NONE)) as HF by (by apply (last_protocol _ _ _ o rs)).
    assert (last_inv (rt_heap rt) L' p l JS_GC_PHASE_NONE rt [] ([p] ++ [])) as Hi.
    { right. destruct Hr as [_ Rl Rt Rp]. unfold kind_at, header in *. rewrite Eb, Eh. cbn. rewrite E1. repeat (split; [done|]). by exists L. }
    assert (∃ rt', free_last_reference p rt = Some rt' ∧ last_inv (rt_heap rt) L' p l JS_GC_PHASE_NONE rt' [] []) as (rt' & F & Hd).
    { unfold free_last_reference. rewrite Eb. destruct o as [| |proto props|d v a| |c]; try done.
      - apply (shape_ok _ _ p rt [] []); [cbn; unfold kind_at; by rewrite Eb|done].
      - destruct (var_ref_ok _ _ (Some p) rt [] []) as (rt' & F & Hd); [cbn; unfold kind_at; by rewrite Eb|done|]. exists rt'. split; [|done]. cbn in F. by destruct (free_var_ref p rt).
      - apply (context_ok _ _ p rt [] []); [cbn; unfold kind_at; by rewrite Eb|done]. }
    destruct (dropped _ _ _ _ JS_GC_PHASE_NONE  ltac:(discriminate) _ Hd) as (Hh & Hph & Hm & G & D & EG). exists rt', G. split; [done|]. split; [by rewrite EG|]. by split.
Qed.
(** the constants of the bytecode 7 refer to the object 3 twice, its realm is the context 9 *)
Definition bytecode_rt : JSRuntime := build_rt [
  (1, mk_header 2 0 0 plain_shape);
  (3, mk_header 3 0 0 (small_object ClassNone JSUndefined));
  (7, mk_header 1 0 0 (GcFunctionBytecode [JSObject 3; JSInt 1; JSObject 3] (Some 9) 1));
  (9, mk_header 2 0 0 (GcJSContext (mk_context [] [JSUndefined] [] [] [] (Some 1))))].
Lemma mark_children_is_freed_witness : ∃ rt' L', free_last_reference 7 bytecode_rt = Some rt' ∧ [1; 3; 7; 9] ≡ₚ 7 :: L' ∧ gc_ready (rt_heap rt') L' rt' ∧
  ∀ q, header rt' q = if decide (q = 7) then None else without [3; 3; 9] q <$> header bytecode_rt q.
Proof.
  apply (mark_children_is_freed bytecode_rt [1; 3; 7; 9] 7 (GcFunctionBytecode [JSObject 3; JSInt 1; JSObject 3] (Some 9) 1)); [apply readyb_sound; vm_compute; reflexivity|set_solver|vm_compute; reflexivity..|vm_compute; exact I| |].
  - intros rs Er. vm_compute in Er. injection Er as <-. repeat constructor.
  - intros q Hq. assert (q = 3 ∨ q = 9) as [-> | ->] by set_solver; (eexists; split; [vm_compute; reflexivity|vm_compute; reflexivity]).
Defined.
