(* ===== verification/GcProperties.v ===== *)
(** * The properties of the collector (js/quickjs.c)

    The state between two calls of the collector, [gc_state], and what the
    operations do to it, with a small heap on which they run. *)
From stdpp Require Import gmap.
From S2P Require Import Prelude DList GcHeap Gc GcMark GcAgree GcRelease GcFree GcCycles GcCount GcCheck.

(** the lists and the counts are right, and what can be freed is well formed *)
Record gc_state (rt : JSRuntime) (L : list ptr) (ext : ptr → Z) : Prop := {
  gs_ready : gc_ready (rt_heap rt) L rt;
  gs_heap : heap_ok (rt_heap rt) L ext;
  gs_garbage : garbage_ok (rt_heap rt) L ext
}.

(** ** New objects and references *)
Lemma JS_DupValueRT_state rt L ext v p : v = JSObject p ∨ v = JSFunctionBytecode p → p ∈ L → gc_state rt L ext →
  ∃ rt', JS_DupValueRT v rt = Some rt' ∧ rt_links rt' = rt_links rt ∧ heap_ok (rt_heap rt') L (ext_add ext p) ∧ (∀ q, body_of (rt_heap rt') q = body_of (rt_heap rt) q).
Proof.
  intros Hv Hp [[_ Rl Rt Rp] Hok _]. pose proof Hp as [hd Eh]%(ho_dom _ _ _ Hok). assert (JS_DupValueRT v rt = Some (put_header rt p (with_ref_count hd (gc_ref_count hd + 1)))) as -> by (unfold JS_DupValueRT, header; destruct Hv as [-> | ->]; by rewrite Eh).
  eexists. split; [done|]. split; [done|]. set (h' := rt_heap (put_header rt p _)).
  assert (∀ q, body_of h' q = body_of (rt_heap rt) q) as Hb by (intros q; unfold body_of, h'; cbn; destruct (decide (p = q)) as [<-|]; [by rewrite lookup_insert_eq, Eh|by rewrite lookup_insert_ne]).
  assert (∀ q, children h' q = children (rt_heap rt) q) as Hc by (intros q; by apply children_bodies). assert (∀ q, kids h' q = kids (rt_heap rt) q) as Hk by (intros q; unfold kids; by rewrite Hc).
  split; [|done]. split.
  - intros q. rewrite (ho_dom _ _ _ Hok). unfold h'. cbn. rewrite lookup_insert_is_Some. destruct (decide (p = q)) as [<-|]; [split; [by left|by rewrite Eh]|naive_solver].
  - intros q. rewrite Hc. apply (ho_kids _ _ _ Hok).
  - intros q hd' E. unfold rc, ext_add. rewrite (bind_ext_in _ (kids (rt_heap rt))) by done. unfold h' in E. cbn in E. apply lookup_insert_Some in E as [[<- <-]|[Hne E]].
    + destruct (ho_count _ _ _ Hok _ _ Eh) as [E1 E2]. cbn. rewrite decide_True by done. unfold rc in E1. split; [lia|done].
    + destruct (ho_count _ _ _ Hok _ _ E) as [E1 E2]. rewrite decide_False by done. unfold rc in E1. split; [lia|done].
  - intros q Hq. unfold rc, ext_add. rewrite (bind_ext_in _ (kids (rt_heap rt))) by done. pose proof (ho_pos _ _ _ Hok q Hq) as Hpos. unfold rc in Hpos. case_decide; lia.
  - intros q. unfold ext_add. pose proof (ho_ext _ _ _ Hok q). case_decide; lia.
Qed.
Lemma add_gc_object_spec rt L Z p : dlists (rt_links rt) (count_lists L Z) → p ∉ L → p ∉ Z → GcLink p ∈ dom (rt_links rt) → is_Some (header rt p) →
  ∃ rt', add_gc_object rt p = Some rt' ∧ dlists (rt_links rt') (count_lists (L ++ [p]) Z) ∧ gc_phase rt' = gc_phase rt.
Proof.
  intros D HL HZ Hd [hd Eh]. unfold add_gc_object, set_mark. rewrite Eh. cbn [mbind option_bind]. unfold rt_list_add_tail. cbn [rt_links put_header set_heap].
  destruct (dlists_add_tail (rt_links rt) _ GcObjList _ (GcLink p) D (count_lists_obj _ _)) as (m & -> & _ & D'); [|done|].
  - intros h l E. unfold count_lists in E. apply lookup_insert_Some in E as [[<- <-]|[_ E]]; [|apply lookup_insert_Some in E as [[<- <-]|[_ E]]; [|done]]; rewrite elem_of_cons, list_elem_of_fmap; intros [?|(q & [= <-] & ?)]; done.
  - eexists. split; [done|]. cbn. change [GcLink p] with (GcLink <$> [p]) in D'. rewrite <- fmap_app, count_lists_set_obj in D'. done.
Qed.

Lemma gc_state_check rt L ext : readyb rt L = true → heap_okb (rt_heap rt) L ext = true → forallb (object_okb (rt_heap rt)) L = true → (∀ p, 0 <= ext p) → gc_state rt L ext.
Proof. intros H1 H2 H3 H4. split; [by apply readyb_sound|by apply heap_okb_sound|by apply objects_okb_sound]. Qed.
Lemma cyclic_state : gc_state cyclic_rt cyclic_list one_ref.
Proof. apply gc_state_check; [vm_compute; reflexivity..|apply one_ref_nonneg]. Qed.
Lemma acyclic_state : gc_state acyclic_rt acyclic_list one_ref.
Proof. apply gc_state_check; [vm_compute; reflexivity..|apply one_ref_nonneg]. Qed.

(** ** The properties *)
(** C1: a collection terminates, no assertion fails and no freed memory is used, and what it frees is what the references from outside do not reach *)
Theorem JS_RunGC_exact rt L ext : gc_state rt L ext → ∃ rt', JS_RunGC rt = Some rt' ∧ ∀ p, is_Some (header rt' p) ↔ reach (rt_heap rt) L ext p.
Proof.
  intros [Hr Hok Hg]. destruct (JS_RunGC_cases _ _ _ Hok Hg rt Hr) as (rt' & S & -> & Hs & _ & Hok' & Hno & Hyes). exists rt'. split; [done|]. intros p. rewrite <- Hs. symmetry. apply (ho_dom _ _ _ Hok').
Qed.
Lemma JS_RunGC_exact_witness : gc_state cyclic_rt cyclic_list one_ref ∧ ∃ rt', JS_RunGC cyclic_rt = Some rt' ∧ ∀ p, is_Some (header rt' p) ↔ reach (rt_heap cyclic_rt) cyclic_list one_ref p.
Proof. split; [exact cyclic_state|]. apply JS_RunGC_exact. exact cyclic_state. Defined.
Lemma reach_same h1 h0 L0 S ext : (∀ p, p ∈ S ↔ reach h0 L0 ext p) → (∀ p, p ∈ S → kids h1 p = kids h0 p) → ∀ p, p ∈ S → reach h1 S ext p.
Proof.
  intros Hs Hk p Hp. apply Hs in Hp as Hr. induction Hr as [p Hp0 He|p q Hr IH Hq]; [by apply reach_root|]. assert (p ∈ S) as HpS by by apply Hs. eapply reach_step; [by apply IH|]. by rewrite Hk.
Qed.
Lemma JS_RunGC_live rt L ext rt' S : gc_state rt L ext → JS_RunGC rt = Some rt' → (∀ p, p ∈ S ↔ reach (rt_heap rt) L ext p) →
  (∀ p, p ∈ S → header rt' p = (λ hd, mk_header (ext p + cnt p (S ≫= kids (rt_heap rt))) 0 (gc_free_mark hd) (gc_body hd)) <$> header rt p) →
  ∀ p, p ∈ S → kids (rt_heap rt') p = kids (rt_heap rt) p.
Proof.
  intros [Hr Hok Hg] _ Hs Hyes p Hp. apply (reach_local _ _ _ Hok (rt_heap rt') S Hs); [|done]. intros q Hq. unfold body_of. specialize (Hyes q Hq). unfold header in Hyes. rewrite Hyes. by destruct (rt_heap rt !! q).
Qed.
(** C2: after a collection the lists and the counts are right, for the objects that are left and the same references from outside, and collecting again changes nothing *)
Theorem JS_RunGC_state rt L ext : gc_state rt L ext →
  ∃ rt' L', JS_RunGC rt = Some rt' ∧ gc_state rt' L' ext ∧ (∀ p, p ∈ L' → p ∈ L ∧ body_of (rt_heap rt') p = body_of (rt_heap rt) p) ∧
    ∃ rt'', JS_RunGC rt' = Some rt'' ∧ rt_heap rt'' = rt_heap rt'.
Proof.
  intros Hst. pose proof Hst as [Hr Hok Hg]. destruct (JS_RunGC_cases _ _ _ Hok Hg rt Hr) as (rt' & S & E1 & Hs & Hr' & Hok' & Hno & Hyes). pose proof (JS_RunGC_live _ _ _ _ _ Hst E1 Hs Hyes) as Hk.
  assert (∀ p, p ∈ S → reach (rt_heap rt') S ext p) as Hre by (by apply (reach_same _ (rt_heap rt) L)).
  assert (garbage_ok (rt_heap rt') S ext) as Hg' by (intros p o Hp Hn; by specialize (Hre p Hp)).
  exists rt', S. split; [done|]. split; [done|]. split.
  - intros p Hp. split; [by eapply (reach_in _ _ _ Hok), Hs|]. unfold body_of. pose proof (Hyes p Hp) as E. unfold header in E. rewrite E. by destruct (rt_heap rt !! p).
  - destruct (JS_RunGC_cases _ _ _ Hok' Hg' rt' Hr') as (rt'' & S2 & E2 & Hs2 & Hr2 & _ & Hno2 & Hyes2). exists rt''. split; [done|]. apply map_eq. intros p. change (header rt'' p = header rt' p).
    assert (∀ q, q ∈ S2 ↔ q ∈ S) as HS by (intros q; rewrite Hs2; split; [by apply (reach_in _ _ _ Hok')|by apply Hre]). destruct (decide (p ∈ S)) as [Hp|Hp]; [|rewrite (Hno2 p), (Hno p Hp); [done|by rewrite HS]].
    rewrite (Hyes2 p) by by rewrite HS. pose proof Hp as [hd Eh]%(ho_dom _ _ _ Hok'). unfold header. rewrite Eh. cbn. f_equal.
    destruct (ho_count _ _ _ Hok' p hd Eh) as [Ec Em]. rewrite <- Em. assert (S2 ≡ₚ S) as -> by (apply NoDup_Permutation; [by eapply ready_nodup|by eapply ready_nodup|exact HS]).
    unfold rc in Ec. rewrite <- Ec. by destruct hd.
Qed.
Lemma JS_RunGC_state_witness : ∃ rt' L', JS_RunGC cyclic_rt = Some rt' ∧ gc_state rt' L' one_ref ∧ (∀ p, p ∈ L' → p ∈ cyclic_list ∧ body_of (rt_heap rt') p = body_of (rt_heap cyclic_rt) p) ∧
  ∃ rt'', JS_RunGC rt' = Some rt'' ∧ rt_heap rt'' = rt_heap rt'.
Proof. apply JS_RunGC_state. exact cyclic_state. Defined.
(** [gc_decref] leaves in each count the references that do not come from an object of the list, and in the temporary list the objects that have none *)
Theorem gc_decref_counts rt L ext : gc_state rt L ext →
  ∃ rt' K T, gc_decref rt = Some rt' ∧ dlists (rt_links rt') (gc_lists K T []) ∧ K ++ T ≡ₚ L ∧ (∀ p, p ∈ T ↔ p ∈ L ∧ ext p = 0) ∧ (∀ p, p ∈ L → gc_ref_count <$> header rt' p = Some (ext p)).
Proof.
  intros [Hr Hok Hg]. destruct (gc_decref_spec _ _ _ Hok rt Hr) as (rt' & K & T & E & Dl & Da & _ & Ho & HK & HT). exists rt', K, T. split; [done|]. split; [done|]. split; [done|]. split.
  - intros p. rewrite <- Da, elem_of_app. split; [intros Hp; split; [by right|by apply HT]|]. intros [[Hp|Hp] He]; [|done]. specialize (HK p Hp). lia.
  - intros p Hp. apply (ho_dom _ _ _ Hok) in Hp as [hd Eh]. unfold header. rewrite Ho, Eh. done.
Qed.
Lemma gc_decref_counts_witness : ∃ rt' K T, gc_decref cyclic_rt = Some rt' ∧ dlists (rt_links rt') (gc_lists K T []) ∧ K ++ T ≡ₚ cyclic_list ∧
  (∀ p, p ∈ T ↔ p ∈ cyclic_list ∧ one_ref p = 0) ∧ (∀ p, p ∈ cyclic_list → gc_ref_count <$> header rt' p = Some (one_ref p)).
Proof. apply gc_decref_counts. exact cyclic_state. Defined.
(** C3: giving a reference up keeps the lists and the counts right, and frees nothing that the other references from outside reach *)
Theorem JS_FreeValueRT_state rt L ext v p : v = JSObject p ∨ v = JSFunctionBytecode p → kind_at (rt_heap rt) is_value_object p →
  gc_ready (rt_heap rt) L rt → heap_ok (rt_heap rt) L (ext_add ext p) → (∀ q, 0 <= ext q) → garbage_ok (rt_heap rt) L ext →
  ∃ rt' L', JS_FreeValueRT v rt = Some rt' ∧ gc_state rt' L' ext ∧ ∀ q, reach (rt_heap rt) L ext q → q ∈ L' ∧ body_of (rt_heap rt') q = body_of (rt_heap rt) q.
Proof.
  intros Hv Hp Hr Hok Hext Hg. destruct (JS_FreeValueRT_cases _ _ _ Hext Hg rt v p Hv Hp Hok Hr) as (rt' & L' & E & Hr' & Hok' & Hre & Hsame). exists rt', L'. split; [done|]. split.
  - split; [done|done|]. apply (garbage_stays _ L L' (rt_heap rt)); try done. apply (ho_kids _ _ _ Hok).
  - intros q Hq. split; [by apply Hre|]. apply Hsame. by apply Hre.
Qed.
Lemma JS_FreeValueRT_state_witness : ∃ rt' L', JS_FreeValueRT (JSObject 2) cyclic_rt = Some rt' ∧ gc_state rt' L' no_refs ∧
  ∀ q, reach (rt_heap cyclic_rt) cyclic_list no_refs q → q ∈ L' ∧ body_of (rt_heap rt') q = body_of (rt_heap cyclic_rt) q.
Proof.
  apply (JS_FreeValueRT_state cyclic_rt cyclic_list no_refs (JSObject 2) 2); [by left|vm_compute; exact I|apply cyclic_state|apply cyclic_state|apply no_refs_nonneg|]. apply objects_okb_sound. vm_compute. reflexivity.
Defined.
(** C4: without cycles among the objects that nothing reaches any more, giving a reference up frees all of them: only cycles need the collector *)
Theorem JS_FreeValueRT_acyclic rt L ext v p (rank : ptr → nat) : v = JSObject p ∨ v = JSFunctionBytecode p → kind_at (rt_heap rt) is_value_object p →
  gc_ready (rt_heap rt) L rt → heap_ok (rt_heap rt) L (ext_add ext p) → (∀ q, 0 <= ext q) → garbage_ok (rt_heap rt) L ext →
  (∀ x y, x ∈ L → y ∈ kids (rt_heap rt) x → reach (rt_heap rt) L ext x ∨ (rank y < rank x)%nat) →
  ∃ rt', JS_FreeValueRT v rt = Some rt' ∧ ∀ q, is_Some (header rt' q) ↔ reach (rt_heap rt) L ext q.
Proof.
  intros Hv Hp Hr Hok Hext Hg Hrank. destruct (JS_FreeValueRT_cases _ _ _ Hext Hg rt v p Hv Hp Hok Hr) as (rt' & L' & E & Hr' & Hok' & Hre & Hsame). exists rt'. split; [done|].
  intros q. rewrite <- (ho_dom _ _ _ Hok' q). split; [|apply Hre]. intros Hq. destruct (decide (q ∈ L')) as [_|]; [|done].
  assert (∀ n x, x ∈ L' → (list_max (rank <$> L') < rank x + n)%nat → reach (rt_heap rt) L ext x) as Hall; [|by apply (Hall (S (list_max (rank <$> L')))); [|lia]].
  induction n as [|n IH]; intros x Hx Hn.
  - assert (rank x <= list_max (rank <$> L'))%nat; [|lia]. pose proof (proj1 (list_max_le (rank <$> L') _) (le_n _)) as Hmax. rewrite List.Forall_forall in Hmax. apply Hmax, list_elem_of_In. by apply list_elem_of_fmap_2.
  - pose proof (ho_pos _ _ _ Hok' x Hx) as Hpos. unfold rc in Hpos. destruct (decide (0 < ext x)) as [He|He]; [apply reach_root; [by apply Hsame|done]|].
    assert (0 < cnt x (L' ≫= kids (rt_heap rt'))) as (y & Hy & Hyk)%cnt_pos%list_elem_of_bind by lia. destruct (Hsame y Hyk) as (HyL & _ & Ek). rewrite Ek in Hy.
    apply (reach_step _ _ _ y); [|done]. destruct (Hrank y x HyL Hy) as [?|Hlt]; [done|]. apply IH; [done|lia].
Qed.
Lemma JS_FreeValueRT_acyclic_witness : ∃ rt', JS_FreeValueRT (JSObject 2) acyclic_rt = Some rt' ∧ ∀ q, is_Some (header rt' q) ↔ reach (rt_heap acyclic_rt) acyclic_list no_refs q.
Proof.
  apply (JS_FreeValueRT_acyclic acyclic_rt acyclic_list no_refs (JSObject 2) 2 acyclic_rank); [by left|vm_compute; exact I|apply acyclic_state|apply acyclic_state|apply no_refs_nonneg| |].
  - apply objects_okb_sound. vm_compute. reflexivity.
  - intros x y Hx Hy. right. assert (forallb (λ x, forallb (λ y, bool_decide (acyclic_rank y < acyclic_rank x)%nat) (kids (rt_heap acyclic_rt) x)) acyclic_list = true) as Hb by (vm_compute; reflexivity).
    rewrite forallb_forall in Hb. specialize (Hb x (proj1 (list_elem_of_In _ _) Hx)). rewrite forallb_forall in Hb. specialize (Hb y (proj1 (list_elem_of_In _ _) Hy)). by apply bool_decide_eq_true in Hb.
Defined.
