(* ===== verification/MapTable.v ===== *)
(** * The tables of Map and Set (js/quickjs.c)

    A table keeps its records in a list, in the order of insertion, and each
    of them in the list of a bucket.  A record that an iterator stands on
    outlives its deletion, empty, so that the iterator can go on from it.  The
    nodes of all the lists are in one memory; a dead node or record is not in
    it, and reading one is [None]. *)
From stdpp Require Import gmap.
From S2P Require Import Prelude DList GcHeap.

(** ** Numbers *)
(** a double by its bits *)
Definition JS_FLOAT64_NAN : Z := 0x7ff8000000000000.
Definition f64_exponent (d : Z) : Z := (d >> 52) .& 0x7ff.
Definition f64_mantissa (d : Z) : Z := d .& (2 ^ 52 - 1).
Definition isnan (d : Z) : bool := (f64_exponent d =? 0x7ff) && negb (f64_mantissa d =? 0).
Definition f64_is_zero (d : Z) : bool := d .& (2 ^ 63 - 1) =? 0.
(** [d1 == d2] *)
Definition f64_eq (d1 d2 : Z) : bool :=
  negb (isnan d1) && negb (isnan d2) && ((d1 =? d2) || f64_is_zero d1 && f64_is_zero d2).
(** the conversion of an [int32_t], which is exact *)
Definition f64_of_int (n : Z) : Z :=
  if n =? 0 then 0
  else
    let a := Z.abs n in let e := Z.log2 a in
    (if n <? 0 then 2 ^ 63 else 0) + (1023 + e) * 2 ^ 52 + (a - 2 ^ e) * 2 ^ (52 - e).

Section Keys.
(** the characters of the strings and the values of the big integers *)
Context (string_at : ptr → list Z) (bigint_at : ptr → Z).

Definition map_normalize_key (key : JSValue) : JSValue :=
  match key with JSFloat64 d => if f64_eq d 0 then JSInt 0 else key | _ => key end.
Definition hash_string (str : list Z) (h : Z) : Z := foldl (λ h c, u32 (h * 263 + c)) h str.
Definition hash_float64 (d : Z) : Z := u32 ((u32 d .^ u32 (d >> 32)) * 3163) .^ 7.
Definition map_hash_key (key : JSValue) : Z :=
  let tag := u32 (JS_VALUE_GET_TAG key) in
  match key with
  | JSBool b => u32 (b2z b) .^ tag
  | JSString p => hash_string (string_at p) 0 .^ tag
  | JSObject p | JSSymbol p => u32 (p * 3163) .^ tag
  | JSInt n => hash_float64 (f64_of_int n)
  | JSFloat64 d => hash_float64 (if isnan d then JS_FLOAT64_NAN else d)
  | _ => 0 .^ tag
  end.
(** the number test of [js_strict_eq2] *)
Definition number_same_value_zero (d1 d2 : Z) : bool :=
  if isnan d1 || isnan d2 then eqb (isnan d1) (isnan d2) else f64_eq d1 d2.
Definition js_same_value_zero (op1 op2 : JSValue) : bool :=
  match op1 with
  | JSBool b1 => match op2 with JSBool b2 => eqb b1 b2 | _ => false end
  | JSNull => match op2 with JSNull => true | _ => false end
  | JSUndefined => match op2 with JSUndefined => true | _ => false end
  | JSString p1 => match op2 with JSString p2 => bool_decide (string_at p1 = string_at p2) | _ => false end
  | JSSymbol p1 => match op2 with JSSymbol p2 => p1 =? p2 | _ => false end
  | JSObject p1 => match op2 with JSObject p2 => p1 =? p2 | _ => false end
  | JSInt n1 =>
    match op2 with
    | JSInt n2 => number_same_value_zero (f64_of_int n1) (f64_of_int n2)
    | JSFloat64 d2 => number_same_value_zero (f64_of_int n1) d2
    | _ => false
    end
  | JSFloat64 d1 =>
    match op2 with
    | JSFloat64 d2 => number_same_value_zero d1 d2
    | JSInt n2 => number_same_value_zero d1 (f64_of_int n2)
    | _ => false
    end
  | JSBigInt p1 => match op2 with JSBigInt p2 => bigint_at p1 =? bigint_at p2 | _ => false end
  | _ => false
  end.
End Keys.

(** ** The state *)
Inductive map_node := Records | Bucket (i : Z) | RecordLink (r : ptr) | HashLink (r : ptr).
#[export] Instance map_node_eq_dec : EqDecision map_node.
Proof. solve_decision. Defined.
#[export] Instance map_node_countable : Countable map_node.
Proof.
  refine (inj_countable' (λ n, match n with Records => (0, 0) | Bucket i => (1, i) | RecordLink r => (2, r) | HashLink r => (3, r) end)
    (λ s : Z * Z, match s with (0, _) => Records | (1, i) => Bucket i | (2, r) => RecordLink r | (_, r) => HashLink r end) _).
  by intros [].
Defined.
Record JSMapRecord := mk_record { mr_ref_count : Z; mr_empty : bool; mr_key : JSValue; mr_value : JSValue }.
Inductive JSIteratorKindEnum := JS_ITERATOR_KIND_KEY | JS_ITERATOR_KIND_VALUE | JS_ITERATOR_KIND_KEY_AND_VALUE.
(** [it->obj] is the table until the iterator is done *)
Record JSMapIteratorData := mk_iter { it_obj : bool; it_kind : JSIteratorKindEnum; it_cur_record : option ptr }.
(** a table, its memory, and the iterators that refer to it *)
Record JSMapState := mk_map {
  ms_mem : gmap ptr JSMapRecord;
  ms_links : gmap map_node (option map_node * option map_node);
  ms_record_count : Z;
  ms_hash_size : Z;
  ms_record_count_threshold : Z;
  ms_iters : gmap ptr JSMapIteratorData
}.
Definition map_set_mem (s : JSMapState) m := mk_map m (ms_links s) (ms_record_count s) (ms_hash_size s) (ms_record_count_threshold s) (ms_iters s).
Definition map_set_links (s : JSMapState) m := mk_map (ms_mem s) m (ms_record_count s) (ms_hash_size s) (ms_record_count_threshold s) (ms_iters s).
Definition set_record_count (s : JSMapState) n := mk_map (ms_mem s) (ms_links s) n (ms_hash_size s) (ms_record_count_threshold s) (ms_iters s).
Definition set_hash (s : JSMapState) n t := mk_map (ms_mem s) (ms_links s) (ms_record_count s) n t (ms_iters s).
Definition set_iters (s : JSMapState) m := mk_map (ms_mem s) (ms_links s) (ms_record_count s) (ms_hash_size s) (ms_record_count_threshold s) m.
Definition put_record (s : JSMapState) (r : ptr) (mr : JSMapRecord) : JSMapState := map_set_mem s (<[r := mr]> (ms_mem s)).
Definition map_list_del (s : JSMapState) (n : map_node) : option JSMapState := m ← list_del (ms_links s) n; Some (map_set_links s m).
Definition map_list_add_tail (s : JSMapState) (n head : map_node) : option JSMapState := m ← list_add_tail (ms_links s) n head; Some (map_set_links s m).
(** a record and its two nodes *)
Definition free_record (s : JSMapState) (r : ptr) : option JSMapState :=
  _ ← ms_mem s !! r; Some (map_set_links (map_set_mem s (delete r (ms_mem s))) (delete (RecordLink r) (delete (HashLink r) (ms_links s)))).
(** fresh memory: what a node holds is not known *)
Definition alloc_node (m : gmap map_node (option map_node * option map_node)) (n : map_node) := <[n := (None, None)]> m.
(** [js_map_constructor] without an iterable *)
Definition js_map_constructor : option JSMapState :=
  m ← init_list_head (alloc_node ∅ Records) Records; m ← init_list_head (alloc_node m (Bucket 0)) (Bucket 0); Some (mk_map ∅ m 0 1 4 ∅).

Section Operations.
Context (string_at : ptr → list Z) (bigint_at : ptr → Z).
(** the iterators of this table that die, in order, when a value is given up in a state *)
Context (dies : JSMapState → JSValue → list ptr).
Notation hash key s := (map_hash_key string_at key .& (ms_hash_size s - 1)).

(** ** Records *)
Fixpoint find_loop (fuel : nat) (s : JSMapState) (key : JSValue) (head el : map_node) : option (option ptr) :=
  if bool_decide (el = head) then Some None
  else
    match fuel, el with
    | S fuel, HashLink r =>
      mr ← ms_mem s !! r;
      if js_same_value_zero string_at bigint_at (mr_key mr) key then Some (Some r)
      else el ← get_next (ms_links s) el; find_loop fuel s key head el
    | _, _ => None
    end.
Definition map_fuel (s : JSMapState) : nat := size (ms_mem s).
Definition map_find_record (s : JSMapState) (key : JSValue) : option (option ptr) :=
  let head := Bucket (hash key s) in
  el ← get_next (ms_links s) head; find_loop (map_fuel s) s key head el.

(** the buckets from 0 to [n] - 1 *)
Definition buckets (n : Z) : list map_node := Bucket <$> seqZ 0 n.
Fixpoint init_buckets (l : list map_node) (m : gmap map_node (option map_node * option map_node)) : option (gmap map_node (option map_node * option map_node)) :=
  match l with [] => Some m | b :: l => m ← init_list_head m b; init_buckets l m end.
Fixpoint rehash_loop (fuel : nat) (s : JSMapState) (size : Z) (el : map_node) : option JSMapState :=
  match el with
  | Records => Some s
  | RecordLink r =>
    match fuel with
    | O => None
    | S fuel =>
      mr ← ms_mem s !! r;
      s ← (if mr_empty mr then Some s else map_list_add_tail s (HashLink r) (Bucket (map_hash_key string_at (mr_key mr) .& (size - 1))));
      el ← get_next (ms_links s) el; rehash_loop fuel s size el
    end
  | _ => None
  end.
(** [slack]: what [js_realloc2] returns, if anything, in elements *)
Definition map_hash_resize (s : JSMapState) (slack : option Z) : option JSMapState :=
  let new_hash_size := if ms_hash_size s =? 1 then 4 else u32 (ms_hash_size s * 2) in
  match slack with
  | None => Some s
  | Some slack =>
    let new_hash_size := u32 (new_hash_size + slack) in
    let m := foldl alloc_node (foldl (λ m b, delete b m) (ms_links s) (buckets (ms_hash_size s))) (buckets new_hash_size) in
    m ← init_buckets (buckets new_hash_size) m;
    el ← get_next m Records;
    s ← rehash_loop (map_fuel s) (map_set_links s m) new_hash_size el;
    Some (set_hash s new_hash_size (u32 (new_hash_size * 2)))
  end.
(** [mem]: the address of the record, if there is memory, and the answer to a resize *)
Definition map_add_record (s : JSMapState) (mem : option ptr * option Z) (key : JSValue) : option (JSMapState * option ptr) :=
  match mem.1 with
  | None => Some (s, None)
  | Some r =>
    let s := map_set_links (put_record s r (mk_record 1 false key JSUndefined)) (alloc_node (alloc_node (ms_links s) (RecordLink r)) (HashLink r)) in
    s ← map_list_add_tail s (HashLink r) (Bucket (hash key s));
    s ← map_list_add_tail s (RecordLink r) Records;
    let s := set_record_count s (u32 (ms_record_count s + 1)) in
    s ← (if ms_record_count s >=? ms_record_count_threshold s then map_hash_resize s mem.2 else Some s);
    Some (s, Some r)
  end.
Definition map_decref_record (s : JSMapState) (r : ptr) : option JSMapState :=
  mr ← ms_mem s !! r;
  let n := mr_ref_count mr - 1 in
  let s := put_record s r (mk_record n (mr_empty mr) (mr_key mr) (mr_value mr)) in
  if n =? 0 then
    if negb (mr_empty mr) then None else s ← map_list_del s (RecordLink r); free_record s r
  else Some s.
(** [js_map_iterator_finalizer], of an iterator on a live table *)
Definition iterator_finalizer (s : JSMapState) (it : ptr) : option JSMapState :=
  match ms_iters s !! it with
  | None => Some s
  | Some d =>
    s ← match it_cur_record d with Some r => if it_obj d then map_decref_record s r else Some s | None => Some s end;
    Some (set_iters s (delete it (ms_iters s)))
  end.
(** what [JS_FreeValue] does to this table *)
Fixpoint finalize (l : list ptr) (s : JSMapState) : option JSMapState :=
  match l with [] => Some s | it :: l => s ← iterator_finalizer s it; finalize l s end.
Definition map_free_value (v : JSValue) (s : JSMapState) : option JSMapState := finalize (dies s v) s.
Definition map_delete_record (s : JSMapState) (r : ptr) : option JSMapState :=
  mr ← ms_mem s !! r;
  if mr_empty mr then Some s
  else
    s ← map_list_del s (HashLink r);
    s ← map_free_value (mr_key mr) s;
    s ← map_free_value (mr_value mr) s;
    mr ← ms_mem s !! r;
    let n := mr_ref_count mr - 1 in
    s ← (if n =? 0 then s ← map_list_del s (RecordLink r); free_record s r
         else Some (put_record s r (mk_record n true JSUndefined JSUndefined)));
    Some (set_record_count s (u32 (ms_record_count s - 1))).

(** ** The methods *)
(** [is_set]: the table is that of a Set *)
Definition js_map_set (is_set : bool) (s : JSMapState) (mem : option ptr * option Z) (key value : JSValue) : option (JSMapState * bool) :=
  let key := map_normalize_key key in
  let value := if is_set then JSUndefined else value in
  mr ← map_find_record s key;
  '(s, mr) ← match mr with
    | Some r => rec ← ms_mem s !! r; s ← map_free_value (mr_value rec) s; Some (s, Some r)
    | None => map_add_record s mem key
    end;
  match mr with
  | None => Some (s, false)
  | Some r => rec ← ms_mem s !! r; Some (put_record s r (mk_record (mr_ref_count rec) (mr_empty rec) (mr_key rec) value), true)
  end.
Definition js_map_get (s : JSMapState) (key : JSValue) : option JSValue :=
  mr ← map_find_record s (map_normalize_key key);
  match mr with None => Some JSUndefined | Some r => rec ← ms_mem s !! r; Some (mr_value rec) end.
Definition js_map_has (s : JSMapState) (key : JSValue) : option bool :=
  mr ← map_find_record s (map_normalize_key key); Some (bool_decide (is_Some mr)).
Definition js_map_delete (s : JSMapState) (key : JSValue) : option (JSMapState * bool) :=
  mr ← map_find_record s (map_normalize_key key);
  match mr with None => Some (s, false) | Some r => s ← map_delete_record s r; Some (s, true) end.
(** [list_for_each_safe]: [el1] is the next node *)
Fixpoint clear_loop (fuel : nat) (s : JSMapState) (el el1 : map_node) : option JSMapState :=
  match el with
  | Records => Some s
  | RecordLink r =>
    match fuel with
    | O => None
    | S fuel => s ← map_delete_record s r; n ← get_next (ms_links s) el1; clear_loop fuel s el1 n
    end
  | _ => None
  end.
Definition js_map_clear (s : JSMapState) : option JSMapState :=
  el ← get_next (ms_links s) Records; el1 ← get_next (ms_links s) el; clear_loop (map_fuel s) s el el1.
Definition js_map_get_size (s : JSMapState) : Z := ms_record_count s.

(** ** Iterators *)
(** [it]: the address of the new iterator *)
Definition js_create_map_iterator (s : JSMapState) (it : ptr) (kind : JSIteratorKindEnum) : JSMapState := set_iters s (<[it := mk_iter true kind None]> (ms_iters s)).
(** the next record that is not empty *)
Fixpoint next_loop (fuel : nat) (s : JSMapState) (el : map_node) : option (option ptr) :=
  match el with
  | Records => Some None
  | RecordLink r =>
    match fuel with
    | O => None
    | S fuel => mr ← ms_mem s !! r; if mr_empty mr then el ← get_next (ms_links s) el; next_loop fuel s el else Some (Some r)
    end
  | _ => None
  end.
(** the end, a value, or a new array of two *)
Inductive next_result := NextDone | NextValue (v : JSValue) | NextArray (v1 v2 : JSValue).
Definition next_item (is_set : bool) (kind : JSIteratorKindEnum) (key value : JSValue) : next_result :=
  let arg1 := if is_set then key else value in
  match kind with JS_ITERATOR_KIND_KEY => NextValue key | JS_ITERATOR_KIND_VALUE => NextValue arg1 | _ => NextArray key arg1 end.
Definition js_map_iterator_next (is_set : bool) (s : JSMapState) (it : ptr) : option (JSMapState * next_result) :=
  d ← ms_iters s !! it;
  if negb (it_obj d) then Some (s, NextDone)
  else
    '(s, el) ← match it_cur_record d with
      | None => el ← get_next (ms_links s) Records; Some (s, el)
      | Some r => el ← get_next (ms_links s) (RecordLink r); s ← map_decref_record s r; Some (s, el)
      end;
    mr ← next_loop (map_fuel s) s el;
    match mr with
    | None => Some (set_iters s (<[it := mk_iter false (it_kind d) None]> (ms_iters s)), NextDone)
    | Some r =>
      rec ← ms_mem s !! r;
      let s := put_record s r (mk_record (mr_ref_count rec + 1) (mr_empty rec) (mr_key rec) (mr_value rec)) in
      Some (set_iters s (<[it := mk_iter true (it_kind d) (Some r)]> (ms_iters s)), next_item is_set (it_kind d) (mr_key rec) (mr_value rec))
    end.
End Operations.
