(* ===== verification/MapSpec.v ===== *)
(** * Map and Set: the keys and the data (js/quickjs.c)

    [js_same_value_zero] is equality of the classes of the keys, and keys of
    one class, once normalised, have one hash.  The data of a table is the
    sequence of all that was ever inserted, with a hole where an entry was
    deleted, and an iterator is an index into it. *)
From stdpp Require Import gmap.
From S2P Require Import Prelude DList GcHeap MapTable.

(** * Keys: equality and hashing *)
(** what a key is compared by *)
Inductive key_class := KBool (b : bool) | KNull | KUndefined | KString (l : list Z) | KSymbol (p : ptr) | KObject (p : ptr) | KNumber (d : Z) | KBigInt (n : Z).
#[export] Instance key_class_eq_dec : EqDecision key_class.
Proof. solve_decision. Defined.
(** one double for all the NaNs, one for both zeros *)
Definition f64_canon (d : Z) : Z := if isnan d then JS_FLOAT64_NAN else if f64_is_zero d then 0 else d.

Section Keys.
Context (string_at : ptr → list Z) (bigint_at : ptr → Z).
(** the values that a program can have are those with a class *)
Definition class_of (v : JSValue) : option key_class :=
  match v with
  | JSBool b => Some (KBool b)
  | JSNull => Some KNull
  | JSUndefined => Some KUndefined
  | JSString p => Some (KString (string_at p))
  | JSSymbol p => Some (KSymbol p)
  | JSObject p => Some (KObject p)
  | JSInt n => Some (KNumber (f64_canon (f64_of_int n)))
  | JSFloat64 d => Some (KNumber (f64_canon d))
  | JSBigInt p => Some (KBigInt (bigint_at p))
  | _ => None
  end.
Definition int32_value (v : JSValue) : Prop := match v with JSInt n => -2 ^ 31 <= n < 2 ^ 31 | _ => True end.
(** what a table has as a key *)
Definition table_key (v : JSValue) : Prop := int32_value v ∧ is_Some (class_of v) ∧ map_normalize_key v = v.

Lemma nan_canon d : isnan d = true → f64_canon d = JS_FLOAT64_NAN.
Proof. intros E. unfold f64_canon. by rewrite E. Qed.
Lemma number_same_spec d1 d2 : number_same_value_zero d1 d2 = bool_decide (f64_canon d1 = f64_canon d2).
Proof.
  assert (isnan JS_FLOAT64_NAN = true) as Hn by reflexivity. assert (isnan 0 = false) as H0 by reflexivity. assert (f64_is_zero 0 = true) as Hz by reflexivity.
  symmetry. unfold number_same_value_zero, f64_eq, f64_canon. destruct (isnan d1) eqn:N1, (isnan d2) eqn:N2; cbn [orb andb negb eqb].
  - by apply bool_decide_eq_true.
  - apply bool_decide_eq_false. destruct (f64_is_zero d2); [done|]. intros <-. congruence.
  - apply bool_decide_eq_false. destruct (f64_is_zero d1); [done|]. intros ->. congruence.
  - destruct (f64_is_zero d1) eqn:Z1, (f64_is_zero d2) eqn:Z2; cbn [andb orb].
    + rewrite orb_true_r. by apply bool_decide_eq_true.
    + rewrite orb_false_r. destruct (Z.eqb_spec d1 d2) as [->|]; [congruence|]. apply bool_decide_eq_false. intros <-. congruence.
    + rewrite orb_false_r. destruct (Z.eqb_spec d1 d2) as [->|]; [congruence|]. apply bool_decide_eq_false. intros ->. congruence.
    + rewrite orb_false_r. destruct (Z.eqb_spec d1 d2) as [->|]; [by apply bool_decide_eq_true|]. by apply bool_decide_eq_false.
Qed.
Lemma same_class_spec v w :
  js_same_value_zero string_at bigint_at v w = bool_decide (is_Some (class_of v) ∧ class_of v = class_of w).
Proof.
  symmetry. destruct v, w; cbn [js_same_value_zero class_of]; rewrite ?number_same_spec; try (apply bool_decide_eq_false; by intros [[? ?] ?]); try (apply bool_decide_eq_true; by eauto);
    match goal with
    | |- _ = eqb ?a ?b => destruct (Bool.eqb_spec a b) as [->|]; [apply bool_decide_eq_true; eauto|apply bool_decide_eq_false; intros [_ [= ?]]; done]
    | |- _ = (?a =? ?b) => destruct (Z.eqb_spec a b) as [->|]; [apply bool_decide_eq_true; eauto|apply bool_decide_eq_false; intros [_ [= ?]]; done]
    | |- _ = bool_decide (?a = ?b) => apply bool_decide_ext; split; [by intros [_ [= ?]]|intros ->; eauto]
    end.
Qed.
Lemma same_refl v : is_Some (class_of v) → js_same_value_zero string_at bigint_at v v = true.
Proof. intros H. rewrite same_class_spec. by apply bool_decide_eq_true. Qed.
Lemma class_normalize v : class_of (map_normalize_key v) = class_of v.
Proof.
  destruct v; cbn; try done. unfold f64_eq. destruct (isnan bits) eqn:N; cbn [negb andb]; [done|].
  assert (f64_is_zero 0 = true) as Hz by reflexivity. destruct (Z.eqb_spec bits 0) as [->|Hne]; cbn [orb]; [done|]. rewrite Hz, andb_true_r.
  destruct (f64_is_zero bits) eqn:Z1; cbn; [|done]. unfold f64_canon. by rewrite N, Z1.
Qed.
Lemma normalize_idem v : map_normalize_key (map_normalize_key v) = map_normalize_key v.
Proof. destruct v; cbn; try done. destruct (f64_eq bits 0) eqn:E; cbn; by rewrite ?E. Qed.
Lemma normalize_int32 v : int32_value v → int32_value (map_normalize_key v).
Proof. intros H. unfold map_normalize_key. destruct v; lazymatch goal with |- int32_value (if ?b then _ else _) => destruct b; [cbn; lia|exact H] | _ => exact H end. Qed.
Lemma normalize_table_key v : int32_value v → is_Some (class_of v) → table_key (map_normalize_key v).
Proof. intros Hi Hc. split; [by apply normalize_int32|]. split; [by rewrite class_normalize|apply normalize_idem]. Qed.

(** ** The double of an integer *)
(** a field is what it was built from *)
Lemma f64_fields s e m : 0 <= s <= 1 → 0 <= e < 2 ^ 11 → 0 <= m < 2 ^ 52 →
  let d := s * 2 ^ 63 + e * 2 ^ 52 + m in f64_exponent d = e ∧ f64_mantissa d = m ∧ (d .& (2 ^ 63 - 1)) = e * 2 ^ 52 + m.
Proof.
  intros Hs He Hm d. unfold f64_exponent, f64_mantissa.
  change 0x7ff with (Z.ones 11). change (2 ^ 52 - 1) with (Z.ones 52). change (2 ^ 63 - 1) with (Z.ones 63).
  rewrite !Z.land_ones, Z.shiftr_div_pow2 by lia. subst d. repeat split.
  - replace (s * 2 ^ 63 + e * 2 ^ 52 + m) with ((s * 2 ^ 11 + e) * 2 ^ 52 + m) by ring. rewrite Z.div_add_l by lia. rewrite (Z.div_small m) by lia.
    rewrite Z.add_0_r, Z.add_comm, Z.mod_add by lia. by apply Z.mod_small.
  - replace (s * 2 ^ 63 + e * 2 ^ 52 + m) with (m + (s * 2 ^ 11 + e) * 2 ^ 52) by ring. rewrite Z.mod_add by lia. by apply Z.mod_small.
  - replace (s * 2 ^ 63 + e * 2 ^ 52 + m) with ((e * 2 ^ 52 + m) + s * 2 ^ 63) by ring. rewrite Z.mod_add by lia. apply Z.mod_small. lia.
Qed.
Lemma f64_of_int_fields n : -2 ^ 31 <= n < 2 ^ 31 → n ≠ 0 →
  let e := Z.log2 (Z.abs n) in let m := (Z.abs n - 2 ^ e) * 2 ^ (52 - e) in
  f64_of_int n = b2z (n <? 0) * 2 ^ 63 + (1023 + e) * 2 ^ 52 + m ∧ 0 <= e <= 31 ∧ 0 <= m < 2 ^ 52.
Proof.
  intros Hn Hz e m. unfold f64_of_int. destruct (Z.eqb_spec n 0) as [|_]; [done|]. fold e. fold m.
  pose proof (Z.log2_spec (Z.abs n) ltac:(lia)) as [L1 L2]. fold e in L1, L2. pose proof (Z.log2_nonneg (Z.abs n)). fold e in H.
  assert (e <= 31) by (apply Z.lt_succ_r, Z.log2_lt_pow2; lia).
  split; [by destruct (n <? 0)|]. split; [lia|]. subst m. rewrite Z.pow_succ_r in L2 by lia.
  split; [apply Z.mul_nonneg_nonneg; [lia|apply Z.pow_nonneg; lia]|].
  replace 52 with (e + (52 - e)) at 2 by lia. rewrite Z.pow_add_r by lia. apply Z.mul_lt_mono_pos_r; [apply Z.pow_pos_nonneg; lia|lia].
Qed.
Lemma f64_of_int_regular n : -2 ^ 31 <= n < 2 ^ 31 → isnan (f64_of_int n) = false ∧ (f64_is_zero (f64_of_int n) = true → f64_of_int n = 0).
Proof.
  intros Hn. destruct (Z.eq_dec n 0) as [->|Hz]; [done|]. destruct (f64_of_int_fields n Hn Hz) as (-> & He & Hm).
  destruct (f64_fields (b2z (n <? 0)) (1023 + Z.log2 (Z.abs n)) ((Z.abs n - 2 ^ Z.log2 (Z.abs n)) * 2 ^ (52 - Z.log2 (Z.abs n)))) as (E1 & _ & E3); [by destruct (n <? 0); cbn; lia|lia|done|].
  unfold isnan, f64_is_zero. rewrite E1, E3. split; [|intros H%Z.eqb_eq; lia]. replace (_ =? 0x7ff) with false by lia. done.
Qed.
Lemma f64_of_int_canon n : -2 ^ 31 <= n < 2 ^ 31 → f64_canon (f64_of_int n) = f64_of_int n.
Proof. intros Hn. destruct (f64_of_int_regular n Hn) as [E Hz]. unfold f64_canon. rewrite E. destruct (f64_is_zero (f64_of_int n)); [by rewrite Hz|done]. Qed.
(** the double has the value of the integer *)
Lemma f64_of_int_value n : -2 ^ 31 <= n < 2 ^ 31 → n ≠ 0 →
  let d := f64_of_int n in (2 ^ 52 + f64_mantissa d) = Z.abs n * 2 ^ (1075 - f64_exponent d) ∧ Z.testbit d 63 = (n <? 0).
Proof.
  intros Hn Hz. destruct (f64_of_int_fields n Hn Hz) as (-> & He & Hm). set (e := Z.log2 (Z.abs n)) in *. set (m := (Z.abs n - 2 ^ e) * 2 ^ (52 - e)) in *.
  destruct (f64_fields (b2z (n <? 0)) (1023 + e) m) as (E1 & E2 & _); [by destruct (n <? 0); cbn; lia|lia|done|]. cbn zeta. rewrite E1, E2. split.
  - subst m. replace (1075 - (1023 + e)) with (52 - e) by lia. rewrite Z.mul_sub_distr_r, <- Z.pow_add_r by lia. replace (e + (52 - e)) with 52 by lia. lia.
  - rewrite Z.testbit_eqb by lia. replace (_ / 2 ^ 63) with (b2z (n <? 0)); [by destruct (n <? 0)|]. apply Z.div_unique with ((1023 + e) * 2 ^ 52 + m); lia.
Qed.
Lemma f64_of_int_inj n1 n2 : -2 ^ 31 <= n1 < 2 ^ 31 → -2 ^ 31 <= n2 < 2 ^ 31 → f64_of_int n1 = f64_of_int n2 → n1 = n2.
Proof.
  intros H1 H2 E. destruct (Z.eq_dec n1 0) as [->|Z1].
  - destruct (Z.eq_dec n2 0) as [->|Z2]; [done|]. destruct (f64_of_int_fields n2 H2 Z2) as (E2 & He & Hm). rewrite E2 in E. cbn [f64_of_int] in E. change (f64_of_int 0) with 0 in E. destruct (n2 <? 0); cbn in E; lia.
  - destruct (Z.eq_dec n2 0) as [->|Z2].
    + destruct (f64_of_int_fields n1 H1 Z1) as (E1 & He & Hm). rewrite E1 in E. change (f64_of_int 0) with 0 in E. destruct (n1 <? 0); cbn in E; lia.
    + destruct (f64_of_int_value n1 H1 Z1) as [V1 S1], (f64_of_int_value n2 H2 Z2) as [V2 S2]. rewrite E in V1, S1. rewrite V1 in V2.
      assert (0 <= 1075 - f64_exponent (f64_of_int n2)) as Hp.
      { destruct (f64_of_int_fields n2 H2 Z2) as (-> & He & Hm). destruct (f64_fields (b2z (n2 <? 0)) (1023 + Z.log2 (Z.abs n2)) ((Z.abs n2 - 2 ^ Z.log2 (Z.abs n2)) * 2 ^ (52 - Z.log2 (Z.abs n2)))) as (-> & _); [by destruct (n2 <? 0); cbn; lia|lia|done|lia]. }
      apply Z.mul_cancel_r in V2; [|apply Z.pow_nonzero; lia]. rewrite S1 in S2. lia.
Qed.
(** ** Hashing *)
Lemma hash_of_class v w : table_key v → table_key w → class_of v = class_of w → map_hash_key string_at v = map_hash_key string_at w.
Proof.
  intros (Iv & [c Sv] & Nv) (Iw & _ & Nw) Ec. rewrite Sv in Ec. destruct v; cbn [class_of] in Sv; try discriminate Sv; injection Sv as <-; destruct w; cbn [class_of] in Ec; try discriminate Ec; cbn [map_hash_key JS_VALUE_GET_TAG int32_value] in *; try (injection Ec as E); try reflexivity; try congruence.
  all: assert (∀ d, map_normalize_key (JSFloat64 d) = JSFloat64 d → f64_canon d = if isnan d then JS_FLOAT64_NAN else d) as Hf by
    (intros d Hd; cbn in Hd; unfold f64_canon; destruct (isnan d) eqn:N; [done|]; destruct (f64_is_zero d) eqn:Z0; [|done]; unfold f64_eq in Hd; rewrite N, Z0 in Hd; change (isnan 0) with false in Hd; change (f64_is_zero 0) with true in Hd; cbn in Hd; rewrite orb_true_r in Hd; done).
  - rewrite !f64_of_int_canon in E by done. by rewrite E.
  - rewrite f64_of_int_canon, (Hf bits) in E by done. by rewrite E.
  - rewrite f64_of_int_canon, (Hf bits) in E by done. by rewrite E.
  - rewrite (Hf bits), (Hf bits0) in E by done. by rewrite E.
Qed.
(** C13: [js_same_value_zero] is the SameValueZero of the language - equality of the classes of the keys, in which all the NaNs are one and both zeros are one - and keys that it finds equal have, once normalised, the same hash, so that a key is looked for in the bucket that it was put into *)
Theorem map_hash_key_same v w : int32_value v → int32_value w →
  js_same_value_zero string_at bigint_at v w = bool_decide (is_Some (class_of v) ∧ class_of v = class_of w) ∧
  (js_same_value_zero string_at bigint_at v w = true → map_hash_key string_at (map_normalize_key v) = map_hash_key string_at (map_normalize_key w)).
Proof.
  intros Iv Iw. rewrite same_class_spec. split; [done|]. intros [Sv E]%bool_decide_eq_true.
  apply hash_of_class; [by apply normalize_table_key| |by rewrite !class_normalize]. apply normalize_table_key; [done|by rewrite <- E].
Qed.
End Keys.
(** an integer and the double of the same value *)
Lemma map_hash_key_same_witness :
  js_same_value_zero (λ _, []) (λ _, 0) (JSInt 3) (JSFloat64 0x4008000000000000) = true ∧
  map_hash_key (λ _, []) (map_normalize_key (JSInt 3)) = map_hash_key (λ _, []) (map_normalize_key (JSFloat64 0x4008000000000000)).
Proof. split; [by vm_compute|]. by apply (map_hash_key_same (λ _, []) (λ _, 0)); [cbn; lia|done|vm_compute]. Defined.

(** * The data *)
Notation entry := (JSValue * JSValue)%type.
(** an iterator that is done has no index *)
Record map_spec := mk_spec { sp_data : list (option entry); sp_iters : gmap ptr (JSIteratorKindEnum * option nat) }.

Section Spec.
Context (string_at : ptr → list Z) (bigint_at : ptr → Z).
Fixpoint spec_find (data : list (option entry)) (k : JSValue) : option nat :=
  match data with
  | [] => None
  | Some (k', _) :: data => if bool_decide (class_of string_at bigint_at k' = class_of string_at bigint_at k) then Some O else S <$> spec_find data k
  | None :: data => S <$> spec_find data k
  end.
Definition spec_get (sp : map_spec) (k : JSValue) : JSValue :=
  match spec_find (sp_data sp) k ≫= λ i, mjoin (sp_data sp !! i) with Some (_, v) => v | None => JSUndefined end.
Definition spec_has (sp : map_spec) (k : JSValue) : bool := bool_decide (is_Some (spec_find (sp_data sp) k)).
Definition spec_size (sp : map_spec) : Z := zlen (omap id (sp_data sp)).
(** the value of an entry changes, its key does not; a new key is its normal form *)
Definition spec_set (sp : map_spec) (k v : JSValue) : map_spec :=
  mk_spec match spec_find (sp_data sp) k with
    | Some i => alter (λ e, (λ kv, (kv.1, v)) <$> e) i (sp_data sp)
    | None => sp_data sp ++ [Some (map_normalize_key k, v)]
    end (sp_iters sp).
Definition spec_delete (sp : map_spec) (k : JSValue) : map_spec :=
  match spec_find (sp_data sp) k with Some i => mk_spec (<[i := None]> (sp_data sp)) (sp_iters sp) | None => sp end.
Definition spec_clear (sp : map_spec) : map_spec := mk_spec ((λ _, None) <$> sp_data sp) (sp_iters sp).
Definition spec_iterator (sp : map_spec) (it : ptr) (kind : JSIteratorKindEnum) : map_spec := mk_spec (sp_data sp) (<[it := (kind, Some O)]> (sp_iters sp)).
(** the first entry from an index on *)
Fixpoint first_entry (data : list (option entry)) (i : nat) : option (nat * entry) :=
  match data with [] => None | Some e :: _ => Some (i, e) | None :: data => first_entry data (S i) end.
Definition spec_next (is_set : bool) (sp : map_spec) (it : ptr) : option (map_spec * next_result) :=
  '(kind, p) ← sp_iters sp !! it;
  match p with
  | None => Some (sp, NextDone)
  | Some i =>
    match first_entry (drop i (sp_data sp)) i with
    | None => Some (mk_spec (sp_data sp) (<[it := (kind, None)]> (sp_iters sp)), NextDone)
    | Some (j, (k, v)) => Some (mk_spec (sp_data sp) (<[it := (kind, Some (S j))]> (sp_iters sp)), next_item is_set kind k v)
    end
  end.
(** iterators that die *)
Definition drop_iters {B} (l : list ptr) (I : gmap ptr B) : gmap ptr B := foldl (λ I it, delete it I) I l.
Definition spec_drop (l : list ptr) (sp : map_spec) : map_spec := mk_spec (sp_data sp) (drop_iters l (sp_iters sp)).

(** ** Lemmas *)
(** how many iterators have gone past the entry before an index *)
Definition standing (I : gmap ptr (JSIteratorKindEnum * option nat)) (i : nat) : nat := size (filter (λ kv, kv.2.2 = Some i) I).
Lemma standing_delete I it i : standing I i = (standing (delete it I) i + if decide ((snd <$> I !! it) = Some (Some i)) then 1 else 0)%nat.
Proof.
  unfold standing. rewrite map_filter_delete. destruct (I !! it) as [[k p]|] eqn:E; cbn.
  - destruct (decide (Some p = Some (Some i))) as [Hp|Hp].
    + injection Hp as ->. assert (filter (λ kv, kv.2.2 = Some i) I !! it = Some (k, Some i)) as Ef by (by apply map_lookup_filter_Some).
      rewrite map_size_delete, Ef. assert (size (filter (λ kv, kv.2.2 = Some i) I) ≠ O); [|lia].
      intros Hz%map_size_empty_inv. rewrite Hz in Ef. by rewrite lookup_empty in Ef.
    + rewrite delete_id; [lia|]. apply map_lookup_filter_None. right. intros x Ex. cbn. intros Hx. apply Hp. rewrite E in Ex. injection Ex as <-. cbn in Hx. by f_equal.
  - rewrite decide_False by done. rewrite delete_id; [lia|]. apply map_lookup_filter_None. by left.
Qed.
Lemma standing_insert I it k p i : standing (<[it := (k, p)]> I) i = (standing (delete it I) i + if decide (p = Some i) then 1 else 0)%nat.
Proof.
  rewrite (standing_delete _ it). rewrite delete_insert_eq, lookup_insert_eq. cbn. f_equal. destruct (decide (p = Some i)) as [->|Hne]; [by rewrite decide_True|]. rewrite decide_False; [done|]. congruence.
Qed.
Lemma standing_drop l I i : (standing (drop_iters l I) i <= standing I i)%nat.
Proof. revert I. induction l as [|y l IH]; intros I; [done|]. change (drop_iters (y :: l) I) with (drop_iters l (delete y I)). specialize (IH (delete y I)). rewrite (standing_delete I y). lia. Qed.
Lemma standing_pos I it k i : I !! it = Some (k, Some i) → (0 < standing I i)%nat.
Proof. intros E. rewrite (standing_delete _ it), E. cbn. rewrite decide_True by done. lia. Qed.
Lemma standing_zero I i : (∀ it k, I !! it ≠ Some (k, Some i)) → standing I i = O.
Proof.
  intros H. unfold standing. apply map_size_empty_iff, map_eq. intros it. rewrite lookup_empty. apply map_lookup_filter_None. right. intros [k p] E. cbn. intros ->. by apply (H it k).
Qed.

Lemma spec_find_Some data k i : spec_find data k = Some i → ∃ k' v, data !! i = Some (Some (k', v)) ∧ class_of string_at bigint_at k' = class_of string_at bigint_at k.
Proof.
  revert i. induction data as [|[[k' v]|] data IH]; intros i; cbn; [done| |].
  - case_bool_decide as Hc; [intros [= <-]; eauto|]. intros (j & Ej & ->)%fmap_Some. by apply IH.
  - intros (j & Ej & ->)%fmap_Some. by apply IH.
Qed.
Lemma spec_find_None data k i k' v : spec_find data k = None → data !! i = Some (Some (k', v)) → class_of string_at bigint_at k' ≠ class_of string_at bigint_at k.
Proof.
  revert i. induction data as [|[[k0 v0]|] data IH]; intros i; cbn; [done| |].
  - case_bool_decide as Hc; [done|]. intros Hn%fmap_None E. destruct i as [|i]; [cbn in E; congruence|]. by apply (IH i).
  - intros Hn%fmap_None E. destruct i as [|i]; [done|]. by apply (IH i).
Qed.
Lemma first_entry_Some data i j e : first_entry data i = Some (j, e) → (i <= j)%nat ∧ data !! (j - i)%nat = Some (Some e) ∧ ∀ l, (l < j - i)%nat → data !! l = Some None.
Proof.
  revert i. induction data as [|[e'|] data IH]; intros i; cbn; [done| |].
  - intros [= <- <-]. rewrite Nat.sub_diag. split; [lia|]. split; [done|]. intros l Hl. lia.
  - intros (Hl & E & Hall)%IH. split; [lia|]. replace (j - i)%nat with (S (j - S i)) by lia. split; [done|]. intros [|l] Hl'; [done|]. cbn. apply Hall. lia.
Qed.
Lemma first_entry_None data i : first_entry data i = None → ∀ l e, data !! l = Some e → e = None.
Proof. revert i. induction data as [|[e'|] data IH]; intros i; cbn; [done|done|]. intros E [|l] e; cbn; [by intros [= <-]|]. eauto. Qed.
End Spec.
Lemma drop_iters_app {B} l1 l2 (I : gmap ptr B) : drop_iters l2 (drop_iters l1 I) = drop_iters (l1 ++ l2) I.
Proof. unfold drop_iters. by rewrite foldl_app. Qed.
Lemma drop_iters_lookup {B} l (I : gmap ptr B) it p : drop_iters l I !! it = Some p → I !! it = Some p ∧ it ∉ l.
Proof.
  revert I. induction l as [|y l IH]; intros I; cbn; [intros ->; split; [done|set_solver]|]. intros (E & Hn)%IH. apply lookup_delete_Some in E as [Hne E]. split; [done|]. set_solver.
Qed.
Lemma drop_iters_keeps {B} l (I : gmap ptr B) it : it ∉ l → drop_iters l I !! it = I !! it.
Proof. revert I. induction l as [|y l IH]; intros I Hn; [done|]. change (drop_iters (y :: l) I) with (drop_iters l (delete y I)). rewrite IH by set_solver. by rewrite lookup_delete_ne by set_solver. Qed.
