(* ===== verification/MapRep.v ===== *)
(** * The representation of a table (js/quickjs.c)

    Each entry of the data has a record while it is there or an iterator
    stands on it; the record counts both.  The records are in the list of the
    table in the order of the data, those of the entries in the bucket of
    their hash.  Then the changes that keep the representation: counting,
    insertion, removal, resizing; and the loops over the lists. *)
From stdpp Require Import gmap.
From S2P Require Import Prelude DList GcHeap MapTable MapSpec.

(** * The representation *)
(** ** Slots *)
Section Slots.
Context {B : Type}.
Implicit Types (M : list (option B)) (r : B).
Lemma slot_split M i r : M !! i = Some (Some r) → omap id M = omap id (take i M) ++ r :: omap id (drop (S i) M).
Proof. intros E. rewrite <- (take_drop_middle M i (Some r) E) at 1. by rewrite omap_app. Qed.
Lemma slot_empty M i r : M !! i = Some (Some r) → omap id (<[i := None]> M) = omap id (take i M) ++ omap id (drop (S i) M).
Proof. intros E. rewrite (insert_take_drop M i None); [by rewrite omap_app|]. by eapply lookup_lt_Some. Qed.
Lemma slot_elem M r : r ∈ omap id M ↔ Some r ∈ M.
Proof. rewrite list_elem_of_omap. split; [intros (y & Hx & Ey); cbn in Ey; by subst y|]. intros H. by exists (Some r). Qed.
Lemma slot_inj M i j r : NoDup (omap id M) → M !! i = Some (Some r) → M !! j = Some (Some r) → i = j.
Proof.
  intros Hn Ei Ej. destruct (Nat.eq_dec i j) as [|Hne]; [done|]. exfalso. rewrite (slot_split M i r Ei) in Hn. apply NoDup_app in Hn as (_ & N1 & [N2 _]%NoDup_cons).
  destruct (Nat.lt_ge_cases j i) as [Hl|Hg].
  - apply (N1 r); [|set_solver]. apply slot_elem, list_elem_of_lookup. exists j. by rewrite lookup_take_lt.
  - apply N2, slot_elem, list_elem_of_lookup. exists (j - S i)%nat. rewrite lookup_drop. by replace (S i + (j - S i))%nat with j by lia.
Qed.
End Slots.

Section Rep.
Context (string_at : ptr → list Z).
Implicit Types (s : JSMapState) (data : list (option entry)) (cnt : nat → nat) (M : list (option ptr)) (F : gmap map_node (list map_node)) (x : option ptr).
(** an entry and the iterators that stand on it *)
Definition holders data cnt (i : nat) : nat := ((match data !! i with Some (Some _) => 1 | _ => 0 end) + cnt i)%nat.
Definition record_of (e : option entry) (n : nat) : JSMapRecord :=
  match e with Some (k, v) => mk_record (Z.of_nat n) false k v | None => mk_record (Z.of_nat n) true JSUndefined JSUndefined end.
Definition bucket_of s (k : JSValue) : Z := map_hash_key string_at k .& (ms_hash_size s - 1).
(** [M]: the address of the record of each entry; [F]: the lists in memory; [x]: a record that is out of its bucket *)
Record core s data cnt M F x : Prop := {
  co_links : dlists (ms_links s) F;
  co_records : F !! Records = Some (RecordLink <$> omap id M);
  co_len : length M = length data;
  co_slot : ∀ i e, data !! i = Some e →
    holders data cnt i = O ∧ M !! i = Some None ∨
    ∃ r, (0 < holders data cnt i)%nat ∧ M !! i = Some (Some r) ∧ ms_mem s !! r = Some (record_of e (holders data cnt i));
  co_mem : ∀ r, is_Some (ms_mem s !! r) → Some r ∈ M;
  co_bucket : ∀ b, 0 <= b < ms_hash_size s → ∃ l, F !! Bucket b = Some (HashLink <$> l) ∧
    ∀ r, r ∈ l ↔ Some r ≠ x ∧ ∃ mr, ms_mem s !! r = Some mr ∧ mr_empty mr = false ∧ bucket_of s (mr_key mr) = b;
  co_heads : ∀ h l, F !! h = Some l → h = Records ∨ ∃ b, 0 <= b < ms_hash_size s ∧ h = Bucket b;
  co_dom : ∀ r, is_Some (ms_mem s !! r) → RecordLink r ∈ dom (ms_links s) ∧ HashLink r ∈ dom (ms_links s);
  co_size : 1 <= ms_hash_size s < 2 ^ 32
}.
(** what the lists do not hold does not change *)
Definition frame s s' : Prop :=
  ms_record_count s' = ms_record_count s ∧ ms_hash_size s' = ms_hash_size s ∧ ms_record_count_threshold s' = ms_record_count_threshold s ∧ ms_iters s' = ms_iters s.
Lemma frame_refl s : frame s s.
Proof. done. Qed.
Lemma frame_trans s1 s2 s3 : frame s1 s2 → frame s2 s3 → frame s1 s3.
Proof. intros (A1 & A2 & A3 & A4) (B1 & B2 & B3 & B4). repeat split; congruence. Qed.

Lemma core_ext s data cnt cnt' M F x : (∀ i, cnt' i = cnt i) → core s data cnt M F x → core s data cnt' M F x.
Proof. intros Hc [C1 C2 C3 C4 C5 C6 C7 C8 C9]. split; try done. intros i e E. destruct (C4 i e E) as [H|H]; unfold holders in *; rewrite (Hc i); [by left|by right]. Qed.
Lemma core_nodup s data cnt M F x : core s data cnt M F x → NoDup (omap id M).
Proof. intros C. pose proof (dl_nodup _ _ (co_links _ _ _ _ _ _ C) _ _ (co_records _ _ _ _ _ _ C)) as [_ Hn]%NoDup_cons. by apply NoDup_fmap_1 in Hn. Qed.
Lemma core_slot_mem s data cnt M F x i r e : core s data cnt M F x → M !! i = Some (Some r) → data !! i = Some e →
  (0 < holders data cnt i)%nat ∧ ms_mem s !! r = Some (record_of e (holders data cnt i)).
Proof. intros C Ei Ee. destruct (co_slot _ _ _ _ _ _ C i e Ee) as [[_ E]|(r' & Hp & E & Em)]; [congruence|]. by assert (r' = r) as -> by congruence. Qed.
Lemma core_slot_data s data cnt M F x i r : core s data cnt M F x → M !! i = Some r → ∃ e, data !! i = Some e.
Proof. intros C Ei. apply lookup_lt_Some in Ei. rewrite (co_len _ _ _ _ _ _ C) in Ei. by apply lookup_lt_is_Some in Ei. Qed.
(** the slot of a record *)
Lemma core_record s data cnt M F x r mr : core s data cnt M F x → ms_mem s !! r = Some mr →
  ∃ i e, M !! i = Some (Some r) ∧ data !! i = Some e ∧ (0 < holders data cnt i)%nat ∧ mr = record_of e (holders data cnt i).
Proof.
  intros C Em. destruct (list_elem_of_lookup_1 _ _ (co_mem _ _ _ _ _ _ C r ltac:(eauto))) as [i Ei]. destruct (core_slot_data _ _ _ _ _ _ _ _ C Ei) as [e Ee].
  destruct (core_slot_mem _ _ _ _ _ _ _ _ _ C Ei Ee) as [Hp Em']. exists i, e. repeat split; try done. congruence.
Qed.
Lemma core_in_mem s data cnt M F x r : core s data cnt M F x → Some r ∈ M → is_Some (ms_mem s !! r).
Proof.
  intros C [i Ei]%list_elem_of_lookup_1. destruct (core_slot_data _ _ _ _ _ _ _ _ C Ei) as [e Ee]. destruct (core_slot_mem _ _ _ _ _ _ _ _ _ C Ei Ee) as [_ ->]. eauto.
Qed.
Lemma core_other s data cnt M F x i j r e : core s data cnt M F x → M !! i = Some (Some r) → M !! j = Some (Some e) → j ≠ i → e ≠ r.
Proof. intros C Ei Ej Hne ->. apply Hne. by eapply slot_inj; [eapply core_nodup| |]. Qed.
(** nodes of records that are not in memory *)
Lemma core_free_nodes s data cnt M F x r : core s data cnt M F x → ms_mem s !! r = None → free_node F (RecordLink r) ∧ free_node F (HashLink r).
Proof.
  intros C Er. split; intros h l E Hin; destruct (co_heads _ _ _ _ _ _ C h l E) as [->|(b & Hb & ->)].
  - rewrite (co_records _ _ _ _ _ _ C) in E. injection E as <-. apply elem_of_cons in Hin as [?|Hin]; [done|]. apply list_elem_of_fmap in Hin as (r' & [= <-] & Hr%slot_elem).
    destruct (core_in_mem _ _ _ _ _ _ _ C Hr). congruence.
  - destruct (co_bucket _ _ _ _ _ _ C b Hb) as (l' & E' & _). rewrite E' in E. injection E as <-. apply elem_of_cons in Hin as [?|Hin]; [done|]. apply list_elem_of_fmap in Hin as (r' & [=] & _).
  - rewrite (co_records _ _ _ _ _ _ C) in E. injection E as <-. apply elem_of_cons in Hin as [?|Hin]; [done|]. apply list_elem_of_fmap in Hin as (r' & [=] & _).
  - destruct (co_bucket _ _ _ _ _ _ C b Hb) as (l' & E' & Hl). rewrite E' in E. injection E as <-. apply elem_of_cons in Hin as [?|Hin]; [done|]. apply list_elem_of_fmap in Hin as (r' & [= <-] & Hr).
    apply Hl in Hr as (_ & mr & Em & _). congruence.
Qed.
Lemma bucket_range s k : 1 <= ms_hash_size s < 2 ^ 32 → 0 <= bucket_of s k < ms_hash_size s.
Proof.
  intros Hs. unfold bucket_of. rewrite Z.land_comm. set (a := map_hash_key string_at k). set (n := ms_hash_size s - 1). assert (0 <= n) by (subst n; lia).
  assert (0 <= n - Z.land n a) as Hd; [|split; [apply Z.land_nonneg; by left|subst n; lia]].
  rewrite Z.sub_nocarry_ldiff; [apply Z.ldiff_nonneg; by left|]. apply Z.bits_inj'. intros j _. rewrite Z.ldiff_spec, Z.land_spec, Z.bits_0. by destruct (Z.testbit n j), (Z.testbit a j).
Qed.

(** ** Primitive changes *)
(** a record gets another entry and other holders *)
Lemma core_put s data cnt M F x i r e e' cnt' x' :
  core s data cnt M F x → M !! i = Some (Some r) → data !! i = Some e → (∀ j, j ≠ i → cnt' j = cnt j) →
  (0 < holders (<[i := e']> data) cnt' i)%nat → x' = x ∧ fst <$> e' = fst <$> e ∨ e' = None ∧ x = Some r ∧ x' = None →
  core (put_record s r (record_of e' (holders (<[i := e']> data) cnt' i))) (<[i := e']> data) cnt' M F x'.
Proof.
  intros C Ei Ee Hcnt Hp Hx. pose proof (lookup_lt_Some _ _ _ Ee) as Hi. pose proof (core_slot_mem _ _ _ _ _ _ _ _ _ C Ei Ee) as [_ Em]. pose proof C as [C1 C2 C3 C4 C5 C6 C7 C8 C9]. split; cbn; try done.
  - by rewrite length_insert.
  - intros j e0 Ej. destruct (decide (j = i)) as [->|Hne].
    + right. exists r. rewrite list_lookup_insert_eq in Ej by done. injection Ej as <-. by rewrite lookup_insert_eq.
    + rewrite list_lookup_insert_ne in Ej by done. unfold holders in *. rewrite list_lookup_insert_ne by done. rewrite Hcnt by done. destruct (C4 j e0 Ej) as [H|(r' & Hpos & Er & Em')]; [by left|right]. exists r'. split; [done|]. split; [done|].
      rewrite lookup_insert_ne; [done|]. pose proof (core_other _ _ _ _ _ _ _ _ _ _ C Ei Er Hne). congruence.
  - intros r' [mr E]. destruct (decide (r' = r)) as [->|Hne]; [apply list_elem_of_lookup; eauto|]. rewrite lookup_insert_ne in E by congruence. eauto.
  - intros b Hb. destruct (C6 b Hb) as (l & E & Hl). exists l. split; [done|]. intros r'. rewrite Hl. clear Hl. destruct (decide (r' = r)) as [->|Hne].
    + rewrite lookup_insert_eq, Em. unfold bucket_of. cbn. destruct Hx as [[-> Hk]|(-> & -> & ->)].
      * destruct e as [[k v]|], e' as [[k' v']|]; cbn in *; try done; [injection Hk as ->; naive_solver|naive_solver].
      * split; [by intros [? _]|]. by intros (_ & mr & [= <-] & H & _).
    + rewrite lookup_insert_ne by congruence. assert (Some r' ≠ x ↔ Some r' ≠ x') as -> by (destruct Hx as [[-> _]|(_ & -> & ->)]; [done|split; [done|congruence]]). done.
  - intros r' [mr E]. apply C8. destruct (decide (r' = r)) as [->|Hne]; [eauto|]. rewrite lookup_insert_ne in E by congruence. eauto.
Qed.
(** a record that nothing holds is freed *)
Lemma core_free s data cnt M F x i r e cnt' x' mr :
  core s data cnt M F x → M !! i = Some (Some r) → data !! i = Some e → (∀ j, j ≠ i → cnt' j = cnt j) → cnt' i = O →
  x' = x ∧ e = None ∨ x = Some r ∧ x' = None →
  ∃ s1 s2 F', map_list_del (put_record s r mr) (RecordLink r) = Some s1 ∧ free_record s1 r = Some s2 ∧ frame s s2 ∧
    core s2 (<[i := None]> data) cnt' (<[i := None]> M) F' x'.
Proof.
  intros C Ei Ee Hcnt Hz Hx. pose proof (lookup_lt_Some _ _ _ Ee) as Hi. pose proof (lookup_lt_Some _ _ _ Ei) as Hi'. pose proof (core_slot_mem _ _ _ _ _ _ _ _ _ C Ei Ee) as [_ Em]. pose proof C as [C1 C2 C3 C4 C5 C6 C7 C8 C9].
  rewrite (slot_split M i r Ei), fmap_app in C2. cbn in C2.
  destruct (dlists_del _ _ _ _ _ _ C1 C2) as (m' & Ed & Dm & D'). pose proof (dlists_del_free _ _ _ _ _ _ C1 C2) as Hf. rewrite <- fmap_app, <- (slot_empty M i r Ei) in D', Hf.
  set (F' := <[Records := RecordLink <$> omap id (<[i := None]> M)]> F) in *.
  eexists _, _, F'. split; [unfold map_list_del; cbn; by rewrite Ed|]. split; [unfold free_record; cbn; by rewrite lookup_insert_eq|]. split; [done|].
  assert (∀ b, F' !! Bucket b = F !! Bucket b) as HB by (intros b; subst F'; by rewrite lookup_insert_ne).
  assert (free_node F' (HashLink r)) as Hf2.
  { intros h l E Hin. subst F'. apply lookup_insert_Some in E as [[<- <-]|[Hne E]].
    - apply elem_of_cons in Hin as [?|Hin]; [done|]. by apply list_elem_of_fmap in Hin as (r' & [=] & _).
    - destruct (C7 h l E) as [->|(b & Hb & ->)]; [done|]. destruct (C6 b Hb) as (l' & E' & Hl). rewrite E' in E. injection E as <-. apply elem_of_cons in Hin as [?|Hin]; [done|].
      apply list_elem_of_fmap in Hin as (r' & [= <-] & Hr). apply Hl in Hr as (Hnx & mr' & Em' & Hne' & _). rewrite Em in Em'. injection Em' as <-. destruct Hx as [[-> ->]|[-> ->]]; done. }
  split; cbn; try done.
  - apply dlists_delete; [apply dlists_delete|]; done.
  - subst F'. by rewrite lookup_insert_eq.
  - by rewrite !length_insert.
  - intros j e0 Ej. destruct (decide (j = i)) as [->|Hne].
    + left. unfold holders. rewrite !list_lookup_insert_eq by done. by rewrite Hz.
    + rewrite list_lookup_insert_ne in Ej by done. unfold holders in *. rewrite !list_lookup_insert_ne by done. rewrite Hcnt by done. destruct (C4 j e0 Ej) as [H|(r' & Hpos & Er & Em')]; [by left|right]. exists r'. split; [done|]. split; [done|].
      pose proof (core_other _ _ _ _ _ _ _ _ _ _ C Ei Er Hne). by rewrite lookup_delete_ne, lookup_insert_ne by congruence.
  - intros r' [mr' E]. apply lookup_delete_Some in E as [Hne E]. rewrite lookup_insert_ne in E by done. destruct (list_elem_of_lookup_1 _ _ (C5 r' ltac:(eauto))) as [j Ej].
    apply list_elem_of_lookup. exists j. rewrite list_lookup_insert_ne; [done|]. congruence.
  - intros b Hb. rewrite HB. destruct (C6 b Hb) as (l & E & Hl). exists l. split; [done|]. intros r'. rewrite Hl. clear Hl. destruct (decide (r' = r)) as [->|Hne].
    + rewrite lookup_delete_eq, Em. split; [|naive_solver]. intros (Hnx & mr' & [= <-] & Hne' & _). destruct Hx as [[-> ->]|[-> ->]]; done.
    + rewrite lookup_delete_ne, lookup_insert_ne by congruence. assert (Some r' ≠ x ↔ Some r' ≠ x') as -> by (destruct Hx as [[-> _]|[-> ->]]; [done|split; [done|congruence]]). done.
  - intros h l E. subst F'. apply lookup_insert_Some in E as [[<- _]|[_ E]]; [by left|eauto].
  - intros r' [mr' E]. apply lookup_delete_Some in E as [Hne E]. rewrite lookup_insert_ne in E by done. destruct (C8 r' ltac:(eauto)) as [H1 H2]. rewrite !dom_delete_L, Dm. set_solver.
Qed.
(** a record leaves its bucket *)
Lemma core_unhash s data cnt M F r mr : core s data cnt M F None → ms_mem s !! r = Some mr → mr_empty mr = false →
  ∃ s' F', map_list_del s (HashLink r) = Some s' ∧ frame s s' ∧ ms_mem s' = ms_mem s ∧ core s' data cnt M F' (Some r).
Proof.
  intros C Em He. pose proof C as [C1 C2 C3 C4 C5 C6 C7 C8 C9]. set (b := bucket_of s (mr_key mr)). pose proof (bucket_range s (mr_key mr) C9) as Hb. fold b in Hb.
  destruct (C6 b Hb) as (l & E & Hl). assert (r ∈ l) as Hr by (apply Hl; split; [done|]; eauto). apply list_elem_of_split in Hr as (l1 & l2 & ->). rewrite fmap_app in E. cbn in E.
  assert (NoDup (l1 ++ r :: l2)) as (_ & N1 & [N2 _]%NoDup_cons)%NoDup_app.
  { pose proof (dl_nodup _ _ C1 _ _ E) as [_ Hn]%NoDup_cons. rewrite <- fmap_cons, <- fmap_app in Hn. by apply NoDup_fmap_1 in Hn. }
  destruct (dlists_del _ _ _ _ _ _ C1 E) as (m' & Ed & Dm & D'). rewrite <- fmap_app in D'. eexists _, (<[Bucket b := HashLink <$> (l1 ++ l2)]> F). split; [unfold map_list_del; by rewrite Ed|]. split; [done|]. split; [done|].
  split; cbn; try done.
  - by rewrite lookup_insert_ne.
  - intros b' Hb'. destruct (decide (b' = b)) as [->|Hne].
    + exists (l1 ++ l2). rewrite lookup_insert_eq. split; [done|]. intros r'. split.
      * intros Hr'. assert (r' ≠ r) as Hne by (intros ->; apply elem_of_app in Hr' as [Hr'|Hr']; [apply (N1 r Hr'); set_solver|done]). split; [congruence|]. apply (proj1 (Hl r') ltac:(set_solver)).
      * intros (Hne & H). assert (r' ∈ l1 ++ r :: l2) as Hin by (apply Hl; done). apply elem_of_app in Hin as [Hin|[->|Hin]%elem_of_cons]; [set_solver|done|set_solver].
    + rewrite lookup_insert_ne by congruence. destruct (C6 b' Hb') as (l' & E' & Hl'). exists l'. split; [done|]. intros r'. rewrite Hl'. split; intros [_ H]; (split; [|done]).
      * intros [= ->]. destruct H as (mr' & Em' & _ & Hbk). subst b. congruence.
      * done.
  - intros h l0 E0. apply lookup_insert_Some in E0 as [[<- _]|[_ E0]]; [right; eauto|eauto].
  - intros r' Hr'. rewrite Dm. by apply C8.
Qed.
End Rep.

(** * Counting and insertion *)
(** memory for a node *)
Lemma dlists_alloc (m : gmap map_node (option map_node * option map_node)) F n : dlists m F → free_node F n → dlists (alloc_node m n) F.
Proof.
  intros [Dc Dn Dd] Hx. split; [|done|done]. intros h l E. pose proof (Hx _ _ E) as Hxl. unfold alloc_node.
  apply (chain_frame m); [| |by apply Dc]; intros z Hin; unfold get_next, get_prev; (rewrite lookup_insert_ne; [done|]); intros ->; apply Hxl; set_solver.
Qed.
Section Core.
Context (string_at : ptr → list Z).
Notation core := (core string_at).
Notation bucket_of := (bucket_of string_at).
Implicit Types (s : JSMapState) (data : list (option entry)) (cnt : nat → nat) (M : list (option ptr)) (F : gmap map_node (list map_node)) (x : option ptr).

(** ** Counting *)
Definition dec cnt (i : nat) : nat → nat := λ j, if decide (j = i) then pred (cnt j) else cnt j.
Definition inc cnt (i : nat) : nat → nat := λ j, if decide (j = i) then S (cnt j) else cnt j.
(** the addresses of the entries that are still held *)
Definition keeps data cnt M M' : Prop := ∀ j r, M !! j = Some (Some r) → (0 < holders data cnt j)%nat → M' !! j = Some (Some r).
Lemma put_same s r mr : ms_mem s !! r = Some mr → put_record s r mr = s.
Proof. intros E. unfold put_record, map_set_mem. rewrite insert_id by done. by destruct s. Qed.
Lemma core_decref s data cnt M F x i r : core s data cnt M F x → M !! i = Some (Some r) → (0 < cnt i)%nat →
  ∃ s' M' F', map_decref_record s r = Some s' ∧ frame s s' ∧ core s' data (dec cnt i) M' F' x ∧ keeps data (dec cnt i) M M' ∧ ∀ j, j ≠ i → M' !! j = M !! j.
Proof.
  intros C Ei Hp. destruct (core_slot_data _ _ _ _ _ _ _ _ _ C Ei) as [e Ee]. destruct (core_slot_mem _ _ _ _ _ _ _ _ _ _ C Ei Ee) as [Hh Em].
  assert (∀ j, j ≠ i → dec cnt i j = cnt j) as Hd by (intros j Hne; unfold dec; by rewrite decide_False).
  assert (dec cnt i i = pred (cnt i)) as Hd0 by (unfold dec; by rewrite decide_True).
  assert (holders data (dec cnt i) i = pred (holders data cnt i)) as Hh' by (unfold holders; rewrite Hd0; lia).
  unfold map_decref_record. rewrite Em. cbn [mbind option_bind].
  set (mr' := mk_record _ _ _ _). assert (mr' = record_of e (holders data (dec cnt i) i)) as Emr.
  { subst mr'. rewrite Hh'. destruct e as [[k v]|]; cbn; f_equal; lia. }
  assert (mr_ref_count (record_of e (holders data cnt i)) = Z.of_nat (holders data cnt i)) as -> by (by destruct e as [[k v]|]).
  destruct (Z.eqb_spec (Z.of_nat (holders data cnt i) - 1) 0) as [Hz|Hz].
  - assert (e = None) as -> by (destruct e as [[k v]|]; [|done]; unfold holders in Hz; rewrite Ee in Hz; lia). cbn [negb mr_empty record_of].
    destruct (core_free _ _ _ _ _ _ _ i r None (dec cnt i) x mr' C Ei Ee Hd) as (s1 & s2 & F' & -> & E2 & Hf & C'); [unfold holders in Hz; rewrite Ee in Hz; lia|by left|].
    cbn [mbind option_bind]. rewrite E2. rewrite (list_insert_id data) in C' by done. exists s2, (<[i := None]> M), F'. split; [done|]. split; [done|]. split; [done|]. split; [|intros j Hne; by rewrite list_lookup_insert_ne].
    intros j r' Ej Hj. rewrite list_lookup_insert_ne; [done|]. intros <-. lia.
  - exists (put_record s r mr'), M, F. split; [done|]. split; [done|]. split; [|split; [by intros ???|done]]. rewrite Emr.
    pose proof (core_put _ _ _ _ _ _ _ i r e e (dec cnt i) x C Ei Ee Hd) as C'. rewrite !(list_insert_id data) in C' by done. apply C'; [lia|by left].
Qed.
Lemma core_incref s data cnt M F x i r e : core s data cnt M F x → M !! i = Some (Some r) → data !! i = Some e →
  core (put_record s r (record_of e (S (holders data cnt i)))) data (inc cnt i) M F x.
Proof.
  intros C Ei Ee. assert (∀ j, j ≠ i → inc cnt i j = cnt j) as Hd by (intros j Hne; unfold inc; by rewrite decide_False).
  pose proof (core_put _ _ _ _ _ _ _ i r e e (inc cnt i) x C Ei Ee Hd) as C'. rewrite !(list_insert_id data) in C' by done.
  assert (holders data (inc cnt i) i = S (holders data cnt i)) as E by (unfold holders, inc; rewrite decide_True by done; lia). rewrite E in C'. apply C'; [lia|by left].
Qed.
(** ** Insertion *)
Lemma core_add s data cnt M F r k : core s data cnt M F None → ms_mem s !! r = None → cnt (length data) = O →
  let s0 := map_set_links (put_record s r (mk_record 1 false k JSUndefined)) (alloc_node (alloc_node (ms_links s) (RecordLink r)) (HashLink r)) in
  ∃ s1 s2 F', map_list_add_tail s0 (HashLink r) (Bucket (bucket_of s0 k)) = Some s1 ∧ map_list_add_tail s1 (RecordLink r) Records = Some s2 ∧ frame s s2 ∧
    ms_mem s2 = <[r := mk_record 1 false k JSUndefined]> (ms_mem s) ∧ core s2 (data ++ [Some (k, JSUndefined)]) cnt (M ++ [Some r]) F' None.
Proof.
  intros C Er Hz s0. destruct (core_free_nodes _ _ _ _ _ _ _ _ C Er) as [Hf1 Hf2]. pose proof C as [C1 C2 C3 C4 C5 C6 C7 C8 C9]. change (bucket_of s0 k) with (bucket_of s k).
  set (b := bucket_of s k). pose proof (bucket_range string_at s k C9) as Hb. fold b in Hb. destruct (C6 b Hb) as (l & E & Hl).
  assert (dlists (ms_links s0) F) as D0 by (subst s0; cbn; by do 2 (apply dlists_alloc; [|done])).
  destruct (dlists_add_tail _ _ _ _ (HashLink r) D0 E Hf2) as (m1 & E1 & Dm1 & D1); [subst s0; cbn; unfold alloc_node; rewrite dom_insert_L; set_solver|].
  set (F1 := <[Bucket b := (HashLink <$> l) ++ [HashLink r]]> F) in *.
  assert (F1 !! Records = Some (RecordLink <$> omap id M)) as E' by (subst F1; by rewrite lookup_insert_ne).
  assert (free_node F1 (RecordLink r)) as Hf1'.
  { intros h l0 E0 Hin. subst F1. apply lookup_insert_Some in E0 as [[<- <-]|[_ E0]]; [|by apply (Hf1 h l0)]. apply (Hf1 _ _ E). set_solver. }
  destruct (dlists_add_tail _ _ _ _ (RecordLink r) D1 E' Hf1') as (m2 & E2 & Dm2 & D2); [rewrite Dm1; subst s0; cbn; unfold alloc_node; rewrite !dom_insert_L; set_solver|].
  eexists _, _, _. split; [unfold map_list_add_tail; by rewrite E1|]. split; [unfold map_list_add_tail; cbn; by rewrite E2|]. split; [done|]. split; [done|].
  split; cbn; try done.
  - rewrite lookup_insert_eq, omap_app, fmap_app. done.
  - rewrite !length_app. cbn. lia.
  - intros j e0 Ej. apply lookup_app_Some in Ej as [Ej|[Hj Ej]].
    + pose proof (lookup_lt_Some _ _ _ Ej). unfold holders in *. rewrite !lookup_app_l by (rewrite ?C3; done). destruct (C4 j e0 Ej) as [H0|(r' & Hpos & Er' & Em')]; [by left|right]. exists r'. split; [done|]. split; [done|].
      rewrite lookup_insert_ne; [done|]. congruence.
    + assert (j = length data) as -> by (apply lookup_lt_Some in Ej; cbn in Ej; lia). rewrite Nat.sub_diag in Ej. injection Ej as <-. right. exists r.
      unfold holders. rewrite !lookup_app_r, C3, Nat.sub_diag by lia. rewrite Hz, lookup_insert_eq. split; [cbn; lia|done].
  - intros r' [mr Em]. apply lookup_insert_Some in Em as [[<- _]|[_ Em]]; [set_solver|]. apply elem_of_app. left. eauto.
  - intros b' Hb'. rewrite lookup_insert_ne by done. subst F1. destruct (decide (b' = b)) as [->|Hne].
    + exists (l ++ [r]). rewrite lookup_insert_eq, fmap_app. split; [done|]. intros r'. rewrite elem_of_app, list_elem_of_singleton, Hl. destruct (decide (r' = r)) as [->|Hne].
      * rewrite lookup_insert_eq. split; [intros _; split; [done|]; by eexists|intros _; by right].
      * rewrite lookup_insert_ne by congruence. naive_solver.
    + rewrite lookup_insert_ne by congruence. destruct (C6 b' Hb') as (l' & E0 & Hl'). exists l'. split; [done|]. intros r'. rewrite Hl'. destruct (decide (r' = r)) as [->|Hne'].
      * rewrite lookup_insert_eq, Er. split; [naive_solver|]. intros (_ & mr & [= <-] & _ & Hbk). cbn in Hbk. by destruct Hne.
      * by rewrite lookup_insert_ne by congruence.
  - intros h l0 E0. apply lookup_insert_Some in E0 as [[<- _]|[_ E0]]; [by left|]. subst F1. apply lookup_insert_Some in E0 as [[<- _]|[_ E0]]; [right; eauto|eauto].
  - intros r' [mr Em]. rewrite Dm2, Dm1. subst s0. cbn. unfold alloc_node. rewrite !dom_insert_L. apply lookup_insert_Some in Em as [[<- _]|[_ Em]]; [set_solver|]. destruct (C8 r' ltac:(eauto)). set_solver.
Qed.
End Core.

(** * The loops over the lists *)
Lemma nodup_size {B} (m : gmap ptr B) l : NoDup l → (∀ r, r ∈ l → is_Some (m !! r)) → (length l <= size m)%nat.
Proof.
  intros Hn Hl. rewrite <- size_dom, <- (size_list_to_set (C:=gset ptr) l Hn). apply subseteq_size. intros r Hr%elem_of_list_to_set. by apply elem_of_dom, Hl.
Qed.
Section Loops.
Context (string_at : ptr → list Z) (bigint_at : ptr → Z).
Notation core := (core string_at).
Notation bucket_of := (bucket_of string_at).
Notation same := (js_same_value_zero string_at bigint_at).
Implicit Types (s : JSMapState) (data : list (option entry)) (cnt : nat → nat) (M : list (option ptr)) (F : gmap map_node (list map_node)) (x : option ptr).

(** ** Search in a bucket *)
Lemma find_loop_ok s F k h l1 l2 fuel : dlists (ms_links s) F → F !! h = Some (HashLink <$> (l1 ++ l2)) → (∀ r, r ∈ l2 → is_Some (ms_mem s !! r)) → (length l2 <= fuel)%nat →
  ∃ o, find_loop string_at bigint_at fuel s k h (hd h (HashLink <$> l2)) = Some o ∧
    match o with
    | Some r => r ∈ l2 ∧ ∃ mr, ms_mem s !! r = Some mr ∧ same (mr_key mr) k = true
    | None => ∀ r mr, r ∈ l2 → ms_mem s !! r = Some mr → same (mr_key mr) k = false
    end.
Proof.
  intros D. revert l1 fuel. induction l2 as [|r l2 IH]; intros l1 fuel E Hm Hf; cbn.
  - exists None. split; [|by intros ?? ?%not_elem_of_nil]. destruct fuel; cbn; by rewrite bool_decide_eq_true_2.
  - destruct fuel as [|fuel]; cbn in Hf; [lia|]. cbn. rewrite fmap_app in E. cbn in E. rewrite bool_decide_eq_false_2.
    2: { intros <-. pose proof (dl_nodup _ _ D _ _ E) as [Hn _]%NoDup_cons. apply Hn. set_solver. }
    destruct (Hm r ltac:(set_solver)) as [mr Em]. rewrite Em. cbn. destruct (same (mr_key mr) k) eqn:Es; [exists (Some r); split; [done|]; split; [set_solver|]; eauto|].
    rewrite (dlists_next _ _ _ _ _ _ D E). cbn. rewrite <- fmap_cons, <- fmap_app in E. replace (l1 ++ r :: l2) with ((l1 ++ [r]) ++ l2) in E by (by rewrite <- app_assoc).
    destruct (IH (l1 ++ [r]) fuel E ltac:(set_solver) ltac:(lia)) as (o & Eo & Ho). exists o. split; [done|]. destruct o as [r'|]; [destruct Ho; set_solver|].
    intros r' mr' [->|Hr']%elem_of_cons Em'; [congruence|eauto].
Qed.
(** an entry of each key *)
Definition keys_ok data : Prop :=
  (∀ i k v, data !! i = Some (Some (k, v)) → table_key string_at bigint_at k) ∧
  ∀ i j k v k' v', data !! i = Some (Some (k, v)) → data !! j = Some (Some (k', v')) → class_of string_at bigint_at k = class_of string_at bigint_at k' → i = j.
Lemma find_ok s data cnt M F k : core s data cnt M F None → keys_ok data → table_key string_at bigint_at k →
  map_find_record string_at bigint_at s k = Some (match spec_find string_at bigint_at data k with Some i => mjoin (M !! i) | None => None end).
Proof.
  intros C [Hk1 Hk2] Tk. pose proof C as [C1 C2 C3 C4 C5 C6 C7 C8 C9]. unfold map_find_record. fold (bucket_of s k). destruct (C6 _ (bucket_range string_at s k C9)) as (l & E & Hl).
  rewrite (dlists_first _ _ _ _ C1 E). cbn [mbind option_bind].
  assert (∀ r, r ∈ l → is_Some (ms_mem s !! r)) as Hm by (intros r (_ & mr & Em & _)%Hl; eauto).
  assert (NoDup l) as Hn by (pose proof (dl_nodup _ _ C1 _ _ E) as [_ Hn]%NoDup_cons; by apply NoDup_fmap_1 in Hn).
  destruct (find_loop_ok s F k _ [] l (map_fuel s) C1 E Hm (nodup_size _ _ Hn Hm)) as (o & -> & Ho). f_equal.
  destruct (spec_find string_at bigint_at data k) as [i|] eqn:Ef.
  - apply spec_find_Some in Ef as (k' & v & Ei & Ec). destruct (C4 i _ Ei) as [[Hz _]|(r & _ & Er & Em)]; [unfold holders in Hz; rewrite Ei in Hz; lia|]. rewrite Er. cbn.
    assert (same k' k = true) as Hs by (rewrite same_class_spec; apply bool_decide_eq_true; split; [apply (Hk1 _ _ _ Ei)|done]).
    assert (r ∈ l) as Hr. { apply Hl. split; [done|]. eexists. split; [done|]. split; [done|]. cbn. unfold bucket_of. f_equal. by apply (hash_of_class string_at bigint_at); [eapply Hk1| |]. }
    destruct o as [r'|]; [|pose proof (Ho r _ Hr Em) as Hs'; cbn in Hs'; congruence]. destruct Ho as (Hr' & mr & Em' & Hs'). f_equal. apply Hl in Hr' as (_ & mr' & Em'' & He & _). assert (mr' = mr) as -> by congruence.
    destruct (core_record _ _ _ _ _ _ _ _ _ C Em') as (j & e & Ej & Ee & _ & ->). destruct e as [[k2 v2]|]; [|done]. cbn in Hs'. rewrite same_class_spec in Hs'. apply bool_decide_eq_true in Hs' as [_ Hc].
    assert (j = i) as -> by (eapply Hk2; [done..|congruence]). congruence.
  - destruct o as [r'|]; [|done]. destruct Ho as (Hr' & mr & Em' & Hs'). apply Hl in Hr' as (_ & mr' & Em'' & He & _). assert (mr' = mr) as -> by congruence.
    destruct (core_record _ _ _ _ _ _ _ _ _ C Em') as (j & e & Ej & Ee & _ & ->). destruct e as [[k2 v2]|]; [|done]. cbn in Hs'. rewrite same_class_spec in Hs'. apply bool_decide_eq_true in Hs' as [_ Hc].
    by destruct (spec_find_None _ _ _ _ _ _ _ Ef Ee).
Qed.
(** ** The next entry of an iterator *)
Lemma drop_slot M i : (i < length M)%nat → omap id (drop i M) = match M !! i with Some (Some r) => [r] | _ => [] end ++ omap id (drop (S i) M).
Proof. intros Hi. destruct (lookup_lt_is_Some_2 M i Hi) as [o Eo]. rewrite (drop_S _ _ _ Eo), Eo. by destruct o. Qed.
(** the node after a slot *)
Definition node_from M (i : nat) : map_node := hd Records (RecordLink <$> omap id (drop i M)).
Lemma node_next s data cnt M F x i r : core s data cnt M F x → M !! i = Some (Some r) → get_next (ms_links s) (RecordLink r) = Some (node_from M (S i)).
Proof. intros C Ei. pose proof (co_records _ _ _ _ _ _ _ C) as E. rewrite (slot_split _ _ _ Ei), fmap_app in E. by apply (dlists_next _ _ _ _ _ _ (co_links _ _ _ _ _ _ _ C) E). Qed.
Lemma node_first s data cnt M F x : core s data cnt M F x → get_next (ms_links s) Records = Some (node_from M 0).
Proof. intros C. apply (dlists_first _ _ _ _ (co_links _ _ _ _ _ _ _ C) (co_records _ _ _ _ _ _ _ C)). Qed.
Lemma next_ok s data cnt M F x i fuel : core s data cnt M F x → (length (omap id (drop i M)) <= fuel)%nat →
  next_loop fuel s (node_from M i) = Some (match first_entry (drop i data) i with Some (j, _) => mjoin (M !! j) | None => None end).
Proof.
  intros C. remember (length M - i)%nat as n eqn:En. revert i fuel En. induction n as [|n IH]; intros i fuel En Hf; unfold node_from in *.
  - rewrite !drop_ge by (rewrite <- ?(co_len _ _ _ _ _ _ _ C); lia). by destruct fuel.
  - destruct (lookup_lt_is_Some_2 data i) as [e Ee]; [rewrite <- (co_len _ _ _ _ _ _ _ C); lia|]. rewrite (drop_S _ _ _ Ee). rewrite drop_slot in Hf |- * by lia.
    destruct (co_slot _ _ _ _ _ _ _ C i e Ee) as [[Hz Ei]|(r & Hp & Ei & Em)]; rewrite Ei in Hf |- *.
    + assert (e = None) as -> by (destruct e; [unfold holders in Hz; rewrite Ee in Hz; lia|done]). cbn [app] in *. apply IH; [lia|done].
    + cbn in Hf. destruct fuel as [|fuel]; [lia|]. cbn. rewrite Em. destruct e as [[k v]|]; cbn; [by rewrite Ei|]. rewrite (node_next _ _ _ _ _ _ _ _ C Ei). apply IH; lia.
Qed.
Lemma ring_fuel s data cnt M F x i : core s data cnt M F x → (length (omap id (drop i M)) <= map_fuel s)%nat.
Proof.
  intros C. pose proof (core_nodup _ _ _ _ _ _ _ C) as Hn. rewrite <- (take_drop i M), omap_app in Hn. apply NoDup_app in Hn as (_ & _ & Hn). apply nodup_size; [done|].
  intros r Hr%slot_elem. eapply core_in_mem; [done|]. apply list_elem_of_lookup in Hr as [j Hr]. rewrite lookup_drop in Hr. apply list_elem_of_lookup. eauto.
Qed.
End Loops.

(** * Resizing *)
Notation map_links := (gmap map_node (option map_node * option map_node)).
Section Heads.
Implicit Types (m : map_links) (F : gmap map_node (list map_node)).
Lemma dlists_sub m F F' : F' ⊆ F → dlists m F → dlists m F'.
Proof.
  intros Hs [Dc Dn Dd]. assert (∀ h l, F' !! h = Some l → F !! h = Some l) as Hl by (intros h l E; by apply (lookup_weaken F' F)).
  split; [intros h l E; by apply Dc, Hl|intros h l E; by eapply Dn, Hl|intros h1 l1 h2 l2 E1 E2; by apply Dd; apply Hl].
Qed.
Lemma delete_heads l m F : dlists m F → (∀ b, b ∈ l → free_node F b) →
  dlists (foldl (λ m b, delete b m) m l) F ∧ ∀ n, n ∉ l → n ∈ dom m → n ∈ dom (foldl (λ m b, delete b m) m l).
Proof.
  revert m. induction l as [|b l IH]; intros m D Hf; cbn; [done|]. destruct (IH (delete b m)) as [D' Hd]; [apply dlists_delete; [done|set_solver]|set_solver|].
  split; [done|]. intros n Hn Hm. apply Hd; set_solver.
Qed.
Lemma alloc_heads l m F : dlists m F → (∀ b, b ∈ l → free_node F b) →
  dlists (foldl alloc_node m l) F ∧ ∀ n, n ∈ l ∨ n ∈ dom m → n ∈ dom (foldl alloc_node m l).
Proof.
  revert m. induction l as [|b l IH]; intros m D Hf; cbn; [split; [done|set_solver]|]. destruct (IH (alloc_node m b)) as [D' Hd]; [apply dlists_alloc; [done|set_solver]|set_solver|].
  split; [done|]. intros n [[->|Hn]%elem_of_cons|Hn]; apply Hd; [right|by left|right]; unfold alloc_node; set_solver.
Qed.
Lemma init_heads l m F : dlists m F → NoDup l → (∀ b, b ∈ l → F !! b = None ∧ free_node F b ∧ b ∈ dom m) →
  ∃ m' F', init_buckets l m = Some m' ∧ dom m' = dom m ∧ dlists m' F' ∧ (∀ b, b ∈ l → F' !! b = Some []) ∧ ∀ h, h ∉ l → F' !! h = F !! h.
Proof.
  revert m F. induction l as [|b l IH]; intros m F D Hn Hb; cbn.
  - exists m, F. do 3 (split; [done|]). split; [by intros ? ?%not_elem_of_nil|done].
  - apply NoDup_cons in Hn as [Hbl Hn]. destruct (Hb b ltac:(set_solver)) as (Eb & Hf & Hd). destruct (dlists_init m F b D Eb Hf Hd) as (m1 & -> & Dm & D1). cbn [mbind option_bind].
    destruct (IH m1 _ D1 Hn) as (m' & F' & E & Dm' & D' & H1 & H2).
    { intros b' Hb'. destruct (Hb b' ltac:(set_solver)) as (Eb' & Hf' & Hd'). assert (b ≠ b') by set_solver. rewrite lookup_insert_ne by done. split; [done|]. rewrite Dm. split; [|done].
      intros h l0 E0 Hin. apply lookup_insert_Some in E0 as [[<- <-]|[_ E0]]; [set_solver|by apply (Hf' h l0)]. }
    exists m', F'. split; [done|]. split; [congruence|]. split; [done|]. split.
    + intros b' [->|Hb']%elem_of_cons; [|by apply H1]. rewrite H2 by done. by rewrite lookup_insert_eq.
    + intros h Hh. rewrite H2 by set_solver. by rewrite lookup_insert_ne by set_solver.
Qed.
Lemma elem_buckets n h : h ∈ buckets n ↔ ∃ b, 0 <= b < n ∧ h = Bucket b.
Proof. unfold buckets. rewrite list_elem_of_fmap. setoid_rewrite elem_of_seqZ. split; intros (b & H1 & H2); exists b; split; [lia|done|done|lia]. Qed.
Lemma nodup_buckets n : NoDup (buckets n).
Proof. unfold buckets. apply NoDup_fmap_2; [by intros ?? [=]|apply NoDup_seqZ]. Qed.
End Heads.

Section Resize.
Context (string_at : ptr → list Z).
Notation core := (core string_at).
Implicit Types (s : JSMapState) (data : list (option entry)) (cnt : nat → nat) (M : list (option ptr)) (F : gmap map_node (list map_node)).
(** the records before a point of the list are in the new buckets *)
Record hashed s (size : Z) (l1 l2 : list ptr) F : Prop := {
  ha_links : dlists (ms_links s) F;
  ha_records : F !! Records = Some (RecordLink <$> (l1 ++ l2));
  ha_bucket : ∀ b, 0 <= b < size → ∃ l, F !! Bucket b = Some (HashLink <$> l) ∧
    ∀ r, r ∈ l ↔ r ∈ l1 ∧ ∃ mr, ms_mem s !! r = Some mr ∧ mr_empty mr = false ∧ map_hash_key string_at (mr_key mr) .& (size - 1) = b;
  ha_heads : ∀ h l, F !! h = Some l → h = Records ∨ ∃ b, 0 <= b < size ∧ h = Bucket b;
  ha_mem : ∀ r, r ∈ l1 ++ l2 → is_Some (ms_mem s !! r) ∧ HashLink r ∈ dom (ms_links s)
}.
Lemma hashed_nodup s size l1 l2 F : hashed s size l1 l2 F → NoDup (l1 ++ l2).
Proof. intros H. pose proof (dl_nodup _ _ (ha_links _ _ _ _ _ H) _ _ (ha_records _ _ _ _ _ H)) as [_ Hn]%NoDup_cons. by apply NoDup_fmap_1 in Hn. Qed.
Lemma land_range a n : 1 <= n → 0 <= a .& (n - 1) < n.
Proof.
  intros Hn. assert (0 <= n - 1 - Z.land (n - 1) a) as Hd; [|rewrite (Z.land_comm a); split; [apply Z.land_nonneg; left; lia|lia]].
  rewrite Z.sub_nocarry_ldiff; [apply Z.ldiff_nonneg; left; lia|]. apply Z.bits_inj'. intros j _. rewrite Z.ldiff_spec, Z.land_spec, Z.bits_0. by destruct (Z.testbit (n - 1) j), (Z.testbit a j).
Qed.
(** one more record goes to its bucket, or is empty *)
Lemma hashed_step s size l1 r l2 F mr : 1 <= size → hashed s size l1 (r :: l2) F → ms_mem s !! r = Some mr →
  ∃ m' F', (if mr_empty mr then Some s else map_list_add_tail s (HashLink r) (Bucket (map_hash_key string_at (mr_key mr) .& (size - 1)))) = Some (map_set_links s m') ∧
    dom m' = dom (ms_links s) ∧ hashed (map_set_links s m') size (l1 ++ [r]) l2 F'.
Proof.
  intros Hs H Em. pose proof (hashed_nodup _ _ _ _ _ H) as Hn. pose proof H as [H1 H2 H3 H4 H5]. replace (l1 ++ r :: l2) with ((l1 ++ [r]) ++ l2) in * by (by rewrite <- app_assoc).
  destruct (mr_empty mr) eqn:Ee.
  - exists (ms_links s), F. split; [f_equal; by destruct s|]. split; [done|]. split; try done. intros b Hb. destruct (H3 b Hb) as (l & E & Hl). exists l. split; [done|]. intros r'. rewrite Hl, elem_of_app, list_elem_of_singleton. cbn.
    split; [intros [? ?]; split; [by left|done]|]. intros ([Hr| ->] & mr' & Em' & He' & Hbk); [split; [done|]; eauto|]. congruence.
  - set (b := map_hash_key string_at (mr_key mr) .& (size - 1)). pose proof (land_range (map_hash_key string_at (mr_key mr)) size Hs) as Hb. fold b in Hb.
    destruct (H3 b Hb) as (l & E & Hl). destruct (H5 r ltac:(set_solver)) as [_ Hd].
    assert (r ∉ l1) as Hr1 by (apply NoDup_app in Hn as (Hn & _ & _); apply NoDup_app in Hn as (_ & Hn & _); intros Hin; apply (Hn r Hin); set_solver).
    assert (free_node F (HashLink r)) as Hf.
    { intros h l0 E0 Hin. destruct (H4 h l0 E0) as [->|(b' & Hb' & ->)].
      - rewrite H2 in E0. injection E0 as <-. apply elem_of_cons in Hin as [?|Hin]; [done|]. by apply list_elem_of_fmap in Hin as (? & [=] & _).
      - destruct (H3 b' Hb') as (l' & E' & Hl'). rewrite E' in E0. injection E0 as <-. apply elem_of_cons in Hin as [?|Hin]; [done|]. apply list_elem_of_fmap in Hin as (? & [= <-] & Hin). by apply Hl' in Hin as [Hin _]. }
    destruct (dlists_add_tail _ _ _ _ (HashLink r) H1 E Hf Hd) as (m' & Ea & Dm & D'). exists m', (<[Bucket b := (HashLink <$> l) ++ [HashLink r]]> F).
    split; [unfold map_list_add_tail; by rewrite Ea|]. split; [done|]. split; cbn; try done.
    + by rewrite lookup_insert_ne.
    + intros b' Hb'. destruct (decide (b' = b)) as [->|Hne].
      * exists (l ++ [r]). rewrite lookup_insert_eq, fmap_app. split; [done|]. intros r'. rewrite !elem_of_app, !list_elem_of_singleton, Hl. cbn.
        split; [intros [[? ?]| ->]; [split; [by left|done]|split; [by right|eauto]]|]. intros [[Hr'|Hr'] Hx]; [by left|by right].
      * rewrite lookup_insert_ne by congruence. destruct (H3 b' Hb') as (l' & E' & Hl'). exists l'. split; [done|]. intros r'. rewrite Hl', elem_of_app, list_elem_of_singleton.
        cbn. split; [intros [? ?]; split; [by left|done]|]. intros ([Hr'| ->] & mr' & Em' & He & Hbk); [split; [done|]; eauto|]. assert (mr' = mr) as -> by congruence. by destruct Hne.
    + intros h l0 E0. apply lookup_insert_Some in E0 as [[<- _]|[_ E0]]; [right; eauto|eauto].
    + intros r' Hr'. rewrite Dm. by apply H5.
Qed.
Lemma rehash_ok s size l1 l2 F fuel : 1 <= size → hashed s size l1 l2 F → (length l2 <= fuel)%nat →
  ∃ m' F', rehash_loop string_at fuel s size (hd Records (RecordLink <$> l2)) = Some (map_set_links s m') ∧ dom m' = dom (ms_links s) ∧ hashed (map_set_links s m') size (l1 ++ l2) [] F'.
Proof.
  intros Hs. revert s l1 F fuel. induction l2 as [|r l2 IH]; intros s l1 F fuel H Hf; cbn.
  - exists (ms_links s), F. assert (map_set_links s (ms_links s) = s) as -> by (by destruct s). split; [by destruct fuel|]. split; [done|]. by rewrite app_nil_r.
  - destruct fuel as [|fuel]; cbn in Hf; [lia|]. cbn. destruct (ha_mem _ _ _ _ _ H r ltac:(set_solver)) as [[mr Em] _]. rewrite Em. cbn.
    destruct (hashed_step s size l1 r l2 F mr Hs H Em) as (m1 & F1 & -> & Dm & H'). cbn [mbind option_bind].
    pose proof (ha_records _ _ _ _ _ H') as E. rewrite <- app_assoc, fmap_app in E. cbn in E. rewrite (dlists_next _ _ _ _ _ _ (ha_links _ _ _ _ _ H') E). cbn [mbind option_bind].
    destruct (IH _ _ _ fuel H' ltac:(lia)) as (m' & F' & E' & Dm' & H''). exists m', F'. rewrite <- app_assoc in H''. cbn in *. split; [done|]. split; [congruence|done].
Qed.
(** a size that there can be *)
Definition size_ok s (slack : option Z) : Prop := ∀ n, slack = Some n → 0 <= n ∧ 4 + ms_hash_size s * 2 + n < 2 ^ 32.
Lemma core_resize s data cnt M F slack : core s data cnt M F None → size_ok s slack →
  ∃ s' F', map_hash_resize string_at s slack = Some s' ∧ ms_mem s' = ms_mem s ∧ ms_iters s' = ms_iters s ∧ ms_record_count s' = ms_record_count s ∧ core s' data cnt M F' None.
Proof.
  intros C Hok. unfold map_hash_resize. destruct slack as [n|]; [|by exists s, F]. destruct (Hok n eq_refl) as [Hn Hmax]. pose proof C as [C1 C2 C3 C4 C5 C6 C7 C8 C9].
  set (size := u32 _). assert (1 <= size < 2 ^ 32) as Hsize.
  { subst size. destruct (Z.eqb_spec (ms_hash_size s) 1); unfold u32; rewrite ?(Z.mod_small (ms_hash_size s * 2)) by lia; rewrite Z.mod_small by lia; lia. }
  clearbody size. set (F0 := {[Records := RecordLink <$> omap id M]} : gmap map_node (list map_node)).
  assert (dlists (ms_links s) F0) as D0 by (apply (dlists_sub _ F); [subst F0; by apply map_singleton_subseteq_l|done]).
  assert (∀ b, free_node F0 (Bucket b)) as Hf by (intros b h l E Hin; subst F0; apply lookup_singleton_Some in E as [<- <-]; apply elem_of_cons in Hin as [?|Hin]; [done|]; by apply list_elem_of_fmap in Hin as (? & [=] & _)).
  assert (∀ m b, b ∈ buckets m → free_node F0 b) as Hf' by (intros m b (b' & _ & ->)%elem_buckets; apply Hf).
  destruct (delete_heads (buckets (ms_hash_size s)) _ _ D0 (Hf' _)) as [D1 Hd1]. destruct (alloc_heads (buckets size) _ _ D1 (Hf' _)) as [D2 Hd2].
  destruct (init_heads (buckets size) _ _ D2 (nodup_buckets _)) as (m3 & F3 & E3 & Dm3 & D3 & Hb3 & Hr3).
  { intros b Hb. split; [|split; [by eapply Hf'|apply Hd2; by left]]. apply elem_buckets in Hb as (b' & _ & ->). subst F0. by apply lookup_singleton_None. }
  rewrite E3. cbn [mbind option_bind].
  assert (F3 !! Records = Some (RecordLink <$> omap id M)) as E by (rewrite Hr3; [subst F0; by apply lookup_singleton_Some|by intros (? & _ & [=])%elem_buckets]).
  rewrite (dlists_first _ _ _ _ D3 E). cbn [mbind option_bind].
  assert (∀ r, is_Some (ms_mem s !! r) → RecordLink r ∈ dom m3 ∧ HashLink r ∈ dom m3) as Hd3.
  { intros r Hr. rewrite Dm3. destruct (C8 r Hr) as [A1 A2]. split; apply Hd2; right; apply Hd1; try done; by intros (? & _ & [=])%elem_buckets. }
  destruct (rehash_ok (map_set_links s m3) size [] (omap id M) F3 (map_fuel s)) as (m4 & F4 & -> & Dm4 & [H1 H2 H3 H4 H5]); [lia| | |].
  { split; cbn; try done.
    - intros b Hb. exists []. split; [apply Hb3, elem_buckets; eauto|]. intros r. split; [by intros ?%not_elem_of_nil|]. by intros [?%not_elem_of_nil _].
    - intros h l E'. destruct (decide (h ∈ buckets size)) as [Hin|Hin]; [right; apply elem_buckets in Hin as (b & ? & ->); eauto|]. rewrite Hr3 in E' by done. subst F0. apply lookup_singleton_Some in E' as [<- _]. by left.
    - intros r Hr%slot_elem. pose proof (core_in_mem _ _ _ _ _ _ _ _ C Hr) as Hm. split; [done|]. by apply Hd3. }
  { apply (ring_fuel string_at s data cnt M F None 0 C). }
  cbn [mbind option_bind]. eexists _, F4. split; [done|]. split; [done|]. split; [done|]. split; [done|]. cbn in *. rewrite app_nil_r in *. split; cbn; try done.
  - intros b Hb. destruct (H3 b Hb) as (l & El & Hl). exists l. split; [done|]. intros r. rewrite Hl. unfold bucket_of. cbn. split; [by intros [_ ?]|]. intros (_ & mr & Em & Hx). split; [|eauto]. apply slot_elem, C5. eauto.
  - intros r Hr. rewrite Dm4. by apply Hd3.
Qed.
End Resize.
