(* ===== verification/MapRefine.v ===== *)
(** * A table refines its data (js/quickjs.c)

    Iterators that die, deletion and lookup. *)
From stdpp Require Import gmap.
From S2P Require Import Prelude DList GcHeap MapTable MapSpec MapRep.

(** * Iterators *)
Section State.
Context (string_at : ptr → list Z).
Notation core := (core string_at).
Implicit Types (s : JSMapState) (sp : map_spec) (M : list (option ptr)) (F : gmap map_node (list map_node)) (x : option ptr).
(** the iterators that stand on an entry *)
Definition stand sp (i : nat) : nat := standing (sp_iters sp) (S i).
Definition iter_of M (p : JSIteratorKindEnum * option nat) : JSMapIteratorData :=
  match p.2 with None => mk_iter false p.1 None | Some O => mk_iter true p.1 None | Some (S i) => mk_iter true p.1 (mjoin (M !! i)) end.
Record rep s sp M F x : Prop := {
  rp_core : core s (sp_data sp) (stand sp) M F x;
  rp_iters : ms_iters s = iter_of M <$> sp_iters sp;
  rp_pos : ∀ it k i, sp_iters sp !! it = Some (k, Some i) → (i <= length (sp_data sp))%nat
}.
Definition same_counts s s' : Prop :=
  ms_record_count s' = ms_record_count s ∧ ms_hash_size s' = ms_hash_size s ∧ ms_record_count_threshold s' = ms_record_count_threshold s.
Lemma frame_counts s s' : frame s s' → same_counts s s'.
Proof. by intros (? & ? & ? & _). Qed.
Lemma same_counts_trans s1 s2 s3 : same_counts s1 s2 → same_counts s2 s3 → same_counts s1 s3.
Proof. intros (A1 & A2 & A3) (B1 & B2 & B3). repeat split; congruence. Qed.
Lemma core_iters s data cnt M F x I : core s data cnt M F x → core (set_iters s I) data cnt M F x.
Proof. by intros [C1 C2 C3 C4 C5 C6 C7 C8 C9]. Qed.
Lemma core_count s data cnt M F x n : core s data cnt M F x → core (set_record_count s n) data cnt M F x.
Proof. by intros [C1 C2 C3 C4 C5 C6 C7 C8 C9]. Qed.
(** the record that an iterator stands on *)
Lemma rep_standing s sp M F x it k i : rep s sp M F x → sp_iters sp !! it = Some (k, Some (S i)) → ∃ r, M !! i = Some (Some r) ∧ (0 < stand sp i)%nat.
Proof.
  intros [C _ Hp] E. pose proof (Hp it k (S i) E) as Hl. pose proof (standing_pos _ _ _ _ E) as Hs. destruct (lookup_lt_is_Some_2 (sp_data sp) i ltac:(lia)) as [e Ee].
  destruct (co_slot _ _ _ _ _ _ _ C i e Ee) as [[Hz _]|(r & _ & Er & _)]; [unfold holders, stand in Hz; lia|]. eauto.
Qed.
Lemma iters_ext M M' (I : gmap ptr (JSIteratorKindEnum * option nat)) : (∀ it k i, I !! it = Some (k, Some (S i)) → M' !! i = M !! i) → iter_of M' <$> I = iter_of M <$> I.
Proof. intros H. apply map_fmap_ext. intros it [k [[|i]|]] E; cbn; [done| |done]. unfold iter_of. cbn. by rewrite (H it k i E). Qed.
Lemma stand_delete sp it j : stand sp j = (stand (mk_spec (sp_data sp) (delete it (sp_iters sp))) j + if decide ((snd <$> sp_iters sp !! it) = Some (Some (S j))) then 1 else 0)%nat.
Proof. unfold stand. cbn. apply standing_delete. Qed.
Lemma keeps_iters s sp M M' F x it (I : gmap ptr (JSIteratorKindEnum * option nat)) k i : rep s sp M F x → keeps (sp_data sp) (stand (mk_spec (sp_data sp) I)) M M' →
  sp_iters sp !! it = Some (k, Some (S i)) → I !! it = Some (k, Some (S i)) → M' !! i = M !! i.
Proof.
  intros R Hk E E'. destruct (rep_standing _ _ _ _ _ _ _ _ R E) as (r & Er & _). rewrite Er. apply Hk; [done|]. pose proof (standing_pos _ _ _ _ E'). unfold holders, stand. cbn. lia.
Qed.
(** an iterator that stands nowhere *)
Lemma rep_drop_idle s sp M F x it : rep s sp M F x → (∀ k i, sp_iters sp !! it ≠ Some (k, Some (S i))) →
  rep (set_iters s (delete it (ms_iters s))) (mk_spec (sp_data sp) (delete it (sp_iters sp))) M F x.
Proof.
  intros [C Hi Hp] Hn. split; cbn.
  - apply core_iters. eapply core_ext; [|exact C]. intros j. rewrite (stand_delete sp it j). destruct (sp_iters sp !! it) as [[k p]|] eqn:E; cbn; [|rewrite decide_False by done; lia].
    rewrite decide_False; [lia|]. intros [= ->]. by apply (Hn k j).
  - by rewrite Hi, fmap_delete.
  - intros it' k i E. apply lookup_delete_Some in E as [_ E]. eauto.
Qed.
Lemma finalizer_ok s sp M F x it : rep s sp M F x →
  ∃ s' M' F', iterator_finalizer s it = Some s' ∧ rep s' (mk_spec (sp_data sp) (delete it (sp_iters sp))) M' F' x ∧ same_counts s s' ∧
    keeps (sp_data sp) (stand (mk_spec (sp_data sp) (delete it (sp_iters sp)))) M M'.
Proof.
  intros R. pose proof R as [C Hi Hp]. unfold iterator_finalizer. assert (ms_iters s !! it = iter_of M <$> sp_iters sp !! it) as -> by (by rewrite Hi, lookup_fmap).
  destruct (sp_iters sp !! it) as [[k p]|] eqn:E; cbn [fmap option_fmap option_map].
  2: { exists s, M, F. split; [done|]. rewrite delete_id by done. destruct sp. split; [done|]. split; [done|]. by intros ???. }
  destruct p as [[|i]|]; unfold iter_of; cbn [fst snd it_cur_record it_obj mbind option_bind].
  1,3: eexists _, M, F; split; [done|]; split; [apply rep_drop_idle; [done|]; intros k' i'; rewrite E; by intros [=]|]; split; [done|]; by intros ???.
  destruct (rep_standing _ _ _ _ _ _ _ _ R E) as (r & Er & Hs). rewrite Er. cbn.
  destruct (core_decref _ _ _ _ _ _ _ _ _ C Er Hs) as (s' & M' & F' & -> & Hf & C' & Hk & Ho). cbn. pose proof Hf as (_ & _ & _ & Hit). rewrite Hit.
  assert (∀ j, stand (mk_spec (sp_data sp) (delete it (sp_iters sp))) j = dec (stand sp) i j) as Hd.
  { intros j. unfold dec. rewrite (stand_delete sp it j), E. cbn. destruct (decide (j = i)) as [->|Hne]; [rewrite decide_True by done; lia|]. rewrite decide_False by congruence. lia. }
  assert (keeps (sp_data sp) (stand (mk_spec (sp_data sp) (delete it (sp_iters sp)))) M M') as Hk' by (intros j r' Ej Hj; apply Hk; [done|]; unfold holders in *; by rewrite <- Hd).
  eexists _, M', F'. split; [done|]. split; [|split; [by apply frame_counts in Hf|done]]. split; cbn.
  - apply core_iters. by eapply core_ext; [|exact C'].
  - rewrite Hi, <- fmap_delete. symmetry. apply iters_ext. intros it' k' i' E'. pose proof E' as [_ E'']%lookup_delete_Some. exact (keeps_iters _ _ _ _ _ _ _ _ _ _ R Hk' E'' E').
  - intros it' k' i' E'. apply lookup_delete_Some in E' as [_ E']. eauto.
Qed.
Lemma keeps_trans sp M1 M2 M3 it l : keeps (sp_data sp) (stand (mk_spec (sp_data sp) (delete it (sp_iters sp)))) M1 M2 →
  keeps (sp_data sp) (stand (spec_drop l (mk_spec (sp_data sp) (delete it (sp_iters sp))))) M2 M3 → keeps (sp_data sp) (stand (spec_drop l (mk_spec (sp_data sp) (delete it (sp_iters sp))))) M1 M3.
Proof.
  intros H1 H2 j r Ej Hj. apply H2; [|done]. apply H1; [done|]. revert Hj. unfold holders, stand, spec_drop. cbn. pose proof (standing_drop l (delete it (sp_iters sp)) (S j)). lia.
Qed.
Lemma finalize_ok l s sp M F x : rep s sp M F x →
  ∃ s' M' F', finalize l s = Some s' ∧ rep s' (spec_drop l sp) M' F' x ∧ same_counts s s' ∧ keeps (sp_data sp) (stand (spec_drop l sp)) M M'.
Proof.
  revert s sp M F. induction l as [|it l IH]; intros s sp M F R.
  - exists s, M, F. split; [done|]. split; [by destruct sp|]. split; [done|]. by intros ???.
  - destruct (finalizer_ok _ _ _ _ _ it R) as (s1 & M1 & F1 & E1 & R1 & Hc1 & Hk1). destruct (IH _ _ _ _ R1) as (s2 & M2 & F2 & E2 & R2 & Hc2 & Hk2).
    exists s2, M2, F2. cbn. rewrite E1. cbn. split; [done|]. split; [exact R2|]. split; [by eapply same_counts_trans|]. by eapply keeps_trans.
Qed.
End State.

(** * Deletion of a record *)
Section Refine.
Context (string_at : ptr → list Z) (bigint_at : ptr → Z) (dies : JSMapState → JSValue → list ptr).
Notation core := (core string_at).
Notation rep := (rep string_at).
Notation keys_ok := (keys_ok string_at bigint_at).
Notation class_of := (class_of string_at bigint_at).
Notation spec_find := (spec_find string_at bigint_at).
Implicit Types (s : JSMapState) (sp : map_spec) (data : list (option entry)) (M : list (option ptr)) (F : gmap map_node (list map_node)) (x : option ptr).
(** a table has the data and the iterators *)
Definition refines s sp : Prop := (∃ M F, rep s sp M F None) ∧ keys_ok (sp_data sp) ∧ ms_record_count s = u32 (spec_size sp).
(** iterators that died in an operation *)
Definition died (dead : list ptr) : Prop := ∀ it, it ∈ dead → ∃ s v, it ∈ dies s v.

Lemma free_value_ok v s sp M F x : rep s sp M F x → ∃ s' M' F' dead, map_free_value dies v s = Some s' ∧ rep s' (spec_drop dead sp) M' F' x ∧
  same_counts s s' ∧ keeps (sp_data sp) (stand (spec_drop dead sp)) M M' ∧ died dead ∧ dead = dies s v.
Proof.
  intros R. destruct (finalize_ok _ (dies s v) _ _ _ _ _ R) as (s' & M' & F' & E & R' & Hc & Hk). exists s', M', F', (dies s v). do 4 (split; [done|]). split; [intros it Hit; eauto|done].
Qed.
Lemma died_app l1 l2 : died l1 → died l2 → died (l1 ++ l2).
Proof. intros H1 H2 it [H|H]%elem_of_app; eauto. Qed.
Lemma spec_drop_app l1 l2 sp : spec_drop l2 (spec_drop l1 sp) = spec_drop (l1 ++ l2) sp.
Proof. unfold spec_drop. cbn. by rewrite drop_iters_app. Qed.
(** the record of an entry is given up *)
Lemma entry_release_ok s sp M F i r k v : rep s sp M F (Some r) → M !! i = Some (Some r) → sp_data sp !! i = Some (Some (k, v)) →
  ∃ s' M' F', (mr ← ms_mem s !! r;
      let n := mr_ref_count mr - 1 in
      if n =? 0 then s ← map_list_del s (RecordLink r); free_record s r else Some (put_record s r (mk_record n true JSUndefined JSUndefined))) = Some s' ∧
    rep s' (mk_spec (<[i := None]> (sp_data sp)) (sp_iters sp)) M' F' None ∧ same_counts s s' ∧ keeps (<[i := None]> (sp_data sp)) (stand sp) M M'.
Proof.
  intros [C Hi Hp] Ei Ee. destruct (core_slot_mem _ _ _ _ _ _ _ _ _ _ C Ei Ee) as [Hh Em]. pose proof (lookup_lt_Some _ _ _ Ee) as Hlt. rewrite Em. cbn [mbind option_bind record_of mr_ref_count].
  assert (holders (sp_data sp) (stand sp) i = S (stand sp i)) as Eh by (unfold holders; by rewrite Ee).
  assert (holders (<[i := None]> (sp_data sp)) (stand sp) i = stand sp i) as Eh' by (unfold holders; by rewrite list_lookup_insert_eq).
  rewrite Eh in Em |- *. replace (Z.of_nat (S (stand sp i)) - 1) with (Z.of_nat (stand sp i)) by lia. cbn zeta.
  destruct (Z.eqb_spec (Z.of_nat (stand sp i)) 0) as [Hz|Hz].
  - destruct (core_free _ _ _ _ _ _ _ i r _ (stand sp) None (record_of (Some (k, v)) (S (stand sp i))) C Ei Ee) as (s1 & s2 & F' & E1 & E2 & Hf & C'); [done|lia|by right|]. rewrite (put_same _ _ _ Em) in E1. rewrite E1. cbn [mbind option_bind].
    exists s2, (<[i := None]> M), F'. split; [done|]. split; [|split; [by apply frame_counts|]].
    + split; cbn; [done| |by setoid_rewrite length_insert]. destruct Hf as (_ & _ & _ & ->). rewrite Hi. symmetry. apply iters_ext. intros it k' j E. rewrite list_lookup_insert_ne; [done|]. intros ->.
      pose proof (standing_pos _ _ _ _ E). unfold stand in Hz. lia.
    + intros j r' Ej Hj. rewrite list_lookup_insert_ne; [done|]. intros ->. lia.
  - eexists _, M, F. split; [done|]. split; [|split; [done|by intros ???]]. split; cbn; [|done|by setoid_rewrite length_insert].
    pose proof (core_put _ _ _ _ _ _ _ i r _ None (stand sp) None C Ei Ee) as C'. rewrite Eh' in C'. apply C'; [done|lia|by right].
Qed.
Lemma delete_record_ok s sp M F i r k v : rep s sp M F None → M !! i = Some (Some r) → sp_data sp !! i = Some (Some (k, v)) →
  ∃ s' M' F' dead, map_delete_record dies s r = Some s' ∧ rep s' (spec_drop dead (mk_spec (<[i := None]> (sp_data sp)) (sp_iters sp))) M' F' None ∧
    ms_record_count s' = u32 (ms_record_count s - 1) ∧ keeps (<[i := None]> (sp_data sp)) (stand (spec_drop dead sp)) M M' ∧ died dead ∧
    ∃ s1 s2, dead = dies s1 k ++ dies s2 v.
Proof.
  intros R Ei Ee. pose proof R as [C Hi Hp]. destruct (core_slot_mem _ _ _ _ _ _ _ _ _ _ C Ei Ee) as [Hh Em]. unfold map_delete_record. rewrite Em. cbn [mbind option_bind mr_empty mr_key mr_value record_of].
  destruct (core_unhash _ _ _ _ _ _ _ _ C Em eq_refl) as (s1 & F1 & -> & Hf1 & Em1 & C1). cbn [mbind option_bind].
  assert (rep s1 sp M F1 (Some r)) as R1 by (split; [done| |done]; by destruct Hf1 as (_ & _ & _ & ->)).
  destruct (free_value_ok k _ _ _ _ _ R1) as (s2 & M2 & F2 & d2 & -> & R2 & Hc2 & Hk2 & Hd2 & Hdead2). cbn [mbind option_bind].
  destruct (free_value_ok v _ _ _ _ _ R2) as (s3 & M3 & F3 & d3 & -> & R3 & Hc3 & Hk3 & Hd3 & Hdead3). rewrite spec_drop_app in R3, Hk3. cbn [mbind option_bind].
  assert (∀ j r, M !! j = Some (Some r) → (0 < holders (sp_data sp) (stand (spec_drop (d2 ++ d3) sp)) j)%nat → M3 !! j = Some (Some r)) as Hk13.
  { intros j r' Ej Hj. apply Hk3; [|done]. apply Hk2; [done|]. revert Hj. unfold holders, stand, spec_drop. cbn. rewrite <- drop_iters_app. pose proof (standing_drop d3 (drop_iters d2 (sp_iters sp)) (S j)). lia. }
  assert (M3 !! i = Some (Some r)) as Ei3 by (apply Hk13; [done|]; unfold holders; rewrite Ee; lia).
  destruct (entry_release_ok _ _ _ _ i r k v R3 Ei3 Ee) as (s4 & M4 & F4 & E4 & R4 & Hc4 & Hk4).
  destruct (ms_mem s3 !! r) as [mr|]; [|done]. cbn [mbind option_bind] in E4 |- *. rewrite E4. cbn [mbind option_bind]. destruct R4 as [C4 I4 P4].
  eexists _, M4, F4, (d2 ++ d3). split; [done|]. split; [|split; [|split; [|split; [by apply died_app|exists s1, s2; by rewrite Hdead2, Hdead3]]]].
  - split; cbn; [by apply core_count|done|done].
  - cbn. destruct Hc4 as (-> & _), Hc3 as (-> & _), Hc2 as (-> & _). by destruct Hf1 as (-> & _).
  - intros j r' Ej Hj. apply Hk4; [|done]. apply Hk13; [done|]. revert Hj. unfold holders. cbn. destruct (decide (j = i)) as [->|Hne]; [rewrite Ee; lia|]. by rewrite list_lookup_insert_ne.
Qed.
End Refine.

(** * Construction, lookup and deletion *)
(** ** Data *)
Section Data.
Context (string_at : ptr → list Z) (bigint_at : ptr → Z).
Notation keys_ok := (keys_ok string_at bigint_at).
Notation spec_find := (spec_find string_at bigint_at).
Implicit Types data : list (option entry).
Lemma size_hole data i e : data !! i = Some (Some e) → zlen (omap id (<[i := None]> data)) = zlen (omap id data) - 1.
Proof. intros E. rewrite (slot_empty _ _ _ E), (slot_split _ _ _ E). unfold zlen. rewrite !length_app. cbn. lia. Qed.
Lemma size_set data i e e' : data !! i = Some (Some e) → zlen (omap id (<[i := Some e']> data)) = zlen (omap id data).
Proof.
  intros E. pose proof (lookup_lt_Some _ _ _ E). rewrite (slot_split data i e E), (slot_split (<[i := Some e']> data) i e'); [|by rewrite list_lookup_insert_eq].
  rewrite take_insert_ge, drop_insert_lt by lia. unfold zlen. by rewrite !length_app.
Qed.
Lemma size_app data e : zlen (omap id (data ++ [Some e])) = zlen (omap id data) + 1.
Proof. rewrite omap_app. unfold zlen. rewrite length_app. cbn. lia. Qed.
Lemma size_none data : zlen (omap id ((λ _, None : option entry) <$> data)) = 0.
Proof. by induction data. Qed.
Lemma keys_hole data i : keys_ok data → keys_ok (<[i := None]> data).
Proof.
  intros [H1 H2]. assert (∀ j k v, <[i := None]> data !! j = Some (Some (k, v)) → data !! j = Some (Some (k, v))) as Hl.
  { intros j k v E. apply list_lookup_insert_Some in E as [(_ & [=] & _)|[_ E]]. done. }
  split; [intros j k v E%Hl; eauto|intros j j' k v k' v' E%Hl E'%Hl; eauto].
Qed.
Lemma keys_set data i k v v' : data !! i = Some (Some (k, v)) → keys_ok data → keys_ok (<[i := Some (k, v')]> data).
Proof.
  intros Ei [H1 H2]. assert (∀ j k2 v2, <[i := Some (k, v')]> data !! j = Some (Some (k2, v2)) → ∃ v3, data !! j = Some (Some (k2, v3))) as Hl.
  { intros j k2 v2 E. apply list_lookup_insert_Some in E as [(<- & [= -> ->] & _)|[_ E]]; eauto. }
  split; [intros j k2 v2 [v3 E]%Hl; eauto|intros j j' k2 v2 k3 v3 [v4 E]%Hl [v5 E']%Hl; eauto].
Qed.
Lemma keys_app data k v : keys_ok data → table_key string_at bigint_at k → spec_find data k = None → keys_ok (data ++ [Some (k, v)]).
Proof.
  intros [H1 H2] Hk Hf. split.
  - intros i k' v' [E|[Hi E]]%lookup_app_Some; [eauto|]. destruct (i - length data)%nat; [by injection E as <- <-|done].
  - intros i j k1 v1 k2 v2 [E1|[Hi E1]]%lookup_app_Some [E2|[Hj E2]]%lookup_app_Some Hc; [eauto|..].
    + destruct (j - length data)%nat; [|done]. injection E2 as <- <-. by destruct (spec_find_None _ _ _ _ _ _ _ Hf E1).
    + destruct (i - length data)%nat; [|done]. injection E1 as <- <-. by destruct (spec_find_None _ _ _ _ _ _ _ Hf E2).
    + apply lookup_lt_Some in E1, E2. cbn in *. lia.
Qed.
Lemma keys_none data : keys_ok ((λ _, None) <$> data).
Proof. split; intros *; rewrite list_lookup_fmap; destruct (data !! i); done. Qed.
Lemma find_normalize data k : spec_find data (map_normalize_key k) = spec_find data k.
Proof. induction data as [|[[k' v]|] data IH]; cbn; [done| |by rewrite IH]. by rewrite class_normalize, IH. Qed.
End Data.
Lemma u32_pred a : u32 (u32 a - 1) = u32 (a - 1).
Proof. unfold u32. by rewrite Zminus_mod_idemp_l. Qed.
Lemma u32_succ a : u32 (u32 a + 1) = u32 (a + 1).
Proof. unfold u32. by rewrite Zplus_mod_idemp_l. Qed.

Section Ops.
Context (string_at : ptr → list Z) (bigint_at : ptr → Z) (dies : JSMapState → JSValue → list ptr).
Notation core := (core string_at).
Notation rep := (rep string_at).
Notation refines := (refines string_at bigint_at).
Notation died := (died dies).
Notation class_of := (class_of string_at bigint_at).
Notation spec_find := (spec_find string_at bigint_at).
Implicit Types (s : JSMapState) (sp : map_spec) (data : list (option entry)) (M : list (option ptr)) (F : gmap map_node (list map_node)).

Lemma constructor_ok : ∃ s, js_map_constructor = Some s ∧ refines s (mk_spec [] ∅).
Proof.
  unfold js_map_constructor. set (m0 := alloc_node ∅ Records).
  assert (∀ m, dlists m (∅ : gmap map_node (list map_node))) as D0 by (intros m; split; intros *; by rewrite lookup_empty).
  destruct (dlists_init m0 ∅ Records (D0 _)) as (m1 & E1 & Dm1 & D1); [done|by intros h l; rewrite lookup_empty|subst m0; unfold alloc_node; set_solver|]. rewrite E1. cbn [mbind option_bind].
  assert (free_node (<[Records := []]> ∅) (Bucket 0)) as Hf by (intros h l [[<- <-]|[_ E]]%lookup_insert_Some; [set_solver|by rewrite lookup_empty in E]).
  destruct (dlists_init (alloc_node m1 (Bucket 0)) _ (Bucket 0) (dlists_alloc _ _ _ D1 Hf)) as (m2 & E2 & Dm2 & D2); [done|done|unfold alloc_node; set_solver|]. rewrite E2. cbn [mbind option_bind].
  eexists. split; [done|]. split; [|split; [by split|done]]. exists [], (<[Bucket 0 := []]> (<[Records := []]> ∅)). split; cbn; [|done|done]. split; cbn; try done.
  - intros r [mr E]. by rewrite lookup_empty in E.
  - intros b Hb. exists []. assert (b = 0) as -> by lia. split; [done|]. intros r. split; [by intros ?%not_elem_of_nil|]. intros (_ & mr & E & _). by rewrite lookup_empty in E.
  - intros h l E. apply lookup_insert_Some in E as [[<- _]|[_ E]]; [right; exists 0; split; [lia|done]|]. apply lookup_insert_Some in E as [[<- _]|[_ E]]; [by left|]. by rewrite lookup_empty in E.
  - intros r [mr E]. by rewrite lookup_empty in E.
Qed.
(** ** Lookup *)
Lemma lookup_ok s sp k : refines s sp → int32_value k → is_Some (class_of k) →
  js_map_has string_at bigint_at s k = Some (spec_has string_at bigint_at sp k) ∧ js_map_get string_at bigint_at s k = Some (spec_get string_at bigint_at sp k).
Proof.
  intros ((M & F & R) & Hk & _) Hi Hc. pose proof (rp_core _ _ _ _ _ _ R) as C. unfold js_map_has, js_map_get, spec_has, spec_get.
  rewrite (find_ok _ _ _ _ _ _ _ _ C Hk (normalize_table_key _ _ _ Hi Hc)), find_normalize. cbn [mbind option_bind].
  destruct (spec_find (sp_data sp) k) as [i|] eqn:Ef; cbn [mbind option_bind]; [|done]. apply spec_find_Some in Ef as (k' & v & Ei & _).
  destruct (co_slot _ _ _ _ _ _ _ C i _ Ei) as [[Hz _]|(r & _ & Er & Em)]; [unfold holders in Hz; rewrite Ei in Hz; lia|]. rewrite Er, Ei. cbn. rewrite Em. done.
Qed.
(** ** Deletion *)
Lemma delete_ok s sp k : refines s sp → int32_value k → is_Some (class_of k) →
  ∃ s' dead, js_map_delete string_at bigint_at dies s k = Some (s', spec_has string_at bigint_at sp k) ∧ refines s' (spec_drop dead (spec_delete string_at bigint_at sp k)) ∧ died dead.
Proof.
  intros H Hi Hc. pose proof H as ((M & F & R) & Hk & Hn). pose proof (rp_core _ _ _ _ _ _ R) as C. unfold js_map_delete, spec_has, spec_delete.
  rewrite (find_ok _ _ _ _ _ _ _ _ C Hk (normalize_table_key _ _ _ Hi Hc)), find_normalize. cbn [mbind option_bind].
  destruct (spec_find (sp_data sp) k) as [i|] eqn:Ef; [|exists s, []; split; [done|]; split; [by destruct sp|by intros ? ?%not_elem_of_nil]].
  apply spec_find_Some in Ef as (k' & v & Ei & _). destruct (co_slot _ _ _ _ _ _ _ C i _ Ei) as [[Hz _]|(r & _ & Er & Em)]; [unfold holders in Hz; rewrite Ei in Hz; lia|]. rewrite Er. cbn [mjoin option_join].
  destruct (delete_record_ok _ dies _ _ _ _ _ _ _ _ R Er Ei) as (s' & M' & F' & dead & -> & R' & Hn' & _ & Hd & _). cbn [mbind option_bind]. exists s', dead. split; [done|]. split; [|done].
  split; [eauto|]. cbn. split; [by apply keys_hole|]. rewrite Hn', Hn, u32_pred. unfold spec_size. cbn. by rewrite (size_hole _ _ _ Ei).
Qed.
End Ops.
