(* ===== verification/MapMethods.v ===== *)
(** * Insertion, iteration and clearing of Map and Set (js/quickjs.c)

    The loop of [js_map_clear] keeps the next record while it gives one up: it
    is right as long as no iterator that dies in it stands on an entry that
    was deleted before. *)
From stdpp Require Import gmap.
From S2P Require Import Prelude DList GcHeap MapTable MapSpec MapRep MapRefine.

(** * Insertion *)
Lemma alter_at {B} (f : B → B) (l : list B) (i : nat) y : l !! i = Some y → alter f i l = <[i := f y]> l.
Proof. revert i. induction l as [|z l IH]; intros [|i]; cbn; [done|done|by intros [= ->]|intros E; f_equal; by apply IH]. Qed.
Section Methods.
Context (string_at : ptr → list Z) (bigint_at : ptr → Z) (dies : JSMapState → JSValue → list ptr).
Notation core := (core string_at).
Notation rep := (rep string_at).
Notation refines := (refines string_at bigint_at).
Notation died := (died dies).
Notation class_of := (class_of string_at bigint_at).
Notation spec_find := (spec_find string_at bigint_at).
Implicit Types (s : JSMapState) (sp : map_spec) (data : list (option entry)) (M : list (option ptr)) (F : gmap map_node (list map_node)).

(** ** Insertion *)
(** the value of an entry changes *)
Lemma put_value_ok s sp M F i r k v v' : rep s sp M F None → M !! i = Some (Some r) → sp_data sp !! i = Some (Some (k, v)) →
  ∃ mr, ms_mem s !! r = Some mr ∧ rep (put_record s r (mk_record (mr_ref_count mr) (mr_empty mr) (mr_key mr) v')) (mk_spec (<[i := Some (k, v')]> (sp_data sp)) (sp_iters sp)) M F None.
Proof.
  intros [C Hi Hp] Er Ee. destruct (core_slot_mem _ _ _ _ _ _ _ _ _ _ C Er Ee) as [Hh Em]. eexists. split; [exact Em|]. pose proof (lookup_lt_Some _ _ _ Ee).
  pose proof (core_put _ _ _ _ _ _ _ i r _ (Some (k, v')) (stand sp) None C Er Ee) as C'.
  assert (holders (<[i := Some (k, v')]> (sp_data sp)) (stand sp) i = holders (sp_data sp) (stand sp) i) as Eh by (unfold holders; by rewrite list_lookup_insert_eq, Ee). rewrite Eh in C'.
  split; cbn; [apply C'; [done|done|by left]|done|by setoid_rewrite length_insert].
Qed.
Lemma add_ok s sp M F k r slack : rep s sp M F None → ms_mem s !! r = None → size_ok s slack →
  ∃ s' F', map_add_record string_at s (Some r, slack) k = Some (s', Some r) ∧ ms_record_count s' = u32 (ms_record_count s + 1) ∧
    rep s' (mk_spec (sp_data sp ++ [Some (k, JSUndefined)]) (sp_iters sp)) (M ++ [Some r]) F' None.
Proof.
  intros [C Hi Hp] Er Hok. unfold map_add_record. cbn [fst snd].
  assert (stand sp (length (sp_data sp)) = O) as Hz by (apply standing_zero; intros it k' E%Hp; lia).
  destruct (core_add _ _ _ _ _ _ r k C Er Hz) as (s1 & s2 & F2 & E1 & E2 & Hf & Em & C2). cbn zeta in E1. unfold bucket_of in E1. rewrite E1. cbn [mbind option_bind]. rewrite E2. cbn [mbind option_bind].
  destruct Hf as (Hc & Hs & Ht & Hit). set (s3 := set_record_count s2 _).
  assert (∃ s' F', (if ms_record_count s3 >=? ms_record_count_threshold s3 then map_hash_resize string_at s3 slack else Some s3) = Some s' ∧ ms_iters s' = ms_iters s ∧ ms_record_count s' = u32 (ms_record_count s + 1) ∧
    core s' (sp_data sp ++ [Some (k, JSUndefined)]) (stand sp) (M ++ [Some r]) F' None) as (s' & F' & -> & Hit' & Hc' & C').
  { assert (core s3 (sp_data sp ++ [Some (k, JSUndefined)]) (stand sp) (M ++ [Some r]) F2 None) as C3 by (by apply core_count).
    destruct (_ >=? _); [|exists s3, F2; cbn; by rewrite Hc].
    destruct (core_resize _ _ _ _ _ _ slack C3) as (s' & F' & E & _ & Hit' & Hc' & C'); [intros n En; cbn; rewrite Hs; by apply Hok|]. exists s', F'. rewrite E, Hit', Hc'. cbn. rewrite Hc. done. }
  cbn [mbind option_bind]. exists s', F'. split; [done|]. split; [done|]. split; cbn; [done| |].
  - rewrite Hit', Hi. symmetry. apply iters_ext. intros it k' i E. rewrite lookup_app_l; [done|]. rewrite (co_len _ _ _ _ _ _ _ C). specialize (Hp _ _ _ E). lia.
  - intros it k' i E. rewrite length_app. specialize (Hp _ _ _ E). lia.
Qed.
(** memory that is not in use, and a size that there can be *)
Definition room s (mem : option ptr * option Z) : Prop := (∀ r, mem.1 = Some r → ms_mem s !! r = None) ∧ size_ok s mem.2.
Lemma set_ok is_set s sp mem k v : refines s sp → int32_value k → is_Some (class_of k) → room s mem →
  ∃ s' ok dead, js_map_set string_at bigint_at dies is_set s mem k v = Some (s', ok) ∧ died dead ∧
    if (ok : bool) then refines s' (spec_drop dead (spec_set string_at bigint_at sp k (if is_set then JSUndefined else v)))
    else s' = s ∧ mem.1 = None ∧ spec_has string_at bigint_at sp k = false.
Proof.
  intros H Hi Hc [Hm Hok]. pose proof H as ((M & F & R) & Hk & Hn). pose proof (rp_core _ _ _ _ _ _ R) as C. unfold js_map_set, spec_set, spec_has. set (v' := if is_set then JSUndefined else v). clearbody v'.
  pose proof (normalize_table_key _ _ _ Hi Hc) as Tk. rewrite (find_ok _ _ _ _ _ _ _ _ C Hk Tk), find_normalize. cbn [mbind option_bind].
  destruct (spec_find (sp_data sp) k) as [i|] eqn:Ef.
  - apply spec_find_Some in Ef as (k' & v0 & Ei & _). destruct (co_slot _ _ _ _ _ _ _ C i _ Ei) as [[Hz _]|(r & _ & Er & Em)]; [unfold holders in Hz; rewrite Ei in Hz; lia|].
    rewrite Er. cbn [mjoin option_join]. rewrite Em. cbn [mbind option_bind mr_value record_of].
    destruct (free_value_ok _ dies v0 _ _ _ _ _ R) as (s1 & M1 & F1 & dead & -> & R1 & (Hc1 & _) & Hk1 & Hd & _). cbn [mbind option_bind].
    assert (M1 !! i = Some (Some r)) as Er1 by (apply Hk1; [done|]; unfold holders; rewrite Ei; lia).
    destruct (put_value_ok _ _ _ _ i r k' v0 v' R1 Er1 Ei) as (mr & -> & R2). cbn [mbind option_bind]. eexists _, true, dead. split; [done|]. split; [done|].
    rewrite (alter_at _ _ _ _ Ei). cbn. split; [eauto|]. cbn. split; [by eapply keys_set|]. rewrite Hc1, Hn. unfold spec_size. cbn. by rewrite (size_set _ _ _ _ Ei).
  - destruct mem as [[r|] slack]; cbn in Hm, Hok; [|exists s, false, []; split; [done|]; split; [by intros ? ?%not_elem_of_nil|done]].
    destruct (add_ok _ _ _ _ (map_normalize_key k) r slack R (Hm r eq_refl) Hok) as (s1 & F1 & -> & Hn1 & R1). cbn [mbind option_bind].
    assert ((M ++ [Some r]) !! length (sp_data sp) = Some (Some r)) as Er1 by (rewrite <- (co_len _ _ _ _ _ _ _ C), lookup_app_r, Nat.sub_diag by lia; done).
    destruct (put_value_ok _ _ _ _ (length (sp_data sp)) r (map_normalize_key k) JSUndefined v' R1 Er1) as (mr & -> & R2); [cbn; rewrite lookup_app_r, Nat.sub_diag by lia; done|].
    cbn [mbind option_bind]. eexists _, true, []. split; [done|]. split; [by intros ? ?%not_elem_of_nil|]. cbn in R2. rewrite insert_app_r_alt, Nat.sub_diag in R2 by lia. cbn in R2.
    split; [eauto|]. cbn. split; [apply keys_app; [done|done|by rewrite find_normalize]|]. rewrite Hn1, Hn, u32_succ. unfold spec_size. cbn. by rewrite size_app.
Qed.
End Methods.

(** * Iteration *)
Section Iter.
Context (string_at : ptr → list Z) (bigint_at : ptr → Z) (dies : JSMapState → JSValue → list ptr).
Notation core := (core string_at).
Notation rep := (rep string_at).
Notation refines := (refines string_at bigint_at).
Notation died := (died dies).
Implicit Types (s : JSMapState) (sp : map_spec) (data : list (option entry)) (M : list (option ptr)) (F : gmap map_node (list map_node)).

Lemma node_from_ext M M' i : length M' = length M → (∀ j, (i <= j)%nat → M' !! j = M !! j) → drop i M' = drop i M.
Proof. intros Hl H. apply list_eq. intros j. rewrite !lookup_drop. apply H. lia. Qed.
(** ** Iterators *)
Lemma iterator_ok s sp it kind : refines s sp → sp_iters sp !! it = None → refines (js_create_map_iterator s it kind) (spec_iterator sp it kind).
Proof.
  intros ((M & F & [C Hi Hp]) & Hk & Hn) Hit. split; [|done]. exists M, F. split; cbn.
  - apply core_iters. eapply core_ext; [|exact C]. intros j. unfold stand. cbn. rewrite standing_insert, decide_False by done. rewrite delete_id by done. lia.
  - by rewrite Hi, fmap_insert.
  - intros it' k i E. apply lookup_insert_Some in E as [[_ [= _ <-]]|[_ E]]; [lia|eauto].
Qed.
(** the iterator leaves its record *)
Lemma next_start s sp M F it k i : rep s sp M F None → sp_iters sp !! it = Some (k, Some i) →
  let sp' := mk_spec (sp_data sp) (delete it (sp_iters sp)) in
  ∃ s1 M1 F1, (match it_cur_record (iter_of M (k, Some i)) with
      | None => el ← get_next (ms_links s) Records; Some (s, el)
      | Some r => el ← get_next (ms_links s) (RecordLink r); s ← map_decref_record s r; Some (s, el)
      end) = Some (s1, node_from M1 i) ∧ frame s s1 ∧ core s1 (sp_data sp) (stand sp') M1 F1 None ∧ keeps (sp_data sp) (stand sp') M M1.
Proof.
  intros R E sp'. pose proof R as [C Hi Hp]. destruct i as [|i]; cbn [iter_of it_cur_record snd fst].
  - rewrite (node_first _ _ _ _ _ _ _ C). cbn [mbind option_bind]. exists s, M, F. split; [done|]. split; [done|]. split; [|by intros ???]. eapply core_ext; [|exact C].
    intros j. rewrite (stand_delete sp it j), E. subst sp'. cbn. rewrite decide_False by congruence. lia.
  - destruct (rep_standing _ _ _ _ _ _ _ _ _ R E) as (r & Er & Hs). rewrite Er. cbn [mjoin option_join]. rewrite (node_next _ _ _ _ _ _ _ _ _ C Er). cbn [mbind option_bind].
    destruct (core_decref _ _ _ _ _ _ _ _ _ C Er Hs) as (s1 & M1 & F1 & -> & Hf & C1 & Hk & Ho). cbn [mbind option_bind].
    assert (∀ j, stand sp' j = dec (stand sp) i j) as Hd.
    { intros j. unfold dec. pose proof (stand_delete sp it j) as Hsd. rewrite E in Hsd. cbn in Hsd. fold sp' in Hsd. destruct (decide (j = i)) as [->|Hne]; [rewrite decide_True in Hsd by done; lia|]. rewrite decide_False in Hsd by congruence. lia. }
    exists s1, M1, F1. split; [|split; [done|split; [by eapply core_ext|intros j r' Ej Hj; apply Hk; [done|]; unfold holders in *; by rewrite <- Hd]]].
    do 2 f_equal. unfold node_from. do 3 f_equal. symmetry. apply node_from_ext; [by rewrite (co_len _ _ _ _ _ _ _ C), (co_len _ _ _ _ _ _ _ C1)|]. intros j Hj. apply Ho. lia.
Qed.
(** the iterators after one of them has moved *)
Lemma iters_move s sp M M1 F it k p p' : rep s sp M F None → sp_iters sp !! it = Some (k, p) →
  keeps (sp_data sp) (stand (mk_spec (sp_data sp) (delete it (sp_iters sp)))) M M1 →
  <[it := iter_of M1 (k, p')]> (ms_iters s) = iter_of M1 <$> <[it := (k, p')]> (sp_iters sp).
Proof.
  intros R E Hk. rewrite (rp_iters _ _ _ _ _ _ R). rewrite fmap_insert. rewrite <- (insert_delete_eq (iter_of M <$> sp_iters sp)), <- (insert_delete_eq (iter_of M1 <$> sp_iters sp)). f_equal. rewrite <- !fmap_delete.
  symmetry. apply iters_ext. intros it' k' i E'. pose proof E' as [_ E'']%lookup_delete_Some. exact (keeps_iters _ _ _ _ _ _ _ _ _ _ _ R Hk E'' E').
Qed.
Lemma next_ok' is_set s sp it sp' res : refines s sp → spec_next is_set sp it = Some (sp', res) →
  ∃ s', js_map_iterator_next is_set s it = Some (s', res) ∧ refines s' sp'.
Proof.
  intros H E. pose proof H as ((M & F & R) & Hk & Hn). unfold spec_next in E. destruct (sp_iters sp !! it) as [[k p]|] eqn:Eit; [|done]. cbn [mbind option_bind] in E.
  unfold js_map_iterator_next. assert (ms_iters s !! it = Some (iter_of M (k, p))) as -> by (by rewrite (rp_iters _ _ _ _ _ _ R), lookup_fmap, Eit). cbn [mbind option_bind].
  destruct p as [i|]; [|injection E as <- <-; eauto]. assert (it_obj (iter_of M (k, Some i)) = true) as -> by (by destruct i). assert (it_kind (iter_of M (k, Some i)) = k) as -> by (by destruct i). cbn [negb].
  destruct (next_start _ _ _ _ _ _ _ R Eit) as (s1 & M1 & F1 & -> & (Hc1 & _ & _ & Hit1) & C1 & Hk1). cbn [mbind option_bind].
  rewrite (next_ok _ _ _ _ _ _ _ _ _ C1 (ring_fuel _ _ _ _ _ _ _ _ C1)). cbn [mbind option_bind].
  destruct (first_entry (drop i (sp_data sp)) i) as [[j [key value]]|] eqn:Ef.
  - injection E as <- <-. apply first_entry_Some in Ef as (Hij & Ej & _). rewrite lookup_drop in Ej. replace (i + (j - i))%nat with j in Ej by lia.
    destruct (co_slot _ _ _ _ _ _ _ C1 j _ Ej) as [[Hz _]|(r & _ & Er & Em)]; [unfold holders in Hz; rewrite Ej in Hz; lia|]. rewrite Er. cbn [mjoin option_join]. rewrite Em. cbn [mbind option_bind record_of mr_ref_count mr_empty mr_key mr_value].
    eexists. split; [done|]. split; [|split; [done|cbn; by rewrite Hc1]]. exists M1, F1. split; cbn.
    + apply core_iters. pose proof (core_incref _ _ _ _ _ _ _ j r _ C1 Er Ej) as C2. cbn [record_of] in C2. rewrite Nat2Z.inj_succ in C2. eapply core_ext; [|exact C2].
      intros l. unfold stand, inc. cbn. rewrite standing_insert. destruct (decide (l = j)) as [->|Hne]; [rewrite decide_True by done; lia|]. rewrite decide_False by congruence. lia.
    + rewrite Hit1. rewrite <- (iters_move _ _ _ _ _ _ _ _ _ R Eit Hk1). unfold iter_of. cbn. by rewrite Er.
    + intros it' k' l E'. apply lookup_insert_Some in E' as [[_ [= _ <-]]|[_ E']]; [|by eapply rp_pos]. by apply lookup_lt_Some in Ej.
  - injection E as <- <-. eexists. split; [done|]. split; [|split; [done|cbn; by rewrite Hc1]]. exists M1, F1. split; cbn.
    + apply core_iters. eapply core_ext; [|exact C1]. intros l. unfold stand. cbn. rewrite standing_insert, decide_False by done. lia.
    + rewrite Hit1. by rewrite <- (iters_move _ _ _ _ _ _ _ _ _ R Eit Hk1).
    + intros it' k' l E'. apply lookup_insert_Some in E' as [[_ [=]]|[_ E']]. by eapply rp_pos.
Qed.
End Iter.

(** * Clearing *)
Lemma standing_drop_eq l (I : gmap ptr (JSIteratorKindEnum * option nat)) i : (∀ it k, it ∈ l → I !! it ≠ Some (k, Some i)) → standing (drop_iters l I) i = standing I i.
Proof.
  revert I. induction l as [|y l IH]; intros I H; [done|]. change (drop_iters (y :: l) I) with (drop_iters l (delete y I)). rewrite IH.
  - rewrite (standing_delete I y). destruct (I !! y) as [[k p]|] eqn:E; cbn; [|rewrite decide_False by done; lia]. rewrite decide_False; [lia|]. intros [= ->]. apply (H y k); [set_solver|done].
  - intros it k Hit E. apply lookup_delete_Some in E as [_ E]. apply (H it k); [set_solver|done].
Qed.
Section Clear.
Context (string_at : ptr → list Z) (bigint_at : ptr → Z) (dies : JSMapState → JSValue → list ptr).
Notation core := (core string_at).
Notation rep := (rep string_at).
Notation refines := (refines string_at bigint_at).
Notation died := (died dies).
Implicit Types (s : JSMapState) (sp : map_spec) (data : list (option entry)) (M : list (option ptr)) (F : gmap map_node (list map_node)).
(** no iterator that stands on a deleted entry, from an index on, dies *)
Definition safe_deaths sp (i : nat) : Prop := ∀ s v it k l, (i <= l)%nat → it ∈ dies s v → sp_iters sp !! it = Some (k, Some (S l)) → sp_data sp !! l ≠ Some None.
(** the records after one that is given up stay *)
Lemma delete_after s s' sp M M' F F' i r k v dead : let sp' := spec_drop dead (mk_spec (<[i := None]> (sp_data sp)) (sp_iters sp)) in
  rep s sp M F None → rep s' sp' M' F' None → M !! i = Some (Some r) → sp_data sp !! i = Some (Some (k, v)) →
  keeps (<[i := None]> (sp_data sp)) (stand (spec_drop dead sp)) M M' → died dead → safe_deaths sp (S i) → drop (S i) M' = drop (S i) M.
Proof.
  intros sp' R R' Er Ee Hk Hd Hs. pose proof (rp_core _ _ _ _ _ _ R) as C. pose proof (rp_core _ _ _ _ _ _ R') as C'.
  apply node_from_ext; [rewrite (co_len _ _ _ _ _ _ _ C), (co_len _ _ _ _ _ _ _ C'); cbn; by rewrite length_insert|]. intros j Hj.
  destruct (M !! j) as [[r'|]|] eqn:Ej.
  - apply Hk; [done|]. destruct (core_slot_data _ _ _ _ _ _ _ _ _ C Ej) as [e Eej]. pose proof (proj1 (core_slot_mem _ _ _ _ _ _ _ _ _ _ C Ej Eej)) as Hh.
    unfold holders in *. rewrite list_lookup_insert_ne by lia. rewrite Eej in *. destruct e as [e|]; [lia|]. unfold stand, spec_drop in *. cbn. rewrite standing_drop_eq; [done|].
    intros it k' Hit E. destruct (Hd it Hit) as (s0 & v0 & Hit'). by apply (Hs s0 v0 it k' j Hj Hit' E).
  - destruct (core_slot_data _ _ _ _ _ _ _ _ _ C Ej) as [e Eej]. destruct (co_slot _ _ _ _ _ _ _ C j e Eej) as [[Hz _]|(? & _ & ? & _)]; [|congruence].
    assert (sp_data sp' !! j = Some e) as Eej' by (subst sp'; cbn; by rewrite list_lookup_insert_ne by lia). destruct (co_slot _ _ _ _ _ _ _ C' j e Eej') as [[_ ->]|(? & Hp & _)]; [done|].
    unfold holders in *. rewrite Eej in Hz. rewrite Eej' in Hp. unfold stand in *. subst sp'. cbn in Hp. pose proof (standing_drop dead (sp_iters sp) (S j)). lia.
  - apply lookup_ge_None in Ej. apply lookup_ge_None. rewrite (co_len _ _ _ _ _ _ _ C'). subst sp'. cbn. rewrite length_insert, <- (co_len _ _ _ _ _ _ _ C). done.
Qed.
Lemma node_some s data cnt M F i : core s data cnt M F None → ∃ n, get_next (ms_links s) (node_from M i) = Some n.
Proof.
  intros C. unfold node_from. destruct (omap id (drop i M)) as [|r l] eqn:E; cbn; [rewrite (node_first _ _ _ _ _ _ _ C); eauto|].
  assert (r ∈ omap id (drop i M)) as [j Ej]%slot_elem%list_elem_of_lookup_1 by (rewrite E; set_solver). rewrite lookup_drop in Ej. rewrite (node_next _ _ _ _ _ _ _ _ _ C Ej). eauto.
Qed.
Lemma safe_after sp i dead : safe_deaths sp (S i) → safe_deaths (spec_drop dead (mk_spec (<[i := None]> (sp_data sp)) (sp_iters sp))) (S i).
Proof.
  intros H s v it k l Hl Hit E. cbn in *. apply drop_iters_lookup in E as [E _]. rewrite list_lookup_insert_ne by lia. by apply (H s v it k l).
Qed.
Lemma fmap_hole data i : (λ _, None : option entry) <$> <[i := None]> data = (λ _, None) <$> data.
Proof. rewrite list_fmap_insert. destruct (decide (i < length data)%nat) as [Hi|Hi]; [|apply list_insert_ge; rewrite length_fmap; lia]. apply list_insert_id. destruct (lookup_lt_is_Some_2 data i Hi) as [e E]. by rewrite list_lookup_fmap, E. Qed.
Lemma clear_loop_ok s sp M F i fuel el1 : rep s sp M F None → (∀ l, (l < i)%nat → (l < length (sp_data sp))%nat → sp_data sp !! l = Some None) → safe_deaths sp i →
  (length (omap id (drop i M)) <= fuel)%nat → get_next (ms_links s) (node_from M i) = Some el1 →
  ∃ s' M' F' dead, clear_loop dies fuel s (node_from M i) el1 = Some s' ∧ rep s' (spec_drop dead (spec_clear sp)) M' F' None ∧
    (ms_record_count s = u32 (spec_size sp) → ms_record_count s' = 0) ∧ died dead.
Proof.
  remember (length M - i)%nat as n eqn:En. revert s sp M F i fuel el1 En. induction n as [|n IH]; intros s sp M F i fuel el1 En R Hpre Hs Hf E1; pose proof (rp_core _ _ _ _ _ _ R) as C.
  - assert ((λ _, None : option entry) <$> sp_data sp = sp_data sp) as Ed.
    { apply list_eq. intros l. rewrite list_lookup_fmap. destruct (sp_data sp !! l) as [e|] eqn:E; [|done]. cbn. rewrite <- E. symmetry. apply Hpre; apply lookup_lt_Some in E; [rewrite <- (co_len _ _ _ _ _ _ _ C) in E; lia|done]. }
    exists s, M, F, []. unfold node_from. rewrite drop_ge by lia. split; [by destruct fuel|]. unfold spec_drop, spec_clear. cbn. rewrite Ed. split; [by destruct sp|]. split; [|by intros ? ?%not_elem_of_nil].
    unfold spec_size. rewrite <- Ed, size_none. done.
  - assert (i < length M)%nat as Hi by lia. assert (node_from M i = match M !! i with Some (Some r) => RecordLink r | _ => node_from M (S i) end) as En'.
    { unfold node_from. rewrite drop_slot by done. by destruct (M !! i) as [[r|]|]. }
    destruct (lookup_lt_is_Some_2 (sp_data sp) i) as [e Ee]; [by rewrite <- (co_len _ _ _ _ _ _ _ C)|].
    assert (safe_deaths sp (S i)) as Hs' by (intros s0 v it k l Hl; apply Hs; lia). rewrite drop_slot in Hf by done.
    destruct (co_slot _ _ _ _ _ _ _ C i e Ee) as [[Hz Er]|(r & _ & Er & Em)]; rewrite Er in En', Hf; cbn [app length] in Hf.
    + assert (e = None) as -> by (destruct e; [unfold holders in Hz; rewrite Ee in Hz; lia|done]). rewrite En' in E1 |- *. apply (IH s sp M F (S i)); [lia|done| |done|done|done].
      intros l Hl Hl'. destruct (decide (l = i)) as [->|]; [done|]. apply Hpre; [lia|done].
    + destruct fuel as [|fuel]; [lia|]. rewrite En'. cbn [clear_loop]. rewrite En' in E1. rewrite (node_next _ _ _ _ _ _ _ _ _ C Er) in E1. injection E1 as <-.
      destruct e as [[k v]|].
      * destruct (delete_record_ok _ dies _ _ _ _ _ _ _ _ R Er Ee) as (s1 & M1 & F1 & d1 & -> & R1 & Hc1 & Hk1 & Hd1 & _). cbn [mbind option_bind].
        pose proof (delete_after _ _ _ _ _ _ _ _ _ _ _ _ R R1 Er Ee Hk1 Hd1 Hs') as Edrop. assert (node_from M (S i) = node_from M1 (S i)) as -> by (unfold node_from; by rewrite Edrop).
        pose proof (rp_core _ _ _ _ _ _ R1) as C1. destruct (node_some _ _ _ _ _ (S i) C1) as [n1 En1]. rewrite En1. cbn [mbind option_bind].
        destruct (IH _ _ _ _ (S i) fuel n1 ltac:(rewrite (co_len _ _ _ _ _ _ _ C1); cbn; rewrite length_insert, <- (co_len _ _ _ _ _ _ _ C); lia) R1) as (s2 & M2 & F2 & d2 & -> & R2 & Hc2 & Hd2); [| |rewrite Edrop; lia|done|].
        { intros l Hl Hl'. cbn in *. rewrite length_insert in Hl'. destruct (decide (l = i)) as [->|]; [by apply list_lookup_insert_eq|]. rewrite list_lookup_insert_ne by done. apply Hpre; [lia|done]. }
        { by apply safe_after. }
        exists s2, M2, F2, (d1 ++ d2). split; [done|]. split; [|split; [|by apply died_app]].
        -- unfold spec_clear, spec_drop in R2 |- *. cbn in R2 |- *. by rewrite fmap_hole, drop_iters_app in R2.
        -- intros Hn. apply Hc2. rewrite Hc1, Hn, u32_pred. unfold spec_size. cbn. by rewrite (size_hole _ _ _ Ee).
      * unfold map_delete_record. rewrite Em. cbn [mbind option_bind mr_empty record_of]. destruct (node_some _ _ _ _ _ (S i) C) as [n1 En1]. rewrite En1. cbn [mbind option_bind].
        apply (IH s sp M F (S i) fuel n1 ltac:(lia) R); [|done|lia|done]. intros l Hl Hl'. destruct (decide (l = i)) as [->|]; [done|]. apply Hpre; [lia|done].
Qed.
Lemma clear_ok s sp : refines s sp → safe_deaths sp 0 → ∃ s' dead, js_map_clear dies s = Some s' ∧ refines s' (spec_drop dead (spec_clear sp)) ∧ died dead.
Proof.
  intros ((M & F & R) & Hk & Hn) Hs. pose proof (rp_core _ _ _ _ _ _ R) as C. unfold js_map_clear. rewrite (node_first _ _ _ _ _ _ _ C). cbn [mbind option_bind].
  destruct (node_some _ _ _ _ _ 0 C) as [el1 E1]. rewrite E1. cbn [mbind option_bind].
  destruct (clear_loop_ok _ _ _ _ 0 (map_fuel s) el1 R) as (s' & M' & F' & dead & -> & R' & Hc & Hd); [intros; lia|done|by apply (ring_fuel string_at s _ _ _ _ _ 0 C)|done|].
  exists s', dead. split; [done|]. split; [|done]. split; [eauto|]. cbn. split; [apply keys_none|]. rewrite (Hc Hn). unfold spec_size. cbn. by rewrite size_none.
Qed.
(** no record for an entry: it was deleted, and no iterator stands on it *)
Definition no_record sp (l : nat) : Prop := sp_data sp !! l = Some None ∧ ∀ it kind, sp_iters sp !! it ≠ Some (kind, Some (S l)).
Lemma no_record_slot s sp M F l : rep s sp M F None → no_record sp l → M !! l = Some None.
Proof.
  intros R [Ee Hn]. destruct (co_slot _ _ _ _ _ _ _ (rp_core _ _ _ _ _ _ R) l None Ee) as [[_ ->]|(r & Hp & _)]; [done|]. exfalso. unfold holders, stand in Hp. rewrite Ee, standing_zero in Hp; [lia|done].
Qed.
Lemma node_skip s sp M F n l r : rep s sp M F None → (∀ m, (l <= m < l + n)%nat → no_record sp m) → M !! (l + n)%nat = Some (Some r) → node_from M l = RecordLink r.
Proof.
  intros R. revert l. induction n as [|n IH]; intros l Hm Er; unfold node_from; (rewrite drop_slot; [|apply lookup_lt_Some in Er; lia]).
  - rewrite Nat.add_0_r in Er. by rewrite Er.
  - rewrite (no_record_slot _ _ _ _ l R) by (apply Hm; lia). apply IH; [intros m Hmr; apply Hm; lia|by replace (S l + n)%nat with (l + S n)%nat by lia].
Qed.
(** the record of a deleted entry goes with the iterators that stand on it *)
Lemma record_dies s s1 sp M M1 F F1 i j r2 dead : let sp' := spec_drop dead (mk_spec (<[i := None]> (sp_data sp)) (sp_iters sp)) in
  rep s sp M F None → rep s1 sp' M1 F1 None → keeps (<[i := None]> (sp_data sp)) (stand (spec_drop dead sp)) M M1 → i ≠ j → sp_data sp !! j = Some None →
  M !! j = Some (Some r2) → (∀ it kind, sp_iters sp !! it = Some (kind, Some (S j)) → it ∈ dead) → ms_mem s1 !! r2 = None.
Proof.
  intros sp' R R1 Hk Hij Ej Er2 Hd. pose proof (rp_core _ _ _ _ _ _ R) as C. pose proof (rp_core _ _ _ _ _ _ R1) as C1. apply eq_None_not_Some. intros [mr Em].
  destruct (core_record _ _ _ _ _ _ _ _ _ C1 Em) as (m & e & Er & Ee & Hp & _). assert (m ≠ j) as Hmj.
  { intros ->. subst sp'. cbn in Ee. rewrite list_lookup_insert_ne in Ee by done. rewrite Ej in Ee. injection Ee as <-. unfold holders, stand in Hp. cbn in Hp. rewrite list_lookup_insert_ne, Ej, standing_zero in Hp; [lia| |done].
    intros it kind [E Hin]%drop_iters_lookup. by apply Hin, (Hd it kind). }
  assert (0 < holders (sp_data sp) (stand sp) m)%nat as Hp0.
  { subst sp'. unfold holders, stand in Hp |- *. cbn in Hp. pose proof (standing_drop dead (sp_iters sp) (S m)). destruct (decide (m = i)) as [->|Hmi].
    - apply lookup_lt_Some in Ee. cbn in Ee. rewrite length_insert in Ee. rewrite list_lookup_insert_eq in Hp by done. lia.
    - rewrite list_lookup_insert_ne in Hp by done. lia. }
  assert (is_Some (sp_data sp !! m)) as [e0 Ee0] by (apply lookup_lt_is_Some; apply lookup_lt_Some in Ee; subst sp'; cbn in Ee; by rewrite length_insert in Ee).
  destruct (co_slot _ _ _ _ _ _ _ C m e0 Ee0) as [[Hz _]|(r' & _ & Er' & _)]; [lia|]. pose proof (Hk m r' Er' Hp) as Er1. rewrite Er in Er1. injection Er1 as <-.
  apply Hmj. by apply (slot_inj M m j r2); [eapply core_nodup; exact C| |].
Qed.
End Clear.
