(* ===== verification/MapProperties.v ===== *)
(** * What the methods of Map and Set promise (js/quickjs.c) *)
From stdpp Require Import gmap.
From S2P Require Import Prelude DList GcHeap MapTable MapSpec MapRep MapRefine MapMethods.

(** ** The memory of the strings *)
Section Strings.
Context (sa sa' : ptr → list Z) (ba ba' : ptr → Z).
(** the strings and the big integers that are keys are not freed *)
Definition key_kept (k : JSValue) : Prop := match k with JSString p => sa' p = sa p | JSBigInt p => ba' p = ba p | _ => True end.
Lemma class_kept k : key_kept k → class_of sa' ba' k = class_of sa ba k ∧ map_hash_key sa' k = map_hash_key sa k.
Proof. by destruct k; cbn; try done; intros ->. Qed.
(** the rest of the memory of the values is not looked at *)
Lemma refines_kept s sp : (∀ i k v, sp_data sp !! i = Some (Some (k, v)) → key_kept k) → refines sa ba s sp → refines sa' ba' s sp.
Proof.
  intros Hk ((M & F & [C Hi Hp]) & [K1 K2] & Hn). split; [|split; [split|done]].
  - exists M, F. split; [|done|done]. pose proof C as [C1 C2 C3 C4 C5 C6 C7 C8 C9]. split; try done. intros b Hb. destruct (C6 b Hb) as (l & E & Hl). exists l. split; [done|]. intros r. rewrite Hl.
    assert (∀ mr, ms_mem s !! r = Some mr → mr_empty mr = false → bucket_of sa' s (mr_key mr) = bucket_of sa s (mr_key mr)) as Hb'.
    { intros mr Em He. destruct (core_record _ _ _ _ _ _ _ _ _ C Em) as (i & e & _ & Ee & _ & ->). destruct e as [[k v]|]; [|done]. unfold bucket_of. cbn. by rewrite (proj2 (class_kept k (Hk _ _ _ Ee))). }
    split; intros (Hx & mr & Em & He & Hbk); (split; [done|]); exists mr; (split; [done|]; split; [done|]); rewrite <- Hbk; [|symmetry]; by apply Hb'.
  - intros i k v E. destruct (K1 _ _ _ E) as (H1 & H2 & H3). split; [done|]. split; [|done]. by rewrite (proj1 (class_kept k (Hk _ _ _ E))).
  - intros i j k v k' v' E E'. rewrite (proj1 (class_kept k (Hk _ _ _ E))), (proj1 (class_kept k' (Hk _ _ _ E'))). by apply (K2 i j k v k' v').
Qed.
End Strings.

Section Properties.
Context (string_at : ptr → list Z) (bigint_at : ptr → Z) (dies : JSMapState → JSValue → list ptr).
Notation refines := (refines string_at bigint_at).
Notation is_value k := (int32_value k ∧ is_Some (class_of string_at bigint_at k)).
Implicit Types (s : JSMapState) (sp : map_spec).
(** C7: [Map.prototype.set] and [Set.prototype.add] do to the table - its memory, the lists of its records and of its buckets, resized or not - what the language says of its data: the value of the entry with the key is replaced, or a new entry goes to the end; without memory for it nothing changes.  Iterators can only be lost by the death of the value that was replaced *)
Theorem js_map_set_refines is_set s sp mem k v : refines s sp → is_value k → room s mem →
  ∃ s' ok dead, js_map_set string_at bigint_at dies is_set s mem k v = Some (s', ok) ∧ died dies dead ∧
    if (ok : bool) then refines s' (spec_drop dead (spec_set string_at bigint_at sp k (if is_set then JSUndefined else v)))
    else s' = s ∧ mem.1 = None ∧ spec_has string_at bigint_at sp k = false.
Proof. intros H [Hi Hc] Hr. by apply set_ok. Qed.
(** C12: [has], [get] and [size] of a table answer from its data: the bucket of the hash of a key is where its entry is, if there is one, the search in it ends, and the count is that of the entries modulo 2^32 *)
Theorem js_map_lookup_refines s sp k : refines s sp → is_value k →
  js_map_has string_at bigint_at s k = Some (spec_has string_at bigint_at sp k) ∧ js_map_get string_at bigint_at s k = Some (spec_get string_at bigint_at sp k) ∧ js_map_get_size s = u32 (spec_size sp).
Proof. intros H [Hi Hc]. destruct (lookup_ok _ _ _ _ _ H Hi Hc). split; [done|]. split; [done|]. by destruct H as (_ & _ & ?). Qed.
(** C9: [delete] makes a hole of the entry with the key and says whether there was one; the iterators that do not die with the key or the value stay where they are, those that stand on the entry too, and no record is used after it was freed *)
Theorem js_map_delete_refines s sp k : refines s sp → is_value k →
  ∃ s' dead, js_map_delete string_at bigint_at dies s k = Some (s', spec_has string_at bigint_at sp k) ∧ refines s' (spec_drop dead (spec_delete string_at bigint_at sp k)) ∧ died dies dead.
Proof. intros H [Hi Hc]. by apply delete_ok. Qed.
(** C8: an iterator gives the entries from its index on, skips the holes, gives those that are inserted while it goes, and is done for good after the last one; that of a Set gives the key for the value *)
Theorem js_map_iterator_next_refines is_set s sp it sp' res : refines s sp → spec_next is_set sp it = Some (sp', res) →
  ∃ s', js_map_iterator_next is_set s it = Some (s', res) ∧ refines s' sp'.
Proof. apply next_ok'. Qed.
(** C10: [clear] makes a hole of every entry, if no iterator dies in it that stands on an entry that was deleted before *)
Theorem js_map_clear_refines s sp : refines s sp → safe_deaths dies sp 0 →
  ∃ s' dead, js_map_clear dies s = Some s' ∧ refines s' (spec_drop dead (spec_clear sp)) ∧ died dies dead.
Proof. apply clear_ok. Qed.
(** C11: that condition is needed.  If the first record is that of an entry and the next one is kept for iterators alone, that all die with the key or with the value of the entry, then the loop of [clear], which keeps the next record while it gives the first one up, goes on to a record that is not in memory any more *)
Theorem js_map_clear_use_after_free s sp i j k v : refines s sp → (i < j)%nat → sp_data sp !! i = Some (Some (k, v)) → sp_data sp !! j = Some None →
  (∀ l, (l < j)%nat → l ≠ i → no_record sp l) → (∃ it kind, sp_iters sp !! it = Some (kind, Some (S j))) →
  (∀ it kind, sp_iters sp !! it = Some (kind, Some (S j)) → (∀ s, it ∈ dies s k) ∨ (∀ s, it ∈ dies s v)) →
  ∃ r r2 s1, get_next (ms_links s) Records = Some (RecordLink r) ∧ get_next (ms_links s) (RecordLink r) = Some (RecordLink r2) ∧ is_Some (ms_mem s !! r2) ∧
    map_delete_record dies s r = Some s1 ∧ ms_mem s1 !! r2 = None ∧ (∀ fuel, clear_loop dies fuel s (RecordLink r) (RecordLink r2) = None) ∧ js_map_clear dies s = None.
Proof.
  intros ((M & F & R) & _) Hij Ei Ej Hno (it & kind & Eit) Hd. pose proof (rp_core _ _ _ _ _ _ R) as C. destruct (rep_standing _ _ _ _ _ _ _ _ _ R Eit) as (r2 & Er2 & _).
  destruct (co_slot _ _ _ _ _ _ _ C i _ Ei) as [[Hz _]|(r & _ & Er & _)]; [unfold holders in Hz; rewrite Ei in Hz; lia|].
  assert (node_from M 0 = RecordLink r) as E0 by (apply (node_skip string_at s sp M F i 0); [done|intros m Hm; apply Hno; lia|done]).
  assert (node_from M (S i) = RecordLink r2) as E2 by (apply (node_skip string_at s sp M F (j - S i)); [done|intros m Hm; apply Hno; lia|by replace (S i + (j - S i))%nat with j by lia]).
  destruct (delete_record_ok _ dies _ _ _ _ _ _ _ _ R Er Ei) as (s1 & M1 & F1 & dead & E1 & R1 & _ & Hk & _ & s2 & s3 & ->).
  assert (ms_mem s1 !! r2 = None) as Hr2 by (apply (record_dies string_at s s1 sp M M1 F F1 i j r2 (dies s2 k ++ dies s3 v) R R1 Hk); [lia|done|done|]; intros it' kind' E'; destruct (Hd it' kind' E'); set_solver).
  assert (∀ fuel, clear_loop dies fuel s (RecordLink r) (RecordLink r2) = None) as Hl.
  { intros [|fuel]; [done|]. cbn [clear_loop]. rewrite E1. cbn [mbind option_bind]. destruct (get_next _ _); [|done]. cbn [mbind option_bind]. destruct fuel; [done|]. cbn [clear_loop]. unfold map_delete_record. by rewrite Hr2. }
  pose proof (node_first _ _ _ _ _ _ _ C) as N0. pose proof (node_next _ _ _ _ _ _ _ _ _ C Er) as N1. rewrite E0 in N0. rewrite E2 in N1. exists r, r2, s1. split; [done|]. split; [done|]. split; [eapply core_in_mem; [exact C|]; by eapply list_elem_of_lookup_2|].
  split; [done|]. split; [done|]. split; [done|]. unfold js_map_clear. rewrite N0. cbn [mbind option_bind]. rewrite N1. cbn [mbind option_bind]. apply Hl.
Qed.
End Properties.

(** ** Witnesses *)
Definition demo_strings : ptr → list Z := λ _, [].
Definition demo_bigints : ptr → Z := λ _, 0.
Definition demo_spec : map_spec := mk_spec [Some (JSInt 1, JSInt 10)] {[500 := (JS_ITERATOR_KIND_KEY, Some O)]}.
Definition no_deaths : JSMapState → JSValue → list ptr := λ _ _, [].
Lemma new_table : ∃ s, js_map_constructor = Some s ∧ refines demo_strings demo_bigints s (mk_spec [] ∅) ∧ room s (Some 100, None).
Proof.
  destruct (constructor_ok demo_strings demo_bigints) as (s & E & R). exists s. split; [done|]. split; [done|]. split; [|by intros ?]. intros r _. vm_compute in E. injection E as <-. exact (lookup_empty (M:=gmap ptr) r).
Qed.
Lemma demo_table : ∃ s, refines demo_strings demo_bigints s demo_spec.
Proof.
  destruct new_table as (s & _ & R & Hr). destruct (set_ok demo_strings demo_bigints no_deaths false s _ (Some 100, None) (JSInt 1) (JSInt 10) R) as (s1 & ok & dead & _ & Hd & H); [cbn; lia|by eexists|done|].
  destruct ok; [|by destruct H as (_ & [=] & _)]. assert (dead = []) as ->.
  { destruct dead as [|it dead]; [done|]. destruct (Hd it) as (? & ? & Hin); [set_solver|]. by apply not_elem_of_nil in Hin. }
  exists (js_create_map_iterator s1 500 JS_ITERATOR_KIND_KEY). exact (iterator_ok _ _ _ _ 500 JS_ITERATOR_KIND_KEY H eq_refl).
Qed.
Lemma js_map_set_refines_witness : ∃ s s' ok, js_map_constructor = Some s ∧ js_map_set demo_strings demo_bigints no_deaths false s (Some 100, None) (JSInt 1) (JSInt 10) = Some (s', ok).
Proof.
  destruct new_table as (s & E & R & Hr).
  destruct (js_map_set_refines demo_strings demo_bigints no_deaths false s _ (Some 100, None) (JSInt 1) (JSInt 10) R) as (s1 & ok & dead & E1 & _); [split; [cbn; lia|by eexists]|done|]. by exists s, s1, ok.
Defined.
Lemma js_map_lookup_refines_witness : ∃ s, js_map_get demo_strings demo_bigints s (JSInt 1) = Some (JSInt 10).
Proof. destruct demo_table as [s R]. exists s. by apply (js_map_lookup_refines _ _ _ _ (JSInt 1) R); split; [cbn; lia|eexists]. Defined.
Lemma js_map_delete_refines_witness : ∃ s s', js_map_delete demo_strings demo_bigints no_deaths s (JSInt 1) = Some (s', true).
Proof. destruct demo_table as [s R]. destruct (js_map_delete_refines _ _ no_deaths _ _ (JSInt 1) R) as (s' & dead & E & _); [split; [cbn; lia|by eexists]|]. by exists s, s'. Defined.
Lemma js_map_iterator_next_refines_witness : ∃ s s', js_map_iterator_next false s 500 = Some (s', NextValue (JSInt 1)).
Proof. destruct demo_table as [s R]. destruct (js_map_iterator_next_refines _ _ false _ _ 500 _ (NextValue (JSInt 1)) R eq_refl) as (s' & E & _). by exists s, s'. Defined.
Lemma js_map_clear_refines_witness : ∃ s s', refines demo_strings demo_bigints s demo_spec ∧ js_map_clear no_deaths s = Some s'.
Proof. destruct demo_table as [s R]. destruct (js_map_clear_refines _ _ no_deaths _ _ R) as (s' & dead & E & _); [by intros s0 v it k l _ Hin%not_elem_of_nil|]. by exists s, s'. Defined.

(** 1 and 2 are inserted, an iterator goes over 1 and stands on 2, which is deleted; 3 is inserted *)
Definition run_ops : option (list next_result * bool) :=
  let dies := λ _ _, [] in let sa := λ _, [] in let ba := λ _, 0 in
  s ← js_map_constructor;
  '(s, _) ← js_map_set sa ba dies false s (Some 100, None) (JSInt 1) (JSInt 10);
  '(s, _) ← js_map_set sa ba dies false s (Some 101, None) (JSInt 2) (JSInt 20);
  let s := js_create_map_iterator s 500 JS_ITERATOR_KIND_KEY_AND_VALUE in
  '(s, a) ← js_map_iterator_next false s 500;
  '(s, b) ← js_map_iterator_next false s 500;
  '(s, _) ← js_map_delete sa ba dies s (JSInt 2);
  '(s, _) ← js_map_set sa ba dies false s (Some 102, None) (JSInt 3) (JSInt 30);
  '(s, c) ← js_map_iterator_next false s 500;
  '(s, d) ← js_map_iterator_next false s 500;
  h ← js_map_has sa ba s (JSInt 2);
  Some ([a; b; c; d], h).
Example run_ops_result : run_ops = Some ([NextArray (JSInt 1) (JSInt 10); NextArray (JSInt 2) (JSInt 20); NextArray (JSInt 3) (JSInt 30); NextDone], false).
Proof. vm_compute. reflexivity. Qed.


(** the iterator 500 goes past 1 and 2, and 2 is deleted; then the table has it, an object at that address, as the value of 1, and nothing else does *)
Definition self_spec : map_spec := mk_spec [Some (JSInt 1, JSObject 500); None] {[500 := (JS_ITERATOR_KIND_KEY, Some 2%nat)]}.
Definition self_dies : JSMapState → JSValue → list ptr := λ _ v, match v with JSObject p => [p] | _ => [] end.
Lemma no_deaths_died dead : died no_deaths dead → dead = [].
Proof. destruct dead as [|it dead]; [done|]. intros Hd. destruct (Hd it) as (? & ? & Hin); [set_solver|]. by apply not_elem_of_nil in Hin. Qed.
Lemma demo_set s sp k v : refines demo_strings demo_bigints s sp → int32_value k → is_Some (class_of demo_strings demo_bigints k) →
  ∃ s', refines demo_strings demo_bigints s' (spec_set demo_strings demo_bigints sp k v).
Proof.
  intros R Hi Hc. set (r := fresh (dom (ms_mem s))). destruct (set_ok demo_strings demo_bigints no_deaths false s sp (Some r, None) k v R Hi Hc) as (s1 & ok & dead & _ & Hd & H).
  - split; [|by intros ?]. intros r' [= <-]. apply not_elem_of_dom, is_fresh.
  - destruct ok; [|by destruct H as (_ & ? & _)]. rewrite (no_deaths_died _ Hd) in H. exists s1. by destruct (spec_set _ _ _ _ _).
Qed.
Lemma demo_next s sp it sp' res : refines demo_strings demo_bigints s sp → spec_next false sp it = Some (sp', res) → ∃ s', refines demo_strings demo_bigints s' sp'.
Proof. intros R E. destruct (next_ok' _ _ false _ _ _ _ _ R E) as (s' & _ & H). by exists s'. Qed.
Lemma self_table : ∃ s, refines demo_strings demo_bigints s self_spec.
Proof.
  destruct new_table as (s0 & _ & R0 & _). destruct (demo_set _ _ (JSInt 1) (JSInt 10) R0) as [s1 R1]; [cbn; lia|by eexists|]. destruct (demo_set _ _ (JSInt 2) (JSInt 20) R1) as [s2 R2]; [cbn; lia|by eexists|].
  pose proof (iterator_ok _ _ _ _ 500 JS_ITERATOR_KIND_KEY R2 eq_refl) as R3. destruct (demo_next _ _ 500 _ _ R3 eq_refl) as [s4 R4]. destruct (demo_next _ _ 500 _ _ R4 eq_refl) as [s5 R5].
  destruct (delete_ok _ _ no_deaths _ _ (JSInt 2) R5) as (s6 & dead & _ & R6 & Hd); [cbn; lia|by eexists|]. rewrite (no_deaths_died _ Hd) in R6.
  destruct (demo_set _ _ (JSInt 1) (JSObject 500) R6) as [s7 R7]; [cbn; lia|by eexists|]. exists s7. exact R7.
Qed.
Lemma js_map_clear_use_after_free_witness : ∃ s, refines demo_strings demo_bigints s self_spec ∧ js_map_clear self_dies s = None.
Proof.
  destruct self_table as [s R]. exists s. split; [exact R|].
  destruct (js_map_clear_use_after_free demo_strings demo_bigints self_dies s self_spec 0 1 (JSInt 1) (JSObject 500) R) as (r & r2 & s1 & _ & _ & _ & _ & _ & _ & E); [lia|reflexivity|reflexivity|lia| | |exact E].
  - exists 500, JS_ITERATOR_KIND_KEY. vm_compute. reflexivity.
  - intros it kind E. right. intros s0. unfold self_spec in E. cbn [sp_iters] in E. apply lookup_singleton_Some in E as [<- _]. set_solver.
Defined.
